(* ===== verification/_CoqProject ===== *)
-Q . S2P
Prelude.v
Json.v
Sha256.v
Utf8.v
ToolTypes.v
ToolRegistry.v
ToolEngine.v
ToolEngineInvariant.v
ToolEngineTheorems.v
ToolSource.v
ToolDisclosure.v
AgentTypes.v
MemoryStore.v
MemoryInvariant.v
MemoryHistory.v
MemoryTheorems.v
AgentEvents.v
AgentContext.v
AgentLoop.v
AgentLoopTheorems.v
AgentLoopMemory.v
AgentDao.v
DurableStore.v
DurableLaws.v
DurableRefinement.v
TableDatabase.v
DurableTheorems.v
DurableTurns.v
DurableApproval.v
ApprovalConcurrency.v
AccessSession.v
Executors.v
ExecutorTheorems.v
ModelNames.v
Assistance.v
AgentService.v
AgentServiceTheorems.v
Password.v
IamDao.v
Iam.v
IamAuthorization.v
IamDatabase.v
IamInvariant.v
IamTheorems.v
NetAddr.v
IamAuth.v
IamAuthTheorems.v
Firewall.v
EntryPlanes.v
Traffic.v
ControlDao.v
ControlPlane.v
ControlResources.v
ControlInvariant.v
ControlBacked.v
ControlHandlers.v
ControlRows.v
ControlCascade.v
ControlDelete.v
Frontier.v
ControlDatabase.v
FrontierTheorems.v
ControlTheorems.v
DataConsoleText.v
DataConsole.v
DataConsoleHttp.v
DataConsoleTheorems.v
DataConsoleDatabase.v
AiGateway.v
AiRelay.v
AiInference.v
AiTheorems.v
AiDatabase.v
