(* ===== verification/Prelude.v ===== *)
(** * Liaison: a verification library

    Liaison gives people and an AI agent access to applications behind
    connectors.  A manager keeps accounts, resources and the agent; an entry
    layer listens on public ports and forwards connections to connectors
    ("edges").  This library models the manager's agent subsystem, identity
    and access management, its control plane and what connectors report to it,
    the data console, the AI gateway, and the entry layer's listeners, firewall
    and traffic accounting, function by function from the Go sources under src/, and proves
    what makes them correct.  Paths below are relative to
    src/pkg/liaison/manager unless they start with src/.

    ** Conventions

    A Go function on a shared object is a function of its state that returns
    the new one, beside a [result] where it returns an error (the monad [M] of
    this file).  What happens under one lock is one step; where goroutines
    interleave between locks the model is a step relation and the theorems are
    about every interleaving.  Unsigned integers are [N], signed ones [Z], and
    additions that can wrap are written with the wrap ([u64_add], [u32_add],
    [i64]).  Code outside the repository (GORM and the database, Casbin, the
    JWT, Argon2id and bcrypt libraries, model providers, tools, the operating
    system) is a parameter: a type class of operations, with what the code
    relies on as a class of laws, and an instance that satisfies the laws for
    the witnesses ([TableDatabase], [IamDatabase], [ControlDatabase],
    [DataConsoleDatabase], [AiDatabase], the demo instances beside the
    theorems).  What the code uses of Go's standard library is defined:
    JSON scanning and compaction ([Json]), SHA-256 and hex ([Sha256]), UTF-8
    ([Utf8]), addresses and networks ([NetAddr]), base32 and base64
    ([IamAuth], [Password]), string functions and errors (here).

    ** The agent (agent/, accesssession/, src/pkg/liaison/repo)

    A user's prompt opens a turn in a session; the loop asks a model, runs the
    tools the model calls through the tool engine, waits for approvals, and
    stores every step.

    - [ToolTypes], [ToolRegistry], [ToolEngine], [ToolSource], [ToolDisclosure]:
      agent/tool (types.go, catalog.go, registry.go, engine.go, pipeline.go,
      source.go, disclosure.go).  The registry is a heap of registrations with
      their leases.  [ToolEngineInvariant] and [ToolEngineTheorems]: catalog and
      registry stay in step, a call runs only exposed, bound, authorized and
      under a lease that is given back.
    - [AgentTypes], [MemoryStore]: agent/runtime types.go, model.go, store.go.
      [MemoryInvariant], [MemoryHistory], [MemoryTheorems]: the invariant of the
      store, one open turn per session, no lost update.
    - [AgentDao], [DurableStore], [DurableApproval]: dao_agent_runtime.go,
      durable_store.go, durable_approval.go over GORM.  [DurableLaws] is a small
      logic of database calls; [DurableRefinement] and [DurableTheorems] show
      that the durable store refines the in-memory one wherever the database
      fails; [DurableTurns] runs the loop on it; [ApprovalConcurrency] shows
      that an approval is consumed once, as approved, under any interleaving of
      queries, with an automaton as the specification.
    - [AgentEvents], [AgentContext], [AgentLoop]: events.go, context.go and
      shell_context.go, loop.go.  [AgentLoopTheorems] proves how a run ends
      against the interface [TurnLaws]; [AgentLoopMemory] discharges it.
    - [AccessSession], [Executors], [ExecutorTheorems]: accesssession/registry.go,
      agent/executor and agent/policy; consent before a live session is used.
    - [AgentService], [AgentServiceTheorems], [Assistance], [ModelNames]:
      agent/application, agent/assistance, agent/model/tool_names.go.

    ** Identity and access management (iam/, src/pkg/utils)

    - [Password], [IamDao], [Iam], [IamAuth]: password.go, the rows and queries,
      authorization.go with the Casbin model, organization.go, features.go,
      jwt.go, auth.go, pat.go, middleware.go.
    - [IamAuthorization], [IamInvariant], [IamTheorems], [IamAuthTheorems]: the
      enforcer answers by the tables, the tables stay sound, an organization
      keeps an administrator, a handler runs only for a caller who has shown
      who they are, sessions and access tokens live as long as they should.

    ** The entry layer (src/pkg/entry, src/pkg/trafficconn, traffic/)

    - [Firewall]: firewall.go; an allowlist admits exactly the addresses of its
      networks.
    - [EntryPlanes]: entry.go with the listener tables of the TCP gatekeeper,
      the HTTP server and the SSH gateway; one port serves one access, and a
      deleted access frees its port.
    - [Traffic]: trafficconn.go, the records and reports of the data planes and
      traffic_collector.go down to rows; every byte is accounted for in any
      interleaving, and the goroutines that move the counters finish.

    ** The control plane (controlplane/, frontierbound/)

    An access names an application, an application the connectors that reach
    it; a running access whose connector is enabled has a listener in the entry
    layer.  Connectors call in to report themselves, devices and scans.

    - [ControlDao]: the rows and queries of src/pkg/liaison/repo on accesses,
      applications, connectors, devices, keys, tasks, rules and ownership, over
      GORM.  [ControlPlane]: lifecycle.go, proxy.go, access_protocol.go,
      firewall.go, resource_scope.go; its world is the database, the data planes
      of [EntryPlanes] and the machine.  [ControlResources]: application.go,
      edge.go, edge_install.go, device.go.  [Frontier]: auth.go, oob.go,
      device.go, device_ping.go, edge.go, task.go of frontierbound.
    - [ControlInvariant], [ControlBacked], [ControlHandlers]: a logic of the
      calls, and that every listener belongs to a running access whose
      application and connector exist, through any calls and failures.
      [ControlRows], [ControlCascade], [ControlDelete]: what deletions remove,
      that they leave no orphans and that the cascades end.  [FrontierTheorems]:
      a report is stored as a whole, a connector speaks for its own tasks only,
      and one that is connected is online.  [ControlDatabase] implements the
      interfaces; [ControlTheorems] states the properties and runs them.

    ** The data console (web/webdata_http.go, controlplane/webdata.go)

    - [DataConsoleText]: command lines of Redis, the first word of a SQL
      statement, quoted identifiers, connection parameters, paths and tokens.
    - [DataConsole]: the rows and queries of credentials and audits, and the
      operations of the control plane on them.  [DataConsoleHttp]: the store of
      sessions and the handlers, over drivers with stated laws; the registry of
      live connections is that of [AccessSession].
    - [DataConsoleTheorems]: credentials stay with their user and access, a
      statement runs only for the owner of its session and is audited, and
      sessions, connections and registrations stay in step.
      [DataConsoleDatabase]: tables and drivers in memory.

    ** The AI gateway (aigateway/, controlplane/ai_gateway.go)

    Applications behind connectors are offered as an AI API: an access maps
    aliases to models of its application, users make keys with a scope, an
    expiry and a limit of tokens.  [AiGateway] models keys, the tables and their
    queries ([AiDao], over [AiGorm] with its laws) and the service ([AI]);
    [AiRelay] the preparation of requests and the relay of event streams;
    [AiInference] the handler of inferences.  [AiTheorems]: an inference reaches
    an upstream only with a live key of the access, a model of its scope, the
    credential stored for this target and usage below the limit; usage is
    counted once and never lost; a stream is ended for the client exactly when
    the upstream ended it; a new key works until it expires.  [AiDatabase]
    implements the tables, a toy JSON and an upstream, sets an installation up
    through the service and shows the theorems on it.  An inference is one step
    at one time: the goroutine that revalidates its grant every two seconds is
    not modelled, only the [Revalidate] before the dial, and inferences that
    overlap may together pass a limit, as the documentation says.

    ** Bounds and fuel

    Loops over data recurse on the data.  The loop of a turn runs for the
    number of steps the configuration gives it, as in the code.  The walk to
    the ancestors of an organization stops after 1024 hops as the code does.
    An IPv6 address has at most eight groups, which bounds the parser of
    addresses.  The cascades of connectors and devices take a depth as fuel; two
    more than twice the number of relations between them is enough, and more
    changes nothing ([deletions_terminate]).  Comments before a SQL statement
    are skipped with the length of the statement as fuel.  TrimSpace runs with the length of the string as fuel, one byte
    at least per step.  Clocks, random bytes and identifiers are arguments.

    ** Not modelled

    Forwarding of HTTP, SSH, RDP, VNC and database protocols over network
    connections (entry/http, entry/sshgateway, web/webssh_http.go,
    web/webdesktop_http.go, dbgateway): byte streams between sockets.  The
    clients of model providers (agent/model): mapping between vendors' JSON
    formats.  Of the AI gateway: the same mapping, the relays of native Anthropic
    and of Ollama streams, the dialer, probes and listings.  Of the data console: the
    configuration of each driver, its metadata trees and value conversion, the
    listing of audits.  Of the control plane: listings and the transformation
    to API messages.  The connector (src/pkg/edge): scanning and reporting I/O.
    Generated API code, configuration, commands, and the API handlers that only
    call the control plane.  The file the first password is written to.  Log
    output everywhere.  A handler of the data console is one step: requests that
    overlap on one session are serialised by its lock in the code, and the model
    does not interleave them.

    ** Left to do

    The discovery tools of agent/tool and model settings are JSON around modelled
    functions; the frame that names the target on a stream between entry and
    edge, the SSH gateway's audit of shell commands and the AI gateway's other
    relays are the next components worth modelling. *)

From stdpp Require Export prelude gmap strings sorting pretty.
From Stdlib Require Export Ascii.

#[global] Open Scope stdpp_scope.

(** ** Go values

    [uint], [uint64] and [uint32] are [N]; the additions of the code that can
    wrap are written with [u64_add] and [u32_add].  [int] and [int64] are [Z].
    [time.Time] is the number of nanoseconds since Go's zero time, in UTC, so
    that [IsZero] is equality with 0 and [After]/[Before]/[Equal] are the order
    of [Z].  [string], [[]byte] and [json.RawMessage] are byte strings. *)

Definition u64_max : N := 2 ^ 64.
Definition u32_max : N := 2 ^ 32.
Definition u64_add (x y : N) : N := (x + y) `mod` u64_max.
Definition u32_add (x y : N) : N := (x + y) `mod` u32_max.

Definition Time := Z.
Definition IsZero (t : Time) : bool := Z.eqb t 0.
Definition After (t u : Time) : bool := Z.ltb u t.
Definition Before (t u : Time) : bool := Z.ltb t u.

Lemma u64_add_lt x y : (u64_add x y < u64_max)%N.
Proof. apply N.mod_lt. done. Qed.

Lemma u64_add_small x y : (x + y < u64_max)%N → u64_add x y = (x + y)%N.
Proof. apply N.mod_small. Qed.

Lemma u64_succ_ne x : (x < u64_max)%N → u64_add x 1 ≠ x.
Proof.
  intros Hx. unfold u64_add. destruct (decide (x + 1 = u64_max)%N) as [Heq|Hne].
  - rewrite Heq, N.Div0.mod_same. unfold u64_max in *. lia.
  - rewrite N.mod_small; [lia|]. unfold u64_max in *. lia.
Qed.

(** The quotation mark, and [strconv.Quote] on the characters that need an
    escape in the identifiers the code prints ([%q]). *)
Definition dquote : string := String (ascii_of_nat 34) EmptyString.

Fixpoint quote_body (s : string) : string :=
  match s with
  | EmptyString => EmptyString
  | String c s' =>
      (if bool_decide (c = ascii_of_nat 34) then String (ascii_of_nat 92) dquote
       else if bool_decide (c = ascii_of_nat 92) then "\\"
       else if bool_decide (c = ascii_of_nat 10) then "\n"
       else if bool_decide (c = ascii_of_nat 9) then "\t"
       else if bool_decide (c = ascii_of_nat 13) then "\r"
       else String c EmptyString) +:+ quote_body s'
  end.
Definition quote (s : string) : string := dquote +:+ quote_body s +:+ dquote.

(** [strings.TrimSpace]: the UTF-8 encodings of the runes for which
    [unicode.IsSpace] holds, taken off both ends. *)
Definition str_of (l : list nat) : string := String.string_of_list_ascii (map ascii_of_nat l).
Definition space_encodings : list string :=
  map str_of
    ([[9]; [10]; [11]; [12]; [13]; [32]; [194; 133]; [194; 160]; [225; 154; 128];
      [226; 128; 168]; [226; 128; 169]; [226; 128; 175]; [226; 129; 159]; [227; 128; 128]] ++
     map (λ k, [226; 128; 128 + k]) (seq 0 11)).

Fixpoint drop_string (n : nat) (s : string) : string :=
  match n, s with
  | S n', String _ s' => drop_string n' s'
  | _, _ => s
  end.

Fixpoint trim_prefixes (fuel : nat) (ps : list string) (s : string) : string :=
  match fuel with
  | O => s
  | S fuel' =>
      match List.find (λ p, String.prefix p s) ps with
      | Some p => trim_prefixes fuel' ps (drop_string (String.length p) s)
      | None => s
      end
  end.
Definition rev_string (s : string) : string :=
  String.string_of_list_ascii (rev (String.list_ascii_of_string s)).
Definition TrimSpace (s : string) : string :=
  let l := trim_prefixes (String.length s) space_encodings s in
  rev_string (trim_prefixes (String.length l) (map rev_string space_encodings) (rev_string l)).

(** [strings.Split] at a one-byte separator: always at least one part. *)
Fixpoint Split (s : string) (sep : ascii) : list string :=
  match s with
  | EmptyString => [EmptyString]
  | String c s' =>
      match Split s' sep with
      | [] => [] (* unreachable: see [Split_nonempty] *)
      | p :: ps => if bool_decide (c = sep) then EmptyString :: p :: ps else String c p :: ps
      end
  end.

Fixpoint contains_char (c : ascii) (s : string) : bool :=
  match s with
  | EmptyString => false
  | String c' s' => bool_decide (c = c') || contains_char c s'
  end.

Lemma Split_nonempty s sep : Split s sep ≠ [].
Proof. induction s as [|c s IH]; simpl; [done|]. destruct (Split s sep); [done|]. by case_bool_decide. Qed.

Lemma Split_none s sep : contains_char sep s = false → Split s sep = [s].
Proof.
  induction s as [|c s IH]; simpl; [done|]. rewrite orb_false_iff, bool_decide_eq_false.
  intros [Hc Hs]. rewrite IH by done. by rewrite bool_decide_eq_false_2 by done.
Qed.

Lemma Split_app s t sep :
  contains_char sep s = false → Split (s +:+ String sep t) sep = s :: Split t sep.
Proof.
  intros Hs. induction s as [|c s IH].
  - change (EmptyString +:+ String sep t) with (String sep t). simpl.
    destruct (Split t sep) eqn:E; [by apply Split_nonempty in E|]. by rewrite bool_decide_eq_true_2.
  - change (String c s +:+ String sep t) with (String c (s +:+ String sep t)).
    simpl in Hs |- *. rewrite orb_false_iff, bool_decide_eq_false in Hs. destruct Hs as [Hc Hs].
    rewrite IH by done. by rewrite bool_decide_eq_false_2 by done.
Qed.

Lemma Split_inv2 s sep a b : Split s sep = [a; b] → s = a +:+ String sep b.
Proof.
  revert a b. induction s as [|c s IH]; intros a b; simpl; [done|].
  destruct (Split s sep) as [|p ps] eqn:E; [done|].
  case_bool_decide as Hc; intros ?; simplify_eq.
  - change (EmptyString +:+ String sep b) with (String sep b). f_equal.
    clear IH. revert b E. induction s as [|d s IH]; intros b; simpl; [by intros; simplify_eq|].
    destruct (Split s sep) as [|q qs] eqn:E; [done|]. case_bool_decide; intros ?; simplify_eq.
    by rewrite (IH q).
  - rewrite (IH p b) by done. done.
Qed.

(** ** Errors

    A Go [error] value.  [ESentinel] is a package variable made by
    [errors.New], compared by identity (its name); [ENew] an error made in
    place; [EWrap] a [fmt.Errorf] with one [%w]; [EJoin] an [errors.Join] of
    two non-nil errors; [ETyped] a value of an error struct of the program
    ([P]), with the sentinel its [Unwrap] returns and its message. *)
Inductive goerror (P : Type) : Type :=
| ESentinel (name text : string)
| ENew (text : string)
| EWrap (pre : string) (e : goerror P) (post : string)
| EJoin (e1 e2 : goerror P)
| ETyped (payload : P) (text : string) (unwrap : string).
Arguments ESentinel {P} _ _.
Arguments ENew {P} _.
Arguments EWrap {P} _ _ _.
Arguments EJoin {P} _ _.
Arguments ETyped {P} _ _ _.

Section Errors.
Context {P : Type}.
Implicit Types e : goerror P.

(** The [Error] method. *)
Fixpoint Error e : string :=
  match e with
  | ESentinel _ text => text
  | ENew text => text
  | EWrap pre e' post => pre +:+ Error e' +:+ post
  | EJoin e1 e2 => Error e1 +:+ String (ascii_of_nat 10) EmptyString +:+ Error e2
  | ETyped _ text _ => text
  end.

(** [errors.Is] against a sentinel, by the sentinel's name. *)
Fixpoint Is_name e (name : string) : bool :=
  match e with
  | ESentinel n _ => bool_decide (n = name)
  | ENew _ => false
  | EWrap _ e' _ => Is_name e' name
  | EJoin e1 e2 => Is_name e1 name || Is_name e2 name
  | ETyped _ _ n => bool_decide (n = name)
  end.

Definition Is e (target : goerror P) : bool :=
  match target with
  | ESentinel n _ => Is_name e n
  | _ => false
  end.

(** [errors.As] for the program's error struct. *)
Fixpoint As e : option P :=
  match e with
  | ETyped p _ _ => Some p
  | EWrap _ e' _ => As e'
  | EJoin e1 e2 => match As e1 with Some p => Some p | None => As e2 end
  | _ => None
  end.

(** [errors.Join] of two possibly nil errors. *)
Definition Join (e1 e2 : option (goerror P)) : option (goerror P) :=
  match e1, e2 with
  | Some a, Some b => Some (EJoin a b)
  | Some a, None => Some a
  | None, b => b
  end.

Lemma Is_wrap pre e post t : Is (EWrap pre e post) t = Is e t.
Proof. by destruct t. Qed.

Lemma As_wrap pre e post : As (EWrap pre e post) = As e.
Proof. done. Qed.
End Errors.

(** ** Results and a state-and-error monad

    A Go function that returns [(T, error)] and works on a shared object is a
    function [S → result T * S]; one that returns several values with an error
    beside them returns the tuple itself. *)
Inductive result (P A : Type) : Type :=
| Ok (a : A)
| Err (e : goerror P).
Arguments Ok {P A} _.
Arguments Err {P A} _.

Definition is_ok {P A} (r : result P A) : bool := match r with Ok _ => true | Err _ => false end.

Definition M (S P A : Type) : Type := S → result P A * S.

Section Monad.
Context {S P : Type}.

Definition ret {A} (a : A) : M S P A := λ s, (Ok a, s).
Definition throw {A} (e : goerror P) : M S P A := λ s, (Err e, s).
Definition bind {A B} (m : M S P A) (k : A → M S P B) : M S P B := λ s,
  match m s with
  | (Ok a, s') => k a s'
  | (Err e, s') => (Err e, s')
  end.
Definition gets {A} (f : S → A) : M S P A := λ s, (Ok (f s), s).
Definition modify (f : S → S) : M S P unit := λ s, (Ok tt, f s).
Definition lift {A} (r : result P A) : M S P A := λ s, (r, s).
Definition of_option {A} (o : option A) (e : goerror P) : M S P A := λ s,
  (match o with Some a => Ok a | None => Err e end, s).
Definition check (o : option (goerror P)) : M S P unit := λ s,
  (match o with Some e => Err e | None => Ok tt end, s).

(** The call as it is, its error turned into another one. *)
Definition map_err {A} (f : goerror P → goerror P) (m : M S P A) : M S P A := λ s,
  match m s with
  | (Ok a, s') => (Ok a, s')
  | (Err e, s') => (Err (f e), s')
  end.
End Monad.

Declare Scope go_scope.
Delimit Scope go_scope with go.
Notation "'let!' x := m 'in' k" := (bind m (λ x, k))
  (at level 10, x name, m at level 100, k at level 200) : go_scope.
Notation "'let!' ' p := m 'in' k" := (bind m (λ p, k))
  (at level 10, p strict pattern, m at level 100, k at level 200) : go_scope.
Notation "m ;; k" := (bind m (λ _, k))
  (at level 100, k at level 200, right associativity) : go_scope.
Notation "'throw_if' b 'with' e ;; k" := (if (b : bool) then throw e else k)
  (at level 100, b at level 99, e at level 99, k at level 200, right associativity) : go_scope.
#[global] Open Scope go_scope.

(** ** Record update

    [r <| f := v |>] is [r] with field [f] set to [v].  Each record declares
    its eta expansion once ([Eta]); the setter of a projection is found by
    abstracting the projection in it. *)
Class Eta (R : Type) := { eta : R → R }.
Class Upd {R T : Type} (proj : R → T) := { upd : T → R → R }.
Arguments upd {R T} proj {_} _ _.

Ltac build_upd R proj :=
  let i := constr:(ltac:(typeclasses eauto) : Eta R) in
  let e := eval hnf in (@eta R i) in
  lazymatch eval pattern proj in e with
  | ?F proj => exact {| upd := λ v, F (λ _, v) |}
  end.
#[global] Hint Extern 0 (@Upd ?R ?T ?proj) => build_upd R proj : typeclass_instances.

Notation "r <| f := v |>" := (upd f v r)
  (at level 1, left associativity, f at level 0, v at level 99, format "r <| f  :=  v |>") : go_scope.

(** ** Contexts

    What a [context.Context] answers to [Err] when an operation starts and at
    the second look some operations take before they commit. *)
Record Ctx (P : Type) := mkCtx {
  ctx_err : option (goerror P);
  ctx_late : option (goerror P)
}.
Arguments mkCtx {P} _ _.
Arguments ctx_err {P} _.
Arguments ctx_late {P} _.

Definition Background {P} : Ctx P := mkCtx None None.
Definition WithoutCancel {P} (ctx : Ctx P) : Ctx P := Background.
Definition live {P} (ctx : Ctx P) : Prop := ctx_err ctx = None ∧ ctx_late ctx = None.

(** ** sort.Slice

    [sort.Slice] leaves a permutation of its input sorted by [less].  The
    orders of the code are strict weak orders; where no two elements of the
    input are equivalent there is only one such permutation
    ([sort_Slice_unique]), so neither the map iteration order in which the
    code collected the elements nor the sorting algorithm matters. *)
Class WeakOrder {A} (less : A → A → bool) : Prop := {
  weak_asym x y : less x y = true → less y x = false;
  weak_ntrans x y z : less y x = false → less z y = false → less z x = false
}.

Section SortSlice.
Context {A : Type} (less : A → A → bool).

Definition not_after (x y : A) : Prop := less y x = false.
#[global] Instance not_after_dec : RelDecision not_after.
Proof. intros x y. unfold not_after. apply _. Defined.

Definition sort_Slice (l : list A) : list A := merge_sort not_after l.

Lemma sort_Slice_perm l : sort_Slice l ≡ₚ l.
Proof. apply merge_sort_Permutation. Qed.

Lemma elem_of_sort_Slice l x : x ∈ sort_Slice l ↔ x ∈ l.
Proof. by rewrite sort_Slice_perm. Qed.

Lemma length_sort_Slice l : length (sort_Slice l) = length l.
Proof. by rewrite sort_Slice_perm. Qed.

Context `{!WeakOrder less}.

#[local] Instance not_after_total : Total not_after.
Proof.
  intros x y. unfold not_after.
  destruct (less y x) eqn:E; [right; by apply weak_asym|by left].
Qed.

#[local] Instance not_after_trans : Transitive not_after.
Proof. intros x y z. unfold not_after. apply weak_ntrans. Qed.

Lemma sort_Slice_sorted l : StronglySorted not_after (sort_Slice l).
Proof. apply (StronglySorted_merge_sort _). Qed.

Lemma sort_Slice_unique l l' :
  l ≡ₚ l' →
  (∀ x y, x ∈ l → y ∈ l → less x y = false → less y x = false → x = y) →
  sort_Slice l = sort_Slice l'.
Proof.
  intros Hp Hanti. apply (StronglySorted_unique_strong not_after).
  - intros x y Hx Hy. rewrite elem_of_sort_Slice in Hx, Hy.
    rewrite <- Hp in Hy. unfold not_after. eauto.
  - apply sort_Slice_sorted.
  - apply sort_Slice_sorted.
  - by rewrite !sort_Slice_perm.
Qed.
End SortSlice.

#[global] Instance string_ltb_weak {A} (f : A → string) :
  WeakOrder (λ x y, String.ltb (f x) (f y)).
Proof.
  assert (∀ s t, String.ltb s t = false ↔ String.le t s) as Hle.
  { intros s t. unfold String.le, String.leb, String.ltb.
    rewrite (String.compare_antisym t s). by destruct (s ?= t)%string. }
  split.
  - intros x y H. apply Hle. unfold String.le, String.leb, String.ltb in *.
    by destruct (f x ?= f y)%string.
  - intros x y z H1%Hle H2%Hle. apply Hle. by trans (f y).
Qed.

#[global] Instance N_ltb_weak {A} (f : A → N) : WeakOrder (λ x y, N.ltb (f x) (f y)).
Proof. split; intros *; rewrite ?N.ltb_lt, ?N.ltb_ge; lia. Qed.

Lemma string_ltb_eq s t : String.ltb s t = false → String.ltb t s = false → s = t.
Proof.
  unfold String.ltb. rewrite (String.compare_antisym t s).
  destruct (s ?= t)%string eqn:E; [|done..]. by apply String.compare_eq_iff in E.
Qed.

(** The shape of the code's [less] functions: an instant first (earlier or
    later first), a tie broken by another order. *)
#[global] Instance lex_before_weak {A} (f : A → Time) less `{!WeakOrder less} :
  WeakOrder (λ x y : A, if Z.eqb (f x) (f y) then less x y else Before (f x) (f y)).
Proof.
  unfold Before. split; intros *;
    repeat match goal with |- context [Z.eqb ?a ?b] => destruct (Z.eqb_spec a b) end;
    rewrite ?Z.ltb_lt, ?Z.ltb_ge; try lia; eauto using weak_asym, weak_ntrans.
Qed.

#[global] Instance lex_after_weak {A} (f : A → Time) less `{!WeakOrder less} :
  WeakOrder (λ x y : A, if Z.eqb (f x) (f y) then less x y else After (f x) (f y)).
Proof.
  unfold After. split; intros *;
    repeat match goal with |- context [Z.eqb ?a ?b] => destruct (Z.eqb_spec a b) end;
    rewrite ?Z.ltb_lt, ?Z.ltb_ge; try lia; eauto using weak_asym, weak_ntrans.
Qed.

(** ** Automation

    [bools] turns the boolean tests of the code into propositions; [go_run H]
    runs monadic code in [H], splitting every branch it takes. *)
Ltac bools :=
  repeat match goal with
  | H : _ || _ = false |- _ => apply orb_false_iff in H as [? ?]
  | H : _ && _ = true |- _ => apply andb_true_iff in H as [? ?]
  | H : negb _ = true |- _ => apply negb_true_iff in H
  | H : negb _ = false |- _ => apply negb_false_iff in H
  | H : bool_decide _ = true |- _ => apply bool_decide_eq_true in H
  | H : bool_decide _ = false |- _ => apply bool_decide_eq_false in H
  | H : ¬ (_ ≠ _) |- _ => apply dec_stable in H
  | H : N.eqb _ _ = true |- _ => apply N.eqb_eq in H
  | H : N.eqb _ _ = false |- _ => apply N.eqb_neq in H
  | H : Z.eqb _ _ = true |- _ => apply Z.eqb_eq in H
  | H : Z.eqb _ _ = false |- _ => apply Z.eqb_neq in H
  | H : Z.ltb _ _ = true |- _ => apply Z.ltb_lt in H
  | H : Z.ltb _ _ = false |- _ => apply Z.ltb_ge in H
  end.

Ltac unfold_monad :=
  unfold bind, ret, throw, gets, modify, lift, of_option, check, map_err in *.

Ltac go_run H :=
  unfold_monad; simpl in H;
  repeat (match type of H with
          | context [match ?x with _ => _ end] =>
              lazymatch x with
              | context [match _ with _ => _ end] => fail
              | _ => destruct x eqn:?
              end
          end; simplify_eq/=);
  bools.
