(* ===== verification/Json.v ===== *)
(** * encoding/json: the scanner, Valid, Compact and HTMLEscape

    The part of Go's [encoding/json] that the agent runtime relies on when it
    checks and digests tool arguments.  The scanner is a byte-at-a-time state
    machine with a stack of open objects and arrays; [Valid] runs it over the
    whole input, [Compact] keeps the bytes it does not skip, and [HTMLEscape]
    rewrites the bytes that are unsafe in HTML.  [json.Marshal] writes a
    [json.RawMessage] as [HTMLEscape] of its [Compact] ([raw_wire]). *)

From S2P Require Import Prelude.

Module Json.

Inductive frame := parseObjectKey | parseObjectValue | parseArrayValue.

Inductive label :=
| beginValue | beginValueOrEmpty | beginString | beginStringOrEmpty
| endValue | endTop
| inString | inStringEsc | inStringEscU | inStringEscU1 | inStringEscU12 | inStringEscU123
| sNeg | sOne | sZero | sDot | sDot0 | sE | sESign | sE0
| sT | sTr | sTru | sF | sFa | sFal | sFals | sN | sNu | sNul.

Record scanner := mkScanner { step : label; stack : list frame }.

(** What a step does with the byte: keep it, or skip it (space). *)
Definition outcome : Type := option (bool * scanner).
Definition keep (l : label) (st : list frame) : outcome := Some (true, mkScanner l st).
Definition skip (l : label) (st : list frame) : outcome := Some (false, mkScanner l st).
Definition scanError : outcome := None.

Definition ch (n : nat) : ascii := ascii_of_nat n.
Definition eqc (c : ascii) (n : nat) : bool := Nat.eqb (nat_of_ascii c) n.
Definition isSpace (c : ascii) : bool := eqc c 32 || eqc c 9 || eqc c 13 || eqc c 10.
Definition isDigit (c : ascii) : bool :=
  let n := nat_of_ascii c in Nat.leb 48 n && Nat.leb n 57.
Definition isDigit19 (c : ascii) : bool :=
  let n := nat_of_ascii c in Nat.leb 49 n && Nat.leb n 57.
Definition isHex (c : ascii) : bool :=
  let n := nat_of_ascii c in
  isDigit c || (Nat.leb 97 n && Nat.leb n 102) || (Nat.leb 65 n && Nat.leb n 70).

Definition maxNestingDepth : N := 10000.

Definition pushParseState (l : label) (f : frame) (st : list frame) : outcome :=
  if N.leb (N.of_nat (S (length st))) maxNestingDepth then keep l (f :: st) else scanError.

Definition popParseState (st : list frame) : outcome :=
  match st with
  | [] => scanError
  | [_] => keep endTop []
  | _ :: st' => keep endValue st'
  end.

Definition stateEndTop (c : ascii) (st : list frame) : outcome :=
  if isSpace c then skip endTop st else scanError.

Definition stateEndValue (c : ascii) (st : list frame) : outcome :=
  match st with
  | [] => stateEndTop c st
  | f :: st' =>
      if isSpace c then skip endValue st else
      match f with
      | parseObjectKey => if eqc c 58 then keep beginValue (parseObjectValue :: st') else scanError
      | parseObjectValue =>
          if eqc c 44 then keep beginString (parseObjectKey :: st')
          else if eqc c 125 then popParseState st else scanError
      | parseArrayValue =>
          if eqc c 44 then keep beginValue st
          else if eqc c 93 then popParseState st else scanError
      end
  end.

Definition stateBeginValue (c : ascii) (st : list frame) : outcome :=
  if isSpace c then skip beginValue st
  else if eqc c 123 then pushParseState beginStringOrEmpty parseObjectKey st
  else if eqc c 91 then pushParseState beginValueOrEmpty parseArrayValue st
  else if eqc c 34 then keep inString st
  else if eqc c 45 then keep sNeg st
  else if eqc c 48 then keep sZero st
  else if eqc c 116 then keep sT st
  else if eqc c 102 then keep sF st
  else if eqc c 110 then keep sN st
  else if isDigit19 c then keep sOne st
  else scanError.

Definition stateBeginString (c : ascii) (st : list frame) : outcome :=
  if isSpace c then skip beginString st
  else if eqc c 34 then keep inString st else scanError.

Definition state0 (c : ascii) (st : list frame) : outcome :=
  if eqc c 46 then keep sDot st
  else if eqc c 101 || eqc c 69 then keep sE st
  else stateEndValue c st.

Definition stateESign (c : ascii) (st : list frame) : outcome :=
  if isDigit c then keep sE0 st else scanError.

Definition hexTo (l : label) (c : ascii) (st : list frame) : outcome :=
  if isHex c then keep l st else scanError.

Definition expect (n : nat) (l : label) (c : ascii) (st : list frame) : outcome :=
  if eqc c n then keep l st else scanError.

Definition scan (s : scanner) (c : ascii) : outcome :=
  let st := stack s in
  match step s with
  | beginValue => stateBeginValue c st
  | beginValueOrEmpty =>
      if isSpace c then skip beginValueOrEmpty st
      else if eqc c 93 then stateEndValue c st else stateBeginValue c st
  | beginString => stateBeginString c st
  | beginStringOrEmpty =>
      if isSpace c then skip beginStringOrEmpty st
      else if eqc c 125 then
        match st with
        | _ :: st' => stateEndValue c (parseObjectValue :: st')
        | [] => scanError
        end
      else stateBeginString c st
  | endValue => stateEndValue c st
  | endTop => stateEndTop c st
  | inString =>
      if eqc c 34 then keep endValue st
      else if eqc c 92 then keep inStringEsc st
      else if Nat.ltb (nat_of_ascii c) 32 then scanError
      else keep inString st
  | inStringEsc =>
      if eqc c 98 || eqc c 102 || eqc c 110 || eqc c 114 || eqc c 116 || eqc c 92 || eqc c 47 || eqc c 34
      then keep inString st
      else if eqc c 117 then keep inStringEscU st else scanError
  | inStringEscU => hexTo inStringEscU1 c st
  | inStringEscU1 => hexTo inStringEscU12 c st
  | inStringEscU12 => hexTo inStringEscU123 c st
  | inStringEscU123 => hexTo inString c st
  | sNeg => if eqc c 48 then keep sZero st else if isDigit19 c then keep sOne st else scanError
  | sOne => if isDigit c then keep sOne st else state0 c st
  | sZero => state0 c st
  | sDot => if isDigit c then keep sDot0 st else scanError
  | sDot0 =>
      if isDigit c then keep sDot0 st
      else if eqc c 101 || eqc c 69 then keep sE st else stateEndValue c st
  | sE => if eqc c 43 || eqc c 45 then keep sESign st else stateESign c st
  | sESign => stateESign c st
  | sE0 => if isDigit c then keep sE0 st else stateEndValue c st
  | sT => expect 114 sTr c st
  | sTr => expect 117 sTru c st
  | sTru => expect 101 endValue c st
  | sF => expect 97 sFa c st
  | sFa => expect 108 sFal c st
  | sFal => expect 115 sFals c st
  | sFals => expect 101 endValue c st
  | sN => expect 117 sNu c st
  | sNu => expect 108 sNul c st
  | sNul => expect 108 endValue c st
  end.

Definition start : scanner := mkScanner beginValue [].

(** The scanner run over a byte string: its final state and the bytes kept. *)
Fixpoint run (s : scanner) (data : string) : option (scanner * string) :=
  match data with
  | EmptyString => Some (s, EmptyString)
  | String c data' =>
      match scan s c with
      | None => None
      | Some (k, s') =>
          match run s' data' with
          | None => None
          | Some (s'', out) => Some (s'', if k : bool then String c out else out)
          end
      end
  end.

(** [eof]: the value must be complete, possibly after one more space. *)
Definition eof (s : scanner) : bool :=
  match step s with
  | endTop => true
  | _ => match scan s (ch 32) with
         | Some (_, s') => match step s' with endTop => true | _ => false end
         | None => false
         end
  end.

Definition Compact (src : string) : option string :=
  match run start src with
  | Some (s, out) => if eof s then Some out else None
  | None => None
  end.

Definition Valid (data : string) : bool :=
  match Compact data with Some _ => true | None => false end.

Definition hexdigit (n : nat) : ascii :=
  if Nat.ltb n 10 then ch (48 + n) else ch (87 + n).

(** The escape [\u00XY] of an ASCII byte. *)
Definition uescape (c : ascii) : string :=
  let n := nat_of_ascii c in
  String (ch 92) (String (ch 117) (String (ch 48) (String (ch 48)
    (String (hexdigit (n / 16)) (String (hexdigit (n `mod` 16)) EmptyString))))).

Definition html_unsafe (c : ascii) : bool := eqc c 60 || eqc c 62 || eqc c 38.

(** [HTMLEscape]: [<], [>] and [&], and U+2028 and U+2029 (E2 80 A8/A9). *)
Fixpoint HTMLEscape (src : string) : string :=
  match src with
  | EmptyString => EmptyString
  | String c rest =>
      if html_unsafe c then uescape c +:+ HTMLEscape rest
      else
        match rest with
        | String d (String e rest') =>
            if eqc c 226 && eqc d 128 && (eqc e 168 || eqc e 169)
            then "\u202" +:+ String (hexdigit (nat_of_ascii e - 160)) (HTMLEscape rest')
            else String c (HTMLEscape rest)
        | _ => String c (HTMLEscape rest)
        end
  end.

(** How [json.Marshal] writes a non-empty [json.RawMessage]. *)
Definition raw_wire (m : string) : option string := HTMLEscape <$> Compact m.

(** [json.Unmarshal] into a map succeeds on an object and on [null]. *)
Fixpoint first_byte (data : string) : option ascii :=
  match data with
  | EmptyString => None
  | String c data' => if isSpace c then first_byte data' else Some c
  end.
Definition unmarshals_to_map (data : string) : bool :=
  Valid data &&
  match first_byte data with
  | Some c => eqc c 123 || eqc c 110
  | None => false
  end.

(** ** Compact is idempotent

    Dropping a space can leave the scanner of the compacted text one state
    behind: in a number where the original is after the value.  [lags] is that
    relation; it is kept by every step and accepted by [eof]. *)
Definition in_number (l : label) : bool :=
  match l with sOne | sZero | sDot0 | sE0 => true | _ => false end.

Definition after_value (st : list frame) : label :=
  match st with [] => endTop | _ => endValue end.

Definition lags (a b : scanner) : Prop :=
  a = b ∨
  (stack a = stack b ∧ (in_number (step a) = true ∨ step a = endValue) ∧
   step b = after_value (stack b)).

Lemma eqc_spec c n : eqc c n = true ↔ nat_of_ascii c = n.
Proof. apply Nat.eqb_eq. Qed.

Ltac bytes :=
  unfold isSpace, isHex, isDigit, isDigit19, html_unsafe, eqc in *;
  repeat match goal with
  | H : _ || _ = true |- _ => apply orb_true_iff in H
  | H : _ || _ = false |- _ => apply orb_false_iff in H
  | H : _ && _ = true |- _ => apply andb_true_iff in H
  end;
  rewrite ?orb_true_iff, ?orb_false_iff, ?andb_true_iff, ?Nat.eqb_eq, ?Nat.eqb_neq, ?Nat.leb_le,
    ?Nat.leb_gt, ?Nat.ltb_lt, ?Nat.ltb_ge in *; lia.

Ltac scan_cases :=
  repeat (match goal with
  | H : context [if ?b then _ else _] |- _ => destruct b eqn:?
  | H : context [match ?st with [] => _ | _ :: _ => _ end] |- _ => destruct st eqn:?
  | H : context [match ?f with parseObjectKey => _ | _ => _ end] |- _ => destruct f eqn:?
  end; simplify_eq/=).

Ltac unfold_scan :=
  unfold scan, stateBeginValue, stateBeginString, stateESign, state0, stateEndValue, stateEndTop,
    pushParseState, popParseState, hexTo, expect, keep, skip, scanError in *.

Lemma scan_skip_lags s c s' : scan s c = Some (false, s') → lags s s'.
Proof.
  destruct s as [l st]. intros H.
  destruct l; unfold_scan; simpl in H; scan_cases; try (by left); right; simpl; auto.
Qed.

Lemma scan_after_value st c k s' :
  scan (mkScanner (after_value st) st) c = Some (k, s') →
  if k then ∀ l, in_number l = true ∨ l = endValue → scan (mkScanner l st) c = Some (true, s')
  else s' = mkScanner (after_value st) st.
Proof.
  intros H. destruct st as [|f st]; unfold_scan; simpl in *.
  { by scan_cases. }
  destruct f; scan_cases; try done; intros lab [Hlab | ->]; try destruct lab; try done; simpl;
    repeat match goal with
    | |- context [isDigit ?c] => replace (isDigit c) with false by (symmetry; apply not_true_iff_false; intros ?; bytes)
    | |- context [eqc ?c ?n] => first
        [ replace (eqc c n) with true by (symmetry; bytes)
        | replace (eqc c n) with false by (symmetry; apply not_true_iff_false; intros ?; bytes) ]
    | |- context [isSpace ?c] => replace (isSpace c) with false by done
    end; done.
Qed.

Lemma scan_lags a b c k b' :
  lags a b → scan b c = Some (k, b') →
  if k then ∃ a', scan a c = Some (true, a') ∧ lags a' b' else lags a b'.
Proof.
  intros [<-|(Hst & Hl & Hb)] Hscan.
  - destruct k; [|by eapply scan_skip_lags]. exists b'. split; [done|by left].
  - destruct a as [la sta], b as [lb stb]. simpl in *; subst.
    pose proof (scan_after_value _ _ _ _ Hscan) as H. destruct k.
    + exists b'. split; [by apply H|by left].
    + subst. right. auto.
Qed.

Lemma run_lags a b x b' out :
  lags a b → run b x = Some (b', out) → ∃ a', run a out = Some (a', out) ∧ lags a' b'.
Proof.
  revert a b b' out. induction x as [|c x IH]; intros a b b' out Hl Hrun; simpl in Hrun.
  { simplify_eq. by exists a. }
  destruct (scan b c) as [[k b1]|] eqn:Hscan; [|done].
  destruct (run b1 x) as [[b2 o]|] eqn:Hx; [|done]. simplify_eq.
  pose proof (scan_lags _ _ _ _ _ Hl Hscan) as H. destruct k.
  - destruct H as (a1 & Ha & Hl1). destruct (IH _ _ _ _ Hl1 Hx) as (a2 & Hrun & Hl2).
    exists a2. simpl. by rewrite Ha, Hrun.
  - eauto.
Qed.

Lemma eof_lags a b : lags a b → eof b = true → eof a = true.
Proof.
  intros [<-|(Hst & Hl & Hb)] He; [done|].
  destruct a as [la sta], b as [lb stb]. simpl in *. subst.
  destruct stb as [|f stb].
  - destruct Hl as [Hl | ->]; [by destruct la|done].
  - by destruct f.
Qed.

Lemma Compact_idem x y : Compact x = Some y → Compact y = Some y.
Proof.
  unfold Compact. destruct (run start x) as [[s out]|] eqn:Hrun; [|done].
  destruct (eof s) eqn:He; [|done]. intros ?; simplify_eq.
  destruct (run_lags start start x s y) as (a & -> & Hl); [by left|done|].
  by rewrite (eof_lags _ _ Hl He).
Qed.

Lemma Compact_Valid x y : Compact x = Some y → Valid x = true ∧ Valid y = true.
Proof. intros H. unfold Valid. by rewrite H, (Compact_idem _ _ H). Qed.

(** ** HTMLEscape keeps a compact text compact, and is idempotent *)

Lemma run_length s x s' out : run s x = Some (s', out) → String.length out ≤ String.length x.
Proof.
  revert s s' out. induction x as [|c x IH]; intros s s' out Hrun; simpl in Hrun; [by simplify_eq|].
  destruct (scan s c) as [[[] s1]|]; [..|done];
    (destruct (run s1 x) as [[s2 o]|] eqn:Hx; [|done]); simplify_eq; apply IH in Hx; simpl; lia.
Qed.

Lemma run_kept_cons s c x s' :
  run s (String c x) = Some (s', String c x) →
  ∃ s1, scan s c = Some (true, s1) ∧ run s1 x = Some (s', x).
Proof.
  simpl. destruct (scan s c) as [[k s1]|]; [|done].
  destruct (run s1 x) as [[s2 o]|] eqn:Hx; [|done]. intros H. destruct k; simplify_eq; [eauto|].
  apply run_length in Hx. simpl in Hx. lia.
Qed.

(** A byte that [HTMLEscape] may rewrite is only accepted inside a string. *)
Definition string_only (c : ascii) : bool := html_unsafe c || Nat.leb 128 (nat_of_ascii c).

Lemma scan_string_only s c k s' :
  string_only c = true → scan s c = Some (k, s') → step s = inString ∧ s' = s ∧ k = true.
Proof.
  unfold string_only, html_unsafe. rewrite !orb_true_iff, !eqc_spec, Nat.leb_le.
  intros Hc H. destruct s as [l st].
  assert (∀ n, n < 128 → n ≠ 60 → n ≠ 62 → n ≠ 38 → eqc c n = false) as Hn.
  { intros n ????. apply Nat.eqb_neq. lia. }
  assert (isDigit c = false ∧ isDigit19 c = false) as [Hd Hd19].
  { unfold isDigit, isDigit19. rewrite <- !not_true_iff_false, !andb_true_iff, !Nat.leb_le. lia. }
  assert (isHex c = false) as Hh.
  { unfold isHex. rewrite Hd.
    rewrite <- not_true_iff_false, !orb_true_iff, !andb_true_iff, !Nat.leb_le. lia. }
  assert (isSpace c = false) as Hs by (unfold isSpace; by rewrite !Hn by lia).
  assert (Nat.ltb (nat_of_ascii c) 32 = false) as Hlt by (apply Nat.ltb_ge; lia).
  destruct l; unfold_scan; simpl in H;
    rewrite ?Hs, ?Hd, ?Hd19, ?Hh, ?Hlt in H; rewrite ?Hn in H by lia; simpl in H;
    repeat case_match; by simplify_eq/=.
Qed.

Lemma run_app s x y :
  run s (x +:+ y) =
  match run s x with
  | Some (s1, o1) => match run s1 y with Some (s2, o2) => Some (s2, o1 +:+ o2) | None => None end
  | None => None
  end.
Proof.
  revert s. induction x as [|c x IH]; intros s.
  { change (EmptyString +:+ y) with y. simpl. destruct (run s y) as [[sc o]|]; reflexivity. }
  change (String c x +:+ y) with (String c (x +:+ y)). simpl.
  destruct (scan s c) as [[k s1]|]; [|done]. rewrite IH.
  destruct (run s1 x) as [[s2 o]|]; [|done]. destruct (run s2 y) as [[s3 o3]|]; [|done].
  destruct k; reflexivity.
Qed.

Lemma html_unsafe_cases c : html_unsafe c = true → c = ch 60 ∨ c = ch 62 ∨ c = ch 38.
Proof.
  unfold html_unsafe. rewrite !orb_true_iff, !eqc_spec.
  intros [[H|H]|H]; [left|right; left|right; right];
    by rewrite <- (ascii_nat_embedding c), H.
Qed.

Lemma run_uescape c st :
  html_unsafe c = true →
  run (mkScanner inString st) (uescape c) = Some (mkScanner inString st, uescape c).
Proof. by intros [-> | [-> | ->]]%html_unsafe_cases. Qed.

Lemma run_lineescape e st :
  eqc e 168 || eqc e 169 = true →
  let t := "\u202" +:+ String (hexdigit (nat_of_ascii e - 160)) EmptyString in
  run (mkScanner inString st) t = Some (mkScanner inString st, t).
Proof. rewrite orb_true_iff, !eqc_spec. by intros [-> | ->]. Qed.

Lemma HTMLEscape_run s x s' :
  run s x = Some (s', x) → run s (HTMLEscape x) = Some (s', HTMLEscape x).
Proof.
  remember (String.length x) as n eqn:Hn.
  revert s s' x Hn. induction (lt_wf n) as [n _ IH]. intros s s' x -> Hrun.
  destruct x as [|c x]; [done|]. destruct (run_kept_cons _ _ _ _ Hrun) as (s1 & Hs1 & Hx).
  cbn [HTMLEscape]. destruct (html_unsafe c) eqn:Hu.
  { destruct (scan_string_only _ _ _ _ ltac:(unfold string_only; by rewrite Hu) Hs1) as (Hl & -> & _).
    destruct s as [l st]. simpl in Hl. subst l. rewrite run_app, run_uescape by done.
    erewrite IH; [done|..|done]; simpl; [|done]. lia. }
  assert (run s (String c (HTMLEscape x)) = Some (s', String c (HTMLEscape x))) as Hplain.
  { simpl. rewrite Hs1. erewrite IH; [done|..|done]; simpl; [|done]. lia. }
  destruct x as [|d [|e x]]; [done|done|].
  destruct (eqc c 226 && eqc d 128 && (eqc e 168 || eqc e 169)) eqn:Ht; [|done].
  apply andb_true_iff in Ht as [Ht He]. apply andb_true_iff in Ht as [Hc Hd].
  destruct (run_kept_cons _ _ _ _ Hx) as (s2 & Hs2 & Hx2).
  destruct (run_kept_cons _ _ _ _ Hx2) as (s3 & Hs3 & Hx3).
  assert (∀ b, eqc b 226 = true ∨ eqc b 128 = true ∨ eqc b 168 || eqc b 169 = true →
    string_only b = true) as Hso.
  { intros b Hb. unfold string_only. apply orb_true_iff. right. apply Nat.leb_le.
    destruct Hb as [Hb|[Hb|Hb]]; [| |apply orb_true_iff in Hb as [Hb|Hb]];
      apply eqc_spec in Hb; lia. }
  destruct (scan_string_only _ _ _ _ (Hso c ltac:(auto)) Hs1) as (Hl & -> & _).
  destruct (scan_string_only _ _ _ _ (Hso d ltac:(auto)) Hs2) as (_ & -> & _).
  destruct (scan_string_only _ _ _ _ (Hso e ltac:(auto)) Hs3) as (_ & -> & _).
  destruct s as [l st]. simpl in Hl. subst l.
  change ("\u202" +:+ String (hexdigit (nat_of_ascii e - 160)) (HTMLEscape x))
    with (("\u202" +:+ String (hexdigit (nat_of_ascii e - 160)) EmptyString) +:+ HTMLEscape x).
  rewrite run_app, (run_lineescape e st He). erewrite IH; [done|..|done]; simpl; [|done]. lia.
Qed.

Definition line_sep (c : ascii) (rest : string) : bool :=
  match rest with
  | String d (String e _) => eqc c 226 && eqc d 128 && (eqc e 168 || eqc e 169)
  | _ => false
  end.

Lemma HTMLEscape_plain c y :
  html_unsafe c = false → line_sep c y = false → HTMLEscape (String c y) = String c (HTMLEscape y).
Proof.
  intros Hu Hl. cbn [HTMLEscape]. rewrite Hu. destruct y as [|d [|e y]]; [done|done|].
  unfold line_sep in Hl. by rewrite Hl.
Qed.

Lemma HTMLEscape_ascii c y :
  nat_of_ascii c < 128 → html_unsafe c = false → HTMLEscape (String c y) = String c (HTMLEscape y).
Proof.
  intros Hc Hu. apply HTMLEscape_plain; [done|]. unfold line_sep.
  destruct y as [|d [|e y]]; [done|done|].
  assert (eqc c 226 = false) as -> by (apply Nat.eqb_neq; lia). done.
Qed.

Lemma HTMLEscape_head x d t :
  128 ≤ nat_of_ascii d → HTMLEscape x = String d t → ∃ x', x = String d x' ∧ t = HTMLEscape x'.
Proof.
  intros Hd. destruct x as [|c x]; [done|]. cbn [HTMLEscape].
  assert (ch 92 ≠ d) as Hne. { intros <-. vm_compute in Hd. lia. }
  destruct (html_unsafe c).
  { intros H. exfalso. change (String (ch 92) (String (ch 117) (String (ch 48) (String (ch 48)
      (String (hexdigit (nat_of_ascii c / 16)) (String (hexdigit (nat_of_ascii c `mod` 16))
        (HTMLEscape x)))))) = String d t) in H. by simplify_eq. }
  destruct x as [|d1 [|e1 x]]; [intros; simplify_eq; eauto..|].
  destruct (_ && _ && _); [|intros; simplify_eq; eauto].
  intros H. exfalso. change (String (ch 92) ("u202" +:+
    String (hexdigit (nat_of_ascii e1 - 160)) (HTMLEscape x)) = String d t) in H. by simplify_eq.
Qed.

Lemma line_sep_HTMLEscape c x : line_sep c x = false → line_sep c (HTMLEscape x) = false.
Proof.
  intros H. apply not_true_iff_false. intros Ht.
  destruct (HTMLEscape x) as [|d [|e t]] eqn:Hx; [done|done|].
  unfold line_sep in Ht. apply andb_true_iff in Ht as [Ht He]. apply andb_true_iff in Ht as [Hc Hd].
  apply HTMLEscape_head in Hx as (x' & -> & Hx'); [|apply eqc_spec in Hd; lia].
  symmetry in Hx'. apply HTMLEscape_head in Hx' as (x'' & -> & _).
  - unfold line_sep in H. by rewrite Hc, Hd, He in H.
  - apply orb_true_iff in He as [He|He]; apply eqc_spec in He; lia.
Qed.

Lemma HTMLEscape_app_ascii p y :
  (∀ c, c ∈ String.list_ascii_of_string p → nat_of_ascii c < 128 ∧ html_unsafe c = false) →
  HTMLEscape (p +:+ y) = p +:+ HTMLEscape y.
Proof.
  induction p as [|c p IH]; intros Hp; [done|].
  change (String c p +:+ y) with (String c (p +:+ y)).
  change (String c p +:+ HTMLEscape y) with (String c (p +:+ HTMLEscape y)).
  assert (c ∈ String.list_ascii_of_string (String c p)) as Hin by left.
  rewrite HTMLEscape_ascii by (by apply Hp). f_equal. apply IH. intros c' Hc'. apply Hp. by right.
Qed.

Lemma HTMLEscape_idem x : HTMLEscape (HTMLEscape x) = HTMLEscape x.
Proof.
  remember (String.length x) as n eqn:Hn.
  revert x Hn. induction (lt_wf n) as [n _ IH]. intros x ->. destruct x as [|c x]; [done|].
  assert (HTMLEscape (HTMLEscape x) = HTMLEscape x) as Hx by (eapply IH; [|done]; simpl; lia).
  cbn [HTMLEscape]. destruct (html_unsafe c) eqn:Hu.
  { rewrite HTMLEscape_app_ascii, Hx; [done|].
    apply html_unsafe_cases in Hu as [-> | [-> | ->]];
      intros c' Hc'; vm_compute in Hc'; repeat (apply elem_of_cons in Hc' as [-> | Hc'];
        [by vm_compute; auto with lia|]); by apply elem_of_nil in Hc'. }
  assert (line_sep c x = false →
    HTMLEscape (String c (HTMLEscape x)) = String c (HTMLEscape x)) as Hplain.
  { intros Hl. rewrite HTMLEscape_plain by eauto using line_sep_HTMLEscape. by rewrite Hx. }
  destruct x as [|d [|e x]]; [by apply Hplain..|].
  destruct (eqc c 226 && eqc d 128 && (eqc e 168 || eqc e 169)) eqn:Ht; [|by apply Hplain].
  apply andb_true_iff in Ht as [_ He]. rewrite orb_true_iff, !eqc_spec in He.
  change ("\u202" +:+ String (hexdigit (nat_of_ascii e - 160)) (HTMLEscape x))
    with (("\u202" +:+ String (hexdigit (nat_of_ascii e - 160)) EmptyString) +:+ HTMLEscape x).
  rewrite HTMLEscape_app_ascii; [f_equal; eapply IH; [|done]; simpl; lia|].
  destruct He as [-> | ->]; intros c' Hc'; vm_compute in Hc';
    repeat (apply elem_of_cons in Hc' as [-> | Hc']; [by vm_compute; auto with lia|]);
    by apply elem_of_nil in Hc'.
Qed.

(** What [json.Marshal] wrote is a fixed point of it: a raw message that went
    through persistence is written back unchanged. *)
Lemma raw_wire_fixed m w : raw_wire m = Some w → raw_wire w = Some w.
Proof.
  unfold raw_wire. destruct (Compact m) as [y|] eqn:Hm; [|done]. intros ?; simplify_eq/=.
  apply Compact_idem in Hm. unfold Compact in *.
  destruct (run start y) as [[s out]|] eqn:Hrun; [|done].
  destruct (eof s) eqn:He; [|done]. simplify_eq.
  rewrite (HTMLEscape_run _ _ _ Hrun), He. simpl. by rewrite HTMLEscape_idem.
Qed.

End Json.
