(* ===== verification/Sha256.v ===== *)
(** * crypto/sha256 and encoding/hex

    SHA-256 (FIPS 180-4) on byte strings with 32-bit words in [N], and the hex
    encoding of its digest: what [tool.InputDigest] and the access-session
    registry compute of Go's standard library. *)

From S2P Require Import Prelude.

Module Sha256.
#[local] Open Scope N_scope.

Definition w32 (x : N) : N := N.land x 4294967295.
Definition add32 (x y : N) : N := w32 (x + y).
Definition rotr (n x : N) : N := N.lor (N.shiftr x n) (w32 (N.shiftl x (32 - n))).
Definition not32 (x : N) : N := N.lxor x 4294967295.

(** The constants, from their definition: the first 32 bits of the fractional
    parts of the cube roots of the first 64 primes, and of the square roots of
    the first 8. *)
Definition primes (n : nat) : list N :=
  let is_prime p := negb (existsb (λ d, N.eqb (p mod N.of_nat d) 0) (seq 2 (N.to_nat p - 2))) in
  take n (List.filter is_prime (map N.of_nat (seq 2 310))).

(** The largest [r] below [2 ^ bits] with [r ^ k <= x]. *)
Fixpoint root (k x : N) (bits : nat) (r : N) : N :=
  match bits with
  | O => r
  | S b => let r' := N.setbit r (N.of_nat b) in root k x b (if r' ^ k <=? x then r' else r)
  end.
Definition fraction (k p : N) : N := root k (N.shiftl p (32 * k)) 37 0 mod 2 ^ 32.

Definition K : list N := Eval vm_compute in map (fraction 3) (primes 64).
Definition H0 : list N := Eval vm_compute in map (fraction 2) (primes 8).

(** Padding: 0x80, zeros to 56 modulo 64, and the bit length in 8 bytes. *)
Definition be_bytes (n : nat) (x : N) : list N :=
  map (λ i, N.land (N.shiftr x (8 * N.of_nat i)) 255) (rev (seq 0 n)).
Definition pad (msg : list N) : list N :=
  let len := length msg in
  let zeros := ((119 - len `mod` 64) `mod` 64)%nat in
  msg ++ [0x80] ++ replicate zeros 0 ++ be_bytes 8 (8 * N.of_nat len).

Definition word (l : list N) (i : nat) : N :=
  let b j := nth (4 * i + j)%nat l 0 in
  N.lor (N.shiftl (b 0%nat) 24) (N.lor (N.shiftl (b 1%nat) 16) (N.lor (N.shiftl (b 2%nat) 8) (b 3%nat))).

(** The message schedule, kept newest word first. *)
Fixpoint schedule (n : nat) (ws : list N) : list N :=
  match n with
  | O => ws
  | S n' =>
      let w i := nth i ws 0 in
      let x := w 14%nat in
      let y := w 1%nat in
      let sg0 := N.lxor (rotr 7 x) (N.lxor (rotr 18 x) (N.shiftr x 3)) in
      let sg1 := N.lxor (rotr 17 y) (N.lxor (rotr 19 y) (N.shiftr y 10)) in
      schedule n' (add32 (add32 (w 15%nat) sg0) (add32 (w 6%nat) sg1) :: ws)
  end.

Definition round (st : list N) (kw : N * N) : list N :=
  match st with
  | [a; b; c; d; e; f; g; h] =>
      let S1 := N.lxor (rotr 6 e) (N.lxor (rotr 11 e) (rotr 25 e)) in
      let chv := N.lxor (N.land e f) (N.land (not32 e) g) in
      let t1 := add32 (add32 h S1) (add32 chv (add32 kw.1 kw.2)) in
      let S0 := N.lxor (rotr 2 a) (N.lxor (rotr 13 a) (rotr 22 a)) in
      let maj := N.lxor (N.land a b) (N.lxor (N.land a c) (N.land b c)) in
      let t2 := add32 S0 maj in
      [add32 t1 t2; a; b; c; add32 d t1; e; f; g]
  | _ => st
  end.

Definition block (st : list N) (bytes : list N) : list N :=
  let ws := rev (schedule 48 (map (word bytes) (rev (seq 0 16)))) in
  zip_with add32 st (foldl round st (combine K ws)).

Fixpoint blocks (n : nat) (st : list N) (bytes : list N) : list N :=
  match n with
  | O => st
  | S n' => blocks n' (block st (take 64 bytes)) (drop 64 bytes)
  end.

Definition bytes_of (s : string) : list N := map N_of_ascii (String.list_ascii_of_string s).

Definition Sum256 (s : string) : list N :=
  let p := pad (bytes_of s) in
  mjoin (map (be_bytes 4) (blocks (length p / 64) H0 p)).

(** [hex.EncodeToString] (and [%x]). *)
Definition hexchar (n : N) : ascii := ascii_of_N (if n <? 10 then 48 + n else 87 + n).
Definition EncodeToString (l : list N) : string :=
  String.string_of_list_ascii (mjoin (map (λ b, [hexchar (N.shiftr b 4); hexchar (N.land b 15)]) l)).

Definition hexdigest (s : string) : string := EncodeToString (Sum256 s).

(** The FIPS 180-4 test vectors. *)
Example hexdigest_abc :
  hexdigest "abc" = "ba7816bf8f01cfea414140de5dae2223b00361a396177a9cb410ff61f20015ad".
Proof. vm_compute. reflexivity. Qed.

Example hexdigest_two_blocks :
  hexdigest "abcdbcdecdefdefgefghfghighijhijkijkljklmklmnlmnomnopnopq" =
  "248d6a61d20638b8e5c026930c3e6039a33ce45964ff2167f6ecedd419db06c1".
Proof. vm_compute. reflexivity. Qed.

Lemma length_round st kw : length (round st kw) = length st.
Proof. by do 9 (destruct st as [|? st]; [done|]). Qed.

Lemma length_rounds l st : length (foldl round st l) = length st.
Proof. revert st. induction l as [|kw l IH]; intros st; simpl; [done|]. by rewrite IH, length_round. Qed.

Lemma length_blocks n st p : length (blocks n st p) = length st.
Proof.
  revert st p. induction n as [|n IH]; intros st p; simpl; [done|].
  rewrite IH. unfold block. rewrite length_zip_with, length_rounds. lia.
Qed.

Lemma length_EncodeToString l : String.length (EncodeToString l) = (2 * length l)%nat.
Proof. induction l as [|b l IH]; [done|]. simpl in *. unfold EncodeToString in IH. rewrite IH. lia. Qed.

Lemma length_digest_bytes l : length (mjoin (map (be_bytes 4) l)) = (4 * length l)%nat.
Proof. induction l as [|x l IH]; [done|]. simpl in *. rewrite IH. lia. Qed.

Lemma hexdigest_length s : String.length (hexdigest s) = 64%nat.
Proof.
  unfold hexdigest. rewrite length_EncodeToString. unfold Sum256.
  by rewrite length_digest_bytes, length_blocks.
Qed.

End Sha256.
