(* ===== verification/Utf8.v ===== *)
(** * unicode/utf8: runes of a byte string

    Decoding as Go does it: the shortest form only, no surrogates, nothing
    beyond U+10FFFF.  An invalid byte is a rune of its own ([None], which
    ranges as U+FFFD). *)

From S2P Require Import Prelude.

Module Utf8.
Definition within (lo hi b : N) : bool := N.leb lo b && N.leb b hi.
Definition cont : N → bool := within 128 191.
(** The second byte each leading byte admits. *)
Definition second (b0 b1 : N) : bool :=
  if N.eqb b0 224 then within 160 191 b1 else if N.eqb b0 237 then within 128 159 b1
  else if N.eqb b0 240 then within 144 191 b1 else if N.eqb b0 244 then within 128 143 b1 else cont b1.
Definition low6 (b : N) : N := N.land b 63.

Fixpoint runes_of (l : list N) : list (option N) :=
  match l with
  | [] => []
  | b0 :: r1 =>
      if N.ltb b0 128 then Some b0 :: runes_of r1 else
      match r1 with
      | [] => None :: runes_of r1
      | b1 :: r2 =>
          if within 194 223 b0 && cont b1 then Some (64 * N.land b0 31 + low6 b1)%N :: runes_of r2 else
          match r2 with
          | [] => None :: runes_of r1
          | b2 :: r3 =>
              if within 224 239 b0 && second b0 b1 && cont b2
              then Some (4096 * N.land b0 15 + 64 * low6 b1 + low6 b2)%N :: runes_of r3 else
              match r3 with
              | [] => None :: runes_of r1
              | b3 :: r4 =>
                  if within 240 244 b0 && second b0 b1 && cont b2 && cont b3
                  then Some (262144 * N.land b0 7 + 4096 * low6 b1 + 64 * low6 b2 + low6 b3)%N :: runes_of r4
                  else None :: runes_of r1
              end
          end
      end
  end.
Definition bytes_of (s : string) : list N := map N_of_ascii (String.list_ascii_of_string s).
Definition runes (s : string) : list (option N) := runes_of (bytes_of s).
Definition ValidString (s : string) : bool := forallb (λ r, bool_decide (is_Some r)) (runes s).

(** A rune as bytes; [None] and what is no code point become U+FFFD. *)
Definition encode_rune (r : option N) : list N :=
  let r := match r with
           | Some r => if within 55296 57343 r || N.ltb 1114111 r then 65533%N else r
           | None => 65533%N
           end in
  if N.ltb r 128 then [r]
  else if N.ltb r 2048 then [N.lor 192 (N.shiftr r 6); N.lor 128 (low6 r)]
  else if N.ltb r 65536 then [N.lor 224 (N.shiftr r 12); N.lor 128 (low6 (N.shiftr r 6)); N.lor 128 (low6 r)]
  else [N.lor 240 (N.shiftr r 18); N.lor 128 (low6 (N.shiftr r 12)); N.lor 128 (low6 (N.shiftr r 6)); N.lor 128 (low6 r)].
(** string(runes) *)
Definition string_of_runes (l : list (option N)) : string :=
  String.string_of_list_ascii (map ascii_of_N (mjoin (map encode_rune l))).

(** [unicode.IsControl]: category Cc. *)
Definition IsControl (r : option N) : bool :=
  match r with Some r => N.ltb r 32 || within 127 159 r | None => false end.

(** A string whose bytes are all below 128 decodes to its bytes. *)
Lemma runes_ascii l : Forall (λ b, (b < 128)%N) l → runes_of l = map Some l.
Proof.
  induction 1 as [|b l Hb Hl IH]; [done|]. simpl. rewrite IH.
  destruct (N.ltb_spec b 128); [done|lia].
Qed.
(** No control byte hides in a string without control runes. *)
Lemma control_byte s b :
  forallb (λ r, negb (IsControl r)) (runes s) = true → b ∈ bytes_of s → (32 ≤ b)%N ∧ b ≠ 127%N.
Proof.
  unfold runes. intros H Hb. generalize dependent (bytes_of s). clear s.
  enough (∀ n l, length l ≤ n → forallb (λ r, negb (IsControl r)) (runes_of l) = true → b ∈ l → (32 ≤ b)%N ∧ b ≠ 127%N) as He
    by (intros l; by apply (He (length l))).
  induction n as [|n IH]; intros l Hn H Hb; [destruct l; [by apply not_elem_of_nil in Hb|simpl in Hn; lia]|].
  destruct l as [|b0 r1]; [by apply not_elem_of_nil in Hb|]. simpl in H, Hn.
  assert (∀ x, within 128 191 x = true → (32 ≤ x)%N ∧ x ≠ 127%N) as Hcont.
  { unfold within. intros x [?%N.leb_le ?%N.leb_le]%andb_true_iff. lia. }
  assert (∀ x y, second x y = true → (32 ≤ y)%N ∧ y ≠ 127%N) as Hsec.
  { intros x y. unfold second, cont, within. repeat destruct (N.eqb _ _); intros [?%N.leb_le ?%N.leb_le]%andb_true_iff; lia. }
  destruct (N.ltb_spec b0 128) as [Hlt|Hge].
  - simpl in H. apply andb_true_iff in H as [H0 H]. apply elem_of_cons in Hb as [->|Hb]; [|eapply (IH r1); [lia|done|done]].
    apply negb_true_iff, orb_false_iff in H0 as [?%N.ltb_ge H0]. unfold within in H0.
    destruct (N.leb_spec 127 b0), (N.leb_spec b0 159); simpl in H0; try done; lia.
  - apply elem_of_cons in Hb as [->|Hb]; [lia|].
    destruct r1 as [|b1 r2]; [by apply not_elem_of_nil in Hb|]. simpl in Hn.
    destruct (within 194 223 b0 && cont b1) eqn:E2.
    { simpl in H. apply andb_true_iff in H as [_ H]. apply elem_of_cons in Hb as [->|Hb]; [|eapply (IH r2); [lia|done|done]].
      apply andb_true_iff in E2 as [_ E2]. by apply Hcont. }
    destruct r2 as [|b2 r3]; [simpl in H; eapply (IH [b1]); [simpl; lia|done|done]|]. simpl in Hn.
    destruct (within 224 239 b0 && second b0 b1 && cont b2) eqn:E3.
    { simpl in H. apply andb_true_iff in H as [_ H]. apply andb_true_iff in E3 as [E3 E4]. apply andb_true_iff in E3 as [_ E3].
      apply elem_of_cons in Hb as [->|Hb]; [by eapply Hsec|].
      apply elem_of_cons in Hb as [->|Hb]; [by apply Hcont|]. eapply (IH r3); [lia|done|done]. }
    destruct r3 as [|b3 r4]; [eapply (IH [b1; b2]); [simpl; lia|done|done]|]. simpl in Hn.
    destruct (within 240 244 b0 && second b0 b1 && cont b2 && cont b3) eqn:E4.
    { cbn [forallb] in H. apply andb_true_iff in H as [_ H]. apply andb_true_iff in E4 as [E4 E5].
      apply andb_true_iff in E4 as [E4 E6]. apply andb_true_iff in E4 as [_ E4].
      apply elem_of_cons in Hb as [->|Hb]; [by eapply Hsec|].
      apply elem_of_cons in Hb as [->|Hb]; [by apply Hcont|].
      apply elem_of_cons in Hb as [->|Hb]; [by apply Hcont|]. eapply (IH r4); [lia|done|done]. }
    cbn [forallb] in H. eapply (IH (b1 :: b2 :: b3 :: r4)); [simpl; lia|exact H|done].
Qed.
End Utf8.
