(* ===== verification/ToolTypes.v ===== *)
(** * agent/tool: identifiers, descriptors, grants

    The data of [manager/agent/tool] ([types.go], [session_kind.go],
    [permission.go], [discovery.go]): tool identifiers with their printing and
    parsing, descriptors and their validation, session kinds, policy
    decisions, approval grants and the digest that ties a grant to the exact
    tool arguments. *)

From S2P Require Import Prelude Json Sha256.

Definition Protocol := string.
Definition ProtocolAny : Protocol := "any".
Definition ProtocolS3 : Protocol := "s3".
Definition Capability := string.
Definition OutputKind := string.
Definition OutputFacts : OutputKind := "facts".
Definition OutputError : OutputKind := "error".

(** The enumerations are [uint8] in the source; the last constructor stands
    for every value that has no name. *)
Inductive RiskLevel :=
| RiskReadOnly | RiskLow | RiskMedium | RiskHigh | RiskCritical | RiskOther (n : N).
Inductive ApprovalMode := ApprovalNever | ApprovalByPolicy | ApprovalAlways | ApprovalModeOther (n : N).
Inductive DisclosureMode := DisclosureDeferred | DisclosureAttachment | DisclosureAlways | DisclosureOther (n : N).
Inductive ToolStatus :=
| ToolStatusActive | ToolStatusDisabled | ToolStatusDraining | ToolStatusFailed | ToolStatusUnloaded.
Inductive TrustLevel := TrustUntrusted | TrustRestricted | TrustTrusted | TrustBuiltin.
Inductive DecisionEffect := DecisionAllow | DecisionDeny | DecisionRequireApproval | DecisionOther (n : N).

#[global] Instance RiskLevel_eq : EqDecision RiskLevel. Proof. solve_decision. Defined.
#[global] Instance ApprovalMode_eq : EqDecision ApprovalMode. Proof. solve_decision. Defined.
#[global] Instance DisclosureMode_eq : EqDecision DisclosureMode. Proof. solve_decision. Defined.
#[global] Instance ToolStatus_eq : EqDecision ToolStatus. Proof. solve_decision. Defined.
#[global] Instance TrustLevel_eq : EqDecision TrustLevel. Proof. solve_decision. Defined.
#[global] Instance DecisionEffect_eq : EqDecision DecisionEffect. Proof. solve_decision. Defined.

(** The [uint8] behind a risk level, for the comparisons of the code. *)
Definition risk_u8 (r : RiskLevel) : N :=
  match r with
  | RiskReadOnly => 0 | RiskLow => 1 | RiskMedium => 2 | RiskHigh => 3 | RiskCritical => 4
  | RiskOther n => n
  end.

(** ** Tool identifiers *)
Record ToolID := mkToolID { Namespace : string; Name : string; Version : string }.
#[global] Instance ToolID_eq : EqDecision ToolID. Proof. solve_decision. Defined.
#[global] Instance ToolID_countable : Countable ToolID.
Proof.
  refine (inj_countable' (λ t, (Namespace t, Name t, Version t))
    (λ x, mkToolID x.1.1 x.1.2 x.2) _). by intros [].
Defined.

Definition ToolID_String (id : ToolID) : string :=
  Namespace id +:+ "." +:+ Name id +:+ "@" +:+ Version id.
Definition ModelName (id : ToolID) : string := Namespace id +:+ "." +:+ Name id.

(** ^[a-z][a-z0-9_]{0,62}$ *)
Definition in_range (c : ascii) (lo hi : nat) : bool :=
  Nat.leb lo (nat_of_ascii c) && Nat.leb (nat_of_ascii c) hi.
Definition is_lower (c : ascii) : bool := in_range c 97 122.
Definition is_digit (c : ascii) : bool := in_range c 48 57.
Definition is_part_char (c : ascii) : bool := is_lower c || is_digit c || Nat.eqb (nat_of_ascii c) 95.
Fixpoint all_chars (f : ascii → bool) (s : string) : bool :=
  match s with EmptyString => true | String c s' => f c && all_chars f s' end.
Definition toolPartPattern (s : string) : bool :=
  match s with
  | EmptyString => false
  | String c s' => is_lower c && all_chars is_part_char s' && Nat.leb (String.length s') 62
  end.

(** ^[0-9]+\.[0-9]+\.[0-9]+(?:-[0-9A-Za-z.-]+)?$ *)
Fixpoint digits_then (k : string → bool) (seen : bool) (s : string) : bool :=
  match s with
  | EmptyString => seen && k EmptyString
  | String c s' => if is_digit c then digits_then k true s' else seen && k s
  end.
Definition dot_then (k : string → bool) (s : string) : bool :=
  match s with
  | String c s' => Nat.eqb (nat_of_ascii c) 46 && k s'
  | EmptyString => false
  end.
Definition is_suffix_char (c : ascii) : bool :=
  is_digit c || in_range c 65 90 || is_lower c || Nat.eqb (nat_of_ascii c) 46 || Nat.eqb (nat_of_ascii c) 45.
Definition version_tail (s : string) : bool :=
  match s with
  | EmptyString => true
  | String c (String d s') => Nat.eqb (nat_of_ascii c) 45 && all_chars is_suffix_char (String d s')
  | String _ EmptyString => false
  end.
Definition versionPattern (s : string) : bool :=
  digits_then (dot_then (digits_then (dot_then (digits_then version_tail false)) false)) false s.

Definition valid_id (id : ToolID) : bool :=
  toolPartPattern (Namespace id) && toolPartPattern (Name id) && versionPattern (Version id).

(** ** Session kinds *)
Definition SessionKind := string.
Definition SessionAccess : SessionKind := "access".
Definition SessionManagement : SessionKind := "management".
Definition SessionShell : SessionKind := "shell".

Definition SessionKind_Valid (kind : SessionKind) : bool :=
  bool_decide (kind = "") || bool_decide (kind = SessionAccess) ||
  bool_decide (kind = SessionManagement) || bool_decide (kind = SessionShell).
Definition Effective (kind : SessionKind) : SessionKind :=
  if bool_decide (kind = "") then SessionAccess else kind.

(** ** Descriptors, bindings, invocations, results *)
Record ResourcePermission := mkPermission { Resource : string; Action : string }.
#[global] Instance ResourcePermission_eq : EqDecision ResourcePermission. Proof. solve_decision. Defined.

Record ToolSourceRef := mkSourceRef { src_ID : string; src_Kind : string; src_Trust : TrustLevel }.
#[global] Instance ToolSourceRef_eq : EqDecision ToolSourceRef. Proof. solve_decision. Defined.

Record ToolDescriptor := mkDescriptor {
  d_SessionKinds : list SessionKind;
  d_Permission : option ResourcePermission;
  d_ID : ToolID;
  d_DisplayName : string;
  d_Description : string;
  d_WhenToUse : string;
  d_InputSchema : string;
  d_OutputKinds : list OutputKind;
  d_Protocols : list Protocol;
  d_Capabilities : list Capability;
  d_Tags : list string;
  d_Risk : RiskLevel;
  d_Approval : ApprovalMode;
  d_Disclosure : DisclosureMode;
  d_DefaultTimeout : Z;
  d_Source : ToolSourceRef
}.
#[global] Instance ToolDescriptor_eq : EqDecision ToolDescriptor. Proof. solve_decision. Defined.

Record Principal := mkPrincipal { UserID : N; OrganizationID : N }.
#[global] Instance Principal_eq : EqDecision Principal. Proof. solve_decision. Defined.

Record AttachmentSnapshot := mkAttachmentSnapshot {
  as_ID : string;
  as_AccessID : N;
  as_ApplicationID : N;
  as_Protocol : Protocol;
  as_Capabilities : list Capability;
  as_Generation : N;
  as_AccessHandleID : string
}.
#[global] Instance AttachmentSnapshot_eq : EqDecision AttachmentSnapshot. Proof. solve_decision. Defined.
Definition no_attachment : AttachmentSnapshot := mkAttachmentSnapshot "" 0 0 "" [] 0 "".

Record ToolBinding := mkBinding {
  b_SessionKind : SessionKind;
  b_Principal : Principal;
  b_Attachment : AttachmentSnapshot;
  b_ToolSnapshotID : string
}.
Record ToolCall := mkToolCall { tc_ID : ToolID; tc_Input : string }.
Record ToolInvocation := mkInvocation {
  inv_ID : string;
  inv_Call : ToolCall;
  inv_Binding : ToolBinding;
  inv_RegistrationGeneration : N
}.
#[global] Instance ToolBinding_eq : EqDecision ToolBinding. Proof. solve_decision. Defined.
#[global] Instance ToolCall_eq : EqDecision ToolCall. Proof. solve_decision. Defined.
#[global] Instance ToolInvocation_eq : EqDecision ToolInvocation. Proof. solve_decision. Defined.

Record ToolResult := mkToolResult {
  tr_Kind : OutputKind;
  tr_Content : string;
  tr_IsError : bool;
  tr_Truncated : bool;
  tr_ArtifactID : string
}.

Record Decision_ := mkDecision {
  dec_Effect : DecisionEffect;
  dec_Reason : string;
  dec_Risk : RiskLevel;
  dec_ApprovalPolicy : string;
  dec_NormalizedInput : string
}.

#[global] Instance eta_Descriptor : Eta ToolDescriptor := {| eta := λ d,
  mkDescriptor (d_SessionKinds d) (d_Permission d) (d_ID d) (d_DisplayName d) (d_Description d)
    (d_WhenToUse d) (d_InputSchema d) (d_OutputKinds d) (d_Protocols d) (d_Capabilities d) (d_Tags d)
    (d_Risk d) (d_Approval d) (d_Disclosure d) (d_DefaultTimeout d) (d_Source d) |}.
#[global] Instance eta_Invocation : Eta ToolInvocation := {| eta := λ i,
  mkInvocation (inv_ID i) (inv_Call i) (inv_Binding i) (inv_RegistrationGeneration i) |}.
#[global] Instance eta_Call : Eta ToolCall := {| eta := λ c, mkToolCall (tc_ID c) (tc_Input c) |}.

(** [*ApprovalRequiredError], the error struct of the package. *)
Record ApprovalRequiredError := mkApprovalRequired {
  are_Invocation : ToolInvocation;
  are_Decision : Decision_
}.

Abbreviation error := (goerror ApprovalRequiredError).
Abbreviation Result := (result ApprovalRequiredError).
Abbreviation ctx := (Ctx ApprovalRequiredError).
Abbreviation Op S A := (M S ApprovalRequiredError A).

Definition ErrInvalidDescriptor : error := ESentinel "tool.ErrInvalidDescriptor" "invalid tool descriptor".
Definition ErrAlreadyRegistered : error := ESentinel "tool.ErrAlreadyRegistered" "tool already registered".
Definition ErrToolNotFound : error := ESentinel "tool.ErrToolNotFound" "tool not found".
Definition ErrToolUnavailable : error := ESentinel "tool.ErrToolUnavailable" "tool unavailable".
Definition ErrStaleSnapshot : error := ESentinel "tool.ErrStaleSnapshot" "stale tool snapshot".
Definition ErrToolNotExposed : error := ESentinel "tool.ErrToolNotExposed" "tool not exposed".
Definition ErrApprovalRequired : error := ESentinel "tool.ErrApprovalRequired" "tool approval required".
Definition ErrPolicyDenied : error := ESentinel "tool.ErrPolicyDenied" "tool policy denied".

(** [fmt.Errorf("%w: ...", sentinel, ...)]. *)
Definition wrapf (sentinel : error) (detail : string) : error := EWrap "" sentinel (": " +:+ detail).

(** [Error] and [Unwrap] of [*ApprovalRequiredError]. *)
Definition approval_required (inv : ToolInvocation) (d : Decision_) : error :=
  ETyped (mkApprovalRequired inv d) ("tool approval required: " +:+ dec_Reason d) "tool.ErrApprovalRequired".

(** ** ParseToolID *)
Definition ParseToolID (value : string) : Result ToolID :=
  match Split value "@"%char with
  | [name; version] =>
      match Split name "."%char with
      | [ns; nm] =>
          let id := mkToolID ns nm version in
          if negb (toolPartPattern (Namespace id)) || negb (toolPartPattern (Name id)) ||
             negb (versionPattern (Version id))
          then Err (wrapf ErrInvalidDescriptor ("malformed tool ID " +:+ quote value))
          else Ok id
      | _ => Err (wrapf ErrInvalidDescriptor ("malformed tool name " +:+ quote name))
      end
  | _ => Err (wrapf ErrInvalidDescriptor ("malformed tool ID " +:+ quote value))
  end.

Definition ToolSearchID : ToolID := mkToolID "core" "tool_search" "1.0.0".
Definition ToolDescribeID : ToolID := mkToolID "core" "tool_describe" "1.0.0".

(** ** ValidateDescriptor *)
Definition ValidateDescriptor (d : ToolDescriptor) : option error :=
  if negb (toolPartPattern (Namespace (d_ID d)))
  then Some (wrapf ErrInvalidDescriptor ("invalid namespace " +:+ quote (Namespace (d_ID d))))
  else if negb (toolPartPattern (Name (d_ID d)))
  then Some (wrapf ErrInvalidDescriptor ("invalid name " +:+ quote (Name (d_ID d))))
  else if negb (versionPattern (Version (d_ID d)))
  then Some (wrapf ErrInvalidDescriptor ("invalid version " +:+ quote (Version (d_ID d))))
  else if bool_decide (TrimSpace (d_Description d) = "")
  then Some (wrapf ErrInvalidDescriptor "description is required")
  else if N.ltb 2048 (N.of_nat (String.length (d_Description d))) ||
          N.ltb 2048 (N.of_nat (String.length (d_WhenToUse d)))
  then Some (wrapf ErrInvalidDescriptor "descriptive text is too large")
  else if bool_decide (d_InputSchema d = "") ||
          N.ltb 65536 (N.of_nat (String.length (d_InputSchema d))) ||
          negb (Json.Valid (d_InputSchema d))
  then Some (wrapf ErrInvalidDescriptor "input schema must be valid JSON")
  else if negb (Json.unmarshals_to_map (d_InputSchema d))
  then Some (wrapf ErrInvalidDescriptor "input schema must be an object")
  else if bool_decide (src_ID (d_Source d) = "") || bool_decide (src_Kind (d_Source d) = "")
  then Some (wrapf ErrInvalidDescriptor "source is required")
  else if Z.ltb (d_DefaultTimeout d) 0
  then Some (wrapf ErrInvalidDescriptor "timeout cannot be negative")
  else if existsb (λ k, bool_decide (k = "") || negb (SessionKind_Valid k)) (d_SessionKinds d)
  then Some (wrapf ErrInvalidDescriptor "invalid session kind")
  else match d_Permission d with
  | Some p =>
      if bool_decide (TrimSpace (Resource p) = "") || bool_decide (TrimSpace (Action p) = "")
      then Some (wrapf ErrInvalidDescriptor "resource and action are required")
      else None
  | None => None
  end.

(** ** Which descriptors a session kind may see *)
Definition matches_kind_list (d : ToolDescriptor) (kind : SessionKind) : bool :=
  if negb (SessionKind_Valid kind) then false
  else
    let kind := if bool_decide (kind = "") then SessionAccess else kind in
    match d_SessionKinds d with
    | [] => bool_decide (kind = SessionAccess)
    | kinds => existsb (λ allowed, bool_decide (allowed = kind)) kinds
    end.
Definition descriptorMatchesSession (d : ToolDescriptor) (kind : SessionKind) : bool :=
  if bool_decide (kind = SessionShell) then
    let allowed :=
      bool_decide (Namespace (d_ID d) = "terminal") &&
        (bool_decide (Name (d_ID d) = "read") || bool_decide (Name (d_ID d) = "execute")) ||
      bool_decide (Namespace (d_ID d) = "core") &&
        (bool_decide (Name (d_ID d) = "tool_search") || bool_decide (Name (d_ID d) = "tool_describe")) in
    allowed && matches_kind_list d SessionAccess
  else matches_kind_list d kind.

(** ** Snapshots and grants *)
Record ExposedTool := mkExposed {
  ex_Descriptor : ToolDescriptor;
  ex_RegistrationGeneration : N;
  ex_EstimatedTokens : Z
}.
Record ToolSetSnapshot := mkSnapshot {
  ss_ID : string;
  ss_CatalogGeneration : N;
  ss_PolicyRevision : string;
  ss_AttachmentGeneration : gmap string N;
  ss_Tools : list ExposedTool;
  ss_CreatedAt : Time
}.
#[global] Instance ExposedTool_eq : EqDecision ExposedTool. Proof. solve_decision. Defined.
#[global] Instance ToolSetSnapshot_eq : EqDecision ToolSetSnapshot. Proof. solve_decision. Defined.

Definition snapshot_Find (s : ToolSetSnapshot) (id : ToolID) : option ExposedTool :=
  List.find (λ ex, bool_decide (d_ID (ex_Descriptor ex) = id)) (ss_Tools s).

(** [InputDigest]: compact, HTML-escape, SHA-256, hex; empty on invalid JSON. *)
Definition InputDigest (input : string) : string :=
  match Json.Compact input with
  | None => ""
  | Some compact => Sha256.hexdigest (Json.HTMLEscape compact)
  end.

Record ApprovalGrant := mkGrant {
  g_ApprovalID : string;
  g_InvocationID : string;
  g_ToolID : ToolID;
  g_ToolSnapshotID : string;
  g_InputSHA256 : string;
  g_AttachmentGeneration : N;
  g_ExpiresAt : Time
}.

Definition grant_validates (grant : ApprovalGrant) (inv : ToolInvocation) (snapshot : ToolSetSnapshot)
    (now : Time) : bool :=
  if bool_decide (g_ApprovalID grant = "") || bool_decide (g_InvocationID grant ≠ inv_ID inv) ||
     bool_decide (g_ToolID grant ≠ tc_ID (inv_Call inv)) ||
     bool_decide (g_ToolSnapshotID grant ≠ ss_ID snapshot)
  then false
  else if negb (After (g_ExpiresAt grant) now) ||
          bool_decide (g_AttachmentGeneration grant ≠ as_Generation (b_Attachment (inv_Binding inv)))
  then false
  else
    let digest := InputDigest (tc_Input (inv_Call inv)) in
    bool_decide (digest ≠ "") && bool_decide (g_InputSHA256 grant = digest).

(** ** Identifiers: printing and parsing *)

Lemma all_chars_no f c s : f c = false → all_chars f s = true → contains_char c s = false.
Proof.
  intros Hc. induction s as [|d s IH]; simpl; [done|]. rewrite andb_true_iff. intros [Hd Hs].
  rewrite IH by done. rewrite bool_decide_eq_false_2; [done|]. intros ->. congruence.
Qed.

Lemma toolPart_no c s :
  is_lower c = false → is_part_char c = false → toolPartPattern s = true → contains_char c s = false.
Proof.
  intros Hl Hp. destruct s as [|d s]; [done|]. simpl. rewrite !andb_true_iff. intros [[Hd Hs] _].
  rewrite (all_chars_no _ c s Hp Hs), bool_decide_eq_false_2; [done|]. intros ->. congruence.
Qed.

Lemma digits_then_no c k seen s :
  is_digit c = false → (∀ t, k t = true → contains_char c t = false) →
  digits_then k seen s = true → contains_char c s = false.
Proof.
  intros Hc Hk. revert seen. induction s as [|d s IH]; intros seen; simpl; [done|].
  destruct (is_digit d) eqn:Hd.
  - intros H. rewrite (IH _ H), bool_decide_eq_false_2; [done|]. intros ->. congruence.
  - rewrite andb_true_iff. intros [_ H]. by apply Hk in H.
Qed.

Lemma dot_then_no c k s :
  nat_of_ascii c ≠ 46 → (∀ t, k t = true → contains_char c t = false) →
  dot_then k s = true → contains_char c s = false.
Proof.
  intros Hc Hk. destruct s as [|d s]; [done|]. simpl. rewrite andb_true_iff, Nat.eqb_eq.
  intros [Hd H]. rewrite (Hk _ H), bool_decide_eq_false_2; [done|]. intros ->. done.
Qed.

Lemma version_no_at s : versionPattern s = true → contains_char "@" s = false.
Proof.
  apply digits_then_no; [done|]. intros t. apply dot_then_no; [by vm_compute|]. clear t. intros t.
  apply digits_then_no; [done|]. clear t. intros t. apply dot_then_no; [by vm_compute|]. clear t.
  intros t. apply digits_then_no; [done|]. clear t. intros t.
  destruct t as [|c [|d t]]; [done|done|]. cbn [version_tail]. rewrite andb_true_iff, Nat.eqb_eq.
  intros [Hc Ht]. cbn [contains_char]. apply (all_chars_no _ "@"%char) in Ht; [|done].
  cbn [contains_char] in Ht. rewrite Ht, bool_decide_eq_false_2; [done|]. intros <-.
  by vm_compute in Hc.
Qed.

Lemma str_app_assoc (a b c : string) : (a +:+ b) +:+ c = a +:+ (b +:+ c).
Proof. induction a as [|x a IH]; [done|]. change (String x ((a +:+ b) +:+ c) = String x (a +:+ (b +:+ c))). by rewrite IH. Qed.

Lemma contains_char_app c s t : contains_char c (s +:+ t) = contains_char c s || contains_char c t.
Proof.
  induction s as [|d s IH]; [done|]. change (String d s +:+ t) with (String d (s +:+ t)). simpl.
  by rewrite IH, orb_assoc.
Qed.

Lemma ModelName_split id :
  toolPartPattern (Namespace id) = true → toolPartPattern (Name id) = true →
  Split (ModelName id) "." = [Namespace id; Name id].
Proof.
  intros Hns Hnm. unfold ModelName.
  change ("." +:+ Name id) with (String "." (Name id)).
  rewrite Split_app by (by apply toolPart_no).
  by rewrite Split_none by (by apply toolPart_no).
Qed.

Lemma ToolID_String_split id :
  valid_id id = true → Split (ToolID_String id) "@" = [ModelName id; Version id].
Proof.
  unfold valid_id. rewrite !andb_true_iff. intros [[Hns Hnm] Hv].
  replace (ToolID_String id) with (ModelName id +:+ String "@" (Version id)).
  - rewrite Split_app; [by rewrite Split_none by (by apply version_no_at)|].
    unfold ModelName. rewrite !contains_char_app.
    by rewrite (toolPart_no _ (Namespace id)), (toolPart_no _ (Name id)).
  - unfold ToolID_String, ModelName. by rewrite !str_app_assoc.
Qed.

(** Parsing the printed form of a well-formed identifier gives it back. *)
Lemma ParseToolID_String id : valid_id id = true → ParseToolID (ToolID_String id) = Ok id.
Proof.
  intros H. pose proof H as Hv. unfold valid_id in Hv. rewrite !andb_true_iff in Hv.
  destruct Hv as [[Hns Hnm] Hver]. unfold ParseToolID.
  rewrite (ToolID_String_split _ H), ModelName_split by done. simpl.
  rewrite Hns, Hnm, Hver. by destruct id.
Qed.

(** Whatever parses is well formed and is the printed form of its result. *)
Lemma ParseToolID_sound s id :
  ParseToolID s = Ok id → valid_id id = true ∧ ToolID_String id = s.
Proof.
  unfold ParseToolID. destruct (Split s "@") as [|name [|ver [|]]] eqn:E1; try done.
  destruct (Split name ".") as [|ns [|nm [|]]] eqn:E2; try done. simpl.
  destruct (toolPartPattern ns) eqn:Hns, (toolPartPattern nm) eqn:Hnm,
    (versionPattern ver) eqn:Hv; try done. simpl. intros ?; simplify_eq. split.
  - unfold valid_id. simpl. by rewrite Hns, Hnm, Hv.
  - apply Split_inv2 in E1 as ->. apply Split_inv2 in E2 as ->. unfold ToolID_String. simpl.
    by rewrite str_app_assoc.
Qed.

(** Tool identifiers round trip: [ParseToolID] accepts exactly the printed
    forms of the well-formed identifiers, and gives back the identifier that
    was printed. *)
Theorem ParseToolID_exact s id :
  ParseToolID s = Ok id ↔ valid_id id = true ∧ ToolID_String id = s.
Proof. split; [apply ParseToolID_sound|]. intros [Hv <-]. by apply ParseToolID_String. Qed.

(** The name a model sees determines namespace and name of a well-formed tool. *)
Lemma ModelName_inj a b :
  valid_id a = true → valid_id b = true → ModelName a = ModelName b →
  Namespace a = Namespace b ∧ Name a = Name b.
Proof.
  unfold valid_id. rewrite !andb_true_iff. intros [[Ha1 Ha2] _] [[Hb1 Hb2] _] H.
  apply (f_equal (λ s, Split s ".")) in H. rewrite !ModelName_split in H by done. by simplify_eq.
Qed.

Lemma ToolID_String_inj a b :
  valid_id a = true → valid_id b = true → ToolID_String a = ToolID_String b → a = b.
Proof.
  intros Ha Hb H. pose proof (ToolID_String_split _ Ha) as Ea. rewrite H, (ToolID_String_split _ Hb) in Ea.
  injection Ea as Hm Hv. destruct (ModelName_inj _ _ Hb Ha Hm). destruct a, b; simpl in *. by subst.
Qed.

Lemma ValidateDescriptor_valid d : ValidateDescriptor d = None → valid_id (d_ID d) = true.
Proof.
  unfold ValidateDescriptor, valid_id. destruct (toolPartPattern (Namespace (d_ID d))); [|done].
  destruct (toolPartPattern (Name (d_ID d))); [|done]. by destruct (versionPattern (Version (d_ID d))).
Qed.

(** ** The digest that binds a grant to its arguments *)

Lemma InputDigest_nonempty input : Json.Valid input = true → InputDigest input ≠ "".
Proof.
  unfold Json.Valid, InputDigest. destruct (Json.Compact input) as [c|]; [|done]. intros _ H.
  apply (f_equal String.length) in H. by rewrite Sha256.hexdigest_length in H.
Qed.

(** The digest that binds an approval to its arguments survives storage:
    writing the arguments out as a [json.RawMessage] and reading them back
    (compacted and HTML-escaped on the way) does not change their digest. *)
Theorem InputDigest_wire input w :
  Json.raw_wire input = Some w → InputDigest w = InputDigest input.
Proof.
  intros Hw. pose proof (Json.raw_wire_fixed _ _ Hw) as Hw'. unfold Json.raw_wire in *.
  unfold InputDigest. destruct (Json.Compact input) as [c|] eqn:Hc; [|done].
  destruct (Json.Compact w) as [c'|] eqn:Hc'; [|done]. simpl in *.
  injection Hw as <-. injection Hw' as ->. done.
Qed.

Lemma grant_validates_spec g inv snap now :
  grant_validates g inv snap now = true ↔
  g_ApprovalID g ≠ "" ∧ g_InvocationID g = inv_ID inv ∧ g_ToolID g = tc_ID (inv_Call inv) ∧
  g_ToolSnapshotID g = ss_ID snap ∧ (now < g_ExpiresAt g)%Z ∧
  g_AttachmentGeneration g = as_Generation (b_Attachment (inv_Binding inv)) ∧
  Json.Valid (tc_Input (inv_Call inv)) = true ∧
  g_InputSHA256 g = InputDigest (tc_Input (inv_Call inv)).
Proof.
  unfold grant_validates, After. 
  assert (∀ i, InputDigest i ≠ "" ↔ Json.Valid i = true) as Hd.
  { intros i. split; [|apply InputDigest_nonempty]. unfold InputDigest, Json.Valid.
    by destruct (Json.Compact i). }
  split.
  - intros H. repeat case_match; try done. rewrite !orb_false_iff, !bool_decide_eq_false in *.
    rewrite negb_false_iff, Z.ltb_lt in *. rewrite andb_true_iff, !bool_decide_eq_true, Hd in H.
    destruct_and!. repeat split; try done; by apply dec_stable.
  - intros (? & ? & ? & ? & ? & ? & ? & ?).
    rewrite !(bool_decide_eq_false_2 (_ ≠ _)) by (intros Hn; by apply Hn).
    rewrite (bool_decide_eq_false_2 (_ = "")) by done.
    assert (Z.ltb now (g_ExpiresAt g) = true) as -> by (by apply Z.ltb_lt). simpl.
    rewrite andb_true_iff, !bool_decide_eq_true. by rewrite Hd.
Qed.

(** ** Session kinds *)

Lemma shell_tools_only d :
  descriptorMatchesSession d SessionShell = true →
  (Namespace (d_ID d) = "terminal" ∧ (Name (d_ID d) = "read" ∨ Name (d_ID d) = "execute") ∨
   Namespace (d_ID d) = "core" ∧ (Name (d_ID d) = "tool_search" ∨ Name (d_ID d) = "tool_describe")) ∧
  descriptorMatchesSession d SessionAccess = true.
Proof.
  unfold descriptorMatchesSession. rewrite bool_decide_eq_true_2 by done.
  rewrite andb_true_iff, orb_true_iff, !andb_true_iff, !orb_true_iff, !bool_decide_eq_true.
  rewrite (bool_decide_eq_false_2 (SessionAccess = SessionShell)) by done. done.
Qed.

Lemma management_opt_in d :
  descriptorMatchesSession d SessionManagement = true → SessionManagement ∈ d_SessionKinds d.
Proof.
  unfold descriptorMatchesSession, matches_kind_list. simpl.
  destruct (d_SessionKinds d) as [|k ks]; [done|]. intros H.
  change (existsb (λ a, bool_decide (a = SessionManagement)) (k :: ks) = true) in H. apply existsb_exists in H as (x & Hx & ->%bool_decide_eq_true). by apply list_elem_of_In.
Qed.

(** A session kind confines the tools it can be shown: a shell session sees
    only terminal.read, terminal.execute and the two search tools, and those
    only if they are open to access sessions; a management session sees only
    tools that name it; a kind that is not one of the three sees nothing. *)
Theorem session_kind_confines d kind :
  (descriptorMatchesSession d SessionShell = true →
     (Namespace (d_ID d) = "terminal" ∧ (Name (d_ID d) = "read" ∨ Name (d_ID d) = "execute") ∨
      Namespace (d_ID d) = "core" ∧ (Name (d_ID d) = "tool_search" ∨ Name (d_ID d) = "tool_describe")) ∧
     descriptorMatchesSession d SessionAccess = true) ∧
  (descriptorMatchesSession d SessionManagement = true → SessionManagement ∈ d_SessionKinds d) ∧
  (SessionKind_Valid kind = false → descriptorMatchesSession d kind = false).
Proof.
  split_and!; [apply shell_tools_only|apply management_opt_in|]. intros Hk.
  unfold descriptorMatchesSession, matches_kind_list. case_bool_decide as Hs; [by subst|]. by rewrite Hk.
Qed.

Lemma InputDigest_wire_witness :
  InputDigest "{}" = InputDigest (String (ascii_of_nat 32) "{ }").
Proof. apply InputDigest_wire. vm_compute. reflexivity. Defined.
