(* ===== verification/ToolRegistry.v ===== *)
(** * agent/tool: catalog and registry

    [catalog.go]: the immutable-by-copy catalog of descriptors with their
    generation.  [registry.go]: the registrations with the calls in flight.
    The registry hands out pointers to its [managedRegistration] objects and
    compares them on release, so the objects live in a store ([heap]) and the
    map holds references.  A lease's [CancelFunc] is the pair of its object
    and its number; [cancelled] collects the ones called.  Both components
    hold their lock for the whole operation. *)

From S2P Require Import Prelude ToolTypes.

(** ** Catalog *)
Record catalogEntry := mkEntry {
  ce_descriptor : ToolDescriptor;
  ce_registrationGeneration : N;
  ce_status : ToolStatus
}.
#[global] Instance eta_catalogEntry : Eta catalogEntry := {| eta := λ e,
  mkEntry (ce_descriptor e) (ce_registrationGeneration e) (ce_status e) |}.

Record Catalog := mkCatalog { c_generation : N; c_entries : gmap ToolID catalogEntry }.
Definition NewCatalog : Catalog := mkCatalog 0%N ∅.

Module CatalogOps.

Definition upsert (d : ToolDescriptor) (generation : N) (status : ToolStatus) (c : Catalog) : N * Catalog :=
  let g := u64_add (c_generation c) 1 in
  (g, mkCatalog g (<[d_ID d := mkEntry d generation status]> (c_entries c))).

Definition setStatus (id : ToolID) (status : ToolStatus) (c : Catalog) : (N * bool) * Catalog :=
  match c_entries c !! id with
  | None => (c_generation c, false, c)
  | Some e =>
      let g := u64_add (c_generation c) 1 in
      (g, true, mkCatalog g (<[id := e<| ce_status := status |>]> (c_entries c)))
  end.

Definition remove (id : ToolID) (c : Catalog) : (N * bool) * Catalog :=
  match c_entries c !! id with
  | None => (c_generation c, false, c)
  | Some _ =>
      let g := u64_add (c_generation c) 1 in
      (g, true, mkCatalog g (delete id (c_entries c)))
  end.

(** The entries with a model-visible name, in map iteration order. *)
Definition byModelName (namespace name : string) (c : Catalog) : list catalogEntry :=
  (filter (λ kv : ToolID * catalogEntry, Namespace kv.1 = namespace ∧ Name kv.1 = name)
    (map_to_list (c_entries c))).*2.

End CatalogOps.

(** ** Registry *)
Definition ToolStatus_String (s : ToolStatus) : string :=
  match s with
  | ToolStatusActive => "active"
  | ToolStatusDisabled => "disabled"
  | ToolStatusDraining => "draining"
  | ToolStatusFailed => "failed"
  | ToolStatusUnloaded => "unloaded"
  end.

Definition validStatusTransition (from to : ToolStatus) : bool :=
  if bool_decide (from = to) then true else
  match from, to with
  | ToolStatusActive, (ToolStatusDisabled | ToolStatusDraining | ToolStatusFailed) => true
  | ToolStatusDisabled, (ToolStatusActive | ToolStatusDraining | ToolStatusFailed) => true
  | ToolStatusFailed, (ToolStatusActive | ToolStatusDisabled | ToolStatusDraining) => true
  | _, _ => false
  end.

(** [F] is the type of tool factories; a nil factory is [None]. *)
Record ToolRegistration (F : Type) := mkRegistration {
  reg_Descriptor : ToolDescriptor;
  reg_Factory : option F
}.
Arguments mkRegistration {F} _ _.
Arguments reg_Descriptor {F} _.
Arguments reg_Factory {F} _.

Record managedRegistration (F : Type) := mkManaged {
  mr_registration : ToolRegistration F;
  mr_generation : N;
  mr_status : ToolStatus;
  mr_inFlight : gset N;
  mr_nextLeaseID : N
}.
Arguments mkManaged {F} _ _ _ _ _.
Arguments mr_registration {F} _.
Arguments mr_generation {F} _.
Arguments mr_status {F} _.
Arguments mr_inFlight {F} _.
Arguments mr_nextLeaseID {F} _.
#[global] Instance eta_managed F : Eta (managedRegistration F) := {| eta := λ m,
  mkManaged (mr_registration m) (mr_generation m) (mr_status m) (mr_inFlight m) (mr_nextLeaseID m) |}.

Definition ref := N.

Record Registry (F : Type) := mkRegistry {
  r_generation : N;
  r_registrations : gmap ToolID ref;
  r_heap : gmap ref (managedRegistration F);
  r_fresh : ref;
  r_cancelled : gset (ref * N)
}.
Arguments mkRegistry {F} _ _ _ _ _.
Arguments r_generation {F} _.
Arguments r_registrations {F} _.
Arguments r_heap {F} _.
Arguments r_fresh {F} _.
Arguments r_cancelled {F} _.
#[global] Instance eta_Registry F : Eta (Registry F) := {| eta := λ r,
  mkRegistry (r_generation r) (r_registrations r) (r_heap r) (r_fresh r) (r_cancelled r) |}.

Record ToolLease (F : Type) := mkLease {
  l_entry : ref;
  l_leaseID : N;
  l_registration : ToolRegistration F
}.
Arguments mkLease {F} _ _ _.
Arguments l_entry {F} _.
Arguments l_leaseID {F} _.
Arguments l_registration {F} _.

Definition NewRegistry {F} : Registry F := mkRegistry 0%N ∅ ∅ 0%N ∅.

Module RegistryOps.
Section Ops.
Context {F : Type}.
Abbreviation Reg := (Registry F).

(** The object a map entry points to. *)
Definition lookup (id : ToolID) (r : Reg) : option (ref * managedRegistration F) :=
  p ← r_registrations r !! id; m ← r_heap r !! p; Some (p, m).

Definition tick (r : Reg) : Reg := r<| r_generation := u64_add (r_generation r) 1 |>.
Definition store (p : ref) (m : managedRegistration F) (r : Reg) : Reg :=
  r<| r_heap := <[p := m]> (r_heap r) |>.

Definition register (reg : ToolRegistration F) (replace : bool) : Op Reg N :=
  let id := d_ID (reg_Descriptor reg) in
  let! dup := gets (λ r, match lookup id r with
    | Some (_, m) => negb replace && bool_decide (mr_status m ≠ ToolStatusUnloaded)
    | None => false
    end) in
  throw_if dup with wrapf ErrAlreadyRegistered (ToolID_String id) ;;
  modify tick ;;
  modify (λ r, r<| r_heap := <[r_fresh r := mkManaged reg (r_generation r) ToolStatusActive ∅ 0%N]> (r_heap r) |>
    <| r_registrations := <[id := r_fresh r]> (r_registrations r) |>
    <| r_fresh := (r_fresh r + 1)%N |>) ;;
  gets r_generation.

(** An entry that is there and not unloaded. *)
Definition live_entry (id : ToolID) : Op Reg (ref * managedRegistration F) := λ r,
  of_option (match lookup id r with
    | Some (p, m) => if bool_decide (mr_status m = ToolStatusUnloaded) then None else Some (p, m)
    | None => None
    end) (wrapf ErrToolNotFound (ToolID_String id)) r.

Definition setStatus (id : ToolID) (status : ToolStatus) : Op Reg N :=
  let! ' (p, m) := live_entry id in
  throw_if negb (validStatusTransition (mr_status m) status)
    with wrapf ErrToolUnavailable ("cannot transition " +:+ ToolID_String id +:+ " from "
      +:+ ToolStatus_String (mr_status m) +:+ " to " +:+ ToolStatus_String status) ;;
  modify tick ;;
  modify (store p (m<| mr_status := status |>)) ;;
  gets r_generation.

Definition unload (id : ToolID) (force : bool) : Op Reg (N * bool) :=
  let! ' (p, m) := live_entry id in
  modify tick ;;
  let m := m<| mr_status := ToolStatusDraining |> in
  modify (store p m) ;;
  (if force then modify (λ r, r<| r_cancelled := set_map (λ l, (p, l)) (mr_inFlight m) ∪ r_cancelled r |>)
   else ret tt) ;;
  if bool_decide (mr_inFlight m = ∅) then
    modify (store p (m<| mr_status := ToolStatusUnloaded |>)) ;;
    modify (λ r, r<| r_registrations := delete id (r_registrations r) |>) ;;
    gets (λ r, (r_generation r, true))
  else gets (λ r, (r_generation r, false)).

Definition acquire (id : ToolID) (generation : N) : Op Reg (ToolLease F) :=
  let! ' (p, m) := (λ r, of_option (lookup id r) (wrapf ErrToolNotFound (ToolID_String id)) r) in
  throw_if bool_decide (mr_status m ≠ ToolStatusActive)
    with wrapf ErrToolUnavailable (ToolID_String id +:+ " is " +:+ ToolStatus_String (mr_status m)) ;;
  throw_if bool_decide (mr_generation m ≠ generation)
    with wrapf ErrStaleSnapshot (ToolID_String id +:+ " generation " +:+ pretty generation
      +:+ " is now " +:+ pretty (mr_generation m)) ;;
  let next := u64_add (mr_nextLeaseID m) 1 in
  let m := m<| mr_nextLeaseID := next |><| mr_inFlight := {[next]} ∪ mr_inFlight m |> in
  modify (store p m) ;;
  ret (mkLease p next (mr_registration m)).

Definition release (p : ref) (leaseID : N) (r : Reg) : Reg :=
  match r_heap r !! p with
  | None => r
  | Some m =>
      if bool_decide (leaseID ∉ mr_inFlight m) then r else
      let r := r<| r_cancelled := {[(p, leaseID)]} ∪ r_cancelled r |> in
      let m := m<| mr_inFlight := mr_inFlight m ∖ {[leaseID]} |> in
      if bool_decide (mr_status m = ToolStatusDraining) && bool_decide (mr_inFlight m = ∅) then
        let r := store p (m<| mr_status := ToolStatusUnloaded |>) r in
        let id := d_ID (reg_Descriptor (mr_registration m)) in
        if bool_decide (r_registrations r !! id = Some p)
        then tick (r<| r_registrations := delete id (r_registrations r) |>)
        else r
      else store p m r
  end.

Definition status (id : ToolID) (r : Reg) : (ToolStatus * N * Z) * bool :=
  match lookup id r with
  | None => (ToolStatusUnloaded, 0%N, 0%Z, false)
  | Some (_, m) => (mr_status m, mr_generation m, Z.of_nat (size (mr_inFlight m)), true)
  end.

(** [Release] of a lease: [sync.Once] lets only the first call through, and
    a second one would find the lease number gone ([release_idem]). *)
Definition Release (l : ToolLease F) : Reg → Reg := release (l_entry l) (l_leaseID l).
End Ops.
End RegistryOps.

(** ** The registry's invariant

    A map entry points to an object of its own identifier that is not
    unloaded; no two objects ever had the same generation; an unloaded object
    has no call in flight; lease numbers in flight were handed out. *)
Import RegistryOps.

Record rwf {F} (r : Registry F) : Prop := {
  rw_entry id p : r_registrations r !! id = Some p →
    ∃ m, r_heap r !! p = Some m ∧ d_ID (reg_Descriptor (mr_registration m)) = id ∧
         mr_status m ≠ ToolStatusUnloaded;
  rw_fresh p m : r_heap r !! p = Some m → (p < r_fresh r)%N ∧ (mr_generation m ≤ r_generation r)%N;
  rw_generation p q m n : r_heap r !! p = Some m → r_heap r !! q = Some n →
    mr_generation m = mr_generation n → p = q;
  rw_unloaded p m : r_heap r !! p = Some m → mr_status m = ToolStatusUnloaded → mr_inFlight m = ∅;
  rw_leases p m l : r_heap r !! p = Some m → l ∈ mr_inFlight m → (l ≤ mr_nextLeaseID m)%N
}.

(** The [uint64] counters have not run out: one more generation, one more lease. *)
Definition fits {F} (r : Registry F) : Prop :=
  (r_generation r + 1 < u64_max)%N ∧
  ∀ p m, r_heap r !! p = Some m → (mr_nextLeaseID m + 1 < u64_max)%N.

Section Invariant.
Context {F : Type}.
Implicit Types r : Registry F.

Lemma rwf_init : rwf (@NewRegistry F).
Proof. split; intros; by simplify_map_eq. Qed.

Lemma lookup_Some id r p m :
  lookup id r = Some (p, m) ↔ r_registrations r !! id = Some p ∧ r_heap r !! p = Some m.
Proof.
  unfold lookup. destruct (r_registrations r !! id) as [q|] eqn:E; simpl; [|by split; [|intros []]].
  destruct (r_heap r !! q) eqn:E'; simpl; split; [| |done|]; intros ?; destruct_and?; by simplify_eq.
Qed.

Lemma lookup_None id r : rwf r → lookup id r = None ↔ r_registrations r !! id = None.
Proof.
  intros Hr. unfold lookup. destruct (r_registrations r !! id) as [q|] eqn:E; simpl; [|done].
  destruct (rw_entry _ Hr _ _ E) as (m & Hm & _). by rewrite Hm.
Qed.

Lemma rwf_tick r : rwf r → fits r → rwf (tick r).
Proof.
  intros [] [Hg _]. split; simpl; eauto. intros p m Hm. destruct (rw_fresh0 _ _ Hm).
  rewrite u64_add_small by done. split; [done|lia].
Qed.

Lemma rwf_delete r id : rwf r → rwf (r<| r_registrations := delete id (r_registrations r) |>).
Proof. intros []. split; simpl; eauto. intros i p [_ Hi]%lookup_delete_Some. eauto. Qed.

Lemma rwf_cancel r X : rwf r → rwf (r<| r_cancelled := X |>).
Proof. intros []. by split. Qed.

(** An object rewritten in place: same registration, same generation. *)
Lemma rwf_store r p m m' :
  rwf r → r_heap r !! p = Some m →
  mr_registration m' = mr_registration m → mr_generation m' = mr_generation m →
  (∀ id, r_registrations r !! id = Some p → mr_status m' ≠ ToolStatusUnloaded) →
  (mr_status m' = ToolStatusUnloaded → mr_inFlight m' = ∅) →
  (∀ l, l ∈ mr_inFlight m' → (l ≤ mr_nextLeaseID m')%N) →
  rwf (store p m' r).
Proof.
  intros [] Hm Hreg Hgen Hst Hun Hl. split; simpl; eauto.
  - intros id q Hq. destruct (rw_entry0 _ _ Hq) as (n & Hn & Hid & Hs).
    destruct (decide (p = q)) as [->|Hne].
    + exists m'. rewrite lookup_insert_eq. simplify_eq. rewrite Hreg. eauto.
    + exists n. by rewrite lookup_insert_ne.
  - intros q n [[<- <-]|[_ Hn]]%lookup_insert_Some; [rewrite Hgen|]; eauto.
  - intros q1 q2 n1 n2 [[<- <-]|[_ H1]]%lookup_insert_Some [[<- <-]|[_ H2]]%lookup_insert_Some;
      rewrite ?Hgen; eauto.
  - intros q n [[<- <-]|[_ Hn]]%lookup_insert_Some; eauto.
  - intros q n l [[<- <-]|[_ Hn]]%lookup_insert_Some; eauto.
Qed.

Lemma rwf_register reg replace r g r' :
  rwf r → fits r → register reg replace r = (Ok g, r') →
  rwf r' ∧ g = (r_generation r + 1)%N ∧ r_generation r' = g ∧
  r_registrations r' = <[d_ID (reg_Descriptor reg) := r_fresh r]> (r_registrations r) ∧
  r_heap r' = <[r_fresh r := mkManaged reg g ToolStatusActive ∅ 0%N]> (r_heap r) ∧
  r_cancelled r' = r_cancelled r.
Proof.
  intros Hr Hf H. unfold register in H. pose proof (rwf_tick r Hr Hf) as Ht.
  unfold_monad. match type of H with context [if ?b then _ else _] => destruct b eqn:Hb end; [done|].
  simplify_eq/=. rewrite u64_add_small by apply Hf. split_and!; try done.
  assert (r_heap r !! r_fresh r = None) as Hnone.
  { destruct (r_heap r !! r_fresh r) eqn:E; [|done]. destruct (rw_fresh _ Hr _ _ E). lia. }
  assert (∀ p m, r_heap r !! p = Some m → mr_generation m ≠ (r_generation r + 1)%N) as Hg.
  { intros p m Hm. destruct (rw_fresh _ Hr _ _ Hm). lia. }
  destruct Hr. split; simpl.
  - intros id p [[<- <-]|[Hne Hp]]%lookup_insert_Some.
    + eexists. rewrite lookup_insert_eq. done.
    + destruct (rw_entry0 _ _ Hp) as (m & Hm & ?). exists m.
      rewrite lookup_insert_ne by congruence. done.
  - intros p m [[<- <-]|[_ Hm]]%lookup_insert_Some; simpl; [lia|].
    destruct (rw_fresh0 _ _ Hm). lia.
  - intros p q m n [[<- <-]|[_ Hm]]%lookup_insert_Some [[<- <-]|[_ Hn]]%lookup_insert_Some;
      simpl; intros Heq; eauto; exfalso; by eapply Hg.
  - intros p m [[<- <-]|[_ Hm]]%lookup_insert_Some; simpl; eauto.
  - intros p m l [[<- <-]|[_ Hm]]%lookup_insert_Some; simpl; [set_solver|eauto].
Qed.

Lemma register_err reg replace r e r' : register reg replace r = (Err e, r') → r' = r.
Proof. unfold register. unfold_monad. intros H. by repeat case_match; simplify_eq. Qed.

Lemma validStatusTransition_unloaded s : s ≠ ToolStatusUnloaded → validStatusTransition s ToolStatusUnloaded = false.
Proof. by destruct s. Qed.

Lemma live_entry_inv id r x r' :
  live_entry id r = (x, r') → r' = r ∧
  match x with
  | Ok (p, m) => r_registrations r !! id = Some p ∧ r_heap r !! p = Some m ∧ mr_status m ≠ ToolStatusUnloaded
  | Err e => Is e ErrToolNotFound = true ∧ (rwf r → r_registrations r !! id = None)
  end.
Proof.
  unfold live_entry. unfold_monad. destruct (lookup id r) as [[p m]|] eqn:E.
  - apply lookup_Some in E as [? ?]. case_bool_decide as Hs; intros; simplify_eq; split; try done.
    split; [done|]. intros Hr. by destruct (rw_entry _ Hr id p) as (? & ? & ? & ?); simplify_eq.
  - intros; simplify_eq. split; [done|]. split; [done|]. intros Hr. by apply lookup_None.
Qed.

Lemma setStatus_ok id st r g r' :
  rwf r → fits r → setStatus id st r = (Ok g, r') →
  ∃ p m, r_registrations r !! id = Some p ∧ r_heap r !! p = Some m ∧
    validStatusTransition (mr_status m) st = true ∧
    r' = store p (m<| mr_status := st |>) (tick r) ∧ rwf r'.
Proof.
  intros Hr Hf H. unfold setStatus, bind in H.
  destruct (live_entry id r) as [[[p m]|e] r0] eqn:E; [|done].
  apply live_entry_inv in E as (-> & Hp & Hm & Hs). cbv beta iota in H.
  destruct (validStatusTransition (mr_status m) st) eqn:Hv; [|done]. simpl in H.
  unfold_monad. simplify_eq. exists p, m. split_and!; try done.
  assert (st ≠ ToolStatusUnloaded) by (intros ->; by rewrite validStatusTransition_unloaded in Hv).
  eapply rwf_store; [by apply rwf_tick|done..| |done|]; simpl; [done|]. intros l. by apply (rw_leases _ Hr p).
Qed.

Lemma setStatus_err id st r e r' :
  setStatus id st r = (Err e, r') → r' = r ∧
  (Is e ErrToolNotFound = true ∧ (rwf r → r_registrations r !! id = None) ∨
   ∃ p m, r_registrations r !! id = Some p ∧ r_heap r !! p = Some m ∧ mr_status m ≠ ToolStatusUnloaded ∧
          validStatusTransition (mr_status m) st = false ∧ Is e ErrToolUnavailable = true).
Proof.
  unfold setStatus, bind. destruct (live_entry id r) as [[[p m]|e0] r0] eqn:E;
    apply live_entry_inv in E as (-> & E).
  - destruct E as (? & ? & ?). destruct (validStatusTransition (mr_status m) st) eqn:Hv; [done|].
    unfold_monad. simpl. intros; simplify_eq. split; [done|]. right. exists p, m. done.
  - intros; simplify_eq. split; [done|]. by left.
Qed.

(** What [unload] leaves: a draining object, or nothing when no call is in flight. *)
Lemma unload_ok id force r g b r' :
  rwf r → fits r → unload id force r = (Ok (g, b), r') →
  ∃ p m, r_registrations r !! id = Some p ∧ r_heap r !! p = Some m ∧ rwf r' ∧
    b = bool_decide (mr_inFlight m = ∅) ∧
    r_registrations r' = (if b then delete id (r_registrations r) else r_registrations r) ∧
    r_heap r' = <[p := m<| mr_status := (if b then ToolStatusUnloaded else ToolStatusDraining) |>]> (r_heap r) ∧
    r_cancelled r' = (if force then set_map (λ l, (p, l)) (mr_inFlight m) else ∅) ∪ r_cancelled r ∧
    r_generation r' = (r_generation r + 1)%N.
Proof.
  intros Hr Hf H. unfold unload, bind in H.
  destruct (live_entry id r) as [[[p m]|e] r0] eqn:E; [|done].
  apply live_entry_inv in E as (-> & Hp & Hm & Hs). cbv beta iota in H.
  exists p, m. do 2 (split; [done|]).
  assert (∀ (d : bool) X, (d = true → mr_inFlight m = ∅) → rwf (store p
    (m<| mr_status := (if d then ToolStatusUnloaded else ToolStatusDraining) |>)
    (tick (r<| r_registrations := (if d then delete id (r_registrations r) else r_registrations r) |>
            <| r_cancelled := X |>)))) as Hst.
  { clear H. intros d X Hd. eapply rwf_store; [|exact Hm|done|done|..]; simpl.
    - apply rwf_tick; [|done].
      destruct d; [exact (rwf_cancel _ X (rwf_delete _ id Hr))|exact (rwf_cancel _ X Hr)].
    - intros id' Hid'. destruct d; [|done]. apply lookup_delete_Some in Hid' as [Hne Hid'].
      destruct (rw_entry _ Hr _ _ Hid') as (m1 & ? & ? & _), (rw_entry _ Hr _ _ Hp) as (m2 & ? & ? & _).
      congruence.
    - destruct d; [by intros _; apply Hd|done].
    - intros l. by apply (rw_leases _ Hr p). }
  unfold_monad. destruct force; simpl in H; case_bool_decide as Hin; simplify_eq/=; rewrite ?insert_insert_eq.
  all: split; [first [by apply (Hst true)|by apply (Hst false)]|].
  all: rewrite ?bool_decide_eq_true_2, ?bool_decide_eq_false_2 by done;
    split_and!; done || (by apply u64_add_small, Hf) || set_solver.
Qed.

Lemma unload_err id force r e r' :
  unload id force r = (Err e, r') →
  r' = r ∧ Is e ErrToolNotFound = true ∧ (rwf r → r_registrations r !! id = None).
Proof.
  unfold unload, bind. destruct (live_entry id r) as [[[p m]|e0] r0] eqn:E;
    apply live_entry_inv in E as (-> & E); intros H.
  - exfalso. unfold_monad. destruct force; repeat case_match; by simplify_eq.
  - by simplify_eq.
Qed.

Lemma acquire_ok id g r l r' :
  rwf r → fits r → acquire id g r = (Ok l, r') →
  ∃ m, r_registrations r !! id = Some (l_entry l) ∧ r_heap r !! l_entry l = Some m ∧
    mr_status m = ToolStatusActive ∧ mr_generation m = g ∧ l_registration l = mr_registration m ∧
    l_leaseID l = (mr_nextLeaseID m + 1)%N ∧ (l_leaseID l ∉ mr_inFlight m) ∧
    r' = store (l_entry l) (m<| mr_nextLeaseID := l_leaseID l |>
           <| mr_inFlight := ({[l_leaseID l]} ∪ mr_inFlight m) |>) r ∧ rwf r'.
Proof.
  intros Hr Hf H. unfold acquire, bind, of_option in H.
  destruct (lookup id r) as [[p m]|] eqn:E; [|done]. apply lookup_Some in E as [Hp Hm]. go_run H.
  rewrite u64_add_small by (by apply (proj2 Hf p)). exists m. split_and!; try done.
  - intros Hin%(rw_leases _ Hr p); [lia|done].
  - eapply (rwf_store _ p m); try done; simpl; [intros _ _; congruence|congruence|].
    intros l. rewrite elem_of_union, elem_of_singleton. intros [->|Hl%(rw_leases _ Hr p)]; [done|lia|done].
Qed.

Lemma acquire_err id g r e r' : acquire id g r = (Err e, r') → r' = r.
Proof.
  unfold acquire, bind, of_option. destruct (lookup id r) as [[p m]|]; unfold_monad;
    intros; repeat case_match; by simplify_eq.
Qed.

(** A release takes one lease out of one object; the object goes away when
    it was draining and this was its last call, and the map entry with it
    only if it still points to this very object. *)
Lemma release_ok p l r m :
  rwf r → fits r → r_heap r !! p = Some m → l ∈ mr_inFlight m →
  let r' := release p l r in
  let gone := bool_decide (mr_status m = ToolStatusDraining) && bool_decide (mr_inFlight m ∖ {[l]} = ∅) in
  let id := d_ID (reg_Descriptor (mr_registration m)) in
  rwf r' ∧ r_cancelled r' = {[(p, l)]} ∪ r_cancelled r ∧
  r_heap r' = <[p := m<| mr_inFlight := mr_inFlight m ∖ {[l]} |>
    <| mr_status := (if gone then ToolStatusUnloaded else mr_status m) |>]> (r_heap r) ∧
  r_registrations r' = (if gone && bool_decide (r_registrations r !! id = Some p)
    then delete id (r_registrations r) else r_registrations r) ∧
  (r_generation r ≤ r_generation r')%N.
Proof.
  intros Hr Hf Hm Hl. unfold release. rewrite Hm, bool_decide_eq_false_2 by (intros Hn; by apply Hn).
  assert (∀ id', r_registrations r !! id' = Some p → id' = d_ID (reg_Descriptor (mr_registration m))) as Hid.
  { intros id' Hid'. destruct (rw_entry _ Hr _ _ Hid') as (m1 & ? & ? & _). congruence. }
  assert (mr_status m ≠ ToolStatusUnloaded) as Hs.
  { intros Hu. rewrite (rw_unloaded _ Hr _ _ Hm Hu) in Hl. set_solver. }
  assert (∀ x, x ∈ mr_inFlight m ∖ {[l]} → (x ≤ mr_nextLeaseID m)%N) as Hle.
  { intros x [Hx _]%elem_of_difference. by apply (rw_leases _ Hr p). }
  assert (∀ id' p', delete (d_ID (reg_Descriptor (mr_registration m))) (r_registrations r) !! id' = Some p' → p' ≠ p) as Hd.
  { intros id' p' [Hne Hid']%lookup_delete_Some ->. by apply Hne; symmetry; apply Hid. }
  simpl. destruct (bool_decide (mr_status m = ToolStatusDraining)) eqn:E1; simpl;
    [destruct (bool_decide (mr_inFlight m ∖ {[l]} = ∅)) eqn:E2; simpl|]; bools.
  - destruct (bool_decide (r_registrations r !! _ = Some p)) eqn:E3; simpl; bools.
    + split_and!; try done; [|rewrite u64_add_small by apply Hf; lia].
      eapply (rwf_store _ p m _ (rwf_tick _ (rwf_cancel _ _ (rwf_delete _ _ Hr)) Hf)); simpl; try done.
      intros id' Hid'. by apply Hd in Hid'.
    + split_and!; try done. eapply (rwf_store _ p m _ (rwf_cancel _ _ Hr)); simpl; try done.
      intros id' Hid'. pose proof (Hid _ Hid'). congruence.
  - split_and!; try done. by eapply (rwf_store _ p m _ (rwf_cancel _ _ Hr)).
  - split_and!; try done. by eapply (rwf_store _ p m _ (rwf_cancel _ _ Hr)).
Qed.

Lemma release_idem p l r : release p l (release p l r) = release p l r.
Proof.
  unfold release at 2 3. destruct (r_heap r !! p) as [m|] eqn:Hm; [|unfold release; by rewrite Hm].
  case_bool_decide as Hl; [unfold release; rewrite Hm; by rewrite bool_decide_eq_true_2|].
  simpl. unfold store, tick. repeat case_match; unfold release; simpl; rewrite lookup_insert_eq; simpl;
    by rewrite bool_decide_eq_true_2 by set_solver.
Qed.
End Invariant.
