(* ===== verification/ToolEngine.v ===== *)
(** * agent/tool: the engine

    [engine.go] and [pipeline.go].  [Engine] couples the catalog and the
    registry; its lifecycle operations hold [lifecycleMu], so each is one
    atomic function of the pair.  [execute] takes no lock while policy,
    factory and tool code run: that code is a computation over the engine and
    the rest of the world ([W]), so it may do to the engine whatever another
    goroutine could do meanwhile.  [iterate] is the order in which the
    catalog's map is ranged over. *)

From S2P Require Import Prelude Json ToolTypes ToolRegistry.

Record Engine (F : Type) := mkEngine { e_catalog : Catalog; e_registry : Registry F }.
Arguments mkEngine {F} _ _.
Arguments e_catalog {F} _.
Arguments e_registry {F} _.
#[global] Instance eta_Engine F : Eta (Engine F) := {| eta := λ e, mkEngine (e_catalog e) (e_registry e) |}.

Definition NewEngine {F} : Engine F := mkEngine NewCatalog NewRegistry.

(** The call, its error handed to the caller as a value. *)
Definition attempt {S P A} (m : M S P A) : M S P (result P A) := λ s, (Ok (fst (m s)), snd (m s)).

Module EngineOps.
Section Lifecycle.
Context {F : Type} (iterate : list catalogEntry → list catalogEntry).
Abbreviation Eng := (Engine F).

Definition registry_op {A} (m : Op (Registry F) A) : Op Eng A := λ e,
  (fst (m (e_registry e)), e<| e_registry := snd (m (e_registry e)) |>).
Definition catalog_op {A} (f : Catalog → A * Catalog) : Op Eng A := λ e,
  (Ok (fst (f (e_catalog e))), e<| e_catalog := snd (f (e_catalog e)) |>).

(** The loop of a replacement over the entries with the same model name. *)
Fixpoint drain_replaced (d : ToolDescriptor) (existing : list catalogEntry) : Op Eng unit :=
  match existing with
  | [] => ret tt
  | entry :: rest =>
      let old := ce_descriptor entry in
      throw_if bool_decide (src_ID (d_Source old) ≠ src_ID (d_Source d))
        with (wrapf ErrToolUnavailable ("source " +:+ quote (src_ID (d_Source d)) +:+ " cannot replace "
          +:+ ToolID_String (d_ID old) +:+ " owned by " +:+ quote (src_ID (d_Source old)))) ;;
      if bool_decide (d_ID old = d_ID d) then drain_replaced d rest else
      let! r := attempt (registry_op (RegistryOps.setStatus (d_ID old) ToolStatusDraining)) in
      match r with
      | Err err =>
          throw_if negb (Is err ErrToolNotFound)
            with (EWrap ("drain replaced tool " +:+ ToolID_String (d_ID old) +:+ ": ") err EmptyString) ;;
          catalog_op (CatalogOps.setStatus (d_ID old) ToolStatusDraining) ;;
          drain_replaced d rest
      | Ok _ =>
          catalog_op (CatalogOps.setStatus (d_ID old) ToolStatusDraining) ;;
          drain_replaced d rest
      end
  end.

Definition register (reg : ToolRegistration F) (replace : bool) : Op Eng unit :=
  let d := reg_Descriptor reg in
  throw_if bool_decide (reg_Factory reg = None) with wrapf ErrInvalidDescriptor "factory is required" ;;
  check (ValidateDescriptor d) ;;
  let! existing := gets (λ e, iterate (CatalogOps.byModelName (Namespace (d_ID d)) (Name (d_ID d)) (e_catalog e))) in
  throw_if negb replace && bool_decide (existing ≠ [])
    with wrapf ErrAlreadyRegistered ("model-visible name " +:+ ModelName (d_ID d)) ;;
  (if replace then drain_replaced d existing else ret tt) ;;
  let! generation := registry_op (RegistryOps.register reg replace) in
  catalog_op (CatalogOps.upsert d generation ToolStatusActive) ;;
  ret tt.

Definition Register (reg : ToolRegistration F) : Op Eng unit := register reg false.
Definition Replace (reg : ToolRegistration F) : Op Eng unit := register reg true.

(** [Enable], [Disable] and [Drain] differ in the status and the verb of the error. *)
Definition set_status (verb : string) (status : ToolStatus) (id : ToolID) : Op Eng unit :=
  registry_op (RegistryOps.setStatus id status) ;;
  let! ' (_, ok) := catalog_op (CatalogOps.setStatus id status) in
  throw_if negb ok with EWrap (verb +:+ " catalog entry " +:+ ToolID_String id +:+ ": ") ErrToolNotFound "" ;;
  ret tt.
Definition Enable := set_status "enable" ToolStatusActive.
Definition Disable := set_status "disable" ToolStatusDisabled.
Definition Drain := set_status "drain" ToolStatusDraining.

Definition Unload (id : ToolID) (force : bool) : Op Eng bool :=
  let! ' (_, complete) := registry_op (RegistryOps.unload id force) in
  (if (complete : bool) then catalog_op (CatalogOps.remove id) ;; ret tt
   else catalog_op (CatalogOps.setStatus id ToolStatusDraining) ;; ret tt) ;;
  ret complete.

Definition Status (id : ToolID) (e : Eng) : (ToolStatus * N * Z) * bool :=
  RegistryOps.status id (e_registry e).
End Lifecycle.
End EngineOps.

(** ** Execution *)
Definition DeadlineExceeded : error := ESentinel "context.DeadlineExceeded" "context deadline exceeded".

(** The contexts of a call: the lease's, and timeouts laid over it. *)
Inductive hctx := LeaseCtx (p : ref) (l : N) | TimeoutCtx (parent : hctx) (timeout : Z).

Definition validateAttachmentGeneration (snapshot : ToolSetSnapshot) (a : AttachmentSnapshot) : option error :=
  if bool_decide (as_ID a = "") then None else
  match ss_AttachmentGeneration snapshot !! as_ID a with
  | None => Some (wrapf ErrStaleSnapshot ("attachment " +:+ quote (as_ID a) +:+ " was not present"))
  | Some generation =>
      if bool_decide (generation ≠ as_Generation a)
      then Some (wrapf ErrStaleSnapshot ("attachment " +:+ quote (as_ID a) +:+ " generation "
        +:+ pretty generation +:+ " is now " +:+ pretty (as_Generation a)))
      else None
  end.

Module Execution.
Section Execute.
Context {F W : Type}.
Abbreviation St := (Engine F * W)%type.
Definition ToolHandler := hctx → ToolInvocation → Op St ToolResult.
(** What [Bind] returns: an [InvocationExecutor], or a plain [ToolExecutor]. *)
Inductive ToolExecutor :=
| InvocationExecutor (run : hctx → ToolInvocation → Op St ToolResult)
| PlainExecutor (run : hctx → string → Op St ToolResult).

(** The code the engine calls, and what it asks its environment: policy,
    factories, contexts' errors, the clock, the rendering of seconds. *)
Context (Evaluate : ctx → ToolInvocation → ToolDescriptor → Op St Decision_)
        (Bind : F → hctx → ToolBinding → Op St (option ToolExecutor))
        (hctx_Err : hctx → St → option error)
        (Now : St → Time)
        (Seconds : Z → string).

Definition Chain (handler : ToolHandler) (middleware : list (ToolHandler → ToolHandler)) : ToolHandler :=
  foldr (λ wrap h, wrap h) handler middleware.

Definition timeout_content (timeout : Z) : string :=
  "{" +:+ quote "code" +:+ ":" +:+ quote "tool_timeout" +:+ "," +:+ quote "message" +:+ ":"
  +:+ quote "Tool execution exceeded its time limit. Remote completion is unknown. Do not claim success or automatically retry. Explain the timeout and ask before any further execution; prefer a narrower scope."
  +:+ "," +:+ quote "timeout_seconds" +:+ ":" +:+ Seconds timeout +:+ "}".

Definition is_deadline (e : option error) : bool :=
  match e with Some e => Is e DeadlineExceeded | None => false end.

Definition TimeoutMiddleware (timeout : Z) (next : ToolHandler) : ToolHandler := λ c inv,
  if Z.leb timeout 0 then next c inv else
  let timed := TimeoutCtx c timeout in
  let! r := attempt (next timed inv) in
  λ s, let failed := match r with Err e => Is e DeadlineExceeded | Ok _ => false end in
       if bool_decide (is_Some (hctx_Err c s)) || negb (is_deadline (hctx_Err timed s)) || negb failed
       then (r, s)
       else (Ok (mkToolResult OutputError (timeout_content timeout) true false ""), s).

(** The handler at the end of the chain. *)
Definition base (executor : ToolExecutor) : ToolHandler := λ c call,
  map_err (λ e, EWrap ("execute tool " +:+ ToolID_String (tc_ID (inv_Call call)) +:+ ": ") e "")
    (match executor with
     | InvocationExecutor run => run c call
     | PlainExecutor run => run c (tc_Input (inv_Call call))
     end).

(** Everything [execute] checks before it takes a lease: the exposed tool
    and the invocation with the policy's input. *)
Definition authorize (c : ctx) (snapshot : ToolSetSnapshot) (inv : ToolInvocation)
    (grant : option ApprovalGrant) : Op St (ExposedTool * ToolInvocation) :=
  throw_if bool_decide (inv_ID inv = "") with ENew "tool invocation ID is required" ;;
  throw_if bool_decide (b_ToolSnapshotID (inv_Binding inv) ≠ ss_ID snapshot)
    with wrapf ErrStaleSnapshot ("binding references snapshot " +:+ quote (b_ToolSnapshotID (inv_Binding inv))
      +:+ ", got " +:+ quote (ss_ID snapshot)) ;;
  let! exposed := of_option (snapshot_Find snapshot (tc_ID (inv_Call inv)))
    (wrapf ErrToolNotExposed (ToolID_String (tc_ID (inv_Call inv)))) in
  throw_if negb (descriptorMatchesSession (ex_Descriptor exposed) (b_SessionKind (inv_Binding inv)))
    with wrapf ErrPolicyDenied "tool is not available for this session kind" ;;
  throw_if bool_decide (inv_RegistrationGeneration inv ≠ 0%N) &&
      bool_decide (inv_RegistrationGeneration inv ≠ ex_RegistrationGeneration exposed)
    with wrapf ErrStaleSnapshot "invocation generation does not match exposure" ;;
  let inv := inv<| inv_RegistrationGeneration := ex_RegistrationGeneration exposed |> in
  check (validateAttachmentGeneration snapshot (b_Attachment (inv_Binding inv))) ;;
  let! decision := map_err (λ e, EWrap ("evaluate policy for " +:+ ToolID_String (tc_ID (inv_Call inv)) +:+ ": ") e "")
    (Evaluate c inv (ex_Descriptor exposed)) in
  throw_if bool_decide (dec_NormalizedInput decision ≠ "") && negb (Json.Valid (dec_NormalizedInput decision))
    with ENew "policy returned invalid normalized input" ;;
  let inv := if bool_decide (dec_NormalizedInput decision ≠ "")
    then inv<| inv_Call := (inv_Call inv)<| tc_Input := dec_NormalizedInput decision |> |> else inv in
  match dec_Effect decision with
  | DecisionDeny => throw (wrapf ErrPolicyDenied (dec_Reason decision))
  | DecisionRequireApproval =>
      let! valid := gets (λ s, match grant with
        | None => false
        | Some g => grant_validates g inv snapshot (Now s)
        end) in
      throw_if negb valid with approval_required inv decision ;;
      ret (exposed, inv)
  | DecisionAllow => ret (exposed, inv)
  | DecisionOther n => throw (ENew ("policy returned unknown decision effect " +:+ pretty n))
  end.

Definition on_registry {A} (m : Op (Registry F) A) : Op St A := λ s,
  (fst (EngineOps.registry_op m (fst s)), (snd (EngineOps.registry_op m (fst s)), snd s)).

(** [defer lease.Release()]: on every way out. *)
Definition with_lease {A} (lease : ToolLease F) (body : Op St A) : Op St A := λ s,
  let '(r, (e, w)) := body s in
  (r, (e<| e_registry := RegistryOps.Release lease (e_registry e) |>, w)).

(** [Bind] and the handler chain, under the lease. *)
Definition run_tool (middleware : list (ToolHandler → ToolHandler)) (exposed : ExposedTool)
    (inv : ToolInvocation) (lease : ToolLease F) : Op St ToolResult :=
  let id := ToolID_String (tc_ID (inv_Call inv)) in
  let lctx := LeaseCtx (l_entry lease) (l_leaseID lease) in
  let! bound := match reg_Factory (l_registration lease) with
    | Some f => map_err (λ e, EWrap ("bind tool " +:+ id +:+ ": ") e "") (Bind f lctx (inv_Binding inv))
    | None => throw (ENew "nil factory")
    end in
  match bound with
  | None => throw (ENew ("bind tool " +:+ id +:+ ": executor is nil"))
  | Some executor =>
      let handler := Chain (base executor) middleware in
      let handler := if Z.ltb 0 (d_DefaultTimeout (ex_Descriptor exposed))
        then TimeoutMiddleware (d_DefaultTimeout (ex_Descriptor exposed)) handler else handler in
      handler lctx inv
  end.

Definition execute (middleware : list (ToolHandler → ToolHandler)) (c : ctx) (snapshot : ToolSetSnapshot)
    (inv : ToolInvocation) (grant : option ApprovalGrant) : Op St ToolResult :=
  let! ' (exposed, inv) := authorize c snapshot inv grant in
  let! lease := on_registry (RegistryOps.acquire (tc_ID (inv_Call inv)) (ex_RegistrationGeneration exposed)) in
  with_lease lease (run_tool middleware exposed inv lease).

Definition Execute (middleware : list (ToolHandler → ToolHandler)) (c : ctx) (snapshot : ToolSetSnapshot)
    (inv : ToolInvocation) : Op St ToolResult := execute middleware c snapshot inv None.
Definition ExecuteApproved (middleware : list (ToolHandler → ToolHandler)) (c : ctx) (snapshot : ToolSetSnapshot)
    (inv : ToolInvocation) (grant : ApprovalGrant) : Op St ToolResult :=
  execute middleware c snapshot inv (Some grant).
End Execute.
End Execution.
