(* ===== verification/ToolEngineInvariant.v ===== *)
(** * agent/tool: catalog and registry stay in step

    The invariant [ewf] of the engine: what the catalog says of a tool is what
    the registry has, a tool that left the registry is draining in the
    catalog, entries that share a model-visible name come from one source and
    at most one of them is not draining.  Every lifecycle operation and every
    lease taken or released keeps it. *)

From S2P Require Import Prelude Json ToolTypes ToolRegistry ToolEngine.
Import EngineOps.

Definition same_model_name (a b : ToolID) : Prop := Namespace a = Namespace b ∧ Name a = Name b.

Section Invariant.
Context {F : Type}.
Implicit Types e : Engine F.

Record ewf e : Prop := {
  ew_registry : rwf (e_registry e);
  ew_key id c : c_entries (e_catalog e) !! id = Some c → d_ID (ce_descriptor c) = id;
  ew_sync id p m : r_registrations (e_registry e) !! id = Some p → r_heap (e_registry e) !! p = Some m →
    c_entries (e_catalog e) !! id =
      Some (mkEntry (reg_Descriptor (mr_registration m)) (mr_generation m) (mr_status m));
  ew_gone id c : c_entries (e_catalog e) !! id = Some c → r_registrations (e_registry e) !! id = None →
    ce_status c = ToolStatusDraining;
  ew_source id1 id2 c1 c2 : c_entries (e_catalog e) !! id1 = Some c1 → c_entries (e_catalog e) !! id2 = Some c2 →
    same_model_name id1 id2 → src_ID (d_Source (ce_descriptor c1)) = src_ID (d_Source (ce_descriptor c2));
  ew_name id1 id2 c1 c2 : c_entries (e_catalog e) !! id1 = Some c1 → c_entries (e_catalog e) !! id2 = Some c2 →
    same_model_name id1 id2 → ce_status c1 ≠ ToolStatusDraining → ce_status c2 ≠ ToolStatusDraining → id1 = id2;
  ew_factory p m : r_heap (e_registry e) !! p = Some m → reg_Factory (mr_registration m) ≠ None;
  ew_valid id c : c_entries (e_catalog e) !! id = Some c → valid_id id = true
}.

Lemma ewf_init : ewf NewEngine.
Proof. split; [apply rwf_init|..]; intros; by simplify_map_eq. Qed.

(** The object behind an identifier changes status, the catalog follows. *)
Lemma ewf_set_status e id p m st r' g :
  ewf e → r_registrations (e_registry e) !! id = Some p → r_heap (e_registry e) !! p = Some m →
  (st ≠ ToolStatusDraining → mr_status m ≠ ToolStatusDraining) →
  rwf r' → r_registrations r' = r_registrations (e_registry e) →
  r_heap r' = <[p := m<| mr_status := st |>]> (r_heap (e_registry e)) →
  ewf (mkEngine (mkCatalog g (<[id := mkEntry (reg_Descriptor (mr_registration m)) (mr_generation m) st]>
                   (c_entries (e_catalog e)))) r').
Proof.
  intros He Hp Hm Hdr Hr' Hreg Hheap. pose proof (ew_sync _ He _ _ _ Hp Hm) as Hc. pose proof He as [].
  assert (∀ id' q, r_registrations (e_registry e) !! id' = Some q → q = p → id' = id) as Hinj.
  { intros id' q Hq ->. destruct (rw_entry _ ew_registry0 _ _ Hq) as (m1 & ? & <- & _).
    destruct (rw_entry _ ew_registry0 _ _ Hp) as (m2 & ? & <- & _). by simplify_eq. }
  split; simpl; [done|..]; rewrite ?Hreg, ?Hheap.
  - intros i c [[<- <-]|[_ Hi]]%lookup_insert_Some; simpl; [|eauto].
    apply (ew_key0 _ _ Hc).
  - intros i q n Hq [[<- <-]|[Hne Hn]]%lookup_insert_Some.
    + rewrite (Hinj _ _ Hq eq_refl), lookup_insert_eq. done.
    + rewrite lookup_insert_ne; [eauto|]. intros ->. congruence.
  - intros i c [[<- <-]|[_ Hi]]%lookup_insert_Some; [congruence|eauto].
  - intros i j c d [[<- <-]|[_ Hi]]%lookup_insert_Some [[<- <-]|[_ Hj]]%lookup_insert_Some; simpl; eauto.
    + apply (ew_source0 _ _ _ _ Hc Hj).
    + apply (ew_source0 _ _ _ _ Hi Hc).
  - intros i j c d [[<- <-]|[_ Hi]]%lookup_insert_Some [[<- <-]|[_ Hj]]%lookup_insert_Some; simpl; eauto.
  - intros q n [[<- <-]|[_ Hn]]%lookup_insert_Some; simpl; eauto.
  - intros i c [[<- <-]|[_ Hi]]%lookup_insert_Some; eauto.
Qed.

(** A change of the registry's objects that keeps map, statuses and registrations. *)
Lemma ewf_registry e r' :
  ewf e → rwf r' → r_registrations r' = r_registrations (e_registry e) →
  (∀ p m', r_heap r' !! p = Some m' → ∃ m, r_heap (e_registry e) !! p = Some m ∧
     mr_registration m' = mr_registration m ∧ mr_generation m' = mr_generation m ∧
     ((∃ id, r_registrations r' !! id = Some p) → mr_status m' = mr_status m)) →
  ewf (e<| e_registry := r' |>).
Proof.
  intros [] Hr' Hreg Hheap. split; simpl; rewrite ?Hreg; eauto.
  - intros id p m' Hp Hm'. destruct (Hheap _ _ Hm') as (m & Hm & -> & -> & Hs).
    rewrite Hs by (rewrite Hreg; eauto). eauto.
  - intros p m' Hm'. destruct (Hheap _ _ Hm') as (m & Hm & -> & _). eauto.
Qed.

Lemma status_set_inv verb st id e x e' :
  ewf e → fits (e_registry e) → set_status verb st id e = (x, e') →
  match x with
  | Ok _ => ewf e' ∧ ∃ p m, r_registrations (e_registry e) !! id = Some p ∧
      r_heap (e_registry e) !! p = Some m ∧ validStatusTransition (mr_status m) st = true ∧
      c_entries (e_catalog e') = <[id := mkEntry (reg_Descriptor (mr_registration m)) (mr_generation m) st]>
        (c_entries (e_catalog e))
  | Err _ => e' = e
  end.
Proof.
  intros He Hf. unfold set_status, bind, registry_op.
  destruct (RegistryOps.setStatus id st (e_registry e)) as [[g|err] r'] eqn:H; simpl.
  - apply setStatus_ok in H as (p & m & Hp & Hm & Hv & -> & Hr'); [|apply He|done].
    pose proof (ew_sync _ He _ _ _ Hp Hm) as Hc.
    unfold catalog_op, CatalogOps.setStatus. simpl. rewrite Hc. simpl. unfold ret.
    intros; simplify_eq. split; [|by exists p, m].
    apply (ewf_set_status e id p m); try done. intros Hst. destruct (mr_status m); try done.
    by destruct st.
  - apply setStatus_err in H as [-> _]. intros; simplify_eq. by destruct e.
Qed.

Lemma set_status_err verb st id e err e' :
  ewf e → fits (e_registry e) → set_status verb st id e = (Err err, e') → e' = e.
Proof. intros He Hf H. by apply status_set_inv in H. Qed.

(** ** Unload *)
Lemma registered_unique e id id' p :
  ewf e → r_registrations (e_registry e) !! id = Some p → r_registrations (e_registry e) !! id' = Some p → id = id'.
Proof.
  intros He H1 H2. destruct (rw_entry _ (ew_registry _ He) _ _ H1) as (m1 & ? & <- & _).
  destruct (rw_entry _ (ew_registry _ He) _ _ H2) as (m2 & ? & <- & _). by simplify_eq.
Qed.

Lemma ewf_remove e id p m m' r' g :
  ewf e → r_registrations (e_registry e) !! id = Some p → r_heap (e_registry e) !! p = Some m →
  mr_registration m' = mr_registration m → rwf r' →
  r_registrations r' = delete id (r_registrations (e_registry e)) →
  r_heap r' = <[p := m']> (r_heap (e_registry e)) →
  ewf (mkEngine (mkCatalog g (delete id (c_entries (e_catalog e)))) r').
Proof.
  intros He Hp Hm Hreg' Hr' Hreg Hheap. pose proof He as []. split; simpl; [done|..]; rewrite ?Hreg, ?Hheap.
  - intros i c [_ Hi]%lookup_delete_Some. eauto.
  - intros i q n [Hne Hq]%lookup_delete_Some [[<- <-]|[_ Hn]]%lookup_insert_Some.
    + by destruct Hne, (registered_unique e id i p).
    + rewrite lookup_delete_ne by done. eauto.
  - intros i c [Hne Hi]%lookup_delete_Some. rewrite lookup_delete_ne by done. eauto.
  - intros i j c d [_ Hi]%lookup_delete_Some [_ Hj]%lookup_delete_Some. eauto.
  - intros i j c d [_ Hi]%lookup_delete_Some [_ Hj]%lookup_delete_Some. eauto.
  - intros q n [[<- <-]|[_ Hn]]%lookup_insert_Some; [rewrite Hreg'|]; eauto.
  - intros i c [_ Hi]%lookup_delete_Some. eauto.
Qed.

Lemma Unload_inv id force e x e' :
  ewf e → fits (e_registry e) → Unload id force e = (x, e') →
  ewf e' ∧
  match x with
  | Ok b => ∃ p m, r_registrations (e_registry e) !! id = Some p ∧ r_heap (e_registry e) !! p = Some m ∧
      b = bool_decide (mr_inFlight m = ∅) ∧
      c_entries (e_catalog e') = (if b then delete id (c_entries (e_catalog e)) else
        <[id := mkEntry (reg_Descriptor (mr_registration m)) (mr_generation m) ToolStatusDraining]>
          (c_entries (e_catalog e))) ∧
      r_registrations (e_registry e') =
        (if b then delete id (r_registrations (e_registry e)) else r_registrations (e_registry e)) ∧
      r_heap (e_registry e') = <[p := m<| mr_status := (if b then ToolStatusUnloaded else ToolStatusDraining) |>]>
        (r_heap (e_registry e)) ∧
      r_generation (e_registry e') = (r_generation (e_registry e) + 1)%N ∧
      (force = true → ∀ l, l ∈ mr_inFlight m → (p, l) ∈ r_cancelled (e_registry e'))
  | Err err => e' = e ∧ Is err ErrToolNotFound = true ∧ r_registrations (e_registry e) !! id = None
  end.
Proof.
  intros He Hf. unfold Unload, bind, registry_op.
  destruct (RegistryOps.unload id force (e_registry e)) as [[[g b]|err] r'] eqn:H; simpl.
  - apply unload_ok in H as (p & m & Hp & Hm & Hr' & Hb & Hreg & Hheap & Hcan & Hgen); [|apply He|done].
    pose proof (ew_sync _ He _ _ _ Hp Hm) as Hc.
    destruct b; unfold catalog_op, CatalogOps.setStatus, CatalogOps.remove; simpl; rewrite Hc; unfold ret;
      simpl; intros; simplify_eq/=;
      (split; [|exists p, m; rewrite Hcan; split_and!; try done; intros ->; set_solver]).
    + by eapply (ewf_remove e id p m _ _ _ He Hp Hm); [| | |exact Hheap].
    + by eapply ewf_set_status.
  - apply unload_err in H as (-> & ? & Hn). intros; simplify_eq. destruct e. split; [done|].
    split_and!; try done. apply Hn, He.
Qed.

(** ** Leases *)
Lemma ewf_acquire e id g l r' :
  ewf e → fits (e_registry e) → RegistryOps.acquire id g (e_registry e) = (Ok l, r') →
  ewf (e<| e_registry := r' |>).
Proof.
  intros He Hf H. apply acquire_ok in H as (m & Hp & Hm & _ & _ & _ & _ & _ & -> & Hr'); [|apply He|done].
  apply ewf_registry; try done. simpl.
  intros q n [[<- <-]|[_ Hn]]%lookup_insert_Some; [by exists m|by exists n].
Qed.

Lemma ewf_release e p l :
  ewf e → fits (e_registry e) → ewf (e<| e_registry := RegistryOps.release p l (e_registry e) |>).
Proof.
  intros He Hf. destruct (r_heap (e_registry e) !! p) as [m|] eqn:Hm.
  2: { unfold RegistryOps.release. rewrite Hm. by destruct e. }
  destruct (decide (l ∈ mr_inFlight m)) as [Hl|Hl].
  2: { unfold RegistryOps.release. rewrite Hm, bool_decide_eq_true_2 by done. by destruct e. }
  destruct (release_ok p l _ m (ew_registry _ He) Hf Hm Hl) as (Hr' & _ & Hheap & Hreg & _).
  set (r' := RegistryOps.release p l (e_registry e)) in *. clearbody r'.
  destruct (bool_decide (mr_status m = ToolStatusDraining) && bool_decide (mr_inFlight m ∖ {[l]} = ∅)) eqn:Hg;
    simpl in *; bools; [case_bool_decide as Hid|].
  - pose proof (ew_sync _ He _ _ _ Hid Hm) as Hc. pose proof He as [].
    split; simpl; [done|..]; rewrite ?Hreg, ?Hheap; eauto.
    + intros i q n [Hne Hq]%lookup_delete_Some [[<- <-]|[_ Hn]]%lookup_insert_Some; [|eauto].
      by destruct Hne, (registered_unique e _ i p He Hid Hq).
    + intros i c Hi. destruct (decide (d_ID (reg_Descriptor (mr_registration m)) = i)) as [<-|Hne].
      * intros _. by simplify_eq.
      * rewrite lookup_delete_ne by done. eauto.
    + intros q n [[<- <-]|[_ Hn]]%lookup_insert_Some; simpl; eauto.
  - apply ewf_registry; try done. rewrite Hreg, Hheap.
    intros q n [[<- <-]|[_ Hn]]%lookup_insert_Some; [|by exists n]. exists m. split_and!; try done.
    intros [id Hid']. destruct (rw_entry _ (ew_registry _ He) _ _ Hid') as (m1 & ? & <- & _). by simplify_eq.
  - apply ewf_registry; try done. rewrite Hheap.
    intros q n [[<- <-]|[_ Hn]]%lookup_insert_Some; [by exists m|by exists n].
Qed.

(** ** Register and Replace *)

(** The counters leave room for one generation per catalog entry and one more. *)
Definition efits e : Prop :=
  (r_generation (e_registry e) + N.of_nat (size (c_entries (e_catalog e))) + 1 < u64_max)%N ∧
  ∀ p m, r_heap (e_registry e) !! p = Some m → (mr_nextLeaseID m + 1 < u64_max)%N.

Lemma ewf_upsert e reg p g r' gen :
  let d := reg_Descriptor reg in
  ewf e → rwf r' → r_registrations r' = <[d_ID d := p]> (r_registrations (e_registry e)) →
  r_heap r' = <[p := mkManaged reg g ToolStatusActive ∅ 0%N]> (r_heap (e_registry e)) →
  r_heap (e_registry e) !! p = None → reg_Factory reg ≠ None → valid_id (d_ID d) = true →
  (∀ i c, c_entries (e_catalog e) !! i = Some c → same_model_name i (d_ID d) →
     src_ID (d_Source (ce_descriptor c)) = src_ID (d_Source d) ∧
     (i ≠ d_ID d → ce_status c = ToolStatusDraining)) →
  ewf (mkEngine (mkCatalog gen (<[d_ID d := mkEntry d g ToolStatusActive]> (c_entries (e_catalog e)))) r').
Proof.
  intros d He Hr' Hreg Hheap Hnone Hfac Hval Hsame. pose proof He as [].
  assert (∀ a b, same_model_name a b → same_model_name b a) as Hsym by (by intros a b []; split).
  split; simpl; [done|..]; rewrite ?Hreg, ?Hheap.
  - intros i c [[<- <-]|[_ Hi]]%lookup_insert_Some; simpl; eauto.
  - intros i q n [[<- <-]|[Hne Hq]]%lookup_insert_Some.
    + rewrite !lookup_insert_eq. by intros; simplify_eq.
    + destruct (rw_entry _ ew_registry0 _ _ Hq) as (m1 & Hm1 & _).
      rewrite !lookup_insert_ne by congruence. eauto.
  - intros i c [[<- <-]|[Hne Hi]]%lookup_insert_Some; [by rewrite lookup_insert_eq|].
    rewrite lookup_insert_ne by done. eauto.
  - intros i j c c' [[<- <-]|[_ Hi]]%lookup_insert_Some [[<- <-]|[_ Hj]]%lookup_insert_Some Hn; simpl; eauto.
    + symmetry. by apply (Hsame j c' Hj), Hsym.
    + by apply (Hsame i c Hi).
  - intros i j c c' [[<- <-]|[Hi' Hi]]%lookup_insert_Some [[<- <-]|[Hj' Hj]]%lookup_insert_Some Hn H1 H2; eauto.
    + destruct H2. apply (Hsame j c' Hj); [by apply Hsym|congruence].
    + destruct H1. apply (Hsame i c Hi); [done|congruence].
  - intros q n [[<- <-]|[_ Hn]]%lookup_insert_Some; simpl; eauto.
  - intros i c [[<- <-]|[_ Hi]]%lookup_insert_Some; eauto.
Qed.

(** [e'] is [e] with the tools of [X] draining. *)
Definition drained (X : gset ToolID) (k : nat) e e' : Prop :=
  r_registrations (e_registry e') = r_registrations (e_registry e) ∧
  r_fresh (e_registry e') = r_fresh (e_registry e) ∧
  (∀ id, c_entries (e_catalog e') !! id =
     (λ c, if decide (id ∈ X) then c<| ce_status := ToolStatusDraining |> else c) <$> c_entries (e_catalog e) !! id) ∧
  (r_generation (e_registry e) ≤ r_generation (e_registry e') ≤ r_generation (e_registry e) + N.of_nat k)%N ∧
  (∀ p m', r_heap (e_registry e') !! p = Some m' →
     ∃ m, r_heap (e_registry e) !! p = Some m ∧ mr_nextLeaseID m' = mr_nextLeaseID m).

Lemma drained_refl e : drained ∅ 0 e e.
Proof.
  split_and!; try done; try lia; [|eauto]. intros id. by destruct (c_entries (e_catalog e) !! id).
Qed.

Lemma drained_trans X Y j k e1 e2 e3 :
  drained X j e1 e2 → drained Y k e2 e3 → drained (X ∪ Y) (j + k) e1 e3.
Proof.
  intros (A1 & A2 & A3 & A4 & A5) (B1 & B2 & B3 & B4 & B5). split_and!; [congruence|congruence| |lia|lia|].
  - intros id. rewrite B3, A3. destruct (c_entries (e_catalog e1) !! id) as [c|]; simpl; [|done].
    f_equal. repeat case_decide; try done; set_solver.
  - intros p m3 H3. destruct (B5 _ _ H3) as (m2 & H2 & E2), (A5 _ _ H2) as (m1 & H1 & E1).
    exists m1. split; [done|congruence].
Qed.

(** One turn of the loop: the entry of [id] is set to draining. *)
Lemma drain_one e id c0 :
  ewf e → fits (e_registry e) → c_entries (e_catalog e) !! id = Some c0 →
  ∃ x e', (let! r := attempt (registry_op (RegistryOps.setStatus id ToolStatusDraining)) in
           match r with
           | Err err => throw_if negb (Is err ErrToolNotFound) with err ;;
               catalog_op (CatalogOps.setStatus id ToolStatusDraining)
           | Ok _ => catalog_op (CatalogOps.setStatus id ToolStatusDraining)
           end) e = (Ok x, e') ∧ ewf e' ∧ drained {[id]} 1 e e'.
Proof.
  intros He Hf Hc0. unfold attempt, registry_op, bind. simpl.
  destruct (RegistryOps.setStatus id ToolStatusDraining (e_registry e)) as [[g|err] r'] eqn:H; simpl.
  - apply setStatus_ok in H as (p & m & Hp & Hm & Hv & -> & Hr'); [|apply He|done].
    pose proof (ew_sync _ He _ _ _ Hp Hm) as Hc. unfold catalog_op, CatalogOps.setStatus. simpl.
    rewrite Hc. do 2 eexists. split; [reflexivity|]. split; [by apply (ewf_set_status e id p m)|].
    split_and!; simpl; try done.
    + intros i. destruct (decide (i = id)) as [->|Hne].
      * rewrite lookup_insert_eq, Hc. simpl. by rewrite decide_True by set_solver.
      * rewrite lookup_insert_ne by done. destruct (c_entries (e_catalog e) !! i); simpl; [|done].
        by rewrite decide_False by set_solver.
    + rewrite u64_add_small by apply Hf. lia.
    + rewrite u64_add_small by apply Hf. lia.
    + intros q n [[<- <-]|[_ Hn]]%lookup_insert_Some; eauto.
  - apply setStatus_err in H as [-> [[Hnf Hno]|(p & m & Hp & Hm & Hs & Hv & _)]].
    2: { exfalso. by destruct (mr_status m). }
    pose proof (ew_gone _ He _ _ Hc0 (Hno (ew_registry _ He))) as Hst.
    destruct c0 as [d0 g0 st0]; simpl in Hst; subst st0.
    simpl in Hnf. rewrite Hnf. simpl. unfold catalog_op, CatalogOps.setStatus. simpl. rewrite Hc0. simpl.
    do 2 eexists. split; [reflexivity|]. simpl. rewrite insert_id by done. split; [by destruct He|].
    split_and!; simpl; try done; try lia; [|eauto].
    intros i. destruct (decide (i = id)) as [->|Hne]; [rewrite Hc0; simpl|].
    + by rewrite decide_True by set_solver.
    + destruct (c_entries (e_catalog e) !! i); simpl; [|done]. by rewrite decide_False by set_solver.
Qed.

Lemma drain_cons d entry rest e x e' :
  src_ID (d_Source (ce_descriptor entry)) = src_ID (d_Source d) → d_ID (ce_descriptor entry) ≠ d_ID d →
  (let! r := attempt (registry_op (RegistryOps.setStatus (d_ID (ce_descriptor entry)) ToolStatusDraining)) in
   match r with
   | Err err => throw_if negb (Is err ErrToolNotFound) with err ;;
       catalog_op (CatalogOps.setStatus (d_ID (ce_descriptor entry)) ToolStatusDraining)
   | Ok _ => catalog_op (CatalogOps.setStatus (d_ID (ce_descriptor entry)) ToolStatusDraining)
   end) e = (Ok x, e') →
  drain_replaced d (entry :: rest) e = drain_replaced d rest e'.
Proof.
  intros Hsrc Hid. cbn [drain_replaced]. rewrite bool_decide_eq_false_2 by (intros Hn; by apply Hn).
  rewrite bool_decide_eq_false_2 by done. unfold attempt, registry_op, bind.
  destruct (RegistryOps.setStatus _ _ _) as [[g|err] r']; cbn [fst snd]; [by intros ->|].
  destruct (Is err _); cbn [negb]; [by intros ->|done].
Qed.

Lemma drain_replaced_ok d l e :
  ewf e → (r_generation (e_registry e) + N.of_nat (length l) + 1 < u64_max)%N →
  (∀ p m, r_heap (e_registry e) !! p = Some m → (mr_nextLeaseID m + 1 < u64_max)%N) →
  (∀ c, c ∈ l → is_Some (c_entries (e_catalog e) !! d_ID (ce_descriptor c)) ∧
     src_ID (d_Source (ce_descriptor c)) = src_ID (d_Source d)) →
  ∃ e', drain_replaced d l e = (Ok tt, e') ∧ ewf e' ∧
    drained (list_to_set (filter (λ i, i ≠ d_ID d) (d_ID ∘ ce_descriptor <$> l))) (length l) e e'.
Proof.
  revert e. induction l as [|entry l IH]; intros e He Hgen Hlease Hall.
  { exists e. split_and!; [done|done|apply drained_refl]. }
  destruct (Hall entry) as [[c0 Hc0] Hsrc]; [left|]. cbn [length] in *.
  destruct (decide (d_ID (ce_descriptor entry) = d_ID d)) as [Heq|Hne].
  - destruct (IH e) as (e' & Hrun & He' & Hd); [done|lia|done|by intros; apply Hall; right|].
    exists e'. split_and!; [|done|].
    + cbn [drain_replaced]. rewrite bool_decide_eq_false_2 by (intros Hn; by apply Hn).
      by rewrite bool_decide_eq_true_2.
    + cbn [fmap list_fmap]. rewrite filter_cons_False by (simpl; tauto).
      destruct Hd as (A1 & A2 & A3 & A4 & A5). split_and!; try done; lia.
  - destruct (drain_one e (d_ID (ce_descriptor entry)) c0 He) as (x & e1 & Hone & He1 & Hd1); [split; [lia|done]|done|].
    destruct (IH e1) as (e' & Hrun & He' & Hd); [done|..].
    + destruct Hd1 as (_ & _ & _ & Hg & _). lia.
    + intros p m1 Hm1. destruct Hd1 as (_ & _ & _ & _ & Hl). destruct (Hl _ _ Hm1) as (m & Hm & ->). eauto.
    + intros c Hc. destruct (Hall c) as [[c' Hc'] ?]; [by right|]. split; [|done].
      destruct Hd1 as (_ & _ & Hent & _). rewrite Hent, Hc'. simpl. eauto.
    + exists e'. split_and!; [by rewrite (drain_cons _ _ _ _ _ _ Hsrc Hne Hone)|done|].
      pose proof (drained_trans _ _ _ _ _ _ _ Hd1 Hd) as Ht. cbn [fmap list_fmap].
      rewrite filter_cons_True by done. done.
Qed.

Section Register.
Context (iterate : list catalogEntry → list catalogEntry) (Hperm : ∀ l, iterate l ≡ₚ l).

Lemma elem_of_byModelName e ns nm c :
  ewf e → c ∈ CatalogOps.byModelName ns nm (e_catalog e) →
  c_entries (e_catalog e) !! d_ID (ce_descriptor c) = Some c ∧
  Namespace (d_ID (ce_descriptor c)) = ns ∧ Name (d_ID (ce_descriptor c)) = nm.
Proof.
  intros He. unfold CatalogOps.byModelName. rewrite list_elem_of_fmap.
  intros ([id c'] & -> & [[Hns Hnm] Hin%elem_of_map_to_list]%list_elem_of_filter). simpl in *.
  by rewrite (ew_key _ He _ _ Hin).
Qed.

Lemma byModelName_elem e id c :
  c_entries (e_catalog e) !! id = Some c → c ∈ CatalogOps.byModelName (Namespace id) (Name id) (e_catalog e).
Proof.
  intros Hc. unfold CatalogOps.byModelName. apply list_elem_of_fmap. exists (id, c). split; [done|].
  apply list_elem_of_filter. split; [done|]. by apply elem_of_map_to_list.
Qed.

Lemma length_byModelName ns nm (c : Catalog) :
  length (CatalogOps.byModelName ns nm c) ≤ size (c_entries c).
Proof.
  unfold CatalogOps.byModelName. rewrite length_fmap, <- length_map_to_list. apply length_filter.
Qed.

Lemma drain_replaced_mismatch d l e x e' :
  ewf e → (∀ c, c ∈ l → c ∈ CatalogOps.byModelName (Namespace (d_ID d)) (Name (d_ID d)) (e_catalog e)) →
  (∃ c, c ∈ l ∧ src_ID (d_Source (ce_descriptor c)) ≠ src_ID (d_Source d)) →
  drain_replaced d l e = (x, e') → (∃ err, x = Err err) ∧ e' = e.
Proof.
  intros He Hl (c & Hc & Hne). destruct l as [|c0 l]; [by apply elem_of_nil in Hc|].
  cbn [drain_replaced]. rewrite bool_decide_eq_true_2; [unfold throw; intros; simplify_eq; eauto|].
  destruct (elem_of_byModelName e _ _ c0 He (Hl c0 ltac:(left))) as (H0 & H0n & H0m).
  destruct (elem_of_byModelName e _ _ c He (Hl c Hc)) as (H1 & H1n & H1m).
  rewrite (ew_source _ He _ _ _ _ H0 H1); [done|]. split; congruence.
Qed.

(** What one [Register] or [Replace] does to a well-formed engine. *)
Lemma register_inv reg replace e x e' :
  let d := reg_Descriptor reg in
  ewf e → efits e → register iterate reg replace e = (x, e') →
  match x with
  | Err _ => e' = e
  | Ok _ => ewf e' ∧ ∃ p g, (r_generation (e_registry e) < g)%N ∧
      r_registrations (e_registry e') !! d_ID d = Some p ∧
      r_heap (e_registry e') !! p = Some (mkManaged reg g ToolStatusActive ∅ 0%N) ∧
      (∀ id, id ≠ d_ID d → r_registrations (e_registry e') !! id = r_registrations (e_registry e) !! id) ∧
      (∀ id c, c_entries (e_catalog e') !! id = Some c → same_model_name id (d_ID d) → id ≠ d_ID d →
         ce_status c = ToolStatusDraining)
  end.
Proof using Hperm.
  intros d He [Hgen Hlease]. unfold register, throw. fold d.
  destruct (bool_decide (reg_Factory reg = None)) eqn:Hfac; bools; [by intros; simplify_eq|].
  unfold bind, check, gets. destruct (ValidateDescriptor d) eqn:Hval; [by intros; simplify_eq|].
  set (existing := iterate _). destruct (negb replace && bool_decide (existing ≠ [])) eqn:Hdup;
    [by intros; simplify_eq|].
  assert (∀ c, c ∈ existing ↔ c ∈ CatalogOps.byModelName (Namespace (d_ID d)) (Name (d_ID d)) (e_catalog e)) as Hex.
  { intros c. subst existing. by rewrite Hperm. }
  assert (length existing ≤ size (c_entries (e_catalog e))) as Hlen.
  { subst existing. rewrite Hperm. apply length_byModelName. }
  destruct (decide (Exists (λ c, src_ID (d_Source (ce_descriptor c)) ≠ src_ID (d_Source d)) existing))
    as [Hbad|Hgood].
  { destruct replace; [|by apply andb_false_iff in Hdup as [?|?]; [done|]; bools; subst existing; rewrite H in Hbad; inversion Hbad].
    apply Exists_exists in Hbad as (c & Hc & Hne).
    destruct (drain_replaced d existing e) as [y e1] eqn:Hdr.
    apply drain_replaced_mismatch in Hdr as [[err ->] ->]; [|done|by intros; apply Hex|by eauto].
    by intros; simplify_eq. }
  rewrite <- Forall_Exists_neg, Forall_forall in Hgood.
  assert (∃ e1, (if replace then drain_replaced d existing else ret tt) e = (Ok tt, e1) ∧ ewf e1 ∧
    drained (list_to_set (filter (λ i, i ≠ d_ID d) (d_ID ∘ ce_descriptor <$> existing))) (length existing) e e1)
    as (e1 & -> & He1 & Hd).
  { destruct replace.
    - apply drain_replaced_ok; [done|lia|done|]. intros c Hc. split; [|by apply dec_stable, Hgood].
      destruct (elem_of_byModelName e _ _ c He (proj1 (Hex c) Hc)) as (? & _). eauto.
    - simpl in Hdup. bools. rewrite Hdup. exists e. split_and!; [done|done|apply drained_refl]. }
  pose proof Hd as (D1 & D2 & D3 & D4 & D5).
  unfold registry_op. destruct (RegistryOps.register reg replace (e_registry e1)) as [[g|err] r'] eqn:Hreg.
  2: { exfalso. unfold RegistryOps.register, bind, gets in Hreg. destruct replace.
    - destruct (RegistryOps.lookup _ _) as [[? ?]|]; done.
    - simpl in Hdup. bools. destruct (RegistryOps.lookup _ _) as [[p m]|] eqn:Hlk; [|done].
      apply lookup_Some in Hlk as [Hp Hm]. pose proof (ew_sync _ He1 _ _ _ Hp Hm) as Hc.
      rewrite D3 in Hc. apply fmap_Some in Hc as (c & Hc & _).
      apply byModelName_elem, Hex in Hc. fold d in Hc. rewrite Hdup in Hc. by apply elem_of_nil in Hc. }
  assert (fits (e_registry e1)) as Hf1.
  { split; [lia|]. intros p m1 Hm1. destruct (D5 _ _ Hm1) as (m & Hm & ->). eauto. }
  destruct (rwf_register _ _ _ _ _ (ew_registry _ He1) Hf1 Hreg) as (Hr' & Hg & _ & Hr1 & Hr2 & _).
  assert (∀ i c, c_entries (e_catalog e1) !! i = Some c → same_model_name i (d_ID d) →
     src_ID (d_Source (ce_descriptor c)) = src_ID (d_Source d) ∧
     (i ≠ d_ID d → ce_status c = ToolStatusDraining)) as Hsame.
  { intros i c Hc [Hn1 Hn2]. rewrite D3 in Hc. apply fmap_Some in Hc as (c0 & Hc0 & ->).
    pose proof (byModelName_elem _ _ _ Hc0) as Hin. rewrite Hn1, Hn2, <- Hex in Hin. split.
    - case_decide; simpl; by apply dec_stable, Hgood.
    - intros Hne. rewrite decide_True; [done|]. apply elem_of_list_to_set, list_elem_of_filter.
      split; [done|]. apply list_elem_of_fmap. exists c0. split; [|done]. simpl. by rewrite (ew_key _ He _ _ Hc0). }
  unfold catalog_op, ret. simpl. intros; simplify_eq. split.
  - eapply ewf_upsert; eauto using ValidateDescriptor_valid.
    destruct (r_heap (e_registry e1) !! r_fresh (e_registry e1)) eqn:E; [|done].
    destruct (rw_fresh _ (ew_registry _ He1) _ _ E). lia.
  - simpl. rewrite Hr1, Hr2, D1. do 2 eexists. rewrite !lookup_insert_eq. split_and!; [|done|done|..].
    + lia.
    + intros id Hne. by rewrite lookup_insert_ne.
    + intros id c [[<- _]|[_ Hc]]%lookup_insert_Some Hn Hne; [done|]. by apply (Hsame id c).
Qed.
End Register.
End Invariant.
