(* ===== verification/ToolEngineTheorems.v ===== *)
(** * agent/tool: what the engine guarantees

    Theorems about every engine the lifecycle operations and the leases can
    reach, and about one call of [Execute] or [ExecuteApproved]: who may run
    what, and what is left afterwards. *)

From S2P Require Import Prelude Json ToolTypes ToolRegistry ToolEngine ToolEngineInvariant.
Import EngineOps.

Section Reach.
Context {F : Type} (iterate : list catalogEntry → list catalogEntry).

(** One atomic action on the engine, by whichever goroutine. *)
Inductive engine_step : Engine F → Engine F → Prop :=
| step_register reg replace e x e' : register iterate reg replace e = (x, e') → engine_step e e'
| step_status verb st id e x e' : set_status verb st id e = (x, e') → engine_step e e'
| step_unload id force e x e' : Unload id force e = (x, e') → engine_step e e'
| step_acquire id g e : engine_step e (snd (registry_op (RegistryOps.acquire id g) e))
| step_release p l e : engine_step e (e<| e_registry := RegistryOps.release p l (e_registry e) |>).

Inductive ereachable : Engine F → Prop :=
| reach_new : ereachable NewEngine
| reach_step e e' : ereachable e → efits e → engine_step e e' → ereachable e'.

Lemma efits_fits (e : Engine F) : efits e → fits (e_registry e).
Proof. intros [H1 H2]. split; [lia|done]. Qed.

Context (Hperm : ∀ l, iterate l ≡ₚ l).

Lemma engine_step_wf e e' : ewf e → efits e → engine_step e e' → ewf e'.
Proof using Hperm.
  intros He Hf Hs. pose proof (efits_fits _ Hf) as Hf'. destruct Hs as [reg replace e x e' H|verb st id e x e' H|id force e x e' H|id g e|p l e].
  - apply (register_inv iterate Hperm) in H; [|done..]. destruct x; [by destruct H|by subst].
  - apply status_set_inv in H; [|done..]. destruct x; [by destruct H|by subst].
  - apply Unload_inv in H; [|done..]. by destruct H.
  - unfold registry_op. destruct (RegistryOps.acquire id g (e_registry e)) as [[l|err] r'] eqn:H.
    + by eapply ewf_acquire.
    + apply acquire_err in H as ->. by destruct e.
  - by apply ewf_release.
Qed.

Lemma ereachable_wf e : ereachable e → ewf e.
Proof using Hperm. induction 1; [apply ewf_init|by eapply engine_step_wf]. Qed.

(** C12. In every reachable engine the catalog offers a tool as active exactly
    when the registry has an active registration of it, with the same
    descriptor and generation. *)
Theorem active_in_step e id d g :
  ereachable e →
  c_entries (e_catalog e) !! id = Some (mkEntry d g ToolStatusActive) ↔
  ∃ p m, r_registrations (e_registry e) !! id = Some p ∧ r_heap (e_registry e) !! p = Some m ∧
    mr_status m = ToolStatusActive ∧ mr_generation m = g ∧ reg_Descriptor (mr_registration m) = d.
Proof using Hperm.
  intros He%ereachable_wf. split.
  - intros Hc. destruct (r_registrations (e_registry e) !! id) as [p|] eqn:Hp.
    + destruct (rw_entry _ (ew_registry _ He) _ _ Hp) as (m & Hm & _).
      pose proof (ew_sync _ He _ _ _ Hp Hm). simplify_eq. eauto 10.
    + by pose proof (ew_gone _ He _ _ Hc Hp).
  - intros (p & m & Hp & Hm & Hs & <- & <-). rewrite <- Hs. by apply (ew_sync _ He _ p).
Qed.

(** The names a model sees are unambiguous: of all versions of a tool in
    the catalog of a reachable engine at most one is not draining, and all
    come from the same source. *)
Theorem model_names_unambiguous e id1 id2 c1 c2 :
  ereachable e → c_entries (e_catalog e) !! id1 = Some c1 → c_entries (e_catalog e) !! id2 = Some c2 →
  Namespace id1 = Namespace id2 → Name id1 = Name id2 →
  src_ID (d_Source (ce_descriptor c1)) = src_ID (d_Source (ce_descriptor c2)) ∧
  (ce_status c1 ≠ ToolStatusDraining → ce_status c2 ≠ ToolStatusDraining → id1 = id2).
Proof using Hperm.
  intros He%ereachable_wf H1 H2 Hns Hnm. split; [by eapply ew_source|]. by eapply ew_name.
Qed.

Lemma acquire_stale (r : Registry F) id p m g :
  r_registrations r !! id = Some p → r_heap r !! p = Some m → mr_status m = ToolStatusActive →
  mr_generation m ≠ g → ∃ err, RegistryOps.acquire id g r = (Err err, r) ∧ Is err ErrStaleSnapshot = true.
Proof.
  intros Hp Hm Hs Hg. unfold RegistryOps.acquire, bind, of_option.
  rewrite (proj2 (lookup_Some id r p m) (conj Hp Hm)).
  rewrite bool_decide_eq_false_2 by (intros Hn; by apply Hn). rewrite bool_decide_eq_true_2 by done.
  unfold throw. eauto.
Qed.

(** [Register] and [Replace] either change nothing and return an error,
    or make the new registration the active one, drain every other version
    of the tool, and outdate every exposure handed out before: a call with an
    older generation is refused with [ErrStaleSnapshot]. *)
Theorem register_supersedes e reg replace x e' :
  ereachable e → efits e → register iterate reg replace e = (x, e') →
  match x with
  | Err _ => e' = e
  | Ok _ =>
      (∃ g, (r_generation (e_registry e) < g)%N ∧ c_entries (e_catalog e') !! d_ID (reg_Descriptor reg) =
         Some (mkEntry (reg_Descriptor reg) g ToolStatusActive)) ∧
      (∀ id c, c_entries (e_catalog e') !! id = Some c → ModelName id = ModelName (d_ID (reg_Descriptor reg)) →
         valid_id id = true → id ≠ d_ID (reg_Descriptor reg) → ce_status c = ToolStatusDraining) ∧
      (∀ g, (g ≤ r_generation (e_registry e))%N →
         ∃ err, RegistryOps.acquire (d_ID (reg_Descriptor reg)) g (e_registry e') = (Err err, e_registry e') ∧
                Is err ErrStaleSnapshot = true)
  end.
Proof using Hperm.
  intros He%ereachable_wf Hf H. assert (is_ok x = true → valid_id (d_ID (reg_Descriptor reg)) = true) as Hvalid.
  { revert H. unfold register, throw. case_bool_decide; [by intros; simplify_eq|]. unfold bind, check.
    destruct (ValidateDescriptor (reg_Descriptor reg)) eqn:Hv; [by intros; simplify_eq|]. intros _ _.
    by apply ValidateDescriptor_valid. }
  apply (register_inv iterate Hperm) in H; [|done..]. destruct x as [[]|err]; [|done].
  destruct H as (He' & p & g & Hg & Hp & Hm & _ & Hdr). specialize (Hvalid eq_refl). split_and!.
  - exists g. split; [done|]. by apply (ew_sync _ He' _ p _ Hp Hm).
  - intros id c Hc Hn Hid Hne. apply (Hdr id c Hc); [|done].
    by apply (ModelName_inj _ _ Hid Hvalid).
  - intros g' Hle. eapply acquire_stale; eauto. simpl. lia.
Qed.

(** [Unload] stops new calls at once: whatever generation is asked for,
    no lease is given any more.  With [force] every call in flight is
    cancelled.  It reports completion exactly when no call was in flight, and
    then the tool is gone from the catalog too. *)
Theorem unload_stops_calls e id force b e' :
  ereachable e → efits e → Unload id force e = (Ok b, e') →
  (∀ g, ∃ err, RegistryOps.acquire id g (e_registry e') = (Err err, e_registry e') ∧
     Is err ErrToolNotFound || Is err ErrToolUnavailable = true) ∧
  (∃ p m, r_registrations (e_registry e) !! id = Some p ∧ r_heap (e_registry e) !! p = Some m ∧
     (b = true ↔ mr_inFlight m = ∅) ∧
     (force = true → ∀ l, l ∈ mr_inFlight m → (p, l) ∈ r_cancelled (e_registry e'))) ∧
  (b = true → c_entries (e_catalog e') !! id = None).
Proof using Hperm.
  intros He%ereachable_wf Hf%efits_fits H. apply Unload_inv in H as (He' & p & m & Hp & Hm & Hb & Hc & Hp' & _ & _ & Hcan);
    [|done..]. split_and!.
  - intros g. unfold RegistryOps.acquire, bind, of_option.
    destruct (RegistryOps.lookup id (e_registry e')) as [[q n]|] eqn:Hlk; [|unfold wrapf; eauto].
    apply lookup_Some in Hlk as [Hq Hn].
    destruct b; [by rewrite Hp', lookup_delete_eq in Hq|].
    pose proof (ew_sync _ He' _ _ _ Hq Hn) as Hc'. rewrite Hc, lookup_insert_eq in Hc'. simplify_eq.
    rewrite bool_decide_eq_true_2 by congruence. unfold throw. eauto.
  - exists p, m. split_and!; try done. subst b. apply bool_decide_eq_true.
  - intros ->. rewrite Hc. apply lookup_delete_eq.
Qed.

Lemma release_last (r : Registry F) p m l :
  r_heap r !! p = Some m → l ∈ mr_inFlight m → mr_status m = ToolStatusDraining →
  r_registrations r !! d_ID (reg_Descriptor (mr_registration m)) = Some p →
  let r' := RegistryOps.release p l r in
  if decide (mr_inFlight m ∖ {[l]} = ∅)
  then r_registrations r' !! d_ID (reg_Descriptor (mr_registration m)) = None
  else r_heap r' !! p = Some (m<| mr_inFlight := mr_inFlight m ∖ {[l]} |>) ∧
       r_registrations r' = r_registrations r.
Proof.
  intros Hm Hl Hs Hp r'. subst r'. unfold RegistryOps.release. rewrite Hm, bool_decide_eq_false_2 by (intros Hn; by apply Hn).
  simpl. rewrite Hs. simpl. case_decide as Hd.
  - rewrite (bool_decide_eq_true_2 _ Hd). simpl. rewrite Hp, bool_decide_eq_true_2 by done. simpl.
    apply lookup_delete_eq.
  - rewrite (bool_decide_eq_false_2 _ Hd). simpl. rewrite lookup_insert_eq. done.
Qed.

(** A draining tool leaves the registry with its last call: once every
    lease in flight has been released, in whatever order, the tool is gone. *)
Theorem draining_tool_leaves (r : Registry F) p m ls :
  r_heap r !! p = Some m → mr_status m = ToolStatusDraining → mr_inFlight m ≠ ∅ →
  r_registrations r !! d_ID (reg_Descriptor (mr_registration m)) = Some p →
  ls ≡ₚ elements (mr_inFlight m) →
  r_registrations (foldl (λ r l, RegistryOps.release p l r) r ls) !!
    d_ID (reg_Descriptor (mr_registration m)) = None.
Proof.
  revert r m. induction ls as [|l ls IH]; intros r m Hm Hs Hne Hp Hls.
  { symmetry in Hls. apply Permutation_nil_r in Hls. by apply elements_empty_iff, leibniz_equiv in Hls. }
  assert (l ∈ mr_inFlight m ∧ (l ∉ ls) ∧ mr_inFlight m = {[l]} ∪ list_to_set ls) as (Hl & Hnl & Hset).
  { pose proof (NoDup_elements (mr_inFlight m)) as Hnd. rewrite <- Hls in Hnd. inversion Hnd; subst.
    split_and!; [|done|].
    - apply elem_of_elements. rewrite <- Hls. left.
    - rewrite <- (list_to_set_elements_L (mr_inFlight m)), <- Hls. done. }
  pose proof (release_last r p m l Hm Hl Hs Hp) as Hrel. cbn [foldl].
  assert (mr_inFlight m ∖ {[l]} = list_to_set ls) as Hdiff.
  { rewrite Hset, difference_union_distr_l_L, difference_diag_L, (left_id_L ∅ (∪)).
    apply difference_disjoint_L, disjoint_singleton_r. by rewrite elem_of_list_to_set. }
  case_decide as Hd.
  - assert (ls = []) as ->; [|done]. rewrite Hdiff in Hd.
    destruct ls as [|x ls]; [done|]. exfalso. assert (x ∈@{gset N} ∅) as Hx; [|by apply elem_of_empty in Hx].
    rewrite <- Hd. apply elem_of_list_to_set. left.
  - destruct Hrel as [Hm' Hreg].
    refine (IH (RegistryOps.release p l r) (m<| mr_inFlight := mr_inFlight m ∖ {[l]} |>) _ _ _ _ _);
      [exact Hm'|exact Hs|exact Hd|by rewrite Hreg|]; simpl.
    rewrite Hdiff, elements_list_to_set; [done|].
    pose proof (NoDup_elements (mr_inFlight m)) as Hnd. rewrite <- Hls in Hnd. by inversion Hnd.
Qed.

(** What a graceful [Unload] leaves behind once its calls have finished:
    the catalog keeps a draining entry without a registration.  From then on
    [Unload] answers [ErrToolNotFound] and [Register] refuses the tool's name
    with [ErrAlreadyRegistered]; only [Replace] can bring the tool back. *)
Theorem unload_leftover e id c reg :
  ereachable e → c_entries (e_catalog e) !! id = Some c → r_registrations (e_registry e) !! id = None →
  ValidateDescriptor (reg_Descriptor reg) = None → reg_Factory reg ≠ None →
  same_model_name id (d_ID (reg_Descriptor reg)) →
  (∀ force, ∃ err, Unload id force e = (Err err, e) ∧ Is err ErrToolNotFound = true) ∧
  (∃ err, Register iterate reg e = (Err err, e) ∧ Is err ErrAlreadyRegistered = true).
Proof using Hperm.
  intros He%ereachable_wf Hc Hnone Hval Hfac [Hns Hnm]. split.
  - intros force. unfold Unload, bind, registry_op, RegistryOps.unload, RegistryOps.live_entry, bind, of_option.
    rewrite (proj2 (lookup_None id _ (ew_registry _ He)) Hnone). simpl. destruct e. eauto.
  - unfold Register, register, bind, check, gets, throw. rewrite bool_decide_eq_false_2 by done.
    rewrite Hval. simpl. rewrite bool_decide_eq_true_2; [eauto|].
    pose proof (byModelName_elem e id c Hc) as Hin. rewrite Hns, Hnm, <- Hperm in Hin.
    intros Hemp. rewrite Hemp in Hin. by apply elem_of_nil in Hin.
Qed.
End Reach.

(** ** One call *)
Section Call.
Context {F W : Type}.
Abbreviation St := (Engine F * W)%type.
Context (Evaluate : ctx → ToolInvocation → ToolDescriptor → Op St Decision_)
        (Bind : F → hctx → ToolBinding → Op St (option (@Execution.ToolExecutor F W)))
        (hctx_Err : hctx → St → option error) (Now : St → Time) (Seconds : Z → string)
        (middleware : list (@Execution.ToolHandler F W → @Execution.ToolHandler F W)).

(** The invocation the policy and the tool see: the exposed generation, and
    the input the policy normalised. *)
Definition exposed_invocation (inv : ToolInvocation) (ex : ExposedTool) : ToolInvocation :=
  inv<| inv_RegistrationGeneration := ex_RegistrationGeneration ex |>.
Definition normalized (inv : ToolInvocation) (dec : Decision_) : ToolInvocation :=
  if bool_decide (dec_NormalizedInput dec ≠ "")
  then inv<| inv_Call := (inv_Call inv)<| tc_Input := dec_NormalizedInput dec |> |> else inv.

(** The policy lets the call through: outright, or because the caller holds
    a grant for exactly this call that has not expired. *)
Definition permitted (dec : Decision_) (inv : ToolInvocation) (snapshot : ToolSetSnapshot)
    (grant : option ApprovalGrant) (now : Time) : Prop :=
  dec_Effect dec = DecisionAllow ∨
  dec_Effect dec = DecisionRequireApproval ∧ ∃ g, grant = Some g ∧ g_ApprovalID g ≠ "" ∧
    g_InvocationID g = inv_ID inv ∧ g_ToolID g = tc_ID (inv_Call inv) ∧ g_ToolSnapshotID g = ss_ID snapshot ∧
    (now < g_ExpiresAt g)%Z ∧ g_AttachmentGeneration g = as_Generation (b_Attachment (inv_Binding inv)) ∧
    Json.Valid (tc_Input (inv_Call inv)) = true ∧ g_InputSHA256 g = InputDigest (tc_Input (inv_Call inv)).

(** What [authorize] has established when it succeeds. *)
Definition authorized (c : ctx) (snapshot : ToolSetSnapshot) (inv : ToolInvocation)
    (grant : option ApprovalGrant) (s : St) (ex : ExposedTool) (inv' : ToolInvocation) (s1 : St) : Prop :=
  inv_ID inv ≠ "" ∧ b_ToolSnapshotID (inv_Binding inv) = ss_ID snapshot ∧
  snapshot_Find snapshot (tc_ID (inv_Call inv)) = Some ex ∧
  descriptorMatchesSession (ex_Descriptor ex) (b_SessionKind (inv_Binding inv)) = true ∧
  validateAttachmentGeneration snapshot (b_Attachment (inv_Binding inv)) = None ∧
  ∃ dec, Evaluate c (exposed_invocation inv ex) (ex_Descriptor ex) s = (Ok dec, s1) ∧
    inv' = normalized (exposed_invocation inv ex) dec ∧ permitted dec inv' snapshot grant (Now s1).

Lemma authorize_ok c snapshot inv grant s ex inv' s1 :
  Execution.authorize Evaluate Now c snapshot inv grant s = (Ok (ex, inv'), s1) →
  authorized c snapshot inv grant s ex inv' s1.
Proof.
  intros H. unfold Execution.authorize, throw, bind at 1, of_option in H.
  case_bool_decide as H1; [done|]. case_bool_decide as H2; [done|].
  destruct (snapshot_Find snapshot _) as [ex0|] eqn:H3; [|done].
  destruct (descriptorMatchesSession _ _) eqn:H4; [|done]. cbn [negb] in H.
  destruct (bool_decide (_ ≠ 0%N) && _); [done|]. unfold bind, check, map_err in H.
  fold (exposed_invocation inv ex0) in H.
  destruct (validateAttachmentGeneration _ _) eqn:H5; [done|].
  destruct (Evaluate c _ _ s) as [[dec|e] s2] eqn:H6; [|done]. fold (normalized (exposed_invocation inv ex0) dec) in H.
  match type of H with context [if ?b then _ else _] => destruct b; [done|] end.
  assert (ex0 = ex ∧ s2 = s1 ∧ inv' = normalized (exposed_invocation inv ex0) dec ∧
    permitted dec inv' snapshot grant (Now s1)) as (-> & -> & Hinv & Hp).
  { unfold permitted. destruct (dec_Effect dec) eqn:He; try done.
    - unfold ret in H. simplify_eq. split_and!; try done. by left.
    - unfold gets, ret in H. destruct grant as [g|]; [|done].
      destruct (grant_validates g _ snapshot (Now s2)) eqn:Hg; [|done]. simpl in H. simplify_eq.
      split_and!; try done. right. split; [done|]. exists g. split; [done|].
      by apply grant_validates_spec in Hg. }
  unfold authorized. eauto 10.
Qed.

Lemma authorize_err c snapshot inv grant s e s1 :
  Execution.authorize Evaluate Now c snapshot inv grant s = (Err e, s1) →
  s1 = s ∨ ∃ ex, snapshot_Find snapshot (tc_ID (inv_Call inv)) = Some ex ∧
    s1 = snd (Evaluate c (exposed_invocation inv ex) (ex_Descriptor ex) s).
Proof.
  intros H. unfold Execution.authorize, throw, bind at 1, of_option in H.
  case_bool_decide; [simplify_eq; by left|]. case_bool_decide; [simplify_eq; by left|].
  destruct (snapshot_Find snapshot _) as [ex0|] eqn:H3; [|simplify_eq; by left].
  destruct (descriptorMatchesSession _ _); cbn [negb] in H; [|simplify_eq; by left].
  destruct (bool_decide (_ ≠ 0%N) && _); [simplify_eq; by left|]. unfold bind, check, map_err in H.
  fold (exposed_invocation inv ex0) in H.
  destruct (validateAttachmentGeneration _ _); [simplify_eq; by left|]. right. exists ex0. split; [done|].
  destruct (Evaluate c _ _ s) as [[dec|e0] s2]; simpl; [|by simplify_eq].
  unfold gets, ret in H. repeat case_match; by simplify_eq.
Qed.

Lemma release_out p l (r : Registry F) m :
  r_heap (RegistryOps.release p l r) !! p = Some m → l ∉ mr_inFlight m.
Proof.
  unfold RegistryOps.release. destruct (r_heap r !! p) as [n|] eqn:Hn; [|congruence].
  case_bool_decide as Hl; [rewrite Hn; by intros; simplify_eq|].
  unfold RegistryOps.store, RegistryOps.tick. repeat case_match; simpl; rewrite lookup_insert_eq;
    intros; simplify_eq/=; rewrite elem_of_difference, elem_of_singleton; tauto.
Qed.

(** C9. A call either is refused, and then nothing ran but the policy: the
    state is the caller's or the one the policy left; or every check passed
    (the tool is exposed by this very snapshot, open to the session kind, its
    attachment current, the policy's answer permits it, the registration is
    active and of the exposed generation) and the tool ran under a lease that
    is no longer in flight when the call returns, whatever its result. *)
Theorem execute_guarded c snapshot inv grant s r s' :
  Execution.execute Evaluate Bind hctx_Err Now Seconds middleware c snapshot inv grant s = (r, s') →
  ((∃ e, r = Err e) ∧ (s' = s ∨ ∃ ex s1, snapshot_Find snapshot (tc_ID (inv_Call inv)) = Some ex ∧
      s1 = snd (Evaluate c (exposed_invocation inv ex) (ex_Descriptor ex) s) ∧ s' = s1)) ∨
  (∃ ex inv' s1 lease r2 s2,
     authorized c snapshot inv grant s ex inv' s1 ∧
     RegistryOps.acquire (tc_ID (inv_Call inv')) (ex_RegistrationGeneration ex) (e_registry (fst s1)) =
       (Ok lease, r2) ∧
     Execution.run_tool Bind hctx_Err Seconds middleware ex inv' lease
       ((fst s1)<| e_registry := r2 |>, snd s1) = (r, s2) ∧
     s' = ((fst s2)<| e_registry := RegistryOps.Release lease (e_registry (fst s2)) |>, snd s2) ∧
     ∀ m, r_heap (e_registry (fst s')) !! l_entry lease = Some m → l_leaseID lease ∉ mr_inFlight m).
Proof.
  intros H. unfold Execution.execute, bind in H.
  destruct (Execution.authorize _ _ _ _ _ _ s) as [[[ex inv']|e] s1] eqn:Ha.
  2: { apply authorize_err in Ha as [->|(ex & Hex & ->)]; simplify_eq; left; split; eauto 6. }
  apply authorize_ok in Ha.
  unfold Execution.on_registry, registry_op in H. simpl in H.
  destruct (RegistryOps.acquire _ _ _) as [[lease|e] r2] eqn:Hacq; simpl in H.
  - right. unfold Execution.with_lease in H.
    destruct (Execution.run_tool _ _ _ _ _ _ _ _) as [r0 [e2 w2]] eqn:Hrun. simplify_eq.
    exists ex, inv', s1, lease, r2, (e2, w2). split_and!; try done. intros m. apply release_out.
  - left. apply acquire_err in Hacq as ->. simplify_eq. split; [eauto|]. right.
    destruct Ha as (_ & _ & Hex & _ & _ & dec & Hev & _). exists ex, s1. split; [done|]. rewrite Hev.
    split; [done|]. destruct s1 as [[] ?]. done.
Qed.
End Call.

(** ** Witnesses: an engine with one tool *)
Definition demo_tool : ToolDescriptor :=
  mkDescriptor [] None (mkToolID "db" "query" "1.0.0") "Query" "Runs a query" "" "{}" [OutputFacts] [ProtocolAny]
    [] [] RiskReadOnly ApprovalNever DisclosureDeferred 0 (mkSourceRef "builtin" "builtin" TrustBuiltin).
Definition demo_id : ToolID := d_ID demo_tool.
Definition demo_reg : ToolRegistration unit := mkRegistration demo_tool (Some tt).
Definition in_order (l : list catalogEntry) : list catalogEntry := l.
Lemma in_order_perm l : in_order l ≡ₚ l.
Proof. done. Qed.

Definition engine1 : Engine unit := snd (Register in_order demo_reg NewEngine).
Definition engine2 : Engine unit := snd (registry_op (RegistryOps.acquire demo_id 1) engine1).
Definition engine3 : Engine unit := snd (Unload demo_id false engine2).
Definition engine4 : Engine unit := engine3<| e_registry := RegistryOps.release 0%N 1%N (e_registry engine3) |>.

(** Room for the counters, checked on a concrete heap. *)
Lemma efits_by {F} (e : Engine F) (l : list (ref * managedRegistration F)) :
  map_to_list (r_heap (e_registry e)) = l →
  (r_generation (e_registry e) + N.of_nat (size (c_entries (e_catalog e))) + 1 < u64_max)%N →
  Forall (λ pm, (mr_nextLeaseID pm.2 + 1 < u64_max)%N) l → efits e.
Proof.
  intros Hl Hg Hall. split; [done|]. intros p m Hm. subst l.
  rewrite Forall_forall in Hall. apply (Hall (p, m)). by apply elem_of_map_to_list.
Qed.
Ltac efits_now := eapply efits_by; [vm_compute; reflexivity|vm_compute; reflexivity|repeat constructor].

Lemma engine1_reachable : ereachable in_order engine1.
Proof.
  eapply reach_step; [apply reach_new|efits_now|]. apply (step_register _ demo_reg false _ (Ok tt)).
  vm_compute. reflexivity.
Qed.
Lemma engine2_reachable : ereachable in_order engine2.
Proof. eapply reach_step; [apply engine1_reachable|efits_now|]. apply step_acquire. Qed.
Lemma engine3_reachable : ereachable in_order engine3.
Proof.
  eapply reach_step; [apply engine2_reachable|efits_now|]. apply (step_unload _ demo_id false _ (Ok false)).
  vm_compute. reflexivity.
Qed.
Lemma engine4_reachable : ereachable in_order engine4.
Proof. eapply reach_step; [apply engine3_reachable|efits_now|]. apply step_release. Qed.

Lemma active_in_step_witness :
  ∃ p m, r_registrations (e_registry engine1) !! demo_id = Some p ∧ r_heap (e_registry engine1) !! p = Some m ∧
    mr_status m = ToolStatusActive ∧ mr_generation m = 1%N ∧ reg_Descriptor (mr_registration m) = demo_tool.
Proof.
  apply (active_in_step in_order in_order_perm engine1 demo_id demo_tool 1); [apply engine1_reachable|].
  vm_compute. reflexivity.
Defined.

Lemma model_names_unambiguous_witness : ∃ c, c_entries (e_catalog engine1) !! demo_id = Some c ∧
  (ce_status c ≠ ToolStatusDraining → ce_status c ≠ ToolStatusDraining → demo_id = demo_id).
Proof.
  eexists. split; [vm_compute; reflexivity|].
  apply (model_names_unambiguous in_order in_order_perm engine1 demo_id demo_id);
    [apply engine1_reachable|vm_compute; reflexivity|vm_compute; reflexivity|reflexivity|reflexivity].
Defined.

Lemma register_supersedes_witness :
  let e' := snd (Replace in_order demo_reg engine2) in
  ∃ err, RegistryOps.acquire demo_id 1 (e_registry e') = (Err err, e_registry e') ∧ Is err ErrStaleSnapshot = true.
Proof.
  intros e'. eapply (register_supersedes in_order in_order_perm engine2 demo_reg true (Ok tt) e');
    [apply engine2_reachable|efits_now|vm_compute; reflexivity|vm_compute; discriminate].
Defined.

Lemma unload_stops_calls_witness :
  ∃ err, RegistryOps.acquire demo_id 1 (e_registry engine3) = (Err err, e_registry engine3) ∧
    Is err ErrToolNotFound || Is err ErrToolUnavailable = true.
Proof.
  apply (proj1 (unload_stops_calls in_order in_order_perm engine2 demo_id false false engine3 engine2_reachable
    ltac:(efits_now) ltac:(vm_compute; reflexivity))).
Defined.

Lemma draining_tool_leaves_witness :
  r_registrations (foldl (λ r l, RegistryOps.release 0%N l r) (e_registry engine3) [1%N]) !! demo_id = None.
Proof.
  apply (draining_tool_leaves (e_registry engine3) 0%N (mkManaged demo_reg 1 ToolStatusDraining {[1%N]} 1));
    [vm_compute; reflexivity|reflexivity|discriminate|vm_compute; reflexivity|].
  vm_compute. reflexivity.
Defined.

Lemma unload_leftover_witness :
  ∃ err, Register in_order demo_reg engine4 = (Err err, engine4) ∧ Is err ErrAlreadyRegistered = true.
Proof.
  eapply (unload_leftover in_order in_order_perm engine4 demo_id _ demo_reg);
    [apply engine4_reachable|vm_compute; reflexivity|vm_compute; reflexivity|vm_compute; reflexivity
    |discriminate|split; reflexivity].
Defined.

Definition demo_snapshot : ToolSetSnapshot := mkSnapshot "snap" 1 "" ∅ [mkExposed demo_tool 1 0] 0%Z.
Definition demo_inv : ToolInvocation :=
  mkInvocation "call" (mkToolCall demo_id "{}") (mkBinding SessionAccess (mkPrincipal 1 1) no_attachment "snap") 0.
Definition demo_result : ToolResult := mkToolResult OutputFacts "[]" false false "".

Lemma execute_guarded_witness :
  let exec := Execution.execute (F := unit) (W := unit)
    (λ _ _ _, ret (mkDecision DecisionAllow "" RiskReadOnly "" ""))
    (λ _ _ _, ret (Some (Execution.PlainExecutor (λ _ _, ret demo_result))))
    (λ _ _, None) (λ _, 0%Z) (λ _, "0") [] Background demo_snapshot demo_inv None in
  fst (exec (engine1, tt)) = Ok demo_result ∧
  ∃ lease : ToolLease unit, ∀ m, r_heap (e_registry (fst (snd (exec (engine1, tt))))) !! l_entry lease = Some m →
    l_leaseID lease ∉ mr_inFlight m.
Proof.
  intros exec. split; [vm_compute; reflexivity|].
  destruct (execute_guarded (F := unit) (W := unit) _ _ _ _ _ _ Background demo_snapshot demo_inv None (engine1, tt)
    _ _ (surjective_pairing (exec (engine1, tt)))) as [[[e He] _]|(ex & inv' & s1 & lease & r2 & s2 & _ & _ & _ & _ & H)].
  - vm_compute in He. discriminate.
  - exists lease. exact H.
Defined.
