(* ===== verification/ToolSource.v ===== *)
(** * agent/tool: tool sources

    [source.go]: the manager that loads the tools of a source into the
    engine, applies the source's events and unloads it.  It holds its lock for
    the whole of an operation.  A source is code outside the manager: its
    answers are data of the model ([ToolSource]).  [iterate] and [order] are
    the orders in which Go ranges over the catalog and over a set of tools. *)

From S2P Require Import Prelude Json ToolTypes ToolRegistry ToolEngine ToolEngineInvariant.

Inductive SourceEventKind :=
| SourceEventUpsert | SourceEventEnable | SourceEventDisable | SourceEventUnload | SourceEventOther (n : N).

Record ToolSourceEvent (F : Type) := mkSourceEvent {
  ev_Kind : SourceEventKind;
  ev_Registration : ToolRegistration F;
  ev_ToolID : ToolID;
  ev_Force : bool
}.
Arguments mkSourceEvent {F} _ _ _ _.
Arguments ev_Kind {F} _.
Arguments ev_Registration {F} _.
Arguments ev_ToolID {F} _.
Arguments ev_Force {F} _.

Record ToolSource (F : Type) := mkSource {
  ts_ID : string;
  ts_TrustLevel : TrustLevel;
  ts_Snapshot : ctx → Result (list (ToolRegistration F));
  ts_Watch : ctx → option error
}.
Arguments mkSource {F} _ _ _ _.
Arguments ts_ID {F} _.
Arguments ts_TrustLevel {F} _.
Arguments ts_Snapshot {F} _.
Arguments ts_Watch {F} _.

Record SourceManager (F : Type) := mkManager {
  sm_engine : Engine F;
  sm_tools : gmap string (gset ToolID)
}.
Arguments mkManager {F} _ _.
Arguments sm_engine {F} _.
Arguments sm_tools {F} _.
#[global] Instance eta_SourceManager F : Eta (SourceManager F) := {| eta := λ m,
  mkManager (sm_engine m) (sm_tools m) |}.

Definition NewSourceManager {F} (engine : Engine F) : SourceManager F := mkManager engine ∅.

Module SourceOps.
Section Source.
Context {F : Type} (iterate : list catalogEntry → list catalogEntry) (order : gset ToolID → list ToolID).
Abbreviation Mgr := (SourceManager F).

Fixpoint validate_from (sourceID : string) (trust : TrustLevel) (seen : gset ToolID)
    (regs : list (ToolRegistration F)) : option error :=
  match regs with
  | [] => None
  | reg :: rest =>
      let d := reg_Descriptor reg in
      let name := ToolID_String (d_ID d) in
      if bool_decide (src_ID (d_Source d) ≠ sourceID)
      then Some (ENew ("tool " +:+ name +:+ " declares source " +:+ quote (src_ID (d_Source d))
        +:+ ", expected " +:+ quote sourceID))
      else if bool_decide (src_Trust (d_Source d) ≠ trust)
      then Some (ENew ("tool " +:+ name +:+ " trust does not match source"))
      else if bool_decide (d_ID d ∈ seen)
      then Some (ENew ("source " +:+ quote sourceID +:+ " contains duplicate tool " +:+ name))
      else if bool_decide (reg_Factory reg = None)
      then Some (ENew ("tool " +:+ name +:+ " has no factory"))
      else match ValidateDescriptor d with
      | Some err => Some err
      | None => validate_from sourceID trust ({[d_ID d]} ∪ seen) rest
      end
  end.
Definition validateSourceRegistrations (sourceID : string) (trust : TrustLevel)
    (regs : list (ToolRegistration F)) : option error := validate_from sourceID trust ∅ regs.

Definition on_engine {A} (m : Op (Engine F) A) : Op Mgr A := λ s,
  (fst (m (sm_engine s)), s<| sm_engine := snd (m (sm_engine s)) |>).

(** Unloads what was loaded so far; the first failure ends the rollback. *)
Fixpoint rollback (reg : ToolRegistration F) (err : error) (ids : list ToolID) : Op Mgr unit :=
  match ids with
  | [] => ret tt
  | id :: rest =>
      let! r := attempt (on_engine (EngineOps.Unload id false)) in
      match r with
      | Err unloadErr => throw (EWrap ("register " +:+ ToolID_String (d_ID (reg_Descriptor reg)) +:+ ": ") err
          ("; rollback " +:+ ToolID_String id +:+ ": " +:+ Error unloadErr))
      | Ok _ => rollback reg err rest
      end
  end.

Fixpoint register_all (sourceID : string) (regs : list (ToolRegistration F)) (loaded : gset ToolID)
    : Op Mgr (gset ToolID) :=
  match regs with
  | [] => ret loaded
  | reg :: rest =>
      let id := d_ID (reg_Descriptor reg) in
      let! r := attempt (on_engine (EngineOps.Register iterate reg)) in
      match r with
      | Err err =>
          rollback reg err (order loaded) ;;
          throw (EWrap ("register source " +:+ quote sourceID +:+ " tool " +:+ ToolID_String id +:+ ": ") err "")
      | Ok _ => register_all sourceID rest ({[id]} ∪ loaded)
      end
  end.

Definition Load (c : ctx) (source : option (ToolSource F)) : Op Mgr unit :=
  match source with
  | None => throw (ENew "tool source is required")
  | Some src =>
      let sourceID := ts_ID src in
      throw_if bool_decide (sourceID = "") with ENew "tool source ID is required" ;;
      let! regs := match ts_Snapshot src c with
        | Ok regs => ret regs
        | Err err => throw (EWrap ("read tool source " +:+ quote sourceID +:+ " snapshot: ") err "")
        end in
      check (validateSourceRegistrations sourceID (ts_TrustLevel src) regs) ;;
      let! dup := gets (λ s, bool_decide (is_Some (sm_tools s !! sourceID))) in
      throw_if dup with ENew ("tool source " +:+ quote sourceID +:+ " is already loaded") ;;
      let! loaded := register_all sourceID regs ∅ in
      modify (λ s, s<| sm_tools := <[sourceID := loaded]> (sm_tools s) |>)
  end.

Definition put_loaded (sourceID : string) (loaded : gset ToolID) : Op Mgr unit :=
  modify (λ s, s<| sm_tools := <[sourceID := loaded]> (sm_tools s) |>).

Definition Apply (source : option (ToolSource F)) (event : ToolSourceEvent F) : Op Mgr unit :=
  match source with
  | None => throw (ENew "tool source is required")
  | Some src =>
      let sourceID := ts_ID src in
      throw_if bool_decide (sourceID = "") with ENew "tool source is required" ;;
      let! loaded := (λ s, of_option (sm_tools s !! sourceID)
        (ENew ("tool source " +:+ quote sourceID +:+ " is not loaded")) s) in
      let not_owned := ENew ("source " +:+ quote sourceID +:+ " does not own " +:+ ToolID_String (ev_ToolID event)) in
      match ev_Kind event with
      | SourceEventUpsert =>
          check (validateSourceRegistrations sourceID (ts_TrustLevel src) [ev_Registration event]) ;;
          map_err (λ e, EWrap ("replace source " +:+ quote sourceID +:+ " tool: ") e "")
            (on_engine (EngineOps.Replace iterate (ev_Registration event))) ;;
          put_loaded sourceID ({[d_ID (reg_Descriptor (ev_Registration event))]} ∪ loaded)
      | SourceEventEnable =>
          throw_if bool_decide (ev_ToolID event ∉ loaded) with not_owned ;;
          on_engine (EngineOps.Enable (ev_ToolID event))
      | SourceEventDisable =>
          throw_if bool_decide (ev_ToolID event ∉ loaded) with not_owned ;;
          on_engine (EngineOps.Disable (ev_ToolID event))
      | SourceEventUnload =>
          throw_if bool_decide (ev_ToolID event ∉ loaded) with not_owned ;;
          let! complete := on_engine (EngineOps.Unload (ev_ToolID event) (ev_Force event)) in
          if (complete : bool) then put_loaded sourceID (loaded ∖ {[ev_ToolID event]}) else ret tt
      | SourceEventOther n => throw (ENew ("unknown source event kind " +:+ pretty n))
      end
  end.

(** The loop of [Unload] over the source's tools.  The set is the one the
    manager holds, so each removal is written back at once. *)
Fixpoint unload_all (sourceID : string) (force : bool) (ids : list ToolID) (loaded : gset ToolID)
    (complete : bool) : Op Mgr (gset ToolID * bool) :=
  match ids with
  | [] => ret (loaded, complete)
  | id :: rest =>
      let! r := attempt (on_engine (EngineOps.Unload id force)) in
      match r with
      | Err err =>
          if Is err ErrToolNotFound then
            put_loaded sourceID (loaded ∖ {[id]}) ;;
            unload_all sourceID force rest (loaded ∖ {[id]}) complete
          else throw (EWrap ("unload source " +:+ quote sourceID +:+ " tool " +:+ ToolID_String id +:+ ": ") err EmptyString)
      | Ok true =>
          put_loaded sourceID (loaded ∖ {[id]}) ;;
          unload_all sourceID force rest (loaded ∖ {[id]}) complete
      | Ok false => unload_all sourceID force rest loaded false
      end
  end.

Definition Unload (sourceID : string) (force : bool) : Op Mgr bool :=
  let! loaded := (λ s, of_option (sm_tools s !! sourceID)
    (ENew ("tool source " +:+ quote sourceID +:+ " is not loaded")) s) in
  let! ' (remaining, complete) := unload_all sourceID force (order loaded) loaded true in
  if bool_decide (remaining = ∅) then
    modify (λ s, s<| sm_tools := delete sourceID (sm_tools s) |>) ;;
    ret true
  else ret complete.

(** What the [select] of [Run] can meet: the context done, an event, the
    channel closed.  [None]: the observations given are used up and [Run] is
    still waiting. *)
Inductive selected := CtxDone (err : error) | Received (event : ToolSourceEvent F) | Closed.
Fixpoint run_loop (source : option (ToolSource F)) (obs : list selected) : Op Mgr (option (option error)) :=
  match obs with
  | [] => ret None
  | CtxDone err :: _ => ret (Some (Some err))
  | Closed :: _ => ret (Some None)
  | Received event :: rest =>
      let! r := attempt (Apply source event) in
      match r with
      | Err err => ret (Some (Some err))
      | Ok _ => run_loop source rest
      end
  end.

Definition Run (c : ctx) (source : option (ToolSource F)) (obs : list selected) : Op Mgr (option (option error)) :=
  let! r := attempt (Load c source) in
  match r with
  | Err err => ret (Some (Some err))
  | Ok _ =>
      match source with
      | Some src =>
          match ts_Watch src c with
          | Some err => ret (Some (Some (EWrap ("watch tool source " +:+ quote (ts_ID src) +:+ ": ") err "")))
          | None => run_loop source obs
          end
      | None => ret None (* not reached: [Load] has refused *)
      end
  end.
End Source.
End SourceOps.

(** ** Loading is all or nothing *)
Import SourceOps.

Section LoadProof.
Context {F : Type} (iterate : list catalogEntry → list catalogEntry) (order : gset ToolID → list ToolID).
Context (Hiter : ∀ l, iterate l ≡ₚ l) (Horder : ∀ X, order X ≡ₚ elements X).
Implicit Types e : Engine F.

(** What a plain registration does: the tool was unknown, and is there now. *)
Lemma Register_ok reg e e' :
  ewf e → efits e → EngineOps.Register iterate reg e = (Ok tt, e') →
  let d := reg_Descriptor reg in
  ewf e' ∧ c_entries (e_catalog e) !! d_ID d = None ∧ r_registrations (e_registry e) !! d_ID d = None ∧
  ∃ p g, c_entries (e_catalog e') = <[d_ID d := mkEntry d g ToolStatusActive]> (c_entries (e_catalog e)) ∧
    r_registrations (e_registry e') = <[d_ID d := p]> (r_registrations (e_registry e)) ∧
    r_heap (e_registry e') = <[p := mkManaged reg g ToolStatusActive ∅ 0%N]> (r_heap (e_registry e)) ∧
    r_heap (e_registry e) !! p = None ∧ r_generation (e_registry e') = (r_generation (e_registry e) + 1)%N.
Proof using Hiter.
  intros He Hf H d. pose proof H as Hinv. apply (register_inv iterate Hiter) in Hinv as [He' _]; [|done..].
  unfold EngineOps.Register, EngineOps.register, throw in H. fold d in H.
  case_bool_decide; [by simplify_eq|]. unfold bind, check, gets in H.
  destruct (ValidateDescriptor d); [by simplify_eq|]. cbn [negb andb] in H.
  case_bool_decide as Hex; [by simplify_eq|].
  assert (c_entries (e_catalog e) !! d_ID d = None) as Hnone.
  { destruct (c_entries (e_catalog e) !! d_ID d) as [c|] eqn:Hc; [|done].
    apply byModelName_elem in Hc. rewrite <- Hiter, Hex in Hc. by apply elem_of_nil in Hc. }
  assert (r_registrations (e_registry e) !! d_ID d = None) as Hreg.
  { destruct (r_registrations (e_registry e) !! d_ID d) as [p|] eqn:Hp; [|done].
    destruct (rw_entry _ (ew_registry _ He) _ _ Hp) as (m & Hm & _).
    pose proof (ew_sync _ He _ _ _ Hp Hm). congruence. }
  split_and!; try done. unfold ret, EngineOps.registry_op in H. cbn [fst snd] in H.
  destruct (RegistryOps.register reg false (e_registry e)) as [[g|err] r'] eqn:Hr; cbn [fst snd] in H; [|by simplify_eq].
  apply rwf_register in Hr as (Hr' & Hg & Hg' & Hr1 & Hr2 & _); [|apply He|split; [destruct Hf; lia|apply Hf]].
  unfold EngineOps.catalog_op in H. simplify_eq/=. exists (r_fresh (e_registry e)), (r_generation (e_registry e) + 1)%N.
  split_and!; try done.
  destruct (r_heap (e_registry e) !! r_fresh (e_registry e)) eqn:E; [|done].
  destruct (rw_fresh _ (ew_registry _ He) _ _ E). lia.
Qed.

(** [e] is [e0] with the idle tools of [L] added; [k] bounds how far the counters moved. *)
Record loaded_on (e0 : Engine F) (L : gset ToolID) (k : nat) (e : Engine F) : Prop := {
  lo_wf : ewf e;
  lo_other id : id ∉ L → c_entries (e_catalog e) !! id = c_entries (e_catalog e0) !! id ∧
    r_registrations (e_registry e) !! id = r_registrations (e_registry e0) !! id;
  lo_new id : id ∈ L → c_entries (e_catalog e0) !! id = None ∧ r_registrations (e_registry e0) !! id = None ∧
    ∃ p m, r_registrations (e_registry e) !! id = Some p ∧ r_heap (e_registry e) !! p = Some m ∧
      mr_inFlight m = ∅ ∧ mr_status m = ToolStatusActive;
  lo_gen : (r_generation (e_registry e) ≤ r_generation (e_registry e0) + N.of_nat k)%N;
  lo_size : size (c_entries (e_catalog e)) ≤ size (c_entries (e_catalog e0)) + k;
  lo_leases p m : r_heap (e_registry e) !! p = Some m → (mr_nextLeaseID m + 1 < u64_max)%N
}.

(** Room in the counters for [n] more registrations and their removal. *)
Definition room_for (e : Engine F) (n : nat) : Prop :=
  (r_generation (e_registry e) + N.of_nat (size (c_entries (e_catalog e)) + 4 * n + 2) < u64_max)%N ∧
  ∀ p m, r_heap (e_registry e) !! p = Some m → (mr_nextLeaseID m + 1 < u64_max)%N.

Lemma loaded_on_refl e : ewf e → (∀ p m, r_heap (e_registry e) !! p = Some m → (mr_nextLeaseID m + 1 < u64_max)%N) →
  loaded_on e ∅ 0 e.
Proof. intros He Hl. split; try done; lia. Qed.

Lemma loaded_on_efits e0 L k e n :
  loaded_on e0 L k e → room_for e0 n → k ≤ 2 * n → efits e.
Proof. intros [] [Hg _] Hk. split; [lia|done]. Qed.

Lemma loaded_on_Register e0 L k e n reg e' :
  loaded_on e0 L k e → room_for e0 n → k ≤ 2 * n → EngineOps.Register iterate reg e = (Ok tt, e') →
  loaded_on e0 ({[d_ID (reg_Descriptor reg)]} ∪ L) (S k) e' ∧ (d_ID (reg_Descriptor reg) ∉ L) ∧
  ∃ g, c_entries (e_catalog e') !! d_ID (reg_Descriptor reg) =
         Some (mkEntry (reg_Descriptor reg) g ToolStatusActive) ∧
       ∀ i, i ≠ d_ID (reg_Descriptor reg) → c_entries (e_catalog e') !! i = c_entries (e_catalog e) !! i.
Proof using Hiter.
  clear Horder order. intros Hl Hroom Hk H. set (d := reg_Descriptor reg) in *.
  apply Register_ok in H as (He' & Hc & Hr & p & g & Hc' & Hr' & Hh' & Hp & Hg');
    [|apply Hl|by eapply loaded_on_efits]. fold d in Hc, Hr, Hc', Hr'. destruct Hl.
  assert (d_ID d ∉ L) as HnL.
  { intros HL. destruct (lo_new0 _ HL) as (_ & _ & q & m & Hq & _). congruence. }
  split; [|split; [done|exists g; rewrite Hc', lookup_insert_eq; split; [done|]; intros i ?;
    by rewrite lookup_insert_ne]].
  split; [done|..].
  - intros id Hid. rewrite Hc', Hr', !lookup_insert_ne by set_solver. apply lo_other0. set_solver.
  - intros id [->%elem_of_singleton|HL]%elem_of_union.
    + destruct (lo_other0 _ HnL) as [<- <-]. split_and!; try done.
      exists p. eexists. by rewrite Hr', Hh', !lookup_insert_eq.
    + destruct (lo_new0 _ HL) as (H1 & H2 & q & m & Hq & Hm & Hi & Hs). split_and!; try done. exists q, m.
      assert (d_ID d ≠ id) by congruence. assert (p ≠ q) by congruence.
      by rewrite Hr', Hh', !lookup_insert_ne.
  - lia.
  - rewrite Hc', map_size_insert_None by done. lia.
  - intros q m. rewrite Hh'. intros [[<- <-]|[_ Hm]]%lookup_insert_Some; [done|eauto].
Qed.

Lemma loaded_on_Unload e0 L k e n id :
  loaded_on e0 L k e → room_for e0 n → k ≤ 2 * n → id ∈ L →
  ∃ e', EngineOps.Unload id false e = (Ok true, e') ∧ loaded_on e0 (L ∖ {[id]}) (S k) e'.
Proof.
  clear Hiter Horder iterate order. intros Hl Hroom Hk HL. pose proof (loaded_on_efits _ _ _ _ _ Hl Hroom Hk) as Hf. pose proof Hl as [].
  destruct (lo_new0 _ HL) as (H1 & H2 & q & m & Hq & Hm & Hi & Hs).
  destruct (EngineOps.Unload id false e) as [x e'] eqn:H.
  apply Unload_inv in H as [He' Hx]; [|done|split; [destruct Hf; lia|apply Hf]].
  destruct x as [b|err]; [|destruct Hx as (_ & _ & Hx); congruence].
  destruct Hx as (q' & m' & Hq' & Hm' & Hb & Hc & Hr & Hh & Hg & _). simplify_eq.
  rewrite Hi, bool_decide_eq_true_2 in * by done. exists e'. split; [done|]. split; [done|..].
  - intros i Hi'. rewrite Hc, Hr. destruct (decide (i = id)) as [->|Hne].
    + rewrite !lookup_delete_eq. by rewrite H1, H2.
    + rewrite !lookup_delete_ne by done. apply lo_other0. set_solver.
  - intros i [HiL Hne%not_elem_of_singleton]%elem_of_difference.
    destruct (lo_new0 _ HiL) as (A1 & A2 & q2 & n' & Bq & Bm & Bi & Bs). split_and!; try done. exists q2, n'.
    rewrite Hr, Hh, lookup_delete_ne by done. rewrite lookup_insert_ne; [done|].
    intros <-. by destruct Hne, (registered_unique e i id _ lo_wf0 Bq Hq).
  - lia.
  - rewrite Hc. rewrite map_size_delete. destruct (c_entries (e_catalog e) !! id); simpl; lia.
  - intros p n'. rewrite Hh. intros [[<- <-]|[_ Hn]]%lookup_insert_Some; simpl; eauto.
Qed.

Lemma rollback_ok e0 n T reg err ids k e :
  room_for e0 n → k + length ids ≤ 2 * n → NoDup ids → loaded_on e0 (list_to_set ids) k e →
  ∃ e', rollback reg err ids (mkManager e T) = (Ok tt, mkManager e' T) ∧ loaded_on e0 ∅ (k + length ids) e'.
Proof.
  intros Hroom. revert k e. induction ids as [|id ids IH]; intros k e Hk Hnd Hl; cbn [length rollback] in *.
  { exists e. rewrite Nat.add_0_r. done. }
  apply NoDup_cons in Hnd as [Hid Hnd].
  destruct (loaded_on_Unload _ _ _ _ _ id Hl Hroom) as (e1 & Hun & Hl1); [lia|set_solver|].
  replace (list_to_set (id :: ids) ∖ {[id]}) with (list_to_set ids : gset ToolID) in Hl1 by set_solver.
  destruct (IH (S k) e1) as (e' & Hrun & Hl'); [lia|done|done|].
  exists e'. rewrite Nat.add_succ_r. split; [|done].
  unfold attempt, on_engine, bind. simpl. by rewrite Hun.
Qed.

Lemma register_all_inv e0 n T sid regs L e r s' :
  room_for e0 n → size L + length regs ≤ n → loaded_on e0 L (size L) e →
  register_all iterate order sid regs L (mkManager e T) = (r, s') →
  sm_tools s' = T ∧
  match r with
  | Ok L' => (∃ k, loaded_on e0 L' k (sm_engine s')) ∧
      L' = list_to_set (map (λ reg, d_ID (reg_Descriptor reg)) regs) ∪ L ∧
      (∀ id, id ∈ L → c_entries (e_catalog (sm_engine s')) !! id = c_entries (e_catalog e) !! id) ∧
      ∀ reg, reg ∈ regs → ∃ g, c_entries (e_catalog (sm_engine s')) !! d_ID (reg_Descriptor reg) =
        Some (mkEntry (reg_Descriptor reg) g ToolStatusActive)
  | Err _ => ∃ k, loaded_on e0 ∅ k (sm_engine s')
  end.
Proof using Hiter Horder.
  intros Hroom. revert L e. induction regs as [|reg regs IH]; intros L e Hn Hl H; cbn [register_all length] in *.
  { unfold ret in H. simplify_eq/=. split; [done|]. split_and!; [eauto|set_solver|done|].
    by intros reg ?%elem_of_nil. }
  unfold attempt, on_engine in H. unfold bind at 1 in H. simpl in H.
  destruct (EngineOps.Register iterate reg e) as [[[]|err] e1] eqn:Hreg; simpl in H.
  - destruct (loaded_on_Register _ _ _ _ n _ _ Hl Hroom ltac:(lia) Hreg) as (Hl1 & HnL & g & Hg & Hoth).
    assert (size ({[d_ID (reg_Descriptor reg)]} ∪ L) = S (size L)) as Hsize
      by (by rewrite size_union, size_singleton by set_solver).
    rewrite <- Hsize in Hl1. destruct (IH ({[d_ID (reg_Descriptor reg)]} ∪ L) e1 ltac:(lia) Hl1 H) as [HT Hr].
    split; [done|]. destruct r as [L'|e2]; [|done]. destruct Hr as (Hk & -> & Hsame & Hall). split_and!.
    + done.
    + simpl. set_solver.
    + intros id Hid. rewrite Hsame by set_solver. apply Hoth. set_solver.
    + intros reg' [->|Hin]%elem_of_cons; [|by apply Hall]. exists g. rewrite Hsame by set_solver. done.
  - assert (e1 = e) as ->.
    { apply (register_inv iterate Hiter) in Hreg; [done|apply Hl|]. eapply loaded_on_efits; [done|done|lia]. }
    destruct (rollback_ok e0 n T reg err (order L) (size L) e Hroom) as (e' & Hrb & Hl').
    + rewrite Horder. fold (size L). unfold size, set_size. simpl. unfold size, set_size in Hn. simpl in Hn. lia.
    + rewrite Horder. apply NoDup_elements.
    + rewrite Horder, list_to_set_elements_L. done.
    + unfold bind, throw in H. rewrite Hrb in H. simplify_eq/=. eauto.
Qed.

Lemma loaded_on_none e0 k e :
  loaded_on e0 ∅ k e → c_entries (e_catalog e) = c_entries (e_catalog e0) ∧
  r_registrations (e_registry e) = r_registrations (e_registry e0).
Proof. intros []. split; apply map_eq; intros id; by apply lo_other0. Qed.

(** Loading a source is all or nothing.  If [Load] fails, whichever of its
    tools is refused, the catalog, the registrations and the manager's sets
    are what they were before.  If it succeeds, exactly the source's tools are
    recorded for it and each is active in the catalog with its descriptor. *)
Theorem load_all_or_nothing c src s r s' :
  ewf (sm_engine s) → room_for (sm_engine s) (match ts_Snapshot src c with Ok regs => length regs | Err _ => 0 end) →
  Load iterate order c (Some src) s = (r, s') →
  match r with
  | Err _ => c_entries (e_catalog (sm_engine s')) = c_entries (e_catalog (sm_engine s)) ∧
      r_registrations (e_registry (sm_engine s')) = r_registrations (e_registry (sm_engine s)) ∧
      sm_tools s' = sm_tools s
  | Ok _ => ∃ regs, ts_Snapshot src c = Ok regs ∧
      sm_tools s' = <[ts_ID src := list_to_set (map (λ reg, d_ID (reg_Descriptor reg)) regs)]> (sm_tools s) ∧
      ∀ reg, reg ∈ regs → ∃ g, c_entries (e_catalog (sm_engine s')) !! d_ID (reg_Descriptor reg) =
        Some (mkEntry (reg_Descriptor reg) g ToolStatusActive)
  end.
Proof using Hiter Horder.
  intros He Hroom H. unfold Load, throw in H. case_bool_decide; [by simplify_eq|].
  destruct (ts_Snapshot src c) as [regs|err]; unfold bind, ret, check, gets in H; [|by simplify_eq].
  destruct (validateSourceRegistrations _ _ _); [by simplify_eq|]. case_bool_decide; [by simplify_eq|].
  destruct (register_all iterate order (ts_ID src) regs ∅ s) as [[L|err] s1] eqn:Hall; destruct s as [e T];
    apply (register_all_inv e (length regs)) in Hall as [HT Hr]; try done;
    try (rewrite size_empty; apply loaded_on_refl; [done|apply Hroom]).
  - destruct Hr as (_ & -> & _ & Hact). unfold modify in H. simplify_eq/=. exists regs. split_and!; try done.
    do 2 f_equal. set_solver.
  - destruct Hr as [k [? ?]%loaded_on_none]. by simplify_eq.
Qed.
End LoadProof.

(** ** Witness: the second tool of a source is refused, the first taken back *)
Definition source_tool (name version : string) : ToolRegistration unit :=
  mkRegistration (mkDescriptor [] None (mkToolID "ext" name version) "" "A tool" "" "{}" [] [] [] []
    RiskReadOnly ApprovalNever DisclosureDeferred 0 (mkSourceRef "ext" "plugin" TrustRestricted)) (Some tt).
Definition clashing_source : ToolSource unit :=
  mkSource "ext" TrustRestricted (λ _, Ok [source_tool "a" "1.0.0"; source_tool "a" "2.0.0"]) (λ _, None).

Lemma load_all_or_nothing_witness :
  let s := NewSourceManager (@NewEngine unit) in
  let s' := snd (Load (λ l, l) elements Background (Some clashing_source) s) in
  is_ok (fst (Load (λ l, l) elements Background (Some clashing_source) s)) = false ∧
  c_entries (e_catalog (sm_engine s')) = ∅.
Proof.
  intros s s'. split; [vm_compute; reflexivity|].
  assert (ewf (sm_engine s)) as He by apply ewf_init.
  assert (room_for (sm_engine s) 2) as Hroom.
  { split; [vm_compute; reflexivity|]. intros p m Hm. vm_compute in Hm. discriminate. }
  pose proof (load_all_or_nothing (λ l, l) elements (λ l, Permutation_refl l) (λ X, Permutation_refl (elements X))
    Background clashing_source s _ s' He Hroom (surjective_pairing _)) as H.
  destruct (fst (Load _ _ _ _ s)) as [[]|err] eqn:E; [vm_compute in E; discriminate|apply H].
Defined.
