(* ===== verification/ToolDisclosure.v ===== *)
(** * agent/tool: disclosure

    [disclosure.go], [catalog.go]'s matching score and [Engine.Describe]:
    which tools of the catalog a turn of the model sees, in which order, and
    within which budget.  [ToLower] is Go's Unicode case mapping, [AllowTool]
    the visibility filter the engine was given (asked once per tool),
    [iterate] the order in which the catalog's map is ranged over, and
    [snapshotID], [now] what the random source and the clock answer. *)

From S2P Require Import Prelude Json ToolTypes ToolRegistry ToolEngine ToolEngineInvariant ToolEngineTheorems.

Record DisclosureBudget := mkBudget {
  MaxAlwaysVisible : Z;
  MaxCandidates : Z;
  MaxSchemas : Z;
  MaxTokens : Z
}.
#[global] Instance eta_Budget : Eta DisclosureBudget := {| eta := λ b,
  mkBudget (MaxAlwaysVisible b) (MaxCandidates b) (MaxSchemas b) (MaxTokens b) |}.

Record DisclosureRequest := mkRequest {
  rq_SessionKind : SessionKind;
  rq_Principal : Principal;
  rq_Attachments : list AttachmentSnapshot;
  rq_Primary : string;
  rq_Query : string;
  rq_Promoted : list ToolID;
  rq_RecentlyUsed : list ToolID;
  rq_PolicyRevision : string;
  rq_Budget : DisclosureBudget
}.
#[global] Instance eta_Request : Eta DisclosureRequest := {| eta := λ r,
  mkRequest (rq_SessionKind r) (rq_Principal r) (rq_Attachments r) (rq_Primary r) (rq_Query r) (rq_Promoted r)
    (rq_RecentlyUsed r) (rq_PolicyRevision r) (rq_Budget r) |}.

Record ToolSummary := mkSummary {
  sum_ID : ToolID;
  sum_DisplayName : string;
  sum_Description : string;
  sum_Protocols : list Protocol;
  sum_Risk : RiskLevel;
  sum_Tags : list string
}.

Definition DefaultDisclosureBudget : DisclosureBudget := mkBudget 8 12 16 6000.

Definition normalizeBudget (b : DisclosureBudget) : DisclosureBudget :=
  let b := if Z.leb (MaxAlwaysVisible b) 0 then b<| MaxAlwaysVisible := MaxAlwaysVisible DefaultDisclosureBudget |> else b in
  let b := if Z.leb (MaxCandidates b) 0 then b<| MaxCandidates := MaxCandidates DefaultDisclosureBudget |> else b in
  let b := if Z.leb (MaxSchemas b) 0 then b<| MaxSchemas := MaxSchemas DefaultDisclosureBudget |> else b in
  if Z.leb (MaxTokens b) 0 then b<| MaxTokens := MaxTokens DefaultDisclosureBudget |> else b.

(** ** strings.Fields and strings.Contains *)
Definition space_prefix (s : string) : option string := List.find (λ p, String.prefix p s) space_encodings.
Fixpoint fields_from (fuel : nat) (acc s : string) : list string :=
  let flush := if bool_decide (acc = "") then [] else [acc] in
  match fuel, s with
  | S fuel', String c s' =>
      match space_prefix s with
      | Some p => flush ++ fields_from fuel' "" (drop_string (String.length p) s)
      | None => fields_from fuel' (acc +:+ String c EmptyString) s'
      end
  | _, _ => flush
  end.
Definition Fields (s : string) : list string := fields_from (String.length s) "" s.

Fixpoint Contains (s part : string) : bool :=
  String.prefix part s || match s with EmptyString => false | String _ s' => Contains s' part end.

Fixpoint join_with (sep : string) (l : list string) : string :=
  match l with [] => "" | [x] => x | x :: l' => x +:+ sep +:+ join_with sep l' end.

(** ** Attachments *)
Definition containsProtocol (protocols : list Protocol) (target : Protocol) : bool :=
  existsb (λ p, bool_decide (p = target)) protocols.

Definition attachmentHasCapabilities (a : option AttachmentSnapshot) (required : list Capability) : bool :=
  if bool_decide (required = []) then true else
  match a with
  | None => false
  | Some a => forallb (λ c, bool_decide (c ∈ as_Capabilities a)) required
  end.

Definition descriptorMatchesAttachment (d : ToolDescriptor) (a : option AttachmentSnapshot) : bool :=
  if bool_decide (d_Protocols d = []) || containsProtocol (d_Protocols d) ProtocolAny then
    bool_decide (d_Capabilities d = []) || attachmentHasCapabilities a (d_Capabilities d)
  else match a with
  | None => false
  | Some x =>
      if negb (containsProtocol (d_Protocols d) (as_Protocol x)) then false
      else attachmentHasCapabilities a (d_Capabilities d)
  end.

Definition findPrimaryAttachment (attachments : list AttachmentSnapshot) (primaryID : string) : option AttachmentSnapshot :=
  match (if bool_decide (primaryID ≠ "") then List.find (λ a, bool_decide (as_ID a = primaryID)) attachments else None) with
  | Some a => Some a
  | None => head attachments
  end.

Definition matchingAttachment (attachments : list AttachmentSnapshot) (primary : option AttachmentSnapshot)
    (d : ToolDescriptor) : option AttachmentSnapshot :=
  if bool_decide (is_Some primary) && descriptorMatchesAttachment d primary then primary
  else List.find (λ a, descriptorMatchesAttachment d (Some a)) attachments.

Definition estimateDescriptorTokens (d : ToolDescriptor) : Z :=
  let len s := Z.of_nat (String.length s) in
  let bytes := (len (ModelName (d_ID d)) + len (d_DisplayName d) + len (d_Description d) + len (d_WhenToUse d)
    + len (d_InputSchema d) + foldr Z.add 0 (map len (d_Tags d)))%Z in
  Z.max 1 (Z.quot (bytes + 3) 4).

Record rankedTool := mkRanked { rk_entry : catalogEntry; rk_score : Z; rk_promoted : bool }.

(** The order of the candidates: promoted first, then the higher score, the
    lower risk, the smaller identifier. *)
Definition ranked_less (x y : rankedTool) : bool :=
  let d t := ce_descriptor (rk_entry t) in
  if negb (Bool.eqb (rk_promoted x) (rk_promoted y)) then rk_promoted x
  else if negb (Z.eqb (rk_score x) (rk_score y)) then Z.ltb (rk_score y) (rk_score x)
  else if negb (N.eqb (risk_u8 (d_Risk (d x))) (risk_u8 (d_Risk (d y)))) then N.ltb (risk_u8 (d_Risk (d x))) (risk_u8 (d_Risk (d y)))
  else String.ltb (ToolID_String (d_ID (d x))) (ToolID_String (d_ID (d y))).

(** The loop that fills the snapshot: tools so far (newest last), their
    tokens, the always-visible and the deferred ones counted so far. *)
Record fill := mkFill { f_tools : list ExposedTool; f_tokens : Z; f_always : Z; f_deferred : Z }.
#[global] Instance eta_fill : Eta fill := {| eta := λ f,
  mkFill (f_tools f) (f_tokens f) (f_always f) (f_deferred f) |}.

Definition expose (b : DisclosureBudget) (t : rankedTool) (f : fill) : fill :=
  let d := ce_descriptor (rk_entry t) in
  let estimated := estimateDescriptorTokens d in
  if Z.ltb (MaxTokens b) (f_tokens f + estimated) then f
  else f<| f_tools := f_tools f ++ [mkExposed d (ce_registrationGeneration (rk_entry t)) estimated] |>
        <| f_tokens := (f_tokens f + estimated)%Z |>.

Fixpoint fill_snapshot (b : DisclosureBudget) (candidates : list rankedTool) (f : fill) : fill :=
  match candidates with
  | [] => f
  | t :: rest =>
      let d := ce_descriptor (rk_entry t) in
      let counted :=
        if bool_decide (d_Disclosure d = DisclosureAlways) then
          if Z.leb (MaxAlwaysVisible b) (f_always f) then None else Some (f<| f_always := (f_always f + 1)%Z |>)
        else if bool_decide (d_Disclosure d = DisclosureDeferred) && negb (rk_promoted t) then
          if Z.leb (MaxCandidates b) (f_deferred f) then None else Some (f<| f_deferred := (f_deferred f + 1)%Z |>)
        else Some f in
      match counted with
      | None => fill_snapshot b rest f
      | Some f =>
          if Z.leb (MaxSchemas b) (Z.of_nat (length (f_tools f))) then f
          else fill_snapshot b rest (expose b t f)
      end
  end.

(** The loop over a map's values that stops at the first error. *)
Fixpoint collect {A B} (f : A → Result (option B)) (l : list A) : Result (list B) :=
  match l with
  | [] => Ok []
  | x :: rest =>
      match f x with
      | Err e => Err e
      | Ok o =>
          match collect f rest with
          | Err e => Err e
          | Ok ys => Ok (match o with Some y => y :: ys | None => ys end)
          end
      end
  end.

Definition summary_less (x y : Z * ToolSummary) : bool :=
  if negb (Z.eqb (fst x) (fst y)) then Z.ltb (fst y) (fst x)
  else String.ltb (ToolID_String (sum_ID (snd x))) (ToolID_String (sum_ID (snd y))).

Module Disclosure.
Section Disclose.
Context (ToLower : string → string)
        (AllowTool : ctx → Principal → option AttachmentSnapshot → ToolDescriptor → Result bool)
        (iterate : list catalogEntry → list catalogEntry).

(** The queries that mean every tool, the last three in Chinese (UTF-8). *)
Definition all_tools_queries : list string :=
  ["list all available tools"; "list tools"; "all tools"; "available tools";
   str_of [229; 133; 168; 233; 131; 168; 229; 183; 165; 229; 133; 183];
   str_of [229; 143; 175; 231; 148; 168; 229; 183; 165; 229; 133; 183];
   str_of [229; 136; 151; 229; 135; 186; 230; 137; 128; 230; 156; 137; 229; 183; 165; 229; 133; 183]].

(** The weights of the haystacks a part occurs in; [None] when it occurs nowhere. *)
Definition part_score (haystacks : list (string * Z)) (part : string) : option Z :=
  match List.filter (λ h, Contains (fst h) part) haystacks with
  | [] => None
  | hits => Some (foldr Z.add 0%Z (map snd hits))
  end.

Definition descriptorMatchScore (d : ToolDescriptor) (query : string) : Z :=
  let query := ToLower (TrimSpace query) in
  let query := if bool_decide (query ∈ all_tools_queries) then "" else query in
  if bool_decide (query = "") then 1%Z else
  let haystacks := [(ToLower (ModelName (d_ID d)), 8%Z); (ToLower (d_DisplayName d), 6%Z);
    (ToLower (join_with " " (d_Tags d)), 4%Z); (ToLower (d_WhenToUse d), 3%Z); (ToLower (d_Description d), 2%Z)] in
  (fix go parts score :=
     match parts with
     | [] => score
     | part :: rest =>
         match part_score haystacks part with
         | None => 0%Z
         | Some w => go rest (score + w)%Z
         end
     end) (Fields query) 0%Z.

Definition disclosureScore (d : ToolDescriptor) (query : string) (promoted recent attachmentMatched : bool) : Z :=
  (descriptorMatchScore d (ToLower (TrimSpace query))
   + (if bool_decide (d_Disclosure d = DisclosureAlways) then 100 else 0)
   + (if bool_decide (d_Disclosure d = DisclosureAttachment) && attachmentMatched then 60 else 0)
   + (if promoted then 1000 else 0) + (if recent then 20 else 0))%Z.

(** The checks both loops make: [None] when the entry is passed over. *)
Definition visible (c : ctx) (r : DisclosureRequest) (primary : option AttachmentSnapshot) (e : catalogEntry)
    : Result (option (option AttachmentSnapshot)) :=
  let d := ce_descriptor e in
  if bool_decide (ce_status e ≠ ToolStatusActive) || negb (descriptorMatchesSession d (rq_SessionKind r)) then Ok None
  else
    let attachment := matchingAttachment (rq_Attachments r) primary d in
    if negb (descriptorMatchesAttachment d attachment) then Ok None
    else match AllowTool c (rq_Principal r) attachment d with
    | Err e => Err (EWrap ("evaluate tool visibility for " +:+ ToolID_String (d_ID d) +:+ ": ") e "")
    | Ok false => Ok None
    | Ok true => Ok (Some attachment)
    end.

Definition candidate (c : ctx) (r : DisclosureRequest) (primary : option AttachmentSnapshot) (e : catalogEntry)
    : Result (option rankedTool) :=
  let d := ce_descriptor e in
  match visible c r primary e with
  | Err err => Err err
  | Ok None => Ok None
  | Ok (Some attachment) =>
      let isPromoted := bool_decide (d_ID d ∈ rq_Promoted r) in
      let wasRecent := bool_decide (d_ID d ∈ rq_RecentlyUsed r) in
      if bool_decide (d_Disclosure d = DisclosureDeferred) && negb isPromoted then Ok None
      else Ok (Some (mkRanked e (disclosureScore d (rq_Query r) isPromoted wasRecent (bool_decide (is_Some attachment))) isPromoted))
  end.

Definition entries_of (c : Catalog) : list catalogEntry := iterate (map_to_list (c_entries c)).*2.

Definition BuildSnapshot (c : ctx) (r : DisclosureRequest) (snapshotID : Result string) (now : Time) (catalog : Catalog)
    : Result ToolSetSnapshot :=
  let budget := normalizeBudget (rq_Budget r) in
  let primary := findPrimaryAttachment (rq_Attachments r) (rq_Primary r) in
  match collect (candidate c r primary) (entries_of catalog) with
  | Err e => Err e
  | Ok candidates =>
      let filled := fill_snapshot budget (sort_Slice ranked_less candidates) (mkFill [] 0 0 0) in
      match snapshotID with
      | Err e => Err (EWrap "create tool snapshot ID: " e "")
      | Ok id => Ok (mkSnapshot id (c_generation catalog) (rq_PolicyRevision r)
          (foldl (λ m a, <[as_ID a := as_Generation a]> m) ∅ (rq_Attachments r)) (f_tools filled) now)
      end
  end.

Definition summary (c : ctx) (r : DisclosureRequest) (primary : option AttachmentSnapshot) (query : string)
    (e : catalogEntry) : Result (option (Z * ToolSummary)) :=
  let d := ce_descriptor e in
  match visible c r primary e with
  | Err err => Err err
  | Ok None => Ok None
  | Ok (Some _) =>
      let score := descriptorMatchScore d (ToLower (TrimSpace query)) in
      if bool_decide (TrimSpace query ≠ "") && Z.eqb score 0 then Ok None
      else Ok (Some (score, mkSummary (d_ID d) (d_DisplayName d) (d_Description d) (d_Protocols d) (d_Risk d) (d_Tags d)))
  end.

Definition Search (c : ctx) (r : DisclosureRequest) (query : string) (catalog : Catalog) : Result (list ToolSummary) :=
  let budget := normalizeBudget (rq_Budget r) in
  let primary := findPrimaryAttachment (rq_Attachments r) (rq_Primary r) in
  match collect (summary c r primary query) (entries_of catalog) with
  | Err e => Err e
  | Ok results => Ok (map snd (take (Z.to_nat (MaxCandidates budget)) (sort_Slice summary_less results)))
  end.

(** [Engine.Describe]: the schemas of tools by identifier, promoted for this one look. *)
Definition Describe (c : ctx) (r : DisclosureRequest) (ids : list ToolID) (snapshotID : Result string) (now : Time)
    (catalog : Catalog) : Result (list ToolDescriptor) :=
  if bool_decide (ids = []) then Ok [] else
  let r := r<| rq_Promoted := rq_Promoted r ++ ids |>
    <| rq_Budget := (rq_Budget r)<| MaxSchemas := Z.max (MaxSchemas (rq_Budget r))
         (Z.of_nat (length ids) + MaxAlwaysVisible DefaultDisclosureBudget) |> |> in
  match BuildSnapshot c r snapshotID now catalog with
  | Err e => Err e
  | Ok snapshot => Ok (List.filter (λ d, bool_decide (d_ID d ∈ ids)) (map ex_Descriptor (ss_Tools snapshot)))
  end.
End Disclose.
End Disclosure.

(** ** The orders *)
Lemma lex_desc_weak {A} (f : A → Z) less `{!WeakOrder less} :
  WeakOrder (λ x y : A, if negb (Z.eqb (f x) (f y)) then Z.ltb (f y) (f x) else less x y).
Proof.
  split; intros *;
    repeat match goal with |- context [Z.eqb ?a ?b] => destruct (Z.eqb_spec a b) end;
    simpl; rewrite ?Z.ltb_lt, ?Z.ltb_ge; try lia; eauto using weak_asym, weak_ntrans.
Qed.

Lemma lex_risk_weak {A} (f : A → N) less `{!WeakOrder less} :
  WeakOrder (λ x y : A, if negb (N.eqb (f x) (f y)) then N.ltb (f x) (f y) else less x y).
Proof.
  split; intros *;
    repeat match goal with |- context [N.eqb ?a ?b] => destruct (N.eqb_spec a b) end;
    simpl; rewrite ?N.ltb_lt, ?N.ltb_ge; try lia; eauto using weak_asym, weak_ntrans.
Qed.

Lemma lex_bool_weak {A} (f : A → bool) less `{!WeakOrder less} :
  WeakOrder (λ x y : A, if negb (Bool.eqb (f x) (f y)) then f x else less x y).
Proof.
  split; intros *;
    repeat match goal with |- context [f ?a] => destruct (f a) eqn:? end;
    simpl; try done; eauto using weak_asym, weak_ntrans.
Qed.

#[global] Instance ranked_less_weak : WeakOrder ranked_less.
Proof. apply (lex_bool_weak rk_promoted), (lex_desc_weak rk_score), lex_risk_weak, string_ltb_weak. Qed.

#[global] Instance summary_less_weak : WeakOrder summary_less.
Proof. apply (lex_desc_weak fst), (string_ltb_weak (λ x : Z * ToolSummary, ToolID_String (sum_ID (snd x)))). Qed.

Lemma ranked_tie x y :
  ranked_less x y = false → ranked_less y x = false →
  rk_promoted x = rk_promoted y ∧ rk_score x = rk_score y ∧
  ToolID_String (d_ID (ce_descriptor (rk_entry x))) = ToolID_String (d_ID (ce_descriptor (rk_entry y))).
Proof.
  unfold ranked_less. intros H1 H2.
  assert (rk_promoted x = rk_promoted y) as Hp.
  { by destruct (rk_promoted x), (rk_promoted y). }
  rewrite Hp, eqb_reflx in *. cbn [negb] in *.
  rewrite (Z.eqb_sym (rk_score y)), (N.eqb_sym (risk_u8 (d_Risk (ce_descriptor (rk_entry y))))) in H2.
  destruct (Z.eqb_spec (rk_score x) (rk_score y)); cbn [negb] in *; [|rewrite Z.ltb_ge in *; lia].
  destruct (N.eqb_spec (risk_u8 (d_Risk (ce_descriptor (rk_entry x)))) (risk_u8 (d_Risk (ce_descriptor (rk_entry y)))));
    cbn [negb] in *; [|rewrite N.ltb_ge in *; lia].
  split_and!; [done|done|]. by apply string_ltb_eq.
Qed.

(** ** The loops *)
Lemma collect_ok {A B} (f : A → Result (option B)) l ys :
  collect f l = Ok ys ↔ (∀ x, x ∈ l → is_ok (f x) = true) ∧
    ys = omap (λ x, match f x with Ok o => o | Err _ => None end) l.
Proof.
  revert ys. induction l as [|x l IH]; intros ys; simpl.
  { split; [intros [= <-]; split; [by intros x ?%elem_of_nil|done]|by intros [_ ->]]. }
  destruct (f x) as [o|e] eqn:Hx; simpl.
  - destruct (collect f l) as [zs|e] eqn:Hc.
    + destruct (proj1 (IH zs) eq_refl) as [Hok ->]. split.
      * intros [= <-]. split; [|by destruct o]. intros y [->|Hy]%elem_of_cons; [by rewrite Hx|eauto].
      * intros [_ ->]. by destruct o.
    + split; [done|]. intros [Hok ->]. exfalso.
      assert (Err e = Ok (omap (λ x, match f x with Ok o => o | Err _ => None end) l)) as E; [|done].
      apply (proj2 (IH _)). split; [|done]. intros y Hy. apply Hok. by right.
  - split; [done|]. intros [Hok _]. specialize (Hok x ltac:(left)). by rewrite Hx in Hok.
Qed.

Lemma elem_of_collect {A B} (f : A → Result (option B)) l ys y :
  collect f l = Ok ys → y ∈ ys ↔ ∃ x, x ∈ l ∧ f x = Ok (Some y).
Proof.
  intros [Hok ->]%collect_ok. rewrite list_elem_of_omap. split; intros (x & Hx & Hy); exists x; (split; [done|]).
  - specialize (Hok x Hx). by destruct (f x); simplify_eq/=.
  - by rewrite Hy.
Qed.

Definition total_tokens (l : list ExposedTool) : Z := foldr (λ x n, ex_EstimatedTokens x + n)%Z 0%Z l.
Lemma total_tokens_app l k : total_tokens (l ++ k) = (total_tokens l + total_tokens k)%Z.
Proof. induction l as [|x l IH]; simpl; [done|]. rewrite IH. lia. Qed.

Definition always_count (l : list ExposedTool) : nat :=
  length (List.filter (λ x, bool_decide (d_Disclosure (ex_Descriptor x) = DisclosureAlways)) l).
Definition as_exposed (t : rankedTool) : ExposedTool :=
  mkExposed (ce_descriptor (rk_entry t)) (ce_registrationGeneration (rk_entry t))
    (estimateDescriptorTokens (ce_descriptor (rk_entry t))).

(** What the filling loop keeps true of its state. *)
Record fill_ok (b : DisclosureBudget) (f : fill) : Prop := {
  fo_schemas : (Z.of_nat (length (f_tools f)) ≤ MaxSchemas b)%Z;
  fo_tokens : (f_tokens f ≤ MaxTokens b)%Z;
  fo_sum : f_tokens f = total_tokens (f_tools f);
  fo_always : (Z.of_nat (always_count (f_tools f)) ≤ f_always f ≤ MaxAlwaysVisible b)%Z
}.

Lemma expose_ok b t f :
  fill_ok b f → (Z.of_nat (length (f_tools f)) < MaxSchemas b)%Z →
  (d_Disclosure (ce_descriptor (rk_entry t)) = DisclosureAlways →
     (Z.of_nat (always_count (f_tools f)) < f_always f)%Z) →
  fill_ok b (expose b t f) ∧
  (f_tools (expose b t f) = f_tools f ∨ f_tools (expose b t f) = f_tools f ++ [as_exposed t]).
Proof.
  intros [] Hlen Halw. unfold expose. destruct (Z.ltb_spec (MaxTokens b)
    (f_tokens f + estimateDescriptorTokens (ce_descriptor (rk_entry t)))); [split; [done|by left]|].
  split; [|by right]. split; simpl; [rewrite length_app; simpl; lia|done| |].
  - rewrite total_tokens_app. simpl. lia.
  - unfold always_count in *. rewrite List.filter_app, length_app. simpl.
    case_bool_decide as Hd; simpl; [specialize (Halw Hd)|]; lia.
Qed.

Lemma fill_snapshot_ok b cs f :
  fill_ok b f →
  fill_ok b (fill_snapshot b cs f) ∧
  ∃ ts, ts `sublist_of` cs ∧ f_tools (fill_snapshot b cs f) = f_tools f ++ map as_exposed ts.
Proof.
  revert f. induction cs as [|t cs IH]; intros f Hf; cbn [fill_snapshot].
  { split; [done|]. exists []. simpl. by rewrite app_nil_r. }
  assert (∀ f', fill_ok b f' → f_tools f' = f_tools f →
    (d_Disclosure (ce_descriptor (rk_entry t)) = DisclosureAlways →
      (Z.of_nat (always_count (f_tools f')) < f_always f')%Z) →
    let out := if Z.leb (MaxSchemas b) (Z.of_nat (length (f_tools f'))) then f'
               else fill_snapshot b cs (expose b t f') in
    fill_ok b out ∧ ∃ ts, ts `sublist_of` t :: cs ∧ f_tools out = f_tools f ++ map as_exposed ts) as Hgo.
  { intros f' Hf' Heq Halw. destruct (Z.leb_spec (MaxSchemas b) (Z.of_nat (length (f_tools f')))); simpl.
    - split; [done|]. exists []. rewrite Heq, app_nil_r. split; [apply sublist_nil_l|done].
    - destruct (expose_ok b t f' Hf') as [Hok Ht]; [done|done|].
      destruct (IH (expose b t f') Hok) as (Hok' & ts & Hsub & Hts). split; [done|].
      destruct Ht as [Ht|Ht]; rewrite Ht, Heq in Hts.
      + exists ts. split; [by apply sublist_cons|done].
      + exists (t :: ts). split; [by apply sublist_skip|]. simpl. by rewrite <- app_assoc in Hts. }
  assert (fill_ok b (fill_snapshot b cs f) ∧
    ∃ ts, ts `sublist_of` t :: cs ∧ f_tools (fill_snapshot b cs f) = f_tools f ++ map as_exposed ts) as Hskip.
  { destruct (IH f Hf) as (? & ts & ? & ?). split; [done|]. exists ts. split; [by apply sublist_cons|done]. }
  case_bool_decide as Hd; [destruct (Z.leb_spec (MaxAlwaysVisible b) (f_always f)) as [|Hlt]; [done|]|].
  - apply (Hgo (f<| f_always := (f_always f + 1)%Z |>)); [|done|]; destruct Hf; [split; simpl; try done; lia|simpl; lia].
  - destruct (bool_decide _ && _); [destruct (Z.leb (MaxCandidates b) (f_deferred f)); [done|]|];
      (apply Hgo; [by destruct Hf|done|done]).
Qed.

Lemma normalizeBudget_pos b :
  (0 < MaxAlwaysVisible (normalizeBudget b))%Z ∧ (0 < MaxCandidates (normalizeBudget b))%Z ∧
  (0 < MaxSchemas (normalizeBudget b))%Z ∧ (0 < MaxTokens (normalizeBudget b))%Z.
Proof.
  unfold normalizeBudget. destruct b as [a c s t]. simpl.
  repeat match goal with |- context [Z.leb ?x 0] => destruct (Z.leb_spec x 0); simpl in * end; lia.
Qed.

(** ** What a snapshot discloses *)
Section Snapshot.
Context (ToLower : string → string)
        (AllowTool : ctx → Principal → option AttachmentSnapshot → ToolDescriptor → Result bool)
        (iterate : list catalogEntry → list catalogEntry) (Hiter : ∀ l, iterate l ≡ₚ l).

Lemma visible_Some c r primary e a :
  Disclosure.visible AllowTool c r primary e = Ok (Some a) →
  ce_status e = ToolStatusActive ∧ descriptorMatchesSession (ce_descriptor e) (rq_SessionKind r) = true ∧
  descriptorMatchesAttachment (ce_descriptor e) a = true ∧
  AllowTool c (rq_Principal r) a (ce_descriptor e) = Ok true ∧
  a = matchingAttachment (rq_Attachments r) primary (ce_descriptor e).
Proof.
  unfold Disclosure.visible. case_bool_decide; [done|].
  destruct (descriptorMatchesSession _ _) eqn:?; [|done]. simpl.
  destruct (descriptorMatchesAttachment _ _) eqn:?; [|done]. simpl.
  destruct (AllowTool _ _ _ _) as [[]|] eqn:?; [|done|done]. intros; simplify_eq. done.
Qed.

Lemma candidate_Some c r primary e t :
  Disclosure.candidate ToLower AllowTool c r primary e = Ok (Some t) →
  rk_entry t = e ∧ rk_promoted t = bool_decide (d_ID (ce_descriptor e) ∈ rq_Promoted r) ∧
  (∃ a, Disclosure.visible AllowTool c r primary e = Ok (Some a)) ∧
  (d_Disclosure (ce_descriptor e) = DisclosureDeferred → d_ID (ce_descriptor e) ∈ rq_Promoted r).
Proof.
  unfold Disclosure.candidate. destruct (Disclosure.visible _ _ _ _ _) as [[a|]|] eqn:?; [|done|done].
  destruct (bool_decide (d_Disclosure _ = _) && _) eqn:Hd; [done|]. intros; simplify_eq/=. split_and!; eauto.
  intros Hdef. rewrite Hdef in Hd. simpl in Hd. by bools.
Qed.

Lemma elem_of_entries cat e :
  e ∈ Disclosure.entries_of iterate cat ↔ ∃ id, c_entries cat !! id = Some e.
Proof using Hiter.
  unfold Disclosure.entries_of. rewrite Hiter, list_elem_of_fmap. split.
  - intros ([id e'] & -> & Hin%elem_of_map_to_list). eauto.
  - intros [id Hid]. exists (id, e). split; [done|]. by apply elem_of_map_to_list.
Qed.

(** The keys of the catalog are the identifiers of its descriptors. *)
Definition keyed (cat : Catalog) : Prop :=
  ∀ id e, c_entries cat !! id = Some e → d_ID (ce_descriptor e) = id ∧ valid_id id = true.

Lemma candidates_nodup c r primary cat cs :
  keyed cat →
  collect (Disclosure.candidate ToLower AllowTool c r primary) (Disclosure.entries_of iterate cat) = Ok cs →
  NoDup (map (λ t, d_ID (ce_descriptor (rk_entry t))) cs).
Proof using Hiter.
  intros Hkey [_ ->]%collect_ok.
  assert (NoDup (map (λ e, d_ID (ce_descriptor e)) (Disclosure.entries_of iterate cat))) as Hnd.
  { unfold Disclosure.entries_of. rewrite Hiter.
    replace (map _ _) with (map_to_list (c_entries cat)).*1; [apply NoDup_fst_map_to_list|].
    rewrite <- list_fmap_compose. apply list_fmap_ext. intros i [id e] Hi. simpl. symmetry. apply (Hkey id e).
    apply elem_of_map_to_list. by eapply list_elem_of_lookup_2. }
  induction (Disclosure.entries_of iterate cat) as [|e l IH]; simpl in *; [constructor|].
  apply NoDup_cons in Hnd as [He Hnd].
  destruct (Disclosure.candidate ToLower AllowTool c r primary e) as [[t|]|] eqn:Hc; simpl; [|by apply IH..].
  apply candidate_Some in Hc as (-> & _). apply NoDup_cons. split; [|by apply IH].
  intros (t' & Heq & (e' & He' & Hc')%list_elem_of_omap)%list_elem_of_fmap. apply He.
  destruct (Disclosure.candidate ToLower AllowTool c r primary e') as [o|] eqn:Hce; [|done]. subst o.
  apply candidate_Some in Hce as (Hrk & _). apply list_elem_of_fmap. exists e'. split; [congruence|done].
Qed.

(** What is disclosed: the tools of a snapshot, as a subsequence of the candidates in order. *)
Lemma snapshot_tools c r sid now cat snap :
  Disclosure.BuildSnapshot ToLower AllowTool iterate c r sid now cat = Ok snap →
  let b := normalizeBudget (rq_Budget r) in
  ∃ cs ts, collect (Disclosure.candidate ToLower AllowTool c r
      (findPrimaryAttachment (rq_Attachments r) (rq_Primary r))) (Disclosure.entries_of iterate cat) = Ok cs ∧
    ts `sublist_of` sort_Slice ranked_less cs ∧ ss_Tools snap = map as_exposed ts ∧
    fill_ok b (fill_snapshot b (sort_Slice ranked_less cs) (mkFill [] 0 0 0)) ∧
    ss_Tools snap = f_tools (fill_snapshot b (sort_Slice ranked_less cs) (mkFill [] 0 0 0)).
Proof.
  intros H b. unfold Disclosure.BuildSnapshot in H.
  destruct (collect _ _) as [cs|]; [|done]. destruct sid as [id|]; [|done]. fold b in H.
  pose proof (normalizeBudget_pos (rq_Budget r)) as Hpos. fold b in Hpos.
  destruct (fill_snapshot_ok b (sort_Slice ranked_less cs) (mkFill [] 0 0 0)) as (Hok & ts & Hsub & Hts).
  { split; unfold always_count; simpl; lia. }
  simplify_eq/=. exists cs, ts. split_and!; done.
Qed.

(** C13. A snapshot exposes only tools of the catalog that are active, open to
    the session kind, matched by one of the request's attachments, visible to
    the principal, and, if deferred, promoted; each with the generation the
    catalog had and at most once. *)
Theorem snapshot_sound c r sid now cat snap :
  keyed cat → Disclosure.BuildSnapshot ToLower AllowTool iterate c r sid now cat = Ok snap →
  NoDup (map (λ x, d_ID (ex_Descriptor x)) (ss_Tools snap)) ∧
  ∀ x, x ∈ ss_Tools snap → ∃ e a, c_entries cat !! d_ID (ex_Descriptor x) = Some e ∧
    ce_status e = ToolStatusActive ∧ ex_Descriptor x = ce_descriptor e ∧
    ex_RegistrationGeneration x = ce_registrationGeneration e ∧
    descriptorMatchesSession (ex_Descriptor x) (rq_SessionKind r) = true ∧
    descriptorMatchesAttachment (ex_Descriptor x) a = true ∧
    (∀ y, a = Some y → y ∈ rq_Attachments r) ∧
    AllowTool c (rq_Principal r) a (ex_Descriptor x) = Ok true ∧
    (d_Disclosure (ex_Descriptor x) = DisclosureDeferred → d_ID (ex_Descriptor x) ∈ rq_Promoted r).
Proof using Hiter.
  intros Hkey H. apply snapshot_tools in H as (cs & ts & Hcs & Hsub & Htools & _). rewrite Htools. split.
  - apply (candidates_nodup _ _ _ _ _ Hkey) in Hcs.
    rewrite <- (sort_Slice_perm ranked_less cs) in Hcs.
    rewrite map_map. eapply sublist_NoDup; [exact Hcs|]. by apply (fmap_sublist (λ t, d_ID (ce_descriptor (rk_entry t)))).
  - intros x (t & -> & Ht)%list_elem_of_fmap.
    apply (elem_of_sublist _ _ t Ht) in Hsub. rewrite elem_of_sort_Slice in Hsub.
    apply (elem_of_collect _ _ _ _ Hcs) in Hsub as (e & He & Hc).
    apply candidate_Some in Hc as (<- & _ & [a Hvis] & Hdef).
    apply visible_Some in Hvis as (Hact & Hkind & Hatt & Hall & ->).
    apply elem_of_entries in He as [id Hid]. destruct (Hkey _ _ Hid) as [Hkid _].
    exists (rk_entry t). eexists. simpl. rewrite Hkid. split_and!; try done; [|by rewrite <- Hkid].
    intros y. unfold matchingAttachment. destruct (bool_decide _ && _).
    + unfold findPrimaryAttachment. case_match eqn:Hfind.
      * intros [= <-]. case_bool_decide; [|done]. apply List.find_some in Hfind as [Hin _]. by apply list_elem_of_In.
      * intros Hh. by apply head_Some_elem_of.
    + intros Hfind. apply List.find_some in Hfind as [Hin _]. by apply list_elem_of_In.
Qed.

(** C14. A snapshot stays within the request's budget, defaults filled in: the
    number of schemas, the sum of their estimated tokens and the number of
    always-visible tools. *)
Theorem snapshot_budget c r sid now cat snap :
  Disclosure.BuildSnapshot ToLower AllowTool iterate c r sid now cat = Ok snap →
  (Z.of_nat (length (ss_Tools snap)) ≤ MaxSchemas (normalizeBudget (rq_Budget r)))%Z ∧
  (total_tokens (ss_Tools snap) ≤ MaxTokens (normalizeBudget (rq_Budget r)))%Z ∧
  (Z.of_nat (always_count (ss_Tools snap)) ≤ MaxAlwaysVisible (normalizeBudget (rq_Budget r)))%Z.
Proof.
  intros H. apply snapshot_tools in H as (cs & ts & _ & _ & _ & [] & ->).
  split_and!; [done|lia|lia].
Qed.
End Snapshot.

(** Go's map iteration order does not show: two runs of [BuildSnapshot]
    that range over the same catalog in different orders build the same
    snapshot (or both fail). *)
Theorem snapshot_order_independent ToLower AllowTool it1 it2 c r sid now cat :
  (∀ l, it1 l ≡ₚ l) → (∀ l, it2 l ≡ₚ l) → keyed cat →
  match Disclosure.BuildSnapshot ToLower AllowTool it1 c r sid now cat,
        Disclosure.BuildSnapshot ToLower AllowTool it2 c r sid now cat with
  | Ok s1, Ok s2 => s1 = s2
  | Err _, Err _ => True
  | _, _ => False
  end.
Proof.
  intros H1 H2 Hkey. unfold Disclosure.BuildSnapshot.
  set (f := Disclosure.candidate _ _ _ _ _).
  assert (Disclosure.entries_of it1 cat ≡ₚ Disclosure.entries_of it2 cat) as Hperm.
  { unfold Disclosure.entries_of. by rewrite H1, H2. }
  destruct (collect f (Disclosure.entries_of it1 cat)) as [cs1|e1] eqn:E1,
           (collect f (Disclosure.entries_of it2 cat)) as [cs2|e2] eqn:E2; [| | |done].
  - assert (cs1 ≡ₚ cs2) as Hcs.
    { apply collect_ok in E1 as [_ ->]. apply collect_ok in E2 as [_ ->]. by rewrite Hperm. }
    rewrite (sort_Slice_unique ranked_less cs1 cs2 Hcs); [by destruct sid|].
    pose proof (candidates_nodup ToLower AllowTool it1 H1 _ _ _ _ _ Hkey E1) as Hnd.
    intros x y Hx Hy Hxy Hyx. destruct (ranked_tie _ _ Hxy Hyx) as (_ & _ & Hid).
    assert (∀ t, t ∈ cs1 → valid_id (d_ID (ce_descriptor (rk_entry t))) = true) as Hval.
    { intros t Ht. apply (elem_of_collect _ _ _ _ E1) in Ht as (e & He & Hc).
      apply candidate_Some in Hc as (-> & _). apply (elem_of_entries it1 H1) in He as [id Hid'].
      destruct (Hkey _ _ Hid') as [-> ?]. done. }
    apply ToolID_String_inj in Hid; [|auto..].
    apply list_elem_of_lookup in Hx as [i Hi], Hy as [j Hj].
    assert (i = j) as ->; [|congruence].
    eapply NoDup_lookup; [exact Hnd| |]; rewrite list_lookup_fmap, ?Hi, ?Hj; simpl; [done|by rewrite Hid].
  - assert (collect f (Disclosure.entries_of it2 cat) =
      Ok (omap (λ x, match f x with Ok o => o | Err _ => None end) (Disclosure.entries_of it2 cat))) as E3; [|congruence].
    apply collect_ok in E1 as [Hok _]. apply collect_ok. split; [|done]. intros x Hx. apply Hok. by rewrite Hperm.
  - assert (collect f (Disclosure.entries_of it1 cat) =
      Ok (omap (λ x, match f x with Ok o => o | Err _ => None end) (Disclosure.entries_of it1 cat))) as E3; [|congruence].
    apply collect_ok in E2 as [Hok _]. apply collect_ok. split; [|done]. intros x Hx. apply Hok. by rewrite <- Hperm.
Qed.

Lemma ewf_keyed {F} (e : Engine F) : ewf e → keyed (e_catalog e).
Proof. intros He id c Hc. split; [by eapply ew_key|by eapply ew_valid]. Qed.

(** Every tool a snapshot of the engine exposes can be called: as long as
    the engine has not changed, a lease for the exposed generation is granted,
    on a registration with exactly the exposed descriptor. *)
Theorem exposed_tools_callable {F} ToLower AllowTool iterate (e : Engine F) c r sid now snap x :
  (∀ l, iterate l ≡ₚ l) → ewf e →
  Disclosure.BuildSnapshot ToLower AllowTool iterate c r sid now (e_catalog e) = Ok snap → x ∈ ss_Tools snap →
  ∃ lease r', RegistryOps.acquire (d_ID (ex_Descriptor x)) (ex_RegistrationGeneration x) (e_registry e) = (Ok lease, r') ∧
    reg_Descriptor (l_registration lease) = ex_Descriptor x ∧ is_Some (reg_Factory (l_registration lease)).
Proof.
  intros Hiter He H Hx. apply snapshot_tools in H as (cs & ts & Hcs & Hsub & Htools & _).
  rewrite Htools in Hx. apply list_elem_of_fmap in Hx as (t & -> & Ht).
  apply (elem_of_sublist _ _ t Ht) in Hsub. rewrite elem_of_sort_Slice in Hsub.
  apply (elem_of_collect _ _ _ _ Hcs) in Hsub as (ce & Hce & Hc).
  apply candidate_Some in Hc as (<- & _ & [a Hvis] & _). apply visible_Some in Hvis as (Hact & _).
  apply (elem_of_entries iterate Hiter) in Hce as [id Hid].
  assert (∃ p m, r_registrations (e_registry e) !! id = Some p ∧ r_heap (e_registry e) !! p = Some m ∧
    rk_entry t = mkEntry (reg_Descriptor (mr_registration m)) (mr_generation m) (mr_status m)) as (p & m & Hp & Hm & Heq).
  { destruct (r_registrations (e_registry e) !! id) as [p|] eqn:Hp.
    - destruct (rw_entry _ (ew_registry _ He) _ _ Hp) as (m & Hm & _). exists p, m. split_and!; try done.
      pose proof (ew_sync _ He _ _ _ Hp Hm). congruence.
    - pose proof (ew_gone _ He _ _ Hid Hp). congruence. }
  pose proof (ew_key _ He _ _ Hid) as Hk. simpl. rewrite Hk.
  unfold RegistryOps.acquire, bind, of_option. rewrite (proj2 (lookup_Some id _ p m) (conj Hp Hm)).
  rewrite Heq in Hact |- *. simpl in Hact |- *. rewrite Hact.
  rewrite !bool_decide_eq_false_2 by (intros Hn; by apply Hn).
  unfold modify, ret. do 2 eexists. split; [reflexivity|]. simpl. split; [done|].
  apply not_eq_None_Some. by apply (ew_factory _ He p).
Qed.

(** ** Witnesses *)
Definition lower_ascii (s : string) : string :=
  String.string_of_list_ascii (map (λ c, if in_range c 65 90 then ascii_of_nat (nat_of_ascii c + 32) else c)
    (String.list_ascii_of_string s)).
Definition allow_all (c : ctx) (p : Principal) (a : option AttachmentSnapshot) (d : ToolDescriptor) : Result bool := Ok true.
Definition demo_request : DisclosureRequest :=
  mkRequest SessionAccess (mkPrincipal 1 1) [] "" "query" [demo_id] [] "" (mkBudget 0 0 0 0).
Definition demo_disclosed : ToolSetSnapshot :=
  mkSnapshot "tls_1" 1 "" ∅ [mkExposed demo_tool 1 7] 5%Z.

Lemma demo_built :
  Disclosure.BuildSnapshot lower_ascii allow_all in_order Background demo_request (Ok "tls_1") 5%Z (e_catalog engine1)
  = Ok demo_disclosed.
Proof. vm_compute. reflexivity. Qed.
Lemma engine1_wf : ewf engine1.
Proof. apply (ereachable_wf in_order in_order_perm), engine1_reachable. Qed.

Lemma snapshot_sound_witness :
  ∃ e, c_entries (e_catalog engine1) !! demo_id = Some e ∧ ce_status e = ToolStatusActive.
Proof.
  destruct (proj2 (snapshot_sound lower_ascii allow_all in_order in_order_perm Background demo_request (Ok "tls_1") 5%Z
    (e_catalog engine1) demo_disclosed (ewf_keyed _ engine1_wf) demo_built) (mkExposed demo_tool 1 7))
    as (e & a & He & Hs & _); [left|exists e; split; [exact He|exact Hs]].
Defined.

Lemma snapshot_budget_witness : (total_tokens (ss_Tools demo_disclosed) ≤ 6000)%Z.
Proof.
  apply (snapshot_budget lower_ascii allow_all in_order Background demo_request (Ok "tls_1") 5%Z
    (e_catalog engine1) demo_disclosed demo_built).
Defined.

Lemma snapshot_order_independent_witness :
  Disclosure.BuildSnapshot lower_ascii allow_all (@rev _) Background demo_request (Ok "tls_1") 5%Z (e_catalog engine1)
  = Ok demo_disclosed.
Proof.
  pose proof (snapshot_order_independent lower_ascii allow_all in_order (@rev _) Background demo_request (Ok "tls_1") 5%Z
    (e_catalog engine1) in_order_perm (λ l, symmetry (Permutation_rev l)) (ewf_keyed _ engine1_wf)) as H.
  rewrite demo_built in H. destruct (Disclosure.BuildSnapshot _ _ (@rev _) _ _ _ _ _) as [s|]; [|destruct H].
  rewrite <- H. reflexivity.
Defined.

Lemma exposed_tools_callable_witness :
  ∃ lease r', RegistryOps.acquire demo_id 1 (e_registry engine1) = (Ok lease, r') ∧
    reg_Descriptor (l_registration lease) = demo_tool ∧ is_Some (reg_Factory (l_registration lease)).
Proof.
  apply (exposed_tools_callable lower_ascii allow_all in_order engine1 Background demo_request (Ok "tls_1") 5%Z
    demo_disclosed (mkExposed demo_tool 1 7) in_order_perm engine1_wf demo_built). left.
Defined.
