(* ===== verification/AgentTypes.v ===== *)
(** * agent/runtime: sessions, turns, steps, messages

    The data of [manager/agent/runtime] ([types.go], [model.go]): the records
    the stores keep, the two status machines, the checks made before a record
    is stored, and the [Store] interface as a class that both stores
    implement and the loop uses. *)

From S2P Require Import Prelude ToolTypes.

Definition ErrSessionNotFound : error := ESentinel "runtime.ErrSessionNotFound" "agent session not found".
Definition ErrTurnNotFound : error := ESentinel "runtime.ErrTurnNotFound" "agent turn not found".
Definition ErrStepNotFound : error := ESentinel "runtime.ErrStepNotFound" "agent step not found".
Definition ErrSessionArchived : error := ESentinel "runtime.ErrSessionArchived" "agent session is archived".
Definition ErrTurnAlreadyActive : error := ESentinel "runtime.ErrTurnAlreadyActive" "agent turn already active".
Definition ErrInvalidTransition : error := ESentinel "runtime.ErrInvalidTransition" "invalid agent state transition".
Definition ErrVersionConflict : error := ESentinel "runtime.ErrVersionConflict" "agent aggregate version conflict".
Definition ErrAttachmentNotFound : error := ESentinel "runtime.ErrAttachmentNotFound" "agent attachment not found".

(** As in [ToolTypes], the last constructor is every unnamed [uint8] value. *)
Inductive SessionStatus := SessionActive | SessionArchived | SessionStatusOther (n : N).
Inductive TurnStatus :=
| TurnQueued | TurnRunning | TurnWaitingApproval | TurnCompleted | TurnCancelled | TurnFailed
| TurnStatusOther (n : N).
Inductive StepKind := StepModel | StepTool | StepApproval | StepKindOther (n : N).
Inductive StepStatus :=
| StepPending | StepRunning | StepWaitingApproval | StepCompleted | StepCancelled | StepFailed
| StepStatusOther (n : N).
Inductive AttachmentState :=
| AttachmentConnected | AttachmentDisconnected | AttachmentRemoved | AttachmentStateOther (n : N).

#[global] Instance SessionStatus_eq : EqDecision SessionStatus. Proof. solve_decision. Defined.
#[global] Instance TurnStatus_eq : EqDecision TurnStatus. Proof. solve_decision. Defined.
#[global] Instance StepKind_eq : EqDecision StepKind. Proof. solve_decision. Defined.
#[global] Instance StepStatus_eq : EqDecision StepStatus. Proof. solve_decision. Defined.
#[global] Instance AttachmentState_eq : EqDecision AttachmentState. Proof. solve_decision. Defined.

Definition Terminal (status : TurnStatus) : bool :=
  match status with TurnCompleted | TurnCancelled | TurnFailed => true | _ => false end.

Record Session := mkSession {
  s_Kind : SessionKind;
  s_ID : string;
  s_OrganizationID : N;
  s_CreatedBy : N;
  s_Title : string;
  s_Status : SessionStatus;
  s_ActiveTurnID : string;
  s_ActiveAttachmentID : string;
  s_Summary : string;
  s_Version : N;
  s_CreatedAt : Time;
  s_UpdatedAt : Time
}.
#[global] Instance eta_Session : Eta Session := {| eta := λ s,
  mkSession (s_Kind s) (s_ID s) (s_OrganizationID s) (s_CreatedBy s) (s_Title s) (s_Status s)
    (s_ActiveTurnID s) (s_ActiveAttachmentID s) (s_Summary s) (s_Version s) (s_CreatedAt s) (s_UpdatedAt s) |}.
#[global] Instance Session_eq : EqDecision Session. Proof. solve_decision. Defined.
(** [Session{}]: what a lookup of a missing key gives. *)
Definition zero_Session : Session := mkSession "" "" 0 0 "" SessionActive "" "" "" 0 0%Z 0%Z.

Record Attachment := mkAttachment {
  a_AccessHandleID : string;
  a_ID : string;
  a_AgentSessionID : string;
  a_AccessID : N;
  a_ApplicationID : N;
  a_Protocol : Protocol;
  a_Capabilities : list Capability;
  a_Generation : N;
  a_State : AttachmentState;
  a_CreatedAt : Time;
  a_UpdatedAt : Time
}.
#[global] Instance eta_Attachment : Eta Attachment := {| eta := λ a,
  mkAttachment (a_AccessHandleID a) (a_ID a) (a_AgentSessionID a) (a_AccessID a) (a_ApplicationID a)
    (a_Protocol a) (a_Capabilities a) (a_Generation a) (a_State a) (a_CreatedAt a) (a_UpdatedAt a) |}.
#[global] Instance Attachment_eq : EqDecision Attachment. Proof. solve_decision. Defined.

Definition HandleID (a : Attachment) : string :=
  if bool_decide (a_AccessHandleID a ≠ "") then a_AccessHandleID a else a_ID a.

Record Turn := mkTurn {
  t_ID : string;
  t_AgentSessionID : string;
  t_Status : TurnStatus;
  t_ActiveStepID : string;
  t_ErrorCode : string;
  t_ErrorMessage : string;
  t_Version : N;
  t_StartedAt : Time;
  t_CompletedAt : option Time;
  t_CreatedAt : Time;
  t_UpdatedAt : Time
}.
#[global] Instance eta_Turn : Eta Turn := {| eta := λ t,
  mkTurn (t_ID t) (t_AgentSessionID t) (t_Status t) (t_ActiveStepID t) (t_ErrorCode t) (t_ErrorMessage t)
    (t_Version t) (t_StartedAt t) (t_CompletedAt t) (t_CreatedAt t) (t_UpdatedAt t) |}.
#[global] Instance Turn_eq : EqDecision Turn. Proof. solve_decision. Defined.
Definition new_Turn (id : string) : Turn := mkTurn id "" TurnQueued "" "" "" 0 0%Z None 0%Z 0%Z.

Record Step := mkStep {
  st_ID : string;
  st_TurnID : string;
  st_Sequence : N;
  st_Kind : StepKind;
  st_Status : StepStatus;
  st_ToolID : option ToolID;
  st_ToolSnapshotID : string;
  st_Input : string;
  st_Output : string;
  st_ErrorCode : string;
  st_ErrorMessage : string;
  st_Version : N;
  st_StartedAt : option Time;
  st_CompletedAt : option Time;
  st_CreatedAt : Time;
  st_UpdatedAt : Time
}.
#[global] Instance eta_Step : Eta Step := {| eta := λ s,
  mkStep (st_ID s) (st_TurnID s) (st_Sequence s) (st_Kind s) (st_Status s) (st_ToolID s) (st_ToolSnapshotID s)
    (st_Input s) (st_Output s) (st_ErrorCode s) (st_ErrorMessage s) (st_Version s) (st_StartedAt s)
    (st_CompletedAt s) (st_CreatedAt s) (st_UpdatedAt s) |}.
#[global] Instance Step_eq : EqDecision Step. Proof. solve_decision. Defined.
Definition new_Step (id : string) (kind : StepKind) (toolID : option ToolID) (snapshotID input : string) : Step :=
  mkStep id "" 0 kind StepRunning toolID snapshotID input "" "" "" 0 None None 0%Z 0%Z.

(** ** Messages ([model.go]) *)
Definition MessageRole := string.
Definition RoleSystem : MessageRole := "system".
Definition RoleUser : MessageRole := "user".
Definition RoleAssistant : MessageRole := "assistant".
Definition RoleTool : MessageRole := "tool".

Record ResourceReference := mkReference { ref_Type : string; ref_ID : string; ref_Name : string }.
Record ModelToolCall := mkModelToolCall { mc_ID : string; mc_Name : string; mc_Input : string }.
Record ModelMessage := mkModelMessage {
  mm_References : list ResourceReference;
  mm_Role : MessageRole;
  mm_Content : string;
  mm_ToolCalls : list ModelToolCall;
  mm_ToolCallID : string;
  mm_ToolName : string
}.
#[global] Instance ResourceReference_eq : EqDecision ResourceReference. Proof. solve_decision. Defined.
#[global] Instance ModelToolCall_eq : EqDecision ModelToolCall. Proof. solve_decision. Defined.
#[global] Instance ModelMessage_eq : EqDecision ModelMessage. Proof. solve_decision. Defined.
#[global] Instance eta_ModelMessage : Eta ModelMessage := {| eta := λ m,
  mkModelMessage (mm_References m) (mm_Role m) (mm_Content m) (mm_ToolCalls m) (mm_ToolCallID m) (mm_ToolName m) |}.

Record Message := mkMessage {
  m_ID : string;
  m_AgentSessionID : string;
  m_TurnID : string;
  m_Sequence : N;
  m_Value : ModelMessage;
  m_CreatedAt : Time
}.
#[global] Instance Message_eq : EqDecision Message. Proof. solve_decision. Defined.
#[global] Instance eta_Message : Eta Message := {| eta := λ m,
  mkMessage (m_ID m) (m_AgentSessionID m) (m_TurnID m) (m_Sequence m) (m_Value m) (m_CreatedAt m) |}.

(** ** Checks *)
Definition validateAttachment (a : Attachment) : option error :=
  if bool_decide (a_ID a = "") || bool_decide (a_AgentSessionID a = "") ||
     bool_decide (a_AccessID a = 0%N) || bool_decide (a_ApplicationID a = 0%N)
  then Some (ENew "attachment ID, session, access and application are required")
  else if bool_decide (a_Protocol a = "") || bool_decide (a_Capabilities a = [])
  then Some (ENew "attachment protocol and capabilities are required")
  else match a_State a with
  | AttachmentConnected | AttachmentDisconnected | AttachmentRemoved => None
  | AttachmentStateOther n => Some (ENew ("unknown attachment state " +:+ pretty n))
  end.

Definition validateSession (s : Session) : option error :=
  if negb (SessionKind_Valid (s_Kind s)) then Some (ENew "invalid session kind")
  else if bool_decide (s_Kind s = SessionManagement) && bool_decide (s_ActiveAttachmentID s ≠ "")
  then Some (ENew "management sessions cannot have an active access attachment")
  else if bool_decide (s_ID s = "") || bool_decide (s_OrganizationID s = 0%N) || bool_decide (s_CreatedBy s = 0%N)
  then Some (ENew "session ID, organization and creator are required")
  else match s_Status s with
  | SessionActive | SessionArchived => None
  | SessionStatusOther n => Some (ENew ("unknown session status " +:+ pretty n))
  end.

(** ** The status machines *)
Definition validStepTransition (from to : StepStatus) : bool :=
  if bool_decide (from = to) then true else
  match from, to with
  | StepPending, (StepRunning | StepCancelled | StepFailed) => true
  | StepRunning, (StepWaitingApproval | StepCompleted | StepCancelled | StepFailed) => true
  | StepWaitingApproval, (StepRunning | StepCancelled | StepFailed) => true
  | _, _ => false
  end.

Definition validTurnTransition (from to : TurnStatus) : bool :=
  if bool_decide (from = to) then true else
  match from, to with
  | TurnQueued, (TurnRunning | TurnCancelled | TurnFailed) => true
  | TurnRunning, (TurnWaitingApproval | TurnCompleted | TurnCancelled | TurnFailed) => true
  | TurnWaitingApproval, (TurnRunning | TurnCancelled | TurnFailed) => true
  | _, _ => false
  end.

(** The numbers of the enumerations as the error texts print them ([%d]). *)
Definition turn_u8 (s : TurnStatus) : N :=
  match s with
  | TurnQueued => 0 | TurnRunning => 1 | TurnWaitingApproval => 2 | TurnCompleted => 3
  | TurnCancelled => 4 | TurnFailed => 5 | TurnStatusOther n => n
  end.
Definition step_u8 (s : StepStatus) : N :=
  match s with
  | StepPending => 0 | StepRunning => 1 | StepWaitingApproval => 2 | StepCompleted => 3
  | StepCancelled => 4 | StepFailed => 5 | StepStatusOther n => n
  end.

Definition versionConflict (kind id : string) : error :=
  EWrap "" ErrVersionConflict (": " +:+ kind +:+ " " +:+ id).

(** A step status that [transitionStep] stamps with a completion time. *)
Definition step_finished (s : StepStatus) : bool :=
  match s with StepCompleted | StepCancelled | StepFailed => true | _ => false end.

(** ** The Store interface

    [store.go]'s [Store] and [AttachmentStore].  Every operation reads the
    clock at most once: [now] is that reading. *)

Class Store (S : Type) := {
  CreateSession : ctx → Time → Session → Op S unit;
  CreateSessionWithAttachment : ctx → Time → Session → Attachment → Op S (Session * Attachment);
  GetSession : ctx → string → Op S Session;
  ListSessions : ctx → N → Op S (list Session);
  ArchiveSession : ctx → Time → string → N → Op S Session;
  CreateAttachment : ctx → Time → Attachment → Op S Attachment;
  GetAttachment : ctx → string → Op S Attachment;
  ListAttachments : ctx → string → Op S (list Attachment);
  UpdateAttachment : ctx → Time → Attachment → N → Op S Attachment;
  SetActiveAttachment : ctx → Time → string → string → N → Op S Session;
  StartTurn : ctx → Time → string → Turn → Op S (Session * Turn);
  GetTurn : ctx → string → Op S Turn;
  ListTurns : ctx → string → Op S (list Turn);
  TransitionTurn : ctx → Time → string → N → TurnStatus → string → string → Op S Turn;
  AppendStep : ctx → Time → string → N → Step → Op S (Turn * Step);
  GetStep : ctx → string → Op S Step;
  ListSessionSteps : ctx → string → Op S (list Step);
  CompleteStep : ctx → Time → string → string → Op S Step;
  WaitStepApproval : ctx → Time → string → Op S Step;
  ResumeStep : ctx → Time → string → Op S Step;
  CancelStep : ctx → Time → string → string → string → Op S Step;
  FailStep : ctx → Time → string → string → string → Op S Step;
  AppendMessage : ctx → Time → Message → Op S Message;
  ListMessages : ctx → string → Op S (list Message);
  ListSessionMessages : ctx → string → Op S (list Message);
  SaveToolSnapshot : ctx → Time → string → string → ToolSetSnapshot → Op S unit;
  GetToolSnapshot : ctx → string → Op S ToolSetSnapshot
}.

(** ** Facts about the machines *)

Lemma validTurnTransition_terminal from to :
  Terminal from = true → validTurnTransition from to = true → to = from.
Proof. unfold validTurnTransition. case_bool_decide; [done|]. by destruct from. Qed.

Lemma validStepTransition_finished from to :
  step_finished from = true → validStepTransition from to = true → to = from.
Proof. unfold validStepTransition. case_bool_decide; [done|]. by destruct from. Qed.

Lemma validTurnTransition_queued from : validTurnTransition from TurnQueued = true → from = TurnQueued.
Proof. unfold validTurnTransition. case_bool_decide; [done|]. by destruct from. Qed.

Lemma validateSession_None s :
  validateSession s = None →
  SessionKind_Valid (s_Kind s) = true ∧ s_ID s ≠ "" ∧ s_OrganizationID s ≠ 0%N ∧ s_CreatedBy s ≠ 0%N ∧
  (s_Kind s = SessionManagement → s_ActiveAttachmentID s = "") ∧
  (s_Status s = SessionActive ∨ s_Status s = SessionArchived).
Proof.
  unfold validateSession. intros H. go_run H; repeat split; auto;
    intros Hm; match goal with H : _ && _ = false |- _ => apply andb_false_iff in H as [?|?] end;
    bools; done.
Qed.

Lemma validateAttachment_None a :
  validateAttachment a = None →
  a_ID a ≠ "" ∧ a_AgentSessionID a ≠ "" ∧ a_AccessID a ≠ 0%N ∧ a_ApplicationID a ≠ 0%N ∧
  a_Protocol a ≠ "" ∧ a_Capabilities a ≠ [] ∧
  (a_State a = AttachmentConnected ∨ a_State a = AttachmentDisconnected ∨ a_State a = AttachmentRemoved).
Proof. unfold validateAttachment. intros H. go_run H; repeat split; auto. Qed.
