(* ===== verification/MemoryStore.v ===== *)
(** * agent/runtime: MemoryStore

    [store.go]: the in-memory [Store].  Every operation takes the store's lock
    for its whole body, so it is one atomic function of the state; the copies
    made by [cloneStep], [cloneAttachment] and [cloneToolSnapshot] are values
    here.  [now] is the reading of [store.clock]. *)

From S2P Require Import Prelude ToolTypes AgentTypes.

Record MemoryStore := mkMemory {
  sessions : gmap string Session;
  turns : gmap string Turn;
  steps : gmap string Step;
  messages : gmap string (list Message);
  snapshots : gmap string ToolSetSnapshot;
  attachments : gmap string Attachment
}.
#[global] Instance eta_MemoryStore : Eta MemoryStore := {| eta := λ s,
  mkMemory (sessions s) (turns s) (steps s) (messages s) (snapshots s) (attachments s) |}.

Definition NewMemoryStore : MemoryStore := mkMemory ∅ ∅ ∅ ∅ ∅ ∅.

Module Memory.

(** The six maps, written one entry at a time. *)
Definition put_session (k : string) (v : Session) : Op MemoryStore unit :=
  modify (λ s, s<| sessions := <[k := v]> (sessions s) |>).
Definition put_turn (k : string) (v : Turn) : Op MemoryStore unit :=
  modify (λ s, s<| turns := <[k := v]> (turns s) |>).
Definition put_step (k : string) (v : Step) : Op MemoryStore unit :=
  modify (λ s, s<| steps := <[k := v]> (steps s) |>).
Definition put_attachment (k : string) (v : Attachment) : Op MemoryStore unit :=
  modify (λ s, s<| attachments := <[k := v]> (attachments s) |>).

Definition lookup_session (id : string) : Op MemoryStore Session := λ s,
  of_option (sessions s !! id) (wrapf ErrSessionNotFound id) s.
Definition lookup_turn (id : string) : Op MemoryStore Turn := λ s,
  of_option (turns s !! id) (wrapf ErrTurnNotFound id) s.
Definition exists_in {A} (m : MemoryStore → gmap string A) (id : string) : Op MemoryStore bool :=
  gets (λ s, bool_decide (is_Some (m s !! id))).

(** ** Attachments *)
Definition default_generation (a : Attachment) : Attachment :=
  if bool_decide (a_Generation a = 0%N) then a<| a_Generation := 1%N |> else a.

Definition CreateAttachment (c : ctx) (now : Time) (a : Attachment) : Op MemoryStore Attachment :=
  check (ctx_err c) ;;
  check (validateAttachment a) ;;
  let! session := lookup_session (a_AgentSessionID a) in
  throw_if bool_decide (s_Kind session = SessionManagement)
    with ENew "management sessions cannot have access attachments" ;;
  throw_if bool_decide (s_Status session = SessionArchived)
    with wrapf ErrSessionArchived (s_ID session) ;;
  let! dup := exists_in attachments (a_ID a) in
  throw_if dup with ENew ("attachment " +:+ quote (a_ID a) +:+ " already exists") ;;
  let a := (default_generation a)<| a_CreatedAt := now |><| a_UpdatedAt := now |> in
  put_attachment (a_ID a) a ;;
  ret a.

Definition GetAttachment (c : ctx) (id : string) : Op MemoryStore Attachment :=
  check (ctx_err c) ;;
  λ s, of_option (attachments s !! id) (wrapf ErrAttachmentNotFound id) s.

Definition attachment_less (x y : Attachment) : bool :=
  if Z.eqb (a_CreatedAt x) (a_CreatedAt y) then String.ltb (a_ID x) (a_ID y)
  else Before (a_CreatedAt x) (a_CreatedAt y).

Definition ListAttachments (c : ctx) (sessionID : string) : Op MemoryStore (list Attachment) :=
  check (ctx_err c) ;;
  lookup_session sessionID ;;
  gets (λ s, sort_Slice attachment_less
    (filter (λ a, a_AgentSessionID a = sessionID) (map_to_list (attachments s)).*2)).

Definition same_binding (x y : Attachment) : bool :=
  bool_decide (a_AgentSessionID x = a_AgentSessionID y) && bool_decide (a_AccessID x = a_AccessID y) &&
  bool_decide (a_ApplicationID x = a_ApplicationID y) && bool_decide (a_Protocol x = a_Protocol y).

Definition UpdateAttachment (c : ctx) (now : Time) (a : Attachment) (expected : N) : Op MemoryStore Attachment :=
  check (ctx_err c) ;;
  check (validateAttachment a) ;;
  let! current := (λ s, of_option (attachments s !! a_ID a) (wrapf ErrAttachmentNotFound (a_ID a)) s) in
  throw_if bool_decide (a_Generation current ≠ expected) with versionConflict "attachment" (a_ID a) ;;
  throw_if negb (same_binding current a) with ENew "attachment resource binding is immutable" ;;
  throw_if bool_decide (a_State current = AttachmentRemoved)
    with EWrap "" ErrInvalidTransition (": removed attachment " +:+ a_ID a) ;;
  let a := a<| a_Generation := u64_add expected 1 |><| a_CreatedAt := a_CreatedAt current |>
            <| a_UpdatedAt := now |> in
  put_attachment (a_ID a) a ;;
  ret a.

Definition SetActiveAttachment (c : ctx) (now : Time) (sessionID attachmentID : string) (expected : N)
    : Op MemoryStore Session :=
  check (ctx_err c) ;;
  let! session := lookup_session sessionID in
  throw_if bool_decide (s_Version session ≠ expected) with versionConflict "session" sessionID ;;
  throw_if bool_decide (s_Kind session = SessionManagement) && bool_decide (attachmentID ≠ "")
    with ENew "management sessions cannot activate access attachments" ;;
  throw_if bool_decide (s_Status session = SessionArchived) with wrapf ErrSessionArchived sessionID ;;
  let! bad := gets (λ s, bool_decide (attachmentID ≠ "") &&
    match attachments s !! attachmentID with
    | None => true
    | Some a => bool_decide (a_AgentSessionID a ≠ sessionID) || bool_decide (a_State a = AttachmentRemoved)
    end) in
  throw_if bad with wrapf ErrAttachmentNotFound attachmentID ;;
  let session := session<| s_ActiveAttachmentID := attachmentID |>
    <| s_Version := u64_add (s_Version session) 1 |><| s_UpdatedAt := now |> in
  put_session sessionID session ;;
  ret session.

(** ** Sessions *)
Definition CreateSession (c : ctx) (now : Time) (session : Session) : Op MemoryStore unit :=
  check (ctx_err c) ;;
  check (validateSession session) ;;
  let! dup := exists_in sessions (s_ID session) in
  throw_if dup with ENew ("session " +:+ quote (s_ID session) +:+ " already exists") ;;
  let session := session<| s_Version := 1%N |><| s_CreatedAt := now |><| s_UpdatedAt := now |> in
  put_session (s_ID session) session.

Definition CreateSessionWithAttachment (c : ctx) (now : Time) (session : Session) (a : Attachment)
    : Op MemoryStore (Session * Attachment) :=
  throw_if bool_decide (s_Kind session = SessionManagement)
    with ENew "management sessions cannot have access attachments" ;;
  check (ctx_err c) ;;
  check (validateSession session) ;;
  throw_if bool_decide (a_AgentSessionID a ≠ s_ID session)
    with ENew "attachment session does not match session" ;;
  check (validateAttachment a) ;;
  let! dup := exists_in sessions (s_ID session) in
  throw_if dup with ENew ("session " +:+ quote (s_ID session) +:+ " already exists") ;;
  let! dup := exists_in attachments (a_ID a) in
  throw_if dup with ENew ("attachment " +:+ quote (a_ID a) +:+ " already exists") ;;
  let session := session<| s_Version := 1%N |><| s_CreatedAt := now |><| s_UpdatedAt := now |> in
  let a := default_generation (a<| a_CreatedAt := now |><| a_UpdatedAt := now |>) in
  let session := session<| s_ActiveAttachmentID := a_ID a |> in
  put_session (s_ID session) session ;;
  put_attachment (a_ID a) a ;;
  ret (session, a).

Definition GetSession (c : ctx) (id : string) : Op MemoryStore Session :=
  check (ctx_err c) ;; lookup_session id.

Definition session_less (x y : Session) : bool :=
  if Z.eqb (s_UpdatedAt x) (s_UpdatedAt y) then String.ltb (s_ID x) (s_ID y)
  else After (s_UpdatedAt x) (s_UpdatedAt y).

Definition ListSessions (c : ctx) (createdBy : N) : Op MemoryStore (list Session) :=
  check (ctx_err c) ;;
  gets (λ s, sort_Slice session_less
    (filter (λ x, createdBy = 0%N ∨ s_CreatedBy x = createdBy) (map_to_list (sessions s)).*2)).

Definition ArchiveSession (c : ctx) (now : Time) (sessionID : string) (expected : N) : Op MemoryStore Session :=
  check (ctx_err c) ;;
  let! session := lookup_session sessionID in
  throw_if bool_decide (s_Version session ≠ expected)
    with EWrap "" ErrVersionConflict (": session " +:+ sessionID) ;;
  throw_if bool_decide (s_ActiveTurnID session ≠ "")
    with EWrap "" ErrTurnAlreadyActive (": session " +:+ sessionID +:+ " has active turn " +:+ s_ActiveTurnID session) ;;
  let session := session<| s_Status := SessionArchived |>
    <| s_Version := u64_add (s_Version session) 1 |><| s_UpdatedAt := now |> in
  put_session sessionID session ;;
  ret session.

(** ** Turns *)
Definition StartTurn (c : ctx) (now : Time) (sessionID : string) (turn : Turn) : Op MemoryStore (Session * Turn) :=
  check (ctx_err c) ;;
  throw_if bool_decide (t_ID turn = "") with ENew "turn ID is required" ;;
  let! session := lookup_session sessionID in
  throw_if bool_decide (s_Status session = SessionArchived) with wrapf ErrSessionArchived sessionID ;;
  throw_if bool_decide (s_ActiveTurnID session ≠ "") with wrapf ErrTurnAlreadyActive (s_ActiveTurnID session) ;;
  let! dup := exists_in turns (t_ID turn) in
  throw_if dup with ENew ("turn " +:+ quote (t_ID turn) +:+ " already exists") ;;
  let turn := turn<| t_AgentSessionID := sessionID |><| t_Status := TurnQueued |><| t_Version := 1%N |>
    <| t_CreatedAt := now |><| t_UpdatedAt := now |> in
  let session := session<| s_ActiveTurnID := t_ID turn |>
    <| s_Version := u64_add (s_Version session) 1 |><| s_UpdatedAt := now |> in
  put_turn (t_ID turn) turn ;;
  put_session sessionID session ;;
  ret (session, turn).

Definition GetTurn (c : ctx) (id : string) : Op MemoryStore Turn :=
  check (ctx_err c) ;; lookup_turn id.

Definition turn_less (x y : Turn) : bool :=
  if Z.eqb (t_CreatedAt x) (t_CreatedAt y) then String.ltb (t_ID x) (t_ID y)
  else Before (t_CreatedAt x) (t_CreatedAt y).

Definition ListTurns (c : ctx) (sessionID : string) : Op MemoryStore (list Turn) :=
  check (ctx_err c) ;;
  lookup_session sessionID ;;
  gets (λ s, sort_Slice turn_less
    (filter (λ t, t_AgentSessionID t = sessionID) (map_to_list (turns s)).*2)).

(** The turn a valid transition leaves. *)
Definition transitioned (turn : Turn) (now : Time) (to : TurnStatus) (code message : string) : Turn :=
  let turn := turn<| t_Status := to |><| t_ErrorCode := code |><| t_ErrorMessage := message |>
    <| t_Version := u64_add (t_Version turn) 1 |><| t_UpdatedAt := now |> in
  let turn := if bool_decide (to = TurnRunning) && IsZero (t_StartedAt turn)
    then turn<| t_StartedAt := now |> else turn in
  if Terminal to then turn<| t_CompletedAt := Some now |> else turn.

(** A terminal turn gives its session's slot back. *)
Definition release_session (turn : Turn) (now : Time) : Op MemoryStore unit :=
  let! session := gets (λ s, default zero_Session (sessions s !! t_AgentSessionID turn)) in
  if bool_decide (s_ActiveTurnID session = t_ID turn) then
    put_session (s_ID session) (session<| s_ActiveTurnID := "" |>
      <| s_Version := u64_add (s_Version session) 1 |><| s_UpdatedAt := now |>)
  else ret tt.

Definition TransitionTurn (c : ctx) (now : Time) (turnID : string) (expected : N) (to : TurnStatus)
    (code message : string) : Op MemoryStore Turn :=
  check (ctx_err c) ;;
  let! turn := lookup_turn turnID in
  throw_if bool_decide (t_Version turn ≠ expected) with EWrap "" ErrVersionConflict (": turn " +:+ turnID) ;;
  throw_if negb (validTurnTransition (t_Status turn) to)
    with EWrap "" ErrInvalidTransition (": turn " +:+ turnID +:+ " from " +:+ pretty (turn_u8 (t_Status turn))
      +:+ " to " +:+ pretty (turn_u8 to)) ;;
  let turn := transitioned turn now to code message in
  (if Terminal to then release_session turn now else ret tt) ;;
  put_turn turnID turn ;;
  ret turn.

(** ** Steps *)
Definition nextStepSequence (turnID : string) (s : MemoryStore) : N :=
  foldl (λ next st, if bool_decide (st_TurnID st = turnID) && N.leb next (st_Sequence st)
                    then u32_add (st_Sequence st) 1 else next)
    1%N (map_to_list (steps s)).*2.

Definition appended (step : Step) (turnID : string) (sequence : N) (now : Time) : Step :=
  let step := step<| st_TurnID := turnID |><| st_Sequence := sequence |><| st_Version := 1%N |>
    <| st_CreatedAt := now |><| st_UpdatedAt := now |> in
  if bool_decide (st_Status step = StepRunning) then step<| st_StartedAt := Some now |> else step.

Definition AppendStep (c : ctx) (now : Time) (turnID : string) (expected : N) (step : Step)
    : Op MemoryStore (Turn * Step) :=
  check (ctx_err c) ;;
  throw_if bool_decide (st_ID step = "") with ENew "step ID is required" ;;
  let! turn := lookup_turn turnID in
  throw_if bool_decide (t_Version turn ≠ expected) with EWrap "" ErrVersionConflict (": turn " +:+ turnID) ;;
  throw_if Terminal (t_Status turn)
    with EWrap "" ErrInvalidTransition (": cannot append to terminal turn " +:+ turnID) ;;
  let! dup := exists_in steps (st_ID step) in
  throw_if dup with ENew ("step " +:+ quote (st_ID step) +:+ " already exists") ;;
  let! sequence := gets (nextStepSequence turnID) in
  let step := appended step turnID sequence now in
  let turn := turn<| t_ActiveStepID := st_ID step |><| t_Version := u64_add (t_Version turn) 1 |>
    <| t_UpdatedAt := now |> in
  put_step (st_ID step) step ;;
  put_turn turnID turn ;;
  ret (turn, step).

Definition moved (step : Step) (now : Time) (to : StepStatus) (output : string) : Step :=
  let step := step<| st_Status := to |><| st_Version := u64_add (st_Version step) 1 |><| st_UpdatedAt := now |> in
  let step := if bool_decide (output ≠ "") then step<| st_Output := output |> else step in
  if step_finished to then step<| st_CompletedAt := Some now |> else step.

Definition transitionStep (c : ctx) (now : Time) (stepID : string) (to : StepStatus) (output : string)
    : Op MemoryStore Step :=
  check (ctx_err c) ;;
  let! step := (λ s, of_option (steps s !! stepID) (wrapf ErrStepNotFound stepID) s) in
  throw_if negb (validStepTransition (st_Status step) to)
    with EWrap "" ErrInvalidTransition (": step " +:+ stepID +:+ " from " +:+ pretty (step_u8 (st_Status step))
      +:+ " to " +:+ pretty (step_u8 to)) ;;
  let step := moved step now to output in
  put_step stepID step ;;
  ret step.

(** [finishStep] takes the lock a second time to write the error fields; the
    step is there, since the transition just stored it. *)
Definition finishStep (c : ctx) (now : Time) (stepID : string) (status : StepStatus) (code message : string)
    : Op MemoryStore Step :=
  let! stored := transitionStep c now stepID status "" in
  let! current := gets (λ s, default stored (steps s !! stepID)) in
  let current := current<| st_ErrorCode := code |><| st_ErrorMessage := message |> in
  put_step stepID current ;;
  ret current.

Definition CompleteStep (c : ctx) (now : Time) (stepID output : string) : Op MemoryStore Step :=
  transitionStep c now stepID StepCompleted output.
Definition WaitStepApproval (c : ctx) (now : Time) (stepID : string) : Op MemoryStore Step :=
  transitionStep c now stepID StepWaitingApproval "".
Definition ResumeStep (c : ctx) (now : Time) (stepID : string) : Op MemoryStore Step :=
  transitionStep c now stepID StepRunning "".
Definition CancelStep (c : ctx) (now : Time) (stepID code message : string) : Op MemoryStore Step :=
  finishStep c now stepID StepCancelled code message.
Definition FailStep (c : ctx) (now : Time) (stepID code message : string) : Op MemoryStore Step :=
  finishStep c now stepID StepFailed code message.

Definition GetStep (c : ctx) (stepID : string) : Op MemoryStore Step :=
  check (ctx_err c) ;;
  λ s, of_option (steps s !! stepID) (wrapf ErrStepNotFound stepID) s.

Definition step_less (x y : Step) : bool :=
  if Z.eqb (st_CreatedAt x) (st_CreatedAt y) then
    if bool_decide (st_TurnID x = st_TurnID y) then N.ltb (st_Sequence x) (st_Sequence y)
    else String.ltb (st_TurnID x) (st_TurnID y)
  else Before (st_CreatedAt x) (st_CreatedAt y).

Definition turn_ids (sessionID : string) (s : MemoryStore) : gset string :=
  list_to_set (t_ID <$> filter (λ t, t_AgentSessionID t = sessionID) (map_to_list (turns s)).*2).

Definition ListSessionSteps (c : ctx) (sessionID : string) : Op MemoryStore (list Step) :=
  check (ctx_err c) ;;
  lookup_session sessionID ;;
  gets (λ s, sort_Slice step_less
    (filter (λ st, st_TurnID st ∈ turn_ids sessionID s) (map_to_list (steps s)).*2)).

(** ** Messages and snapshots *)
Definition AppendMessage (c : ctx) (now : Time) (message : Message) : Op MemoryStore Message :=
  check (ctx_err c) ;;
  throw_if bool_decide (m_ID message = "") || bool_decide (m_AgentSessionID message = "") ||
    bool_decide (m_TurnID message = "") with ENew "message ID, session and turn are required" ;;
  let! stored := gets (λ s, default [] (messages s !! m_TurnID message)) in
  throw_if existsb (λ m, bool_decide (m_ID m = m_ID message)) stored
    with ENew ("message " +:+ quote (m_ID message) +:+ " already exists") ;;
  let message := message<| m_Sequence := (N.of_nat (length stored + 1) `mod` u32_max)%N |><| m_CreatedAt := now |> in
  modify (λ s, s<| messages := <[m_TurnID message := stored ++ [message]]> (messages s) |>) ;;
  ret message.

Definition ListMessages (c : ctx) (turnID : string) : Op MemoryStore (list Message) :=
  check (ctx_err c) ;;
  gets (λ s, default [] (messages s !! turnID)).

Definition message_less (x y : Message) : bool :=
  if Z.eqb (m_CreatedAt x) (m_CreatedAt y) then
    if bool_decide (m_TurnID x = m_TurnID y) then N.ltb (m_Sequence x) (m_Sequence y)
    else String.ltb (m_TurnID x) (m_TurnID y)
  else Before (m_CreatedAt x) (m_CreatedAt y).

Definition ListSessionMessages (c : ctx) (sessionID : string) : Op MemoryStore (list Message) :=
  check (ctx_err c) ;;
  lookup_session sessionID ;;
  gets (λ s, sort_Slice message_less
    (filter (λ m, m_AgentSessionID m = sessionID) (mjoin (map_to_list (messages s)).*2))).

Definition SaveToolSnapshot (c : ctx) (now : Time) (turnID modelStepID : string) (snapshot : ToolSetSnapshot)
    : Op MemoryStore unit :=
  check (ctx_err c) ;;
  throw_if bool_decide (turnID = "") || bool_decide (modelStepID = "") || bool_decide (ss_ID snapshot = "")
    with ENew "turn, model step and snapshot IDs are required" ;;
  let! dup := exists_in snapshots (ss_ID snapshot) in
  throw_if dup with ENew ("tool snapshot " +:+ quote (ss_ID snapshot) +:+ " already exists") ;;
  modify (λ s, s<| snapshots := <[ss_ID snapshot := snapshot]> (snapshots s) |>).

Definition GetToolSnapshot (c : ctx) (id : string) : Op MemoryStore ToolSetSnapshot :=
  check (ctx_err c) ;;
  λ s, of_option (snapshots s !! id) (ENew ("tool snapshot " +:+ quote id +:+ " not found")) s.

End Memory.

#[global] Instance memory_store : Store MemoryStore := {|
  CreateSession := Memory.CreateSession;
  CreateSessionWithAttachment := Memory.CreateSessionWithAttachment;
  GetSession := Memory.GetSession;
  ListSessions := Memory.ListSessions;
  ArchiveSession := Memory.ArchiveSession;
  CreateAttachment := Memory.CreateAttachment;
  GetAttachment := Memory.GetAttachment;
  ListAttachments := Memory.ListAttachments;
  UpdateAttachment := Memory.UpdateAttachment;
  SetActiveAttachment := Memory.SetActiveAttachment;
  StartTurn := Memory.StartTurn;
  GetTurn := Memory.GetTurn;
  ListTurns := Memory.ListTurns;
  TransitionTurn := Memory.TransitionTurn;
  AppendStep := Memory.AppendStep;
  GetStep := Memory.GetStep;
  ListSessionSteps := Memory.ListSessionSteps;
  CompleteStep := Memory.CompleteStep;
  WaitStepApproval := Memory.WaitStepApproval;
  ResumeStep := Memory.ResumeStep;
  CancelStep := Memory.CancelStep;
  FailStep := Memory.FailStep;
  AppendMessage := Memory.AppendMessage;
  ListMessages := Memory.ListMessages;
  ListSessionMessages := Memory.ListSessionMessages;
  SaveToolSnapshot := Memory.SaveToolSnapshot;
  GetToolSnapshot := Memory.GetToolSnapshot
|}.
