(* ===== verification/MemoryInvariant.v ===== *)
(** * MemoryStore: the invariant of the store

    [wf] collects what the runtime relies on: records sit under their own
    identifier, references between the maps resolve, a session has at most one
    unfinished turn and knows it, steps of a turn have distinct sequence
    numbers, messages of a turn are numbered consecutively, and management
    sessions own no access attachment.  Every operation keeps it. *)

From S2P Require Import Prelude ToolTypes AgentTypes MemoryStore.

Create Rewrite HintDb store.

Record wf (s : MemoryStore) : Prop := {
  wf_session_key k x : sessions s !! k = Some x → s_ID x = k;
  wf_turn_key k t : turns s !! k = Some t → t_ID t = k ∧ k ≠ "";
  wf_turn_session k t : turns s !! k = Some t → is_Some (sessions s !! t_AgentSessionID t);
  wf_active k x : sessions s !! k = Some x → s_ActiveTurnID x ≠ "" →
    ∃ t, turns s !! s_ActiveTurnID x = Some t ∧ t_AgentSessionID t = k ∧ Terminal (t_Status t) = false;
  wf_open k t : turns s !! k = Some t → Terminal (t_Status t) = false →
    ∃ x, sessions s !! t_AgentSessionID t = Some x ∧ s_ActiveTurnID x = k;
  wf_archived k x : sessions s !! k = Some x → s_Status x = SessionArchived → s_ActiveTurnID x = "";
  wf_step k st : steps s !! k = Some st →
    st_ID st = k ∧ is_Some (turns s !! st_TurnID st) ∧ (1 ≤ st_Sequence st)%N;
  wf_step_sequence k1 k2 x y : steps s !! k1 = Some x → steps s !! k2 = Some y →
    st_TurnID x = st_TurnID y → st_Sequence x = st_Sequence y → k1 = k2;
  wf_attachment k a : attachments s !! k = Some a →
    a_ID a = k ∧ ∃ x, sessions s !! a_AgentSessionID a = Some x ∧ s_Kind x ≠ SessionManagement;
  wf_management k x : sessions s !! k = Some x → s_Kind x = SessionManagement → s_ActiveAttachmentID x = "";
  wf_messages k l : messages s !! k = Some l →
    NoDup (m_ID <$> l) ∧
    ∀ i m, l !! i = Some m → m_TurnID m = k ∧ m_Sequence m = (N.of_nat (i + 1) `mod` u32_max)%N;
  wf_snapshots k ss : snapshots s !! k = Some ss → ss_ID ss = k
}.

(** Splits a lookup in an updated map into the new entry and the old ones. *)
Ltac map_cases :=
  repeat match goal with
  | H : <[_ := _]> _ !! _ = Some _ |- _ =>
      apply lookup_insert_Some in H as [[? ?]|[? ?]]; simplify_eq/=
  end.

Lemma insert_is_Some {A} (m : gmap string A) i j x : is_Some (m !! j) → is_Some (<[i := x]> m !! j).
Proof. intros H. apply lookup_insert_is_Some'. by right. Qed.
#[local] Hint Resolve insert_is_Some : core.
#[local] Hint Extern 1 (is_Some (<[?i := _]> _ !! ?i)) => rewrite lookup_insert_eq; eexists; reflexivity : core.

Lemma wf_init : wf NewMemoryStore.
Proof. split; simpl; intros; by simplify_map_eq. Qed.

Section Updates.
Context (s : MemoryStore) (Hs : wf s).

(** A session rewritten in place: same identity, kind and active turn. *)
Lemma wf_touch_session k x x' :
  sessions s !! k = Some x → s_ID x' = k → s_Kind x' = s_Kind x →
  s_ActiveTurnID x' = s_ActiveTurnID x →
  (s_Kind x' = SessionManagement → s_ActiveAttachmentID x' = "") →
  (s_Status x' = SessionArchived → s_ActiveTurnID x' = "") →
  wf (s<| sessions := <[k := x']> (sessions s) |>).
Proof using Hs.
  intros Hx Hid Hkind Hact Hman Harch. destruct Hs. split; simpl; eauto.
  - intros k' y Hy. map_cases; eauto.
  - intros k' y Hy Hne. map_cases; [|eauto]. rewrite Hact in *. eauto.
  - intros k' t Ht Hter. destruct (wf_open0 _ _ Ht Hter) as (y & Hy & Hay).
    destruct (decide (t_AgentSessionID t = k)) as [<-|Hne].
    + exists x'. rewrite lookup_insert_eq. split; [done|]. congruence.
    + exists y. by rewrite lookup_insert_ne by done.
  - intros k' y Hy. map_cases; eauto.
  - intros k' a Ha. destruct (wf_attachment0 _ _ Ha) as (? & y & Hy & Hk). split; [done|].
    destruct (decide (a_AgentSessionID a = k)) as [<-|Hne].
    + exists x'. rewrite lookup_insert_eq. split; [done|]. congruence.
    + exists y. by rewrite lookup_insert_ne by done.
  - intros k' y Hy. map_cases; eauto.
Qed.

Lemma wf_add_session k x :
  sessions s !! k = None → s_ID x = k → s_ActiveTurnID x = "" →
  (s_Kind x = SessionManagement → s_ActiveAttachmentID x = "") →
  wf (s<| sessions := <[k := x]> (sessions s) |>).
Proof using Hs.
  intros Hnone Hid Hact Hman. destruct Hs. split; simpl; eauto.
  - intros k' y Hy. map_cases; eauto.
  - intros k' y Hy Hne. map_cases; try done; eauto.
  - intros k' t Ht Hter. destruct (wf_open0 _ _ Ht Hter) as (y & Hy & Hay). exists y.
    by rewrite lookup_insert_ne by (intros ->; congruence).
  - intros k' y Hy. map_cases; eauto.
  - intros k' a Ha. destruct (wf_attachment0 _ _ Ha) as (? & y & Hy & Hk). split; [done|]. exists y.
    by rewrite lookup_insert_ne by (intros ->; congruence).
  - intros k' y Hy. map_cases; eauto.
Qed.

Lemma wf_put_attachment k a x :
  a_ID a = k → sessions s !! a_AgentSessionID a = Some x → s_Kind x ≠ SessionManagement →
  wf (s<| attachments := <[k := a]> (attachments s) |>).
Proof using Hs.
  intros Hid Hx Hk. destruct Hs. split; simpl; eauto.
  intros k' b Hb. map_cases; eauto.
Qed.

(** A turn rewritten in place: same identity, same session, finished as before. *)
Lemma wf_touch_turn k t t' :
  turns s !! k = Some t → t_ID t' = t_ID t → t_AgentSessionID t' = t_AgentSessionID t →
  Terminal (t_Status t') = Terminal (t_Status t) →
  wf (s<| turns := <[k := t']> (turns s) |>).
Proof using Hs.
  intros Ht Hid Hses Hter. destruct Hs. split; simpl; eauto.
  - intros k' u Hu. map_cases; [|eauto]. rewrite Hid. eauto.
  - intros k' u Hu. map_cases; [|eauto]. rewrite Hses. eauto.
  - intros k' x Hx Hne. destruct (wf_active0 _ _ Hx Hne) as (u & Hu & Hk & Hn).
    destruct (decide (s_ActiveTurnID x = k)) as [<-|Hd].
    + exists t'. rewrite lookup_insert_eq. split; [done|]. split; congruence.
    + exists u. by rewrite lookup_insert_ne by done.
  - intros k' u Hu Hn. map_cases; [|eauto]. rewrite Hses. rewrite Hter in Hn. eauto.
  - intros k' st Hst. destruct (wf_step0 _ _ Hst) as (? & ? & ?). eauto.
Qed.

(** A new turn and the session that points at it. *)
Lemma wf_start_turn sid k x x' t :
  t_ID t = k → sessions s !! sid = Some x → s_ActiveTurnID x = "" → s_Status x ≠ SessionArchived →
  s_ID x' = sid → s_Kind x' = s_Kind x → s_Status x' = s_Status x →
  s_ActiveAttachmentID x' = s_ActiveAttachmentID x → s_ActiveTurnID x' = k →
  turns s !! k = None → k ≠ "" → t_AgentSessionID t = sid → Terminal (t_Status t) = false →
  wf (mkMemory (<[sid := x']> (sessions s)) (<[k := t]> (turns s)) (steps s) (messages s)
    (snapshots s) (attachments s)).
Proof using Hs.
  intros <- Hx Hno Harch Hid Hkind Hst Hatt Hact Hnone Hne Hses Hter. destruct Hs. split; simpl; eauto.
  - intros k y Hy. map_cases; eauto.
  - intros k u Hu. map_cases; eauto.
  - intros k u Hu. map_cases; [rewrite Hses|]; eauto.
  - intros k y Hy Hn. map_cases.
    + exists t. rewrite Hact, lookup_insert_eq. eauto.
    + destruct (wf_active0 _ _ H0 Hn) as (u & Hu & Hk & Hd). exists u.
      by rewrite lookup_insert_ne by (intros ?; congruence).
  - intros k u Hu Hn. map_cases.
    + exists x'. rewrite ?Hses, lookup_insert_eq. eauto.
    + destruct (wf_open0 _ _ H0 Hn) as (y & Hy & Hay). exists y.
      rewrite lookup_insert_ne; [done|]. intros Heq. rewrite <- Heq in Hy. simplify_eq.
      destruct (wf_turn_key0 _ _ H0). congruence.
  - intros k y Hy. map_cases; [congruence|eauto].
  - intros k st Hst'. destruct (wf_step0 _ _ Hst') as (? & ? & ?). eauto.
  - intros k a Ha. destruct (wf_attachment0 _ _ Ha) as (? & y & Hy & Hk). split; [done|].
    destruct (decide (a_AgentSessionID a = sid)) as [Heq|Hd].
    + exists x'. rewrite Heq, lookup_insert_eq. split; [done|]. congruence.
    + exists y. by rewrite lookup_insert_ne by done.
  - intros k y Hy. map_cases; [|eauto]. rewrite Hkind, Hatt. eauto.
Qed.

(** A turn that finishes, and its session that forgets it. *)
Lemma wf_finish_turn k t t' x x' :
  turns s !! k = Some t → Terminal (t_Status t) = false → Terminal (t_Status t') = true →
  t_ID t' = k → t_AgentSessionID t' = t_AgentSessionID t →
  sessions s !! t_AgentSessionID t = Some x →
  s_ID x' = s_ID x → s_Kind x' = s_Kind x → s_ActiveAttachmentID x' = s_ActiveAttachmentID x →
  s_ActiveTurnID x' = "" →
  wf (mkMemory (<[t_AgentSessionID t := x']> (sessions s)) (<[k := t']> (turns s)) (steps s)
    (messages s) (snapshots s) (attachments s)).
Proof using Hs.
  intros Ht Hopen Hter Hid Hses Hx Hxid Hkind Hatt Hact. destruct Hs.
  destruct (wf_open0 _ _ Ht Hopen) as (y0 & Hy0 & Hay0). simplify_eq.
  split; simpl; eauto.
  - intros k' y Hy. map_cases; try rewrite Hxid; eauto.
  - intros k' u Hu. map_cases; [|eauto]. split; [done|]. by eapply wf_turn_key0.
  - intros k' u Hu. map_cases; try rewrite Hses; eauto.
  - intros k' y Hy Hn. map_cases; try done.
    destruct (wf_active0 _ _ H0 Hn) as (u & Hu & Hk & Hd). exists u.
    rewrite lookup_insert_ne; [done|]. intros Heq. rewrite <- Heq in Hu. simplify_eq.
  - intros k' u Hu Hn. map_cases; [congruence|].
    destruct (wf_open0 _ _ H0 Hn) as (y & Hy & Hay). exists y.
    rewrite lookup_insert_ne; [done|]. intros Heq. rewrite <- Heq in Hy. simplify_eq.
  - intros k' y Hy. map_cases; eauto.
  - intros k' st Hst. destruct (wf_step0 _ _ Hst) as (? & ? & ?). eauto.
  - intros k' a Ha. destruct (wf_attachment0 _ _ Ha) as (? & y & Hy & Hk). split; [done|].
    destruct (decide (t_AgentSessionID t = a_AgentSessionID a)) as [Heq|Hd].
    + exists x'. rewrite Heq, lookup_insert_eq. split; [done|]. congruence.
    + exists y. by rewrite lookup_insert_ne by done.
  - intros k' y Hy. map_cases; [|eauto]. rewrite Hkind, Hatt. eauto.
Qed.

Lemma wf_touch_step k st st' :
  steps s !! k = Some st → st_ID st' = st_ID st → st_TurnID st' = st_TurnID st →
  st_Sequence st' = st_Sequence st → wf (s<| steps := <[k := st']> (steps s) |>).
Proof using Hs.
  intros Hst Hid Htid Hseq. destruct Hs. split; simpl; eauto.
  - intros k' u Hu. map_cases; [|eauto]. rewrite Hid, Htid, Hseq. eauto.
  - intros k1 k2 u v Hu Hv. map_cases; rewrite ?Htid, ?Hseq; intros; eauto.
Qed.

Lemma wf_add_step k st :
  steps s !! k = None → st_ID st = k → is_Some (turns s !! st_TurnID st) → (1 ≤ st_Sequence st)%N →
  (∀ k' st', steps s !! k' = Some st' → st_TurnID st' = st_TurnID st → (st_Sequence st' < st_Sequence st)%N) →
  wf (s<| steps := <[k := st]> (steps s) |>).
Proof using Hs.
  intros Hnone Hid Ht H1 Hlt. destruct Hs. split; simpl; eauto.
  - intros k' u Hu. map_cases; eauto.
  - intros k1 k2 u v Hu Hv Htid Hseq. map_cases; eauto.
    all: pose proof (Hlt _ _ H0 ltac:(congruence)); lia.
Qed.

Lemma wf_add_message k m l :
  l = default [] (messages s !! k) → m_TurnID m = k → m_ID m ∉ m_ID <$> l →
  m_Sequence m = (N.of_nat (length l + 1) `mod` u32_max)%N →
  wf (s<| messages := <[k := l ++ [m]]> (messages s) |>).
Proof using Hs.
  intros Hl Hid Hnew Hseq. destruct Hs. split; simpl; eauto.
  assert (NoDup (m_ID <$> l) ∧ ∀ i m', l !! i = Some m' →
    m_TurnID m' = k ∧ m_Sequence m' = (N.of_nat (i + 1) `mod` u32_max)%N) as [Hnd Hall].
  { subst l. destruct (messages s !! k) eqn:E; simpl; [eauto|]. split; [constructor|done]. }
  clear Hl. intros k' l' Hl'. map_cases; [|eauto]. split.
  - rewrite fmap_app, NoDup_app. split; [done|]. split; [|apply NoDup_singleton].
    intros x Hx Hx'%list_elem_of_singleton. by subst.
  - intros i m' Hi. apply lookup_app_Some in Hi as [Hi|[Hge Hi]]; [eauto|].
    apply list_lookup_singleton_Some in Hi as [Hi ->]. split; [done|].
    by replace (i + 1) with (length l + 1) by lia.
Qed.

Lemma wf_add_snapshot k ss : ss_ID ss = k → wf (s<| snapshots := <[k := ss]> (snapshots s) |>).
Proof using Hs. intros Hid. destruct Hs. split; simpl; eauto. intros k' y Hy. map_cases; eauto. Qed.
End Updates.

(** ** Step sequence numbers *)

(** The turn has room for one more [uint32] sequence number. *)
Definition room (s : MemoryStore) (turnID : string) : Prop :=
  ∀ k st, steps s !! k = Some st → st_TurnID st = turnID → (st_Sequence st + 1 < u32_max)%N.

Lemma next_sequence_fold turnID (l : list Step) n :
  (∀ st, st ∈ l → st_TurnID st = turnID → (st_Sequence st + 1 < u32_max)%N) →
  let r := foldl (λ next st, if bool_decide (st_TurnID st = turnID) && N.leb next (st_Sequence st)
                             then u32_add (st_Sequence st) 1 else next) n l in
  (n ≤ r)%N ∧ (∀ st, st ∈ l → st_TurnID st = turnID → (st_Sequence st < r)%N) ∧
  (r = n ∨ ∃ st, st ∈ l ∧ st_TurnID st = turnID ∧ r = (st_Sequence st + 1)%N).
Proof.
  revert n. induction l as [|x l IH]; intros n Hroom; simpl.
  { split; [lia|]. split; [by intros ? ?%elem_of_nil|by left]. }
  set (n' := if _ && _ then _ else n).
  assert ((n ≤ n')%N ∧ (st_TurnID x = turnID → (st_Sequence x < n')%N) ∧
    (n' = n ∨ st_TurnID x = turnID ∧ n' = (st_Sequence x + 1)%N)) as (H1 & H2 & H3).
  { subst n'. case_bool_decide as Hx; simpl; [|split_and!; [lia|done|by left]].
    destruct (N.leb_spec n (st_Sequence x)); [|split_and!; [lia|done|by left]].
    unfold u32_add. rewrite N.mod_small by (apply Hroom; [left|done]).
    split_and!; [lia|lia|by right]. }
  destruct (IH n') as (I1 & I2 & I3). { intros; apply Hroom; [by right|done]. }
  split; [lia|]. split.
  - intros st [->|Hst]%elem_of_cons Ht; [|by apply I2]. specialize (H2 Ht). lia.
  - destruct I3 as [->|(st & Hin & Ht & ->)]; [|right; exists st; split; [by right|done]].
    destruct H3 as [->|[Ht ->]]; [by left|]. right. exists x. split; [left|done].
Qed.

Lemma elem_of_values {A} (m : gmap string A) x : x ∈ (map_to_list m).*2 ↔ ∃ k, m !! k = Some x.
Proof.
  rewrite list_elem_of_fmap. split.
  - intros ([k y] & -> & Hin%elem_of_map_to_list). eauto.
  - intros [k Hk]. exists (k, x). split; [done|]. by apply elem_of_map_to_list.
Qed.

Lemma nextStepSequence_spec s turnID :
  room s turnID →
  let r := Memory.nextStepSequence turnID s in
  (1 ≤ r)%N ∧
  (∀ k st, steps s !! k = Some st → st_TurnID st = turnID → (st_Sequence st < r)%N) ∧
  (r = 1%N ∨ ∃ k st, steps s !! k = Some st ∧ st_TurnID st = turnID ∧ r = (st_Sequence st + 1)%N).
Proof.
  intros Hroom. destruct (next_sequence_fold turnID (map_to_list (steps s)).*2 1) as (H1 & H2 & H3).
  { intros st [k Hk]%elem_of_values. eauto. }
  split; [done|]. split.
  - intros k st Hk. apply H2, elem_of_values. eauto.
  - destruct H3 as [?|(st & [k Hk]%elem_of_values & ? & ?)]; [by left|right; eauto].
Qed.

(** ** Every operation keeps the invariant *)

Inductive mutation :=
| OCreateSession (now : Time) (x : Session)
| OCreateSessionWithAttachment (now : Time) (x : Session) (a : Attachment)
| OArchiveSession (now : Time) (id : string) (v : N)
| OCreateAttachment (now : Time) (a : Attachment)
| OUpdateAttachment (now : Time) (a : Attachment) (g : N)
| OSetActiveAttachment (now : Time) (id aid : string) (v : N)
| OStartTurn (now : Time) (id : string) (t : Turn)
| OTransitionTurn (now : Time) (id : string) (v : N) (to : TurnStatus) (code msg : string)
| OAppendStep (now : Time) (id : string) (v : N) (st : Step)
| OCompleteStep (now : Time) (id output : string)
| OWaitStepApproval (now : Time) (id : string)
| OResumeStep (now : Time) (id : string)
| OCancelStep (now : Time) (id code msg : string)
| OFailStep (now : Time) (id code msg : string)
| OAppendMessage (now : Time) (m : Message)
| OSaveToolSnapshot (now : Time) (tid sid : string) (ss : ToolSetSnapshot).

(** A call of the [Store] interface, its result dropped. *)
Definition exec {S} `{Store S} (c : ctx) (m : mutation) : Op S unit :=
  match m with
  | OCreateSession now x => CreateSession c now x
  | OCreateSessionWithAttachment now x a => CreateSessionWithAttachment c now x a ;; ret tt
  | OArchiveSession now id v => ArchiveSession c now id v ;; ret tt
  | OCreateAttachment now a => CreateAttachment c now a ;; ret tt
  | OUpdateAttachment now a g => UpdateAttachment c now a g ;; ret tt
  | OSetActiveAttachment now id aid v => SetActiveAttachment c now id aid v ;; ret tt
  | OStartTurn now id t => StartTurn c now id t ;; ret tt
  | OTransitionTurn now id v to code msg => TransitionTurn c now id v to code msg ;; ret tt
  | OAppendStep now id v st => AppendStep c now id v st ;; ret tt
  | OCompleteStep now id out => CompleteStep c now id out ;; ret tt
  | OWaitStepApproval now id => WaitStepApproval c now id ;; ret tt
  | OResumeStep now id => ResumeStep c now id ;; ret tt
  | OCancelStep now id code msg => CancelStep c now id code msg ;; ret tt
  | OFailStep now id code msg => FailStep c now id code msg ;; ret tt
  | OAppendMessage now m => AppendMessage c now m ;; ret tt
  | OSaveToolSnapshot now tid sid ss => SaveToolSnapshot c now tid sid ss
  end.

(** What the callers of the store guarantee: a new session has no active turn
    (the store copies the field as given), and a turn has fewer than 2^32 - 1
    steps. *)
Definition admissible (s : MemoryStore) (m : mutation) : Prop :=
  match m with
  | OCreateSession _ x | OCreateSessionWithAttachment _ x _ => s_ActiveTurnID x = ""
  | OAppendStep _ id _ _ => room s id
  | _ => True
  end.

Ltac unfold_memory :=
  unfold Memory.lookup_session, Memory.lookup_turn, Memory.exists_in, Memory.put_session,
    Memory.put_turn, Memory.put_step, Memory.put_attachment in *.

Ltac memory_run H := unfold_memory; go_run H.

Lemma default_generation_id a : a_ID (Memory.default_generation a) = a_ID a.
Proof. unfold Memory.default_generation. by case_match. Qed.
Lemma default_generation_session a :
  a_AgentSessionID (Memory.default_generation a) = a_AgentSessionID a.
Proof. unfold Memory.default_generation. by case_match. Qed.
#[export] Hint Rewrite default_generation_id default_generation_session : store.

Section Preserve.
Context (c : ctx) (s : MemoryStore) (Hs : wf s).

Lemma wf_CreateSession now x r s' :
  s_ActiveTurnID x = "" → Memory.CreateSession c now x s = (r, s') → wf s'.
Proof using Hs.
  intros Hact H. unfold Memory.CreateSession in H. memory_run H; try done.
  match goal with H : validateSession _ = None |- _ => apply validateSession_None in H end.
  destruct_and!. apply wf_add_session; simpl; try done. by apply eq_None_not_Some.
Qed.

Lemma wf_CreateSessionWithAttachment now x a r s' :
  s_ActiveTurnID x = "" → Memory.CreateSessionWithAttachment c now x a s = (r, s') → wf s'.
Proof using Hs.
  intros Hact H. unfold Memory.CreateSessionWithAttachment in H.
  memory_run H; try done. autorewrite with store. simpl.
  match goal with H : validateSession _ = None |- _ => apply validateSession_None in H end.
  destruct_and!.
  match goal with |- wf (mkMemory (<[?k := ?y]> _) _ _ _ _ (<[?j := ?b]> _)) =>
      assert (wf (s<| sessions := <[k := y]> (sessions s) |>)) as Hs1
        by (apply wf_add_session; simpl;
            first [done|by apply eq_None_not_Some|intros ?; congruence]);
      apply (wf_put_attachment _ Hs1 j b y); autorewrite with store; simpl;
        first [done|match goal with H : a_AgentSessionID a = _ |- _ => rewrite H end;
                    by rewrite lookup_insert_eq]
  end.
Qed.

Lemma wf_ArchiveSession now id v r s' : Memory.ArchiveSession c now id v s = (r, s') → wf s'.
Proof using Hs.
  intros H. unfold Memory.ArchiveSession in H. memory_run H; try done.
  eapply wf_touch_session; simpl; eauto using wf_session_key, wf_management.
Qed.

Lemma wf_CreateAttachment now a r s' : Memory.CreateAttachment c now a s = (r, s') → wf s'.
Proof using Hs.
  intros H. unfold Memory.CreateAttachment in H. memory_run H; try done.
  eapply wf_put_attachment; simpl; autorewrite with store; eauto.
Qed.

Lemma wf_UpdateAttachment now a g r s' : Memory.UpdateAttachment c now a g s = (r, s') → wf s'.
Proof using Hs.
  intros H. unfold Memory.UpdateAttachment, Memory.same_binding in H. memory_run H; try done.
  match goal with H : attachments s !! _ = Some _ |- _ =>
    destruct (wf_attachment _ Hs _ _ H) as (? & y & Hy & Hk) end.
  eapply wf_put_attachment; simpl; [done|done| |exact Hk]. congruence.
Qed.

Lemma wf_SetActiveAttachment now id aid v r s' :
  Memory.SetActiveAttachment c now id aid v s = (r, s') → wf s'.
Proof using Hs.
  intros H. unfold Memory.SetActiveAttachment in H. memory_run H; try done.
  all: eapply wf_touch_session; simpl; eauto using wf_session_key, wf_archived.
  all: intros Hm; rewrite Hm, bool_decide_eq_true_2 in * by done; simpl in *; by bools.
Qed.

Lemma wf_StartTurn now id t r s' : Memory.StartTurn c now id t s = (r, s') → wf s'.
Proof using Hs.
  intros H. unfold Memory.StartTurn in H. memory_run H; try done.
  eapply wf_start_turn; simpl; eauto using wf_session_key. by apply eq_None_not_Some.
Qed.

Lemma transitioned_same t now to code msg :
  t_ID (Memory.transitioned t now to code msg) = t_ID t ∧
  t_AgentSessionID (Memory.transitioned t now to code msg) = t_AgentSessionID t ∧
  t_Status (Memory.transitioned t now to code msg) = to.
Proof. unfold Memory.transitioned. by repeat case_match. Qed.

(** The turn a session remembers is one of its own and open; a finished turn is forgotten. *)
Lemma active_default k t :
  turns s !! k = Some t →
  s_ActiveTurnID (default zero_Session (sessions s !! t_AgentSessionID t)) = k ↔ Terminal (t_Status t) = false.
Proof using Hs.
  intros Ht. destruct (wf_turn_key _ Hs _ _ Ht) as [Hid Hne].
  destruct (wf_turn_session _ Hs _ _ Ht) as [x Hx]. rewrite Hx. simpl. split.
  - intros Hact. destruct (wf_active _ Hs _ _ Hx) as (u & Hu & _ & Hn); [congruence|].
    by rewrite Hact, Ht in Hu; simplify_eq.
  - intros Hn. destruct (wf_open _ Hs _ _ Ht Hn) as (y & Hy & Hay). by simplify_eq.
Qed.

Lemma wf_TransitionTurn now id v to code msg r s' :
  Memory.TransitionTurn c now id v to code msg s = (r, s') → wf s'.
Proof using Hs.
  intros H. unfold Memory.TransitionTurn, Memory.release_session in H. memory_run H; try done.
  all: destruct (transitioned_same t now to code msg) as (Hid & Hses & Hst);
    set (t' := Memory.transitioned t now to code msg) in *; clearbody t'; rewrite ?Hid, ?Hses in *;
    destruct (wf_turn_key _ Hs _ _ Heqo0) as [Hk Hne]; rewrite ?Hk in *;
    rewrite ?(active_default _ _ Heqo0) in *.
  - destruct (wf_turn_session _ Hs _ _ Heqo0) as [x Hx]. rewrite Hx. simpl.
    rewrite (wf_session_key _ Hs _ _ Hx).
    eapply wf_finish_turn; simpl; eauto; try congruence. symmetry. by eapply wf_session_key.
  - eapply wf_touch_turn; [done|done|congruence|congruence|]. rewrite Hst, Heqb1.
    by destruct (Terminal (t_Status t)).
  - eapply wf_touch_turn; [done|done|congruence|congruence|]. rewrite Hst, Heqb1.
    destruct (Terminal (t_Status t)) eqn:E; [|done].
    by rewrite (validTurnTransition_terminal _ _ E Heqb0), E in Heqb1.
Qed.

Lemma appended_same st tid q now :
  st_ID (Memory.appended st tid q now) = st_ID st ∧ st_TurnID (Memory.appended st tid q now) = tid ∧
  st_Sequence (Memory.appended st tid q now) = q.
Proof. unfold Memory.appended. by repeat case_match. Qed.

Lemma wf_AppendStep now id v st r s' :
  room s id → Memory.AppendStep c now id v st s = (r, s') → wf s'.
Proof using Hs.
  intros Hroom H. unfold Memory.AppendStep in H. memory_run H; try done.
  destruct (nextStepSequence_spec s id Hroom) as (H1 & H2 & _).
  destruct (appended_same st id (Memory.nextStepSequence id s) now) as (Hi & Ht & Hq).
  set (st' := Memory.appended _ _ _ _) in *; clearbody st'. rewrite Hi.
  assert (wf (s<| steps := <[st_ID st := st']> (steps s) |>)) as Hs1.
  { apply wf_add_step; rewrite ?Ht, ?Hq; eauto. by apply eq_None_not_Some. }
  eapply (wf_touch_turn _ Hs1); simpl; [done|done|done|done].
Qed.

Lemma moved_same st now to out :
  st_ID (Memory.moved st now to out) = st_ID st ∧ st_TurnID (Memory.moved st now to out) = st_TurnID st ∧
  st_Sequence (Memory.moved st now to out) = st_Sequence st ∧ st_Status (Memory.moved st now to out) = to.
Proof. unfold Memory.moved. by repeat case_match. Qed.

Lemma wf_transitionStep now id to out r s' :
  Memory.transitionStep c now id to out s = (r, s') → wf s'.
Proof using Hs.
  intros H. unfold Memory.transitionStep in H. memory_run H; try done.
  destruct (moved_same s0 now to out) as (? & ? & ? & _). by eapply wf_touch_step.
Qed.

Lemma wf_finishStep now id to code msg r s' :
  Memory.finishStep c now id to code msg s = (r, s') → wf s'.
Proof using Hs.
  intros H. unfold Memory.finishStep, Memory.transitionStep in H. memory_run H; try done.
  rewrite lookup_insert_eq, insert_insert_eq. simpl.
  destruct (moved_same s0 now to "") as (? & ? & ? & _). by eapply wf_touch_step.
Qed.

Lemma wf_AppendMessage now m r s' : Memory.AppendMessage c now m s = (r, s') → wf s'.
Proof using Hs.
  intros H. unfold Memory.AppendMessage in H. memory_run H; try done.
  apply wf_add_message; simpl; try done. intros (m' & Heq & Hin)%list_elem_of_fmap.
  match goal with H : existsb _ _ = false |- _ => apply not_true_iff_false in H; apply H end.
  apply existsb_exists.
  exists m'. split; [by apply list_elem_of_In|by apply bool_decide_eq_true].
Qed.

Lemma wf_SaveToolSnapshot now tid sid ss r s' :
  Memory.SaveToolSnapshot c now tid sid ss s = (r, s') → wf s'.
Proof using Hs.
  intros H. unfold Memory.SaveToolSnapshot in H. memory_run H; try done. by apply wf_add_snapshot.
Qed.
End Preserve.

Lemma bind_ret_inv {S P A} (m : M S P A) s r s' :
  (m ;; ret tt) s = (r, s') → ∃ r0, m s = (r0, s') ∧ is_ok r0 = is_ok r ∧ (∀ e, r0 = Err e ↔ r = Err e).
Proof.
  unfold bind, ret. destruct (m s) as [[a|e] s0]; intros [= <- <-]; eexists; (split; [done|]);
    (split; [done|]); intros; split; congruence.
Qed.

Lemma wf_exec c m s r s' : wf s → admissible s m → exec c m s = (r, s') → wf s'.
Proof.
  intros Hs Ha H. destruct m; simpl in Ha, H; try (apply bind_ret_inv in H as (r0 & H & _)).
  - by eapply wf_CreateSession.
  - by eapply wf_CreateSessionWithAttachment.
  - by eapply wf_ArchiveSession.
  - by eapply wf_CreateAttachment.
  - by eapply wf_UpdateAttachment.
  - by eapply wf_SetActiveAttachment.
  - by eapply wf_StartTurn.
  - by eapply wf_TransitionTurn.
  - by eapply wf_AppendStep.
  - by eapply wf_transitionStep.
  - by eapply wf_transitionStep.
  - by eapply wf_transitionStep.
  - by eapply wf_finishStep.
  - by eapply wf_finishStep.
  - by eapply wf_AppendMessage.
  - by eapply wf_SaveToolSnapshot.
Qed.

(** ** Histories

    Any number of calls one after the other, each with its own context and
    each succeeding or not. *)
Inductive history : MemoryStore → nat → MemoryStore → Prop :=
| history_nil s : history s 0 s
| history_snoc s n s1 c m r s2 :
    history s n s1 → admissible s1 m → exec c m s1 = (r, s2) → history s (S n) s2.

Definition reachable (s : MemoryStore) : Prop := ∃ n, history NewMemoryStore n s.

Lemma wf_history s n s' : wf s → history s n s' → wf s'.
Proof. intros Hs H. induction H; eauto using wf_exec. Qed.

Lemma wf_reachable s : reachable s → wf s.
Proof. intros [n H]. eapply wf_history; [apply wf_init|done]. Qed.
