(* ===== verification/MemoryHistory.v ===== *)
(** * MemoryStore: what a call can change

    How one call, and any number of them, changes versions and statuses: the
    lemmas behind the theorems of [MemoryTheorems]. *)

From S2P Require Import Prelude ToolTypes AgentTypes MemoryStore MemoryInvariant.

(** ** Versions *)

(** The records whose writers name the version they read. *)
Inductive aggregate := ASession (id : string) | ATurn (id : string) | AAttachment (id : string).

Definition version (s : MemoryStore) (g : aggregate) : option N :=
  match g with
  | ASession id => s_Version <$> sessions s !! id
  | ATurn id => t_Version <$> turns s !! id
  | AAttachment id => a_Generation <$> attachments s !! id
  end.

(** The record a call compares, and the version its caller expects. *)
Definition compares (m : mutation) : option (aggregate * N) :=
  match m with
  | OArchiveSession _ id v | OSetActiveAttachment _ id _ v => Some (ASession id, v)
  | OTransitionTurn _ id v _ _ _ | OAppendStep _ id v _ => Some (ATurn id, v)
  | OUpdateAttachment _ a g => Some (AAttachment (a_ID a), g)
  | _ => None
  end.

(** The checks a call makes before it looks at the version. *)
Definition args_ok (c : ctx) (m : mutation) : Prop :=
  ctx_err c = None ∧
  match m with
  | OUpdateAttachment _ a _ => validateAttachment a = None
  | OAppendStep _ _ _ st => st_ID st ≠ ""
  | _ => True
  end.

(** Runs the call in [H] through every branch of every operation. *)
Ltac exec_run m H :=
  destruct m; simpl in H;
  cbv [Memory.CreateSession Memory.CreateSessionWithAttachment Memory.ArchiveSession
    Memory.CreateAttachment Memory.UpdateAttachment Memory.SetActiveAttachment Memory.StartTurn
    Memory.TransitionTurn Memory.release_session Memory.AppendStep Memory.CompleteStep
    Memory.WaitStepApproval Memory.ResumeStep Memory.CancelStep Memory.FailStep Memory.finishStep
    Memory.transitionStep Memory.AppendMessage Memory.SaveToolSnapshot] in H;
  memory_run H.

Lemma exec_unchanged c m s e s' : exec c m s = (Err e, s') → s' = s.
Proof. intros H. exec_run m H; done. Qed.

Lemma transitioned_version t now to code msg :
  t_Version (Memory.transitioned t now to code msg) = u64_add (t_Version t) 1.
Proof. unfold Memory.transitioned. by repeat case_match. Qed.

Lemma compares_ok c m s s' g v :
  exec c m s = (Ok tt, s') → compares m = Some (g, v) →
  version s g = Some v.
Proof. intros H Hc. exec_run m H; simplify_eq/=; by simplify_map_eq. Qed.

Lemma compares_stale c m s g v w :
  args_ok c m → compares m = Some (g, v) → version s g = Some w → w ≠ v →
  ∃ e, exec c m s = (Err e, s) ∧ Is e ErrVersionConflict = true.
Proof.
  intros [Hctx Harg] Hc Hv Hne. destruct (exec c m s) as [r s'] eqn:H.
  exec_run m H; simplify_eq/=; try (by apply fmap_Some in Hv as (? & ? & ?); simplify_eq).
  all: eauto.
Qed.

Lemma lookup_insert_fmap {A} (f : A → N) (m : gmap string A) i j x :
  f <$> <[i := x]> m !! j = if decide (i = j) then Some (f x) else f <$> m !! j.
Proof. case_decide; subst; [by rewrite lookup_insert_eq|by rewrite lookup_insert_ne]. Qed.

(** A call leaves the version of a record alone or adds one to it. *)
Lemma exec_version c m s r s' g v :
  wf s → exec c m s = (r, s') → version s g = Some v →
  version s' g = Some v ∨ version s' g = Some (u64_add v 1).
Proof.
  intros Hs H Hv. exec_run m H; try by left.
  all: try match goal with H : turns _ !! _ = Some ?t |- _ =>
    rewrite ?(proj1 (proj2 (transitioned_same t _ _ _ _))) in *;
    destruct (wf_turn_session _ Hs _ _ H) as [y Hy]; rewrite ?Hy; simpl;
    pose proof (wf_session_key _ Hs _ _ Hy) as Hk; rewrite ?Hk end.
  all: destruct g; simpl in Hv |- *; autorewrite with store; rewrite ?lookup_insert_fmap; try by left.
  all: repeat case_decide; simplify_eq/=; rewrite ?transitioned_version; try by left.
  all: repeat match goal with H : ¬ is_Some _ |- _ => rewrite <- eq_None_not_Some in H end.
  all: simplify_map_eq; try by right.
Qed.

Lemma compares_bumps c m s s' g v :
  exec c m s = (Ok tt, s') → compares m = Some (g, v) → version s' g = Some (u64_add v 1).
Proof.
  intros H Hc. exec_run m H; simplify_eq/=; rewrite ?lookup_insert_fmap, ?decide_True by done;
    simpl; by rewrite ?transitioned_version.
Qed.

Lemma history_version s n s' g v :
  wf s → history s n s' → version s g = Some v → (v + N.of_nat n < u64_max)%N →
  ∃ w, version s' g = Some w ∧ (v ≤ w ≤ v + N.of_nat n)%N.
Proof.
  intros Hs H Hv. induction H as [|s n s1 c m r s2 Hh IH Ha H]; intros Hlt; [exists v; split; [done|lia]|].
  destruct IH as (w & Hw & Hle); [done|done|lia|].
  destruct (exec_version _ _ _ _ _ g w (wf_history _ _ _ Hs Hh) H Hw) as [Hw'|Hw'];
    eexists; (split; [exact Hw'|]); [lia|].
  rewrite u64_add_small by lia. lia.
Qed.

(** ** Finished turns and steps *)

Lemma exec_turn_status c m s r s' k t :
  exec c m s = (r, s') → turns s !! k = Some t →
  ∃ t', turns s' !! k = Some t' ∧ t_AgentSessionID t' = t_AgentSessionID t ∧
        validTurnTransition (t_Status t) (t_Status t') = true.
Proof.
  assert (∀ x, validTurnTransition x x = true) as Hrefl.
  { intros x. unfold validTurnTransition. by rewrite bool_decide_eq_true_2. }
  intros H Ht. exec_run m H; eauto.
  all: match goal with |- context [<[?i := _]> (turns _) !! ?j] =>
    destruct (decide (i = j)) as [Hk|?]; [rewrite Hk in *; rewrite lookup_insert_eq|
      rewrite lookup_insert_ne by done; by eauto] end; simplify_map_eq.
  all: try match goal with H : ¬ is_Some _ |- _ => rewrite <- eq_None_not_Some in H; congruence end.
  all: try match goal with |- context [Memory.transitioned ?t ?n ?to ?c ?m] =>
    destruct (transitioned_same t n to c m) as (Hi & Hs' & Ht') end.
  all: eexists; split_and!; [done|done|]; rewrite ?Ht'; eauto.
Qed.

Lemma exec_step_status c m s r s' k st :
  exec c m s = (r, s') → steps s !! k = Some st →
  ∃ st', steps s' !! k = Some st' ∧ st_TurnID st' = st_TurnID st ∧ st_Sequence st' = st_Sequence st ∧
         validStepTransition (st_Status st) (st_Status st') = true.
Proof.
  assert (∀ x, validStepTransition x x = true) as Hrefl.
  { intros x. unfold validStepTransition. by rewrite bool_decide_eq_true_2. }
  intros H Ht. exec_run m H; eauto 6.
  all: rewrite ?lookup_insert_eq, ?insert_insert_eq; simpl.
  all: try match goal with |- context [Memory.appended ?t ?n ?to ?c] =>
    destruct (appended_same t n to c) as (-> & _ & _) end.
  all: match goal with |- context [<[?i := _]> (steps _) !! ?j] =>
    destruct (decide (i = j)) as [Hk|?]; [rewrite Hk in *; rewrite lookup_insert_eq|
      rewrite lookup_insert_ne by done; by eauto 6] end; simplify_map_eq.
  all: try match goal with H : ¬ is_Some _ |- _ => rewrite <- eq_None_not_Some in H; congruence end.
  all: try match goal with |- context [Memory.moved ?t ?n ?to ?c] =>
    destruct (moved_same t n to c) as (? & ? & ? & Ht') end.
  all: eexists; split_and!; [done|done|done|]; rewrite ?Ht'; done.
Qed.

Lemma history_finished_turn s n s' k t :
  history s n s' → turns s !! k = Some t → Terminal (t_Status t) = true →
  ∃ t', turns s' !! k = Some t' ∧ t_Status t' = t_Status t.
Proof.
  intros H Ht Hter. induction H as [|s n s1 c m r s2 Hh IH Ha H]; [eauto|].
  destruct IH as (t1 & Ht1 & Hst); [done|].
  destruct (exec_turn_status _ _ _ _ _ _ _ H Ht1) as (t2 & Ht2 & _ & Hv). exists t2. split; [done|].
  rewrite Hst in Hv. by apply validTurnTransition_terminal in Hv.
Qed.

Lemma history_finished_step s n s' k st :
  history s n s' → steps s !! k = Some st → step_finished (st_Status st) = true →
  ∃ st', steps s' !! k = Some st' ∧ st_Status st' = st_Status st.
Proof.
  intros H Ht Hter. induction H as [|s n s1 c m r s2 Hh IH Ha H]; [eauto|].
  destruct IH as (t1 & Ht1 & Hst); [done|].
  destruct (exec_step_status _ _ _ _ _ _ _ H Ht1) as (t2 & Ht2 & _ & _ & Hv). exists t2. split; [done|].
  rewrite Hst in Hv. by apply validStepTransition_finished in Hv.
Qed.
