(* ===== verification/MemoryTheorems.v ===== *)
(** * MemoryStore: what the store promises

    Theorems about any sequence of calls on a [MemoryStore]: the invariant,
    one open turn per session, failed calls change nothing, no lost update
    under optimistic concurrency, finished turns and steps stay finished,
    listings are determined by the contents. *)

From S2P Require Import Prelude ToolTypes AgentTypes MemoryStore MemoryInvariant MemoryHistory.


(** C4. In every reachable store a session has at most one unfinished turn,
    and its [ActiveTurnID] is that turn: empty exactly when there is none. *)
Theorem one_open_turn s k x :
  reachable s → sessions s !! k = Some x →
  (∀ i t, turns s !! i = Some t → t_AgentSessionID t = k →
     (Terminal (t_Status t) = false ↔ i = s_ActiveTurnID x)) ∧
  (s_ActiveTurnID x ≠ "" → is_Some (turns s !! s_ActiveTurnID x)).
Proof.
  intros Hs%wf_reachable Hx. split.
  - intros i t Ht <-. rewrite <- (active_default s Hs i t Ht), Hx. simpl. split; congruence.
  - intros Hne. destruct (wf_active _ Hs _ _ Hx Hne) as (t & Ht & _). eauto.
Qed.

(** A call that returns an error leaves the store exactly as it was. *)
Theorem failed_call_changes_nothing c m s e s' : exec c m s = (Err e, s') → s' = s.
Proof. apply exec_unchanged. Qed.

(** C11. No lost update: once a writer that read version [v] of a session, turn
    or attachment has succeeded, any other writer holding [v] is refused with
    [ErrVersionConflict] and changes nothing, however many calls ran between. *)
Theorem no_lost_update s c1 m1 s1 g v n s2 c2 m2 :
  reachable s → admissible s m1 → exec c1 m1 s = (Ok tt, s1) → compares m1 = Some (g, v) →
  history s1 n s2 → (v + 1 + N.of_nat n < u64_max)%N →
  args_ok c2 m2 → compares m2 = Some (g, v) →
  ∃ e, exec c2 m2 s2 = (Err e, s2) ∧ Is e ErrVersionConflict = true.
Proof.
  intros Hs%wf_reachable Hadm H1 Hc1 Hh Hlt Hargs Hc2.
  pose proof (compares_bumps _ _ _ _ _ _ H1 Hc1) as Hv. rewrite u64_add_small in Hv by lia.
  destruct (history_version _ _ _ _ _ (wf_exec _ _ _ _ _ Hs Hadm H1) Hh Hv Hlt) as (w & Hw & Hle).
  eapply compares_stale; eauto. lia.
Qed.

(** A finished turn and a finished step keep their status forever. *)
Theorem finished_is_final s n s' :
  history s n s' →
  (∀ k t, turns s !! k = Some t → Terminal (t_Status t) = true →
     ∃ t', turns s' !! k = Some t' ∧ t_Status t' = t_Status t) ∧
  (∀ k st, steps s !! k = Some st → step_finished (st_Status st) = true →
     ∃ st', steps s' !! k = Some st' ∧ st_Status st' = st_Status st).
Proof. intros H. split; intros; eauto using history_finished_turn, history_finished_step. Qed.

(** ** Listings do not depend on the map iteration order *)

#[global] Instance lex_string_weak {A} (f : A → string) (g : A → N) :
  WeakOrder (λ x y, if bool_decide (f x = f y) then N.ltb (g x) (g y) else String.ltb (f x) (f y)).
Proof.
  assert (∀ s, String.ltb s s = false) as Hirr.
  { intros s. unfold String.ltb.
    pose proof (String.compare_antisym s s). by destruct (s ?= s)%string. }
  assert (∀ x y, (if bool_decide (f x = f y) then N.ltb (g x) (g y) else String.ltb (f x) (f y)) = false ↔
    String.ltb (f x) (f y) = false ∧ (f x = f y → (g y ≤ g x)%N)) as Hiff.
  { intros x y. case_bool_decide as E; [rewrite E, Hirr, N.ltb_ge; tauto|tauto]. }
  destruct (string_ltb_weak f) as [Ha Ht]. split.
  - intros x y H. rewrite Hiff. case_bool_decide as E.
    + rewrite E, Hirr. apply N.ltb_lt in H. split; [done|lia].
    + split; [by apply Ha|]. congruence.
  - intros x y z. rewrite !Hiff. intros [H1 H2] [H3 H4]. split; [by eapply (Ht x y z)|].
    intros E. assert (f y = f z) as E' by (apply string_ltb_eq; congruence).
    specialize (H4 ltac:(congruence)). specialize (H2 ltac:(congruence)). lia.
Qed.

#[global] Instance turn_less_weak : WeakOrder Memory.turn_less.
Proof. apply (lex_before_weak t_CreatedAt _). Qed.
#[global] Instance session_less_weak : WeakOrder Memory.session_less.
Proof. apply (lex_after_weak s_UpdatedAt _). Qed.
#[global] Instance attachment_less_weak : WeakOrder Memory.attachment_less.
Proof. apply (lex_before_weak a_CreatedAt _). Qed.
#[global] Instance step_less_weak : WeakOrder Memory.step_less.
Proof. apply (lex_before_weak st_CreatedAt _). Qed.

(** The values of a map in whatever order the runtime iterates over it. *)
Definition iteration {A} (m : gmap string A) (l : list A) : Prop := l ≡ₚ (map_to_list m).*2.

Lemma sort_iteration {A} (less : A → A → bool) `{!WeakOrder less} (P : A → Prop)
    `{!∀ x, Decision (P x)} (m : gmap string A) l :
  (∀ j k x y, m !! j = Some x → m !! k = Some y → P x → P y →
     less x y = false → less y x = false → x = y) →
  iteration m l → sort_Slice less (filter P l) = sort_Slice less (filter P (map_to_list m).*2).
Proof.
  intros Hanti Hl. apply sort_Slice_unique; [done|by rewrite Hl|].
  intros x y [Hx Hxl]%list_elem_of_filter [Hy Hyl]%list_elem_of_filter. unfold iteration in Hl.
  rewrite Hl, elem_of_values in Hxl, Hyl. destruct Hxl, Hyl. eauto.
Qed.

Lemma lex_tie {A} (f : A → Time) (less : A → A → bool) x y :
  (if Z.eqb (f x) (f y) then less x y else Before (f x) (f y)) = false →
  (if Z.eqb (f y) (f x) then less y x else Before (f y) (f x)) = false →
  less x y = false ∧ less y x = false.
Proof.
  unfold Before. rewrite (Z.eqb_sym (f y)). destruct (Z.eqb_spec (f x) (f y)); [done|].
  rewrite !Z.ltb_ge. lia.
Qed.

(** Whatever order the maps are iterated in, [ListTurns] and
    [ListSessionSteps] of a reachable store return the same list: exactly the
    session's turns (the steps of these turns), sorted. *)
Theorem listings_deterministic s c sid x lt ls :
  reachable s → ctx_err c = None → sessions s !! sid = Some x →
  iteration (turns s) lt → iteration (steps s) ls →
  Memory.ListTurns c sid s =
    (Ok (sort_Slice Memory.turn_less (filter (λ t, t_AgentSessionID t = sid) lt)), s) ∧
  Memory.ListSessionSteps c sid s =
    (Ok (sort_Slice Memory.step_less (filter (λ st, st_TurnID st ∈ Memory.turn_ids sid s) ls)), s).
Proof.
  intros Hs%wf_reachable Hc Hx Hlt Hls.
  assert (∀ A (f : MemoryStore → A), (check (ctx_err c);; Memory.lookup_session sid;; gets f) s = (Ok (f s), s)) as Hrun.
  { intros. unfold Memory.lookup_session. unfold_monad. by rewrite Hc, Hx. }
  split; (etrans; [apply Hrun|]); f_equal; f_equal; symmetry; apply sort_iteration; try done; try apply _.
  - intros j k y z Hj Hk _ _ H1 H2. destruct (lex_tie t_CreatedAt (λ a b, String.ltb (t_ID a) (t_ID b)) _ _ H1 H2) as [H3 H4].
    pose proof (string_ltb_eq _ _ H3 H4).
    destruct (wf_turn_key _ Hs _ _ Hj), (wf_turn_key _ Hs _ _ Hk). congruence.
  - intros j k y z Hj Hk _ _ H1 H2. destruct (lex_tie st_CreatedAt (λ a b,
      if bool_decide (st_TurnID a = st_TurnID b) then N.ltb (st_Sequence a) (st_Sequence b)
      else String.ltb (st_TurnID a) (st_TurnID b)) _ _ H1 H2) as [H3 H4].
    assert (j = k); [|congruence].
    destruct (decide (st_TurnID y = st_TurnID z)) as [E|E].
    + rewrite bool_decide_eq_true_2 in H3, H4 by done. apply N.ltb_ge in H3, H4.
      eapply wf_step_sequence; eauto. lia.
    + rewrite bool_decide_eq_false_2 in H3, H4 by congruence. by pose proof (string_ltb_eq _ _ H3 H4).
Qed.

(** [AppendStep] on an unfinished turn whose version the caller knows
    stores the step under a sequence number above every other step of the turn
    (the first is 1, the next one more than the largest), makes it the turn's
    active step and bumps the turn's version. *)
Theorem AppendStep_appends s c now tid t st :
  reachable s → room s tid → ctx_err c = None → st_ID st ≠ "" → turns s !! tid = Some t →
  Terminal (t_Status t) = false → steps s !! st_ID st = None →
  ∃ t' st', Memory.AppendStep c now tid (t_Version t) st s =
      (Ok (t', st'), s<| steps := <[st_ID st := st']> (steps s) |><| turns := <[tid := t']> (turns s) |>) ∧
    t_ActiveStepID t' = st_ID st ∧ t_Version t' = u64_add (t_Version t) 1 ∧ t_Status t' = t_Status t ∧
    st_TurnID st' = tid ∧ st_Input st' = st_Input st ∧ (1 ≤ st_Sequence st')%N ∧
    (∀ k y, steps s !! k = Some y → st_TurnID y = tid → (st_Sequence y < st_Sequence st')%N) ∧
    (st_Sequence st' = 1%N ∨
     ∃ k y, steps s !! k = Some y ∧ st_TurnID y = tid ∧ st_Sequence st' = (st_Sequence y + 1)%N).
Proof.
  intros Hs Hroom Hc Hid Ht Hter Hnone.
  destruct (nextStepSequence_spec s tid Hroom) as (H1 & H2 & H3).
  destruct (appended_same st tid (Memory.nextStepSequence tid s) now) as (Hi & Htid & Hq).
  do 2 eexists. split.
  { unfold Memory.AppendStep, Memory.lookup_turn, Memory.exists_in, Memory.put_turn, Memory.put_step.
    unfold_monad. rewrite Hc, bool_decide_eq_false_2 by done. simpl. rewrite Ht. simpl.
    rewrite bool_decide_eq_false_2 by naive_solver. rewrite Hter, Hnone.
    rewrite bool_decide_eq_false_2 by (by intros []). simpl. by rewrite Hi. }
  simpl. rewrite Htid, Hq. split_and!; try done. unfold Memory.appended. by case_match.
Qed.

(** ** Witnesses: a store in which a session runs a turn *)

Definition demo_session : Session :=
  zero_Session<| s_ID := "s1" |><| s_OrganizationID := 1%N |><| s_CreatedBy := 7%N |>.
Definition demo_calls : list mutation :=
  [OCreateSession 10%Z demo_session; OStartTurn 11%Z "s1" (new_Turn "t1");
   OTransitionTurn 12%Z "t1" 1 TurnRunning "" ""].
Definition run_calls (l : list mutation) (s : MemoryStore) : MemoryStore :=
  foldl (λ s m, snd (exec Background m s)) s l.
Definition demo : MemoryStore := run_calls demo_calls NewMemoryStore.

Lemma history_calls s l :
  Forall (λ m, ∀ s', admissible s' m) l → history s (length l) (run_calls l s).
Proof.
  induction l as [|m l IH] using rev_ind; intros Ha; [apply history_nil|].
  apply Forall_app in Ha as [Ha Hm]. apply Forall_cons in Hm as [Hm _]. unfold run_calls.
  rewrite foldl_snoc, length_app, Nat.add_comm.
  eapply history_snoc; [by apply IH|apply Hm|apply surjective_pairing].
Qed.

Lemma demo_reachable : reachable demo.
Proof.
  eexists. apply history_calls. repeat constructor.
Qed.

Lemma one_open_turn_witness :
  ∃ x, sessions demo !! "s1" = Some x ∧
  ∀ i t, turns demo !! i = Some t → t_AgentSessionID t = "s1" →
     (Terminal (t_Status t) = false ↔ i = s_ActiveTurnID x).
Proof.
  eexists. split; [vm_compute; reflexivity|].
  apply (one_open_turn demo "s1"); [apply demo_reachable|vm_compute; reflexivity].
Defined.

Lemma failed_call_changes_nothing_witness :
  let m := OStartTurn 13%Z "s1" (new_Turn "t2") in
  fst (exec Background m demo) = Err (wrapf ErrTurnAlreadyActive "t1") ∧ snd (exec Background m demo) = demo.
Proof.
  intros m. split; [vm_compute; reflexivity|].
  apply (failed_call_changes_nothing Background m demo (wrapf ErrTurnAlreadyActive "t1")).
  vm_compute. reflexivity.
Defined.

Lemma no_lost_update_witness :
  let m := OTransitionTurn 14%Z "t1" 2 TurnCompleted "" "" in
  let s1 := snd (exec Background m demo) in
  ∃ e, exec Background (OTransitionTurn 15%Z "t1" 2 TurnFailed "e" "") s1 = (Err e, s1) ∧
       Is e ErrVersionConflict = true.
Proof.
  intros m s1. apply (no_lost_update demo Background m s1 (ATurn "t1") 2 0 s1).
  - apply demo_reachable.
  - exact I.
  - vm_compute. reflexivity.
  - reflexivity.
  - apply history_nil.
  - vm_compute. reflexivity.
  - split; [reflexivity|exact I].
  - reflexivity.
Defined.

Lemma finished_is_final_witness :
  let s0 := run_calls [OTransitionTurn 14%Z "t1" 2 TurnCompleted "" ""] demo in
  let s1 := run_calls [OTransitionTurn 15%Z "t1" 3 TurnFailed "" ""] s0 in
  ∃ t', turns s1 !! "t1" = Some t' ∧ t_Status t' = TurnCompleted.
Proof.
  intros s0 s1. assert (history s0 1 s1) as H 
    by (apply (history_calls s0 [OTransitionTurn 15%Z "t1" 3 TurnFailed "" ""]); repeat constructor).
  destruct (proj1 (finished_is_final s0 1 s1 H) "t1" (default (new_Turn "") (turns s0 !! "t1")))
    as (t' & Ht' & Hst); [vm_compute; reflexivity..|].
  exists t'. split; [exact Ht'|]. rewrite Hst. vm_compute. reflexivity.
Defined.

Lemma listings_deterministic_witness :
  Memory.ListTurns Background "s1" demo =
    (Ok (sort_Slice Memory.turn_less (filter (λ t, t_AgentSessionID t = "s1") (map_to_list (turns demo)).*2)), demo).
Proof.
  eapply (listings_deterministic demo Background "s1" _ _ (map_to_list (steps demo)).*2);
    [apply demo_reachable|reflexivity|vm_compute; reflexivity|apply Permutation_refl|apply Permutation_refl].
Defined.

Lemma AppendStep_appends_witness :
  ∃ t' st', Memory.AppendStep Background 13%Z "t1" 2 (new_Step "p1" StepModel None "" "{}") demo =
    (Ok (t', st'), demo<| steps := <["p1" := st']> (steps demo) |><| turns := <["t1" := t']> (turns demo) |>) ∧
    t_ActiveStepID t' = "p1".
Proof.
  destruct (AppendStep_appends demo Background 13%Z "t1" (default (new_Turn "") (turns demo !! "t1"))
    (new_Step "p1" StepModel None "" "{}")) as (t' & st' & Heq & Hact & _).
  - apply demo_reachable.
  - intros k y Hk. vm_compute in Hk. discriminate.
  - reflexivity.
  - discriminate.
  - vm_compute. reflexivity.
  - vm_compute. reflexivity.
  - vm_compute. reflexivity.
  - exists t', st'. split; [exact Heq|exact Hact].
Defined.
