(* ===== verification/AgentEvents.v ===== *)
(** * agent/runtime: the event broker

    [events.go].  A subscriber is a pair of channels the client keeps after the
    broker has dropped it, so the broker's map holds identifiers and the
    subscribers live in a store.  A channel is the list of what is buffered in
    it, oldest first, with a closed flag; [Publish] never blocks.  Every
    operation holds the broker's lock. *)

From S2P Require Import Prelude ToolTypes.

Definition EventType := string.
Definition EventTurnStarted : EventType := "turn.started".
Definition EventModelDelta : EventType := "model.delta".
Definition EventToolStarted : EventType := "tool.started".
Definition EventToolCompleted : EventType := "tool.completed".
Definition EventApprovalRequired : EventType := "approval.required".
Definition EventApprovalResolved : EventType := "approval.resolved".
Definition EventTurnCompleted : EventType := "turn.completed".
Definition EventTurnCancelled : EventType := "turn.cancelled".
Definition EventTurnFailed : EventType := "turn.failed".

Record Event := mkEvent {
  ev_Sequence : N;
  ev_SessionID : string;
  ev_TurnID : string;
  ev_StepID : string;
  ev_Type : EventType;
  ev_Payload : string;
  ev_Occurred : Time
}.
#[global] Instance eta_Event : Eta Event := {| eta := λ e,
  mkEvent (ev_Sequence e) (ev_SessionID e) (ev_TurnID e) (ev_StepID e) (ev_Type e) (ev_Payload e) (ev_Occurred e) |}.

Definition ErrEventSubscriberSlow : error :=
  ESentinel "runtime.ErrEventSubscriberSlow" "agent event subscriber is too slow".

Record eventSubscriber := mkSubscriber {
  sub_sessionID : string;
  sub_events : list Event;
  sub_done : list error;
  sub_closed : bool
}.
#[global] Instance eta_subscriber : Eta eventSubscriber := {| eta := λ s,
  mkSubscriber (sub_sessionID s) (sub_events s) (sub_done s) (sub_closed s) |}.

Record EventBroker := mkBroker {
  br_bufferSize : nat;
  br_nextID : N;
  br_subscribers : gset N;
  br_channels : gmap N eventSubscriber
}.
#[global] Instance eta_broker : Eta EventBroker := {| eta := λ b,
  mkBroker (br_bufferSize b) (br_nextID b) (br_subscribers b) (br_channels b) |}.

Definition NewEventBroker (bufferSize : Z) : EventBroker :=
  mkBroker (if Z.leb bufferSize 0 then 64 else Z.to_nat bufferSize) 0 ∅ ∅.

Module Broker.

(** Closing the channels; the buffered reason is still there to be read. *)
Definition removeSubscriberLocked (id : N) (reason : option error) (b : EventBroker) : EventBroker :=
  if bool_decide (id ∉ br_subscribers b) then b else
  match br_channels b !! id with
  | None => b
  | Some s =>
      b<| br_subscribers := br_subscribers b ∖ {[id]} |>
       <| br_channels := <[id := s<| sub_closed := true |>
            <| sub_done := sub_done s ++ (match reason with Some e => [e] | None => [] end) |>]> (br_channels b) |>
  end.

(** The [select] with a default: buffer the event, or drop the subscriber. *)
Definition offer (event : Event) (id : N) (b : EventBroker) : EventBroker :=
  match br_channels b !! id with
  | None => b
  | Some s =>
      if bool_decide (sub_sessionID s ≠ ev_SessionID event) then b
      else if Nat.ltb (length (sub_events s)) (br_bufferSize b)
      then b<| br_channels := <[id := s<| sub_events := sub_events s ++ [event] |>]> (br_channels b) |>
      else removeSubscriberLocked id (Some ErrEventSubscriberSlow) b
  end.

Definition Publish (c : ctx) (event : Event) : Op EventBroker unit :=
  check (ctx_err c) ;;
  throw_if bool_decide (ev_SessionID event = "") || bool_decide (ev_Type event = "")
    with ENew "agent event session and type are required" ;;
  modify (λ b, b<| br_nextID := u64_add (br_nextID b) 1 |>) ;;
  modify (λ b, foldr (offer (event<| ev_Sequence := br_nextID b |>)) b (elements (br_subscribers b))).

Definition Subscribe (c : ctx) (sessionID : string) : Op EventBroker N :=
  throw_if bool_decide (sessionID = "") with ENew "agent event subscription session is required" ;;
  check (ctx_err c) ;;
  modify (λ b, b<| br_nextID := u64_add (br_nextID b) 1 |>) ;;
  let! id := gets br_nextID in
  modify (λ b, b<| br_subscribers := {[id]} ∪ br_subscribers b |>
                <| br_channels := <[id := mkSubscriber sessionID [] [] false]> (br_channels b) |>) ;;
  ret id.

(** [cancel], by the client or because its context is done. *)
Definition Close (id : N) (b : EventBroker) : EventBroker := removeSubscriberLocked id None b.

(** The client takes the oldest buffered event. *)
Definition receive (id : N) (b : EventBroker) : option Event * EventBroker :=
  match br_channels b !! id with
  | Some s =>
      match sub_events s with
      | ev :: rest => (Some ev, b<| br_channels := <[id := s<| sub_events := rest |>]> (br_channels b) |>)
      | [] => (None, b)
      end
  | None => (None, b)
  end.

End Broker.
Import Broker.

(** ** What one operation does to one subscriber *)

Record bwf (b : EventBroker) : Prop := {
  bw_live id : id ∈ br_subscribers b → ∃ s, br_channels b !! id = Some s ∧ sub_closed s = false ∧ sub_done s = [];
  bw_bound id s : br_channels b !! id = Some s → length (sub_events s) ≤ br_bufferSize b;
  bw_ids id s : br_channels b !! id = Some s → (id ≤ br_nextID b)%N
}.

Lemma remove_other id reason b i :
  i ≠ id → br_channels (removeSubscriberLocked id reason b) !! i = br_channels b !! i ∧
           (i ∈ br_subscribers (removeSubscriberLocked id reason b) ↔ i ∈ br_subscribers b).
Proof.
  intros Hne. unfold removeSubscriberLocked. case_bool_decide; [done|]. destruct (br_channels b !! id); [|done].
  simpl. rewrite lookup_insert_ne by done. split; [done|]. set_solver.
Qed.

Lemma offer_other ev id b i :
  i ≠ id → br_channels (offer ev id b) !! i = br_channels b !! i ∧
           (i ∈ br_subscribers (offer ev id b) ↔ i ∈ br_subscribers b).
Proof.
  intros Hne. unfold offer. destruct (br_channels b !! id) as [s|] eqn:Hs; [|done].
  case_bool_decide; [done|]. case_match; [|by apply remove_other]. simpl. by rewrite lookup_insert_ne.
Qed.

Lemma offer_static ev id b :
  br_bufferSize (offer ev id b) = br_bufferSize b ∧ br_nextID (offer ev id b) = br_nextID b.
Proof.
  unfold offer, removeSubscriberLocked. by repeat case_match.
Qed.

(** The fan-out, seen by one subscriber: it is offered the event once. *)
Lemma fanout ev l b i :
  NoDup l →
  let b' := foldr (offer ev) b l in
  br_bufferSize b' = br_bufferSize b ∧ br_nextID b' = br_nextID b ∧
  br_channels b' !! i = br_channels (if decide (i ∈ l) then offer ev i b else b) !! i ∧
  (i ∈ br_subscribers b' ↔ i ∈ br_subscribers (if decide (i ∈ l) then offer ev i b else b)).
Proof.
  intros Hnd. induction l as [|id l IH]; cbn [foldr]; [by rewrite decide_False by set_solver|].
  apply NoDup_cons in Hnd as [Hid Hnd]. destruct (IH Hnd) as (I1 & I2 & I3 & I4). clear IH.
  set (b1 := foldr (offer ev) b l) in *. clearbody b1.
  destruct (offer_static ev id b1) as [-> ->]. split; [done|]. split; [done|].
  destruct (decide (i = id)) as [->|Hne].
  - rewrite (decide_True (P := id ∈ id :: l)) by set_solver. rewrite decide_False in I3, I4 by done.
    assert (br_channels (offer ev id b1) !! id = br_channels (offer ev id b) !! id ∧
      (id ∈ br_subscribers (offer ev id b1) ↔ id ∈ br_subscribers (offer ev id b))) as [? ?]; [|done].
    unfold offer. rewrite I3. destruct (br_channels b !! id) as [s|] eqn:Hs; [|by rewrite I3].
    case_bool_decide; [by rewrite I3|]. rewrite I1. case_match; simpl; [by rewrite !lookup_insert_eq|].
    unfold removeSubscriberLocked. rewrite I3, Hs.
    destruct (decide (id ∈ br_subscribers b)) as [Hin|Hin].
    + rewrite !bool_decide_eq_false_2 by tauto. simpl. rewrite !lookup_insert_eq. split; [done|]. set_solver.
    + rewrite !bool_decide_eq_true_2 by tauto. by rewrite I3.
  - destruct (offer_other ev id b1 i Hne) as [-> ->]. rewrite I3, I4.
    destruct (decide (i ∈ l)); [rewrite decide_True by set_solver|rewrite decide_False by set_solver]; done.
Qed.

(** ** Runs of the broker *)
Inductive action :=
| APublish (c : ctx) (ev : Event)
| ASubscribe (c : ctx) (sessionID : string)
| AClose (id : N)
| AReceive (id : N).

(** One action: what it published (with the sequence number it was given),
    what it handed to a client, and the broker after it. *)
Definition act (a : action) (b : EventBroker) : list Event * list (N * Event) * EventBroker :=
  match a with
  | APublish c ev =>
      match Publish c ev b with
      | (Ok _, b') => ([ev<| ev_Sequence := u64_add (br_nextID b) 1 |>], [], b')
      | (Err _, b') => ([], [], b')
      end
  | ASubscribe c sid => ([], [], snd (Subscribe c sid b))
  | AClose id => ([], [], Close id b)
  | AReceive id =>
      match receive id b with
      | (Some ev, b') => ([], [(id, ev)], b')
      | (None, b') => ([], [], b')
      end
  end.

Fixpoint play (l : list action) (b : EventBroker) : list Event * list (N * Event) * EventBroker :=
  match l with
  | [] => ([], [], b)
  | a :: rest =>
      let '(p, g, b1) := act a b in
      let '(p', g', b2) := play rest b1 in
      (p ++ p', g ++ g', b2)
  end.

Definition for_session (sid : string) (l : list Event) : list Event :=
  List.filter (λ e, bool_decide (ev_SessionID e = sid)) l.
Definition handed_to (id : N) (l : list (N * Event)) : list Event :=
  map snd (List.filter (λ p, bool_decide (fst p = id)) l).

(** How an action leaves one subscriber: what it was owed is in its channel
    or handed to it; or it has been dropped with its buffer kept. *)
Definition kept_up (b : EventBroker) (id : N) (s : eventSubscriber) (p g : list Event) (b' : EventBroker)
    (s' : eventSubscriber) : Prop :=
  id ∈ br_subscribers b ∧ id ∈ br_subscribers b' ∧ sub_events s ++ p = g ++ sub_events s' ∧ sub_done s' = sub_done s.
Definition dropped (b : EventBroker) (id : N) (s : eventSubscriber) (g : list Event) (b' : EventBroker)
    (s' : eventSubscriber) : Prop :=
  (id ∉ br_subscribers b') ∧ sub_events s = g ++ sub_events s' ∧
  ((id ∉ br_subscribers b) ∧ sub_done s' = sub_done s ∨
   id ∈ br_subscribers b ∧ sub_done s' = sub_done s ∨
   id ∈ br_subscribers b ∧ sub_done s' = sub_done s ++ [ErrEventSubscriberSlow] ∧
     length (sub_events s') = br_bufferSize b).

Lemma offer_one ev id b s :
  bwf b → br_channels b !! id = Some s → id ∈ br_subscribers b →
  let b' := offer ev id b in
  ∃ s', br_channels b' !! id = Some s' ∧ sub_sessionID s' = sub_sessionID s ∧
    (kept_up b id s (for_session (sub_sessionID s) [ev]) [] b' s' ∨ dropped b id s [] b' s').
Proof.
  intros Hb Hs Hin. unfold offer. rewrite Hs. unfold for_session. cbn [List.filter].
  destruct (bool_decide_reflect (sub_sessionID s ≠ ev_SessionID ev)) as [Hne|Heq].
  { exists s. rewrite bool_decide_eq_false_2 by congruence. split_and!; try done. left.
    unfold kept_up. by rewrite app_nil_r. }
  rewrite bool_decide_eq_true_2 by (symmetry; by apply dec_stable).
  destruct (Nat.ltb_spec (length (sub_events s)) (br_bufferSize b)) as [Hlt|Hge]; simpl.
  - eexists. rewrite lookup_insert_eq. split_and!; [done|done|]. left. done.
  - unfold removeSubscriberLocked. rewrite bool_decide_eq_false_2 by tauto. rewrite Hs. simpl.
    eexists. rewrite lookup_insert_eq. split_and!; [done|done|]. right. unfold dropped. simpl.
    split; [set_solver|]. split; [done|]. right. right. split_and!; [done|done|].
    pose proof (bw_bound _ Hb _ _ Hs). lia.
Qed.

Lemma bwf_remove id reason b : bwf b → bwf (removeSubscriberLocked id reason b).
Proof.
  intros Hb. unfold removeSubscriberLocked. case_bool_decide; [done|]. destruct (br_channels b !! id) as [s|] eqn:Hs; [|done].
  destruct Hb. split; simpl.
  - intros i [Hi Hne%not_elem_of_singleton]%elem_of_difference. rewrite lookup_insert_ne by done. eauto.
  - intros i s' [[<- <-]|[_ Hi]]%lookup_insert_Some; simpl; eauto.
  - intros i s' [[<- <-]|[_ Hi]]%lookup_insert_Some; eauto.
Qed.

Lemma bwf_offer ev id b : bwf b → bwf (offer ev id b).
Proof.
  intros Hb. unfold offer. destruct (br_channels b !! id) as [s|] eqn:Hs; [|done]. case_bool_decide; [done|].
  destruct (Nat.ltb_spec (length (sub_events s)) (br_bufferSize b)); [|by apply bwf_remove].
  destruct Hb. split; simpl.
  - intros i Hi. destruct (bw_live0 _ Hi) as (si & Hsi & Hc & Hd).
    destruct (decide (id = i)) as [<-|Hne]; [|by exists si; rewrite lookup_insert_ne].
    eexists. rewrite lookup_insert_eq. split; [done|]. by simplify_eq.
  - intros i s' [[<- <-]|[_ Hi]]%lookup_insert_Some; simpl; [rewrite length_app; simpl; lia|eauto].
  - intros i s' [[<- <-]|[_ Hi]]%lookup_insert_Some; eauto.
Qed.

Lemma bwf_tick b : bwf b → (br_nextID b + 1 < u64_max)%N → bwf (b<| br_nextID := u64_add (br_nextID b) 1 |>).
Proof.
  intros [] Hlt. split; simpl; eauto. intros id s Hs. rewrite u64_add_small by done.
  pose proof (bw_ids0 _ _ Hs). lia.
Qed.

(** A subscriber the action does not concern. *)
Lemma untouched b id s b1 :
  br_channels b1 !! id = Some s → (id ∈ br_subscribers b1 ↔ id ∈ br_subscribers b) →
  ∃ s', br_channels b1 !! id = Some s' ∧ sub_sessionID s' = sub_sessionID s ∧
    (kept_up b id s [] [] b1 s' ∨ dropped b id s [] b1 s').
Proof.
  intros Hs1 Hiff. exists s. split_and!; try done. unfold kept_up, dropped. rewrite app_nil_r.
  destruct (decide (id ∈ br_subscribers b)); [left|right]; tauto.
Qed.

Lemma publish_wf ev b :
  let b1 := b<| br_nextID := u64_add (br_nextID b) 1 |> in
  let b' := foldr (offer ev) b1 (elements (br_subscribers b1)) in
  bwf b → (br_nextID b + 1 < u64_max)%N → bwf b' ∧ (br_nextID b' ≤ br_nextID b + 1)%N.
Proof.
  intros b1 b' Hb Hlt. pose proof (bwf_tick b Hb Hlt) as Hb1. fold b1 in Hb1. split.
  { subst b'. generalize (elements (br_subscribers b1)). intros l. induction l; simpl; [done|]. by apply bwf_offer. }
  destruct (fanout ev (elements (br_subscribers b1)) b1 0%N (NoDup_elements _)) as (_ & Hid & _).
  fold b' in Hid. rewrite Hid. subst b1. simpl. rewrite u64_add_small by done. lia.
Qed.

Lemma publish_one ev b id s :
  let b1 := b<| br_nextID := u64_add (br_nextID b) 1 |> in
  let b' := foldr (offer ev) b1 (elements (br_subscribers b1)) in
  bwf b → (br_nextID b + 1 < u64_max)%N → br_channels b !! id = Some s →
  ∃ s', br_channels b' !! id = Some s' ∧ sub_sessionID s' = sub_sessionID s ∧
    (kept_up b id s (for_session (sub_sessionID s) [ev]) [] b' s' ∨ dropped b id s [] b' s').
Proof.
  intros b1 b' Hb Hlt Hs. pose proof (bwf_tick b Hb Hlt) as Hb1. fold b1 in Hb1.
  destruct (fanout ev (elements (br_subscribers b1)) b1 id (NoDup_elements _)) as (_ & _ & Hch & Hsub).
  fold b' in Hch, Hsub. rewrite Hch.
  destruct (decide (id ∈ elements (br_subscribers b1))) as [Hin|Hin]; rewrite elem_of_elements in Hin.
  - destruct (offer_one ev id b1 s Hb1 Hs Hin) as (s' & Hs' & Hsid & Hor). exists s'. split_and!; [done|done|].
    destruct Hor as [Hk|Hd]; [left|right]; unfold kept_up, dropped in *; rewrite Hsub; done.
  - exists s. split_and!; [done|done|]. right. unfold dropped. rewrite Hsub. split_and!; [done|done|]. by left.
Qed.

Lemma subscribe_wf b sid :
  bwf b → (br_nextID b + 1 < u64_max)%N →
  bwf (b<| br_nextID := (br_nextID b + 1)%N |><| br_subscribers := ({[(br_nextID b + 1)%N]} ∪ br_subscribers b) |>
        <| br_channels := <[(br_nextID b + 1)%N := mkSubscriber sid [] [] false]> (br_channels b) |>).
Proof.
  intros [] Hlt. split; simpl.
  - intros i [->%elem_of_singleton|Hi]%elem_of_union; [eexists; by rewrite lookup_insert_eq|].
    destruct (bw_live0 _ Hi) as (si & Hsi & ?). exists si. rewrite lookup_insert_ne; [done|].
    pose proof (bw_ids0 _ _ Hsi). lia.
  - intros i si [[<- <-]|[_ Hi]]%lookup_insert_Some; simpl; [lia|eauto].
  - intros i si [[<- <-]|[_ Hi]]%lookup_insert_Some; [lia|]. pose proof (bw_ids0 _ _ Hi). lia.
Qed.

Lemma receive_wf b i si e rest :
  bwf b → br_channels b !! i = Some si → sub_events si = e :: rest →
  bwf (b<| br_channels := <[i := si<| sub_events := rest |>]> (br_channels b) |>).
Proof.
  intros [] Hi He. split; simpl.
  - intros j Hj. destruct (bw_live0 _ Hj) as (sj & Hsj & ? & ?).
    destruct (decide (i = j)) as [<-|Hne]; [|by exists sj; rewrite lookup_insert_ne].
    eexists. rewrite lookup_insert_eq. split; [done|]. by simplify_eq.
  - intros j sj [[<- <-]|[_ Hj]]%lookup_insert_Some; simpl; [|eauto].
    pose proof (bw_bound0 _ _ Hi) as Hle. rewrite He in Hle. simpl in Hle. lia.
  - intros j sj [[<- <-]|[_ Hj]]%lookup_insert_Some; eauto.
Qed.

Lemma act_wf a b p g b' :
  bwf b → (br_nextID b + 1 < u64_max)%N → act a b = (p, g, b') → bwf b' ∧ (br_nextID b' ≤ br_nextID b + 1)%N.
Proof.
  intros Hb Hlt Hact. assert (bwf b ∧ (br_nextID b ≤ br_nextID b + 1)%N) as Hsame by (split; [done|lia]).
  destruct a as [c ev|c sid|i|i]; simpl in Hact.
  - unfold Publish in Hact. unfold_monad. destruct (ctx_err c); [by simplify_eq|].
    destruct (bool_decide _ || bool_decide _); simplify_eq/=; [done|]. by apply publish_wf.
  - unfold Subscribe in Hact. unfold_monad. case_bool_decide; [by simplify_eq/=|].
    destruct (ctx_err c); simplify_eq/=; [done|]. rewrite u64_add_small by done. split; [by apply subscribe_wf|lia].
  - simplify_eq. unfold Close.
    split; [by apply bwf_remove|unfold removeSubscriberLocked; repeat case_match; simpl; lia].
  - unfold receive in Hact. destruct (br_channels b !! i) as [si|] eqn:Hi; [|by simplify_eq].
    destruct (sub_events si) as [|e rest] eqn:He; simplify_eq; [done|]. split; [by eapply receive_wf|simpl; lia].
Qed.

Lemma act_one a b p g b' id s :
  bwf b → (br_nextID b + 1 < u64_max)%N → br_channels b !! id = Some s → act a b = (p, g, b') →
  ∃ s', br_channels b' !! id = Some s' ∧ sub_sessionID s' = sub_sessionID s ∧
    (kept_up b id s (for_session (sub_sessionID s) p) (handed_to id g) b' s' ∨
     dropped b id s (handed_to id g) b' s').
Proof.
  intros Hb Hlt Hs Hact. assert (∃ s', br_channels b !! id = Some s' ∧ sub_sessionID s' = sub_sessionID s ∧
    (kept_up b id s [] [] b s' ∨ dropped b id s [] b s')) as Hsame by by apply untouched.
  destruct a as [c ev|c sid|i|i]; simpl in Hact.
  - unfold Publish in Hact. unfold_monad. destruct (ctx_err c); [by simplify_eq|].
    destruct (bool_decide _ || bool_decide _); simplify_eq/=; [done|]. by apply publish_one.
  - unfold Subscribe in Hact. unfold_monad. case_bool_decide; [by simplify_eq/=|].
    destruct (ctx_err c); simplify_eq/=; [done|]. rewrite u64_add_small by done.
    pose proof (bw_ids _ Hb _ _ Hs) as Hid.
    match goal with |- ∃ _, _ ∧ _ ∧ (kept_up _ _ _ _ _ ?b1 _ ∨ _) => apply (untouched b id s b1) end; simpl;
      [rewrite lookup_insert_ne by lia; done|].
    rewrite elem_of_union, elem_of_singleton. split; [intros [?|?]; [lia|done]|auto].
  - simplify_eq. unfold Close. destruct (decide (id = i)) as [<-|Hne].
    + unfold removeSubscriberLocked. case_bool_decide as Hin; [done|]. rewrite Hs. simpl.
      eexists. rewrite lookup_insert_eq. split_and!; [done|done|]. right. unfold dropped. simpl.
      rewrite app_nil_r. split_and!; [set_solver|done|]. right. left.
      destruct (decide (id ∈ br_subscribers b)); tauto.
    + destruct (remove_other i None b id Hne) as [? ?]. apply untouched; [congruence|done].
  - unfold receive in Hact. destruct (br_channels b !! i) as [si|] eqn:Hi; [|by simplify_eq].
    destruct (sub_events si) as [|e rest] eqn:He; simplify_eq; [done|]. unfold handed_to. simpl.
    destruct (decide (i = id)) as [->|Hne].
    + simplify_eq. eexists. simpl. rewrite lookup_insert_eq. split_and!; [done|done|].
      rewrite bool_decide_eq_true_2 by done. simpl. unfold kept_up, dropped. simpl.
      rewrite He, app_nil_r. destruct (decide (id ∈ br_subscribers b)); [left|right]; tauto.
    + rewrite bool_decide_eq_false_2 by done.
      match goal with |- ∃ _, _ ∧ _ ∧ (kept_up _ _ _ _ _ ?b1 _ ∨ _) => apply (untouched b id s b1) end;
        simpl; [|done]. by rewrite lookup_insert_ne.
Qed.

Lemma act_bufferSize a b p g b' : act a b = (p, g, b') → br_bufferSize b' = br_bufferSize b.
Proof.
  assert (∀ ev l b0, br_bufferSize (foldr (offer ev) b0 l) = br_bufferSize b0) as Hfold.
  { intros ev l b0. induction l as [|i l IH]; [done|]. cbn [foldr]. by rewrite (proj1 (offer_static _ _ _)). }
  destruct a as [c ev|c sid|i|i]; simpl; intros Hact.
  - unfold Publish in Hact. unfold_monad. repeat (case_match; simplify_eq/=); rewrite ?Hfold; done.
  - simplify_eq. unfold Subscribe. unfold_monad. by repeat case_match.
  - simplify_eq. unfold Close, removeSubscriberLocked. by repeat case_match.
  - unfold receive in Hact. by repeat case_match; simplify_eq.
Qed.

(** ** No gaps

    What a subscriber is owed between two moments: what was in its channel and
    what was published for its session since. *)
Definition owed (s : eventSubscriber) (p : list Event) : list Event :=
  sub_events s ++ for_session (sub_sessionID s) p.

Lemma handed_app id g g' : handed_to id (g ++ g') = handed_to id g ++ handed_to id g'.
Proof. unfold handed_to. by rewrite List.filter_app, map_app. Qed.

Lemma for_session_app sid p p' : for_session sid (p ++ p') = for_session sid p ++ for_session sid p'.
Proof. apply List.filter_app. Qed.

Definition run_outcome (b : EventBroker) (id : N) (s : eventSubscriber) (p : list Event) (g : list (N * Event))
    (b' : EventBroker) (s' : eventSubscriber) : Prop :=
  (id ∈ br_subscribers b → id ∈ br_subscribers b' →
     owed s p = handed_to id g ++ sub_events s' ∧ sub_done s' = []) ∧
  ((id ∉ br_subscribers b') →
     (handed_to id g ++ sub_events s') `prefix_of` owed s p ∧
     (id ∈ br_subscribers b → sub_done s' = [] ∨ sub_done s' = [ErrEventSubscriberSlow])) ∧
  ((id ∉ br_subscribers b) →
     (id ∉ br_subscribers b') ∧ sub_events s = handed_to id g ++ sub_events s' ∧ sub_done s' = sub_done s).

Lemma play_one l b p g b' id s :
  bwf b → (br_nextID b + N.of_nat (length l) < u64_max)%N → br_channels b !! id = Some s → play l b = (p, g, b') →
  ∃ s', br_channels b' !! id = Some s' ∧ sub_sessionID s' = sub_sessionID s ∧ run_outcome b id s p g b' s'.
Proof.
  revert b p g s. induction l as [|a l IH]; intros b p g s Hb Hlt Hs Hplay; cbn [play length] in *.
  { simplify_eq. exists s. split_and!; [done|done|]. unfold run_outcome, owed. simpl.
    rewrite app_nil_r. split_and!; try done.
    intros Hin _. destruct (bw_live _ Hb _ Hin) as (s0 & Hs0 & _ & Hd). simplify_eq. done. }
  destruct (act a b) as [[p1 g1] b1] eqn:Ha. destruct (play l b1) as [[p2 g2] b2] eqn:Hp. simplify_eq.
  destruct (act_one a b p1 g1 b1 id s Hb ltac:(lia) Hs Ha) as (s1 & Hs1 & Hsid1 & Hor).
  destruct (act_wf a b p1 g1 b1 Hb ltac:(lia) Ha) as [Hb1 Hn].
  destruct (IH b1 p2 g2 s1 Hb1 ltac:(lia) Hs1 Hp) as (s2 & Hs2 & Hsid2 & O1 & O2 & O3).
  exists s2. split_and!; [done|congruence|].
  unfold run_outcome, owed in *. rewrite handed_app, for_session_app. rewrite Hsid1 in *.
  destruct Hor as [(Hi & Hi1 & Hev & Hd)|(Hi1 & Hev & Hd)].
  - rewrite !(assoc_L (++)), Hev, <- !(assoc_L (++)). split_and!; [intros _ Hi2|intros Hi2|done].
    + destruct (O1 Hi1 Hi2) as [-> ?]. done.
    + destruct (O2 Hi2) as [Hpre Hdone]. split; [by apply prefix_app|]. auto.
  - destruct (O3 Hi1) as (Hi2 & Hev2 & Hd2). rewrite Hev, Hev2. split_and!; [done| |].
    + intros _. rewrite <- !(assoc_L (++)). split; [do 2 apply prefix_app; apply prefix_app_r; done|].
      intros Hin. destruct (bw_live _ Hb _ Hin) as (s0 & Hs0 & _ & Hd0). simplify_eq. rewrite Hd2.
      destruct Hd as [[? _]|[[_ ->]|[_ [-> _]]]]; [done|rewrite Hd0; by left|rewrite Hd0; by right].
    + intros Hni. split_and!; [done|by rewrite (assoc_L (++))|]. rewrite Hd2.
      destruct Hd as [[_ ->]|[[? _]|[? _]]]; done.
Qed.

Lemma play_wf l b p g b' :
  bwf b → (br_nextID b + N.of_nat (length l) < u64_max)%N → play l b = (p, g, b') →
  bwf b' ∧ (br_nextID b' ≤ br_nextID b + N.of_nat (length l))%N ∧ br_bufferSize b' = br_bufferSize b.
Proof.
  revert b p g. induction l as [|a l IH]; intros b p g Hb Hlt Hplay; cbn [play length] in *.
  { simplify_eq. split_and!; [done|lia|done]. }
  destruct (act a b) as [[p1 g1] b1] eqn:Ha. destruct (play l b1) as [[p2 g2] b2] eqn:Hp. simplify_eq.
  destruct (act_wf a b p1 g1 b1 Hb ltac:(lia) Ha) as [Hb1 Hn].
  destruct (IH b1 p2 g2 Hb1 ltac:(lia) Hp) as (? & ? & ->). split_and!; [done|lia|].
  by eapply act_bufferSize.
Qed.

(** C15. A subscription has no gaps.  Take any history of a broker in which
    fewer than 2^64 operations happen, a subscription made somewhere in it,
    and any operations after it, by anybody: publications (for any session,
    with any context), other subscriptions, closings and reads.  The client's
    channel never holds more than the buffer size.  While the subscription
    lives, the events the client has read followed by those waiting in its
    channel are exactly the events published for its session since it
    subscribed, in the order and with the sequence numbers they were published
    with.  Once it is over, they are a prefix of them, and the reason left in
    [Done] is nothing (closed by the client or its context) or that it was too
    slow. *)
Theorem subscription_gapless size before after c sid p0 g0 b0 id b1 p g b2 :
  (N.of_nat (length before + length after) + 1 < u64_max)%N →
  play before (NewEventBroker size) = (p0, g0, b0) →
  Subscribe c sid b0 = (Ok id, b1) →
  play after b1 = (p, g, b2) →
  ∃ s, br_channels b2 !! id = Some s ∧ length (sub_events s) ≤ br_bufferSize (NewEventBroker size) ∧
    (id ∈ br_subscribers b2 →
       handed_to id g ++ sub_events s = for_session sid p ∧ sub_done s = []) ∧
    ((id ∉ br_subscribers b2) →
       (handed_to id g ++ sub_events s) `prefix_of` for_session sid p ∧
       (sub_done s = [] ∨ sub_done s = [ErrEventSubscriberSlow])).
Proof.
  intros Hlen Hbefore Hsub Hafter.
  assert (bwf (NewEventBroker size)) as Hnew by (split; simpl; set_solver).
  destruct (play_wf before _ p0 g0 b0 Hnew ltac:(simpl; lia) Hbefore) as (Hb0 & Hn0 & Hz0). simpl in Hn0.
  unfold Subscribe in Hsub. go_run Hsub. rewrite u64_add_small in * by lia.
  pose proof (subscribe_wf b0 sid Hb0 ltac:(lia)) as Hb1.
  destruct (play_wf after _ p g b2 Hb1 ltac:(simpl; lia) Hafter) as (Hb2 & _ & Hz2).
  destruct (play_one after _ p g b2 (br_nextID b0 + 1)%N (mkSubscriber sid [] [] false) Hb1 ltac:(simpl; lia))
    as (s & Hs & Hsid & O1 & O2 & _); [simpl; by rewrite lookup_insert_eq|done|].
  simpl in O1, O2. exists s. split_and!; [done| | |].
  - pose proof (bw_bound _ Hb2 _ _ Hs) as Hle. rewrite Hz2 in Hle. simpl in Hle. by rewrite Hz0 in Hle.
  - intros Hin. destruct (O1 ltac:(set_solver) Hin) as [Ho Hd]. done.
  - intros Hni. destruct (O2 Hni) as [Ho Hd]. split; [done|]. apply Hd. set_solver.
Qed.

(** Two subscribers with a buffer of one; the first reads in time, the second
    does not and is dropped at the second event. *)
Definition demo_event (sid payload : string) : Event := mkEvent 0 sid "t1" "" EventModelDelta payload 0%Z.
Definition demo_before : list action := [ASubscribe Background "s1"; APublish Background (demo_event "s1" "a")].
Definition demo_after : list action :=
  [APublish Background (demo_event "s1" "b"); APublish Background (demo_event "s2" "x"); AReceive 3%N;
   APublish Background (demo_event "s1" "c")].

Example demo_slow :
  let '(_, g, b) := play demo_after (snd (Subscribe Background "s1" (snd (play demo_before (NewEventBroker 1))))) in
  elements (br_subscribers b) = [3%N] ∧ map (λ e, ev_Payload e) (handed_to 3 g) = ["b"] ∧
  sub_done <$> br_channels b !! 1%N = Some [ErrEventSubscriberSlow].
Proof. vm_compute. done. Qed.

Lemma subscription_gapless_witness :
  let b1 := snd (Subscribe Background "s1" (snd (play demo_before (NewEventBroker 1)))) in
  let '(p, g, b2) := play demo_after b1 in
  ∃ s, br_channels b2 !! 3%N = Some s ∧ length (sub_events s) ≤ br_bufferSize (NewEventBroker 1) ∧
    (3%N ∈ br_subscribers b2 →
       handed_to 3 g ++ sub_events s = for_session "s1" p ∧ sub_done s = []) ∧
    ((3%N ∉ br_subscribers b2) →
       (handed_to 3 g ++ sub_events s) `prefix_of` for_session "s1" p ∧
       (sub_done s = [] ∨ sub_done s = [ErrEventSubscriberSlow])).
Proof.
  intros b1. destruct (play demo_after b1) as [[p g] b2] eqn:E.
  apply (subscription_gapless 1 demo_before demo_after Background "s1"
    (fst (fst (play demo_before (NewEventBroker 1)))) (snd (fst (play demo_before (NewEventBroker 1))))
    (snd (play demo_before (NewEventBroker 1))) 3%N b1 p g b2).
  - vm_compute. reflexivity.
  - reflexivity.
  - vm_compute. reflexivity.
  - exact E.
Defined.
