(* ===== verification/AgentLoop.v ===== *)
(** * agent/runtime: the loop

    [loop.go]: one turn of a session, from the user's prompt (or an approved
    call that is resumed) through model steps and tool calls to its end.  The
    code is written against the interfaces the Go code uses: the [Store], the
    tool engine, the model, the approval coordinator, the event sink and the
    identifier source, all of them computations over one state [St] that any
    of them may change.  [encoding/json] on the structs is a parameter, too:
    an encoding may fail. *)

From S2P Require Import Prelude Json ToolTypes ToolDisclosure AgentTypes AgentEvents AgentContext.

Definition ErrStepBudgetExceeded : error :=
  ESentinel "runtime.ErrStepBudgetExceeded" "agent step budget exceeded".
Definition ErrInvalidModelCall : error := ESentinel "runtime.ErrInvalidModelCall" "invalid model tool call".
Definition ErrApprovalNotFound : error := ESentinel "runtime.ErrApprovalNotFound" "agent approval not found".
Definition ErrApprovalConflict : error := ESentinel "runtime.ErrApprovalConflict" "agent approval state conflict".
Definition ErrApprovalExpired : error := ESentinel "runtime.ErrApprovalExpired" "agent approval expired".

Inductive ApprovalStatus :=
| ApprovalPending | ApprovalApproved | ApprovalDenied | ApprovalExpired | ApprovalConsumed
| ApprovalStatusOther (n : N).
#[global] Instance ApprovalStatus_eq : EqDecision ApprovalStatus. Proof. solve_decision. Defined.
Definition approval_u8 (s : ApprovalStatus) : N :=
  match s with
  | ApprovalPending => 0 | ApprovalApproved => 1 | ApprovalDenied => 2 | ApprovalExpired => 3
  | ApprovalConsumed => 4 | ApprovalStatusOther n => n
  end.

Record ApprovalRequest := mkApproval {
  ap_ID : string;
  ap_SessionID : string;
  ap_TurnID : string;
  ap_StepID : string;
  ap_RequestedBy : N;
  ap_Invocation : ToolInvocation;
  ap_Snapshot : ToolSetSnapshot;
  ap_InputSHA256 : string;
  ap_Reason : string;
  ap_Risk : RiskLevel;
  ap_ExpiresAt : Time;
  ap_AttachmentEpoch : N
}.
#[global] Instance ApprovalRequest_eq : EqDecision ApprovalRequest. Proof. solve_decision. Defined.

Record ApprovalView := mkApprovalView {
  av_ID : string;
  av_TurnID : string;
  av_StepID : string;
  av_Status : ApprovalStatus;
  av_ToolID : ToolID;
  av_Input : string;
  av_InputSHA256 : string;
  av_Reason : string;
  av_Risk : RiskLevel;
  av_ExpiresAt : Time;
  av_DecisionNote : string;
  av_DecidedAt : option Time
}.

(** The model's side ([model.go]). *)
Record ModelTool := mkModelTool { mt_Name : string; mt_Description : string; mt_InputSchema : string }.
Record ModelSelection := mkSelection { sel_ProviderID : string; sel_Model : string }.
#[global] Instance ModelSelection_eq : EqDecision ModelSelection. Proof. solve_decision. Defined.
Record ModelRequest := mkModelRequest {
  mr_Selection : ModelSelection;
  mr_SessionID : string;
  mr_TurnID : string;
  mr_Messages : list ModelMessage;
  mr_Tools : list ModelTool;
  mr_ToolSnapshotID : string
}.
Record ModelUsage := mkUsage { InputTokens : Z; OutputTokens : Z }.
Record ModelResponse := mkResponse { res_Text : string; res_ToolCalls : list ModelToolCall; res_Usage : ModelUsage }.
Inductive ModelEventKind := ModelTextDelta | ModelReasoningDelta.
Record ModelEvent := mkModelEvent { me_Kind : ModelEventKind; me_Delta : string }.

Definition modelTools (snapshot : ToolSetSnapshot) : list ModelTool :=
  map (λ ex, mkModelTool (ModelName (d_ID (ex_Descriptor ex))) (d_Description (ex_Descriptor ex))
    (d_InputSchema (ex_Descriptor ex))) (ss_Tools snapshot).

(** ** What the loop is built from *)
Record ApprovalResolution (St : Type) := mkResolution {
  Get : ctx → string → Op St (ApprovalRequest * ApprovalStatus);
  List_ : ctx → string → Op St (list ApprovalView)
}.
Arguments Get {St} _ _ _.
Arguments List_ {St} _ _ _.

Record ApprovalDecision (St : Type) := mkApprovalDecision {
  Decide : ctx → string → N → bool → string → Op St unit;
  GetApproved : ctx → string → Principal → Op St ApprovalRequest;
  Consume : ctx → string → Principal → Op St ApprovalRequest;
  resolution : option (ApprovalResolution St)
}.
Arguments Decide {St} _ _ _ _ _ _.
Arguments GetApproved {St} _ _ _ _.
Arguments Consume {St} _ _ _ _.
Arguments resolution {St} _.

(** An [ApprovalCoordinator]; [decision] and [resolution] are what the type
    assertions to the larger interfaces find. *)
Record ApprovalCoordinator (St : Type) := mkCoordinator {
  Request : ctx → ApprovalRequest → Op St unit;
  decision : option (ApprovalDecision St)
}.
Arguments Request {St} _ _ _.
Arguments decision {St} _.

Class World (St : Type) := {
  NewID : string → Op St string;
  publish_event : ctx → Event → Op St unit;
  tools_BuildSnapshot : ctx → DisclosureRequest → Op St ToolSetSnapshot;
  tools_Execute : ctx → ToolSetSnapshot → ToolInvocation → Op St ToolResult;
  tools_ExecuteApproved : ctx → ToolSetSnapshot → ToolInvocation → ApprovalGrant → Op St ToolResult;
  Generate : ctx → ModelRequest → (ctx → ModelEvent → Op St unit) → Op St ModelResponse;
  approvals : ApprovalCoordinator St
}.

Class Codec := {
  marshal_references : list ResourceReference → Result string;
  marshal_model_input : ModelSelection → list ModelMessage → ToolSetSnapshot → Result string;
  marshal_model_event : ModelEvent → Result string;
  marshal_response : ModelResponse → Result string;
  marshal_tool_result : ToolResult → Result string;
  marshal_approval_required : string → string → Result string;
  marshal_approval_resolved : string → bool → Result string;
  unmarshal_selection : string → Result ModelSelection;
  unmarshal_tool_ids : string → Result (list string)
}.

Record LoopConfig := mkConfig { MaxModelSteps : Z; ApprovalExpiry : Z }.
Definition DefaultLoopConfig : LoopConfig := mkConfig 12 (15 * 60 * 1000000000).
(** What [NewLoop] makes of the configuration it is given. *)
Definition effective_config (config : LoopConfig) : LoopConfig :=
  mkConfig (if Z.leb (MaxModelSteps config) 0 then MaxModelSteps DefaultLoopConfig else MaxModelSteps config)
    (if Z.leb (ApprovalExpiry config) 0 then ApprovalExpiry DefaultLoopConfig else ApprovalExpiry config).

Record RunRequest := mkRunRequest {
  rr_References : list ResourceReference;
  rr_Selection : ModelSelection;
  rr_SessionID : string;
  rr_TurnID : string;
  rr_Prompt : string;
  rr_Principal : Principal;
  rr_PolicyRevision : string;
  rr_Budget : DisclosureBudget
}.
#[global] Instance eta_RunRequest : Eta RunRequest := {| eta := λ r,
  mkRunRequest (rr_References r) (rr_Selection r) (rr_SessionID r) (rr_TurnID r) (rr_Prompt r) (rr_Principal r)
    (rr_PolicyRevision r) (rr_Budget r) |}.

Record RunResult := mkRunResult { r_Turn : Turn; r_Text : string; r_ApprovalID : string }.
#[global] Instance eta_RunResult : Eta RunResult := {| eta := λ r,
  mkRunResult (r_Turn r) (r_Text r) (r_ApprovalID r) |}.

(** [Turn{}] and [RunResult{}]. *)
Definition zero_Turn : Turn := new_Turn "".
Definition zero_Result : RunResult := mkRunResult zero_Turn "" "".
Definition of_turn (t : Turn) : RunResult := mkRunResult t "" "".

(** ** The pure helpers *)
Definition validateRunRequest (request : RunRequest) (resuming : bool) : option error :=
  if bool_decide (rr_SessionID request = "") ||
     (negb resuming && bool_decide (TrimSpace (rr_Prompt request) = ""))
  then Some (ENew "session ID and prompt are required for a new turn")
  else if bool_decide (UserID (rr_Principal request) = 0%N) || bool_decide (OrganizationID (rr_Principal request) = 0%N)
  then Some (ENew "authenticated principal is required")
  else None.

Definition resolveModelCall (snapshot : ToolSetSnapshot) (call : ModelToolCall) : Result ExposedTool :=
  if bool_decide (mc_ID call = "") || bool_decide (mc_Name call = "") || bool_decide (mc_Input call = "") ||
     negb (Json.Valid (mc_Input call))
  then Err (wrapf ErrInvalidModelCall "id, name and JSON input are required")
  else match List.find (λ ex, bool_decide (ModelName (d_ID (ex_Descriptor ex)) = mc_Name call)) (ss_Tools snapshot) with
  | Some exposed => Ok exposed
  | None => Err (wrapf ErrInvalidModelCall (mc_Name call +:+ " is not exposed by snapshot " +:+ ss_ID snapshot))
  end.

Definition supportsProtocol (protocols : list Protocol) (protocol : Protocol) : bool :=
  bool_decide (protocols = []) ||
  existsb (λ p, bool_decide (p = ProtocolAny) || bool_decide (p = protocol)) protocols.

Definition bindAttachment (attachments : list AttachmentSnapshot) (primary : string) (d : ToolDescriptor)
    : AttachmentSnapshot :=
  let supported a := supportsProtocol (d_Protocols d) (as_Protocol a) in
  let preferred :=
    if bool_decide (primary ≠ "")
    then List.find (λ a, bool_decide (as_ID a = primary) && supported a) attachments else None in
  match preferred with
  | Some a => a
  | None => default no_attachment (List.find supported attachments)
  end.

Definition attachmentStillCurrent (current : list AttachmentSnapshot) (frozen : AttachmentSnapshot) : bool :=
  if bool_decide (as_ID frozen = "") then true else
  match List.find (λ a, bool_decide (as_ID a = as_ID frozen)) current with
  | Some a =>
      bool_decide (as_Generation a = as_Generation frozen) && bool_decide (as_AccessID a = as_AccessID frozen) &&
      bool_decide (as_ApplicationID a = as_ApplicationID frozen) && bool_decide (as_Protocol a = as_Protocol frozen)
  | None => false
  end.

Definition appendUniqueTools (current ids : list ToolID) : list ToolID :=
  foldl (λ cur id, if existsb (λ x, bool_decide (x = id)) cur then cur else cur ++ [id]) current ids.
Definition appendUniqueTool (current : list ToolID) (id : ToolID) : list ToolID := appendUniqueTools current [id].

Definition messageValues (messages : list Message) : list ModelMessage := map m_Value messages.

Definition firstUserPrompt (messages : list ModelMessage) : string :=
  match List.find (λ m, bool_decide (mm_Role m = RoleUser)) messages with
  | Some m => mm_Content m
  | None => "continue"
  end.

Definition describedToolIDs `{!Codec} (input : string) : list ToolID :=
  match unmarshal_tool_ids input with
  | Err _ => []
  | Ok values => omap (λ v, match ParseToolID v with Ok id => Some id | Err _ => None end) values
  end.

(** A message as it is sent: its references spelled out in the text. *)
Definition spell_references `{!Codec} (m : ModelMessage) : Result ModelMessage :=
  if bool_decide (mm_References m = []) then Ok m else
  match marshal_references (mm_References m) with
  | Ok encoded => Ok (m<| mm_Content := mm_Content m +:+ references_text +:+ encoded |>)
  | Err e => Err e
  end.
Fixpoint spell_all `{!Codec} (ms : list ModelMessage) : Result (list ModelMessage) :=
  match ms with
  | [] => Ok []
  | m :: rest =>
      match spell_references m with
      | Err e => Err e
      | Ok m' => match spell_all rest with Ok rest' => Ok (m' :: rest') | Err e => Err e end
      end
  end.

Definition system_context (session : Session) (attachments : list AttachmentSnapshot) (primary : string) : ModelMessage :=
  if bool_decide (s_Kind session = SessionShell)
  then let m := shellContext attachments primary in m<| mm_Content := mm_Content m +:+ analysis_text |>
  else if bool_decide (s_Kind session = SessionManagement) then managementContext
  else connectionContext attachments primary.

(** ** Code with early returns

    A block of [run] goes on with a value or returns from the function. *)
Inductive flow (A : Type) := Go_on (a : A) | Return (r : RunResult) (e : option error).
Arguments Go_on {A} _.
Arguments Return {A} _ _.

Section Flow.
Context {St : Type}.
(** What a [return] statement evaluates to. *)
Definition Exit := St → (RunResult * option error) * St.
Definition K A := St → flow A * St.

Definition go_on {A} (a : A) : K A := λ σ, (Go_on a, σ).
Definition then_ {A B} (m : K A) (k : A → K B) : K B := λ σ,
  match m σ with
  | (Go_on a, σ') => k a σ'
  | (Return r e, σ') => (Return r e, σ')
  end.
Definition give (r : RunResult) (e : option error) : Exit := λ σ, ((r, e), σ).
Definition stop (r : RunResult) (e : error) : Exit := give r (Some e).
Definition exit {A} (m : Exit) : K A := λ σ, let '((r, e), σ') := m σ in (Return r e, σ').

(** [if err != nil { return ... }] after a call. *)
Definition or_exit {A} (m : Op St A) (h : error → Exit) : K A := λ σ,
  match m σ with
  | (Ok a, σ') => (Go_on a, σ')
  | (Err e, σ') => exit (h e) σ'
  end.
(** The call, its error kept as a value. *)
Definition try_ {A} (m : Op St A) : K (Result A) := λ σ, let '(r, σ') := m σ in (Go_on r, σ').
Definition exit_if (b : bool) (m : Exit) : K unit := if b then exit m else go_on tt.
(** The rest of the function after a block. *)
Definition finally {A} (m : K A) (k : A → Exit) : Exit := λ σ,
  match m σ with
  | (Go_on a, σ') => k a σ'
  | (Return r e, σ') => ((r, e), σ')
  end.
End Flow.
Arguments Exit : clear implicits.
Arguments K : clear implicits.

Notation "'do!' x := m 'in' k" := (then_ m (λ x, k))
  (at level 10, x name, m at level 100, k at level 200) : go_scope.
Notation "'do!' ' p := m 'in' k" := (then_ m (λ p, k))
  (at level 10, p strict pattern, m at level 100, k at level 200) : go_scope.
Notation "'exec!' m ;; k" := (then_ m (λ _, k))
  (at level 10, m at level 99, k at level 200) : go_scope.

(** The variables [run] updates while it goes round. *)
Record vars := mkVars {
  v_turn : Turn;
  v_messages : list ModelMessage;
  v_promoted : list ToolID;
  v_recent : list ToolID;
  v_text : string
}.
#[global] Instance eta_vars : Eta vars := {| eta := λ v,
  mkVars (v_turn v) (v_messages v) (v_promoted v) (v_recent v) (v_text v) |}.

(** [RunResult{Turn: turn, Text: finalText.String()}]. *)
Definition here (v : vars) : RunResult := mkRunResult (v_turn v) (v_text v) "".

Module Loop.
Section Run.
Context {St : Type} `{!Store St, !Env St, !World St, !Codec} (config : LoopConfig).

Definition publish (c : ctx) (sessionID turnID stepID : string) (eventType : EventType) (payload : string)
    : Op St unit := λ σ,
  let '(now, σ1) := clock σ in
  publish_event c (mkEvent 0 sessionID turnID stepID eventType payload now) σ1.

Definition failTurn (turn : Turn) (code : string) (cause : error) : Exit St := λ σ,
  match call_uncancelled (λ c now, TransitionTurn c now (t_ID turn) (t_Version turn) TurnFailed code (Error cause)) σ with
  | (Err err, σ1) => ((of_turn turn, Join (Some cause) (Some err)), σ1)
  | (Ok failed, σ1) =>
      match call (λ c, publish (WithoutCancel c) (t_AgentSessionID failed) (t_ID failed) "" EventTurnFailed "") σ1 with
      | (Ok _, σ2) => ((of_turn failed, Some cause), σ2)
      | (Err publishErr, σ2) => ((of_turn failed, Join (Some cause) (Some publishErr)), σ2)
      end
  end.

Definition appendMessage (sessionID turnID : string) (message : ModelMessage) : Op St unit :=
  let! messageID := map_err (λ e, EWrap "create message ID: " e "") (NewID "message") in
  map_err (λ e, EWrap "persist agent message: " e "")
    (call_at (λ c now, AppendMessage c now (mkMessage messageID sessionID turnID 0 message 0%Z))) ;;
  ret tt.

(** [turn, step, err = loop.store.AppendStep(...)]: an error comes with
    [Turn{}], which the variable [turn] then holds. *)
Definition append_step (v : vars) (step : Step) : K St (vars * Step) := λ σ,
  match call_at (λ c now, AppendStep c now (t_ID (v_turn v)) (t_Version (v_turn v)) step) σ with
  | (Ok (turn, stored), σ1) => (Go_on (v<| v_turn := turn |>, stored), σ1)
  | (Err e, σ1) => exit (stop (here (v<| v_turn := zero_Turn |>)) e) σ1
  end.

(** *** A tool call *)

(** The tool asks for approval: the request is stored, the step and the turn
    wait, and the run returns. *)
Definition await_approval (request : RunRequest) (snapshot : ToolSetSnapshot) (v : vars) (toolStep : Step)
    (required : ApprovalRequiredError) : K St vars :=
  do! approvalID := or_exit (NewID "approval") (stop (here v)) in
  do! now := (λ σ, let '(now, σ1) := clock σ in (Go_on now, σ1)) in
  let inv := are_Invocation required in
  let approval := mkApproval approvalID (rr_SessionID request) (t_ID (v_turn v)) (st_ID toolStep)
    (UserID (rr_Principal request)) inv snapshot (InputDigest (tc_Input (inv_Call inv)))
    (dec_Reason (are_Decision required)) (dec_Risk (are_Decision required)) (now + ApprovalExpiry config)%Z
    (as_Generation (b_Attachment (inv_Binding inv))) in
  exec! or_exit (call (λ c, Request approvals c approval)) (λ e, stop (here v) (EWrap "persist approval: " e "")) ;;
  exec! or_exit (call_at (λ c now, WaitStepApproval c now (st_ID toolStep))) (stop (here v)) ;;
  do! waiting := or_exit (call_at (λ c now, TransitionTurn c now (t_ID (v_turn v)) (t_Version (v_turn v))
    TurnWaitingApproval "" "")) (stop (here v)) in
  let result := mkRunResult waiting (v_text v) approvalID in
  do! payload := or_exit (lift (marshal_approval_required approvalID (ap_Reason approval)))
    (λ e, stop result (EWrap "encode approval event: " e "")) in
  exec! or_exit (call (λ c, publish c (rr_SessionID request) (t_ID waiting) (st_ID toolStep) EventApprovalRequired payload))
    (stop result) ;;
  exit (give result None).

Definition tool_call (request : RunRequest) (kind : SessionKind) (attachments : list AttachmentSnapshot)
    (primary : string) (snapshot : ToolSetSnapshot) (v : vars) (modelCall : ModelToolCall) : K St vars :=
  do! exposed := or_exit (lift (resolveModelCall snapshot modelCall)) (stop (here v)) in
  let d := ex_Descriptor exposed in
  do! toolStepID := or_exit (NewID "step") (λ e, stop (here v) (EWrap "create tool step ID: " e "")) in
  let binding := mkBinding kind (rr_Principal request) (bindAttachment attachments primary d) (ss_ID snapshot) in
  let invocation := mkInvocation (mc_ID modelCall) (mkToolCall (d_ID d) (mc_Input modelCall)) binding
    (ex_RegistrationGeneration exposed) in
  do! ' (v, toolStep) := append_step v
    (new_Step toolStepID StepTool (Some (d_ID d)) (ss_ID snapshot) (mc_Input modelCall)) in
  exec! or_exit (call (λ c, publish c (rr_SessionID request) (t_ID (v_turn v)) (st_ID toolStep) EventToolStarted ""))
    (stop (here v)) ;;
  do! executed := try_ (call (λ c, tools_Execute c snapshot invocation)) in
  match executed with
  | Err executeErr =>
      match As executeErr with
      | Some required => await_approval request snapshot v toolStep required
      | None =>
          do! failed := try_ (call_uncancelled (λ c now, FailStep c now (st_ID toolStep) "tool_error" (Error executeErr))) in
          let failErr := match failed with Err e => Some e | Ok _ => None end in
          exit (give (here v)
            (Join (Some (EWrap ("execute model tool call " +:+ mc_Name modelCall +:+ ": ") executeErr "")) failErr))
      end
  | Ok toolResult =>
      do! encodedResult := or_exit (lift (marshal_tool_result toolResult))
        (λ e, stop (here v) (EWrap "encode tool result: " e "")) in
      exec! or_exit (call_at (λ c now, CompleteStep c now (st_ID toolStep) encodedResult)) (stop (here v)) ;;
      let toolMessage := mkModelMessage [] RoleTool encodedResult [] (mc_ID modelCall) (mc_Name modelCall) in
      let v := v<| v_messages := v_messages v ++ [toolMessage] |> in
      exec! or_exit (appendMessage (rr_SessionID request) (t_ID (v_turn v)) toolMessage) (stop (here v)) ;;
      let v := v<| v_recent := appendUniqueTool (v_recent v) (d_ID d) |> in
      let v := if bool_decide (d_ID d = ToolDescribeID) && negb (tr_IsError toolResult)
        then v<| v_promoted := appendUniqueTools (v_promoted v) (describedToolIDs (mc_Input modelCall)) |> else v in
      exec! or_exit (call (λ c, publish c (rr_SessionID request) (t_ID (v_turn v)) (st_ID toolStep) EventToolCompleted
        encodedResult)) (stop (here v)) ;;
      go_on v
  end.

Fixpoint tool_calls (request : RunRequest) (kind : SessionKind) (attachments : list AttachmentSnapshot)
    (primary : string) (snapshot : ToolSetSnapshot) (calls : list ModelToolCall) (v : vars) : K St vars :=
  match calls with
  | [] => go_on v
  | modelCall :: rest =>
      do! v := tool_call request kind attachments primary snapshot v modelCall in
      tool_calls request kind attachments primary snapshot rest v
  end.

(** *** A model step *)

(** The turn ends with the model's answer. *)
Definition complete_turn (request : RunRequest) (v : vars) : K St vars :=
  do! completed := or_exit (call_at (λ c now, TransitionTurn c now (t_ID (v_turn v)) (t_Version (v_turn v))
    TurnCompleted "" "")) (stop (here v)) in
  let v := v<| v_turn := completed |> in
  exec! or_exit (call (λ c, publish c (rr_SessionID request) (t_ID (v_turn v)) "" EventTurnCompleted "")) (stop (here v)) ;;
  exit (give (here v) None).

(** The sink the model streams to. *)
Definition emit (request : RunRequest) (turnID stepID : string) : ctx → ModelEvent → Op St unit := λ c event,
  let! payload := map_err (λ e, EWrap "encode model event: " e "") (lift (marshal_model_event event)) in
  publish c (rr_SessionID request) turnID stepID EventModelDelta payload.

(** The call of the model and what is recorded of its answer. *)
Definition generate (request : RunRequest) (snapshot : ToolSetSnapshot) (sent : list ModelMessage) (v : vars)
    (modelStep : Step) : K St (vars * ModelResponse) :=
  do! generated := try_ (call (λ c, Generate c
    (mkModelRequest (rr_Selection request) (rr_SessionID request) (t_ID (v_turn v)) sent (modelTools snapshot)
      (ss_ID snapshot))
    (emit request (t_ID (v_turn v)) (st_ID modelStep)))) in
  match generated with
  | Err modelErr =>
      do! failed := try_ (call_uncancelled (λ c now, FailStep c now (st_ID modelStep) "model_error" (Error modelErr))) in
      let failErr := match failed with Err e => Some e | Ok _ => None end in
      exit (give (here v) (Join (Some (EWrap "generate model response: " modelErr "")) failErr))
  | Ok response =>
      do! modelOutput := or_exit (lift (marshal_response response))
        (λ e, stop (here v) (EWrap "encode model response: " e "")) in
      exec! or_exit (call_at (λ c now, CompleteStep c now (st_ID modelStep) modelOutput)) (stop (here v)) ;;
      let assistantMessage := mkModelMessage [] RoleAssistant (res_Text response) (res_ToolCalls response) "" "" in
      let v := v<| v_text := v_text v +:+ res_Text response |><| v_messages := v_messages v ++ [assistantMessage] |> in
      exec! or_exit (appendMessage (rr_SessionID request) (t_ID (v_turn v)) assistantMessage) (stop (here v)) ;;
      go_on (v, response)
  end.

Definition model_step (request : RunRequest) (v : vars) : K St vars :=
  do! currentSession := or_exit (call (λ c, GetSession c (rr_SessionID request))) (stop (here v)) in
  do! ' (attachments, primary) := or_exit (Context.loadAttachments currentSession) (stop (here v)) in
  let disclosure := mkRequest (s_Kind currentSession) (rr_Principal request) attachments primary (rr_Prompt request)
    (v_promoted v) (v_recent v) (rr_PolicyRevision request) (rr_Budget request) in
  do! snapshot := or_exit (call (λ c, tools_BuildSnapshot c disclosure))
    (λ e, stop (here v) (EWrap "build tool snapshot: " e "")) in
  do! stepID := or_exit (NewID "step") (λ e, stop (here v) (EWrap "create model step ID: " e "")) in
  do! contextMessages := or_exit
    (lift (spell_all (system_context currentSession attachments primary :: v_messages v)))
    (λ e, stop (of_turn (v_turn v)) (EWrap "encode references: " e "")) in
  do! modelInput := or_exit (lift (marshal_model_input (rr_Selection request) contextMessages snapshot))
    (λ e, stop (here v) (EWrap "encode model step input: " e "")) in
  do! ' (v, modelStep) := append_step v (new_Step stepID StepModel None (ss_ID snapshot) modelInput) in
  exec! or_exit (call_at (λ c now, SaveToolSnapshot c now (t_ID (v_turn v)) (st_ID modelStep) snapshot)) (stop (here v)) ;;
  do! ' (v, response) := generate request snapshot contextMessages v modelStep in
  if bool_decide (res_ToolCalls response = []) then complete_turn request v
  else tool_calls request (s_Kind currentSession) attachments primary snapshot (res_ToolCalls response) v.

(** The loop over [modelIndex]. *)
Fixpoint model_loop (steps_left : nat) (request : RunRequest) (v : vars) : Exit St :=
  match steps_left with
  | O => stop (here v) ErrStepBudgetExceeded
  | S n => finally (model_step request v) (model_loop n request)
  end.

(** The deferred function.  Every [return] it covers returns the variable
    [turn] in its result, so it is read there. *)
Definition deferred (body : Exit St) : Exit St := λ σ,
  let '((result, returnedErr), σ1) := body σ in
  match returnedErr with
  | Some err =>
      let turn := r_Turn result in
      if negb (Terminal (t_Status turn)) && bool_decide (t_Status turn ≠ TurnWaitingApproval) then
        match call_uncancelled (λ c now, TransitionTurn c now (t_ID turn) (t_Version turn) TurnFailed "runtime_error"
          (Error err)) σ1 with
        | (Ok failed, σ2) => ((result<| r_Turn := failed |>, returnedErr), σ2)
        | (Err transitionErr, σ2) => ((result, Join (Some err) (Some transitionErr)), σ2)
        end
      else ((result, returnedErr), σ1)
  | None => ((result, returnedErr), σ1)
  end.

(** *** The two ways in *)

(** A new turn: what [run] does with it before the history is read. *)
Definition start_turn (request : RunRequest) : K St vars :=
  do! turnID := (if bool_decide (rr_TurnID request = "")
    then or_exit (NewID "turn") (λ e, stop zero_Result (EWrap "create turn ID: " e ""))
    else go_on (rr_TurnID request)) in
  do! ' (_, queued) := or_exit (call_at (λ c now, StartTurn c now (rr_SessionID request) (new_Turn turnID)))
    (stop zero_Result) in
  do! turn := or_exit (call_at (λ c now, TransitionTurn c now (t_ID queued) (t_Version queued) TurnRunning "" ""))
    (stop zero_Result) in
  exec! or_exit (call (λ c, publish c (rr_SessionID request) (t_ID turn) "" EventTurnStarted ""))
    (failTurn turn "event_publish_failed") ;;
  let userMessage := user_message (rr_Prompt request) (rr_References request) in
  exec! or_exit (appendMessage (rr_SessionID request) (t_ID turn) userMessage)
    (failTurn turn "message_persist_failed") ;;
  go_on (mkVars turn [userMessage] [] [] "").

(** The selection of the turn's first model step, if it has one. *)
Definition restore_selection (turn : Turn) (steps : list Step) (request : RunRequest) : Result RunRequest :=
  match List.find (λ st, bool_decide (st_TurnID st = t_ID turn) && bool_decide (st_Kind st = StepModel)) steps with
  | None => Ok request
  | Some st =>
      match unmarshal_selection (st_Input st) with
      | Ok selection => Ok (request<| rr_Selection := selection |>)
      | Err e => Err e
      end
  end.

(** An approved call, up to the point where it has been claimed and the turn
    runs again: the approval, the turn and the request with the selection
    restored. *)
Definition claim_approved (request : RunRequest) (session : Session) (attachments : list AttachmentSnapshot)
    (approvalID : string) : K St (ApprovalRequest * Turn * RunRequest) :=
  match decision approvals with
  | None => exit (stop zero_Result (ENew "approval coordinator does not support resume"))
  | Some coordinator =>
      do! approval := or_exit (call (λ c, GetApproved coordinator c approvalID (rr_Principal request)))
        (stop zero_Result) in
      exec! exit_if (bool_decide (ap_SessionID approval ≠ rr_SessionID request))
        (stop zero_Result (ENew "approval does not belong to session")) ;;
      exec! exit_if (bool_decide (Effective (b_SessionKind (inv_Binding (ap_Invocation approval))) ≠ Effective (s_Kind session)))
        (stop zero_Result (wrapf ErrPolicyDenied "approval session kind mismatch")) ;;
      do! turn := or_exit (call (λ c, GetTurn c (ap_TurnID approval))) (stop zero_Result) in
      do! steps := or_exit (call (λ c, ListSessionSteps c (rr_SessionID request))) (stop zero_Result) in
      do! request := or_exit (lift (restore_selection turn steps request)) (stop zero_Result) in
      exec! exit_if (bool_decide (t_Status turn ≠ TurnWaitingApproval) || bool_decide (t_ActiveStepID turn ≠ ap_StepID approval))
        (stop zero_Result (wrapf ErrApprovalConflict "turn is not waiting for this approval")) ;;
      exec! exit_if (negb (attachmentStillCurrent attachments (b_Attachment (inv_Binding (ap_Invocation approval)))))
        (stop zero_Result (wrapf ErrStaleSnapshot "attachment changed while approval was pending")) ;;
      do! approval := or_exit (call (λ c, Consume coordinator c approvalID (rr_Principal request))) (stop zero_Result) in
      do! turn := or_exit (call_at (λ c now, TransitionTurn c now (t_ID turn) (t_Version turn) TurnRunning "" ""))
        (stop zero_Result) in
      exec! or_exit (call_at (λ c now, ResumeStep c now (ap_StepID approval))) (stop (of_turn turn)) ;;
      go_on (approval, turn, request)
  end.

Definition grant_of (approval : ApprovalRequest) : ApprovalGrant :=
  mkGrant (ap_ID approval) (inv_ID (ap_Invocation approval)) (tc_ID (inv_Call (ap_Invocation approval)))
    (ss_ID (ap_Snapshot approval)) (ap_InputSHA256 approval) (ap_AttachmentEpoch approval) (ap_ExpiresAt approval).

(** The frozen call, executed, recorded and put after the turn's messages. *)
Definition run_approved (request : RunRequest) (approval : ApprovalRequest) (turn : Turn) : K St (RunRequest * vars) :=
  let inv := ap_Invocation approval in
  do! executed := try_ (call (λ c, tools_ExecuteApproved c (ap_Snapshot approval) inv (grant_of approval))) in
  match executed with
  | Err executeErr =>
      do! failed := try_ (call_uncancelled (λ c now, FailStep c now (ap_StepID approval) "tool_error" (Error executeErr))) in
      exit (failTurn turn "tool_error" (match failed with Err e => EJoin executeErr e | Ok _ => executeErr end))
  | Ok toolResult =>
      do! encodedResult := or_exit (lift (marshal_tool_result toolResult)) (failTurn turn "tool_result_encode_failed") in
      exec! or_exit (call_at (λ c now, CompleteStep c now (ap_StepID approval) encodedResult))
        (failTurn turn "step_complete_failed") ;;
      do! stored := or_exit (call (λ c, ListMessages c (t_ID turn))) (failTurn turn "message_restore_failed") in
      let toolMessage := mkModelMessage [] RoleTool encodedResult [] (inv_ID inv) (ModelName (tc_ID (inv_Call inv))) in
      let messages := messageValues stored ++ [toolMessage] in
      exec! or_exit (appendMessage (rr_SessionID request) (t_ID turn) toolMessage) (failTurn turn "message_persist_failed") ;;
      let request := if bool_decide (rr_Prompt request = "")
        then request<| rr_Prompt := firstUserPrompt messages |> else request in
      let promoted := if bool_decide (tc_ID (inv_Call inv) = ToolDescribeID) && negb (tr_IsError toolResult)
        then describedToolIDs (tc_Input (inv_Call inv)) else [] in
      exec! or_exit (call (λ c, publish c (rr_SessionID request) (t_ID turn) (ap_StepID approval) EventToolCompleted
        encodedResult)) (failTurn turn "event_publish_failed") ;;
      go_on (request, mkVars turn messages promoted [tc_ID (inv_Call inv)] "")
  end.

(** The checks [run] makes before anything is changed. *)
Definition open_session (request : RunRequest) (resuming : bool) : K St (Session * list AttachmentSnapshot) :=
  exec! or_exit (check (validateRunRequest request resuming)) (stop zero_Result) ;;
  do! session := or_exit (call (λ c, GetSession c (rr_SessionID request))) (stop zero_Result) in
  exec! exit_if (bool_decide (s_CreatedBy session ≠ UserID (rr_Principal request)) ||
      bool_decide (s_OrganizationID session ≠ OrganizationID (rr_Principal request)))
    (stop zero_Result (ENew "agent session does not belong to principal")) ;;
  do! ' (attachments, _) := or_exit (Context.loadAttachments session) (stop zero_Result) in
  go_on (session, attachments).

Definition enter (request : RunRequest) (session : Session) (attachments : list AttachmentSnapshot)
    (approvalID : string) : K St (RunRequest * vars) :=
  if bool_decide (approvalID = "") then
    do! v := start_turn request in go_on (request, v)
  else
    do! ' (approval, turn, request) := claim_approved request session attachments approvalID in
    run_approved request approval turn.

(** The history put before the turn's messages; of a management session only
    the user's side. *)
Definition with_history (session : Session) (v : vars) : K St vars :=
  do! history := or_exit (Context.completedHistory (s_ID session) (t_ID (v_turn v)))
    (failTurn (v_turn v) "history_restore_failed") in
  let history := if bool_decide (s_Kind session = SessionManagement)
    then filter (λ m, mm_Role m = RoleUser) history else history in
  go_on (v<| v_messages := history ++ v_messages v |>).

Definition run (request : RunRequest) (approvalID : string) : Exit St :=
  finally (open_session request (bool_decide (approvalID ≠ ""))) (λ '(session, attachments),
  finally (enter request session attachments approvalID) (λ '(request, v),
  finally (with_history session v) (λ v,
  deferred (model_loop (Z.to_nat (MaxModelSteps config)) request v)))).

Definition Run (request : RunRequest) : Exit St := run request "".
Definition ResumeApproved (request : RunRequest) (approvalID : string) : Exit St :=
  if bool_decide (approvalID = "") then stop zero_Result (ENew "approval ID is required") else run request approvalID.

Definition ListApprovals (sessionID : string) : Op St (list ApprovalView) :=
  match decision approvals with
  | Some coordinator =>
      match resolution coordinator with
      | Some r => call (λ c, List_ r c sessionID)
      | None => throw (ENew "approval coordinator does not support listing")
      end
  | None => throw (ENew "approval coordinator does not support listing")
  end.

(** *** Deciding an approval *)

(** The waiting turn is ended without the call. *)
Definition deny (request : RunRequest) (approval : ApprovalRequest) (approvalID : string) : K St RunResult :=
  do! turn := or_exit (call (λ c, GetTurn c (ap_TurnID approval))) (stop zero_Result) in
  exec! exit_if (bool_decide (t_Status turn ≠ TurnWaitingApproval) || bool_decide (t_ActiveStepID turn ≠ ap_StepID approval))
    (stop zero_Result (wrapf ErrApprovalConflict "turn is not waiting for this approval")) ;;
  exec! or_exit (call_at (λ c now, CancelStep c now (ap_StepID approval) "approval_denied" "tool execution was not approved"))
    (stop (of_turn turn)) ;;
  do! turn := or_exit (call_at (λ c now, TransitionTurn c now (t_ID turn) (t_Version turn) TurnCancelled "approval_denied"
    "tool execution was not approved")) (stop zero_Result) in
  do! payload := or_exit (lift (marshal_approval_resolved approvalID false))
    (λ e, stop (of_turn turn) (EWrap "encode approval resolution event: " e "")) in
  exec! or_exit (call (λ c, publish c (rr_SessionID request) (t_ID turn) (ap_StepID approval) EventApprovalResolved payload))
    (stop (of_turn turn)) ;;
  exec! or_exit (call (λ c, publish c (rr_SessionID request) (t_ID turn) (ap_StepID approval) EventTurnCancelled ""))
    (stop (of_turn turn)) ;;
  go_on (of_turn turn).

(** The decision recorded, [approve] forced to false when the approval had expired. *)
Definition decide_approval (coordinator : ApprovalDecision St) (request : RunRequest) (approvalID : string)
    (approve : bool) (note : string) : K St bool :=
  do! decided := try_ (call (λ c, Decide coordinator c approvalID (UserID (rr_Principal request)) approve (TrimSpace note))) in
  match decided with
  | Ok _ => go_on approve
  | Err err => if Is err ErrApprovalExpired then go_on false else exit (stop zero_Result err)
  end.

(** Everything up to the decision: the approval and whether the call may run. *)
Definition judge (request : RunRequest) (approvalID : string) (approve : bool) (note : string)
    : K St (ApprovalRequest * bool) :=
  exec! or_exit (check (validateRunRequest request true)) (stop zero_Result) ;;
  match decision approvals with
  | None => exit (stop zero_Result (ENew "approval coordinator does not support resolution"))
  | Some coordinator =>
      match resolution coordinator with
      | None => exit (stop zero_Result (ENew "approval coordinator does not support resolution"))
      | Some r =>
          do! ' (approval, status) := or_exit (call (λ c, Get r c approvalID)) (stop zero_Result) in
          exec! exit_if (bool_decide (status ≠ ApprovalPending))
            (stop zero_Result (EWrap "" ErrApprovalConflict (": approval " +:+ approvalID +:+ " is "
              +:+ pretty (approval_u8 status)))) ;;
          exec! exit_if (bool_decide (ap_SessionID approval ≠ rr_SessionID request) ||
              bool_decide (ap_RequestedBy approval ≠ UserID (rr_Principal request)) ||
              bool_decide (b_Principal (inv_Binding (ap_Invocation approval)) ≠ rr_Principal request))
            (stop zero_Result (ENew "approval does not belong to principal and session")) ;;
          do! approved := decide_approval coordinator request approvalID approve note in
          go_on (approval, approved)
      end
  end.

Definition ResolveApproval (request : RunRequest) (approvalID : string) (approve : bool) (note : string) : Exit St :=
  finally (judge request approvalID approve note) (λ '(approval, approved),
  if (approved : bool) then ResumeApproved request approvalID
  else finally (deny request approval approvalID) (λ result, give result None)).
End Run.
End Loop.
