(* ===== verification/AgentLoopTheorems.v ===== *)
(** * agent/runtime: how a run ends

    The loop of [AgentLoop] against the interface of its store.  [TurnLaws]
    is what the loop relies on of a [Store]: which operations touch turns and
    how; [Bystanders] says that the loop's other partners (model, tools,
    approvals, events, clock) leave the stored turns alone.  [MemoryStore]
    implements [TurnLaws], beside any other state. *)

From S2P Require Import Prelude Json ToolTypes ToolDisclosure AgentTypes AgentEvents AgentContext AgentLoop MemoryStore.

Section Keeps.
Context {St : Type} (turn_of : St → string → option Turn).
(** A computation that leaves every stored turn as it is. *)
Definition keeps {A} (m : St → A * St) : Prop := ∀ σ id, turn_of (snd (m σ)) id = turn_of σ id.
End Keeps.

(** What the loop relies on of a store.  [turn_of] is the turns it holds and
    [core] what of a turn comes back as it was written: a database may set the
    times of a row by itself. *)
Class TurnLaws (St : Type) `{!Store St} := {
  turn_of : St → string → option Turn;
  core : Turn → Turn;
  core_ID t : t_ID (core t) = t_ID t;
  core_Status t : t_Status (core t) = t_Status t;
  core_Version t : t_Version (core t) = t_Version t;
  keeps_GetSession c id : keeps turn_of (GetSession c id);
  keeps_ListAttachments c id : keeps turn_of (ListAttachments c id);
  keeps_GetTurn c id : keeps turn_of (GetTurn c id);
  keeps_ListTurns c id : keeps turn_of (ListTurns c id);
  keeps_ListSessionSteps c id : keeps turn_of (ListSessionSteps c id);
  keeps_CompleteStep c now id out : keeps turn_of (CompleteStep c now id out);
  keeps_WaitStepApproval c now id : keeps turn_of (WaitStepApproval c now id);
  keeps_ResumeStep c now id : keeps turn_of (ResumeStep c now id);
  keeps_CancelStep c now id code msg : keeps turn_of (CancelStep c now id code msg);
  keeps_FailStep c now id code msg : keeps turn_of (FailStep c now id code msg);
  keeps_AppendMessage c now m : keeps turn_of (AppendMessage c now m);
  keeps_ListMessages c id : keeps turn_of (ListMessages c id);
  keeps_ListSessionMessages c id : keeps turn_of (ListSessionMessages c id);
  keeps_SaveToolSnapshot c now id st snap : keeps turn_of (SaveToolSnapshot c now id st snap);
  GetTurn_law c id σ t σ' : GetTurn c id σ = (Ok t, σ') → turn_of σ id = Some (core t);
  StartTurn_law c now sid t σ r σ' :
    StartTurn c now sid t σ = (r, σ') →
    match r with
    | Ok (_, t') => t_ID t ≠ "" ∧ t_ID t' = t_ID t ∧ t_Status t' = TurnQueued ∧
        turn_of σ' (t_ID t) = Some (core t') ∧ turn_of σ (t_ID t) = None ∧
        ∀ id, id ≠ t_ID t → turn_of σ' id = turn_of σ id
    | Err _ => ∀ id, turn_of σ' id = turn_of σ id
    end;
  TransitionTurn_law c now id v to code msg σ r σ' :
    TransitionTurn c now id v to code msg σ = (r, σ') →
    match r with
    | Ok t => turn_of σ' id = Some (core t) ∧ t_Status t = to ∧ (∃ t0, turn_of σ id = Some t0 ∧ t_ID t = t_ID t0) ∧
        ∀ id', id' ≠ id → turn_of σ' id' = turn_of σ id'
    | Err _ => ∀ id', turn_of σ' id' = turn_of σ id'
    end;
  TransitionTurn_total c now id t to code msg σ :
    live c → turn_of σ id = Some t → validTurnTransition (t_Status t) to = true →
    is_ok (fst (TransitionTurn c now id (t_Version t) to code msg σ)) = true;
  AppendStep_law c now id v st σ r σ' :
    AppendStep c now id v st σ = (r, σ') →
    match r with
    | Ok (t, _) => turn_of σ' id = Some (core t) ∧
        (∃ t0, turn_of σ id = Some t0 ∧ t_ID t = t_ID t0 ∧ t_Status t = t_Status t0) ∧
        ∀ id', id' ≠ id → turn_of σ' id' = turn_of σ id'
    | Err _ => ∀ id', turn_of σ' id' = turn_of σ id'
    end
}.

Class Bystanders (St : Type) {i_store : Store St} {i_env : Env St} {i_world : World St} {i_laws : TurnLaws St} : Prop := {
  keeps_poll : keeps turn_of poll;
  keeps_clock : keeps turn_of clock;
  keeps_NewID prefix : keeps turn_of (NewID prefix);
  keeps_publish_event c e : keeps turn_of (publish_event c e);
  keeps_BuildSnapshot c r : keeps turn_of (tools_BuildSnapshot c r);
  keeps_Execute c snap inv : keeps turn_of (tools_Execute c snap inv);
  keeps_ExecuteApproved c snap inv g : keeps turn_of (tools_ExecuteApproved c snap inv g);
  keeps_Generate c r em : (∀ c e, keeps turn_of (em c e)) → keeps turn_of (Generate c r em);
  keeps_Request c a : keeps turn_of (Request approvals c a);
  keeps_GetApproved d c id p : decision approvals = Some d → keeps turn_of (GetApproved d c id p);
  keeps_Consume d c id p : decision approvals = Some d → keeps turn_of (Consume d c id p);
  keeps_Decide d c id u b n : decision approvals = Some d → keeps turn_of (Decide d c id u b n);
  keeps_Get d r c id : decision approvals = Some d → resolution d = Some r → keeps turn_of (Get r c id)
}.

Create HintDb keeps.
#[export] Hint Resolve keeps_GetSession keeps_ListAttachments keeps_GetTurn keeps_ListTurns keeps_ListSessionSteps
  keeps_CompleteStep keeps_WaitStepApproval keeps_ResumeStep keeps_CancelStep keeps_FailStep keeps_AppendMessage
  keeps_ListMessages keeps_ListSessionMessages keeps_SaveToolSnapshot : keeps.
#[export] Hint Extern 1 (keeps _ _) =>
  first [apply keeps_poll | apply keeps_clock | apply keeps_NewID | apply keeps_publish_event
       | apply keeps_BuildSnapshot | apply keeps_Execute | apply keeps_ExecuteApproved | apply keeps_Request] : keeps.
#[export] Hint Extern 1 (keeps _ (Generate _ _ _)) => apply keeps_Generate; intros : keeps.

(** ** Reasoning about blocks with early returns *)

Section Wp.
Context {St : Type}.
(** What a block does from [σ]: it goes on with [Q], or returns with [R]. *)
Definition wp {A} (m : K St A) (Q : A → St → Prop) (R : RunResult → option error → St → Prop) (σ : St) : Prop :=
  match m σ with
  | (Go_on a, σ') => Q a σ'
  | (Return r e, σ') => R r e σ'
  end.
Definition ewp (m : Exit St) (R : RunResult → option error → St → Prop) (σ : St) : Prop :=
  let '((r, e), σ') := m σ in R r e σ'.

Lemma wp_then {A B} (m : K St A) (k : A → K St B) Q R σ :
  wp m (λ a σ', wp (k a) Q R σ') R σ → wp (then_ m k) Q R σ.
Proof. unfold wp, then_. destruct (m σ) as [[a|r e] σ']; done. Qed.

Lemma wp_exit {A} (m : Exit St) (Q : A → St → Prop) R σ : ewp m R σ → wp (exit m) Q R σ.
Proof. unfold wp, ewp, exit. by destruct (m σ) as [[r e] σ']. Qed.

Lemma ewp_finally {A} (m : K St A) k R σ : wp m (λ a σ', ewp (k a) R σ') R σ → ewp (finally m k) R σ.
Proof. unfold wp, ewp, finally. destruct (m σ) as [[a|r e] σ']; done. Qed.

Lemma wp_exit_if (b : bool) m Q R σ :
  (b = true → ewp m R σ) → (b = false → Q tt σ) → wp (exit_if b m) Q R σ.
Proof. unfold exit_if. destruct b; [intros H _; by apply wp_exit, H|intros _ H; by apply H]. Qed.

Lemma wp_mono {A} (m : K St A) (Q Q' : A → St → Prop) (R R' : RunResult → option error → St → Prop) σ :
  (∀ a σ', Q a σ' → Q' a σ') → (∀ r e σ', R r e σ' → R' r e σ') → wp m Q R σ → wp m Q' R' σ.
Proof. unfold wp. destruct (m σ) as [[a|r e] σ']; auto. Qed.
End Wp.

Section Settles.
Context {St : Type} {i_store : Store St} {i_env : Env St} {i_world : World St} {i_codec : Codec}
  {i_laws : TurnLaws St} {i_bystanders : Bystanders St} (config : LoopConfig).

Definition same (σ σ' : St) : Prop := ∀ id, turn_of σ' id = turn_of σ id.
#[local] Instance same_preorder : PreOrder same.
Proof. split; [done|]. intros x y z H1 H2 id. by rewrite H2, H1. Qed.

Ltac same_chain :=
  intros ?; repeat match goal with H : same _ ?σ |- context [turn_of ?σ _] => rewrite H end; reflexivity.

Lemma keeps_same {A} (m : St → A * St) σ : keeps turn_of m → same σ (snd (m σ)).
Proof. intros H id. apply H. Qed.

Lemma keeps_bind {A B} (m : Op St A) (k : A → Op St B) :
  keeps turn_of m → (∀ a, keeps turn_of (k a)) → keeps turn_of (bind m k).
Proof.
  intros Hm Hk σ id. unfold bind. specialize (Hm σ id). destruct (m σ) as [[a|e] σ']; simpl in *; [|done].
  by rewrite Hk.
Qed.
Lemma keeps_map_err {A} f (m : Op St A) : keeps turn_of m → keeps turn_of (map_err f m).
Proof. intros Hm σ id. unfold map_err. specialize (Hm σ id). by destruct (m σ) as [[a|e] σ']. Qed.
Lemma keeps_pure {A} (r : Result A) : keeps turn_of (lift (S := St) r).
Proof. done. Qed.
Lemma keeps_ret {A} (a : A) : keeps turn_of (ret (S := St) (P := ApprovalRequiredError) a).
Proof. done. Qed.
Lemma keeps_check o : keeps turn_of (check (S := St) (P := ApprovalRequiredError) o).
Proof. done. Qed.
Lemma keeps_throw {A} e : keeps turn_of (throw (S := St) (P := ApprovalRequiredError) (A := A) e).
Proof. done. Qed.

Lemma keeps_call {A} (f : ctx → Op St A) : (∀ c, keeps turn_of (f c)) → keeps turn_of (call f).
Proof.
  intros Hf σ id. unfold call. pose proof (keeps_poll σ id) as Hp. destruct (poll σ) as [c σ1]. simpl in Hp.
  by rewrite Hf.
Qed.
Lemma keeps_call_at {A} (f : ctx → Time → Op St A) : (∀ c now, keeps turn_of (f c now)) → keeps turn_of (call_at f).
Proof.
  intros Hf σ id. unfold call_at. pose proof (keeps_poll σ id) as Hp. destruct (poll σ) as [c σ1]. simpl in Hp.
  pose proof (keeps_clock σ1 id) as Hc. destruct (clock σ1) as [now σ2]. simpl in Hc. by rewrite Hf, Hc.
Qed.
Lemma keeps_uncancelled {A} (f : ctx → Time → Op St A) :
  (∀ c now, keeps turn_of (f c now)) → keeps turn_of (call_uncancelled f).
Proof.
  intros Hf σ id. unfold call_uncancelled. pose proof (keeps_poll σ id) as Hp. destruct (poll σ) as [c σ1].
  simpl in Hp. pose proof (keeps_clock σ1 id) as Hc. destruct (clock σ1) as [now σ2]. simpl in Hc. by rewrite Hf, Hc.
Qed.
#[local] Hint Resolve keeps_bind keeps_map_err keeps_pure keeps_ret keeps_check keeps_throw keeps_call keeps_call_at
  keeps_uncancelled : keeps.

Lemma keeps_publish c sid tid stid ty payload : keeps turn_of (Loop.publish c sid tid stid ty payload).
Proof.
  intros σ id. unfold Loop.publish. pose proof (keeps_clock σ id) as Hc. destruct (clock σ) as [now σ1].
  simpl in Hc. by rewrite keeps_publish_event.
Qed.
#[local] Hint Resolve keeps_publish : keeps.

Lemma keeps_emit request tid stid c e : keeps turn_of (Loop.emit request tid stid c e).
Proof. unfold Loop.emit. auto with keeps. Qed.
Lemma keeps_appendMessage sid tid m : keeps turn_of (Loop.appendMessage sid tid m).
Proof. unfold Loop.appendMessage. auto 10 with keeps. Qed.
Lemma keeps_loadAttachments s : keeps turn_of (Context.loadAttachments s).
Proof.
  unfold Context.loadAttachments. case_match; [auto with keeps|]. apply keeps_bind; [auto with keeps|].
  intros stored. repeat case_match; auto with keeps.
Qed.
Lemma keeps_completedHistory sid tid : keeps turn_of (Context.completedHistory sid tid).
Proof. unfold Context.completedHistory. auto 10 with keeps. Qed.
#[local] Hint Resolve keeps_emit keeps_appendMessage keeps_loadAttachments keeps_completedHistory : keeps.

Lemma wp_keep {A} (m : Op St A) h Q R σ :
  keeps turn_of m → (∀ a σ', same σ σ' → Q a σ') → (∀ e σ', same σ σ' → ewp (h e) R σ') →
  wp (or_exit m h) Q R σ.
Proof.
  intros Hm HQ HR. unfold wp, or_exit. pose proof (keeps_same m σ Hm) as Hs.
  destruct (m σ) as [[a|e] σ']; simpl in Hs; [by apply HQ|]. specialize (HR e σ' Hs).
  unfold exit. unfold ewp in HR. by destruct (h e σ') as [[r e'] σ''].
Qed.
Lemma wp_try {A} (m : Op St A) Q R σ :
  keeps turn_of m → (∀ r σ', same σ σ' → Q r σ') → wp (try_ m) Q R σ.
Proof.
  intros Hm HQ. unfold wp, try_. pose proof (keeps_same m σ Hm) as Hs. destruct (m σ) as [r σ']. by apply HQ.
Qed.

(** ** The turn the loop holds *)

Definition settled (t : Turn) : Prop := Terminal (t_Status t) = true ∨ t_Status t = TurnWaitingApproval.

(** The variable [turn] is the stored turn, and it is running; no turn is
    stored under the empty identifier, which is that of [Turn{}]. *)
Definition cur (t : Turn) (σ : St) : Prop :=
  turn_of σ (t_ID t) = Some (core t) ∧ t_Status t = TurnRunning ∧ turn_of σ "" = None.

Lemma cur_ID t σ : cur t σ → t_ID t ≠ "".
Proof. intros (H1 & _ & H3) He. rewrite He in H1. congruence. Qed.

(** A step with this identifier can be appended to the held turn now. *)
Definition appendable (id : string) (σ : St) : Prop :=
  ∀ t step, cur t σ → st_ID step = id →
  is_ok (fst (call_at (λ c now, AppendStep c now (t_ID t) (t_Version t) step) σ)) = true.

(** Either a turn may be left behind ([strands]), or the request's context
    stays alive and the identifiers of new steps are unused. *)
Context (strands : Prop)
  (calm : strands ∨ (∀ σ, live (fst (poll σ))) ∧
    (∀ σ id σ', NewID "step" σ = (Ok id, σ') → appendable id σ')).

(** How the part under the deferred function returns: without a turn (an
    append failed), or with the stored one, running only beside an error. *)
Definition left_ (r : RunResult) (e : option error) (σ : St) : Prop :=
  t_ID (r_Turn r) = "" ∧ turn_of σ "" = None ∧ e ≠ None ∧ strands ∨
  turn_of σ (t_ID (r_Turn r)) = Some (core (r_Turn r)) ∧ t_ID (r_Turn r) ≠ "" ∧
    (settled (r_Turn r) ∨ t_Status (r_Turn r) = TurnRunning ∧ e ≠ None).

(** How a run that began in [σ0] returns. *)
Definition final (σ0 : St) (r : RunResult) (e : option error) (σ : St) : Prop :=
  t_ID (r_Turn r) = "" ∧ e ≠ None ∧ (strands ∨ same σ0 σ) ∨
  turn_of σ (t_ID (r_Turn r)) = Some (core (r_Turn r)) ∧ t_ID (r_Turn r) ≠ "" ∧ settled (r_Turn r).

Lemma cur_same t σ σ' : same σ σ' → cur t σ → cur t σ'.
Proof. intros Hs (H1 & H2 & H3). unfold cur. by rewrite !Hs. Qed.

Lemma cur_left t text aid e σ : cur t σ → left_ (mkRunResult t text aid) (Some e) σ.
Proof. intros Hc. right. simpl. split_and!; [apply Hc|by eapply cur_ID|]. right. split; [apply Hc|done]. Qed.

Lemma settled_left t text aid e σ : turn_of σ (t_ID t) = Some (core t) → t_ID t ≠ "" → settled t → left_ (mkRunResult t text aid) e σ.
Proof. intros H1 H2 H3. right. simpl. auto. Qed.

Lemma stop_left t text aid e σ σ' : same σ σ' → cur t σ → ewp (stop (mkRunResult t text aid) e) left_ σ'.
Proof. intros Hs Hc. simpl. by apply cur_left, (cur_same _ σ). Qed.

(** A transition of the held turn: it is stored, under the same identifier. *)
Lemma wp_transition t to code msg h Q R σ :
  turn_of σ (t_ID t) = Some (core t) → turn_of σ "" = None →
  (∀ t' σ', turn_of σ' (t_ID t') = Some (core t') → t_ID t' = t_ID t → t_Status t' = to → turn_of σ' "" = None → Q t' σ') →
  (∀ e σ', same σ σ' → strands ∨ validTurnTransition (t_Status t) to = false → ewp (h e) R σ') →
  wp (or_exit (call_at (λ c now, TransitionTurn c now (t_ID t) (t_Version t) to code msg)) h) Q R σ.
Proof.
  intros Hc He HQ HR. unfold wp, or_exit, call_at. pose proof (keeps_same poll σ keeps_poll) as H1.
  assert (strands ∨ live (fst (poll σ))) as Hlive by (destruct calm as [|[Hl _]]; auto).
  destruct (poll σ) as [c σ1]. pose proof (keeps_same clock σ1 keeps_clock) as H2.
  destruct (clock σ1) as [now σ2]. simpl in *.
  destruct (TransitionTurn c now (t_ID t) (t_Version t) to code msg σ2) as [[t'|e] σ3] eqn:HTe;
    pose proof HTe as HT; apply TransitionTurn_law in HT.
  - destruct HT as (Ht' & Hst & (t0 & Ht0 & Hid) & Hother). assert (t0 = core t) as ->.
    { rewrite H2, H1, Hc in Ht0. congruence. }
    rewrite core_ID in Hid.
    apply HQ; [by rewrite Hid|done|done|]. rewrite Hother; [by rewrite H2, H1|].
    intros Hne. rewrite <- Hne in Hc. congruence.
  - apply (wp_exit (A := Turn) (h e) Q R σ3), HR; [change (same σ2 σ3) in HT; same_chain|].
    destruct Hlive as [|Hlive]; [by left|right]. apply not_true_iff_false. intros Hv.
    pose proof (TransitionTurn_total c now (t_ID t) (core t) to code msg σ2 Hlive) as Htot.
    rewrite core_Version, core_Status, H2, H1, HTe in Htot. by specialize (Htot Hc Hv).
Qed.

(** A pure computation, and a new identifier for a step. *)
Lemma wp_lift {A} (r : Result A) (h : error → Exit St) Q R σ :
  (∀ a, Q a σ) → (∀ e, ewp (h e) R σ) → wp (or_exit (lift r) h) Q R σ.
Proof.
  intros HQ HR. unfold wp, or_exit, lift. destruct r as [a|e]; [done|].
  specialize (HR e). unfold exit. unfold ewp in HR. by destruct (h e σ) as [[r e'] σ''].
Qed.
Lemma wp_NewID h Q R σ :
  (∀ id σ', same σ σ' → strands ∨ appendable id σ' → Q id σ') → (∀ e σ', same σ σ' → ewp (h e) R σ') →
  wp (or_exit (NewID "step") h) Q R σ.
Proof.
  intros HQ HR. unfold wp, or_exit. pose proof (keeps_same (NewID "step") σ ltac:(auto with keeps)) as Hs.
  destruct (NewID "step" σ) as [[id|e] σ'] eqn:HN.
  - apply HQ; [done|]. destruct calm as [|[_ Hn]]; [by left|right]. by eapply Hn.
  - apply (wp_exit (A := string) (h e) Q R σ'), HR. done.
Qed.

Lemma wp_append v step Q σ :
  cur (v_turn v) σ → strands ∨ appendable (st_ID step) σ →
  (∀ turn st σ', cur turn σ' → Q (v<| v_turn := turn |>, st) σ') →
  wp (Loop.append_step v step) Q left_ σ.
Proof.
  intros Hcur Happ HQ. pose proof Hcur as (Hc & Hr & He).
  assert (strands ∨ is_ok (fst (call_at (λ c now, AppendStep c now (t_ID (v_turn v)) (t_Version (v_turn v)) step) σ)) = true)
    as Hok by (destruct Happ as [|Happ]; [by left|right; by apply Happ]).
  revert Hok. unfold wp, Loop.append_step, call_at. pose proof (keeps_same poll σ keeps_poll) as H1.
  destruct (poll σ) as [c σ1]. pose proof (keeps_same clock σ1 keeps_clock) as H2.
  destruct (clock σ1) as [now σ2]. simpl in *.
  destruct (AppendStep c now (t_ID (v_turn v)) (t_Version (v_turn v)) step σ2) as [[[t' st]|e] σ3] eqn:HT;
    apply AppendStep_law in HT; intros Hok.
  - destruct HT as (Ht' & (t0 & Ht0 & Hid & Hst) & Hother). assert (t0 = core (v_turn v)) as ->.
    { rewrite H2, H1, Hc in Ht0. congruence. }
    rewrite core_ID in Hid. rewrite core_Status in Hst.
    apply HQ. unfold cur. rewrite Hid, Hst, (Hother EmptyString); [by rewrite H2, H1|].
    intros Hne. rewrite <- Hne in Hc. congruence.
  - destruct Hok as [Hok|Hok]; [|done]. left. simpl. by rewrite HT, H2, H1.
Qed.

(** One call that leaves the turns alone, its error returned at once. *)
Ltac kept := apply wp_then, wp_keep; [auto with keeps|intros ? ? ?|intros ? ? ?; by eapply stop_left].
Ltac pure_step := apply wp_then, wp_lift; [intros ?|intros ?; by apply cur_left].
Ltac cur_now := match goal with Hs : same ?a ?b, Hc : cur ?t ?a |- _ => apply (cur_same _ _ _ Hs) in Hc; clear Hs end.

Lemma await_approval_left request snapshot v toolStep required σ :
  cur (v_turn v) σ →
  wp (Loop.await_approval config request snapshot v toolStep required) (λ _ _, False) left_ σ.
Proof.
  intros Hc. unfold Loop.await_approval. kept. cur_now.
  apply wp_then. unfold wp at 1. pose proof (keeps_same clock σ' keeps_clock) as Hs. destruct (clock σ') as [now σ1].
  simpl in Hs. cur_now. kept. cur_now. kept. cur_now.
  apply wp_then, wp_transition; [apply Hc|apply Hc| |intros e σ2 Hs _; by eapply stop_left].
  intros waiting σ2 Hw Hid Hst _.
  assert (∀ σ3 e, same σ2 σ3 → left_ (mkRunResult waiting (v_text v) a) e σ3) as Hend.
  { intros σ3 e Hs. pose proof (cur_ID _ _ Hc) as Hne. apply settled_left; [by rewrite Hs|by rewrite Hid|by right]. }
  apply wp_then, wp_keep; [auto with keeps|intros payload σ3 H3|intros e σ3 H3; by apply Hend].
  apply wp_then, wp_keep; [auto with keeps|intros [] σ4 H4|intros e σ4 H4; apply Hend; by etrans].
  apply wp_exit. apply Hend. by etrans.
Qed.

Lemma tool_call_left request kind atts primary snapshot v mc σ :
  cur (v_turn v) σ →
  wp (Loop.tool_call config request kind atts primary snapshot v mc) (λ v', cur (v_turn v')) left_ σ.
Proof.
  intros Hc. unfold Loop.tool_call. pure_step. apply wp_then, wp_NewID; [|intros; by eapply stop_left].
  intros id σ1 H1 Happ. cur_now. apply wp_then, wp_append; [done|done|]. clear Hc Happ.
  intros turn st σ2 Hc. kept. cur_now.
  apply wp_then, wp_try; [auto with keeps|]. intros [res|err] σ4 H4; cur_now.
  - kept. cur_now. kept. cur_now. kept. cur_now.
    case_match; kept; by cur_now.
  - destruct (As err) as [required|].
    + eapply wp_mono; [| |by apply await_approval_left]; by auto.
    + apply wp_then, wp_try; [auto with keeps|]. intros r σ5 H5. cur_now. apply wp_exit.
      destruct r; simpl; by apply cur_left.
Qed.

Lemma tool_calls_left request kind atts primary snapshot calls v σ :
  cur (v_turn v) σ →
  wp (Loop.tool_calls config request kind atts primary snapshot calls v) (λ v', cur (v_turn v')) left_ σ.
Proof.
  revert v σ. induction calls as [|mc calls IH]; intros v σ Hc; cbn [Loop.tool_calls]; [done|].
  apply wp_then. eapply wp_mono; [| |by apply tool_call_left]; [|done]. intros v' σ' Hc'. by apply IH.
Qed.

Lemma complete_turn_left request v σ :
  cur (v_turn v) σ → wp (Loop.complete_turn request v) (λ v', cur (v_turn v')) left_ σ.
Proof.
  intros Hc. unfold Loop.complete_turn.
  apply wp_then, wp_transition; [apply Hc|apply Hc| |intros e σ2 Hs _; by eapply stop_left]. intros t' σ2 Ht Hid Hst _.
  assert (∀ σ3 e, same σ2 σ3 → left_ (mkRunResult t' (v_text v) "") e σ3) as Hend.
  { intros σ3 e Hs. pose proof (cur_ID _ _ Hc) as Hne.
    apply settled_left; [by rewrite Hs|by rewrite Hid|]. left. by rewrite Hst. }
  apply wp_then, wp_keep; [auto with keeps|intros [] σ3 H3|intros e σ3 H3; by apply Hend].
  apply wp_exit. by apply Hend.
Qed.

Lemma generate_left request snapshot sent v st σ :
  cur (v_turn v) σ → wp (Loop.generate request snapshot sent v st) (λ '(v', _), cur (v_turn v')) left_ σ.
Proof.
  intros Hc. unfold Loop.generate. apply wp_then, wp_try; [auto 6 with keeps|]. intros [res|err] σ1 H1; cur_now.
  - kept. cur_now. kept. cur_now. kept. by cur_now.
  - apply wp_then, wp_try; [auto with keeps|]. intros r σ5 H5. cur_now. apply wp_exit.
    destruct r; simpl; by apply cur_left.
Qed.

Lemma model_step_left request v σ :
  cur (v_turn v) σ → wp (Loop.model_step config request v) (λ v', cur (v_turn v')) left_ σ.
Proof.
  intros Hc. unfold Loop.model_step. kept. cur_now. kept. cur_now.
  destruct a0 as [atts primary]. kept. cur_now. apply wp_then, wp_NewID; [|intros; by eapply stop_left].
  intros id σ1 H1 Happ. cur_now. pure_step. pure_step. apply wp_then, wp_append; [done|done|]. clear Hc Happ.
  intros turn st σ2 Hc. kept. cur_now.
  apply wp_then. eapply wp_mono; [| |by apply generate_left]; [|done].
  intros [v' response] σ3 Hc3. case_bool_decide; [by apply complete_turn_left|by apply tool_calls_left].
Qed.

Lemma model_loop_left n request v σ :
  cur (v_turn v) σ → ewp (Loop.model_loop config n request v) left_ σ.
Proof.
  revert v σ. induction n as [|n IH]; intros v σ Hc; cbn [Loop.model_loop]; [by apply cur_left|].
  apply ewp_finally. eapply wp_mono; [| |by apply model_step_left]; [|done]. intros v' σ' Hc'. by apply IH.
Qed.

(** Ending the held turn with [context.WithoutCancel] cannot fail. *)
Lemma fail_stored t code msg σ :
  turn_of σ (t_ID t) = Some (core t) → t_Status t = TurnRunning → t_ID t ≠ "" →
  ∃ t' σ', call_uncancelled (λ c now, TransitionTurn c now (t_ID t) (t_Version t) TurnFailed code msg) σ = (Ok t', σ') ∧
    turn_of σ' (t_ID t') = Some (core t') ∧ t_ID t' ≠ "" ∧ settled t'.
Proof.
  intros Hc Hr Hne. unfold call_uncancelled.
  pose proof (keeps_same poll σ keeps_poll) as H1. destruct (poll σ) as [c σ1].
  pose proof (keeps_same clock σ1 keeps_clock) as H2. destruct (clock σ1) as [now σ2]. simpl in *.
  pose proof (TransitionTurn_total (WithoutCancel c) now (t_ID t) (core t) TurnFailed code msg σ2) as Htot.
  rewrite core_Version, core_Status, H2, H1, Hr in Htot. specialize (Htot (conj eq_refl eq_refl) Hc eq_refl).
  destruct (TransitionTurn (WithoutCancel c) now (t_ID t) (t_Version t) TurnFailed code msg σ2) as [[t'|e] σ3] eqn:HT;
    [|done].
  apply TransitionTurn_law in HT as (Ht' & Hst & (t0 & Ht0 & Hid) & _). exists t', σ3.
  assert (t0 = core t) as -> by (rewrite H2, H1, Hc in Ht0; congruence).
  rewrite core_ID in Hid. rewrite Hid. split_and!; [done|done|done|]. left. by rewrite Hst.
Qed.

Lemma deferred_final σ0 body σ : ewp body left_ σ → ewp (Loop.deferred body) (final σ0) σ.
Proof.
  unfold ewp, Loop.deferred. destruct (body σ) as [[r e] σ1].
  intros [(Hid & Hnone & He & Hstr)|(Hst & Hid & Hor)].
  - destruct e as [e|]; [|done]. destruct (negb _ && _); [|left; by auto].
    destruct (call_uncancelled _ σ1) as [[t'|te] σ2] eqn:HT; [|left; by auto]. exfalso.
    unfold call_uncancelled in HT. pose proof (keeps_same poll σ1 keeps_poll) as H1.
    destruct (poll σ1) as [c σ3]. pose proof (keeps_same clock σ3 keeps_clock) as H2.
    destruct (clock σ3) as [now σ4]. apply TransitionTurn_law in HT as (_ & _ & (t0 & Ht0 & _) & _).
    simpl in *. rewrite Hid, H2, H1 in Ht0. congruence.
  - destruct Hor as [Hset|[Hrun He]].
    + destruct e as [e|]; [|by right]. destruct (negb _ && _) eqn:Hb; [|by right]. bools. destruct Hset; congruence.
    + destruct e as [e|]; [|done]. rewrite Hrun. simpl.
      destruct (fail_stored (r_Turn r) "runtime_error" (Error e) σ1) as (t' & σ' & -> & Ht' & Hne & Hset);
        [done..|]. right. done.
Qed.

Lemma failTurn_final σ0 t code cause σ : cur t σ → ewp (Loop.failTurn t code cause) (final σ0) σ.
Proof.
  intros Hc. unfold ewp, Loop.failTurn.
  destruct (fail_stored t code (Error cause) σ) as (t' & σ' & -> & Ht' & Hne & Hset);
    [apply Hc|apply Hc|by eapply cur_ID|].
  match goal with |- context [call ?f σ'] => pose proof (keeps_same (call f) σ') as Hs;
    destruct (call f σ') as [[[]|pe] σ2] end; simpl in Hs; right; simpl;
    rewrite Hs by auto with keeps; done.
Qed.

Lemma early_final σ0 e σ : same σ0 σ → ewp (stop zero_Result e) (final σ0) σ.
Proof. intros Hs. left. simpl. auto. Qed.

(** A call that leaves the turns alone, its error ending the turn; one before there is a turn. *)
Ltac kept_failing := apply wp_then, wp_keep; [auto with keeps|intros ? ? ?|intros ? ? ?; cur_now; by apply failTurn_final].
Ltac kept_early := apply wp_then, wp_keep; [auto with keeps|intros ? ? ?|intros ? ? ?; apply early_final; same_chain].

Lemma open_session_final request resuming σ :
  wp (Loop.open_session request resuming) (λ _ σ', same σ σ') (final σ) σ.
Proof.
  unfold Loop.open_session. kept_early. kept_early. apply wp_then, wp_exit_if; [intros _; apply early_final; same_chain|intros _].
  kept_early. destruct a1. unfold wp, go_on. same_chain.
Qed.

Lemma with_history_final σ0 session v σ :
  cur (v_turn v) σ → wp (Loop.with_history session v) (λ v', cur (v_turn v')) (final σ0) σ.
Proof. intros Hc. unfold Loop.with_history. kept_failing. by cur_now. Qed.

Lemma start_turn_final σ0 request σ :
  same σ0 σ → turn_of σ "" = None → wp (Loop.start_turn request) (λ v σ', cur (v_turn v) σ') (final σ0) σ.
Proof.
  intros H0 He. unfold Loop.start_turn. apply wp_then.
  eapply (wp_mono _ (λ _ σ', same σ σ') _ (final σ0));
    [|done|case_bool_decide; [apply wp_keep; [auto with keeps|done|intros; apply early_final; same_chain]|done]].
  intros turnID σ1 H1. apply wp_then. unfold wp at 1, or_exit, call_at.
  pose proof (keeps_same poll σ1 keeps_poll) as H2. destruct (poll σ1) as [c σ2].
  pose proof (keeps_same clock σ2 keeps_clock) as H3. destruct (clock σ2) as [now σ3]. simpl in H2, H3.
  destruct (StartTurn c now (rr_SessionID request) (new_Turn turnID) σ3) as [[[s q]|e] σ4] eqn:HS;
    apply StartTurn_law in HS; [|apply early_final; intros id; rewrite HS; revert id; same_chain].
  destruct HS as (Hne & Hid & Hqs & Hq & _ & Hother). simpl in *.
  assert (turn_of σ4 "" = None) as He4 by (rewrite Hother by done; by rewrite H3, H2, H1).
  apply wp_then, wp_transition; [by rewrite Hid|done| |].
  2:{ intros e σ5 _ [Hstr|Hbad]; [left; simpl; auto|by rewrite Hqs in Hbad]. }
  intros t σ5 Ht Htid Hst He5. assert (cur t σ5) as Hc by done.
  kept_failing. cur_now. kept_failing. by cur_now.
Qed.

(** ** How a run ends *)
Lemma after_entry_final σ0 session request v σ :
  cur (v_turn v) σ →
  ewp (finally (Loop.with_history session v) (λ v,
    Loop.deferred (Loop.model_loop config (Z.to_nat (MaxModelSteps config)) request v))) (final σ0) σ.
Proof.
  intros Hc. apply ewp_finally. eapply wp_mono; [| |by apply with_history_final]; [|done].
  intros v' σ' Hc'. by apply deferred_final, model_loop_left.
Qed.

Lemma Run_final request σ : turn_of σ "" = None → ewp (Loop.Run config request) (final σ) σ.
Proof.
  intros He. unfold Loop.Run, Loop.run. apply ewp_finally.
  eapply wp_mono; [| |apply open_session_final]; [|done]. intros [session atts] σ1 H1.
  apply ewp_finally. unfold Loop.enter. rewrite bool_decide_eq_true_2 by done. apply wp_then.
  eapply wp_mono; [| |apply start_turn_final]; [|done|done|by rewrite H1].
  intros v σ2 Hc. by apply after_entry_final.
Qed.

Lemma wp_GetTurn id h Q R σ :
  (∀ t σ', same σ σ' → turn_of σ id = Some (core t) → Q t σ') → (∀ e σ', same σ σ' → ewp (h e) R σ') →
  wp (or_exit (call (λ c, GetTurn c id)) h) Q R σ.
Proof.
  intros HQ HR. unfold wp, or_exit, call. pose proof (keeps_same poll σ keeps_poll) as H1.
  destruct (poll σ) as [c σ1]. pose proof (keeps_same (GetTurn c id) σ1 ltac:(auto with keeps)) as H2.
  destruct (GetTurn c id σ1) as [[t|e] σ2] eqn:HG; simpl in *.
  - apply HQ; [by etrans|]. apply GetTurn_law in HG. by rewrite <- H1.
  - apply (wp_exit (A := Turn) (h e) Q R σ2), HR. by etrans.
Qed.

Lemma claim_approved_final σ0 request session atts aid σ :
  same σ0 σ → turn_of σ "" = None → (∀ id t, turn_of σ id = Some t → t_ID t = id) →
  wp (Loop.claim_approved request session atts aid) (λ '(_, turn, _), cur turn)
    (λ r e σ', final σ0 r e σ' ∨ cur (r_Turn r) σ' ∧ e ≠ None) σ.
Proof.
  intros H0 He Hkey. unfold Loop.claim_approved. destruct (decision approvals) as [d|] eqn:Hd; [|left; apply early_final; same_chain].
  apply wp_then, wp_keep; [apply keeps_call; intros; by eapply keeps_GetApproved| |intros; left; apply early_final; same_chain].
  intros approval σ1 H1. apply wp_then, wp_exit_if; [intros _; left; apply early_final; same_chain|intros _].
  apply wp_then, wp_exit_if; [intros _; left; apply early_final; same_chain|intros _].
  apply wp_then, wp_GetTurn; [|intros; left; apply early_final; same_chain]. intros turn σ3 H3 HG.
  assert (t_ID turn = ap_TurnID approval) as Hid by (rewrite <- core_ID; apply Hkey; by rewrite <- H1).
  assert (same σ σ3) as Hs by by etrans.
  assert (turn_of σ3 (t_ID turn) = Some (core turn)) as Ht by (rewrite Hid, H3; exact HG).
  assert (same σ0 σ3) as H03 by same_chain. clear H0 H1 H3 HG Hid.
  apply wp_then, wp_keep; [auto with keeps|intros steps σ4 H4|intros; left; apply early_final; same_chain].
  apply wp_then, wp_keep; [auto with keeps|intros req σ5 H5|intros; left; apply early_final; same_chain].
  apply wp_then, wp_exit_if; [intros _; left; apply early_final; same_chain|intros _].
  apply wp_then, wp_exit_if; [intros _; left; apply early_final; same_chain|intros _].
  apply wp_then, wp_keep; [apply keeps_call; intros; by eapply keeps_Consume|intros ap σ6 H6|intros; left; apply early_final; same_chain].
  apply wp_then, wp_transition; [by rewrite H6, H5, H4|by rewrite H6, H5, H4, Hs| |intros; left; apply early_final; same_chain].
  intros t' σ7 Ht' Hid' Hst' He7. assert (cur t' σ7) as Hc by done.
  apply wp_then, wp_keep; [auto with keeps|intros st σ8 H8; by cur_now|].
  intros e σ8 H8. cur_now. by right.
Qed.

Lemma run_approved_final σ0 request approval turn σ :
  cur turn σ → wp (Loop.run_approved request approval turn) (λ '(_, v), cur (v_turn v)) (final σ0) σ.
Proof.
  intros Hc. unfold Loop.run_approved. apply wp_then, wp_try; [auto with keeps|].
  intros [res|err] σ1 H1; cur_now.
  - kept_failing. cur_now. kept_failing. cur_now. kept_failing. cur_now. kept_failing. cur_now. kept_failing. by cur_now.
  - apply wp_then, wp_try; [auto with keeps|]. intros r σ2 H2. cur_now. apply wp_exit. by apply failTurn_final.
Qed.

Lemma run_final request aid σ :
  aid ≠ "" → turn_of σ "" = None → (∀ id t, turn_of σ id = Some t → t_ID t = id) →
  ewp (Loop.run config request aid) (λ r e σ', final σ r e σ' ∨ cur (r_Turn r) σ' ∧ e ≠ None) σ.
Proof.
  intros Hne He Hkey. unfold Loop.run. apply ewp_finally.
  eapply wp_mono; [| |apply open_session_final]; [|by left]. intros [session atts] σ1 H1.
  apply ewp_finally. unfold Loop.enter. rewrite bool_decide_eq_false_2 by done. apply wp_then.
  eapply wp_mono; [| |apply (claim_approved_final σ)]; [|done|done|by rewrite H1|intros id t; rewrite H1; apply Hkey].
  intros [[approval turn] request'] σ2 Hc.
  eapply wp_mono; [| |by apply (run_approved_final σ)]; [|by left]. intros [request'' v] σ3 Hc3.
  pose proof (after_entry_final σ session request'' v σ3 Hc3) as Hend. unfold ewp in *.
  destruct (finally _ _ σ3) as [[r e] σ4]. by left.
Qed.

Lemma deny_spec request approval aid σ :
  turn_of σ "" = None → (∀ id t, turn_of σ id = Some t → t_ID t = id) →
  wp (Loop.deny request approval aid)
    (λ r σ', turn_of σ' (ap_TurnID approval) = Some (core (r_Turn r)) ∧ t_Status (r_Turn r) = TurnCancelled)
    (λ r e σ', e ≠ None ∧ (same σ σ' ∨ turn_of σ' (ap_TurnID approval) = Some (core (r_Turn r)) ∧ t_Status (r_Turn r) = TurnCancelled)) σ.
Proof.
  intros He Hkey. unfold Loop.deny.
  apply wp_then, wp_GetTurn; [|intros; split; [done|left; same_chain]]. intros turn σ1 H1 HG.
  pose proof (Hkey _ _ HG) as Hid. rewrite core_ID in Hid.
  apply wp_then, wp_exit_if; [intros _; split; [done|left; same_chain]|intros _].
  apply wp_then, wp_keep; [auto with keeps|intros ? σ2 H2|intros; split; [done|left; same_chain]].
  apply wp_then, wp_transition; [by rewrite H2, H1, Hid|by rewrite H2, H1| |intros; split; [done|left; same_chain]].
  intros t' σ3 Ht' Hid' Hst' _. rewrite Hid', Hid in Ht'.
  apply wp_then, wp_keep; [auto with keeps|intros ? σ4 H4|intros ? σ4 H4; split; [done|right; simpl; by rewrite H4]].
  apply wp_then, wp_keep; [auto with keeps|intros ? σ5 H5|intros ? σ5 H5; split; [done|right; simpl; by rewrite H5, H4]].
  apply wp_then, wp_keep; [auto with keeps|intros ? σ6 H6|intros ? σ6 H6; split; [done|right; simpl; by rewrite H6, H5, H4]].
  unfold wp, go_on. simpl. by rewrite H6, H5, H4.
Qed.

(** ** Decisions *)

(** A denial is never turned into an approval. *)
Lemma judge_denied request aid note σ :
  wp (Loop.judge request aid false note) (λ '(_, approved) σ', same σ σ' ∧ approved = false) (λ _ e _, e ≠ None) σ.
Proof.
  unfold Loop.judge. apply wp_then, wp_keep; [apply keeps_check|intros [] σ1 H1|done].
  destruct (decision approvals) as [d|] eqn:Hd; [|done]. destruct (resolution d) as [r|] eqn:Hr; [|done].
  apply wp_then, wp_keep; [apply keeps_call; intros; by eapply keeps_Get|intros [approval status] σ2 H2|done].
  apply wp_then, wp_exit_if; [done|intros _]. apply wp_then, wp_exit_if; [done|intros _].
  apply wp_then. unfold Loop.decide_approval.
  apply wp_then, wp_try; [apply keeps_call; intros; by eapply keeps_Decide|]. intros dec σ3 H3.
  assert (same σ σ3) by same_chain.
  destruct dec as [[]|e]; [done|]. by destruct (Is e ErrApprovalExpired).
Qed.
End Settles.

(** ** The theorems *)
Section Claims.
Context {St : Type} {i_store : Store St} {i_env : Env St} {i_world : World St} {i_codec : Codec}
  {i_laws : TurnLaws St} {i_bystanders : Bystanders St}.



(** How [ResumeApproved] ends: as [Run] does, with one way out more, that
    the turn it set running again is returned running beside an error (the
    step could not be resumed). *)
Theorem resume_settles config request approvalID (σ : St) result err σ' :
  turn_of σ "" = None → (∀ id t, turn_of σ id = Some t → t_ID t = id) →
  Loop.ResumeApproved config request approvalID σ = ((result, err), σ') →
  t_ID (r_Turn result) = "" ∧ err ≠ None ∨
  turn_of σ' (t_ID (r_Turn result)) = Some (core (r_Turn result)) ∧
    (settled (r_Turn result) ∨ t_Status (r_Turn result) = TurnRunning ∧ err ≠ None).
Proof.
  intros He Hkey Hrun. unfold Loop.ResumeApproved in Hrun. case_bool_decide as Haid.
  { unfold stop, give in Hrun. simplify_eq. by left. }
  pose proof (run_final config True (or_introl I) request approvalID σ Haid He Hkey) as H. unfold ewp in H.
  rewrite Hrun in H. destruct H as [[(? & ? & _)|(? & _ & ?)]|[(? & ? & _) ?]]; [by left|right; by auto..].
Qed.

(** A denied approval ends its turn: when [ResolveApproval] denies and
    reports no error, the turn it returns is cancelled and stored so. *)
Theorem denial_cancels config request approvalID note (σ : St) result σ' :
  turn_of σ "" = None → (∀ id t, turn_of σ id = Some t → t_ID t = id) →
  Loop.ResolveApproval config request approvalID false note σ = ((result, None), σ') →
  t_Status (r_Turn result) = TurnCancelled ∧ ∃ id, turn_of σ' id = Some (core (r_Turn result)).
Proof.
  intros He Hkey Hrun. enough (ewp (Loop.ResolveApproval config request approvalID false note)
    (λ r e σ', e ≠ None ∨ t_Status (r_Turn r) = TurnCancelled ∧ ∃ id, turn_of σ' id = Some (core (r_Turn r))) σ) as H.
  { unfold ewp in H. rewrite Hrun in H. by destruct H. }
  unfold Loop.ResolveApproval. apply ewp_finally. eapply wp_mono; [| |apply judge_denied]; [|by left].
  intros [approval approved] σ1 [H1 ->]. apply ewp_finally.
  eapply wp_mono; [| |apply (deny_spec True (or_introl I) request approval approvalID σ1)].
  - intros r' σ4 [? ?]. right. eauto.
  - intros r' e σ4 [? _]. by left.
  - by rewrite H1.
  - intros id t. rewrite H1. apply Hkey.
Qed.
End Claims.

(** ** What a run can reach of its partners *)

Lemma then_ext {St A B} (m : K St A) (k k' : A → K St B) σ :
  (∀ a τ, k a τ = k' a τ) → then_ m k σ = then_ m k' σ.
Proof. intros Hk. unfold then_. destruct (m σ) as [[a|r e] τ]; [apply Hk|done]. Qed.
Lemma then_lift {St A B} (r : Result A) h (k : A → K St B) σ :
  then_ (or_exit (lift r) h) k σ = match r with Ok a => k a σ | Err e => exit (h e) σ end.
Proof. unfold then_, or_exit, lift. destruct r as [a|e]; [done|]. unfold exit. by destruct (h e σ) as [[r e'] τ]. Qed.
Lemma finally_ext {St A} (m m' : K St A) (k k' : A → Exit St) σ :
  m σ = m' σ → (∀ a τ, k a τ = k' a τ) → finally m k σ = finally m' k' σ.
Proof. intros Hm Hk. unfold finally. rewrite Hm. destruct (m' σ) as [[a|r e] τ]; [apply Hk|done]. Qed.

Section Partners.
Context {St : Type} {i_store : Store St} {i_env : Env St} {i_codec : Codec}.
Implicit Types w : World St.

(** The same partners, with another tool engine and another model. *)
Definition with_tools w build exec execA gen : World St := {|
  NewID := NewID; publish_event := publish_event; tools_BuildSnapshot := build; tools_Execute := exec;
  tools_ExecuteApproved := execA; Generate := gen; approvals := approvals |}.

Lemma judged_denied w request aid note (σ : St) approval approved σ' :
  Loop.judge request aid false note σ = (Go_on (approval, approved), σ') → approved = false.
Proof.
  unfold Loop.judge, then_ at 1. destruct (or_exit _ _ σ) as [[[]|] σ1]; [|done].
  destruct (decision approvals) as [d|]; [|done]. destruct (resolution d) as [r|]; [|done].
  unfold then_. destruct (or_exit _ _ σ1) as [[[a s]|] σ2]; [|done].
  destruct (exit_if _ _ σ2) as [[[]|] σ3]; [|done]. destruct (exit_if _ _ σ3) as [[[]|] σ4]; [|done].
  unfold Loop.decide_approval, then_. destruct (try_ _ σ4) as [[[[]|e]|] σ5]; [|destruct (Is _ _)|];
    unfold go_on, exit, stop, give; intros; by simplify_eq.
Qed.

(** A denied approval executes nothing: replacing the tool engine and the
    model by anything else makes no difference to what a denying
    [ResolveApproval] does and returns. *)
Theorem denial_executes_nothing w build exec execA gen config request approvalID note (σ : St) :
  @Loop.ResolveApproval St _ _ (with_tools w build exec execA gen) _ config request approvalID false note σ =
  @Loop.ResolveApproval St _ _ w _ config request approvalID false note σ.
Proof.
  unfold Loop.ResolveApproval, finally.
  change (@Loop.judge St _ (with_tools w build exec execA gen)) with (@Loop.judge St _ w).
  destruct (Loop.judge request approvalID false note σ) as [[[approval approved]|r e] σ1] eqn:Hj; [|done].
  apply judged_denied in Hj. by subst approved.
Qed.

(** An invocation a principal may make of a snapshot: of an exposed tool, at
    the generation it was exposed with, bound to that snapshot and to the
    principal, with an identifier and valid JSON arguments. *)
Definition offered (principal : Principal) (snapshot : ToolSetSnapshot) (inv : ToolInvocation) : bool :=
  existsb (λ ex, bool_decide (d_ID (ex_Descriptor ex) = tc_ID (inv_Call inv)) &&
    bool_decide (ex_RegistrationGeneration ex = inv_RegistrationGeneration inv)) (ss_Tools snapshot) &&
  bool_decide (b_ToolSnapshotID (inv_Binding inv) = ss_ID snapshot) &&
  bool_decide (b_Principal (inv_Binding inv) = principal) &&
  bool_decide (inv_ID inv ≠ "") && Json.Valid (tc_Input (inv_Call inv)).

(** The same partners, but tools that were not offered behave as [other]. *)
Definition guarded w (principal : Principal) (other : ctx → ToolSetSnapshot → ToolInvocation → Op St ToolResult) : World St :=
  with_tools w tools_BuildSnapshot
    (λ c snapshot inv, if offered principal snapshot inv then tools_Execute c snapshot inv else other c snapshot inv)
    tools_ExecuteApproved Generate.

Lemma resolved_offered principal kind atts primary snapshot mc ex :
  resolveModelCall snapshot mc = Ok ex →
  offered principal snapshot (mkInvocation (mc_ID mc) (mkToolCall (d_ID (ex_Descriptor ex)) (mc_Input mc))
    (mkBinding kind principal (bindAttachment atts primary (ex_Descriptor ex)) (ss_ID snapshot))
    (ex_RegistrationGeneration ex)) = true.
Proof.
  unfold resolveModelCall, offered. destruct (_ || negb _) eqn:Hb; [done|].
  destruct (List.find _ _) as [ex'|] eqn:Hf; [|done]. intros ?; simplify_eq. simpl.
  apply List.find_some in Hf as [Hin _]. rewrite !bool_decide_eq_true_2; [|bools; done|done|done].
  bools. apply andb_true_iff. split; [|done]. rewrite !andb_true_r. apply existsb_exists. exists ex. split; [done|].
  by rewrite !bool_decide_eq_true_2.
Qed.

Lemma tool_call_guarded w other config request kind atts primary snapshot v mc (σ : St) :
  @Loop.tool_call St _ _ (guarded w (rr_Principal request) other) _ config request kind atts primary snapshot v mc σ =
  @Loop.tool_call St _ _ w _ config request kind atts primary snapshot v mc σ.
Proof.
  unfold Loop.tool_call. rewrite !then_lift. destruct (resolveModelCall snapshot mc) as [ex|e] eqn:Hr; [|done].
  apply then_ext. intros id τ. apply then_ext. intros [v' st] τ'. apply then_ext. intros [] τ2.
  unfold guarded at 1, with_tools at 1. cbn [tools_Execute].
  by rewrite (resolved_offered (rr_Principal request) kind atts primary snapshot mc ex Hr).
Qed.

Lemma tool_calls_guarded w other config request kind atts primary snapshot calls v (σ : St) :
  @Loop.tool_calls St _ _ (guarded w (rr_Principal request) other) _ config request kind atts primary snapshot calls v σ =
  @Loop.tool_calls St _ _ w _ config request kind atts primary snapshot calls v σ.
Proof.
  revert v σ. induction calls as [|mc calls IH]; intros v σ; cbn [Loop.tool_calls]; [done|].
  unfold then_. rewrite tool_call_guarded. by destruct (Loop.tool_call _ _ _ _ _ _ v mc σ) as [[v'|r e] τ].
Qed.

Lemma model_step_guarded w other config request v (σ : St) :
  @Loop.model_step St _ _ (guarded w (rr_Principal request) other) _ config request v σ =
  @Loop.model_step St _ _ w _ config request v σ.
Proof.
  unfold Loop.model_step. apply then_ext. intros session τ1. apply then_ext. intros [atts primary] τ2.
  apply then_ext. intros snapshot τ3. apply then_ext. intros id τ4. apply then_ext. intros sent τ5.
  apply then_ext. intros input τ6. apply then_ext. intros [v' st] τ7. apply then_ext. intros [] τ8.
  apply then_ext. intros [v'' response] τ9. case_bool_decide; [done|]. apply tool_calls_guarded.
Qed.

Lemma model_loop_guarded w other config request n v (σ : St) :
  @Loop.model_loop St _ _ (guarded w (rr_Principal request) other) _ config n request v σ =
  @Loop.model_loop St _ _ w _ config n request v σ.
Proof.
  revert v σ. induction n as [|n IH]; intros v σ; cbn [Loop.model_loop]; [done|].
  apply finally_ext; [apply model_step_guarded|done].
Qed.

Lemma wp_any {A} (m : Op St A) h (Q : A → St → Prop) σ :
  (∀ a τ, Q a τ) → wp (or_exit m h) Q (λ _ _ _, True) σ.
Proof. intros HQ. unfold wp, or_exit, exit. destruct (m σ) as [[a|e] τ]; [done|]. by destruct (h e τ) as [[r e'] τ']. Qed.
Lemma wp_lift_any {A} (r : Result A) h (Q : A → St → Prop) σ :
  (∀ a, r = Ok a → Q a σ) → wp (or_exit (lift r) h) Q (λ _ _ _, True) σ.
Proof.
  intros HQ. unfold wp, or_exit, exit, lift. destruct r as [a|e]; [by apply HQ|]. by destruct (h e σ) as [[r e'] τ'].
Qed.
Lemma wp_mere_exit {A} (m : Exit St) (Q : A → St → Prop) σ : wp (exit m) Q (λ _ _ _, True) σ.
Proof. unfold wp, exit. by destruct (m σ) as [[r e] τ]. Qed.
Lemma wp_try_any {A} (m : Op St A) (Q : Result A → St → Prop) R σ : (∀ r τ, Q r τ) → wp (try_ m) Q R σ.
Proof. intros HQ. unfold wp, try_. by destruct (m σ). Qed.

(** Neither way in changes the principal of the request. *)
Lemma claim_approved_principal w request session atts aid (σ : St) :
  wp (Loop.claim_approved request session atts aid) (λ '(_, _, request') _, rr_Principal request' = rr_Principal request)
    (λ _ _ _, True) σ.
Proof.
  unfold Loop.claim_approved. destruct (decision approvals) as [d|]; [|apply wp_mere_exit].
  apply wp_then, wp_any. intros approval τ1. apply wp_then, wp_exit_if; [done|intros _].
  apply wp_then, wp_exit_if; [done|intros _]. apply wp_then, wp_any. intros turn τ2.
  apply wp_then, wp_any. intros steps τ3. apply wp_then, wp_lift_any. intros request' Hr.
  assert (rr_Principal request' = rr_Principal request) as Hp.
  { unfold Loop.restore_selection in Hr. repeat case_match; by simplify_eq. }
  apply wp_then, wp_exit_if; [done|intros _]. apply wp_then, wp_exit_if; [done|intros _].
  do 3 (apply wp_then, wp_any; intros ? ?). done.
Qed.

Lemma run_approved_principal w request approval turn (σ : St) :
  wp (Loop.run_approved request approval turn) (λ '(request', _) _, rr_Principal request' = rr_Principal request)
    (λ _ _ _, True) σ.
Proof.
  unfold Loop.run_approved. apply wp_then, wp_try_any. intros [res|e] τ1.
  - do 5 (apply wp_then, wp_any; intros ? ?). unfold wp, go_on. by case_bool_decide.
  - apply wp_then, wp_try_any. intros r τ2. apply wp_mere_exit.
Qed.

Lemma enter_principal w request session atts aid (σ : St) :
  wp (Loop.enter request session atts aid) (λ '(request', _) _, rr_Principal request' = rr_Principal request)
    (λ _ _ _, True) σ.
Proof.
  unfold Loop.enter. case_bool_decide; apply wp_then.
  - unfold wp. by destruct (Loop.start_turn request σ) as [[v|r e] τ].
  - eapply wp_mono; [| |apply claim_approved_principal]; [|done]. intros [[approval turn] request'] τ Hp.
    eapply wp_mono; [| |apply run_approved_principal]; [|done]. intros [request'' v] τ' Hp'. congruence.
Qed.

(** C10. A run, new or resumed, reaches only the tools it was offered.  Every
    invocation the loop makes of its own (the approved one apart) is of a tool
    exposed by the snapshot it was made for, at the generation exposed there,
    bound to that snapshot and to the principal of the request, and carries
    valid JSON: an engine that behaves arbitrarily on any other invocation
    ([other]) gives the same run. *)
Theorem run_calls_offered_only w other config request approvalID (σ : St) :
  @Loop.run St _ _ (guarded w (rr_Principal request) other) _ config request approvalID σ =
  @Loop.run St _ _ w _ config request approvalID σ.
Proof.
  unfold Loop.run. apply finally_ext; [done|]. intros [session atts] τ1. unfold finally at 1 3.
  change (@Loop.enter St _ _ (guarded w (rr_Principal request) other) _) with (@Loop.enter St _ _ w _).
  pose proof (enter_principal w request session atts approvalID τ1) as Hp. unfold wp in Hp.
  destruct (Loop.enter request session atts approvalID τ1) as [[[request' v]|r e] τ2]; [|done].
  rewrite <- Hp. apply finally_ext; [done|]. intros v' τ3. unfold Loop.deferred. by rewrite model_loop_guarded.
Qed.
End Partners.
