(* ===== verification/AgentLoopMemory.v ===== *)
(** * agent/runtime: the loop on the in-memory store

    [MemoryStore] keeps the promises [AgentLoopTheorems] relies on, alone and
    beside any other state.  On it, with a scripted model and tool, the
    theorems of the loop are instantiated, and the two ways in which a turn is
    left behind running are exhibited. *)

From S2P Require Import Prelude Json ToolTypes ToolDisclosure AgentTypes AgentEvents AgentContext AgentLoop.
From S2P Require Import AgentLoopTheorems MemoryStore.

(** ** A store beside the rest of the world *)
Section Beside.
Context {S W : Type} {i_store : Store S}.

Definition beside {A} (m : Op S A) : Op (S * W) A := λ σ, (fst (m (fst σ)), (snd (m (fst σ)), snd σ)).

#[export] Instance store_beside : Store (S * W) := {|
  CreateSession c now s := beside (CreateSession c now s);
  CreateSessionWithAttachment c now s a := beside (CreateSessionWithAttachment c now s a);
  GetSession c id := beside (GetSession c id);
  ListSessions c u := beside (ListSessions c u);
  ArchiveSession c now id v := beside (ArchiveSession c now id v);
  CreateAttachment c now a := beside (CreateAttachment c now a);
  GetAttachment c id := beside (GetAttachment c id);
  ListAttachments c id := beside (ListAttachments c id);
  UpdateAttachment c now a v := beside (UpdateAttachment c now a v);
  SetActiveAttachment c now id aid v := beside (SetActiveAttachment c now id aid v);
  StartTurn c now id t := beside (StartTurn c now id t);
  GetTurn c id := beside (GetTurn c id);
  ListTurns c id := beside (ListTurns c id);
  TransitionTurn c now id v to code msg := beside (TransitionTurn c now id v to code msg);
  AppendStep c now id v st := beside (AppendStep c now id v st);
  GetStep c id := beside (GetStep c id);
  ListSessionSteps c id := beside (ListSessionSteps c id);
  CompleteStep c now id out := beside (CompleteStep c now id out);
  WaitStepApproval c now id := beside (WaitStepApproval c now id);
  ResumeStep c now id := beside (ResumeStep c now id);
  CancelStep c now id code msg := beside (CancelStep c now id code msg);
  FailStep c now id code msg := beside (FailStep c now id code msg);
  AppendMessage c now m := beside (AppendMessage c now m);
  ListMessages c id := beside (ListMessages c id);
  ListSessionMessages c id := beside (ListSessionMessages c id);
  SaveToolSnapshot c now id st snap := beside (SaveToolSnapshot c now id st snap);
  GetToolSnapshot c id := beside (GetToolSnapshot c id)
|}.

Context {i_laws : TurnLaws S}.

Lemma keeps_beside {A} (m : Op S A) :
  keeps turn_of m → keeps (λ σ : S * W, turn_of (fst σ)) (beside m).
Proof. intros Hm [s w] id. apply Hm. Qed.

Lemma beside_eq {A} (m : Op S A) (σ : S * W) r σ' :
  beside m σ = (r, σ') → m (fst σ) = (r, fst σ') ∧ snd σ' = snd σ.
Proof. unfold beside. intros; simplify_eq/=. by destruct (m (fst σ)). Qed.

#[export] Instance laws_beside : TurnLaws (S * W).
Proof.
  refine (Build_TurnLaws (S * W) _ (λ σ, turn_of (fst σ)) core core_ID core_Status core_Version
    _ _ _ _ _ _ _ _ _ _ _ _ _ _ _ _ _ _ _);
    try (intros; apply keeps_beside; solve [auto with keeps]).
  - intros c id σ t σ' [H _]%beside_eq. by eapply GetTurn_law.
  - intros c now sid t σ r σ' [H _]%beside_eq. apply StartTurn_law in H. by destruct r as [[s t']|].
  - intros c now id v to code msg σ r σ' [H _]%beside_eq. apply TransitionTurn_law in H. by destruct r.
  - intros c now id t to code msg σ Hc Ht Hv. exact (TransitionTurn_total c now id t to code msg (fst σ) Hc Ht Hv).
  - intros c now id v st σ r σ' [H _]%beside_eq. apply AppendStep_law in H. by destruct r as [[t s]|].
Defined.
End Beside.

(** ** MemoryStore keeps its promises *)

Ltac memory_keeps :=
  intros; intros σ i; simpl;
  unfold Memory.GetSession, Memory.ListAttachments, Memory.GetTurn, Memory.ListTurns, Memory.ListSessionSteps,
    Memory.CompleteStep, Memory.WaitStepApproval, Memory.ResumeStep, Memory.CancelStep, Memory.FailStep,
    Memory.finishStep, Memory.transitionStep, Memory.AppendMessage, Memory.ListMessages, Memory.ListSessionMessages,
    Memory.SaveToolSnapshot, Memory.lookup_session, Memory.lookup_turn, Memory.exists_in, Memory.put_step;
  unfold_monad; repeat (case_match; simplify_eq/=); done.

Lemma memory_StartTurn c now sid t s r s' :
  Memory.StartTurn c now sid t s = (r, s') →
  match r with
  | Ok (_, t') => t_ID t ≠ "" ∧ t_ID t' = t_ID t ∧ t_Status t' = TurnQueued ∧
      turns s' !! t_ID t = Some t' ∧ turns s !! t_ID t = None ∧ ∀ id, id ≠ t_ID t → turns s' !! id = turns s !! id
  | Err _ => ∀ id, turns s' !! id = turns s !! id
  end.
Proof.
  unfold Memory.StartTurn, Memory.lookup_session, Memory.exists_in, Memory.put_turn, Memory.put_session. intros H.
  go_run H; try done. rewrite lookup_insert_eq. split_and!; try done.
  - by apply eq_None_not_Some.
  - intros id Hne. by rewrite lookup_insert_ne.
Qed.

Lemma transitioned_ID t now to code msg : t_ID (Memory.transitioned t now to code msg) = t_ID t.
Proof. unfold Memory.transitioned. by repeat case_match. Qed.
Lemma transitioned_Status t now to code msg : t_Status (Memory.transitioned t now to code msg) = to.
Proof. unfold Memory.transitioned. by repeat case_match. Qed.

Lemma memory_TransitionTurn c now id v to code msg s r s' :
  Memory.TransitionTurn c now id v to code msg s = (r, s') →
  match r with
  | Ok t => turns s' !! id = Some t ∧ t_Status t = to ∧ (∃ t0, turns s !! id = Some t0 ∧ t_ID t = t_ID t0) ∧
      ∀ id', id' ≠ id → turns s' !! id' = turns s !! id'
  | Err _ => ∀ id', turns s' !! id' = turns s !! id'
  end.
Proof.
  unfold Memory.TransitionTurn, Memory.lookup_turn, Memory.put_turn, Memory.release_session, Memory.put_session. intros H.
  go_run H; try done; rewrite lookup_insert_eq, transitioned_Status;
    (split_and!; [done|done|eexists; by rewrite transitioned_ID|intros id' Hne; by rewrite lookup_insert_ne]).
Qed.

Lemma memory_TransitionTurn_total c now id t to code msg s :
  ctx_err c = None → turns s !! id = Some t → validTurnTransition (t_Status t) to = true →
  is_ok (fst (Memory.TransitionTurn c now id (t_Version t) to code msg s)) = true.
Proof.
  intros Hc Ht Hv. unfold Memory.TransitionTurn, Memory.lookup_turn, Memory.put_turn, Memory.release_session, Memory.put_session.
  unfold_monad. rewrite Hc, Ht. rewrite bool_decide_eq_false_2 by tauto. rewrite Hv. by repeat case_match.
Qed.

Lemma memory_AppendStep c now id v st s r s' :
  Memory.AppendStep c now id v st s = (r, s') →
  match r with
  | Ok (t, _) => turns s' !! id = Some t ∧
      (∃ t0, turns s !! id = Some t0 ∧ t_ID t = t_ID t0 ∧ t_Status t = t_Status t0) ∧
      ∀ id', id' ≠ id → turns s' !! id' = turns s !! id'
  | Err _ => ∀ id', turns s' !! id' = turns s !! id'
  end.
Proof.
  unfold Memory.AppendStep, Memory.lookup_turn, Memory.exists_in, Memory.put_turn, Memory.put_step. intros H.
  go_run H; try done; rewrite lookup_insert_eq; (split_and!; [done|by eauto|intros id' Hne; by rewrite lookup_insert_ne]).
Qed.

#[export] Instance memory_laws : TurnLaws MemoryStore.
Proof.
  refine (Build_TurnLaws MemoryStore _ (λ s id, turns s !! id) (λ t, t) _ _ _ _ _ _ _ _ _ _ _ _ _ _ _ _ _ _ _ _ _ _);
    try done;
    try solve [memory_keeps].
  - intros c id σ t σ' H. simpl in H. unfold Memory.GetTurn, Memory.lookup_turn in H. go_run H. done.
  - intros c now sid t σ r σ'. apply memory_StartTurn.
  - intros c now id v to code msg σ r σ'. apply memory_TransitionTurn.
  - intros c now id t to code msg σ [Hc _]. by apply memory_TransitionTurn_total.
  - intros c now id v st σ r σ'. apply memory_AppendStep.
Defined.

(** ** A scripted world *)
Record demo := mkDemo {
  w_polls : nat;
  w_count : N;
  w_answers : list ModelResponse;
  w_gated : bool;
  w_approvals : gmap string (ApprovalRequest * ApprovalStatus);
  w_executed : list ToolInvocation
}.
#[global] Instance eta_demo : Eta demo := {| eta := λ w,
  mkDemo (w_polls w) (w_count w) (w_answers w) (w_gated w) (w_approvals w) (w_executed w) |}.
Abbreviation demoSt := (MemoryStore * demo)%type.

Definition Canceled : error := ESentinel "context.Canceled" "context canceled".

(** A context that stays alive, and one that is cancelled after [w_polls] looks. *)
Definition calm_env : Env demoSt := {| poll := λ σ, (Background, σ); clock := λ σ, (1000%Z, σ) |}.
Definition flaky_env : Env demoSt := {|
  poll := λ σ, match w_polls (snd σ) with
    | O => (mkCtx (Some Canceled) (Some Canceled), σ)
    | S n => (Background, (fst σ, (snd σ)<| w_polls := n |>))
    end;
  clock := λ σ, (1000%Z, σ) |}.

Definition demo_id (prefix : string) : Op demoSt string := λ σ,
  let id := prefix +:+ "_" +:+ pretty (w_count (snd σ)) in
  let σ' := (fst σ, (snd σ)<| w_count := (w_count (snd σ) + 1)%N |>) in
  if bool_decide (is_Some (steps (fst σ) !! id)) then (Err (ENew "identifier in use"), σ') else (Ok id, σ').

Definition demo_descriptor : ToolDescriptor :=
  mkDescriptor [] None (mkToolID "terminal" "read" "1.0.0") "Read" "Read the terminal" "" "{}" [] [] [] []
    RiskLow ApprovalByPolicy DisclosureAlways 0 (mkSourceRef "builtin" "builtin" TrustBuiltin).

Definition demo_snapshot : ctx → DisclosureRequest → Op demoSt ToolSetSnapshot := λ _ _ σ,
  (Ok (mkSnapshot ("snapshot_" +:+ pretty (w_count (snd σ))) 1 "" ∅ [mkExposed demo_descriptor 1 10] 1000%Z), σ).

Definition demo_result : ToolResult := mkToolResult OutputFacts "{}" false false "".
Definition demo_ran (inv : ToolInvocation) (σ : demoSt) : demoSt :=
  (fst σ, (snd σ)<| w_executed := w_executed (snd σ) ++ [inv] |>).
Definition demo_execute : ctx → ToolSetSnapshot → ToolInvocation → Op demoSt ToolResult := λ _ _ inv σ,
  if w_gated (snd σ)
  then (Err (approval_required inv (mkDecision DecisionRequireApproval "touches a host" RiskLow "" "")), σ)
  else (Ok demo_result, demo_ran inv σ).
Definition demo_execute_approved : ctx → ToolSetSnapshot → ToolInvocation → ApprovalGrant → Op demoSt ToolResult :=
  λ _ _ inv _ σ, (Ok demo_result, demo_ran inv σ).

Definition demo_generate : ctx → ModelRequest → (ctx → ModelEvent → Op demoSt unit) → Op demoSt ModelResponse := λ _ _ _ σ,
  match w_answers (snd σ) with
  | [] => (Err (ENew "provider unavailable"), σ)
  | a :: rest => (Ok a, (fst σ, (snd σ)<| w_answers := rest |>))
  end.

Definition move_approval (id : string) (from to : ApprovalStatus) : Op demoSt ApprovalRequest := λ σ,
  match w_approvals (snd σ) !! id with
  | Some (a, status) =>
      if bool_decide (status = from)
      then (Ok a, (fst σ, (snd σ)<| w_approvals := <[id := (a, to)]> (w_approvals (snd σ)) |>))
      else (Err ErrApprovalConflict, σ)
  | None => (Err ErrApprovalNotFound, σ)
  end.
Definition demo_coordinator : ApprovalCoordinator demoSt := {|
  Request := λ _ a σ,
    (Ok tt, (fst σ, (snd σ)<| w_approvals := <[ap_ID a := (a, ApprovalPending)]> (w_approvals (snd σ)) |>));
  decision := Some {|
    Decide := λ _ id _ approve _,
      let! _ := move_approval id ApprovalPending (if (approve : bool) then ApprovalApproved else ApprovalDenied) in ret tt;
    GetApproved := λ _ id _, move_approval id ApprovalApproved ApprovalApproved;
    Consume := λ _ id _, move_approval id ApprovalApproved ApprovalConsumed;
    resolution := Some {|
      Get := λ _ id σ, (match w_approvals (snd σ) !! id with Some p => Ok p | None => Err ErrApprovalNotFound end, σ);
      List_ := λ _ _ σ, (Ok [], σ)
    |}
  |}
|}.

#[export] Instance demo_world : World demoSt := {|
  NewID := demo_id; publish_event := λ _ _ σ, (Ok tt, σ); tools_BuildSnapshot := demo_snapshot;
  tools_Execute := demo_execute; tools_ExecuteApproved := demo_execute_approved; Generate := demo_generate;
  approvals := demo_coordinator |}.

#[export] Instance demo_codec : Codec := {|
  marshal_references := λ _, Ok "[]"; marshal_model_input := λ _ _ _, Ok "{}"; marshal_model_event := λ _, Ok "{}";
  marshal_response := λ _, Ok "{}"; marshal_tool_result := λ _, Ok "{}"; marshal_approval_required := λ _ _, Ok "{}";
  marshal_approval_resolved := λ _ _, Ok "{}"; unmarshal_selection := λ _, Ok (mkSelection "" "");
  unmarshal_tool_ids := λ _, Ok [] |}.

Lemma keeps_move id from to : keeps (turn_of (St := demoSt)) (move_approval id from to).
Proof. intros σ i. unfold move_approval. by repeat case_match. Qed.

Ltac demo_keeps := intros σ i; simpl; repeat case_match; done.
Lemma demo_bystanders (e : Env demoSt) :
  keeps (turn_of (St := demoSt)) poll → keeps (turn_of (St := demoSt)) clock → Bystanders demoSt.
Proof.
  intros Hp Hc. split; try done; intros; simpl in *; simplify_eq/=.
  - intros σ i. unfold demo_id. by case_match.
  - intros σ i. unfold demo_execute. by case_match.
  - intros σ i. unfold demo_generate. by case_match.
  - apply keeps_move.
  - apply keeps_move.
  - intros σ i. unfold bind. pose proof (keeps_move id ApprovalPending (if b then ApprovalApproved else ApprovalDenied) σ i) as Hk.
    by destruct (move_approval _ _ _ σ) as [[a|er] σ'].
  - by simplify_eq/=.
Qed.
#[export] Instance calm_bystanders : Bystanders demoSt (i_env := calm_env).
Proof. by apply demo_bystanders. Qed.
#[export] Instance flaky_bystanders : Bystanders demoSt (i_env := flaky_env).
Proof. apply demo_bystanders; [|done]. intros σ i. simpl. by case_match. Qed.

(** ** Runs *)
Definition demo_session : Session := mkSession "" "s1" 1 7 "" SessionActive "" "" "" 1 0%Z 0%Z.
Definition demo_store : MemoryStore := NewMemoryStore<| sessions := {[ "s1" := demo_session ]} |>.
Definition look_up : ModelResponse := mkResponse "" [mkModelToolCall "call_1" "terminal.read" "{}"] (mkUsage 0 0).
Definition answer : ModelResponse := mkResponse "all is well" [] (mkUsage 0 0).
Definition demo_state (polls : nat) (answers : list ModelResponse) (gated : bool) : demoSt :=
  (demo_store, mkDemo polls 0 answers gated ∅ []).
Definition demo_run_request : RunRequest :=
  mkRunRequest [] (mkSelection "" "") "s1" "t1" "how are the hosts?" (mkPrincipal 7 1) "" DefaultDisclosureBudget.
Definition demo_config : LoopConfig := effective_config (mkConfig 0 0).

Abbreviation Run_in e σ := (@Loop.Run demoSt _ e _ _ demo_config demo_run_request σ).
Abbreviation Resolve_in e σ approve :=
  (@Loop.ResolveApproval demoSt _ e _ _ demo_config demo_run_request "approval_4" approve "" σ).

(** The status a turn is stored with. *)
Definition stored_status (id : string) (σ : demoSt) : option TurnStatus := t_Status <$> turn_of σ id.

Example demo_completes :
  let '((r, e), σ) := Run_in calm_env (demo_state 0 [look_up; answer] false) in
  (e, r_Text r, stored_status "t1" σ, length (w_executed (snd σ))) = (None, "all is well", Some TurnCompleted, 1).
Proof. vm_compute. reflexivity. Qed.
Example demo_budget :
  let '((r, e), σ) := Run_in calm_env (demo_state 0 (repeat look_up 20) false) in
  (e, stored_status "t1" σ, length (w_executed (snd σ))) = (Some ErrStepBudgetExceeded, Some TurnFailed, 12).
Proof. vm_compute. reflexivity. Qed.
Example demo_waits :
  let '((r, e), σ) := Run_in calm_env (demo_state 0 [look_up; answer] true) in
  (e, r_ApprovalID r, stored_status "t1" σ, w_executed (snd σ)) = (None, "approval_4", Some TurnWaitingApproval, []).
Proof. vm_compute. reflexivity. Qed.

(** A cancelled request leaves its turn running.  When the request's context
    is cancelled between the tool snapshot and the append of the model step,
    [AppendStep] fails and its zero [Turn] overwrites the loop's variable; the
    deferred function then tries to fail the turn with the empty identifier.
    The turn stays running and the session's slot stays taken: the next run of
    the session is refused. *)
Theorem cancelled_append_strands_turn :
  let '((r, e), σ) := Run_in flaky_env (demo_state 11 [answer] false) in
  t_ID (r_Turn r) = "" ∧ (∃ err, e = Some err ∧ Is err Canceled = true ∧ Is err ErrTurnNotFound = true) ∧
  stored_status "t1" σ = Some TurnRunning ∧
  ∃ err, snd (fst (@Loop.Run demoSt _ calm_env _ _ demo_config (demo_run_request<| rr_TurnID := "t2" |>) σ)) = Some err ∧
    Is err ErrTurnAlreadyActive = true.
Proof. vm_compute. split_and!; eauto. Qed.

(** The same at any moment after the step was appended ends the turn. *)
Example demo_cancelled_later :
  map (λ n, stored_status "t1" (snd (Run_in flaky_env (demo_state n [answer] false)))) [4; 8; 12; 13; 14; 15; 16; 17] =
  [Some TurnFailed; Some TurnFailed; Some TurnFailed; Some TurnFailed; Some TurnFailed;
   Some TurnFailed; Some TurnFailed; Some TurnCompleted].
Proof. vm_compute. reflexivity. Qed.

(** Between [StartTurn] and the transition to running, a cancellation leaves the turn queued. *)
Example demo_cancelled_start :
  stored_status "t1" (snd (Run_in flaky_env (demo_state 3 [answer] false))) = Some TurnQueued.
Proof. vm_compute. reflexivity. Qed.

(** The state in which a call waits for approval. *)
Definition demo_waiting (polls : nat) : demoSt :=
  let σ := snd (Run_in calm_env (demo_state 0 [look_up; answer] true)) in (fst σ, (snd σ)<| w_polls := polls |>).

Example demo_approved :
  let '((r, e), σ) := Resolve_in calm_env (demo_waiting 0) true in
  (e, r_Text r, stored_status "t1" σ, length (w_executed (snd σ))) = (None, "all is well", Some TurnCompleted, 1).
Proof. vm_compute. reflexivity. Qed.

(** A cancelled resume leaves its turn running.  When the request's context
    is cancelled after the approval was consumed and the turn set running
    again, [ResumeStep] fails and [run] returns before the deferred function
    is installed: the turn stays running, the step waits for an approval that
    is spent, and the call was not executed. *)
Theorem cancelled_resume_strands_turn :
  let '((r, e), σ) := Resolve_in flaky_env (demo_waiting 9) true in
  e = Some Canceled ∧ stored_status "t1" σ = Some TurnRunning ∧ w_executed (snd σ) = [] ∧
  (snd <$> w_approvals (snd σ) !! "approval_4") = Some ApprovalConsumed ∧
  (st_Status <$> steps (fst σ) !! "step_3") = Some StepWaitingApproval.
Proof. vm_compute. done. Qed.


Lemma demo_appendable (τ : demoSt) id τ' :
  NewID "step" τ = (Ok id, τ') → appendable (i_env := calm_env) id τ'.
Proof.
  simpl. unfold demo_id. case_bool_decide as Hd; [done|]. intros ?; simplify_eq.
  intros t step (Ht & Hst & _) Hid. simpl in *. unfold call_at, beside. simpl.
  unfold Memory.AppendStep, Memory.lookup_turn, Memory.exists_in, Memory.put_step, Memory.put_turn. unfold_monad. simpl.
  rewrite Hid, bool_decide_eq_false_2 by done. cbv beta. rewrite Ht, bool_decide_eq_false_2 by tauto.
  rewrite Hst. simpl. by rewrite bool_decide_eq_false_2.
Qed.


Lemma demo_waiting_turns n id (t : Turn) : turn_of (demo_waiting n) id = Some t → t_ID t = id.
Proof.
  assert (turns (fst (demo_waiting n)) = {[ "t1" := default zero_Turn (turn_of (demo_waiting n) "t1") ]}) as Ht
    by (vm_compute; reflexivity).
  change (turn_of (demo_waiting n) id) with (turns (fst (demo_waiting n)) !! id). rewrite Ht.
  intros [<- <-]%lookup_singleton_Some. vm_compute. reflexivity.
Qed.

Lemma resume_settles_witness :
  let '((r, e), σ) := @Loop.ResumeApproved demoSt _ flaky_env _ _ demo_config demo_run_request "approval_4" (demo_waiting 30) in
  t_ID (r_Turn r) = "" ∧ e ≠ None ∨
  turn_of σ (t_ID (r_Turn r)) = Some (core (St := demoSt) (r_Turn r)) ∧ (settled (r_Turn r) ∨ t_Status (r_Turn r) = TurnRunning ∧ e ≠ None).
Proof.
  destruct (@Loop.ResumeApproved demoSt _ flaky_env _ _ demo_config demo_run_request "approval_4" (demo_waiting 30))
    as [[r e] σ] eqn:E.
  apply (resume_settles (i_env := flaky_env) demo_config demo_run_request "approval_4" (demo_waiting 30) r e σ).
  - vm_compute. reflexivity.
  - apply demo_waiting_turns.
  - exact E.
Defined.

Lemma denial_cancels_witness :
  let '((r, e), σ) := Resolve_in calm_env (demo_waiting 0) false in
  t_Status (r_Turn r) = TurnCancelled ∧ ∃ id, turn_of σ id = Some (core (St := demoSt) (r_Turn r)).
Proof.
  destruct (Resolve_in calm_env (demo_waiting 0) false) as [[r e] σ] eqn:E.
  assert (e = None) as He by (apply (f_equal (λ x, snd (fst x))) in E; vm_compute in E; by symmetry).
  apply (denial_cancels (i_env := calm_env) demo_config demo_run_request "approval_4" "" (demo_waiting 0) r σ).
  - vm_compute. reflexivity.
  - apply demo_waiting_turns.
  - rewrite E. by rewrite He.
Defined.
