(* ===== verification/AgentDao.v ===== *)
(** * repo/model and repo/dao: the tables of the agent runtime

    [model_agent_runtime.go]: the rows.  [dao_agent_runtime.go]: the queries.
    [transaction.go]: transactions.  GORM and the database are a parameter:
    [Gorm] gives the calls the code makes of it, and [GormLaws] states what
    the code relies on, in terms of the rows a database holds.  Any call may
    fail at any time; then it has changed nothing.  [GormReliable] adds, where
    a theorem needs it, that the database answers. *)

From S2P Require Import Prelude ToolTypes AgentTypes.

(** ** Rows

    Without the soft-deletion column, which nothing of the runtime sets, and
    the three columns of a message that are never written. *)
Record AgentSession := mkRowSession {
  rs_Kind : string;
  rs_ID : string;
  rs_CreatedAt : Time;
  rs_UpdatedAt : Time;
  rs_OrganizationID : N;
  rs_CreatedBy : N;
  rs_Title : string;
  rs_Status : N;
  rs_ActiveTurnID : string;
  rs_ActiveAttachmentID : string;
  rs_Summary : string;
  rs_Version : N
}.
Record AgentAttachment := mkRowAttachment {
  ra_AccessHandleID : string;
  ra_ID : string;
  ra_CreatedAt : Time;
  ra_UpdatedAt : Time;
  ra_AgentSessionID : string;
  ra_AccessID : N;
  ra_ApplicationID : N;
  ra_Protocol : string;
  ra_Capabilities : string;
  ra_Generation : N;
  ra_State : N
}.
Record AgentTurn := mkRowTurn {
  rt_ID : string;
  rt_CreatedAt : Time;
  rt_UpdatedAt : Time;
  rt_AgentSessionID : string;
  rt_Status : N;
  rt_ActiveStepID : string;
  rt_ErrorCode : string;
  rt_ErrorMessage : string;
  rt_Version : N;
  rt_StartedAt : option Time;
  rt_CompletedAt : option Time
}.
Record AgentMessage := mkRowMessage {
  rg_ID : string;
  rg_CreatedAt : Time;
  rg_UpdatedAt : Time;
  rg_AgentSessionID : string;
  rg_TurnID : string;
  rg_Sequence : N;
  rg_Role : string;
  rg_Content : string
}.
Record AgentStep := mkRowStep {
  rp_ID : string;
  rp_CreatedAt : Time;
  rp_UpdatedAt : Time;
  rp_TurnID : string;
  rp_Sequence : N;
  rp_Kind : N;
  rp_Status : N;
  rp_ToolID : string;
  rp_ToolSnapshotID : string;
  rp_Input : string;
  rp_Output : string;
  rp_ErrorCode : string;
  rp_ErrorMessage : string;
  rp_Version : N;
  rp_StartedAt : option Time;
  rp_CompletedAt : option Time
}.
Record AgentApproval := mkRowApproval {
  rv_ID : string;
  rv_CreatedAt : Time;
  rv_UpdatedAt : Time;
  rv_AgentSessionID : string;
  rv_TurnID : string;
  rv_StepID : string;
  rv_RequestedBy : N;
  rv_DecidedBy : option N;
  rv_Status : N;
  rv_Risk : N;
  rv_InputSHA256 : string;
  rv_AttachmentGeneration : N;
  rv_Reason : string;
  rv_DecisionNote : string;
  rv_ExpiresAt : Time;
  rv_DecidedAt : option Time;
  rv_Invocation : string;
  rv_Snapshot : string
}.
Record AgentToolsetSnapshot := mkRowSnapshot {
  rn_ID : string;
  rn_CreatedAt : Time;
  rn_UpdatedAt : Time;
  rn_TurnID : string;
  rn_ModelStepID : string;
  rn_CatalogGeneration : N;
  rn_PolicyRevision : string;
  rn_Attachments : string;
  rn_Tools : string
}.
#[global] Instance eta_AgentSession : Eta AgentSession := {| eta := λ r,
  mkRowSession (rs_Kind r) (rs_ID r) (rs_CreatedAt r) (rs_UpdatedAt r) (rs_OrganizationID r) (rs_CreatedBy r)
    (rs_Title r) (rs_Status r) (rs_ActiveTurnID r) (rs_ActiveAttachmentID r) (rs_Summary r) (rs_Version r) |}.
#[global] Instance eta_AgentAttachment : Eta AgentAttachment := {| eta := λ r,
  mkRowAttachment (ra_AccessHandleID r) (ra_ID r) (ra_CreatedAt r) (ra_UpdatedAt r) (ra_AgentSessionID r) (ra_AccessID r)
    (ra_ApplicationID r) (ra_Protocol r) (ra_Capabilities r) (ra_Generation r) (ra_State r) |}.
#[global] Instance eta_AgentTurn : Eta AgentTurn := {| eta := λ r,
  mkRowTurn (rt_ID r) (rt_CreatedAt r) (rt_UpdatedAt r) (rt_AgentSessionID r) (rt_Status r) (rt_ActiveStepID r)
    (rt_ErrorCode r) (rt_ErrorMessage r) (rt_Version r) (rt_StartedAt r) (rt_CompletedAt r) |}.
#[global] Instance eta_AgentMessage : Eta AgentMessage := {| eta := λ r,
  mkRowMessage (rg_ID r) (rg_CreatedAt r) (rg_UpdatedAt r) (rg_AgentSessionID r) (rg_TurnID r) (rg_Sequence r)
    (rg_Role r) (rg_Content r) |}.
#[global] Instance eta_AgentStep : Eta AgentStep := {| eta := λ r,
  mkRowStep (rp_ID r) (rp_CreatedAt r) (rp_UpdatedAt r) (rp_TurnID r) (rp_Sequence r) (rp_Kind r) (rp_Status r)
    (rp_ToolID r) (rp_ToolSnapshotID r) (rp_Input r) (rp_Output r) (rp_ErrorCode r) (rp_ErrorMessage r) (rp_Version r)
    (rp_StartedAt r) (rp_CompletedAt r) |}.
#[global] Instance eta_AgentApproval : Eta AgentApproval := {| eta := λ r,
  mkRowApproval (rv_ID r) (rv_CreatedAt r) (rv_UpdatedAt r) (rv_AgentSessionID r) (rv_TurnID r) (rv_StepID r)
    (rv_RequestedBy r) (rv_DecidedBy r) (rv_Status r) (rv_Risk r) (rv_InputSHA256 r) (rv_AttachmentGeneration r)
    (rv_Reason r) (rv_DecisionNote r) (rv_ExpiresAt r) (rv_DecidedAt r) (rv_Invocation r) (rv_Snapshot r) |}.
#[global] Instance eta_AgentToolsetSnapshot : Eta AgentToolsetSnapshot := {| eta := λ r,
  mkRowSnapshot (rn_ID r) (rn_CreatedAt r) (rn_UpdatedAt r) (rn_TurnID r) (rn_ModelStepID r) (rn_CatalogGeneration r)
    (rn_PolicyRevision r) (rn_Attachments r) (rn_Tools r) |}.

Definition or_default (v d : string) : string := if bool_decide (v = "") then d else v.
Definition or_one (v : N) : N := if bool_decide (v = 0%N) then 1%N else v.
Definition or_now (v now : Time) : Time := if IsZero v then now else v.

(** The rows of a database, each under its primary key. *)
Record Tables := mkTables {
  agent_sessions : gmap string AgentSession;
  agent_attachments : gmap string AgentAttachment;
  agent_turns : gmap string AgentTurn;
  agent_messages : gmap string AgentMessage;
  agent_steps : gmap string AgentStep;
  agent_approvals : gmap string AgentApproval;
  agent_toolset_snapshots : gmap string AgentToolsetSnapshot
}.
#[global] Instance eta_Tables : Eta Tables := {| eta := λ t,
  mkTables (agent_sessions t) (agent_attachments t) (agent_turns t) (agent_messages t) (agent_steps t)
    (agent_approvals t) (agent_toolset_snapshots t) |}.

Definition keyed_by {Row} (key : Row → string) (m : gmap string Row) : Prop := ∀ k r, m !! k = Some r → key r = k.
Record keyed (t : Tables) : Prop := {
  keyed_sessions : keyed_by rs_ID (agent_sessions t);
  keyed_attachments : keyed_by ra_ID (agent_attachments t);
  keyed_turns : keyed_by rt_ID (agent_turns t);
  keyed_messages : keyed_by rg_ID (agent_messages t);
  keyed_steps : keyed_by rp_ID (agent_steps t);
  keyed_approvals : keyed_by rv_ID (agent_approvals t);
  keyed_snapshots : keyed_by rn_ID (agent_toolset_snapshots t)
}.

(** What a model declares of its rows: their table, the primary key, the
    columns GORM fills when the value written at creation is zero (a default
    of the column, or its own reading of the clock), the update time it keeps
    by itself, and the unique indices ([clash] of two rows). *)
Class Table (Row : Type) := {
  get_rows : Tables → gmap string Row;
  set_rows : gmap string Row → Tables → Tables;
  key : Row → string;
  defaults : Time → Row → Row;
  stamp : Time → Row → Row;
  clash : Row → Row → bool;
  key_defaults now r : key (defaults now r) = key r;
  key_stamp now r : key (stamp now r) = key r;
  get_set m t : get_rows (set_rows m t) = m;
  set_get t : set_rows (get_rows t) t = t;
  get_keyed t : keyed t → keyed_by key (get_rows t);
  set_keyed m t : keyed t → keyed_by key m → keyed (set_rows m t)
}.

#[export] Instance table_AgentSession : Table AgentSession.
Proof.
  refine {| get_rows := agent_sessions; set_rows := λ m t, t<| agent_sessions := m |>; key := rs_ID;
    defaults := λ now r, r<| rs_CreatedAt := or_now (rs_CreatedAt r) now |><| rs_UpdatedAt := or_now (rs_UpdatedAt r) now |>
    <| rs_Kind := or_default (rs_Kind r) "access" |><| rs_Version := or_one (rs_Version r) |>;
    stamp := λ now r, r<| rs_UpdatedAt := now |>; clash := λ _ _, false |}.
  all: first [done | by intros [] | by intros t [] | by intros m t [] Hm; split].
Defined.
#[export] Instance table_AgentAttachment : Table AgentAttachment.
Proof.
  refine {| get_rows := agent_attachments; set_rows := λ m t, t<| agent_attachments := m |>; key := ra_ID;
    defaults := λ now r, r<| ra_CreatedAt := or_now (ra_CreatedAt r) now |><| ra_UpdatedAt := or_now (ra_UpdatedAt r) now |>
    <| ra_Capabilities := or_default (ra_Capabilities r) "[]" |><| ra_Generation := or_one (ra_Generation r) |>;
    stamp := λ now r, r<| ra_UpdatedAt := now |>; clash := λ _ _, false |}.
  all: first [done | by intros [] | by intros t [] | by intros m t [] Hm; split].
Defined.
#[export] Instance table_AgentTurn : Table AgentTurn.
Proof.
  refine {| get_rows := agent_turns; set_rows := λ m t, t<| agent_turns := m |>; key := rt_ID;
    defaults := λ now r, r<| rt_CreatedAt := or_now (rt_CreatedAt r) now |><| rt_UpdatedAt := or_now (rt_UpdatedAt r) now |>
    <| rt_Version := or_one (rt_Version r) |>;
    stamp := λ now r, r<| rt_UpdatedAt := now |>; clash := λ _ _, false |}.
  all: first [done | by intros [] | by intros t [] | by intros m t [] Hm; split].
Defined.
#[export] Instance table_AgentMessage : Table AgentMessage.
Proof.
  refine {| get_rows := agent_messages; set_rows := λ m t, t<| agent_messages := m |>; key := rg_ID;
    defaults := λ now r, r<| rg_CreatedAt := or_now (rg_CreatedAt r) now |><| rg_UpdatedAt := or_now (rg_UpdatedAt r) now |>
    <| rg_Content := or_default (rg_Content r) "{}" |>;
    stamp := λ now r, r<| rg_UpdatedAt := now |>; clash := λ x y, bool_decide (rg_TurnID x = rg_TurnID y) && bool_decide (rg_Sequence x = rg_Sequence y) |}.
  all: first [done | by intros [] | by intros t [] | by intros m t [] Hm; split].
Defined.
#[export] Instance table_AgentStep : Table AgentStep.
Proof.
  refine {| get_rows := agent_steps; set_rows := λ m t, t<| agent_steps := m |>; key := rp_ID;
    defaults := λ now r, r<| rp_CreatedAt := or_now (rp_CreatedAt r) now |><| rp_UpdatedAt := or_now (rp_UpdatedAt r) now |>
    <| rp_Input := or_default (rp_Input r) "{}" |><| rp_Output := or_default (rp_Output r) "{}" |>
    <| rp_Version := or_one (rp_Version r) |>;
    stamp := λ now r, r<| rp_UpdatedAt := now |>; clash := λ x y, bool_decide (rp_TurnID x = rp_TurnID y) && bool_decide (rp_Sequence x = rp_Sequence y) |}.
  all: first [done | by intros [] | by intros t [] | by intros m t [] Hm; split].
Defined.
#[export] Instance table_AgentApproval : Table AgentApproval.
Proof.
  refine {| get_rows := agent_approvals; set_rows := λ m t, t<| agent_approvals := m |>; key := rv_ID;
    defaults := λ now r, r<| rv_CreatedAt := or_now (rv_CreatedAt r) now |><| rv_UpdatedAt := or_now (rv_UpdatedAt r) now |>
    <| rv_Invocation := or_default (rv_Invocation r) "{}" |><| rv_Snapshot := or_default (rv_Snapshot r) "{}" |>;
    stamp := λ now r, r<| rv_UpdatedAt := now |>; clash := λ x y, bool_decide (rv_StepID x = rv_StepID y) |}.
  all: first [done | by intros [] | by intros t [] | by intros m t [] Hm; split].
Defined.
#[export] Instance table_AgentToolsetSnapshot : Table AgentToolsetSnapshot.
Proof.
  refine {| get_rows := agent_toolset_snapshots; set_rows := λ m t, t<| agent_toolset_snapshots := m |>; key := rn_ID;
    defaults := λ now r, r<| rn_CreatedAt := or_now (rn_CreatedAt r) now |><| rn_UpdatedAt := or_now (rn_UpdatedAt r) now |>
    <| rn_Attachments := or_default (rn_Attachments r) "{}" |><| rn_Tools := or_default (rn_Tools r) "[]" |>;
    stamp := λ now r, r<| rn_UpdatedAt := now |>; clash := λ x y, bool_decide (rn_ModelStepID x = rn_ModelStepID y) |}.
  all: first [done | by intros [] | by intros t [] | by intros m t [] Hm; split].
Defined.

(** ** GORM *)
Definition ErrRecordNotFound : error := ESentinel "gorm.ErrRecordNotFound" "record not found".

(** The calls: [Create(row)]; [First(&row, id)]; [Where(p).Order(less).Find];
    [Where(p).Select(columns).Updates(row)] with the columns as an assignment,
    returning [RowsAffected]; [MAX(column)] over a condition, 0 without rows;
    and [Begin], [Commit], [Rollback]. *)
Class Gorm (DB : Type) := {
  Create {Row} `{!Table Row} : ctx → Row → Op DB unit;
  First {Row} `{!Table Row} : ctx → string → Op DB Row;
  Find {Row} `{!Table Row} : ctx → (Tables → Row → bool) → (Row → Row → bool) → Op DB (list Row);
  Updates {Row} `{!Table Row} : ctx → (Row → bool) → (Row → Row) → Op DB N;
  Max {Row} `{!Table Row} : ctx → (Row → bool) → (Row → N) → Op DB N;
  Begin : DB → DB;
  Commit : Op DB unit;
  Rollback : DB → DB
}.

(** What the code relies on.  [tables] is what a query sees now and [saved]
    the rows at the start of each open transaction, innermost first. *)
Class GormLaws (DB : Type) `{!Gorm DB} := {
  tables : DB → Tables;
  saved : DB → list Tables;
  tables_keyed s : keyed (tables s);
  Create_law {Row} `{!Table Row} c (r : Row) s x s' :
    Create c r s = (x, s') → saved s' = saved s ∧
    match x with
    | Ok _ => get_rows (tables s) !! key r = None ∧
        (∀ k r', get_rows (tables s) !! k = Some r' → clash r r' = false) ∧
        ∃ now, tables s' = set_rows (<[key r := defaults now r]> (get_rows (tables s))) (tables s)
    | Err _ => tables s' = tables s
    end;
  First_law {Row} `{!Table Row} c id s (x : Result Row) s' :
    First c id s = (x, s') → saved s' = saved s ∧ tables s' = tables s ∧
    match x with
    | Ok r => get_rows (tables s) !! id = Some r
    | Err e => Is e ErrRecordNotFound = true → get_rows (Row := Row) (tables s) !! id = None
    end;
  Find_law {Row} `{!Table Row} c p less s (x : Result (list Row)) s' :
    Find c p less s = (x, s') → saved s' = saved s ∧ tables s' = tables s ∧
    match x with
    | Ok l => l ≡ₚ List.filter (p (tables s)) (map_to_list (get_rows (tables s))).*2 ∧
        StronglySorted (λ a b, less b a = false) l
    | Err _ => True
    end;
  Updates_law {Row} `{!Table Row} c p assign s x s' :
    (∀ r : Row, key (assign r) = key r) → Updates c p assign s = (x, s') → saved s' = saved s ∧
    match x with
    | Ok n => n = N.of_nat (length (List.filter p (map_to_list (get_rows (tables s))).*2)) ∧
        ∃ now, tables s' = set_rows ((λ r : Row, if p r then stamp now (assign r) else r) <$> get_rows (tables s)) (tables s)
    | Err _ => tables s' = tables s
    end;
  Max_law {Row} `{!Table Row} c p column s x s' :
    Max c p column s = (x, s') → saved s' = saved s ∧ tables s' = tables s ∧
    match x with
    | Ok n => n = foldr N.max 0%N (column <$> List.filter p (map_to_list (get_rows (Row := Row) (tables s))).*2)
    | Err _ => True
    end;
  Begin_law s : tables (Begin s) = tables s ∧ saved (Begin s) = tables s :: saved s;
  Commit_law t ts s x s' :
    saved s = t :: ts → Commit s = (x, s') → saved s' = ts ∧
    tables s' = match x with Ok _ => tables s | Err _ => t end;
  Rollback_law t ts s : saved s = t :: ts → tables (Rollback s) = t ∧ saved (Rollback s) = ts
}.

(** A database that answers: with a live context a call succeeds unless the
    rows forbid it. *)
Class GormReliable (DB : Type) `{!Gorm DB, !GormLaws DB} : Prop := {
  First_total {Row} `{!Table Row} c id s (r : Row) :
    live c → get_rows (tables s) !! id = Some r → is_ok (fst (First (Row := Row) c id s)) = true;
  Updates_total {Row} `{!Table Row} c p assign s :
    live c → is_ok (fst (Updates (Row := Row) c p assign s)) = true;
  Commit_total s t ts : saved s = t :: ts → is_ok (fst (Commit s)) = true
}.

(** ** The queries *)
Module Dao.
Section Queries.
Context {DB : Type} {i_gorm : Gorm DB}.

Definition CreateAgentSession (c : ctx) (r : AgentSession) : Op DB unit := Create c r.
Definition GetAgentSession (c : ctx) (id : string) : Op DB AgentSession := First c id.
(** updated_at DESC, id ASC *)
Definition session_order (x y : AgentSession) : bool :=
  if Z.eqb (rs_UpdatedAt x) (rs_UpdatedAt y) then String.ltb (rs_ID x) (rs_ID y) else After (rs_UpdatedAt x) (rs_UpdatedAt y).
Definition ListAgentSessions (c : ctx) (createdBy : N) : Op DB (list AgentSession) :=
  Find c (λ _ r, bool_decide (createdBy = 0%N) || bool_decide (rs_CreatedBy r = createdBy)) session_order.
(** The columns of [Select], taken from the new row. *)
Definition session_columns (new old : AgentSession) : AgentSession :=
  old<| rs_Title := rs_Title new |><| rs_Status := rs_Status new |><| rs_ActiveTurnID := rs_ActiveTurnID new |>
     <| rs_ActiveAttachmentID := rs_ActiveAttachmentID new |><| rs_Summary := rs_Summary new |>
     <| rs_Version := rs_Version new |><| rs_UpdatedAt := rs_UpdatedAt new |>.
Definition UpdateAgentSessionCAS (c : ctx) (new : AgentSession) (expected : N) : Op DB bool :=
  let! n := Updates c (λ r, bool_decide (rs_ID r = rs_ID new) && bool_decide (rs_Version r = expected))
    (session_columns new) in
  ret (N.eqb n 1).

Definition CreateAgentAttachment (c : ctx) (r : AgentAttachment) : Op DB unit := Create c r.
Definition GetAgentAttachment (c : ctx) (id : string) : Op DB AgentAttachment := First c id.
Definition attachment_order (x y : AgentAttachment) : bool :=
  if Z.eqb (ra_CreatedAt x) (ra_CreatedAt y) then String.ltb (ra_ID x) (ra_ID y) else Before (ra_CreatedAt x) (ra_CreatedAt y).
Definition ListAgentAttachments (c : ctx) (sessionID : string) : Op DB (list AgentAttachment) :=
  Find c (λ _ r, bool_decide (ra_AgentSessionID r = sessionID)) attachment_order.
Definition attachment_columns (new old : AgentAttachment) : AgentAttachment :=
  old<| ra_Capabilities := ra_Capabilities new |><| ra_Generation := ra_Generation new |><| ra_State := ra_State new |>
     <| ra_UpdatedAt := ra_UpdatedAt new |>.
Definition UpdateAgentAttachmentCAS (c : ctx) (new : AgentAttachment) (expected : N) : Op DB bool :=
  let! n := Updates c (λ r, bool_decide (ra_ID r = ra_ID new) && bool_decide (ra_Generation r = expected))
    (attachment_columns new) in
  ret (N.eqb n 1).

Definition CreateAgentTurn (c : ctx) (r : AgentTurn) : Op DB unit := Create c r.
Definition GetAgentTurn (c : ctx) (id : string) : Op DB AgentTurn := First c id.
Definition turn_order (x y : AgentTurn) : bool :=
  if Z.eqb (rt_CreatedAt x) (rt_CreatedAt y) then String.ltb (rt_ID x) (rt_ID y) else Before (rt_CreatedAt x) (rt_CreatedAt y).
Definition ListAgentTurns (c : ctx) (sessionID : string) : Op DB (list AgentTurn) :=
  Find c (λ _ r, bool_decide (rt_AgentSessionID r = sessionID)) turn_order.
Definition turn_columns (new old : AgentTurn) : AgentTurn :=
  old<| rt_Status := rt_Status new |><| rt_ActiveStepID := rt_ActiveStepID new |><| rt_ErrorCode := rt_ErrorCode new |>
     <| rt_ErrorMessage := rt_ErrorMessage new |><| rt_Version := rt_Version new |><| rt_StartedAt := rt_StartedAt new |>
     <| rt_CompletedAt := rt_CompletedAt new |><| rt_UpdatedAt := rt_UpdatedAt new |>.
Definition UpdateAgentTurnCAS (c : ctx) (new : AgentTurn) (expected : N) : Op DB bool :=
  let! n := Updates c (λ r, bool_decide (rt_ID r = rt_ID new) && bool_decide (rt_Version r = expected))
    (turn_columns new) in
  ret (N.eqb n 1).

Definition CreateAgentStep (c : ctx) (r : AgentStep) : Op DB unit := Create c r.
Definition GetAgentStep (c : ctx) (id : string) : Op DB AgentStep := First c id.
(** created_at ASC, turn_id ASC, sequence ASC *)
Definition step_order (x y : AgentStep) : bool :=
  if Z.eqb (rp_CreatedAt x) (rp_CreatedAt y) then
    if bool_decide (rp_TurnID x = rp_TurnID y) then N.ltb (rp_Sequence x) (rp_Sequence y)
    else String.ltb (rp_TurnID x) (rp_TurnID y)
  else Before (rp_CreatedAt x) (rp_CreatedAt y).
(** turn_id IN (SELECT id FROM agent_turns WHERE agent_session_id = ?) *)
Definition ListAgentSessionSteps (c : ctx) (sessionID : string) : Op DB (list AgentStep) :=
  Find c (λ t r, existsb (λ turn, bool_decide (rt_AgentSessionID turn = sessionID) && bool_decide (rt_ID turn = rp_TurnID r))
    (map_to_list (agent_turns t)).*2) step_order.
Definition NextAgentStepSequence (c : ctx) (turnID : string) : Op DB N :=
  let! m := Max c (λ r, bool_decide (rp_TurnID r = turnID)) rp_Sequence in ret (u32_add m 1).
Definition step_columns (new old : AgentStep) : AgentStep :=
  old<| rp_Status := rp_Status new |><| rp_Output := rp_Output new |><| rp_ErrorCode := rp_ErrorCode new |>
     <| rp_ErrorMessage := rp_ErrorMessage new |><| rp_Version := rp_Version new |><| rp_StartedAt := rp_StartedAt new |>
     <| rp_CompletedAt := rp_CompletedAt new |><| rp_UpdatedAt := rp_UpdatedAt new |>.
Definition UpdateAgentStepCAS (c : ctx) (new : AgentStep) (expected : N) : Op DB bool :=
  let! n := Updates c (λ r, bool_decide (rp_ID r = rp_ID new) && bool_decide (rp_Version r = expected))
    (step_columns new) in
  ret (N.eqb n 1).

Definition CreateAgentMessage (c : ctx) (r : AgentMessage) : Op DB unit := Create c r.
Definition ListAgentMessages (c : ctx) (turnID : string) : Op DB (list AgentMessage) :=
  Find c (λ _ r, bool_decide (rg_TurnID r = turnID)) (λ x y, N.ltb (rg_Sequence x) (rg_Sequence y)).
Definition message_order (x y : AgentMessage) : bool :=
  if Z.eqb (rg_CreatedAt x) (rg_CreatedAt y) then
    if bool_decide (rg_TurnID x = rg_TurnID y) then N.ltb (rg_Sequence x) (rg_Sequence y)
    else String.ltb (rg_TurnID x) (rg_TurnID y)
  else Before (rg_CreatedAt x) (rg_CreatedAt y).
Definition ListAgentSessionMessages (c : ctx) (sessionID : string) : Op DB (list AgentMessage) :=
  Find c (λ _ r, bool_decide (rg_AgentSessionID r = sessionID)) message_order.
Definition NextAgentMessageSequence (c : ctx) (turnID : string) : Op DB N :=
  let! m := Max c (λ r, bool_decide (rg_TurnID r = turnID)) rg_Sequence in ret (u32_add m 1).

Definition CreateAgentApproval (c : ctx) (r : AgentApproval) : Op DB unit := Create c r.
Definition GetAgentApproval (c : ctx) (id : string) : Op DB AgentApproval := First c id.
Definition approval_order (x y : AgentApproval) : bool :=
  if Z.eqb (rv_CreatedAt x) (rv_CreatedAt y) then String.ltb (rv_ID x) (rv_ID y) else Before (rv_CreatedAt x) (rv_CreatedAt y).
Definition ListAgentApprovals (c : ctx) (sessionID : string) : Op DB (list AgentApproval) :=
  Find c (λ _ r, bool_decide (rv_AgentSessionID r = sessionID)) approval_order.
Definition approval_columns (new old : AgentApproval) : AgentApproval :=
  old<| rv_Status := rv_Status new |><| rv_DecidedBy := rv_DecidedBy new |><| rv_DecisionNote := rv_DecisionNote new |>
     <| rv_DecidedAt := rv_DecidedAt new |><| rv_UpdatedAt := rv_UpdatedAt new |>.
Definition UpdateAgentApprovalCAS (c : ctx) (new : AgentApproval) (expectedStatus : N) : Op DB bool :=
  let! n := Updates c (λ r, bool_decide (rv_ID r = rv_ID new) && bool_decide (rv_Status r = expectedStatus))
    (approval_columns new) in
  ret (N.eqb n 1).

Definition CreateAgentToolsetSnapshot (c : ctx) (r : AgentToolsetSnapshot) : Op DB unit := Create c r.
Definition GetAgentToolsetSnapshot (c : ctx) (id : string) : Op DB AgentToolsetSnapshot := First c id.

(** [WithTransactionContext] ([transaction.go]); [fn] runs on the
    transaction's Dao, which is the innermost open transaction here.  A panic
    is not modelled. *)
Definition WithTransactionContext {A} (c : ctx) (fn : Op DB A) : Op DB A := λ s,
  match ctx_err c with
  | Some e => (Err e, s)
  | None =>
      match fn (Begin s) with
      | (Err e, s1) => (Err (EWrap "transaction failed: " e ""), Rollback s1)
      | (Ok a, s1) =>
          match ctx_late c with
          | Some e => (Err e, Rollback s1)
          | None =>
              match Commit s1 with
              | (Ok _, s2) => (Ok a, s2)
              | (Err e, s2) => (Err e, s2)
              end
          end
      end
  end.
End Queries.
End Dao.
