(* ===== verification/DurableStore.v ===== *)
(** * agent/runtime: DurableStore

    [durable_store.go]: the [Store] on the database, with optimistic
    concurrency and transactions around what writes more than one row.
    [now] is the reading of [store.clock]; [encoding/json] on the values kept
    in text columns is a parameter. *)

From S2P Require Import Prelude ToolTypes AgentTypes AgentDao.

Class ColumnCodec := {
  marshal_capabilities : list Capability → Result string;
  unmarshal_capabilities : string → Result (list Capability);
  marshal_message : ModelMessage → Result string;
  unmarshal_message : string → Result ModelMessage;
  marshal_generations : gmap string N → Result string;
  unmarshal_generations : string → Result (gmap string N);
  marshal_tools : list ExposedTool → Result string;
  unmarshal_tools : string → Result (list ExposedTool)
}.

(** ** The enumerations as [uint8] columns *)
Definition session_u8 (s : SessionStatus) : N :=
  match s with SessionActive => 0 | SessionArchived => 1 | SessionStatusOther n => n end.
Definition session_of_u8 (n : N) : SessionStatus :=
  match n with 0%N => SessionActive | 1%N => SessionArchived | _ => SessionStatusOther n end.
Definition attachment_u8 (s : AttachmentState) : N :=
  match s with AttachmentConnected => 0 | AttachmentDisconnected => 1 | AttachmentRemoved => 2 | AttachmentStateOther n => n end.
Definition attachment_of_u8 (n : N) : AttachmentState :=
  match n with
  | 0%N => AttachmentConnected | 1%N => AttachmentDisconnected | 2%N => AttachmentRemoved | _ => AttachmentStateOther n
  end.
Definition turn_of_u8 (n : N) : TurnStatus :=
  match n with
  | 0%N => TurnQueued | 1%N => TurnRunning | 2%N => TurnWaitingApproval | 3%N => TurnCompleted
  | 4%N => TurnCancelled | 5%N => TurnFailed | _ => TurnStatusOther n
  end.
Definition kind_u8 (k : StepKind) : N :=
  match k with StepModel => 0 | StepTool => 1 | StepApproval => 2 | StepKindOther n => n end.
Definition kind_of_u8 (n : N) : StepKind :=
  match n with 0%N => StepModel | 1%N => StepTool | 2%N => StepApproval | _ => StepKindOther n end.
Definition step_of_u8 (n : N) : StepStatus :=
  match n with
  | 0%N => StepPending | 1%N => StepRunning | 2%N => StepWaitingApproval | 3%N => StepCompleted
  | 4%N => StepCancelled | 5%N => StepFailed | _ => StepStatusOther n
  end.

(** ** Values and rows *)
Section Rows.
Context {i_codec : ColumnCodec}.

Definition sessionModel (v : Session) : AgentSession :=
  mkRowSession (s_Kind v) (s_ID v) (s_CreatedAt v) (s_UpdatedAt v) (s_OrganizationID v) (s_CreatedBy v) (s_Title v)
    (session_u8 (s_Status v)) (s_ActiveTurnID v) (s_ActiveAttachmentID v) (s_Summary v) (s_Version v).
Definition sessionFromModel (r : AgentSession) : Session :=
  mkSession (rs_Kind r) (rs_ID r) (rs_OrganizationID r) (rs_CreatedBy r) (rs_Title r) (session_of_u8 (rs_Status r))
    (rs_ActiveTurnID r) (rs_ActiveAttachmentID r) (rs_Summary r) (rs_Version r) (rs_CreatedAt r) (rs_UpdatedAt r).

Definition attachmentModel (v : Attachment) : Result AgentAttachment :=
  match marshal_capabilities (a_Capabilities v) with
  | Err e => Err (EWrap "encode agent attachment capabilities: " e "")
  | Ok capabilities => Ok (mkRowAttachment (a_AccessHandleID v) (a_ID v) (a_CreatedAt v) (a_UpdatedAt v)
      (a_AgentSessionID v) (a_AccessID v) (a_ApplicationID v) (a_Protocol v) capabilities (a_Generation v)
      (attachment_u8 (a_State v)))
  end.
Definition attachmentFromModel (r : AgentAttachment) : Result Attachment :=
  match unmarshal_capabilities (ra_Capabilities r) with
  | Err e => Err (EWrap ("decode agent attachment " +:+ ra_ID r +:+ " capabilities: ") e "")
  | Ok capabilities =>
      let a := mkAttachment (ra_AccessHandleID r) (ra_ID r) (ra_AgentSessionID r) (ra_AccessID r) (ra_ApplicationID r)
        (ra_Protocol r) capabilities (ra_Generation r) (attachment_of_u8 (ra_State r)) (ra_CreatedAt r) (ra_UpdatedAt r) in
      match validateAttachment a with
      | Some e => Err (EWrap ("decode agent attachment " +:+ ra_ID r +:+ ": ") e "")
      | None => Ok a
      end
  end.

Definition turnModel (v : Turn) : AgentTurn :=
  mkRowTurn (t_ID v) (t_CreatedAt v) (t_UpdatedAt v) (t_AgentSessionID v) (turn_u8 (t_Status v)) (t_ActiveStepID v)
    (t_ErrorCode v) (t_ErrorMessage v) (t_Version v) (if IsZero (t_StartedAt v) then None else Some (t_StartedAt v))
    (t_CompletedAt v).
Definition turnFromModel (r : AgentTurn) : Turn :=
  mkTurn (rt_ID r) (rt_AgentSessionID r) (turn_of_u8 (rt_Status r)) (rt_ActiveStepID r) (rt_ErrorCode r)
    (rt_ErrorMessage r) (rt_Version r) (default 0%Z (rt_StartedAt r)) (rt_CompletedAt r) (rt_CreatedAt r) (rt_UpdatedAt r).

Definition stepModel (v : Step) : AgentStep :=
  mkRowStep (st_ID v) (st_CreatedAt v) (st_UpdatedAt v) (st_TurnID v) (st_Sequence v) (kind_u8 (st_Kind v))
    (step_u8 (st_Status v)) (match st_ToolID v with Some id => ToolID_String id | None => "" end) (st_ToolSnapshotID v)
    (st_Input v) (st_Output v) (st_ErrorCode v) (st_ErrorMessage v) (st_Version v) (st_StartedAt v) (st_CompletedAt v).
Definition stepFromModel (r : AgentStep) : Result Step :=
  let step toolID := mkStep (rp_ID r) (rp_TurnID r) (rp_Sequence r) (kind_of_u8 (rp_Kind r)) (step_of_u8 (rp_Status r))
    toolID (rp_ToolSnapshotID r) (rp_Input r) (rp_Output r) (rp_ErrorCode r) (rp_ErrorMessage r) (rp_Version r)
    (rp_StartedAt r) (rp_CompletedAt r) (rp_CreatedAt r) (rp_UpdatedAt r) in
  if bool_decide (rp_ToolID r = "") then Ok (step None) else
  match ParseToolID (rp_ToolID r) with
  | Err e => Err (EWrap "parse persisted tool ID: " e "")
  | Ok id => Ok (step (Some id))
  end.

Definition messageFromModel (r : AgentMessage) : Result Message :=
  match unmarshal_message (rg_Content r) with
  | Err e => Err (EWrap ("decode agent message " +:+ rg_ID r +:+ ": ") e "")
  | Ok value => Ok (mkMessage (rg_ID r) (rg_AgentSessionID r) (rg_TurnID r) (rg_Sequence r) value (rg_CreatedAt r))
  end.

Fixpoint decode_all {R V} (decode : R → Result V) (l : list R) : Result (list V) :=
  match l with
  | [] => Ok []
  | r :: rest =>
      match decode r with
      | Err e => Err e
      | Ok v => match decode_all decode rest with Ok vs => Ok (v :: vs) | Err e => Err e end
      end
  end.
End Rows.

Definition mapNotFound (sentinel : error) (id : string) (err : error) : error :=
  if Is err ErrRecordNotFound then wrapf sentinel id else err.

Module Durable.
Section Operations.
Context {DB : Type} {i_gorm : Gorm DB} {i_codec : ColumnCodec}.

Definition wrap (what : string) : error → error := λ e, EWrap (what +:+ ": ") e "".

(** ** Sessions and attachments *)
Definition CreateSession (c : ctx) (now : Time) (session : Session) : Op DB unit :=
  check (validateSession session) ;;
  let session := session<| s_Version := 1%N |><| s_CreatedAt := now |><| s_UpdatedAt := now |> in
  map_err (wrap "create agent session") (Dao.CreateAgentSession c (sessionModel session)).

Definition CreateSessionWithAttachment (c : ctx) (now : Time) (session : Session) (a : Attachment)
    : Op DB (Session * Attachment) :=
  throw_if bool_decide (s_Kind session = SessionManagement)
    with ENew "management sessions cannot have access attachments" ;;
  check (validateSession session) ;;
  throw_if bool_decide (a_AgentSessionID a ≠ s_ID session) with ENew "attachment session does not match session" ;;
  check (validateAttachment a) ;;
  let session := session<| s_Version := 1%N |><| s_CreatedAt := now |><| s_UpdatedAt := now |> in
  let a := a<| a_CreatedAt := now |><| a_UpdatedAt := now |> in
  let a := if bool_decide (a_Generation a = 0%N) then a<| a_Generation := 1%N |> else a in
  let session := session<| s_ActiveAttachmentID := a_ID a |> in
  Dao.WithTransactionContext c (
    map_err (wrap "create agent session") (Dao.CreateAgentSession c (sessionModel session)) ;;
    let! record := lift (attachmentModel a) in
    map_err (wrap "create agent attachment") (Dao.CreateAgentAttachment c record)) ;;
  ret (session, a).

Definition get_session (c : ctx) (id : string) : Op DB Session :=
  let! r := map_err (mapNotFound ErrSessionNotFound id) (Dao.GetAgentSession c id) in ret (sessionFromModel r).
Definition GetSession := get_session.

Definition ListSessions (c : ctx) (createdBy : N) : Op DB (list Session) :=
  let! l := map_err (wrap "list agent sessions") (Dao.ListAgentSessions c createdBy) in ret (map sessionFromModel l).

(** [UpdateAgentSessionCAS] and what is made of its answer. *)
Definition put_session (c : ctx) (what : string) (session : Session) (expected : N) : Op DB unit :=
  let! updated := map_err (wrap what) (Dao.UpdateAgentSessionCAS c (sessionModel session) expected) in
  throw_if negb updated with versionConflict "session" (s_ID session) ;; ret tt.

Definition ArchiveSession (c : ctx) (now : Time) (sessionID : string) (expected : N) : Op DB Session :=
  let! session := get_session c sessionID in
  throw_if bool_decide (s_Version session ≠ expected) with versionConflict "session" sessionID ;;
  throw_if bool_decide (s_ActiveTurnID session ≠ "")
    with EWrap "" ErrTurnAlreadyActive (": session " +:+ sessionID +:+ " has active turn " +:+ s_ActiveTurnID session) ;;
  let session := session<| s_Status := SessionArchived |><| s_Version := u64_add (s_Version session) 1 |>
    <| s_UpdatedAt := now |> in
  put_session c "archive agent session" session expected ;;
  ret session.

Definition CreateAttachment (c : ctx) (now : Time) (a : Attachment) : Op DB Attachment :=
  check (validateAttachment a) ;;
  Dao.WithTransactionContext c (
    let! r := map_err (mapNotFound ErrSessionNotFound (a_AgentSessionID a)) (Dao.GetAgentSession c (a_AgentSessionID a)) in
    throw_if bool_decide (rs_Kind r = SessionManagement)
      with ENew "management sessions cannot have access attachments" ;;
    throw_if bool_decide (session_of_u8 (rs_Status r) = SessionArchived)
      with wrapf ErrSessionArchived (a_AgentSessionID a) ;;
    let a := if bool_decide (a_Generation a = 0%N) then a<| a_Generation := 1%N |> else a in
    let a := a<| a_CreatedAt := now |><| a_UpdatedAt := now |> in
    let! record := lift (attachmentModel a) in
    map_err (wrap "create agent attachment") (Dao.CreateAgentAttachment c record) ;;
    ret a).

Definition GetAttachment (c : ctx) (id : string) : Op DB Attachment :=
  let! r := map_err (mapNotFound ErrAttachmentNotFound id) (Dao.GetAgentAttachment c id) in lift (attachmentFromModel r).

Definition ListAttachments (c : ctx) (sessionID : string) : Op DB (list Attachment) :=
  get_session c sessionID ;;
  let! l := map_err (wrap "list agent attachments") (Dao.ListAgentAttachments c sessionID) in
  lift (decode_all attachmentFromModel l).

Definition UpdateAttachment (c : ctx) (now : Time) (a : Attachment) (expected : N) : Op DB Attachment :=
  check (validateAttachment a) ;;
  let! current := GetAttachment c (a_ID a) in
  throw_if bool_decide (a_Generation current ≠ expected) with versionConflict "attachment" (a_ID a) ;;
  throw_if bool_decide (a_AgentSessionID current ≠ a_AgentSessionID a) || bool_decide (a_AccessID current ≠ a_AccessID a) ||
      bool_decide (a_ApplicationID current ≠ a_ApplicationID a) || bool_decide (a_Protocol current ≠ a_Protocol a)
    with ENew "attachment resource binding is immutable" ;;
  throw_if bool_decide (a_State current = AttachmentRemoved)
    with EWrap "" ErrInvalidTransition (": removed attachment " +:+ a_ID a) ;;
  let a := a<| a_Generation := u64_add expected 1 |><| a_CreatedAt := a_CreatedAt current |><| a_UpdatedAt := now |> in
  let! record := lift (attachmentModel a) in
  let! updated := map_err (wrap "update agent attachment") (Dao.UpdateAgentAttachmentCAS c record expected) in
  throw_if negb updated with versionConflict "attachment" (a_ID a) ;;
  ret a.

Definition SetActiveAttachment (c : ctx) (now : Time) (sessionID attachmentID : string) (expected : N) : Op DB Session :=
  Dao.WithTransactionContext c (
    let! session := get_session c sessionID in
    throw_if bool_decide (s_Version session ≠ expected) with versionConflict "session" sessionID ;;
    throw_if bool_decide (s_Kind session = SessionManagement) && bool_decide (attachmentID ≠ "")
      with ENew "management sessions cannot activate access attachments" ;;
    throw_if bool_decide (s_Status session = SessionArchived) with wrapf ErrSessionArchived sessionID ;;
    (if bool_decide (attachmentID ≠ "") then
       let! r := map_err (mapNotFound ErrAttachmentNotFound attachmentID) (Dao.GetAgentAttachment c attachmentID) in
       throw_if bool_decide (ra_AgentSessionID r ≠ sessionID) ||
           bool_decide (attachment_of_u8 (ra_State r) = AttachmentRemoved)
         with wrapf ErrAttachmentNotFound attachmentID ;; ret tt
     else ret tt) ;;
    let session := session<| s_ActiveAttachmentID := attachmentID |><| s_Version := u64_add (s_Version session) 1 |>
      <| s_UpdatedAt := now |> in
    put_session c "set active agent attachment" session expected ;;
    ret session).

(** ** Turns *)
Definition get_turn (c : ctx) (id : string) : Op DB Turn :=
  let! r := map_err (mapNotFound ErrTurnNotFound id) (Dao.GetAgentTurn c id) in ret (turnFromModel r).
Definition GetTurn := get_turn.

Definition put_turn (c : ctx) (what : string) (turn : Turn) (expected : N) (turnID : string) : Op DB unit :=
  let! updated := map_err (wrap what) (Dao.UpdateAgentTurnCAS c (turnModel turn) expected) in
  throw_if negb updated with versionConflict "turn" turnID ;; ret tt.

Definition StartTurn (c : ctx) (now : Time) (sessionID : string) (turn : Turn) : Op DB (Session * Turn) :=
  throw_if bool_decide (t_ID turn = "") with ENew "turn ID is required" ;;
  Dao.WithTransactionContext c (
    let! session := get_session c sessionID in
    throw_if bool_decide (s_Status session = SessionArchived) with wrapf ErrSessionArchived sessionID ;;
    throw_if bool_decide (s_ActiveTurnID session ≠ "") with wrapf ErrTurnAlreadyActive (s_ActiveTurnID session) ;;
    let turn := turn<| t_AgentSessionID := sessionID |><| t_Status := TurnQueued |><| t_Version := 1%N |>
      <| t_CreatedAt := now |><| t_UpdatedAt := now |> in
    map_err (wrap "create agent turn") (Dao.CreateAgentTurn c (turnModel turn)) ;;
    let expected := s_Version session in
    let session := session<| s_ActiveTurnID := t_ID turn |><| s_Version := u64_add (s_Version session) 1 |>
      <| s_UpdatedAt := now |> in
    put_session c "activate agent turn" session expected ;;
    ret (session, turn)).

Definition ListTurns (c : ctx) (sessionID : string) : Op DB (list Turn) :=
  get_session c sessionID ;;
  let! l := map_err (wrap "list agent turns") (Dao.ListAgentTurns c sessionID) in ret (map turnFromModel l).

(** The turn a valid transition leaves. *)
Definition transitioned (turn : Turn) (now : Time) (to : TurnStatus) (code message : string) : Turn :=
  let turn := turn<| t_Status := to |><| t_ErrorCode := code |><| t_ErrorMessage := message |>
    <| t_Version := u64_add (t_Version turn) 1 |><| t_UpdatedAt := now |> in
  let turn := if bool_decide (to = TurnRunning) && IsZero (t_StartedAt turn) then turn<| t_StartedAt := now |> else turn in
  if Terminal to then turn<| t_CompletedAt := Some now |> else turn.

(** A finished turn gives its session's slot back. *)
Definition release_session (c : ctx) (now : Time) (turn : Turn) : Op DB unit :=
  let! session := get_session c (t_AgentSessionID turn) in
  if bool_decide (s_ActiveTurnID session = t_ID turn) then
    let expected := s_Version session in
    let session := session<| s_ActiveTurnID := "" |><| s_Version := u64_add (s_Version session) 1 |>
      <| s_UpdatedAt := now |> in
    put_session c "release agent session turn" session expected
  else ret tt.

Definition TransitionTurn (c : ctx) (now : Time) (turnID : string) (expected : N) (to : TurnStatus)
    (code message : string) : Op DB Turn :=
  Dao.WithTransactionContext c (
    let! turn := get_turn c turnID in
    throw_if bool_decide (t_Version turn ≠ expected) with versionConflict "turn" turnID ;;
    throw_if negb (validTurnTransition (t_Status turn) to)
      with EWrap "" ErrInvalidTransition (": turn " +:+ turnID +:+ " from " +:+ pretty (turn_u8 (t_Status turn))
        +:+ " to " +:+ pretty (turn_u8 to)) ;;
    let turn := transitioned turn now to code message in
    put_turn c "transition agent turn" turn expected turnID ;;
    (if Terminal to then release_session c now turn else ret tt) ;;
    ret turn).

(** ** Steps *)
Definition AppendStep (c : ctx) (now : Time) (turnID : string) (expected : N) (step : Step) : Op DB (Turn * Step) :=
  throw_if bool_decide (st_ID step = "") with ENew "step ID is required" ;;
  Dao.WithTransactionContext c (
    let! turn := get_turn c turnID in
    throw_if bool_decide (t_Version turn ≠ expected) with versionConflict "turn" turnID ;;
    throw_if Terminal (t_Status turn)
      with EWrap "" ErrInvalidTransition (": cannot append to terminal turn " +:+ turnID) ;;
    let! sequence := map_err (wrap "allocate agent step sequence") (Dao.NextAgentStepSequence c turnID) in
    let step := step<| st_TurnID := turnID |><| st_Sequence := sequence |><| st_Version := 1%N |>
      <| st_CreatedAt := now |><| st_UpdatedAt := now |> in
    let step := if bool_decide (st_Status step = StepRunning) then step<| st_StartedAt := Some now |> else step in
    let version := t_Version turn in
    let turn := turn<| t_ActiveStepID := st_ID step |><| t_Version := u64_add (t_Version turn) 1 |><| t_UpdatedAt := now |> in
    put_turn c "activate agent step" turn version turnID ;;
    map_err (wrap "create agent step") (Dao.CreateAgentStep c (stepModel step)) ;;
    ret (turn, step)).

Definition GetStep (c : ctx) (stepID : string) : Op DB Step :=
  let! r := map_err (mapNotFound ErrStepNotFound stepID) (Dao.GetAgentStep c stepID) in lift (stepFromModel r).

Definition ListSessionSteps (c : ctx) (sessionID : string) : Op DB (list Step) :=
  get_session c sessionID ;;
  let! l := map_err (wrap "list agent session steps") (Dao.ListAgentSessionSteps c sessionID) in
  lift (decode_all stepFromModel l).

Definition transitionStep (c : ctx) (now : Time) (stepID : string) (to : StepStatus) (output code message : string)
    : Op DB Step :=
  let! step := GetStep c stepID in
  throw_if negb (validStepTransition (st_Status step) to)
    with EWrap "" ErrInvalidTransition (": step " +:+ stepID +:+ " from " +:+ pretty (step_u8 (st_Status step))
      +:+ " to " +:+ pretty (step_u8 to)) ;;
  let expected := st_Version step in
  let step := step<| st_Status := to |><| st_Version := u64_add (st_Version step) 1 |><| st_UpdatedAt := now |>
    <| st_ErrorCode := code |><| st_ErrorMessage := message |> in
  let step := if bool_decide (output ≠ "") then step<| st_Output := output |> else step in
  let step := if step_finished to then step<| st_CompletedAt := Some now |> else step in
  let! updated := map_err (wrap "transition agent step") (Dao.UpdateAgentStepCAS c (stepModel step) expected) in
  throw_if negb updated with versionConflict "step" stepID ;;
  ret step.

Definition CompleteStep (c : ctx) (now : Time) (stepID output : string) : Op DB Step :=
  transitionStep c now stepID StepCompleted output "" "".
Definition WaitStepApproval (c : ctx) (now : Time) (stepID : string) : Op DB Step :=
  transitionStep c now stepID StepWaitingApproval "" "" "".
Definition ResumeStep (c : ctx) (now : Time) (stepID : string) : Op DB Step :=
  transitionStep c now stepID StepRunning "" "" "".
Definition CancelStep (c : ctx) (now : Time) (stepID code message : string) : Op DB Step :=
  transitionStep c now stepID StepCancelled "" code message.
Definition FailStep (c : ctx) (now : Time) (stepID code message : string) : Op DB Step :=
  transitionStep c now stepID StepFailed "" code message.

(** ** Messages and snapshots *)
Definition AppendMessage (c : ctx) (now : Time) (message : Message) : Op DB Message :=
  throw_if bool_decide (m_ID message = "") || bool_decide (m_AgentSessionID message = "") ||
      bool_decide (m_TurnID message = "")
    with ENew "message ID, session and turn are required" ;;
  Dao.WithTransactionContext c (
    let! sequence := map_err (wrap "allocate agent message sequence") (Dao.NextAgentMessageSequence c (m_TurnID message)) in
    let! encoded := map_err (wrap "encode agent message") (lift (marshal_message (m_Value message))) in
    let message := message<| m_Sequence := sequence |><| m_CreatedAt := now |> in
    map_err (wrap "create agent message") (Dao.CreateAgentMessage c (mkRowMessage (m_ID message) now now
      (m_AgentSessionID message) (m_TurnID message) sequence (mm_Role (m_Value message)) encoded)) ;;
    ret message).

Definition ListMessages (c : ctx) (turnID : string) : Op DB (list Message) :=
  let! l := map_err (wrap "list agent messages") (Dao.ListAgentMessages c turnID) in lift (decode_all messageFromModel l).
Definition ListSessionMessages (c : ctx) (sessionID : string) : Op DB (list Message) :=
  get_session c sessionID ;;
  let! l := map_err (wrap "list agent session messages") (Dao.ListAgentSessionMessages c sessionID) in
  lift (decode_all messageFromModel l).

Definition SaveToolSnapshot (c : ctx) (now : Time) (turnID modelStepID : string) (snapshot : ToolSetSnapshot) : Op DB unit :=
  throw_if bool_decide (turnID = "") || bool_decide (modelStepID = "") || bool_decide (ss_ID snapshot = "")
    with ENew "turn, model step and snapshot IDs are required" ;;
  let! attachments := map_err (wrap "encode tool snapshot attachments")
    (lift (marshal_generations (ss_AttachmentGeneration snapshot))) in
  let! tools := map_err (wrap "encode tool snapshot tools") (lift (marshal_tools (ss_Tools snapshot))) in
  let createdAt := if IsZero (ss_CreatedAt snapshot) then now else ss_CreatedAt snapshot in
  map_err (wrap "create agent tool snapshot") (Dao.CreateAgentToolsetSnapshot c (mkRowSnapshot (ss_ID snapshot) createdAt
    createdAt turnID modelStepID (ss_CatalogGeneration snapshot) (ss_PolicyRevision snapshot) attachments tools)).

Definition GetToolSnapshot (c : ctx) (id : string) : Op DB ToolSetSnapshot :=
  let! r := map_err (wrap "get agent tool snapshot") (Dao.GetAgentToolsetSnapshot c id) in
  let! attachments := map_err (wrap "decode tool snapshot attachments") (lift (unmarshal_generations (rn_Attachments r))) in
  let! tools := map_err (wrap "decode tool snapshot tools") (lift (unmarshal_tools (rn_Tools r))) in
  ret (mkSnapshot (rn_ID r) (rn_CatalogGeneration r) (rn_PolicyRevision r) attachments tools (rn_CreatedAt r)).
End Operations.
End Durable.

Definition durable_store {DB} `{!Gorm DB, !ColumnCodec} : Store DB := {|
  CreateSession := Durable.CreateSession;
  CreateSessionWithAttachment := Durable.CreateSessionWithAttachment;
  GetSession := Durable.GetSession;
  ListSessions := Durable.ListSessions;
  ArchiveSession := Durable.ArchiveSession;
  CreateAttachment := Durable.CreateAttachment;
  GetAttachment := Durable.GetAttachment;
  ListAttachments := Durable.ListAttachments;
  UpdateAttachment := Durable.UpdateAttachment;
  SetActiveAttachment := Durable.SetActiveAttachment;
  StartTurn := Durable.StartTurn;
  GetTurn := Durable.GetTurn;
  ListTurns := Durable.ListTurns;
  TransitionTurn := Durable.TransitionTurn;
  AppendStep := Durable.AppendStep;
  GetStep := Durable.GetStep;
  ListSessionSteps := Durable.ListSessionSteps;
  CompleteStep := Durable.CompleteStep;
  WaitStepApproval := Durable.WaitStepApproval;
  ResumeStep := Durable.ResumeStep;
  CancelStep := Durable.CancelStep;
  FailStep := Durable.FailStep;
  AppendMessage := Durable.AppendMessage;
  ListMessages := Durable.ListMessages;
  ListSessionMessages := Durable.ListSessionMessages;
  SaveToolSnapshot := Durable.SaveToolSnapshot;
  GetToolSnapshot := Durable.GetToolSnapshot
|}.
