(* ===== verification/DurableLaws.v ===== *)
(** * The durable store: reasoning about its calls

    A small logic for computations on a database ([GormLaws]): [does] says
    what a call that succeeds has done to the rows, [atomic] that a call that
    fails has done nothing, [answers] that a call succeeds.  Then the effect of
    each query and of each operation of [DurableStore] on the rows. *)

From S2P Require Import Prelude ToolTypes AgentTypes AgentDao DurableStore.

Create HintDb durable.

Section Logic.
Context {DB : Type} {i_gorm : Gorm DB} {i_laws : GormLaws DB}.

(** No transaction is left open or closed; if the call succeeds, [Q] holds of
    its result and of the rows it leaves. *)
Definition does {A} (m : Op DB A) (t : Tables) (Q : A → Tables → Prop) : Prop :=
  ∀ s x s', tables s = t → m s = (x, s') → saved s' = saved s ∧ ∀ a, x = Ok a → Q a (tables s').
(** A failed call has changed no row. *)
Definition atomic {A} (m : Op DB A) : Prop :=
  ∀ s e s', m s = (Err e, s') → saved s' = saved s ∧ tables s' = tables s.
(** Transactions are opened and closed in pairs. *)
Definition balanced {A} (m : Op DB A) : Prop := ∀ s x s', m s = (x, s') → saved s' = saved s.
Definition answers {A} (m : Op DB A) (t : Tables) : Prop := ∀ s, tables s = t → is_ok (fst (m s)) = true.
Definition same_rows {A} (t : Tables) (_ : A) (t' : Tables) : Prop := t' = t.

Lemma does_mono {A} (m : Op DB A) t (Q Q' : A → Tables → Prop) :
  does m t Q → (∀ a t', Q a t' → Q' a t') → does m t Q'.
Proof. intros H HQ s x s' Hs Hm. destruct (H s x s' Hs Hm) as [? ?]. eauto. Qed.

Lemma does_bind {A B} (m : Op DB A) (k : A → Op DB B) t Q :
  does m t (λ a t', does (k a) t' Q) → does (bind m k) t Q.
Proof.
  intros H s x s' Hs. unfold bind. destruct (m s) as [[a|e] s1] eqn:Hm; intros Hk.
  - destruct (H _ _ _ Hs Hm) as [Hv Ha]. destruct (Ha a eq_refl _ _ _ eq_refl Hk) as [Hv' HQ].
    split; [congruence|done].
  - simplify_eq. destruct (H _ _ _ eq_refl Hm) as [Hv _]. by split.
Qed.
Lemma does_ret {A} (a : A) t (Q : A → Tables → Prop) : Q a t → does (ret a) t Q.
Proof. intros HQ s x s' Hs [= <- <-]. subst t. split; [done|]. by intros ? [= <-]. Qed.
Lemma does_throw {A} e t (Q : A → Tables → Prop) : does (throw e) t Q.
Proof. intros s x s' Hs [= <- <-]. by split. Qed.
Lemma does_lift {A} (r : Result A) t (Q : A → Tables → Prop) : (∀ a, r = Ok a → Q a t) → does (lift r) t Q.
Proof. intros HQ s x s' Hs [= <- <-]. subst t. split; [done|]. intros a ->. by apply HQ. Qed.
Lemma does_check o t (Q : unit → Tables → Prop) : (o = None → Q tt t) → does (check o) t Q.
Proof. intros HQ s x s' Hs [= <- <-]. subst t. split; [done|]. intros [] H. destruct o; [done|]. by apply HQ. Qed.
Lemma does_map_err {A} f (m : Op DB A) t Q : does m t Q → does (map_err f m) t Q.
Proof.
  intros H s x s' Hs. unfold map_err. destruct (m s) as [[a|e] s1] eqn:Hm; intros [= <- <-];
    by destruct (H _ _ _ Hs Hm).
Qed.
(** [throw_if b with e ;; k] goes on only when [b] is false. *)
Lemma does_unless {A} (b : bool) e (k : Op DB A) t Q : (b = false → does k t Q) → does (if b then throw e else k) t Q.
Proof. intros H. destruct b; [apply does_throw|by apply H]. Qed.

Lemma atomic_bind {A B} (m : Op DB A) (k : A → Op DB B) :
  (∀ t, does m t (same_rows t)) → atomic m → (∀ a, atomic (k a)) → atomic (bind m k).
Proof.
  intros Hd Hm Hk s e s'. unfold bind. destruct (m s) as [[a|e1] s1] eqn:H1; intros H.
  - destruct (Hd _ _ _ _ eq_refl H1) as [Hv Hr]. specialize (Hr a eq_refl). apply Hk in H as [? ?].
    unfold same_rows in Hr. split; congruence.
  - simplify_eq. by eapply Hm.
Qed.
(** What follows a write must not fail. *)
Lemma atomic_bind_ret {A B} (m : Op DB A) (f : A → B) : atomic m → atomic (bind m (λ a, ret (f a))).
Proof.
  intros Hm s e s'. unfold bind, ret. destruct (m s) as [[a|e1] s1] eqn:H1; intros [= <- <-]. by eapply Hm.
Qed.
Lemma atomic_ret {A} (a : A) : atomic (ret a).
Proof. intros s e s' [=]. Qed.
Lemma atomic_throw {A} e : atomic (throw (A := A) e).
Proof. by intros s e' s' [= _ <-]. Qed.
Lemma atomic_lift {A} (r : Result A) : atomic (lift r).
Proof. by intros s e' s' [= _ <-]. Qed.
Lemma atomic_check o : atomic (check o).
Proof. by intros s e' s' [= _ <-]. Qed.
Lemma atomic_map_err {A} f (m : Op DB A) : atomic m → atomic (map_err f m).
Proof.
  intros H s e s'. unfold map_err. destruct (m s) as [[a|e1] s1] eqn:Hm; intros [= <- <-]. by eapply H.
Qed.
Lemma atomic_if {A} (b : bool) (m m' : Op DB A) : atomic m → atomic m' → atomic (if b then m else m').
Proof. by destruct b. Qed.

Lemma does_balanced {A} (m : Op DB A) (Q : Tables → A → Tables → Prop) : (∀ t, does m t (Q t)) → balanced m.
Proof. intros H s x s' Hm. by destruct (H _ _ _ _ eq_refl Hm). Qed.
Lemma balanced_does {A} (m : Op DB A) t : balanced m → does m t (λ _ _, True).
Proof. intros H s x s' _ Hm. split; [by eapply H|done]. Qed.
Lemma balanced_bind {A B} (m : Op DB A) (k : A → Op DB B) : balanced m → (∀ a, balanced (k a)) → balanced (bind m k).
Proof.
  intros Hm Hk s x s'. unfold bind. destruct (m s) as [[a|e] s1] eqn:H1; intros H.
  - rewrite (Hk a _ _ _ H). by eapply Hm.
  - simplify_eq. by eapply Hm.
Qed.
Lemma balanced_map_err {A} f (m : Op DB A) : balanced m → balanced (map_err f m).
Proof. intros Hm s x s'. unfold map_err. destruct (m s) as [[a|e] s1] eqn:H1; intros [= _ <-]; by eapply Hm. Qed.
Lemma balanced_if {A} (b : bool) (m m' : Op DB A) : balanced m → balanced m' → balanced (if b then m else m').
Proof. by destruct b. Qed.
Lemma balanced_ret {A} (a : A) : balanced (ret a).
Proof. by intros s x s' [= _ <-]. Qed.
Lemma balanced_throw {A} e : balanced (throw (A := A) e).
Proof. by intros s x s' [= _ <-]. Qed.
Lemma balanced_lift {A} (r : Result A) : balanced (lift r).
Proof. by intros s x s' [= _ <-]. Qed.

Lemma answers_bind {A B} (m : Op DB A) (k : A → Op DB B) t (Q : A → Tables → Prop) :
  answers m t → does m t Q → (∀ a t', Q a t' → answers (k a) t') → answers (bind m k) t.
Proof.
  intros Hm Hd Hk s Hs. unfold bind. specialize (Hm s Hs). destruct (m s) as [[a|e] s1] eqn:H1; [|done].
  destruct (Hd _ _ _ Hs H1) as [_ HQ]. by eapply Hk; [apply HQ|].
Qed.
Lemma answers_map_err {A} f (m : Op DB A) t : answers m t → answers (map_err f m) t.
Proof. intros H s Hs. specialize (H s Hs). unfold map_err. by destruct (m s) as [[a|e] s1]. Qed.
Lemma answers_ret {A} (a : A) t : answers (ret a) t.
Proof. by intros s Hs. Qed.

(** ** Transactions *)
Lemma does_txn {A} c (fn : Op DB A) t Q : does fn t Q → does (Dao.WithTransactionContext c fn) t Q.
Proof.
  intros H s x s' Hs. unfold Dao.WithTransactionContext. destruct (Begin_law s) as [Hb1 Hb2].
  destruct (ctx_err c); [intros [= <- <-]; by split|].
  destruct (fn (Begin s)) as [[a|e] s1] eqn:Hf; destruct (H _ _ _ (eq_trans Hb1 Hs) Hf) as [Hv HQ];
    rewrite Hb2 in Hv; pose proof (Rollback_law _ _ _ Hv) as [_ Hr].
  - destruct (ctx_late c); [intros [= <- <-]; by split|].
    destruct (Commit s1) as [[[]|e] s2] eqn:Hc; intros [= <- <-]; destruct (Commit_law _ _ _ _ _ Hv Hc) as [Hv2 Ht2];
      (split; [done|]); [|done]. intros a' [= <-]. rewrite Ht2. by apply HQ.
  - intros [= <- <-]. by split.
Qed.

(** Whatever the transaction's function wrote, an error undoes it. *)
Lemma atomic_txn {A} c (fn : Op DB A) : balanced fn → atomic (Dao.WithTransactionContext c fn).
Proof.
  intros Hf s e s'. pose proof (λ t, balanced_does fn t Hf) as H. clear Hf. unfold Dao.WithTransactionContext. destruct (Begin_law s) as [Hb1 Hb2].
  destruct (ctx_err c); [by intros [= _ <-]|].
  destruct (fn (Begin s)) as [[a|e1] s1] eqn:Hf; destruct (H _ _ _ _ Hb1 Hf) as [Hv _];
    rewrite Hb2 in Hv; pose proof (Rollback_law _ _ _ Hv) as [Hr1 Hr2].
  - destruct (ctx_late c); [by intros [= _ <-]|].
    destruct (Commit s1) as [[[]|e1] s2] eqn:Hc; intros [= <- <-]. by destruct (Commit_law _ _ _ _ _ Hv Hc).
  - by intros [= _ <-].
Qed.

Lemma answers_txn {A} {i_reliable : GormReliable DB} c (fn : Op DB A) t :
  live c → answers fn t → balanced fn → answers (Dao.WithTransactionContext c fn) t.
Proof.
  intros [Hc1 Hc2] Hf Hd%(balanced_does _ t) s Hs. unfold Dao.WithTransactionContext. rewrite Hc1, Hc2.
  destruct (Begin_law s) as [Hb1 Hb2]. specialize (Hf (Begin s) (eq_trans Hb1 Hs)).
  destruct (fn (Begin s)) as [[a|e] s1] eqn:H1; [|done].
  destruct (Hd _ _ _ (eq_trans Hb1 Hs) H1) as [Hv _]. rewrite Hb2 in Hv.
  pose proof (Commit_total _ _ _ Hv) as Ht. by destruct (Commit s1) as [[[]|e] s2].
Qed.
End Logic.

#[export] Hint Resolve atomic_ret atomic_throw atomic_lift atomic_check atomic_map_err atomic_if atomic_bind_ret
  atomic_txn balanced_bind balanced_map_err balanced_if balanced_ret balanced_throw balanced_lift : durable.

(** ** Queries *)
Section Queries.
Context {DB : Type} {i_gorm : Gorm DB} {i_laws : GormLaws DB}.

Lemma does_First {Row} `{!Table Row} c id t :
  does (First (DB := DB) (Row := Row) c id) t (λ r t', t' = t ∧ get_rows t !! id = Some r).
Proof.
  intros s x s' <- H. apply First_law in H as (Hv & Ht & Hx). split; [done|]. intros r ->. by rewrite Ht.
Qed.
Lemma atomic_First {Row} `{!Table Row} c id : atomic (First (DB := DB) (Row := Row) c id).
Proof. intros s e s' H. by apply First_law in H as (? & ? & _). Qed.

Lemma does_Find {Row} `{!Table Row} c p less t :
  does (Find (DB := DB) (Row := Row) c p less) t (λ l t', t' = t ∧
    l ≡ₚ List.filter (p t) (map_to_list (get_rows t)).*2 ∧ StronglySorted (λ a b, less b a = false) l).
Proof.
  intros s x s' <- H. apply Find_law in H as (Hv & Ht & Hx). split; [done|]. intros r ->. by rewrite Ht.
Qed.
Lemma atomic_Find {Row} `{!Table Row} c p less : atomic (Find (DB := DB) (Row := Row) c p less).
Proof. intros s e s' H. by apply Find_law in H as (? & ? & _). Qed.

Lemma does_Max {Row} `{!Table Row} c p (column : Row → N) t :
  does (Max (DB := DB) c p column) t (λ n t', t' = t ∧
    n = foldr N.max 0%N (column <$> List.filter p (map_to_list (get_rows (Row := Row) t)).*2)).
Proof.
  intros s x s' <- H. apply Max_law in H as (Hv & Ht & Hx). split; [done|]. intros r ->. by rewrite Ht.
Qed.
Lemma atomic_Max {Row} `{!Table Row} c p (column : Row → N) : atomic (Max (DB := DB) c p column).
Proof. intros s e s' H. by apply Max_law in H as (? & ? & _). Qed.

Definition created {Row} `{!Table Row} (r : Row) (t t' : Tables) : Prop :=
  get_rows t !! key r = None ∧ (∀ k r', get_rows t !! k = Some r' → clash r r' = false) ∧
  ∃ now, t' = set_rows (<[key r := defaults now r]> (get_rows t)) t.

Lemma does_Create {Row} `{!Table Row} c (r : Row) t : does (Create (DB := DB) c r) t (λ _ t', created r t t').
Proof. intros s x s' <- H. apply Create_law in H as (Hv & Hx). split; [done|]. by intros [] ->. Qed.
Lemma atomic_Create {Row} `{!Table Row} c (r : Row) : atomic (Create (DB := DB) c r).
Proof. intros s e s' H. by apply Create_law in H. Qed.

(** *** Compare and swap

    An update conditioned on the primary key and a test of the row changes
    that row or none. *)
Lemma filter_key {Row} `{!Table Row} (m : gmap string Row) k (q : Row → bool) :
  keyed_by key m →
  List.filter (λ r, bool_decide (key r = k) && q r) (map_to_list m).*2 =
  match m !! k with Some r => if q r then [r] else [] | None => [] end.
Proof.
  intros Hm. assert (∀ m' : gmap string Row, m' ⊆ m → m' !! k = None →
    List.filter (λ r, bool_decide (key r = k) && q r) (map_to_list m').*2 = []) as Hnone.
  { intros m' Hsub Hk. assert (∀ r, r ∈ (map_to_list m').*2 → key r ≠ k) as Hne.
    { intros r ([k' r'] & -> & Hin)%list_elem_of_fmap Hr. apply elem_of_map_to_list in Hin.
      simpl in Hr. rewrite (Hm k' r') in Hr by (by eapply lookup_weaken). congruence. }
    induction (map_to_list m').*2 as [|r l IH]; [done|]. simpl. rewrite bool_decide_eq_false_2 by (apply Hne; left).
    apply IH. intros r' Hr'. apply Hne. by right. }
  destruct (m !! k) as [r|] eqn:Hr; [|by apply Hnone].
  pose proof (map_to_list_delete m k r Hr) as Hp.
  assert ((map_to_list m).*2 ≡ₚ r :: (map_to_list (delete k m)).*2) as Hp2 by by rewrite <- Hp.
  assert (Proper ((≡ₚ) ==> (≡ₚ)) (List.filter (λ r, bool_decide (key r = k) && q r))) as Hproper.
  { intros l l' Hl. induction Hl; simpl; repeat case_match; try done; try by constructor. by etrans. }
  specialize (Hproper _ _ Hp2). simpl in Hproper. rewrite (Hm k r Hr), bool_decide_eq_true_2 in Hproper by done.
  rewrite (Hnone (delete k m)) in Hproper by (apply delete_subseteq || apply lookup_delete_eq).
  simpl in Hproper. destruct (q r); [by apply Permutation_singleton_r in Hproper|by apply Permutation_nil_r in Hproper].
Qed.

Definition swapped {Row} `{!Table Row} (k : string) (q : Row → bool) (assign : Row → Row) (t t' : Tables) : Prop :=
  ∃ r now, get_rows t !! k = Some r ∧ q r = true ∧ t' = set_rows (<[k := stamp now (assign r)]> (get_rows t)) t.

Lemma Updates_key {Row} `{!Table Row} c k (q : Row → bool) (assign : Row → Row) s n s' :
  (∀ r, key (assign r) = key r) →
  Updates (DB := DB) c (λ r, bool_decide (key r = k) && q r) assign s = (Ok n, s') →
  n = 1%N ∧ swapped k q assign (tables s) (tables s') ∨
  n = 0%N ∧ tables s' = tables s ∧ ∀ r, get_rows (tables s) !! k = Some r → q r = false.
Proof.
  intros Ha H. pose proof (get_keyed (Row := Row) _ (tables_keyed s)) as Hk.
  apply Updates_law in H as (_ & Hn & now & Ht); [|done]. rewrite filter_key in Hn by done.
  destruct (get_rows (tables s) !! k) as [r|] eqn:Hr.
  - destruct (q r) eqn:Hq.
    + left. split; [done|]. exists r, now. split_and!; [done|done|]. rewrite Ht. f_equal. apply map_eq. intros i.
      rewrite lookup_fmap. destruct (decide (k = i)) as [<-|Hne].
      * rewrite lookup_insert_eq, Hr. simpl. rewrite (Hk k r Hr), bool_decide_eq_true_2 by done. by rewrite Hq.
      * rewrite lookup_insert_ne by done. destruct (get_rows (tables s) !! i) as [r'|] eqn:Hi; [|done]. simpl.
        rewrite (Hk i r' Hi). by rewrite bool_decide_eq_false_2 by done.
    + right. split_and!; [done| |by intros ? [= <-]]. rewrite Ht. etrans; [|apply set_get]. f_equal. apply map_eq. intros i.
      rewrite lookup_fmap. destruct (get_rows (tables s) !! i) as [r'|] eqn:Hi; [|done]. simpl.
      rewrite (Hk i r' Hi). case_bool_decide; [|done]. simplify_eq. simpl. by rewrite Hq.
  - right. split_and!; [done| |done]. rewrite Ht. etrans; [|apply set_get]. f_equal. apply map_eq. intros i.
    rewrite lookup_fmap. destruct (get_rows (tables s) !! i) as [r'|] eqn:Hi; [|done]. simpl.
    rewrite (Hk i r' Hi). case_bool_decide; [|done]. congruence.
Qed.

Definition cas {Row} `{!Table Row} (c : ctx) (k : string) (q : Row → bool) (assign : Row → Row) : Op DB bool :=
  let! n := Updates c (λ r, bool_decide (key r = k) && q r) assign in ret (N.eqb n 1).

Lemma does_cas {Row} `{!Table Row} c k (q : Row → bool) assign t :
  (∀ r, key (assign r) = key r) →
  does (cas c k q assign) t (λ b t', if (b : bool) then swapped k q assign t t' else t' = t).
Proof.
  intros Ha s x s' <-. unfold cas, bind, ret.
  destruct (Updates c _ assign s) as [[n|e] s1] eqn:HU; intros [= <- <-].
  - split; [by apply Updates_law in HU as [? _]|]. intros b [= <-].
    by destruct (Updates_key _ _ _ _ _ _ _ Ha HU) as [[-> ?]|(-> & ? & _)].
  - split; [by apply Updates_law in HU as [? _]|done].
Qed.
(** The write of a row and the check that it took place, as one call. *)
Lemma does_put {Row} `{!Table Row} c k (q : Row → bool) assign f e t :
  (∀ r, key (assign r) = key r) →
  does (let! updated := map_err f (cas c k q assign) in throw_if negb updated with e ;; ret tt) t
    (λ _ t', swapped k q assign t t').
Proof.
  intros Ha. apply does_bind, does_map_err. eapply does_mono; [by apply does_cas|].
  intros [] t' H; simpl; [by apply does_ret|apply does_throw].
Qed.
Lemma atomic_put {Row A} `{!Table Row} c k (q : Row → bool) assign f e (a : A) :
  (∀ r, key (assign r) = key r) →
  atomic (let! updated := map_err f (cas c k q assign) in throw_if negb updated with e ;; ret a).
Proof.
  intros Ha s e' s'. unfold bind at 1, map_err. destruct (cas c k q assign s) as [[b|e1] s1] eqn:H1.
  - destruct (does_cas c k q assign (tables s) Ha _ _ _ eq_refl H1) as [Hv Hb]. specialize (Hb b eq_refl).
    destruct b; simpl; intros [= _ <-]. done.
  - intros [= _ <-]. unfold cas, bind, ret in H1. destruct (Updates c _ assign s) as [[n|e2] s2] eqn:HU; [done|].
    simplify_eq. by apply Updates_law in HU.
Qed.
Lemma answers_put {Row} {i_reliable : GormReliable DB} `{!Table Row} c k (q : Row → bool) assign f e t r :
  (∀ r, key (assign r) = key r) → live c → get_rows t !! k = Some r → q r = true →
  answers (let! updated := map_err f (cas c k q assign) in throw_if negb updated with e ;; ret tt) t.
Proof.
  intros Ha Hc Hr Hq s <-. unfold bind at 1, map_err, cas, bind.
  pose proof (Updates_total c (λ r, bool_decide (key r = k) && q r) assign s Hc) as Hu.
  destruct (Updates c _ assign s) as [[n|e1] s1] eqn:HU; [|done].
  destruct (Updates_key _ _ _ _ _ _ _ Ha HU) as [[-> _]|(_ & _ & Hno)]; [done|]. by rewrite (Hno r Hr) in Hq.
Qed.
End Queries.


Lemma balanced_First {DB Row} `{!Gorm DB, !GormLaws DB, !Table Row} c id : balanced (First (DB := DB) (Row := Row) c id).
Proof. intros s x s' H. by apply First_law in H as [? _]. Qed.
Lemma balanced_Max {DB Row} `{!Gorm DB, !GormLaws DB, !Table Row} c p (f : Row → N) : balanced (Max (DB := DB) c p f).
Proof. intros s x s' H. by apply Max_law in H as [? _]. Qed.
Lemma balanced_Create {DB Row} `{!Gorm DB, !GormLaws DB, !Table Row} c (r : Row) : balanced (Create (DB := DB) c r).
Proof. intros s x s' H. by apply Create_law in H as [? _]. Qed.
#[export] Hint Resolve atomic_First atomic_Find atomic_Max atomic_Create balanced_First balanced_Max balanced_Create : durable.

(** ** Operations *)
Section Operations.
Context {DB : Type} {i_gorm : Gorm DB} {i_laws : GormLaws DB} {i_codec : ColumnCodec}.

Lemma does_keyed {A} (m : Op DB A) t Q : (keyed t → does m t Q) → does m t Q.
Proof. intros H s x s' Hs. apply H; [|done]. rewrite <- Hs. apply tables_keyed. Qed.

(** A row read by its key. *)
Lemma does_get {Row V} `{!Table Row} c f id (decode : Row → V) t :
  does (let! r := map_err f (First c id) in ret (decode r)) t
    (λ v t', t' = t ∧ ∃ r, get_rows t !! id = Some r ∧ key r = id ∧ v = decode r).
Proof.
  apply does_keyed. intros Hk. apply does_bind, does_map_err. eapply does_mono; [apply does_First|].
  intros r t' [-> Hr]. apply does_ret. split; [done|]. exists r. split_and!; [done| |done].
  by apply (get_keyed (Row := Row) _ Hk).
Qed.
Lemma does_get_lift {Row V} `{!Table Row} c f id (decode : Row → Result V) t :
  does (let! r := map_err f (First c id) in lift (decode r)) t
    (λ v t', t' = t ∧ ∃ r, get_rows t !! id = Some r ∧ key r = id ∧ decode r = Ok v).
Proof.
  apply does_keyed. intros Hk. apply does_bind, does_map_err. eapply does_mono; [apply does_First|].
  intros r t' [-> Hr]. apply does_lift. intros v Hv. split; [done|]. exists r. split_and!; [done| |done].
  by apply (get_keyed (Row := Row) _ Hk).
Qed.

Definition does_get_session c id t := does_get c (mapNotFound ErrSessionNotFound id) id sessionFromModel t.
Definition does_get_turn c id t := does_get c (mapNotFound ErrTurnNotFound id) id turnFromModel t.
Definition does_GetStep c id t := does_get_lift c (mapNotFound ErrStepNotFound id) id stepFromModel t.
Definition does_GetAttachment c id t := does_get_lift c (mapNotFound ErrAttachmentNotFound id) id attachmentFromModel t.

(** The rows a versioned write finds and leaves. *)
Definition session_written (v : Session) (expected : N) : Tables → Tables → Prop :=
  swapped (s_ID v) (λ r, bool_decide (rs_Version r = expected)) (Dao.session_columns (sessionModel v)).
Definition turn_written (v : Turn) (expected : N) : Tables → Tables → Prop :=
  swapped (t_ID v) (λ r, bool_decide (rt_Version r = expected)) (Dao.turn_columns (turnModel v)).

Lemma does_put_session c what v expected t :
  does (Durable.put_session c what v expected) t (λ _ t', session_written v expected t t').
Proof.
  exact (does_put c (s_ID v) (λ r, bool_decide (rs_Version r = expected)) (Dao.session_columns (sessionModel v))
    (Durable.wrap what) (versionConflict "session" (s_ID v)) t (λ r, eq_refl)).
Qed.
Lemma does_put_turn c what v expected id t :
  does (Durable.put_turn c what v expected id) t (λ _ t', turn_written v expected t t').
Proof.
  exact (does_put c (t_ID v) (λ r, bool_decide (rt_Version r = expected)) (Dao.turn_columns (turnModel v))
    (Durable.wrap what) (versionConflict "turn" id) t (λ r, eq_refl)).
Qed.
Lemma atomic_put_session c what v expected : atomic (Durable.put_session c what v expected).
Proof.
  exact (atomic_put c (s_ID v) (λ r, bool_decide (rs_Version r = expected)) (Dao.session_columns (sessionModel v))
    (Durable.wrap what) (versionConflict "session" (s_ID v)) tt (λ r, eq_refl)).
Qed.

(** What a finished turn does to its session. *)
Definition unlinked (x : AgentSession) (now : Time) : Session :=
  (sessionFromModel x)<| s_ActiveTurnID := "" |><| s_Version := u64_add (rs_Version x) 1 |><| s_UpdatedAt := now |>.
Definition released (now : Time) (u : Turn) (t t' : Tables) : Prop :=
  ∃ x, agent_sessions t !! t_AgentSessionID u = Some x ∧ rs_ID x = t_AgentSessionID u ∧
    if bool_decide (rs_ActiveTurnID x = t_ID u)
    then session_written (unlinked x now) (rs_Version x) t t' else t' = t.

Lemma does_release c now u t : does (Durable.release_session c now u) t (λ _ t', released now u t t').
Proof.
  unfold Durable.release_session. apply does_bind. eapply does_mono; [apply does_get_session|].
  intros v t' (-> & x & Hx & Hk & ->). simpl in *. unfold released. case_bool_decide as Ha.
  - eapply does_mono; [apply does_put_session|]. intros [] t' Hw. exists x.
    split_and!; [done|done|]. by rewrite bool_decide_eq_true_2.
  - apply does_ret. exists x. split_and!; [done|done|]. by rewrite bool_decide_eq_false_2.
Qed.

(** *** Turns *)
Definition started (now : Time) (sid : string) (turn : Turn) : Turn :=
  turn<| t_AgentSessionID := sid |><| t_Status := TurnQueued |><| t_Version := 1%N |>
    <| t_CreatedAt := now |><| t_UpdatedAt := now |>.
Definition linked (x : AgentSession) (id : string) (now : Time) : Session :=
  (sessionFromModel x)<| s_ActiveTurnID := id |><| s_Version := u64_add (rs_Version x) 1 |><| s_UpdatedAt := now |>.

Lemma does_StartTurn c now sid turn t :
  does (Durable.StartTurn c now sid turn) t (λ '(y, u) t',
    t_ID turn ≠ "" ∧ u = started now sid turn ∧
    ∃ x t1, agent_sessions t !! sid = Some x ∧ rs_ID x = sid ∧ session_of_u8 (rs_Status x) ≠ SessionArchived ∧
      rs_ActiveTurnID x = "" ∧ created (turnModel u) t t1 ∧ session_written (linked x (t_ID turn) now) (rs_Version x) t1 t').
Proof.
  unfold Durable.StartTurn. apply does_unless. intros Hid. bools. apply does_txn.
  apply does_bind. eapply does_mono; [apply does_get_session|]. intros v t' (-> & x & Hx & Hk & ->).
  apply does_unless. intros Harch. apply does_unless. intros Hact. bools.
  apply does_bind, does_map_err. eapply does_mono; [apply does_Create|]. intros [] t1 Hc.
  apply does_bind. eapply does_mono; [apply does_put_session|]. intros [] t2 Hw.
  apply does_ret. split_and!; [done|done|]. exists x, t1. split_and!; done.
Qed.

Definition turn_moved (now : Time) (id : string) (expected : N) (to : TurnStatus) (code msg : string) (u : Turn)
    (t t' : Tables) : Prop :=
  ∃ r t1, agent_turns t !! id = Some r ∧ rt_ID r = id ∧ rt_Version r = expected ∧
    validTurnTransition (turn_of_u8 (rt_Status r)) to = true ∧
    u = Durable.transitioned (turnFromModel r) now to code msg ∧ turn_written u expected t t1 ∧
    if Terminal to then released now u t1 t' else t' = t1.

Lemma does_TransitionTurn c now id expected to code msg t :
  does (Durable.TransitionTurn c now id expected to code msg) t (λ u t', turn_moved now id expected to code msg u t t').
Proof.
  unfold Durable.TransitionTurn. apply does_txn.
  apply does_bind. eapply does_mono; [apply does_get_turn|]. intros v t' (-> & r & Hr & Hk & ->).
  apply does_unless. intros Hv. apply does_unless. intros Hval. bools.
  apply does_bind. eapply does_mono; [apply does_put_turn|]. intros [] t1 Hw. apply does_bind.
  destruct (Terminal to) eqn:Hter.
  - eapply does_mono; [apply does_release|]. intros [] t2 Hrel. apply does_ret.
    exists r, t1. rewrite Hter. split_and!; done.
  - apply does_ret, does_ret. exists r, t1. rewrite Hter. split_and!; done.
Qed.

(** *** Steps *)
Definition next_sequence (t : Tables) (id : string) : N :=
  u32_add (foldr N.max 0%N (rp_Sequence <$>
    List.filter (λ r, bool_decide (rp_TurnID r = id)) (map_to_list (agent_steps t)).*2)) 1.
Definition sequenced (step : Step) (id : string) (sequence : N) (now : Time) : Step :=
  let step := step<| st_TurnID := id |><| st_Sequence := sequence |><| st_Version := 1%N |>
    <| st_CreatedAt := now |><| st_UpdatedAt := now |> in
  if bool_decide (st_Status step = StepRunning) then step<| st_StartedAt := Some now |> else step.
Definition stepping (r : AgentTurn) (id : string) (now : Time) : Turn :=
  (turnFromModel r)<| t_ActiveStepID := id |><| t_Version := u64_add (rt_Version r) 1 |><| t_UpdatedAt := now |>.

Lemma does_AppendStep c now id expected step t :
  does (Durable.AppendStep c now id expected step) t (λ '(u, st) t',
    st_ID step ≠ "" ∧
    ∃ r t1, agent_turns t !! id = Some r ∧ rt_ID r = id ∧ rt_Version r = expected ∧
      Terminal (turn_of_u8 (rt_Status r)) = false ∧
      st = sequenced step id (next_sequence t id) now ∧ u = stepping r (st_ID st) now ∧
      turn_written u expected t t1 ∧ created (stepModel st) t1 t').
Proof.
  unfold Durable.AppendStep. apply does_unless. intros Hid. bools. apply does_txn.
  apply does_bind. eapply does_mono; [apply does_get_turn|]. intros v t' (-> & r & Hr & Hk & ->).
  apply does_unless. intros Hv. apply does_unless. intros Hter. bools.
  apply does_bind, does_map_err. unfold Dao.NextAgentStepSequence.
  apply does_bind. eapply does_mono; [apply does_Max|]. intros n t' [-> Hn]. apply does_ret.
  apply does_bind. eapply does_mono; [apply does_put_turn|]. intros [] t1 Hw.
  apply does_bind, does_map_err. eapply does_mono; [apply does_Create|]. intros [] t2 Hc.
  apply does_ret. split; [done|]. exists r, t1. subst n. simpl in Hv. subst expected. split_and!; done.
Qed.

Definition step_moved (v : Step) (now : Time) (to : StepStatus) (output code msg : string) : Step :=
  let step := v<| st_Status := to |><| st_Version := u64_add (st_Version v) 1 |><| st_UpdatedAt := now |>
    <| st_ErrorCode := code |><| st_ErrorMessage := msg |> in
  let step := if bool_decide (output ≠ "") then step<| st_Output := output |> else step in
  if step_finished to then step<| st_CompletedAt := Some now |> else step.
Definition step_written (v : Step) (expected : N) : Tables → Tables → Prop :=
  swapped (st_ID v) (λ r, bool_decide (rp_Version r = expected)) (Dao.step_columns (stepModel v)).

Lemma step_moved_ID v now to output code msg : st_ID (step_moved v now to output code msg) = st_ID v.
Proof. unfold step_moved. by repeat case_match. Qed.

Lemma does_transitionStep c now id to output code msg t :
  does (Durable.transitionStep c now id to output code msg) t (λ st t',
    ∃ r v, agent_steps t !! id = Some r ∧ rp_ID r = id ∧ stepFromModel r = Ok v ∧
      validStepTransition (st_Status v) to = true ∧ st = step_moved v now to output code msg ∧
      step_written st (st_Version v) t t').
Proof.
  unfold Durable.transitionStep. apply does_bind. eapply does_mono; [apply does_GetStep|].
  intros v t' (-> & r & Hr & Hk & Hv). apply does_unless. intros Hval. bools.
  change (let step := if step_finished to then _ else _ in _) with
    (let! updated := map_err (Durable.wrap "transition agent step")
       (Dao.UpdateAgentStepCAS c (stepModel (step_moved v now to output code msg)) (st_Version v)) in
     throw_if negb updated with versionConflict "step" id ;; ret (step_moved v now to output code msg)).
  apply does_bind, does_map_err.
  eapply does_mono; [exact (does_cas c (st_ID (step_moved v now to output code msg))
    (λ r, bool_decide (rp_Version r = st_Version v)) (Dao.step_columns (stepModel (step_moved v now to output code msg)))
    t (λ r, eq_refl))|].
  intros [] t' Hb; simpl; [apply does_ret|apply does_throw]. exists r, v. split_and!; done.
Qed.

(** *** Sessions and attachments *)
Definition new_session (now : Time) (x : Session) : Session :=
  x<| s_Version := 1%N |><| s_CreatedAt := now |><| s_UpdatedAt := now |>.

Lemma does_CreateSession c now x t :
  does (Durable.CreateSession c now x) t (λ _ t',
    validateSession x = None ∧ created (sessionModel (new_session now x)) t t').
Proof.
  unfold Durable.CreateSession. apply does_bind, does_check. intros Hv. apply does_map_err.
  eapply does_mono; [apply does_Create|]. intros [] t' Hc. done.
Qed.

(** A row whose text columns could be written. *)
Definition attachment_created (a : Attachment) (t t' : Tables) : Prop :=
  ∃ r, attachmentModel a = Ok r ∧ created r t t'.

Definition generation_one (a : Attachment) : Attachment :=
  if bool_decide (a_Generation a = 0%N) then a<| a_Generation := 1%N |> else a.

Lemma does_CreateSessionWithAttachment c now x a t :
  does (Durable.CreateSessionWithAttachment c now x a) t (λ '(y, b) t',
    s_Kind x ≠ SessionManagement ∧ validateSession x = None ∧ a_AgentSessionID a = s_ID x ∧
    validateAttachment a = None ∧ b = generation_one (a<| a_CreatedAt := now |><| a_UpdatedAt := now |>) ∧
    y = (new_session now x)<| s_ActiveAttachmentID := a_ID b |> ∧
    ∃ t1, created (sessionModel y) t t1 ∧ attachment_created b t1 t').
Proof.
  unfold Durable.CreateSessionWithAttachment. apply does_unless. intros Hm.
  apply does_bind, does_check. intros Hv. apply does_unless. intros Hs. apply does_bind, does_check. intros Ha. bools.
  apply does_bind. eapply (does_mono _ _ (λ _ t', ∃ t1,
    created (sessionModel ((new_session now x)<| s_ActiveAttachmentID :=
      a_ID (generation_one (a<| a_CreatedAt := now |><| a_UpdatedAt := now |>)) |>)) t t1 ∧
    attachment_created (generation_one (a<| a_CreatedAt := now |><| a_UpdatedAt := now |>)) t1 t')).
  - apply does_txn, does_bind, does_map_err. eapply does_mono; [apply does_Create|]. intros [] t1 Hc.
    apply does_bind, does_lift. intros r Hr. apply does_map_err.
    eapply does_mono; [apply does_Create|]. intros [] t2 Hc2. exists t1. split; [done|]. by exists r.
  - intros [] t' H. apply does_ret. done.
Qed.

Lemma does_ArchiveSession c now id expected t :
  does (Durable.ArchiveSession c now id expected) t (λ y t',
    ∃ x, agent_sessions t !! id = Some x ∧ rs_ID x = id ∧ rs_Version x = expected ∧ rs_ActiveTurnID x = "" ∧
      y = (sessionFromModel x)<| s_Status := SessionArchived |><| s_Version := u64_add expected 1 |><| s_UpdatedAt := now |> ∧
      session_written y expected t t').
Proof.
  unfold Durable.ArchiveSession. apply does_bind. eapply does_mono; [apply does_get_session|].
  intros v t' (-> & x & Hx & Hk & ->). apply does_unless. intros Hv. apply does_unless. intros Ha. bools.
  apply does_bind. eapply does_mono; [apply does_put_session|]. intros [] t' Hw. apply does_ret.
  exists x. simpl in Hv, Ha. subst expected. split_and!; done.
Qed.

Lemma does_CreateAttachment c now a t :
  does (Durable.CreateAttachment c now a) t (λ b t',
    validateAttachment a = None ∧ b = (generation_one a)<| a_CreatedAt := now |><| a_UpdatedAt := now |> ∧
    ∃ x, agent_sessions t !! a_AgentSessionID a = Some x ∧ rs_Kind x ≠ SessionManagement ∧
      session_of_u8 (rs_Status x) ≠ SessionArchived ∧ attachment_created b t t').
Proof.
  unfold Durable.CreateAttachment. apply does_bind, does_check. intros Ha. apply does_txn.
  apply does_bind, does_map_err. eapply does_mono; [apply does_First|]. intros x t' [-> Hx].
  apply does_unless. intros Hm. apply does_unless. intros Har. bools.
  apply does_bind, does_lift. intros r Hr. apply does_bind, does_map_err.
  eapply does_mono; [apply does_Create|]. intros [] t' Hc. apply does_ret. split_and!; [done|done|].
  exists x. split_and!; try done. by exists r.
Qed.

Lemma does_UpdateAttachment c now a expected t :
  does (Durable.UpdateAttachment c now a expected) t (λ b t',
    validateAttachment a = None ∧ ∃ r v w, agent_attachments t !! a_ID a = Some r ∧ attachmentFromModel r = Ok v ∧
      a_Generation v = expected ∧ a_AgentSessionID v = a_AgentSessionID a ∧ a_AccessID v = a_AccessID a ∧
      a_ApplicationID v = a_ApplicationID a ∧ a_Protocol v = a_Protocol a ∧ a_State v ≠ AttachmentRemoved ∧
      b = a<| a_Generation := u64_add expected 1 |><| a_CreatedAt := a_CreatedAt v |><| a_UpdatedAt := now |> ∧
      attachmentModel b = Ok w ∧
      swapped (a_ID a) (λ r, bool_decide (ra_Generation r = expected)) (Dao.attachment_columns w) t t').
Proof.
  unfold Durable.UpdateAttachment. apply does_bind, does_check. intros Ha.
  apply does_bind. eapply does_mono; [apply does_GetAttachment|]. intros v t' (-> & r & Hr & Hk & Hv).
  apply does_unless. intros Hg. apply does_unless. intros Hb. apply does_unless. intros Hrem. bools.
  apply does_bind, does_lift. intros w Hw. assert (ra_ID w = a_ID a) as Hid.
  { unfold attachmentModel in Hw. case_match; simplify_eq. done. }
  apply does_bind, does_map_err.
  eapply does_mono; [exact (does_cas c (ra_ID w) (λ r, bool_decide (ra_Generation r = expected))
    (Dao.attachment_columns w) t (λ r, eq_refl))|].
  intros [] t' Hc; simpl; [apply does_ret|apply does_throw]. split; [done|]. exists r, v, w.
  rewrite Hid in Hc. split_and!; done.
Qed.

Lemma does_SetActiveAttachment c now id aid expected t :
  does (Durable.SetActiveAttachment c now id aid expected) t (λ y t',
    ∃ x, agent_sessions t !! id = Some x ∧ rs_ID x = id ∧ rs_Version x = expected ∧
      (rs_Kind x = SessionManagement → aid = "") ∧ session_of_u8 (rs_Status x) ≠ SessionArchived ∧
      (aid = "" ∨ ∃ r, agent_attachments t !! aid = Some r ∧ ra_AgentSessionID r = id ∧
        attachment_of_u8 (ra_State r) ≠ AttachmentRemoved) ∧
      y = (sessionFromModel x)<| s_ActiveAttachmentID := aid |><| s_Version := u64_add expected 1 |><| s_UpdatedAt := now |> ∧
      session_written y expected t t').
Proof.
  unfold Durable.SetActiveAttachment. apply does_txn, does_bind. eapply does_mono; [apply does_get_session|].
  intros v t' (-> & x & Hx & Hk & ->). apply does_unless. intros Hv. apply does_unless. intros Hm.
  apply does_unless. intros Har. bools. simpl in Hv, Hm, Har. subst expected.
  apply does_bind. eapply (does_mono _ _ (λ _ t', t' = t ∧ (aid = "" ∨ ∃ r, agent_attachments t !! aid = Some r ∧
    ra_AgentSessionID r = id ∧ attachment_of_u8 (ra_State r) ≠ AttachmentRemoved))).
  - clear Hm. case_bool_decide as Haid; [|apply does_ret; split; [done|left; destruct (decide (aid = EmptyString)); tauto]].
    apply does_bind, does_map_err. eapply does_mono; [apply does_First|]. intros r t' [-> Hr].
    apply does_unless. intros Hb. bools. apply does_ret. split; [done|]. right. eauto.
  - intros [] t' [-> Hatt]. apply does_bind. eapply does_mono; [apply does_put_session|]. intros [] t' Hw.
    apply does_ret. exists x. split_and!; try done.
    intros Hkind. rewrite bool_decide_eq_true_2 in Hm by done. simpl in Hm. by bools.
Qed.

(** *** Messages and snapshots *)
Lemma does_AppendMessage c now m t :
  does (Durable.AppendMessage c now m) t (λ _ t',
    m_ID m ≠ "" ∧ m_AgentSessionID m ≠ "" ∧ m_TurnID m ≠ "" ∧
    ∃ r, created r t t' ∧ rg_ID r = m_ID m ∧ rg_AgentSessionID r = m_AgentSessionID m ∧ rg_TurnID r = m_TurnID m ∧
      rg_Role r = mm_Role (m_Value m)).
Proof.
  unfold Durable.AppendMessage. apply does_unless. intros Hne. bools. apply does_txn, does_bind, does_map_err.
  unfold Dao.NextAgentMessageSequence. apply does_bind. eapply does_mono; [apply does_Max|].
  intros n t' [-> _]. apply does_ret. apply does_bind, does_map_err, does_lift. intros enc _.
  apply does_bind, does_map_err. eapply does_mono; [apply does_Create|]. intros [] t' Hc.
  apply does_ret. split_and!; [done..|]. eexists. split; [exact Hc|]. done.
Qed.

Lemma does_SaveToolSnapshot c now tid sid ss t :
  does (Durable.SaveToolSnapshot c now tid sid ss) t (λ _ t',
    tid ≠ "" ∧ sid ≠ "" ∧ ss_ID ss ≠ "" ∧ ∃ r, created r t t' ∧ rn_ID r = ss_ID ss).
Proof.
  unfold Durable.SaveToolSnapshot. apply does_unless. intros Hne. bools.
  apply does_bind, does_map_err, does_lift. intros a _.
  apply does_bind, does_map_err, does_lift. intros tl _. apply does_map_err.
  eapply does_mono; [apply does_Create|]. intros [] t' Hc. split_and!; [done..|]. eexists. split; [exact Hc|]. done.
Qed.

(** ** Failed calls *)
Lemma balanced_put_session c what v expected : balanced (Durable.put_session c what v expected).
Proof. eapply does_balanced. intros t. apply does_put_session. Qed.
Lemma balanced_put_turn c what v expected id : balanced (Durable.put_turn c what v expected id).
Proof. eapply does_balanced. intros t. apply does_put_turn. Qed.
#[local] Hint Resolve balanced_put_session balanced_put_turn atomic_put_session : durable.
#[local] Hint Unfold Durable.get_session Durable.get_turn Durable.GetStep Durable.GetAttachment Durable.release_session
  Dao.GetAgentSession Dao.GetAgentTurn Dao.GetAgentStep Dao.GetAgentAttachment Dao.CreateAgentSession
  Dao.CreateAgentAttachment Dao.CreateAgentTurn Dao.CreateAgentStep Dao.CreateAgentMessage Dao.NextAgentStepSequence
  Dao.NextAgentMessageSequence Dao.CreateAgentToolsetSnapshot : durable.

Lemma atomic_get {Row V} `{!Table Row} c f id (decode : Row → V) :
  atomic (DB := DB) (let! r := map_err f (First c id) in ret (decode r)).
Proof. apply atomic_bind_ret, atomic_map_err, atomic_First. Qed.
Lemma atomic_get_lift {Row V} `{!Table Row} c f id (decode : Row → Result V) :
  atomic (DB := DB) (let! r := map_err f (First c id) in lift (decode r)).
Proof.
  apply atomic_bind; [|apply atomic_map_err, atomic_First|intros; apply atomic_lift].
  intros t. eapply does_mono; [apply does_map_err, does_First|]. by intros r t' [-> _].
Qed.

(** A read before an atomic rest. *)
Lemma atomic_after {A B} (m : Op DB A) (k : A → Op DB B) (Q : Tables → A → Prop) :
  (∀ t, does m t (λ a t', t' = t ∧ Q t a)) → atomic m → (∀ a, atomic (k a)) → atomic (bind m k).
Proof. intros Hd. apply atomic_bind. intros t. eapply does_mono; [apply Hd|]. by intros a t' [-> _]. Qed.
Lemma atomic_after_pure {A B} (r : Result A) (k : A → Op DB B) : (∀ a, atomic (k a)) → atomic (bind (lift r) k).
Proof. intros Hk s e s'. unfold bind, lift. destruct r; [apply Hk|]. by intros [= _ <-]. Qed.
Lemma atomic_after_check {B} o (k : unit → Op DB B) : atomic (k tt) → atomic (bind (check o) k).
Proof. intros Hk s e s'. unfold bind, check. destruct o; [by intros [= _ <-]|apply Hk]. Qed.
Lemma atomic_after_wrapped {A B} f (r : Result A) (k : A → Op DB B) :
  (∀ a, atomic (k a)) → atomic (bind (map_err f (lift r)) k).
Proof. intros Hk s e s'. unfold bind, map_err, lift. destruct r; [apply Hk|]. by intros [= _ <-]. Qed.

Lemma atomic_transitionStep c now id to output code msg : atomic (Durable.transitionStep c now id to output code msg).
Proof.
  unfold Durable.transitionStep. eapply atomic_after; [intros t; apply does_GetStep|apply atomic_get_lift|].
  intros v. apply atomic_if; [auto with durable|].
  set (st := if step_finished to then _ else _). clearbody st.
  exact (atomic_put c (st_ID st) (λ r, bool_decide (rp_Version r = st_Version v)) (Dao.step_columns (stepModel st))
    (Durable.wrap "transition agent step") (versionConflict "step" id) st (λ r, eq_refl)).
Qed.

Lemma atomic_UpdateAttachment c now a expected : atomic (Durable.UpdateAttachment c now a expected).
Proof.
  unfold Durable.UpdateAttachment. apply atomic_after_check.
  eapply atomic_after; [intros t; apply does_GetAttachment|apply atomic_get_lift|]. intros v.
  do 3 (apply atomic_if; [auto with durable|]). apply atomic_after_pure. intros w.
  exact (atomic_put c (ra_ID w) (λ r, bool_decide (ra_Generation r = expected)) (Dao.attachment_columns w)
    (Durable.wrap "update agent attachment") (versionConflict "attachment" (a_ID a)) _ (λ r, eq_refl)).
Qed.

Lemma atomic_ArchiveSession c now id expected : atomic (Durable.ArchiveSession c now id expected).
Proof.
  unfold Durable.ArchiveSession. eapply atomic_after; [intros t; apply does_get_session|apply atomic_get|].
  intros v. auto 10 with durable.
Qed.
End Operations.
