(* ===== verification/DurableRefinement.v ===== *)
(** * The durable store refines the in-memory one

    [atomic_exec]: a failed call changes no row.  [sim] relates the rows of a
    database to a [MemoryStore]: the same sessions, turns, steps and
    attachments up to the times of a record, the empty texts a column replaces
    by its default, the errors of a step and the access handle of an
    attachment.  Every successful call of the durable store is matched by the
    same call of the in-memory store, so what [MemoryTheorems] proves of
    reachable stores holds of the database. *)

From S2P Require Import Prelude ToolTypes AgentTypes AgentDao DurableStore DurableLaws MemoryStore MemoryInvariant.

Section Atomic.
Context {DB : Type} {i_gorm : Gorm DB} {i_laws : GormLaws DB} {i_codec : ColumnCodec}.
#[local] Existing Instance durable_store.

#[local] Hint Resolve balanced_put_session balanced_put_turn atomic_put_session atomic_transitionStep
  atomic_UpdateAttachment atomic_ArchiveSession atomic_after_check : durable.

Lemma balanced_read {Row V} `{!Table Row} c f id (decode : Row → V) :
  balanced (DB := DB) (let! r := map_err f (First c id) in ret (decode r)).
Proof. auto with durable. Qed.
Lemma balanced_release c now u : balanced (DB := DB) (Durable.release_session c now u).
Proof. apply balanced_bind; [apply balanced_read|]. intros x. auto with durable. Qed.
#[local] Hint Resolve balanced_release : durable.
#[local] Hint Extern 2 (balanced (Durable.get_session _ _)) => apply balanced_read : durable.
#[local] Hint Extern 2 (balanced (Durable.get_turn _ _)) => apply balanced_read : durable.
#[local] Hint Extern 2 (balanced (Dao.GetAgentSession _ _)) => apply balanced_First : durable.
#[local] Hint Extern 2 (balanced (Dao.GetAgentAttachment _ _)) => apply balanced_First : durable.
#[local] Hint Extern 2 (balanced (Dao.CreateAgentSession _ _)) => apply balanced_Create : durable.
#[local] Hint Extern 2 (balanced (Dao.CreateAgentAttachment _ _)) => apply balanced_Create : durable.
#[local] Hint Extern 2 (balanced (Dao.CreateAgentTurn _ _)) => apply balanced_Create : durable.
#[local] Hint Extern 2 (balanced (Dao.CreateAgentStep _ _)) => apply balanced_Create : durable.
#[local] Hint Extern 2 (balanced (Dao.CreateAgentMessage _ _)) => apply balanced_Create : durable.

Lemma atomic_StartTurn c now sid turn : atomic (DB := DB) (Durable.StartTurn c now sid turn).
Proof. unfold Durable.StartTurn. apply atomic_if; [auto with durable|]. apply atomic_txn. auto 20 with durable. Qed.
Lemma atomic_TransitionTurn c now id v to code msg : atomic (DB := DB) (Durable.TransitionTurn c now id v to code msg).
Proof. unfold Durable.TransitionTurn. apply atomic_txn. auto 20 with durable. Qed.
Lemma atomic_AppendStep c now id v st : atomic (DB := DB) (Durable.AppendStep c now id v st).
Proof.
  unfold Durable.AppendStep, Dao.NextAgentStepSequence. apply atomic_if; [auto with durable|]. apply atomic_txn.
  auto 20 with durable.
Qed.
Lemma atomic_AppendMessage c now m : atomic (DB := DB) (Durable.AppendMessage c now m).
Proof.
  unfold Durable.AppendMessage, Dao.NextAgentMessageSequence. apply atomic_if; [auto with durable|]. apply atomic_txn.
  auto 20 with durable.
Qed.
Lemma atomic_CreateAttachment c now a : atomic (DB := DB) (Durable.CreateAttachment c now a).
Proof. unfold Durable.CreateAttachment. apply atomic_after_check, atomic_txn. auto 20 with durable. Qed.
Lemma atomic_SetActiveAttachment c now id aid v : atomic (DB := DB) (Durable.SetActiveAttachment c now id aid v).
Proof. unfold Durable.SetActiveAttachment. apply atomic_txn. auto 20 with durable. Qed.
Lemma atomic_CreateSessionWithAttachment c now x a : atomic (DB := DB) (Durable.CreateSessionWithAttachment c now x a).
Proof.
  unfold Durable.CreateSessionWithAttachment. apply atomic_if; [auto with durable|]. apply atomic_after_check.
  apply atomic_if; [auto with durable|]. apply atomic_after_check, atomic_bind_ret, atomic_txn. auto 20 with durable.
Qed.
Lemma atomic_CreateSession c now x : atomic (DB := DB) (Durable.CreateSession c now x).
Proof. apply atomic_after_check, atomic_map_err, atomic_Create. Qed.
Lemma atomic_SaveToolSnapshot c now tid sid ss : atomic (DB := DB) (Durable.SaveToolSnapshot c now tid sid ss).
Proof.
  unfold Durable.SaveToolSnapshot. apply atomic_if; [auto with durable|]. apply atomic_after_wrapped. intros a.
  apply atomic_after_wrapped. intros b. apply atomic_map_err, atomic_Create.
Qed.

Lemma atomic_exec c m : atomic (DB := DB) (exec c m).
Proof.
  destruct m; simpl; try (apply atomic_bind_ret); auto using atomic_CreateSession, atomic_CreateSessionWithAttachment,
    atomic_ArchiveSession, atomic_CreateAttachment, atomic_UpdateAttachment, atomic_SetActiveAttachment, atomic_StartTurn,
    atomic_TransitionTurn, atomic_AppendStep, atomic_AppendMessage, atomic_SaveToolSnapshot with durable.
  all: apply atomic_transitionStep.
Qed.
End Atomic.

(** ** Rows and records *)

(** What of a record the two stores agree on. *)
Definition erase_session (x : Session) : Session :=
  x<| s_Kind := Effective (s_Kind x) |><| s_CreatedAt := 0%Z |><| s_UpdatedAt := 0%Z |>.
Definition erase_turn (u : Turn) : Turn := u<| t_CreatedAt := 0%Z |><| t_UpdatedAt := 0%Z |>.
Definition erase_step (st : Step) : Step :=
  st<| st_Input := or_default (st_Input st) "{}" |><| st_Output := or_default (st_Output st) "{}" |>
    <| st_ErrorCode := "" |><| st_ErrorMessage := "" |><| st_CreatedAt := 0%Z |><| st_UpdatedAt := 0%Z |>.
Definition erase_attachment (a : Attachment) : Attachment :=
  a<| a_AccessHandleID := "" |><| a_CreatedAt := 0%Z |><| a_UpdatedAt := 0%Z |>.

Section Views.
Context {i_codec : ColumnCodec}.
Definition session_view (r : AgentSession) : Session := erase_session (sessionFromModel r).
Definition turn_view (r : AgentTurn) : Turn := erase_turn (turnFromModel r).
Definition step_view (r : AgentStep) : option Step :=
  match stepFromModel r with Ok st => Some (erase_step st) | Err _ => None end.
Definition attachment_view (r : AgentAttachment) : option Attachment :=
  match attachmentFromModel r with Ok a => Some (erase_attachment a) | Err _ => None end.

Record sim (t : Tables) (s : MemoryStore) : Prop := {
  sim_sessions : session_view <$> agent_sessions t = erase_session <$> sessions s;
  sim_turns : turn_view <$> agent_turns t = erase_turn <$> turns s;
  sim_steps : step_view <$> agent_steps t = (Some ∘ erase_step) <$> steps s;
  sim_attachments : attachment_view <$> agent_attachments t = (Some ∘ erase_attachment) <$> attachments s;
  sim_messages tid m : m ∈ default [] (messages s !! tid) →
    ∃ r, agent_messages t !! m_ID m = Some r ∧ rg_TurnID r = tid ∧ rg_AgentSessionID r = m_AgentSessionID m ∧
      rg_Role r = mm_Role (m_Value m);
  sim_snapshots k : is_Some (snapshots s !! k) → is_Some (agent_toolset_snapshots t !! k)
}.
End Views.

Section MatchedMaps.
Context {A B C : Type} (f : A → C) (g : B → C).
Implicit Types (m : gmap string A) (n : gmap string B).

Lemma matched_Some m n k a : f <$> m = g <$> n → m !! k = Some a → ∃ b, n !! k = Some b ∧ f a = g b.
Proof.
  intros H Ha. apply (f_equal (.!! k)) in H. rewrite !lookup_fmap, Ha in H. simpl in H.
  destruct (n !! k) as [b|]; [|done]. exists b. split; [done|]. by injection H.
Qed.
Lemma matched_None m n k : f <$> m = g <$> n → m !! k = None → n !! k = None.
Proof.
  intros H Ha. apply (f_equal (.!! k)) in H. rewrite !lookup_fmap, Ha in H. by destruct (n !! k).
Qed.
Lemma matched_insert m n k a b :
  f <$> m = g <$> n → f a = g b → f <$> <[k := a]> m = g <$> <[k := b]> n.
Proof. intros H Hab. by rewrite !fmap_insert, H, Hab. Qed.
End MatchedMaps.

Lemma erase_session_inv x y :
  erase_session x = erase_session y →
  s_ID x = s_ID y ∧ s_Status x = s_Status y ∧ s_Version x = s_Version y ∧ s_ActiveTurnID x = s_ActiveTurnID y ∧
  (s_Kind x = SessionManagement ↔ s_Kind y = SessionManagement).
Proof.
  destruct x, y. unfold erase_session. simpl. intros [= Hk]. simplify_eq. split_and!; try done.
  assert (∀ k, Effective k = SessionManagement ↔ k = SessionManagement) as He.
  { intros k. unfold Effective. case_bool_decide; [|done]. subst k. done. }
  rewrite <- (He s_Kind), <- (He s_Kind0), Hk. done.
Qed.
Lemma erase_turn_inv x y :
  erase_turn x = erase_turn y →
  t_ID x = t_ID y ∧ t_AgentSessionID x = t_AgentSessionID y ∧ t_Status x = t_Status y ∧ t_Version x = t_Version y ∧
  t_StartedAt x = t_StartedAt y.
Proof. destruct x, y. unfold erase_turn. simpl. by intros [=]. Qed.
Lemma erase_step_inv x y :
  erase_step x = erase_step y →
  st_ID x = st_ID y ∧ st_TurnID x = st_TurnID y ∧ st_Sequence x = st_Sequence y ∧ st_Status x = st_Status y ∧
  st_Version x = st_Version y.
Proof. destruct x, y. unfold erase_step. simpl. by intros [=]. Qed.
Lemma erase_attachment_inv x y :
  erase_attachment x = erase_attachment y →
  a_ID x = a_ID y ∧ a_AgentSessionID x = a_AgentSessionID y ∧ a_AccessID x = a_AccessID y ∧
  a_ApplicationID x = a_ApplicationID y ∧ a_Protocol x = a_Protocol y ∧ a_Generation x = a_Generation y ∧
  a_State x = a_State y.
Proof. destruct x, y. unfold erase_attachment. simpl. by intros [=]. Qed.

(** ** Rows written and read back *)
Lemma session_u8_canonical n : session_of_u8 (session_u8 (session_of_u8 n)) = session_of_u8 n.
Proof. by destruct n as [|[p|p|]]. Qed.
Lemma turn_u8_canonical n : turn_of_u8 (turn_u8 (turn_of_u8 n)) = turn_of_u8 n.
Proof. destruct n as [|p]; [done|]. repeat (destruct p as [p|p|]; try done). Qed.
Lemma step_u8_canonical n : step_of_u8 (step_u8 (step_of_u8 n)) = step_of_u8 n.
Proof. destruct n as [|p]; [done|]. repeat (destruct p as [p|p|]; try done). Qed.

(** A status a turn moves to is one of the named ones or the one it had. *)
Lemma moved_canonical n to :
  validTurnTransition (turn_of_u8 n) to = true → turn_of_u8 (turn_u8 to) = to.
Proof.
  unfold validTurnTransition. case_bool_decide as H; [intros _; rewrite <- H; apply turn_u8_canonical|].
  by destruct (turn_of_u8 n), to.
Qed.
Lemma step_moved_canonical n to :
  validStepTransition (step_of_u8 n) to = true → step_of_u8 (step_u8 to) = to.
Proof.
  unfold validStepTransition. case_bool_decide as H; [intros _; rewrite <- H; apply step_u8_canonical|].
  by destruct (step_of_u8 n), to.
Qed.

Lemma session_write_view now v r :
  s_Kind v = rs_Kind r → s_ID v = rs_ID r → s_OrganizationID v = rs_OrganizationID r → s_CreatedBy v = rs_CreatedBy r →
  session_of_u8 (session_u8 (s_Status v)) = s_Status v →
  session_view (stamp now (Dao.session_columns (sessionModel v) r)) = erase_session v.
Proof. destruct v, r. unfold session_view, erase_session, sessionFromModel. simpl. by intros -> -> -> -> ->. Qed.

Lemma started_time z : default 0%Z (if IsZero z then None else Some z) = z.
Proof. unfold IsZero. by destruct (Z.eqb_spec z 0). Qed.

Lemma turn_write_view now v r :
  t_ID v = rt_ID r → t_AgentSessionID v = rt_AgentSessionID r → turn_of_u8 (turn_u8 (t_Status v)) = t_Status v →
  turn_view (stamp now (Dao.turn_columns (turnModel v) r)) = erase_turn v.
Proof.
  destruct v, r. unfold turn_view, erase_turn, turnFromModel. simpl. intros -> -> ->. by rewrite started_time.
Qed.
Lemma turn_create_view now v :
  t_Version v ≠ 0%N → turn_of_u8 (turn_u8 (t_Status v)) = t_Status v →
  turn_view (defaults now (turnModel v)) = erase_turn v.
Proof.
  destruct v. unfold turn_view, erase_turn, turnFromModel. simpl. intros Hv ->. unfold or_one.
  by rewrite started_time, bool_decide_eq_false_2.
Qed.
Lemma session_create_view now v :
  s_Version v ≠ 0%N → session_of_u8 (session_u8 (s_Status v)) = s_Status v →
  session_view (defaults now (sessionModel v)) = erase_session v.
Proof.
  destruct v. unfold session_view, erase_session, sessionFromModel. simpl. intros Hv ->. unfold or_one, or_default.
  rewrite (bool_decide_eq_false_2 (s_Version = 0%N)) by done. f_equal.
  destruct (decide (s_Kind = EmptyString)) as [->|Hne]; [done|]. by rewrite bool_decide_eq_false_2.
Qed.

(** A step that its row can hold: no number of an enumeration under two names,
    and a tool identifier that is read back from its text. *)
Definition encodable (v : Step) : Prop :=
  kind_of_u8 (kind_u8 (st_Kind v)) = st_Kind v ∧ step_of_u8 (step_u8 (st_Status v)) = st_Status v ∧
  match st_ToolID v with Some id => ParseToolID (ToolID_String id) = Ok id | None => True end.

Lemma ParseToolID_empty : is_ok (ParseToolID "") = false.
Proof. reflexivity. Qed.

Lemma stepFromModel_stepModel v : encodable v → stepFromModel (stepModel v) = Ok v.
Proof.
  intros (Hk & Hs & Hid). unfold stepFromModel, stepModel. destruct v. simpl in *. rewrite Hk, Hs.
  destruct st_ToolID as [id|]; [|done]. case_bool_decide as He; [|by rewrite Hid].
  pose proof ParseToolID_empty as Hp. rewrite He in Hid. by rewrite Hid in Hp.
Qed.

Lemma or_default_twice x : or_default (or_default x "{}") "{}" = or_default x "{}".
Proof.
  unfold or_default. destruct (decide (x = EmptyString)) as [->|]; [done|].
  by rewrite !(bool_decide_eq_false_2 (x = EmptyString)).
Qed.
Lemma step_create_view now v :
  encodable v → st_Version v ≠ 0%N → step_view (defaults now (stepModel v)) = Some (erase_step v).
Proof.
  intros He Hv. pose proof (stepFromModel_stepModel v He) as Hr. unfold step_view, stepFromModel in *.
  unfold defaults, table_AgentStep in *. simpl in *. unfold or_one. rewrite (bool_decide_eq_false_2 (st_Version v = 0%N)) by done.
  case_bool_decide; [|destruct (ParseToolID _); [|done]]; destruct v; simplify_eq/=; unfold erase_step; simpl;
    rewrite ?or_default_twice; congruence.
Qed.
Lemma step_write_view now v st r :
  stepFromModel r = Ok v → st_ID st = st_ID v → st_TurnID st = st_TurnID v → st_Sequence st = st_Sequence v →
  st_Kind st = st_Kind v → st_ToolID st = st_ToolID v → st_ToolSnapshotID st = st_ToolSnapshotID v →
  st_Input st = st_Input v → step_of_u8 (step_u8 (st_Status st)) = st_Status st →
  step_view (stamp now (Dao.step_columns (stepModel st) r)) = Some (erase_step st).
Proof.
  intros Hr H1 H2 H3 H4 H5 H6 H7 H8. unfold step_view, stepFromModel in *. simpl.
  case_bool_decide; [|destruct (ParseToolID _); [|done]]; destruct st, v; simplify_eq/=; by rewrite H8.
Qed.

(** Capabilities are read back as they were written. *)
Class ColumnCodecLaws {i_codec : ColumnCodec} : Prop := {
  capabilities_read l text : marshal_capabilities l = Ok text → text ≠ "" ∧ unmarshal_capabilities text = Ok l
}.

Section AttachmentRows.
Context {i_codec : ColumnCodec} {i_codec_laws : ColumnCodecLaws}.

Lemma attachment_state_canonical a :
  validateAttachment a = None → attachment_of_u8 (attachment_u8 (a_State a)) = a_State a.
Proof. intros (_ & _ & _ & _ & _ & _ & [-> | [-> | ->]])%validateAttachment_None; done. Qed.

(** The check of an attachment looks at none of the columns a database sets. *)
Lemma validateAttachment_columns a b :
  a_ID b = a_ID a → a_AgentSessionID b = a_AgentSessionID a → a_AccessID b = a_AccessID a →
  a_ApplicationID b = a_ApplicationID a → a_Protocol b = a_Protocol a → a_Capabilities b = a_Capabilities a →
  a_State b = a_State a → validateAttachment b = validateAttachment a.
Proof. unfold validateAttachment. by intros -> -> -> -> -> -> ->. Qed.

Lemma attachment_create_view now a r :
  attachmentModel a = Ok r → validateAttachment a = None → a_Generation a ≠ 0%N →
  attachment_view (defaults now r) = Some (erase_attachment a).
Proof using i_codec_laws.
  intros Hr Hv Hg. pose proof (attachment_state_canonical a Hv) as Hst. unfold attachmentModel in Hr.
  destruct (marshal_capabilities (a_Capabilities a)) as [text|] eqn:Hm; [|done]. simplify_eq.
  apply capabilities_read in Hm as [Hne Hm]. unfold attachment_view, attachmentFromModel. simpl.
  unfold or_default, or_one. rewrite !bool_decide_eq_false_2 by done. rewrite Hm, Hst.
  rewrite (validateAttachment_columns a) by done. rewrite Hv. by destruct a.
Qed.
Lemma attachment_write_view now b w r v :
  attachmentModel b = Ok w → validateAttachment b = None → attachmentFromModel r = Ok v → a_ID v = a_ID b →
  a_AgentSessionID v = a_AgentSessionID b → a_AccessID v = a_AccessID b → a_ApplicationID v = a_ApplicationID b →
  a_Protocol v = a_Protocol b →
  attachment_view (stamp now (Dao.attachment_columns w r)) = Some (erase_attachment b).
Proof using i_codec_laws.
  intros Hw Hval Hr H1 H2 H3 H4 H5. pose proof (attachment_state_canonical b Hval) as Hst. unfold attachmentModel in Hw.
  destruct (marshal_capabilities (a_Capabilities b)) as [text|] eqn:Hm; [|done]. simplify_eq.
  apply capabilities_read in Hm as [Hne Hm]. unfold attachment_view.
  unfold attachmentFromModel in Hr. destruct (unmarshal_capabilities (ra_Capabilities r)); [|done].
  destruct (validateAttachment _) in Hr; [done|]. simplify_eq. simpl in *. unfold attachmentFromModel. simpl. rewrite Hm, Hst.
  rewrite (validateAttachment_columns b) by done. rewrite Hval. destruct b. simpl in *. by subst.
Qed.
End AttachmentRows.

Section Simulation.
Context {i_codec : ColumnCodec} (t : Tables) (s : MemoryStore) (Hk : keyed t) (Hsim : sim t s).

Lemma sim_session k r :
  agent_sessions t !! k = Some r →
  ∃ x, sessions s !! k = Some x ∧ session_view r = erase_session x ∧ s_ID x = k ∧ rs_ID r = k ∧
    s_Status x = session_of_u8 (rs_Status r) ∧ s_Version x = rs_Version r ∧ s_ActiveTurnID x = rs_ActiveTurnID r ∧
    (s_Kind x = SessionManagement ↔ rs_Kind r = SessionManagement).
Proof using Hk Hsim.
  intros Hr. destruct (matched_Some _ _ _ _ _ _ (sim_sessions _ _ Hsim) Hr) as (x & Hx & He). exists x.
  pose proof He as He2. unfold session_view in He2. apply erase_session_inv in He2. simpl in He2.
  destruct He2 as (Hid & Hst & Hv & Ha & Hkind). pose proof (keyed_sessions _ Hk _ _ Hr). split_and!; try done; congruence.
Qed.
Lemma sim_turn k r :
  agent_turns t !! k = Some r →
  ∃ u, turns s !! k = Some u ∧ turn_view r = erase_turn u ∧ t_ID u = k ∧ rt_ID r = k ∧
    t_AgentSessionID u = rt_AgentSessionID r ∧ t_Status u = turn_of_u8 (rt_Status r) ∧ t_Version u = rt_Version r ∧
    t_StartedAt u = t_StartedAt (turnFromModel r).
Proof using Hk Hsim.
  intros Hr. destruct (matched_Some _ _ _ _ _ _ (sim_turns _ _ Hsim) Hr) as (u & Hu & He). exists u.
  pose proof He as He2. unfold turn_view in He2. apply erase_turn_inv in He2. simpl in He2.
  destruct He2 as (Hid & Hs & Hst & Hv & Hst2). pose proof (keyed_turns _ Hk _ _ Hr). split_and!; try done; congruence.
Qed.
Lemma sim_step k r :
  agent_steps t !! k = Some r →
  ∃ v st, stepFromModel r = Ok v ∧ steps s !! k = Some st ∧ erase_step v = erase_step st ∧ st_ID st = k ∧
    st_TurnID st = rp_TurnID r ∧ st_Sequence st = rp_Sequence r ∧ st_Status st = st_Status v ∧ st_Version st = st_Version v.
Proof using Hk Hsim.
  intros Hr. destruct (matched_Some _ _ _ _ _ _ (sim_steps _ _ Hsim) Hr) as (st & Hst & He).
  unfold step_view in He. destruct (stepFromModel r) as [v|e] eqn:Hv; [|done]. apply (inj Some) in He. exists v, st.
  pose proof He as He2. apply erase_step_inv in He2 as (Hid & Htid & Hseq & Hs & Hver).
  pose proof (keyed_steps _ Hk _ _ Hr). assert (st_ID v = rp_ID r ∧ st_TurnID v = rp_TurnID r ∧ st_Sequence v = rp_Sequence r)
    as (? & ? & ?).
  { unfold stepFromModel in Hv. repeat case_match; by simplify_eq/=. }
  split_and!; try done; congruence.
Qed.
Lemma sim_attachment k r v :
  agent_attachments t !! k = Some r → attachmentFromModel r = Ok v →
  ∃ a, attachments s !! k = Some a ∧ erase_attachment v = erase_attachment a ∧ a_ID a = k ∧
    a_AgentSessionID a = a_AgentSessionID v ∧ a_AccessID a = a_AccessID v ∧ a_ApplicationID a = a_ApplicationID v ∧
    a_Protocol a = a_Protocol v ∧ a_Generation a = a_Generation v ∧ a_State a = a_State v.
Proof using Hk Hsim.
  intros Hr Hv. destruct (matched_Some _ _ _ _ _ _ (sim_attachments _ _ Hsim) Hr) as (a & Ha & He).
  unfold attachment_view in He. rewrite Hv in He. apply (inj Some) in He. exists a.
  pose proof He as He2. apply erase_attachment_inv in He2 as (Hid & H1 & H2 & H3 & H4 & H5 & H6).
  assert (a_ID v = k) as Hid2.
  { unfold attachmentFromModel in Hv. repeat case_match; simplify_eq/=. by apply (keyed_attachments _ Hk). }
  split_and!; try done; congruence.
Qed.

(** *** One record written in both *)
Lemma sim_write_session k r x :
  session_view r = erase_session x →
  sim (t<| agent_sessions := <[k := r]> (agent_sessions t) |>) (s<| sessions := <[k := x]> (sessions s) |>).
Proof using Hsim. intros H. destruct Hsim. split; simpl; auto using matched_insert. Qed.
Lemma sim_write_turn k r u :
  turn_view r = erase_turn u →
  sim (t<| agent_turns := <[k := r]> (agent_turns t) |>) (s<| turns := <[k := u]> (turns s) |>).
Proof using Hsim. intros H. destruct Hsim. split; simpl; auto using matched_insert. Qed.
Lemma sim_write_step k r st :
  step_view r = Some (erase_step st) →
  sim (t<| agent_steps := <[k := r]> (agent_steps t) |>) (s<| steps := <[k := st]> (steps s) |>).
Proof using Hsim. intros H. destruct Hsim. split; simpl; auto using matched_insert. Qed.
Lemma sim_write_attachment k r a :
  attachment_view r = Some (erase_attachment a) →
  sim (t<| agent_attachments := <[k := r]> (agent_attachments t) |>) (s<| attachments := <[k := a]> (attachments s) |>).
Proof using Hsim. intros H. destruct Hsim. split; simpl; auto using matched_insert. Qed.
End Simulation.

(** Sessions and turns that differ in nothing the stores agree on stay so
    under the same update. *)
Ltac erased := unfold erase_session, erase_turn, erase_step, erase_attachment in *; simpl in *; congruence.

Section Operations.
Context {i_codec : ColumnCodec} (t t' : Tables) (s : MemoryStore) (Hk : keyed t) (Hsim : sim t s).

(** The session [y] a versioned write leaves, matched by [z]. *)
Lemma sim_session_written y expected r z k :
  session_written y expected t t' → agent_sessions t !! k = Some r → s_ID y = k →
  s_Kind y = rs_Kind r → s_OrganizationID y = rs_OrganizationID r → s_CreatedBy y = rs_CreatedBy r →
  session_of_u8 (session_u8 (s_Status y)) = s_Status y → erase_session y = erase_session z →
  sim t' (s<| sessions := <[k := z]> (sessions s) |>).
Proof using Hk Hsim.
  intros (r' & now & Hr' & _ & ->) Hr Hid H1 H2 H3 H4 He. simpl in Hr'. rewrite Hid in *. assert (r' = r) as -> by congruence.
  apply (sim_write_session t s Hsim). rewrite session_write_view; try done.
  rewrite Hid. symmetry. by apply (keyed_sessions _ Hk).
Qed.
Lemma sim_turn_written y expected r z k :
  turn_written y expected t t' → agent_turns t !! k = Some r → t_ID y = k →
  t_AgentSessionID y = rt_AgentSessionID r → turn_of_u8 (turn_u8 (t_Status y)) = t_Status y →
  erase_turn y = erase_turn z → sim t' (s<| turns := <[k := z]> (turns s) |>).
Proof using Hk Hsim.
  intros (r' & now & Hr' & _ & ->) Hr Hid H1 H2 He. simpl in Hr'. rewrite Hid in *. assert (r' = r) as -> by congruence.
  apply (sim_write_turn t s Hsim). rewrite turn_write_view; try done.
  rewrite Hid. symmetry. by apply (keyed_turns _ Hk).
Qed.
End Operations.

Lemma keyed_swapped {Row} `{!Table Row} k (q : Row → bool) assign t t' :
  (∀ r, key (assign r) = key r) → keyed t → swapped k q assign t t' → keyed t'.
Proof.
  intros Ha Hk (r & now & Hr & _ & ->). apply set_keyed; [done|]. intros i r' Hi.
  pose proof (get_keyed (Row := Row) _ Hk) as Hg.
  apply lookup_insert_Some in Hi as [[<- <-]|[_ Hi]]; [|by apply Hg]. rewrite key_stamp, Ha. by apply Hg.
Qed.
Lemma keyed_created {Row} `{!Table Row} (r : Row) t t' : keyed t → created r t t' → keyed t'.
Proof.
  intros Hk (_ & _ & now & ->). apply set_keyed; [done|]. intros i r' Hi.
  apply lookup_insert_Some in Hi as [[<- <-]|[_ Hi]]; [apply key_defaults|]. by apply (get_keyed (Row := Row) _ Hk).
Qed.

Section Calls.
Context {i_codec : ColumnCodec} (t t' : Tables) (s : MemoryStore) (Hk : keyed t) (Hsim : sim t s).

(** The in-memory call succeeds and leaves the matching store. *)
Definition matched {A} (m : Op MemoryStore A) : Prop := ∃ a s', m s = (Ok a, s') ∧ sim t' s'.

Lemma match_StartTurn now sid turn x t1 :
  t_ID turn ≠ "" → agent_sessions t !! sid = Some x → session_of_u8 (rs_Status x) ≠ SessionArchived →
  rs_ActiveTurnID x = "" → created (turnModel (started now sid turn)) t t1 →
  session_written (linked x (t_ID turn) now) (rs_Version x) t1 t' →
  matched (Memory.StartTurn Background now sid turn).
Proof using Hk Hsim.
  intros Hid Hx Harch Hact Hc Hw. unfold matched.
  destruct (sim_session t s Hk Hsim _ _ Hx) as (y & Hy & He & Hyid & Hxid & Hst & Hv & Ha & Hkind).
  pose proof (keyed_created _ _ _ Hk Hc) as Hk1. destruct Hc as (Hnew & _ & now' & ->). simpl in Hnew.
  pose proof (matched_None _ _ _ _ _ (sim_turns _ _ Hsim) Hnew) as Hnone.
  assert (turn_view (defaults now' (turnModel (started now sid turn))) = erase_turn (started now sid turn)) as Hview
    by by apply turn_create_view.
  pose proof (sim_write_turn t s Hsim (t_ID turn) _ _ Hview) as Hsim1. clear Hview.
  destruct (Memory.StartTurn Background now sid turn s) as [r s'] eqn:H. unfold Memory.StartTurn in H.
  revert He Hsim1. memory_run H; try congruence; try (by destruct Heqb2 as [? ?]; congruence).
  intros He Hsim1. eexists _, _. split; [done|].
  eapply (sim_session_written _ t' _ Hk1 Hsim1); [exact Hw|exact Hx|done|done|done|done|apply session_u8_canonical|].
  clear - He. unfold linked, session_view in *. erased.
Qed.

(** A turn's transition, on the two representations of it. *)
Lemma transitioned_erase u now to code msg :
  erase_turn (Memory.transitioned (erase_turn u) now to code msg) = erase_turn (Memory.transitioned u now to code msg).
Proof. unfold Memory.transitioned, erase_turn. destruct u. simpl. by destruct (bool_decide _ && _), (Terminal to). Qed.
Lemma transitioned_erased u v now to code msg :
  erase_turn u = erase_turn v →
  erase_turn (Durable.transitioned u now to code msg) = erase_turn (Memory.transitioned v now to code msg).
Proof.
  intros He. change (Durable.transitioned u now to code msg) with (Memory.transitioned u now to code msg).
  by rewrite <- transitioned_erase, He, transitioned_erase.
Qed.

Lemma match_TransitionTurn now id expected to code msg u :
  turn_moved now id expected to code msg u t t' →
  matched (Memory.TransitionTurn Background now id expected to code msg).
Proof using Hk Hsim.
  intros (r & t1 & Hr & Hrid & Hver & Hval & -> & Hw & Hrel). unfold matched.
  destruct (sim_turn t s Hk Hsim _ _ Hr) as (v & Hv & He & Hvid & _ & Hvs & Hvst & Hvv & _).
  pose proof (transitioned_erased _ _ now to code msg He) as He'.
  set (u := Durable.transitioned (turnFromModel r) now to code msg) in *.
  assert (t_ID u = id ∧ t_AgentSessionID u = rt_AgentSessionID r ∧ t_Status u = to) as (Hu1 & Hu2 & Hu3).
  { subst u. unfold Durable.transitioned. by repeat case_match. }
  destruct (transitioned_same v now to code msg) as (Hm1 & Hm2 & _).
  assert (keyed t1) as Hk1 by (by eapply (keyed_swapped (Row := AgentTurn)); [|exact Hk|exact Hw]).
  assert (sim t1 (s<| turns := <[id := Memory.transitioned v now to code msg]> (turns s) |>)) as Hsim1.
  { eapply (sim_turn_written t t1 s Hk Hsim); [exact Hw|exact Hr|done|done| |done].
    rewrite Hu3. by eapply moved_canonical. }
  unfold Memory.TransitionTurn, Memory.release_session. unfold_memory. unfold_monad. simpl.
  rewrite Hv. cbv beta iota. rewrite bool_decide_eq_false_2 by (rewrite Hvv; tauto). rewrite Hvst, Hval. simpl.
  destruct (Terminal to) eqn:Hter; [|simplify_eq; eexists _, _; split; [done|exact Hsim1]].
  destruct Hrel as (x & Hx & Hxid & Hrel). rewrite Hu2 in Hx.
  destruct (sim_session t1 _ Hk1 Hsim1 _ _ Hx) as (y & Hy & Hye & Hyid & _ & Hyst & Hyv & Hya & _). simpl in Hy.
  rewrite Hm2, Hvs, Hy. simpl. rewrite Hya, Hm1, Hvid, <- Hu1. case_bool_decide as Hact.
  - eexists _, _. split; [done|]. rewrite Hu1, Hyid.
    eapply (sim_session_written t1 t' _ Hk1 Hsim1); [exact Hrel|exact Hx|by rewrite <- Hu2|done..|apply session_u8_canonical|].
    clear - Hye Hyid. unfold unlinked, session_view in *. erased.
  - simplify_eq. rewrite Hu1. eexists _, _. split; [done|exact Hsim1].
Qed.

(** *** Steps *)
Definition step_room (id : string) : Prop :=
  ∀ k r, agent_steps t !! k = Some r → rp_TurnID r = id → (rp_Sequence r + 1 < u32_max)%N.

Lemma sim_step_back k st :
  steps s !! k = Some st → ∃ r, agent_steps t !! k = Some r ∧ rp_TurnID r = st_TurnID st ∧ rp_Sequence r = st_Sequence st.
Proof using Hk Hsim.
  intros Hst. destruct (matched_Some _ _ _ _ _ _ (eq_sym (sim_steps _ _ Hsim)) Hst) as (r & Hr & _). exists r.
  split; [done|]. destruct (sim_step t s Hk Hsim _ _ Hr) as (v & st' & _ & Hst' & _ & _ & ? & ? & _). by simplify_eq.
Qed.

Lemma foldr_max_spec l :
  let n := foldr N.max 0%N l in (∀ x, x ∈ l → (x ≤ n)%N) ∧ (n = 0%N ∨ n ∈ l).
Proof.
  induction l as [|x l [IH1 IH2]]; simpl; [split; [by intros ? ?%elem_of_nil|by left]|]. split.
  - intros y [->|Hy]%elem_of_cons; [lia|]. specialize (IH1 y Hy). lia.
  - destruct (N.max_spec x (foldr N.max 0%N l)) as [[_ ->]|[_ ->]]; [|right; by left].
    destruct IH2 as [->|?]; [by left|right; by right].
Qed.

Lemma next_sequence_matched id : step_room id → next_sequence t id = Memory.nextStepSequence id s.
Proof using Hk Hsim.
  intros Hroom. assert (room s id) as Hroom'.
  { intros k st Hst Htid. destruct (sim_step_back k st Hst) as (r & Hr & Ht & <-). eapply Hroom; [done|congruence]. }
  destruct (nextStepSequence_spec s id Hroom') as (H1 & H2 & H3). set (n := Memory.nextStepSequence id s) in *.
  unfold next_sequence. set (l := _ <$> List.filter _ _). destruct (foldr_max_spec l) as [M1 M2].
  set (m := foldr N.max 0%N l) in *.
  assert (∀ x, x ∈ l ↔ ∃ k r, agent_steps t !! k = Some r ∧ rp_TurnID r = id ∧ rp_Sequence r = x) as Hl.
  { intros x. subst l. rewrite list_elem_of_fmap. setoid_rewrite list_elem_of_In. setoid_rewrite filter_In.
    setoid_rewrite <- list_elem_of_In. setoid_rewrite elem_of_values. setoid_rewrite bool_decide_eq_true. split.
    - intros (r & -> & (k & Hr) & Ht). eauto.
    - intros (k & r & Hr & Ht & <-). eauto 6. }
  assert (m + 1 < u32_max)%N as Hm.
  { destruct M2 as [->|(k & r & Hr & Htid & <-)%Hl]; [done|by eapply Hroom]. }
  unfold u32_add. rewrite N.mod_small by done. apply N.le_antisymm.
  - destruct M2 as [->|(k & r & Hr & Htid & Hseq)%Hl]; [lia|].
    destruct (sim_step t s Hk Hsim _ _ Hr) as (v & st & _ & Hst & _ & _ & Ht & Hq & _).
    specialize (H2 _ _ Hst ltac:(congruence)). lia.
  - destruct H3 as [->|(k & st & Hst & Htid & ->)]; [lia|].
    destruct (sim_step_back k st Hst) as (r & Hr & Ht & Hq).
    specialize (M1 (st_Sequence st) ltac:(apply Hl; exists k, r; split_and!; congruence)). lia.
Qed.

Lemma match_AppendStep now id expected step u r t1 :
  st_ID step ≠ "" → encodable step → step_room id →
  agent_turns t !! id = Some r → rt_Version r = expected → Terminal (turn_of_u8 (rt_Status r)) = false →
  u = stepping r (st_ID step) now → turn_written u expected t t1 →
  created (stepModel (sequenced step id (next_sequence t id) now)) t1 t' →
  matched (Memory.AppendStep Background now id expected step).
Proof using Hk Hsim.
  intros Hid Henc Hroom Hr Hver Hter -> Hw Hc. unfold matched.
  destruct (sim_turn t s Hk Hsim _ _ Hr) as (v & Hv & He & Hvid & Hrid & Hvs & Hvst & Hvv & _).
  rewrite (next_sequence_matched id Hroom) in Hc.
  change (sequenced step id (Memory.nextStepSequence id s) now) with
    (Memory.appended step id (Memory.nextStepSequence id s) now) in Hc.
  set (st := Memory.appended step id (Memory.nextStepSequence id s) now) in *.
  assert (st_ID st = st_ID step ∧ encodable st ∧ st_Version st ≠ 0%N) as (Hst1 & Hst2 & Hst3).
  { subst st. unfold Memory.appended. destruct (bool_decide _); split_and!; done. }
  assert (∃ now', t' = t1<| agent_steps := <[st_ID st := defaults now' (stepModel st)]> (agent_steps t1) |> ∧
    agent_steps t1 !! st_ID st = None) as (now' & -> & Hnew) by (destruct Hc as (? & _ & now' & ->); by exists now').
  assert (agent_steps t1 = agent_steps t) as Hsteps by by destruct Hw as (? & ? & _ & _ & ->).
  assert (steps s !! st_ID st = None) as Hnone.
  { rewrite Hsteps in Hnew. by apply (matched_None _ _ _ _ _ (sim_steps _ _ Hsim)). }
  set (v' := v<| t_ActiveStepID := st_ID st |><| t_Version := u64_add (t_Version v) 1 |><| t_UpdatedAt := now |>).
  assert (sim t1 (s<| turns := <[id := v']> (turns s) |>)) as Hsim1.
  { eapply (sim_turn_written t t1 s Hk Hsim); [exact Hw|exact Hr|done|done|apply turn_u8_canonical|].
    unfold stepping, turn_view in *. erased. }
  assert (Memory.AppendStep Background now id expected step s =
    (Ok (v', st), (s<| turns := <[id := v']> (turns s) |>)<| steps := <[st_ID st := st]> (steps s) |>)) as Hrun.
  { unfold Memory.AppendStep. unfold_memory. unfold_monad. simpl.
    rewrite bool_decide_eq_false_2 by done. rewrite Hv. cbv beta iota.
    rewrite bool_decide_eq_false_2 by (rewrite Hvv; tauto). assert (Terminal (t_Status v) = false) as -> by congruence.
    by rewrite <- Hst1, Hnone, bool_decide_eq_false_2 by (by intros [? ?]). }
  eexists (v', st), _. split; [exact Hrun|]. clear Hrun.
  exact (sim_write_step t1 _ Hsim1 _ _ st (step_create_view now' st Hst2 Hst3)).
Qed.

Lemma step_moved_same v now to output code msg :
  let st := step_moved v now to output code msg in
  st_TurnID st = st_TurnID v ∧ st_Sequence st = st_Sequence v ∧ st_Kind st = st_Kind v ∧ st_ToolID st = st_ToolID v ∧
  st_ToolSnapshotID st = st_ToolSnapshotID v ∧ st_Input st = st_Input v ∧ st_Status st = to.
Proof. unfold step_moved. by repeat case_match. Qed.

Lemma step_moved_errors v now to output code msg :
  erase_step (step_moved v now to output code msg) = erase_step (Memory.moved v now to output).
Proof. unfold step_moved, Memory.moved. destruct v. by destruct (bool_decide _), (step_finished to). Qed.
Lemma moved_erase w now to output :
  erase_step (Memory.moved (erase_step w) now to output) = erase_step (Memory.moved w now to output).
Proof.
  unfold Memory.moved, erase_step. destruct w. simpl. by destruct (bool_decide _), (step_finished to); simpl; rewrite ?or_default_twice.
Qed.
Lemma step_moved_erased v w now to output code msg :
  erase_step v = erase_step w → erase_step (step_moved v now to output code msg) = erase_step (Memory.moved w now to output).
Proof. intros He. by rewrite step_moved_errors, <- moved_erase, He, moved_erase. Qed.
Lemma erase_step_errors st code msg : erase_step (st<| st_ErrorCode := code |><| st_ErrorMessage := msg |>) = erase_step st.
Proof. by destruct st. Qed.

(** The stored step after a transition, as the in-memory store has it. *)
Lemma match_step_written now id to output code msg r v w st :
  agent_steps t !! id = Some r → stepFromModel r = Ok v → validStepTransition (st_Status v) to = true →
  step_written (step_moved v now to output code msg) (st_Version v) t t' → steps s !! id = Some w →
  erase_step st = erase_step (Memory.moved w now to output) → sim t' (s<| steps := <[id := st]> (steps s) |>).
Proof using Hk Hsim.
  intros Hr Hv Hval (r' & now' & Hr' & _ & ->) Hw Hst. rewrite step_moved_ID in *.
  destruct (sim_step t s Hk Hsim _ _ Hr) as (v' & w' & Hv' & Hw' & He & Hid & _).
  assert (v' = v) as -> by congruence. assert (w' = w) as -> by congruence.
  pose proof (erase_step_inv _ _ He) as (Hid' & _). rewrite Hid', Hid in *. simpl in Hr'.
  assert (r' = r) as -> by congruence.
  apply (sim_write_step t s Hsim). destruct (step_moved_same v now to output code msg) as (? & ? & ? & ? & ? & ? & Hto).
  rewrite (step_write_view now' v); try done.
  - by rewrite Hst, (step_moved_erased v w).
  - apply step_moved_ID.
  - rewrite Hto. assert (st_Status v = step_of_u8 (rp_Status r)) as Hs.
    { unfold stepFromModel in Hv. clear - Hv. repeat case_match; by simplify_eq/=. }
    rewrite Hs in Hval. by eapply step_moved_canonical.
Qed.

Lemma match_transitionStep now id to output code msg r v :
  agent_steps t !! id = Some r → stepFromModel r = Ok v → validStepTransition (st_Status v) to = true →
  step_written (step_moved v now to output code msg) (st_Version v) t t' →
  matched (Memory.transitionStep Background now id to output).
Proof using Hk Hsim.
  intros Hr Hv Hval Hw. destruct (sim_step t s Hk Hsim _ _ Hr) as (v' & w & Hv' & Hst & _ & _ & _ & _ & Hs & _).
  assert (v' = v) as -> by congruence. rewrite <- Hs in Hval.
  eexists (Memory.moved w now to output), (s<| steps := <[id := Memory.moved w now to output]> (steps s) |>). split.
  - unfold Memory.transitionStep. unfold_memory. unfold_monad. simpl. rewrite Hst. cbv beta iota. by rewrite Hval.
  - rewrite Hs in Hval. by eapply match_step_written.
Qed.
Lemma match_finishStep now id to code msg r v :
  agent_steps t !! id = Some r → stepFromModel r = Ok v → validStepTransition (st_Status v) to = true →
  step_written (step_moved v now to "" code msg) (st_Version v) t t' →
  matched (Memory.finishStep Background now id to code msg).
Proof using Hk Hsim.
  intros Hr Hv Hval Hw. destruct (sim_step t s Hk Hsim _ _ Hr) as (v' & w & Hv' & Hst & _ & _ & _ & _ & Hs & _).
  assert (v' = v) as -> by congruence. rewrite <- Hs in Hval.
  set (st := (Memory.moved w now to "")<| st_ErrorCode := code |><| st_ErrorMessage := msg |>).
  eexists st, (s<| steps := <[id := st]> (steps s) |>). split.
  - unfold Memory.finishStep, Memory.transitionStep. unfold_memory. unfold_monad. simpl. rewrite Hst. cbv beta iota.
    rewrite Hval. simpl. by rewrite lookup_insert_eq, insert_insert_eq.
  - rewrite Hs in Hval. eapply match_step_written; [done..|apply erase_step_errors].
Qed.

(** *** Sessions and attachments *)
Lemma match_CreateSession now x :
  validateSession x = None → created (sessionModel (new_session now x)) t t' →
  matched (Memory.CreateSession Background now x).
Proof using Hsim.
  unfold matched. intros Hv (Hnew & _ & now' & ->). simpl in Hnew.
  pose proof (matched_None _ _ _ _ _ (sim_sessions _ _ Hsim) Hnew) as Hnone.
  pose proof (validateSession_None _ Hv) as (_ & _ & _ & _ & _ & Hst).
  eexists tt, (s<| sessions := <[s_ID x := new_session now x]> (sessions s) |>). split.
  - unfold Memory.CreateSession. unfold_memory. unfold_monad. simpl. rewrite Hv, Hnone.
    by rewrite bool_decide_eq_false_2 by (by intros [? ?]).
  - apply (sim_write_session t s Hsim). apply session_create_view; [done|]. simpl. by destruct Hst as [->| ->].
Qed.

Lemma match_ArchiveSession now id expected x :
  agent_sessions t !! id = Some x → rs_Version x = expected → rs_ActiveTurnID x = "" →
  session_written ((sessionFromModel x)<| s_Status := SessionArchived |><| s_Version := u64_add expected 1 |>
    <| s_UpdatedAt := now |>) expected t t' →
  matched (Memory.ArchiveSession Background now id expected).
Proof using Hk Hsim.
  intros Hx Hver Hact Hw. destruct (sim_session t s Hk Hsim _ _ Hx) as (y & Hy & He & Hyid & Hxid & _ & Hyv & Hya & _).
  set (y' := y<| s_Status := SessionArchived |><| s_Version := u64_add (s_Version y) 1 |><| s_UpdatedAt := now |>).
  eexists y', (s<| sessions := <[id := y']> (sessions s) |>). split.
  - unfold Memory.ArchiveSession. unfold_memory. unfold_monad. simpl. rewrite Hy. cbv beta iota.
    rewrite !bool_decide_eq_false_2; [done|rewrite Hya; tauto|rewrite Hyv; tauto].
  - eapply (sim_session_written t t' s Hk Hsim); [exact Hw|exact Hx|done..|]. subst y' expected.
    clear - He. unfold session_view in *. erased.
Qed.

Lemma match_SetActiveAttachment now id aid expected x :
  agent_sessions t !! id = Some x → rs_Version x = expected → (rs_Kind x = SessionManagement → aid = "") →
  session_of_u8 (rs_Status x) ≠ SessionArchived →
  (aid = "" ∨ ∃ r, agent_attachments t !! aid = Some r ∧ ra_AgentSessionID r = id ∧
    attachment_of_u8 (ra_State r) ≠ AttachmentRemoved) →
  session_written ((sessionFromModel x)<| s_ActiveAttachmentID := aid |><| s_Version := u64_add expected 1 |>
    <| s_UpdatedAt := now |>) expected t t' →
  matched (Memory.SetActiveAttachment Background now id aid expected).
Proof using Hk Hsim.
  intros Hx Hver Hm Har Haid Hw.
  destruct (sim_session t s Hk Hsim _ _ Hx) as (y & Hy & He & Hyid & Hxid & Hyst & Hyv & Hya & Hyk).
  set (y' := y<| s_ActiveAttachmentID := aid |><| s_Version := u64_add (s_Version y) 1 |><| s_UpdatedAt := now |>).
  assert (bool_decide (s_Kind y = SessionManagement) && bool_decide (aid ≠ "") = false) as Hb1.
  { apply andb_false_iff. rewrite !bool_decide_eq_false. destruct (decide (aid = EmptyString)); [right; tauto|left; tauto]. }
  assert (bool_decide (aid ≠ "") && match attachments s !! aid with
    | None => true
    | Some a => bool_decide (a_AgentSessionID a ≠ id) || bool_decide (a_State a = AttachmentRemoved)
    end = false) as Hb2.
  { destruct Haid as [->|(r & Hr & Hid & Hrem)]; [done|]. apply andb_false_iff. right.
    destruct (matched_Some _ _ _ _ _ _ (sim_attachments _ _ Hsim) Hr) as (a & Ha & Hview). rewrite Ha.
    unfold attachment_view in Hview. destruct (attachmentFromModel r) as [v|] eqn:Hv; [|done].
    apply (inj Some) in Hview. apply erase_attachment_inv in Hview as (_ & Hs & _ & _ & _ & _ & Hst).
    unfold attachmentFromModel in Hv. destruct (unmarshal_capabilities (ra_Capabilities r)); [|done].
    destruct (validateAttachment _) in Hv; [done|]. simplify_eq. simpl in *. rewrite <- Hs, <- Hst.
    by rewrite !bool_decide_eq_false_2 by tauto. }
  eexists y', (s<| sessions := <[id := y']> (sessions s) |>). split.
  - unfold Memory.SetActiveAttachment. unfold_memory. unfold_monad. simpl. rewrite Hy. cbv beta iota.
    rewrite bool_decide_eq_false_2 by (rewrite Hyv; tauto). rewrite Hb1.
    rewrite bool_decide_eq_false_2 by congruence. by rewrite Hb2.
  - eapply (sim_session_written t t' s Hk Hsim); [exact Hw|exact Hx|done..|apply session_u8_canonical|]. subst y' expected.
    clear - He. unfold session_view in *. erased.
Qed.

Context {i_codec_laws : ColumnCodecLaws}.

Lemma generation_one_ok a : validateAttachment a = None →
  validateAttachment (generation_one a) = None ∧ a_Generation (generation_one a) ≠ 0%N.
Proof. unfold generation_one. intros H. by case_bool_decide. Qed.

(** An attachment created in both. *)
Lemma sim_attachment_created a :
  validateAttachment a = None → a_Generation a ≠ 0%N → attachment_created a t t' →
  attachments s !! a_ID a = None ∧ sim t' (s<| attachments := <[a_ID a := a]> (attachments s) |>).
Proof using Hsim i_codec_laws.
  intros Hv Hg (r & Hr & Hnew & _ & now & Ht). assert (ra_ID r = a_ID a) as Hid.
  { unfold attachmentModel in Hr. clear - Hr. case_match; by simplify_eq. }
  change (key r) with (ra_ID r) in Hnew, Ht. rewrite Hid in Hnew, Ht. split; [by apply (matched_None _ _ _ _ _ (sim_attachments _ _ Hsim))|].
  rewrite Ht. apply (sim_write_attachment t s Hsim). by apply attachment_create_view.
Qed.

Lemma match_CreateAttachment now a x :
  validateAttachment a = None → agent_sessions t !! a_AgentSessionID a = Some x → rs_Kind x ≠ SessionManagement →
  session_of_u8 (rs_Status x) ≠ SessionArchived →
  attachment_created ((generation_one a)<| a_CreatedAt := now |><| a_UpdatedAt := now |>) t t' →
  matched (Memory.CreateAttachment Background now a).
Proof using Hk Hsim i_codec_laws.
  intros Hv Hx Hm Har Hc. destruct (sim_session t s Hk Hsim _ _ Hx) as (y & Hy & _ & _ & _ & Hyst & _ & _ & Hyk).
  destruct (generation_one_ok a Hv) as [Hv1 Hg1].
  set (b := (generation_one a)<| a_CreatedAt := now |><| a_UpdatedAt := now |>) in *.
  destruct (sim_attachment_created b Hv1 Hg1 Hc) as [Hnone Hs'].
  assert (a_ID b = a_ID a) as Hid by exact (default_generation_id a).
  eexists b, _. split; [|exact Hs'].
  unfold Memory.CreateAttachment. unfold_memory. unfold_monad. simpl. rewrite Hv, Hy. cbv beta iota.
  rewrite bool_decide_eq_false_2 by tauto. rewrite bool_decide_eq_false_2 by congruence.
  rewrite Hid in Hnone. rewrite Hnone. by rewrite bool_decide_eq_false_2 by (by intros [? ?]).
Qed.

Lemma match_UpdateAttachment now a expected r v w b :
  validateAttachment a = None → agent_attachments t !! a_ID a = Some r → attachmentFromModel r = Ok v →
  a_Generation v = expected → a_AgentSessionID v = a_AgentSessionID a → a_AccessID v = a_AccessID a →
  a_ApplicationID v = a_ApplicationID a → a_Protocol v = a_Protocol a → a_State v ≠ AttachmentRemoved →
  b = a<| a_Generation := u64_add expected 1 |><| a_CreatedAt := a_CreatedAt v |><| a_UpdatedAt := now |> →
  attachmentModel b = Ok w →
  swapped (a_ID a) (λ r, bool_decide (ra_Generation r = expected)) (Dao.attachment_columns w) t t' →
  matched (Memory.UpdateAttachment Background now a expected).
Proof using Hk Hsim i_codec_laws.
  intros Hv Hr Hvr Hg H1 H2 H3 H4 Hrem -> Hw (r' & now' & Hr' & _ & Ht). simpl in Hr'.
  assert (r' = r) as -> by congruence.
  destruct (sim_attachment t s Hk Hsim _ _ _ Hr Hvr) as (c & Hc & He & Hcid & C1 & C2 & C3 & C4 & Cg & Cst).
  pose proof (erase_attachment_inv _ _ He) as (Hid & _).
  set (c' := a<| a_Generation := u64_add expected 1 |><| a_CreatedAt := a_CreatedAt c |><| a_UpdatedAt := now |>).
  eexists c', (s<| attachments := <[a_ID a := c']> (attachments s) |>). split.
  - unfold Memory.UpdateAttachment, Memory.same_binding. unfold_memory. unfold_monad. simpl. rewrite Hv, Hc. cbv beta iota.
    rewrite bool_decide_eq_false_2 by (rewrite Cg; tauto). rewrite !bool_decide_eq_true_2 by congruence. simpl.
    by rewrite bool_decide_eq_false_2 by congruence.
  - rewrite Ht. apply (sim_write_attachment t s Hsim).
    rewrite (attachment_write_view now' _ w r v Hw); simpl; try done; try congruence.
Qed.

(** *** Messages and snapshots *)
Lemma match_AppendMessage now m r :
  m_ID m ≠ "" → m_AgentSessionID m ≠ "" → m_TurnID m ≠ "" → created r t t' → rg_ID r = m_ID m →
  rg_AgentSessionID r = m_AgentSessionID m → rg_TurnID r = m_TurnID m → rg_Role r = mm_Role (m_Value m) →
  matched (Memory.AppendMessage Background now m).
Proof using Hsim.
  unfold matched. intros H1 H2 H3 (Hnew & _ & now' & ->) Hid Hs Ht Hrole. simpl in Hnew. rewrite Hid in Hnew.
  set (stored := default [] (messages s !! m_TurnID m)).
  set (m' := m<| m_Sequence := (N.of_nat (length stored + 1) `mod` u32_max)%N |><| m_CreatedAt := now |>).
  assert (existsb (λ x, bool_decide (m_ID x = m_ID m)) stored = false) as Hdup.
  { apply not_true_iff_false. rewrite existsb_exists. intros (x & Hx%list_elem_of_In & Hb). bools.
    destruct (sim_messages _ _ Hsim _ _ Hx) as (r' & Hr' & _). congruence. }
  eexists m', (s<| messages := <[m_TurnID m := stored ++ [m']]> (messages s) |>). split.
  - unfold Memory.AppendMessage. unfold_monad. simpl. rewrite !bool_decide_eq_false_2 by done. simpl.
    fold stored. by rewrite Hdup.
  - destruct Hsim. split; try done. simpl. intros tid x Hx. rewrite Hid.
    assert (x ∈ default [] (messages s !! tid) ∨ tid = m_TurnID m ∧ x = m') as [Hold|[-> ->]].
    { destruct (decide (m_TurnID m = tid)) as [<-|Hne].
      - rewrite lookup_insert_eq in Hx. simpl in Hx. apply elem_of_app in Hx as [Hx|Hx]; [by left|right].
        by apply list_elem_of_singleton in Hx.
      - left. by rewrite lookup_insert_ne in Hx. }
    + destruct (sim_messages0 _ _ Hold) as (r' & Hr' & ?). exists r'.
      by rewrite lookup_insert_ne by congruence.
    + eexists. by rewrite lookup_insert_eq.
Qed.

Lemma match_SaveToolSnapshot now tid sid ss r :
  tid ≠ "" → sid ≠ "" → ss_ID ss ≠ "" → created r t t' → rn_ID r = ss_ID ss →
  matched (Memory.SaveToolSnapshot Background now tid sid ss).
Proof using Hsim.
  unfold matched. intros H1 H2 H3 (Hnew & _ & now' & ->) Hid. simpl in Hnew. rewrite Hid in Hnew.
  eexists tt, (s<| snapshots := <[ss_ID ss := ss]> (snapshots s) |>). split.
  - unfold Memory.SaveToolSnapshot. unfold_memory. unfold_monad. simpl. rewrite !bool_decide_eq_false_2 by done. simpl.
    rewrite bool_decide_eq_false_2; [done|]. intros Hd%(sim_snapshots _ _ Hsim). rewrite Hnew in Hd. by destruct Hd.
  - destruct Hsim. split; try done. simpl. rewrite Hid. intros k [<-|[Hne Hk']]%lookup_insert_is_Some.
    + rewrite lookup_insert_eq. eauto.
    + rewrite lookup_insert_ne by done. auto.
Qed.
End Calls.

Lemma match_CreateSessionWithAttachment {i_codec : ColumnCodec} {i_laws : ColumnCodecLaws} t t1 t' s now x a b :
  keyed t → sim t s → s_Kind x ≠ SessionManagement → validateSession x = None → a_AgentSessionID a = s_ID x →
  validateAttachment a = None → b = generation_one (a<| a_CreatedAt := now |><| a_UpdatedAt := now |>) →
  created (sessionModel ((new_session now x)<| s_ActiveAttachmentID := a_ID b |>)) t t1 → attachment_created b t1 t' →
  matched t' s (Memory.CreateSessionWithAttachment Background now x a).
Proof.
  intros Hk Hsim Hm Hvx Hs Hva Hb (Hnew & _ & now' & ->) Hc. simpl in Hnew.
  pose proof (matched_None _ _ _ _ _ (sim_sessions _ _ Hsim) Hnew) as Hnone.
  pose proof (validateSession_None _ Hvx) as (_ & _ & _ & _ & _ & Hst).
  set (y := (new_session now x)<| s_ActiveAttachmentID := a_ID b |>) in *.
  assert (session_view (defaults now' (sessionModel y)) = erase_session y) as Hview.
  { apply session_create_view; [done|]. simpl. by destruct Hst as [->| ->]. }
  pose proof (sim_write_session t s Hsim (s_ID x) _ _ Hview) as Hsim1.
  destruct (generation_one_ok (a<| a_CreatedAt := now |><| a_UpdatedAt := now |>)) as [Hvb Hg];
    [by rewrite (validateAttachment_columns a)|]. rewrite <- Hb in Hvb, Hg.
  destruct (sim_attachment_created _ t' _ Hsim1 b Hvb Hg Hc) as [Hanone Hs']. simpl in Hanone.
  assert (a_ID b = a_ID a) as Hid by (rewrite Hb; exact (default_generation_id _)).
  eexists (y, b), _. split; [|exact Hs'].
  unfold Memory.CreateSessionWithAttachment. unfold_memory. unfold_monad. simpl.
  rewrite bool_decide_eq_false_2 by done. rewrite Hvx. rewrite bool_decide_eq_false_2 by tauto. rewrite Hva, Hnone.
  rewrite bool_decide_eq_false_2 by (by intros [? ?]). rewrite Hid in Hanone. rewrite Hanone.
  rewrite bool_decide_eq_false_2 by (by intros [? ?]). subst y b. done.
Qed.

(** ** The simulation *)
Section Refinement.
Context {DB : Type} {i_gorm : Gorm DB} {i_laws : GormLaws DB} {i_codec : ColumnCodec} {i_codec_laws : ColumnCodecLaws}.
#[local] Existing Instance durable_store.

(** What the callers of the store guarantee, as for the in-memory store; and
    a new step is one its row can hold. *)
Definition durable_admissible (t : Tables) (m : mutation) : Prop :=
  match m with
  | OCreateSession _ x | OCreateSessionWithAttachment _ x _ => s_ActiveTurnID x = ""
  | OAppendStep _ id _ st => encodable st ∧ step_room t id
  | _ => True
  end.

Lemma does_exec_inv {A} (m : Op DB A) Q s s' :
  (m ;; ret tt) s = (Ok tt, s') → does m (tables s) Q → ∃ a, Q a (tables s').
Proof.
  unfold bind, ret. destruct (m s) as [[a|e] s1] eqn:Hm; [|done]. intros [= <-] Hd.
  destruct (Hd _ _ _ eq_refl Hm) as [_ HQ]. eauto.
Qed.

Lemma matched_exec {A} t' s (m : Op MemoryStore A) :
  matched t' s m → ∃ s', (m ;; ret tt) s = (Ok tt, s') ∧ sim t' s'.
Proof. intros (a & s' & H & Hs). exists s'. split; [|done]. unfold bind, ret. by rewrite H. Qed.

Lemma exec_simulated c m s s' ms :
  sim (tables s) ms → durable_admissible (tables s) m → exec c m s = (Ok tt, s') →
  ∃ ms', exec Background m ms = (Ok tt, ms') ∧ sim (tables s') ms'.
Proof.
  intros Hsim Ha H. pose proof (tables_keyed s) as Hk.
  destruct m; simpl in H, Ha |- *; try apply matched_exec.
  - destruct (does_CreateSession c now x (tables s) _ _ _ eq_refl H) as [_ HQ].
    destruct (HQ tt eq_refl) as [Hv Hc]. destruct (match_CreateSession _ _ _ Hsim _ _ Hv Hc) as ([] & ms' & Hm & Hs). eauto.
  - destruct (does_exec_inv _ _ _ _ H (does_CreateSessionWithAttachment _ _ _ _ _)) as [[y b] (? & ? & ? & ? & ? & -> & t1 & ? & ?)]. by eapply match_CreateSessionWithAttachment.
  - destruct (does_exec_inv _ _ _ _ H (does_ArchiveSession _ _ _ _ _)) as [y (x & ? & ? & ? & ? & -> & ?)].
    by eapply match_ArchiveSession.
  - destruct (does_exec_inv _ _ _ _ H (does_CreateAttachment _ _ _ _)) as [b (? & -> & x & ? & ? & ? & ?)].
    by eapply match_CreateAttachment.
  - destruct (does_exec_inv _ _ _ _ H (does_UpdateAttachment _ _ _ _ _)) as [b (? & r & v & w & ? & ? & ? & ? & ? & ? & ? & ? & ? & ? & ?)]. by eapply match_UpdateAttachment.
  - destruct (does_exec_inv _ _ _ _ H (does_SetActiveAttachment _ _ _ _ _ _)) as [y (x & ? & ? & ? & ? & ? & ? & -> & ?)].
    by eapply match_SetActiveAttachment.
  - destruct (does_exec_inv _ _ _ _ H (does_StartTurn _ _ _ _ _)) as [[y u] (? & -> & x & t1 & ? & ? & ? & ? & ? & ?)].
    by eapply match_StartTurn.
  - destruct (does_exec_inv _ _ _ _ H (does_TransitionTurn _ _ _ _ _ _ _ _)) as [u ?]. by eapply match_TransitionTurn.
  - destruct Ha as [Henc Hroom].
    destruct (does_exec_inv _ _ _ _ H (does_AppendStep _ _ _ _ _ _)) as [[u st'] (? & r & t1 & ? & ? & ? & ? & -> & -> & ? & ?)].
    assert (st_ID (sequenced st id (next_sequence (tables s) id) now) = st_ID st) as Hid
      by exact (proj1 (appended_same st id (next_sequence (tables s) id) now)).
    rewrite Hid in *. by eapply match_AppendStep.
  - destruct (does_exec_inv _ _ _ _ H (does_transitionStep _ _ _ _ _ _ _ _)) as [st' (r & v & ? & ? & ? & ? & -> & ?)].
    by eapply match_transitionStep.
  - destruct (does_exec_inv _ _ _ _ H (does_transitionStep _ _ _ _ _ _ _ _)) as [st' (r & v & ? & ? & ? & ? & -> & ?)].
    by eapply match_transitionStep.
  - destruct (does_exec_inv _ _ _ _ H (does_transitionStep _ _ _ _ _ _ _ _)) as [st' (r & v & ? & ? & ? & ? & -> & ?)].
    by eapply match_transitionStep.
  - destruct (does_exec_inv _ _ _ _ H (does_transitionStep _ _ _ _ _ _ _ _)) as [st' (r & v & ? & ? & ? & ? & -> & ?)].
    by eapply match_finishStep.
  - destruct (does_exec_inv _ _ _ _ H (does_transitionStep _ _ _ _ _ _ _ _)) as [st' (r & v & ? & ? & ? & ? & -> & ?)].
    by eapply match_finishStep.
  - destruct (does_exec_inv _ _ _ _ H (does_AppendMessage _ _ _ _)) as [m' (? & ? & ? & r & ? & ? & ? & ? & ?)].
    by eapply match_AppendMessage.
  - destruct (does_SaveToolSnapshot c now tid sid ss (tables s) _ _ _ eq_refl H) as [_ HQ].
    destruct (HQ tt eq_refl) as (? & ? & ? & r & ? & ?).
    destruct (match_SaveToolSnapshot (tables s) (tables s') ms Hsim now tid sid ss r) as ([] & ms' & Hm & Hs); eauto.
Qed.
End Refinement.
