(* ===== verification/TableDatabase.v ===== *)
(** * A database that keeps its promises

    Rows in maps, transactions as a stack of saved tables: the laws of
    [AgentDao] ([GormLaws], [GormReliable]) can hold together.  Also a codec
    for the text columns that reads back what it wrote. *)

From S2P Require Import Prelude ToolTypes AgentTypes AgentDao DurableStore DurableRefinement.

Record TableDB := mkTableDB {
  db_now : Time;
  db_tables : Tables;
  db_saved : list Tables;
  db_keyed : keyed db_tables ∧ Forall keyed db_saved
}.

Lemma keyed_empty : keyed (mkTables ∅ ∅ ∅ ∅ ∅ ∅ ∅).
Proof. split; intros k r; simpl; by rewrite lookup_empty. Qed.
Definition empty_db (now : Time) : TableDB :=
  mkTableDB now (mkTables ∅ ∅ ∅ ∅ ∅ ∅ ∅) [] (conj keyed_empty (Forall_nil_2 keyed)).

Section Database.
Context {Row : Type} {i_table : Table Row}.

Definition with_tables (s : TableDB) (t : Tables) (Ht : keyed t) : TableDB :=
  mkTableDB (db_now s) t (db_saved s) (conj Ht (proj2 (db_keyed s))).

Lemma keyed_insert t (r r' : Row) :
  keyed t → key r' = key r → keyed (set_rows (<[key r := r']> (get_rows t)) t).
Proof.
  intros Ht Hr. apply set_keyed; [done|]. intros i x Hi.
  apply lookup_insert_Some in Hi as [[<- <-]|[_ Hi]]; [done|]. by apply (get_keyed (Row := Row) _ Ht).
Qed.
Lemma keyed_fmap t (f : Row → Row) : keyed t → (∀ r, key (f r) = key r) → keyed (set_rows (f <$> get_rows t) t).
Proof.
  intros Ht Hf. apply set_keyed; [done|]. intros i x Hi. apply lookup_fmap_Some in Hi as (y & <- & Hy).
  rewrite Hf. by apply (get_keyed (Row := Row) _ Ht).
Qed.

Definition taken (r : Row) (t : Tables) : bool :=
  bool_decide (is_Some (get_rows t !! key r)) || existsb (λ r', clash r r') (map_to_list (get_rows t)).*2.

(** A call with a cancelled context fails. *)
Definition guard_ctx {A} (c : ctx) (m : Op TableDB A) : Op TableDB A := λ s,
  match ctx_err c with Some e => (Err (ENew (Error e)), s) | None => m s end.

Definition db_Create (c : ctx) (r : Row) : Op TableDB unit := guard_ctx c (λ s,
  if taken r (db_tables s) then (Err (ENew "UNIQUE constraint failed"), s)
  else (Ok tt, with_tables s _ (keyed_insert (db_tables s) r (defaults (db_now s) r) (proj1 (db_keyed s)) (key_defaults _ r)))).
Definition db_First (c : ctx) (id : string) : Op TableDB Row := guard_ctx c (λ s,
  (match get_rows (db_tables s) !! id with Some r => Ok r | None => Err ErrRecordNotFound end, s)).
(** The rows in no particular order when [less] does not order them. *)
Definition db_Find (c : ctx) (p : Tables → Row → bool) (less : Row → Row → bool) : Op TableDB (list Row) := guard_ctx c (λ s,
  let l := sort_Slice less (List.filter (p (db_tables s)) (map_to_list (get_rows (db_tables s))).*2) in
  if decide (StronglySorted (λ a b, less b a = false) l) then (Ok l, s) else (Err (ENew "no such order"), s)).
Definition assigned (p : Row → bool) (assign : Row → Row) (now : Time) (r : Row) : Row :=
  if p r then (if bool_decide (key (assign r) = key r) then stamp now (assign r) else r) else r.
Lemma assigned_key p assign now r : key (assigned p assign now r) = key r.
Proof. unfold assigned. destruct (p r); [|done]. case_bool_decide; [|done]. by rewrite key_stamp. Qed.
Definition db_Updates (c : ctx) (p : Row → bool) (assign : Row → Row) : Op TableDB N := guard_ctx c (λ s,
  (Ok (N.of_nat (length (List.filter p (map_to_list (get_rows (db_tables s))).*2))),
   with_tables s _ (keyed_fmap (db_tables s) (assigned p assign (db_now s)) (proj1 (db_keyed s)) (assigned_key p assign _)))).
Definition db_Max (c : ctx) (p : Row → bool) (column : Row → N) : Op TableDB N := guard_ctx c (λ s,
  (Ok (foldr N.max 0%N (column <$> List.filter p (map_to_list (get_rows (db_tables s))).*2)), s)).
End Database.

Definition db_Begin (s : TableDB) : TableDB :=
  mkTableDB (db_now s) (db_tables s) (db_tables s :: db_saved s)
    (conj (proj1 (db_keyed s)) (Forall_cons_2 _ _ _ (proj1 (db_keyed s)) (proj2 (db_keyed s)))).
Lemma saved_keyed s t ts : db_saved s = t :: ts → keyed t ∧ Forall keyed ts.
Proof. intros H. pose proof (proj2 (db_keyed s)) as Hf. rewrite H in Hf. by apply Forall_cons in Hf. Qed.
Definition db_end (commit : bool) (s : TableDB) : TableDB :=
  match db_saved s as l return db_saved s = l → TableDB with
  | [] => λ _, s
  | t :: ts => λ H,
      if commit then mkTableDB (db_now s) (db_tables s) ts (conj (proj1 (db_keyed s)) (proj2 (saved_keyed s t ts H)))
      else mkTableDB (db_now s) t ts (saved_keyed s t ts H)
  end eq_refl.

#[export] Instance table_gorm : Gorm TableDB := {|
  Create := @db_Create; First := @db_First; Find := @db_Find; Updates := @db_Updates; Max := @db_Max;
  Begin := db_Begin; Commit := λ s, (Ok tt, db_end true s); Rollback := db_end false
|}.

Lemma db_end_spec b s t ts :
  db_saved s = t :: ts →
  db_saved (db_end b s) = ts ∧ db_tables (db_end b s) = if b then db_tables s else t.
Proof.
  destruct s as [now tb sv Hk]. simpl. intros ->. unfold db_end. simpl. by destruct b.
Qed.

Lemma existsb_false {A} (f : A → bool) l : existsb f l = false → ∀ x, x ∈ l → f x = false.
Proof.
  intros H x Hx. apply not_true_iff_false. intros Hf. apply not_true_iff_false in H. apply H, existsb_exists.
  exists x. split; [by apply list_elem_of_In|done].
Qed.

#[export] Instance table_laws : GormLaws TableDB.
Proof.
  refine {| tables := db_tables; saved := db_saved; tables_keyed s := proj1 (db_keyed s) |}.
  - intros Row HT c r s x s' H. simpl in H. unfold db_Create, guard_ctx in H. destruct (ctx_err c); [by simplify_eq|].
    destruct (taken r (db_tables s)) eqn:Ht; simplify_eq; [done|]. split; [done|].
    unfold taken in Ht. apply orb_false_iff in Ht as [Hn Hc]. bools. split_and!.
    + by apply eq_None_not_Some.
    + intros k r' Hr'. apply (existsb_false _ _ Hc). apply list_elem_of_fmap. exists (k, r'). split; [done|].
      by apply elem_of_map_to_list.
    + eexists. reflexivity.
  - intros Row HT c id s x s' H. simpl in H. unfold db_First, guard_ctx in H. destruct (ctx_err c); simplify_eq; [done|].
    split_and!; try done. by destruct (get_rows (db_tables s') !! id) as [r|] eqn:Hr.
  - intros Row HT c p less s x s' H. simpl in H. unfold db_Find, guard_ctx in H. destruct (ctx_err c); [by simplify_eq|].
    destruct (decide _) as [Hs|]; simplify_eq; [|done]. split_and!; try done. apply sort_Slice_perm.
  - intros Row HT c p assign s x s' Ha H. simpl in H. unfold db_Updates, guard_ctx in H.
    destruct (ctx_err c); simplify_eq; [done|]. split; [done|]. split; [done|]. exists (db_now s). simpl. f_equal.
    apply map_fmap_ext. intros i r _. unfold assigned. destruct (p r); [|done]. by rewrite bool_decide_eq_true_2.
  - intros Row HT c p column s x s' H. simpl in H. unfold db_Max, guard_ctx in H. by destruct (ctx_err c); simplify_eq.
  - done.
  - intros t ts s x s' Hs H. simpl in H. simplify_eq. destruct (db_end_spec true s t ts Hs). by split.
  - intros t ts s Hs. destruct (db_end_spec false s t ts Hs). by split.
Defined.

#[export] Instance table_reliable : GormReliable TableDB.
Proof.
  split.
  - intros Row HT c id s r [Hc _] Hr. simpl. unfold db_First, guard_ctx. rewrite Hc. simpl in *. by rewrite Hr.
  - intros Row HT c p assign s [Hc _]. simpl. unfold db_Updates, guard_ctx. by rewrite Hc.
  - done.
Qed.

(** Capabilities as one line each; of the other columns nothing is kept. *)
Definition line_break : ascii := ascii_of_nat 10.
Fixpoint join_lines (l : list string) : string :=
  match l with [] => "" | x :: rest => x +:+ String line_break (join_lines rest) end.
Definition split_lines (s : string) : list string := removelast (Split s line_break).
Definition lines_codec : ColumnCodec := {|
  marshal_capabilities := λ l,
    if bool_decide (l = []) || existsb (contains_char line_break) l then Err (ENew "unsupported capability") else Ok (join_lines l);
  unmarshal_capabilities := λ s, Ok (split_lines s);
  marshal_message := λ _, Ok "{}"; unmarshal_message := λ _, Ok (mkModelMessage [] RoleUser "" [] "" "");
  marshal_generations := λ _, Ok "{}"; unmarshal_generations := λ _, Err (ENew "unsupported");
  marshal_tools := λ _, Ok "[]"; unmarshal_tools := λ _, Err (ENew "unsupported")
|}.

Lemma split_join_lines l : existsb (contains_char line_break) l = false → split_lines (join_lines l) = l.
Proof.
  unfold split_lines. induction l as [|x l IH]; [done|]. cbn [existsb join_lines]. intros [Hx Hl]%orb_false_iff.
  rewrite Split_app by done. specialize (IH Hl). pose proof (Split_nonempty (join_lines l) line_break) as Hne.
  destruct (Split (join_lines l) line_break) as [|y ys]; [done|]. change (removelast (x :: y :: ys)) with (x :: removelast (y :: ys)).
  by rewrite IH.
Qed.
#[export] Instance lines_codec_laws : @ColumnCodecLaws lines_codec.
Proof.
  split. intros l text. simpl. destruct (bool_decide (l = [])) eqn:Hl; [done|]. simpl.
  destruct (existsb (contains_char line_break) l) eqn:He; [done|]. intros [= <-]. rewrite split_join_lines by done. split; [|done].
  bools. destruct l as [|x l]; [done|]. destruct x; done.
Qed.
