(* ===== verification/DurableTheorems.v ===== *)
(** * The durable store: what it promises

    Sequences of calls on a database: failed calls change nothing, the calls
    that succeed are those of an in-memory store ([DurableRefinement]), and so
    a session has one open turn and a finished turn stays finished. *)

From S2P Require Import Prelude ToolTypes AgentTypes AgentDao DurableStore DurableLaws MemoryStore MemoryInvariant MemoryHistory.
From S2P Require Import DurableRefinement TableDatabase.

Section Histories.
Context {DB : Type} {i_gorm : Gorm DB} {i_laws : GormLaws DB} {i_codec : ColumnCodec} {i_codec_laws : ColumnCodecLaws}.
#[local] Existing Instance durable_store.

(** A call of the store, whatever becomes of it, or a write to the approvals. *)
Definition durable_step (s s' : DB) : Prop :=
  (∃ c m r, durable_admissible (tables s) m ∧ exec c m s = (r, s')) ∨
  (∃ rows, tables s' = (tables s)<| agent_approvals := rows |>).

Lemma sim_room t ms id : keyed t → sim t ms → step_room t id → room ms id.
Proof.
  intros Hk Hsim Hroom k st Hst Htid. destruct (sim_step_back t ms Hk Hsim k st Hst) as (r & Hr & Ht & <-).
  eapply Hroom; [done|congruence].
Qed.

Lemma admissible_matched t ms m : keyed t → sim t ms → durable_admissible t m → admissible ms m.
Proof. intros Hk Hsim. destruct m; simpl; try done. intros [_ ?]. by eapply sim_room. Qed.

Lemma step_simulated s s' ms :
  sim (tables s) ms → durable_step s s' → ∃ n ms', history ms n ms' ∧ sim (tables s') ms'.
Proof.
  intros Hsim [(c & m & r & Ha & H)|(rows & Ht)].
  - destruct r as [[]|e].
    + destruct (exec_simulated c m s s' ms Hsim Ha H) as (ms' & Hm & Hs'). exists 1, ms'. split; [|done].
      eapply history_snoc; [constructor| |exact Hm]. eapply admissible_matched; [apply tables_keyed|done|done].
    + apply atomic_exec in H as [_ Ht]. exists 0, ms. rewrite Ht. split; [constructor|done].
  - exists 0, ms. split; [constructor|]. rewrite Ht. destruct Hsim. by split.
Qed.

Lemma history_app s n s1 m s2 : history s n s1 → history s1 m s2 → history s (m + n) s2.
Proof. intros H1 H2. induction H2; [done|]. simpl. by econstructor; [apply IHhistory| |]. Qed.

Lemma steps_simulated s s' ms :
  rtc durable_step s s' → sim (tables s) ms → ∃ n ms', history ms n ms' ∧ sim (tables s') ms'.
Proof.
  intros H. revert ms. induction H as [s|s s1 s2 H1 _ IH]; intros ms Hsim; [exists 0, ms; split; [constructor|done]|].
  destruct (step_simulated _ _ _ Hsim H1) as (n & ms1 & Hh & Hs1). destruct (IH ms1 Hs1) as (n' & ms2 & Hh' & Hs2).
  exists (n' + n), ms2. split; [by eapply history_app|done].
Qed.

Definition no_rows : Tables := mkTables ∅ ∅ ∅ ∅ ∅ ∅ ∅.
Lemma sim_empty : sim no_rows NewMemoryStore.
Proof. split; simpl; try done; [by intros tid m; rewrite lookup_empty; intros ?%elem_of_nil|by intros k; rewrite lookup_empty]. Qed.

Lemma steps_reachable s s' :
  tables s = no_rows → rtc durable_step s s' → ∃ ms, reachable ms ∧ sim (tables s') ms.
Proof.
  intros Hs H. destruct (steps_simulated s s' NewMemoryStore H) as (n & ms & Hh & Hsim); [rewrite Hs; apply sim_empty|].
  exists ms. split; [by exists n|done].
Qed.


(** C8. A call of the durable store that fails changes no row, and leaves no
    transaction open: for every operation, every context, and an error of
    whatever origin, the database's included. *)
Theorem durable_failure_changes_nothing c m (s : DB) e s' :
  exec c m s = (Err e, s') → tables s' = tables s ∧ saved s' = saved s.
Proof. intros H. apply atomic_exec in H. tauto. Qed.

(** In a database that started empty, a session row names the one turn of
    it that is not finished, and names none when there is none. *)
Theorem durable_one_open_turn (s s' : DB) k x :
  tables s = no_rows → rtc durable_step s s' → agent_sessions (tables s') !! k = Some x →
  (∀ i r, agent_turns (tables s') !! i = Some r → rt_AgentSessionID r = k →
    (Terminal (turn_of_u8 (rt_Status r)) = false ↔ rs_ActiveTurnID x = i)) ∧
  (rs_ActiveTurnID x ≠ "" → is_Some (agent_turns (tables s') !! rs_ActiveTurnID x)).
Proof.
  intros Hs H Hx. destruct (steps_reachable s s' Hs H) as (ms & Hr%wf_reachable & Hsim).
  destruct (sim_session _ _ (tables_keyed s') Hsim _ _ Hx) as (y & Hy & _ & _ & _ & _ & _ & Hya & _). split.
  - intros i r Hr' Hsid. destruct (sim_turn _ _ (tables_keyed s') Hsim _ _ Hr') as (u & Hu & _ & _ & _ & Hus & Hust & _).
    rewrite <- Hust, <- (active_default ms Hr i u Hu), Hus, Hsid, Hy. simpl. by rewrite Hya.
  - intros Hne. rewrite <- Hya in *. destruct (wf_active _ Hr _ _ Hy Hne) as (u & Hu & _).
    destruct (matched_Some _ _ _ _ _ _ (eq_sym (sim_turns _ _ Hsim)) Hu) as (r & Hr' & _). eauto.
Qed.

(** A finished turn of the database stays finished, with the same status. *)
Theorem durable_finished_is_final (s s1 s2 : DB) k r :
  tables s = no_rows → rtc durable_step s s1 → rtc durable_step s1 s2 →
  agent_turns (tables s1) !! k = Some r → Terminal (turn_of_u8 (rt_Status r)) = true →
  ∃ r', agent_turns (tables s2) !! k = Some r' ∧ turn_of_u8 (rt_Status r') = turn_of_u8 (rt_Status r).
Proof.
  intros Hs H1 H2 Hr Hter. destruct (steps_reachable s s1 Hs H1) as (ms & _ & Hsim).
  destruct (sim_turn _ _ (tables_keyed s1) Hsim _ _ Hr) as (u & Hu & _ & _ & _ & _ & Hst & _).
  destruct (steps_simulated s1 s2 ms H2 Hsim) as (n & ms2 & Hh & Hsim2). rewrite <- Hst in *.
  destruct (history_finished_turn _ _ _ _ _ Hh Hu Hter) as (u2 & Hu2 & Hst2).
  destruct (matched_Some _ _ _ _ _ _ (eq_sym (sim_turns _ _ Hsim2)) Hu2) as (r2 & Hr2 & _). exists r2. split; [done|].
  destruct (sim_turn _ _ (tables_keyed s2) Hsim2 _ _ Hr2) as (u3 & Hu3 & _ & _ & _ & _ & Hst3 & _). congruence.
Qed.
End Histories.

(** ** Witnesses: three calls on an empty database *)
Section Witnesses.
#[local] Existing Instance lines_codec.
#[local] Existing Instance durable_store.

Definition w_session : Session := mkSession "" "s1" 1 7 "" SessionActive "" "" "" 0 0%Z 0%Z.
Definition db0 : TableDB := empty_db 1000%Z.
Definition after (m : mutation) (s : TableDB) : TableDB := snd (exec Background m s).
Definition db1 : TableDB := after (OCreateSession 1000%Z w_session) db0.
Definition db2 : TableDB := after (OStartTurn 1000%Z "s1" (new_Turn "t1")) db1.
Definition db3 : TableDB := after (OTransitionTurn 1000%Z "t1" 1 TurnFailed "e" "broken") db2.

Example db3_turn : (λ r, turn_of_u8 (rt_Status r)) <$> agent_turns (tables db3) !! "t1" = Some TurnFailed.
Proof. vm_compute. reflexivity. Qed.

Lemma after_step m s : durable_admissible (tables s) m → durable_step s (after m s).
Proof. intros Ha. left. exists Background, m, (fst (exec Background m s)). split; [done|]. by rewrite <- surjective_pairing. Qed.
Lemma db2_reached : rtc durable_step db0 db2.
Proof. apply (rtc_l _ _ db1); [by apply after_step|]. apply (rtc_l _ _ db2); [by apply after_step|]. apply rtc_refl. Qed.
Lemma db3_reached : rtc durable_step db0 db3.
Proof. eapply rtc_r; [apply db2_reached|by apply after_step]. Qed.


Lemma durable_failure_changes_nothing_witness :
  let '(r, s) := exec Background (OStartTurn 1000%Z "s1" (new_Turn "t2")) db2 in
  is_ok r = false ∧ tables s = tables db2 ∧ saved s = saved db2.
Proof.
  destruct (exec Background (OStartTurn 1000%Z "s1" (new_Turn "t2")) db2) as [r s] eqn:H.
  assert (is_ok r = false) as Hr.
  { apply (f_equal (λ x, is_ok (fst x))) in H. simpl in H. rewrite <- H. vm_compute. reflexivity. }
  split; [exact Hr|]. destruct r as [[]|e]; [discriminate Hr|].
  apply (durable_failure_changes_nothing Background (OStartTurn 1000%Z "s1" (new_Turn "t2")) db2 e s). exact H.
Defined.


Lemma durable_one_open_turn_witness :
  ∃ x, agent_sessions (tables db2) !! "s1" = Some x ∧ rs_ActiveTurnID x = "t1" ∧
    ∀ i r, agent_turns (tables db2) !! i = Some r → rt_AgentSessionID r = "s1" →
      (Terminal (turn_of_u8 (rt_Status r)) = false ↔ rs_ActiveTurnID x = i).
Proof.
  destruct (agent_sessions (tables db2) !! "s1") as [x|] eqn:Hx.
  - exists x. split; [reflexivity|]. split.
    + assert (rs_ActiveTurnID <$> agent_sessions (tables db2) !! "s1" = Some "t1") as Ha by (vm_compute; reflexivity).
      rewrite Hx in Ha. simpl in Ha. congruence.
    + apply (durable_one_open_turn db0 db2 "s1" x); [reflexivity|apply db2_reached|exact Hx].
  - exfalso. apply (f_equal (λ o, bool_decide (is_Some o))) in Hx. vm_compute in Hx. discriminate Hx.
Defined.

Lemma durable_finished_is_final_witness :
  ∃ r, agent_turns (tables db3) !! "t1" = Some r ∧
    ∃ r', agent_turns (tables (after (OTransitionTurn 1000%Z "t1" 2 TurnRunning "" "") db3)) !! "t1" = Some r' ∧
      turn_of_u8 (rt_Status r') = turn_of_u8 (rt_Status r).
Proof.
  destruct (agent_turns (tables db3) !! "t1") as [r|] eqn:Hr.
  - exists r. split; [reflexivity|].
    apply (durable_finished_is_final db0 db3 _ "t1" r); [reflexivity|apply db3_reached| |exact Hr|].
    + apply rtc_once, after_step. exact I.
    + pose proof db3_turn as Hst. rewrite Hr in Hst. simpl in Hst. injection Hst as Hst. rewrite Hst. reflexivity.
  - exfalso. apply (f_equal (λ o, bool_decide (is_Some o))) in Hr. vm_compute in Hr. discriminate Hr.
Defined.
End Witnesses.
