(* ===== verification/DurableTurns.v ===== *)
(** * The loop on the durable store

    On a database that answers ([GormReliable]) the durable store keeps the
    promises the loop relies on ([TurnLaws]), so the theorems of
    [AgentLoopTheorems] hold of the loop as it is deployed.  The databases
    considered are those in which the session of every turn is present; every
    call keeps a database so. *)

From S2P Require Import Prelude ToolTypes ToolDisclosure AgentTypes AgentDao DurableStore DurableLaws DurableRefinement TableDatabase.
From S2P Require Import DurableTheorems MemoryStore MemoryInvariant AgentEvents AgentContext AgentLoop AgentLoopTheorems AgentLoopMemory.

(** The session of every turn is present. *)
Definition sound (t : Tables) : Prop :=
  ∀ k r, agent_turns t !! k = Some r → is_Some (agent_sessions t !! rt_AgentSessionID r).

Definition same_turns (t t' : Tables) : Prop := agent_turns t' = agent_turns t ∧ agent_sessions t' = agent_sessions t.
Lemma sound_same t t' : same_turns t t' → sound t → sound t'.
Proof. intros [H1 H2] Hs k r. rewrite H1, H2. apply Hs. Qed.

Lemma sound_session_written v expected t t' : session_written v expected t t' → sound t → sound t' ∧ agent_turns t' = agent_turns t.
Proof.
  intros (x & now & _ & _ & ->) Hs. split; [|done]. intros k r Hr. simpl in *.
  apply lookup_insert_is_Some'. right. by eapply Hs.
Qed.
Lemma sound_turn_written v expected t t' : turn_written v expected t t' → sound t → sound t'.
Proof.
  intros (x & now & Hx & _ & ->) Hs k r Hr. simpl in *.
  apply lookup_insert_Some in Hr as [[<- <-]|[_ Hr]]; [by apply (Hs _ x Hx)|by eapply Hs].
Qed.

Section Sound.
Context {DB : Type} {i_gorm : Gorm DB} {i_laws : GormLaws DB} {i_codec : ColumnCodec}.

Definition Sound : Type := {s : DB | sound (tables s)}.
Definition keeps_sound {A} (m : Op DB A) : Prop := ∀ s, sound (tables s) → sound (tables (snd (m s))).
(** The same call on sound databases. *)
Definition restrict {A} (m : Op DB A) (Hm : keeps_sound m) : Op Sound A := λ s,
  (fst (m (proj1_sig s)), exist _ (snd (m (proj1_sig s))) (Hm (proj1_sig s) (proj2_sig s))).

Lemma sound_atomic {A} (m : Op DB A) (Q : Tables → A → Tables → Prop) :
  atomic m → (∀ t, does m t (Q t)) → (∀ t a t', Q t a t' → sound t → sound t') → keeps_sound m.
Proof.
  intros Ha Hd HQ s Hs. destruct (m s) as [[a|e] s'] eqn:Hm; simpl.
  - destruct (Hd _ _ _ _ eq_refl Hm) as [_ H]. by eapply HQ; [apply H|].
  - by destruct (Ha _ _ _ Hm) as [_ ->].
Qed.
Lemma sound_same_turns {A} (m : Op DB A) : atomic m → (∀ t, does m t (λ _ t', same_turns t t')) → keeps_sound m.
Proof. intros Ha Hd. eapply sound_atomic; [done|exact Hd|]. intros t a t'. apply sound_same. Qed.

Lemma reads_get {Row V} `{!Table Row} c f id (decode : Row → V) t :
  does (DB := DB) (let! r := map_err f (First c id) in ret (decode r)) t (same_rows t).
Proof. eapply does_mono; [apply does_get|]. by intros v t' [-> _]. Qed.
Lemma reads_find {Row V} `{!Table Row} c f p less (decode : list Row → Result V) t :
  does (DB := DB) (let! l := map_err f (Find c p less) in lift (decode l)) t (same_rows t).
Proof.
  apply does_bind, does_map_err. eapply does_mono; [apply does_Find|]. intros l t' [-> _]. by apply does_lift.
Qed.
Lemma atomic_find {Row V} `{!Table Row} c f p less (decode : list Row → Result V) :
  atomic (DB := DB) (let! l := map_err f (Find c p less) in lift (decode l)).
Proof.
  apply atomic_bind; [|apply atomic_map_err, atomic_Find|intros; apply atomic_lift].
  intros t. eapply does_mono; [apply does_map_err, does_Find|]. by intros l t' [-> _].
Qed.
Lemma reads_find_in_session {A} c sid (m : Op DB A) t :
  does m t (same_rows t) → does (Durable.get_session c sid ;; m) t (same_rows t).
Proof. intros H. apply does_bind. eapply does_mono; [apply does_get_session|]. by intros v t' [-> _]. Qed.
Lemma atomic_find_in_session {A} c sid (m : Op DB A) : atomic m → atomic (Durable.get_session c sid ;; m).
Proof. intros H. apply atomic_bind; [intros; apply reads_get|apply atomic_get|done]. Qed.


Lemma reads_same {A} (m : Op DB A) : (∀ t, does m t (same_rows t)) → ∀ t, does m t (λ _ t', same_turns t t').
Proof. intros H t. eapply does_mono; [apply H|]. by intros a t' ->. Qed.

(** *** Which calls leave turns and sessions alone *)
Definition quiet {A} (m : Op DB A) : Prop := atomic m ∧ ∀ t, does m t (λ _ t', same_turns t t').
Lemma quiet_sound {A} (m : Op DB A) : quiet m → keeps_sound m.
Proof. intros [? ?]. by apply sound_same_turns. Qed.

Lemma quiet_get {Row V} `{!Table Row} c f id (decode : Row → V) : quiet (let! r := map_err f (First c id) in ret (decode r)).
Proof. split; [apply atomic_get|apply reads_same; intros; apply reads_get]. Qed.
Lemma quiet_get_lift {Row V} `{!Table Row} c f id (decode : Row → Result V) :
  quiet (let! r := map_err f (First c id) in lift (decode r)).
Proof.
  split; [apply atomic_get_lift|apply reads_same]. intros t. eapply does_mono; [apply does_get_lift|]. by intros v t' [-> _].
Qed.
Lemma quiet_find {Row V} `{!Table Row} c f p less (decode : list Row → Result V) :
  quiet (let! l := map_err f (Find c p less) in lift (decode l)).
Proof. split; [apply atomic_find|apply reads_same; intros; apply reads_find]. Qed.
Lemma quiet_find_in_session {Row V} `{!Table Row} c sid f p less (decode : list Row → Result V) :
  quiet (Durable.get_session c sid ;; let! l := map_err f (Find c p less) in lift (decode l)).
Proof. split; [apply atomic_find_in_session, atomic_find|apply reads_same; intros; apply reads_find_in_session, reads_find]. Qed.
Lemma quiet_transitionStep c now id to output code msg : quiet (Durable.transitionStep c now id to output code msg).
Proof.
  split; [apply atomic_transitionStep|]. intros t. eapply does_mono; [apply does_transitionStep|].
  by intros st t' (r & v & _ & _ & _ & _ & _ & (r' & now' & _ & _ & ->)).
Qed.
Lemma quiet_AppendMessage c now m : quiet (Durable.AppendMessage c now m).
Proof.
  split; [apply atomic_AppendMessage|]. intros t. eapply does_mono; [apply does_AppendMessage|].
  by intros st t' (_ & _ & _ & r & (_ & _ & now' & ->) & _).
Qed.
Lemma quiet_SaveToolSnapshot c now tid sid ss : quiet (Durable.SaveToolSnapshot c now tid sid ss).
Proof.
  split; [apply atomic_SaveToolSnapshot|]. intros t. eapply does_mono; [apply does_SaveToolSnapshot|].
  by intros st t' (_ & _ & _ & r & (_ & _ & now' & ->) & _).
Qed.
Lemma quiet_CreateAttachment c now a : quiet (Durable.CreateAttachment c now a).
Proof.
  split; [apply atomic_CreateAttachment|]. intros t. eapply does_mono; [apply does_CreateAttachment|].
  by intros b t' (_ & _ & x & _ & _ & _ & r & _ & _ & _ & now' & ->).
Qed.
Lemma quiet_UpdateAttachment c now a v : quiet (Durable.UpdateAttachment c now a v).
Proof.
  split; [apply atomic_UpdateAttachment|]. intros t. eapply does_mono; [apply does_UpdateAttachment|].
  by intros b t' (_ & r & v' & w & _ & _ & _ & _ & _ & _ & _ & _ & _ & _ & (r' & now' & _ & _ & ->)).
Qed.
Lemma quiet_GetToolSnapshot c id : quiet (Durable.GetToolSnapshot c id).
Proof.
  split.
  - apply atomic_bind; [|apply atomic_map_err, atomic_First|].
    + intros t. eapply does_mono; [apply does_map_err, does_First|]. by intros r t' [-> _].
    + intros r. apply atomic_after_wrapped. intros a. apply atomic_after_wrapped. intros b. apply atomic_ret.
  - intros t. apply does_bind, does_map_err. eapply does_mono; [apply does_First|]. intros r t' [-> _].
    apply does_bind, does_map_err, does_lift. intros a _. apply does_bind, does_map_err, does_lift. intros b _.
    by apply does_ret.
Qed.

(** *** The calls that write them *)
Lemma sound_created_session x t t' : created (sessionModel x) t t' → sound t → sound t'.
Proof.
  intros (Hnew & _ & now & ->) Hs k r Hr. simpl in *. apply lookup_insert_is_Some'. right. by eapply Hs.
Qed.
Lemma sound_CreateSession c now x : keeps_sound (Durable.CreateSession c now x).
Proof.
  eapply sound_atomic; [apply atomic_CreateSession|intros; apply does_CreateSession|].
  intros t [] t' [_ H]. by eapply sound_created_session.
Qed.
Lemma sound_CreateSessionWithAttachment c now x a : keeps_sound (Durable.CreateSessionWithAttachment c now x a).
Proof.
  eapply sound_atomic; [apply atomic_CreateSessionWithAttachment|intros; apply does_CreateSessionWithAttachment|].
  intros t [y b] t' (_ & _ & _ & _ & _ & -> & t1 & Hc & r & _ & _ & _ & now' & ->) Hs.
  exact (sound_created_session _ _ _ Hc Hs).
Qed.
Lemma sound_ArchiveSession c now id v : keeps_sound (Durable.ArchiveSession c now id v).
Proof.
  eapply sound_atomic; [apply atomic_ArchiveSession|intros; apply does_ArchiveSession|].
  intros t y t' (x & _ & _ & _ & _ & _ & Hw) Hs. by eapply sound_session_written.
Qed.
Lemma sound_SetActiveAttachment c now id aid v : keeps_sound (Durable.SetActiveAttachment c now id aid v).
Proof.
  eapply sound_atomic; [apply atomic_SetActiveAttachment|intros; apply does_SetActiveAttachment|].
  intros t y t' (x & _ & _ & _ & _ & _ & _ & _ & Hw) Hs. by eapply sound_session_written.
Qed.
Lemma sound_StartTurn c now sid turn : keeps_sound (Durable.StartTurn c now sid turn).
Proof.
  eapply sound_atomic; [apply atomic_StartTurn|intros; apply does_StartTurn|].
  intros t [y u] t' (_ & -> & x & t1 & Hx & _ & _ & _ & (_ & _ & now' & ->) & Hw) Hs.
  eapply sound_session_written; [exact Hw|]. intros k r Hr. simpl in *.
  apply lookup_insert_Some in Hr as [[_ <-]|[_ Hr]]; [simpl; by rewrite Hx; eauto|by eapply Hs].
Qed.
Lemma sound_TransitionTurn c now id v to code msg : keeps_sound (Durable.TransitionTurn c now id v to code msg).
Proof.
  eapply sound_atomic; [apply atomic_TransitionTurn|intros; apply does_TransitionTurn|].
  intros t u t' (r & t1 & _ & _ & _ & _ & _ & Hw & Hrel) Hs. pose proof (sound_turn_written _ _ _ _ Hw Hs) as Hs1.
  destruct (Terminal to); [|by subst]. destruct Hrel as (x & _ & _ & Hrel).
  case_bool_decide; [by eapply sound_session_written|by subst].
Qed.
Lemma sound_AppendStep c now id v st : keeps_sound (Durable.AppendStep c now id v st).
Proof.
  eapply sound_atomic; [apply atomic_AppendStep|intros; apply does_AppendStep|].
  intros t [u st'] t' (_ & r & t1 & _ & _ & _ & _ & _ & _ & Hw & (_ & _ & now' & ->)) Hs.
  exact (sound_turn_written _ _ _ _ Hw Hs).
Qed.

#[export] Instance sound_store : Store Sound := {|
  CreateSession c now x := restrict _ (sound_CreateSession c now x);
  CreateSessionWithAttachment c now x a := restrict _ (sound_CreateSessionWithAttachment c now x a);
  GetSession c id := restrict (Durable.GetSession c id) (quiet_sound _ (quiet_get _ _ _ _));
  ListSessions c u := restrict (Durable.ListSessions c u)
    (quiet_sound _ (quiet_find c _ _ _ (λ l, Ok (map sessionFromModel l))));
  ArchiveSession c now id v := restrict _ (sound_ArchiveSession c now id v);
  CreateAttachment c now a := restrict _ (quiet_sound _ (quiet_CreateAttachment c now a));
  GetAttachment c id := restrict (Durable.GetAttachment c id) (quiet_sound _ (quiet_get_lift _ _ _ _));
  ListAttachments c id := restrict (Durable.ListAttachments c id) (quiet_sound _ (quiet_find_in_session _ _ _ _ _ _));
  UpdateAttachment c now a v := restrict _ (quiet_sound _ (quiet_UpdateAttachment c now a v));
  SetActiveAttachment c now id aid v := restrict _ (sound_SetActiveAttachment c now id aid v);
  StartTurn c now id t := restrict _ (sound_StartTurn c now id t);
  GetTurn c id := restrict (Durable.GetTurn c id) (quiet_sound _ (quiet_get _ _ _ _));
  ListTurns c id := restrict (Durable.ListTurns c id)
    (quiet_sound _ (quiet_find_in_session c id _ _ _ (λ l, Ok (map turnFromModel l))));
  TransitionTurn c now id v to code msg := restrict _ (sound_TransitionTurn c now id v to code msg);
  AppendStep c now id v st := restrict _ (sound_AppendStep c now id v st);
  GetStep c id := restrict (Durable.GetStep c id) (quiet_sound _ (quiet_get_lift _ _ _ _));
  ListSessionSteps c id := restrict (Durable.ListSessionSteps c id) (quiet_sound _ (quiet_find_in_session _ _ _ _ _ _));
  CompleteStep c now id out := restrict (Durable.CompleteStep c now id out) (quiet_sound _ (quiet_transitionStep _ _ _ _ _ _ _));
  WaitStepApproval c now id := restrict (Durable.WaitStepApproval c now id) (quiet_sound _ (quiet_transitionStep _ _ _ _ _ _ _));
  ResumeStep c now id := restrict (Durable.ResumeStep c now id) (quiet_sound _ (quiet_transitionStep _ _ _ _ _ _ _));
  CancelStep c now id code msg :=
    restrict (Durable.CancelStep c now id code msg) (quiet_sound _ (quiet_transitionStep _ _ _ _ _ _ _));
  FailStep c now id code msg := restrict (Durable.FailStep c now id code msg) (quiet_sound _ (quiet_transitionStep _ _ _ _ _ _ _));
  AppendMessage c now m := restrict _ (quiet_sound _ (quiet_AppendMessage c now m));
  ListMessages c id := restrict (Durable.ListMessages c id) (quiet_sound _ (quiet_find _ _ _ _ _));
  ListSessionMessages c id := restrict (Durable.ListSessionMessages c id) (quiet_sound _ (quiet_find_in_session _ _ _ _ _ _));
  SaveToolSnapshot c now id st snap := restrict _ (quiet_sound _ (quiet_SaveToolSnapshot c now id st snap));
  GetToolSnapshot c id := restrict _ (quiet_sound _ (quiet_GetToolSnapshot c id))
|}.
End Sound.
Arguments Sound DB {_ _}.

(** ** The promises *)
Section Laws.
Context {DB : Type} {i_gorm : Gorm DB} {i_laws : GormLaws DB} {i_codec : ColumnCodec}.

Definition turn_in (t : Tables) (id : string) : option Turn := turn_view <$> agent_turns t !! id.
Definition stored_turn (s : Sound DB) (id : string) : option Turn := turn_in (tables (proj1_sig s)) id.

Lemma keeps_quiet {A} (m : Op DB A) Hm : quiet m → keeps stored_turn (restrict m Hm).
Proof.
  intros [Ha Hd] [s Hs] id. unfold stored_turn, restrict. simpl. destruct (m s) as [[a|e] s'] eqn:H; simpl.
  - destruct (Hd _ _ _ _ eq_refl H) as [_ HQ]. destruct (HQ a eq_refl) as [Ht _]. unfold turn_in. by rewrite Ht.
  - by destruct (Ha _ _ _ H) as [_ ->].
Qed.

Lemma restrict_inv {A} (m : Op DB A) Hm s r s' :
  restrict m Hm s = (r, s') → m (proj1_sig s) = (r, proj1_sig s').
Proof. unfold restrict. intros [= <- <-]. simpl. apply surjective_pairing. Qed.

Lemma erase_turn_view r : erase_turn (turnFromModel r) = turn_view r.
Proof. done. Qed.

Lemma law_GetTurn c id s t s' : Durable.GetTurn c id s = (Ok t, s') → turn_in (tables s) id = Some (erase_turn t).
Proof.
  intros H. destruct (does_get_turn c id (tables s) _ _ _ eq_refl H) as [_ HQ].
  destruct (HQ t eq_refl) as (_ & r & Hr & _ & ->). unfold turn_in. simpl in Hr. by rewrite Hr.
Qed.

Lemma law_StartTurn c now sid t s r s' :
  Durable.StartTurn c now sid t s = (r, s') →
  match r with
  | Ok (_, t') => t_ID t ≠ "" ∧ t_ID t' = t_ID t ∧ t_Status t' = TurnQueued ∧
      turn_in (tables s') (t_ID t) = Some (erase_turn t') ∧ turn_in (tables s) (t_ID t) = None ∧
      ∀ id, id ≠ t_ID t → turn_in (tables s') id = turn_in (tables s) id
  | Err _ => ∀ id, turn_in (tables s') id = turn_in (tables s) id
  end.
Proof.
  intros H. destruct r as [[y u]|e]; [|intros id; by destruct (atomic_StartTurn _ _ _ _ _ _ _ H) as [_ ->]].
  destruct (does_StartTurn c now sid t (tables s) _ _ _ eq_refl H) as [_ HQ].
  destruct (HQ _ eq_refl) as (Hid & -> & x & t1 & _ & _ & _ & _ & (Hnew & _ & now' & ->) & (x' & now2 & _ & _ & Ht)).
  simpl in Hnew. unfold turn_in. rewrite Ht. split_and!; try done.
  - simpl. rewrite lookup_insert_eq. simpl. f_equal.
    exact (turn_create_view now' (started now sid t) ltac:(done) eq_refl).
  - by rewrite Hnew.
  - intros id Hne. simpl. by rewrite lookup_insert_ne.
Qed.

(** The turn a versioned write leaves. *)
Lemma turn_written_in v expected r t t' id :
  turn_written v expected t t' → keyed t → t_ID v = id → agent_turns t !! id = Some r →
  rt_AgentSessionID r = t_AgentSessionID v → turn_of_u8 (turn_u8 (t_Status v)) = t_Status v →
  turn_in t' id = Some (erase_turn v) ∧ ∀ id', id' ≠ id → turn_in t' id' = turn_in t id'.
Proof.
  intros (r' & now & Hr' & _ & ->) Hk <- Hr Hs Hst. simpl in *. assert (r' = r) as -> by congruence. unfold turn_in. simpl. split.
  - rewrite lookup_insert_eq. simpl. f_equal. apply turn_write_view; try done. symmetry. by apply (keyed_turns _ Hk).
  - intros id Hne. by rewrite lookup_insert_ne.
Qed.

Lemma released_turns now u t t' : released now u t t' → agent_turns t' = agent_turns t.
Proof. intros (x & _ & _ & H). case_bool_decide; [by destruct H as (? & ? & _ & _ & ->)|by subst]. Qed.

Lemma law_TransitionTurn c now id v to code msg s r s' :
  Durable.TransitionTurn c now id v to code msg s = (r, s') →
  match r with
  | Ok t => turn_in (tables s') id = Some (erase_turn t) ∧ t_Status t = to ∧
      (∃ t0, turn_in (tables s) id = Some t0 ∧ t_ID t = t_ID t0) ∧
      ∀ id', id' ≠ id → turn_in (tables s') id' = turn_in (tables s) id'
  | Err _ => ∀ id', turn_in (tables s') id' = turn_in (tables s) id'
  end.
Proof.
  intros H. destruct r as [u|e]; [|intros id'; by destruct (atomic_TransitionTurn _ _ _ _ _ _ _ _ _ _ H) as [_ ->]].
  destruct (does_TransitionTurn c now id v to code msg (tables s) _ _ _ eq_refl H) as [_ HQ].
  destruct (HQ u eq_refl) as (r & t1 & Hr & Hid & _ & Hval & -> & Hw & Hrel).
  destruct (transitioned_same (turnFromModel r) now to code msg) as (Hu1 & Hu2 & Hu3).
  change (Memory.transitioned (turnFromModel r) now to code msg) with
    (Durable.transitioned (turnFromModel r) now to code msg) in Hu1, Hu2, Hu3.
  destruct (turn_written_in _ _ r _ _ id Hw (tables_keyed s)) as [H1 H2]; [by rewrite Hu1|done|by rewrite Hu2| |].
  { rewrite Hu3. by eapply moved_canonical. }
  assert (agent_turns (tables s') = agent_turns t1) as Ht.
  { destruct (Terminal to); [by eapply released_turns|by rewrite Hrel]. }
  assert (∀ i, turn_in (tables s') i = turn_in t1 i) as Hin by (intros i; unfold turn_in; by rewrite Ht).
  split_and!; [by rewrite Hin|done| |].
  - exists (turn_view r). unfold turn_in. rewrite Hr. split; [done|]. by rewrite Hu1.
  - intros i Hne. rewrite Hin. by apply H2.
Qed.

Lemma law_AppendStep c now id v st s r s' :
  Durable.AppendStep c now id v st s = (r, s') →
  match r with
  | Ok (t, _) => turn_in (tables s') id = Some (erase_turn t) ∧
      (∃ t0, turn_in (tables s) id = Some t0 ∧ t_ID t = t_ID t0 ∧ t_Status t = t_Status t0) ∧
      ∀ id', id' ≠ id → turn_in (tables s') id' = turn_in (tables s) id'
  | Err _ => ∀ id', turn_in (tables s') id' = turn_in (tables s) id'
  end.
Proof.
  intros H. destruct r as [[u st']|e]; [|intros id'; by destruct (atomic_AppendStep _ _ _ _ _ _ _ _ H) as [_ ->]].
  destruct (does_AppendStep c now id v st (tables s) _ _ _ eq_refl H) as [_ HQ].
  destruct (HQ _ eq_refl) as (_ & r & t1 & Hr & Hid & _ & _ & -> & -> & Hw & (_ & _ & now' & Ht)).
  destruct (turn_written_in _ _ r _ _ id Hw (tables_keyed s)) as [H1 H2]; [done|done|done|apply turn_u8_canonical|].
  assert (∀ i, turn_in (tables s') i = turn_in t1 i) as Hin by (intros i; by rewrite Ht).
  split_and!; [by rewrite Hin| |].
  - exists (turn_view r). unfold turn_in. by rewrite Hr.
  - intros i Hne. rewrite Hin. by apply H2.
Qed.

(** *** Transitions succeed on a database that answers *)
Context {i_reliable : GormReliable DB}.

Lemma answers_get {Row V} `{!Table Row} c f id (decode : Row → V) t r :
  live c → get_rows t !! id = Some r → answers (DB := DB) (let! r := map_err f (First c id) in ret (decode r)) t.
Proof.
  intros Hc Hr. eapply answers_bind; [|apply does_map_err, does_First|intros; apply answers_ret].
  apply answers_map_err. intros s <-. by eapply First_total.
Qed.

Lemma answers_put_session c what v expected t r :
  live c → agent_sessions t !! s_ID v = Some r → rs_Version r = expected →
  answers (DB := DB) (Durable.put_session c what v expected) t.
Proof.
  intros Hc Hr Hv. exact (answers_put c (s_ID v) (λ r, bool_decide (rs_Version r = expected))
    (Dao.session_columns (sessionModel v)) (Durable.wrap what) (versionConflict "session" (s_ID v)) t r
    (λ r, eq_refl) Hc Hr (bool_decide_eq_true_2 _ Hv)).
Qed.
Lemma answers_put_turn c what v expected id t r :
  live c → agent_turns t !! t_ID v = Some r → rt_Version r = expected →
  answers (DB := DB) (Durable.put_turn c what v expected id) t.
Proof.
  intros Hc Hr Hv. exact (answers_put c (t_ID v) (λ r, bool_decide (rt_Version r = expected))
    (Dao.turn_columns (turnModel v)) (Durable.wrap what) (versionConflict "turn" id) t r
    (λ r, eq_refl) Hc Hr (bool_decide_eq_true_2 _ Hv)).
Qed.

Lemma answers_release c now u t :
  live c → keyed t → is_Some (agent_sessions t !! t_AgentSessionID u) → answers (DB := DB) (Durable.release_session c now u) t.
Proof.
  intros Hc Hk [x Hx]. eapply answers_bind; [by eapply answers_get|apply does_get_session|].
  intros v t' (-> & r & Hr & Hid & ->). simpl in Hr, Hid. case_bool_decide; [|apply answers_ret].
  apply (answers_put_session _ _ _ _ _ r); [done|simpl; by rewrite Hid|done].
Qed.

Lemma answers_TransitionTurn c now id r to code msg t :
  live c → keyed t → sound t → agent_turns t !! id = Some r → validTurnTransition (turn_of_u8 (rt_Status r)) to = true →
  answers (DB := DB) (Durable.TransitionTurn c now id (rt_Version r) to code msg) t.
Proof.
  intros Hc Hk Hs Hr Hval. apply answers_txn; [done| |].
  - eapply answers_bind; [by eapply answers_get|apply does_get_turn|].
    intros v t' (-> & r' & Hr' & Hid & ->). simpl in Hr', Hid. assert (r' = r) as -> by congruence.
    simpl. rewrite bool_decide_eq_false_2 by tauto. rewrite Hval. simpl.
    set (u := Durable.transitioned (turnFromModel r) now to code msg).
    assert (t_ID u = id ∧ t_AgentSessionID u = rt_AgentSessionID r) as [Hu1 Hu2].
    { subst u. unfold Durable.transitioned. by repeat case_match. }
    eapply answers_bind; [|apply does_put_turn|].
    { apply (answers_put_turn _ _ _ _ _ _ r); [done|by rewrite Hu1|done]. }
    intros [] t1 Hw. pose proof (sound_turn_written _ _ _ _ Hw Hs) as Hs1.
    assert (keyed t1) as Hk1 by (by eapply (keyed_swapped (Row := AgentTurn)); [|exact Hk|exact Hw]).
    eapply (answers_bind _ _ _ (λ _ _, True)); [|apply balanced_does, balanced_if; [apply balanced_release|apply balanced_ret]|
      intros [] t2 _; apply answers_ret].
    destruct (Terminal to); [|apply answers_ret]. apply answers_release; [done|done|].
    destruct Hw as (r' & now' & Hr'' & _ & ->). simpl. rewrite Hu2. by eapply Hs.
  - apply balanced_bind; [apply balanced_read|]. intros v. apply balanced_if; [apply balanced_throw|].
    apply balanced_if; [apply balanced_throw|]. apply balanced_bind; [apply balanced_put_turn|]. intros _.
    apply balanced_bind; [apply balanced_if; [apply balanced_release|apply balanced_ret]|]. intros. apply balanced_ret.
Qed.
End Laws.

#[export] Instance durable_laws {DB} {i_gorm : Gorm DB} {i_laws : GormLaws DB} {i_reliable : GormReliable DB}
    {i_codec : ColumnCodec} : TurnLaws (Sound DB).
Proof.
  refine (Build_TurnLaws (Sound DB) _ stored_turn erase_turn (λ _, eq_refl) (λ _, eq_refl) (λ _, eq_refl)
    _ _ _ _ _ _ _ _ _ _ _ _ _ _ _ _ _ _ _).
  - intros. apply keeps_quiet, quiet_get.
  - intros. apply keeps_quiet, quiet_find_in_session.
  - intros. apply keeps_quiet, quiet_get.
  - intros. apply keeps_quiet. exact (quiet_find_in_session c id _ _ _ (λ l, Ok (map turnFromModel l))).
  - intros. apply keeps_quiet, quiet_find_in_session.
  - intros. apply keeps_quiet, quiet_transitionStep.
  - intros. apply keeps_quiet, quiet_transitionStep.
  - intros. apply keeps_quiet, quiet_transitionStep.
  - intros. apply keeps_quiet, quiet_transitionStep.
  - intros. apply keeps_quiet, quiet_transitionStep.
  - intros. apply keeps_quiet, quiet_AppendMessage.
  - intros. apply keeps_quiet, quiet_find.
  - intros. apply keeps_quiet, quiet_find_in_session.
  - intros. apply keeps_quiet, quiet_SaveToolSnapshot.
  - intros c id s t s' H%restrict_inv. by eapply law_GetTurn.
  - intros c now sid t s r s' H%restrict_inv. by apply law_StartTurn in H.
  - intros c now id v to code msg s r s' H%restrict_inv. by apply law_TransitionTurn in H.
  - intros c now id t to code msg [s Hs] Hc Ht Hv. unfold stored_turn, turn_in in Ht. simpl in Ht.
    destruct (agent_turns (tables s) !! id) as [r|] eqn:Hr; [|done]. injection Ht as <-.
    exact (answers_TransitionTurn c now id r to code msg _ Hc (tables_keyed s) Hs Hr Hv s eq_refl).
  - intros c now id v st s r s' H%restrict_inv. by apply law_AppendStep in H.
Defined.

(** ** The deployed loop *)
Section Deployed.
Context {DB W : Type} {i_gorm : Gorm DB} {i_laws : GormLaws DB} {i_reliable : GormReliable DB} {i_columns : ColumnCodec}.
Context {i_env : Env (Sound DB * W)} {i_world : World (Sound DB * W)} {i_codec : Codec}
  {i_bystanders : Bystanders (Sound DB * W)}.

(** How a run of the loop on the database ends, whatever the partners do
    and whenever the request is cancelled: a run that returns a turn has left
    it in the table, completed, cancelled, failed or waiting for an approval
    (the row differs from the returned turn in its times at most); a run that
    returns no turn returns an error. *)
Theorem durable_run_settles config request (σ : Sound DB * W) result err σ' :
  turn_of σ "" = None →
  Loop.Run config request σ = ((result, err), σ') →
  t_ID (r_Turn result) = "" ∧ err ≠ None ∨
  ∃ r, agent_turns (tables (proj1_sig (fst σ'))) !! t_ID (r_Turn result) = Some r ∧
    turn_view r = erase_turn (r_Turn result) ∧ settled (turnFromModel r).
Proof.
  intros He Hrun. pose proof (Run_final config True (or_introl I) request σ He) as H. unfold ewp in H.
  rewrite Hrun in H. destruct H as [(? & ? & _)|(Ht & _ & Hset)]; [by left|right].
  unfold turn_of in Ht. simpl in Ht. unfold stored_turn, turn_in in Ht.
  destruct (agent_turns _ !! _) as [r|]; [|done]. exists r. apply (inj Some) in Ht. split_and!; [done|done|].
  apply erase_turn_inv in Ht as (_ & _ & Hst & _). unfold settled in *. by rewrite Hst.
Qed.
End Deployed.

(** ** A run on [TableDB] *)
Section Witness.
#[local] Existing Instance lines_codec.

Lemma db1_sound : sound (tables db1).
Proof.
  intros k r Hr. assert (agent_turns (tables db1) = ∅) as He by (vm_compute; reflexivity).
  rewrite He, lookup_empty in Hr. discriminate Hr.
Qed.
Abbreviation tableSt := (Sound TableDB * N)%type.
Definition table_state : tableSt := (exist _ db1 db1_sound, 0%N).

#[local] Instance table_env : Env tableSt := {| poll := λ σ, (Background, σ); clock := λ σ, (1000%Z, σ) |}.
(** A model that answers at once; nothing else works. *)
#[local] Instance table_world : World tableSt := {|
  NewID prefix := λ σ, (Ok (prefix +:+ "_" +:+ pretty (snd σ)), (fst σ, (snd σ + 1)%N));
  publish_event := λ _ _ σ, (Ok tt, σ);
  tools_BuildSnapshot := λ _ _ σ, (Ok (mkSnapshot "snapshot_1" 1 "" ∅ [] 1000%Z), σ);
  tools_Execute := λ _ _ _, throw (ENew "no tools"); tools_ExecuteApproved := λ _ _ _ _, throw (ENew "no tools");
  Generate := λ _ _ _ σ, (Ok (mkResponse "done" [] (mkUsage 0 0)), σ);
  approvals := {| Request := λ _ _, throw (ENew "no approvals"); decision := None |} |}.
#[local] Instance table_bystanders : Bystanders tableSt.
Proof. by split. Qed.

Definition table_request : RunRequest :=
  mkRunRequest [] (mkSelection "" "") "s1" "t1" "how are the hosts?" (mkPrincipal 7 1) "" DefaultDisclosureBudget.

Example table_run_completes :
  let '((r, e), σ) := Loop.Run demo_config table_request table_state in
  (e, r_Text r, (λ r, turn_of_u8 (rt_Status r)) <$> agent_turns (tables (proj1_sig (fst σ))) !! "t1") =
  (None, "done", Some TurnCompleted).
Proof. vm_compute. reflexivity. Qed.

Lemma durable_run_settles_witness :
  let '((r, e), σ) := Loop.Run demo_config table_request table_state in
  t_ID (r_Turn r) = "" ∧ e ≠ None ∨
  ∃ row, agent_turns (tables (proj1_sig (fst σ))) !! t_ID (r_Turn r) = Some row ∧
    turn_view row = erase_turn (r_Turn r) ∧ settled (turnFromModel row).
Proof.
  destruct (Loop.Run demo_config table_request table_state) as [[r e] σ] eqn:E.
  apply (durable_run_settles demo_config table_request table_state r e σ); [reflexivity|exact E].
Defined.
End Witness.
