(* ===== verification/DurableApproval.v ===== *)
(** * agent/runtime: DurableApprovalCoordinator

    [durable_approval.go]: approvals as rows of the database, decided and
    consumed by compare and swap on their status.  [now] is a reading of
    [coordinator.clock]; an operation that reads it twice takes two.  The
    operations are written as the queries they make one after the other, so
    that [ApprovalConcurrency] can interleave them. *)

From S2P Require Import Prelude ToolTypes ToolDisclosure AgentTypes AgentLoop AgentDao DurableStore.

Class ApprovalCodec := {
  marshal_invocation : ToolInvocation → Result string;
  unmarshal_invocation : string → Result ToolInvocation;
  marshal_snapshot : ToolSetSnapshot → Result string;
  unmarshal_snapshot : string → Result ToolSetSnapshot
}.

Definition approval_of_u8 (n : N) : ApprovalStatus :=
  match n with
  | 0%N => ApprovalPending | 1%N => ApprovalApproved | 2%N => ApprovalDenied | 3%N => ApprovalExpired
  | 4%N => ApprovalConsumed | _ => ApprovalStatusOther n
  end.
Definition risk_of_u8 (n : N) : RiskLevel :=
  match n with
  | 0%N => RiskReadOnly | 1%N => RiskLow | 2%N => RiskMedium | 3%N => RiskHigh | 4%N => RiskCritical
  | _ => RiskOther n
  end.

Definition mapApprovalNotFound (approvalID : string) (err : error) : error :=
  if Is err ErrRecordNotFound then wrapf ErrApprovalNotFound approvalID else err.

Module Approval.
Section Coordinator.
Context {DB : Type} {i_gorm : Gorm DB} {i_codec : ApprovalCodec}.

Definition wrap (what : string) : error → error := λ e, EWrap (what +:+ ": ") e "".

Definition Request (c : ctx) (now : Time) (request : ApprovalRequest) : Op DB unit :=
  throw_if bool_decide (ap_ID request = "") || bool_decide (ap_SessionID request = "") ||
      bool_decide (ap_TurnID request = "") || bool_decide (ap_StepID request = "") ||
      bool_decide (ap_RequestedBy request = 0%N)
    with ENew "approval ID, session, turn, step and requester are required" ;;
  let! invocation := map_err (wrap "encode approval invocation") (lift (marshal_invocation (ap_Invocation request))) in
  let! snapshot := map_err (wrap "encode approval tool snapshot") (lift (marshal_snapshot (ap_Snapshot request))) in
  map_err (wrap "create agent approval") (Dao.CreateAgentApproval c (mkRowApproval (ap_ID request) now now
    (ap_SessionID request) (ap_TurnID request) (ap_StepID request) (ap_RequestedBy request) None
    (approval_u8 ApprovalPending) (risk_u8 (ap_Risk request)) (ap_InputSHA256 request) (ap_AttachmentEpoch request)
    (ap_Reason request) "" (ap_ExpiresAt request) None invocation snapshot)).

Definition conflict (approvalID text : string) : error :=
  EWrap "" ErrApprovalConflict (": approval " +:+ approvalID +:+ text).

(** *** Decide *)
Definition decided (record : AgentApproval) (now : Time) (decidedBy : N) (approve : bool) (note : string) : AgentApproval :=
  let status := if negb (After (rv_ExpiresAt record) now) then ApprovalExpired
    else if approve then ApprovalApproved else ApprovalDenied in
  record<| rv_Status := approval_u8 status |><| rv_DecidedBy := Some decidedBy |><| rv_DecisionNote := note |>
    <| rv_DecidedAt := Some now |><| rv_UpdatedAt := now |>.

(** Up to the record that is to be written. *)
Definition decide_read (c : ctx) (now : Time) (approvalID : string) (decidedBy : N) (approve : bool) (note : string)
    : Op DB AgentApproval :=
  throw_if bool_decide (approvalID = "") || bool_decide (decidedBy = 0%N)
    with ENew "approval ID and decider are required" ;;
  let! record := map_err (mapApprovalNotFound approvalID) (Dao.GetAgentApproval c approvalID) in
  throw_if bool_decide (approval_of_u8 (rv_Status record) ≠ ApprovalPending)
    with conflict approvalID (" is " +:+ pretty (rv_Status record)) ;;
  ret (decided record now decidedBy approve note).
Definition decide_write (c : ctx) (approvalID : string) (record : AgentApproval) : Op DB unit :=
  let! updated := map_err (wrap "decide agent approval")
    (Dao.UpdateAgentApprovalCAS c record (approval_u8 ApprovalPending)) in
  throw_if negb updated with conflict approvalID " changed concurrently" ;;
  throw_if bool_decide (rv_Status record = approval_u8 ApprovalExpired) with wrapf ErrApprovalExpired approvalID ;;
  ret tt.
Definition Decide (c : ctx) (now : Time) (approvalID : string) (decidedBy : N) (approve : bool) (note : string) : Op DB unit :=
  let! record := decide_read c now approvalID decidedBy approve note in
  decide_write c approvalID record.

(** *** Reads *)
Definition decode (record : AgentApproval) : Result (ApprovalRequest * ApprovalStatus) :=
  match unmarshal_invocation (rv_Invocation record) with
  | Err e => Err (wrap "decode approval invocation" e)
  | Ok invocation =>
      match unmarshal_snapshot (rv_Snapshot record) with
      | Err e => Err (wrap "decode approval tool snapshot" e)
      | Ok snapshot => Ok (mkApproval (rv_ID record) (rv_AgentSessionID record) (rv_TurnID record) (rv_StepID record)
          (rv_RequestedBy record) invocation snapshot (rv_InputSHA256 record) (rv_Reason record)
          (risk_of_u8 (rv_Risk record)) (rv_ExpiresAt record) (rv_AttachmentGeneration record),
          approval_of_u8 (rv_Status record))
      end
  end.
Definition Get (c : ctx) (approvalID : string) : Op DB (ApprovalRequest * ApprovalStatus) :=
  let! record := map_err (mapApprovalNotFound approvalID) (Dao.GetAgentApproval c approvalID) in
  lift (decode record).

Definition GetApproved (c : ctx) (now : Time) (approvalID : string) (principal : Principal) : Op DB ApprovalRequest :=
  let! ' (request, status) := Get c approvalID in
  throw_if bool_decide (status ≠ ApprovalApproved) with conflict approvalID (" is " +:+ pretty (approval_u8 status)) ;;
  throw_if negb (After (ap_ExpiresAt request) now) with wrapf ErrApprovalExpired approvalID ;;
  throw_if bool_decide (ap_RequestedBy request ≠ UserID principal) with ENew "approval does not belong to principal" ;;
  throw_if bool_decide (b_Principal (inv_Binding (ap_Invocation request)) ≠ principal)
    with ENew "approval principal binding changed" ;;
  ret request.

(** *** Consume *)
Definition consume_read (c : ctx) (approvalID : string) : Op DB AgentApproval :=
  map_err (mapApprovalNotFound approvalID) (Dao.GetAgentApproval c approvalID).
Definition consume_write (c : ctx) (now : Time) (approvalID : string) (record : AgentApproval) : Op DB unit :=
  let record := record<| rv_Status := approval_u8 ApprovalConsumed |><| rv_UpdatedAt := now |> in
  let! updated := map_err (wrap "consume agent approval")
    (Dao.UpdateAgentApprovalCAS c record (approval_u8 ApprovalApproved)) in
  throw_if negb updated with conflict approvalID " changed concurrently" ;;
  ret tt.
Definition Consume (c : ctx) (now now' : Time) (approvalID : string) (principal : Principal) : Op DB ApprovalRequest :=
  let! request := GetApproved c now approvalID principal in
  let! record := consume_read c approvalID in
  consume_write c now' approvalID record ;;
  ret request.

(** *** List *)
Definition view (record : AgentApproval) : Result ApprovalView :=
  match unmarshal_invocation (rv_Invocation record) with
  | Err e => Err (wrap ("decode approval invocation " +:+ rv_ID record) e)
  | Ok invocation => Ok (mkApprovalView (rv_ID record) (rv_TurnID record) (rv_StepID record)
      (approval_of_u8 (rv_Status record)) (tc_ID (inv_Call invocation)) (tc_Input (inv_Call invocation))
      (rv_InputSHA256 record) (rv_Reason record) (risk_of_u8 (rv_Risk record)) (rv_ExpiresAt record)
      (rv_DecisionNote record) (rv_DecidedAt record))
  end.
Definition List_ (c : ctx) (sessionID : string) : Op DB (list ApprovalView) :=
  throw_if bool_decide (sessionID = "") with ENew "agent session ID is required" ;;
  let! records := map_err (wrap "list agent approvals") (Dao.ListAgentApprovals c sessionID) in
  lift (decode_all view records).
End Coordinator.

(** The coordinator the loop is given; [clock] reads the time. *)
Definition coordinator {DB} `{!Gorm DB, !ApprovalCodec} (clock : DB → Time * DB) : ApprovalCoordinator DB := {|
  AgentLoop.Request := λ c request s, let '(now, s1) := clock s in Request c now request s1;
  decision := Some {|
    AgentLoop.Decide := λ c id by_ approve note s, let '(now, s1) := clock s in Decide c now id by_ approve note s1;
    AgentLoop.GetApproved := λ c id principal s, let '(now, s1) := clock s in GetApproved c now id principal s1;
    AgentLoop.Consume := λ c id principal s,
      let '(now, s1) := clock s in let '(now', s2) := clock s1 in Consume c now now' id principal s2;
    resolution := Some {| AgentLoop.Get := Get; AgentLoop.List_ := List_ |}
  |}
|}.
End Approval.
