(* ===== verification/ApprovalConcurrency.v ===== *)
(** * Approvals under concurrency

    Several goroutines, and several manager processes on one database, ask
    for, decide and consume approvals at the same time; each query is one step
    of the database, and anything may happen between two of them.  [accepts]
    is the life an approval is meant to have; [Reachable] the interleavings.
    Every interleaving gives each approval such a life. *)

From S2P Require Import Prelude ToolTypes ToolEngineTheorems ToolDisclosure AgentTypes AgentLoop AgentDao DurableStore.
From S2P Require Import DurableLaws DurableApproval TableDatabase.

(** ** The life of an approval *)
Inductive event :=
| ERequested (request : ApprovalRequest)
| EDecided (approvalID : string) (by_ : N) (approve : bool) (at_ : Time)
| EConsumed (approvalID : string) (by_ : Principal) (at_ : Time) (request : ApprovalRequest).
Definition about (e : event) : string :=
  match e with ERequested r => ap_ID r | EDecided id _ _ _ => id | EConsumed id _ _ _ => id end.

Inductive phase :=
| Absent
| Pending (request : ApprovalRequest)
| Approved (request : ApprovalRequest)
| Denied
| Consumed.

Section Spec.
Context {i_codec : ApprovalCodec}.

(** The request as it comes back from its row. *)
Definition reload (request : ApprovalRequest) : Result ApprovalRequest :=
  match marshal_invocation (ap_Invocation request), marshal_snapshot (ap_Snapshot request) with
  | Ok invocation, Ok snapshot =>
      match unmarshal_invocation invocation, unmarshal_snapshot snapshot with
      | Ok i, Ok n => Ok (mkApproval (ap_ID request) (ap_SessionID request) (ap_TurnID request) (ap_StepID request)
          (ap_RequestedBy request) i n (ap_InputSHA256 request) (ap_Reason request)
          (risk_of_u8 (risk_u8 (ap_Risk request))) (ap_ExpiresAt request) (ap_AttachmentEpoch request))
      | Err e, _ => Err e
      | _, Err e => Err e
      end
  | Err e, _ => Err e
  | _, Err e => Err e
  end.

(** Requested once, decided once, and consumed once if it was approved: by
    the principal who asked, before it expires, and with what was asked. *)
Inductive accepts : phase → event → phase → Prop :=
| accepts_request r : accepts Absent (ERequested r) (Pending r)
| accepts_approve r id by_ now : After (ap_ExpiresAt r) now = true →
    accepts (Pending r) (EDecided id by_ true now) (Approved r)
| accepts_deny r id by_ now : After (ap_ExpiresAt r) now = true →
    accepts (Pending r) (EDecided id by_ false now) Denied
| accepts_consume r id p now r' : After (ap_ExpiresAt r) now = true → ap_RequestedBy r = UserID p →
    reload r = Ok r' → b_Principal (inv_Binding (ap_Invocation r')) = p →
    accepts (Approved r) (EConsumed id p now r') Consumed.
(** The phase of one approval after a log of events, oldest first. *)
Inductive life (id : string) : list event → phase → Prop :=
| life_nil : life id [] Absent
| life_other log e q : life id log q → about e ≠ id → life id (log ++ [e]) q
| life_event log e q q' : life id log q → about e = id → accepts q e q' → life id (log ++ [e]) q'.
End Spec.

(** JSON text is not empty. *)
Class ApprovalCodecLaws `{!ApprovalCodec} : Prop := {
  invocation_text x v : marshal_invocation x = Ok v → v ≠ "";
  snapshot_text x v : marshal_snapshot x = Ok v → v ≠ ""
}.

(** ** Interleavings

    A call of the coordinator at the query it makes next. *)
Inductive task :=
| Requesting (c : ctx) (now : Time) (request : ApprovalRequest)
| Deciding (c : ctx) (now : Time) (id : string) (by_ : N) (approve : bool) (note : string)
| DecideWriting (c : ctx) (now : Time) (id : string) (by_ : N) (approve : bool) (record : AgentApproval)
| Consuming (c : ctx) (now now' : Time) (id : string) (p : Principal)
| ConsumeReading (c : ctx) (now now' : Time) (id : string) (p : Principal) (request : ApprovalRequest)
| ConsumeWriting (c : ctx) (now now' : Time) (id : string) (p : Principal) (request : ApprovalRequest)
    (record : AgentApproval).
Definition fresh (τ : task) : bool :=
  match τ with Requesting _ _ _ | Deciding _ _ _ _ _ _ | Consuming _ _ _ _ _ => true | _ => false end.

Section Interleaving.
Context {DB : Type} {i_gorm : Gorm DB} {i_codec : ApprovalCodec}.
Import Approval.

(** One query: the call at its next query, and what it answers at its end. *)
Definition advance (τ : task) (s : DB) : option task * list event * DB :=
  let fail := λ s', (None, [], s') in
  match τ with
  | Requesting c now r =>
      match Request c now r s with (Ok _, s') => (None, [ERequested r], s') | (Err _, s') => fail s' end
  | Deciding c now id by_ approve note =>
      match decide_read c now id by_ approve note s with
      | (Ok record, s') => (Some (DecideWriting c now id by_ approve record), [], s')
      | (Err _, s') => fail s'
      end
  | DecideWriting c now id by_ approve record =>
      match decide_write c id record s with
      | (Ok _, s') => (None, [EDecided id by_ approve now], s')
      | (Err _, s') => fail s'
      end
  | Consuming c now now' id p =>
      match GetApproved c now id p s with
      | (Ok r, s') => (Some (ConsumeReading c now now' id p r), [], s')
      | (Err _, s') => fail s'
      end
  | ConsumeReading c now now' id p r =>
      match consume_read c id s with
      | (Ok record, s') => (Some (ConsumeWriting c now now' id p r record), [], s')
      | (Err _, s') => fail s'
      end
  | ConsumeWriting c now now' id p r record =>
      match consume_write c now' id record s with
      | (Ok _, s') => (None, [EConsumed id p now r], s')
      | (Err _, s') => fail s'
      end
  end.

(** The queries of a call one after the other are the call. *)
Fixpoint alone (n : nat) (τ : task) (s : DB) : list event * DB :=
  match n with
  | 0 => ([], s)
  | S n => match advance τ s with
           | (None, log, s') => (log, s')
           | (Some τ', log, s') => let '(log', s'') := alone n τ' s' in (log ++ log', s'')
           end
  end.
Lemma alone_Decide c now id by_ approve note s :
  alone 2 (Deciding c now id by_ approve note) s =
    let '(x, s') := Decide c now id by_ approve note s in
    (if is_ok x then [EDecided id by_ approve now] else [], s').
Proof.
  cbn [alone advance]. unfold Decide, bind. destruct (decide_read _ _ _ _ _ _ s) as [[r|e] s1]; [|done].
  cbn [alone advance]. by destruct (decide_write c id r s1) as [[[]|e] s2].
Qed.
Lemma alone_Consume c now now' id p s :
  alone 3 (Consuming c now now' id p) s =
    let '(x, s') := Consume c now now' id p s in
    (match x with Ok r => [EConsumed id p now r] | Err _ => [] end, s').
Proof.
  cbn [alone advance]. unfold Consume, bind, ret. destruct (GetApproved _ _ _ _ s) as [[r|e] s1]; [|done].
  cbn [alone advance]. destruct (consume_read c id s1) as [[record|e] s2]; [|done].
  cbn [alone advance]. by destruct (consume_write c now' id record s2) as [[[]|e] s3].
Qed.

Context {i_laws : GormLaws DB}.

(** The database, the calls under way and the calls that succeeded. *)
Definition state : Type := DB * list task * list event.
Inductive interleaves : state → state → Prop :=
| step_arrive τ s l log : fresh τ = true → interleaves (s, l, log) (s, τ :: l, log)
| step_query τ l1 l2 s s' log new τ' : advance τ s = (τ', new, s') →
    interleaves (s, l1 ++ τ :: l2, log) (s', l1 ++ from_option (λ τ, [τ]) [] τ' ++ l2, log ++ new)
| step_crash τ l1 l2 s log : interleaves (s, l1 ++ τ :: l2, log) (s, l1 ++ l2, log)
| step_else s s' l log : agent_approvals (tables s') = agent_approvals (tables s) → interleaves (s, l, log) (s', l, log).
Definition Reachable (s0 : DB) (x : state) : Prop := rtc interleaves (s0, [], []) x.
End Interleaving.

(** ** The invariant *)
Section Invariant.
Context {DB : Type} {i_gorm : Gorm DB} {i_laws : GormLaws DB} {i_codec : ApprovalCodec} {i_claws : ApprovalCodecLaws}.
Import Approval.

(** What no update of a row touches, and the request in it. *)
Definition fixed (row : AgentApproval) : AgentApproval :=
  row<| rv_Status := 0%N |><| rv_DecidedBy := None |><| rv_DecisionNote := "" |><| rv_DecidedAt := None |>
     <| rv_UpdatedAt := 0%Z |>.
Definition content (row : AgentApproval) : Result ApprovalRequest :=
  match decode row with Ok (r, _) => Ok r | Err e => Err e end.
Definition grows (rows rows' : gmap string AgentApproval) : Prop :=
  ∀ id row, rows !! id = Some row → ∃ row', rows' !! id = Some row' ∧ fixed row' = fixed row.

Lemma content_fixed row row' : fixed row' = fixed row → content row' = content row.
Proof.
  intros H. enough (∀ x, content x = content (fixed x)) as Hf by by rewrite (Hf row), (Hf row'), H.
  intros []. unfold content, decode, fixed. simpl. by repeat case_match; simplify_eq.
Qed.

(** The row of a request, and the phase its status stands for. *)
Definition holds (r : ApprovalRequest) (row : AgentApproval) : Prop :=
  rv_ExpiresAt row = ap_ExpiresAt r ∧ rv_RequestedBy row = ap_RequestedBy r ∧
  ∀ r', content row = Ok r' → reload r = Ok r'.
Inductive row_phase : N → ApprovalRequest → phase → Prop :=
| phase_pending r : row_phase 0 r (Pending r)
| phase_approved r : row_phase 1 r (Approved r)
| phase_denied r : row_phase 2 r Denied
| phase_expired r : row_phase 3 r (Pending r)
| phase_consumed r : row_phase 4 r Consumed.
Definition row_ok (rows : gmap string AgentApproval) (log : list event) (id : string) : Prop :=
  match rows !! id with
  | None => life id log Absent
  | Some row => ∃ r q, holds r row ∧ row_phase (rv_Status row) r q ∧ life id log q
  end.

Definition consumable (rows : gmap string AgentApproval) (id : string) (p : Principal) (now : Time) (r : ApprovalRequest) : Prop :=
  ∃ row, rows !! id = Some row ∧ content row = Ok r ∧ After (rv_ExpiresAt row) now = true ∧
    rv_RequestedBy row = UserID p ∧ b_Principal (inv_Binding (ap_Invocation r)) = p.
Definition decidable_ (rows : gmap string AgentApproval) (id : string) (approve : bool) (now : Time) (record : AgentApproval) : Prop :=
  rv_ID record = id ∧ ∃ row, rows !! id = Some row ∧
    (rv_Status record = 3%N ∨ After (rv_ExpiresAt row) now = true ∧ rv_Status record = if approve then 1%N else 2%N).
Definition task_ok (rows : gmap string AgentApproval) (τ : task) : Prop :=
  match τ with
  | DecideWriting _ now id _ approve record => decidable_ rows id approve now record
  | ConsumeReading _ now _ id p r => consumable rows id p now r
  | ConsumeWriting _ now _ id p r record => consumable rows id p now r ∧ rv_ID record = id
  | _ => True
  end.
Definition Inv (x : state (DB := DB)) : Prop :=
  let '(s, l, log) := x in
  (∀ id, row_ok (agent_approvals (tables s)) log id) ∧ Forall (task_ok (agent_approvals (tables s))) l.

Lemma fixed_ExpiresAt row row' : fixed row' = fixed row → rv_ExpiresAt row' = rv_ExpiresAt row.
Proof. by intros [= ]. Qed.
Lemma fixed_RequestedBy row row' : fixed row' = fixed row → rv_RequestedBy row' = rv_RequestedBy row.
Proof. by intros [= ]. Qed.
Lemma holds_fixed r row row' : fixed row' = fixed row → holds r row → holds r row'.
Proof.
  intros H (He & Hb & Hc). unfold holds.
  by rewrite (content_fixed _ _ H), (fixed_ExpiresAt _ _ H), (fixed_RequestedBy _ _ H).
Qed.
Lemma task_ok_grows rows rows' τ : grows rows rows' → task_ok rows τ → task_ok rows' τ.
Proof.
  intros Hg.
  assert (∀ id p now r, consumable rows id p now r → consumable rows' id p now r) as Hcons.
  { intros id p now r (row & Hrow & Hc & Hrest). destruct (Hg _ _ Hrow) as (row' & Hrow' & Hf). exists row'.
    by rewrite (content_fixed _ _ Hf), (fixed_ExpiresAt _ _ Hf), (fixed_RequestedBy _ _ Hf). }
  destruct τ; simpl; try done; try naive_solver.
  intros (Hid & row & Hrow & Hst). split; [done|]. destruct (Hg _ _ Hrow) as (row' & Hrow' & Hf). exists row'.
  by rewrite (fixed_ExpiresAt _ _ Hf).
Qed.

Lemma life_others id log new q : Forall (λ e, about e ≠ id) new → life id log q → life id (log ++ new) q.
Proof.
  intros Hnew Hl. induction new as [|e new IH] using rev_ind; [by rewrite app_nil_r|].
  apply Forall_app in Hnew as [H1 H2]. rewrite app_assoc. apply life_other; [by apply IH|]. by inversion H2.
Qed.
(** One row is written, with at most the events of that approval. *)
Lemma row_ok_write rows log new id row r q :
  (∀ i, row_ok rows log i) → Forall (λ e, about e = id) new →
  holds r row → row_phase (rv_Status row) r q → life id (log ++ new) q →
  ∀ i, row_ok (<[id := row]> rows) (log ++ new) i.
Proof.
  intros Hok Hnew Hh Hp Hl i. unfold row_ok. destruct (decide (id = i)) as [<-|Hne].
  - rewrite lookup_insert_eq. eauto.
  - rewrite lookup_insert_ne by done. specialize (Hok i). unfold row_ok in Hok.
    assert (Forall (λ e, about e ≠ i) new) as Hnew' by (eapply Forall_impl; [done|]; simpl; congruence).
    destruct (rows !! i); [|by apply life_others]. destruct Hok as (r' & q' & ? & ? & ?).
    exists r', q'. split_and!; [done|done|]. by apply life_others.
Qed.
Lemma grows_insert rows id row row' :
  rows !! id = Some row → fixed row' = fixed row → grows rows (<[id := row']> rows).
Proof.
  intros Hr Hf i x Hx. destruct (decide (id = i)) as [<-|]; [|by rewrite lookup_insert_ne; eauto].
  rewrite lookup_insert_eq. eexists. split; [done|]. congruence.
Qed.
Lemma grows_new rows id row : rows !! id = None → grows rows (<[id := row]> rows).
Proof. intros Hr i x Hx. rewrite lookup_insert_ne by congruence. eauto. Qed.

(** *** The writes *)
Definition status_is (n : N) (r : AgentApproval) : bool := bool_decide (rv_Status r = n).
Definition written (n : N) (record : AgentApproval) (t t' : Tables) : Prop :=
  ∃ row row', agent_approvals t !! rv_ID record = Some row ∧ rv_Status row = n ∧ fixed row' = fixed row ∧
    rv_Status row' = rv_Status record ∧ agent_approvals t' = <[rv_ID record := row']> (agent_approvals t).

Lemma CAS_effect c record n (s : DB) x s' :
  Dao.UpdateAgentApprovalCAS c record n s = (x, s') →
  match x with Ok true => written n record (tables s) (tables s') | _ => tables s' = tables s end.
Proof.
  intros H. change (cas c (rv_ID record) (status_is n) (Dao.approval_columns record) s = (x, s')) in H.
  destruct (does_cas c (rv_ID record) (status_is n) (Dao.approval_columns record) (tables s)
    ltac:(by intros []) _ _ _ eq_refl H) as [_ Hd].
  destruct x as [[]|e]; simpl.
  - destruct (Hd true eq_refl) as (row & now & Hr & Hq & Ht). apply bool_decide_eq_true in Hq.
    exists row, (stamp now (Dao.approval_columns record row)). split_and!; [done|done|by destruct row|done|by rewrite Ht].
  - exact (Hd false eq_refl).
  - unfold cas, bind, ret in H. destruct (Updates c _ _ s) as [[m|e1] s1] eqn:HU; [done|]. simplify_eq.
    by apply Updates_law in HU as [_ HU]; [|by intros []].
Qed.

Lemma decide_write_effect c id record (s : DB) x s' :
  decide_write c id record s = (x, s') →
  written 0 record (tables s) (tables s') ∧ is_ok x = negb (bool_decide (rv_Status record = 3%N)) ∨
  tables s' = tables s ∧ is_ok x = false.
Proof.
  unfold decide_write, bind, map_err. destruct (Dao.UpdateAgentApprovalCAS _ _ _ s) as [y s1] eqn:H.
  apply CAS_effect in H. destruct y as [[]|e]; simpl; [|intros [= <- <-]; by right..].
  change (approval_u8 ApprovalExpired) with 3%N. case_bool_decide; intros [= <- <-]; by left.
Qed.
Lemma consume_write_effect c now id record (s : DB) x s' :
  consume_write c now id record s = (x, s') →
  if is_ok x then written 1 (record<| rv_Status := 4%N |><| rv_UpdatedAt := now |>) (tables s) (tables s')
  else tables s' = tables s.
Proof.
  unfold consume_write, bind, map_err. destruct (Dao.UpdateAgentApprovalCAS _ _ _ s) as [y s1] eqn:H.
  apply CAS_effect in H. destruct y as [[]|e]; simpl; by intros [= <- <-].
Qed.
(** A new row holds its request. *)
Lemma Request_effect c now r (s : DB) x s' :
  Request c now r s = (x, s') →
  if is_ok x then ∃ row, agent_approvals (tables s) !! ap_ID r = None ∧ holds r row ∧ rv_Status row = 0%N ∧
    agent_approvals (tables s') = <[ap_ID r := row]> (agent_approvals (tables s))
  else tables s' = tables s.
Proof.
  unfold Request. destruct (_ || _); [by intros [= <- <-]|]. unfold bind, map_err, lift.
  destruct (marshal_invocation (ap_Invocation r)) as [i|e] eqn:Hi; [|by intros [= <- <-]].
  destruct (marshal_snapshot (ap_Snapshot r)) as [n|e] eqn:Hn; [|by intros [= <- <-]].
  destruct (Dao.CreateAgentApproval c _ s) as [[[]|e] s1] eqn:H; intros [= <- <-]; apply Create_law in H as [_ H]; [|done].
  destruct H as (Hnone & _ & t & Ht). simpl in Hnone. cbn [is_ok].
  eexists. split_and!; [done| | |rewrite Ht; reflexivity]; [|done].
  unfold holds, content, reload, decode. rewrite Hi, Hn. cbn. unfold or_default.
  rewrite (bool_decide_eq_false_2 (i = "")) by (by eapply invocation_text).
  rewrite (bool_decide_eq_false_2 (n = "")) by (by eapply snapshot_text).
  split_and!; [done|done|]. intros r'. by destruct (unmarshal_invocation i), (unmarshal_snapshot n).
Qed.

(** *** The reads *)
Lemma decide_read_effect c now id by_ approve note (s : DB) x s' :
  decide_read c now id by_ approve note s = (x, s') → tables s' = tables s ∧
  ∀ record, x = Ok record → decidable_ (agent_approvals (tables s)) id approve now record.
Proof.
  unfold decide_read. destruct (_ || _); [by intros [= <- <-]|]. unfold bind, map_err, Dao.GetAgentApproval.
  destruct (First c id s) as [[row|e] s1] eqn:H; apply First_law in H as (_ & Ht & Hr); [|by intros [= <- <-]].
  case_bool_decide; intros [= <- <-]; split; [done|done|done|]. intros record [= <-].
  split; [exact (get_keyed (Row := AgentApproval) _ (tables_keyed s) _ _ Hr)|]. exists row. split; [done|].
  unfold decided. destruct (After (rv_ExpiresAt row) now); simpl; [right; by destruct approve|by left].
Qed.
Lemma GetApproved_effect c now id p (s : DB) x s' :
  GetApproved c now id p s = (x, s') → tables s' = tables s ∧
  ∀ r, x = Ok r → consumable (agent_approvals (tables s)) id p now r.
Proof.
  unfold GetApproved, Get, bind, map_err, Dao.GetAgentApproval, lift.
  destruct (First c id s) as [[row|e] s1] eqn:H; apply First_law in H as (_ & Ht & Hr); [|by intros [= <- <-]].
  destruct (decode row) as [[r st]|e] eqn:Hd; [|by intros [= <- <-]].
  assert (ap_ExpiresAt r = rv_ExpiresAt row ∧ ap_RequestedBy r = rv_RequestedBy row) as [He Hb].
  { revert Hd. unfold decode. repeat case_match; intros [= <- _] || intros [=]; done. }
  rewrite He, Hb. case_bool_decide; [by intros [= <- <-]|].
  destruct (After (rv_ExpiresAt row) now) eqn:Ha; simpl; [|by intros [= <- <-]].
  case_bool_decide as Hu; [by intros [= <- <-]|]. case_bool_decide as Hp; [by intros [= <- <-]|].
  intros [= <- <-]. split; [done|]. intros ? [= <-]. exists row. unfold content. rewrite Hd.
  by split_and!.
Qed.
Lemma consume_read_effect c id (s : DB) x s' :
  consume_read c id s = (x, s') → tables s' = tables s ∧ ∀ record, x = Ok record → rv_ID record = id.
Proof.
  unfold consume_read, map_err, Dao.GetAgentApproval.
  destruct (First c id s) as [[row|e] s1] eqn:H; apply First_law in H as (_ & Ht & Hr); intros [= <- <-]; split; try done.
  intros ? [= <-]. exact (get_keyed (Row := AgentApproval) _ (tables_keyed s) _ _ Hr).
Qed.

(** *** Every step keeps it *)
Definition advanced (log : list event) (x : option task * list event * DB) (rows : gmap string AgentApproval) : Prop :=
  let '(τ', new, s') := x in
  let rows' := agent_approvals (tables s') in
  (∀ i, row_ok rows' (log ++ new) i) ∧ grows rows rows' ∧ ∀ τ, τ' = Some τ → task_ok rows' τ.

Lemma grows_refl rows : grows rows rows.
Proof. intros id row H. eauto. Qed.
Lemma advanced_read log τ' (s s' : DB) :
  tables s' = tables s → (∀ i, row_ok (agent_approvals (tables s)) log i) →
  (∀ τ, τ' = Some τ → task_ok (agent_approvals (tables s)) τ) →
  advanced log (τ', [], s') (agent_approvals (tables s)).
Proof. intros Ht Hr Hτ. unfold advanced. rewrite Ht, app_nil_r. auto using grows_refl. Qed.
Lemma advanced_write log new n record (s s' : DB) :
  written n record (tables s) (tables s') → (∀ i, row_ok (agent_approvals (tables s)) log i) →
  Forall (λ e, about e = rv_ID record) new →
  (∀ row r q, agent_approvals (tables s) !! rv_ID record = Some row → holds r row → row_phase n r q → life (rv_ID record) log q →
    ∃ q', row_phase (rv_Status record) r q' ∧ life (rv_ID record) (log ++ new) q') →
  advanced log (None, new, s') (agent_approvals (tables s)).
Proof.
  intros (row & row' & Hrow & Hn & Hf & Hst & Ht) Hr Hnew Hq. unfold advanced. rewrite Ht.
  split; [|split; [by eapply grows_insert|done]].
  pose proof (Hr (rv_ID record)) as Hid. unfold row_ok in Hid. rewrite Hrow in Hid. destruct Hid as (r & q & Hh & Hp & Hl).
  rewrite Hn in Hp. destruct (Hq row r q Hrow Hh Hp Hl) as (q' & Hp' & Hl').
  eapply row_ok_write; [done|done|by eapply holds_fixed|by rewrite Hst|done].
Qed.

Lemma advance_decide c now id by_ approve record (s : DB) log :
  (∀ i, row_ok (agent_approvals (tables s)) log i) → decidable_ (agent_approvals (tables s)) id approve now record →
  advanced log (advance (DecideWriting c now id by_ approve record) s) (agent_approvals (tables s)).
Proof.
  intros Hr (Hid & row & Hrow & Hst). simpl. destruct (decide_write c id record s) as [x s1] eqn:H.
  apply decide_write_effect in H as [[Hw Hx]|[Ht Hx]].
  - case_bool_decide as H3; simpl in Hx; destruct x as [[]|e]; try done.
    + eapply advanced_write; [done|done|by constructor|]. intros _ r q _ _ Hp Hl. rewrite H3, app_nil_r.
      inversion Hp; subst. eauto using row_phase.
    + eapply advanced_write; [done|done|by repeat constructor|]. intros row' r q Hrow' Hh Hp Hl.
      rewrite Hid in Hrow'. destruct Hst as [|[Ha Hst]]; [done|]. simplify_eq. destruct Hh as (He & _). rewrite He in Ha.
      inversion Hp; subst. rewrite Hst. destruct approve; eexists; (split; [constructor|]);
        eapply life_event; eauto using accepts.
  - destruct x as [[]|e]; [done|]. by apply advanced_read.
Qed.
Lemma advance_consume c now now' id p r record (s : DB) log :
  (∀ i, row_ok (agent_approvals (tables s)) log i) → consumable (agent_approvals (tables s)) id p now r →
  rv_ID record = id →
  advanced log (advance (ConsumeWriting c now now' id p r record) s) (agent_approvals (tables s)).
Proof.
  intros Hr (row & Hrow & Hc & Ha & Hu & Hp) Hid. simpl. destruct (consume_write c now' id record s) as [x s1] eqn:H.
  apply consume_write_effect in H. destruct x as [[]|e]; simpl in H; [|by apply advanced_read].
  eapply advanced_write; [done|done|by repeat constructor|]. simpl. rewrite Hid.
  intros row' r0 q Hrow' (He & Hb & Hl0) Hph Hl. simplify_eq. inversion Hph; subst. exists Consumed. split; [constructor|].
  eapply life_event; [done|done|]. apply accepts_consume; [congruence|congruence|by apply Hl0|done].
Qed.
Lemma advance_ok τ (s : DB) log :
  (∀ i, row_ok (agent_approvals (tables s)) log i) → task_ok (agent_approvals (tables s)) τ →
  advanced log (advance τ s) (agent_approvals (tables s)).
Proof.
  intros Hr Hτ. destruct τ as [c now r|c now id b a note| |c now now' id p|c now now' id p r|]; simpl in Hτ.
  - simpl. destruct (Request c now r s) as [x s1] eqn:H. apply Request_effect in H.
    destruct x as [[]|e]; simpl in H; [|by apply advanced_read]. destruct H as (row & Hn & Hh & Hst & Ht).
    unfold advanced. rewrite Ht. split; [|split; [by apply grows_new|done]].
    pose proof (Hr (ap_ID r)) as Hid. unfold row_ok in Hid. rewrite Hn in Hid.
    eapply row_ok_write; [done|by repeat constructor|done|rewrite Hst; constructor|].
    eapply life_event; [done|done|constructor].
  - simpl. destruct (decide_read c now id b a note s) as [x s1] eqn:H. apply decide_read_effect in H as [Ht H].
    destruct x; (apply advanced_read; [done|done|]); [|done]. intros τ [= <-]. by apply H.
  - by apply advance_decide.
  - simpl. destruct (GetApproved c now id p s) as [x s1] eqn:H. apply GetApproved_effect in H as [Ht H].
    destruct x; (apply advanced_read; [done|done|]); [|done]. intros τ [= <-]. by apply H.
  - simpl. destruct (consume_read c id s) as [x s1] eqn:H. apply consume_read_effect in H as [Ht H].
    destruct x; (apply advanced_read; [done|done|]); [|done]. intros τ [= <-]. split; [done|by apply H].
  - destruct Hτ. by apply advance_consume.
Qed.

Lemma Inv_step x y : Inv x → interleaves x y → Inv y.
Proof.
  intros HI H. destruct H as [τ s l log Hτ|τ l1 l2 s s' log new τ' Ha|τ l1 l2 s log|s s' l log Hs]; destruct HI as [Hr Ht].
  - split; [done|]. constructor; [by destruct τ|done].
  - apply Forall_app in Ht as [Ht1 Ht2]. inversion Ht2 as [|?? Hτ Ht3]; subst.
    pose proof (advance_ok τ s log Hr Hτ) as Hadv. rewrite Ha in Hadv. destruct Hadv as (Hr' & Hg & Hτ').
    split; [done|]. apply Forall_app. split; [eapply Forall_impl; [done|]; eauto using task_ok_grows|].
    apply Forall_app. split; [|eapply Forall_impl; [done|]; eauto using task_ok_grows].
    destruct τ'; simpl; [|done]. constructor; [by apply Hτ'|done].
  - split; [done|]. apply Forall_app in Ht as [Ht1 Ht2]. inversion Ht2. by apply Forall_app.
  - unfold Inv. by rewrite Hs.
Qed.
Lemma Inv_reachable (s0 : DB) x : agent_approvals (tables s0) = ∅ → Reachable s0 x → Inv x.
Proof.
  intros H0 H. unfold Reachable in H. assert (Inv (s0, [], [])) as Hi.
  { split; [|done]. intros id. unfold row_ok. rewrite H0, lookup_empty. constructor. }
  revert Hi. induction H as [|x y z Hxy _ IH]; [done|]. intros Hi. by apply IH, (Inv_step x).
Qed.
End Invariant.

(** ** What a life tells *)
Section Lives.
Context {i_codec : ApprovalCodec}.

Lemma accepts_det q e q1 q2 : accepts q e q1 → accepts q e q2 → q1 = q2.
Proof. intros H1 H2. destruct H1; by inversion H2. Qed.
Lemma app_last_inj {A} (l l' : list A) x x' : l ++ [x] = l' ++ [x'] → l = l' ∧ x = x'.
Proof. intros H. by apply app_inj_2 in H as [? [=]]. Qed.
Lemma life_snoc id log e q :
  life id (log ++ [e]) q → (about e ≠ id ∧ life id log q) ∨ (about e = id ∧ ∃ q0, life id log q0 ∧ accepts q0 e q).
Proof.
  remember (log ++ [e]) as l eqn:Hl. intros H. destruct H; [by destruct log| |];
    apply app_last_inj in Hl as [-> ->]; [by left|right; eauto].
Qed.
Lemma life_empty id q : life id [] q → q = Absent.
Proof. remember [] as l eqn:Hl. intros H. destruct H; [done|by destruct log..]. Qed.
Lemma life_det id log : ∀ q1 q2, life id log q1 → life id log q2 → q1 = q2.
Proof.
  induction log as [|e log IH] using rev_ind; intros q1 q2 H1 H2.
  - by rewrite (life_empty _ _ H1), (life_empty _ _ H2).
  - apply life_snoc in H1 as [[? H1]|(Ha & p1 & H1 & A1)], H2 as [[? H2]|(? & p2 & H2 & A2)]; try done.
    + by apply IH.
    + rewrite (IH p1 p2 H1 H2) in A1. by eapply accepts_det.
Qed.
(** A log accepted is accepted event by event. *)
Lemma life_prefix id log1 log2 q : life id (log1 ++ log2) q → ∃ q', life id log1 q'.
Proof.
  revert q. induction log2 as [|e log2 IH] using rev_ind; intros q; [rewrite app_nil_r; eauto|].
  rewrite app_assoc. intros [[_ H]|(_ & q0 & H & _)]%life_snoc; by eapply IH.
Qed.
Lemma life_consumed id log1 log2 q :
  life id log1 Consumed → life id (log1 ++ log2) q → q = Consumed ∧ Forall (λ e, about e ≠ id) log2.
Proof.
  intros Hc. revert q. induction log2 as [|e log2 IH] using rev_ind; intros q.
  - rewrite app_nil_r. intros H. split; [by eapply life_det|done].
  - rewrite app_assoc. intros [[Ha H]|(_ & q0 & H & Hq)]%life_snoc; apply IH in H as [-> H]; [|by inversion Hq].
    split; [done|]. apply Forall_app. by repeat constructor.
Qed.
Lemma life_pending id log r : life id log (Pending r) → ap_ID r = id ∧ ERequested r ∈ log.
Proof.
  remember (Pending r) as q eqn:Hq. induction 1 as [|log e q H IH|log e q q' H IH Ha Hacc]; subst; [done| |].
  - destruct (IH eq_refl). split; [done|]. by apply elem_of_app; left.
  - inversion Hacc; subst. simpl in *. split; [done|]. apply elem_of_app; right. by left.
Qed.
Lemma life_approved id log r : life id log (Approved r) →
  ap_ID r = id ∧ ERequested r ∈ log ∧ ∃ by_ at_, EDecided id by_ true at_ ∈ log.
Proof.
  remember (Approved r) as q eqn:Hq. induction 1 as [|log e q H IH|log e q q' H IH Ha Hacc]; subst; [done| |].
  - destruct (IH eq_refl) as (? & ? & b & t & ?). split; [done|]. split; [by apply elem_of_app; left|].
    exists b, t. by apply elem_of_app; left.
  - inversion Hacc; subst. destruct (life_pending _ _ _ H). split; [done|]. split; [by apply elem_of_app; left|].
    eexists _, _. apply elem_of_app; right. by left.
Qed.
End Lives.

(** ** Theorems *)
Section Theorems.
Context {DB : Type} {i_gorm : Gorm DB} {i_laws : GormLaws DB} {i_codec : ApprovalCodec} {i_claws : ApprovalCodecLaws}.

Lemma reachable_life (s0 s : DB) l log id :
  agent_approvals (tables s0) = ∅ → Reachable s0 (s, l, log) → ∃ q, life id log q.
Proof.
  intros H0 H. destruct (Inv_reachable s0 _ H0 H) as [Hr _]. specialize (Hr id). unfold row_ok in Hr.
  destruct (_ !! id); [|eauto]. destruct Hr as (r & q & _ & _ & ?). eauto.
Qed.

(** C7. However calls of the approval coordinator interleave, query by query,
    in any number of processes on one database that may fail, and whichever of
    them die halfway: what succeeded of each approval is a life the
    specification allows. *)
Theorem approvals_follow_spec (s0 s : DB) l log :
  agent_approvals (tables s0) = ∅ → Reachable s0 (s, l, log) → ∀ id, ∃ q, life id log q.
Proof. intros H0 H id. by eapply reachable_life. Qed.

(** C6. An approval is consumed at most once, whatever calls run at the same
    time, and only after it was asked for by that principal and approved,
    before it expires; the consumer gets the request that was asked for, and
    nothing happens to the approval any more. *)
Theorem consumed_as_approved (s0 s : DB) l log1 log2 id p now r' :
  agent_approvals (tables s0) = ∅ → Reachable s0 (s, l, log1 ++ EConsumed id p now r' :: log2) →
  (∃ r by_ at_, ERequested r ∈ log1 ∧ ap_ID r = id ∧ EDecided id by_ true at_ ∈ log1 ∧ reload r = Ok r' ∧
    ap_RequestedBy r = UserID p ∧ After (ap_ExpiresAt r) now = true) ∧
  Forall (λ e, about e ≠ id) log2.
Proof.
  intros H0 H. destruct (reachable_life s0 s l _ id H0 H) as [q Hq]. clear H.
  rewrite cons_middle, app_assoc in Hq. destruct (life_prefix _ _ _ _ Hq) as [q1 Hq1].
  pose proof Hq1 as [[[] _]|(_ & q0 & Hq0 & Hacc)]%life_snoc; [done|]. inversion Hacc; subst.
  destruct (life_approved _ _ _ Hq0) as (Hid & Hreq & b & t & Hdec). split; [|by apply (life_consumed _ _ _ _ Hq1 Hq)].
  exists r, b, t. by split_and!.
Qed.
End Theorems.

(** ** Witnesses: two consumers race for one approval *)
Section Witnesses.
#[local] Instance demo_codec : ApprovalCodec := {|
  marshal_invocation := λ _, Ok "i"; unmarshal_invocation := λ _, Ok demo_inv;
  marshal_snapshot := λ _, Ok "s"; unmarshal_snapshot := λ _, Ok demo_snapshot
|}.
#[local] Instance demo_codec_laws : ApprovalCodecLaws.
Proof. by split; intros x v [= <-]. Qed.

(** A schedule: calls that arrive, and queries of the calls under way. *)
Definition query (i : nat) (x : state) : state :=
  let '(s, l, log) := x in
  match l !! i with
  | None => x
  | Some τ => let '(τ', new, s') := advance (DB := TableDB) τ s in
      (s', take i l ++ from_option (λ τ, [τ]) [] τ' ++ drop (S i) l, log ++ new)
  end.
Fixpoint play (acts : list (task + nat)) (x : state) : state :=
  match acts with
  | [] => x
  | inl τ :: acts => let '(s, l, log) := x in play acts (s, if fresh τ then τ :: l else l, log)
  | inr i :: acts => play acts (query i x)
  end.
Lemma play_reaches acts : ∀ x, rtc interleaves x (play acts x).
Proof.
  induction acts as [|[τ|i] acts IH]; intros [[s l] log]; simpl; [done| |].
  - destruct (fresh τ) eqn:Hf; [|apply IH]. eapply rtc_l; [by constructor|]. apply IH.
  - destruct (l !! i) as [τ|] eqn:Hi; [|apply IH]. destruct (advance τ s) as [[τ' new] s'] eqn:Ha.
    eapply rtc_l; [|apply IH]. rewrite <- (take_drop_middle l i τ Hi) at 1. by constructor.
Qed.

Definition w_principal : Principal := mkPrincipal 1 1.
Definition w_request : ApprovalRequest :=
  mkApproval "a1" "s1" "t1" "st1" 1 demo_inv demo_snapshot "" "" RiskReadOnly 2000%Z 0.
Definition race : list (task + nat) :=
  let consume := Consuming Background 1002%Z 1003%Z "a1" w_principal in
  [inl (Requesting Background 1000%Z w_request); inr 0;
   inl (Deciding Background 1001%Z "a1" 1 true ""); inl (Deciding Background 1001%Z "a1" 2 false "");
   inr 0; inr 1; inr 1; inr 0;
   inl consume; inl consume; inr 0; inr 1; inr 0; inr 1; inr 1; inr 0].
Definition raced : state := play race (empty_db 1000%Z, [], []).
Definition race_log : list event :=
  [ERequested w_request; EDecided "a1" 1 true 1001%Z; EConsumed "a1" w_principal 1002%Z w_request].
Lemma raced_log : snd raced = race_log ∧ snd (fst raced) = [].
Proof. vm_compute. by split. Qed.

Lemma approvals_follow_spec_witness : ∃ q, life "a1" race_log q.
Proof.
  rewrite <- (proj1 raced_log).
  apply (approvals_follow_spec (empty_db 1000%Z) (fst (fst raced)) (snd (fst raced)) (snd raced)); [reflexivity|].
  rewrite <- !surjective_pairing. apply play_reaches.
Defined.

Lemma consumed_as_approved_witness :
  ∃ r by_ at_, r = w_request ∧ EDecided "a1" by_ true at_ ∈ [ERequested w_request; EDecided "a1" 1 true 1001%Z].
Proof.
  destruct (consumed_as_approved (empty_db 1000%Z) (fst (fst raced)) (snd (fst raced))
    [ERequested w_request; EDecided "a1" 1 true 1001%Z] [] "a1" w_principal 1002%Z w_request) as [(r & b & t & Hr & _ & Hd & _) _].
  - reflexivity.
  - change ([ERequested w_request; EDecided "a1" 1 true 1001%Z] ++ [EConsumed "a1" w_principal 1002%Z w_request]) with race_log.
    rewrite <- (proj1 raced_log), <- !surjective_pairing. apply play_reaches.
  - exists r, b, t. split; [|exact Hd]. apply elem_of_cons in Hr as [Hr|Hr]; [congruence|].
    apply list_elem_of_singleton in Hr. discriminate Hr.
Defined.
End Witnesses.
