(* ===== verification/AccessSession.v ===== *)
(** * accesssession: the registry of live access sessions

    [registry.go].  A handle publishes the protocol objects of one live
    connection (a terminal, a data session, a desktop); the objects are
    pointers, kept as references.  Each operation holds the registry's lock,
    so it is one step.  The function [Register] returns to undo it is the pair
    it closes over.  [cerr] is what [ctx.Err()] answers. *)

From S2P Require Import Prelude Sha256 ToolTypes.

Definition ErrHandleNotFound : error :=
  ESentinel "accesssession.ErrHandleNotFound" "access session handle not found".
Definition ErrHandleMismatch : error :=
  ESentinel "accesssession.ErrHandleMismatch" "access session handle does not match attachment".

Record Descriptor := mkDescr {
  ds_ID : string;
  ds_UserID : N;
  ds_AccessID : N;
  ds_ApplicationID : N;
  ds_Protocol : Protocol;
  ds_Capabilities : list string;
  ds_Generation : N
}.
#[global] Instance Descriptor_eq : EqDecision Descriptor. Proof. solve_decision. Defined.
#[global] Instance eta_Descriptor_ : Eta Descriptor := {| eta := λ d,
  mkDescr (ds_ID d) (ds_UserID d) (ds_AccessID d) (ds_ApplicationID d) (ds_Protocol d) (ds_Capabilities d) (ds_Generation d) |}.

Record ResolveRequest := mkResolve {
  rq_ID : string;
  rq_UserID : N;
  rq_AccessID : N;
  rq_ApplicationID : N;
  rq_Protocol : Protocol;
  rq_Generation : N
}.

Record Handle := mkHandle {
  h_Descriptor : Descriptor;
  h_Terminal : option N;
  h_Data : option N;
  h_Desktop : option N
}.
#[global] Instance Handle_eq : EqDecision Handle. Proof. solve_decision. Defined.
#[global] Instance eta_Handle : Eta Handle := {| eta := λ h,
  mkHandle (h_Descriptor h) (h_Terminal h) (h_Data h) (h_Desktop h) |}.

Record Sessions := mkSessions {
  handles : gmap string Handle;
  generations : gmap string N
}.
#[global] Instance eta_Sessions : Eta Sessions := {| eta := λ r, mkSessions (handles r) (generations r) |}.
Definition NewRegistry : Sessions := mkSessions ∅ ∅.

(** [unregister] closes over the handle's identifier and generation. *)
Record Unregister := mkUnregister { un_ID : string; un_Generation : N }.

Module Access.
Definition incomplete (d : Descriptor) : bool :=
  bool_decide (ds_ID d = "") || bool_decide (ds_UserID d = 0%N) || bool_decide (ds_AccessID d = 0%N) ||
  bool_decide (ds_Protocol d = "").
Definition handlerless (h : Handle) : bool :=
  bool_decide (h_Terminal h = None) && bool_decide (h_Data h = None) && bool_decide (h_Desktop h = None).

Definition Register (handle : Handle) : Op Sessions (Descriptor * Unregister) :=
  throw_if incomplete (h_Descriptor handle) with ENew "access session descriptor is incomplete" ;;
  throw_if handlerless handle with ENew "access session requires a protocol handler" ;;
  let id := ds_ID (h_Descriptor handle) in
  let! generation := gets (λ r, u64_add (default 0%N (generations r !! id)) 1) in
  let handle := handle<| h_Descriptor := (h_Descriptor handle)<| ds_Generation := generation |> |> in
  modify (λ r, r<| generations := <[id := generation]> (generations r) |><| handles := <[id := handle]> (handles r) |>) ;;
  ret (h_Descriptor handle, mkUnregister id generation).

Definition unregister (u : Unregister) (r : Sessions) : Sessions :=
  match handles r !! un_ID u with
  | Some current =>
      if bool_decide (ds_Generation (h_Descriptor current) = un_Generation u)
      then r<| handles := delete (un_ID u) (handles r) |> else r
  | None => r
  end.

Definition Resolve (cerr : option error) (request : ResolveRequest) (r : Sessions) : Result Handle :=
  match cerr with
  | Some e => Err e
  | None =>
      match handles r !! rq_ID request with
      | None => Err (wrapf ErrHandleNotFound (rq_ID request))
      | Some handle =>
          let d := h_Descriptor handle in
          if bool_decide (ds_UserID d ≠ rq_UserID request) || bool_decide (ds_AccessID d ≠ rq_AccessID request) ||
             bool_decide (ds_ApplicationID d ≠ rq_ApplicationID request) ||
             bool_decide (ds_Protocol d ≠ rq_Protocol request) || bool_decide (ds_Generation d ≠ rq_Generation request)
          then Err ErrHandleMismatch else Ok handle
      end
  end.

Definition Describe (cerr : option error) (id : string) (userID : N) (r : Sessions) : Result Descriptor :=
  match cerr with
  | Some e => Err e
  | None =>
      match handles r !! id with
      | None => Err (wrapf ErrHandleNotFound id)
      | Some handle =>
          if bool_decide (userID = 0%N) || bool_decide (ds_UserID (h_Descriptor handle) ≠ userID)
          then Err ErrHandleMismatch else Ok (h_Descriptor handle)
      end
  end.

(** fmt.Sprintf("conn_%x", sha256.Sum256(id))[:29] *)
Definition PublicReference (id : string) : string := String.substring 0 29 ("conn_" +:+ Sha256.hexdigest id).

(** [order] is the order in which Go ranges over the map of handles. *)
Definition DescribeReference (order : gmap string Handle → list Handle) (cerr : option error) (reference : string)
    (userID : N) (r : Sessions) : Result Descriptor :=
  match cerr with
  | Some e => Err e
  | None =>
      if bool_decide (userID = 0%N) then Err ErrHandleNotFound else
      match List.find (λ h, bool_decide (ds_UserID (h_Descriptor h) = userID) &&
          bool_decide (PublicReference (ds_ID (h_Descriptor h)) = reference)) (order (handles r)) with
      | Some h => Ok ((h_Descriptor h)<| ds_ID := "" |>)
      | None => Err ErrHandleNotFound
      end
  end.
End Access.

(** ** Histories *)
Inductive access_op := OpRegister (h : Handle) | OpUnregister (u : Unregister).
Definition access_step (r : Sessions) (op : access_op) : Sessions :=
  match op with OpRegister h => snd (Access.Register h r) | OpUnregister u => Access.unregister u r end.
Definition access_run : list access_op → Sessions → Sessions := λ ops r, fold_left access_step ops r.

Definition accepted (h : Handle) : bool := negb (Access.incomplete (h_Descriptor h)) && negb (Access.handlerless h).

(** Every handle is filed under its identifier, is complete, and is the last
    one registered under it; no identifier was registered more than [n] times. *)
Record awf (n : N) (r : Sessions) : Prop := {
  awf_handle id h : handles r !! id = Some h → ds_ID (h_Descriptor h) = id ∧ accepted h = true ∧
    generations r !! id = Some (ds_Generation (h_Descriptor h));
  awf_bound id g : generations r !! id = Some g → (g ≤ n)%N
}.

Lemma Access_Register_ok h r :
  accepted h = true →
  let id := ds_ID (h_Descriptor h) in
  let g := u64_add (default 0%N (generations r !! id)) 1 in
  let h' := h<| h_Descriptor := (h_Descriptor h)<| ds_Generation := g |> |> in
  Access.Register h r = (Ok (h_Descriptor h', mkUnregister id g),
    mkSessions (<[id := h']> (handles r)) (<[id := g]> (generations r))).
Proof.
  intros [H1 H2]%andb_true_iff. apply negb_true_iff in H1, H2. unfold Access.Register. rewrite H1, H2.
  by destruct r, h as [[] ? ? ?].
Qed.
Lemma Register_refused h r : accepted h = false → snd (Access.Register h r) = r ∧ is_ok (fst (Access.Register h r)) = false.
Proof.
  unfold accepted, Access.Register. destruct (Access.incomplete _); [done|]. by destruct (Access.handlerless h).
Qed.

Lemma awf_new : awf 0 NewRegistry.
Proof. split; intros *; simpl; by rewrite lookup_empty. Qed.
Lemma awf_step n r op : awf n r → (n + 1 < u64_max)%N → awf (n + 1) (access_step r op).
Proof.
  intros [Hh Hb] Hn. destruct op as [h|u]; simpl.
  - destruct (accepted h) eqn:Ha.
    + rewrite Access_Register_ok by done. simpl. set (g := u64_add _ 1).
      assert (default 0%N (generations r !! ds_ID (h_Descriptor h)) ≤ n)%N as Hg.
      { destruct (generations r !! _) eqn:E; simpl; [by eapply Hb|lia]. }
      assert (g ≤ n + 1)%N as Hg' by (unfold g; rewrite u64_add_small by lia; lia).
      split; simpl.
      * intros id h0 [[<- <-]|[Hne Hl]]%lookup_insert_Some; simpl.
        { split_and!; [done| |by rewrite lookup_insert_eq]. by destruct h as [[] ? ? ?]. }
        rewrite lookup_insert_ne by done. by apply Hh.
      * intros id g0 [[_ <-]|[_ Hl]]%lookup_insert_Some; [done|]. apply Hb in Hl. lia.
    + rewrite (proj1 (Register_refused h r Ha)). split; [done|]. intros id g Hl. apply Hb in Hl. lia.
  - split.
    + intros id h. unfold Access.unregister. destruct (handles r !! un_ID u); [|apply Hh].
      case_bool_decide; [|apply Hh]. simpl. rewrite lookup_delete_Some. intros [_ ?]. by apply Hh.
    + intros id g Hl. assert (g ≤ n)%N; [|lia]. apply (Hb id). revert Hl. unfold Access.unregister.
      by destruct (handles r !! un_ID u); [case_bool_decide|].
Qed.
Lemma awf_run ops : ∀ n r, awf n r → (n + N.of_nat (length ops) < u64_max)%N →
  awf (n + N.of_nat (length ops)) (access_run ops r).
Proof.
  induction ops as [|op ops IH]; intros n r Hr Hn; simpl; [by rewrite N.add_0_r|].
  simpl in Hn. replace (n + N.of_nat (S (length ops)))%N with ((n + 1) + N.of_nat (length ops))%N by lia.
  apply IH; [|lia]. apply awf_step; [done|lia].
Qed.

(** ** A registration while it lasts *)
Definition ends (d : Descriptor) (op : access_op) : bool :=
  match op with
  | OpRegister h => accepted h && bool_decide (ds_ID (h_Descriptor h) = ds_ID d)
  | OpUnregister u => bool_decide (un_ID u = ds_ID d) && bool_decide (un_Generation u = ds_Generation d)
  end.
Definition request_for (d : Descriptor) : ResolveRequest :=
  mkResolve (ds_ID d) (ds_UserID d) (ds_AccessID d) (ds_ApplicationID d) (ds_Protocol d) (ds_Generation d).

(** The registration with descriptor [d] is over: it was taken out or a newer
    one has its place. *)
Definition over (d : Descriptor) (r : Sessions) : Prop :=
  ∃ g, generations r !! ds_ID d = Some g ∧ (ds_Generation d ≤ g)%N ∧
    ∀ h, handles r !! ds_ID d = Some h → (ds_Generation d < ds_Generation (h_Descriptor h))%N.

Lemma step_keeps n r op d h :
  awf n r → (n + 1 < u64_max)%N → handles r !! ds_ID d = Some h → h_Descriptor h = d →
  if ends d op then over d (access_step r op) else handles (access_step r op) !! ds_ID d = Some h.
Proof.
  intros Hr Hn Hh Hd. destruct (awf_handle _ _ Hr _ _ Hh) as (Hid & Hacc & Hg). rewrite Hd in *.
  destruct op as [h0|u]; simpl.
  - destruct (accepted h0) eqn:Ha; simpl; [|by rewrite (proj1 (Register_refused h0 r Ha))].
    rewrite Access_Register_ok by done. simpl. case_bool_decide as He.
    + rewrite He in *. rewrite Hg. simpl. pose proof (awf_bound _ _ Hr _ _ Hg).
      exists (u64_add (ds_Generation d) 1). rewrite u64_add_small by lia. simpl. rewrite !lookup_insert_eq.
      split_and!; [done|lia|]. intros ? [= <-]. simpl. lia.
    + by rewrite lookup_insert_ne.
  - unfold Access.unregister. destruct (decide (un_ID u = ds_ID d)) as [Hu|Hu].
    + rewrite (bool_decide_eq_true_2 (un_ID u = ds_ID d)) by done. rewrite Hu, Hh, Hd. simpl.
      case_bool_decide as E1; case_bool_decide as E2; try congruence.
      exists (ds_Generation d). split_and!; [done|lia|]. simpl. by rewrite lookup_delete_eq.
    + rewrite (bool_decide_eq_false_2 (un_ID u = ds_ID d)) by done. simpl.
      destruct (handles r !! un_ID u); [|done]. case_bool_decide; [|done]. simpl. by rewrite lookup_delete_ne.
Qed.
Lemma step_over n r op d : awf n r → (n + 1 < u64_max)%N → over d r → over d (access_step r op).
Proof.
  intros Hr Hn (g & Hg & Hle & Hlt). destruct op as [h0|u]; simpl.
  - destruct (accepted h0) eqn:Ha; [|rewrite (proj1 (Register_refused h0 r Ha)); by exists g].
    rewrite Access_Register_ok by done. unfold over. simpl.
    destruct (decide (ds_ID (h_Descriptor h0) = ds_ID d)) as [He|He].
    + rewrite He, Hg. simpl. pose proof (awf_bound _ _ Hr _ _ Hg). rewrite u64_add_small by lia.
      exists (g + 1)%N. rewrite !lookup_insert_eq. split_and!; [done|lia|]. intros ? [= <-]. simpl. lia.
    + exists g. by rewrite !lookup_insert_ne by done.
  - exists g. unfold Access.unregister. destruct (handles r !! un_ID u) eqn:Hu; [|done].
    case_bool_decide; [|done]. simpl. split_and!; [done|done|]. intros h1 [_ Hh]%lookup_delete_Some. by apply Hlt.
Qed.

Lemma run_over ops : ∀ n r d, awf n r → (n + N.of_nat (length ops) < u64_max)%N → over d r → over d (access_run ops r).
Proof.
  induction ops as [|op ops IH]; intros n r d Hr Hn Ho; [done|]. simpl in *.
  eapply (IH (n + 1)%N); [apply awf_step; [done|lia]|lia|]. eapply step_over; [done|lia|done].
Qed.
Lemma run_outcome ops : ∀ n r d h,
  awf n r → (n + N.of_nat (length ops) < u64_max)%N → handles r !! ds_ID d = Some h → h_Descriptor h = d →
  if existsb (ends d) ops then over d (access_run ops r) else handles (access_run ops r) !! ds_ID d = Some h.
Proof.
  induction ops as [|op ops IH]; intros n r d h Hr Hn Hh Hd; [done|]. simpl in *.
  pose proof (step_keeps n r op d h Hr ltac:(lia) Hh Hd) as Hs.
  pose proof (awf_step n r op Hr ltac:(lia)) as Hr'. destruct (ends d op); simpl.
  - eapply (run_over ops (n + 1)%N); [done|lia|done].
  - eapply (IH (n + 1)%N); [done|lia|done|done].
Qed.

(** A request with the facts of a registration finds its handle while it
    lasts, and nothing afterwards. *)
Lemma Resolve_live d h r :
  handles r !! ds_ID d = Some h → h_Descriptor h = d → Access.Resolve None (request_for d) r = Ok h.
Proof. intros Hh Hd. unfold Access.Resolve. simpl. rewrite Hh, Hd. by rewrite !bool_decide_eq_false_2 by (by intros []). Qed.
Lemma Resolve_over d q r :
  over d r → rq_ID q = ds_ID d → rq_Generation q = ds_Generation d → is_ok (Access.Resolve None q r) = false.
Proof.
  intros (g & _ & _ & Hlt) Hi Hg. unfold Access.Resolve. rewrite Hi.
  destruct (handles r !! ds_ID d) as [h|] eqn:Hh; [|done]. specialize (Hlt h eq_refl).
  rewrite (bool_decide_eq_true_2 (ds_Generation (h_Descriptor h) ≠ rq_Generation q)) by lia. by rewrite orb_true_r.
Qed.
Lemma Resolve_sound cerr q r h :
  Access.Resolve cerr q r = Ok h →
  cerr = None ∧ handles r !! rq_ID q = Some h ∧ ds_UserID (h_Descriptor h) = rq_UserID q ∧
  ds_AccessID (h_Descriptor h) = rq_AccessID q ∧ ds_ApplicationID (h_Descriptor h) = rq_ApplicationID q ∧
  ds_Protocol (h_Descriptor h) = rq_Protocol q ∧ ds_Generation (h_Descriptor h) = rq_Generation q.
Proof.
  unfold Access.Resolve. destruct cerr; [done|]. destruct (handles r !! rq_ID q) as [h'|]; [|done].
  destruct (_ || _) eqn:Hb; [done|]. intros [= ->]. bools. by split_and!.
Qed.

(** What [Register] returned identifies its connection for as long as it
    is there and never another one.  Through any further registrations and any
    calls of [unregister], earlier ones included (fewer than 2^64 in all), a
    request with its facts resolves to this very handle, until the same
    identifier is registered again or this registration is undone; from then
    on every request for its generation is refused. *)
Theorem resolves_until_replaced before ops h d u r1 :
  Access.Register h (access_run before NewRegistry) = (Ok (d, u), r1) →
  (N.of_nat (length before) + N.of_nat (length ops) + 1 < u64_max)%N →
  if existsb (ends d) ops
  then ∀ q, rq_ID q = ds_ID d → rq_Generation q = ds_Generation d →
    is_ok (Access.Resolve None q (access_run ops r1)) = false
  else Access.Resolve None (request_for d) (access_run ops r1) = Ok (h<| h_Descriptor := d |>).
Proof.
  intros H Hn. pose proof (awf_run before 0 NewRegistry awf_new ltac:(lia)) as Hr.
  pose proof (awf_step _ _ (OpRegister h) Hr ltac:(lia)) as Hr1. simpl in Hr1. rewrite H in Hr1. simpl in Hr1.
  destruct (accepted h) eqn:Ha; [|by destruct (Register_refused h (access_run before NewRegistry) Ha) as [_ Hf]; rewrite H in Hf].
  rewrite Access_Register_ok in H by done. set (g := u64_add _ 1) in H.
  assert (handles r1 !! ds_ID d = Some (h<| h_Descriptor := d |>)) as Hh.
  { simplify_eq. simpl. by rewrite lookup_insert_eq. }
  pose proof (run_outcome ops _ r1 d _ Hr1 ltac:(lia) Hh eq_refl) as Ho. destruct (existsb (ends d) ops).
  - intros q Hi Hg. by apply (Resolve_over d).
  - by apply Resolve_live.
Qed.

(** ** Witness: a connection that is replaced *)
Definition w_handle (terminal : N) : Handle := mkHandle (mkDescr "h1" 7 3 4 "web_ssh" ["terminal.read"] 0) (Some terminal) None None.
Lemma resolves_until_replaced_witness :
  let before := [OpRegister (w_handle 1); OpRegister (w_handle 2)] in
  let d := mkDescr "h1" 7 3 4 "web_ssh" ["terminal.read"] 3 in
  let r1 := access_run (before ++ [OpRegister (w_handle 3)]) NewRegistry in
  Access.Resolve None (request_for d) (access_run [OpUnregister (mkUnregister "h1" 1)] r1) = Ok ((w_handle 3)<| h_Descriptor := d |>) ∧
  is_ok (Access.Resolve None (request_for d) (access_run [OpRegister (w_handle 4)] r1)) = false.
Proof.
  intros before d r1.
  assert (Access.Register (w_handle 3) (access_run before NewRegistry) = (Ok (d, mkUnregister "h1" 3), r1)) as H
    by (vm_compute; reflexivity).
  split.
  - apply (resolves_until_replaced before [OpUnregister (mkUnregister "h1" 1)] (w_handle 3) d (mkUnregister "h1" 3) r1 H).
    reflexivity.
  - apply (resolves_until_replaced before [OpRegister (w_handle 4)] (w_handle 3) d (mkUnregister "h1" 3) r1 H);
      reflexivity.
Defined.
