(* ===== verification/Executors.v ===== *)
(** * agent/executor and agent/policy

    [router.go], [session.go], [binding.go], [tools.go]: how a tool call on an
    attached connection reaches the live objects of that connection, and
    [policy/authorization.go]: who may make it.  The router and the access
    session registry are parts of a larger state [St], read when a call needs
    them.  Protocol objects are references; their methods are a parameter
    ([SessionObjects]), as is [encoding/json] on the arguments of a call. *)

From S2P Require Import Prelude Json ToolTypes ToolRegistry ToolEngine ToolSource AccessSession.

Definition ProtocolTCP : Protocol := "tcp".
Definition ProtocolSSH : Protocol := "ssh".
Definition ProtocolWebSSH : Protocol := "web_ssh".
Definition ProtocolMySQL : Protocol := "mysql".
Definition ProtocolMariaDB : Protocol := "mariadb".
Definition ProtocolSQLServer : Protocol := "sqlserver".
Definition ProtocolOracle : Protocol := "oracle".
Definition ProtocolClickHouse : Protocol := "clickhouse".
Definition ProtocolElasticsearch : Protocol := "elasticsearch".
Definition ProtocolOpenSearch : Protocol := "opensearch".
Definition ProtocolPostgreSQL : Protocol := "postgresql".
Definition ProtocolRedis : Protocol := "redis".
Definition ProtocolMemcached : Protocol := "memcached".
Definition ProtocolMongoDB : Protocol := "mongodb".
Definition ProtocolRDP : Protocol := "rdp".
Definition ProtocolVNC : Protocol := "vnc".
Definition OutputText : OutputKind := "text".
Definition OutputTable : OutputKind := "table".
Definition OutputImage : OutputKind := "image".
Definition OutputArtifact : OutputKind := "artifact_ref".

Definition ErrExecutorNotFound : error := ESentinel "executor.ErrExecutorNotFound" "protocol executor not found".
Definition ErrOperationDenied : error := ESentinel "executor.ErrOperationDenied" "protocol operation not supported".

Definition Operation := string.
Definition OperationTerminalRead : Operation := "terminal.read".
Definition OperationTerminalExecute : Operation := "terminal.execute".
Definition OperationDataSchema : Operation := "data.schema".
Definition OperationDataQuery : Operation := "data.query".
Definition OperationDesktopInfo : Operation := "desktop.session_info".
Definition OperationDesktopCapture : Operation := "desktop.capture".
Definition OperationDesktopInput : Operation := "desktop.input".

Record Request := mkExecRequest {
  xq_Invocation : ToolInvocation;
  xq_Operation : Operation;
  xq_Input : string
}.
Record ExecResult := mkExecResult {
  xr_Kind : OutputKind;
  xr_IsError : bool;
  xr_Content : string;
  xr_Truncated : bool;
  xr_ArtifactID : string
}.

(** ** The router *)
Class ProtocolExecutor (E C St : Type) := {
  Protocols : E → list Protocol;
  Operations : E → list Operation;
  Execute : E → C → Request → Op St ExecResult
}.

(** Executors are compared by identity. *)
Record Router (E : Type) := mkRouter { executors : gmap string E }.
Arguments mkRouter {E} _.
Arguments executors {E} _.
Definition NewRouter {E} : Router E := mkRouter ∅.

Module RouterOps.
Section Router.
Context {E C St : Type} {i_eq : EqDecision E} {i_executor : ProtocolExecutor E C St}.

Fixpoint check_protocols (protocols : list Protocol) (r : Router E) : option error :=
  match protocols with
  | [] => None
  | protocol :: rest =>
      if bool_decide (protocol = "") || bool_decide (protocol = ProtocolAny)
      then Some (ENew ("invalid concrete executor protocol " +:+ quote protocol))
      else if bool_decide (is_Some (executors r !! protocol))
      then Some (ENew ("protocol " +:+ protocol +:+ " already has an executor"))
      else check_protocols rest r
  end.
Definition insert_all (executor : E) (protocols : list Protocol) (r : Router E) : Router E :=
  mkRouter (fold_left (λ m protocol, <[protocol := executor]> m) protocols (executors r)).
Definition Register (executor : option E) : Op (Router E) unit :=
  match executor with
  | None => throw (ENew "protocol executor is required")
  | Some executor =>
      let protocols := Protocols executor in
      throw_if bool_decide (protocols = []) || bool_decide (Operations executor = [])
        with ENew "protocol executor requires protocols and operations" ;;
      let! refused := gets (check_protocols protocols) in
      check refused ;;
      modify (insert_all executor protocols)
  end.
Definition Unregister (executor : option E) (r : Router E) : Router E :=
  match executor with
  | None => r
  | Some executor => mkRouter (filter (λ '(_, registered), registered ≠ executor) (executors r))
  end.

Definition supportsOperation (operations : list Operation) (wanted : Operation) : bool :=
  existsb (λ operation, bool_decide (operation = wanted)) operations.

Definition Execute (router : St → Router E) (c : C) (request : Request) : Op St ExecResult :=
  let protocol := as_Protocol (b_Attachment (inv_Binding (xq_Invocation request))) in
  let! found := gets (λ s, executors (router s) !! protocol) in
  let! executor := of_option found (wrapf ErrExecutorNotFound protocol) in
  throw_if negb (supportsOperation (Operations executor) (xq_Operation request))
    with wrapf ErrOperationDenied (xq_Operation request +:+ " on " +:+ protocol) ;;
  let! result := map_err (λ e, EWrap ("execute " +:+ xq_Operation request +:+ " on " +:+ protocol +:+ ": ") e "")
    (Execute executor c request) in
  throw_if bool_decide (xr_Content result = "") || negb (Json.Valid (xr_Content result))
    with ENew "protocol executor returned invalid JSON content" ;;
  ret result.
End Router.
End RouterOps.

(** ** The executor on access sessions *)

(** [Terminal], [Data] and [Desktop] by reference. *)
Class SessionObjects (C St : Type) := {
  Terminal_Read : N → C → Z → Op St string;
  Terminal_Execute : N → C → string → Op St string;
  Data_Schema : N → C → list string → Op St string;
  Data_Query : N → C → string → Op St string;
  Desktop_SessionInfo : N → C → Op St string
}.
(** [json.Unmarshal] into the input structs and into the result envelope. *)
Class InputCodec := {
  unmarshal_terminalReadInput : string → Result Z;
  unmarshal_terminalExecuteInput : string → Result string;
  unmarshal_dataSchemaInput : string → Result (list string);
  unmarshal_dataQueryInput : string → Result string;
  unmarshal_envelope : string → Result (string * bool)
}.

(** The one [SessionExecutor] of the program. *)
Inductive SessionExecutor := session_executor.
#[global] Instance SessionExecutor_eq : EqDecision SessionExecutor. Proof. solve_decision. Defined.

Module SessionOps.
Section Session.
Context {C St : Type} {i_objects : SessionObjects C St} {i_codec : InputCodec}.
Context (sessions : St → Sessions) (ctx_Err : C → St → option error).

Definition protocols : list Protocol :=
  [ProtocolWebSSH; ProtocolMySQL; ProtocolMariaDB; ProtocolSQLServer; ProtocolOracle; ProtocolClickHouse;
   ProtocolElasticsearch; ProtocolOpenSearch; ProtocolPostgreSQL; ProtocolRedis; ProtocolMemcached; ProtocolS3;
   ProtocolMongoDB; ProtocolRDP; ProtocolVNC].
Definition operations : list Operation :=
  [OperationTerminalRead; OperationTerminalExecute; OperationDataSchema; OperationDataQuery; OperationDesktopInfo].

Definition decodeInput {A} (unmarshal : string → Result A) (input : string) : Result A :=
  match unmarshal (if bool_decide (input = "") then "{}" else input) with
  | Ok a => Ok a
  | Err e => Err (EWrap "decode protocol tool input: " e "")
  end.
Definition protocolResult (kind : OutputKind) (content : string) : Result ExecResult :=
  if bool_decide (content = "") || negb (Json.Valid content)
  then Err (ENew "access session returned invalid JSON content") else
  match unmarshal_envelope content with
  | Ok (error, truncated) =>
      if bool_decide (error ≠ "") then Ok (mkExecResult OutputError true content truncated "")
      else Ok (mkExecResult kind false content truncated "")
  | Err _ => Ok (mkExecResult kind false content false "")
  end.

Definition request_of (inv : ToolInvocation) : ResolveRequest :=
  let attachment := b_Attachment (inv_Binding inv) in
  mkResolve (as_AccessHandleID attachment) (UserID (b_Principal (inv_Binding inv))) (as_AccessID attachment)
    (as_ApplicationID attachment) (as_Protocol attachment) (as_Generation attachment).

(** The object of the handle, or the operation is denied. *)
Definition object (o : option N) : Op St N := of_option o ErrOperationDenied.
Definition operate (c : C) (handle : Handle) (operation : Operation) (input : string) : Op St ExecResult :=
  if bool_decide (operation = OperationTerminalRead) then
    let! t := object (h_Terminal handle) in
    let! maxLines := lift (decodeInput unmarshal_terminalReadInput input) in
    let! content := Terminal_Read t c maxLines in
    lift (protocolResult OutputText content)
  else if bool_decide (operation = OperationTerminalExecute) then
    let! t := object (h_Terminal handle) in
    let! command := lift (decodeInput unmarshal_terminalExecuteInput input) in
    throw_if bool_decide (TrimSpace command = "") with ENew "terminal command is required" ;;
    let! content := Terminal_Execute t c (TrimSpace command) in
    lift (protocolResult OutputText content)
  else if bool_decide (operation = OperationDataSchema) then
    let! d := object (h_Data handle) in
    let! path := lift (decodeInput unmarshal_dataSchemaInput input) in
    let! content := Data_Schema d c path in
    lift (protocolResult OutputFacts content)
  else if bool_decide (operation = OperationDataQuery) then
    let! d := object (h_Data handle) in
    let! statement := lift (decodeInput unmarshal_dataQueryInput input) in
    throw_if bool_decide (TrimSpace statement = "") with ENew "data statement is required" ;;
    let! content := Data_Query d c (TrimSpace statement) in
    lift (protocolResult OutputTable content)
  else if bool_decide (operation = OperationDesktopInfo) then
    let! d := object (h_Desktop handle) in
    let! content := Desktop_SessionInfo d c in
    lift (protocolResult OutputFacts content)
  else throw (wrapf ErrOperationDenied operation).

Definition Execute (c : C) (request : Request) : Op St ExecResult :=
  let! resolved := gets (λ s, Access.Resolve (ctx_Err c s) (request_of (xq_Invocation request)) (sessions s)) in
  let! handle := map_err (λ e, EWrap "resolve attached access session: " e "") (lift resolved) in
  operate c handle (xq_Operation request) (xq_Input request).

Definition protocol_executor : ProtocolExecutor SessionExecutor C St := {|
  Protocols := λ _, protocols; Operations := λ _, operations; Executors.Execute := λ _, Execute
|}.
End Session.
End SessionOps.

(** ** Binding an attachment *)
Definition AttachmentBinder_Bind (cerr : option error) (principal : Principal) (handleID : string) (r : Sessions)
    : Result AttachmentSnapshot :=
  if bool_decide (UserID principal = 0%N) then Err (ENew "attachment principal is required") else
  match Access.Describe cerr handleID (UserID principal) r with
  | Err e => Err (EWrap "describe access session: " e "")
  | Ok d => Ok (mkAttachmentSnapshot (ds_ID d) (ds_AccessID d) (ds_ApplicationID d) (ds_Protocol d) (ds_Capabilities d)
      (ds_Generation d) (ds_ID d))
  end.

(** ** The protocol tools *)

(** A text of the source with its quotation marks written as apostrophes. *)
Fixpoint quoted (s : string) : string :=
  match s with
  | EmptyString => EmptyString
  | String c s' => String (if bool_decide (c = "'"%char) then ascii_of_nat 34 else c) (quoted s')
  end.
Definition builtinSourceID : string := "liaison-protocol-executors".

(** A [routeFactory] is the operation it routes. *)
Inductive Factory := routeFactory (operation : Operation).

Definition second : Z := 1000000000.
Definition registration (source : ToolSourceRef) (namespace name : string) (operation : Operation)
    (displayName description : string) (protocols : list Protocol) (capabilities : list Capability)
    (risk : RiskLevel) (approval : ApprovalMode) (schema : string) (outputs : list OutputKind) : ToolRegistration Factory :=
  let timeout := if bool_decide (operation = OperationTerminalExecute) then (120 * second)%Z else (30 * second)%Z in
  mkRegistration (mkDescriptor [] None (mkToolID namespace name "1.0.0") displayName description description schema outputs
    protocols capabilities [] risk approval DisclosureAttachment timeout source) (Some (routeFactory operation)).

Definition builtinRegistrations : list (ToolRegistration Factory) :=
  let source := mkSourceRef builtinSourceID "builtin" TrustBuiltin in
  [
   registration source "terminal" "read" OperationTerminalRead "Read terminal output"
     "Read recent visible output from the attached SSH terminal."
     [ProtocolSSH; ProtocolWebSSH] ["terminal.read"]
     RiskReadOnly ApprovalNever (quoted "{'type':'object','properties':{'max_lines':{'type':'integer','minimum':1,'maximum':500}},'additionalProperties':false}") [OutputText];
   registration source "terminal" "execute" OperationTerminalExecute "Execute terminal command"
     "Execute a command through the attached SSH connection using a separate exec channel. This does not type into the interactive terminal or inherit its current directory or shell variables. Use explicit paths and report the returned output. User approval may be required."
     [ProtocolSSH; ProtocolWebSSH] ["terminal.execute"]
     RiskMedium ApprovalByPolicy (quoted "{'type':'object','properties':{'command':{'type':'string','minLength':1,'maxLength':8192}},'required':['command'],'additionalProperties':false}") [OutputText; OutputArtifact];
   registration source "data" "schema" OperationDataSchema "Inspect data schema"
     (quoted "Inspect the attached database or S3 session. For S3, empty path returns browser_context (untrusted navigation hints) and visible buckets; path=[bucket,bucket_name,prefix,continuation_token] lists up to 200 prefixes and object metadata. Preserve exact keys. No file contents, writes or downloads are available to Agent. Listing may be partial: use next_token, never infer totals from one page. Empty path returns current_database and a tree of databases, schemas, tables, collections or keys. To inspect an object use path=[type,database,schema,name]: MySQL/MariaDB [table,db,'',table], PostgreSQL/SQL Server [table,db,schema,table], MongoDB [collection,db,'',collection], Redis [key,current_db_number,'',key]. Object details include columns/indexes/DDL for SQL, index-derived fields/indexes for MongoDB (not a complete document schema), and type/TTL/memory for Redis in its currently selected DB. Use names from the tree, do not invent them. Use an approved bounded query to sample documents or read key values.")
     [ProtocolS3; ProtocolMemcached; ProtocolElasticsearch; ProtocolOpenSearch; ProtocolMySQL; ProtocolMariaDB; ProtocolSQLServer; ProtocolOracle; ProtocolClickHouse; ProtocolPostgreSQL; ProtocolRedis; ProtocolMongoDB] ["data.schema"]
     RiskReadOnly ApprovalNever (quoted "{'type':'object','properties':{'path':{'type':'array','items':{'type':'string'},'maxItems':4}},'additionalProperties':false}") [OutputFacts; OutputTable];
   registration source "data" "query" OperationDataQuery "Query data"
     (quoted "Run one statement in the attached data session after approval. MySQL/MariaDB/PostgreSQL: SQL, prefer qualified table names and LIMIT. SQL Server: T-SQL with TOP (n), schema-qualified names, no LIMIT or GO separators. Redis: native command text (GET, SCAN, HGETALL, etc.), prefer SCAN over KEYS. MongoDB: a JSON database command, NOT mongosh JavaScript; e.g. {'find':'items','filter':{},'limit':20}, {'aggregate':'items','pipeline':[{'$limit':20}],'cursor':{}}. MongoDB executes in current_database from data.schema; do not claim to switch databases. Writes, updates, deletes and DDL all require approval. Explain failures using the returned error, never claim success for an error result.")
     [ProtocolMemcached; ProtocolElasticsearch; ProtocolOpenSearch; ProtocolMySQL; ProtocolMariaDB; ProtocolSQLServer; ProtocolOracle; ProtocolClickHouse; ProtocolPostgreSQL; ProtocolRedis; ProtocolMongoDB] ["data.query"]
     RiskHigh ApprovalByPolicy (quoted "{'type':'object','properties':{'statement':{'type':'string','minLength':1,'maxLength':65536}},'required':['statement'],'additionalProperties':false}") [OutputTable; OutputFacts; OutputText; OutputArtifact];
   registration source "desktop" "session_info" OperationDesktopInfo "Inspect desktop session"
     "Read the attached RDP or VNC session status, display size and target metadata."
     [ProtocolRDP; ProtocolVNC] ["desktop.session_info"]
     RiskReadOnly ApprovalNever (quoted "{'type':'object','properties':{},'additionalProperties':false}") [OutputFacts];
   registration source "desktop" "capture" OperationDesktopCapture "Capture desktop"
     "Capture the current frame of the attached RDP or VNC desktop."
     [ProtocolRDP; ProtocolVNC] ["desktop.capture"]
     RiskReadOnly ApprovalNever (quoted "{'type':'object','properties':{'quality':{'type':'integer','minimum':30,'maximum':100}},'additionalProperties':false}") [OutputImage; OutputArtifact];
   registration source "desktop" "input" OperationDesktopInput "Control desktop"
     "Send keyboard or pointer input to the attached RDP or VNC desktop."
     [ProtocolRDP; ProtocolVNC] ["desktop.input"]
     RiskMedium ApprovalByPolicy (quoted "{'type':'object','properties':{'events':{'type':'array','items':{'type':'object'},'minItems':1,'maxItems':100}},'required':['events'],'additionalProperties':false}") [OutputFacts]].

(** [ID], [TrustLevel], [Snapshot] and [Watch], whose channel is closed at once. *)
Definition NewToolSource : ToolSource Factory :=
  mkSource builtinSourceID TrustBuiltin (λ _, Ok builtinRegistrations) (λ _, None).

Module RouteOps.
Section Route.
Context {E W : Type} {i_executor : ProtocolExecutor E hctx (Engine Factory * W)} (router : Engine Factory * W → Router E).
Abbreviation St := (Engine Factory * W)%type.

Definition ExecuteInvocation (operation : Operation) (c : hctx) (inv : ToolInvocation) : Op St ToolResult :=
  let! result := RouterOps.Execute router c (mkExecRequest inv operation (tc_Input (inv_Call inv))) in
  ret (mkToolResult (xr_Kind result) (xr_Content result) (xr_IsError result) (xr_Truncated result) (xr_ArtifactID result)).

Definition Bind (factory : Factory) (_ : hctx) (binding : ToolBinding) : Op St (option (Execution.ToolExecutor)) :=
  let 'routeFactory operation := factory in
  throw_if bool_decide (as_ID (b_Attachment binding) = "")
    with ENew (operation +:+ " requires an attached protocol session") ;;
  ret (Some (Execution.InvocationExecutor (ExecuteInvocation operation))).
End Route.
End RouteOps.

(** ** The authorization policy *)
Definition agentSessionResource : string := "agent_sessions".

Module Policy.
Section Policy.
(** [AuthorizeFunc]: asks the identity service. *)
Context {St : Type} (authorize : ctx → Principal → string → string → Op St unit).

Definition deny (reason : string) : Decision_ := mkDecision DecisionDeny reason RiskReadOnly "" "".
Definition resource_of (inv : ToolInvocation) : string :=
  if bool_decide (b_SessionKind (inv_Binding inv) = SessionManagement) then "management_agent_sessions" else agentSessionResource.
Definition needs_approval (d : ToolDescriptor) : bool :=
  bool_decide (d_Approval d = ApprovalAlways) ||
  bool_decide (d_Approval d = ApprovalByPolicy) && N.leb (risk_u8 RiskMedium) (risk_u8 (d_Risk d)).

Definition Evaluate (c : ctx) (inv : ToolInvocation) (d : ToolDescriptor) : Op St Decision_ :=
  let principal := b_Principal (inv_Binding inv) in
  if bool_decide (UserID principal = 0%N) || bool_decide (OrganizationID principal = 0%N)
  then ret (deny "missing principal binding") else
  authorize c principal (resource_of inv) "use" ;;
  let decision :=
    if needs_approval d
    then mkDecision DecisionRequireApproval "operation requires explicit approval" (d_Risk d) "agent-medium-risk-v1"
      (tc_Input (inv_Call inv))
    else mkDecision DecisionAllow "" (d_Risk d) "" (tc_Input (inv_Call inv)) in
  match d_Permission d with
  | None => ret decision
  | Some permission =>
      if bool_decide (Resource permission = "") || bool_decide (Action permission = "")
      then ret (deny "invalid resource permission") else
      authorize c principal (Resource permission) (Action permission) ;;
      ret decision
  end.
End Policy.
End Policy.
