(* ===== verification/ExecutorTheorems.v ===== *)
(** * From a tool call to a live session

    The engine, the authorization policy, the router and the executor on
    access sessions put together as the program does: no middleware, one
    session executor.  What must hold before an operation reaches the objects
    of a live connection, and that without an approval only reads do. *)

From S2P Require Import Prelude Json ToolTypes ToolRegistry ToolEngine ToolEngineTheorems ToolSource AccessSession Executors.

(** ** The router *)
Section RouterFacts.
Context {E C St : Type} {i_eq : EqDecision E} {i_executor : ProtocolExecutor E C St}.

Lemma lookup_insert_all (e : E) ps : ∀ (r : Router E) p,
  executors (RouterOps.insert_all e ps r) !! p = if decide (p ∈ ps) then Some e else executors r !! p.
Proof.
  unfold RouterOps.insert_all. intros [m] p. simpl. revert m. induction ps as [|q ps IH]; intros m.
  - by rewrite decide_False by apply not_elem_of_nil.
  - cbn [fold_left]. rewrite IH. destruct (decide (p ∈ ps)) as [Hp|Hp].
    + rewrite decide_True by (by right). done.
    + destruct (decide (p = q)) as [->|Hne].
      * rewrite decide_True by left. apply lookup_insert_eq.
      * rewrite decide_False by (by rewrite elem_of_cons; intros [?|?]). by apply lookup_insert_ne.
Qed.
Lemma check_protocols_free ps (r : Router E) : RouterOps.check_protocols ps r = None → ∀ p : string, p ∈ ps → executors r !! p = None.
Proof.
  induction ps as [|q ps IH]; simpl; [by intros _ p ?%not_elem_of_nil|].
  destruct (_ || _); [done|]. case_bool_decide as Hq; [done|]. intros H p [->|Hp]%elem_of_cons; [|by apply IH].
  by apply eq_None_not_Some.
Qed.

(** [Register] takes all protocols of an executor or none, and never one
    that another executor has; then each of them is routed to it, and
    [Unregister] gives back the router as it was. *)
Theorem router_roundtrip (e : E) (r : Router E) x r' :
  (∀ p, executors r !! p ≠ Some e) → RouterOps.Register (Some e) r = (x, r') →
  match x with
  | Err _ => r' = r
  | Ok _ => (∀ p : string, p ∈ Protocols e → executors r !! p = None ∧ executors r' !! p = Some e) ∧ RouterOps.Unregister (Some e) r' = r
  end.
Proof.
  intros Hr H. unfold RouterOps.Register, throw in H. destruct (_ || _); [by simplify_eq|].
  unfold bind, gets, check, modify in H. destruct (RouterOps.check_protocols (Protocols e) r) eqn:Hc; [by simplify_eq|].
  simplify_eq. pose proof (check_protocols_free _ _ Hc) as Hfree. split.
  - intros p Hp. rewrite lookup_insert_all, decide_True by done. auto.
  - unfold RouterOps.Unregister. trans (mkRouter (executors r)); [|by destruct r]. f_equal. apply map_eq. intros p. destruct (decide (p ∈ Protocols e)) as [Hp|Hp].
    + rewrite (Hfree p Hp). apply map_lookup_filter_None. right. intros e' He.
      rewrite lookup_insert_all, decide_True in He by done. simplify_eq. intros []. done.
    + destruct (executors r !! p) as [e'|] eqn:Hrp.
      * apply map_lookup_filter_Some. rewrite lookup_insert_all, decide_False by done. split; [done|]. intros ->.
        by apply (Hr p).
      * apply map_lookup_filter_None. left. by rewrite lookup_insert_all, decide_False.
Qed.
End RouterFacts.

(** ** Attachments *)

(** What [Bind] writes into an attachment comes from the registry and
    leads back to it: an invocation of the same principal with this attachment
    resolves, as long as the registry has not changed, to the handle that was
    asked for, which belongs to that user. *)
Theorem bound_attachment_resolves cerr principal handleID r a inv :
  AttachmentBinder_Bind cerr principal handleID r = Ok a →
  (∃ n, awf n r) → b_Principal (inv_Binding inv) = principal → b_Attachment (inv_Binding inv) = a →
  ∃ h, Access.Resolve None (SessionOps.request_of inv) r = Ok h ∧ handles r !! handleID = Some h ∧
    ds_UserID (h_Descriptor h) = UserID principal ∧ UserID principal ≠ 0%N.
Proof.
  unfold AttachmentBinder_Bind. case_bool_decide as Hu; [done|]. unfold Access.Describe. destruct cerr; [done|].
  destruct (handles r !! handleID) as [h|] eqn:Hh; [|done]. destruct (_ || _) eqn:Hb; [done|].
  intros [= <-] [n Hr] Hp Ha. bools. exists h. split; [|done]. destruct (awf_handle _ _ Hr _ _ Hh) as (Hid & _).
  replace (SessionOps.request_of inv) with (request_for (h_Descriptor h)); [apply Resolve_live; congruence|].
  unfold SessionOps.request_of, request_for. rewrite Ha, Hp. simpl. congruence.
Qed.

(** ** The whole way *)
Section EndToEnd.
Context {W : Type} {i_codec : InputCodec}.
Abbreviation St := (Engine Factory * W)%type.
Context (router : St → Router SessionExecutor) (sessions : St → Sessions)
        (authorize : ctx → Principal → string → string → Op St unit)
        (hctx_Err : hctx → St → option error) (Now : St → Time) (Seconds : Z → string).

(** A call of the engine, with the objects behind the handles. *)
Definition call (objects : SessionObjects hctx St) (c : ctx) (snapshot : ToolSetSnapshot) (inv : ToolInvocation)
    (grant : option ApprovalGrant) : Op St ToolResult :=
  Execution.execute (Policy.Evaluate authorize)
    (RouteOps.Bind (i_executor := SessionOps.protocol_executor (i_objects := objects) sessions hctx_Err) router)
    hctx_Err Now Seconds [] c snapshot inv grant.

(** Two worlds of objects in which an operation on a handle does the same. *)
Definition agree (o o' : SessionObjects hctx St) (operation : Operation) (h : Handle) (s : St) : Prop :=
  ∀ c input, SessionOps.operate (i_objects := o) c h operation input s = SessionOps.operate (i_objects := o') c h operation input s.

(** The handle is the one the invocation's attachment names, still the same
    connection, and belongs to the user who calls. *)
Definition own_handle (inv : ToolInvocation) (h : Handle) (s : St) : Prop :=
  let a := b_Attachment (inv_Binding inv) in
  handles (sessions s) !! as_AccessHandleID a = Some h ∧
  ds_UserID (h_Descriptor h) = UserID (b_Principal (inv_Binding inv)) ∧ ds_AccessID (h_Descriptor h) = as_AccessID a ∧
  ds_ApplicationID (h_Descriptor h) = as_ApplicationID a ∧ ds_Protocol (h_Descriptor h) = as_Protocol a ∧
  ds_Generation (h_Descriptor h) = as_Generation a.

(** Everything that was established when an operation reaches a handle. *)
Record consent (c : ctx) (snapshot : ToolSetSnapshot) (inv : ToolInvocation) (grant : option ApprovalGrant) (s : St)
    (operation : Operation) (h : Handle) (s2 : St) : Prop := {
  consent_principal : UserID (b_Principal (inv_Binding inv)) ≠ 0%N ∧ OrganizationID (b_Principal (inv_Binding inv)) ≠ 0%N;
  consent_role : is_ok (fst (authorize c (b_Principal (inv_Binding inv)) (Policy.resource_of inv) "use" s)) = true;
  consent_tool : ∃ ex s1 lease r2, snapshot_Find snapshot (tc_ID (inv_Call inv)) = Some ex ∧
    RegistryOps.acquire (tc_ID (inv_Call inv)) (ex_RegistrationGeneration ex) (e_registry (fst s1)) = (Ok lease, r2) ∧
    s1 = snd (Policy.Evaluate authorize c (exposed_invocation inv ex) (ex_Descriptor ex) s) ∧
    s2 = ((fst s1)<| e_registry := r2 |>, snd s1) ∧
    reg_Factory (l_registration lease) = Some (routeFactory operation) ∧
    (Policy.needs_approval (ex_Descriptor ex) = true →
      ∃ g, grant = Some g ∧ grant_validates g (exposed_invocation inv ex) snapshot (Now s1) = true);
  consent_handle : own_handle inv h s2
}.

(** *** Pieces *)
Lemma Evaluate_ok c inv d s dec s1 :
  Policy.Evaluate authorize c inv d s = (Ok dec, s1) → dec_Effect dec ≠ DecisionDeny →
  (UserID (b_Principal (inv_Binding inv)) ≠ 0%N ∧ OrganizationID (b_Principal (inv_Binding inv)) ≠ 0%N) ∧
  is_ok (fst (authorize c (b_Principal (inv_Binding inv)) (Policy.resource_of inv) "use" s)) = true ∧
  dec_NormalizedInput dec = tc_Input (inv_Call inv) ∧
  dec_Effect dec = if Policy.needs_approval d then DecisionRequireApproval else DecisionAllow.
Proof.
  unfold Policy.Evaluate. destruct (_ || _) eqn:Hp; [by intros [= <- <-]|]. bools. unfold bind.
  destruct (authorize _ _ _ _ s) as [[[]|e] sa] eqn:Ha; [|done].
  destruct (d_Permission d) as [p|].
  - destruct (_ || _); [by intros [= <- <-]|].
    destruct (authorize _ _ _ _ sa) as [[[]|e] sb]; [|done]. intros [= <- <-] _.
    by destruct (Policy.needs_approval d).
  - intros [= <- <-] _. by destruct (Policy.needs_approval d).
Qed.
Lemma normalized_same inv dec : dec_NormalizedInput dec = tc_Input (inv_Call inv) → normalized inv dec = inv.
Proof. intros H. unfold normalized. rewrite H. case_bool_decide; [|done]. by destruct inv as [? [] ? ?]. Qed.

Lemma Timeout_ext timeout (next next' : @Execution.ToolHandler Factory W) c inv s :
  (∀ c', next c' inv s = next' c' inv s) →
  Execution.TimeoutMiddleware hctx_Err Seconds timeout next c inv s =
  Execution.TimeoutMiddleware hctx_Err Seconds timeout next' c inv s.
Proof. intros H. unfold Execution.TimeoutMiddleware, bind, attempt. case_match; by rewrite H. Qed.

Lemma route_ext o o' operation c inv s :
  (∀ h, own_handle inv h s → agree o o' operation h s) →
  RouteOps.ExecuteInvocation (i_executor := SessionOps.protocol_executor (i_objects := o) sessions hctx_Err) router operation c inv s =
  RouteOps.ExecuteInvocation (i_executor := SessionOps.protocol_executor (i_objects := o') sessions hctx_Err) router operation c inv s.
Proof.
  intros H. unfold RouteOps.ExecuteInvocation, RouterOps.Execute. cbn [xq_Invocation xq_Operation xq_Input].
  set (inner := λ o, SessionOps.Execute (i_objects := o) sessions hctx_Err c (mkExecRequest inv operation (tc_Input (inv_Call inv)))).
  assert (inner o s = inner o' s) as Hin.
  { unfold inner, SessionOps.Execute, bind, gets, lift, map_err. cbn [xq_Invocation xq_Operation xq_Input].
    destruct (Access.Resolve _ _ _) as [h|e] eqn:Hr; [|done]. apply Resolve_sound in Hr as (_ & Hh). by apply H. }
  unfold bind, gets, of_option. destruct (executors (router s) !! _) as [[]|]; [|done].
  cbn [Operations Executors.Execute SessionOps.protocol_executor]. destruct (negb _); [done|]. unfold map_err.
  fold (inner o) (inner o'). by rewrite Hin.
Qed.
Lemma run_ext o o' ex inv lease s :
  (∀ operation h, reg_Factory (l_registration lease) = Some (routeFactory operation) → own_handle inv h s →
    agree o o' operation h s) →
  let run o := Execution.run_tool
    (RouteOps.Bind (i_executor := SessionOps.protocol_executor (i_objects := o) sessions hctx_Err) router)
    hctx_Err Seconds [] ex inv lease s in
  run o = run o'.
Proof.
  intros H run. unfold run, Execution.run_tool, bind, map_err, RouteOps.Bind.
  destruct (reg_Factory (l_registration lease)) as [[operation]|] eqn:Hf; [|done].
  destruct (bool_decide _); [done|]. unfold ret.
  assert (∀ c, Execution.base (Execution.InvocationExecutor (RouteOps.ExecuteInvocation
      (i_executor := SessionOps.protocol_executor (i_objects := o) sessions hctx_Err) router operation)) c inv s =
    Execution.base (Execution.InvocationExecutor (RouteOps.ExecuteInvocation
      (i_executor := SessionOps.protocol_executor (i_objects := o') sessions hctx_Err) router operation)) c inv s) as Hb.
  { intros c. unfold Execution.base, map_err. by rewrite (route_ext o o') by (intros h Hh; by apply H). }
  cbn [Execution.Chain foldr]. destruct (Z.ltb 0 _); [by apply Timeout_ext|apply Hb].
Qed.
Lemma permitted_grant dec inv snapshot grant now :
  permitted dec inv snapshot grant now → dec_Effect dec = DecisionRequireApproval →
  ∃ g, grant = Some g ∧ grant_validates g inv snapshot now = true.
Proof.
  intros [H|(_ & g & Hg & H)] He; [congruence|]. exists g. split; [done|]. by apply grant_validates_spec.
Qed.

Lemma call_ext o o' c snapshot inv grant s :
  (∀ operation h s2, consent c snapshot inv grant s operation h s2 → agree o o' operation h s2) →
  call o c snapshot inv grant s = call o' c snapshot inv grant s.
Proof.
  intros H. unfold call, Execution.execute, bind.
  destruct (Execution.authorize _ _ _ _ _ _ s) as [[[ex inv']|e] s1] eqn:Ha; [|done].
  apply authorize_ok in Ha as (_ & _ & Hex & _ & _ & dec & Hev & -> & Hp).
  assert (dec_Effect dec ≠ DecisionDeny) as Hd by (destruct Hp as [?|[? _]]; congruence).
  destruct (Evaluate_ok _ _ _ _ _ _ Hev Hd) as (Hpr & Hrole & Hn & He). rewrite (normalized_same _ _ Hn) in *.
  unfold Execution.on_registry, EngineOps.registry_op. cbn [fst snd].
  destruct (RegistryOps.acquire _ _ _) as [[lease|e] r2] eqn:Hacq; [|done]. cbn [fst snd].
  unfold Execution.with_lease.
  match goal with |- context [Execution.run_tool _ _ _ _ _ _ _ ?st] => rewrite (run_ext o o' ex (exposed_invocation inv ex) lease st) end;
    [done|]. intros operation h Hf Hh. apply H. split; [done|done| |done].
  exists ex, s1, lease, r2. split_and!; [done|done|by rewrite Hev|done|done|]. intros Hneed. rewrite Hneed in He.
  by eapply permitted_grant.
Qed.

(** C16. An operation reaches the objects of a live connection only with
    consent: replace them by anything else wherever it is missing and the call
    does the same.  Consent is that the caller is a user of an organization
    whom the identity service lets use the agent at this moment, that the tool
    is exposed and leased at the exposed generation and routes to this
    operation, that a valid grant for exactly this call is there if the tool
    needs approval, and that the handle is the user's own, live, and the very
    connection the attachment was made for. *)
Theorem session_reached_with_consent o o' c snapshot inv grant s :
  (∀ operation h s2, consent c snapshot inv grant s operation h s2 → agree o o' operation h s2) →
  call o c snapshot inv grant s = call o' c snapshot inv grant s.
Proof. apply call_ext. Qed.

(** *** Without an approval *)
Definition reads (operation : Operation) : bool :=
  bool_decide (operation = OperationTerminalRead) || bool_decide (operation = OperationDataSchema) ||
  bool_decide (operation = OperationDesktopInfo) || bool_decide (operation = OperationDesktopCapture).
Definition builtin_exposed (snapshot : ToolSetSnapshot) : Prop :=
  ∀ ex, ex ∈ ss_Tools snapshot → ∃ reg, reg ∈ builtinRegistrations ∧ ex_Descriptor ex = reg_Descriptor reg.
Definition builtin_registered (e : Engine Factory) : Prop :=
  rwf (e_registry e) ∧ ∀ p m, r_heap (e_registry e) !! p = Some m → mr_registration m ∈ builtinRegistrations.

(** The table: identifiers are unique, and what does not need approval reads. *)
Lemma builtin_unique reg reg' : reg ∈ builtinRegistrations → reg' ∈ builtinRegistrations →
  d_ID (reg_Descriptor reg) = d_ID (reg_Descriptor reg') → reg = reg'.
Proof.
  intros Hr Hr'. unfold builtinRegistrations in Hr, Hr'.
  repeat (apply elem_of_cons in Hr as [->|Hr]); try (by apply not_elem_of_nil in Hr);
    repeat (apply elem_of_cons in Hr' as [->|Hr']); try (by apply not_elem_of_nil in Hr'); by intros [= ].
Qed.
Lemma builtin_reads reg operation : reg ∈ builtinRegistrations → reg_Factory reg = Some (routeFactory operation) →
  Policy.needs_approval (reg_Descriptor reg) = negb (reads operation).
Proof.
  intros Hr. unfold builtinRegistrations in Hr.
  repeat (apply elem_of_cons in Hr as [->|Hr]); try (by apply not_elem_of_nil in Hr); intros [= <-]; vm_compute; reflexivity.
Qed.
Lemma acquire_registration id g (r : Registry Factory) l r' :
  RegistryOps.acquire id g r = (Ok l, r') →
  ∃ p m, r_registrations r !! id = Some p ∧ r_heap r !! p = Some m ∧ l_registration l = mr_registration m.
Proof.
  intros H. unfold RegistryOps.acquire, bind, of_option in H.
  destruct (RegistryOps.lookup id r) as [[p m]|] eqn:E; [|done]. apply lookup_Some in E as [Hp Hm]. go_run H. eauto.
Qed.

Context (authorize_asks : ∀ c p resource action s, fst (snd (authorize c p resource action s)) = fst s).

Lemma Evaluate_engine c inv d s : fst (snd (Policy.Evaluate authorize c inv d s)) = fst s.
Proof.
  unfold Policy.Evaluate. destruct (_ || _); [done|]. unfold bind.
  pose proof (authorize_asks c (b_Principal (inv_Binding inv)) (Policy.resource_of inv) "use" s) as H1.
  destruct (authorize _ _ _ _ s) as [[[]|e] sa]; [|done]. simpl in H1. destruct (d_Permission d) as [p|]; [|done].
  destruct (_ || _); [done|].
  pose proof (authorize_asks c (b_Principal (inv_Binding inv)) (Resource p) (Action p) sa) as H2.
  destruct (authorize _ _ _ _ sa) as [[[]|e] sb]; simpl in *; congruence.
Qed.

(** Without an approval only reads reach a live connection.  With the
    protocol tools registered and exposed as declared, and an authorizer that
    leaves the engine alone, a call without a grant does the same whatever
    executing a command or running a query would do. *)
Theorem without_grant_only_reads o o' c snapshot inv s :
  builtin_exposed snapshot → builtin_registered (fst s) →
  (∀ operation h s2, reads operation = true → agree o o' operation h s2) →
  call o c snapshot inv None s = call o' c snapshot inv None s.
Proof.
  intros Hex [Hwf Hreg] H. apply call_ext. intros operation h s2 [_ _ (ex & s1 & lease & r2 & Hfind & Hacq & Hs1 & _ & Hf & Hg) _].
  apply H. apply acquire_registration in Hacq as (p & m & Hp & Hm & Hl).
  rewrite Hs1, Evaluate_engine in Hp, Hm.
  destruct (rw_entry _ Hwf _ _ Hp) as (m' & Hm' & Hid & _). simplify_eq.
  apply List.find_some in Hfind as [Hin Heq]. apply bool_decide_eq_true in Heq.
  destruct (Hex ex) as (reg & Hrin & Hd); [by apply list_elem_of_In|].
  assert (reg = mr_registration m) as ->.
  { apply builtin_unique; [done|by apply (Hreg p)|]. rewrite <- Hd. congruence. }
  rewrite Hl in Hf. rewrite Hd, (builtin_reads _ operation) in Hg by done.
  destruct (reads operation); [done|]. by destruct (Hg eq_refl) as (g & ? & _).
Qed.
End EndToEnd.

(** ** Witnesses: one terminal, opened by user 7 *)
Section Witnesses.
Record demo_world := mkDemo { dw_sessions : Sessions; dw_commands : list string }.
Abbreviation dSt := (Engine Factory * demo_world)%type.
#[local] Instance demo_input : InputCodec := {|
  unmarshal_terminalReadInput := λ _, Ok 10%Z; unmarshal_terminalExecuteInput := λ s, Ok "ls";
  unmarshal_dataSchemaInput := λ _, Ok []; unmarshal_dataQueryInput := λ _, Ok "q"; unmarshal_envelope := λ _, Ok ("", false)
|}.
(** Terminals that record the commands they get; another world in which
    terminal [bad] does not answer. *)
Definition recording : SessionObjects hctx dSt := {|
  Terminal_Read := λ _ _ _, ret "{}"; Data_Schema := λ _ _ _, ret "{}"; Data_Query := λ _ _ _, ret "{}";
  Desktop_SessionInfo := λ _ _, ret "{}";
  Terminal_Execute := λ _ _ command s, (Ok "{}", (fst s, mkDemo (dw_sessions (snd s)) (command :: dw_commands (snd s))))
|}.
Definition failing (bad : N → bool) : SessionObjects hctx dSt := {|
  Terminal_Read := λ _ _ _, ret "{}"; Data_Schema := λ _ _ _, ret "{}"; Data_Query := λ _ _ _, ret "{}";
  Desktop_SessionInfo := λ _ _, ret "{}";
  Terminal_Execute := λ t c command s, if bad t then (Err (ENew "closed"), s) else Terminal_Execute (SessionObjects := recording) t c command s
|}.

Definition demo_sessions : Sessions := access_run [OpRegister (w_handle 1)] AccessSession.NewRegistry.
Definition demo_attachment : AttachmentSnapshot := mkAttachmentSnapshot "h1" 3 4 "web_ssh" ["terminal.read"] 1 "h1".
(** The second of the protocol tools, [terminal.execute], registered and exposed. *)
Definition demo_execute : ToolRegistration Factory := List.nth 1 builtinRegistrations (mkRegistration demo_tool None).
Definition exec_engine : Engine Factory := snd (EngineOps.Register in_order demo_execute NewEngine).
Definition exec_snapshot : ToolSetSnapshot :=
  mkSnapshot "snap" 1 "" {["h1" := 1%N]} [mkExposed (reg_Descriptor demo_execute) 1 0] 0%Z.
Definition exec_inv : ToolInvocation :=
  mkInvocation "call" (mkToolCall (d_ID (reg_Descriptor demo_execute)) "{}")
    (mkBinding SessionAccess (mkPrincipal 7 1) demo_attachment "snap") 0.
Definition exec_grant : ApprovalGrant :=
  mkGrant "ap" "call" (d_ID (reg_Descriptor demo_execute)) "snap" (InputDigest "{}") 1 100%Z.
Definition demo_state : dSt := (exec_engine, mkDemo demo_sessions []).
Definition demo_router : Router SessionExecutor :=
  snd (RouterOps.Register (i_executor := SessionOps.protocol_executor (i_objects := recording)
    (λ s : dSt, dw_sessions (snd s)) (λ _ _, None)) (Some session_executor) NewRouter).
Definition demo_call (o : SessionObjects hctx dSt) (grant : option ApprovalGrant) : Result ToolResult * dSt :=
  call (λ _, demo_router) (λ s, dw_sessions (snd s)) (λ _ _ _ _, ret tt) (λ _ _, None) (λ _, 5%Z) (λ _, "") o
    Background exec_snapshot exec_inv grant demo_state.

Example demo_runs : is_ok (fst (demo_call recording (Some exec_grant))) = true ∧
  dw_commands (snd (snd (demo_call recording (Some exec_grant)))) = ["ls"].
Proof. vm_compute. by split. Qed.
Example demo_asks : is_ok (fst (demo_call recording None)) = false ∧ dw_commands (snd (snd (demo_call recording None))) = [].
Proof. vm_compute. by split. Qed.

Lemma router_roundtrip_witness :
  let exec := SessionOps.protocol_executor (i_objects := recording) (λ s : dSt, dw_sessions (snd s)) (λ _ _, None) in
  executors demo_router !! "mysql" = Some session_executor ∧
  RouterOps.Unregister (Some session_executor) demo_router = NewRouter.
Proof.
  intros exec.
  pose proof (router_roundtrip (i_executor := exec) session_executor NewRouter (Ok tt) demo_router ltac:(done)
    ltac:(vm_compute; reflexivity)) as [Hp Hu].
  split; [|exact Hu]. apply (Hp "mysql"). apply list_elem_of_In. vm_compute. tauto.
Defined.

Lemma demo_sessions_wf : ∃ n, awf n demo_sessions.
Proof. eexists. apply (awf_run _ 0 _ awf_new). done. Qed.
Lemma bound_attachment_resolves_witness :
  AttachmentBinder_Bind None (mkPrincipal 7 1) "h1" demo_sessions = Ok demo_attachment ∧
  ∃ h, Access.Resolve None (SessionOps.request_of exec_inv) demo_sessions = Ok h ∧ h_Terminal h = Some 1%N.
Proof.
  split; [vm_compute; reflexivity|].
  destruct (bound_attachment_resolves None (mkPrincipal 7 1) "h1" demo_sessions demo_attachment exec_inv) as (h & Hr & Hh & _);
    [vm_compute; reflexivity|apply demo_sessions_wf|reflexivity|reflexivity|].
  exists h. split; [exact Hr|]. vm_compute in Hh. injection Hh as <-. reflexivity.
Defined.

(** Another terminal may be broken: the call does not notice. *)
Lemma session_reached_with_consent_witness :
  demo_call recording (Some exec_grant) = demo_call (failing (λ t, bool_decide (t ≠ 1%N))) (Some exec_grant).
Proof.
  unfold demo_call.
  refine (session_reached_with_consent (λ _, demo_router) (λ s : dSt, dw_sessions (snd s)) (λ _ _ _ _, ret tt) (λ _ _, None)
    (λ _, 5%Z) (λ _, "") recording (failing (λ t, bool_decide (t ≠ 1%N))) Background exec_snapshot exec_inv (Some exec_grant) demo_state _).
  intros operation h s2 [_ _ (ex & s1 & lease & r2 & Hex & _ & Hs1 & Hs2 & _) (Hh & _)].
  assert (snd s1 = snd demo_state) as Hw.
  { rewrite Hs1. unfold Policy.Evaluate. destruct (_ || _); [reflexivity|]. unfold bind, ret.
    destruct (d_Permission _); [destruct (_ || _); reflexivity|reflexivity]. }
  assert (h_Terminal h = Some 1%N) as Ht.
  { rewrite Hs2 in Hh. cbn [snd] in Hh. rewrite Hw in Hh. vm_compute in Hh. injection Hh as <-. reflexivity. }
  intros c input. unfold SessionOps.operate, SessionOps.object, bind, of_option, lift. rewrite Ht.
  repeat (destruct (bool_decide _); [reflexivity|]). reflexivity.
Defined.

Lemma exec_registered : builtin_registered exec_engine.
Proof.
  assert (ereachable in_order exec_engine) as Hr.
  { eapply reach_step; [apply reach_new|efits_now|]. apply (step_register _ demo_execute false _ (Ok tt)).
    vm_compute. reflexivity. }
  split; [apply (ereachable_wf in_order in_order_perm _ Hr)|]. intros p m Hm.
  apply elem_of_map_to_list in Hm. vm_compute in Hm. apply list_elem_of_singleton in Hm. injection Hm as _ ->.
  right. left.
Qed.
Lemma exec_exposed : builtin_exposed exec_snapshot.
Proof. intros ex ->%list_elem_of_singleton. exists demo_execute. split; [right; left|reflexivity]. Qed.
(** No terminal works: without a grant, the answer is the same. *)
Lemma without_grant_only_reads_witness : demo_call recording None = demo_call (failing (λ _, true)) None.
Proof.
  apply (without_grant_only_reads (λ _, demo_router) (λ s : dSt, dw_sessions (snd s)) (λ _ _ _ _, ret tt) (λ _ _, None)
    (λ _, 5%Z) (λ _, "") ltac:(reflexivity) recording (failing (λ _, true)) Background exec_snapshot exec_inv demo_state);
    [apply exec_exposed|apply exec_registered|].
  intros operation h s2 Hr c input. unfold SessionOps.operate, bind, lift.
  destruct (bool_decide (operation = OperationTerminalExecute)) eqn:E.
  - apply bool_decide_eq_true in E. subst operation. discriminate Hr.
  - repeat (destruct (bool_decide _); [reflexivity|]). reflexivity.
Defined.
End Witnesses.
