(* ===== verification/ModelNames.v ===== *)
(** * agent/model: tool names on the wire

    [tool_names.go]: providers accept a restricted alphabet for tool names, so
    the names of a request are replaced by aliases and the calls of the
    response are given their names back.  The closure over the map of aliases
    is the map. *)

From S2P Require Import Prelude Sha256 ToolTypes AgentTypes AgentLoop.

(** ^[a-zA-Z0-9_-]{1,64}$ *)
Definition is_wire_char (c : ascii) : bool :=
  is_lower c || in_range c 65 90 || is_digit c || Nat.eqb (nat_of_ascii c) 95 || Nat.eqb (nat_of_ascii c) 45.
Definition wireToolName (s : string) : bool :=
  Nat.leb 1 (String.length s) && Nat.leb (String.length s) 64 && all_chars is_wire_char s.

Module ToolNames.
Definition encoded (name : string) : string :=
  if wireToolName name then name
  else "t_" +:+ Sha256.EncodeToString (take 30 (Sha256.Sum256 name)).
(** [alias] also enters the alias into the map. *)
Definition alias (name : string) (names : gmap string string) : string * gmap string string :=
  (encoded name, <[encoded name := name]> names).

Fixpoint encode_tools (tools : list ModelTool) (names : gmap string string) : list ModelTool * gmap string string :=
  match tools with
  | [] => ([], names)
  | t :: rest =>
      let '(name, names) := alias (mt_Name t) names in
      let '(rest, names) := encode_tools rest names in
      (mkModelTool name (mt_Description t) (mt_InputSchema t) :: rest, names)
  end.
Fixpoint encode_calls (calls : list ModelToolCall) (names : gmap string string) : list ModelToolCall * gmap string string :=
  match calls with
  | [] => ([], names)
  | c :: rest =>
      let '(name, names) := alias (mc_Name c) names in
      let '(rest, names) := encode_calls rest names in
      (mkModelToolCall (mc_ID c) name (mc_Input c) :: rest, names)
  end.
Fixpoint encode_messages (messages : list ModelMessage) (names : gmap string string)
    : list ModelMessage * gmap string string :=
  match messages with
  | [] => ([], names)
  | m :: rest =>
      let '(calls, names) := encode_calls (mm_ToolCalls m) names in
      let '(rest, names) := encode_messages rest names in
      (m<| mm_ToolCalls := calls |> :: rest, names)
  end.

Definition encodeToolNames (request : ModelRequest) : ModelRequest * gmap string string :=
  let '(tools, names) := encode_tools (mr_Tools request) ∅ in
  let '(messages, names) := encode_messages (mr_Messages request) names in
  (mkModelRequest (mr_Selection request) (mr_SessionID request) (mr_TurnID request) messages tools
    (mr_ToolSnapshotID request), names).
(** The function returned beside the request. *)
Definition restore (names : gmap string string) (response : ModelResponse) : ModelResponse :=
  mkResponse (res_Text response)
    (map (λ c, match names !! mc_Name c with
               | Some name => mkModelToolCall (mc_ID c) name (mc_Input c)
               | None => c
               end) (res_ToolCalls response)) (res_Usage response).
End ToolNames.
Import ToolNames.

(** ** Every alias is a wire name *)
Lemma all_chars_list f s : all_chars f s = forallb f (String.list_ascii_of_string s).
Proof. induction s as [|c s IH]; [done|]. simpl. by rewrite IH. Qed.
Lemma hexchar_wire n : (n < 16)%N → is_wire_char (Sha256.hexchar n) = true.
Proof.
  intros Hn. assert (n ∈ (N.of_nat <$> seq 0 16)) as Hin.
  { apply list_elem_of_fmap. exists (N.to_nat n). split; [lia|]. apply elem_of_seq. lia. }
  revert Hin. clear. intros Hin. repeat (apply elem_of_cons in Hin as [->|Hin]; [vm_compute; reflexivity|]).
  by apply not_elem_of_nil in Hin.
Qed.
Lemma Encode_wire l : Forall (λ b, (b < 256)%N) l → all_chars is_wire_char (Sha256.EncodeToString l) = true.
Proof.
  intros Hl. unfold Sha256.EncodeToString. rewrite all_chars_list, String.list_ascii_of_string_of_list_ascii.
  induction Hl as [|b l Hb Hl IH]; [done|]. simpl.
  rewrite !hexchar_wire, IH; [done| |].
  - change 15%N with (N.ones 4). rewrite N.land_ones. apply N.mod_lt. done.
  - rewrite N.shiftr_div_pow2. apply N.Div0.div_lt_upper_bound. change (2 ^ 4)%N with 16%N. lia.
Qed.
Lemma byte_bound x : (N.land x 255 < 256)%N.
Proof. change 255%N with (N.ones 8). rewrite N.land_ones. by apply N.mod_lt. Qed.
Lemma Sum256_bytes s : Forall (λ b, (b < 256)%N) (Sha256.Sum256 s).
Proof.
  unfold Sha256.Sum256. induction (Sha256.blocks _ _ _) as [|w l IH]; [constructor|]. simpl.
  by repeat (constructor; [apply byte_bound|]).
Qed.
Lemma length_Sum256 s : length (Sha256.Sum256 s) = 32.
Proof. unfold Sha256.Sum256. by rewrite Sha256.length_digest_bytes, Sha256.length_blocks. Qed.
Lemma encoded_wire name : wireToolName (encoded name) = true.
Proof.
  unfold encoded. destruct (wireToolName name) eqn:Hw; [done|]. unfold wireToolName.
  change ("t_" +:+ ?x) with (String "t" (String "_" x)). cbn [String.length all_chars].
  rewrite Sha256.length_EncodeToString, length_take, length_Sum256, Encode_wire; [done|].
  apply Forall_take, Sum256_bytes.
Qed.

(** ** The names of a request *)
Definition calls_of (messages : list ModelMessage) : list ModelToolCall := mjoin (map mm_ToolCalls messages).
Definition used (request : ModelRequest) : list string :=
  map mt_Name (mr_Tools request) ++ map mc_Name (calls_of (mr_Messages request)).
Definition enter (l : list string) (names : gmap string string) : gmap string string :=
  fold_left (λ m name, <[encoded name := name]> m) l names.

Lemma encode_tools_spec tools : ∀ names,
  let '(tools', names') := encode_tools tools names in
  map mt_Name tools' = map encoded (map mt_Name tools) ∧ names' = enter (map mt_Name tools) names.
Proof.
  induction tools as [|t tools IH]; intros names; [done|]. simpl. specialize (IH (<[encoded (mt_Name t) := mt_Name t]> names)).
  destruct (encode_tools tools _) as [tools' names']. destruct IH as [IH1 IH2]. simpl. by rewrite IH1, IH2.
Qed.
Lemma encode_calls_spec calls : ∀ names,
  let '(calls', names') := encode_calls calls names in
  map mc_Name calls' = map encoded (map mc_Name calls) ∧ names' = enter (map mc_Name calls) names.
Proof.
  induction calls as [|c calls IH]; intros names; [done|]. simpl. specialize (IH (<[encoded (mc_Name c) := mc_Name c]> names)).
  destruct (encode_calls calls _) as [calls' names']. destruct IH as [IH1 IH2]. simpl. by rewrite IH1, IH2.
Qed.
Lemma encode_messages_spec messages : ∀ names,
  let '(messages', names') := encode_messages messages names in
  map mc_Name (calls_of messages') = map encoded (map mc_Name (calls_of messages)) ∧
  names' = enter (map mc_Name (calls_of messages)) names.
Proof.
  induction messages as [|m messages IH]; intros names; [done|]. simpl. pose proof (encode_calls_spec (mm_ToolCalls m) names) as Hc.
  destruct (encode_calls (mm_ToolCalls m) names) as [calls names1]. destruct Hc as [Hc1 ->].
  specialize (IH (enter (map mc_Name (mm_ToolCalls m)) names)).
  destruct (encode_messages messages _) as [messages' names']. destruct IH as [IH1 IH2].
  unfold calls_of in *. simpl. rewrite !map_app, Hc1, IH1, IH2. split; [done|]. unfold enter. by rewrite fold_left_app.
Qed.
Lemma enter_app l1 l2 names : enter (l1 ++ l2) names = enter l2 (enter l1 names).
Proof. apply fold_left_app. Qed.

Lemma lookup_enter l : ∀ names name,
  (∀ x y, x ∈ l → y ∈ l → encoded x = encoded y → x = y) → name ∈ l → enter l names !! encoded name = Some name.
Proof.
  induction l as [|x l IH] using rev_ind; intros names name Hinj Hin; [by apply not_elem_of_nil in Hin|].
  rewrite enter_app. simpl. destruct (decide (encoded x = encoded name)) as [He|He].
  - rewrite He, lookup_insert_eq. f_equal. apply Hinj; [set_solver|done|done].
  - rewrite lookup_insert_ne by done. apply IH; [|set_solver]. intros a b Ha Hb. apply Hinj; set_solver.
Qed.
Lemma encodeToolNames_spec request :
  let '(request', names) := encodeToolNames request in
  used request' = map encoded (used request) ∧ names = enter (used request) ∅.
Proof.
  unfold encodeToolNames. pose proof (encode_tools_spec (mr_Tools request) ∅) as Ht.
  destruct (encode_tools (mr_Tools request) ∅) as [tools names1]. destruct Ht as [Ht ->].
  pose proof (encode_messages_spec (mr_Messages request) (enter (map mt_Name (mr_Tools request)) ∅)) as Hm.
  destruct (encode_messages (mr_Messages request) _) as [messages names]. destruct Hm as [Hm ->].
  unfold used. cbn [mr_Tools mr_Messages]. by rewrite Ht, Hm, map_app, enter_app.
Qed.

(** Tool names survive the way to the provider and back.  Every name sent
    is one the provider accepts; and unless two names of the request share an
    alias, the calls of a response that name aliases are, restored, the calls
    of the tools meant. *)
Theorem tool_names_roundtrip request request' names text calls usage :
  encodeToolNames request = (request', names) →
  (∀ x y, x ∈ used request → y ∈ used request → encoded x = encoded y → x = y) →
  (∀ c, c ∈ calls → mc_Name c ∈ used request) →
  Forall (λ name, wireToolName name = true) (used request') ∧
  restore names (mkResponse text (map (λ c, mkModelToolCall (mc_ID c) (encoded (mc_Name c)) (mc_Input c)) calls) usage) =
    mkResponse text calls usage.
Proof.
  intros He Hinj Hc. pose proof (encodeToolNames_spec request) as Hs. rewrite He in Hs. destruct Hs as [Hu ->]. split.
  - rewrite Hu. apply Forall_forall. intros n (x & -> & _)%list_elem_of_fmap. apply encoded_wire.
  - unfold restore. cbn [res_Text res_ToolCalls res_Usage]. f_equal.
    induction calls as [|c calls IH]; [done|]. cbn [map mc_Name mc_ID mc_Input].
    rewrite lookup_enter by (done || (apply Hc; by left)). f_equal; [by destruct c|]. apply IH. intros c' Hc'. apply Hc. by right.
Qed.

(** ** Witness: the names of the runtime have dots *)
Definition w_names_request : ModelRequest :=
  mkModelRequest (mkSelection "" "") "s" "t" [] [mkModelTool "terminal.execute" "" "{}"; mkModelTool "data.query" "" "{}"] "".
Lemma tool_names_roundtrip_witness :
  let '(request', names) := encodeToolNames w_names_request in
  let calls := [mkModelToolCall "c1" "data.query" "{}"] in
  Forall (λ name, wireToolName name = true) (used request') ∧
  restore names (mkResponse "" [mkModelToolCall "c1" (encoded "data.query") "{}"] (mkUsage 0 0)) = mkResponse "" calls (mkUsage 0 0).
Proof.
  destruct (encodeToolNames w_names_request) as [request' names] eqn:He.
  apply (tool_names_roundtrip w_names_request request' names "" [mkModelToolCall "c1" "data.query" "{}"] (mkUsage 0 0) He).
  - intros x y Hx Hy. unfold used in Hx, Hy. simpl in Hx, Hy. repeat (apply elem_of_cons in Hx as [->|Hx]);
      try (by apply not_elem_of_nil in Hx); repeat (apply elem_of_cons in Hy as [->|Hy]); try (by apply not_elem_of_nil in Hy);
      try reflexivity; intros H; vm_compute in H; discriminate H.
  - intros c ->%list_elem_of_singleton. unfold used. simpl. right. left.
Defined.
