(* ===== verification/Assistance.v ===== *)
(** * agent/assistance: cancellable editor lanes

    [session.go]: a lane serves one editor.  Each keystroke may ask for a
    suggestion with a larger revision, which supersedes the one under way;
    going on typing invalidates it, leaving closes the lane.  The requests run
    in goroutines of their own and meet in critical sections; [advance] is one
    request up to its next section, [lane_step] the interleavings.  The guard,
    the generator and the deadlines of contexts answer as they like. *)

From S2P Require Import Prelude Utf8 ToolTypes AgentTypes.

Definition ErrInvalid : error := ESentinel "assistance.ErrInvalid" "invalid assistance request".
Definition ErrClosed : error := ESentinel "assistance.ErrClosed" "assistance session closed".
Definition ErrStale : error := ESentinel "assistance.ErrStale" "assistance input superseded".
Definition ErrSuggestion : error := ESentinel "assistance.ErrSuggestion" "invalid model suggestion".
Definition Canceled : error := ESentinel "context.Canceled" "context canceled".

Record Binding := mkLaneBinding { lb_OwnerID : N; lb_HandleID : string; lb_Protocol : string }.
Record Input := mkInput {
  in_AgentSessionID : string;
  in_AgentContext : list ModelMessage;
  in_Revision : N;
  in_Text : string;
  in_Cursor : Z;
  in_RecentOutput : string;
  in_Schema : string;
  in_ShellContext : string
}.
Record Suggestion := mkSuggestion { sg_Revision : N; sg_Cursor : Z; sg_Text : string }.

(** [Session]; a cancel function is the request it cancels. *)
Record Lane := mkLane {
  ln_binding : Binding;
  ln_revision : N;
  ln_closed : bool;
  ln_cancel : option N
}.
#[global] Instance eta_Lane : Eta Lane := {| eta := λ s,
  mkLane (ln_binding s) (ln_revision s) (ln_closed s) (ln_cancel s) |}.

Module Lanes.
Definition protocols : list string :=
  ["ssh"; "mysql"; "mariadb"; "sqlserver"; "oracle"; "clickhouse"; "elasticsearch"; "opensearch"; "postgresql"; "redis"; "mongodb"].
Definition NewSession (binding : Binding) (generator guard : bool) : Result Lane :=
  if bool_decide (lb_OwnerID binding = 0%N) || bool_decide (lb_HandleID binding = "") || negb generator || negb guard
  then Err ErrInvalid
  else if existsb (λ p, bool_decide (p = lb_Protocol binding)) protocols
  then Ok (mkLane binding 0 false None) else Err ErrInvalid.

Definition len (s : string) : Z := Z.of_nat (String.length s).
Definition prefix (s : string) (n : Z) : string := String.substring 0 (Z.to_nat n) s.
Definition invalid_input (i : Input) : bool :=
  bool_decide (in_Revision i = 0%N) || Z.ltb 8192 (len (in_Text i)) || Z.ltb 16384 (len (in_RecentOutput i)) ||
  Z.ltb 32768 (len (in_Schema i)) || Z.ltb 16384 (len (in_ShellContext i)) || negb (Utf8.ValidString (in_ShellContext i)) ||
  Z.ltb (in_Cursor i) 0 || Z.ltb (len (in_Text i)) (in_Cursor i) || negb (Utf8.ValidString (in_Text i)) ||
  negb (Utf8.ValidString (prefix (in_Text i) (in_Cursor i))) || negb (Utf8.ValidString (in_RecentOutput i)) ||
  negb (Utf8.ValidString (in_Schema i)).

(** No terminal control characters, and for ssh no line break either. *)
Definition forbidden (protocol : string) (r : option N) : bool :=
  Utf8.IsControl r &&
  negb (bool_decide (protocol ≠ "ssh") && (bool_decide (r = Some 10%N) || bool_decide (r = Some 9%N))).
Definition unacceptable (protocol text : string) : bool :=
  Z.ltb 8192 (len text) || negb (Utf8.ValidString text) || existsb (forbidden protocol) (Utf8.runes text).

(** *** The critical sections *)

(** The request becomes the lane's current one; the one before is returned,
    to be cancelled. *)
Definition enter (me : N) (input : Input) (s : Lane) : Result (option N) * Lane :=
  if ln_closed s then (Err ErrClosed, s)
  else if N.leb (in_Revision input) (ln_revision s) then (Err ErrStale, s)
  else (Ok (ln_cancel s), s<| ln_revision := in_Revision input |><| ln_cancel := Some me |>).
(** The deferred function. *)
Definition leave (input : Input) (s : Lane) : Lane :=
  if bool_decide (ln_revision s = in_Revision input) then s<| ln_cancel := None |> else s.
Definition deliver (cerr : option error) (input : Input) (text : string) (s : Lane) : Result Suggestion :=
  if ln_closed s then Err ErrClosed
  else if bool_decide (ln_revision s ≠ in_Revision input) then Err ErrStale
  else match cerr with
       | Some e => Err e
       | None => Ok (mkSuggestion (in_Revision input) (in_Cursor input) text)
       end.
Definition Invalidate (revision : N) (s : Lane) : Result (option N) * Lane :=
  if ln_closed s then (Err ErrClosed, s)
  else if N.leb revision (ln_revision s) then (Err ErrStale, s)
  else (Ok (ln_cancel s), s<| ln_revision := revision |><| ln_cancel := None |>).
Definition Close (s : Lane) : option N * Lane := (ln_cancel s, s<| ln_closed := true |><| ln_cancel := None |>).

(** *** A request *)
Inductive pc :=
| Entering
| Superseding (previous : option N)
| Guarding
| Generating
| Generated (text : string)
| Rechecking (text : string)
| Delivering (text : string)
| Leaving (answer : Result Suggestion)
| Answered (answer : Result Suggestion).

(** One step of [Suggest], from its first critical section on; [guard] and
    [generated] are the answers of the calls it may make.  What else it does:
    the request it cancels and whether its own context is over. *)
Definition advance (me : N) (input : Input) (p : pc) (cerr guard : option error) (generated : Result string) (s : Lane)
    : pc * Lane * option N :=
  match p with
  | Entering =>
      match enter me input s with
      | (Err e, s') => (Answered (Err e), s', Some me)
      | (Ok previous, s') => (Superseding previous, s', None)
      end
  | Superseding previous => (Guarding, s, previous)
  | Guarding => (match guard with Some e => Leaving (Err e) | None => Generating end, s, None)
  | Generating => (match generated with Err e => Leaving (Err e) | Ok text => Generated text end, s, None)
  | Generated text => (match cerr with Some e => Leaving (Err e) | None => Rechecking text end, s, None)
  | Rechecking text =>
      (match guard with
       | Some e => Leaving (Err e)
       | None => if unacceptable (lb_Protocol (ln_binding s)) text then Leaving (Err ErrSuggestion) else Delivering text
       end, s, None)
  | Delivering text => (Leaving (deliver cerr input text s), s, None)
  | Leaving answer => (Answered answer, leave input s, Some me)
  | Answered answer => (Answered answer, s, None)
  end.
End Lanes.
Import Lanes.

(** ** Interleavings

    [cancelled] are the contexts that are over with the reason, [pending] the
    cancel functions that [Invalidate] and [Close] have taken out and are about
    to call, [delivered] the suggestions returned, oldest first. *)
Record world := mkWorld {
  w_lane : Lane;
  w_requests : gmap N (Input * pc);
  w_cancelled : gmap N error;
  w_pending : list N;
  w_delivered : list Suggestion
}.
Definition cancel (o : option N) (reason : error) (m : gmap N error) : gmap N error :=
  match o with
  | Some id => if bool_decide (is_Some (m !! id)) then m else <[id := reason]> m
  | None => m
  end.
Definition returned (p p' : pc) : list Suggestion :=
  match p, p' with Delivering _, Leaving (Ok g) => [g] | _, _ => [] end.

Inductive lane_step : world → world → Prop :=
| step_call me input s reqs canc pend del :
    reqs !! me = None → canc !! me = None → invalid_input input = false →
    lane_step (mkWorld s reqs canc pend del) (mkWorld s (<[me := (input, Entering)]> reqs) canc pend del)
| step_advance me input p p' guard generated s s' o reqs canc pend del :
    reqs !! me = Some (input, p) →
    advance me input p (canc !! me) guard generated s = (p', s', o) →
    lane_step (mkWorld s reqs canc pend del)
      (mkWorld s' (<[me := (input, p')]> reqs) (cancel o Canceled canc) pend (del ++ returned p p'))
| step_invalidate revision x s s' reqs canc pend del :
    Invalidate revision s = (x, s') →
    lane_step (mkWorld s reqs canc pend del)
      (mkWorld s' reqs canc (match x with Ok (Some id) => id :: pend | _ => pend end) del)
| step_close o s s' reqs canc pend del :
    Close s = (o, s') →
    lane_step (mkWorld s reqs canc pend del) (mkWorld s' reqs canc (from_option (λ id, id :: pend) pend o) del)
| step_cancel id s reqs canc l1 l2 del :
    lane_step (mkWorld s reqs canc (l1 ++ id :: l2) del) (mkWorld s reqs (cancel (Some id) Canceled canc) (l1 ++ l2) del)
| step_deadline me reason s reqs canc pend del :
    is_Some (reqs !! me) →
    lane_step (mkWorld s reqs canc pend del) (mkWorld s reqs (cancel (Some me) reason canc) pend del).

Definition lane_start (s : Lane) : world := mkWorld s ∅ ∅ [] [].

(** ** The invariant *)
Definition active (p : pc) : bool := match p with Entering | Answered _ => false | _ => true end.
Definition undecided (p : pc) : bool := match p with Entering | Leaving _ | Answered _ => false | _ => true end.

(** Superseded and told so, or about to be. *)
Definition told (w : world) (me : N) : Prop :=
  is_Some (w_cancelled w !! me) ∨ me ∈ w_pending w ∨
  ∃ me' input', w_requests w !! me' = Some (input', Superseding (Some me)).
Definition text_ok (protocol : string) (p : pc) : bool :=
  match p with Delivering text => negb (unacceptable protocol text) | _ => true end.

Record lane_inv (w : world) : Prop := {
  iv_revision me input p : w_requests w !! me = Some (input, p) → active p = true →
    (in_Revision input ≤ ln_revision (w_lane w))%N;
  iv_unique me me' input input' p p' : w_requests w !! me = Some (input, p) → w_requests w !! me' = Some (input', p') →
    active p = true → active p' = true → in_Revision input = in_Revision input' → me = me';
  iv_current me : ln_cancel (w_lane w) = Some me →
    ∃ input p, w_requests w !! me = Some (input, p) ∧ active p = true ∧ in_Revision input = ln_revision (w_lane w);
  iv_told me input p : w_requests w !! me = Some (input, p) → active p = true →
    ln_cancel (w_lane w) = Some me ∨ told w me;
  iv_text me input p : w_requests w !! me = Some (input, p) → text_ok (lb_Protocol (ln_binding (w_lane w))) p = true;
  iv_old g : g ∈ w_delivered w → (sg_Revision g ≤ ln_revision (w_lane w))%N;
  iv_fresh me input p g : w_requests w !! me = Some (input, p) → undecided p = true → g ∈ w_delivered w →
    sg_Revision g ≠ in_Revision input;
  iv_sorted : StronglySorted N.lt (map sg_Revision (w_delivered w));
  iv_acceptable : Forall (λ g, unacceptable (lb_Protocol (ln_binding (w_lane w))) (sg_Text g) = false) (w_delivered w)
}.

Lemma inv_start s : ln_revision s = 0%N → ln_cancel s = None → lane_inv (lane_start s).
Proof.
  intros Hr Hc. split; simpl; intros *; try (by rewrite lookup_empty); try done.
  - by rewrite Hc.
  - by intros ?%not_elem_of_nil.
  - constructor.
Qed.

Lemma told_mono w w' me :
  told w me →
  (∀ x, is_Some (w_cancelled w !! x) → is_Some (w_cancelled w' !! x)) →
  (∀ x, x ∈ w_pending w → x ∈ w_pending w' ∨ is_Some (w_cancelled w' !! x)) →
  (∀ x, (∃ me' input', w_requests w !! me' = Some (input', Superseding (Some x))) → told w' x) → told w' me.
Proof.
  intros [H|[H|H]] Hc Hp Hs; [left; auto| |by apply Hs]. destruct (Hp me H); [right; by left|by left].
Qed.
Lemma cancel_mono o reason m x : is_Some (m !! x) → is_Some (cancel o reason m !! x).
Proof.
  intros H. destruct o as [id|]; simpl; [|done]. case_bool_decide; [done|].
  destruct (decide (id = x)) as [->|]; [rewrite lookup_insert_eq; eauto|by rewrite lookup_insert_ne].
Qed.
Lemma cancel_some id reason m : is_Some (cancel (Some id) reason m !! id).
Proof. simpl. case_bool_decide; [done|]. rewrite lookup_insert_eq. eauto. Qed.

(** Steps that only cancel contexts or take requests in. *)
Lemma inv_same w w' :
  lane_inv w → w_lane w' = w_lane w → w_delivered w' = w_delivered w →
  (∀ me input p, w_requests w' !! me = Some (input, p) → w_requests w !! me = Some (input, p) ∨ p = Entering) →
  (∀ me r, w_requests w !! me = Some r → w_requests w' !! me = Some r) →
  (∀ x, is_Some (w_cancelled w !! x) → is_Some (w_cancelled w' !! x)) →
  (∀ x, x ∈ w_pending w → x ∈ w_pending w' ∨ is_Some (w_cancelled w' !! x)) →
  lane_inv w'.
Proof.
  intros [I1 I2 I3 I4 I5 I6 I7 I8 I9] Hl Hd Hreq Hkeep Hc Hp. split; rewrite ?Hl, ?Hd; try done.
  - intros me input p H Ha. destruct (Hreq _ _ _ H) as [H'| ->]; [by eapply I1|done].
  - intros me me' input input' p p' H H' Ha Ha'.
    destruct (Hreq _ _ _ H) as [E| ->], (Hreq _ _ _ H') as [E'| ->]; try done. by eapply I2.
  - intros me H. destruct (I3 me H) as (input & p & E & ?). eauto 6.
  - intros me input p H Ha. destruct (Hreq _ _ _ H) as [E| ->]; [|done].
    destruct (I4 _ _ _ E Ha) as [?|Ht]; [by left|right]. apply (told_mono w); [done|done|done|].
    intros x (me' & input' & E'). right. right. eauto.
  - intros me input p H. destruct (Hreq _ _ _ H) as [E| ->]; [by eapply I5|done].
  - intros me input p g H Hu. destruct (Hreq _ _ _ H) as [E| ->]; [by eapply I7|done].
Qed.

(** A request goes on without entering or leaving. *)
Lemma inv_move s reqs canc canc' pend del me input p p' :
  let w := mkWorld s reqs canc pend del in
  lane_inv w → reqs !! me = Some (input, p) → active p' = active p → (undecided p' = true → undecided p = true) →
  text_ok (lb_Protocol (ln_binding s)) p' = true →
  (∀ x, is_Some (canc !! x) → is_Some (canc' !! x)) → (∀ x, p = Superseding (Some x) → is_Some (canc' !! x)) →
  lane_inv (mkWorld s (<[me := (input, p')]> reqs) canc' pend del).
Proof.
  intros w [I1 I2 I3 I4 I5 I6 I7 I8 I9] Hme Hact Hund Htext Hc Hsup. simpl in *.
  assert (∀ x i q, <[me := (input, p')]> reqs !! x = Some (i, q) → ∃ q0, reqs !! x = Some (i, q0) ∧ active q = active q0 ∧
    (undecided q = true → undecided q0 = true) ∧ (q = q0 ∨ x = me)) as Hback.
  { intros x i q [[<- [= <- <-]]|[Hne H]]%lookup_insert_Some; [exists p; auto|exists q; auto]. }
  split; simpl; try done.
  - intros x i q (q0 & E & Ha & _)%Hback Hq. eapply I1; [done|congruence].
  - intros x x' i i' q q' (q0 & E & Ha & _)%Hback (q0' & E' & Ha' & _)%Hback Hq Hq'. eapply I2; [done|done|congruence|congruence].
  - intros x H. destruct (I3 x H) as (i & q & E & Hq & Hr). destruct (decide (x = me)) as [->|Hne].
    + simplify_eq. eexists _, p'. rewrite lookup_insert_eq, Hact. done.
    + exists i, q. by rewrite lookup_insert_ne.
  - intros x i q (q0 & E & Ha & _)%Hback Hq. destruct (I4 x i q0 E ltac:(congruence)) as [?|Ht]; [by left|right].
    eapply told_mono; [exact Ht|done|by left|]. simpl. intros y (me' & i' & E'). destruct (decide (me' = me)) as [->|Hne].
    + simplify_eq. left. simpl. by apply Hsup.
    + right. right. exists me', i'. simpl. by rewrite lookup_insert_ne.
  - intros x i q [[<- [= <- <-]]|[Hne H]]%lookup_insert_Some; [done|by eapply I5].
  - intros x i q g (q0 & E & _ & Hu & _)%Hback Hq. eapply I7; [done|auto].
Qed.
Lemma inv_deliver s reqs canc pend del me input g :
  lane_inv (mkWorld s reqs canc pend del) → reqs !! me = Some (input, Leaving (Ok g)) →
  sg_Revision g = in_Revision input → ln_revision s = in_Revision input →
  Forall (λ g', sg_Revision g' ≠ in_Revision input) del → unacceptable (lb_Protocol (ln_binding s)) (sg_Text g) = false →
  lane_inv (mkWorld s reqs canc pend (del ++ [g])).
Proof.
  intros [I1 I2 I3 I4 I5 I6 I7 I8 I9] Hme Hg Hs Hnew Htext. simpl in *. split; simpl; try done.
  - intros g' [?| ->%list_elem_of_singleton]%elem_of_app; [by apply I6|lia].
  - intros x i q g' E Hu [?| ->%list_elem_of_singleton]%elem_of_app; [by eapply I7|]. intros Heq.
    assert (x = me) as ->; [|by simplify_eq]. eapply (I2 x me); [done|done|by destruct q|done|congruence].
  - rewrite map_app. simpl. assert (Forall (λ r, (r < sg_Revision g)%N) (map sg_Revision del)) as Hlt.
    { apply Forall_forall. intros r (g' & -> & Hin)%list_elem_of_fmap. apply (Forall_forall _ del) with (x := g') in Hnew; [|done].
      apply I6 in Hin. lia. }
    clear -I8 Hlt. induction (map sg_Revision del) as [|r l IH]; simpl; [repeat constructor|].
    inversion I8; inversion Hlt; subst. constructor; [by apply IH|]. apply Forall_app. by repeat constructor.
  - apply Forall_app. by repeat constructor.
Qed.
Lemma inv_enter s reqs canc pend del me input previous s' :
  lane_inv (mkWorld s reqs canc pend del) → reqs !! me = Some (input, Entering) → enter me input s = (Ok previous, s') →
  lane_inv (mkWorld s' (<[me := (input, Superseding previous)]> reqs) canc pend del).
Proof.
  intros [I1 I2 I3 I4 I5 I6 I7 I8 I9] Hme He. simpl in *. unfold enter in He. destruct (ln_closed s); [done|].
  destruct (N.leb_spec (in_Revision input) (ln_revision s)) as [|Hlt]; [done|]. simplify_eq.
  assert (∀ x i q, reqs !! x = Some (i, q) → active q = true → x ≠ me ∧ (in_Revision i < in_Revision input)%N) as Hold.
  { intros x i q E Hq. split; [intros ->; by simplify_eq|]. eapply N.le_lt_trans; [by eapply I1|done]. }
  split; simpl; try done.
  - intros x i q [[<- [= <- <-]]|[Hne E]]%lookup_insert_Some Hq; [done|]. destruct (Hold _ _ _ E Hq). lia.
  - intros x x' i i' q q' [[<- [= <- <-]]|[Hne E]]%lookup_insert_Some [[<- [= <- <-]]|[Hne' E']]%lookup_insert_Some Hq Hq' Heq;
      [done| | |by eapply I2].
    + destruct (Hold _ _ _ E' Hq'). lia.
    + destruct (Hold _ _ _ E Hq). lia.
  - intros x [= <-]. exists input, (Superseding (ln_cancel s)). by rewrite lookup_insert_eq.
  - intros x i q [[<- [= <- <-]]|[Hne E]]%lookup_insert_Some Hq; [by left|]. right.
    destruct (I4 _ _ _ E Hq) as [Hcur|Ht].
    + right. right. exists me, input. simpl. by rewrite lookup_insert_eq, Hcur.
    + eapply told_mono; [exact Ht|done|by left|]. intros y (me' & i' & E'). right. right. exists me', i'. simpl in *.
      rewrite lookup_insert_ne; [done|]. intros <-. by simplify_eq.
  - intros x i q [[<- [= <- <-]]|[Hne E]]%lookup_insert_Some; [done|by eapply I5].
  - intros g Hg. apply I6 in Hg. lia.
  - intros x i q g [[<- [= <- <-]]|[Hne E]]%lookup_insert_Some Hu Hg; [apply I6 in Hg; lia|by eapply I7].
Qed.
Lemma inv_leave s reqs canc canc' pend del me input answer :
  lane_inv (mkWorld s reqs canc pend del) → reqs !! me = Some (input, Leaving answer) →
  (∀ x, is_Some (canc !! x) → is_Some (canc' !! x)) →
  lane_inv (mkWorld (leave input s) (<[me := (input, Answered answer)]> reqs) canc' pend del).
Proof.
  intros [I1 I2 I3 I4 I5 I6 I7 I8 I9] Hme Hc. simpl in *.
  assert (ln_revision (leave input s) = ln_revision s ∧ ln_binding (leave input s) = ln_binding s) as [Hr Hb]
    by (unfold leave; by case_bool_decide).
  assert (∀ x, ln_cancel (leave input s) = Some x → ln_cancel s = Some x ∧ x ≠ me) as Hcur.
  { intros x. unfold leave. case_bool_decide as Heq; [done|]. intros Hx. split; [done|]. intros ->.
    destruct (I3 me Hx) as (i & q & E & _ & Hrev). by simplify_eq. }
  split; simpl; rewrite ?Hr, ?Hb; try done.
  - intros x i q [[<- [= <- <-]]|[Hne E]]%lookup_insert_Some Hq; [done|by eapply I1].
  - intros x x' i i' q q' [[<- [= <- <-]]|[Hne E]]%lookup_insert_Some [[<- [= <- <-]]|[Hne' E']]%lookup_insert_Some Hq Hq';
      try done. by eapply I2.
  - intros x [Hx Hne]%Hcur. destruct (I3 x Hx) as (i & q & E). exists i, q. by rewrite lookup_insert_ne.
  - intros x i q [[<- [= <- <-]]|[Hne E]]%lookup_insert_Some Hq; [done|]. destruct (I4 _ _ _ E Hq) as [Hx|Ht].
    + left. unfold leave. case_bool_decide as Heq; [|done]. exfalso. apply Hne. destruct (I3 x Hx) as (i' & q' & E' & Hq' & Hrev).
      eapply (I2 me x); [done|done|done|done|congruence].
    + right. eapply told_mono; [exact Ht|done|by left|]. intros y (me' & i' & E'). right. right. exists me', i'. simpl in *.
      rewrite lookup_insert_ne; [done|]. intros <-. by simplify_eq.
  - intros x i q [[<- [= <- <-]]|[Hne E]]%lookup_insert_Some; [done|by eapply I5].
  - intros x i q g [[<- [= <- <-]]|[Hne E]]%lookup_insert_Some Hu Hg; [done|by eapply I7].
Qed.
(** [Invalidate] and [Close] take the current request out. *)
Lemma inv_evict s s' reqs canc pend del :
  lane_inv (mkWorld s reqs canc pend del) → ln_binding s' = ln_binding s → (ln_revision s ≤ ln_revision s')%N →
  ln_cancel s' = None → lane_inv (mkWorld s' reqs canc (from_option (λ id, id :: pend) pend (ln_cancel s)) del).
Proof.
  intros [I1 I2 I3 I4 I5 I6 I7 I8 I9] Hb Hr Hn. simpl in *.
  assert (∀ x, x ∈ pend → x ∈ from_option (λ id, id :: pend) pend (ln_cancel s)) as Hp
    by (intros x Hx; destruct (ln_cancel s); simpl; [by right|done]).
  split; simpl; rewrite ?Hb, ?Hn; try done.
  - intros x i q E Hq. etrans; [by eapply I1|done].
  - intros x i q E Hq. right. destruct (I4 _ _ _ E Hq) as [Hx|Ht].
    + right. left. simpl. rewrite Hx. by left.
    + eapply told_mono; [exact Ht|done|by left; apply Hp|]. intros y (me' & i' & E'). right. right. eauto.
  - intros g Hg. etrans; [by apply I6|done].
Qed.

Lemma deliver_ok cerr input text s g :
  deliver cerr input text s = Ok g →
  ln_closed s = false ∧ ln_revision s = in_Revision input ∧ g = mkSuggestion (in_Revision input) (in_Cursor input) text.
Proof.
  unfold deliver. destruct (ln_closed s); [done|]. case_bool_decide as Hr; [done|]. destruct cerr; [done|].
  intros [= <-]. split_and!; [done|congruence|done].
Qed.
Lemma inv_delivering s reqs canc pend del me input text cerr :
  lane_inv (mkWorld s reqs canc pend del) → reqs !! me = Some (input, Delivering text) →
  lane_inv (mkWorld s (<[me := (input, Leaving (deliver cerr input text s))]> reqs) canc pend
    (del ++ returned (Delivering text) (Leaving (deliver cerr input text s)))).
Proof.
  intros HI Hme. pose proof HI as [_ _ _ _ I5 _ I7 _ _]. specialize (I5 _ _ _ Hme). simpl in I5, I7.
  assert (lane_inv (mkWorld s (<[me := (input, Leaving (deliver cerr input text s))]> reqs) canc pend del)) as HI'
    by (eapply inv_move; done).
  destruct (deliver cerr input text s) as [g|e] eqn:Hd; simpl; [|by rewrite app_nil_r].
  apply deliver_ok in Hd as (_ & Hr & ->). eapply inv_deliver; [done|by rewrite lookup_insert_eq|done|done| |].
  - apply Forall_forall. intros g Hg. by eapply I7.
  - by apply negb_true_iff.
Qed.
Lemma inv_advance s reqs canc pend del me input p cerr guard generated p' s' o :
  lane_inv (mkWorld s reqs canc pend del) → reqs !! me = Some (input, p) →
  advance me input p cerr guard generated s = (p', s', o) →
  lane_inv (mkWorld s' (<[me := (input, p')]> reqs) (cancel o Canceled canc) pend (del ++ returned p p')).
Proof.
  intros HI Hme H.
  assert (∀ p' o, active p' = active p → (undecided p' = true → undecided p = true) →
    text_ok (lb_Protocol (ln_binding s)) p' = true → (∀ x, p = Superseding (Some x) → o = Some x) →
    lane_inv (mkWorld s (<[me := (input, p')]> reqs) (cancel o Canceled canc) pend del)) as Hmove.
  { intros q o' Ha Hu Ht Hs. eapply inv_move; [done|done|done|done|done|by intros; apply cancel_mono|].
    intros x Hx. rewrite (Hs x Hx). apply cancel_some. }
  destruct p as [|previous| | |text|text|text|answer|answer]; simpl in H.
  - destruct (enter me input s) as [[previous|e] s1] eqn:He; simplify_eq; cbn [returned]; rewrite app_nil_r.
    + by eapply inv_enter.
    + assert (s' = s) as -> by (unfold enter in He; repeat case_match; by simplify_eq). by apply Hmove.
  - simplify_eq. cbn [returned]. rewrite app_nil_r. apply Hmove; try done. by intros x [= ->].
  - simplify_eq. cbn [returned]. rewrite app_nil_r. apply Hmove; by destruct guard.
  - simplify_eq. cbn [returned]. rewrite app_nil_r. apply Hmove; by destruct generated.
  - simplify_eq. cbn [returned]. rewrite app_nil_r. apply Hmove; by destruct cerr.
  - simplify_eq. cbn [returned]. rewrite app_nil_r. destruct guard; [by apply Hmove|].
    destruct (unacceptable _ text) eqn:Hu; apply Hmove; try done. simpl. by rewrite Hu.
  - simplify_eq. by apply inv_delivering.
  - simplify_eq. cbn [returned]. rewrite app_nil_r. eapply inv_leave; [done|done|]. intros x. apply (cancel_mono (Some me)).
  - simplify_eq. cbn [returned]. rewrite app_nil_r. by apply Hmove.
Qed.
Lemma inv_step w w' : lane_inv w → lane_step w w' → lane_inv w'.
Proof.
  intros HI Hs. destruct Hs as [me input s reqs canc pend del Hn Hc Hv|me input p p' guard generated s s' o reqs canc pend del Hme Ha
    |revision x s s' reqs canc pend del H|o s s' reqs canc pend del H|id s reqs canc l1 l2 del|me reason s reqs canc pend del H].
  - eapply inv_same; [done|done|done| | |done|by left]; simpl.
    + intros x i q [[<- [= <- <-]]|[Hne E]]%lookup_insert_Some; auto.
    + intros x r E. rewrite lookup_insert_ne; [done|]. intros ->. by simplify_eq.
  - by eapply inv_advance.
  - unfold Invalidate in H. destruct (ln_closed s); [by simplify_eq|].
    destruct (N.leb_spec revision (ln_revision s)); [by simplify_eq|]. simplify_eq.
    pose proof (inv_evict s (s<| ln_revision := revision |><| ln_cancel := None |>) _ _ _ _ HI eq_refl) as He. simpl in He.
    specialize (He ltac:(lia) eq_refl). by destruct (ln_cancel s).
  - unfold Close in H. simplify_eq. by apply inv_evict.
  - eapply inv_same; [done|done|done|by left|done|by intros; apply cancel_mono|]. simpl.
    intros x [Hx|[->|Hx]%elem_of_cons]%elem_of_app; [left; set_solver|right; apply cancel_some|left; set_solver].
  - eapply inv_same; [done|done|done|by left|done|by intros; apply cancel_mono|by left].
Qed.
Lemma inv_reachable s w : ln_revision s = 0%N → ln_cancel s = None → rtc lane_step (lane_start s) w → lane_inv w.
Proof.
  intros Hr Hc H. pose proof (inv_start s Hr Hc) as Hi. revert Hi.
  induction H as [|x y z Hxy _ IH]; [done|]. intros Hi. by apply IH, (inv_step x).
Qed.
Lemma binding_step w w' : lane_step w w' → ln_binding (w_lane w') = ln_binding (w_lane w).
Proof.
  intros H. destruct H as [| me input p p' guard generated s s' o reqs canc pend del Hme Ha| | | |]; simpl; try done.
  - destruct p; simpl in Ha; simplify_eq; try done; [|unfold leave; by case_bool_decide].
    unfold enter in Ha. repeat case_match; by simplify_eq.
  - unfold Invalidate in *. repeat case_match; by simplify_eq.
  - unfold Close in *. by simplify_eq.
Qed.
Lemma binding_reachable s w : rtc lane_step (lane_start s) w → ln_binding (w_lane w) = ln_binding s.
Proof.
  remember (lane_start s) as x eqn:Hx. intros H. change (ln_binding s) with (ln_binding (w_lane (lane_start s))).
  rewrite <- Hx. clear Hx. induction H as [|x y z Hxy _ IH]; [done|]. rewrite IH. by apply binding_step.
Qed.
Lemma NewSession_ok b generator guard s :
  NewSession b generator guard = Ok s → ln_revision s = 0%N ∧ ln_cancel s = None ∧ ln_binding s = b.
Proof. unfold NewSession. repeat case_match; by intros [= <-]. Qed.

(** ** Theorems *)

(** C18. A lane never shows a superseded suggestion.  However requests,
    invalidations, closing, cancellations and deadlines interleave: the
    suggestions returned have strictly increasing revisions, and one is
    returned only while the lane is open and its revision is the newest the
    lane has seen; and every text returned passed the checks: for ssh it holds
    no control byte, no line break in particular, so that accepting it can
    never submit a command. *)
Theorem suggestions_current b generator guard s w :
  NewSession b generator guard = Ok s → rtc lane_step (lane_start s) w →
  StronglySorted N.lt (map sg_Revision (w_delivered w)) ∧
  Forall (λ g, unacceptable (lb_Protocol b) (sg_Text g) = false) (w_delivered w) ∧
  (∀ g c, lb_Protocol b = "ssh" → g ∈ w_delivered w → c ∈ Utf8.bytes_of (sg_Text g) → (32 ≤ c)%N ∧ c ≠ 127%N) ∧
  ∀ w', lane_step w w' → w_delivered w' = w_delivered w ∨
    ∃ g, w_delivered w' = w_delivered w ++ [g] ∧ sg_Revision g = ln_revision (w_lane w) ∧ ln_closed (w_lane w) = false.
Proof.
  intros Hs H. destruct (NewSession_ok _ _ _ _ Hs) as (Hr & Hc & Hb). pose proof (inv_reachable _ _ Hr Hc H) as HI.
  pose proof (binding_reachable _ _ H) as Hbind. rewrite Hb in Hbind.
  pose proof (iv_acceptable _ HI) as Hacc. rewrite Hbind in Hacc. split_and!; [apply HI|done| |].
  - intros g c Hssh Hg. rewrite Forall_forall in Hacc. specialize (Hacc g Hg). unfold unacceptable in Hacc. bools.
    apply Utf8.control_byte. apply forallb_forall. intros r Hin. apply negb_true_iff.
    destruct (Utf8.IsControl r) eqn:Hctl; [|done]. exfalso.
    assert (existsb (forbidden (lb_Protocol b)) (Utf8.runes (sg_Text g)) = true) as Hex; [|congruence].
    apply existsb_exists. exists r. split; [done|]. unfold forbidden. rewrite Hctl, Hssh. done.
  - intros w' Hstep. destruct Hstep as [| me input p p' gd gen s0 s' o reqs canc pend del Hme Ha| | | |]; simpl; try by left.
    destruct p; simpl in Ha; simplify_eq; simpl; rewrite ?app_nil_r; try by left.
    destruct (deliver _ input text s') as [g|e] eqn:Hd; [|by rewrite app_nil_r; left].
    apply deliver_ok in Hd as (Hcl & Hrev & ->). right. eexists. split_and!; [done|done|done].
Qed.

(** No model call is left running for nothing: a request that is past its
    first section and has not ended either is the lane's current one, or its
    context is over, or the call that ends it is on its way. *)
Theorem superseded_requests_told b generator guard s w me input p :
  NewSession b generator guard = Ok s → rtc lane_step (lane_start s) w →
  w_requests w !! me = Some (input, p) → active p = true →
  ln_cancel (w_lane w) = Some me ∧ in_Revision input = ln_revision (w_lane w) ∨ told w me.
Proof.
  intros Hs H Hme Ha. destruct (NewSession_ok _ _ _ _ Hs) as (Hr & Hc & _). pose proof (inv_reachable _ _ Hr Hc H) as HI.
  destruct (iv_told _ HI _ _ _ Hme Ha) as [Hcur|Ht]; [left|by right]. split; [done|].
  destruct (iv_current _ HI _ Hcur) as (i & q & E & _ & Hrev). by simplify_eq.
Qed.

(** ** Witnesses: two keystrokes *)
Inductive act := Call (me : N) (input : Input) | Go (me : N) (generated : Result string).
Definition perform (a : act) (w : world) : world :=
  match a with
  | Call me input =>
      if bool_decide (w_requests w !! me = None ∧ w_cancelled w !! me = None) && negb (invalid_input input)
      then mkWorld (w_lane w) (<[me := (input, Entering)]> (w_requests w)) (w_cancelled w) (w_pending w) (w_delivered w) else w
  | Go me generated =>
      match w_requests w !! me with
      | None => w
      | Some (input, p) =>
          let '(p', s', o) := advance me input p (w_cancelled w !! me) None generated (w_lane w) in
          mkWorld s' (<[me := (input, p')]> (w_requests w)) (cancel o Canceled (w_cancelled w)) (w_pending w)
            (w_delivered w ++ returned p p')
      end
  end.
Lemma perform_steps acts : ∀ w, rtc lane_step w (fold_left (λ w a, perform a w) acts w).
Proof.
  induction acts as [|a acts IH]; intros w; [done|]. simpl. etrans; [|apply IH]. destruct w as [s reqs canc pend del].
  destruct a as [me input|me generated]; simpl.
  - case_bool_decide as Hn; simpl; [|done]. destruct (invalid_input input) eqn:Hv; [done|]. destruct Hn. by apply rtc_once, step_call.
  - destruct (reqs !! me) as [[input p]|] eqn:Hme; [|done].
    destruct (advance me input p (canc !! me) None generated s) as [[p' s'] o] eqn:Ha. by eapply rtc_once, step_advance.
Qed.

Definition w_binding : Binding := mkLaneBinding 7 "h1" "ssh".
Definition w_lane0 : Lane := mkLane w_binding 0 false None.
Definition w_input (revision : N) : Input := mkInput "" [] revision "l" 1%Z "" "" "".
Definition two_keys : world := fold_left (λ w a, perform a w)
  ([Call 1 (w_input 1)] ++ repeat (Go 1 (Ok "old")) 4 ++ [Call 2 (w_input 2)] ++ repeat (Go 2 (Ok "s -la")) 8 ++
   repeat (Go 1 (Ok "old")) 2) (lane_start w_lane0).
Lemma two_keys_delivered : w_delivered two_keys = [mkSuggestion 2 1%Z "s -la"].
Proof. vm_compute. reflexivity. Qed.

Lemma suggestions_current_witness :
  NewSession w_binding true true = Ok w_lane0 ∧ w_delivered two_keys = [mkSuggestion 2 1%Z "s -la"] ∧
  Forall (λ g, unacceptable "ssh" (sg_Text g) = false) (w_delivered two_keys).
Proof.
  split; [reflexivity|]. split; [exact two_keys_delivered|].
  apply (suggestions_current w_binding true true w_lane0 two_keys); [reflexivity|apply perform_steps].
Defined.

(** The first request, overtaken by the second before it has noticed. *)
Definition overtaken : world := fold_left (λ w a, perform a w)
  ([Call 1 (w_input 1)] ++ repeat (Go 1 (Ok "old")) 3 ++ [Call 2 (w_input 2); Go 2 (Ok "new")]) (lane_start w_lane0).
Lemma superseded_requests_told_witness :
  ln_cancel (w_lane overtaken) = Some 2%N ∧ told overtaken 1.
Proof.
  split; [vm_compute; reflexivity|].
  destruct (superseded_requests_told w_binding true true w_lane0 overtaken 1 (w_input 1) Generating) as [[H _]|H];
    [reflexivity|apply perform_steps|vm_compute; reflexivity|reflexivity| |exact H].
  vm_compute in H. discriminate H.
Defined.
