(* ===== verification/AgentService.v ===== *)
(** * agent/application: the service in front of the loop

    [service.go], [management.go], [references.go], [assistance.go]: what an
    authenticated user may do with agent sessions.  The store is the [Store]
    interface; the binder, the identity service, the identifiers, the model
    settings and the turn runner are parameters over the same state, as the
    source's interfaces are.  A nil interface is [None].  An error of two [%w]
    unwraps to both, as one of [errors.Join] does, and is written so; only its
    text differs. *)

From S2P Require Import Prelude Utf8 ToolTypes ToolDisclosure AgentTypes AgentLoop Executors.

Module Service.
Definition ErrInvalid : error := ESentinel "application.ErrInvalid" "invalid agent request".
Definition ErrNotFound : error := ESentinel "application.ErrNotFound" "agent resource not found".
Definition ErrUnavailable : error := ESentinel "application.ErrUnavailable" "agent runtime unavailable".
Definition ErrConnectionUnavailable : error :=
  ESentinel "application.ErrConnectionUnavailable" "agent connection unavailable".
Definition ErrReferenceUnavailable : error :=
  ESentinel "application.ErrReferenceUnavailable" "referenced resource unavailable".

Definition policyRevision : string := "agent-medium-risk-v1".

(** [model.User], [model.IAMResourceRelation] and
    [model.OrganizationMembership]: the fields the service reads. *)
Record User := mkUser { u_ID : N; u_Status : string; u_Email : string }.
Definition UserStatusActive : string := "active".
Record Relation := mkRelation { rel_Relation : string; rel_SubjectType : string; rel_SubjectID : N }.
Record Membership := mkMembership { mb_UserID : N; mb_OrganizationID : N }.

(** What the service is built from. *)
Record Parts (St : Type) := mkParts {
  Bind : ctx → Principal → string → Op St AttachmentSnapshot;
  ListIAMResourceRelations : string → N → Op St (list (option Relation));
  ListUserOrganizations : option (N → Op St (list (option Membership)));
  RequireResourcePermission : User → string → string → Op St unit;
  RequireOrganizationResourcePermission : User → N → string → string → Op St unit;
  NewID : string → Op St string;
  ResolveAgentResource : option (ctx → N → string → N → Op St string);
  ResolveSelection : option (ctx → ModelSelection → Op St ModelSelection);
  runner : option (ctx → RunRequest → St → (RunResult * option error) * St);
  approvals : option (ctx → RunRequest → string → bool → string → St → (RunResult * option error) * St);
  approvalList : option (ctx → string → Op St (list ApprovalView))
}.
Arguments Bind {St} _ _ _ _.
Arguments ListIAMResourceRelations {St} _ _ _.
Arguments ListUserOrganizations {St} _.
Arguments RequireResourcePermission {St} _ _ _ _.
Arguments RequireOrganizationResourcePermission {St} _ _ _ _ _.
Arguments NewID {St} _ _.
Arguments ResolveAgentResource {St} _.
Arguments ResolveSelection {St} _.
Arguments runner {St} _.
Arguments approvals {St} _.
Arguments approvalList {St} _.

Record CreateSessionRequest := mkCreate {
  cr_Kind : SessionKind; cr_Actor : option User; cr_HandleID : string; cr_Title : string }.
Record RunTurnRequest := mkRunTurn {
  rt_References : list ResourceReference; rt_ModelSelection : ModelSelection; rt_Actor : option User;
  rt_SessionID : string; rt_Prompt : string }.
Record ResolveApprovalRequest := mkResolveApproval {
  ra_Actor : option User; ra_SessionID : string; ra_ApprovalID : string; ra_Approve : bool; ra_Note : string }.
Record SessionDetail := mkDetail {
  sd_Session : Session; sd_Attachments : list Attachment; sd_Turns : list Turn; sd_Steps : list Step;
  sd_Messages : list Message; sd_Approvals : list ApprovalView }.

(** strings.ReplaceAll(s, "_", " ") *)
Fixpoint spaced (s : string) : string :=
  match s with
  | EmptyString => EmptyString
  | String c s' => String (if bool_decide (c = "_"%char) then " "%char else c) (spaced s')
  end.
(** At most 255 runes. *)
Definition cut_title (title : string) : string :=
  if Nat.ltb 255 (length (Utf8.runes title)) then Utf8.string_of_runes (take 255 (Utf8.runes title)) else title.

(** [strconv.ParseUint] in base 10 and 64 bits, and that printing gives the
    string back: digits without a leading zero, below 2^64. *)
Definition digits_value (s : string) : N :=
  fold_left (λ n c, (10 * n + N.of_nat (nat_of_ascii c - 48))%N) (String.list_ascii_of_string s) 0%N.
Definition parse_id (s : string) : option N :=
  if bool_decide (s = "") || negb (all_chars is_digit s) then None else
  let n := digits_value s in
  if N.leb u64_max n || bool_decide (n = 0%N) || negb (bool_decide (pretty n = s)) then None else Some n.

Section Service.
Context {St : Type} {i_store : Store St} (parts : Parts St) (ToUpper : string → string).

Definition normalizedTitle (title : string) (protocol : Protocol) : string :=
  let title := cut_title (TrimSpace title) in
  if bool_decide (title ≠ "") then title else "New " +:+ ToUpper (spaced protocol) +:+ " session".

(** The actor, if there is one and it has an identifier. *)
Definition known (actor : option User) : option User :=
  match actor with Some u => if bool_decide (u_ID u = 0%N) then None else Some u | None => None end.

Definition ownedSession (c : ctx) (actor : option User) (sessionID action : string) : Op St Session :=
  match known actor with
  | None => throw (wrapf ErrInvalid "actor and session are required")
  | Some actor =>
      throw_if bool_decide (TrimSpace sessionID = "") with wrapf ErrInvalid "actor and session are required" ;;
      let! session := map_err (λ e, if Is e ErrSessionNotFound then ErrNotFound else e) (GetSession c (TrimSpace sessionID)) in
      throw_if bool_decide (s_CreatedBy session ≠ u_ID actor) with ErrNotFound ;;
      let resource := if bool_decide (s_Kind session = SessionManagement) then "management_agent_sessions" else "agent_sessions" in
      RequireOrganizationResourcePermission parts actor (s_OrganizationID session) resource action ;;
      ret session
  end.

(** The attachment of the session against the live connection. *)
Definition stale (a : Attachment) (live : AttachmentSnapshot) : bool :=
  bool_decide (a_State a ≠ AttachmentConnected) || bool_decide (as_Generation live ≠ a_Generation a) ||
  bool_decide (as_AccessID live ≠ a_AccessID a) || bool_decide (as_ApplicationID live ≠ a_ApplicationID a) ||
  bool_decide (as_Protocol live ≠ a_Protocol a).
Fixpoint check_attachments (c : ctx) (principal : Principal) (attachments : list Attachment) : Op St unit :=
  match attachments with
  | [] => ret tt
  | a :: rest =>
      let! live := map_err (λ e, EJoin ErrConnectionUnavailable e) (Bind parts c principal (HandleID a)) in
      throw_if stale a live with ErrConnectionUnavailable ;;
      check_attachments c principal rest
  end.
Definition checkLiveAttachments (c : ctx) (actor : User) (session : Session) : Op St unit :=
  if bool_decide (s_Kind session = SessionManagement) then ret tt else
  let! attachments := map_err (λ e, EWrap "list agent attachments: " e "") (ListAttachments c (s_ID session)) in
  check_attachments c (mkPrincipal (u_ID actor) (s_OrganizationID session)) attachments.

Fixpoint resolve_each (c : ctx) (resolve : ctx → N → string → N → Op St string) (actor : User) (session : Session)
    (refs result : list ResourceReference) (seen : list string) : Op St (list ResourceReference) :=
  match refs with
  | [] => ret result
  | ref :: rest =>
      throw_if negb (bool_decide (ref_Type ref = "connector") || bool_decide (ref_Type ref = "device") ||
        bool_decide (ref_Type ref = "application")) with ErrInvalid ;;
      let! id := of_option (parse_id (ref_ID ref)) ErrInvalid in
      map_err (λ _, EJoin ErrNotFound ErrReferenceUnavailable)
        (RequireOrganizationResourcePermission parts actor (s_OrganizationID session) (ref_Type ref +:+ "s") "read") ;;
      let! name := map_err (λ _, EJoin ErrNotFound ErrReferenceUnavailable) (resolve c (u_ID actor) (ref_Type ref) id) in
      let key := ref_Type ref +:+ ":" +:+ ref_ID ref in
      if existsb (λ k, bool_decide (k = key)) seen then resolve_each c resolve actor session rest result seen
      else resolve_each c resolve actor session rest (result ++ [mkReference (ref_Type ref) (ref_ID ref) name]) (key :: seen)
  end.
Definition resolveReferences (c : ctx) (actor : User) (session : Session) (refs : list ResourceReference)
    : Op St (list ResourceReference) :=
  if bool_decide (refs = []) then ret [] else
  throw_if Nat.ltb 8 (length refs) || bool_decide (s_Kind session ≠ SessionManagement) with ErrInvalid ;;
  match ResolveAgentResource parts with
  | None => throw ErrUnavailable
  | Some resolve => resolve_each c resolve actor session refs [] []
  end.

(** Running a turn ends in the runner, which returns a result beside its error. *)
Definition run_with {A} (m : Op St A) (k : A → St → (RunResult * option error) * St) : St → (RunResult * option error) * St := λ s,
  match m s with
  | (Err e, s') => ((zero_Result, Some e), s')
  | (Ok a, s') => k a s'
  end.

Definition select_model (c : ctx) (selection : ModelSelection) : Op St ModelSelection :=
  match ResolveSelection parts with
  | Some resolve => map_err (λ _, wrapf ErrInvalid "selected model unavailable") (resolve c selection)
  | None => throw_if bool_decide (sel_ProviderID selection ≠ "") || bool_decide (sel_Model selection ≠ "") with ErrInvalid ;;
      ret selection
  end.
(** Everything [RunTurn] does before the runner. *)
Definition prepare_turn (c : ctx) (request : RunTurnRequest)
    : Op St ((ctx → RunRequest → St → (RunResult * option error) * St) * RunRequest) :=
  let prompt := TrimSpace (rt_Prompt request) in
  match known (rt_Actor request) with
  | None => throw (wrapf ErrInvalid "actor, session and prompt are required")
  | Some actor =>
      throw_if bool_decide (TrimSpace (rt_SessionID request) = "") || bool_decide (prompt = "")
        with wrapf ErrInvalid "actor, session and prompt are required" ;;
      throw_if Nat.ltb (64 * 1024) (String.length prompt) with wrapf ErrInvalid "prompt exceeds 64 KiB" ;;
      match runner parts with
      | None => throw ErrUnavailable
      | Some run =>
          let! session := ownedSession c (rt_Actor request) (rt_SessionID request) "use" in
          checkLiveAttachments c actor session ;;
          let! refs := resolveReferences c actor session (rt_References request) in
          let! selection := select_model c (rt_ModelSelection request) in
          ret (run, mkRunRequest refs selection (s_ID session) "" prompt
            (mkPrincipal (u_ID actor) (s_OrganizationID session)) policyRevision DefaultDisclosureBudget)
      end
  end.
Definition RunTurn (c : ctx) (request : RunTurnRequest) : St → (RunResult * option error) * St :=
  run_with (prepare_turn c request) (λ '(run, rr) s,
    match run c rr s with
    | ((result, Some e), s') => ((result, Some (EWrap "run agent turn: " e "")), s')
    | ((result, None), s') => ((result, None), s')
    end).

Definition prepare_approval (c : ctx) (request : ResolveApprovalRequest)
    : Op St ((ctx → RunRequest → string → bool → string → St → (RunResult * option error) * St) * RunRequest) :=
  match known (ra_Actor request) with
  | None => throw (wrapf ErrInvalid "actor, session and approval are required")
  | Some actor =>
      throw_if bool_decide (TrimSpace (ra_SessionID request) = "") || bool_decide (TrimSpace (ra_ApprovalID request) = "")
        with wrapf ErrInvalid "actor, session and approval are required" ;;
      throw_if Nat.ltb 1024 (String.length (ra_Note request)) with wrapf ErrInvalid "approval note exceeds 1 KiB" ;;
      match approvals parts with
      | None => throw ErrUnavailable
      | Some resolve =>
          let! session := ownedSession c (ra_Actor request) (ra_SessionID request) "use" in
          checkLiveAttachments c actor session ;;
          ret (resolve, mkRunRequest [] (mkSelection "" "") (s_ID session) "" ""
            (mkPrincipal (u_ID actor) (s_OrganizationID session)) policyRevision DefaultDisclosureBudget)
      end
  end.
Definition ResolveApproval (c : ctx) (request : ResolveApprovalRequest) : St → (RunResult * option error) * St :=
  run_with (prepare_approval c request) (λ '(resolve, rr),
    resolve c rr (TrimSpace (ra_ApprovalID request)) (ra_Approve request) (TrimSpace (ra_Note request))).

Definition resourceOrganization (accessID : N) : Op St N :=
  let! relations := map_err (λ e, EWrap "list access resource relations: " e "")
    (ListIAMResourceRelations parts "access" accessID) in
  of_option (head (omap (λ r, r ← r;
      if bool_decide (rel_Relation r = "belongs_to") && bool_decide (rel_SubjectType r = "organization") &&
         bool_decide (rel_SubjectID r ≠ 0%N) then Some (rel_SubjectID r) else None) relations))
    (wrapf ErrNotFound "access organization relation is missing").

Definition createManagementSession (c : ctx) (now : Time) (request : CreateSessionRequest) : Op St SessionDetail :=
  let refused := wrapf ErrInvalid "active actor required; management sessions cannot bind a handle" in
  match known (cr_Actor request) with
  | None => throw refused
  | Some actor =>
      throw_if bool_decide (u_Status actor ≠ UserStatusActive) || bool_decide (TrimSpace (cr_HandleID request) ≠ "") with refused ;;
      match ListUserOrganizations parts with
      | None => throw ErrUnavailable
      | Some memberships =>
          let! items := memberships (u_ID actor) in
          let ids := sort_Slice N.ltb (omap (λ m, m ← m;
            if bool_decide (mb_UserID m = u_ID actor) && bool_decide (mb_OrganizationID m ≠ 0%N)
            then Some (mb_OrganizationID m) else None) items) in
          match ids with
          | [] => throw ErrNotFound
          | organizationID :: _ =>
              RequireOrganizationResourcePermission parts actor organizationID "management_agent_sessions" "create" ;;
              let! id := NewID parts "session" in
              let title := TrimSpace (cr_Title request) in
              let title := cut_title (if bool_decide (title = "") then "New management session" else title) in
              CreateSession c now (mkSession SessionManagement id organizationID (u_ID actor) title SessionActive "" "" "" 0 0%Z 0%Z) ;;
              let! session := GetSession c id in
              ret (mkDetail session [] [] [] [] [])
          end
      end
  end.

Definition create_access_session (c : ctx) (now : Time) (request : CreateSessionRequest) : Op St SessionDetail :=
  match known (cr_Actor request) with
  | None => throw (wrapf ErrInvalid "actor and handle are required")
  | Some actor =>
      throw_if bool_decide (TrimSpace (cr_HandleID request) = "") with wrapf ErrInvalid "actor and handle are required" ;;
      let! snapshot := map_err (λ e, EWrap "bind live access session: " e "")
        (Bind parts c (mkPrincipal (u_ID actor) 0) (TrimSpace (cr_HandleID request))) in
      throw_if bool_decide (cr_Kind request = SessionShell) && bool_decide (as_Protocol snapshot ≠ ProtocolWebSSH)
        with wrapf ErrInvalid "shell sessions require WebSSH" ;;
      let! organizationID := resourceOrganization (as_AccessID snapshot) in
      RequireOrganizationResourcePermission parts actor organizationID "agent_sessions" "create" ;;
      let! sessionID := map_err (λ e, EWrap "create agent session ID: " e "") (NewID parts "session") in
      let session := mkSession (Effective (cr_Kind request)) sessionID organizationID (u_ID actor)
        (normalizedTitle (cr_Title request) (as_Protocol snapshot)) SessionActive "" "" "" 0 0%Z 0%Z in
      let attachment := mkAttachment "" (as_AccessHandleID snapshot) sessionID (as_AccessID snapshot) (as_ApplicationID snapshot)
        (as_Protocol snapshot) (as_Capabilities snapshot) (as_Generation snapshot) AttachmentConnected 0%Z 0%Z in
      let attachment := if bool_decide (cr_Kind request = SessionShell)
        then attachment<| a_ID := sessionID |><| a_AccessHandleID := as_AccessHandleID snapshot |> else attachment in
      let! ' (session, attachment) := map_err (λ e, EWrap "create agent session: " e "")
        (CreateSessionWithAttachment c now session attachment) in
      ret (mkDetail session [attachment] [] [] [] [])
  end.
Definition CreateSession (c : ctx) (now : Time) (request : CreateSessionRequest) : Op St SessionDetail :=
  throw_if negb (SessionKind_Valid (cr_Kind request)) with wrapf ErrInvalid "unknown session kind" ;;
  if bool_decide (cr_Kind request = SessionManagement) then createManagementSession c now request
  else create_access_session c now request.

Definition ListSessions (c : ctx) (actor : option User) : Op St (list Session) :=
  match known actor with
  | None => throw (wrapf ErrInvalid "actor is required")
  | Some actor =>
      let! access := λ s, let '(r, s') := RequireResourcePermission parts actor "agent_sessions" "read" s in (Ok r, s') in
      let! home := λ s, let '(r, s') := RequireResourcePermission parts actor "management_agent_sessions" "read" s in (Ok r, s') in
      match access, home with
      | Err e, Err _ => throw e
      | _, _ =>
          let! sessions := AgentTypes.ListSessions c (u_ID actor) in
          ret (List.filter (λ session,
            if bool_decide (s_Kind session = SessionManagement) then is_ok home else is_ok access) sessions)
      end
  end.

Definition GetSession (c : ctx) (actor : option User) (sessionID : string) : Op St SessionDetail :=
  let! session := ownedSession c actor sessionID "read" in
  let! attachments := map_err (λ e, EWrap "list agent attachments: " e "") (ListAttachments c (s_ID session)) in
  let! turns := map_err (λ e, EWrap "list agent turns: " e "") (ListTurns c (s_ID session)) in
  let! steps := map_err (λ e, EWrap "list agent steps: " e "") (ListSessionSteps c (s_ID session)) in
  let! messages := map_err (λ e, EWrap "list agent messages: " e "") (ListSessionMessages c (s_ID session)) in
  let! views := match approvalList parts with
    | Some list => map_err (λ e, EWrap "list agent approvals: " e "") (list c (s_ID session))
    | None => ret []
    end in
  ret (mkDetail session attachments turns steps messages views).

Definition AuthorizeSession (c : ctx) (actor : option User) (sessionID : string) : Op St unit :=
  ownedSession c actor sessionID "read" ;; ret tt.

Definition ArchiveSession (c : ctx) (now : Time) (actor : option User) (sessionID : string) (expectedVersion : N) : Op St Session :=
  let! session := ownedSession c actor sessionID "delete" in
  throw_if bool_decide (expectedVersion = 0%N) || bool_decide (expectedVersion ≠ s_Version session)
    with wrapf ErrInvalid "expected version is required" ;;
  AgentTypes.ArchiveSession c now (s_ID session) expectedVersion.
End Service.
End Service.
