(* ===== verification/AgentServiceTheorems.v ===== *)
(** * The agent service: who can do what

    What is established before a turn runs or an approval is resolved, and
    that the sessions of another user look to a caller like sessions that do
    not exist. *)

From S2P Require Import Prelude ToolTypes ToolDisclosure AgentTypes MemoryStore AgentLoop AgentService.
Import Service.

Section Theorems.
Context {St : Type} {i_store : Store St} (parts : Parts St).

Definition session_resource (session : Session) : string :=
  if bool_decide (s_Kind session = SessionManagement) then "management_agent_sessions" else "agent_sessions".

(** The caller owns the session, and the identity service lets it act in the
    session's organization; [s] is the state the session was read in. *)
Definition owns (c : ctx) (actor : User) (sessionID action : string) (session : Session) (s : St) : Prop :=
  u_ID actor ≠ 0%N ∧ s_CreatedBy session = u_ID actor ∧ ∃ s0,
    AgentTypes.GetSession c (TrimSpace sessionID) s = (Ok session, s0) ∧
    is_ok (fst (RequireOrganizationResourcePermission parts actor (s_OrganizationID session) (session_resource session) action s0)) = true.
(** The attachment is connected and is the live connection's: its facts are
    those the binder gave for it. *)
Definition live_attachment (c : ctx) (principal : Principal) (a : Attachment) : Prop :=
  a_State a = AttachmentConnected ∧ ∃ live s0 s1, Bind parts c principal (HandleID a) s0 = (Ok live, s1) ∧
    as_Generation live = a_Generation a ∧ as_AccessID live = a_AccessID a ∧
    as_ApplicationID live = a_ApplicationID a ∧ as_Protocol live = a_Protocol a.
Definition connected (c : ctx) (actor : User) (session : Session) : Prop :=
  s_Kind session = SessionManagement ∨ ∃ attachments s0 s1, ListAttachments c (s_ID session) s0 = (Ok attachments, s1) ∧
    Forall (live_attachment c (mkPrincipal (u_ID actor) (s_OrganizationID session))) attachments.

Lemma known_Some actor u : known actor = Some u ↔ actor = Some u ∧ u_ID u ≠ 0%N.
Proof.
  destruct actor as [v|]; simpl; [|by split; [|intros []]]. case_bool_decide; split; intros H'; try done; naive_solver.
Qed.

Lemma ownedSession_ok c actor sessionID action s session s1 :
  ownedSession parts c (Some actor) sessionID action s = (Ok session, s1) → owns c actor sessionID action session s.
Proof.
  unfold ownedSession, known. case_bool_decide as Hu; [done|]. case_bool_decide as Hid; [done|]. unfold bind, map_err.
  destruct (AgentTypes.GetSession c (TrimSpace sessionID) s) as [[x|e] s0] eqn:Hg; [|done].
  case_bool_decide as Hc; [done|]. fold (session_resource x).
  destruct (RequireOrganizationResourcePermission _ _ _ _ _ s0) as [[[]|e] s2] eqn:Hp; [|done]. intros [= <- <-].
  split; [done|]. split; [done|]. exists s0. by rewrite Hp.
Qed.
Lemma check_attachments_ok c principal attachments : ∀ s s1,
  check_attachments parts c principal attachments s = (Ok tt, s1) → Forall (live_attachment c principal) attachments.
Proof.
  induction attachments as [|a rest IH]; intros s s1 H; [constructor|]. simpl in H. unfold bind, map_err in H.
  destruct (Bind parts c principal (HandleID a) s) as [[live|e] s2] eqn:Hb; [|done].
  destruct (stale a live) eqn:Hs; [done|]. unfold stale in Hs. bools. constructor; [|by eapply IH].
  split; [done|]. exists live, s, s2. by split_and!.
Qed.
Lemma checkLiveAttachments_ok c actor session s s1 :
  checkLiveAttachments parts c actor session s = (Ok tt, s1) → connected c actor session.
Proof.
  unfold checkLiveAttachments. case_bool_decide as Hk; [by left|]. unfold bind, map_err.
  destruct (ListAttachments c (s_ID session) s) as [[l|e] s0] eqn:Hl; [|done]. intros H. right.
  exists l, s, s0. split; [done|]. by eapply check_attachments_ok.
Qed.

(** What holds of a request that reaches the runner. *)
Record allowed_run (c : ctx) (actor : User) (sessionID : string) (s : St) (rr : RunRequest) : Prop := {
  ar_session : ∃ session, owns c actor sessionID "use" session s ∧ connected c actor session ∧
    rr_SessionID rr = s_ID session ∧ rr_Principal rr = mkPrincipal (u_ID actor) (s_OrganizationID session);
  ar_policy : rr_PolicyRevision rr = policyRevision;
  ar_budget : rr_Budget rr = DefaultDisclosureBudget
}.

Lemma prepare_turn_ok c request s run rr s1 :
  prepare_turn parts c request s = (Ok (run, rr), s1) →
  runner parts = Some run ∧ (∃ actor, rt_Actor request = Some actor ∧ allowed_run c actor (rt_SessionID request) s rr) ∧
  rr_Prompt rr = TrimSpace (rt_Prompt request) ∧ rr_Prompt rr ≠ "" ∧ String.length (rr_Prompt rr) ≤ 64 * 1024.
Proof.
  unfold prepare_turn. destruct (known (rt_Actor request)) as [actor|] eqn:Hk; [|done].
  apply known_Some in Hk as [Hact Hu]. destruct (_ || _) eqn:Hreq; [done|]. bools.
  destruct (Nat.ltb_spec (64 * 1024) (String.length (TrimSpace (rt_Prompt request)))) as [|Hlen]; [done|].
  destruct (runner parts) as [run0|]; [|done]. unfold bind.
  destruct (ownedSession _ _ _ _ _ s) as [[session|e] s2] eqn:Ho; [|done]. rewrite Hact in Ho. apply ownedSession_ok in Ho.
  destruct (checkLiveAttachments _ _ _ _ s2) as [[[]|e] s3] eqn:Hl; [|done]. apply checkLiveAttachments_ok in Hl.
  destruct (resolveReferences _ _ _ _ _ s3) as [[refs|e] s4]; [|done].
  destruct (select_model _ _ _ s4) as [[sel|e] s5]; [|done]. intros [= <- <- <-].
  split; [done|]. split; [|done]. exists actor. split; [done|]. split; [|done|done]. exists session. by split_and!.
Qed.
Lemma prepare_approval_ok c request s resolve rr s1 :
  prepare_approval parts c request s = (Ok (resolve, rr), s1) →
  approvals parts = Some resolve ∧ ∃ actor, ra_Actor request = Some actor ∧ allowed_run c actor (ra_SessionID request) s rr.
Proof.
  unfold prepare_approval. destruct (known (ra_Actor request)) as [actor|] eqn:Hk; [|done].
  apply known_Some in Hk as [Hact Hu]. destruct (_ || _) eqn:Hreq; [done|].
  destruct (Nat.ltb 1024 _); [done|]. destruct (approvals parts) as [resolve0|]; [|done]. unfold bind.
  destruct (ownedSession _ _ _ _ _ s) as [[session|e] s2] eqn:Ho; [|done]. rewrite Hact in Ho. apply ownedSession_ok in Ho.
  destruct (checkLiveAttachments _ _ _ _ s2) as [[[]|e] s3] eqn:Hl; [|done]. apply checkLiveAttachments_ok in Hl.
  intros [= <- <- <-]. split; [done|]. exists actor. split; [done|]. split; [|done|done]. exists session. by split_and!.
Qed.


(** *** Other users' sessions *)

(** There is no such session, or it is somebody else's. *)
Definition out_of_reach (c : ctx) (actor : User) (sessionID : string) (s : St) : Prop :=
  match fst (AgentTypes.GetSession c (TrimSpace sessionID) s) with
  | Ok session => s_CreatedBy session ≠ u_ID actor
  | Err e => Is e ErrSessionNotFound = true
  end.
Lemma ownedSession_out_of_reach c actor sessionID action s :
  u_ID actor ≠ 0%N → TrimSpace sessionID ≠ "" → out_of_reach c actor sessionID s →
  ownedSession parts c (Some actor) sessionID action s = (Err ErrNotFound, snd (AgentTypes.GetSession c (TrimSpace sessionID) s)).
Proof.
  intros Hu Hid H. unfold ownedSession, known, out_of_reach in *. rewrite bool_decide_eq_false_2 by done.
  rewrite bool_decide_eq_false_2 by done. unfold bind, map_err.
  destruct (AgentTypes.GetSession c (TrimSpace sessionID) s) as [[x|e] s0]; simpl in *; [|by rewrite H].
  by rewrite bool_decide_eq_true_2.
Qed.

(** The sessions of others cannot be told from sessions that do not
    exist: reading, watching, archiving one, running a turn in it or resolving
    an approval of it gives the same not-found error in both cases, and does
    nothing but look the session up. *)
Theorem foreign_sessions_hidden c actor sessionID s now version request approval :
  u_ID actor ≠ 0%N → TrimSpace sessionID ≠ "" → out_of_reach c actor sessionID s →
  rt_Actor request = Some actor → rt_SessionID request = sessionID → is_Some (runner parts) →
  TrimSpace (rt_Prompt request) ≠ "" → String.length (TrimSpace (rt_Prompt request)) ≤ 64 * 1024 →
  ra_Actor approval = Some actor → ra_SessionID approval = sessionID → is_Some (approvals parts) →
  TrimSpace (ra_ApprovalID approval) ≠ "" → String.length (ra_Note approval) ≤ 1024 →
  let s' := snd (AgentTypes.GetSession c (TrimSpace sessionID) s) in
  GetSession parts c (Some actor) sessionID s = (Err ErrNotFound, s') ∧
  AuthorizeSession parts c (Some actor) sessionID s = (Err ErrNotFound, s') ∧
  ArchiveSession parts c now (Some actor) sessionID version s = (Err ErrNotFound, s') ∧
  RunTurn parts c request s = ((zero_Result, Some ErrNotFound), s') ∧
  ResolveApproval parts c approval s = ((zero_Result, Some ErrNotFound), s').
Proof.
  intros Hu Hid Hout Hra Hrs [run Hrun] Hp Hpl Haa Has [resolve Hres] Hap Hnl s'.
  pose proof (λ action, ownedSession_out_of_reach c actor sessionID action s Hu Hid Hout) as Ho. fold s' in Ho.
  split_and!.
  - unfold GetSession, bind. by rewrite Ho.
  - unfold AuthorizeSession, bind. by rewrite Ho.
  - unfold ArchiveSession, bind. by rewrite Ho.
  - unfold RunTurn, run_with, prepare_turn. rewrite Hra, Hrs, Hrun. unfold known. rewrite bool_decide_eq_false_2 by done.
    rewrite (bool_decide_eq_false_2 (TrimSpace sessionID = "")), (bool_decide_eq_false_2 (TrimSpace (rt_Prompt request) = "")) by done.
    cbn [orb]. destruct (Nat.ltb_spec (64 * 1024) (String.length (TrimSpace (rt_Prompt request)))); [lia|].
    unfold bind. by rewrite Ho.
  - unfold ResolveApproval, run_with, prepare_approval. rewrite Haa, Has, Hres. unfold known. rewrite bool_decide_eq_false_2 by done.
    rewrite (bool_decide_eq_false_2 (TrimSpace sessionID = "")), (bool_decide_eq_false_2 (TrimSpace (ra_ApprovalID approval) = "")) by done.
    cbn [orb]. destruct (Nat.ltb_spec 1024 (String.length (ra_Note approval))); [lia|]. unfold bind. by rewrite Ho.
Qed.
End Theorems.

(** ** Witnesses: one session of user 7 *)
Section Witnesses.
Definition w_parts : Parts MemoryStore := mkParts MemoryStore
  (λ _ _ _, throw ErrNotFound) (λ _ _, ret []) None (λ _ _ _, ret tt) (λ _ _ _ _, ret tt) (λ p, ret (p +:+ "_1")) None None
  (Some (λ _ rr s, ((of_turn (new_Turn "t1"), None), s))) (Some (λ _ _ _ _ _ s, ((zero_Result, None), s))) None.
Definition w_owner : User := mkUser 7 "active" "".
Definition w_other : User := mkUser 8 "active" "".
Definition w_store : MemoryStore := snd (AgentTypes.CreateSession Background 1000%Z
  (mkSession SessionAccess "s1" 1 7 "" SessionActive "" "" "" 0 0%Z 0%Z) NewMemoryStore).
Definition w_turn (actor : User) : RunTurnRequest := mkRunTurn [] (mkSelection "" "") (Some actor) "s1" "hello".


Lemma foreign_sessions_hidden_witness :
  AgentTypes.GetSession Background "s1" w_store ≠ (Err ErrNotFound, w_store) ∧
  GetSession w_parts Background (Some w_other) "s1" w_store = (Err ErrNotFound, w_store) ∧
  RunTurn w_parts Background (w_turn w_other) w_store = ((zero_Result, Some ErrNotFound), w_store).
Proof.
  split; [intros H; apply (f_equal (λ x, is_ok (fst x))) in H; vm_compute in H; discriminate H|].
  destruct (foreign_sessions_hidden w_parts Background w_other "s1" w_store 0%Z 1 (w_turn w_other)
    (mkResolveApproval (Some w_other) "s1" "a1" true "")) as (H1 & _ & _ & H2 & _);
    [discriminate|vm_compute; discriminate|vm_compute; discriminate|reflexivity|reflexivity|eexists; reflexivity
    |vm_compute; discriminate|apply Nat.ltb_ge; vm_compute; reflexivity|reflexivity|reflexivity|eexists; reflexivity
    |vm_compute; discriminate|apply Nat.ltb_ge; vm_compute; reflexivity|].
  split; [exact H1|exact H2].
Defined.
End Witnesses.
