(* ===== verification/Password.v ===== *)
(** * utils/password.go: password hashes

    [HashPassword], [VerifyPassword] and [GenerateRandomPassword], with what
    they use of the standard library: unpadded base64, [fmt.Sscanf] of decimal
    numbers, [strings.Split].  Argon2 is a parameter: [IDKey] (password, salt,
    time, memory, threads, key length) and its version number.  The random
    bytes are arguments. *)

From S2P Require Import Prelude ToolTypes Utf8.

Definition string_of_bytes (l : list N) : string := String.string_of_list_ascii (map ascii_of_N l).

(** ** base64.RawStdEncoding *)
Module Base64.
Definition alphabet : list ascii := String.list_ascii_of_string
  "ABCDEFGHIJKLMNOPQRSTUVWXYZabcdefghijklmnopqrstuvwxyz0123456789+/".
Definition digit (n : N) : ascii := nth (N.to_nat n) alphabet "A"%char.
Fixpoint index_from (i : N) (l : list ascii) (c : ascii) : option N :=
  match l with
  | [] => None
  | d :: l' => if bool_decide (d = c) then Some i else index_from (i + 1)%N l' c
  end.
Definition value (c : ascii) : option N := index_from 0 alphabet c.

Fixpoint encode (l : list N) : list ascii :=
  match l with
  | [] => []
  | [a] => [digit (a / 4)%N; digit (a mod 4 * 16)%N]
  | [a; b] => [digit (a / 4)%N; digit (a mod 4 * 16 + b / 16)%N; digit (b mod 16 * 4)%N]
  | a :: b :: c :: l' =>
      digit (a / 4)%N :: digit (a mod 4 * 16 + b / 16)%N :: digit (b mod 16 * 4 + c / 64)%N :: digit (c mod 64)%N :: encode l'
  end.
Definition EncodeToString (s : string) : string := String.string_of_list_ascii (encode (Utf8.bytes_of s)).

(** The six-bit groups back to bytes; a lone group is refused, spare bits of
    the last group are not looked at. *)
Fixpoint join (l : list N) : option (list N) :=
  match l with
  | [] => Some []
  | [_] => None
  | [a; b] => Some [(a * 4 + b / 16)%N]
  | [a; b; c] => Some [(a * 4 + b / 16)%N; (b mod 16 * 16 + c / 4)%N]
  | a :: b :: c :: d :: l' =>
      match join l' with
      | Some r => Some ((a * 4 + b / 16)%N :: (b mod 16 * 16 + c / 4)%N :: (c mod 4 * 64 + d)%N :: r)
      | None => None
      end
  end.
Definition newline (c : ascii) : bool := bool_decide (c = ascii_of_nat 10) || bool_decide (c = ascii_of_nat 13).
Definition decode (l : list ascii) : option (list N) :=
  match mapM value (List.filter (λ c, negb (newline c)) l) with
  | Some groups => join groups
  | None => None
  end.
Definition ErrCorrupt : error := ENew "illegal base64 data".
Definition DecodeString (s : string) : Result string :=
  match decode (String.list_ascii_of_string s) with
  | Some l => Ok (string_of_bytes l)
  | None => Err ErrCorrupt
  end.
End Base64.

(** ** fmt.Sscanf: literals and decimal numbers

    What is left of the input after a match is not looked at. *)
Module Scan.
Definition is_digit (c : ascii) : bool := let n := N_of_ascii c in N.leb 48 n && N.leb n 57.
Fixpoint digits (s : string) : string * string :=
  match s with
  | String c s' => if is_digit c then let '(d, r) := digits s' in (String c d, r) else (EmptyString, s)
  | EmptyString => (EmptyString, EmptyString)
  end.
Definition number (s : string) : N :=
  fold_left (λ n c, (10 * n + (N_of_ascii c - 48))%N) (String.list_ascii_of_string s) 0%N.
(** [SkipSpace]: spaces go, a line break is an error. *)
Definition line_break : ascii := ascii_of_nat 10.
Fixpoint skip_space (fuel : nat) (s : string) : option string :=
  match fuel with
  | O => Some s
  | S fuel' =>
      match s with
      | String c s' =>
          if bool_decide (c = line_break) then None
          else match List.find (λ p, String.prefix p s) space_encodings with
               | Some p => skip_space fuel' (drop_string (String.length p) s)
               | None => Some s
               end
      | EmptyString => Some s
      end
  end.
Definition literal (l s : string) : option string :=
  if String.prefix l s then Some (drop_string (String.length l) s) else None.
(** An unsigned number below [limit]. *)
Definition scan_uint (limit : N) (s : string) : option (N * string) :=
  match skip_space (String.length s) s with
  | Some s1 =>
      let '(d, r) := digits s1 in
      if bool_decide (d = "") || N.leb limit (number d) then None else Some (number d, r)
  | None => None
  end.
(** An [int], with an optional sign. *)
Definition scan_int (s : string) : option (Z * string) :=
  match skip_space (String.length s) s with
  | Some s1 =>
      let sign c := bool_decide (c = "-"%char) || bool_decide (c = "+"%char) in
      let '(neg, s2) := match s1 with
                        | String c s' => if sign c then (bool_decide (c = "-"%char), s') else (false, s1)
                        | EmptyString => (false, s1)
                        end in
      let '(d, r) := digits s2 in
      let n := Z.of_N (number d) in
      if bool_decide (d = "") || (if neg then Z.ltb (2 ^ 63) n else Z.leb (2 ^ 63) n) then None
      else Some (if neg then (- n)%Z else n, r)
  | None => None
  end.
End Scan.

(** ** Passwords *)
Module Password.
Definition dollar : ascii := "$"%char.
Definition ErrScan : error := ENew "input does not match format".

(** DefaultPasswordConfig *)
Definition Time_ : N := 1.
Definition Memory : N := 64 * 1024.
Definition Threads : N := 4.
Definition KeyLen : N := 32.

Section Password.
Context (IDKey : string → string → N → N → N → N → string) (Version : N).

(** [salt] is what reading sixteen random bytes gave. *)
Definition HashPassword (salt : Result string) (password : string) : Result string :=
  match salt with
  | Err e => Err e
  | Ok salt =>
      let hash := IDKey password salt Time_ Memory Threads KeyLen in
      Ok ("$argon2id$v=" +:+ pretty Version +:+ "$m=" +:+ pretty Memory +:+ ",t=" +:+ pretty Time_ +:+
          ",p=" +:+ pretty Threads +:+ "$" +:+ Base64.EncodeToString salt +:+ "$" +:+ Base64.EncodeToString hash)
  end.

(** v=%d *)
Definition scan_version (s : string) : Result Z :=
  match Scan.literal "v=" s with
  | Some s => match Scan.scan_int s with Some (v, _) => Ok v | None => Err ErrScan end
  | None => Err ErrScan
  end.
(** m=%d,t=%d,p=%d *)
Definition scan_params (s : string) : Result (N * N * N) :=
  let fail := Err ErrScan in
  match Scan.literal "m=" s with
  | None => fail
  | Some s => match Scan.scan_uint u32_max s with
  | None => fail
  | Some (memory, s) => match Scan.literal ",t=" s with
  | None => fail
  | Some s => match Scan.scan_uint u32_max s with
  | None => fail
  | Some (time, s) => match Scan.literal ",p=" s with
  | None => fail
  | Some s => match Scan.scan_uint 256 s with
  | None => fail
  | Some (threads, _) => Ok (memory, time, threads)
  end end end end end end.

Definition VerifyPassword (password encodedHash : string) : Result bool :=
  match Split encodedHash dollar with
  | [_; p1; p2; p3; p4; p5] =>
      if negb (bool_decide (p1 = "argon2id")) then Err (ENew ("unsupported algorithm: " +:+ p1)) else
      match scan_version p2 with
      | Err e => Err e
      | Ok version =>
          if negb (Z.eqb version (Z.of_N Version)) then Err (ENew ("incompatible version: " +:+ pretty version)) else
          match scan_params p3 with
          | Err e => Err e
          | Ok (memory, time, threads) =>
              match Base64.DecodeString p4, Base64.DecodeString p5 with
              | Err e, _ => Err e
              | _, Err e => Err e
              | Ok salt, Ok hash =>
                  let otherHash := IDKey password salt time memory threads (N.of_nat (String.length hash) `mod` u32_max) in
                  Ok (bool_decide (hash = otherHash))
              end
          end
      end
  | _ => Err (ENew "invalid hash format")
  end.
End Password.

Definition charset : list ascii := String.list_ascii_of_string
  "abcdefghijklmnopqrstuvwxyzABCDEFGHIJKLMNOPQRSTUVWXYZ0123456789!@#$%^&*".
(** [random] is what reading the random bytes gave. *)
Definition GenerateRandomPassword (random : Result string) : Result string :=
  match random with
  | Err e => Err e
  | Ok bytes => Ok (String.string_of_list_ascii
      (map (λ b, nth (N.to_nat (b mod N.of_nat (length charset))%N) charset "a"%char) (Utf8.bytes_of bytes)))
  end.
End Password.

(** ** Round trips *)
Module PasswordFacts.
Lemma digit_value n : (n < 64)%N → Base64.value (Base64.digit n) = Some n.
Proof.
  intros H. assert (Forall (λ k, Base64.value (Base64.digit (N.of_nat k)) = Some (N.of_nat k)) (seq 0 64)) as Hall.
  { apply Forall_forall. intros k. rewrite elem_of_seq. intros Hk.
    do 64 (destruct k as [|k]; [reflexivity|]). lia. }
  rewrite Forall_forall in Hall. specialize (Hall (N.to_nat n)). rewrite N2Nat.id in Hall. apply Hall.
  apply elem_of_seq. lia.
Qed.

Lemma digit_plain n : (n < 64)%N → Base64.newline (Base64.digit n) = false ∧ Base64.digit n ≠ Password.dollar.
Proof.
  intros H. assert (Forall (λ k, Base64.newline (Base64.digit (N.of_nat k)) = false ∧ Base64.digit (N.of_nat k) ≠ Password.dollar)
    (seq 0 64)) as Hall.
  { apply Forall_forall. intros k. rewrite elem_of_seq. intros Hk.
    do 64 (destruct k as [|k]; [split; [reflexivity|discriminate]|]). lia. }
  rewrite Forall_forall in Hall. specialize (Hall (N.to_nat n)). rewrite N2Nat.id in Hall. apply Hall.
  apply elem_of_seq. lia.
Qed.

(** Bytes in groups of six bits. *)
Lemma encode_groups l : Forall (λ b, b < 256)%N l →
  ∃ groups, Base64.encode l = map Base64.digit groups ∧ Forall (λ n, n < 64)%N groups ∧ Base64.join groups = Some l.
Proof.
  remember (length l) as n eqn:Hn. revert l Hn. induction (lt_wf n) as [n _ IH]. intros l -> Hl.
  destruct l as [|a [|b [|c l]]]; repeat match goal with H : Forall _ (_ :: _) |- _ => apply Forall_cons in H as [? H] end.
  - by exists [].
  - exists [(a / 4)%N; (a mod 4 * 16)%N]. split_and!; [done| |].
    + repeat constructor; [apply N.Div0.div_lt_upper_bound; lia|]. pose proof (N.mod_lt a 4). lia.
    + simpl. rewrite N.div_mul by done. do 2 f_equal. pose proof (N.div_mod a 4). lia.
  - exists [(a / 4)%N; (a mod 4 * 16 + b / 16)%N; (b mod 16 * 4)%N].
    assert (b / 16 < 16)%N by (apply N.Div0.div_lt_upper_bound; lia).
    split_and!; [done| |].
    + repeat constructor; [apply N.Div0.div_lt_upper_bound; lia| |]; [pose proof (N.mod_lt a 4)|pose proof (N.mod_lt b 16)]; lia.
    + simpl. rewrite N.div_add_l, (N.div_small (b / 16)), N.div_mul by done.
      rewrite (N.add_comm (a mod 4 * 16)), N.Div0.mod_add, (N.mod_small (b / 16)) by done.
      do 2 f_equal; [pose proof (N.div_mod a 4); lia|f_equal; pose proof (N.div_mod b 16); lia].
  - destruct (IH (length l)) with (l := l) as (g & E & Hg & Hj); [simpl; lia|done|done|].
    exists ((a / 4)%N :: (a mod 4 * 16 + b / 16)%N :: (b mod 16 * 4 + c / 64)%N :: (c mod 64)%N :: g).
    assert (b / 16 < 16)%N by (apply N.Div0.div_lt_upper_bound; lia).
    assert (c / 64 < 4)%N by (apply N.Div0.div_lt_upper_bound; lia).
    split_and!; [simpl; by rewrite E| |].
    + pose proof (N.mod_lt a 4). pose proof (N.mod_lt b 16). pose proof (N.mod_lt c 64).
      repeat (apply Forall_cons; split); [apply N.Div0.div_lt_upper_bound; lia|lia|lia|lia|done].
    + cbn [Base64.join]. rewrite Hj, !N.div_add_l, (N.div_small (b / 16)), (N.div_small (c / 64)) by done.
      rewrite (N.add_comm (a mod 4 * 16)), N.Div0.mod_add, (N.mod_small (b / 16)) by done.
      rewrite (N.add_comm (b mod 16 * 4)), N.Div0.mod_add, (N.mod_small (c / 64)) by done.
      pose proof (N.div_mod a 4). pose proof (N.div_mod b 16). pose proof (N.div_mod c 64).
      do 4 f_equal; lia.
Qed.

Lemma bytes_of_small s : Forall (λ b, b < 256)%N (Utf8.bytes_of s).
Proof.
  unfold Utf8.bytes_of. apply Forall_forall. intros b (c & -> & _)%list_elem_of_fmap. apply N_ascii_bounded.
Qed.
Lemma string_of_bytes_of s : string_of_bytes (Utf8.bytes_of s) = s.
Proof.
  unfold string_of_bytes, Utf8.bytes_of. rewrite map_map. rewrite (map_ext _ (λ c, c)) by apply ascii_N_embedding.
  rewrite map_id. apply String.string_of_list_ascii_of_string.
Qed.

Lemma Decode_Encode s : Base64.DecodeString (Base64.EncodeToString s) = Ok s.
Proof.
  unfold Base64.DecodeString, Base64.EncodeToString, Base64.decode.
  rewrite String.list_ascii_of_string_of_list_ascii.
  destruct (encode_groups _ (bytes_of_small s)) as (g & -> & Hg & Hj).
  assert (List.filter (λ c, negb (Base64.newline c)) (map Base64.digit g) = map Base64.digit g) as ->.
  { clear Hj. induction Hg as [|n g Hn _ IH]; [done|]. simpl. destruct (digit_plain n Hn) as [-> _]. simpl. by rewrite IH. }
  assert (mapM Base64.value (map Base64.digit g) = Some g) as ->.
  { clear Hj. induction Hg as [|n g Hn _ IH]; [done|]. cbn [map mapM]. rewrite digit_value by done. simpl. by rewrite IH. }
  rewrite Hj. by rewrite string_of_bytes_of.
Qed.

Lemma Encode_no_dollar s : contains_char Password.dollar (Base64.EncodeToString s) = false.
Proof.
  unfold Base64.EncodeToString. destruct (encode_groups _ (bytes_of_small s)) as (g & -> & Hg & _).
  induction Hg as [|n g Hn _ IH]; [done|]. cbn [map String.string_of_list_ascii contains_char]. rewrite IH, orb_false_r.
  apply bool_decide_eq_false. destruct (digit_plain n Hn). congruence.
Qed.

(** Decimal numbers as they are printed. *)
Definition all_digits (s : string) : bool := forallb Scan.is_digit (String.list_ascii_of_string s).
Definition step (n : N) (c : ascii) : N := (10 * n + (N_of_ascii c - 48))%N.

Lemma pretty_char x : (x < 10)%N → Scan.is_digit (pretty_N_char x) = true ∧ (N_of_ascii (pretty_N_char x) - 48 = x)%N.
Proof.
  intros H. assert (x = 0 ∨ x = 1 ∨ x = 2 ∨ x = 3 ∨ x = 4 ∨ x = 5 ∨ x = 6 ∨ x = 7 ∨ x = 8 ∨ x = 9)%N as Hx by lia.
  by repeat destruct Hx as [->|Hx]; subst.
Qed.
Lemma pretty_go x s : all_digits s = true →
  all_digits (pretty_N_go x s) = true ∧
  fold_left step (String.list_ascii_of_string (pretty_N_go x s)) 0%N = fold_left step (String.list_ascii_of_string s) x.
Proof.
  revert s. induction (N.lt_wf_0 x) as [x _ IH]; intros s Hs.
  destruct (decide (0 < x)%N) as [Hx|Hx].
  - rewrite pretty_N_go_step by done. destruct (pretty_char (x mod 10)) as [Hd Hv]; [by apply N.mod_lt|].
    destruct (IH (x / 10)%N (N.div_lt x 10 Hx eq_refl) (String (pretty_N_char (x mod 10)) s)) as [H1 H2].
    { unfold all_digits in *. simpl. by rewrite Hd. }
    split; [done|]. rewrite H2. cbn [String.list_ascii_of_string fold_left]. f_equal.
    unfold step. rewrite Hv. symmetry. by apply N.div_mod.
  - assert (x = 0%N) as -> by lia. by rewrite pretty_N_go_0.
Qed.
Lemma pretty_N_spec n : all_digits (pretty n) = true ∧ Scan.number (pretty n) = n ∧ pretty n ≠ "".
Proof.
  unfold pretty, pretty_N. destruct (decide (n = 0)%N) as [->|Hn]; [done|].
  destruct (pretty_go n "") as [H1 H2]; [done|]. split_and!; [done|done|].
  intros E. rewrite E in H2. simpl in H2. lia.
Qed.

Lemma digits_app d r : all_digits d = true →
  (match r with String c _ => Scan.is_digit c = false | EmptyString => True end) → Scan.digits (d +:+ r) = (d, r).
Proof.
  intros Hd Hr. induction d as [|c d IH].
  - change ("" +:+ r) with r. destruct r as [|c r]; [done|]. simpl. by rewrite Hr.
  - change (String c d +:+ r) with (String c (d +:+ r)). unfold all_digits in *. simpl in Hd |- *.
    apply andb_true_iff in Hd as [Hc Hd]. rewrite Hc, IH by done. done.
Qed.

Lemma digit_no_space c s n : Scan.is_digit c = true → Scan.skip_space n (String c s) = Some (String c s).
Proof.
  intros Hc. destruct n as [|n]; [done|]. cbn [Scan.skip_space].
  assert (c ≠ Scan.line_break) as Hn by (intros ->; discriminate Hc).
  rewrite bool_decide_eq_false_2 by done.
  assert (List.find (λ p, String.prefix p (String c s)) space_encodings = None) as ->; [|done].
  assert (∀ p, p ∈ space_encodings → String.prefix p (String c s) = false) as Hp.
  { apply Forall_forall. unfold Scan.is_digit in Hc.
    assert (∀ k q, (k < 48 ∨ 57 < k) → k < 256 → String.prefix (str_of (k :: q)) (String c s) = false) as Hk.
    { intros k q Hk Hlt. unfold str_of. cbn [map String.string_of_list_ascii String.prefix].
      destruct (ascii_dec (ascii_of_nat k) c) as [<-|]; [|done]. exfalso.
      apply andb_true_iff in Hc as [H1 H2].
      apply N.leb_le in H1, H2. rewrite <- (nat_ascii_embedding k) in Hk by done. unfold nat_of_ascii in Hk. lia. }
    unfold space_encodings. cbn [app map seq]. repeat (apply Forall_cons; split; [apply Hk; lia|]). constructor. }
  clear Hc Hn. induction space_encodings as [|p l IH]; [done|]. cbn [List.find].
  rewrite Hp by apply list_elem_of_here. apply IH. intros q Hq. apply Hp. by right.
Qed.

(** A printed number and what does not continue it. *)
Definition ends_number (r : string) : Prop := match r with String c _ => Scan.is_digit c = false | EmptyString => True end.
Lemma pretty_head (n : N) : ∃ c s, pretty n = String c s ∧ Scan.is_digit c = true.
Proof.
  destruct (pretty_N_spec n) as (Hd & _ & Hne). destruct (pretty n) as [|c s]; [done|].
  exists c, s. split; [done|]. unfold all_digits in Hd. simpl in Hd. by apply andb_true_iff in Hd as [? _].
Qed.
Lemma scan_uint_pretty limit (n : N) r : (n < limit)%N → ends_number r → Scan.scan_uint limit (pretty n +:+ r) = Some (n, r).
Proof.
  intros Hn Hr. destruct (pretty_N_spec n) as (Hd & Hv & Hne). unfold Scan.scan_uint.
  destruct (pretty_head n) as (c & s & E & Hc). rewrite E.
  change (String c s +:+ r) with (String c (s +:+ r)). rewrite digit_no_space by done.
  change (String c (s +:+ r)) with (String c s +:+ r). rewrite <- E, digits_app by done.
  rewrite bool_decide_eq_false_2, Hv by done. simpl. by rewrite (proj2 (N.leb_gt _ _) Hn).
Qed.
Lemma scan_int_pretty (n : N) r : (Z.of_N n < 2 ^ 63)%Z → ends_number r → Scan.scan_int (pretty n +:+ r) = Some (Z.of_N n, r).
Proof.
  intros Hn Hr. destruct (pretty_N_spec n) as (Hd & Hv & Hne). unfold Scan.scan_int.
  destruct (pretty_head n) as (c & s & E & Hc). rewrite E.
  change (String c s +:+ r) with (String c (s +:+ r)). rewrite digit_no_space by done.
  assert (c ≠ "-"%char ∧ c ≠ "+"%char) as [H1 H2] by (split; intros ->; discriminate Hc).
  rewrite !bool_decide_eq_false_2 by done. cbn [orb].
  change (String c (s +:+ r)) with (String c s +:+ r). rewrite <- E, digits_app by done.
  rewrite bool_decide_eq_false_2, Hv by done. simpl. by rewrite (proj2 (Z.leb_gt _ _) Hn).
Qed.
Lemma app_empty s : s +:+ "" = s.
Proof. induction s as [|c s IH]; [done|]. change (String c s +:+ "") with (String c (s +:+ "")). by rewrite IH. Qed.
Lemma literal_app l s : Scan.literal l (l +:+ s) = Some s.
Proof.
  unfold Scan.literal. assert (String.prefix l (l +:+ s) = true ∧ drop_string (String.length l) (l +:+ s) = s) as [-> ->]; [|done].
  induction l as [|c l IH]; [by destruct s|]. change (String c l +:+ s) with (String c (l +:+ s)). simpl.
  destruct (ascii_dec c c); [done|congruence].
Qed.
Lemma no_dollar_app s t : contains_char Password.dollar (s +:+ t) = contains_char Password.dollar s || contains_char Password.dollar t.
Proof.
  induction s as [|c s IH]; [done|]. change (String c s +:+ t) with (String c (s +:+ t)). simpl. by rewrite IH, orb_assoc.
Qed.
Lemma pretty_no_dollar n : contains_char Password.dollar (pretty (n : N)) = false.
Proof.
  destruct (pretty_N_spec n) as (Hd & _). unfold all_digits in Hd. revert Hd. generalize (pretty n). intros s.
  induction s as [|c s IH]; [done|]. simpl. rewrite andb_true_iff. intros [Hc Hs]. rewrite IH by done. rewrite orb_false_r.
  apply bool_decide_eq_false. intros <-. discriminate Hc.
Qed.
End PasswordFacts.

Section Roundtrip.
Import PasswordFacts.
Context (IDKey : string → string → N → N → N → N → string) (Version : N).
Context (IDKey_length : ∀ p s t m th k, String.length (IDKey p s t m th k) = N.to_nat k).
Context (Version_small : (Z.of_N Version < 2 ^ 63)%Z).


Lemma hash_parts salt hash :
  Split ("$argon2id$v=" +:+ pretty Version +:+ "$m=" +:+ pretty Password.Memory +:+ ",t=" +:+ pretty Password.Time_ +:+
         ",p=" +:+ pretty Password.Threads +:+ "$" +:+ Base64.EncodeToString salt +:+ "$" +:+ Base64.EncodeToString hash) Password.dollar
  = [""; "argon2id"; "v=" +:+ pretty Version;
     "m=" +:+ pretty Password.Memory +:+ ",t=" +:+ pretty Password.Time_ +:+ ",p=" +:+ pretty Password.Threads;
     Base64.EncodeToString salt; Base64.EncodeToString hash].
Proof.
  set (e1 := Base64.EncodeToString salt). set (e2 := Base64.EncodeToString hash).
  trans (Split ("" +:+ String Password.dollar ("argon2id" +:+ String Password.dollar (("v=" +:+ pretty Version) +:+ String Password.dollar
    (("m=" +:+ pretty Password.Memory +:+ ",t=" +:+ pretty Password.Time_ +:+ ",p=" +:+ pretty Password.Threads) +:+
    String Password.dollar (e1 +:+ String Password.dollar e2))))) Password.dollar).
  { f_equal. }
  rewrite !Split_app by (rewrite ?no_dollar_app, ?pretty_no_dollar; first [reflexivity|apply Encode_no_dollar]).
  rewrite Split_none by apply Encode_no_dollar. reflexivity.
Qed.
Lemma scan_version_pretty : Password.scan_version ("v=" +:+ pretty Version) = Ok (Z.of_N Version).
Proof.
  unfold Password.scan_version. rewrite literal_app. pose proof (scan_int_pretty Version "" Version_small I) as Hs.
  rewrite app_empty in Hs. by rewrite Hs.
Qed.
Lemma scan_params_pretty :
  Password.scan_params ("m=" +:+ pretty Password.Memory +:+ ",t=" +:+ pretty Password.Time_ +:+ ",p=" +:+ pretty Password.Threads)
  = Ok (Password.Memory, Password.Time_, Password.Threads).
Proof. reflexivity. Qed.

(** What [HashPassword] makes of a password verifies against another
    exactly if Argon2 cannot tell the two apart under the random salt: its own
    password is accepted, and no hash of this program is ever found malformed. *)
Theorem password_roundtrip salt password other h :
  Password.HashPassword IDKey Version (Ok salt) password = Ok h →
  Password.VerifyPassword IDKey Version other h =
    Ok (bool_decide (IDKey password salt 1 65536 4 32 = IDKey other salt 1 65536 4 32)).
Proof.
  intros H. injection H as <-. set (hash := IDKey password salt Password.Time_ Password.Memory Password.Threads Password.KeyLen).
  unfold Password.VerifyPassword. rewrite hash_parts, bool_decide_eq_true_2 by done. cbn [negb].
  rewrite scan_version_pretty, Z.eqb_refl by done. cbn [negb]. rewrite scan_params_pretty, !Decode_Encode.
  subst hash. rewrite IDKey_length. done.
Qed.
End Roundtrip.

(** A key that repeats the first byte of the password. *)
Definition first_byte_key (p s : string) (t m th k : N) : string :=
  let c := match p with String c _ => c | EmptyString => "0"%char end in
  Nat.iter (N.to_nat k) (String c) EmptyString.
Lemma first_byte_key_length p s t m th k : String.length (first_byte_key p s t m th k) = N.to_nat k.
Proof.
  unfold first_byte_key. induction (N.to_nat k) as [|n IH]; [done|].
  change (Nat.iter (S n) ?f ?x) with (f (Nat.iter n f x)). simpl. by rewrite IH.
Qed.
Lemma password_roundtrip_witness : ∃ h,
  Password.HashPassword first_byte_key 19 (Ok "0123456789abcdef") "secret" = Ok h ∧
  Password.VerifyPassword first_byte_key 19 "secret" h = Ok true ∧
  Password.VerifyPassword first_byte_key 19 "guess" h = Ok false.
Proof.
  eexists. split; [reflexivity|]. split.
  - refine (eq_trans (password_roundtrip first_byte_key 19 first_byte_key_length eq_refl "0123456789abcdef" "secret" "secret" _ eq_refl) _).
    vm_compute. reflexivity.
  - refine (eq_trans (password_roundtrip first_byte_key 19 first_byte_key_length eq_refl "0123456789abcdef" "secret" "guess" _ eq_refl) _).
    vm_compute. reflexivity.
Defined.

Lemma Ok_inj {A} (a b : A) : (Ok a : Result A) = Ok b → a = b.
Proof. by intros [= ->]. Qed.
(** A generated password is as long as asked for, of the characters listed. *)
Lemma generated_password bytes password :
  Password.GenerateRandomPassword (Ok bytes) = Ok password →
  String.length password = String.length bytes ∧
  Forall (λ c, c ∈ Password.charset) (String.list_ascii_of_string password).
Proof.
  intros <-%Ok_inj. rewrite String.list_ascii_of_string_of_list_ascii. split.
  - unfold Utf8.bytes_of. rewrite map_map. induction bytes as [|c s IH]; [done|].
    cbn [String.list_ascii_of_string map String.string_of_list_ascii String.length]. by rewrite IH.
  - apply Forall_forall. intros c (b & -> & _)%list_elem_of_fmap. apply list_elem_of_In.
    assert (N.to_nat (b mod N.of_nat (length Password.charset)) < length Password.charset) as Hb.
    { pose proof (N.mod_lt b (N.of_nat (length Password.charset))) as Hb. unfold Password.charset in *. simpl length in *. lia. }
    revert Hb. generalize (N.to_nat (b mod N.of_nat (length Password.charset))). generalize Password.charset. intros l n Hn.
    by apply nth_In.
Qed.
