(* ===== verification/IamDao.v ===== *)
(** * repo/model and repo/dao: the tables of identity and access management

    [model_organization.go], [model_user.go], [model_user_api_token.go]: the
    rows.  [dao_organization.go], [dao_user_api_token.go] and the user queries
    of [dao.go]: the queries.  As in the agent's tables, GORM with its database
    is a parameter ([IamGorm]) with what the code relies on as laws
    ([IamGormLaws]).  These models embed [gorm.Model]: rows get their number
    from the database and deletion only marks them, so that unique indices
    still see deleted rows while queries do not. *)

From S2P Require Import Prelude ToolTypes.

(** ** Rows

    Of [gorm.Model] the number; the three times are never read by this code,
    [DeletedAt] is the mark of a stored row.  Fields that are not columns: the
    role of a membership ([gorm:-]) and the preloaded role and organization of
    a binding.  The preloaded user and organization of a membership only travel
    to the caller and are left out. *)
Record Organization := mkOrganization {
  o_ID : N; o_Name : string; o_Description : string; o_ParentID : option N; o_IsRoot : bool }.
Record OrganizationMembership := mkOrgMembership {
  m_ID : N; m_OrganizationID : N; m_UserID : N; m_Role : string }.
Record IAMRole := mkIAMRole {
  ro_ID : N; ro_Code : string; ro_Name : string; ro_Description : string; ro_BuiltIn : bool }.
Record IAMPermission := mkIAMPermission { pe_ID : N; pe_Code : string; pe_Resource : string; pe_Action : string }.
Record IAMRolePermission := mkIAMRolePermission { rp_ID : N; rp_RoleID : N; rp_PermissionID : N }.
Record IAMRoleBinding := mkIAMRoleBinding {
  b_ID : N; b_UserID : N; b_RoleID : N; b_OrganizationID : N; b_InheritChildren : bool;
  b_Role : option IAMRole; b_Organization : option Organization }.
Record User := mkUserRow {
  u_ID : N; u_Name : string; u_Email : string; u_Password : string; u_Status : string;
  u_LastLogin : option Time; u_LoginIP : string }.
Record UserAPIToken := mkUserAPIToken {
  k_ID : N; k_UserID : N; k_Name : string; k_TokenPrefix : string; k_TokenHash : string; k_Scope : string;
  k_LastUsedAt : option Time; k_LastUsedIP : string; k_ExpiresAt : option Time; k_RevokedAt : option Time }.

#[global] Instance eta_Organization : Eta Organization := {| eta := λ r,
  mkOrganization (o_ID r) (o_Name r) (o_Description r) (o_ParentID r) (o_IsRoot r) |}.
#[global] Instance eta_OrganizationMembership : Eta OrganizationMembership := {| eta := λ r,
  mkOrgMembership (m_ID r) (m_OrganizationID r) (m_UserID r) (m_Role r) |}.
#[global] Instance eta_IAMRole : Eta IAMRole := {| eta := λ r,
  mkIAMRole (ro_ID r) (ro_Code r) (ro_Name r) (ro_Description r) (ro_BuiltIn r) |}.
#[global] Instance eta_IAMPermission : Eta IAMPermission := {| eta := λ r,
  mkIAMPermission (pe_ID r) (pe_Code r) (pe_Resource r) (pe_Action r) |}.
#[global] Instance eta_IAMRolePermission : Eta IAMRolePermission := {| eta := λ r,
  mkIAMRolePermission (rp_ID r) (rp_RoleID r) (rp_PermissionID r) |}.
#[global] Instance eta_IAMRoleBinding : Eta IAMRoleBinding := {| eta := λ r,
  mkIAMRoleBinding (b_ID r) (b_UserID r) (b_RoleID r) (b_OrganizationID r) (b_InheritChildren r) (b_Role r) (b_Organization r) |}.
#[global] Instance eta_UserRow : Eta User := {| eta := λ r,
  mkUserRow (u_ID r) (u_Name r) (u_Email r) (u_Password r) (u_Status r) (u_LastLogin r) (u_LoginIP r) |}.
#[global] Instance eta_UserAPIToken : Eta UserAPIToken := {| eta := λ r,
  mkUserAPIToken (k_ID r) (k_UserID r) (k_Name r) (k_TokenPrefix r) (k_TokenHash r) (k_Scope r)
    (k_LastUsedAt r) (k_LastUsedIP r) (k_ExpiresAt r) (k_RevokedAt r) |}.

Definition IAMRoleAdmin : string := "admin".
Definition IAMRoleUser : string := "user".
Definition IsValidIAMRoleCode (code : string) : bool :=
  bool_decide (code = IAMRoleAdmin) || bool_decide (code = IAMRoleUser).
Definition UserStatusActive : string := "active".
Definition UserStatusInactive : string := "inactive".
Definition UserStatusLocked : string := "locked".
Definition PATPlaintextPrefix : string := "liaison_pat_".
(** The name of the root organization, in UTF-8. *)
Definition DefaultOrganizationName : string := str_of [233; 187; 152; 232; 174; 164; 231; 187; 132; 231; 187; 135].

(** A table: every row under its number, with the mark of deletion. *)
Abbreviation stored Row := (gmap N (Row * bool)).
Definition visible {Row} (m : stored Row) : gmap N Row := omap (λ x : Row * bool, if snd x then None else Some (fst x)) m.

Record IamTables := mkIamTables {
  iam_organizations : stored Organization;
  iam_organization_memberships : stored OrganizationMembership;
  iam_roles : stored IAMRole;
  iam_permissions : stored IAMPermission;
  iam_role_permissions : stored IAMRolePermission;
  iam_role_bindings : stored IAMRoleBinding;
  users : stored User;
  user_api_tokens : stored UserAPIToken
}.
#[global] Instance eta_IamTables : Eta IamTables := {| eta := λ t,
  mkIamTables (iam_organizations t) (iam_organization_memberships t) (iam_roles t) (iam_permissions t)
    (iam_role_permissions t) (iam_role_bindings t) (users t) (user_api_tokens t) |}.

(** Every row is under its number, which is not 0, and no two rows agree on a
    unique index. *)
Definition wf_table {Row} (id : Row → N) (uniq : Row → Row → bool) (m : stored Row) : Prop :=
  ∀ k v, m !! k = Some v → id (fst v) = k ∧ k ≠ 0%N ∧ ∀ k' v', m !! k' = Some v' → k ≠ k' → uniq (fst v) (fst v') = false.
Definition uniq_organization (x y : Organization) : bool := bool_decide (o_Name x = o_Name y).
Definition uniq_membership (x y : OrganizationMembership) : bool :=
  bool_decide (m_OrganizationID x = m_OrganizationID y) && bool_decide (m_UserID x = m_UserID y).
Definition uniq_role (x y : IAMRole) : bool := bool_decide (ro_Code x = ro_Code y).
Definition uniq_permission (x y : IAMPermission) : bool := bool_decide (pe_Code x = pe_Code y).
Definition uniq_role_permission (x y : IAMRolePermission) : bool :=
  bool_decide (rp_RoleID x = rp_RoleID y) && bool_decide (rp_PermissionID x = rp_PermissionID y).
Definition uniq_binding (x y : IAMRoleBinding) : bool :=
  bool_decide (b_UserID x = b_UserID y) && bool_decide (b_RoleID x = b_RoleID y) &&
  bool_decide (b_OrganizationID x = b_OrganizationID y).
Definition uniq_user (x y : User) : bool := bool_decide (u_Email x = u_Email y).
Record wf_tables (t : IamTables) : Prop := {
  wf_organizations : wf_table o_ID uniq_organization (iam_organizations t);
  wf_memberships : wf_table m_ID uniq_membership (iam_organization_memberships t);
  wf_roles : wf_table ro_ID uniq_role (iam_roles t);
  wf_permissions : wf_table pe_ID uniq_permission (iam_permissions t);
  wf_role_permissions : wf_table rp_ID uniq_role_permission (iam_role_permissions t);
  wf_bindings : wf_table b_ID uniq_binding (iam_role_bindings t);
  wf_users : wf_table u_ID uniq_user (users t);
  wf_tokens : wf_table k_ID (λ _ _, false) (user_api_tokens t)
}.

(** What a model declares: its table, the number, the unique indices beside
    it, and [columns], which forgets what is not stored. *)
Class IamTable (Row : Type) := {
  rows : IamTables → stored Row;
  put_rows : stored Row → IamTables → IamTables;
  row_id : Row → N;
  with_id : N → Row → Row;
  unique : Row → Row → bool;
  columns : Row → Row;
  row_id_with id r : row_id (with_id id r) = id;
  row_id_columns r : row_id (columns r) = row_id r;
  rows_put m t : rows (put_rows m t) = m;
  put_rows_same t : put_rows (rows t) t = t;
  rows_wf t : wf_tables t → wf_table row_id unique (rows t);
  put_wf m t : wf_tables t → wf_table row_id unique m → wf_tables (put_rows m t)
}.

#[export] Instance table_Organization : IamTable Organization.
Proof.
  refine {| rows := iam_organizations; put_rows := λ m t, t<| iam_organizations := m |>; row_id := o_ID;
    with_id := λ id r, r<| o_ID := id |>; unique := uniq_organization; columns := λ r, r |}.
  all: first [done | by intros [] | by intros t [] | by intros m t [] Hm; split].
Defined.
#[export] Instance table_OrganizationMembership : IamTable OrganizationMembership.
Proof.
  refine {| rows := iam_organization_memberships; put_rows := λ m t, t<| iam_organization_memberships := m |>;
    row_id := m_ID; with_id := λ id r, r<| m_ID := id |>;
    unique := uniq_membership;
    columns := λ r, r<| m_Role := "" |> |}.
  all: first [done | by intros [] | by intros t [] | by intros m t [] Hm; split].
Defined.
#[export] Instance table_IAMRole : IamTable IAMRole.
Proof.
  refine {| rows := iam_roles; put_rows := λ m t, t<| iam_roles := m |>; row_id := ro_ID;
    with_id := λ id r, r<| ro_ID := id |>; unique := uniq_role; columns := λ r, r |}.
  all: first [done | by intros [] | by intros t [] | by intros m t [] Hm; split].
Defined.
#[export] Instance table_IAMPermission : IamTable IAMPermission.
Proof.
  refine {| rows := iam_permissions; put_rows := λ m t, t<| iam_permissions := m |>; row_id := pe_ID;
    with_id := λ id r, r<| pe_ID := id |>; unique := uniq_permission; columns := λ r, r |}.
  all: first [done | by intros [] | by intros t [] | by intros m t [] Hm; split].
Defined.
#[export] Instance table_IAMRolePermission : IamTable IAMRolePermission.
Proof.
  refine {| rows := iam_role_permissions; put_rows := λ m t, t<| iam_role_permissions := m |>; row_id := rp_ID;
    with_id := λ id r, r<| rp_ID := id |>;
    unique := uniq_role_permission;
    columns := λ r, r |}.
  all: first [done | by intros [] | by intros t [] | by intros m t [] Hm; split].
Defined.
#[export] Instance table_IAMRoleBinding : IamTable IAMRoleBinding.
Proof.
  refine {| rows := iam_role_bindings; put_rows := λ m t, t<| iam_role_bindings := m |>; row_id := b_ID;
    with_id := λ id r, r<| b_ID := id |>;
    unique := uniq_binding;
    columns := λ r, r<| b_Role := None |><| b_Organization := None |> |}.
  all: first [done | by intros [] | by intros t [] | by intros m t [] Hm; split].
Defined.
#[export] Instance table_User : IamTable User.
Proof.
  refine {| rows := users; put_rows := λ m t, t<| users := m |>; row_id := u_ID;
    with_id := λ id r, r<| u_ID := id |>; unique := uniq_user; columns := λ r, r |}.
  all: first [done | by intros [] | by intros t [] | by intros m t [] Hm; split].
Defined.
#[export] Instance table_UserAPIToken : IamTable UserAPIToken.
Proof.
  refine {| rows := user_api_tokens; put_rows := λ m t, t<| user_api_tokens := m |>; row_id := k_ID;
    with_id := λ id r, r<| k_ID := id |>; unique := λ _ _, false; columns := λ r, r |}.
  all: first [done | by intros [] | by intros t [] | by intros m t [] Hm; split].
Defined.

(** ** GORM *)
Definition ErrRecordNotFound : error := ESentinel "gorm.ErrRecordNotFound" "record not found".

(** The calls, on rows that are not deleted unless said otherwise:
    [Create(&row)], which fills in the number; [Where(p).First(&row)], ordered
    by number, and [Where(p).Order(less).Find(&rows)], both with what they
    preload; [Offset(o).Limit(l).Find]; [Where(p).Count]; [Save(&row)];
    [Where(p).Delete], which marks; [Unscoped().Where(p).Delete], which removes,
    marked rows too; [Where(p).Updates]; [Clauses(OnConflict{...}).Create(&row)]
    with the columns that conflict and the assignment made then (of the new row
    and the old), which clears the mark; and transactions. *)
Class IamGorm (DB : Type) := {
  Create {Row} `{!IamTable Row} : Row → Op DB Row;
  First {Row} `{!IamTable Row} : (IamTables → Row → Row) → (Row → bool) → Op DB Row;
  Find {Row} `{!IamTable Row} : (IamTables → Row → Row) → (IamTables → Row → bool) → (Row → Row → bool) → Op DB (list Row);
  Page {Row} `{!IamTable Row} : nat → nat → Op DB (list Row);
  Count {Row} `{!IamTable Row} : (Row → bool) → Op DB N;
  Save {Row} `{!IamTable Row} : Row → Op DB unit;
  Delete {Row} `{!IamTable Row} : (Row → bool) → Op DB unit;
  Purge {Row} `{!IamTable Row} : (Row → bool) → Op DB unit;
  Update {Row} `{!IamTable Row} : (Row → bool) → (Row → Row) → Op DB unit;
  Upsert {Row} `{!IamTable Row} : (Row → Row → bool) → (Row → Row → Row) → Row → Op DB unit;
  Begin : DB → DB;
  Commit : Op DB unit;
  Rollback : DB → DB
}.

Definition all_rows {Row} (m : gmap N Row) : list Row := (map_to_list m).*2.
(** A number the database hands out: of no row, deleted ones included. *)
Definition fresh_id {Row} (id : N) (m : stored Row) : Prop := id ≠ 0%N ∧ m !! id = None.
Definition no_clash {Row} `{!IamTable Row} (r : Row) (m : stored Row) : Prop :=
  ∀ k v, m !! k = Some v → unique r (fst v) = false.

(** What the code relies on.  A call that fails has changed nothing; [tables]
    is what a query sees now and [saved] the tables at the start of each open
    transaction, innermost first. *)
Class IamGormLaws (DB : Type) `{!IamGorm DB} := {
  tables : DB → IamTables;
  saved : DB → list IamTables;
  tables_wf s : wf_tables (tables s);
  Create_law {Row} `{!IamTable Row} (r : Row) s x s' :
    Create r s = (x, s') → saved s' = saved s ∧
    match x with
    | Ok r' => ∃ id, fresh_id id (rows (Row := Row) (tables s)) ∧ no_clash r (rows (Row := Row) (tables s)) ∧ r' = with_id id r ∧
        tables s' = put_rows (Row := Row) (<[id := (columns r', false)]> (rows (Row := Row) (tables s))) (tables s)
    | Err _ => tables s' = tables s
    end;
  First_law {Row} `{!IamTable Row} preload p s (x : Result Row) s' :
    First preload p s = (x, s') → saved s' = saved s ∧ tables s' = tables s ∧
    match x with
    | Ok r => ∃ k r0, visible (rows (Row := Row) (tables s)) !! k = Some r0 ∧ p r0 = true ∧ r = preload (tables s) r0 ∧
        ∀ k1 r1, visible (rows (Row := Row) (tables s)) !! k1 = Some r1 → p r1 = true → (k ≤ k1)%N
    | Err e => Is e ErrRecordNotFound = true → ∀ k r, visible (rows (Row := Row) (tables s)) !! k = Some r → p r = false
    end;
  Find_law {Row} `{!IamTable Row} preload p less s (x : Result (list Row)) s' :
    Find preload p less s = (x, s') → saved s' = saved s ∧ tables s' = tables s ∧
    match x with
    | Ok l => ∃ l0, l = map (preload (tables s)) l0 ∧
        l0 ≡ₚ List.filter (p (tables s)) (all_rows (visible (rows (Row := Row) (tables s)))) ∧ StronglySorted (λ a b, less b a = false) l0
    | Err _ => True
    end;
  Page_law {Row} `{!IamTable Row} offset limit s (x : Result (list Row)) s' :
    Page offset limit s = (x, s') → saved s' = saved s ∧ tables s' = tables s ∧
    match x with
    | Ok l => ∃ l0, l0 ≡ₚ all_rows (visible (rows (Row := Row) (tables s))) ∧ l = take limit (drop offset l0)
    | Err _ => True
    end;
  Count_law {Row} `{!IamTable Row} p s x s' :
    Count p s = (x, s') → saved s' = saved s ∧ tables s' = tables s ∧
    match x with
    | Ok n => n = N.of_nat (length (List.filter p (all_rows (visible (rows (Row := Row) (tables s))))))
    | Err _ => True
    end;
  Save_law {Row} `{!IamTable Row} (r : Row) s x s' :
    Save r s = (x, s') → saved s' = saved s ∧
    match x with
    | Ok _ => (∃ m : stored Row, tables s' = put_rows m (tables s)) ∧
        (is_Some (visible (rows (Row := Row) (tables s)) !! row_id r) →
          (∀ k v, k ≠ row_id r → rows (tables s) !! k = Some v → unique r (fst v) = false) ∧
          tables s' = put_rows (Row := Row) (<[row_id r := (columns r, false)]> (rows (Row := Row) (tables s))) (tables s))
    | Err _ => tables s' = tables s
    end;
  Delete_law {Row} `{!IamTable Row} p s x s' :
    Delete p s = (x, s') → saved s' = saved s ∧
    match x with
    | Ok _ => tables s' = put_rows (Row := Row) ((λ v : Row * bool, (fst v, snd v || p (fst v))) <$> rows (Row := Row) (tables s)) (tables s)
    | Err _ => tables s' = tables s
    end;
  Purge_law {Row} `{!IamTable Row} p s x s' :
    Purge p s = (x, s') → saved s' = saved s ∧
    match x with
    | Ok _ => tables s' = put_rows (Row := Row) (omap (λ v : Row * bool, if p (fst v) then None else Some v) (rows (Row := Row) (tables s))) (tables s)
    | Err _ => tables s' = tables s
    end;
  Update_law {Row} `{!IamTable Row} p assign s x s' :
    (∀ r : Row, row_id (assign r) = row_id r) → Update p assign s = (x, s') → saved s' = saved s ∧
    match x with
    | Ok _ => tables s' = put_rows
        ((λ v : Row * bool, if negb (snd v) && p (fst v) then (columns (assign (fst v)), false) else v) <$> rows (Row := Row) (tables s)) (tables s)
    | Err _ => tables s' = tables s
    end;
  Upsert_law {Row} `{!IamTable Row} conflict assign (r : Row) s x s' :
    Upsert conflict assign r s = (x, s') → saved s' = saved s ∧
    match x with
    | Ok _ =>
        (∃ k v, rows (tables s) !! k = Some v ∧ conflict r (fst v) = true ∧
          tables s' = put_rows (Row := Row) (<[k := (columns (assign r (fst v)), false)]> (rows (Row := Row) (tables s))) (tables s)) ∨
        ((∀ k v, rows (tables s) !! k = Some v → conflict r (fst v) = false) ∧ no_clash r (rows (Row := Row) (tables s)) ∧
          ∃ id, fresh_id id (rows (Row := Row) (tables s)) ∧
            tables s' = put_rows (Row := Row) (<[id := (columns (with_id id r), false)]> (rows (Row := Row) (tables s))) (tables s))
    | Err _ => tables s' = tables s
    end;
  Begin_law s : tables (Begin s) = tables s ∧ saved (Begin s) = tables s :: saved s;
  Commit_law t ts s x s' :
    saved s = t :: ts → Commit s = (x, s') → saved s' = ts ∧
    tables s' = match x with Ok _ => tables s | Err _ => t end;
  Rollback_law t ts s : saved s = t :: ts → tables (Rollback s) = t ∧ saved (Rollback s) = ts
}.

Section TableFacts.
Context {DB : Type} {i_gorm : IamGorm DB} {l_gorm : IamGormLaws DB} {Row : Type} {i_table : IamTable Row}.
Lemma tables_keyed (s : DB) k (v : Row * bool) : rows (tables s) !! k = Some v → row_id (fst v) = k ∧ k ≠ 0%N.
Proof. intros H. apply (rows_wf _ (tables_wf s)) in H as (? & ? & _). by split. Qed.
Lemma tables_unique (s : DB) k1 k2 (v1 v2 : Row * bool) :
  rows (tables s) !! k1 = Some v1 → rows (tables s) !! k2 = Some v2 → k1 ≠ k2 → unique (fst v1) (fst v2) = false.
Proof. intros H1 H2. apply (rows_wf _ (tables_wf s)) in H1 as (_ & _ & H). by apply H. Qed.
End TableFacts.

(** ** The queries *)
Module Repo.
Section Queries.
Context {DB : Type} {i_gorm : IamGorm DB}.

Definition plain {Row} (_ : IamTables) (r : Row) : Row := r.
(** [errors.Is(err, gorm.ErrRecordNotFound)] answered with a nil row. *)
Definition or_nil {A} (m : Op DB A) : Op DB (option A) := λ s,
  match m s with
  | (Ok a, s') => (Ok (Some a), s')
  | (Err e, s') => if Is e ErrRecordNotFound then (Ok None, s') else (Err e, s')
  end.

Definition CreateOrganization (o : Organization) : Op DB Organization := Create o.
Definition GetOrganizationByID (id : N) : Op DB (option Organization) :=
  or_nil (First plain (λ o, bool_decide (o_ID o = id))).
Definition GetOrganizationByName (name : string) : Op DB (option Organization) :=
  or_nil (First plain (λ o, bool_decide (o_Name o = name))).
Definition GetRootOrganization : Op DB (option Organization) := or_nil (First plain o_IsRoot).
(** parent_id IS NOT NULL, parent_id, id *)
Definition organization_order (x y : Organization) : bool :=
  match o_ParentID x, o_ParentID y with
  | None, Some _ => true
  | Some _, None => false
  | Some p, Some q => if N.eqb p q then N.ltb (o_ID x) (o_ID y) else N.ltb p q
  | None, None => N.ltb (o_ID x) (o_ID y)
  end.
Definition ListOrganizations : Op DB (list Organization) := Find plain (λ _ _, true) organization_order.
Definition UpdateOrganization (o : Organization) : Op DB unit := Save o.
Definition DeleteOrganization (id : N) : Op DB unit := Delete (λ o : Organization, bool_decide (o_ID o = id)).
Definition CountOrganizationChildren (id : N) : Op DB N :=
  Count (λ o : Organization, bool_decide (o_ParentID o = Some id)).

Definition of_pair (organizationID userID : N) (m : OrganizationMembership) : bool :=
  bool_decide (m_OrganizationID m = organizationID) && bool_decide (m_UserID m = userID).
Definition UpsertOrganizationMembership (m : OrganizationMembership) : Op DB unit :=
  Upsert (λ new old, of_pair (m_OrganizationID new) (m_UserID new) old) (λ _ old, old) m.
(** The role of a membership is not stored: a row read has none. *)
Definition no_role (_ : IamTables) (m : OrganizationMembership) : OrganizationMembership := columns m.
Definition GetOrganizationMembership (organizationID userID : N) : Op DB (option OrganizationMembership) :=
  or_nil (First no_role (of_pair organizationID userID)).
Definition membership_order (x y : OrganizationMembership) : bool := N.ltb (m_ID x) (m_ID y).
Definition ListOrganizationMembers (organizationID : N) : Op DB (list OrganizationMembership) :=
  Find no_role (λ _ m, bool_decide (m_OrganizationID m = organizationID)) membership_order.
Definition ListUserOrganizations (userID : N) : Op DB (list OrganizationMembership) :=
  Find no_role (λ _ m, bool_decide (m_UserID m = userID)) membership_order.
Definition DeleteOrganizationMembership (organizationID userID : N) : Op DB unit := Delete (of_pair organizationID userID).
Definition DeleteOrganizationMembershipsByOrganization (organizationID : N) : Op DB unit :=
  Delete (λ m : OrganizationMembership, bool_decide (m_OrganizationID m = organizationID)).
Definition DeleteOrganizationMembershipsByUser (userID : N) : Op DB unit :=
  Delete (λ m : OrganizationMembership, bool_decide (m_UserID m = userID)).

Definition UpsertIAMRole (r : IAMRole) : Op DB unit :=
  Upsert (λ new old, bool_decide (ro_Code new = ro_Code old))
    (λ new old, old<| ro_Name := ro_Name new |><| ro_Description := ro_Description new |><| ro_BuiltIn := ro_BuiltIn new |>) r.
Definition GetIAMRoleByCode (code : string) : Op DB (option IAMRole) :=
  or_nil (First plain (λ r, bool_decide (ro_Code r = code))).
Definition role_order (x y : IAMRole) : bool := N.ltb (ro_ID x) (ro_ID y).
Definition ListIAMRoles : Op DB (list IAMRole) := Find plain (λ _ _, true) role_order.
Definition UpsertIAMPermission (p : IAMPermission) : Op DB unit :=
  Upsert (λ new old, bool_decide (pe_Code new = pe_Code old))
    (λ new old, old<| pe_Resource := pe_Resource new |><| pe_Action := pe_Action new |>) p.
Definition GetIAMPermissionByCode (code : string) : Op DB (option IAMPermission) :=
  or_nil (First plain (λ p, bool_decide (pe_Code p = code))).
(** The join with iam_role_permissions: the unique index of that table lets it
    meet a permission at most once. *)
Definition granted_to (roleID : N) (t : IamTables) (p : IAMPermission) : bool :=
  existsb (λ rp, bool_decide (rp_PermissionID rp = pe_ID p) && bool_decide (rp_RoleID rp = roleID))
    (all_rows (visible (iam_role_permissions t))).
Definition permission_order (x y : IAMPermission) : bool := N.ltb (pe_ID x) (pe_ID y).
Definition ListIAMPermissionsByRole (roleID : N) : Op DB (list IAMPermission) :=
  Find plain (granted_to roleID) permission_order.
Definition UpsertIAMRolePermission (rp : IAMRolePermission) : Op DB unit :=
  Upsert (λ new old, bool_decide (rp_RoleID new = rp_RoleID old) && bool_decide (rp_PermissionID new = rp_PermissionID old))
    (λ _ old, old) rp.
Definition UpsertIAMRoleBinding (b : IAMRoleBinding) : Op DB unit :=
  Upsert (λ new old, bool_decide (b_UserID new = b_UserID old) && bool_decide (b_RoleID new = b_RoleID old) &&
            bool_decide (b_OrganizationID new = b_OrganizationID old))
    (λ new old, old<| b_InheritChildren := b_InheritChildren new |>) b.
(** [db.Transaction(fn)]: commit when [fn] succeeds, roll back when it fails. *)
Definition Transaction (fn : Op DB unit) : Op DB unit := λ s,
  match fn (Begin s) with
  | (Ok _, s') => Commit s'
  | (Err e, s') => (Err e, Rollback s')
  end.
Fixpoint create_grants (roleID : N) (enabled : list N) : Op DB unit :=
  match enabled with
  | [] => ret tt
  | id :: enabled' => Create (mkIAMRolePermission 0 roleID id) ;; create_grants roleID enabled'
  end.
Definition ReplaceIAMRolePermissionSubset (roleID : N) (subset enabled : list N) : Op DB unit :=
  Transaction (
    Purge (λ rp : IAMRolePermission, bool_decide (rp_RoleID rp = roleID) && bool_decide (rp_PermissionID rp ∈ subset)) ;;
    create_grants roleID enabled).

Definition binding_of (organizationID userID : N) (b : IAMRoleBinding) : bool :=
  bool_decide (b_OrganizationID b = organizationID) && bool_decide (b_UserID b = userID).
Definition with_role (t : IamTables) (b : IAMRoleBinding) : IAMRoleBinding :=
  b<| b_Role := visible (iam_roles t) !! b_RoleID b |>.
Definition with_both (t : IamTables) (b : IAMRoleBinding) : IAMRoleBinding :=
  (with_role t b)<| b_Organization := visible (iam_organizations t) !! b_OrganizationID b |>.
Definition binding_order (x y : IAMRoleBinding) : bool := N.ltb (b_ID x) (b_ID y).
Definition GetIAMRoleBinding (organizationID userID : N) : Op DB (option IAMRoleBinding) :=
  or_nil (First with_role (binding_of organizationID userID)).
Definition ListIAMRoleBindings : Op DB (list IAMRoleBinding) := Find with_both (λ _ _, true) binding_order.
Definition ListIAMRoleBindingsByUser (userID : N) : Op DB (list IAMRoleBinding) :=
  Find with_both (λ _ b, bool_decide (b_UserID b = userID)) binding_order.
Definition DeleteIAMRoleBinding (organizationID userID : N) : Op DB unit := Delete (binding_of organizationID userID).
Definition DeleteIAMRoleBindingsByOrganization (organizationID : N) : Op DB unit :=
  Delete (λ b : IAMRoleBinding, bool_decide (b_OrganizationID b = organizationID)).
Definition DeleteIAMRoleBindingsByUser (userID : N) : Op DB unit :=
  Delete (λ b : IAMRoleBinding, bool_decide (b_UserID b = userID)).

Definition CreateUser (u : User) : Op DB User := Create u.
Definition GetUserByID (id : N) : Op DB (option User) := or_nil (First plain (λ u, bool_decide (u_ID u = id))).
Definition GetUserByEmail (email : string) : Op DB (option User) := or_nil (First plain (λ u, bool_decide (u_Email u = email))).
Definition UpdateUser (u : User) : Op DB unit := Save u.
Definition UpdateUserLastLoginAndIP (now : Time) (userID : N) (loginIP : string) : Op DB unit :=
  Update (λ u, bool_decide (u_ID u = userID)) (λ u, u<| u_LastLogin := Some now |><| u_LoginIP := loginIP |>).
Definition ListUsers (offset limit : nat) : Op DB (list User * N) :=
  let! total := Count (λ _ : User, true) in
  let! l := Page offset limit in ret (l, total).
Definition DeleteUser (id : N) : Op DB unit := Delete (λ u : User, bool_decide (u_ID u = id)).
Definition CheckUserExists (email : string) : Op DB bool :=
  let! count := Count (λ u : User, bool_decide (u_Email u = email)) in ret (N.ltb 0 count).

Definition unrevoked (t : UserAPIToken) : bool := bool_decide (k_RevokedAt t = None).
Definition CreateUserAPIToken (t : UserAPIToken) : Op DB UserAPIToken := Create t.
(** id DESC *)
Definition ListUserAPITokens (userID : N) : Op DB (list UserAPIToken) :=
  Find plain (λ _ t, bool_decide (k_UserID t = userID) && unrevoked t) (λ x y, N.ltb (k_ID y) (k_ID x)).
Definition GetUserAPITokensByPrefix (prefix : string) : Op DB (list UserAPIToken) :=
  Find plain (λ _ t, bool_decide (k_TokenPrefix t = prefix) && unrevoked t) (λ _ _, false).
Definition RevokeUserAPIToken (now : Time) (userID id : N) : Op DB unit :=
  Update (λ t, bool_decide (k_ID t = id) && bool_decide (k_UserID t = userID) && unrevoked t) (λ t, t<| k_RevokedAt := Some now |>).
Definition TouchUserAPIToken (now : Time) (id : N) (ip : string) : Op DB unit :=
  Update (λ t, bool_decide (k_ID t = id)) (λ t, t<| k_LastUsedAt := Some now |><| k_LastUsedIP := ip |>).
Definition CountUserAPITokens (userID : N) : Op DB N :=
  Count (λ t, bool_decide (k_UserID t = userID) && unrevoked t).
End Queries.
End Repo.
