(* ===== verification/Iam.v ===== *)
(** * manager/iam: organizations, roles, features

    [authorization.go] with [casbin/model.conf], [organization.go],
    [features.go].  Casbin is a parameter: [Enforcer] gives the calls made of
    it, [EnforcerLaws] what its documentation promises for the model of
    [model.conf].  The service works on the database of [IamDao] and on the
    enforcer, which keeps a copy of what the database says. *)

From S2P Require Import Prelude ToolTypes Password IamDao.

(** ** Casbin *)
Class Enforcer (E : Type) := {
  keyMatch2 : string → string → bool;
  regexMatch : string → string → bool;
  ClearPolicy : E → E;
  AddPolicy : string → string → string → string → Op E unit;
  AddGroupingPolicy : string → string → string → Op E unit;
  RemoveFilteredGroupingPolicy : string → Op E unit;
  BuildRoleLinks : Op E unit;
  Enforce : string → string → string → string → E → Result bool
}.

Definition globalDomain : string := "*".
Abbreviation policy := (string * string * string * string)%type.
Abbreviation grouping := (string * string * string)%type.

(** [g(x, y, domain)]: [x] is [y] or reaches it over at most ten links of the
    domain. *)
Definition linked (links : gset grouping) (domain x y : string) : Prop :=
  ∃ n, n ≤ 10 ∧ nsteps (λ a b, (a, b, domain) ∈ links) n x y.

(** The matcher of [model.conf]: the request's subject has the policy's in the
    request's domain or in the global one, the policy's domain is the global
    one or the request's, and object and action match the policy's patterns. *)
Definition matches {E} `{!Enforcer E} (links : gset grouping) (sub dom obj act : string) (p : policy) : Prop :=
  let '(psub, pdom, pobj, pact) := p in
  (linked links dom sub psub ∨ linked links globalDomain sub psub) ∧ (pdom = globalDomain ∨ dom = pdom) ∧
  keyMatch2 obj pobj = true ∧ regexMatch act pact = true.

(** [policies] and [groupings] are the rules added; [links] what [g] looks at:
    the groupings as of the last [BuildRoleLinks], kept up to date by removals. *)
Class EnforcerLaws (E : Type) `{!Enforcer E} := {
  policies : E → gset policy;
  groupings : E → gset grouping;
  links : E → gset grouping;
  ClearPolicy_law e : policies (ClearPolicy e) = ∅ ∧ groupings (ClearPolicy e) = ∅;
  AddPolicy_law sub dom obj act e x e' :
    AddPolicy sub dom obj act e = (x, e') → groupings e' = groupings e ∧
    policies e' = match x with Ok _ => {[ (sub, dom, obj, act) ]} ∪ policies e | Err _ => policies e end;
  AddGroupingPolicy_law sub role dom e x e' :
    AddGroupingPolicy sub role dom e = (x, e') → policies e' = policies e ∧
    groupings e' = match x with Ok _ => {[ (sub, role, dom) ]} ∪ groupings e | Err _ => groupings e end;
  RemoveFilteredGroupingPolicy_law sub e x e' :
    RemoveFilteredGroupingPolicy sub e = (x, e') → policies e' = policies e ∧
    match x with
    | Ok _ => groupings e' = filter (λ g, fst (fst g) ≠ sub) (groupings e) ∧
        (links e = groupings e → links e' = groupings e')
    | Err _ => True
    end;
  BuildRoleLinks_law e x e' :
    BuildRoleLinks e = (x, e') → policies e' = policies e ∧ groupings e' = groupings e ∧
    (is_ok x = true → links e' = groupings e);
  Enforce_law sub dom obj act e b :
    Enforce sub dom obj act e = Ok b → b = true ↔ ∃ p, p ∈ policies e ∧ matches (links e) sub dom obj act p
}.

(** ** Subjects, domains, objects *)
Definition userSubject (userID : N) : string := "user:" +:+ pretty userID.
Definition roleSubject (code : string) : string := "role:" +:+ code.
Definition organizationDomain (id : N) : string := "org:" +:+ pretty id.
Definition organizationObject (id : N) : string := "/organizations/" +:+ pretty id.
Definition organizationMembersObject (id : N) : string := organizationObject id +:+ "/members".

Definition ErrForbidden : error := ESentinel "iam.ErrForbidden" "forbidden".
Definition ErrNotFound : error := ESentinel "iam.ErrNotFound" "not found".
Definition ErrInvalid : error := ESentinel "iam.ErrInvalid" "invalid request".
(** [fmt.Errorf] of a text after [%w], and before it. *)
Definition invalid (text : string) : error := EWrap "" ErrInvalid (": " +:+ text).
Definition during (text : string) (e : error) : error := EWrap (text +:+ ": ") e "".

(** ** Features *)
Definition FeatureAudit : string := "audit.read".
Definition FeatureOrganizations : string := "organizations.read".
Definition FeatureHomeAI : string := "ai.home.use".
Definition FeatureAccessAI : string := "ai.access.use".
Definition FeatureSettingsRead : string := "settings.global.read".
Definition FeatureSettingsWrite : string := "settings.global.update".
Definition FeaturePermissions : string := "permissions.manage".
Definition FeatureFilesRead : string := "webssh.files.read".
Definition FeatureFilesUpload : string := "webssh.files.upload".
Definition FeatureStorageUpload : string := "webs3.files.upload".
(** The codes of the catalog; the display names are left out. *)
Definition featureCatalog : list string :=
  [FeatureFilesRead; FeatureFilesUpload; FeatureStorageUpload; FeatureAudit; FeatureHomeAI; FeatureAccessAI;
   FeatureSettingsRead; FeatureSettingsWrite].
Definition allFeatures : list string := featureCatalog ++ [FeaturePermissions; FeatureOrganizations].
Definition featureObject (code : string) : string := "/features/" +:+ code.

(** ** The built-in permissions: code, resource, action, roles *)
Definition builtInPermissionSeeds : list (string * string * string * list string) :=
  [("settings.model.manage", "/settings/model", "(read|update|test)", [IAMRoleAdmin]);
   ("users.collection.manage", "/users", "(read|create)", [IAMRoleAdmin]);
   ("users.item.manage", "/users/:id", "(update|delete)", [IAMRoleAdmin]);
   ("users.password.reset", "/users/:id/password", "reset", [IAMRoleAdmin]);
   ("organizations.collection.manage", "/organizations", "(read|create)", [IAMRoleAdmin]);
   ("organizations.item.manage", "/organizations/:id", "(read|update|delete|create_child)", [IAMRoleAdmin]);
   ("organizations.members.manage", "/organizations/:id/members", "(read|write)", [IAMRoleAdmin]);
   ("resources.admin", "/resources/*", "(read|create|update|delete|use)", [IAMRoleAdmin]);
   ("organizations.collection.read", "/organizations", "read", [IAMRoleUser]);
   ("organizations.item.read", "/organizations/:id", "read", [IAMRoleUser]);
   ("organizations.members.read", "/organizations/:id/members", "read", [IAMRoleUser]);
   ("resources.own", "/resources/*", "(read|create|update|delete|use)", [IAMRoleUser])].

(** ** The service *)
Record IAMService (DB E : Type) := mkIAM { repo : DB; authorizer : E }.
Arguments mkIAM {DB E} _ _.
Arguments repo {DB E} _.
Arguments authorizer {DB E} _.

(** [for _, x := range l { if err := f(x); err != nil { return err } }] *)
Fixpoint for_each {S A} (f : A → Op S unit) (l : list A) : Op S unit :=
  match l with
  | [] => ret tt
  | x :: l' => f x ;; for_each f l'
  end.

(** The ancestor walk of [isOrganizationDescendant]: [hops] is the bound of its
    loop, [parents] the map it builds. *)
Fixpoint ancestor_walk (hops : nat) (parents : gmap N (option N)) (current ancestorID : N) : bool :=
  match hops with
  | O => false
  | S hops' =>
      match parents !! current with
      | Some (Some parent) => bool_decide (parent = ancestorID) || ancestor_walk hops' parents parent ancestorID
      | _ => false
      end
  end.
Definition parents_of (organizations : list Organization) : gmap N (option N) :=
  fold_left (λ (m : gmap N (option N)) o, <[o_ID o := o_ParentID o]> m) organizations ∅.
Definition isOrganizationDescendant (organizations : list Organization) (candidateID ancestorID : N) : bool :=
  ancestor_walk (length organizations) (parents_of organizations) candidateID ancestorID.

(** [strings.Trim(s, "/")] *)
Fixpoint trim_left (c : ascii) (s : string) : string :=
  match s with
  | String d s' => if bool_decide (d = c) then trim_left c s' else s
  | EmptyString => EmptyString
  end.
Definition trim_slashes (s : string) : string := rev_string (trim_left "/"%char (rev_string (trim_left "/"%char s))).
(** The part before the first [@]. *)
Fixpoint before_at (s : string) : string :=
  match s with
  | String c s' => if bool_decide (c = "@"%char) then EmptyString else String c (before_at s')
  | EmptyString => EmptyString
  end.
Definition accountName (email : string) : string :=
  let name := before_at (TrimSpace email) in if bool_decide (name = "") then "user" else name.

Module IAM.
Section Service.
Context {DB E : Type} {i_gorm : IamGorm DB} {i_enforcer : Enforcer E}.
Abbreviation St := (IAMService DB E).

Definition on_repo {A} (m : Op DB A) : Op St A := λ s,
  let '(x, d) := m (repo s) in (x, mkIAM d (authorizer s)).
Definition on_authorizer {A} (m : Op E A) : Op St A := λ s,
  let '(x, e) := m (authorizer s) in (x, mkIAM (repo s) e).
(** [tx := repo.Begin()], the calls of [body] on it with a rollback before
    every early return, and the commit. *)
Definition in_tx {A} (wrap : error → error) (body : Op DB A) : Op DB A := λ s,
  match body (Begin s) with
  | (Ok a, s') => (map_err wrap Commit ;; ret a) s'
  | (Err e, s') => (Err e, Rollback s')
  end.

(** *** authorization.go *)
Definition enforce (userID : N) (domain object action : string) : Op St bool := λ s,
  (match Enforce (userSubject userID) domain object action (authorizer s) with
   | Ok b => Ok b
   | Err e => Err (during "enforce casbin policy" e)
   end, s).
Definition addPermission (role resource action : string) : Op E unit :=
  map_err (during "load role permission") (AddPolicy (roleSubject role) globalDomain resource action).
Definition addBinding (userID : N) (role domain : string) : Op E unit :=
  map_err (during "load role binding") (AddGroupingPolicy (userSubject userID) (roleSubject role) domain).
Definition rebuildRoleLinks : Op E unit := map_err (during "rebuild casbin role links") BuildRoleLinks.
Definition removeUser (userID : N) : Op E unit :=
  map_err (during "remove user role bindings") (RemoveFilteredGroupingPolicy (userSubject userID)).

(** *** The catalog *)
Definition bind_seed (code resource action : string) (roleCodes : list string) : Op DB unit :=
  map_err (during ("seed IAM permission " +:+ code)) (Repo.UpsertIAMPermission (mkIAMPermission 0 code resource action)) ;;
  let! storedPermission := Repo.GetIAMPermissionByCode code in
  for_each (λ roleCode,
    let! role := Repo.GetIAMRoleByCode roleCode in
    match role, storedPermission with
    | Some role, Some permission =>
        map_err (during ("bind IAM permission " +:+ code))
          (Repo.UpsertIAMRolePermission (mkIAMRolePermission 0 (ro_ID role) (pe_ID permission)))
    | _, _ => throw (ENew "seed IAM catalog: role or permission missing")
    end) roleCodes.
(** The two built-in roles; [admin_text] and [user_text] are their names and
    descriptions. *)
Definition ensureIAMCatalog (admin_text user_text : string * string) : Op St unit :=
  on_repo (
    for_each (λ r, map_err (during ("seed IAM role " +:+ ro_Code r)) (Repo.UpsertIAMRole r))
      [mkIAMRole 0 IAMRoleAdmin (fst admin_text) (snd admin_text) true;
       mkIAMRole 0 IAMRoleUser (fst user_text) (snd user_text) true] ;;
    for_each (λ '(code, resource, action, roles), bind_seed code resource action roles) builtInPermissionSeeds).
(** The permission just stored is read back; a missing one would panic. *)
Definition ensureFeatureCatalog : Op St unit :=
  on_repo (
    let! admin := Repo.GetIAMRoleByCode IAMRoleAdmin in
    match admin with
    | None => throw ErrForbidden
    | Some admin =>
        for_each (λ feature,
          Repo.UpsertIAMPermission (mkIAMPermission 0 feature (featureObject feature) "use") ;;
          let! stored := Repo.GetIAMPermissionByCode feature in
          match stored with
          | Some stored => Repo.UpsertIAMRolePermission (mkIAMRolePermission 0 (ro_ID admin) (pe_ID stored))
          | None => throw (ENew "nil pointer dereference")
          end) allFeatures
    end).

(** *** reloadAuthorization *)
Definition load_role (role : IAMRole) : Op St unit :=
  let! permissions := on_repo (map_err (during ("list permissions for role " +:+ ro_Code role))
    (Repo.ListIAMPermissionsByRole (ro_ID role))) in
  for_each (λ p, on_authorizer (addPermission (ro_Code role) (pe_Resource p) (pe_Action p))) permissions.
Definition load_inherited (organizations : list Organization) (b : IAMRoleBinding) (role : IAMRole) (o : Organization) : Op St unit :=
  if negb (bool_decide (o_ID o = b_OrganizationID b)) && isOrganizationDescendant organizations (o_ID o) (b_OrganizationID b)
  then on_authorizer (addBinding (b_UserID b) (ro_Code role) (organizationDomain (o_ID o)))
  else ret tt.
Definition load_binding (organizations : list Organization) (b : IAMRoleBinding) : Op St unit :=
  match b_Role b with
  | None => throw (ENew ("role binding " +:+ pretty (b_ID b) +:+ " has no role"))
  | Some role =>
      on_authorizer (addBinding (b_UserID b) (ro_Code role) (organizationDomain (b_OrganizationID b))) ;;
      (match b_Organization b with
       | Some o => if o_IsRoot o then on_authorizer (addBinding (b_UserID b) (ro_Code role) globalDomain) else ret tt
       | None => ret tt
       end) ;;
      if b_InheritChildren b then for_each (load_inherited organizations b role) organizations else ret tt
  end.
Definition reloadAuthorization : Op St unit :=
  on_authorizer (modify ClearPolicy) ;;
  let! roles := on_repo (map_err (during "list roles for authorization") Repo.ListIAMRoles) in
  for_each load_role roles ;;
  let! bindings := on_repo (map_err (during "list role bindings for authorization") Repo.ListIAMRoleBindings) in
  let! organizations := on_repo (map_err (during "list organizations for authorization") Repo.ListOrganizations) in
  for_each (load_binding organizations) bindings ;;
  on_authorizer rebuildRoleLinks.

(** *** Permission checks *)
Definition hasPermission (actor : option User) (domain object action : string) : Op St bool :=
  match actor with
  | None => ret false
  | Some actor => enforce (u_ID actor) domain object action
  end.

(** [RequireFeature] without its own first call of itself. *)
Definition require_feature (actor : option User) (code : string) : Op St unit :=
  let! root := on_repo Repo.GetRootOrganization in
  match root, actor with
  | Some root, Some user =>
      throw_if bool_decide (u_ID user = 0%N) with ErrForbidden ;;
      let! allowed := hasPermission actor (organizationDomain (o_ID root)) (featureObject code) "use" in
      if (allowed : bool) then ret tt else
      throw_if bool_decide (code = FeaturePermissions) with ErrForbidden ;;
      let! bindings := on_repo (Repo.ListIAMRoleBindingsByUser (u_ID user)) in
      throw_if bool_decide (bindings = []) with ErrForbidden ;;
      let! allowed := (λ s, (Enforce (roleSubject IAMRoleUser) (organizationDomain (o_ID root)) (featureObject code) "use"
        (authorizer s), s)) in
      if (allowed : bool) then ret tt else throw ErrForbidden
  | _, _ => throw ErrForbidden
  end.
Definition RequireFeature (actor : option User) (code : string) : Op St unit :=
  (if bool_decide (code = FeatureOrganizations) then require_feature actor FeaturePermissions else ret tt) ;;
  require_feature actor code.

Definition requirePermission (actor : option User) (domain object action : string) : Op St unit :=
  (if String.prefix "/organizations" object && bool_decide (action = "read")
   then RequireFeature actor FeatureOrganizations else ret tt) ;;
  match actor with
  | None => throw ErrForbidden
  | Some user =>
      let! allowed := enforce (u_ID user) domain object action in
      if (allowed : bool) then ret tt else throw ErrForbidden
  end.

Definition requireResourceFeature (actor : option User) (resource : string) : Op St unit :=
  if bool_decide (resource = "logs") then RequireFeature actor FeatureAudit
  else if bool_decide (resource = "agent_sessions") then RequireFeature actor FeatureAccessAI
  else if bool_decide (resource = "management_agent_sessions") then RequireFeature actor FeatureHomeAI
  else ret tt.
Definition RequireModelSettingsPermission (actor : option User) (action : string) : Op St unit :=
  if bool_decide (action = "read") then RequireFeature actor FeatureSettingsRead
  else if bool_decide (action = "update") || bool_decide (action = "test") then RequireFeature actor FeatureSettingsWrite
  else throw ErrForbidden.

(** The loop over the bindings of the actor: the first domain that allows. *)
Fixpoint any_binding (actor : User) (object action : string) (bindings : list IAMRoleBinding) : Op St unit :=
  match bindings with
  | [] => throw ErrForbidden
  | b :: bindings' =>
      let! allowed := hasPermission (Some actor) (organizationDomain (b_OrganizationID b)) object action in
      if (allowed : bool) then ret tt else any_binding actor object action bindings'
  end.
Definition RequireResourcePermission (actor : option User) (resource action : string) : Op St unit :=
  requireResourceFeature actor resource ;;
  let resource := trim_slashes (TrimSpace resource) in
  throw_if bool_decide (resource = "") with invalid "resource type is required" ;;
  match actor with
  | None => throw ErrForbidden
  | Some user =>
      let! bindings := on_repo (Repo.ListIAMRoleBindingsByUser (u_ID user)) in
      any_binding user ("/resources/" +:+ resource) action bindings
  end.
Definition RequireOrganizationResourcePermission (actor : option User) (organizationID : N) (resource action : string) : Op St unit :=
  requireResourceFeature actor resource ;;
  let resource := trim_slashes (TrimSpace resource) in
  throw_if bool_decide (organizationID = 0%N) || bool_decide (resource = "")
    with invalid "organization and resource type are required" ;;
  requirePermission actor (organizationDomain organizationID) ("/resources/" +:+ resource) action.

(** *** Features *)
Fixpoint effective_features (actor : option User) (codes : list string) (result : gmap string bool) : Op St (gmap string bool) :=
  match codes with
  | [] => ret result
  | code :: codes' => λ s,
      match RequireFeature actor code s with
      | (Ok _, s') => effective_features actor codes' (<[code := true]> result) s'
      | (Err e, s') =>
          match e with
          | ESentinel name _ => if bool_decide (name = "iam.ErrForbidden")
                                then effective_features actor codes' (<[code := false]> result) s' else (Err e, s')
          | _ => (Err e, s')
          end
      end
  end.
Definition EffectiveFeatures (actor : option User) : Op St (gmap string bool) := effective_features actor allFeatures ∅.

(** The codes enabled, in the order of the catalog. *)
Definition UserFeaturePolicy (actor : option User) : Op St (list string) :=
  RequireFeature actor FeaturePermissions ;;
  let! role := on_repo (Repo.GetIAMRoleByCode IAMRoleUser) in
  let! role := of_option role ErrForbidden in
  let! permissions := on_repo (Repo.ListIAMPermissionsByRole (ro_ID role)) in
  ret (mjoin (map (λ f, map (λ _, f) (List.filter (λ p, bool_decide (pe_Code p = f)) permissions)) featureCatalog)).

(** The numbers of all catalog permissions and of the selected ones. *)
Fixpoint catalog_ids (selected : list string) (codes : list string) : Op DB (list N * list N) :=
  match codes with
  | [] => ret ([], [])
  | f :: codes' =>
      let! p := Repo.GetIAMPermissionByCode f in
      let! p := of_option p ErrInvalid in
      let! '(all, grants) := catalog_ids selected codes' in
      ret (pe_ID p :: all, if bool_decide (f ∈ selected) then pe_ID p :: grants else grants)
  end.
Definition SetUserFeaturePolicy (actor : option User) (enabled : list string) : Op St unit :=
  RequireFeature actor FeaturePermissions ;;
  throw_if negb (forallb (λ code, bool_decide (code ∈ featureCatalog)) enabled) with invalid "unknown feature" ;;
  throw_if bool_decide (FeatureSettingsWrite ∈ enabled) && negb (bool_decide (FeatureSettingsRead ∈ enabled))
    with invalid "modifying settings requires read permission" ;;
  throw_if bool_decide (FeatureFilesUpload ∈ enabled) && negb (bool_decide (FeatureFilesRead ∈ enabled))
    with invalid "file upload requires file browsing permission" ;;
  let! role := on_repo (Repo.GetIAMRoleByCode IAMRoleUser) in
  let! role := of_option role ErrForbidden in
  let! '(all, grants) := on_repo (catalog_ids enabled featureCatalog) in
  on_repo (Repo.ReplaceIAMRolePermissionSubset (ro_ID role) all grants) ;;
  reloadAuthorization.

(** *** Role bindings *)
Definition setOrganizationRole (organizationID userID : N) (roleCode : string) (inheritChildren : bool) : Op St unit :=
  throw_if negb (IsValidIAMRoleCode roleCode) with invalid "invalid role" ;;
  let! role := on_repo (Repo.GetIAMRoleByCode roleCode) in
  let! role := of_option role (EWrap "" ErrNotFound ": role not found") in
  on_repo (in_tx (during "commit role binding") (
    map_err (during "save organization membership")
      (Repo.UpsertOrganizationMembership (mkOrgMembership 0 organizationID userID "")) ;;
    map_err (during "replace role binding") (Repo.DeleteIAMRoleBinding organizationID userID) ;;
    map_err (during "save role binding")
      (Repo.UpsertIAMRoleBinding (mkIAMRoleBinding 0 userID (ro_ID role) organizationID inheritChildren None None)))) ;;
  reloadAuthorization.

(** The role code of every member, from its binding. *)
Fixpoint with_roles (organizationID : N) (members : list OrganizationMembership) : Op DB (list OrganizationMembership) :=
  match members with
  | [] => ret []
  | m :: members' =>
      let! binding := Repo.GetIAMRoleBinding organizationID (m_UserID m) in
      let m' := match binding with
                | Some b => match b_Role b with Some role => m<| m_Role := ro_Code role |> | None => m end
                | None => m
                end in
      let! l := with_roles organizationID members' in ret (m' :: l)
  end.
Definition listOrganizationMembersWithRoles (organizationID : N) : Op St (list OrganizationMembership) :=
  on_repo (let! members := Repo.ListOrganizationMembers organizationID in with_roles organizationID members).
Definition count_admins (members : list OrganizationMembership) : nat :=
  length (List.filter (λ m, bool_decide (m_Role m = IAMRoleAdmin)) members).
Definition last_admin : error := invalid "organization must keep at least one administrator".
Definition is_admin (b : IAMRoleBinding) : bool :=
  match b_Role b with Some role => bool_decide (ro_Code role = IAMRoleAdmin) | None => false end.

Definition ListOrganizationMembersFor (actor : option User) (organizationID : N) : Op St (list OrganizationMembership) :=
  requirePermission actor (organizationDomain organizationID) (organizationMembersObject organizationID) "read" ;;
  listOrganizationMembersWithRoles organizationID.
Definition UpsertOrganizationMemberFor (actor : option User) (organizationID userID : N) (role : string)
    : Op St (option OrganizationMembership) :=
  requirePermission actor (organizationDomain organizationID) (organizationMembersObject organizationID) "write" ;;
  throw_if negb (IsValidIAMRoleCode role) with invalid "invalid organization role" ;;
  let! org := on_repo (Repo.GetOrganizationByID organizationID) in
  throw_if bool_decide (org = None) with ErrNotFound ;;
  let! user := on_repo (Repo.GetUserByID userID) in
  throw_if bool_decide (user = None) with invalid "user not found" ;;
  let! current := on_repo (Repo.GetIAMRoleBinding organizationID userID) in
  (if (match current with Some b => is_admin b | None => false end) && negb (bool_decide (role = IAMRoleAdmin))
   then let! members := listOrganizationMembersWithRoles organizationID in
        throw_if Nat.leb (count_admins members) 1 with last_admin ;; ret tt
   else ret tt) ;;
  setOrganizationRole organizationID userID role (bool_decide (role = IAMRoleAdmin)) ;;
  let! membership := on_repo (Repo.GetOrganizationMembership organizationID userID) in
  ret (match membership with Some m => Some (m<| m_Role := role |>) | None => None end).
Definition RemoveOrganizationMemberFor (actor : option User) (organizationID userID : N) : Op St unit :=
  requirePermission actor (organizationDomain organizationID) (organizationMembersObject organizationID) "write" ;;
  let! members := listOrganizationMembersWithRoles organizationID in
  let admins := count_admins members in
  let! current := on_repo (Repo.GetIAMRoleBinding organizationID userID) in
  let! current := of_option current ErrNotFound in
  throw_if is_admin current && Nat.leb admins 1 with last_admin ;;
  on_repo (in_tx (λ e, e) (
    Repo.DeleteIAMRoleBinding organizationID userID ;;
    Repo.DeleteOrganizationMembership organizationID userID)) ;;
  reloadAuthorization.

(** *** Users

    [ToLower] is strings.ToLower; [IDKey], [Version] as in [Password]; [salt]
    and [random] what reading random bytes gives in a state. *)
Section Users.
Context (ToLower : string → string) (IDKey : string → string → N → N → N → N → string) (Version : N).
Context (salt : St → Result string) (random : nat → St → Result string).

Definition ListUsersFor (actor : option User) : Op St (list User * N) :=
  requirePermission actor globalDomain "/users" "read" ;;
  on_repo (Repo.ListUsers 0 100000).

Definition hash_password (password : string) : Op St string := λ s,
  (match Password.HashPassword IDKey Version (salt s) password with
   | Ok h => Ok h
   | Err e => Err (during "hash password" e)
   end, s).
Definition CreateUserFor (actor : option User) (organizationID : N) (name email password roleCode : string) : Op St (User * string) :=
  requirePermission actor globalDomain "/users" "create" ;;
  throw_if bool_decide (organizationID = 0%N) with invalid "organization is required" ;;
  let! organization := on_repo (Repo.GetOrganizationByID organizationID) in
  let! organization := of_option organization (invalid "organization not found") in
  requirePermission actor (organizationDomain organizationID) (organizationObject organizationID) "update" ;;
  let name := TrimSpace name in
  let email := ToLower (TrimSpace email) in
  throw_if bool_decide (email = "") || negb (contains_char "@"%char email) with invalid "valid email required" ;;
  let! taken := on_repo (Repo.CheckUserExists email) in
  throw_if taken with invalid "email already exists" ;;
  let roleCode := if bool_decide (roleCode = "") then IAMRoleUser else roleCode in
  throw_if negb (IsValidIAMRoleCode roleCode) with invalid "invalid role" ;;
  let! '(password, generated) := (λ s,
    if bool_decide (password = "")
    then match Password.GenerateRandomPassword (random 16 s) with
         | Ok g => (Ok (g, g), s)
         | Err e => (Err (during "generate password" e), s)
         end
    else (Ok (password, ""), s)) in
  throw_if Nat.ltb (String.length password) 8 with invalid "password must contain at least 8 characters" ;;
  let! hash := hash_password password in
  let name := if bool_decide (name = "") then accountName email else name in
  let! user := on_repo (map_err (during "create user")
    (Repo.CreateUser (mkUserRow 0 name email hash UserStatusActive None ""))) in
  setOrganizationRole (o_ID organization) (u_ID user) roleCode (bool_decide (roleCode = IAMRoleAdmin)) ;;
  ret (user, generated).

(** [id] in an object: [fmt.Sprint]. *)
Definition userObject (id : N) : string := "/users/" +:+ pretty id.
Definition valid_status (status : string) : bool :=
  bool_decide (status = UserStatusActive) || bool_decide (status = UserStatusInactive) || bool_decide (status = UserStatusLocked).
Definition UpdateUserFor (actor : option User) (id : N) (name status : string) (roleCode : option string) : Op St User :=
  requirePermission actor globalDomain (userObject id) "update" ;;
  let! user := on_repo (Repo.GetUserByID id) in
  let! user := of_option user ErrNotFound in
  let user := if bool_decide (TrimSpace name = "") then user else user<| u_Name := TrimSpace name |> in
  throw_if negb (bool_decide (status = "")) && negb (valid_status status) with invalid "invalid status" ;;
  let user := if bool_decide (status = "") then user else user<| u_Status := status |> in
  (match roleCode with
   | Some role =>
       throw_if negb (IsValidIAMRoleCode role) with invalid "invalid role" ;;
       throw_if bool_decide (u_ID <$> actor = Some id) && negb (bool_decide (role = IAMRoleAdmin))
         with invalid "cannot remove your own administrator role" ;; ret tt
   | None => ret tt
   end) ;;
  on_repo (map_err (during "update user") (Repo.UpdateUser user)) ;;
  match roleCode with
  | Some role =>
      let! root := on_repo Repo.GetRootOrganization in
      let! root := of_option root ErrNotFound in
      setOrganizationRole (o_ID root) (u_ID user) role (bool_decide (role = IAMRoleAdmin)) ;; ret user
  | None => ret user
  end.

(** The first admin binding decides; a user role is kept as found. *)
Fixpoint strongest_role (bindings : list IAMRoleBinding) (role : string) : string :=
  match bindings with
  | [] => role
  | b :: bindings' =>
      match b_Role b with
      | None => strongest_role bindings' role
      | Some r =>
          if bool_decide (ro_Code r = IAMRoleAdmin) then IAMRoleAdmin
          else strongest_role bindings' (if bool_decide (ro_Code r = IAMRoleUser) then IAMRoleUser else role)
      end
  end.
Definition UserRole (userID : N) : Op St string :=
  let! bindings := on_repo (Repo.ListIAMRoleBindingsByUser userID) in
  let role := strongest_role bindings "" in
  throw_if bool_decide (role = "") with ErrNotFound ;; ret role.

Definition ResetUserPasswordFor (actor : option User) (id : N) (password : string) : Op St unit :=
  requirePermission actor globalDomain (userObject id +:+ "/password") "reset" ;;
  throw_if Nat.ltb (String.length password) 8 with invalid "password must contain at least 8 characters" ;;
  let! user := on_repo (Repo.GetUserByID id) in
  let! user := of_option user ErrNotFound in
  let! hash := hash_password password in
  on_repo (Repo.UpdateUser (user<| u_Password := hash |>)).

Definition DeleteUserFor (actor : option User) (id : N) : Op St unit :=
  requirePermission actor globalDomain (userObject id) "delete" ;;
  throw_if bool_decide (u_ID <$> actor = Some id) with invalid "cannot delete your own account" ;;
  let! user := on_repo (Repo.GetUserByID id) in
  let! _ := of_option user ErrNotFound in
  on_repo (in_tx (λ e, e) (
    map_err (during "delete role bindings") (Repo.DeleteIAMRoleBindingsByUser id) ;;
    map_err (during "delete memberships") (Repo.DeleteOrganizationMembershipsByUser id) ;;
    map_err (during "delete user") (Repo.DeleteUser id))) ;;
  on_authorizer (removeUser id).
End Users.

(** *** Organizations *)
Definition ListOrganizationsFor (actor : option User) : Op St (list Organization) :=
  requirePermission actor globalDomain "/organizations" "read" ;; on_repo Repo.ListOrganizations.
Definition CanManageOrganization (actor : option User) (organizationID : N) : Op St bool :=
  hasPermission actor (organizationDomain organizationID) (organizationObject organizationID) "update".
Definition CanDeleteOrganization (actor : option User) (organizationID : N) : Op St bool :=
  hasPermission actor (organizationDomain organizationID) (organizationObject organizationID) "delete".

Definition CreateOrganizationFor (actor : option User) (name description : string) (parentID : option N) : Op St Organization :=
  let name := TrimSpace name in
  throw_if bool_decide (name = "") || Nat.ltb 128 (String.length name)
    with invalid "organization name is required and must be at most 128 characters" ;;
  let! parentID := (match parentID with
                    | Some p => ret (Some p)
                    | None => let! root := on_repo Repo.GetRootOrganization in
                              ret (match root with Some root => Some (o_ID root) | None => None end)
                    end) in
  (match parentID with
   | Some p =>
       let! parent := on_repo (Repo.GetOrganizationByID p) in
       let! _ := of_option parent (invalid "parent organization not found") in
       requirePermission actor (organizationDomain p) (organizationObject p) "create_child"
   | None => requirePermission actor globalDomain "/organizations" "create"
   end) ;;
  let org := mkOrganization 0 name (TrimSpace description) parentID false in
  let! org := on_repo (in_tx (during "commit organization creation")
    (map_err (during "create organization") (Repo.CreateOrganization org))) in
  match actor with
  | Some user => setOrganizationRole (o_ID org) (u_ID user) IAMRoleAdmin true ;; ret org
  | None => ret org
  end.

(** The walk from the new parent to the top, at most 1024 organizations. *)
Fixpoint check_ancestors (hops : nat) (id cursor : N) : Op DB unit :=
  match hops with
  | O => ret tt
  | S hops' =>
      let! ancestor := Repo.GetOrganizationByID cursor in
      let! ancestor := of_option ancestor (invalid "parent organization not found") in
      throw_if bool_decide (o_ID ancestor = id) with invalid "organization hierarchy cycle" ;;
      match o_ParentID ancestor with
      | None => ret tt
      | Some parent => check_ancestors hops' id parent
      end
  end.
Definition max_hops : nat := 1024.
Definition UpdateOrganizationFor (actor : option User) (id : N) (name description : string) (parentID : option N) (setParent : bool)
    : Op St Organization :=
  requirePermission actor (organizationDomain id) (organizationObject id) "update" ;;
  let! org := on_repo (Repo.GetOrganizationByID id) in
  let! org := of_option org ErrNotFound in
  throw_if o_IsRoot org && negb (bool_decide (TrimSpace name = "")) && negb (bool_decide (TrimSpace name = o_Name org))
    with invalid "default organization cannot be renamed" ;;
  let org := if bool_decide (TrimSpace name = "") then org else org<| o_Name := TrimSpace name |> in
  let org := org<| o_Description := TrimSpace description |> in
  let! org := (if setParent then
    throw_if o_IsRoot org && negb (bool_decide (parentID = None)) with invalid "root organization cannot be moved" ;;
    (match parentID with
     | Some p =>
         throw_if bool_decide (p = id) with invalid "organization cannot be its own parent" ;;
         requirePermission actor (organizationDomain p) (organizationObject p) "create_child" ;;
         on_repo (check_ancestors max_hops id p)
     | None => ret tt
     end) ;;
    ret (org<| o_ParentID := parentID |>)
  else ret org) in
  on_repo (map_err (during "update organization") (Repo.UpdateOrganization org)) ;;
  ret org.

Definition DeleteOrganizationFor (actor : option User) (id : N) : Op St unit :=
  requirePermission actor (organizationDomain id) (organizationObject id) "delete" ;;
  let! org := on_repo (Repo.GetOrganizationByID id) in
  let! org := of_option org ErrNotFound in
  throw_if o_IsRoot org with invalid "default organization cannot be deleted" ;;
  let! count := on_repo (Repo.CountOrganizationChildren id) in
  throw_if N.ltb 0 count with invalid "move child organizations first" ;;
  on_repo (in_tx (λ e, e) (
    Repo.DeleteIAMRoleBindingsByOrganization id ;;
    Repo.DeleteOrganizationMembershipsByOrganization id ;;
    Repo.DeleteOrganization id)) ;;
  reloadAuthorization.

Definition UpsertOrganizationMemberByEmailFor (ToLower : string → string) (actor : option User) (organizationID : N)
    (email role : string) : Op St (option OrganizationMembership) :=
  let! user := on_repo (Repo.GetUserByEmail (ToLower (TrimSpace email))) in
  let! user := of_option user (invalid "user not found") in
  UpsertOrganizationMemberFor actor organizationID (u_ID user) role.

(** *** Start-up *)
(** One account of the bootstrap: its membership of the root organization and,
    if it has none, its role there. *)
Definition bootstrap_user (root : Organization) (user : User) (roleCode : string) : Op DB unit :=
  let! membership := map_err (during "get bootstrap membership") (Repo.GetOrganizationMembership (o_ID root) (u_ID user)) in
  (match membership with
   | None => map_err (during "create bootstrap membership")
       (Repo.UpsertOrganizationMembership (mkOrgMembership 0 (o_ID root) (u_ID user) ""))
   | Some _ => ret tt
   end) ;;
  let! binding := map_err (during "get bootstrap role binding") (Repo.GetIAMRoleBinding (o_ID root) (u_ID user)) in
  match binding with
  | Some _ => ret tt
  | None =>
      let! role := Repo.GetIAMRoleByCode roleCode in
      let! role := of_option role (ENew ("bootstrap role " +:+ roleCode +:+ " not found")) in
      map_err (during "create bootstrap role binding")
        (Repo.UpsertIAMRoleBinding (mkIAMRoleBinding 0 (u_ID user) (ro_ID role) (o_ID root) (bool_decide (roleCode = IAMRoleAdmin)) None None))
  end.
Definition EnsureOrganizationBootstrap (root_description : string) : Op St unit :=
  let! '(us, _) := on_repo (map_err (during "list users for organization bootstrap") (Repo.ListUsers 0 100000)) in
  if bool_decide (us = []) then ret tt else
  let us := sort_Slice (λ x y, N.ltb (u_ID x) (u_ID y)) us in
  let! root := on_repo (map_err (during "get default organization") Repo.GetRootOrganization) in
  let! root := (match root with
                | Some root => ret root
                | None => on_repo (map_err (during "create default organization")
                    (Repo.CreateOrganization (mkOrganization 0 DefaultOrganizationName root_description None true)))
                end) in
  on_repo (match us with
           | [] => ret tt
           | first :: others =>
               bootstrap_user root first IAMRoleAdmin ;; for_each (λ u, bootstrap_user root u IAMRoleUser) others
           end) ;;
  reloadAuthorization.
Definition NewIAMService (admin_text user_text : string * string) : Op St unit :=
  ensureIAMCatalog admin_text user_text ;; ensureFeatureCatalog ;; reloadAuthorization.

End Service.
End IAM.
