(* ===== verification/IamAuthorization.v ===== *)
(** * manager/iam: what the enforcer knows

    The hierarchy walk against the transitive closure of the parent relation;
    [reloadAuthorization] against what the tables say; permission checks. *)

From S2P Require Import Prelude ToolTypes Password IamDao Iam.
Import IAM.

(** ** Lists of rows *)
Lemma elem_of_all_rows {Row} (m : gmap N Row) r : r ∈ all_rows m ↔ ∃ k, m !! k = Some r.
Proof.
  unfold all_rows. rewrite list_elem_of_fmap. split.
  - intros ([k r'] & -> & H%elem_of_map_to_list). by exists k.
  - intros [k H]. exists (k, r). split; [done|]. by apply elem_of_map_to_list.
Qed.
Lemma visible_row_Some {Row} (m : stored Row) k r : visible m !! k = Some r ↔ m !! k = Some (r, false).
Proof.
  unfold visible. rewrite lookup_omap_Some. split.
  - intros ([r' []] & H & E); simplify_eq/=; done.
  - intros H. by exists (r, false).
Qed.

(** ** The hierarchy walk *)
Section Hierarchy.
Context (parents : gmap N (option N)).

Definition parent_step (x y : N) : Prop := parents !! x = Some (Some y).
Definition next (x : N) : option N := match parents !! x with Some o => o | None => None end.

Lemma next_step x y : next x = Some y ↔ parent_step x y.
Proof. unfold next, parent_step. destruct (parents !! x) as [[]|]; naive_solver. Qed.

(** The walk finds what it is looking for within its hops. *)
Lemma ancestor_walk_spec hops c a :
  ancestor_walk hops parents c a = true ↔ ∃ n, n < hops ∧ nsteps parent_step (S n) c a.
Proof.
  revert c. induction hops as [|hops IH]; intros c; cbn [ancestor_walk].
  { split; [done|]. intros (n & ? & _). lia. }
  destruct (parents !! c) as [[p|]|] eqn:Hc.
  - rewrite orb_true_iff, bool_decide_eq_true, IH. split.
    + intros [->|(n & Hn & Hs)]; [exists 0; split; [lia|by apply nsteps_once]|].
      exists (S n). split; [lia|]. by apply nsteps_l with p.
    + intros (n & Hn & Hs). inversion Hs as [|? ? y ? Hy Hrest]; subst. unfold parent_step in Hy. simplify_eq.
      destruct n as [|n]; [left; by inversion Hrest|right; exists n; split; [lia|done]].
  - split; [done|]. intros (n & _ & Hs). inversion Hs as [|? ? y ? Hy _]; subst. unfold parent_step in Hy. congruence.
  - split; [done|]. intros (n & _ & Hs). inversion Hs as [|? ? y ? Hy _]; subst. unfold parent_step in Hy. congruence.
Qed.

(** The organizations met on a path, the last one left out. *)
Inductive trail : list N → N → N → Prop :=
| trail_nil x : trail [] x x
| trail_cons x y z l : parent_step x y → trail l y z → trail (x :: l) x z.

Lemma nsteps_trail n x y : nsteps parent_step n x y ↔ ∃ l, length l = n ∧ trail l x y.
Proof.
  split.
  - induction 1 as [x|n x y z Hxy _ (l & <- & Hl)]; [exists []; by split; [|constructor]|].
    exists (x :: l). split; [done|]. by econstructor.
  - intros (l & <- & Hl). induction Hl as [x|x y z l Hxy _ IH]; [constructor|]. by apply nsteps_l with y.
Qed.

Lemma trail_suffix l1 x l2 a b : trail (l1 ++ x :: l2) a b → trail (x :: l2) x b.
Proof.
  revert a. induction l1 as [|y l1 IH]; intros a H; inversion H; subst; [|by eapply IH].
  by econstructor.
Qed.
Lemma trail_known l a b x : trail l a b → x ∈ l → x ∈ dom parents.
Proof.
  induction 1 as [|x' y z l H _ IH]; [by intros ?%elem_of_nil|]. intros [->|Hx]%elem_of_cons; [|by apply IH].
  apply elem_of_dom. unfold parent_step in H. by rewrite H.
Qed.
Lemma trail_first l a b : trail l a b → l ≠ [] → head l = Some a.
Proof. by destruct 1. Qed.

(** Some path to the same end visits no organization twice. *)
Lemma trail_shorten l a b : trail l a b → l ≠ [] → ∃ l', trail l' a b ∧ l' ≠ [] ∧ NoDup l'.
Proof.
  remember (length l) as n eqn:Hn. revert l a Hn. induction (lt_wf n) as [n _ IH]. intros l a -> H Hne.
  destruct H as [x|x y z l Hxy Hl]; [done|].
  destruct (decide (l = [])) as [->|Hl0].
  { exists [x]. inversion Hl; subst. split_and!; [by repeat econstructor|done|apply NoDup_singleton]. }
  destruct (IH (length l) ltac:(simpl; lia) l y eq_refl Hl Hl0) as (l' & Hl' & Hne' & Hnd).
  destruct (decide (x ∈ l')) as [Hx|Hx].
  - apply list_elem_of_split in Hx as (l1 & l2 & ->). exists (x :: l2). split_and!; [by eapply trail_suffix|done|].
    by apply NoDup_app in Hnd as (_ & _ & ?).
  - exists (x :: l'). split_and!; [by econstructor|done|by apply NoDup_cons].
Qed.
End Hierarchy.

(** The map the walk uses. *)
Lemma parents_of_lookup (l : list Organization) k p :
  NoDup (map o_ID l) → (parents_of l !! k = Some p) ↔ ∃ o, o ∈ l ∧ o_ID o = k ∧ o_ParentID o = p.
Proof.
  assert (∀ m : gmap N (option N), NoDup (map o_ID l) → ((fold_left (λ (m : gmap N (option N)) o, <[o_ID o := o_ParentID o]> m) l m) !! k = Some p) ↔
    (∃ o, o ∈ l ∧ o_ID o = k ∧ o_ParentID o = p) ∨ (k ∉ map o_ID l ∧ (m !! k = Some p))) as H.
  { induction l as [|o l IH]; intros m Hnd; cbn [fold_left map] in *.
    { split; [intros ?; right; split; [apply not_elem_of_nil|done]|].
      intros [(o & ?%elem_of_nil & _)|[_ ?]]; done. }
    apply NoDup_cons in Hnd as [Ho Hnd]. rewrite IH by done. split.
    - intros [(o' & ? & ? & ?)|[Hk Hm]]; [left; exists o'; split_and!; [by right|done..]|].
      destruct (decide (o_ID o = k)) as [<-|Hne].
      + rewrite lookup_insert_eq in Hm. simplify_eq. left. exists o. split_and!; [by left|done..].
      + rewrite lookup_insert_ne in Hm by done. right. split; [|done]. by intros [?|?]%elem_of_cons.
    - intros [(o' & [->|Hin]%elem_of_cons & Hk & Hp)|[Hk Hm]].
      + right. subst k. split; [done|]. rewrite lookup_insert_eq. by f_equal.
      + left. by exists o'.
      + right. apply not_elem_of_cons in Hk as [Hne Hk]. split; [done|]. by rewrite lookup_insert_ne. }
  intros Hnd. unfold parents_of. rewrite H by done. rewrite lookup_empty. split; [intros [?|[_ [=]]]; done|by left].
Qed.

Definition child_of (l : list Organization) (x y : N) : Prop := ∃ o, o ∈ l ∧ o_ID o = x ∧ o_ParentID o = Some y.

Lemma walk_is_closure organizations candidate ancestor :
  NoDup (map o_ID organizations) →
  isOrganizationDescendant organizations candidate ancestor = true ↔ tc (child_of organizations) candidate ancestor.
Proof.
  intros Hnd. unfold isOrganizationDescendant.
  assert (∀ x y, parent_step (parents_of organizations) x y ↔ child_of organizations x y) as Hstep.
  { intros x y. unfold parent_step, child_of. by apply parents_of_lookup. }
  rewrite ancestor_walk_spec, tc_nsteps. split.
  - intros (n & _ & Hs). exists (S n). split; [lia|]. revert Hs. apply (nsteps_congruence (λ x, x)). intros x y. apply Hstep.
  - intros (n & Hn & Hs). apply (nsteps_congruence (λ x, x) (parent_step (parents_of organizations))) in Hs; [|intros x y; apply Hstep].
    apply nsteps_trail in Hs as (l & Hlen & Hl).
    destruct (trail_shorten _ l _ _ Hl) as (l' & Hl' & Hne & Hnd'); [intros ->; simpl in *; lia|].
    exists (pred (length l')). destruct l' as [|x l']; [done|]. cbn [length pred]. split.
    + assert (length (x :: l') ≤ length (map o_ID organizations)) as Hle.
      { apply submseteq_length, NoDup_submseteq; [done|]. intros y Hy.
        eapply trail_known, elem_of_dom in Hy as [p Hp]; [|done]. apply parents_of_lookup in Hp as (o & Ho & <- & _); [|done].
        by apply list_elem_of_fmap_2. }
      rewrite length_map in Hle. simpl in Hle. lia.
    + apply nsteps_trail. by exists (x :: l').
Qed.

(** ** Calls that change no table and no rule *)
Section Authorization.
Context {DB E : Type} {i_gorm : IamGorm DB} {l_gorm : IamGormLaws DB} {i_enforcer : Enforcer E} {l_enforcer : EnforcerLaws E}.
Abbreviation St := (IAMService DB E).
Abbreviation view s := (tables (repo s)).

(** Of the database. *)
Definition reads {A} (m : Op DB A) : Prop := ∀ s x s', m s = (x, s') → tables s' = tables s ∧ saved s' = saved s.
(** Of the service: the enforcer is not touched either. *)
Definition quiet {A} (m : Op St A) : Prop := ∀ s x s',
  m s = (x, s') → view s' = view s ∧ saved (repo s') = saved (repo s) ∧ authorizer s' = authorizer s.

Lemma reads_First {Row} `{!IamTable Row} preload (p : Row → bool) : reads (First preload p).
Proof. intros s x s' H. by apply First_law in H as (? & ? & _). Qed.
Lemma reads_Find {Row} `{!IamTable Row} preload p (less : Row → Row → bool) : reads (Find preload p less).
Proof. intros s x s' H. by apply Find_law in H as (? & ? & _). Qed.
Lemma reads_Count {Row} `{!IamTable Row} (p : Row → bool) : reads (Count p).
Proof. intros s x s' H. by apply Count_law in H as (? & ? & _). Qed.
Lemma reads_Page {Row} `{!IamTable Row} o l : reads (Page (Row := Row) o l).
Proof. intros s x s' H. by apply Page_law in H as (? & ? & _). Qed.
Lemma reads_ret {A} (a : A) : reads (ret a).
Proof. by intros s x s' [= <- <-]. Qed.
Lemma reads_throw {A} e : reads (throw e : Op DB A).
Proof. by intros s x s' [= <- <-]. Qed.
Lemma reads_of_option {A} (o : option A) e : reads (of_option o e).
Proof. by intros s x s' [= <- <-]. Qed.
Lemma reads_bind {A B} (m : Op DB A) (k : A → Op DB B) : reads m → (∀ a, reads (k a)) → reads (bind m k).
Proof.
  intros Hm Hk s x s' H. unfold bind in H. destruct (m s) as [[a|e] s1] eqn:E1.
  - destruct (Hm _ _ _ E1) as [H1 H2]. destruct (Hk a _ _ _ H) as [H3 H4]. by rewrite H3, H4.
  - simplify_eq. by apply Hm in E1.
Qed.
Lemma reads_or_nil {A} (m : Op DB A) : reads m → reads (Repo.or_nil m).
Proof.
  intros Hm s x s' H. unfold Repo.or_nil in H. destruct (m s) as [[a|e] s1] eqn:E1; [by simplify_eq; apply Hm in E1|].
  destruct (Is e ErrRecordNotFound); simplify_eq; by apply Hm in E1.
Qed.
Lemma reads_map_err {A} f (m : Op DB A) : reads m → reads (map_err f m).
Proof. intros Hm s x s' H. unfold map_err in H. destruct (m s) as [[a|e] s1] eqn:E1; simplify_eq; by apply Hm in E1. Qed.

Lemma quiet_on_repo {A} (m : Op DB A) : reads m → quiet (on_repo m).
Proof.
  intros Hm s x s' H. unfold on_repo in H. destruct (m (repo s)) as [y d] eqn:E1. simplify_eq/=.
  by apply Hm in E1 as [-> ->].
Qed.
Lemma quiet_ret {A} (a : A) : quiet (ret a).
Proof. by intros s x s' [= <- <-]. Qed.
Lemma quiet_throw {A} e : quiet (throw e : Op St A).
Proof. by intros s x s' [= <- <-]. Qed.
Lemma quiet_of_option {A} (o : option A) e : quiet (of_option o e).
Proof. by intros s x s' [= <- <-]. Qed.
Lemma quiet_gets {A} (f : St → Result A) : quiet (λ s, (f s, s)).
Proof. by intros s x s' [= <- <-]. Qed.
Lemma quiet_bind {A B} (m : Op St A) (k : A → Op St B) : quiet m → (∀ a, quiet (k a)) → quiet (bind m k).
Proof.
  intros Hm Hk s x s' H. unfold bind in H. destruct (m s) as [[a|e] s1] eqn:E1.
  - destruct (Hm _ _ _ E1) as (H1 & H2 & H3). destruct (Hk a _ _ _ H) as (H4 & H5 & H6). by rewrite H4, H5, H6.
  - simplify_eq. by apply Hm in E1.
Qed.
End Authorization.

Create HintDb quiet.
#[export] Hint Resolve reads_First reads_Find reads_Count reads_Page reads_ret reads_throw reads_of_option reads_bind
  reads_or_nil reads_map_err quiet_on_repo quiet_ret quiet_throw quiet_of_option quiet_gets quiet_bind : quiet.
(** Splits what the code tests until the hints apply. *)
Ltac quiet_tac :=
  repeat first
    [ progress intros
    | apply quiet_bind | apply reads_bind | apply quiet_on_repo | apply reads_or_nil | apply reads_map_err
    | solve [eauto with quiet]
    | match goal with
      | |- reads (if ?b then _ else _) => destruct b
      | |- quiet (if ?b then _ else _) => destruct b
      | |- reads (match ?x with _ => _ end) => destruct x
      | |- quiet (match ?x with _ => _ end) => destruct x
      end ].

Section Checks.
Context {DB E : Type} {i_gorm : IamGorm DB} {l_gorm : IamGormLaws DB} {i_enforcer : Enforcer E} {l_enforcer : EnforcerLaws E}.
Abbreviation St := (IAMService DB E).

Lemma quiet_enforce u d o a : quiet (enforce u d o a : Op St bool).
Proof. unfold enforce. apply quiet_gets. Qed.
Lemma quiet_hasPermission actor d o a : quiet (hasPermission actor d o a : Op St bool).
Proof. destruct actor; [apply quiet_enforce|apply quiet_ret]. Qed.
Lemma quiet_require_feature actor code : quiet (require_feature actor code : Op St unit).
Proof.
  unfold require_feature, Repo.GetRootOrganization, Repo.ListIAMRoleBindingsByUser.
  quiet_tac; first [apply quiet_hasPermission|idtac].
Qed.
Lemma quiet_RequireFeature actor code : quiet (RequireFeature actor code : Op St unit).
Proof. unfold RequireFeature. quiet_tac; apply quiet_require_feature. Qed.
Lemma quiet_requirePermission actor d o a : quiet (requirePermission actor d o a : Op St unit).
Proof. unfold requirePermission. quiet_tac; first [apply quiet_RequireFeature|apply quiet_enforce]. Qed.
Lemma quiet_requireResourceFeature actor r : quiet (requireResourceFeature actor r : Op St unit).
Proof. unfold requireResourceFeature. quiet_tac; apply quiet_RequireFeature. Qed.
Lemma quiet_any_binding actor o a l : quiet (any_binding actor o a l : Op St unit).
Proof.
  induction l as [|b l IH]; cbn [any_binding]; [apply quiet_throw|].
  apply quiet_bind; [apply quiet_hasPermission|]. intros []; [apply quiet_ret|done].
Qed.
Lemma quiet_RequireResourcePermission actor r a : quiet (RequireResourcePermission actor r a : Op St unit).
Proof.
  unfold RequireResourcePermission, Repo.ListIAMRoleBindingsByUser.
  quiet_tac; first [apply quiet_requireResourceFeature|apply quiet_any_binding].
Qed.
Lemma quiet_RequireOrganizationResourcePermission actor o r a : quiet (RequireOrganizationResourcePermission actor o r a : Op St unit).
Proof.
  unfold RequireOrganizationResourcePermission. quiet_tac; first [apply quiet_requireResourceFeature|apply quiet_requirePermission].
Qed.
End Checks.
#[export] Hint Resolve quiet_enforce quiet_hasPermission quiet_RequireFeature quiet_requirePermission : quiet.

(** ** Loading the enforcer *)
Section Loading.
Context {DB E : Type} {i_gorm : IamGorm DB} {l_gorm : IamGormLaws DB} {i_enforcer : Enforcer E} {l_enforcer : EnforcerLaws E}.
Abbreviation St := (IAMService DB E).
Abbreviation view s := (tables (repo s)).

(** In the tables [t], [m] leaves them alone and, when it succeeds, has added
    the policies [P] and the groupings [G]. *)
Definition adds (t : IamTables) (P : policy → Prop) (G : grouping → Prop) (m : Op St unit) : Prop := ∀ s x s',
  view s = t → m s = (x, s') → view s' = t ∧ saved (repo s') = saved (repo s) ∧
  (is_ok x = true →
    (∀ p, p ∈ policies (authorizer s') ↔ P p ∨ p ∈ policies (authorizer s)) ∧
    (∀ g, g ∈ groupings (authorizer s') ↔ G g ∨ g ∈ groupings (authorizer s))).

Lemma adds_iff t (P P' : policy → Prop) (G G' : grouping → Prop) m :
  (∀ p, P p ↔ P' p) → (∀ g, G g ↔ G' g) → adds t P G m → adds t P' G' m.
Proof.
  intros HP HG H s x s' Ht Hm. destruct (H s x s' Ht Hm) as (? & ? & Hx). split_and!; [done..|].
  intros Hok. destruct (Hx Hok) as [Hp Hg]. split; [intros p; by rewrite <- HP|intros g; by rewrite <- HG].
Qed.
Lemma adds_ret t : adds t (λ _, False) (λ _, False) (ret tt).
Proof. intros s x s' Ht [= <- <-]. split_and!; [done..|]. intros _. split; naive_solver. Qed.
Lemma adds_throw t P G e : adds t P G (throw e).
Proof. by intros s x s' Ht [= <- <-]. Qed.
Lemma adds_seq t P1 P2 G1 G2 m1 m2 :
  adds t P1 G1 m1 → adds t P2 G2 m2 → adds t (λ p, P1 p ∨ P2 p) (λ g, G1 g ∨ G2 g) (m1 ;; m2).
Proof.
  intros Hm1 Hm2 s x s' Ht H. unfold bind in H. destruct (m1 s) as [[[]|e] s1] eqn:E1.
  - destruct (Hm1 _ _ _ Ht E1) as (Ht1 & Hs1 & Hx1). destruct (Hm2 _ _ _ Ht1 H) as (Ht2 & Hs2 & Hx2).
    split_and!; [done|congruence|]. intros Hok. destruct (Hx1 eq_refl) as [A1 B1]. destruct (Hx2 Hok) as [A2 B2].
    split; [intros p; rewrite A2, A1; naive_solver|intros g; rewrite B2, B1; naive_solver].
  - injection H as <- <-. destruct (Hm1 _ _ _ Ht E1) as (? & ? & _). by split_and!.
Qed.
Lemma ex_cons {A} (Q : A → Prop) a l : (∃ b, b ∈ a :: l ∧ Q b) ↔ Q a ∨ ∃ b, b ∈ l ∧ Q b.
Proof.
  split; [intros (b & [->|Hb]%elem_of_cons & HQ); [by left|right; by exists b]|].
  intros [HQ|(b & Hb & HQ)]; [exists a; split; [by left|done]|exists b; split; [by right|done]].
Qed.
Lemma adds_for_each {A} t (P : A → policy → Prop) (G : A → grouping → Prop) (f : A → Op St unit) l :
  (∀ a, a ∈ l → adds t (P a) (G a) (f a)) →
  adds t (λ p, ∃ a, a ∈ l ∧ P a p) (λ g, ∃ a, a ∈ l ∧ G a g) (for_each f l).
Proof.
  induction l as [|a l IH]; intros H; cbn [for_each].
  - eapply adds_iff; [| |apply adds_ret]; intros; split; [done| |done|]; by intros (a & ?%elem_of_nil & _).
  - eapply adds_iff; [| |apply adds_seq; [apply H; by left|apply IH; intros b Hb; apply H; by right]];
      intros; by rewrite ex_cons.
Qed.
(** A query first. *)
Lemma adds_read {A} t P G (m : Op DB A) (k : A → Op St unit) :
  reads m → (∀ a s s', tables s = t → m s = (Ok a, s') → adds t P G (k a)) → adds t P G (bind (on_repo m) k).
Proof.
  intros Hr Hk s x s' Ht H. unfold bind, on_repo in H. destruct (m (repo s)) as [[a|e] d] eqn:E1.
  - destruct (Hr _ _ _ E1) as [H1 H2]. specialize (Hk a _ _ Ht E1 (mkIAM d (authorizer s)) x s').
    destruct Hk as (? & ? & Hx); [by rewrite <- Ht|done|]. split_and!; [done|by etrans|done].
  - injection H as <- <-. destruct (Hr _ _ _ E1) as [Hv Hs]. by rewrite Ht in Hv.
Qed.
Lemma adds_authorizer t P G (m : Op E unit) :
  (∀ e x e', m e = (x, e') → is_ok x = true →
    (∀ p, p ∈ policies e' ↔ P p ∨ p ∈ policies e) ∧ ∀ g, g ∈ groupings e' ↔ G g ∨ g ∈ groupings e) →
  adds t P G (on_authorizer m).
Proof.
  intros H s x s' Ht Hm. unfold on_authorizer in Hm. destruct (m (authorizer s)) as [y e] eqn:E1. injection Hm as <- <-.
  split_and!; [done..|]. intros Hok. by apply (H _ _ _ E1).
Qed.
Lemma map_err_ok {S A} f (m : Op S A) s x s' :
  map_err f m s = (x, s') → ∃ y, m s = (y, s') ∧ is_ok y = is_ok x ∧ ∀ a, x = Ok a ↔ y = Ok a.
Proof. unfold map_err. destruct (m s) as [[a|e] s1]; intros [= <- <-]; eexists; split_and!; [done..|naive_solver|done|done|naive_solver]. Qed.

Lemma adds_addPermission t role resource action :
  adds t (λ p, p = (roleSubject role, globalDomain, resource, action)) (λ _, False) (on_authorizer (addPermission role resource action)).
Proof.
  apply adds_authorizer. intros e x e' (y & H & <- & _)%map_err_ok Hok. apply AddPolicy_law in H as [Hg Hp].
  destruct y; [|done]. rewrite Hg, Hp. split; set_solver.
Qed.
Lemma adds_addBinding t u role d :
  adds t (λ _, False) (λ g, g = (userSubject u, roleSubject role, d)) (on_authorizer (addBinding u role d)).
Proof.
  apply adds_authorizer. intros e x e' (y & H & <- & _)%map_err_ok Hok. apply AddGroupingPolicy_law in H as [Hp Hg].
  destruct y; [|done]. rewrite Hg, Hp. split; set_solver.
Qed.

(** *** What the tables say *)

(** A permission of a role. *)
Definition wanted_policy (t : IamTables) (p : policy) : Prop := ∃ k role kp permission,
  visible (iam_roles t) !! k = Some role ∧ visible (iam_permissions t) !! kp = Some permission ∧
  Repo.granted_to (ro_ID role) t permission = true ∧
  p = (roleSubject (ro_Code role), globalDomain, pe_Resource permission, pe_Action permission).

Definition child (t : IamTables) (x y : N) : Prop := ∃ o, visible (iam_organizations t) !! x = Some o ∧ o_ParentID o = Some y.
(** The domains a binding reaches: its organization; everything, from the root
    organization; and with inheritance the organizations below. *)
Definition covers (t : IamTables) (b : IAMRoleBinding) (domain : string) : Prop :=
  domain = organizationDomain (b_OrganizationID b) ∨
  (domain = globalDomain ∧ ∃ o, visible (iam_organizations t) !! b_OrganizationID b = Some o ∧ o_IsRoot o = true) ∨
  (b_InheritChildren b = true ∧ ∃ x o, visible (iam_organizations t) !! x = Some o ∧ x ≠ b_OrganizationID b ∧
    domain = organizationDomain x ∧ tc (child t) x (b_OrganizationID b)).
Definition wanted_grouping (t : IamTables) (g : grouping) : Prop := ∃ k b role domain,
  visible (iam_role_bindings t) !! k = Some b ∧ visible (iam_roles t) !! b_RoleID b = Some role ∧ covers t b domain ∧
  g = (userSubject (b_UserID b), roleSubject (ro_Code role), domain).

Lemma Find_elems {Row} `{!IamTable Row} preload p less s (l : list Row) s' r :
  Find preload p less s = (Ok l, s') →
  r ∈ l ↔ ∃ k r0, visible (rows (tables s)) !! k = Some r0 ∧ p (tables s) r0 = true ∧ r = preload (tables s) r0.
Proof.
  intros H. apply Find_law in H as (_ & _ & l0 & -> & Hp & _). rewrite list_elem_of_fmap. setoid_rewrite Hp.
  setoid_rewrite list_elem_of_In. setoid_rewrite filter_In. setoid_rewrite <- list_elem_of_In. setoid_rewrite elem_of_all_rows.
  naive_solver.
Qed.
Lemma visible_keyed {Row} `{!IamTable Row} (s : DB) k (r : Row) : visible (rows (tables s)) !! k = Some r → row_id r = k.
Proof. intros H%visible_row_Some. by apply tables_keyed in H as [? _]. Qed.

Lemma adds_load_role t role :
  adds t (λ p, ∃ kp permission, visible (iam_permissions t) !! kp = Some permission ∧
      Repo.granted_to (ro_ID role) t permission = true ∧
      p = (roleSubject (ro_Code role), globalDomain, pe_Resource permission, pe_Action permission))
    (λ _, False) (load_role role : Op St unit).
Proof.
  unfold load_role. apply adds_read; [apply reads_map_err, reads_Find|]. intros l s s' Ht (y & H & _ & Hy)%map_err_ok.
  assert (y = Ok l) as -> by (by apply Hy). eapply adds_iff; [| |apply adds_for_each; intros; apply adds_addPermission].
  - intros p. setoid_rewrite (Find_elems _ _ _ _ _ _ _ H). rewrite Ht. unfold Repo.plain. simpl. naive_solver.
  - naive_solver.
Qed.

(** The list of organizations a reload works with. *)
Definition listing (t : IamTables) (l : list Organization) : Prop :=
  NoDup (map o_ID l) ∧ (∀ o, o ∈ l ↔ visible (iam_organizations t) !! o_ID o = Some o) ∧
  (∀ k o, visible (iam_organizations t) !! k = Some o → o_ID o = k).
Lemma ListOrganizations_listing s l s' : Repo.ListOrganizations s = (Ok l, s') → listing (tables s) l.
Proof.
  intros H. pose proof (λ o, Find_elems _ _ _ _ _ _ o H) as Hel. apply Find_law in H as (_ & _ & l0 & -> & Hp & _).
  assert (∀ k o, visible (iam_organizations (tables s)) !! k = Some o → o_ID o = k) as Hkey by (intros k o Hk; exact (visible_keyed (Row := Organization) s k o Hk)).
  split_and!; [| |done].
  - rewrite map_map. unfold Repo.plain. rewrite Hp. clear Hp Hel.
    rewrite List.forallb_filter_id by (by apply forallb_forall).
    unfold all_rows. rewrite map_map. rewrite (map_ext_in _ fst).
    + apply NoDup_fst_map_to_list.
    + intros [k o] H%list_elem_of_In%elem_of_map_to_list. simpl. by apply Hkey.
  - intros o. rewrite Hel. unfold Repo.plain. split.
    + intros (k & r0 & Hk & _ & ->). pose proof (Hkey _ _ Hk). by subst k.
    + intros Ho. by exists (o_ID o), o.
Qed.
Lemma listing_child t l x y : listing t l → child_of l x y ↔ child t x y.
Proof.
  intros (_ & Hl & Hk). unfold child_of, child. split.
  - intros (o & Ho%Hl & <- & Hp). by exists o.
  - intros (o & Ho & Hp). exists o. pose proof (Hk _ _ Ho) as <-. split_and!; [by apply Hl|done..].
Qed.
Lemma listing_descendant t l x y : listing t l → isOrganizationDescendant l x y = true ↔ tc (child t) x y.
Proof.
  intros Hl. rewrite walk_is_closure by apply Hl. split; apply (tc_congruence (λ x, x)); intros; by apply (listing_child t l).
Qed.

(** One binding, as read with its role and organization. *)
Definition binding_groups (t : IamTables) (b : IAMRoleBinding) (g : grouping) : Prop := ∃ role domain,
  visible (iam_roles t) !! b_RoleID b = Some role ∧ covers t b domain ∧
  g = (userSubject (b_UserID b), roleSubject (ro_Code role), domain).
Lemma binding_groups_same t b b' g :
  Repo.with_both t b = Repo.with_both t b' → binding_groups t b g → binding_groups t b' g.
Proof.
  intros H. assert (b_UserID b = b_UserID b' ∧ b_RoleID b = b_RoleID b' ∧ b_OrganizationID b = b_OrganizationID b' ∧
    b_InheritChildren b = b_InheritChildren b') as (H1 & H2 & H3 & H4) by (destruct b, b'; by injection H).
  unfold binding_groups, covers. by rewrite H1, H2, H3, H4.
Qed.
Lemma adds_load_inherited t l b role o : listing t l →
  adds t (λ _, False) (λ g, o_ID o ≠ b_OrganizationID b ∧ tc (child t) (o_ID o) (b_OrganizationID b) ∧
      g = (userSubject (b_UserID b), roleSubject (ro_Code role), organizationDomain (o_ID o)))
    (load_inherited l b role o : Op St unit).
Proof.
  intros Hl. unfold load_inherited.
  destruct (negb _ && _) eqn:Eb.
  - apply andb_true_iff in Eb as [H1%negb_true_iff%bool_decide_eq_false H2%(listing_descendant t)]; [|done].
    eapply adds_iff; [| |apply adds_addBinding]; naive_solver.
  - eapply adds_iff; [| |apply adds_ret]; [done|]. intros g. split; [done|]. intros (H1 & H2 & _).
    apply andb_false_iff in Eb as [Eb%negb_false_iff%bool_decide_eq_true|Eb]; [done|].
    apply (listing_descendant t l) in H2; [congruence|done].
Qed.
Lemma adds_load_binding t l b : listing t l →
  adds t (λ _, False) (binding_groups t b) (load_binding l (Repo.with_both t b) : Op St unit).
Proof.
  intros Hl. unfold load_binding, Repo.with_both, Repo.with_role. simpl.
  destruct (visible (iam_roles t) !! b_RoleID b) as [role|] eqn:Hr; [|apply adds_throw].
  set (G1 := λ g, g = (userSubject (b_UserID b), roleSubject (ro_Code role), organizationDomain (b_OrganizationID b))).
  set (G2 := λ g : grouping, g = (userSubject (b_UserID b), roleSubject (ro_Code role), globalDomain) ∧
    ∃ o, visible (iam_organizations t) !! b_OrganizationID b = Some o ∧ o_IsRoot o = true).
  set (G3 := λ g : grouping, b_InheritChildren b = true ∧ ∃ o, o ∈ l ∧ o_ID o ≠ b_OrganizationID b ∧ tc (child t) (o_ID o) (b_OrganizationID b) ∧
    g = (userSubject (b_UserID b), roleSubject (ro_Code role), organizationDomain (o_ID o))).
  apply (adds_iff t (λ p, False ∨ False ∨ False) _ (λ g, G1 g ∨ G2 g ∨ G3 g)); [intros p; tauto| |].
  - intros g. unfold binding_groups, covers, G1, G2, G3. destruct Hl as (_ & Hl & Hk). split.
    + intros [->|[[-> Ho]|(Hi & o & Ho%Hl & Hne & Htc & ->)]]; (eexists role, _; split; [done|]); split; [by left|done|right; left; by split|done| |done].
      right; right. split; [done|]. by exists (o_ID o), o.
    + intros (role' & d & Er & [->|[[-> Ho]|(Hi & x & o & Ho & Hne & -> & Htc)]] & ->); simplify_eq; [by left|right; left; by split|].
      right; right. split; [done|]. exists o. pose proof (Hk _ _ Ho) as Hx. subst x. split_and!; [by apply Hl|done..].
  - apply adds_seq; [apply adds_addBinding|apply adds_seq].
    + destruct (visible (iam_organizations t) !! b_OrganizationID b) as [o|] eqn:Ho; [destruct (o_IsRoot o) eqn:Hroot|].
      * eapply adds_iff; [| |apply adds_addBinding]; [done|]. intros g. split; [|by intros [-> _]].
        intros ->. split; [done|]. by exists o.
      * eapply adds_iff; [| |apply adds_ret]; [done|]. intros g. split; [done|]. intros (_ & o' & Ho' & Hr'). congruence.
      * eapply adds_iff; [| |apply adds_ret]; [done|]. intros g. split; [done|]. intros (_ & o' & Ho' & _). congruence.
    + destruct (b_InheritChildren b) eqn:Hi.
      * eapply adds_iff; [| |apply adds_for_each; intros o _; apply (adds_load_inherited t l (Repo.with_both t b) role o Hl)].
        { intros p. split; [by intros (? & _ & ?)|done]. }
        intros g. split; [intros (o & Ho & Hg); split; [done|by exists o]|by intros (_ & o & Ho & Hg); exists o].
      * eapply adds_iff; [| |apply adds_ret]; [done|]. intros g. split; [done|]. intros (Hi' & _). congruence.
Qed.

(** The enforcer says what the tables say. *)
Definition in_sync (s : St) : Prop :=
  links (authorizer s) = groupings (authorizer s) ∧
  (∀ p, p ∈ policies (authorizer s) ↔ wanted_policy (view s) p) ∧
  (∀ g, g ∈ groupings (authorizer s) ↔ wanted_grouping (view s) g).

Definition ends_linked (m : Op St unit) : Prop := ∀ s s',
  m s = (Ok tt, s') → links (authorizer s') = groupings (authorizer s').
Lemma ends_linked_bind {A} (m : Op St A) k : (∀ a, ends_linked (k a)) → ends_linked (bind m k).
Proof. intros Hk s s' H. unfold bind in H. destruct (m s) as [[a|e] s1]; [by apply (Hk a) in H|done]. Qed.
Lemma ends_linked_rebuild : ends_linked (on_authorizer rebuildRoleLinks).
Proof.
  intros s s' H. unfold on_authorizer in H. destruct (rebuildRoleLinks (authorizer s)) as [y e] eqn:E1. injection H as -> <-.
  apply map_err_ok in E1 as (z & Hz & Hok & _). apply BuildRoleLinks_law in Hz as (_ & Hg & Hl). simpl. rewrite Hl by done. done.
Qed.
Lemma adds_rebuild t : adds t (λ _, False) (λ _, False) (on_authorizer rebuildRoleLinks).
Proof.
  apply adds_authorizer. intros e x e' (y & H & <- & _)%map_err_ok _. apply BuildRoleLinks_law in H as (-> & -> & _).
  split; naive_solver.
Qed.

Definition reload_rest : Op St unit :=
  let! roles := on_repo (map_err (during "list roles for authorization") Repo.ListIAMRoles) in
  for_each load_role roles ;;
  let! bindings := on_repo (map_err (during "list role bindings for authorization") Repo.ListIAMRoleBindings) in
  let! organizations := on_repo (map_err (during "list organizations for authorization") Repo.ListOrganizations) in
  for_each (load_binding organizations) bindings ;;
  on_authorizer rebuildRoleLinks.
Lemma adds_reload t : adds t (wanted_policy t) (wanted_grouping t) reload_rest.
Proof.
  unfold reload_rest. apply adds_read; [apply reads_map_err, reads_Find|]. intros roles s s' Ht (y & H & _ & Hy)%map_err_ok.
  assert (y = Ok roles) as -> by (by apply Hy). clear Hy.
  eapply (adds_iff t (λ p, wanted_policy t p ∨ False) _ (λ g, False ∨ wanted_grouping t g)); [intros p; tauto..|].
  apply adds_seq.
  - eapply adds_iff; [| |apply adds_for_each; intros role _; apply adds_load_role].
    + intros p. setoid_rewrite (Find_elems _ _ _ _ _ _ _ H). rewrite Ht. unfold wanted_policy, Repo.plain. naive_solver.
    + intros g. split; [by intros (? & _ & ?)|done].
  - apply adds_read; [apply reads_map_err, reads_Find|]. intros bs s1 s1' Ht1 (y1 & H1 & _ & Hy1)%map_err_ok.
    assert (y1 = Ok bs) as -> by (by apply Hy1). clear Hy1.
    apply adds_read; [apply reads_map_err, reads_Find|]. intros orgs s2 s2' Ht2 (y2 & H2 & _ & Hy2)%map_err_ok.
    assert (y2 = Ok orgs) as -> by (by apply Hy2). clear Hy2.
    pose proof (ListOrganizations_listing _ _ _ H2) as Hl. rewrite Ht2 in Hl.
    pose proof (λ b, Find_elems _ _ _ _ _ _ b H1) as Hbs. rewrite Ht1 in Hbs.
    set (G := λ b g, ∃ b0, b = Repo.with_both t b0 ∧ binding_groups t b0 g).
    eapply (adds_iff t (λ p, (∃ b, b ∈ bs ∧ False) ∨ False) _ (λ g, (∃ b, b ∈ bs ∧ G b g) ∨ False)).
    + intros p. split; [by intros [(? & _ & ?)|?]|done].
    + intros g. unfold wanted_grouping, G, binding_groups. split.
      * intros [(b & (k & b1 & Hk & _ & ->)%Hbs & b0 & E0 & Hg)|[]].
        apply (binding_groups_same t b0 b1) in Hg as (role & d & Hr & Hc & ->); [|done]. by exists k, b1, role, d.
      * intros (k & b & role & d & Hk & Hr & Hc & ->). left. exists (Repo.with_both t b). split; [apply Hbs; by exists k, b|].
        exists b. split; [done|]. by exists role, d.
    + apply adds_seq; [|apply adds_rebuild]. apply adds_for_each. intros b (k & b0 & Hk & _ & ->)%Hbs.
      eapply adds_iff; [| |apply (adds_load_binding t orgs b0 Hl)]; [done|]. intros g. unfold G. split; [by exists b0|].
      intros (b1 & E1 & Hg). by apply (binding_groups_same t b1 b0).
Qed.

Lemma reload_sync s x s' : reloadAuthorization s = (x, s') →
  view s' = view s ∧ saved (repo s') = saved (repo s) ∧ (is_ok x = true → in_sync s').
Proof.
  intros H. unfold reloadAuthorization in H. unfold bind at 1 in H. cbn [on_authorizer modify] in H.
  change (reload_rest (mkIAM (repo s) (ClearPolicy (authorizer s))) = (x, s')) in H.
  destruct (adds_reload (view s) (mkIAM (repo s) (ClearPolicy (authorizer s))) x s' eq_refl H) as (H1 & H2 & H3).
  split_and!; [done..|]. intros Hok. destruct (H3 Hok) as [HP HG]. destruct (ClearPolicy_law (authorizer s)) as [C1 C2]. simpl in *.
  destruct x as [[]|]; [|done]. split_and!.
  - revert H. unfold reload_rest. apply ends_linked_bind. intros. do 3 (apply ends_linked_bind; intros).
    apply ends_linked_bind. intros. apply ends_linked_rebuild.
  - intros p. rewrite HP, C1, H1. set_solver.
  - intros g. rewrite HG, C2, H1. set_solver.
Qed.
End Loading.

(** ** What a check answers *)
Section Enforcement.
Context {DB E : Type} {i_gorm : IamGorm DB} {l_gorm : IamGormLaws DB} {i_enforcer : Enforcer E} {l_enforcer : EnforcerLaws E}.
Abbreviation St := (IAMService DB E).
Abbreviation view s := (tables (repo s)).

(** The specification: the user has a binding to a role with a matching
    permission, and the binding reaches the domain. *)
Definition role_grants (t : IamTables) (role : IAMRole) (object action : string) : Prop := ∃ k permission,
  visible (iam_permissions t) !! k = Some permission ∧ Repo.granted_to (ro_ID role) t permission = true ∧
  keyMatch2 object (pe_Resource permission) = true ∧ regexMatch action (pe_Action permission) = true.
Definition granted (t : IamTables) (userID : N) (domain object action : string) : Prop := ∃ k b role,
  visible (iam_role_bindings t) !! k = Some b ∧ b_UserID b = userID ∧
  visible (iam_roles t) !! b_RoleID b = Some role ∧ role_grants t role object action ∧
  (covers t b domain ∨ covers t b globalDomain).

Lemma app_inj_l (p s s' : string) : p +:+ s = p +:+ s' → s = s'.
Proof.
  induction p as [|c p IH]; [done|]. change (String c p +:+ s) with (String c (p +:+ s)).
  change (String c p +:+ s') with (String c (p +:+ s')). intros [= H]. by apply IH.
Qed.
Lemma userSubject_inj u v : userSubject u = userSubject v → u = v.
Proof. intros H%app_inj_l. by apply (inj pretty) in H. Qed.
Lemma roleSubject_inj c d : roleSubject c = roleSubject d → c = d.
Proof. apply app_inj_l. Qed.
Lemma organizationDomain_inj x y : organizationDomain x = organizationDomain y → x = y.
Proof. intros H%app_inj_l. by apply (inj pretty) in H. Qed.

Definition user_links (l : gset grouping) : Prop := ∀ x y d, (x, y, d) ∈ l → ∃ u c, x = userSubject u ∧ y = roleSubject c.
Lemma triple_inj {A B C} (a a' : A) (b b' : B) (c c' : C) : (a, b, c) = (a', b', c') → a = a' ∧ b = b' ∧ c = c'.
Proof. by intros [= -> -> ->]. Qed.
Lemma user_not_role u c : userSubject u ≠ roleSubject c.
Proof. discriminate. Qed.
Lemma role_no_link l d c y : user_links l → (roleSubject c, y, d) ∉ l.
Proof. intros Hl (u & c' & H & _)%Hl. discriminate H. Qed.
Lemma nsteps_dead {A} (R : relation A) n x z : (∀ y w, R x y → ¬ R y w) → nsteps R n x z → x = z ∨ R x z.
Proof.
  intros Hd H. destruct H as [x|m x y z Hxy H]; [by left|]. right. destruct H as [y|m' y w z Hyw _]; [done|].
  by apply (Hd _ w) in Hxy.
Qed.
Lemma linked_user l d u c : user_links l →
  linked l d (userSubject u) (roleSubject c) ↔ (userSubject u, roleSubject c, d) ∈ l.
Proof.
  intros Hl. split.
  - intros (n & _ & Hs). apply nsteps_dead in Hs as [H|H]; [by apply user_not_role in H|done|].
    intros y w (u' & c' & _ & ->)%Hl. by apply role_no_link.
  - intros H. exists 1. split; [lia|]. by apply nsteps_once.
Qed.
Lemma linked_role l d c c' : user_links l → linked l d (roleSubject c) (roleSubject c') ↔ c = c'.
Proof.
  intros Hl. split.
  - intros (n & _ & Hs). apply nsteps_dead in Hs as [H|H]; [by apply roleSubject_inj|by apply role_no_link in H|].
    intros y w H. by apply role_no_link in H.
  - intros ->. exists 0. split; [lia|constructor].
Qed.
Lemma sync_user_links s : in_sync s → user_links (links (authorizer (s : St))).
Proof. intros (-> & _ & H) x y d (k & b & role & dom & _ & _ & _ & Hg)%H.
  apply triple_inj in Hg as (-> & -> & _). by eexists _, _. Qed.

(** The unique index on codes. *)
Lemma role_by_code (s : St) k k' role role' :
  visible (iam_roles (view s)) !! k = Some role → visible (iam_roles (view s)) !! k' = Some role' →
  ro_Code role = ro_Code role' → role = role'.
Proof.
  intros H%visible_row_Some H'%visible_row_Some Hc. destruct (decide (k = k')) as [->|Hne]; [congruence|].
  pose proof (tables_unique (Row := IAMRole) (repo s) k k' _ _ H H' Hne) as Hu. simpl in Hu.
  apply bool_decide_eq_false in Hu. done.
Qed.

Lemma covers_global t b d : covers t b d ∨ covers t b globalDomain ↔
  covers t b d ∨ ∃ o, visible (iam_organizations t) !! b_OrganizationID b = Some o ∧ o_IsRoot o = true.
Proof.
  split; (intros [H|H]; [by left|]).
  - destruct H as [H|[[_ H]|(_ & x & o & _ & _ & H & _)]]; [discriminate|by right|discriminate].
  - right. right. left. by split.
Qed.

Lemma enforce_sync s u domain object action b :
  in_sync s → Enforce (userSubject u) domain object action (authorizer s) = Ok b →
  b = true ↔ granted (view s) u domain object action.
Proof.
  intros Hs He. pose proof (sync_user_links s Hs) as Hul. destruct Hs as (Hl & HP & HG).
  rewrite (Enforce_law _ _ _ _ _ _ He). unfold granted, role_grants, matches. split.
  - intros (p & (k & role & kp & perm & Hk & Hkp & Hg & ->)%HP & Hlk & _ & Hkm & Hrm).
    assert (∃ dom, (dom = domain ∨ dom = globalDomain) ∧ (userSubject u, roleSubject (ro_Code role), dom) ∈ links (authorizer s)) as (dom & Hd & Hin).
    { destruct Hlk as [H|H]; apply linked_user in H; eauto. }
    rewrite Hl in Hin. apply HG in Hin as (kb & bd & role' & dom' & Hkb & Hr' & Hc & Heq).
    apply triple_inj in Heq as (Hu%userSubject_inj & Hcode%roleSubject_inj & <-).
    assert (role' = role) as -> by (symmetry in Hcode; by eapply role_by_code).
    exists kb, bd, role. split_and!; [done|done|done|by exists kp, perm|]. destruct Hd as [->| ->]; [by left|by right].
  - intros (kb & bd & role & Hkb & Hu & Hr & (kp & perm & Hkp & Hg & Hkm & Hrm) & Hc).
    exists (roleSubject (ro_Code role), globalDomain, pe_Resource perm, pe_Action perm). split.
    { apply HP. by exists (b_RoleID bd), role, kp, perm. }
    split_and!; [|by left|done|done].
    destruct Hc as [Hc|Hc]; [left|right]; (apply linked_user; [done|]); rewrite Hl; apply HG; subst u; by eexists _, _, _, _.
Qed.
Lemma enforce_role_sync s code domain object action b :
  in_sync s → Enforce (roleSubject code) domain object action (authorizer s) = Ok b →
  b = true ↔ ∃ k role, visible (iam_roles (view s)) !! k = Some role ∧ ro_Code role = code ∧ role_grants (view s) role object action.
Proof.
  intros Hs He. pose proof (sync_user_links s Hs) as Hul. destruct Hs as (Hl & HP & HG).
  rewrite (Enforce_law _ _ _ _ _ _ He). unfold role_grants, matches. split.
  - intros (p & (k & role & kp & perm & Hk & Hkp & Hg & ->)%HP & Hlk & _ & Hkm & Hrm).
    exists k, role. split_and!; [done| |by exists kp, perm]. destruct Hlk as [H|H]; by apply linked_role in H.
  - intros (k & role & Hk & <- & kp & perm & Hkp & Hg & Hkm & Hrm).
    exists (roleSubject (ro_Code role), globalDomain, pe_Resource perm, pe_Action perm). split.
    { apply HP. by exists k, role, kp, perm. }
    split_and!; [|by left|done|done]. left. by apply linked_role.
Qed.

Lemma hasPermission_sync s (user : User) domain object action b s' :
  in_sync s → hasPermission (Some user) domain object action s = (Ok b, s') →
  s' = s ∧ (b = true ↔ granted (view s) (u_ID user) domain object action).
Proof.
  intros Hs H. unfold hasPermission, enforce in H.
  destruct (Enforce _ _ _ _ _) as [b'|] eqn:He; simplify_eq. split; [done|]. by apply enforce_sync.
Qed.
End Enforcement.
