(* ===== verification/IamDatabase.v ===== *)
(** * A database and an enforcer that keep their promises

    Tables in maps with a stack of saved ones, and rules in lists: the
    laws of [IamDao] and of [Iam] can hold together.  The patterns of this
    enforcer are those the catalog uses: segments, [:id] for any one, [*] for
    the rest, and alternatives between parentheses. *)

From S2P Require Import Prelude ToolTypes IamDao Iam IamAuthorization.

(** ** The database *)
Record IamDB := mkIamDB {
  idb_tables : IamTables;
  idb_saved : list IamTables;
  idb_wf : wf_tables idb_tables ∧ Forall wf_tables idb_saved
}.

Lemma wf_table_Forall {Row} id uniq (m : stored Row) : wf_table id uniq m ↔
  map_Forall (λ k v, id (fst v) = k ∧ k ≠ 0%N ∧ map_Forall (λ k' v', k = k' ∨ uniq (fst v) (fst v') = false) m) m.
Proof.
  unfold wf_table, map_Forall. split; intros H k v Hk; destruct (H k v Hk) as (H1 & H2 & H3); split_and!; try done.
  - intros k' v' Hk'. destruct (decide (k = k')); [by left|right; by eapply H3].
  - intros k' v' Hk' Hne. by destruct (H3 k' v' Hk').
Qed.
(** The same as a test. *)
Definition wf_rows {Row} (id : Row → N) (uniq : Row → Row → bool) (m : stored Row) : bool :=
  let l := map_to_list m in
  forallb (λ x : N * (Row * bool), N.eqb (id (fst (snd x))) (fst x) && negb (N.eqb (fst x) 0) &&
    forallb (λ y : N * (Row * bool), N.eqb (fst x) (fst y) || negb (uniq (fst (snd x)) (fst (snd y)))) l) l.
Lemma wf_rows_table {Row} id uniq (m : stored Row) : wf_rows id uniq m = true → wf_table id uniq m.
Proof.
  intros H. apply wf_table_Forall. intros k v Hk. unfold wf_rows in H. rewrite forallb_forall in H.
  specialize (H (k, v)). rewrite <- list_elem_of_In, elem_of_map_to_list in H. specialize (H Hk). simpl in H.
  rewrite !andb_true_iff, negb_true_iff, N.eqb_eq, N.eqb_neq, forallb_forall in H. destruct H as [[H1 H2] H3]. split_and!; [done..|].
  intros k' v' Hk'. specialize (H3 (k', v')). rewrite <- list_elem_of_In, elem_of_map_to_list in H3. specialize (H3 Hk'). simpl in H3.
  rewrite orb_true_iff, N.eqb_eq, negb_true_iff in H3. done.
Qed.

Section Ops.
Context {Row : Type} {i_table : IamTable Row}.

(** The table replaced, unless that breaks a number or a unique index. *)
Definition install {A} (a : A) (m : stored Row) : Op IamDB A := λ s,
  match bool_dec (wf_rows row_id unique m) true with
  | left H => (Ok a, mkIamDB (put_rows m (idb_tables s)) (idb_saved s)
                       (conj (put_wf m (idb_tables s) (proj1 (idb_wf s)) (wf_rows_table _ _ m H)) (proj2 (idb_wf s))))
  | right _ => (Err (ENew "constraint failed"), s)
  end.
Definition current (s : IamDB) : stored Row := rows (idb_tables s).
Definition next_id (m : stored Row) : N := (1 + foldr N.max 0 (map_to_list m).*1)%N.

Definition idb_Create (r : Row) : Op IamDB Row := λ s,
  let m := current s in let r' := with_id (next_id m) r in
  if existsb (λ v, unique r (fst v)) (map_to_list m).*2 then (Err (ENew "UNIQUE constraint failed"), s)
  else install r' (<[next_id m := (columns r', false)]> m) s.
(** The least number among those that match. *)
Definition least (l : list (N * Row)) : option Row :=
  snd <$> foldr (λ x best, match best with Some y => if N.leb (fst x) (fst y) then Some x else Some y | None => Some x end) None l.
Definition idb_First (preload : IamTables → Row → Row) (p : Row → bool) : Op IamDB Row := λ s,
  (match least (List.filter (λ x, p (snd x)) (map_to_list (visible (current s)))) with
   | Some r => Ok (preload (idb_tables s) r)
   | None => Err ErrRecordNotFound
   end, s).
Definition idb_Find (preload : IamTables → Row → Row) (p : IamTables → Row → bool) (less : Row → Row → bool) : Op IamDB (list Row) := λ s,
  let l := sort_Slice less (List.filter (p (idb_tables s)) (all_rows (visible (current s)))) in
  if decide (StronglySorted (λ a b, less b a = false) l) then (Ok (map (preload (idb_tables s)) l), s)
  else (Err (ENew "no such order"), s).
Definition idb_Page (offset limit : nat) : Op IamDB (list Row) := λ s,
  (Ok (take limit (drop offset (all_rows (visible (current s))))), s).
Definition idb_Count (p : Row → bool) : Op IamDB N := λ s,
  (Ok (N.of_nat (length (List.filter p (all_rows (visible (current s)))))), s).
Definition idb_Save (r : Row) : Op IamDB unit := λ s,
  if existsb (λ x : N * (Row * bool), negb (bool_decide (fst x = row_id r)) && unique r (fst (snd x))) (map_to_list (current s))
  then (Err (ENew "UNIQUE constraint failed"), s)
  else install tt (<[row_id r := (columns r, false)]> (current s)) s.
Definition idb_Delete (p : Row → bool) : Op IamDB unit := λ s,
  install tt ((λ v : Row * bool, (fst v, snd v || p (fst v))) <$> current s) s.
Definition idb_Purge (p : Row → bool) : Op IamDB unit := λ s,
  install tt (omap (λ v : Row * bool, if p (fst v) then None else Some v) (current s)) s.
Definition idb_Update (p : Row → bool) (assign : Row → Row) : Op IamDB unit := λ s,
  install tt ((λ v : Row * bool, if negb (snd v) && p (fst v) then (columns (assign (fst v)), false) else v) <$> current s) s.
Definition idb_Upsert (conflict : Row → Row → bool) (assign : Row → Row → Row) (r : Row) : Op IamDB unit := λ s,
  let m := current s in
  match List.find (λ x, conflict r (fst (snd x))) (map_to_list m) with
  | Some (k, v) => install tt (<[k := (columns (assign r (fst v)), false)]> m) s
  | None =>
      if existsb (λ v, unique r (fst v)) (map_to_list m).*2 then (Err (ENew "UNIQUE constraint failed"), s)
      else install tt (<[next_id m := (columns (with_id (next_id m) r), false)]> m) s
  end.
End Ops.

Definition idb_Begin (s : IamDB) : IamDB :=
  mkIamDB (idb_tables s) (idb_tables s :: idb_saved s)
    (conj (proj1 (idb_wf s)) (Forall_cons_2 _ _ _ (proj1 (idb_wf s)) (proj2 (idb_wf s)))).
Lemma idb_saved_wf s t ts : idb_saved s = t :: ts → wf_tables t ∧ Forall wf_tables ts.
Proof. intros H. pose proof (proj2 (idb_wf s)) as Hf. rewrite H in Hf. by apply Forall_cons in Hf. Qed.
Definition idb_end (commit : bool) (s : IamDB) : IamDB :=
  match idb_saved s as l return idb_saved s = l → IamDB with
  | [] => λ _, s
  | t :: ts => λ H,
      if commit then mkIamDB (idb_tables s) ts (conj (proj1 (idb_wf s)) (proj2 (idb_saved_wf s t ts H)))
      else mkIamDB t ts (idb_saved_wf s t ts H)
  end eq_refl.

#[export] Instance iam_gorm : IamGorm IamDB := {|
  Create := @idb_Create; First := @idb_First; Find := @idb_Find; Page := @idb_Page; Count := @idb_Count; Save := @idb_Save;
  Delete := @idb_Delete; Purge := @idb_Purge; Update := @idb_Update; Upsert := @idb_Upsert;
  Begin := idb_Begin; Commit := λ s, (Ok tt, idb_end true s); Rollback := idb_end false
|}.

Lemma idb_end_spec b s t ts :
  idb_saved s = t :: ts → idb_saved (idb_end b s) = ts ∧ idb_tables (idb_end b s) = if b then idb_tables s else t.
Proof. destruct s as [tb sv Hk]. simpl. intros ->. unfold idb_end. simpl. by destruct b. Qed.
Lemma existsb_none {A} (f : A → bool) l x : existsb f l = false → x ∈ l → f x = false.
Proof.
  intros H Hx. apply not_true_iff_false. intros Hf. apply not_true_iff_false in H. apply H, existsb_exists.
  exists x. split; [by apply list_elem_of_In|done].
Qed.
Lemma install_spec {Row} `{!IamTable Row} {A} (a : A) (m : stored Row) s x s' :
  install a m s = (x, s') → idb_saved s' = idb_saved s ∧
  match x with Ok a' => a' = a ∧ idb_tables s' = put_rows m (idb_tables s) | Err _ => idb_tables s' = idb_tables s end.
Proof. unfold install. destruct (bool_dec _ _); intros [= <- <-]; done. Qed.
Lemma next_id_fresh {Row} (m : stored Row) : fresh_id (next_id m) m.
Proof.
  split; [unfold next_id; lia|]. apply eq_None_not_Some. intros [v Hv].
  assert (next_id m ∈ (map_to_list m).*1) as Hin by (apply list_elem_of_fmap; exists (next_id m, v); split; [done|by apply elem_of_map_to_list]).
  assert (∀ l k, k ∈ l → (k ≤ foldr N.max 0 l)%N) as Hmax.
  { intros l k. induction l as [|y l IH]; [by intros ?%elem_of_nil|]. intros [->|Hk]%elem_of_cons; simpl; [lia|]. specialize (IH Hk). lia. }
  apply Hmax in Hin. unfold next_id in Hin at 1. lia.
Qed.

Lemma least_spec {Row} (l : list (N * Row)) :
  match least l with
  | Some r => ∃ k, (k, r) ∈ l ∧ ∀ x, x ∈ l → (k ≤ fst x)%N
  | None => l = []
  end.
Proof.
  unfold least.
  assert (match foldr (λ (x : N * Row) best, match best with Some y => if N.leb (fst x) (fst y) then Some x else Some y | None => Some x end) None l with
    | Some y => y ∈ l ∧ ∀ x, x ∈ l → (fst y ≤ fst x)%N | None => l = [] end) as H.
  { induction l as [|x l IH]; [done|]. cbn [foldr]. destruct (foldr _ None l) as [y|].
    - destruct IH as [Hy Hmin]. destruct (N.leb_spec (fst x) (fst y)).
      + split; [by left|]. intros z [->|Hz]%elem_of_cons; [lia|]. specialize (Hmin z Hz). lia.
      + split; [by right|]. intros z [->|Hz]%elem_of_cons; [lia|by apply Hmin].
    - subst l. split; [by left|]. intros z [->|Hz%elem_of_nil]%elem_of_cons; done. }
  destruct (foldr _ None l) as [[k r]|]; [|done]. destruct H as [Hin Hmin]. by exists k.
Qed.
Lemma find_none {A} (f : A → bool) l x : List.find f l = None → x ∈ l → f x = false.
Proof. intros H Hx. eapply find_none; [done|]. by apply list_elem_of_In. Qed.

#[export] Instance iam_laws : IamGormLaws IamDB.
Proof.
  refine {| tables := idb_tables; saved := idb_saved; tables_wf s := proj1 (idb_wf s) |}.
  - intros Row HT r s x s' H. simpl in H. unfold idb_Create in H. destruct (existsb _ _) eqn:Hc; [by simplify_eq|].
    apply install_spec in H as [Hs Hx]. split; [done|]. destruct x as [r'|]; [|done]. destruct Hx as [-> Ht].
    exists (next_id (current s)). split_and!; [apply next_id_fresh| |done|done].
    intros k v Hv. apply (existsb_none _ _ v Hc). apply list_elem_of_fmap. exists (k, v). split; [done|by apply elem_of_map_to_list].
  - intros Row HT preload p s x s' H. simpl in H. unfold idb_First in H.
    pose proof (least_spec (List.filter (λ x, p (snd x)) (map_to_list (visible (rows (idb_tables s)))))) as Hl.
    unfold current in H. destruct (least _) as [r|]; simplify_eq; split_and!; try done.
    + destruct Hl as (k & (Hin%list_elem_of_In%elem_of_map_to_list & Hp)%list_elem_of_In%filter_In & Hmin). exists k, r. split_and!; [done..|].
      intros k1 r1 H1 Hp1. apply (Hmin (k1, r1)), list_elem_of_In, filter_In. split; [by apply list_elem_of_In, elem_of_map_to_list|done].
    + intros _ k r Hk. destruct (p r) eqn:Hp; [|done]. exfalso. apply (not_elem_of_nil (k, r)). rewrite <- Hl.
      apply list_elem_of_In, filter_In. split; [by apply list_elem_of_In, elem_of_map_to_list|done].
  - intros Row HT preload p less s x s' H. simpl in H. unfold idb_Find in H. destruct (decide _) as [Hs|]; simplify_eq; [|done].
    split_and!; try done. eexists. split_and!; [done|apply sort_Slice_perm|done].
  - intros Row HT o l s x s' H. simpl in H. unfold idb_Page in H. simplify_eq. split_and!; try done. by eexists.
  - intros Row HT p s x s' H. simpl in H. unfold idb_Count in H. by simplify_eq.
  - intros Row HT r s x s' H. simpl in H. unfold idb_Save in H. destruct (existsb _ _) eqn:Hc; [by simplify_eq|].
    apply install_spec in H as [Hs Hx]. split; [done|]. destruct x; [|done]. destruct Hx as [_ Ht]. split; [by eexists|]. intros _. split; [|done].
    intros k v Hne Hk. assert (negb (bool_decide (k = row_id r)) && unique r (fst v) = false) as He.
    { apply (existsb_none _ _ (k, v) Hc). by apply elem_of_map_to_list. }
    by rewrite bool_decide_eq_false_2 in He by done.
  - intros Row HT p s x s' H. simpl in H. apply install_spec in H as [Hs Hx]. split; [done|]. destruct x; [by destruct Hx|done].
  - intros Row HT p s x s' H. simpl in H. apply install_spec in H as [Hs Hx]. split; [done|]. destruct x; [by destruct Hx|done].
  - intros Row HT p assign s x s' Ha H. simpl in H. apply install_spec in H as [Hs Hx]. split; [done|]. destruct x; [by destruct Hx|done].
  - intros Row HT conflict assign r s x s' H. simpl in H. unfold idb_Upsert in H.
    destruct (List.find _ _) as [[k v]|] eqn:Hf.
    + apply install_spec in H as [Hs Hx]. split; [done|]. destruct x; [|done]. destruct Hx as [_ Ht]. left. exists k, v.
      apply find_some in Hf as [Hin Hc]. split_and!; [by apply elem_of_map_to_list, list_elem_of_In|done|done].
    + destruct (existsb _ _) eqn:Hc; [by simplify_eq|]. apply install_spec in H as [Hs Hx]. split; [done|].
      destruct x; [|done]. destruct Hx as [_ Ht]. right. split_and!.
      * intros k v Hk. apply (find_none _ _ (k, v) Hf). by apply elem_of_map_to_list.
      * intros k v Hv. apply (existsb_none _ _ v Hc). apply list_elem_of_fmap. exists (k, v). split; [done|by apply elem_of_map_to_list].
      * exists (next_id (current s)). split; [apply next_id_fresh|done].
  - done.
  - intros t ts s x s' Hs H. simpl in H. simplify_eq. destruct (idb_end_spec true s t ts Hs). by split.
  - intros t ts s Hs. destruct (idb_end_spec false s t ts Hs). by split.
Defined.

(** ** The enforcer *)
Record RuleSet := mkRules { ru_policies : list policy; ru_groupings : list grouping; ru_links : list grouping }.
Fixpoint reach (l : list grouping) (domain y : string) (n : nat) (x : string) : bool :=
  if bool_decide (x = y) then true else
  match n with
  | O => false
  | S n' => existsb (λ g, if bool_decide (fst (fst g) = x) && bool_decide (snd g = domain) then reach l domain y n' (snd (fst g)) else false) l
  end.
Fixpoint segments_match (obj pat : list string) : bool :=
  match pat, obj with
  | [], [] => true
  | p :: pat', x :: obj' =>
      bool_decide (p = "*") ||
      ((String.prefix ":" p && negb (bool_decide (x = "")) || bool_decide (p = x)) && segments_match obj' pat')
  | _, _ => false
  end.
Definition key_match (obj pat : string) : bool := segments_match (Split obj "/") (Split pat "/").
Fixpoint without_parens (s : string) : string :=
  match s with
  | "" => ""
  | String c s' => if bool_decide (c = "("%char) || bool_decide (c = ")"%char) then without_parens s' else String c (without_parens s')
  end%string.
Definition action_match (act pat : string) : bool := existsb (λ p, bool_decide (p = act)) (Split (without_parens pat) "|").
Definition rule_matches (e : RuleSet) (sub dom obj act : string) (p : policy) : bool :=
  let '(psub, pdom, pobj, pact) := p in
  let g d := reach (ru_links e) d psub 10 sub in
  (g dom || g globalDomain) && (bool_decide (pdom = globalDomain) || bool_decide (dom = pdom)) && key_match obj pobj && action_match act pact.
#[export] Instance rule_enforcer : Enforcer RuleSet := {|
  keyMatch2 := key_match; regexMatch := action_match;
  ClearPolicy := λ e, mkRules [] [] (ru_links e);
  AddPolicy := λ sub dom obj act e, (Ok tt, mkRules ((sub, dom, obj, act) :: ru_policies e) (ru_groupings e) (ru_links e));
  AddGroupingPolicy := λ sub role dom e, (Ok tt, mkRules (ru_policies e) ((sub, role, dom) :: ru_groupings e) (ru_links e));
  RemoveFilteredGroupingPolicy := λ sub e,
    (Ok tt, mkRules (ru_policies e) (filter (λ g, fst (fst g) ≠ sub) (ru_groupings e)) (filter (λ g, fst (fst g) ≠ sub) (ru_links e)));
  BuildRoleLinks := λ e, (Ok tt, mkRules (ru_policies e) (ru_groupings e) (ru_groupings e));
  Enforce := λ sub dom obj act e, Ok (existsb (rule_matches e sub dom obj act) (ru_policies e))
|}.

Lemma if_or (b c : bool) : (if b then true else c) = true ↔ b = true ∨ c = true.
Proof. destruct b; naive_solver. Qed.
Lemma if_and (b c : bool) : (if b then c else false) = b && c.
Proof. by destruct b. Qed.
Lemma reach_spec (links : list grouping) domain y n x :
  reach links domain y n x = true ↔ ∃ m, m ≤ n ∧ nsteps (λ a b, (a, b, domain) ∈ (list_to_set links : gset grouping)) m x y.
Proof.
  revert x. induction n as [|n IH]; intros x; cbn [reach]; rewrite if_or, bool_decide_eq_true.
  - split; [intros [->|]; [exists 0; split; [lia|constructor]|done]|].
    intros (m & Hm & Hs). assert (m = 0) as -> by lia. left. by inversion Hs.
  - rewrite existsb_exists. split.
    + intros [->|([[a b] d] & Hin & Hb)]; [exists 0; split; [lia|constructor]|]. simpl in Hb.
      rewrite if_and in Hb. apply andb_true_iff in Hb as [Hb Hr]. apply andb_true_iff in Hb as [->%bool_decide_eq_true ->%bool_decide_eq_true].
      apply IH in Hr as (m & Hm & Hs). exists (S m). split; [lia|]. apply nsteps_l with b; [|done].
      by apply elem_of_list_to_set, list_elem_of_In.
    + intros (m & Hm & Hs). destruct Hs as [x|m x b z Hxb Hs]; [by left|right]. exists (x, b, domain).
      split; [by apply list_elem_of_In, (elem_of_list_to_set (C := gset grouping))|]. simpl. rewrite !bool_decide_eq_true_2 by done. simpl.
      apply IH. exists m. split; [lia|done].
Qed.
#[export] Instance rule_laws : EnforcerLaws RuleSet.
Proof.
  refine {| policies := λ e, list_to_set (ru_policies e); groupings := λ e, list_to_set (ru_groupings e); links := λ e, list_to_set (ru_links e) |}.
  - done.
  - by intros * [= <- <-].
  - by intros * [= <- <-].
  - intros * [= <- <-]. split; [done|]. split; [cbn [ru_groupings]; apply set_eq; intros g; by rewrite elem_of_filter, !elem_of_list_to_set, list_elem_of_filter|]. cbn [ru_links ru_groupings].
    intros H. apply set_eq. intros g. rewrite !elem_of_list_to_set, !list_elem_of_filter. apply (f_equal (λ X, g ∈ X)) in H.
    rewrite <- !(elem_of_list_to_set (C := gset grouping)). by rewrite H.
  - by intros * [= <- <-].
  - intros sub dom obj act e b [= <-]. rewrite existsb_exists. unfold matches, linked.
    apply exist_proper. intros [[[psub pdom] pobj] pact].
    unfold rule_matches; cbv beta iota zeta; cbn [keyMatch2 regexMatch rule_enforcer].
    rewrite <- list_elem_of_In, elem_of_list_to_set, !andb_true_iff, !orb_true_iff, !reach_spec, !bool_decide_eq_true. tauto.
Defined.
