(* ===== verification/IamInvariant.v ===== *)
(** * manager/iam: what stays true of the tables

    One binding of a user per organization, a hierarchy without cycles or
    missing parents, and an administrator for every organization that has one:
    which operation changes which table, and what it keeps. *)

From S2P Require Import Prelude ToolTypes Password IamDao Iam IamAuthorization.
Import IAM.

(** ** What is visible after a change *)
Section Visible.
Context {Row : Type}.
Implicit Types m : stored Row.

Lemma visible_insert m k r : visible (<[k := (r, false)]> m) = <[k := r]> (visible m).
Proof.
  apply map_eq. intros i. apply option_eq. intros r'. rewrite visible_row_Some, !lookup_insert_Some, visible_row_Some. naive_solver.
Qed.
Lemma visible_marked m (p : Row → bool) k r :
  visible ((λ v : Row * bool, (fst v, snd v || p (fst v))) <$> m) !! k = Some r ↔ visible m !! k = Some r ∧ p r = false.
Proof.
  rewrite !visible_row_Some, lookup_fmap_Some. split.
  - intros ([r' d] & Hv & Hk). simpl in Hv. injection Hv as -> Hd. apply orb_false_iff in Hd as [-> ?]. done.
  - intros [Hk Hp]. exists (r, false). simpl. by rewrite Hp.
Qed.
Lemma fresh_invisible m id : fresh_id id m → visible m !! id = None.
Proof.
  intros [_ H]. destruct (visible m !! id) as [r|] eqn:E; [|done]. apply visible_row_Some in E. congruence.
Qed.
End Visible.

(** ** Calls that keep a property of the tables *)
Section Keeping.
Context {DB E : Type} {i_gorm : IamGorm DB} {l_gorm : IamGormLaws DB} {i_enforcer : Enforcer E} {l_enforcer : EnforcerLaws E}.
Abbreviation St := (IAMService DB E).
Abbreviation view s := (tables (repo s)).
Context (I : IamTables → Prop).

Definition keeps {A} (m : Op DB A) : Prop := ∀ s x s', m s = (x, s') → I (tables s) → I (tables s') ∧ saved s' = saved s.
Definition keeps_service {A} (m : Op St A) : Prop := ∀ s x s',
  m s = (x, s') → I (view s) → I (view s') ∧ saved (repo s') = saved (repo s).

Lemma keeps_reads {A} (m : Op DB A) : reads m → keeps m.
Proof. intros Hm s x s' H HI. apply Hm in H as [-> ->]. done. Qed.
Lemma keeps_tables_bind {A B} (m : Op DB A) (k : A → Op DB B) : keeps m → (∀ a, keeps (k a)) → keeps (bind m k).
Proof.
  intros Hm Hk s x s' H HI. unfold bind in H. destruct (m s) as [[a|e] s1] eqn:E1; destruct (Hm _ _ _ E1 HI) as [H1 H2].
  - destruct (Hk a _ _ _ H H1) as [H3 H4]. split; [done|congruence].
  - by simplify_eq.
Qed.
Lemma keeps_tables_map_err {A} f (m : Op DB A) : keeps m → keeps (map_err f m).
Proof. intros Hm s x s' H. apply map_err_ok in H as (y & Hy & _). by apply (Hm _ _ _ Hy). Qed.
Lemma keeps_for_each {A} (f : A → Op DB unit) l : (∀ a, keeps (f a)) → keeps (for_each f l).
Proof. intros Hf. induction l as [|a l IH]; cbn [for_each]; [apply keeps_reads, reads_ret|by apply keeps_tables_bind]. Qed.

Lemma keeps_Create {Row} `{!IamTable Row} (r : Row) :
  (∀ t id m, I t → fresh_id id (rows (Row := Row) t) → no_clash r (rows t) →
    m = <[id := (columns (with_id id r), false)]> (rows t) → I (put_rows m t)) → keeps (Create r).
Proof.
  intros HP s x s' H HI. apply Create_law in H as [Hs Hx]. split; [|done]. destruct x as [r'|]; [|by rewrite Hx].
  destruct Hx as (id & Hf & Hc & -> & ->). by eapply HP.
Qed.
Lemma keeps_Delete {Row} `{!IamTable Row} (p : Row → bool) :
  (∀ t, I t → I (put_rows ((λ v : Row * bool, (fst v, snd v || p (fst v))) <$> rows t) t)) → keeps (Delete p).
Proof. intros HP s x s' H HI. apply Delete_law in H as [Hs Hx]. split; [|done]. destruct x; rewrite Hx; auto. Qed.
Lemma keeps_Purge {Row} `{!IamTable Row} (p : Row → bool) : (∀ m t, I t → I (put_rows (Row := Row) m t)) → keeps (Purge p).
Proof. intros HP s x s' H HI. apply Purge_law in H as [Hs Hx]. split; [|done]. destruct x; rewrite Hx; auto. Qed.
Lemma keeps_Upsert {Row} `{!IamTable Row} conflict assign (r : Row) :
  (∀ m t, I t → I (put_rows (Row := Row) m t)) → keeps (Upsert conflict assign r).
Proof.
  intros HP s x s' H HI. apply Upsert_law in H as [Hs Hx]. split; [|done]. destruct x; [|by rewrite Hx].
  destruct Hx as [(k & v & _ & _ & ->)|(_ & _ & id & _ & ->)]; auto.
Qed.
Lemma keeps_Save {Row} `{!IamTable Row} (r : Row) : (∀ m t, I t → I (put_rows (Row := Row) m t)) → keeps (Save r).
Proof.
  intros HP s x s' H HI. apply Save_law in H as [Hs Hx]. split; [|done]. destruct x; [|by rewrite Hx].
  destruct Hx as [(m & ->) _]. auto.
Qed.
(** A transaction keeps what its body keeps, committed or not. *)
Lemma commit_then {A} wrap (a : A) (s : DB) x s' :
  (map_err wrap Commit ;; ret a) s = (x, s') → ∃ y, Commit s = (y, s') ∧ is_ok y = is_ok x ∧ (is_ok x = true → x = Ok a).
Proof.
  unfold bind. destruct (map_err wrap Commit s) as [x1 s1] eqn:E1. apply map_err_ok in E1 as (y & E1 & Hok & _).
  intros H. exists y. destruct x1; injection H as <- <-; by split_and!.
Qed.
Lemma keeps_in_tx {A} wrap (body : Op DB A) : keeps body → keeps (in_tx wrap body).
Proof.
  intros Hb s x s' H HI. unfold in_tx in H. destruct (Begin_law s) as [B1 B2].
  destruct (body (Begin s)) as [[a|e] s1] eqn:E1; (destruct (Hb _ _ _ E1) as [H1 H2]; [by rewrite B1|]); rewrite B2 in H2.
  - apply commit_then in H as (y & H & _). apply (Commit_law _ _ _ _ _ H2) in H as [H3 H4]. split; [|done].
    rewrite H4. by destruct y.
  - injection H as _ <-. apply Rollback_law in H2 as [-> ->]. done.
Qed.
Lemma keeps_Transaction (body : Op DB unit) : keeps body → keeps (Repo.Transaction body).
Proof.
  intros Hb s x s' H HI. apply (keeps_in_tx (λ e, e) body Hb s x s'); [|done]. unfold in_tx, Repo.Transaction in *.
  destruct (body (Begin s)) as [[[]|e] s1]; [|done]. unfold bind, map_err. rewrite H. by destruct x as [[]|].
Qed.

Lemma keeps_on_repo {A} (m : Op DB A) : keeps m → keeps_service (on_repo m).
Proof.
  intros Hm s x s' H HI. unfold on_repo in H. destruct (m (repo s)) as [y d] eqn:E1. injection H as _ <-. by apply (Hm _ _ _ E1).
Qed.
Lemma keeps_tables_quiet {A} (m : Op St A) : quiet m → keeps_service m.
Proof. intros Hm s x s' H HI. apply Hm in H as (-> & -> & _). done. Qed.
Lemma keeps_reload : keeps_service reloadAuthorization.
Proof. intros s x s' H HI. apply reload_sync in H as (-> & -> & _). done. Qed.
Lemma keeps_on_authorizer {A} (m : Op E A) : keeps_service (on_authorizer m).
Proof. intros s x s' H HI. unfold on_authorizer in H. destruct (m (authorizer s)). by injection H as _ <-. Qed.
Lemma keeps_service_bind {A B} (m : Op St A) (k : A → Op St B) :
  keeps_service m → (∀ a, keeps_service (k a)) → keeps_service (bind m k).
Proof.
  intros Hm Hk s x s' H HI. unfold bind in H. destruct (m s) as [[a|e] s1] eqn:E1; destruct (Hm _ _ _ E1 HI) as [H1 H2].
  - destruct (Hk a _ _ _ H H1) as [H3 H4]. split; [done|congruence].
  - by simplify_eq.
Qed.
End Keeping.

(** Takes a call apart down to the calls that write. *)
Ltac keeps_tac :=
  repeat first
    [ progress intros
    | match goal with
      | |- keeps _ (if ?b then _ else _) => destruct b
      | |- keeps_service _ (if ?b then _ else _) => destruct b
      | |- keeps _ (match ?x with _ => _ end) => destruct x
      | |- keeps_service _ (match ?x with _ => _ end) => destruct x
      end
    | apply keeps_reload | apply keeps_service_bind | apply keeps_tables_bind | apply keeps_on_authorizer
    | apply keeps_in_tx | apply keeps_tables_map_err | apply keeps_for_each
    | solve [apply keeps_tables_quiet; quiet_tac] | solve [apply keeps_reads; quiet_tac]
    | apply keeps_on_repo ].

(** ** Role bindings *)
Section Bindings.
Context {DB E : Type} {i_gorm : IamGorm DB} {l_gorm : IamGormLaws DB} {i_enforcer : Enforcer E} {l_enforcer : EnforcerLaws E}.
Abbreviation St := (IAMService DB E).
Abbreviation view s := (tables (repo s)).

(** At most one binding of a user in an organization. *)
Definition single (t : IamTables) : Prop := ∀ k k' b b',
  visible (iam_role_bindings t) !! k = Some b → visible (iam_role_bindings t) !! k' = Some b' →
  b_OrganizationID b = b_OrganizationID b' → b_UserID b = b_UserID b' → k = k'.

(** The user is bound to the role in the organization. *)
Definition bound (t : IamTables) (organizationID userID roleID : N) (inherit : bool) : Prop := ∃ k b,
  visible (iam_role_bindings t) !! k = Some b ∧ b_OrganizationID b = organizationID ∧ b_UserID b = userID ∧
  b_RoleID b = roleID ∧ b_InheritChildren b = inherit.

(** A binding upserted where the user had none. *)
Lemma upsert_binding s (b : IAMRoleBinding) s' :
  Repo.UpsertIAMRoleBinding b s = (Ok tt, s') →
  (∀ k b', visible (iam_role_bindings (tables s)) !! k = Some b' → Repo.binding_of (b_OrganizationID b) (b_UserID b) b' = false) →
  ∃ k b1, visible (iam_role_bindings (tables s)) !! k = None ∧
    visible (iam_role_bindings (tables s')) = <[k := b1]> (visible (iam_role_bindings (tables s))) ∧
    b_OrganizationID b1 = b_OrganizationID b ∧ b_UserID b1 = b_UserID b ∧ b_RoleID b1 = b_RoleID b ∧
    b_InheritChildren b1 = b_InheritChildren b.
Proof.
  intros H Hnone. apply Upsert_law in H as [_ [(k & v & Hv & Hc & Ht)|(_ & _ & id & Hf & Ht)]].
  - apply andb_true_iff in Hc as [Hc Ho%bool_decide_eq_true]. apply andb_true_iff in Hc as [Hu%bool_decide_eq_true Hr%bool_decide_eq_true].
    destruct v as [old d]. simpl in *.
    exists k, (columns (old<| b_InheritChildren := b_InheritChildren b |>)). rewrite Ht. simpl. rewrite visible_insert. split_and!; try done.
    destruct (visible _ !! k) as [b'|] eqn:Ek; [|done]. pose proof (Hnone _ _ Ek) as Hb. apply visible_row_Some in Ek.
    assert (b' = old) as -> by congruence. unfold Repo.binding_of in Hb. rewrite !bool_decide_eq_true_2 in Hb by done. done.
  - exists id, (columns (with_id id b)). rewrite Ht. simpl. rewrite visible_insert. split_and!; try done. by apply fresh_invisible.
Qed.

Lemma upsert_frame {Row} `{!IamTable Row} conflict assign (r : Row) (s : DB) x s' :
  Upsert conflict assign r s = (x, s') → saved s' = saved s ∧ ∃ m : stored Row, tables s' = put_rows m (tables s).
Proof.
  intros H. apply Upsert_law in H as [Hs Hx]. split; [done|]. destruct x.
  - destruct Hx as [(k & v & _ & _ & ->)|(_ & _ & id & _ & ->)]; by eexists.
  - exists (rows (tables s)). by rewrite put_rows_same.
Qed.

(** The tables [setOrganizationRole] leaves alone. *)
Definition same_rest (t t' : IamTables) : Prop :=
  iam_organizations t' = iam_organizations t ∧ iam_roles t' = iam_roles t ∧ iam_permissions t' = iam_permissions t ∧
  iam_role_permissions t' = iam_role_permissions t ∧ users t' = users t.
(** One user's binding in one organization replaced. *)
Definition rebound (t t' : IamTables) (organizationID userID roleID : N) (inherit : bool) : Prop := ∃ k b1,
  (∀ i b, visible (iam_role_bindings t') !! i = Some b ↔ (i = k ∧ b = b1) ∨
    (i ≠ k ∧ visible (iam_role_bindings t) !! i = Some b ∧ Repo.binding_of organizationID userID b = false)) ∧
  (∀ b, visible (iam_role_bindings t) !! k = Some b → Repo.binding_of organizationID userID b = true) ∧
  b_OrganizationID b1 = organizationID ∧ b_UserID b1 = userID ∧ b_RoleID b1 = roleID ∧ b_InheritChildren b1 = inherit.

(** The body of [setOrganizationRole]'s transaction. *)
Definition set_role_body (organizationID userID : N) (role : IAMRole) (inherit : bool) : Op DB unit :=
  map_err (during "save organization membership")
    (Repo.UpsertOrganizationMembership (mkOrgMembership 0 organizationID userID "")) ;;
  map_err (during "replace role binding") (Repo.DeleteIAMRoleBinding organizationID userID) ;;
  map_err (during "save role binding")
    (Repo.UpsertIAMRoleBinding (mkIAMRoleBinding 0 userID (ro_ID role) organizationID inherit None None)).
Lemma set_role_body_spec s organizationID userID role inherit x s' :
  set_role_body organizationID userID role inherit s = (x, s') →
  saved s' = saved s ∧ same_rest (tables s) (tables s') ∧
  (is_ok x = true → rebound (tables s) (tables s') organizationID userID (ro_ID role) inherit).
Proof.
  intros H. unfold set_role_body, bind in H.
  destruct (map_err _ (Repo.UpsertOrganizationMembership _) s) as [x1 s1] eqn:E1. apply map_err_ok in E1 as (y1 & E1 & Hok1 & _).
  destruct (upsert_frame _ _ _ _ _ _ E1) as (S1 & m1 & T1).
  destruct x1 as [[]|]; [|injection H as <- <-; unfold same_rest; rewrite T1; by split_and!].
  destruct (map_err _ (Repo.DeleteIAMRoleBinding _ _) s1) as [x2 s2] eqn:E2. apply map_err_ok in E2 as (y2 & E2 & Hok2 & _).
  apply Delete_law in E2 as [S2 T2].
  destruct x2 as [[]|]; destruct y2 as [[]|]; try discriminate;
    [|injection H as <- <-; unfold same_rest; rewrite S2, T2, T1; by split_and!].
  assert (∀ i b, visible (iam_role_bindings (tables s2)) !! i = Some b ↔
    visible (iam_role_bindings (tables s)) !! i = Some b ∧ Repo.binding_of organizationID userID b = false) as V2.
  { intros i b. rewrite T2. simpl. rewrite visible_marked, T1. done. }
  apply map_err_ok in H as (y3 & E3 & Hok3 & _). destruct (upsert_frame _ _ _ _ _ _ E3) as (S3 & m3 & T3).
  split_and!; [congruence|unfold same_rest; rewrite T3, T2, T1; by split_and!|]. rewrite <- Hok3. intros Hok.
  destruct y3 as [[]|]; [|done].
  destruct (upsert_binding _ _ _ E3) as (k & b1 & Hk & Hv & H1 & H2 & H3 & H4); [by intros k b [_ ?]%V2|].
  exists k, b1. split_and!; [| |done..].
  - intros i b. rewrite Hv, lookup_insert_Some, V2. naive_solver.
  - intros b Hb. destruct (Repo.binding_of organizationID userID b) eqn:Hof; [done|]. assert (visible (iam_role_bindings (tables s2)) !! k = Some b) by (by apply V2). congruence.
Qed.

Lemma in_tx_spec {A} wrap (body : Op DB A) s x s' :
  (∀ y s1, body (Begin s) = (y, s1) → saved s1 = saved (Begin s)) → in_tx wrap body s = (x, s') → saved s' = saved s ∧
  match x with
  | Ok a => ∃ s1, body (Begin s) = (Ok a, s1) ∧ tables s' = tables s1
  | Err _ => tables s' = tables s
  end.
Proof.
  intros Hb H. unfold in_tx in H. destruct (Begin_law s) as [B1 B2].
  destruct (body (Begin s)) as [[a|e] s1] eqn:E1; (pose proof (Hb _ _ eq_refl) as H2); rewrite B2 in H2.
  - apply commit_then in H as (y & H & Hok & Ha). apply (Commit_law _ _ _ _ _ H2) in H as [H3 H4]. split; [done|].
    destruct x as [a'|], y; try discriminate; [|done]. injection (Ha eq_refl) as ->. by exists s1.
  - injection H as <- <-. by apply Rollback_law in H2 as [-> ->].
Qed.
Lemma rebound_Begin s t' o u r i : rebound (tables (Begin s)) t' o u r i ↔ rebound (tables s) t' o u r i.
Proof. destruct (Begin_law s) as [-> _]. done. Qed.

(** [setOrganizationRole] changes nothing, or it binds the user to the role and
    to no other; when it succeeds, checks answer by the new tables. *)
Lemma setOrganizationRole_spec organizationID userID roleCode inherit s x s' :
  setOrganizationRole organizationID userID roleCode inherit s = (x, s') →
  saved (repo s') = saved (repo s) ∧
  ((is_ok x = false ∧ view s' = view s) ∨
   ∃ k role, visible (iam_roles (view s)) !! k = Some role ∧ ro_Code role = roleCode ∧
     same_rest (view s) (view s') ∧ rebound (view s) (view s') organizationID userID (ro_ID role) inherit ∧
     (is_ok x = true → in_sync s')).
Proof.
  intros H. unfold setOrganizationRole in H. destruct (negb _); [injection H as <- <-; split; [done|by left]|].
  unfold bind at 1 in H. destruct (on_repo _ s) as [x1 s1] eqn:E1.
  assert (quiet (on_repo (Repo.GetIAMRoleByCode roleCode) : Op St _)) as Hq by (unfold Repo.GetIAMRoleByCode; quiet_tac).
  pose proof (Hq _ _ _ E1) as (V1 & S1 & A1). destruct x1 as [[role|]|]; cycle 1.
  { cbv beta iota delta [of_option bind] in H. injection H as <- <-. split; [done|by left]. }
  { injection H as <- <-. split; [done|by left]. }
  assert (∃ k, visible (iam_roles (view s)) !! k = Some role ∧ ro_Code role = roleCode) as (k & Hk & Hc).
  { unfold on_repo, Repo.GetIAMRoleByCode, Repo.or_nil in E1.
    destruct (First _ _ (repo s)) as [[r|e] d] eqn:E2; [|by destruct (Is _ _)].
    injection E1 as -> _. apply First_law in E2 as (_ & _ & k & r0 & Hk & Hp & -> & _). exists k. split; [done|by bools]. }
  cbn [of_option bind] in H. unfold bind at 1 in H. cbn [of_option] in H.
  change (bind (on_repo (in_tx (during "commit role binding") (set_role_body organizationID userID role inherit)))
    (λ _, reloadAuthorization) s1 = (x, s')) in H.
  unfold bind in H. destruct (on_repo (in_tx _ _) s1) as [x2 s2] eqn:E2.
  unfold on_repo in E2. destruct (in_tx _ _ (repo s1)) as [y2 d2] eqn:E3. injection E2 as <- <-.
  apply in_tx_spec in E3; [|intros y t Ht; by apply set_role_body_spec in Ht as [? _]]. destruct E3 as [S2 T2].
  destruct y2 as [[]|e]; simpl in T2.
  - destruct T2 as (s3 & E3 & T2). apply set_role_body_spec in E3 as (_ & Hrest & Hre). specialize (Hre eq_refl).
    destruct (Begin_law (repo s1)) as [B1 _]. rewrite B1 in Hrest, Hre.
    apply reload_sync in H as (V3 & S3 & Hsync). split; [simpl in S3; congruence|]. right. exists k, role. simpl in V3.
    rewrite V1 in Hrest, Hre. rewrite V3, T2. by split_and!.
  - injection H as <- <-. simpl. split; [congruence|]. left. split; [done|congruence].
Qed.
End Bindings.

(** ** The hierarchy as a relation *)
Section Relations.
Context (R : N → N → Prop) (id p : N).
(** [id]'s parent replaced by [p]. *)
Definition reparented (x y : N) : Prop := (x = id ∧ y = p) ∨ (x ≠ id ∧ R x y).

Lemma reparented_to x : rtc reparented x id → rtc R x id.
Proof.
  intros H. remember id as z eqn:Hz. induction H as [x|x y z Hxy _ IH]; [done|]. subst z.
  destruct Hxy as [[-> ->]|[Hne Hxy]]; [done|]. apply rtc_l with y; [done|by apply IH].
Qed.
Lemma reparented_through x y : tc reparented x y → tc R x y ∨ (rtc reparented x id ∧ rtc reparented p y).
Proof.
  induction 1 as [x y [[-> ->]|[_ Hxy]]|x z y Hxz Hzy IH].
  - by right.
  - left. by apply tc_once.
  - destruct Hxz as [[-> ->]|[Hne Hxz]]; [right; split; [done|by apply tc_rtc]|].
    destruct IH as [IH|[H1 H2]]; [left; by apply tc_l with z|right; split; [|done]].
    apply rtc_l with z; [by right|done].
Qed.
Lemma reparented_acyclic : (∀ x, ¬ tc R x x) → ¬ rtc R p id → ∀ x, ¬ tc reparented x x.
Proof.
  intros Ha Hn x [H|[H1 H2]]%reparented_through; [by apply Ha in H|]. apply Hn, reparented_to. by trans x.
Qed.
End Relations.

Section HierarchyInvariant.
Definition organizations_of (t : IamTables) : gmap N Organization := visible (iam_organizations t).
Definition rooted (t : IamTables) : Prop := ∀ x y, child t x y → is_Some (organizations_of t !! y).
Definition acyclic (t : IamTables) : Prop := ∀ x, ¬ tc (child t) x x.
Definition hierarchy (t : IamTables) : Prop := rooted t ∧ acyclic t.

Lemma child_visible t x y : child t x y → is_Some (organizations_of t !! x).
Proof. intros (o & Ho & _). by exists o. Qed.
Lemma tc_mono (R S : N → N → Prop) x y : (∀ x y, R x y → S x y) → tc R x y → tc S x y.
Proof. intros H. by apply (tc_congruence (λ x, x)). Qed.

(** Another way to the same hierarchy. *)
Lemma hierarchy_ext t t' : organizations_of t' = organizations_of t → hierarchy t → hierarchy t'.
Proof. unfold hierarchy, rooted, acyclic, child. fold (organizations_of t) (organizations_of t'). by intros ->. Qed.

(** A new organization below an existing one, or at the top. *)
Lemma hierarchy_create t t' k o :
  hierarchy t → organizations_of t !! k = None → organizations_of t' = <[k := o]> (organizations_of t) →
  (∀ p, o_ParentID o = Some p → is_Some (organizations_of t !! p)) → hierarchy t'.
Proof.
  intros [Hr Ha] Hk Ht Hp.
  assert (∀ x y, child t' x y ↔ (x = k ∧ o_ParentID o = Some y) ∨ (x ≠ k ∧ child t x y)) as Hc.
  { intros x y. unfold child. fold (organizations_of t) (organizations_of t'). rewrite Ht.
    setoid_rewrite lookup_insert_Some. split; [naive_solver|]. intros [[-> H]|[Hne (o' & ? & ?)]]; naive_solver. }
  split.
  - intros x y [[-> H%Hp]|[_ H%Hr]]%Hc; rewrite Ht; destruct (decide (y = k)) as [->|Hne];
      rewrite ?lookup_insert_eq, ?lookup_insert_ne by done; eauto.
  - assert (∀ x, ¬ child t' x k) as Hnone.
    { intros x [[-> H%Hp]|[_ H%Hr]]%Hc; rewrite Hk in H; by destruct H. }
    assert (∀ x y, tc (child t') x y → x ≠ k → y ≠ k → tc (child t) x y) as Htc.
    { intros x y H. induction H as [x y H|x z y H H' IH]; intros Hx Hy.
      - apply Hc in H as [[-> _]|[_ H]]; [done|by apply tc_once].
      - destruct (decide (z = k)) as [->|Hz]; [by apply Hnone in H|]. apply Hc in H as [[-> _]|[_ H]]; [done|].
        apply tc_l with z; auto. }
    assert (∀ x y, tc (child t') x y → y ≠ k) as Hend.
    { intros x y H. induction H as [x y H|]; [|done]. intros ->. by apply Hnone in H. }
    intros x H. pose proof (Hend _ _ H) as Hx. by apply (Ha x), Htc.
Qed.
(** A changed row: everything but its parent may change. *)
Lemma child_save t t' id o : organizations_of t' = <[id := o]> (organizations_of t) →
  ∀ x y, child t' x y ↔ (x = id ∧ o_ParentID o = Some y) ∨ (x ≠ id ∧ child t x y).
Proof.
  intros Ht x y. unfold child. fold (organizations_of t) (organizations_of t'). rewrite Ht. setoid_rewrite lookup_insert_Some.
  split; [naive_solver|]. intros [[-> H]|[Hne (o' & ? & ?)]]; naive_solver.
Qed.
Lemma hierarchy_save t t' id o old :
  hierarchy t → organizations_of t !! id = Some old → organizations_of t' = <[id := o]> (organizations_of t) →
  (o_ParentID o = o_ParentID old ∨ o_ParentID o = None ∨
   ∃ p, o_ParentID o = Some p ∧ is_Some (organizations_of t !! p) ∧ ¬ rtc (child t) p id) → hierarchy t'.
Proof.
  intros [Hr Ha] Hold Ht Hp. pose proof (child_save t t' id o Ht) as Hc.
  assert (∀ y, is_Some (organizations_of t !! y) → is_Some (organizations_of t' !! y)) as Hs.
  { intros y Hy. rewrite Ht. destruct (decide (id = y)) as [->|]; [by rewrite lookup_insert_eq|by rewrite lookup_insert_ne]. }
  destruct Hp as [Hsame|[Hnone|(p & Hsome & Hpv & Hnr)]].
  - assert (∀ x y, child t' x y → child t x y) as Hsub.
    { intros x y [[-> H]|[_ H]]%Hc; [|done]. exists old. split; [done|congruence]. }
    split; [intros x y H%Hsub; eauto|]. intros x H. apply (Ha x). by eapply tc_mono.
  - assert (∀ x y, child t' x y → child t x y) as Hsub by (intros x y [[-> H]|[_ H]]%Hc; [congruence|done]).
    split; [intros x y H%Hsub; eauto|]. intros x H. apply (Ha x). by eapply tc_mono.
  - split; [intros x y [[-> H]|[_ H%Hr]]%Hc; [simplify_eq; eauto|eauto]|].
    intros x H. apply (reparented_acyclic (child t) id p Ha Hnr x). eapply tc_mono; [|done].
    intros x' y' [[-> H']|H']%Hc; [left; split; [done|congruence]|by right].
Qed.
(** A leaf removed. *)
Lemma hierarchy_delete t t' id :
  hierarchy t → (∀ k o, organizations_of t' !! k = Some o ↔ organizations_of t !! k = Some o ∧ k ≠ id) →
  (∀ k o, organizations_of t !! k = Some o → o_ParentID o ≠ Some id) → hierarchy t'.
Proof.
  intros [Hr Ha] Ht Hleaf.
  assert (∀ x y, child t' x y → child t x y ∧ y ≠ id) as Hsub.
  { intros x y (o & [Ho _]%Ht & Hp). split; [by exists o|]. intros ->. by apply (Hleaf _ _ Ho). }
  split.
  - intros x y [H Hne]%Hsub. destruct (Hr _ _ H) as [o Ho]. exists o. by apply Ht.
  - intros x H. apply (Ha x). eapply tc_mono; [|done]. by intros x' y' [? _]%Hsub.
Qed.
End HierarchyInvariant.

Section Operations.
Context {DB E : Type} {i_gorm : IamGorm DB} {l_gorm : IamGormLaws DB} {i_enforcer : Enforcer E} {l_enforcer : EnforcerLaws E}.
Abbreviation St := (IAMService DB E).
Abbreviation view s := (tables (repo s)).

(** What a look-up that answered found. *)
Lemma First_found {Row} `{!IamTable Row} p (s : DB) (r : Row) s' :
  Repo.or_nil (First Repo.plain p) s = (Ok (Some r), s') →
  visible (rows (tables s)) !! row_id r = Some r ∧ p r = true.
Proof.
  intros H. unfold Repo.or_nil in H. destruct (First _ _ s) as [[r'|e] s1] eqn:E1; [|by destruct (Is _ _)].
  injection H as -> <-. apply First_law in E1 as (_ & _ & k & r0 & Hk & Hp & Hr & _). unfold Repo.plain in Hr. subst r0.
  pose proof (visible_keyed _ _ _ Hk). by subst k.
Qed.
Lemma First_missing {Row} `{!IamTable Row} preload p (s : DB) s' :
  Repo.or_nil (First (Row := Row) preload p) s = (Ok None, s') → ∀ k r, visible (rows (tables s)) !! k = Some r → p r = false.
Proof.
  intros H. unfold Repo.or_nil in H. destruct (First _ _ s) as [[r'|e] s1] eqn:E1; [done|].
  destruct (Is e ErrRecordNotFound) eqn:He; [|done]. injection H as <-. apply First_law in E1 as (_ & _ & Hx). by apply Hx.
Qed.

(** The walk of [UpdateOrganizationFor]: no organization it passed is [id]. *)
Lemma check_ancestors_spec hops id cursor s s' :
  check_ancestors hops id cursor s = (Ok tt, s') →
  ∀ n y, n < hops → nsteps (child (tables s)) n cursor y → y ≠ id ∧ is_Some (organizations_of (tables s) !! y).
Proof.
  revert cursor s. induction hops as [|hops IH]; intros cursor s H n y Hn Hs; [lia|].
  cbn [check_ancestors] in H. unfold bind at 1 in H. destruct (Repo.GetOrganizationByID cursor s) as [[[o|]|e] s1] eqn:E1; [|done|done].
  assert (tables s1 = tables s) as T1 by (by apply (reads_or_nil _ (reads_First _ _)) in E1 as [? _]).
  apply First_found in E1 as [Ho Hid]. bools. simpl in Ho. rewrite Hid in Ho.
  cbn [of_option bind] in H. case_bool_decide as Hne; [done|]. destruct n as [|n].
  - inversion Hs; subst. split; [congruence|by exists o].
  - inversion Hs as [|? ? z ? (o' & Ho' & Hp) Hrest]; subst. simpl in Ho'. assert (o' = o) as -> by congruence.
    rewrite Hp in H. rewrite <- T1 in *. eapply IH; [done| |done]. lia.
Qed.
Lemma reads_check_ancestors hops id cursor : reads (check_ancestors hops id cursor : Op DB unit).
Proof.
  revert cursor. induction hops as [|hops IH]; intros cursor; cbn [check_ancestors]; [apply reads_ret|].
  unfold Repo.GetOrganizationByID. quiet_tac; eauto.
Qed.

Lemma trail_last_known parents l a b (Q : N → Prop) :
  trail parents l a b → l ≠ [] → (∀ y z, parent_step parents y z → Q z) → Q b.
Proof.
  intros H Hne HQ. induction H as [|x y z l Hxy Hl IH]; [done|]. destruct l; [inversion Hl; subst; eauto|by apply IH].
Qed.
(** In a hierarchy of at most [hops] organizations the walk sees them all. *)
Lemma check_ancestors_enough hops id cursor s s' :
  check_ancestors hops id cursor s = (Ok tt, s') → hierarchy (tables s) → size (organizations_of (tables s)) ≤ hops → 0 < hops →
  ¬ rtc (child (tables s)) cursor id.
Proof.
  intros H [Hr Ha] Hsize Hpos Hrtc. set (t := tables s) in *.
  set (parents := o_ParentID <$> organizations_of t).
  assert (∀ x y, parent_step parents x y ↔ child t x y) as Hstep.
  { intros x y. unfold parent_step, parents, child. fold (organizations_of t). rewrite lookup_fmap_Some. naive_solver. }
  assert (∃ n, n < hops ∧ nsteps (child t) n cursor id) as (n & Hn & Hs).
  2: by destruct (check_ancestors_spec _ _ _ _ _ H _ _ Hn Hs).
  apply rtc_nsteps in Hrtc as [n Hs]. destruct n as [|n]; [by exists 0|].
  apply (nsteps_congruence (λ x, x) (parent_step parents)) in Hs; [|intros; by apply Hstep].
  apply nsteps_trail in Hs as (l & Hlen & Hl). destruct (trail_shorten _ l _ _ Hl) as (l' & Hl' & Hne & Hnd); [by destruct l|].
  exists (length l'). split.
  - assert (length (id :: l') ≤ length (elements (dom parents))) as Hle.
    { apply submseteq_length, NoDup_submseteq.
      - apply NoDup_cons. split; [|done]. intros (l1 & l2 & ->)%list_elem_of_split. apply trail_suffix in Hl'.
        apply (Ha id). apply tc_nsteps. exists (length (id :: l2)). split; [simpl; lia|].
        apply (nsteps_congruence (λ x, x)  (R := parent_step parents)); [intros; by apply Hstep|]. apply nsteps_trail. by exists (id :: l2).
      - intros x [->|Hx]%elem_of_cons; apply elem_of_elements; [|by eapply trail_known].
        apply elem_of_dom. unfold parents. rewrite lookup_fmap, fmap_is_Some. apply (trail_last_known parents l' cursor id (λ z, is_Some (organizations_of t !! z))); [done|done|].
        intros y z Hyz. eapply Hr, Hstep, Hyz. }
    rewrite <- (size_dom (organizations_of t)) in Hsize. unfold parents in Hle. rewrite dom_fmap_L in Hle.
    unfold size, set_size in Hsize. simpl in *. lia.
  - apply (nsteps_congruence (λ x, x) (R := parent_step parents)); [intros; by apply Hstep|]. apply nsteps_trail. by exists l'.
Qed.

(** *** Who writes what *)
Lemma keeps_hierarchy_role o u c i : keeps_service hierarchy (setOrganizationRole o u c i : Op St unit).
Proof.
  intros s x s' H HI. apply setOrganizationRole_spec in H as [Hs [[_ ->]|(k & role & _ & _ & (Ho & _) & _)]]; [done|].
  split; [|done]. eapply hierarchy_ext; [|done]. unfold organizations_of. by rewrite Ho.
Qed.
Lemma rebound_single t t' o u r i : rebound t t' o u r i → single t → single t'.
Proof.
  intros (k & b1 & Hv & _ & Ho & Hu & _) Hs i1 i2 x y [[-> ->]|(_ & H1 & N1)]%Hv [[-> ->]|(_ & H2 & N2)]%Hv Eo Eu; [done| | |eauto];
    exfalso; unfold Repo.binding_of in *; rewrite !bool_decide_eq_true_2 in * by congruence; done.
Qed.
Lemma keeps_single_role o u c i : keeps_service single (setOrganizationRole o u c i : Op St unit).
Proof.
  intros s x s' H HI. apply setOrganizationRole_spec in H as [Hs [[_ ->]|(k & role & _ & _ & _ & Hr & _)]]; [done|].
  split; [|done]. by eapply rebound_single.
Qed.
Lemma single_ext t t' : visible (iam_role_bindings t') ⊆ visible (iam_role_bindings t) → single t → single t'.
Proof. intros Hsub Hs k k' b b' H1 H2. apply (Hs k k' b b'); by eapply lookup_weaken. Qed.
Lemma keeps_single_Delete (p : IAMRoleBinding → bool) : keeps single (Delete p : Op DB unit).
Proof.
  apply keeps_Delete. intros t. apply single_ext. simpl. apply map_subseteq_spec. intros k b H. by apply visible_marked in H as [? _].
Qed.
Lemma keeps_hierarchy_Delete (id : N) (s : DB) x s' :
  Repo.DeleteOrganization id s = (x, s') → hierarchy (tables s) →
  (∀ k o, organizations_of (tables s) !! k = Some o → o_ParentID o ≠ Some id) → hierarchy (tables s') ∧ saved s' = saved s.
Proof.
  intros H HI Hleaf. apply Delete_law in H as [Hs Hx]. split; [|done]. destruct x; [|by rewrite Hx].
  apply (hierarchy_delete (tables s) _ id); [done| |done]. intros k o. unfold organizations_of. rewrite Hx.
  etrans; [exact (visible_marked (iam_organizations (tables s)) (λ o, bool_decide (o_ID o = id)) k o)|]. pose proof (visible_keyed (Row := Organization) s k o) as Hk. simpl in Hk.
  split; intros [H1 H2]; (split; [done|]); [bools; by rewrite Hk in H2|]. apply bool_decide_eq_false. by rewrite Hk.
Qed.

(** *** The operations *)
Context (ToLower : string → string) (IDKey : string → string → N → N → N → N → string) (Version : N).
Context (salt : St → Result string) (random : nat → St → Result string).

Inductive iam_op :=
| OpCreateUser (organizationID : N) (name email password roleCode : string)
| OpUpdateUser (id : N) (name status : string) (roleCode : option string)
| OpResetUserPassword (id : N) (password : string)
| OpDeleteUser (id : N)
| OpCreateOrganization (name description : string) (parentID : option N)
| OpUpdateOrganization (id : N) (name description : string) (parentID : option N) (setParent : bool)
| OpDeleteOrganization (id : N)
| OpUpsertMember (organizationID userID : N) (role : string)
| OpRemoveMember (organizationID userID : N)
| OpSetUserFeaturePolicy (enabled : list string)
| OpBootstrap (root_description : string).
Definition void {A} (m : Op St A) : Op St unit := m ;; ret tt.
Definition perform (actor : option User) (op : iam_op) : Op St unit :=
  match op with
  | OpCreateUser o n e p r => void (CreateUserFor ToLower IDKey Version salt random actor o n e p r)
  | OpUpdateUser i n st r => void (UpdateUserFor actor i n st r)
  | OpResetUserPassword i p => ResetUserPasswordFor IDKey Version salt actor i p
  | OpDeleteUser i => DeleteUserFor actor i
  | OpCreateOrganization n d p => void (CreateOrganizationFor actor n d p)
  | OpUpdateOrganization i n d p b => void (UpdateOrganizationFor actor i n d p b)
  | OpDeleteOrganization i => DeleteOrganizationFor actor i
  | OpUpsertMember o u r => void (UpsertOrganizationMemberFor actor o u r)
  | OpRemoveMember o u => RemoveOrganizationMemberFor actor o u
  | OpSetUserFeaturePolicy l => SetUserFeaturePolicy actor l
  | OpBootstrap d => EnsureOrganizationBootstrap d
  end.

Lemma reads_with_roles o l : reads (with_roles o l : Op DB _).
Proof. induction l as [|m l IH]; cbn [with_roles]; [apply reads_ret|]. unfold Repo.GetIAMRoleBinding. quiet_tac; eauto. Qed.
Lemma reads_catalog_ids sel l : reads (catalog_ids sel l : Op DB _).
Proof.
  induction l as [|f l IH]; cbn [catalog_ids]; [apply reads_ret|]. unfold Repo.GetIAMPermissionByCode.
  apply reads_bind; [quiet_tac|]. intros p. apply reads_bind; [quiet_tac|]. intros p'. apply reads_bind; [done|]. intros []. quiet_tac.
Qed.
Lemma quiet_members o : quiet (listOrganizationMembersWithRoles o : Op St _).
Proof.
  unfold listOrganizationMembersWithRoles, Repo.ListOrganizationMembers. apply quiet_on_repo, reads_bind; [quiet_tac|].
  intros. apply reads_with_roles.
Qed.

(** Operations that write no organization keep whatever survives changes of
    the other tables, deleted bindings and a new role. *)
Section Common.
Context (I : IamTables → Prop).
Context (I_users : ∀ m t, I t → I (put_rows (Row := User) m t))
  (I_memberships : ∀ m t, I t → I (put_rows (Row := OrganizationMembership) m t))
  (I_grants : ∀ m t, I t → I (put_rows (Row := IAMRolePermission) m t))
  (I_unbind : ∀ p : IAMRoleBinding → bool, keeps I (Delete p : Op DB unit))
  (I_role : ∀ o u c i, keeps_service I (setOrganizationRole o u c i : Op St unit)).

Lemma keeps_create_user r : keeps I (Create (r : User) : Op DB User).
Proof. apply keeps_Create. intros t id m Ht _ _ _. by apply I_users. Qed.
Lemma keeps_create_grants roleID l : keeps I (Repo.create_grants roleID l : Op DB unit).
Proof.
  induction l as [|id l IH]; cbn [Repo.create_grants]; [apply keeps_reads, reads_ret|]. apply keeps_tables_bind; [|done].
  apply keeps_Create. intros t k m Ht _ _ _. by apply I_grants.
Qed.
Lemma keeps_unmember (p : OrganizationMembership → bool) : keeps I (Delete p : Op DB unit).
Proof. apply keeps_Delete. intros t Ht. by apply I_memberships. Qed.
Lemma keeps_delete_user (p : User → bool) : keeps I (Delete p : Op DB unit).
Proof. apply keeps_Delete. intros t Ht. by apply I_users. Qed.

Definition writes_organizations (op : iam_op) : bool :=
  match op with
  | OpCreateOrganization _ _ _ | OpUpdateOrganization _ _ _ _ _ | OpDeleteOrganization _ | OpBootstrap _ => true
  | _ => false
  end.
Lemma keeps_perform actor op : writes_organizations op = false → keeps_service I (perform actor op).
Proof.
  intros Hop. destruct op; try discriminate; cbn [perform]; unfold void, CreateUserFor, UpdateUserFor, ResetUserPasswordFor,
    DeleteUserFor, UpsertOrganizationMemberFor, RemoveOrganizationMemberFor, SetUserFeaturePolicy, hash_password,
    Repo.GetUserByID, Repo.GetOrganizationByID, Repo.CheckUserExists, Repo.GetIAMRoleByCode, Repo.GetIAMRoleBinding,
    Repo.GetOrganizationMembership, Repo.GetRootOrganization, Repo.CreateUser, Repo.UpdateUser, Repo.ReplaceIAMRolePermissionSubset,
    Repo.DeleteIAMRoleBindingsByUser, Repo.DeleteOrganizationMembershipsByUser, Repo.DeleteUser, Repo.DeleteIAMRoleBinding, Repo.DeleteOrganizationMembership.
  all: keeps_tac.
  all: try first [apply I_role | apply I_unbind | apply keeps_unmember | apply keeps_delete_user | apply keeps_create_user
    | apply keeps_Save; exact I_users | apply keeps_tables_quiet, quiet_members | apply keeps_reads, reads_catalog_ids
    | apply keeps_Transaction, keeps_tables_bind; [apply keeps_Purge, I_grants|intros; apply keeps_create_grants] ].
  all: try (apply keeps_reads, reads_with_roles).
  apply keeps_tables_quiet. intros s x s' H. case_bool_decide; [destruct (Password.GenerateRandomPassword _)|]; by injection H as <- <-.
Qed.
End Common.

Lemma hierarchy_perform_others actor op : writes_organizations op = false → keeps_service hierarchy (perform actor op).
Proof.
  apply keeps_perform; [by intros m t H..| |apply keeps_hierarchy_role]. intros p. apply keeps_Delete. by intros t H.
Qed.
Lemma single_perform_others actor op : writes_organizations op = false → keeps_service single (perform actor op).
Proof. apply keeps_perform; [by intros m t H..|apply keeps_single_Delete|apply keeps_single_role]. Qed.

(** *** Start-up *)
Lemma keeps_hierarchy_bootstrap root u c : keeps hierarchy (bootstrap_user root u c : Op DB unit).
Proof.
  unfold bootstrap_user, Repo.GetOrganizationMembership, Repo.GetIAMRoleBinding, Repo.GetIAMRoleByCode. keeps_tac; by apply keeps_Upsert.
Qed.
Lemma keeps_single_bootstrap root u c : keeps single (bootstrap_user root u c : Op DB unit).
Proof.
  unfold bootstrap_user. apply keeps_tables_bind; [unfold Repo.GetOrganizationMembership; keeps_tac|]. intros mb.
  apply keeps_tables_bind; [destruct mb; [keeps_tac|]; by apply keeps_tables_map_err, keeps_Upsert|]. intros [].
  intros s x s' H HI. unfold bind at 1 in H. destruct (map_err _ (Repo.GetIAMRoleBinding _ _) s) as [x1 s1] eqn:E1.
  apply map_err_ok in E1 as (y1 & E1 & _ & Hy).
  assert (tables s1 = tables s ∧ saved s1 = saved s) as [T1 S1] by (by apply (reads_or_nil _ (reads_First _ _)) in E1).
  destruct x1 as [[b|]|e]; [injection H as _ <-; by rewrite T1| |injection H as _ <-; by rewrite T1].
  assert (y1 = Ok None) as -> by (by apply Hy). pose proof (First_missing _ _ _ _ E1) as Hnone.
  unfold bind at 1 in H. destruct (Repo.GetIAMRoleByCode c s1) as [x2 s2] eqn:E2.
  assert (tables s2 = tables s ∧ saved s2 = saved s) as [T2 S2].
  { apply (reads_or_nil _ (reads_First _ _)) in E2 as [-> ->]. done. }
  destruct x2 as [[role|]|e]; [|injection H as _ <-; by rewrite T2..]. cbn [of_option bind] in H.
  apply map_err_ok in H as (y & H & _). destruct (upsert_frame _ _ _ _ _ _ H) as (S3 & m & T3). split; [|congruence].
  destruct y as [[]|e].
  - apply upsert_binding in H as (k & b1 & Hk & Hv & Ho & Hu & _); [|by rewrite T2]. rewrite T2 in Hk, Hv.
    intros i1 i2 x1 x2. rewrite Hv. intros [[<- <-]|[_ H1]]%lookup_insert_Some [[<- <-]|[_ H2]]%lookup_insert_Some Eo Eu; [done| | |eauto];
      exfalso; [apply Hnone in H2|apply Hnone in H1]; unfold Repo.binding_of in *; rewrite !bool_decide_eq_true_2 in * by (simpl in *; congruence); done.
  - apply Upsert_law in H as [_ H]. by rewrite H, T2.
Qed.

(** *** Organizations *)
(** A call that changes no table, and what comes after it. *)
Lemma quiet_step {A B} (I : IamTables → Prop) (m : Op St A) (k : A → Op St B) s x s' :
  quiet m → bind m k s = (x, s') → I (view s) →
  (I (view s') ∧ saved (repo s') = saved (repo s)) ∨
  ∃ a s1, m s = (Ok a, s1) ∧ k a s1 = (x, s') ∧ view s1 = view s ∧ saved (repo s1) = saved (repo s).
Proof.
  intros Hq H HI. unfold bind in H. destruct (m s) as [[a|e] s1] eqn:E1; destruct (Hq _ _ _ E1) as (V & S & _).
  - right. by exists a, s1.
  - injection H as _ <-. left. by rewrite V.
Qed.
Lemma on_repo_inv {A} (m : Op DB A) (s : St) x s' : on_repo m s = (x, s') → m (repo s) = (x, repo s') ∧ authorizer s' = authorizer s.
Proof. unfold on_repo. destruct (m (repo s)). by intros [= <- <-]. Qed.

Lemma create_keeps_hierarchy (o : Organization) wrap (s : DB) x s' :
  map_err wrap (Repo.CreateOrganization o) s = (x, s') → hierarchy (tables s) →
  (∀ p, o_ParentID o = Some p → is_Some (organizations_of (tables s) !! p)) → hierarchy (tables s') ∧ saved s' = saved s.
Proof.
  intros H HI Hp. apply map_err_ok in H as (y & H & _). apply Create_law in H as [Hs Hx]. split; [|done].
  destruct y as [o'|]; [|by rewrite Hx]. destruct Hx as (id & Hf & _ & -> & Ht).
  apply (hierarchy_create (tables s) _ id (columns (with_id id o))); [done|exact (fresh_invisible _ _ Hf)| |done].
  unfold organizations_of. rewrite Ht. simpl. by rewrite visible_insert.
Qed.
Lemma in_tx_keeps {A} (I : IamTables → Prop) wrap (body : Op DB A) (s : DB) x s' :
  (∀ y s1, body (Begin s) = (y, s1) → I (tables s1) ∧ saved s1 = saved (Begin s)) →
  in_tx wrap body s = (x, s') → I (tables s) → I (tables s') ∧ saved s' = saved s.
Proof.
  intros Hb H HI. apply in_tx_spec in H as [Hs Hx]; [|intros y s1 E1; by destruct (Hb _ _ E1)]. split; [|done].
  destruct x as [a|]; [|by rewrite Hx]. destruct Hx as (s1 & E1 & ->). by apply Hb in E1 as [? _].
Qed.

#[local] Opaque check_ancestors max_hops setOrganizationRole bootstrap_user.
Lemma single_organizations actor op :
  (∀ d, op ≠ OpBootstrap d) → writes_organizations op = true → keeps_service single (perform actor op).
Proof.
  intros Hb Hop. destruct op; try discriminate; [..|by destruct (Hb root_description)]; cbn [perform];
    unfold void, CreateOrganizationFor, UpdateOrganizationFor, DeleteOrganizationFor, Repo.GetRootOrganization, Repo.GetOrganizationByID,
      Repo.CreateOrganization, Repo.UpdateOrganization, Repo.CountOrganizationChildren, Repo.DeleteIAMRoleBindingsByOrganization,
      Repo.DeleteOrganizationMembershipsByOrganization, Repo.DeleteOrganization.
  all: keeps_tac.
  all: first [ apply keeps_single_role | apply keeps_single_Delete | by apply keeps_Save | apply keeps_reads, reads_check_ancestors
             | apply keeps_Create; by intros t id m Ht _ _ _ | apply keeps_Delete; by intros t Ht ].
Qed.
Lemma single_bootstrap actor d : keeps_service single (perform actor (OpBootstrap d)).
Proof.
  cbn [perform]. unfold EnsureOrganizationBootstrap, Repo.ListUsers, Repo.GetRootOrganization, Repo.CreateOrganization.
  apply keeps_service_bind; [apply keeps_tables_quiet; quiet_tac|]. intros [us n]. keeps_tac.
  all: first [ apply keeps_single_bootstrap | apply keeps_Create; by intros t id m Ht _ _ _ ].
Qed.

Lemma hierarchy_bootstrap actor d : keeps_service hierarchy (perform actor (OpBootstrap d)).
Proof.
  cbn [perform]. unfold EnsureOrganizationBootstrap, Repo.ListUsers, Repo.GetRootOrganization.
  apply keeps_service_bind; [apply keeps_tables_quiet; quiet_tac|]. intros [us n]. keeps_tac.
  all: first [ apply keeps_hierarchy_bootstrap | idtac ].
  intros s x s' H HI. apply (create_keeps_hierarchy (mkOrganization 0 DefaultOrganizationName d None true) (λ e, e) s x s'); [|done|by intros p [=]]. unfold map_err. rewrite H. by destruct x.
Qed.
Lemma GetOrganizationByID_found id (s : St) o s' :
  on_repo (Repo.GetOrganizationByID id) s = (Ok (Some o), s') → organizations_of (view s) !! id = Some o ∧ o_ID o = id.
Proof.
  intros [H _]%on_repo_inv. apply First_found in H as [Hv Hid]. bools. simpl in Hv. by rewrite Hid in Hv.
Qed.

Lemma hierarchy_create_organization actor name description parentID :
  keeps_service hierarchy (CreateOrganizationFor actor name description parentID : Op St Organization).
Proof.
  intros s x s' H HI. unfold CreateOrganizationFor in H. destruct (_ || _); [by injection H as _ <-|].
  eapply quiet_step in H as [?|(p & s1 & _ & H & V1 & S1)]; [done| |unfold Repo.GetRootOrganization; quiet_tac|done].
  rewrite <- V1 in HI. rewrite <- S1.
  eapply (quiet_step hierarchy) in H as [?|([] & s2 & E2 & H & V2 & S2)];
    [done| |unfold Repo.GetOrganizationByID; destruct p; quiet_tac|done].
  assert (∀ q, p = Some q → is_Some (organizations_of (view s2) !! q)) as Hp.
  { intros q ->. unfold bind at 1 in E2. destruct (on_repo _ s1) as [[[o|]|] s3] eqn:E3; [|done|done].
    apply GetOrganizationByID_found in E3 as [Ho _]. rewrite V2. by exists o. }
  rewrite <- V2 in HI. rewrite <- S2. clear E2 V1 V2 S1 S2 s s1. rename s2 into s.
  unfold bind in H at 1. destruct (on_repo _ s) as [x1 s1] eqn:E1. apply on_repo_inv in E1 as [E1 _].
  apply (in_tx_keeps hierarchy) in E1 as [HI1 S1]; [|intros y s2 H2; eapply create_keeps_hierarchy in H2; [done| |]|done].
  2, 3: by destruct (Begin_law (repo s)) as [-> _].
  destruct x1 as [o|]; [|by injection H as _ <-]. rewrite <- S1. revert H HI1. destruct actor as [u|].
  - apply (keeps_service_bind hierarchy); [apply keeps_hierarchy_role|]. intros []. apply keeps_tables_quiet, quiet_ret.
  - intros H HI1. by injection H as _ <-.
Qed.

(** The parent [UpdateOrganizationFor] settles on: the old one, none, or an
    organization that is not below the one that moves. *)
Definition sound_parent (t : IamTables) (id : N) (old new : option N) : Prop :=
  new = old ∨ new = None ∨ ∃ p, new = Some p ∧ is_Some (organizations_of t !! p) ∧ ¬ rtc (child t) p id.
Lemma max_hops_pos : 0 < max_hops.
Proof. apply Nat.ltb_lt. reflexivity. Qed.
Lemma checked_parent old (id p : N) (s : St) s' :
  on_repo (check_ancestors max_hops id p) s = (Ok tt, s') → hierarchy (view s) → size (organizations_of (view s)) ≤ max_hops →
  sound_parent (view s) id old (Some p).
Proof.
  intros [H _]%on_repo_inv HI Hsize. right; right. exists p. split; [done|].
  split; [|by eapply check_ancestors_enough; eauto using max_hops_pos].
  eapply check_ancestors_spec in H as [_ ?]; [done|apply max_hops_pos|constructor].
Qed.

Lemma save_keeps_hierarchy id (o old : Organization) wrap (s : DB) x s' :
  map_err wrap (Repo.UpdateOrganization o) s = (x, s') → hierarchy (tables s) → organizations_of (tables s) !! id = Some old → o_ID o = id →
  sound_parent (tables s) id (o_ParentID old) (o_ParentID o) → hierarchy (tables s') ∧ saved s' = saved s.
Proof.
  intros H HI Hold Hid Hp. apply map_err_ok in H as (y & H & _). apply Save_law in H as [Hs Hx]. split; [|done].
  destruct y as [[]|]; [|by rewrite Hx]. destruct Hx as [_ Hx]. simpl in Hx. rewrite Hid in Hx.
  destruct Hx as [_ Ht]; [by exists old|]. apply (hierarchy_save (tables s) _ id o old); [done|done| |done].
  unfold organizations_of. rewrite Ht. simpl. by rewrite visible_insert.
Qed.
Lemma hierarchy_update_organization actor id name description parentID setParent (s : St) x s' :
  UpdateOrganizationFor actor id name description parentID setParent s = (x, s') → hierarchy (view s) →
  size (organizations_of (view s)) ≤ max_hops → hierarchy (view s') ∧ saved (repo s') = saved (repo s).
Proof.
  intros H HI Hsize. unfold UpdateOrganizationFor in H.
  eapply (quiet_step hierarchy) in H as [?|([] & s1 & _ & H & V1 & S1)]; [done| |quiet_tac|done].
  rewrite <- V1 in HI, Hsize. rewrite <- S1. clear V1 S1 s.
  eapply (quiet_step hierarchy) in H as [?|(org & s2 & E2 & H & V2 & S2)]; [done| |unfold Repo.GetOrganizationByID; quiet_tac|done].
  destruct org as [org|]; [|by injection H as _ <-; rewrite V2, S2]. apply GetOrganizationByID_found in E2 as [Ho Hid].
  rewrite <- V2 in HI, Hsize, Ho. rewrite <- S2. clear V2 S2 s1. cbn [of_option bind] in H.
  destruct (o_IsRoot org && _ && _); [by injection H as _ <-|].
  set (org1 := _ <| o_Description := _ |>) in H.
  assert (o_ParentID org1 = o_ParentID org ∧ o_ID org1 = id) as [Hp1 Hid1] by (unfold org1; by destruct (bool_decide _)).
  clearbody org1.
  eapply (quiet_step hierarchy) in H as [?|(org2 & s3 & E3 & H & V3 & S3)];
    [done| |destruct setParent; [|quiet_tac]; destruct (_ && _); [quiet_tac|]; destruct parentID; quiet_tac; apply reads_check_ancestors|done].
  assert (o_ID org2 = id ∧ sound_parent (view s2) id (o_ParentID org) (o_ParentID org2)) as [Hid2 Hp2].
  { destruct setParent; [|injection E3 as <- _; by split; [|left]]. destruct (_ && _); [done|]. unfold bind at 1 in E3.
    destruct parentID as [p|]; [|injection E3 as <- _; by split; [|right; left]]. destruct (bool_decide _); [done|].
    unfold bind at 1 in E3. destruct (requirePermission _ _ _ _ s2) as [[[]|] s4] eqn:E4; [|done].
    destruct (quiet_requirePermission _ _ _ _ _ _ _ E4) as [V4 _].
    destruct (on_repo _ s4) as [[[]|] s5] eqn:E5; [|done]. injection E3 as <- _. split; [done|]. rewrite <- V4 in *. by eapply checked_parent. }
  unfold bind in H. destruct (on_repo _ s3) as [x4 s4] eqn:E4. apply on_repo_inv in E4 as [E4 _].
  rewrite <- V3 in *. rewrite <- S3. eapply save_keeps_hierarchy in E4; [|done..]. by destruct x4; injection H as _ <-.
Qed.

(** What the count of children says. *)
Lemma no_children id (s : St) n s' : on_repo (Repo.CountOrganizationChildren id) s = (Ok n, s') → N.ltb 0 n = false →
  ∀ k o, organizations_of (view s) !! k = Some o → o_ParentID o ≠ Some id.
Proof.
  intros [H _]%on_repo_inv Hn k o Ho Hp. apply Count_law in H as (_ & _ & ->). apply N.ltb_ge in Hn.
  assert (o ∈ List.filter (λ o : Organization, bool_decide (o_ParentID o = Some id)) (all_rows (visible (iam_organizations (view s))))) as Hin.
  { apply list_elem_of_In, filter_In. split; [|by apply bool_decide_eq_true]. apply list_elem_of_In. unfold all_rows.
    apply list_elem_of_fmap. exists (k, o). split; [done|]. by apply elem_of_map_to_list. }
  simpl in Hn. destruct (List.filter _ _); [by apply elem_of_nil in Hin|simpl in Hn; lia].
Qed.
Definition delete_body (id : N) : Op DB unit :=
  Repo.DeleteIAMRoleBindingsByOrganization id ;; Repo.DeleteOrganizationMembershipsByOrganization id ;; Repo.DeleteOrganization id.
Lemma delete_body_hierarchy id (s : DB) x s' :
  delete_body id s = (x, s') → hierarchy (tables s) → (∀ k o, organizations_of (tables s) !! k = Some o → o_ParentID o ≠ Some id) →
  hierarchy (tables s') ∧ saved s' = saved s.
Proof.
  intros H HI Hleaf. set (I := λ t, hierarchy t ∧ ∀ k o, organizations_of t !! k = Some o → o_ParentID o ≠ Some id).
  unfold delete_body, bind in H. destruct (Repo.DeleteIAMRoleBindingsByOrganization id s) as [x1 s1] eqn:E1.
  apply (keeps_Delete I) in E1 as [I1 S1]; [by split| |by intros t Ht]. destruct x1; [|injection H as _ <-; by destruct I1].
  destruct (Repo.DeleteOrganizationMembershipsByOrganization id s1) as [x2 s2] eqn:E2.
  apply (keeps_Delete I) in E2 as [I2 S2]; [done| |by intros t Ht]. rewrite <- S1, <- S2. destruct I2. destruct x2; [|by injection H as _ <-].
  by eapply keeps_hierarchy_Delete.
Qed.
Lemma hierarchy_delete_organization actor id : keeps_service hierarchy (DeleteOrganizationFor actor id : Op St unit).
Proof.
  intros s x s' H HI. unfold DeleteOrganizationFor in H.
  eapply (quiet_step hierarchy) in H as [?|([] & s1 & _ & H & V1 & S1)]; [done| |quiet_tac|done].
  rewrite <- V1 in HI. rewrite <- S1. clear V1 S1 s.
  eapply (quiet_step hierarchy) in H as [?|(org & s2 & _ & H & V2 & S2)]; [done| |unfold Repo.GetOrganizationByID; quiet_tac|done].
  rewrite <- V2 in HI. rewrite <- S2. clear V2 S2 s1. destruct org as [org|]; [|by injection H as _ <-].
  cbn [of_option bind] in H. destruct (o_IsRoot org); [by injection H as _ <-|].
  eapply (quiet_step hierarchy) in H as [?|(n & s3 & E3 & H & V3 & S3)]; [done| |unfold Repo.CountOrganizationChildren; quiet_tac|done].
  destruct (N.ltb 0 n) eqn:Hn; [by injection H as _ <-; rewrite V3, S3|]. pose proof (no_children _ _ _ _ E3 Hn) as Hleaf.
  rewrite <- V3 in *. rewrite <- S3. clear E3 V3 S3 s2. rename s3 into s. fold (delete_body id) in H.
  revert H HI. unfold bind at 1. destruct (on_repo _ s) as [x1 s1] eqn:E1. apply on_repo_inv in E1 as [E1 _]. intros H HI.
  apply (in_tx_keeps hierarchy) in E1 as [HI1 S1]; [|intros y d Hd; apply delete_body_hierarchy in Hd; [done| |]|done].
  2, 3: by destruct (Begin_law (repo s)) as [-> _].
  rewrite <- S1. destruct x1; [by apply (keeps_reload hierarchy _ _ _ H)|by injection H as _ <-].
Qed.
Lemma void_spec {A} (m : Op St A) s x s' : void m s = (x, s') → ∃ y, m s = (y, s') ∧ is_ok y = is_ok x.
Proof. unfold void, bind. destruct (m s) as [[a|e] s1]; intros [= <- <-]; by eexists. Qed.
(** Every operation keeps the hierarchy, as long as the walk of
    [UpdateOrganizationFor] can see all of it. *)
Lemma hierarchy_perform actor op (s : St) x s' :
  perform actor op s = (x, s') → hierarchy (view s) → size (organizations_of (view s)) ≤ max_hops →
  hierarchy (view s') ∧ saved (repo s') = saved (repo s).
Proof.
  intros H HI Hsize. destruct (writes_organizations op) eqn:Hw; [|by eapply hierarchy_perform_others].
  destruct op; try discriminate; [| | |by eapply (hierarchy_bootstrap actor)]; cbn [perform] in H.
  - apply void_spec in H as (y & H & _). by eapply hierarchy_create_organization.
  - apply void_spec in H as (y & H & _). by eapply hierarchy_update_organization.
  - by eapply hierarchy_delete_organization.
Qed.
Lemma single_perform actor op : keeps_service single (perform actor op).
Proof.
  destruct (writes_organizations op) eqn:Hw; [|by apply single_perform_others].
  destruct op; try discriminate; [apply single_organizations; [|done]; by intros d..|apply single_bootstrap].
Qed.
End Operations.
