(* ===== verification/IamTheorems.v ===== *)
(** * manager/iam: theorems

    Authorization refines the tables; the hierarchy walk is a transitive
    closure; every operation keeps one binding per user and organization and a
    hierarchy without cycles; an organization keeps an administrator. *)

From S2P Require Import Prelude ToolTypes Password IamDao Iam IamAuthorization IamDatabase IamInvariant.
Import IAM.

(** ** Lists *)
Lemma elem_of_List_filter {A} (p : A → bool) l x : x ∈ List.filter p l ↔ x ∈ l ∧ p x = true.
Proof. by rewrite !list_elem_of_In, filter_In. Qed.
Lemma sublist_List_filter {A} (p : A → bool) (l : list A) : List.filter p l `sublist_of` l.
Proof. induction l as [|x l IH]; simpl; [done|]. destruct (p x); by constructor. Qed.
Lemma NoDup_all_rows {Row} (id : Row → N) (m : gmap N Row) : (∀ k r, m !! k = Some r → id r = k) → NoDup (all_rows m).
Proof.
  intros Hk. apply (NoDup_fmap_1 id). unfold all_rows. rewrite <- list_fmap_compose.
  rewrite (list_fmap_ext _ fst); [apply NoDup_fst_map_to_list|].
  intros i [k r] Hi%list_elem_of_lookup_2%elem_of_map_to_list. by apply Hk.
Qed.

(** ** Administrators *)
Section Administrators.
Context {DB E : Type} {i_gorm : IamGorm DB} {l_gorm : IamGormLaws DB} {i_enforcer : Enforcer E} {l_enforcer : EnforcerLaws E}.
Abbreviation St := (IAMService DB E).
Abbreviation view s := (tables (repo s)).

(** The binding makes its user an administrator of its organization. *)
Definition admin_binding (t : IamTables) (b : IAMRoleBinding) : Prop := ∃ role,
  visible (iam_roles t) !! b_RoleID b = Some role ∧ ro_Code role = IAMRoleAdmin.
(** The organization has an administrator, other than [u] if given. *)
Definition administered (t : IamTables) (organizationID : N) : Prop := ∃ k b,
  visible (iam_role_bindings t) !! k = Some b ∧ b_OrganizationID b = organizationID ∧ admin_binding t b.
Definition administered_without (t : IamTables) (organizationID u : N) : Prop := ∃ k b,
  visible (iam_role_bindings t) !! k = Some b ∧ b_OrganizationID b = organizationID ∧ b_UserID b ≠ u ∧ admin_binding t b.

Lemma is_admin_with_role t b : is_admin (Repo.with_role t b) = true ↔ admin_binding t b.
Proof.
  unfold is_admin, admin_binding, Repo.with_role. simpl. destruct (visible (iam_roles t) !! b_RoleID b) as [r|].
  - rewrite bool_decide_eq_true. naive_solver.
  - split; [done|by intros (? & ? & _)].
Qed.
(** What [GetIAMRoleBinding] says. *)
Lemma binding_read o u (s : DB) r s' : Repo.GetIAMRoleBinding o u s = (Ok r, s') → tables s' = tables s ∧
  match r with
  | Some b => ∃ k b0, visible (iam_role_bindings (tables s)) !! k = Some b0 ∧ Repo.binding_of o u b0 = true ∧ b = Repo.with_role (tables s) b0
  | None => ∀ k b, visible (iam_role_bindings (tables s)) !! k = Some b → Repo.binding_of o u b = false
  end.
Proof.
  intros H. split; [by apply (reads_or_nil _ (reads_First _ _)) in H as [? _]|]. destruct r as [b|]; [|by apply (First_missing _ _ _ _ H)].
  unfold Repo.GetIAMRoleBinding, Repo.or_nil in H. destruct (First _ _ s) as [[r'|e] s1] eqn:E1; [|by destruct (Is _ _)].
  injection H as -> <-. apply First_law in E1 as (_ & _ & k & r0 & Hk & Hp & Hr & _). by exists k, r0.
Qed.
Lemma binding_of_spec o u b : Repo.binding_of o u b = true ↔ b_OrganizationID b = o ∧ b_UserID b = u.
Proof. unfold Repo.binding_of. rewrite andb_true_iff, !bool_decide_eq_true. done. Qed.

(** The list of members, each with the code of the role it is bound to. *)
Lemma with_roles_spec o l (s : DB) l' s' : with_roles o l s = (Ok l', s') →
  Forall2 (λ m m', m_UserID m' = m_UserID m ∧ (m_Role m' = IAMRoleAdmin → m_Role m = IAMRoleAdmin ∨
    ∃ k b, visible (iam_role_bindings (tables s)) !! k = Some b ∧ b_OrganizationID b = o ∧ b_UserID b = m_UserID m ∧ admin_binding (tables s) b)) l l'.
Proof.
  revert s l' s'. induction l as [|m l IH]; intros s l' s' H; [by injection H as <- _|]. cbn [with_roles] in H. unfold bind at 1 in H.
  destruct (Repo.GetIAMRoleBinding o (m_UserID m) s) as [[r|] s1] eqn:E1; [|done]. apply binding_read in E1 as [T1 Hr].
  unfold bind in H. destruct (with_roles o l s1) as [[l1|] s2] eqn:E2; [|done]. injection H as <- _.
  apply IH in E2. rewrite T1 in E2. constructor; [|done]. destruct r as [b|]; [|by split; [|left]].
  destruct Hr as (k & b0 & Hk & [Ho Hu]%binding_of_spec & ->). unfold Repo.with_role. simpl.
  destruct (visible (iam_roles (tables s)) !! b_RoleID b0) as [role|] eqn:Hrole; [|by split; [|left]]. simpl. split; [done|].
  intros Hc. right. exists k, b0. split_and!; [done..|]. by exists role.
Qed.

(** No two memberships of an organization are of one user. *)
Lemma members_distinct o (s : DB) l s' :
  Repo.ListOrganizationMembers o s = (Ok l, s') → NoDup (map m_UserID l) ∧ Forall (λ m, m_Role m = "") l ∧ tables s' = tables s.
Proof.
  intros H. apply Find_law in H as (_ & Ht & l0 & -> & Hp & _). split_and!; [| |done].
  - rewrite map_map. unfold Repo.no_role. simpl. rewrite Hp.
    apply NoDup_fmap_2_strong.
    + intros x y (Hx & Hox%bool_decide_eq_true)%elem_of_List_filter (Hy & Hoy%bool_decide_eq_true)%elem_of_List_filter Hu.
      apply elem_of_all_rows in Hx as [kx Hx%visible_row_Some], Hy as [ky Hy%visible_row_Some].
      destruct (decide (kx = ky)) as [->|Hne]; [congruence|].
      pose proof (tables_unique (Row := OrganizationMembership) s kx ky _ _ Hx Hy Hne) as Hf. simpl in Hf. unfold uniq_membership in Hf.
      rewrite !bool_decide_eq_true_2 in Hf by congruence. done.
    + eapply sublist_NoDup; [|apply sublist_List_filter]. apply (NoDup_all_rows m_ID). exact (visible_keyed (Row := OrganizationMembership) s).
  - apply Forall_fmap, Forall_forall. by intros m _.
Qed.
Lemma another_admin (u : N) (l : list OrganizationMembership) :
  NoDup (map m_UserID l) → 1 < count_admins l → ∃ m, m ∈ l ∧ m_Role m = IAMRoleAdmin ∧ m_UserID m ≠ u.
Proof.
  unfold count_admins. intros Hnd Hlen. destruct (List.filter _ l) as [|m1 [|m2 l2]] eqn:Ef; [simpl in Hlen; lia..|].
  assert (∀ m, m ∈ m1 :: m2 :: l2 → m ∈ l ∧ m_Role m = IAMRoleAdmin) as Hin.
  { intros m. rewrite <- Ef, list_elem_of_In, filter_In, bool_decide_eq_true, <- list_elem_of_In. done. }
  assert (m_UserID m1 ≠ m_UserID m2) as Hne.
  { assert (m1 :: m2 :: l2 `sublist_of` l) as Hs by (rewrite <- Ef; apply sublist_List_filter).
    apply (fmap_sublist m_UserID) in Hs. apply (sublist_NoDup _ _ Hnd) in Hs as Hnd'. inversion Hnd'. set_solver. }
  destruct (Hin m1) as [H1 R1]; [set_solver|]. destruct (Hin m2) as [H2 R2]; [set_solver|].
  destruct (decide (m_UserID m1 = u)) as [<-|]; [exists m2|exists m1]; by split_and!.
Qed.
Lemma enough_admins o u (s : St) l s' :
  listOrganizationMembersWithRoles o s = (Ok l, s') → 1 < count_admins l → view s' = view s ∧ administered_without (view s) o u.
Proof.
  intros H Hlen. destruct (quiet_members _ _ _ _ H) as [V _]. split; [done|].
  unfold listOrganizationMembersWithRoles in H. apply on_repo_inv in H as [H _]. unfold bind in H.
  destruct (Repo.ListOrganizationMembers o (repo s)) as [[ms|] s1] eqn:E1; [|done]. apply members_distinct in E1 as (Hnd & Hr & T1).
  apply with_roles_spec in H. rewrite T1 in H. rewrite Forall_forall in Hr.
  assert (map m_UserID l = map m_UserID ms) as Hids by (clear -H; induction H as [|m m' ms l [Hm _] _ IH]; [done|]; cbn [map]; congruence).
  destruct (another_admin u l) as (m' & [i Hi]%list_elem_of_lookup & Hadm & Hu); [by rewrite Hids|done|].
  eapply Forall2_lookup_r in H as (m & Hm & Hid & Himp); [|exact Hi]. destruct (Himp Hadm) as [Hbad|(k & b & Hk & Ho & Hbu & Hb)].
  - rewrite (Hr m) in Hbad; [done|by eapply list_elem_of_lookup_2].
  - exists k, b. split_and!; [done|done|congruence|done].
Qed.

(** Administrators of other organizations, and other administrators of this
    one, are others_untouched when one user's binding is replaced or removed. *)
Lemma others_untouched (t t' : IamTables) o u org :
  iam_roles t' = iam_roles t →
  (∀ i b, visible (iam_role_bindings t) !! i = Some b → Repo.binding_of o u b = false → visible (iam_role_bindings t') !! i = Some b) →
  administered t org → (org = o → administered_without t o u) → administered t' org.
Proof.
  intros Hr Hk (k & b & Hb & <- & Hadm) Ho. unfold administered, admin_binding. rewrite Hr.
  destruct (decide (b_OrganizationID b = o)) as [Heq|Hne].
  - destruct (Ho Heq) as (k' & b' & Hb' & Ho' & Hu' & Hadm'). exists k', b'. split_and!; [|congruence|done].
    apply Hk; [done|]. apply not_true_iff_false. by intros [_ ?]%binding_of_spec.
  - exists k, b. split_and!; [|done|done]. apply Hk; [done|]. apply not_true_iff_false. by intros [? _]%binding_of_spec.
Qed.
Lemma rebound_rest t t' o u r i : rebound t t' o u r i →
  ∀ j b, visible (iam_role_bindings t) !! j = Some b → Repo.binding_of o u b = false → visible (iam_role_bindings t') !! j = Some b.
Proof.
  intros (k & b1 & Hv & Hk & _) j b Hj Hb. apply Hv. right. split_and!; [|done|done]. intros ->. apply Hk in Hj. congruence.
Qed.
(** An administrator who is not this user's binding is someone else's. *)
Lemma not_the_admin o u (s : DB) r s' : single (tables s) → Repo.GetIAMRoleBinding o u s = (Ok r, s') →
  match r with Some b => is_admin b | None => false end = false → administered (tables s) o → administered_without (tables s) o u.
Proof.
  intros Hs Hr Hna (k & b & Hb & Ho & Hadm). exists k, b. split_and!; [done|done| |done]. intros Hu.
  apply binding_read in Hr as [_ Hr]. destruct r as [b'|]; [|].
  - destruct Hr as (k' & b0 & Hb0 & [Ho0 Hu0]%binding_of_spec & ->). assert (k' = k) as -> by (eapply Hs; [done..|congruence|congruence]).
    assert (b0 = b) as -> by congruence. apply is_admin_with_role in Hadm. congruence.
  - apply Hr in Hb. apply not_true_iff_false in Hb. by apply Hb, binding_of_spec.
Qed.
Lemma role_set_administered t t' o u role i org :
  same_rest t t' → rebound t t' o u (ro_ID role) i → visible (iam_roles t) !! ro_ID role = Some role → administered t org →
  (ro_Code role = IAMRoleAdmin ∨ (org = o → administered_without t o u)) → administered t' org.
Proof.
  intros (_ & Hroles & _) Hr Hrole Hadm [Hc|Ho]; [|by apply (others_untouched t t' o u); [|exact (rebound_rest _ _ _ _ _ _ Hr)|..]].
  destruct (decide (org = o)) as [->|Hne]; [|by apply (others_untouched t t' o u); [|exact (rebound_rest _ _ _ _ _ _ Hr)|..]].
  destruct Hr as (k & b1 & Hv & _ & Hbo & _ & Hbr & _). exists k, b1. split_and!; [apply Hv; by left|done|].
  exists role. rewrite Hroles, Hbr. done.
Qed.
#[local] Opaque setOrganizationRole listOrganizationMembersWithRoles.
Lemma role_keeps_administered o u code i org (s : St) x s' :
  setOrganizationRole o u code i s = (x, s') → administered (view s) org →
  (code = IAMRoleAdmin ∨ (org = o → administered_without (view s) o u)) → administered (view s') org.
Proof.
  intros H Hadm Hc. apply setOrganizationRole_spec in H as [_ [[_ ->]|(k & role & Hk & <- & Hrest & Hre & _)]]; [done|].
  eapply role_set_administered; [done..| | |exact Hc]; [|done].
  pose proof (visible_keyed (Row := IAMRole) (repo s) k role Hk) as Hid. simpl in Hid. by rewrite Hid.
Qed.
Lemma upsert_keeps_admin actor o u role org (s : St) x s' :
  UpsertOrganizationMemberFor actor o u role s = (x, s') → single (view s) → administered (view s) org → administered (view s') org.
Proof.
  intros H Hs Hadm. unfold UpsertOrganizationMemberFor in H.
  eapply (quiet_step (λ t, administered t org)) in H as [[? _]|([] & s1 & _ & H & V1 & _)]; [done| |quiet_tac|done].
  rewrite <- V1 in Hs, Hadm. clear V1 s. destruct (negb _); [by injection H as _ <-|].
  eapply (quiet_step (λ t, administered t org)) in H as [[? _]|(og & s2 & _ & H & V2 & _)]; [done| |unfold Repo.GetOrganizationByID; quiet_tac|done].
  rewrite <- V2 in Hs, Hadm. clear V2 s1. destruct (bool_decide _); [by injection H as _ <-|].
  eapply (quiet_step (λ t, administered t org)) in H as [[? _]|(us & s3 & _ & H & V3 & _)]; [done| |unfold Repo.GetUserByID; quiet_tac|done].
  rewrite <- V3 in Hs, Hadm. clear V3 s2. destruct (bool_decide _); [by injection H as _ <-|].
  eapply (quiet_step (λ t, administered t org)) in H as [[? _]|(cur & s4 & E4 & H & V4 & _)]; [done| |unfold Repo.GetIAMRoleBinding; quiet_tac|done].
  eapply (quiet_step (λ t, administered t org)) in H as [[? _]|([] & s5 & E5 & H & V5 & _)];
    [done| |destruct (_ && _); [apply quiet_bind; [apply quiet_members|]|]; intros; quiet_tac|by rewrite V4].
  assert (role = IAMRoleAdmin ∨ (org = o → administered_without (view s5) o u)) as Hc.
  { destruct (decide (role = IAMRoleAdmin)) as [|Hne]; [by left|right]. intros ->. rewrite (bool_decide_eq_false_2 _ Hne), andb_true_r in E5.
    apply on_repo_inv in E4 as [E4 _]. destruct (match cur with Some b => is_admin b | None => false end) eqn:Hcur.
    - unfold bind in E5. destruct (listOrganizationMembersWithRoles o s4) as [[l|] s6] eqn:E6; [|done].
      destruct (Nat.leb_spec (count_admins l) 1); [done|]. destruct (enough_admins o u _ _ _ E6) as [_ ?]; [lia|]. by rewrite V5.
    - rewrite V5, V4. by eapply not_the_admin. }
  assert (administered (view s5) org) as Hadm5 by (by rewrite V5, V4). clear E4 E5 V4 V5 Hs Hadm.
  unfold bind at 1 in H. destruct (setOrganizationRole _ _ _ _ s5) as [x6 s6] eqn:E6. pose proof (role_keeps_administered _ _ _ _ _ _ _ _ E6 Hadm5 Hc) as H6.
  destruct x6; [|by injection H as _ <-].
  eapply (quiet_step (λ t, administered t org)) in H as [[? _]|(mb & s7 & _ & H & V7 & _)]; [done| |unfold Repo.GetOrganizationMembership; quiet_tac|done].
  injection H as _ <-. by rewrite V7.
Qed.
Lemma unbound (o u : N) (s : DB) x s' : (Repo.DeleteIAMRoleBinding o u ;; Repo.DeleteOrganizationMembership o u) s = (x, s') →
  saved s' = saved s ∧ iam_roles (tables s') = iam_roles (tables s) ∧
  ∀ i b, visible (iam_role_bindings (tables s)) !! i = Some b → Repo.binding_of o u b = false → visible (iam_role_bindings (tables s')) !! i = Some b.
Proof.
  unfold bind. destruct (Repo.DeleteIAMRoleBinding o u s) as [x1 s1] eqn:E1. apply Delete_law in E1 as [S1 T1]. intros H.
  assert (iam_roles (tables s1) = iam_roles (tables s) ∧
    ∀ i b, visible (iam_role_bindings (tables s)) !! i = Some b → Repo.binding_of o u b = false → visible (iam_role_bindings (tables s1)) !! i = Some b) as [R1 B1].
  { destruct x1; rewrite T1; [|done]. split; [done|]. intros i b Hi Hb. simpl. by apply visible_marked. }
  destruct x1; [|by injection H as _ <-]. apply Delete_law in H as [S2 T2].
  destruct x; rewrite T2; simpl; (split; [congruence|done]).
Qed.
Lemma remove_keeps_admin actor o u org (s : St) x s' :
  RemoveOrganizationMemberFor actor o u s = (x, s') → single (view s) → administered (view s) org → administered (view s') org.
Proof.
  intros H Hs Hadm. unfold RemoveOrganizationMemberFor in H.
  eapply (quiet_step (λ t, administered t org)) in H as [[? _]|([] & s1 & _ & H & V1 & _)]; [done| |quiet_tac|done].
  rewrite <- V1 in Hs, Hadm. clear V1 s.
  eapply (quiet_step (λ t, administered t org)) in H as [[? _]|(l & s2 & E2 & H & V2 & _)]; [done| |apply quiet_members|done].
  rewrite <- V2 in Hs, Hadm.
  eapply (quiet_step (λ t, administered t org)) in H as [[? _]|(cur & s3 & E3 & H & V3 & _)]; [done| |unfold Repo.GetIAMRoleBinding; quiet_tac|done].
  rewrite <- V3 in Hadm. destruct cur as [cur|]; [|by injection H as _ <-]. cbn [of_option bind] in H.
  destruct (is_admin cur && Nat.leb (count_admins l) 1) eqn:Hlast; [by injection H as _ <-|].
  assert (org = o → administered_without (view s3) o u) as Hc.
  { intros ->. apply on_repo_inv in E3 as [E3 _]. apply andb_false_iff in Hlast as [Hna|Hn%Nat.leb_gt].
    - rewrite V3 in *. by eapply (not_the_admin _ _ _ (Some cur)).
    - rewrite V3, V2. by apply (enough_admins o u _ _ _ E2). }
  unfold bind at 1 in H. destruct (on_repo _ s3) as [x4 s4] eqn:E4. apply on_repo_inv in E4 as [E4 _].
  assert (administered (view s4) org) as H4.
  { apply in_tx_spec in E4 as [_ E4]; [|intros y d Hd; by apply unbound in Hd as [? _]]. destruct x4; [|by rewrite E4].
    destruct E4 as (d & Hd & ->). apply unbound in Hd as (_ & Hroles & Hkeep). destruct (Begin_law (repo s3)) as [B1 _]. rewrite B1 in *.
    by apply (others_untouched (view s3) _ o u). }
  destruct x4; [|by injection H as _ <-]. apply reload_sync in H as (-> & _). done.
Qed.
End Administrators.

(** ** The authorizer in step with the tables *)
Section InStep.
Context {DB E : Type} {i_gorm : IamGorm DB} {l_gorm : IamGormLaws DB} {i_enforcer : Enforcer E} {l_enforcer : EnforcerLaws E}.
Abbreviation St := (IAMService DB E).
Abbreviation view s := (tables (repo s)).

(** What authorization reads of an organization, and of the tables. *)
Definition standing (o : Organization) : bool * option N := (o_IsRoot o, o_ParentID o).
Definition same_rights (t t' : IamTables) : Prop :=
  iam_roles t' = iam_roles t ∧ iam_permissions t' = iam_permissions t ∧ iam_role_permissions t' = iam_role_permissions t ∧
  iam_role_bindings t' = iam_role_bindings t ∧
  ∀ k, standing <$> organizations_of t' !! k = standing <$> organizations_of t !! k.
#[global] Instance same_rights_refl : Reflexive same_rights.
Proof. by intros t. Qed.
Lemma same_rights_organization t t' k o : same_rights t t' → organizations_of t !! k = Some o →
  ∃ o', organizations_of t' !! k = Some o' ∧ o_IsRoot o' = o_IsRoot o ∧ o_ParentID o' = o_ParentID o.
Proof.
  intros (_ & _ & _ & _ & H) Ho. specialize (H k). rewrite Ho in H. destruct (organizations_of t' !! k) as [o'|]; [|done].
  injection H as H1 H2. by exists o'.
Qed.
Lemma same_rights_sym t t' : same_rights t t' → same_rights t' t.
Proof. intros (H1 & H2 & H3 & H4 & H5). by split_and!. Qed.
Lemma same_rights_child t t' x y : same_rights t t' → child t x y → child t' x y.
Proof. intros H (o & Ho & Hp). destruct (same_rights_organization _ _ _ _ H Ho) as (o' & Ho' & _ & Hp'). exists o'. split; [done|congruence]. Qed.
Lemma same_rights_covers t t' b d : same_rights t t' → covers t b d → covers t' b d.
Proof.
  intros H [->|[[-> (o & Ho & Hr)]|(Hi & x & o & Ho & Hne & -> & Htc)]]; [by left| |].
  - destruct (same_rights_organization _ _ _ _ H Ho) as (o' & Ho' & Hr' & _). right; left. split; [done|]. exists o'. split; [done|congruence].
  - destruct (same_rights_organization _ _ _ _ H Ho) as (o' & Ho' & _). right; right. split; [done|]. exists x, o'.
    split_and!; [done..|]. eapply tc_mono; [|done]. intros. by eapply same_rights_child.
Qed.
Lemma same_rights_grouping t t' g : same_rights t t' → wanted_grouping t g → wanted_grouping t' g.
Proof.
  intros H (k & b & role & d & Hb & Hr & Hc & ->). exists k, b, role, d. pose proof H as (Er & _ & _ & Eb & _). rewrite Er, Eb.
  split_and!; [done..| |done]. by eapply same_rights_covers.
Qed.
Lemma same_rights_sync (s s' : St) : same_rights (view s) (view s') → authorizer s' = authorizer s → in_sync s → in_sync s'.
Proof.
  intros H Ha (Hl & HP & HG). unfold in_sync. rewrite Ha. split_and!; [done| |].
  - intros p. rewrite HP. unfold wanted_policy, Repo.granted_to. destruct H as (-> & -> & -> & _). done.
  - intros g. rewrite HG. split; apply same_rights_grouping; [done|by apply same_rights_sym].
Qed.

(** Calls that end in step when they succeed, and calls that stay in step. *)
Definition ends_sync {A} (m : Op St A) : Prop := ∀ s a s', m s = (Ok a, s') → in_sync s'.
Definition stays_sync {A} (m : Op St A) : Prop := ∀ s a s', m s = (Ok a, s') → in_sync s → in_sync s'.
Lemma ends_stays {A} (m : Op St A) : ends_sync m → stays_sync m.
Proof. intros H s a s' Hm _. by eapply H. Qed.
Lemma ends_sync_bind {A B} (m : Op St A) (k : A → Op St B) : (∀ a, ends_sync (k a)) → ends_sync (bind m k).
Proof. intros Hk s b s' H. unfold bind in H. destruct (m s) as [[a|] s1]; [by eapply Hk|done]. Qed.
Lemma ends_sync_ret {A B} (m : Op St A) (f : A → B) : ends_sync m → ends_sync (let! a := m in ret (f a)).
Proof. intros Hm s b s' H. unfold bind in H. destruct (m s) as [[a|] s1] eqn:E1; [|done]. injection H as _ <-. by eapply Hm. Qed.
Lemma stays_sync_bind {A B} (m : Op St A) (k : A → Op St B) : stays_sync m → (∀ a, stays_sync (k a)) → stays_sync (bind m k).
Proof. intros Hm Hk s b s' H HI. unfold bind in H. destruct (m s) as [[a|] s1] eqn:E1; [|done]. eapply Hk, Hm; done. Qed.
Lemma stays_quiet {A} (m : Op St A) : quiet m → stays_sync m.
Proof. intros Hm s a s' H. apply Hm in H as (V & _ & Ha). apply same_rights_sync; [by rewrite V|done]. Qed.
Lemma ends_throw {A} e : ends_sync (throw e : Op St A).
Proof. intros s a s'. done. Qed.
Lemma stays_save_user (u : User) : stays_sync (on_repo (Repo.UpdateUser u) : Op St unit).
Proof.
  intros s a s' [H Ha]%on_repo_inv. apply Save_law in H as [_ [(m & Hm) _]]. apply same_rights_sync; [|done]. by rewrite Hm.
Qed.
Lemma stays_save_user_wrapped (u : User) wrap : stays_sync (on_repo (map_err wrap (Repo.UpdateUser u)) : Op St unit).
Proof.
  intros s a s' [H Ha]%on_repo_inv. apply map_err_ok in H as (y & H & _ & Hy). assert (y = Ok a) as -> by (by apply Hy).
  apply (stays_save_user u s a s'). unfold on_repo. rewrite H. by destruct s' as [d e]; simpl in *; rewrite Ha.
Qed.
Lemma ends_reload : ends_sync reloadAuthorization.
Proof. intros s a s' H. apply reload_sync in H as (_ & _ & H). by apply H. Qed.
Lemma ends_role o u c i : ends_sync (setOrganizationRole o u c i : Op St unit).
Proof. intros s a s' H. apply setOrganizationRole_spec in H as [_ [[? _]|(k & role & _ & _ & _ & _ & H)]]; [done|by apply H]. Qed.

(** *** A deleted account *)
Definition forget_body (id : N) : Op DB unit :=
  map_err (during "delete role bindings") (Repo.DeleteIAMRoleBindingsByUser id) ;;
  map_err (during "delete memberships") (Repo.DeleteOrganizationMembershipsByUser id) ;;
  map_err (during "delete user") (Repo.DeleteUser id).
(** The bindings of the account are gone and nothing else authorization reads
    has changed. *)
Definition forgotten (t t' : IamTables) (id : N) : Prop :=
  iam_roles t' = iam_roles t ∧ iam_permissions t' = iam_permissions t ∧ iam_role_permissions t' = iam_role_permissions t ∧
  iam_organizations t' = iam_organizations t ∧
  ∀ k b, visible (iam_role_bindings t') !! k = Some b ↔ visible (iam_role_bindings t) !! k = Some b ∧ b_UserID b ≠ id.
Lemma forget_body_spec id (s : DB) x s' : forget_body id s = (x, s') →
  saved s' = saved s ∧ (is_ok x = true → forgotten (tables s) (tables s') id).
Proof.
  unfold forget_body, bind. intros H.
  destruct (map_err _ (Repo.DeleteIAMRoleBindingsByUser id) s) as [x1 s1] eqn:E1. apply map_err_ok in E1 as (y1 & E1 & Hok1 & _).
  apply Delete_law in E1 as [S1 T1]. destruct x1; [|by injection H as <- <-]. destruct y1; [|done].
  destruct (map_err _ (Repo.DeleteOrganizationMembershipsByUser id) s1) as [x2 s2] eqn:E2. apply map_err_ok in E2 as (y2 & E2 & Hok2 & _).
  apply Delete_law in E2 as [S2 T2]. destruct x2; [|injection H as <- <-; split; [congruence|done]]. destruct y2; [|done].
  apply map_err_ok in H as (y3 & H & Hok3 & _). apply Delete_law in H as [S3 T3]. split; [congruence|].
  intros Hx. rewrite Hx in Hok3. destruct y3; [|done]. unfold forgotten. rewrite T3, T2, T1. split_and!; [done..|].
  intros k b. cbn. etrans; [exact (visible_marked (iam_role_bindings (tables s)) (λ b, bool_decide (b_UserID b = id)) k b)|].
  by rewrite bool_decide_eq_false.
Qed.
Lemma forgotten_grouping t t' id g : forgotten t t' id → wanted_grouping t' g ↔ wanted_grouping t g ∧ fst (fst g) ≠ userSubject id.
Proof.
  intros (Hr & _ & _ & Ho & Hb). unfold wanted_grouping, covers, child. rewrite Hr, Ho. split.
  - intros (k & b & role & d & [Hk Hne]%Hb & Hrest). pose proof Hrest as (_ & _ & ->). split; [by exists k, b, role, d|].
    cbn [fst]. by intros ?%userSubject_inj.
  - intros [(k & b & role & d & Hk & Hrest) Hne]. exists k, b, role, d. split; [|done]. apply Hb. split; [done|].
    intros <-. destruct Hrest as (_ & _ & ->). done.
Qed.
Lemma removeUser_spec id (e e' : E) :
  removeUser id e = (Ok tt, e') → policies e' = policies e ∧ groupings e' = filter (λ g, fst (fst g) ≠ userSubject id) (groupings e) ∧
  (links e = groupings e → links e' = groupings e').
Proof.
  intros H. apply map_err_ok in H as (y & H & Hok & _). apply RemoveFilteredGroupingPolicy_law in H as [Hp Hx].
  destruct y; [|done]. by destruct Hx.
Qed.
Lemma stays_forget id wrap :
  stays_sync (on_repo (in_tx wrap (forget_body id)) ;; on_authorizer (removeUser id) : Op St unit).
Proof.
  intros s [] s' H (Hl & HP & HG). unfold bind in H. destruct (on_repo _ s) as [[[]|] s1] eqn:E1; [|done].
  apply on_repo_inv in E1 as [E1 A1]. apply in_tx_spec in E1 as [_ (d & Ed & T1)]; [|intros y d Hd; by apply forget_body_spec in Hd as [? _]].
  apply forget_body_spec in Ed as [_ Hf]. specialize (Hf eq_refl). destruct (Begin_law (repo s)) as [B1 _]. rewrite B1, <- T1 in Hf. clear T1 d B1.
  unfold on_authorizer in H. destruct (removeUser id (authorizer s1)) as [y e] eqn:E2. injection H as -> <-.
  apply removeUser_spec in E2 as (P2 & G2 & L2). rewrite A1 in *. unfold in_sync; cbn [repo authorizer]. split_and!; [auto| |].
  - intros p. rewrite P2, HP. destruct Hf as (Hr & Hp & Hrp & _). unfold wanted_policy, Repo.granted_to. by rewrite Hr, Hp, Hrp.
  - intros g. rewrite G2, elem_of_filter, HG, (forgotten_grouping _ _ _ _ Hf). tauto.
Qed.

(** *** A renamed organization *)
Lemma stays_rename id (org : Organization) wrap (s : St) a s' :
  on_repo (map_err wrap (Repo.UpdateOrganization org)) s = (Ok a, s') → o_ID org = id →
  standing <$> organizations_of (view s) !! id = Some (standing org) → in_sync s → in_sync s'.
Proof.
  intros [H Ha]%on_repo_inv Hid Hst. apply map_err_ok in H as (y & H & _ & Hy). assert (y = Ok a) as -> by (by apply Hy).
  apply Save_law in H as [_ [_ Hx]]. destruct Hx as [_ Ht].
  { simpl. rewrite Hid. destruct (visible (iam_organizations (view s)) !! id) eqn:Ho; [done|]. unfold organizations_of in Hst. by rewrite Ho in Hst. }
  apply same_rights_sync; [|done]. rewrite Ht. split_and!; [done..|]. intros k. unfold organizations_of in *. simpl. rewrite visible_insert, Hid.
  destruct (decide (k = id)) as [->|Hne]; [by rewrite lookup_insert_eq|by rewrite lookup_insert_ne].
Qed.
Lemma stays_update_organization actor id name description parentID :
  stays_sync (UpdateOrganizationFor actor id name description parentID false : Op St Organization).
Proof.
  intros s o' s' H HI. unfold UpdateOrganizationFor in H. unfold bind at 1 in H.
  destruct (requirePermission _ _ _ _ s) as [[[]|] s1] eqn:E1; [|done].
  pose proof (stays_quiet _ (quiet_requirePermission _ _ _ _) _ _ _ E1 HI) as HI1.
  unfold bind at 1 in H. destruct (on_repo (Repo.GetOrganizationByID id) s1) as [[[org|]|] s2] eqn:E2; [|done|done].
  assert (quiet (on_repo (Repo.GetOrganizationByID id) : Op St _)) as Hq by (unfold Repo.GetOrganizationByID; quiet_tac).
  pose proof (Hq _ _ _ E2) as (V2 & _). pose proof (stays_quiet _ Hq _ _ _ E2 HI1) as HI2. apply GetOrganizationByID_found in E2 as [Ho Hid].
  cbn [of_option bind] in H. destruct (o_IsRoot org && _ && _); [done|]. set (org1 := _ <| o_Description := _ |>) in H.
  assert (standing org1 = standing org ∧ o_ID org1 = id) as [Hp1 Hid1] by (unfold org1; by destruct (bool_decide _)).
  clearbody org1. cbn [ret bind] in H. unfold bind at 1 in H. cbn [ret] in H. unfold bind in H.
  destruct (on_repo _ s2) as [[[]|] s3] eqn:E3; [|done]. injection H as _ <-.
  eapply stays_rename; [exact E3|exact Hid1| |done]. rewrite V2, Ho, Hp1. done.
Qed.

(** *** Every operation *)
Context (ToLower : string → string) (IDKey : string → string → N → N → N → N → string) (Version : N).
Context (salt : St → Result string) (random : nat → St → Result string).
(** The one operation after which the authorizer is behind. *)
Definition moves (op : iam_op) : bool :=
  match op with OpUpdateOrganization _ _ _ _ setParent => setParent | _ => false end.
Lemma stays_void {A} (m : Op St A) : stays_sync m → stays_sync (void m).
Proof. intros H s a s' (y & Hm & Hok)%void_spec. destruct y; [by eapply H|done]. Qed.
Lemma ends_sync_seq {A B} (m : Op St A) (b : B) : ends_sync m → ends_sync (m ;; ret b).
Proof. apply (ends_sync_ret m (λ _, b)). Qed.
Lemma ends_after {A B} (m : Op St A) (k : A → Op St B) : ends_sync m → (∀ a, quiet (k a)) → ends_sync (bind m k).
Proof.
  intros Hm Hk s b s' H. unfold bind in H. destruct (m s) as [[a|] s1] eqn:E1; [|done]. eapply stays_quiet; [apply Hk|done|by eapply Hm].
Qed.
End InStep.

(** Takes a call apart down to its last one. *)
Ltac ends_tac :=
  repeat first
    [ progress intros
    | match goal with
      | |- ends_sync (if ?b then _ else _) => destruct b
      | |- ends_sync (match ?x with _ => _ end) => destruct x
      | |- stays_sync (if ?b then _ else _) => destruct b
      | |- stays_sync (match ?x with _ => _ end) => destruct x
      end
    | apply ends_reload | apply ends_role | apply ends_throw | apply ends_sync_seq; solve [ends_tac]
    | apply ends_after; [solve [apply ends_role]|intros; solve [quiet_tac]]
    | solve [apply stays_quiet; quiet_tac] | apply stays_save_user | apply stays_save_user_wrapped | apply ends_stays; apply ends_role | apply stays_sync_bind | apply ends_sync_bind ].

Section EveryOperation.
Context {DB E : Type} {i_gorm : IamGorm DB} {l_gorm : IamGormLaws DB} {i_enforcer : Enforcer E} {l_enforcer : EnforcerLaws E}.
Abbreviation St := (IAMService DB E).
Context (ToLower : string → string) (IDKey : string → string → N → N → N → N → string) (Version : N).
Context (salt : St → Result string) (random : nat → St → Result string).
#[local] Opaque setOrganizationRole reloadAuthorization check_ancestors max_hops bootstrap_user.

Lemma anonymous_denied d o a (s : St) : is_ok (fst (requirePermission None d o a s)) = false.
Proof. unfold requirePermission, bind. destruct (_ s) as [[[]|] s1]; done. Qed.
Lemma ends_anonymous_create name description parentID : ends_sync (CreateOrganizationFor None name description parentID : Op St Organization).
Proof.
  unfold CreateOrganizationFor. destruct (_ || _); [apply ends_throw|]. apply ends_sync_bind. intros p s o s' H. exfalso. revert H.
  unfold bind at 1. destruct p as [p|].
  - unfold bind at 1. destruct (on_repo _ s) as [[[po|]|] s1]; [|done|done]. cbn [of_option]. unfold bind at 1.
    pose proof (anonymous_denied (organizationDomain p) (organizationObject p) "create_child" s1) as Hd.
    cbn [of_option]. by destruct (requirePermission _ _ _ _ s1) as [[]].
  - pose proof (anonymous_denied globalDomain "/organizations" "create" s) as Hd. by destruct (requirePermission _ _ _ _ s) as [[]].
Qed.
Lemma sync_perform actor op : moves op = false → stays_sync (perform ToLower IDKey Version salt random actor op : Op St unit).
Proof.
  intros Hop. destruct op; cbn [perform]; try (apply stays_void);
    unfold CreateUserFor, UpdateUserFor, ResetUserPasswordFor, CreateOrganizationFor, DeleteOrganizationFor, UpsertOrganizationMemberFor,
      RemoveOrganizationMemberFor, SetUserFeaturePolicy, EnsureOrganizationBootstrap, hash_password.
  - apply ends_stays. ends_tac.
  - ends_tac.
  - ends_tac.
  - unfold DeleteUserFor. repeat (apply stays_sync_bind; [ends_tac|intros]). destruct (bool_decide _); [ends_tac|].
    repeat (apply stays_sync_bind; [solve [ends_tac]|intros]). apply stays_forget.
  - apply ends_stays. destruct actor; [ends_tac|]. apply ends_anonymous_create.
  - cbn [moves] in Hop. subst setParent. apply stays_update_organization.
  - apply ends_stays. ends_tac.
  - apply ends_stays. ends_tac.
  - apply ends_stays. ends_tac.
  - apply ends_stays. ends_tac.
  - apply stays_sync_bind; [ends_tac|]. intros [us n]. destruct (bool_decide _); [ends_tac|]. apply ends_stays. ends_tac.
Qed.
End EveryOperation.

(** ** Features *)
Section Features.
Context {DB E : Type} {i_gorm : IamGorm DB} {l_gorm : IamGormLaws DB} {i_enforcer : Enforcer E} {l_enforcer : EnforcerLaws E}.
Abbreviation St := (IAMService DB E).
Abbreviation view s := (tables (repo s)).

(** Who may use a feature: a user whose own roles at the root organization
    allow it; or, except for the management of permissions, any user with a
    role somewhere when the user role allows it. *)
Definition may_use (t : IamTables) (userID : N) (code : string) : Prop := userID ≠ 0%N ∧ ∃ root,
  organizations_of t !! o_ID root = Some root ∧ o_IsRoot root = true ∧
  (granted t userID (organizationDomain (o_ID root)) (featureObject code) "use" ∨
   (code ≠ FeaturePermissions ∧ (∃ k b, visible (iam_role_bindings t) !! k = Some b ∧ b_UserID b = userID) ∧
    ∃ k role, visible (iam_roles t) !! k = Some role ∧ ro_Code role = IAMRoleUser ∧ role_grants t role (featureObject code) "use")).
Lemma same_view_sync (s s' : St) : view s' = view s → authorizer s' = authorizer s → in_sync s → in_sync s'.
Proof. intros Hv Ha. apply same_rights_sync; [by rewrite Hv|done]. Qed.

Lemma require_feature_sound (actor : option User) code (s : St) s' : in_sync s → require_feature actor code s = (Ok tt, s') →
  ∃ user, actor = Some user ∧ may_use (view s) (u_ID user) code.
Proof.
  intros Hs H. unfold require_feature in H. unfold bind at 1 in H.
  destruct (on_repo Repo.GetRootOrganization s) as [[[root|]|] s1] eqn:E1; [|by destruct actor|done].
  assert (view s1 = view s ∧ saved (repo s1) = saved (repo s) ∧ authorizer s1 = authorizer s) as (V1 & _ & A1).
  { assert (quiet (on_repo Repo.GetRootOrganization : Op St _)) as Hq by (unfold Repo.GetRootOrganization; quiet_tac). by apply (Hq _ _ _ E1). }
  apply on_repo_inv in E1 as [E1 _]. apply First_found in E1 as [Hroot Hisroot].
  destruct actor as [user|]; [|done]. exists user. split; [done|]. destruct (bool_decide (u_ID user = 0%N)) eqn:Hz; [done|].
  apply bool_decide_eq_false in Hz. split; [done|]. exists root. split_and!; [exact Hroot|done|].
  pose proof (same_view_sync s s1 V1 A1 Hs) as Hs1. unfold bind at 1 in H.
  destruct (hasPermission _ _ _ _ s1) as [[ok|] s2] eqn:E2; [|done]. apply hasPermission_sync in E2 as [-> Hok]; [|done]. rewrite V1 in Hok.
  destruct ok; [left; by apply Hok|right]. destruct (bool_decide (code = FeaturePermissions)) eqn:Hc; [done|]. apply bool_decide_eq_false in Hc.
  split; [done|]. unfold bind at 1 in H. destruct (on_repo (Repo.ListIAMRoleBindingsByUser _) s1) as [[l|] s3] eqn:E3; [|done].
  apply on_repo_inv in E3 as [E3 A3]. pose proof (λ b, Find_elems _ _ _ _ _ _ b E3) as Hl.
  assert (tables (repo s3) = view s1) as V3 by (by apply Find_law in E3 as (_ & ? & _)).
  destruct (bool_decide (l = [])) eqn:Hnil; [done|]. apply bool_decide_eq_false in Hnil. split.
  { destruct l as [|b l]; [done|]. destruct (proj1 (Hl b)) as (k & b0 & Hk & Hu & _); [by left|]. rewrite V1 in Hk. exists k, b0. split; [done|]. by bools. }
  unfold bind in H. destruct (Enforce _ _ _ _ (authorizer s3)) as [[]|] eqn:E4; [|done|done].
  rewrite A3 in E4. apply enforce_role_sync in E4; [|done]. rewrite V1 in E4. by apply E4.
Qed.
Lemma RequireFeature_sound actor code (s : St) s' : in_sync s → RequireFeature actor code s = (Ok tt, s') →
  ∃ user, actor = Some user ∧ may_use (view s) (u_ID user) code ∧ (code = FeatureOrganizations → may_use (view s) (u_ID user) FeaturePermissions).
Proof.
  intros Hs H. unfold RequireFeature, bind in H. destruct (bool_decide (code = FeatureOrganizations)) eqn:Hc.
  - destruct (require_feature actor FeaturePermissions s) as [[[]|] s1] eqn:E1; [|done].
    pose proof (quiet_require_feature _ _ _ _ _ E1) as (V1 & _ & A1). apply require_feature_sound in E1 as (user & -> & Hp); [|done].
    apply require_feature_sound in H as (user' & [= <-] & Hu); [|by eapply same_view_sync]. rewrite V1 in Hu. by exists user.
  - apply require_feature_sound in H as (user & -> & Hu); [|done]. exists user. split_and!; [done..|]. intros ->. by rewrite bool_decide_eq_true_2 in Hc.
Qed.
(** The feature a resource belongs to. *)
Definition feature_of (resource : string) : option string :=
  if bool_decide (resource = "logs") then Some FeatureAudit
  else if bool_decide (resource = "agent_sessions") then Some FeatureAccessAI
  else if bool_decide (resource = "management_agent_sessions") then Some FeatureHomeAI else None.
Lemma requireResourceFeature_sound actor resource (s : St) s' : in_sync s → requireResourceFeature actor resource s = (Ok tt, s') →
  in_sync s' ∧ view s' = view s ∧ ∀ code, feature_of resource = Some code → ∃ user, actor = Some user ∧ may_use (view s) (u_ID user) code.
Proof.
  intros Hs H. pose proof (quiet_requireResourceFeature _ _ _ _ _ H) as (V & _ & A). split_and!; [by eapply same_view_sync|done|].
  intros code Hc. unfold requireResourceFeature, feature_of in *.
  repeat (destruct (bool_decide _); [injection Hc as <-; apply RequireFeature_sound in H as (user & -> & Hu & _); [by exists user|done]|]). done.
Qed.
End Features.

(** ** The claims *)
Section Claims.
Context {DB E : Type} {i_gorm : IamGorm DB} {l_gorm : IamGormLaws DB} {i_enforcer : Enforcer E} {l_enforcer : EnforcerLaws E}.
Abbreviation St := (IAMService DB E).
Abbreviation view s := (tables (repo s)).

(** C19. The authorizer refines the tables.  Once a reload has succeeded, every
    check that answers says yes exactly when the user has a binding to a role
    with a matching permission and the binding reaches the domain: its
    organization, any domain from the root organization, and with inheritance
    the organizations below at any depth. *)
Theorem authorization_refines_tables (user : User) domain object action (s s1 : St) b s2 :
  reloadAuthorization s = (Ok tt, s1) → hasPermission (Some user) domain object action s1 = (Ok b, s2) →
  view s2 = view s ∧ (b = true ↔ granted (view s) (u_ID user) domain object action).
Proof.
  intros H1 H2. apply reload_sync in H1 as (V & _ & Hsync). destruct (hasPermission_sync _ _ _ _ _ _ _ (Hsync eq_refl) H2) as [-> Hb].
  by rewrite <- V.
Qed.

(** C22. No sequence of member changes leaves an organization without an
    administrator: adding, changing or removing a member keeps an
    administrator in every organization that has one, whether the call
    succeeds or fails half-way. *)
Theorem administrator_kept actor organizationID userID role org (s : St) x s' y s'' :
  single (view s) → administered (view s) org →
  UpsertOrganizationMemberFor actor organizationID userID role s = (x, s') →
  RemoveOrganizationMemberFor actor organizationID userID s = (y, s'') →
  administered (view s') org ∧ administered (view s'') org.
Proof. intros Hs Ha H1 H2. split; [by eapply upsert_keeps_admin|by eapply remove_keeps_admin]. Qed.

(** Granting a role either leaves every table as it was or commits exactly
    one change: the user's bindings in that organization are replaced by the
    one asked for, every other binding, role, permission, organization and
    account stays, and when the call reports success the authorizer agrees
    with the tables. *)
Theorem role_change_atomic organizationID userID roleCode inherit (s : St) x s' :
  setOrganizationRole organizationID userID roleCode inherit s = (x, s') →
  (is_ok x = false ∧ view s' = view s) ∨
  ∃ role, ro_Code role = roleCode ∧ same_rest (view s) (view s') ∧
    rebound (view s) (view s') organizationID userID (ro_ID role) inherit ∧ (is_ok x = true → in_sync s').
Proof.
  intros H. apply setOrganizationRole_spec in H as [_ [?|(k & role & _ & ? & ? & ? & ?)]]; [by left|right]. by exists role.
Qed.

(** Access to a resource of an organization is never given without a right
    to it: when the check succeeds, in a state whose authorizer is in step, the
    actor is an account, its roles allow the action on that kind of resource
    in that organization, and the feature the resource belongs to (audit logs,
    the access agent, the home agent) is one it may use. *)
Theorem resource_access_justified actor organizationID resource action (s s' : St) :
  in_sync s → RequireOrganizationResourcePermission actor organizationID resource action s = (Ok tt, s') →
  ∃ user, actor = Some user ∧ organizationID ≠ 0%N ∧
    granted (view s) (u_ID user) (organizationDomain organizationID) ("/resources/" +:+ trim_slashes (TrimSpace resource)) action ∧
    ∀ code, feature_of resource = Some code → may_use (view s) (u_ID user) code.
Proof.
  intros Hs H. unfold RequireOrganizationResourcePermission in H. unfold bind at 1 in H.
  destruct (requireResourceFeature actor resource s) as [[[]|] s1] eqn:E1; [|done].
  apply requireResourceFeature_sound in E1 as (Hs1 & V1 & Hf); [|done]. cbv zeta in H.
  destruct (bool_decide (organizationID = 0%N)) eqn:Ho; [done|]. apply bool_decide_eq_false in Ho. cbn [orb] in H.
  destruct (bool_decide (trim_slashes _ = "")); [done|]. unfold requirePermission in H.
  assert (String.prefix "/organizations" ("/resources/" +:+ trim_slashes (TrimSpace resource)) = false) as Hpre by reflexivity.
  rewrite Hpre in H. cbn [andb] in H. clear Hpre. unfold bind at 1 in H. cbn [ret] in H. destruct actor as [user|]; [|done]. exists user. split_and!; [done..| |].
  - unfold bind in H. destruct (enforce _ _ _ _ s1) as [[[]|] s2] eqn:E2; [|done|done].
    change (enforce (u_ID user)) with (hasPermission (DB := DB) (E := E) (Some user)) in E2. apply hasPermission_sync in E2 as [_ Hg]; [|done].
    rewrite V1 in Hg. by apply Hg.
  - intros code Hc. destruct (Hf code Hc) as (user' & [= <-] & Hu). done.
Qed.

Context (ToLower : string → string) (IDKey : string → string → N → N → N → N → string) (Version : N).
Context (salt : St → Result string) (random : nat → St → Result string).
Abbreviation perform := (perform ToLower IDKey Version salt random).


(** Operations one after the other, by any actors, successful or not. *)
Inductive history : St → St → Prop :=
| history_nil s : history s s
| history_step s actor op x s1 s2 :
    size (organizations_of (view s)) ≤ max_hops → perform actor op s = (x, s1) → history s1 s2 → history s s2.

End Claims.

(** isOrganizationDescendant decides the transitive closure of the parent
    relation, although its loop makes at most as many steps as there are
    organizations, on every list of organizations with distinct numbers: chains
    of any length, missing parents and cycles included. *)
Theorem descendant_is_closure (organizations : list Organization) x y :
  NoDup (map o_ID organizations) →
  isOrganizationDescendant organizations x y = true ↔ tc (child_of organizations) x y.
Proof. apply walk_is_closure. Qed.


(** ** A running installation *)
Section Example.
Lemma no_tables_wf : wf_tables (mkIamTables ∅ ∅ ∅ ∅ ∅ ∅ ∅ ∅) ∧ Forall wf_tables [].
Proof. split; [|done]. by split. Qed.
Abbreviation Service := (IAMService IamDB RuleSet).
Abbreviation view s := (tables (repo s)).
Definition installed : Service := mkIAM (mkIamDB (mkIamTables ∅ ∅ ∅ ∅ ∅ ∅ ∅ ∅) [] no_tables_wf) (mkRules [] [] []).
Definition account (id : N) (name : string) : User := mkUserRow id name (name +:+ "@example.com") "" UserStatusActive None "".
Definition alice : User := account 1 "alice".
Definition bob : User := account 2 "bob".
Definition carol : User := account 3 "carol".
(** The catalog and three accounts. *)
Definition seeded : Service := snd ((
  NewIAMService ("Administrator", "") ("User", "") ;;
  on_repo (Repo.CreateUser (account 0 "alice")) ;; on_repo (Repo.CreateUser (account 0 "bob")) ;;
  on_repo (Repo.CreateUser (account 0 "carol"))) installed).
Abbreviation act := (perform (DB := IamDB) (E := RuleSet) (λ e, e) (λ _ _ _ _ _ _, "hash") 19 (λ _, Ok "salt") (λ _ _, Ok "0123456789abcdef")).
Definition after (script : list (User * iam_op)) (s : Service) : Service :=
  fold_left (λ s '(user, op), snd (act (Some user) op s)) script s.
(** [alice] administers the root organization; below it north and south, and a
    branch below north; [bob] administers north. *)
Definition script : list (User * iam_op) :=
  [ (alice, OpBootstrap "root"); (alice, OpCreateOrganization "north" "" None); (alice, OpCreateOrganization "south" "" None);
    (alice, OpUpsertMember 2 2 IAMRoleAdmin); (alice, OpCreateOrganization "branch" "" (Some 2%N)) ].
Definition running : Service := after script seeded.

(** A call and what it left. *)
Lemma ran {S A} (m : Op S A) s a : fst (m s) = Ok a → m s = (Ok a, snd (m s)).
Proof. intros <-. by destruct (m s). Qed.
Lemma after_single script s : single (view s) → single (view (after script s)).
Proof.
  revert s. induction script as [|[user op] script IH]; intros s Hs; [done|]. apply IH.
  destruct (act (Some user) op s) as [x s'] eqn:E1. by apply (single_perform _ _ _ _ _ _ _ _ _ _ E1).
Qed.
Lemma seeded_single : single (view seeded).
Proof. intros k k' b b' H. exfalso. revert H. assert (visible (iam_role_bindings (view seeded)) = ∅) as -> by (by vm_compute). by rewrite lookup_empty. Qed.
Lemma no_organizations (t : IamTables) : organizations_of t = ∅ → hierarchy t.
Proof.
  intros He. assert (∀ x y, ¬ child t x y) as Hn.
  { intros x y (o & Ho & _). unfold organizations_of in He. rewrite He in Ho. by rewrite lookup_empty in Ho. }
  split; [intros x y H; by apply Hn in H|]. intros x H. destruct H; by eapply Hn.
Qed.
Lemma seeded_hierarchy : hierarchy (view seeded).
Proof. apply no_organizations. by vm_compute. Qed.
Lemma reloaded_in_sync : in_sync (snd (reloadAuthorization running)).
Proof.
  assert (reloadAuthorization running = (Ok tt, snd (reloadAuthorization running))) as H by (apply ran; by vm_compute).
  apply reload_sync in H as (_ & _ & H). by apply H.
Qed.
Definition reloaded : Service := snd (reloadAuthorization running).

(** [bob] may change the branch below his organization, [carol] may not. *)
Lemma running_reloads : fst (reloadAuthorization running) = Ok tt.
Proof. by vm_compute. Qed.
Definition check (user : User) (domain object action : string) : Op Service bool := hasPermission (Some user) domain object action.
Lemma authorization_refines_tables_witness :
  granted (view running) 2 (organizationDomain 4) (organizationObject 4) "update" ∧
  ¬ granted (view running) 3 (organizationDomain 4) (organizationObject 4) "update".
Proof.
  assert (fst (check bob (organizationDomain 4) (organizationObject 4) "update" reloaded) = Ok true) as Hb by (by vm_compute).
  assert (fst (check carol (organizationDomain 4) (organizationObject 4) "update" reloaded) = Ok false) as Hc by (by vm_compute).
  split.
  - exact (proj1 (proj2 (authorization_refines_tables bob _ _ _ running reloaded true _ (ran _ _ _ running_reloads) (ran _ _ _ Hb))) eq_refl).
  - intros H. pose proof (proj2 (proj2 (authorization_refines_tables carol _ _ _ running reloaded false _ (ran _ _ _ running_reloads) (ran _ _ _ Hc))) H).
    discriminate.
Defined.
Lemma running_single : single (view running).
Proof. apply after_single, seeded_single. Qed.
(** [administered] as a test. *)
Definition has_admin (t : IamTables) (o : N) : bool :=
  existsb (λ b, bool_decide (b_OrganizationID b = o) && is_admin (Repo.with_role t b)) (all_rows (visible (iam_role_bindings t))).
Lemma has_admin_spec t o : has_admin t o = true ↔ administered t o.
Proof.
  unfold has_admin, administered. rewrite existsb_exists. setoid_rewrite <- list_elem_of_In. setoid_rewrite elem_of_all_rows.
  setoid_rewrite andb_true_iff. setoid_rewrite bool_decide_eq_true. setoid_rewrite is_admin_with_role. naive_solver.
Qed.
Lemma running_administered : administered (view running) 2.
Proof. apply has_admin_spec. by vm_compute. Qed.
Lemma administrator_kept_witness :
  administered (view (snd (UpsertOrganizationMemberFor (Some alice) 2 2 IAMRoleUser running))) 2 ∧
  administered (view (snd (RemoveOrganizationMemberFor (Some alice) 2 2 running))) 2.
Proof.
  destruct (UpsertOrganizationMemberFor (Some alice) 2 2 IAMRoleUser running) as [x s'] eqn:E1.
  destruct (RemoveOrganizationMemberFor (Some alice) 2 2 running) as [y s''] eqn:E2.
  exact (administrator_kept (Some alice) 2 2 IAMRoleUser 2 running x s' y s'' running_single running_administered E1 E2).
Defined.
Lemma role_change_atomic_witness :
  let s' := snd (setOrganizationRole 3 3 IAMRoleUser false running) in
  ∃ role, ro_Code role = IAMRoleUser ∧ rebound (view running) (view s') 3 3 (ro_ID role) false ∧ in_sync s'.
Proof.
  assert (fst (setOrganizationRole 3 3 IAMRoleUser false running) = Ok tt) as H by (by vm_compute).
  destruct (role_change_atomic 3 3 IAMRoleUser false running (Ok tt) (snd (setOrganizationRole 3 3 IAMRoleUser false running)))
    as [[? _]|(role & Hc & _ & Hr & Hs)]; [exact (ran _ _ _ H)|done|]. exists role. split_and!; [done|done|by apply Hs].
Defined.
Lemma resource_access_justified_witness :
  granted (view reloaded) 1 (organizationDomain 4) "/resources/agent_sessions" "read" ∧ may_use (view reloaded) 1 FeatureAccessAI.
Proof.
  assert (fst (RequireOrganizationResourcePermission (Some alice) 4 "agent_sessions" "read" reloaded) = Ok tt) as H by (by vm_compute).
  destruct (resource_access_justified (Some alice) 4 "agent_sessions" "read" reloaded _ reloaded_in_sync (ran _ _ _ H)) as (user & Hu & _ & Hg & Hf). injection Hu as <-. split; [exact Hg|by apply Hf].
Defined.
Definition left : Service := snd (act (Some alice) (OpRemoveMember 2 2) reloaded).
Abbreviation ran_history := (history (DB := IamDB) (E := RuleSet) (λ e, e) (λ _ _ _ _ _ _, "hash") 19 (λ _, Ok "salt") (λ _ _, Ok "0123456789abcdef")).
Fixpoint fits (script : list (User * iam_op)) (s : Service) : bool :=
  match script with
  | [] => true
  | (user, op) :: script' => Nat.leb (size (organizations_of (view s))) max_hops && fits script' (snd (act (Some user) op s))
  end.
Lemma history_after script s : fits script s = true → ran_history s (after script s).
Proof.
  revert s. induction script as [|[user op] l IH]; intros s H; [apply history_nil|]. cbn [fits] in H. apply andb_true_iff in H as [Hs H].
  eapply history_step; [by apply Nat.leb_le|apply surjective_pairing|exact (IH _ H)].
Qed.
(** Two organizations, each below the other, and a third below both. *)
Definition tangled : list Organization :=
  [mkOrganization 1 "a" "" (Some 2%N) false; mkOrganization 2 "b" "" (Some 1%N) false; mkOrganization 3 "c" "" (Some 2%N) false].
Lemma descendant_is_closure_witness : tc (child_of tangled) 3%N 1%N ∧ ¬ tc (child_of tangled) 1%N 3%N.
Proof.
  assert (NoDup (map o_ID tangled)) as Hnd by (by vm_compute; repeat constructor; set_solver).
  split; [by apply (descendant_is_closure tangled 3%N 1%N Hnd)|]. intros H%(descendant_is_closure tangled 1%N 3%N Hnd). by vm_compute in H.
Defined.

(** ** Where the code falls short *)
(** An organization moved elsewhere: the administrator of its old parent keeps
    his rights over it until something else reloads the authorizer. *)
Theorem moved_organization_keeps_old_rights :
  let moved := snd (UpdateOrganizationFor (Some alice) 4 "" "" (Some 3%N) true reloaded) in
  is_ok (fst (UpdateOrganizationFor (Some alice) 4 "" "" (Some 3%N) true reloaded)) = true ∧
  fst (hasPermission (Some bob) (organizationDomain 4) (organizationObject 4) "update" moved) = Ok true ∧
  fst (hasPermission (Some bob) (organizationDomain 4) (organizationObject 4) "update" (snd (reloadAuthorization moved))) = Ok false.
Proof. by vm_compute. Qed.
(** The last administrator of an organization can be deleted as an account,
    though not removed as a member. *)
Theorem deleting_an_account_can_orphan_an_organization :
  let alone := snd (RemoveOrganizationMemberFor (Some alice) 2 1 reloaded) in
  is_ok (fst (RemoveOrganizationMemberFor (Some alice) 2 2 alone)) = false ∧ has_admin (view alone) 2 = true ∧
  fst (DeleteUserFor (Some alice) 2 alone) = Ok tt ∧ has_admin (view (snd (DeleteUserFor (Some alice) 2 alone))) 2 = false.
Proof. by vm_compute. Qed.
(** The name of a deleted organization and the address of a deleted account
    stay taken. *)
Theorem deleted_names_stay_taken :
  let gone := snd (DeleteOrganizationFor (Some alice) 3 reloaded) in
  fst (DeleteOrganizationFor (Some alice) 3 reloaded) = Ok tt ∧
  fst (on_repo (Repo.GetOrganizationByName "south") gone) = Ok None ∧
  is_ok (fst (CreateOrganizationFor (Some alice) "south" "" None gone)) = false.
Proof. by vm_compute. Qed.
End Example.
