(* ===== verification/IamAuth.v ===== *)
(** * manager/iam: who is asking

    [auth.go], [pat.go], [middleware.go] and [utils/jwt.go]: passwords, session
    tokens, personal access tokens, and the middleware that admits a request.
    The JWT library and bcrypt are parameters with their documented behaviour
    as laws; base32 is the standard library's and is written out.  [now] is a
    reading of the clock; a function that reads it several times takes several.
    Log lines and the file the first password is written to are left out. *)

From S2P Require Import Prelude Utf8 ToolTypes ToolDisclosure NetAddr Password IamDao Iam.
Import IAM.

(** ** utils/jwt.go *)
Definition second : Z := 1000000000%Z.
Definition hour : Z := (3600 * second)%Z.
Definition JWTConfig_ExpirationTime : Z := (24 * hour)%Z.
(** [jwt.NewNumericDate]: whole seconds. *)
Definition NewNumericDate (t : Time) : Time := (t - t `mod` second)%Z.
Record Claims := mkClaims {
  c_UserID : N; c_Email : string; c_ExpiresAt : Time; c_IssuedAt : Time; c_NotBefore : Time; c_Issuer : string; c_Subject : string }.

(** [NewWithClaims(HS256, claims).SignedString(key)] and [ParseWithClaims]
    with the key, at a time. *)
Class Jwt := {
  SignedString : string → Claims → Result string;
  ParseWithClaims : string → string → Time → Result Claims
}.
(** [verified key token claims]: the token's HMAC under the key is right and
    its payload is [claims]. *)
Class JwtLaws `{!Jwt} := {
  verified : string → string → Claims → Prop;
  verified_unique key token c1 c2 : verified key token c1 → verified key token c2 → c1 = c2;
  Signed_law key c token : SignedString key c = Ok token → verified key token c;
  Parse_law key token now c : ParseWithClaims key token now = Ok c →
    verified key token c ∧ Before now (c_ExpiresAt c) = true ∧ Before now (c_NotBefore c) = false;
  Parse_answers key token now c :
    verified key token c → Before now (c_ExpiresAt c) = true → Before now (c_NotBefore c) = false → ParseWithClaims key token now = Ok c
}.

Definition SetJWTSecret (secret : string) (current : string) : Result unit * string :=
  if bool_decide (secret = "") then (Err (ENew "JWT secret key is required and cannot be empty"), current)
  else if Nat.ltb (String.length secret) 32 then (Err (ENew "JWT secret key must be at least 32 characters long for security"), current)
  else (Ok tt, secret).
Definition not_configured : error := ENew "JWT secret key is not configured".

Section Tokens.
Context {i_jwt : Jwt}.
(** [t1], [t2], [t3]: the expiry, issue and not-before readings. *)
Definition GenerateToken (secret : string) (t1 t2 t3 : Time) (userID : N) (email : string) : Result string :=
  if bool_decide (secret = "") then Err not_configured else
  SignedString secret (mkClaims userID email (NewNumericDate (t1 + JWTConfig_ExpirationTime)%Z) (NewNumericDate t2) (NewNumericDate t3) "liaison" email).
Definition ValidateToken (secret : string) (now : Time) (tokenString : string) : Result Claims :=
  if bool_decide (secret = "") then Err not_configured else ParseWithClaims secret tokenString now.
Definition RefreshToken (secret : string) (now now' t1 t2 t3 : Time) (tokenString : string) : Result string :=
  match ValidateToken secret now tokenString with
  | Err e => Err e
  | Ok claims =>
      if Z.ltb (c_ExpiresAt claims - now') hour then GenerateToken secret t1 t2 t3 (c_UserID claims) (c_Email claims)
      else Ok tokenString
  end.
End Tokens.

(** ** base32.StdEncoding *)
Module Base32.
Definition alphabet : list ascii := String.list_ascii_of_string "ABCDEFGHIJKLMNOPQRSTUVWXYZ234567".
Definition symbol (n : N) : ascii := nth (N.to_nat n) alphabet "A"%char.
(** The eight digits of a quantum of five bytes. *)
Definition digits (b0 b1 b2 b3 b4 : N) : list ascii :=
  map (λ i, symbol ((((((b0 * 256 + b1) * 256 + b2) * 256 + b3) * 256 + b4) / 32 ^ N.of_nat i) `mod` 32)%N) [7; 6; 5; 4; 3; 2; 1; 0].
Definition pad (n : nat) (l : list ascii) : list ascii := take n l ++ replicate (8 - n) "="%char.
Fixpoint encode (l : list N) : list ascii :=
  match l with
  | [] => []
  | [a] => pad 2 (digits a 0 0 0 0)
  | [a; b] => pad 4 (digits a b 0 0 0)
  | [a; b; c] => pad 5 (digits a b c 0 0)
  | [a; b; c; d] => pad 7 (digits a b c d 0)
  | a :: b :: c :: d :: e :: l' => digits a b c d e ++ encode l'
  end.
End Base32.
Example base32_foobar : String.string_of_list_ascii (Base32.encode (Utf8.bytes_of "foobar")) = "MZXW6YTBOI======".
Proof. reflexivity. Qed.
(** [strings.TrimRight(s, "=")] and [strings.ToLower], on ASCII. *)
Fixpoint trim_right (c : ascii) (l : list ascii) : list ascii :=
  match l with
  | [] => []
  | x :: l' => match trim_right c l' with [] => if bool_decide (x = c) then [] else [x] | r => x :: r end
  end.
Definition lower (c : ascii) : ascii :=
  let n := N_of_ascii c in if (65 <=? n)%N && (n <=? 90)%N then ascii_of_N (n + 32) else c.

(** ** pat.go *)
Definition patRandomBytes : nat := 25.
Definition patPrefixRandomChars : nat := 8.
Definition patPrefixTotalLen : nat := String.length PATPlaintextPrefix + patPrefixRandomChars.
Definition patMaxPerUser : N := 50.
Definition patMaxNameLen : nat := 64.
Definition ErrPATNameRequired : error := ESentinel "iam.ErrPATNameRequired" "token name is required".
Definition ErrPATNameTooLong : error := ESentinel "iam.ErrPATNameTooLong" "token name must be at most 64 characters".
Definition ErrPATTooMany : error := ESentinel "iam.ErrPATTooMany" "token limit reached (max 50 per user)".
Definition ErrPATInvalid : error := ESentinel "iam.ErrPATInvalid" "invalid or revoked token".
Definition ErrPATExpired : error := ESentinel "iam.ErrPATExpired" "token expired".
Fixpoint take_string (n : nat) (s : string) : string :=
  match n, s with S n', String c s' => String c (take_string n' s') | _, _ => EmptyString end.
Definition pat_prefix (plaintext : string) : string :=
  if Nat.ltb patPrefixTotalLen (String.length plaintext) then take_string patPrefixTotalLen plaintext else plaintext.
Definition pat_suffix (raw : string) : string :=
  String.string_of_list_ascii (map lower (trim_right "="%char (Base32.encode (Utf8.bytes_of raw)))).

(** [golang.org/x/crypto/bcrypt]: hashing with a salt, and the comparison. *)
Class Bcrypt := {
  GenerateFromPassword : string → string → Result string;
  CompareHashAndPassword : string → string → bool
}.
Class BcryptLaws `{!Bcrypt} :=
  { Compare_law salt password hash : GenerateFromPassword salt password = Ok hash → CompareHashAndPassword hash password = true }.

(** ** auth.go *)
Record LoginRequest := mkLoginRequest { lr_Email : string; lr_Password : string }.
Record LoginResponse := mkLoginResponse { ls_Token : string; ls_User : User }.
Record ChangePasswordRequest := mkChangePassword { cp_OldPassword : string; cp_NewPassword : string }.
Record PATCreateResult := mkPATCreateResult { pr_Model : UserAPIToken; pr_Token : string }.

Module Auth.
Section Auth.
Context {DB E : Type} {i_gorm : IamGorm DB} {i_enforcer : Enforcer E} {i_jwt : Jwt} {i_bcrypt : Bcrypt}.
Abbreviation St := (IAMService DB E).
Context (IDKey : string → string → N → N → N → N → string) (Version : N).
Context (secret : string).

(** A call whose failure is only logged. *)
Definition logged {A} (m : Op St A) : Op St unit := λ s, (Ok tt, snd (m s)).

Definition Login (now t1 t2 t3 : Time) (req : LoginRequest) (loginIP : string) : Op St LoginResponse :=
  let! user := on_repo (Repo.GetUserByEmail (lr_Email req)) in
  let! user := of_option user (ENew "user not found") in
  throw_if negb (bool_decide (u_Status user = UserStatusActive)) with ENew "user account is disabled" ;;
  let! valid := lift (Password.VerifyPassword IDKey Version (lr_Password req) (u_Password user)) in
  throw_if negb valid with ENew "invalid password" ;;
  logged (on_repo (Repo.UpdateUserLastLoginAndIP now (u_ID user) loginIP)) ;;
  let! token := lift (GenerateToken secret t1 t2 t3 (u_ID user) (u_Email user)) in
  ret (mkLoginResponse token user).

(** The password made, if an account was; [salt] and [random] as in [Iam]. *)
Definition CreateDefaultUser (salt : Result string) (random : Result string) (root_description : string) : Op St (option string) :=
  let! exists_ := on_repo (Repo.CheckUserExists "default@liaison.local") in
  if (exists_ : bool) then ret None else
  let! password := lift (Password.GenerateRandomPassword random) in
  let! hashedPassword := lift (Password.HashPassword IDKey Version salt password) in
  on_repo (Repo.CreateUser (mkUserRow 0 "default" "default@liaison.local" hashedPassword UserStatusActive None "")) ;;
  EnsureOrganizationBootstrap root_description ;;
  ret (Some password).

Definition GetUserByID (userID : N) : Op St User :=
  let! user := on_repo (Repo.GetUserByID userID) in of_option user (ENew "user not found").
Definition GetUserByToken (now : Time) (tokenString : string) : Op St User :=
  let! claims := lift (ValidateToken secret now tokenString) in
  let! user := on_repo (Repo.GetUserByID (c_UserID claims)) in of_option user (ENew "user not found").
Definition ChangePassword (salt : Result string) (userID : N) (req : ChangePasswordRequest) : Op St unit :=
  let! user := on_repo (Repo.GetUserByID userID) in
  let! user := of_option user (ENew "user not found") in
  let! valid := lift (Password.VerifyPassword IDKey Version (cp_OldPassword req) (u_Password user)) in
  throw_if negb valid with ENew "invalid old password" ;;
  let! hashedPassword := lift (Password.HashPassword IDKey Version salt (cp_NewPassword req)) in
  on_repo (Repo.UpdateUser (user<| u_Password := hashedPassword |>)).

(** *** Personal access tokens *)
Definition CreatePAT (raw : Result string) (salt : string) (userID : N) (name : string) (expiresAt : option Time) : Op St PATCreateResult :=
  let name := TrimSpace name in
  throw_if bool_decide (name = "") with ErrPATNameRequired ;;
  throw_if Nat.ltb patMaxNameLen (String.length name) with ErrPATNameTooLong ;;
  let! count := on_repo (Repo.CountUserAPITokens userID) in
  throw_if N.leb patMaxPerUser count with ErrPATTooMany ;;
  let! raw := map_err (during "generate random token") (lift raw) in
  let plaintext := PATPlaintextPrefix +:+ pat_suffix raw in
  let! hash := map_err (during "bcrypt hash") (lift (GenerateFromPassword salt plaintext)) in
  let! tok := on_repo (Repo.CreateUserAPIToken
    (mkUserAPIToken 0 userID name (pat_prefix plaintext) hash "full_access" None "" expiresAt None)) in
  ret (mkPATCreateResult tok plaintext).
Definition ListPATs (userID : N) : Op St (list UserAPIToken) :=
  let! out := on_repo (Repo.ListUserAPITokens userID) in ret (map (λ t, t<| k_TokenHash := "" |>) out).
Definition RevokePAT (now : Time) (userID id : N) : Op St unit := on_repo (Repo.RevokeUserAPIToken now userID id).
(** The user and the arguments of the goroutine that notes the use; [touch] is
    its body, which runs at some later time or never. *)
Definition GetUserByPAT (now : Time) (plaintext requestIP : string) : Op St (User * (N * string)) :=
  let plaintext := TrimSpace plaintext in
  throw_if negb (HasPrefix plaintext PATPlaintextPrefix) with ErrPATInvalid ;;
  let! candidates := on_repo (Repo.GetUserAPITokensByPrefix (pat_prefix plaintext)) in
  let! match_ := of_option (List.find (λ c, CompareHashAndPassword (k_TokenHash c) plaintext) candidates) ErrPATInvalid in
  throw_if (match k_ExpiresAt match_ with Some t => After now t | None => false end) with ErrPATExpired ;;
  let! user := on_repo (Repo.GetUserByID (k_UserID match_)) in
  let! user := of_option user ErrPATInvalid in
  ret (user, (k_ID match_, requestIP)).
Definition touch (now : Time) (id : N) (ip : string) : Op St unit := logged (on_repo (Repo.TouchUserAPIToken now id ip)).

(** ** middleware.go *)
Record Request := mkRequest { r_Method : string; r_Path : string; r_Header : string → string; r_RemoteAddr : string }.
Definition guarded_prefixes : list (string * string) :=
  [("/api/v1/edges", "connectors"); ("/api/v1/devices", "devices"); ("/api/v1/applications", "applications"); ("/api/v1/proxies", "accesses");
   ("/api/v1/webssh", "accesses"); ("/api/v1/webdesktop", "accesses"); ("/api/v1/webdata", "accesses"); ("/api/v1/audits", "logs");
   ("/api/v1/agent", "agent_session_api")].
Definition resource_of_path (path : string) : option string :=
  match List.find (λ p, HasPrefix path (fst p)) guarded_prefixes with
  | Some (_, resource) => Some resource
  | None => if bool_decide (path = "/api/v1/traffic-metrics") then Some "overview" else None
  end.
Definition crud_action (method : string) : option string :=
  if bool_decide (method = "GET") then Some "read"
  else if bool_decide (method = "POST") then Some "create"
  else if bool_decide (method = "PUT") || bool_decide (method = "PATCH") then Some "update"
  else if bool_decide (method = "DELETE") then Some "delete" else None.
Definition terminal_action (method : string) : option string :=
  if bool_decide (method = "GET") then Some "read"
  else if bool_decide (method = "POST") || bool_decide (method = "PUT") || bool_decide (method = "PATCH") || bool_decide (method = "DELETE")
  then Some "use" else None.
Definition is_web (path : string) : bool :=
  HasPrefix path "/api/v1/webssh" || HasPrefix path "/api/v1/webdesktop" || HasPrefix path "/api/v1/webdata".
Definition action_of (path method : string) : option string :=
  if is_web path then terminal_action method
  else if HasPrefix path "/api/v1/agent" then
    if Contains path "/turns" || Contains path "/approvals/" || HasSuffix path "/events"
    then if bool_decide (method = "GET") || bool_decide (method = "POST") then Some "use" else None
    else crud_action method
  else crud_action method.
Definition resourcePermissionForRequest (r : Request) : option (string * string) :=
  let path := TrimSuffix (r_Path r) "/" in
  resource ← resource_of_path path; action ← action_of path (r_Method r); Some (resource, action).

Definition ExtractClientIP (r : Request) : string :=
  let real := TrimSpace (r_Header r "X-Real-IP") in
  if negb (bool_decide (real = "")) then real else
  let forwarded := TrimSpace (r_Header r "X-Forwarded-For") in
  if negb (bool_decide (forwarded = "")) then
    match cut_at "," forwarded with
    | Some (first, _) => if bool_decide (first = "") then forwarded else TrimSpace first
    | None => forwarded
    end
  else match Net.SplitHostPort (r_RemoteAddr r) with
       | Ok (host, _) => host
       | Err _ => r_RemoteAddr r
       end.

Definition noAuthPaths : list string :=
  ["/api/v1/iam/login"; "/api/v1/iam/client_ip"; "/install.sh"; "/install.ps1"; "/install.bat"; "/uninstall.sh"; "/uninstall.ps1"].
Definition isIAMEndpoint (path : string) : bool :=
  if HasPrefix path "/packages/" then true
  else if HasPrefix path "/api/v1/webssh/sessions/" && HasSuffix path "/connect" then true
  else if HasPrefix path "/api/v1/webdesktop/sessions/" && HasSuffix path "/connect" then true
  else existsb (λ p, bool_decide (path = p)) noAuthPaths.

(** The answer of the middleware: what the handler gave, or a status of its own. *)
Inductive Reply (A : Type) := Handled (r : Result A) | Refused (code : nat) (reason message : string).
Arguments Handled {A} _.
Arguments Refused {A} _ _ _.
Definition unauthorized {A} (message : string) : Reply A := Refused 401 "UNAUTHORIZED" message.

(** The account of a bearer token, and the goroutine to start if any. *)
Definition authenticate (now : Time) (r : Request) (tokenString : string) : Op St (User * option (N * string)) :=
  if HasPrefix tokenString PATPlaintextPrefix
  then let! '(user, go) := GetUserByPAT now tokenString (ExtractClientIP r) in ret (user, Some go)
  else let! user := GetUserByToken now tokenString in ret (user, None).
(** [handler] gets the account put into the context, if there is one. *)
Definition AuthMiddleware {A} (handler : option User → Op St A) (now : Time) (r : Request) : St → Reply A * St := λ s,
  if isIAMEndpoint (r_Path r) then let '(x, s') := handler None s in (Handled x, s') else
  if bool_decide (r_Header r "Authorization" = "") then (unauthorized "No authentication token provided", s) else
  match cut_at " " (r_Header r "Authorization") with
  | None => (unauthorized "Invalid token format", s)
  | Some (scheme, tokenString) =>
      if negb (bool_decide (scheme = "Bearer")) then (unauthorized "Invalid token format", s) else
      match authenticate now r tokenString s with
      | (Err _, s1) => (unauthorized "Token validation failed", s1)
      | (Ok (user, _), s1) =>
          match resourcePermissionForRequest r with
          | Some (resource, action) =>
              match RequireResourcePermission (Some user) resource action s1 with
              | (Err e, s2) =>
                  if Is e ErrForbidden then (Refused 403 "FORBIDDEN" "No permission to perform this operation", s2)
                  else (Refused 500 "AUTHORIZATION_FAILED" "Authorization failed", s2)
              | (Ok _, s2) => let '(x, s3) := handler (Some user) s2 in (Handled x, s3)
              end
          | None => let '(x, s2) := handler (Some user) s1 in (Handled x, s2)
          end
      end
  end.
End Auth.
Arguments Handled {A} _.
Arguments Refused {A} _ _ _.
End Auth.
