(* ===== verification/IamAuthTheorems.v ===== *)
(** * manager/iam: who gets in

    What a request must show before its handler runs, and that the tokens the
    service gives out are accepted for the account they were made for, until
    they expire or are revoked. *)

From S2P Require Import Prelude Utf8 ToolTypes ToolDisclosure NetAddr Password IamDao Iam IamAuthorization IamDatabase IamInvariant IamTheorems IamAuth.
Import IAM Auth.

(** ** Strings without spaces *)
Definition printable (c : ascii) : bool := (33 <=? N_of_ascii c)%N && (N_of_ascii c <=? 126)%N.
Definition printable_string (s : string) : bool := forallb printable (String.list_ascii_of_string s).

Lemma trim_stays fuel ps c s :
  forallb (λ p, match p with EmptyString => false | String d _ => negb (printable d) end) ps = true → printable c = true →
  trim_prefixes fuel ps (String c s) = String c s.
Proof.
  intros Hps Hc. destruct fuel as [|fuel]; [done|]. cbn [trim_prefixes].
  destruct (List.find (λ p, String.prefix p (String c s)) ps) as [p|] eqn:Hf; [|done].
  apply find_some in Hf as [Hin Hp]. rewrite forallb_forall in Hps. apply Hps in Hin. destruct p as [|d p]; [done|].
  cbn in Hp. destruct (ascii_dec d c) as [->|]; [by rewrite Hc in Hin|done].
Qed.
Lemma list_of_rev s : String.list_ascii_of_string (rev_string s) = rev (String.list_ascii_of_string s).
Proof. unfold rev_string. by rewrite String.list_ascii_of_string_of_list_ascii. Qed.
Lemma rev_string_involutive s : rev_string (rev_string s) = s.
Proof. unfold rev_string at 1. rewrite list_of_rev, rev_involutive. apply String.string_of_list_ascii_of_string. Qed.
Lemma TrimSpace_printable s : printable_string s = true → TrimSpace s = s.
Proof.
  intros Hs. unfold TrimSpace. destruct s as [|c s]; [done|].
  assert (printable c = true) as Hc by (unfold printable_string in Hs; cbn in Hs; by apply andb_true_iff in Hs as [? _]).
  rewrite trim_stays; [|by vm_compute|done]. destruct (rev_string (String c s)) as [|d r] eqn:Hr.
  - apply (f_equal String.list_ascii_of_string) in Hr. rewrite list_of_rev in Hr. apply (f_equal length) in Hr.
    rewrite length_rev in Hr. done.
  - rewrite trim_stays; [|by vm_compute|]; [rewrite <- Hr; apply rev_string_involutive|].
    assert (d ∈ rev (String.list_ascii_of_string (String c s))) as Hd by (rewrite <- list_of_rev, Hr; left).
    unfold printable_string in Hs. rewrite forallb_forall in Hs. apply Hs. apply list_elem_of_In in Hd. by apply in_rev.
Qed.
Lemma list_of_app a b : String.list_ascii_of_string (a +:+ b) = String.list_ascii_of_string a ++ String.list_ascii_of_string b.
Proof. induction a as [|c a IH]; [done|]. change (String c a +:+ b) with (String c (a +:+ b)). cbn. by rewrite IH. Qed.
Lemma HasPrefix_app p s : HasPrefix (p +:+ s) p = true.
Proof.
  unfold HasPrefix. induction p as [|c p IH]; [by destruct s|]. change (String c p +:+ s) with (String c (p +:+ s)).
  cbn [String.prefix]. destruct (ascii_dec c c); [done|congruence].
Qed.

(** ** The text of a token *)
Lemma lower_alphabet_printable : forallb (λ c, printable (lower c)) Base32.alphabet = true.
Proof. by vm_compute. Qed.
Lemma symbol_in n : Base32.symbol n ∈ Base32.alphabet.
Proof.
  unfold Base32.symbol. destruct (Nat.lt_ge_cases (N.to_nat n) (length Base32.alphabet)) as [H|H].
  - apply list_elem_of_In. by apply nth_In.
  - rewrite nth_overflow by done. vm_compute. left.
Qed.
Lemma digits_in a b c d e : Forall (λ x, x ∈ Base32.alphabet) (Base32.digits a b c d e) ∧ length (Base32.digits a b c d e) = 8.
Proof. split; [|done]. unfold Base32.digits. apply Forall_fmap, Forall_forall. intros i _. apply symbol_in. Qed.
Lemma encode_quanta n l : length l = 5 * n → Forall (λ x, x ∈ Base32.alphabet) (Base32.encode l) ∧ length (Base32.encode l) = 8 * n.
Proof.
  revert l. induction n as [|n IH]; intros l Hl.
  - destruct l; [|done]. split; [constructor|done].
  - do 5 (destruct l as [|? l]; [simpl in Hl; lia|]). cbn [Base32.encode].
    destruct (IH l) as [IH1 IH2]; [simpl in Hl; lia|]. destruct (digits_in n0 n1 n2 n3 n4) as [H1 H2]. split.
    + apply Forall_app. by split.
    + rewrite length_app, H2, IH2. lia.
Qed.
Lemma trim_right_none c l : c ∉ l → trim_right c l = l.
Proof.
  induction l as [|x l IH]; [done|]. intros Hn. cbn [trim_right]. rewrite IH by set_solver.
  destruct l; [|done]. rewrite bool_decide_eq_false_2; [done|set_solver].
Qed.
(** The random part is forty printable characters. *)
Lemma length_bytes_of s : length (Utf8.bytes_of s) = String.length s.
Proof. unfold Utf8.bytes_of. rewrite length_map. induction s as [|c s IH]; [done|]. cbn. by rewrite IH. Qed.
Lemma length_of_list l : String.length (String.string_of_list_ascii l) = length l.
Proof. induction l as [|c l IH]; [done|]. cbn. by rewrite IH. Qed.
Lemma pat_suffix_spec raw : String.length raw = patRandomBytes →
  printable_string (pat_suffix raw) = true ∧ String.length (pat_suffix raw) = 40.
Proof.
  intros Hlen. unfold pat_suffix, printable_string. rewrite <- length_bytes_of in Hlen.
  destruct (encode_quanta 5 (Utf8.bytes_of raw)) as [Hin Hl]; [by rewrite Hlen|]. rewrite Forall_forall in Hin.
  rewrite trim_right_none; [|intros H%Hin; vm_compute in H; set_solver]. split.
  - rewrite String.list_ascii_of_string_of_list_ascii. apply forallb_forall. intros c (x & <- & Hx)%in_map_iff.
    pose proof lower_alphabet_printable as Hp. rewrite forallb_forall in Hp. apply Hp, list_elem_of_In, Hin, list_elem_of_In, Hx.
  - by rewrite length_of_list, length_map, Hl.
Qed.
Lemma plaintext_trims raw : String.length raw = patRandomBytes → TrimSpace (PATPlaintextPrefix +:+ pat_suffix raw) = PATPlaintextPrefix +:+ pat_suffix raw.
Proof.
  intros [Hp _]%pat_suffix_spec. apply TrimSpace_printable. revert Hp. generalize (pat_suffix raw). intros s Hs.
  unfold printable_string in *. rewrite list_of_app, forallb_app, Hs. by vm_compute.
Qed.

(** ** Who is admitted *)
Section Admission.
Context {DB E : Type} {i_gorm : IamGorm DB} {l_gorm : IamGormLaws DB} {i_enforcer : Enforcer E} {l_enforcer : EnforcerLaws E}.
Context {i_jwt : Jwt} {l_jwt : JwtLaws} {i_bcrypt : Bcrypt} {l_bcrypt : BcryptLaws}.
Abbreviation St := (IAMService DB E).
Abbreviation view s := (tables (repo s)).
Context (secret : string).

Definition users_of (t : IamTables) : gmap N User := visible (users t).
Definition tokens_of (t : IamTables) : gmap N UserAPIToken := visible (user_api_tokens t).
(** A session token speaks for the account: signed with the secret, in force,
    and the account exists. *)
Definition session_of (t : IamTables) (now : Time) (token : string) (user : User) : Prop := ∃ c,
  secret ≠ "" ∧ verified secret token c ∧ Before now (c_ExpiresAt c) = true ∧ users_of t !! c_UserID c = Some user.
(** A token the account made does: not revoked, not expired. *)
Definition live (now : Time) (tok : UserAPIToken) : Prop :=
  k_RevokedAt tok = None ∧ ∀ t, k_ExpiresAt tok = Some t → After now t = false.
Definition token_of (t : IamTables) (now : Time) (token : string) (user : User) : Prop := ∃ k tok,
  tokens_of t !! k = Some tok ∧ live now tok ∧ CompareHashAndPassword (k_TokenHash tok) (TrimSpace token) = true ∧
  users_of t !! k_UserID tok = Some user.
Definition speaks_for (t : IamTables) (now : Time) (token : string) (user : User) : Prop :=
  if HasPrefix token PATPlaintextPrefix then token_of t now token user else session_of t now token user.

Lemma user_read id (s : St) u s' : on_repo (Repo.GetUserByID id) s = (Ok (Some u), s') →
  view s' = view s ∧ authorizer s' = authorizer s ∧ users_of (view s) !! id = Some u.
Proof.
  intros H. assert (quiet (on_repo (Repo.GetUserByID id) : Op St _)) as Hq by (unfold Repo.GetUserByID; quiet_tac).
  destruct (Hq _ _ _ H) as (V & _ & A). split_and!; [done..|]. apply on_repo_inv in H as [H _]. apply First_found in H as [Hv Hid]. bools.
  simpl in Hv. by rewrite Hid in Hv.
Qed.
Lemma quiet_lift {A} (r : Result A) : quiet (lift r : Op St A).
Proof. intros s x s' [= <- <-]. done. Qed.
Lemma quiet_GetUserByToken now token : quiet (GetUserByToken secret now token : Op St User).
Proof. unfold GetUserByToken, Repo.GetUserByID. apply quiet_bind; [apply quiet_lift|]. intros c. quiet_tac. Qed.
Lemma quiet_GetUserByPAT now token ip : quiet (GetUserByPAT now token ip : Op St (User * (N * string))).
Proof. unfold GetUserByPAT, Repo.GetUserByID, Repo.GetUserAPITokensByPrefix. quiet_tac. Qed.
Lemma quiet_authenticate now r token : quiet (authenticate secret now r token : Op St (User * option (N * string))).
Proof.
  unfold authenticate. destruct (HasPrefix _ _); apply quiet_bind.
  - apply quiet_GetUserByPAT.
  - intros [user go]. apply quiet_ret.
  - apply quiet_GetUserByToken.
  - intros user. apply quiet_ret.
Qed.
Lemma session_token_sound now token (s : St) u s' :
  GetUserByToken secret now token s = (Ok u, s') → session_of (view s) now token u.
Proof.
  unfold GetUserByToken, bind, lift, ValidateToken. destruct (bool_decide (secret = "")) eqn:Hz; [done|]. apply bool_decide_eq_false in Hz.
  destruct (ParseWithClaims secret token now) as [c|] eqn:Hp; [|done].
  destruct (on_repo _ s) as [[[u'|]|] s1] eqn:E1; [|done|done]. intros [= -> _]. apply Parse_law in Hp as (Hv & He & _).
  apply user_read in E1 as (_ & _ & Hu). by exists c.
Qed.
Lemma access_token_sound now token ip (s : St) u id ip' s' :
  GetUserByPAT now token ip s = (Ok (u, (id, ip')), s') → ip' = ip ∧ ∃ tok, tokens_of (view s) !! id = Some tok ∧ live now tok ∧
    CompareHashAndPassword (k_TokenHash tok) (TrimSpace token) = true ∧ users_of (view s) !! k_UserID tok = Some u.
Proof.
  unfold GetUserByPAT. cbv zeta. destruct (negb _); [done|]. unfold bind at 1.
  destruct (on_repo _ s) as [[l|] s1] eqn:E1; [|done]. apply on_repo_inv in E1 as [E1 _].
  pose proof (λ r, Find_elems _ _ _ _ _ _ r E1) as Hl. assert (tables (repo s1) = view s) as V1 by (by apply Find_law in E1 as (_ & ? & _)).
  destruct (List.find _ l) as [tok|] eqn:Hf; [|done]. apply find_some in Hf as [Hin Hc]. apply list_elem_of_In, Hl in Hin as (k & r0 & Hk & Hp & ->).
  unfold Repo.plain in *. cbn [of_option bind]. unfold bind at 1. cbn [of_option].
  destruct (match k_ExpiresAt r0 with Some t => After now t | None => false end) eqn:Hx; [done|].
  unfold bind at 1. destruct (on_repo (Repo.GetUserByID _) s1) as [[[u'|]|] s2] eqn:E2; [|done|done].
  intros [= -> <- <- _]. apply user_read in E2 as (_ & _ & Hu). rewrite V1 in Hu. split; [done|]. exists r0.
  pose proof (visible_keyed (Row := UserAPIToken) (repo s) k r0 Hk) as Hid. simpl in Hid. subst k.
  apply andb_true_iff in Hp as [_ Hr%bool_decide_eq_true]. split_and!; [done| |done|done].
  split; [done|]. intros t Ht. by rewrite Ht in Hx.
Qed.
Lemma authenticate_sound now r token (s : St) u go s' :
  authenticate secret now r token s = (Ok (u, go), s') → speaks_for (view s) now token u.
Proof.
  unfold authenticate, speaks_for. destruct (HasPrefix token PATPlaintextPrefix); unfold bind.
  - destruct (GetUserByPAT _ _ _ s) as [[[u' [id ip]]|] s1] eqn:E1; [|done]. intros [= -> _ _].
    apply access_token_sound in E1 as (_ & tok & H). by exists id, tok.
  - destruct (GetUserByToken _ _ _ s) as [[u'|] s1] eqn:E1; [|done]. intros [= -> _ _]. by apply session_token_sound in E1.
Qed.

(** Somewhere the account has a role that allows the action on the resource. *)
Definition permitted (t : IamTables) (user : User) (resource action : string) : Prop := ∃ k b,
  visible (iam_role_bindings t) !! k = Some b ∧ b_UserID b = u_ID user ∧
  granted t (u_ID user) (organizationDomain (b_OrganizationID b)) ("/resources/" +:+ trim_slashes (TrimSpace resource)) action ∧
  ∀ code, feature_of resource = Some code → may_use t (u_ID user) code.
Lemma any_binding_sound user object action l (s : St) s' : in_sync s → any_binding user object action l s = (Ok tt, s') →
  ∃ b, b ∈ l ∧ granted (view s) (u_ID user) (organizationDomain (b_OrganizationID b)) object action.
Proof.
  intros Hs. induction l as [|b l IH]; [done|]. cbn [any_binding]. unfold bind.
  destruct (hasPermission _ _ _ _ s) as [[ok|] s1] eqn:E1; [|done]. apply hasPermission_sync in E1 as [-> Hok]; [|done].
  destruct ok; intros H; [exists b; split; [by left|by apply Hok]|]. destruct (IH H) as (b' & Hb & Hg). exists b'. split; [by right|done].
Qed.
Lemma resource_permission_sound user resource action (s : St) s' : in_sync s →
  RequireResourcePermission (Some user) resource action s = (Ok tt, s') → permitted (view s) user resource action.
Proof.
  intros Hs H. unfold RequireResourcePermission in H. unfold bind at 1 in H.
  destruct (requireResourceFeature _ _ s) as [[[]|] s1] eqn:E1; [|done].
  apply requireResourceFeature_sound in E1 as (Hs1 & V1 & Hf); [|done]. cbv zeta in H. destruct (bool_decide _); [done|].
  unfold bind in H. destruct (on_repo _ s1) as [[l|] s2] eqn:E2; [|done]. apply on_repo_inv in E2 as [E2 A2].
  pose proof (λ r, Find_elems _ _ _ _ _ _ r E2) as Hl. assert (view s2 = view s1) as V2 by (by apply Find_law in E2 as (_ & ? & _)).
  apply any_binding_sound in H as (b & (k & b0 & Hk & Hu & ->)%Hl & Hg); [|by eapply same_view_sync].
  rewrite V2, V1 in Hg. rewrite V1 in Hk. exists k, b0. bools. split_and!; [done|done|done|].
  intros code Hc. destruct (Hf code Hc) as (user' & [= <-] & ?). done.
Qed.

(** The caller a handler is run for. *)
Definition admitted (t : IamTables) (now : Time) (r : Request) (caller : option User) : Prop :=
  match caller with
  | None => isIAMEndpoint (r_Path r) = true
  | Some user => ∃ token, r_Header r "Authorization" = "Bearer " +:+ token ∧ speaks_for t now token user ∧
      ∀ resource action, resourcePermissionForRequest r = Some (resource, action) → permitted t user resource action
  end.
Lemma cut_at_inv c s a b : cut_at c s = Some (a, b) → s = a +:+ String c b.
Proof.
  revert a b. induction s as [|d s IH]; intros a b; [done|]. cbn [cut_at]. case_bool_decide as Hd.
  - intros [= <- <-]. by subst d.
  - destruct (cut_at c s) as [[a' b']|]; [|done]. intros [= <- <-]. change (String d a' +:+ String c b') with (String d (a' +:+ String c b')).
    f_equal. by apply IH.
Qed.

End Admission.

(** ** Tokens given out are accepted *)
(** A database that answers. *)
Class IamReliable (DB : Type) `{!IamGorm DB} := {
  First_answers {Row} `{!IamTable Row} preload p s :
    ∃ x s', First (Row := Row) preload p s = (x, s') ∧ match x with Ok _ => True | Err e => Is e ErrRecordNotFound = true end;
  Find_answers {Row} `{!IamTable Row} preload p less s : WeakOrder less → ∃ l s', Find (Row := Row) preload p less s = (Ok l, s')
}.

Section Tokens.
Context {DB E : Type} {i_gorm : IamGorm DB} {l_gorm : IamGormLaws DB} {r_gorm : IamReliable DB} {i_enforcer : Enforcer E} {l_enforcer : EnforcerLaws E}.
Context {i_jwt : Jwt} {l_jwt : JwtLaws} {i_bcrypt : Bcrypt} {l_bcrypt : BcryptLaws}.
Abbreviation St := (IAMService DB E).
Abbreviation view s := (tables (repo s)).

Lemma find_only {A} (f : A → bool) l a : a ∈ l → f a = true → (∀ b, b ∈ l → f b = true → b = a) → List.find f l = Some a.
Proof.
  intros Ha Hf Hu. destruct (List.find f l) as [b|] eqn:Hl.
  - apply find_some in Hl as [Hb Hfb]. f_equal. apply Hu; [by apply list_elem_of_In|done].
  - apply (find_none _ _ a Hl) in Ha. congruence.
Qed.
(** The tokens a presented text is compared with. *)
Lemma candidates prefix (s : St) : ∃ l s', on_repo (Repo.GetUserAPITokensByPrefix prefix) s = (Ok l, s') ∧ view s' = view s ∧
  ∀ tok, tok ∈ l ↔ ∃ k, tokens_of (view s) !! k = Some tok ∧ k_TokenPrefix tok = prefix ∧ k_RevokedAt tok = None.
Proof.
  unfold Repo.GetUserAPITokensByPrefix, on_repo.
  edestruct (Find_answers (DB := DB)) as (l & d & Hf); [|rewrite Hf]; [by split|]. exists l, (mkIAM d (authorizer s)).
  split; [done|]. split; [by apply Find_law in Hf as (_ & ? & _)|]. intros tok. rewrite (Find_elems _ _ _ _ _ _ tok Hf).
  unfold Repo.plain, Repo.unrevoked. setoid_rewrite andb_true_iff. setoid_rewrite bool_decide_eq_true. unfold tokens_of. naive_solver.
Qed.
Lemma user_found id u (s : St) : users_of (view s) !! id = Some u → ∃ s', on_repo (Repo.GetUserByID id) s = (Ok (Some u), s').
Proof.
  intros Hu. unfold on_repo, Repo.GetUserByID, Repo.or_nil.
  destruct (First_answers (Row := User) Repo.plain (λ u, bool_decide (u_ID u = id)) (repo s)) as (x & d & Hf & Hx). rewrite Hf.
  pose proof (visible_keyed (Row := User) (repo s) id u Hu) as Hid. simpl in Hid.
  apply First_law in Hf as (_ & _ & Hf). destruct x as [u'|e].
  - destruct Hf as (k & r & Hk & Hp & -> & _). bools. pose proof (visible_keyed (Row := User) (repo s) k r Hk) as Hk'. simpl in Hk'.
    assert (k = id) as -> by congruence. unfold users_of in Hu. simpl in Hk. assert (r = u) as -> by congruence. by eexists.
  - rewrite Hx. specialize (Hf Hx id u Hu). apply bool_decide_eq_false in Hf. done.
Qed.

Lemma created_token raw bytes salt uid name exp (s : St) r s1 :
  CreatePAT raw salt uid name exp s = (Ok r, s1) → raw = Ok bytes → String.length bytes = patRandomBytes →
  pr_Token r = PATPlaintextPrefix +:+ pat_suffix bytes ∧ k_UserID (pr_Model r) = uid ∧ k_ExpiresAt (pr_Model r) = exp ∧
  k_RevokedAt (pr_Model r) = None ∧ k_TokenPrefix (pr_Model r) = pat_prefix (pr_Token r) ∧
  CompareHashAndPassword (k_TokenHash (pr_Model r)) (pr_Token r) = true ∧ tokens_of (view s) !! k_ID (pr_Model r) = None ∧
  tokens_of (view s1) = <[k_ID (pr_Model r) := pr_Model r]> (tokens_of (view s)) ∧ users (view s1) = users (view s).
Proof.
  intros H -> Hlen. unfold CreatePAT in H. cbv zeta in H. destruct (bool_decide _); [done|]. destruct (Nat.ltb _ _); [done|].
  unfold bind at 1 in H. destruct (on_repo _ s) as [[n|] s2] eqn:E2; [|done]. apply on_repo_inv in E2 as [E2 _].
  apply Count_law in E2 as (_ & V2 & _). destruct (N.leb _ _); [done|]. unfold bind at 1 in H. cbn [map_err lift] in H.
  unfold bind at 1 in H. unfold map_err at 1, lift in H. destruct (GenerateFromPassword salt _) as [hash|] eqn:Hh; [|done].
  unfold bind in H. destruct (on_repo _ s2) as [[tok|] s3] eqn:E3; [|done]. injection H as <- <-. apply on_repo_inv in E3 as [E3 _].
  apply Create_law in E3 as [_ (id & Hf & _ & -> & T3)]. cbn [pr_Token pr_Model]. split_and!; try done.
  - by apply (Compare_law salt).
  - unfold tokens_of. rewrite <- V2. exact (fresh_invisible _ _ Hf).
  - unfold tokens_of. rewrite T3, <- V2. simpl. by rewrite visible_insert.
  - by rewrite T3, V2.
Qed.

Lemma stays_CreatePAT raw salt uid name exp : stays_sync (CreatePAT raw salt uid name exp : Op St PATCreateResult).
Proof.
  unfold CreatePAT, Repo.CountUserAPITokens. cbv zeta. destruct (bool_decide _); [apply stays_quiet, quiet_throw|].
  destruct (Nat.ltb _ _); [apply stays_quiet, quiet_throw|]. apply stays_sync_bind; [apply stays_quiet; quiet_tac|]. intros n.
  destruct (N.leb _ _); [apply stays_quiet, quiet_throw|].
  apply stays_sync_bind; [by intros s a s' (y & [= _ <-] & _)%map_err_ok|]. intros bytes.
  apply stays_sync_bind; [by intros s a s' (y & [= _ <-] & _)%map_err_ok|]. intros hash.
  apply stays_sync_bind; [|intros; apply stays_quiet, quiet_ret]. intros s a s' [H Ha]%on_repo_inv.
  apply Create_law in H as [_ (id & _ & _ & _ & Ht)]. apply same_rights_sync; [by rewrite Ht|done].
Qed.

(** A personal access token works for the account it was made for, and
    until it is revoked.  The text CreatePAT shows once (twenty-five random
    bytes in base32) is accepted by GetUserByPAT, as that account and no
    other, as long as it has not expired and unless an older token's hash
    accepts it too; once RevokePAT has succeeded it is refused as invalid. *)
Theorem access_token_lifecycle bytes salt uid name exp now ip (s : St) r s1 user :
  String.length bytes = patRandomBytes → CreatePAT (Ok bytes) salt uid name exp s = (Ok r, s1) →
  (∀ k tok, tokens_of (view s) !! k = Some tok → CompareHashAndPassword (k_TokenHash tok) (pr_Token r) = false) →
  users_of (view s) !! uid = Some user → (∀ t, exp = Some t → After now t = false) →
  (∃ s2, GetUserByPAT now (pr_Token r) ip s1 = (Ok (user, (k_ID (pr_Model r), ip)), s2)) ∧
  ∀ t now' ip' s2, RevokePAT t uid (k_ID (pr_Model r)) s1 = (Ok tt, s2) → fst (GetUserByPAT now' (pr_Token r) ip' s2) = Err ErrPATInvalid.
Proof.
  intros Hlen Hc Hothers Huser Hexp. destruct (created_token _ _ _ _ _ _ _ _ _ Hc eq_refl Hlen) as (Ht & Hu & He & Hr & Hp & Hacc & Hfresh & Hins & Hus).
  assert (TrimSpace (pr_Token r) = pr_Token r) as Htrim by (rewrite Ht; by apply plaintext_trims).
  assert (HasPrefix (pr_Token r) PATPlaintextPrefix = true) as Hpre by (rewrite Ht; apply HasPrefix_app).
  split.
  - unfold GetUserByPAT. cbv zeta. rewrite Htrim, Hpre. cbn [negb].
    destruct (candidates (pat_prefix (pr_Token r)) s1) as (l & s2 & Hq & V2 & Hl). unfold bind at 1. rewrite Hq.
    rewrite (find_only _ l (pr_Model r)).
    + unfold bind at 1. cbn [of_option]. rewrite He. destruct (match exp with Some t => After now t | None => false end) eqn:Hx.
      { destruct exp as [t|]; [|done]. by rewrite (Hexp t) in Hx. }
      unfold bind at 1. destruct (user_found uid user s2) as (s3 & Hq3); [unfold users_of in *; by rewrite V2, Hus|].
      rewrite Hu, Hq3. by eexists.
    + apply Hl. exists (k_ID (pr_Model r)). rewrite Hins. by rewrite lookup_insert_eq.
    + done.
    + intros b (k & Hk & _)%Hl Hb. rewrite Hins in Hk. apply lookup_insert_Some in Hk as [[_ <-]|[_ Hk]]; [done|].
      apply Hothers in Hk. congruence.
  - intros t now' ip' s2 Hrev. unfold GetUserByPAT. cbv zeta. rewrite Htrim, Hpre. cbn [negb].
    destruct (candidates (pat_prefix (pr_Token r)) s2) as (l & s3 & Hq & V3 & Hl). unfold bind at 1. rewrite Hq.
    destruct (List.find _ l) as [tok|] eqn:Hf; [|done]. exfalso. apply find_some in Hf as [Hin Hb].
    apply list_elem_of_In, Hl in Hin as (k & Hk & _ & Hnone). apply on_repo_inv in Hrev as [Hrev _].
    apply Update_law in Hrev as [_ Ht2]; [|by intros []]. unfold tokens_of in Hk. rewrite Ht2 in Hk. simpl in Hk.
    apply visible_row_Some in Hk. rewrite lookup_fmap_Some in Hk. destruct Hk as ([old d] & Hv & Hold). simpl in Hv.
    destruct (negb d && _) eqn:Hcond; [by injection Hv as <-|]. injection Hv as -> ->. cbn [negb andb] in Hcond.
    assert (tokens_of (view s1) !! k = Some tok) as Hold' by (by apply visible_row_Some).
    rewrite Hins in Hold'. apply lookup_insert_Some in Hold' as [[<- <-]|[_ Hk]].
    + unfold Repo.unrevoked in Hcond. rewrite !bool_decide_eq_true_2 in Hcond by done. done.
    + apply Hothers in Hk. congruence.
Qed.

(** *** Session tokens *)
Context (IDKey : string → string → N → N → N → N → string) (Version : N) (secret : string).
Lemma logged_login now id ip (s : St) x s' u :
  logged (on_repo (Repo.UpdateUserLastLoginAndIP now id ip)) s = (x, s') → users_of (view s) !! id = Some u →
  ∃ u', users_of (view s') !! id = Some u' ∧ u_ID u' = u_ID u.
Proof.
  unfold logged. destruct (on_repo _ s) as [y s1] eqn:E1. intros [= _ <-] Hu. apply on_repo_inv in E1 as [E1 _].
  apply Update_law in E1 as [_ Hy]; [|by intros []]. destruct y; cbn [snd]; [|rewrite Hy; by exists u].
  pose proof (visible_keyed (Row := User) (repo s) id u Hu) as Hid. simpl in Hid. unfold users_of in *. rewrite Hy. simpl. apply visible_row_Some in Hu.
  exists (u<| u_LastLogin := Some now |><| u_LoginIP := ip |>). split; [|done].
  apply visible_row_Some. rewrite lookup_fmap, Hu. simpl. by rewrite bool_decide_eq_true_2.
Qed.
Lemma NewNumericDate_le t : (NewNumericDate t ≤ t)%Z.
Proof. unfold NewNumericDate. pose proof (Z.mod_pos_bound t second eq_refl). lia. Qed.

(** A session lasts as long as its token.  Login succeeds only for an
    active account whose stored hash verifies the password; the token it gives
    out is accepted for that account, and by the same secret only, from then
    on until the whole second at which its twenty-four hours are over, and by
    no clock after that. *)
Theorem session_lifecycle now t1 t2 t3 req ip (s : St) resp s1 :
  Login IDKey Version secret now t1 t2 t3 req ip s = (Ok resp, s1) →
  (u_Status (ls_User resp) = UserStatusActive ∧ u_Email (ls_User resp) = lr_Email req ∧
   Password.VerifyPassword IDKey Version (lr_Password req) (u_Password (ls_User resp)) = Ok true ∧
   users_of (view s) !! u_ID (ls_User resp) = Some (ls_User resp)) ∧
  ∀ now', 
    ((t3 ≤ now')%Z → (now' < NewNumericDate (t1 + JWTConfig_ExpirationTime))%Z →
      ∃ u s2, GetUserByToken secret now' (ls_Token resp) s1 = (Ok u, s2) ∧ u_ID u = u_ID (ls_User resp)) ∧
    ((NewNumericDate (t1 + JWTConfig_ExpirationTime) ≤ now')%Z → is_ok (fst (GetUserByToken secret now' (ls_Token resp) s1)) = false).
Proof.
  intros H. unfold Login in H. unfold bind at 1 in H. destruct (on_repo _ s) as [[[user|]|] s2] eqn:E2; [|done|done].
  assert (view s2 = view s) as V2 by (apply on_repo_inv in E2 as [E2 _]; by apply (reads_or_nil _ (reads_First _ _)) in E2 as [? _]).
  apply on_repo_inv in E2 as [E2 _]. apply First_found in E2 as [Hv Hm]. bools. cbn [of_option bind] in H. unfold bind at 1 in H. cbn [of_option] in H.
  destruct (bool_decide (u_Status user = UserStatusActive)) eqn:Hst; [|done]. apply bool_decide_eq_true in Hst. cbn [negb] in H.
  unfold bind at 1 in H. unfold lift at 1 in H. destruct (Password.VerifyPassword _ _ _ _) as [[]|] eqn:Hpw; [|done|done]. cbn [negb] in H.
  unfold bind at 1 in H. destruct (logged _ s2) as [x3 s3] eqn:E3.
  assert (users_of (view s2) !! u_ID user = Some user) as Hu2 by (unfold users_of; rewrite V2; exact Hv).
  destruct (logged_login _ _ _ _ _ _ _ E3 Hu2) as (user3 & Hu3 & Hid3). unfold logged in E3. injection E3 as <- _.
  unfold bind, lift, GenerateToken in H. destruct (bool_decide (secret = "")) eqn:Hsec; [done|].
  destruct (SignedString _ _) as [token|] eqn:Hsg; [|done]. injection H as <- <-. cbn [ls_User ls_Token].
  split; [split_and!; [done|done|done|exact Hv]|]. apply Signed_law in Hsg. intros now'. unfold GetUserByToken, ValidateToken. rewrite Hsec. split.
  - intros Hnb Hexp. pose proof (NewNumericDate_le t3). unfold bind at 1, lift.
    rewrite (Parse_answers _ _ now' _ Hsg); [|by apply Z.ltb_lt|apply Z.ltb_ge; cbn [c_NotBefore]; lia]. cbn [c_UserID].
    destruct (user_found (u_ID user) user3 s3 Hu3) as (s4 & Hq). unfold bind. rewrite Hq. by eexists _, _.
  - intros Hexp. unfold bind, lift. destruct (ParseWithClaims secret token now') as [c|] eqn:Hp; [|done].
    apply Parse_law in Hp as (Hv' & Hb & _). rewrite <- (verified_unique _ _ _ _ Hsg Hv') in Hb. apply Z.ltb_lt in Hb. cbn [c_ExpiresAt] in Hb. lia.
Qed.
End Tokens.

(** ** A running installation *)
#[export] Instance iam_reliable : IamReliable IamDB.
Proof.
  split.
  - intros Row HT preload p s. simpl. unfold idb_First. destruct (least _); by eexists _, _.
  - intros Row HT preload p less s Hw. simpl. unfold idb_Find. rewrite decide_True by apply (sort_Slice_sorted _). by eexists _, _.
Qed.
(** A JWT library that knows one set of claims, and a bcrypt that marks. *)
#[global] Instance claims_eq : EqDecision Claims.
Proof. solve_decision. Defined.
Definition dora_claims : Claims := mkClaims 1 "dora@example.com" JWTConfig_ExpirationTime 0%Z 0%Z "liaison" "dora@example.com".
#[export] Instance one_token : Jwt := {|
  SignedString key c := if decide (c = dora_claims) then Ok key else Err (ENew "unknown claims");
  ParseWithClaims key token now :=
    if bool_decide (token = key) && Before now JWTConfig_ExpirationTime && negb (Before now 0%Z) then Ok dora_claims else Err (ENew "token is invalid")
|}.
#[export] Instance one_token_laws : JwtLaws.
Proof.
  refine {| verified key token c := token = key ∧ c = dora_claims |}.
  - by intros key token c1 c2 [_ ->] [_ ->].
  - intros key c token. simpl. destruct (decide _); [|done]. by intros [= <-].
  - intros key token now c. simpl. destruct (bool_decide (token = key)) eqn:Ht; [|done]. apply bool_decide_eq_true in Ht.
    destruct (Before now JWTConfig_ExpirationTime) eqn:He; [|done]. destruct (Before now 0%Z) eqn:Hn; [done|]. intros [= <-]. by split_and!.
  - intros key token now c [-> ->] He Hn. simpl in *. rewrite bool_decide_eq_true_2, He, Hn by done. done.
Defined.
#[export] Instance marking : Bcrypt := {|
  GenerateFromPassword salt p := Ok ("h" +:+ p);
  CompareHashAndPassword h p := bool_decide (h = "h" +:+ p)
|}.
#[export] Instance marking_laws : BcryptLaws.
Proof. split. intros salt p h [= <-]. simpl. by rewrite bool_decide_eq_true_2. Qed.

Abbreviation Service := (IAMService IamDB RuleSet).
Abbreviation view s := (tables (repo s)).
Definition random_bytes : string := "0123456789abcdefghijklmno".
Definition minted : Op Service PATCreateResult := CreatePAT (Ok random_bytes) "" 2 "laptop" None.
Definition minted_state : Service := snd (minted reloaded).
Definition minted_token : PATCreateResult :=
  match fst (minted reloaded) with Ok r => r | Err _ => mkPATCreateResult (mkUserAPIToken 0 0 "" "" "" "" None "" None None) "" end.
Lemma minted_well : minted reloaded = (Ok minted_token, minted_state).
Proof.
  assert (is_ok (fst (minted reloaded)) = true) as H by (by vm_compute). unfold minted_token, minted_state.
  revert H. generalize (minted reloaded). intros [[r|e] s']; [done|]. discriminate.
Qed.
Lemma access_token_lifecycle_witness :
  ∃ s2, GetUserByPAT 5%Z (pr_Token minted_token) "10.0.0.9" minted_state = (Ok (bob, (1%N, "10.0.0.9")), s2).
Proof.
  assert (users_of (view reloaded) !! 2%N = Some bob) as Hu by (by vm_compute).
  assert (tokens_of (view reloaded) = ∅) as Hn by (by vm_compute).
  assert (k_ID (pr_Model minted_token) = 1%N) as Hid by (by vm_compute).
  destruct (access_token_lifecycle random_bytes "" 2 "laptop" None 5%Z "10.0.0.9" reloaded minted_token minted_state bob eq_refl minted_well) as [Hok _].
  - intros k tok Hk. exfalso. rewrite Hn in Hk. by rewrite lookup_empty in Hk.
  - exact Hu.
  - by intros t [=].
  - rewrite Hid in Hok. exact Hok.
Defined.

Definition dora : User := mkUserRow 0 "dora" "dora@example.com"
  (match Password.HashPassword first_byte_key 19 (Ok "0123456789abcdef") "secret" with Ok h => h | Err _ => "" end) UserStatusActive None "".
Definition office : Service := snd (on_repo (Repo.CreateUser dora) installed).
Abbreviation dora_logs_in := (Login (DB := IamDB) (E := RuleSet) first_byte_key 19 "key" 0%Z 0%Z 0%Z 0%Z (mkLoginRequest "dora@example.com" "secret") "10.0.0.1").
Definition logged_in : Service := snd (dora_logs_in office).
Lemma session_lifecycle_witness :
  (∃ u s2, GetUserByToken "key" (23 * hour)%Z "key" logged_in = (Ok u, s2) ∧ u_ID u = 1%N) ∧
  is_ok (fst (GetUserByToken "key" (24 * hour)%Z "key" logged_in)) = false.
Proof.
  assert (fst (dora_logs_in office) = Ok (mkLoginResponse "key" (dora<| u_ID := 1%N |>))) as H by (by vm_compute).
  destruct (session_lifecycle first_byte_key 19 "key" 0%Z 0%Z 0%Z 0%Z _ _ office _ _ (ran _ _ _ H)) as [_ Hl]. split.
  - apply (Hl (23 * hour)%Z); by vm_compute.
  - apply (Hl (24 * hour)%Z). by vm_compute.
Defined.

(** [bob] asks for the connectors with a personal access token. *)
Definition bearer (token : string) (method path : string) : Request :=
  mkRequest method path (λ h, if bool_decide (h = "Authorization") then "Bearer " +:+ token else "") "10.0.0.9:4711".
Lemma minted_in_sync : in_sync minted_state.
Proof. exact (stays_CreatePAT _ _ _ _ _ _ _ _ minted_well reloaded_in_sync). Qed.

(** ** Where the code falls short *)
(** A disabled account cannot log in, but its session goes on. *)
Theorem disabled_account_keeps_its_session :
  let disabled := snd (on_repo (Repo.UpdateUser (dora<| u_ID := 1%N |><| u_Status := UserStatusLocked |>)) logged_in) in
  is_ok (fst (dora_logs_in disabled)) = false ∧ is_ok (fst (GetUserByToken "key" hour "key" disabled)) = true.
Proof. by vm_compute. Qed.
(** A guarded path asked for with a method the map does not list is not
    checked for permission at all. *)
Theorem unlisted_methods_unchecked (r : Request) :
  r_Method r ∉ ["GET"; "POST"; "PUT"; "PATCH"; "DELETE"] → resourcePermissionForRequest r = None.
Proof.
  intros Hm. assert (∀ path, action_of path (r_Method r) = None) as Ha.
  { intros path. unfold action_of, terminal_action, crud_action.
    repeat match goal with |- context [bool_decide (r_Method r = ?m)] => rewrite (bool_decide_eq_false_2 (r_Method r = m)) by (intros E; apply Hm; rewrite E; set_solver) end.
    destruct (is_web path); [done|]. destruct (HasPrefix path _); [|done]. by destruct (Contains path _ || _ || _). }
  unfold resourcePermissionForRequest. rewrite Ha. by destruct (resource_of_path _).
Qed.
