(* ===== verification/Firewall.v ===== *)
(** * entry/firewall: the source-address allowlist

    [firewall.go].  Each method holds the manager's lock, so it is one step on
    the map of rules.  A nil [net.IP] is [None]; a [net.Addr] is what its
    [String] method gives.  The networks of a rule are compared byte by byte
    under their masks; [allowlist_exact] says what that means for addresses
    as numbers. *)

From S2P Require Import Prelude ToolTypes NetAddr.
Import Net.

Definition Manager := gmap Z (list IPNet).

Module Firewall.
Definition NewManager : Manager := ∅.
Fixpoint parse_all (cidrs : list string) : Result (list IPNet) :=
  match cidrs with
  | [] => Ok []
  | c :: cidrs' =>
      match ParseCIDR c with
      | Err e => Err (EWrap ("invalid CIDR " +:+ quote c +:+ ": ") e "")
      | Ok n => match parse_all cidrs' with Ok l => Ok (n :: l) | Err e => Err e end
      end
  end.
Definition Allow (proxyID : Z) (cidrs : list string) (m : Manager) : Result unit * Manager :=
  match parse_all cidrs with
  | Err e => (Err e, m)
  | Ok parsed => (Ok tt, <[proxyID := parsed]> m)
  end.
Definition Revoke (proxyID : Z) (m : Manager) : Manager := delete proxyID m.
Definition Check (proxyID : Z) (clientIP : option (list N)) (m : Manager) : bool :=
  match clientIP with
  | None => true
  | Some ip =>
      match m !! proxyID with
      | None => true
      | Some rules => existsb (λ r, Contains r ip) rules
      end
  end.
Definition CheckAddr (proxyID : Z) (addr : option string) (m : Manager) : bool :=
  match addr with
  | None => true
  | Some a =>
      match SplitHostPort a with
      | Err _ => true
      | Ok (host, _) => Check proxyID (ParseIP host) m
      end
  end.
End Firewall.

(** ** Addresses as numbers *)
Fixpoint be_value (l : list N) : N :=
  match l with [] => 0 | b :: l' => b * 2 ^ (8 * N.of_nat (length l')) + be_value l' end%N.
Definition is_bytes (l : list N) : Prop := Forall (λ b, (b < 256)%N) l.

Lemma be_value_bound l : is_bytes l → (be_value l < 2 ^ (8 * N.of_nat (length l)))%N.
Proof.
  induction 1 as [|b l Hb _ IH]; [done|]. cbn [be_value length].
  replace (8 * N.of_nat (S (length l)))%N with (8 + 8 * N.of_nat (length l))%N by lia. rewrite N.pow_add_r.
  change (2 ^ 8)%N with 256%N. nia.
Qed.
(** One byte under one byte of mask. *)
Lemma mask_byte_land a k : (a < 256)%N → k ≤ 8 → N.land a (256 - 2 ^ (8 - N.of_nat k)) = (a / 2 ^ (8 - N.of_nat k) * 2 ^ (8 - N.of_nat k))%N.
Proof.
  intros Ha Hk.
  assert (forallb (λ a, forallb (λ k, N.eqb (N.land (N.of_nat a) (256 - 2 ^ (8 - N.of_nat k)))
    (N.of_nat a / 2 ^ (8 - N.of_nat k) * 2 ^ (8 - N.of_nat k))) (seq 0 9)) (seq 0 256) = true) as H by (by vm_compute).
  rewrite forallb_forall in H. specialize (H (N.to_nat a)). rewrite forallb_forall in H.
  apply N.eqb_eq. rewrite <- (N2Nat.id a) at 1 2. apply H; apply in_seq; lia.
Qed.
Lemma CIDRMask_cons ones n : CIDRMask ones (S n) = mask_byte ones 0 :: CIDRMask (ones - 8) n.
Proof.
  unfold CIDRMask. cbn [seq map]. f_equal. rewrite <- seq_shift, map_map. apply map_ext. intros i. unfold mask_byte.
  replace (ones - 8 * S i) with (ones - 8 - 8 * i) by lia. done.
Qed.
Lemma masked_byte ones a b : (a < 256)%N → (b < 256)%N →
  N.land a (mask_byte ones 0) = N.land b (mask_byte ones 0) ↔ (a / 2 ^ (8 - N.of_nat (Nat.min 8 ones)) = b / 2 ^ (8 - N.of_nat (Nat.min 8 ones)))%N.
Proof.
  intros Ha Hb. unfold mask_byte. replace (ones - 8 * 0) with ones by lia. rewrite !mask_byte_land by lia.
  assert (0 < 2 ^ (8 - N.of_nat (Nat.min 8 ones)))%N by (apply N.neq_0_lt_0, N.pow_nonzero; done). nia.
Qed.
Lemma digits_unique (D a b p q : N) : (p < D → q < D → a * D + p = b * D + q ↔ a = b ∧ p = q)%N.
Proof.
  intros Hp Hq. split; [|by intros [-> ->]]. intros H. assert (a = b) as ->; [|split; [done|lia]].
  pose proof (N.div_unique (a * D + p) D a p Hp ltac:(lia)). pose proof (N.div_unique (b * D + q) D b q Hq ltac:(lia)). congruence.
Qed.
Lemma no_mask x n : and_bytes x (CIDRMask 0 n) = replicate (Nat.min (length x) n) 0%N.
Proof.
  revert n. induction x as [|a x IH]; intros n; [done|]. destruct n as [|n]; [done|]. rewrite CIDRMask_cons. unfold and_bytes.
  cbn [zip_with length Nat.min replicate]. f_equal; [|apply IH]. unfold mask_byte. cbn. by rewrite N.land_0_r.
Qed.
(** Masked bytes agree exactly if the first [ones] bits do. *)
Lemma masked_prefix ones x y : is_bytes x → is_bytes y → length x = length y → ones ≤ 8 * length x →
  and_bytes x (CIDRMask ones (length x)) = and_bytes y (CIDRMask ones (length x)) ↔
  (be_value x / 2 ^ (8 * N.of_nat (length x) - N.of_nat ones) = be_value y / 2 ^ (8 * N.of_nat (length x) - N.of_nat ones))%N.
Proof.
  intros Hx. revert ones y. induction Hx as [|a x Ha Hx IH]; intros ones y Hy Hlen Hones.
  { destruct y; [|done]. done. }
  destruct y as [|b y]; [done|]. apply Forall_cons in Hy as [Hb Hy]. injection Hlen as Hlen.
  cbn [length]. rewrite CIDRMask_cons. unfold and_bytes. cbn [zip_with be_value]. fold (and_bytes x (CIDRMask (ones - 8) (length x))).
  fold (and_bytes y (CIDRMask (ones - 8) (length x))). rewrite <- Hlen.
  pose proof (be_value_bound x Hx) as Bx. pose proof (be_value_bound y Hy) as By. rewrite <- Hlen in By. set (w := (8 * N.of_nat (length x))%N) in *.
  assert (∀ (u v : N) (p q : list N), u :: p = v :: q ↔ u = v ∧ p = q) as Hcons by naive_solver. rewrite Hcons, masked_byte by done.
  destruct (Nat.le_gt_cases 8 ones) as [H8|H8].
  - specialize (IH (ones - 8) y Hy Hlen). cbn [length] in Hones. specialize (IH ltac:(lia)).
    replace (8 * N.of_nat (S (length x)) - N.of_nat ones)%N with (w - N.of_nat (ones - 8))%N by (unfold w; lia).
    set (e := (w - N.of_nat (ones - 8))%N) in *. rewrite IH. replace (Nat.min 8 ones) with 8 by lia.
    change (8 - N.of_nat 8)%N with 0%N. rewrite !N.div_1_r.
    assert (w = N.of_nat (ones - 8) + e)%N as Hw by (unfold e, w; lia). rewrite Hw, !N.pow_add_r, !N.mul_assoc.
    assert (2 ^ e ≠ 0)%N by (by apply N.pow_nonzero). rewrite !N.div_add_l by done. rewrite Hw, N.pow_add_r in Bx, By.
    rewrite digits_unique; [done|apply N.Div0.div_lt_upper_bound; lia..].
  - replace (ones - 8) with 0 by lia. rewrite !no_mask, <- Hlen. replace (Nat.min 8 ones) with ones by lia.
    replace (8 * N.of_nat (S (length x)) - N.of_nat ones)%N with (w + (8 - N.of_nat ones))%N by (unfold w; lia).
    rewrite N.pow_add_r, <- !N.Div0.div_div. assert (2 ^ w ≠ 0)%N by (by apply N.pow_nonzero).
    rewrite !N.div_add_l, !(N.div_small (be_value _)), !N.add_0_r by done. naive_solver.
Qed.

(** ** What is parsed is an address *)
Lemma digit_bound c d : digit c = Some d → (d < 10)%N.
Proof. unfold digit. destruct (_ && _) eqn:H; [|done]. apply andb_true_iff in H as [?%N.leb_le ?%N.leb_le]. intros [= <-]. lia. Qed.
Lemma hex_digit_bound c d : hex_digit c = Some d → (d < 16)%N.
Proof.
  unfold hex_digit. repeat (destruct (_ && _) eqn:H; [apply andb_true_iff in H as [?%N.leb_le ?%N.leb_le]; intros [= <-]; lia|clear H]). done.
Qed.
Lemma hex_group_bound s acc off acc' off' rest :
  hex_group s acc off = (acc', off', rest) → (acc < 16 ^ N.of_nat off)%N → (acc' < 16 ^ N.of_nat off')%N.
Proof.
  revert acc off. induction s as [|c s IH]; intros acc off; cbn [hex_group]; [by intros [= <- <- _]|].
  destruct (hex_digit c) as [d|] eqn:Hd; [|by intros [= <- <- _]]. apply hex_digit_bound in Hd. intros H Ha. eapply IH; [exact H|].
  rewrite Nat2N.inj_succ, N.pow_succ_r'. lia.
Qed.
Lemma octet_bound s n : octet s = Some n → (n < 256)%N.
Proof.
  assert (∀ s n, (n ← decimal s 0; if (n <=? 255)%N then Some n else None) = Some n → (n < 256)%N) as H.
  { intros s' n' H. destruct (decimal s' 0) as [k|]; [|done]. cbn in H. destruct (k <=? 255)%N eqn:E; [|done]. apply N.leb_le in E. injection H as <-. lia. }
  unfold octet. destruct s as [|c [|d s]]; [done|intros Ho; apply (H (String c ""))|intros Ho; apply (H (String c (String d s)))].
  - by destruct c as [[] [] [] [] [] [] [] []].
  - revert Ho. by destruct c as [[] [] [] [] [] [] [] []].
Qed.
Lemma v4_fields s l : parseIPv4Fields s = Some l → is_bytes l ∧ length l = 4.
Proof.
  unfold parseIPv4Fields. destruct (Split s ".") as [|a [|b [|c [|d []]]]]; try done.
  destruct (octet a) eqn:Ha; [|done]. destruct (octet b) eqn:Hb; [|done]. destruct (octet c) eqn:Hc; [|done]. destruct (octet d) eqn:Hd; [|done].
  intros [= <-]. split; [|done]. repeat constructor; by eapply octet_bound.
Qed.
Lemma group_bytes acc : (acc < 65536)%N → is_bytes [acc / 256; acc `mod` 256]%N.
Proof.
  intros H. repeat constructor; [apply N.Div0.div_lt_upper_bound; lia|by apply N.mod_lt].
Qed.
Lemma groups_bytes n s ip e rest ip' e' : groups n s ip e = Some (rest, ip', e') → is_bytes ip → length ip + 2 * n ≤ 16 →
  is_bytes ip' ∧ length ip' ≤ 16.
Proof.
  revert s ip e. induction n as [|n IH]; intros s ip e H Hb Hl; cbn [groups] in H; [injection H as _ <- _; split; [done|lia]|].
  destruct (hex_group s 0 0) as [[acc off] r] eqn:Hg. destruct (Nat.eqb off 0 || Nat.ltb 4 off) eqn:Ho; [done|].
  apply orb_false_iff in Ho as [_ Ho%Nat.ltb_ge]. apply hex_group_bound in Hg; [|done].
  assert (acc < 65536)%N as Hacc.
  { eapply N.lt_le_trans; [exact Hg|]. change 65536%N with (16 ^ 4)%N. apply N.pow_le_mono_r; lia. }
  assert (is_bytes (ip ++ [acc / 256; acc `mod` 256]%N)) as Hb' by (apply Forall_app; split; [done|by apply group_bytes]).
  assert (length (ip ++ [acc / 256; acc `mod` 256]%N) = length ip + 2) as Hl' by (by rewrite length_app).
  clear Hg. revert H. generalize (ip ++ [acc / 256; acc `mod` 256]%N) as ip1, Hb', Hl'. clear Hb' Hl'. intros ip1 Hb1 Hl1 H.
  assert (∀ s' e1, groups n s' ip1 e1 = Some (rest, ip', e') → is_bytes ip' ∧ length ip' ≤ 16) as Hrec by (intros s' e1 H1; eapply IH; [exact H1|done|lia]).
  destruct r as [|[[] [] [] [] [] [] [] []] r]; try discriminate H.
  - injection H as _ <- _. split; [done|lia].
  - destruct ((_ && _) || _) eqn:Hv; [done|]. apply orb_false_iff in Hv as [_ Hv%Nat.ltb_ge].
    destruct (parseIPv4Fields s) as [v4|] eqn:H4; [|done]. apply v4_fields in H4 as [H41 H42]. injection H as _ <- _.
    split; [by apply Forall_app|rewrite length_app; lia].
  - destruct r as [|[[] [] [] [] [] [] [] []] r]; try discriminate H; try (by eapply Hrec).
    destruct (negb _); [done|]. destruct (bool_decide _); [injection H as _ <- _; split; [done|lia]|by eapply Hrec].
Qed.
Lemma expand_bytes ip e l : expand ip e = Some l → is_bytes ip → length ip ≤ 16 → is_bytes l ∧ length l = 16.
Proof.
  unfold expand. destruct (Nat.ltb_spec (length ip) 16) as [Hl|Hl]; destruct e as [k|]; try done; intros [= <-] Hb Hle; [|split; [done|lia]].
  split.
  - apply Forall_app. split; [by apply Forall_take|]. apply Forall_app. split; [by apply Forall_replicate|by apply Forall_drop].
  - rewrite !length_app, length_replicate, length_take, length_drop. lia.
Qed.
Lemma ParseAddr_bytes s ip : ParseAddr s = Some ip → is_bytes ip ∧ (length ip = 4 ∨ length ip = 16).
Proof.
  unfold ParseAddr. intros H.
  assert (∀ s, parseIPv6 s = Some ip → is_bytes ip ∧ length ip = 16) as H6.
  { intros s' H'. assert (∀ s e, ('(rest, l, e) ← groups 8 s [] e; if bool_decide (rest = "") then expand l e else None) = Some ip → is_bytes ip ∧ length ip = 16) as Hg.
    { intros s1 e Hg. destruct (groups 8 s1 [] e) as [[[rest l] e']|] eqn:E1; [|done]. cbn in Hg. destruct (bool_decide _); [|done].
      apply groups_bytes in E1 as [H1 H2]; [by eapply expand_bytes|constructor|simpl; lia]. }
    assert (is_bytes (replicate 16 0%N) ∧ length (replicate 16 0%N) = 16) as Hz by (split; [by apply Forall_replicate|done]).
    unfold parseIPv6 in H'. destruct s' as [|c [|d s']]; [by eapply Hg|by destruct c as [[] [] [] [] [] [] [] []]; eapply Hg|].
    destruct (decide (c = ":"%char)) as [->|Hc]; [destruct (decide (d = ":"%char)) as [->|Hd]|].
    - destruct s' as [|x s']; [injection H' as <-; done|by eapply Hg].
    - destruct d as [[] [] [] [] [] [] [] []]; try exact (Hg _ _ H'); done.
    - destruct c as [[] [] [] [] [] [] [] []]; try exact (Hg _ _ H'); done. }
  destruct (family s) as [c|]; [|done]. destruct c as [[] [] [] [] [] [] [] []]; try done.
  - apply v4_fields in H as [? ?]. split; [done|by left].
  - destruct (has_char _ _); [done|]. apply H6 in H as [? ?]. split; [done|by right].
Qed.

(** ** What a rule admits

    The first [n] bits of two addresses of [w] bits agree. *)
Definition same_prefix (w n : N) (x y : list N) : Prop := (be_value x / 2 ^ (w - n) = be_value y / 2 ^ (w - n))%N.
(** [addr/n] admits [ip]: an IPv4 client is compared with IPv4 networks, and
    with IPv6 networks inside ::ffff:0:0/96; an IPv6 client with the others. *)
Definition admits (addr : list N) (n : N) (ip : list N) : Prop :=
  match To4 ip with
  | Some x => (length addr = 4 ∧ same_prefix 32 n addr x) ∨
              ((96 ≤ n)%N ∧ ∃ v4, addr = v4InV6Prefix ++ v4 ∧ length v4 = 4 ∧ same_prefix 32 (n - 96) v4 x)
  | None => length addr = 16 ∧ length ip = 16 ∧ ¬ ((96 ≤ n)%N ∧ take 12 addr = v4InV6Prefix) ∧ same_prefix 128 n addr ip
  end.

Lemma and_idem x m : and_bytes (and_bytes x m) m = and_bytes x m.
Proof.
  revert m. induction x as [|a x IH]; intros [|b m]; [done..|]. unfold and_bytes. cbn [zip_with]. f_equal; [|apply IH].
  by rewrite <- N.land_assoc, N.land_diag.
Qed.
Lemma length_mask ones n : length (CIDRMask ones n) = n.
Proof. unfold CIDRMask. by rewrite length_map, length_seq. Qed.
Lemma length_and x m : length (and_bytes x m) = Nat.min (length x) (length m).
Proof. apply length_zip_with. Qed.
Lemma To4_length ip x : To4 ip = Some x → length x = 4.
Proof.
  unfold To4. destruct (Nat.eqb_spec (length ip) 4); [congruence|]. destruct (Nat.eqb_spec (length ip) 16) as [H|]; [|done].
  destruct (bool_decide _); [|done]. intros [= <-]. rewrite length_drop. lia.
Qed.
(** A masked sixteen-byte address is an IPv4 one only if the mask covers the
    prefix and the address was one. *)
Lemma mask_full ones i : 255%N = mask_byte ones i → 8 * (i + 1) ≤ ones.
Proof.
  unfold mask_byte. intros H. destruct (Nat.le_gt_cases (8 * (i + 1)) ones) as [|Hlt]; [done|]. exfalso.
  assert (2 ^ 1 ≤ 2 ^ (8 - N.of_nat (Nat.min 8 (ones - 8 * i))))%N by (apply N.pow_le_mono_r; lia).
  change (2 ^ 1)%N with 2%N in *. assert (2 ^ (8 - N.of_nat (Nat.min 8 (ones - 8 * i))) ≤ 2 ^ 8)%N by (apply N.pow_le_mono_r; lia).
  change (2 ^ 8)%N with 256%N in *. lia.
Qed.

Lemma CIDRMask_app ones a b : CIDRMask ones (a + b) = CIDRMask ones a ++ CIDRMask (ones - 8 * a) b.
Proof.
  revert ones. induction a as [|a IH]; intros ones; [by rewrite Nat.sub_0_r|]. cbn [Nat.add]. rewrite !CIDRMask_cons, IH. cbn [app].
  by replace (ones - 8 - 8 * a) with (ones - 8 * S a) by lia.
Qed.
Lemma and_app x1 x2 m1 m2 : length x1 = length m1 → and_bytes (x1 ++ x2) (m1 ++ m2) = and_bytes x1 m1 ++ and_bytes x2 m2.
Proof. apply zip_with_app. Qed.
Lemma full_mask ones n x : is_bytes x → length x = n → 8 * n ≤ ones → and_bytes x (CIDRMask ones n) = x.
Proof.
  intros Hx. revert ones n. induction Hx as [|a x Ha Hx IH]; intros ones n <- Hn; [done|]. cbn [length] in *. rewrite CIDRMask_cons.
  unfold and_bytes. cbn [zip_with]. f_equal; [|apply IH; [done|lia]]. unfold mask_byte. replace (Nat.min 8 (ones - 8 * 0)) with 8 by lia.
  rewrite mask_byte_land by (done || lia). change (8 - N.of_nat 8)%N with 0%N. rewrite N.div_1_r. lia.
Qed.
Lemma masked_mapped ones p : length p = 12 → is_bytes p → and_bytes p (CIDRMask ones 12) = v4InV6Prefix ↔ 96 ≤ ones ∧ p = v4InV6Prefix.
Proof.
  intros Hl Hp. split; [|intros [H ->]; by apply full_mask]. intros H. assert (96 ≤ ones) as Hn; [|split; [done|by rewrite full_mask in H]].
  do 12 (destruct p as [|? p]; [done|]). destruct p; [|done]. cbn in H. injection H as _ _ _ _ _ _ _ _ _ _ _ H.
  change 96 with (8 * (11 + 1)). apply mask_full. assert (mask_byte ones 11 ≤ 255)%N.
  { unfold mask_byte. assert (0 < 2 ^ (8 - N.of_nat (Nat.min 8 (ones - 8 * 11))))%N by (apply N.neq_0_lt_0, N.pow_nonzero; done). lia. }
  pose proof (N.land_le_r n10 (mask_byte ones 11)) as Hle. fold (mask_byte ones 11) in H. unfold mask_byte in *. cbn in *. lia.
Qed.
Lemma same_prefix_masked w n x y : w = (8 * N.of_nat (length x))%N → is_bytes x → is_bytes y → length x = length y → (n ≤ w)%N →
  and_bytes (and_bytes x (CIDRMask (N.to_nat n) (length x))) (CIDRMask (N.to_nat n) (length x)) = and_bytes y (CIDRMask (N.to_nat n) (length x))
  ↔ same_prefix w n x y.
Proof. intros -> Hx Hy Hl Hn. rewrite and_idem, masked_prefix by (done || lia). unfold same_prefix. by rewrite N2Nat.id. Qed.
Lemma To4_none_length ip : To4 ip = None → length ip ≠ 4.
Proof. unfold To4. by destruct (Nat.eqb_spec (length ip) 4). Qed.
Lemma To4_bytes ip x : To4 ip = Some x → is_bytes ip → is_bytes x.
Proof. unfold To4. destruct (Nat.eqb _ _); [by intros [= <-]|]. destruct (_ && _); [|done]. intros [= <-]. by apply Forall_drop. Qed.
Lemma To4_same a : length a = 4 → To4 a = Some a.
Proof. intros H. unfold To4. by rewrite H. Qed.

Lemma contains_v4 a n ip : length a = 4 → is_bytes a → is_bytes ip → (n ≤ 32)%N →
  Contains (mkIPNet (and_bytes a (CIDRMask (N.to_nat n) 4)) (CIDRMask (N.to_nat n) 4)) ip = true ↔ admits a n ip.
Proof.
  intros Hl Ha Hip Hn. unfold Contains, networkNumberAndMask, admits. cbn [n_IP n_Mask].
  rewrite (To4_same (and_bytes a _)) by (rewrite length_and, length_mask; lia). rewrite length_and, length_mask, Hl. cbn [Nat.min Nat.eqb].
  destruct (To4 ip) as [x|] eqn:H4.
  - pose proof (To4_length _ _ H4) as Hx. rewrite andb_true_iff, !bool_decide_eq_true, length_and, length_mask, Hl, Hx.
    pose proof (same_prefix_masked 32 n a x) as Hs. rewrite Hl in Hs. rewrite Hs; [|done|done|by eapply To4_bytes|done|done].
    split; [intros [_ H]; left; by split|]. intros [[_ H]|(_ & v4 & -> & Hv & _)]; [by split|]. rewrite length_app in Hl. simpl in Hl. lia.
  - pose proof (To4_none_length _ H4). rewrite bool_decide_eq_false_2; [|rewrite length_and, length_mask, Hl; simpl; done]. naive_solver lia.
Qed.
Lemma To4_app P Q : length P = 12 → length Q = 4 → To4 (P ++ Q) = if bool_decide (P = v4InV6Prefix) then Some Q else None.
Proof.
  intros HP HQ. unfold To4. rewrite length_app, HP, HQ. cbn [Nat.add Nat.eqb andb]. rewrite <- HP. by rewrite take_app_length, drop_app_length.
Qed.
Lemma contains_v6 p q n ip : length p = 12 → length q = 4 → is_bytes p → is_bytes q → is_bytes ip → (n ≤ 128)%N →
  Contains (mkIPNet (and_bytes (p ++ q) (CIDRMask (N.to_nat n) 16)) (CIDRMask (N.to_nat n) 16)) ip = true ↔ admits (p ++ q) n ip.
Proof.
  intros Hp Hq Bp Bq Hip Hn. assert (length (p ++ q) = 16) as Hpq by (rewrite length_app; lia).
  assert (CIDRMask (N.to_nat n) 16 = CIDRMask (N.to_nat n) 12 ++ CIDRMask (N.to_nat n - 96) 4) as Hmask by apply (CIDRMask_app _ 12 4).
  assert (and_bytes (p ++ q) (CIDRMask (N.to_nat n) 16) = and_bytes p (CIDRMask (N.to_nat n) 12) ++ and_bytes q (CIDRMask (N.to_nat n - 96) 4)) as Hm.
  { rewrite Hmask. apply and_app. by rewrite length_mask. }
  assert (take 12 (p ++ q) = p) as Htk by (rewrite <- Hp; apply take_app_length).
  assert (To4 (and_bytes (p ++ q) (CIDRMask (N.to_nat n) 16)) =
    if bool_decide (96 ≤ n ∧ p = v4InV6Prefix)%N then Some (and_bytes q (CIDRMask (N.to_nat n - 96) 4)) else None) as HT.
  { rewrite Hm, To4_app by (rewrite length_and, length_mask; lia). erewrite bool_decide_ext; [done|].
    rewrite masked_mapped by done. split; intros [? ?]; (split; [lia|done]). }
  assert (length (and_bytes (p ++ q) (CIDRMask (N.to_nat n) 16)) = 16) as Hl16 by (rewrite length_and, length_mask; lia).
  unfold Contains, networkNumberAndMask, admits. cbn [n_IP n_Mask]. rewrite HT, length_mask.
  destruct (bool_decide (96 ≤ n ∧ p = v4InV6Prefix)%N) eqn:Hb; [apply bool_decide_eq_true in Hb as [H96 ->]|apply bool_decide_eq_false in Hb].
  - rewrite length_and, length_mask, Hq. cbn [Nat.min Nat.eqb andb].
    assert (drop 12 (CIDRMask (N.to_nat n) 16) = CIDRMask (N.to_nat (n - 96)) 4) as ->.
    { rewrite Hmask. rewrite drop_app_length' by (by rewrite length_mask). f_equal. lia. }
    replace (N.to_nat n - 96) with (N.to_nat (n - 96)) by lia. destruct (To4 ip) as [x|] eqn:H4.
    + pose proof (To4_length _ _ H4) as Hx. rewrite andb_true_iff, !bool_decide_eq_true, length_and, length_mask, Hq, Hx.
      pose proof (same_prefix_masked 32 (n - 96) q x) as Hs. rewrite Hq in Hs. rewrite Hs; [|done|done|by eapply To4_bytes|done|lia].
      split; [intros [_ H]; right; split; [done|by exists q]|]. intros [[H _]|(_ & v4 & Hv & _ & H)]; [lia|]. apply app_inv_head in Hv as <-. by split.
    + pose proof (To4_none_length _ H4). rewrite bool_decide_eq_false_2; [|rewrite length_and, length_mask, Hq; done]. split; [done|].
      intros (_ & _ & Hno & _). exfalso. by apply Hno.
  - rewrite Hl16. cbn [Nat.eqb]. destruct (To4 ip) as [x|] eqn:H4.
    + rewrite (To4_length _ _ H4), Hl16. cbn. split; [done|]. intros [[H _]|(H & v4 & Hv & Hlv & _)]; [lia|]. exfalso. apply Hb.
      split; [done|]. assert (take 12 (p ++ q) = take 12 (v4InV6Prefix ++ v4)) as Ht by (by rewrite Hv). by rewrite Htk in Ht.
    + rewrite Hl16, andb_true_iff, !bool_decide_eq_true, Htk, Hpq. split.
      * intros [Hip16 H]. split_and!; [done|done|done|]. pose proof (same_prefix_masked 128 n (p ++ q) ip) as Hs. rewrite Hpq in Hs.
        apply Hs; [done|by apply Forall_app|done|done|done|done].
      * intros (_ & Hip16 & _ & H). split; [done|]. pose proof (same_prefix_masked 128 n (p ++ q) ip) as Hs. rewrite Hpq in Hs.
        apply Hs; [done|by apply Forall_app|done|done|done|done].
Qed.
Lemma ParseCIDR_admits c net ip : ParseCIDR c = Ok net → is_bytes ip → Contains net ip = true ↔
  ∃ addr mask a n, cut_at "/" c = Some (addr, mask) ∧ ParseAddr addr = Some a ∧ decimal mask 0 = Some n ∧ admits a n ip.
Proof.
  unfold ParseCIDR. destruct (cut_at "/" c) as [[addr mask]|] eqn:Hc; [|done]. destruct (ParseAddr addr) as [a|] eqn:Ha; [|done].
  destruct (bool_decide (mask = "")); [done|]. destruct (decimal mask 0) as [n|] eqn:Hd; [|done].
  destruct (_ || _) eqn:Hb; [done|]. apply orb_false_iff in Hb as [_ Hb%N.ltb_ge]. intros [= <-] Hip.
  destruct (ParseAddr_bytes _ _ Ha) as [Hab Hl].
  assert (Contains (mkIPNet (and_bytes a (CIDRMask (N.to_nat n) (length a))) (CIDRMask (N.to_nat n) (length a))) ip = true ↔ admits a n ip) as Hadm.
  { destruct Hl as [Hl|Hl]; rewrite Hl in *; [by apply contains_v4|]. rewrite <- (take_drop 12 a).
    apply contains_v6; [rewrite length_take; lia|rewrite length_drop; lia|by apply Forall_take|by apply Forall_drop|done|done]. }
  rewrite Hadm. naive_solver.
Qed.

(** ** The claims *)
(** The network written [c] contains the address. *)
Definition in_cidr (c : string) (ip : list N) : Prop := ∃ addr mask a n,
  cut_at "/" c = Some (addr, mask) ∧ ParseAddr addr = Some a ∧ decimal mask 0 = Some n ∧ admits a n ip.
Lemma parse_all_spec cidrs l ip : Firewall.parse_all cidrs = Ok l → is_bytes ip →
  existsb (λ r, Contains r ip) l = true ↔ ∃ c, c ∈ cidrs ∧ in_cidr c ip.
Proof.
  revert l. induction cidrs as [|c cidrs IH]; intros l H Hip; cbn [Firewall.parse_all] in H.
  - injection H as <-. split; [done|]. by intros (c & ?%elem_of_nil & _).
  - destruct (ParseCIDR c) as [net|] eqn:Hc; [|done]. destruct (Firewall.parse_all cidrs) as [l'|]; [|done]. injection H as <-.
    cbn [existsb]. rewrite orb_true_iff, (IH l') by done. rewrite (ParseCIDR_admits c net ip) by done. fold (in_cidr c ip).
    setoid_rewrite elem_of_cons. naive_solver.
Qed.

(** C26. The allowlist is exact.  Allow with a malformed network changes
    nothing; otherwise the proxy then admits precisely the addresses whose
    first bits are those of one of the networks given (IPv4 clients against
    IPv4 networks and those inside ::ffff:0:0/96, IPv6 clients against the
    others; none with an empty list), every other proxy answers as before, and
    after Revoke the proxy admits everyone. *)
Theorem allowlist_exact proxyID cidrs (m : Manager) x m' : Firewall.Allow proxyID cidrs m = (x, m') →
  (is_ok x = false → m' = m) ∧
  (is_ok x = true → ∀ ip, is_bytes ip → Firewall.Check proxyID (Some ip) m' = true ↔ ∃ c, c ∈ cidrs ∧ in_cidr c ip) ∧
  (∀ other client, other ≠ proxyID → Firewall.Check other client m' = Firewall.Check other client m) ∧
  ∀ client, Firewall.Check proxyID client (Firewall.Revoke proxyID m') = true.
Proof.
  unfold Firewall.Allow, Firewall.Check, Firewall.Revoke, Manager in *. destruct (Firewall.parse_all cidrs) as [l|] eqn:Hp; intros [= <- <-].
  - split_and!; [done| | |].
    + intros _ ip Hip. rewrite lookup_insert_eq. by apply parse_all_spec.
    + intros other client Hne. by rewrite lookup_insert_ne.
    + intros [ip|]; [|done]. by rewrite lookup_delete_eq.
  - split_and!; [done|done|done|]. intros [ip|]; [|done]. by rewrite lookup_delete_eq.
Qed.
Definition office_networks : list string := ["10.1.0.0/16"; "2001:db8::/32"].
Definition office_rules : Manager := snd (Firewall.Allow 7 office_networks Firewall.NewManager).
Lemma allowlist_exact_witness : (∃ c, c ∈ office_networks ∧ in_cidr c [10; 1; 200; 3]%N) ∧ ¬ ∃ c, c ∈ office_networks ∧ in_cidr c [10; 2; 0; 1]%N.
Proof.
  destruct (allowlist_exact 7 office_networks Firewall.NewManager (Ok tt) office_rules eq_refl) as (_ & H & _). specialize (H eq_refl).
  split; [apply H|intros Hc; apply H in Hc; [by vm_compute in Hc|]]; [by repeat constructor|by vm_compute|by repeat constructor].
Defined.

(** A client on the local link is admitted everywhere: its address is printed
    with the zone, which ParseIP does not accept, and Check takes an address
    that could not be parsed for an allowed one. *)
Theorem link_local_clients_pass (m : Manager) proxyID : Firewall.CheckAddr proxyID (Some "[fe80::1%eth0]:4711") m = true.
Proof. reflexivity. Qed.
