(* ===== verification/EntryPlanes.v ===== *)
(** * entry: the listeners of the three data planes

    [entry/entry.go] routes an access to the TCP gatekeeper
    ([transport/gatekeeper.go]), the HTTP server ([http/server.go]) or the SSH
    gateway ([sshgateway/gateway.go]); each keeps its own tables of listeners.
    The three work on one machine, so the state is theirs together with the
    set of the ports this process listens on ([w_open]).  A listener is the
    port it is bound to.  What the operating system, the certificate files and
    the reverse-proxy library answer during one call is its [Env]; the only
    thing assumed of it is that a listener is bound to a port that is free, and
    to the one asked for ([bound]).  Every method holds the lock of its table
    while it reads and writes it, so it is one step; [DeleteProxy] of the HTTP
    server waits for its connections after it has released the lock, which
    does not touch the tables.  Traffic is in [Traffic]. *)

From S2P Require Import Prelude ToolTypes NetAddr Firewall.

(** ** proto.Proxy *)
Record Proxy := mkProxy {
  px_ID : Z; px_Name : string; px_ProxyPort : Z; px_EdgeID : N; px_ApplicationID : N;
  px_Dst : string; px_ApplicationType : string; px_AccessProtocol : string; px_UseHTTPS : bool
}.
#[export] Instance Proxy_eta : Eta Proxy := {| eta := λ r, mkProxy (px_ID r) (px_Name r) (px_ProxyPort r) (px_EdgeID r)
  (px_ApplicationID r) (px_Dst r) (px_ApplicationType r) (px_AccessProtocol r) (px_UseHTTPS r) |}.

Definition ErrPortConflict : error := ESentinel "ErrPortConflict" "port conflict".

(** ** The tables *)
Record Gatekeeper := mkGatekeeper {
  gk_proxies : gmap Z Z;        (* id -> the port of its listener *)
  gk_proxiesIdxPort : gmap Z Z; (* port -> id *)
  gk_proxyAppMap : gmap Z N;
  gk_firewall : bool            (* a firewall was injected *)
}.
#[export] Instance Gatekeeper_eta : Eta Gatekeeper := {| eta := λ r, mkGatekeeper (gk_proxies r) (gk_proxiesIdxPort r)
  (gk_proxyAppMap r) (gk_firewall r) |}.
Record Server := mkServer {
  hs_proxies : gmap Z Z;
  hs_proxiesIdxPort : gmap Z Z;
  hs_firewall : bool
}.
#[export] Instance Server_eta : Eta Server := {| eta := λ r, mkServer (hs_proxies r) (hs_proxiesIdxPort r) (hs_firewall r) |}.
Record Gateway := mkGateway {
  sg_proxies : gmap Z Z;        (* id -> listener *)
  sg_ports : gmap Z Z;          (* id -> port *)
  sg_firewall : bool
}.
#[export] Instance Gateway_eta : Eta Gateway := {| eta := λ r, mkGateway (sg_proxies r) (sg_ports r) (sg_firewall r) |}.

(** The ports the process listens on, the firewall manager the planes share
    by reference, and the three planes. *)
Record Planes := mkPlanes { w_open : gset Z; w_rules : Manager; w_tcp : Gatekeeper; w_http : Server; w_ssh : Gateway }.
#[export] Instance Planes_eta : Eta Planes := {| eta := λ r, mkPlanes (w_open r) (w_rules r) (w_tcp r) (w_http r) (w_ssh r) |}.

(** What the environment answers during one call. *)
Record Env := mkEnv {
  listen : Result Z;            (* net.Listen, tls.Listen: the port bound *)
  load_cert : Result unit;      (* tls.LoadX509KeyPair *)
  new_rproxy : Result unit;     (* rproxy.NewRProxy *)
  shutdown_wait : Result unit;  (* the context of the call, while it waits for the HTTP connections *)
  close_listener : Result unit  (* the first error of closing listeners; they are closed either way *)
}.
(** A call returns an error or nil, or panics. *)
Inductive Outcome := Returned (r : Result unit) | Panicked.

(** net.Listen: the port was free, and is the one asked for unless that is 0. *)
Definition bound (open : gset Z) (requested : Z) (answer : Result Z) : Prop :=
  match answer with
  | Ok port => port ∉ open ∧ (0 < port < 65536)%Z ∧ (requested ≠ 0%Z → port = requested)
  | Err _ => True
  end.

(** ** transport/gatekeeper.go *)
Module TCP.
Definition NewGatekeeper : Gatekeeper := mkGatekeeper ∅ ∅ ∅ false.
Definition SetFirewall (m : Gatekeeper) : Gatekeeper := m <| gk_firewall := true |>.
Definition CreateProxy (env : Env) (p : Proxy) (w : Planes) : Outcome * Proxy * Planes :=
  let m := w_tcp w in
  match gk_proxies m !! px_ID p with
  | Some _ => (Returned (Ok tt), p, w)
  | None =>
      let requestedPort := px_ProxyPort p in
      let conflict :=
        if Z.eqb requestedPort 0 then false
        else match gk_proxiesIdxPort m !! requestedPort with Some id => negb (Z.eqb id (px_ID p)) | None => false end in
      if conflict then (Returned (Err ErrPortConflict), p, w) else
      match listen env with
      | Err e => (Returned (Err e), p, w)
      | Ok actualPort =>
          let p := if Z.eqb requestedPort 0 then p <| px_ProxyPort := actualPort |> else p in
          let w := w <| w_open := {[ actualPort ]} ∪ w_open w |> in
          match new_rproxy env with
          | Err e => (Returned (Err e), p, w)
          | Ok _ =>
              let m := m <| gk_proxies := <[ px_ID p := actualPort ]> (gk_proxies m) |>
                         <| gk_proxiesIdxPort := <[ actualPort := px_ID p ]> (gk_proxiesIdxPort m) |> in
              let m := if N.ltb 0 (px_ApplicationID p)
                       then m <| gk_proxyAppMap := <[ px_ID p := px_ApplicationID p ]> (gk_proxyAppMap m) |> else m in
              (Returned (Ok tt), p, w <| w_tcp := m |>)
          end
      end
  end.
Definition DeleteProxy (id : Z) (w : Planes) : Result unit * Planes :=
  let m := w_tcp w in
  match gk_proxies m !! id with
  | None => (Ok tt, w)
  | Some port =>
      (Ok tt, w <| w_open := w_open w ∖ {[ port ]} |>
                <| w_tcp := m <| gk_proxies := delete id (gk_proxies m) |>
                              <| gk_proxiesIdxPort := delete port (gk_proxiesIdxPort m) |>
                              <| gk_proxyAppMap := delete id (gk_proxyAppMap m) |> |>)
  end.
Definition Close (w : Planes) : Planes :=
  w <| w_open := w_open w ∖ map_img (gk_proxies (w_tcp w)) |> <| w_tcp := (w_tcp w) <| gk_proxies := ∅ |> |>.

(** The hook run on every accepted connection: what the dialer gets, or the
    connection is dropped. *)
Record proxyContext := mkProxyContext { pc_edgeID : N; pc_dst : string; pc_applicationID : N; pc_proxyID : N }.
Definition postAccept (p : Proxy) (clientAddr : option string) (w : Planes) : Result proxyContext :=
  if gk_firewall (w_tcp w) && negb (Firewall.CheckAddr (px_ID p) clientAddr (w_rules w))
  then Err (ENew ("source " +:+ default "" clientAddr +:+ " not allowed"))
  else Ok (mkProxyContext (px_EdgeID p) (px_Dst p) (px_ApplicationID p) (Z.to_N (px_ID p `mod` 2 ^ 64))).
End TCP.

(** ** http/server.go *)
Module HTTP.
Definition NewServer : Server := mkServer ∅ ∅ false.
Definition SetFirewall (s : Server) : Server := s <| hs_firewall := true |>.
(** The certificate branch declares an [err] of its own, so an error of
    [tls.Listen] is not seen by the test after the branch and the nil listener
    is used. *)
Definition CreateProxy (env : Env) (p : Proxy) (certFile keyFile : string) (w : Planes) : Outcome * Proxy * Planes :=
  let s := w_http w in
  match hs_proxies s !! px_ID p with
  | Some _ => (Returned (Ok tt), p, w)
  | None =>
      let requestedPort := px_ProxyPort p in
      let conflict :=
        if negb (Z.eqb requestedPort 0) then
          match hs_proxiesIdxPort s !! requestedPort with Some id => if negb (Z.eqb id (px_ID p)) then Some id else None | None => None end
        else None in
      match conflict with
      | Some id => (Returned (Err (ENew ("port " +:+ pretty requestedPort +:+ " conflict with proxy " +:+ pretty id))), p, w)
      | None =>
          let secure := negb (bool_decide (certFile = "")) && negb (bool_decide (keyFile = "")) in
          match (if secure then load_cert env else Ok tt) with
          | Err e => (Returned (Err (EWrap "failed to load certificate: " e "")), p, w)
          | Ok _ =>
              match listen env with
              | Err e =>
                  if secure then (Panicked, p, w)
                  else (Returned (Err (EWrap ("failed to listen on port " +:+ pretty requestedPort +:+ ": ") e "")), p, w)
              | Ok actualPort =>
                  let p := if Z.eqb requestedPort 0 then p <| px_ProxyPort := actualPort |> else p in
                  (Returned (Ok tt), p,
                    w <| w_open := {[ actualPort ]} ∪ w_open w |>
                      <| w_http := s <| hs_proxies := <[ px_ID p := actualPort ]> (hs_proxies s) |>
                                     <| hs_proxiesIdxPort := <[ actualPort := px_ID p ]> (hs_proxiesIdxPort s) |> |>)
              end
          end
      end
  end.
Definition DeleteProxy (env : Env) (id : Z) (w : Planes) : Result unit * Planes :=
  let s := w_http w in
  match hs_proxies s !! id with
  | None => (Ok tt, w)
  | Some port =>
      (match shutdown_wait env with
       | Err e => Err (EWrap ("wait for HTTP proxy " +:+ pretty id +:+ " shutdown: ") e "")
       | Ok _ => Ok tt
       end,
       w <| w_open := w_open w ∖ {[ port ]} |>
         <| w_http := s <| hs_proxies := delete id (hs_proxies s) |>
                        <| hs_proxiesIdxPort := delete port (hs_proxiesIdxPort s) |> |>)
  end.
Definition Close (w : Planes) : Planes :=
  w <| w_open := w_open w ∖ map_img (hs_proxies (w_http w)) |>
    <| w_http := (w_http w) <| hs_proxies := ∅ |> <| hs_proxiesIdxPort := ∅ |> |>.
(** serve: whether an accepted connection is handled. *)
Definition accepts (id : Z) (remote : option string) (w : Planes) : bool :=
  negb (hs_firewall (w_http w) && negb (Firewall.CheckAddr id remote (w_rules w))).
End HTTP.

(** ** sshgateway/gateway.go *)
Module SSH.
Definition New : Gateway := mkGateway ∅ ∅ false.
Definition SetFirewall (g : Gateway) : Gateway := g <| sg_firewall := true |>.
Definition CreateProxy (env : Env) (p : Proxy) (w : Planes) : Outcome * Proxy * Planes :=
  let g := w_ssh w in
  if Z.leb (px_ID p) 0 then (Returned (Err (ENew "invalid SSH access definition")), p, w) else
  match listen env with
  | Err e => (Returned (Err (EWrap ("listen for SSH access " +:+ pretty (px_ID p) +:+ ": ") e "")), p, w)
  | Ok actualPort =>
      let opened := {[ actualPort ]} ∪ w_open w in
      let opened := match sg_proxies g !! px_ID p with Some old => opened ∖ {[ old ]} | None => opened end in
      (Returned (Ok tt), p <| px_ProxyPort := actualPort |>,
        w <| w_open := opened |>
          <| w_ssh := g <| sg_proxies := <[ px_ID p := actualPort ]> (sg_proxies g) |>
                        <| sg_ports := <[ px_ID p := actualPort ]> (sg_ports g) |> |>)
  end.
Definition DeleteProxy (env : Env) (id : Z) (w : Planes) : Result unit * Planes :=
  let g := w_ssh w in
  let g' := g <| sg_proxies := delete id (sg_proxies g) |> <| sg_ports := delete id (sg_ports g) |> in
  match sg_proxies g !! id with
  | Some port => (close_listener env, w <| w_open := w_open w ∖ {[ port ]} |> <| w_ssh := g' |>)
  | None => (Ok tt, w <| w_ssh := g' |>)
  end.
Definition Close (env : Env) (w : Planes) : Result unit * Planes :=
  let g := w_ssh w in
  (if bool_decide (sg_proxies g = ∅) then Ok tt else close_listener env,
   w <| w_open := w_open w ∖ map_img (sg_proxies g) |> <| w_ssh := g <| sg_proxies := ∅ |> <| sg_ports := ∅ |> |>).
(** serve: whether an accepted connection is handled. *)
Definition accepts (id : Z) (remote : option string) (w : Planes) : bool :=
  negb (sg_firewall (w_ssh w) && negb (Firewall.CheckAddr id remote (w_rules w))).
End SSH.

(** ** entry.go *)
Inductive proxyRuntime := proxyRuntimeTCP | proxyRuntimeHTTP | proxyRuntimeSSH | proxyRuntimeDB.
#[export] Instance proxyRuntime_eq_dec : EqDecision proxyRuntime.
Proof. solve_decision. Defined.
Definition runtimeForProxy (p : Proxy) : proxyRuntime :=
  if bool_decide (px_AccessProtocol p = "mysql") || bool_decide (px_AccessProtocol p = "postgresql") then proxyRuntimeDB
  else if bool_decide (px_AccessProtocol p = "ssh") then proxyRuntimeSSH
  else if bool_decide (px_AccessProtocol p = "http") then proxyRuntimeHTTP
  else proxyRuntimeTCP.

Module Unified.
(** [certs] is Manager.Listen.TLS.Certs of the configuration. *)
Definition CreateProxy (certs : list (string * string)) (env : Env) (p : Proxy) (w : Planes) : Outcome * Proxy * Planes :=
  match runtimeForProxy p with
  | proxyRuntimeDB => (Returned (Err (ENew "native database access is not enabled")), p, w)
  | proxyRuntimeSSH => SSH.CreateProxy env p w
  | proxyRuntimeHTTP =>
      let '(certFile, keyFile) := if px_UseHTTPS p then match certs with c :: _ => c | [] => ("", "") end else ("", "") in
      HTTP.CreateProxy env p certFile keyFile w
  | proxyRuntimeTCP => TCP.CreateProxy env p w
  end.
Definition DeleteProxy (env : Env) (id : Z) (w : Planes) : Result unit * Planes :=
  let '(httpErr, w) := HTTP.DeleteProxy env id w in
  let '(tcpErr, w) := TCP.DeleteProxy id w in
  let '(sshErr, w) := SSH.DeleteProxy env id w in
  (match httpErr, tcpErr with Err e, _ => Err e | Ok _, Err e => Err e | Ok _, Ok _ => sshErr end, w).
(** Entry.Close *)
Definition Close (env : Env) (w : Planes) : Planes := snd (SSH.Close env w).
(** NewEntry: the planes it makes, the firewall shared by the three. *)
Definition NewEntry : Planes :=
  mkPlanes ∅ Firewall.NewManager (TCP.SetFirewall TCP.NewGatekeeper) (HTTP.SetFirewall HTTP.NewServer) (SSH.SetFirewall SSH.New).
(** The firewall manager the control plane is given. *)
Definition Allow (id : Z) (cidrs : list string) (w : Planes) : Result unit * Planes :=
  let '(r, rules) := Firewall.Allow id cidrs (w_rules w) in (r, w <| w_rules := rules |>).
Definition Revoke (id : Z) (w : Planes) : Planes := w <| w_rules := Firewall.Revoke id (w_rules w) |>.
End Unified.

(** ** The listeners of the process *)
Inductive plane := PTcp | PHttp | PSsh.
#[export] Instance plane_eq_dec : EqDecision plane.
Proof. solve_decision. Defined.
Definition listeners (pl : plane) (w : Planes) : gmap Z Z :=
  match pl with PTcp => gk_proxies (w_tcp w) | PHttp => hs_proxies (w_http w) | PSsh => sg_proxies (w_ssh w) end.

(** One call, of any plane, with an environment that binds ports as net.Listen
    does. *)
Inductive step : Planes → Planes → Prop :=
| step_create certs env p w : bound (w_open w) (px_ProxyPort p) (listen env) → step w (snd (Unified.CreateProxy certs env p w))
| step_delete env id w : step w (snd (Unified.DeleteProxy env id w))
| step_close_tcp w : step w (TCP.Close w)
| step_close_http w : step w (HTTP.Close w)
| step_close_ssh env w : step w (snd (SSH.Close env w))
| step_allow id cidrs w : step w (snd (Unified.Allow id cidrs w))
| step_revoke id w : step w (Unified.Revoke id w).
Definition reachable : Planes → Prop := rtc step Unified.NewEntry.

(** Each listener in the tables is open, and no port is in the tables twice. *)
Definition owned (w : Planes) : Prop :=
  (∀ pl id port, listeners pl w !! id = Some port → port ∈ w_open w) ∧
  ∀ pl id pl' id' port, listeners pl w !! id = Some port → listeners pl' w !! id' = Some port → pl = pl' ∧ id = id'.
Record sound (w : Planes) : Prop := {
  sound_owned : owned w;
  tcp_indexed id port : gk_proxies (w_tcp w) !! id = Some port → gk_proxiesIdxPort (w_tcp w) !! port = Some id;
  http_indexed id port : hs_proxies (w_http w) !! id = Some port ↔ hs_proxiesIdxPort (w_http w) !! port = Some id;
  ssh_ports : sg_ports (w_ssh w) = sg_proxies (w_ssh w);
  guarded : gk_firewall (w_tcp w) = true ∧ hs_firewall (w_http w) = true ∧ sg_firewall (w_ssh w) = true
}.

(** *** Binding a free port to an access, and giving listeners up *)
Definition binds (pl : plane) (id port : Z) (w w' : Planes) : Prop :=
  (∀ pl' id', listeners pl' w' !! id' = if bool_decide (pl' = pl ∧ id' = id) then Some port else listeners pl' w !! id') ∧
  port ∈ w_open w' ∧ ∀ q, q ∈ w_open w → q ∈ w_open w' ∨ listeners pl w !! id = Some q.
Definition gives_up (w w' : Planes) : Prop :=
  ∀ pl id port, listeners pl w' !! id = Some port → listeners pl w !! id = Some port ∧ port ∈ w_open w'.
Lemma binds_owned pl id port w w' : owned w → port ∉ w_open w → binds pl id port w w' → owned w'.
Proof.
  intros [Ho Hu] Hp (Hl & Hpo & Hkeep). split.
  - intros pl' id' q. rewrite Hl. case_bool_decide as Hd; [by intros [= <-]|]. intros Hq.
    destruct (Hkeep q (Ho _ _ _ Hq)) as [?|Hold]; [done|]. destruct (Hu _ _ _ _ _ Hq Hold). by destruct Hd.
  - intros p1 i1 p2 i2 q. rewrite !Hl. case_bool_decide as H1; case_bool_decide as H2; intros Hq1 Hq2.
    + destruct H1 as [-> ->], H2 as [-> ->]. done.
    + injection Hq1 as <-. destruct (Hp (Ho _ _ _ Hq2)).
    + injection Hq2 as <-. destruct (Hp (Ho _ _ _ Hq1)).
    + exact (Hu _ _ _ _ _ Hq1 Hq2).
Qed.
Lemma gives_up_owned w w' : owned w → gives_up w w' → owned w'.
Proof. intros [Ho Hu] Hg. split; [by intros pl id q []%Hg|]. intros p1 i1 p2 i2 q [H1 _]%Hg [H2 _]%Hg. exact (Hu _ _ _ _ _ H1 H2). Qed.
(** A port given up is no other access's. *)
Lemma other_port w pl id pl' id' port q : owned w → listeners pl w !! id = Some port → listeners pl' w !! id' = Some q →
  ¬ (pl' = pl ∧ id' = id) → q ∈ w_open w ∖ {[ port ]}.
Proof.
  intros [Ho Hu] Hp Hq Hne. apply elem_of_difference. split; [by apply (Ho pl' id')|]. rewrite elem_of_singleton. intros ->.
  destruct Hne. destruct (Hu _ _ _ _ _ Hq Hp). done.
Qed.
(** *** What creating an access does

    With an environment that binds ports as it should ([bound]): nil is
    returned with the access on a port of its own (the one asked for, or one
    that was free), or because the access is there already (not for SSH, which
    opens a new listener and closes the old one); an error leaves everything as
    it was, unless NewRProxy refused the listener, which then stays open and in
    no table; the HTTP server panics when TLS cannot listen. *)
Definition created (pl : plane) (env : Env) (p : Proxy) (w : Planes) (out : Outcome * Proxy * Planes) : Prop :=
  let '(o, p', w') := out in
  match o with
  | Returned (Ok _) =>
      (pl ≠ PSsh ∧ is_Some (listeners pl w !! px_ID p) ∧ p' = p ∧ w' = w) ∨
      (listen env = Ok (px_ProxyPort p') ∧ px_ProxyPort p' ∉ w_open w ∧ (px_ProxyPort p ≠ 0%Z → px_ProxyPort p' = px_ProxyPort p) ∧
       binds pl (px_ID p) (px_ProxyPort p') w w')
  | Returned (Err _) => w' = w ∨ (pl = PTcp ∧ is_ok (new_rproxy env) = false ∧ ∃ port, w' = w <| w_open := {[ port ]} ∪ w_open w |>)
  | Panicked => pl = PHttp ∧ px_UseHTTPS p = true ∧ is_ok (listen env) = false ∧ w' = w
  end.
(** The port the definition ends up with is the one bound. *)
Lemma port_updated p w e port : bound (w_open w) (px_ProxyPort p) e → e = Ok port →
  px_ProxyPort (if Z.eqb (px_ProxyPort p) 0 then p <| px_ProxyPort := port |> else p) = port ∧
  px_ID (if Z.eqb (px_ProxyPort p) 0 then p <| px_ProxyPort := port |> else p) = px_ID p ∧ (px_ProxyPort p ≠ 0%Z → port = px_ProxyPort p) ∧ port ∉ w_open w.
Proof. intros Hb ->. destruct Hb as (Hn & _ & Hr). destruct (Z.eqb_spec (px_ProxyPort p) 0) as [H0|H0]; cbn; split_and!; try done; by rewrite Hr. Qed.
Lemma binds_new pl id port w w' : listeners pl w' = <[ id := port ]> (listeners pl w) →
  (∀ pl', pl' ≠ pl → listeners pl' w' = listeners pl' w) → port ∈ w_open w' →
  (∀ q, q ∈ w_open w → q ∈ w_open w' ∨ listeners pl w !! id = Some q) → binds pl id port w w'.
Proof.
  intros Hl Hrest Hp Hk. split_and!; [|done|done]. intros pl' id'. case_bool_decide as Hd.
  - destruct Hd as [-> ->]. by rewrite Hl, lookup_insert_eq.
  - destruct (decide (pl' = pl)) as [->|Hne]; [|by rewrite Hrest]. rewrite Hl, lookup_insert_ne; [done|]. intros ->. by destruct Hd.
Qed.
(** The index of a table after a free port is bound to an access it has not. *)
Lemma indexed_insert (m idx : gmap Z Z) id port : (∀ i q, m !! i = Some q → idx !! q = Some i) → (∀ i, m !! i ≠ Some port) →
  ∀ i q, (<[ id := port ]> m) !! i = Some q → (<[ port := id ]> idx) !! q = Some i.
Proof.
  intros Hm Hn i q. destruct (decide (i = id)) as [->|Hi]; [rewrite lookup_insert_eq; intros [= <-]; by rewrite lookup_insert_eq|].
  rewrite lookup_insert_ne by done. intros Hq. rewrite lookup_insert_ne; [by apply Hm|]. intros ->. by apply Hn in Hq.
Qed.
Lemma indexed_insert_iff (m idx : gmap Z Z) id port : (∀ i q, m !! i = Some q ↔ idx !! q = Some i) → (∀ i, m !! i ≠ Some port) → m !! id = None →
  ∀ i q, (<[ id := port ]> m) !! i = Some q ↔ (<[ port := id ]> idx) !! q = Some i.
Proof.
  intros Hm Hn Hid i q. split; [apply indexed_insert; [intros i' q'; apply Hm|done]|].
  destruct (decide (q = port)) as [->|Hq]; [rewrite lookup_insert_eq; intros [= <-]; by rewrite lookup_insert_eq|].
  rewrite lookup_insert_ne by done. intros Hi. rewrite lookup_insert_ne; [by apply Hm|]. intros ->. apply Hm in Hi. congruence.
Qed.
Lemma indexed_delete (m idx : gmap Z Z) id port : (∀ i q, m !! i = Some q → idx !! q = Some i) → m !! id = Some port →
  ∀ i q, delete id m !! i = Some q → delete port idx !! q = Some i.
Proof.
  intros Hm Hid i q [Hne Hq]%lookup_delete_Some. apply lookup_delete_Some. split; [|by apply Hm].
  intros ->. apply Hm in Hid, Hq. congruence.
Qed.
Lemma indexed_delete_iff (m idx : gmap Z Z) id port : (∀ i q, m !! i = Some q ↔ idx !! q = Some i) → m !! id = Some port →
  ∀ i q, delete id m !! i = Some q ↔ delete port idx !! q = Some i.
Proof.
  intros Hm Hid i q. split; [apply indexed_delete; [intros i' q'; apply Hm|done]|].
  intros [Hne Hq]%lookup_delete_Some. apply lookup_delete_Some. split; [|by apply Hm]. intros ->. apply Hm in Hq. congruence.
Qed.
Lemma free_port w pl id port : owned w → port ∉ w_open w → listeners pl w !! id ≠ Some port.
Proof. intros [Ho _] Hn H. by apply Hn, (Ho pl id). Qed.

(** ** Each plane *)
Lemma tcp_create env p w : sound w → bound (w_open w) (px_ProxyPort p) (listen env) →
  created PTcp env p w (TCP.CreateProxy env p w) ∧ sound (snd (TCP.CreateProxy env p w)).
Proof.
  intros Hs Hb. unfold TCP.CreateProxy. destruct (gk_proxies (w_tcp w) !! px_ID p) as [q|] eqn:Hold; [split; [left; by split_and!|done]|].
  destruct (if Z.eqb (px_ProxyPort p) 0 then _ else _); [split; [by left|done]|].
  destruct (listen env) as [port|e] eqn:Hl; [|split; [by left|done]].
  destruct (port_updated p w _ port Hb eq_refl) as (Hpp & Hid & Hreq & Hfree).
  set (p' := if Z.eqb _ 0 then _ else p) in *. clearbody p'. destruct (new_rproxy env) eqn:Hr.
  - cbn [created snd]. rewrite Hid, Hpp. match goal with |- _ ∧ sound ?x => assert (binds PTcp (px_ID p) port w x) as Hbind end.
    { apply binds_new; [by destruct (N.ltb _ _)|by intros []|set_solver|set_solver]. }
    split; [right; by split_and!|]. destruct Hs. split; [by eapply binds_owned| | | |].
    all: destruct (N.ltb _ _); cbn; auto; apply indexed_insert; auto; intros i; by apply (free_port w PTcp).
  - cbn [created snd]. split; [right; split_and!; [done|by rewrite Hr|by exists port]|]. destruct Hs as [[Ho Hu] ? ? ? ?]. split; [|done..].
    split; [|exact Hu]. intros pl i q Hq. apply elem_of_union_r. exact (Ho pl i q Hq).
Qed.
(** What HTTP.CreateProxy is called with by the router. *)
Definition cert_of (certs : list (string * string)) (p : Proxy) : string * string :=
  if px_UseHTTPS p then match certs with c :: _ => c | [] => ("", "") end else ("", "").
Lemma http_create certs env p w : sound w → bound (w_open w) (px_ProxyPort p) (listen env) →
  let out := HTTP.CreateProxy env p (fst (cert_of certs p)) (snd (cert_of certs p)) w in created PHttp env p w out ∧ sound (snd out).
Proof.
  intros Hs Hb. unfold HTTP.CreateProxy. destruct (hs_proxies (w_http w) !! px_ID p) as [q|] eqn:Hold; [split; [left; by split_and!|done]|].
  destruct (if negb (Z.eqb (px_ProxyPort p) 0) then _ else None); [split; [by left|done]|].
  set (secure := negb _ && negb _). destruct (if secure then _ else _); [|split; [by left|done]].
  destruct (listen env) as [port|e] eqn:Hl.
  - destruct (port_updated p w _ port Hb eq_refl) as (Hpp & Hid & Hreq & Hfree).
    set (p' := if Z.eqb _ 0 then _ else p) in *. clearbody p'. cbn [created snd]. rewrite Hid, Hpp.
    match goal with |- _ ∧ sound ?x => assert (binds PHttp (px_ID p) port w x) as Hbind end.
    { apply binds_new; [done|by intros []|set_solver|set_solver]. }
    split; [right; by split_and!|]. destruct Hs. split; [by eapply binds_owned|done| |done|done].
    cbn. apply indexed_insert_iff; [done| |done]. intros i. by apply (free_port w PHttp).
  - destruct secure eqn:Hsec; [|split; [by left|done]]. split; [|done]. cbn [created]. rewrite Hl. split_and!; [done| |done|done].
    unfold secure, cert_of in Hsec. by destruct (px_UseHTTPS p).
Qed.
Lemma ssh_create env p w : sound w → bound (w_open w) (px_ProxyPort p) (listen env) →
  created PSsh env p w (SSH.CreateProxy env p w) ∧ sound (snd (SSH.CreateProxy env p w)).
Proof.
  intros Hs Hb. unfold SSH.CreateProxy. destruct (Z.leb (px_ID p) 0); [split; [by left|done]|].
  destruct (listen env) as [port|e] eqn:Hl; [|split; [by left|done]]. destruct Hb as (Hfree & _ & Hreq). cbn [created snd].
  match goal with |- _ ∧ sound ?x => assert (binds PSsh (px_ID p) port w x) as Hbind end.
  { pose proof (free_port w PSsh (px_ID p) port (sound_owned w Hs) Hfree) as Hnp. apply binds_new; [done|by intros []| |].
    all: cbn in Hnp |- *; destruct (sg_proxies (w_ssh w) !! px_ID p) as [old|] eqn:Hold; cbn; [|set_solver].
    - apply elem_of_difference. split; [set_solver|]. rewrite elem_of_singleton. intros ->. by apply Hnp.
    - intros q Hq. destruct (decide (q = old)) as [->|]; [by right|left; set_solver]. }
  split; [right; by split_and!|]. destruct Hs as [? ? ? Hports ?]. split; [by eapply binds_owned|done|done| |done]. cbn. by rewrite Hports.
Qed.

(** *** Deleting an access of one plane *)
Definition released (pl : plane) (id : Z) (w w' : Planes) : Prop :=
  (∀ pl' id', listeners pl' w' !! id' = if bool_decide (pl' = pl ∧ id' = id) then None else listeners pl' w !! id') ∧
  w_open w' = (match listeners pl w !! id with Some port => w_open w ∖ {[ port ]} | None => w_open w end).
Lemma released_new pl id w w' : listeners pl w' = delete id (listeners pl w) → (∀ pl', pl' ≠ pl → listeners pl' w' = listeners pl' w) →
  w_open w' = (match listeners pl w !! id with Some port => w_open w ∖ {[ port ]} | None => w_open w end) → released pl id w w'.
Proof.
  intros Hl Hrest Ho. split; [|done]. intros pl' id'. case_bool_decide as Hd.
  - destruct Hd as [-> ->]. by rewrite Hl, lookup_delete_eq.
  - destruct (decide (pl' = pl)) as [->|Hne]; [|by rewrite Hrest]. rewrite Hl, lookup_delete_ne; [done|]. intros ->. by destruct Hd.
Qed.
Lemma released_owned pl id w w' : owned w → released pl id w w' → owned w'.
Proof.
  intros Hw [Hl Hop]. apply (gives_up_owned w); [done|]. intros pl' id' q. rewrite Hl, Hop. case_bool_decide as Hd; [done|]. intros Hq.
  split; [done|]. destruct (listeners pl w !! id) as [port|] eqn:Hp; [by eapply other_port|]. by apply (proj1 Hw pl' id').
Qed.
Lemma tcp_delete id w : sound w → let w' := snd (TCP.DeleteProxy id w) in released PTcp id w w' ∧ sound w' ∧ fst (TCP.DeleteProxy id w) = Ok tt.
Proof.
  intros Hs. unfold TCP.DeleteProxy. destruct (gk_proxies (w_tcp w) !! id) as [port|] eqn:Hp; cbn [fst snd].
  - match goal with |- _ ∧ sound ?x ∧ _ => assert (released PTcp id w x) as Hr end.
    { apply released_new; [done|by intros []|]. cbn. by rewrite Hp. }
    split_and!; [done| |done]. destruct Hs. split; [by eapply released_owned| |done|done|done]. cbn. by apply indexed_delete.
  - split_and!; [|done|done]. apply released_new; [by cbn; rewrite delete_id|done|]. cbn. by rewrite Hp.
Qed.
Lemma http_delete env id w : sound w → let w' := snd (HTTP.DeleteProxy env id w) in released PHttp id w w' ∧ sound w'.
Proof.
  intros Hs. unfold HTTP.DeleteProxy. destruct (hs_proxies (w_http w) !! id) as [port|] eqn:Hp; cbn [fst snd].
  - match goal with |- _ ∧ sound ?x => assert (released PHttp id w x) as Hr end.
    { apply released_new; [done|by intros []|]. cbn. by rewrite Hp. }
    split; [done|]. destruct Hs. split; [by eapply released_owned|done| |done|done]. cbn. by apply indexed_delete_iff.
  - split; [|done]. apply released_new; [by cbn; rewrite delete_id|done|]. cbn. by rewrite Hp.
Qed.
Lemma ssh_delete env id w : sound w → let w' := snd (SSH.DeleteProxy env id w) in released PSsh id w w' ∧ sound w'.
Proof.
  intros Hs. unfold SSH.DeleteProxy. destruct (sg_proxies (w_ssh w) !! id) as [port|] eqn:Hp; cbn [fst snd];
    match goal with |- _ ∧ sound ?x => assert (released PSsh id w x) as Hr by (apply released_new; [done|by intros []|]; cbn; by rewrite Hp) end.
  all: split; [done|]; destruct Hs as [? ? ? Hports ?]; split; [by eapply released_owned|done|done| |done]; cbn; by rewrite Hports.
Qed.
Lemma unified_create certs env p w : sound w → bound (w_open w) (px_ProxyPort p) (listen env) →
  let out := Unified.CreateProxy certs env p w in sound (snd out) ∧
  match runtimeForProxy p with
  | proxyRuntimeDB => is_Some (match fst (fst out) with Returned (Err e) => Some e | _ => None end) ∧ snd out = w
  | proxyRuntimeSSH => created PSsh env p w out
  | proxyRuntimeHTTP => created PHttp env p w out
  | proxyRuntimeTCP => created PTcp env p w out
  end.
Proof.
  intros Hs Hb. unfold Unified.CreateProxy. destruct (runtimeForProxy p).
  - destruct (tcp_create env p w Hs Hb). done.
  - fold (cert_of certs p). destruct (http_create certs env p w Hs Hb) as [H1 H2]. by destruct (cert_of certs p).
  - destruct (ssh_create env p w Hs Hb). done.
  - split; [done|]. split; [by eexists|done].
Qed.

(** ** Any sequence of calls *)
Lemma other_plane_open w pl pl' id q : owned w → pl' ≠ pl → listeners pl' w !! id = Some q → q ∈ w_open w ∖ map_img (listeners pl w).
Proof.
  intros [Ho Hu] Hne Hq. apply elem_of_difference. split; [exact (Ho _ _ _ Hq)|]. rewrite elem_of_map_img. intros [i Hi].
  by destruct (Hu _ _ _ _ _ Hq Hi).
Qed.
Lemma closes_owned w pl w' : owned w → listeners pl w' = ∅ → (∀ pl', pl' ≠ pl → listeners pl' w' = listeners pl' w) →
  w_open w' = w_open w ∖ map_img (listeners pl w) → owned w'.
Proof.
  intros Hw He Hrest Ho. apply (gives_up_owned w); [done|]. intros pl' id q. destruct (decide (pl' = pl)) as [->|Hne].
  - by rewrite He, lookup_empty.
  - rewrite Hrest, Ho by done. intros Hq. split; [done|]. by eapply other_plane_open.
Qed.
Lemma step_sound w w' : step w w' → sound w → sound w'.
Proof.
  intros Hst Hs. destruct Hst as [certs env p w Hb|env id w|w|w|env w|id cidrs w|id w].
  - exact (proj1 (unified_create certs env p w Hs Hb)).
  - unfold Unified.DeleteProxy. destruct (http_delete env id w Hs) as [_ H1]. destruct (HTTP.DeleteProxy env id w) as [r1 w1].
    destruct (tcp_delete id w1 H1) as (_ & H2 & _). cbn [snd] in H2. destruct (TCP.DeleteProxy id w1) as [r2 w2].
    destruct (ssh_delete env id w2 H2) as [_ H3]. by destruct (SSH.DeleteProxy env id w2).
  - pose proof Hs as []. split; [by apply (closes_owned w PTcp _ (sound_owned w Hs)); [| intros []|]|done..].
  - pose proof Hs as []. split; [by apply (closes_owned w PHttp _ (sound_owned w Hs)); [|intros []|]|done|done|done|done].
  - pose proof Hs as []. split; [by apply (closes_owned w PSsh _ (sound_owned w Hs)); [|intros []|]|done..].
  - unfold Unified.Allow. destruct (Firewall.Allow id cidrs (w_rules w)). by destruct Hs.
  - by destruct Hs.
Qed.
Lemma NewEntry_sound : sound Unified.NewEntry.
Proof. split; try done. by split; intros []. Qed.
Lemma reachable_sound w : reachable w → sound w.
Proof. unfold reachable. intros H. pose proof NewEntry_sound as Hs. induction H; [done|]. eauto using step_sound. Qed.

(** C24. One port, one access.  After any sequence of calls on the three data
    planes (accesses created with whatever the operating system, the
    certificate files and the proxy library answer, deleted, planes closed,
    allowlists changed), every listener in a table is open, no port is in the
    tables of two accesses, the gatekeeper's and the HTTP server's port index
    finds each listener's access, and every plane admits a connection exactly
    when the shared firewall does. *)
Theorem listeners_exclusive w : reachable w →
  (∀ pl id port, listeners pl w !! id = Some port → port ∈ w_open w) ∧
  (∀ pl id pl' id' port, listeners pl w !! id = Some port → listeners pl' w !! id' = Some port → pl = pl' ∧ id = id') ∧
  (∀ id port, listeners PTcp w !! id = Some port → gk_proxiesIdxPort (w_tcp w) !! port = Some id) ∧
  (∀ id port, listeners PHttp w !! id = Some port ↔ hs_proxiesIdxPort (w_http w) !! port = Some id) ∧
  ∀ p client, let pass := Firewall.CheckAddr (px_ID p) client (w_rules w) in
    is_ok (TCP.postAccept p client w) = pass ∧ HTTP.accepts (px_ID p) client w = pass ∧ SSH.accepts (px_ID p) client w = pass.
Proof.
  intros [[Ho Hu] Ht Hh _ (G1 & G2 & G3)]%reachable_sound. split_and!; [done|done|done|done|]. intros p client. cbn zeta.
  unfold TCP.postAccept, HTTP.accepts, SSH.accepts. rewrite G1, G2, G3. by destruct (Firewall.CheckAddr _ _ _).
Qed.

Lemma released_open pl id w w' port : released pl id w w' → port ∈ w_open w' ↔ port ∈ w_open w ∧ listeners pl w !! id ≠ Some port.
Proof.
  intros [_ ->]. destruct (listeners pl w !! id) as [q|]; [|naive_solver].
  rewrite elem_of_difference, elem_of_singleton. split; intros [H1 H2]; (split; [done|]); congruence.
Qed.
Lemma released_other pl id pl' id' w w' : released pl id w w' → pl' ≠ pl ∨ id' ≠ id → listeners pl' w' !! id' = listeners pl' w !! id'.
Proof. intros [-> _] Hne. rewrite bool_decide_eq_false_2; [done|]. intros [-> ->]. by destruct Hne. Qed.
Lemma released_self pl id w w' : released pl id w w' → listeners pl w' !! id = None.
Proof. intros [-> _]. by rewrite bool_decide_eq_true_2. Qed.
(** DeleteProxy is the three deletions, one after the other. *)
Lemma unified_delete env id w : sound w → ∃ w1 w2, let w' := snd (Unified.DeleteProxy env id w) in
  released PHttp id w w1 ∧ released PTcp id w1 w2 ∧ released PSsh id w2 w' ∧
  ∀ port, listeners PTcp w !! id = Some port → gk_proxiesIdxPort (w_tcp w') !! port = None.
Proof.
  intros Hs. unfold Unified.DeleteProxy. destruct (http_delete env id w Hs) as [R1 H1].
  assert (w_tcp (snd (HTTP.DeleteProxy env id w)) = w_tcp w) as Et by (unfold HTTP.DeleteProxy; by destruct (_ !! id)).
  destruct (HTTP.DeleteProxy env id w) as [r1 w1]. cbn [snd] in *. exists w1. destruct (tcp_delete id w1 H1) as (R2 & H2 & _).
  assert (∀ port, gk_proxies (w_tcp w1) !! id = Some port → gk_proxiesIdxPort (w_tcp (snd (TCP.DeleteProxy id w1))) !! port = None) as Hi.
  { intros port Hp. unfold TCP.DeleteProxy. rewrite Hp. apply lookup_delete_eq. }
  destruct (TCP.DeleteProxy id w1) as [r2 w2]. cbn [snd] in *. exists w2. destruct (ssh_delete env id w2 H2) as [R3 _].
  assert (w_tcp (snd (SSH.DeleteProxy env id w2)) = w_tcp w2) as Et2 by (unfold SSH.DeleteProxy; by destruct (sg_proxies (w_ssh w2) !! id)).
  destruct (SSH.DeleteProxy env id w2) as [r3 w3]. cbn [snd] in *. split_and!; [done..|].
  intros port. rewrite Et2. cbn [listeners]. rewrite <- Et. apply Hi.
Qed.

(** Disabling an access frees its port, and it can be enabled again.
    DeleteProxy removes the access from all three planes, whichever held it
    and whatever error it returns, closes its listeners and no other, and
    leaves the other accesses alone; creating it again on the TCP port it had
    then meets no conflict and listens there, when the operating system and
    the proxy library let it. *)
Theorem access_reenabled w env id : reachable w → let w' := snd (Unified.DeleteProxy env id w) in
  (∀ pl, listeners pl w' !! id = None) ∧
  (∀ pl id', id' ≠ id → listeners pl w' !! id' = listeners pl w !! id') ∧
  (∀ port, port ∈ w_open w' ↔ port ∈ w_open w ∧ ∀ pl, listeners pl w !! id ≠ Some port) ∧
  ∀ p port certs env', px_ID p = id → runtimeForProxy p = proxyRuntimeTCP → px_ProxyPort p = port →
    listeners PTcp w !! id = Some port → listen env' = Ok port → is_ok (new_rproxy env') = true →
    ∃ p' w'', Unified.CreateProxy certs env' p w' = (Returned (Ok tt), p', w'') ∧ listeners PTcp w'' !! id = Some port ∧ port ∈ w_open w''.
Proof.
  intros Hw%reachable_sound. destruct (unified_delete env id w Hw) as (w1 & w2 & R1 & R2 & R3 & Hi). cbn zeta.
  set (w' := snd _) in *. assert (∀ pl, listeners pl w' !! id = None) as Hnone.
  { intros []; [rewrite (released_other _ _ _ _ _ _ R3) by auto|rewrite (released_other _ _ _ _ _ _ R3), (released_other _ _ _ _ _ _ R2) by auto|];
      eapply released_self; eassumption. }
  split_and!; [done| | |].
  - intros pl id' Hne. rewrite (released_other _ _ _ _ _ _ R3), (released_other _ _ _ _ _ _ R2), (released_other _ _ _ _ _ _ R1); auto.
  - intros port. rewrite (released_open _ _ _ _ _ R3), (released_open _ _ _ _ _ R2), (released_open _ _ _ _ _ R1).
    rewrite (released_other _ _ PSsh _ _ _ R2), (released_other _ _ PSsh _ _ _ R1), (released_other _ _ PTcp _ _ _ R1) by auto.
    split; [intros [[[Ho ?] ?] ?]; split; [done|]; by intros []|]. intros [Ho Hall]. auto.
  - intros p port certs env' Hid Hrt Hport Hold Hlis Hrp. unfold Unified.CreateProxy. rewrite Hrt. unfold TCP.CreateProxy.
    rewrite Hid. pose proof (Hnone PTcp) as Hn. cbn in Hn. rewrite Hn, Hport, (Hi _ Hold), Hlis. destruct (new_rproxy env'); [|done].
    replace (if Z.eqb port 0 then false else false) with false by (by destruct (Z.eqb port 0)). do 2 eexists. split; [done|].
    assert (px_ID (if Z.eqb port 0 then p <| px_ProxyPort := port |> else p) = id) as -> by (by destruct (Z.eqb port 0)).
    destruct (N.ltb _ _); cbn; rewrite lookup_insert_eq; (split; [done|set_solver]).
Qed.
(** An HTTPS access with the TLS listener failing: the call does not return an
    error, it panics. *)
Theorem tls_listen_failure_panics env p w cert key e : hs_proxies (w_http w) !! px_ID p = None → px_ProxyPort p = 0%Z →
  cert ≠ "" → key ≠ "" → load_cert env = Ok tt → listen env = Err e → fst (fst (HTTP.CreateProxy env p cert key w)) = Panicked.
Proof.
  intros Hn Hp Hc Hk Hl Hlis. unfold HTTP.CreateProxy. rewrite Hn, Hp. cbn [Z.eqb negb].
  rewrite !bool_decide_eq_false_2 by done. cbn [negb andb]. by rewrite Hl, Hlis.
Qed.

(** *** Witnesses: two accesses, of SSH and of raw TCP *)
Definition demo_proxy (id port : Z) (protocol : string) : Proxy := mkProxy id "" port 7 3 "10.0.0.1:22" "tcp" protocol false.
Definition all_well (port : Z) : Env := mkEnv (Ok port) (Ok tt) (Ok tt) (Ok tt) (Ok tt).
Definition demo_planes : Planes :=
  snd (Unified.CreateProxy [] (all_well 2222) (demo_proxy 2 0 "ssh") (snd (Unified.CreateProxy [] (all_well 9000) (demo_proxy 1 9000 "tcp") Unified.NewEntry))).
Lemma demo_planes_reachable : reachable demo_planes.
Proof.
  eapply rtc_l; [apply (step_create [] (all_well 9000) (demo_proxy 1 9000 "tcp")); split_and!; [apply not_elem_of_empty|lia|lia|done]|].
  eapply rtc_l; [apply (step_create [] (all_well 2222) (demo_proxy 2 0 "ssh")); split_and!; [|lia|lia|done]|apply rtc_refl].
  apply (bool_decide_unpack _). by vm_compute.
Qed.
Lemma listeners_exclusive_witness : listeners PTcp demo_planes !! 1%Z = Some 9000%Z ∧ gk_proxiesIdxPort (w_tcp demo_planes) !! 9000%Z = Some 1%Z.
Proof.
  destruct (listeners_exclusive demo_planes demo_planes_reachable) as (_ & _ & H & _). split; [|apply H]; by vm_compute.
Defined.
Lemma access_reenabled_witness : listeners PTcp (snd (Unified.DeleteProxy (all_well 0) 1 demo_planes)) !! 1%Z = None ∧
  ∃ p' w'', Unified.CreateProxy [] (all_well 9000) (demo_proxy 1 9000 "tcp") (snd (Unified.DeleteProxy (all_well 0) 1 demo_planes)) =
    (Returned (Ok tt), p', w'') ∧ listeners PTcp w'' !! 1%Z = Some 9000%Z ∧ 9000%Z ∈ w_open w''.
Proof.
  destruct (access_reenabled demo_planes (all_well 0) 1 demo_planes_reachable) as (H & _ & _ & Hre).
  split; [exact (H PTcp)|]. apply (Hre (demo_proxy 1 9000 "tcp") 9000%Z [] (all_well 9000)); [done|done|done|by vm_compute|done|done].
Defined.
