(* ===== verification/Traffic.v ===== *)
(** * Traffic accounting

    [trafficconn/trafficconn.go] (the counters of one connection), the
    [recordTraffic]/[flushAndReport] pair of [entry/transport/gatekeeper.go]
    and of [entry/http/server.go], and
    [liaison/manager/traffic/traffic_collector.go] down to the rows of
    traffic_metrics.  The counters move through goroutines that are not
    synchronised with each other, so the model is a pool of threads, each the
    list of what it has still to do; what happens under one lock, or is one
    atomic operation, is one step ([exec]).  A flush of a connection is three
    steps (two swaps and the record), a report one step for the copy under the
    lock and one per record after it, and a row is stored or lost.  Go's map
    order is any permutation.  [int64] additions wrap ([i64]). *)

From S2P Require Import Prelude ToolTypes Password.

(** ** trafficStats, and the keys of the maps *)
Record trafficStats := mkStats { ts_ProxyID : N; ts_ApplicationID : N; ts_BytesIn : Z; ts_BytesOut : Z }.
Definition i64 (z : Z) : Z := ((z + 2 ^ 63) `mod` 2 ^ 64 - 2 ^ 63)%Z.
Definition trafficKey (proxyID applicationID : N) : string := pretty proxyID +:+ ":" +:+ pretty applicationID.
Notation Stats := (gmap string trafficStats).

(** TrafficCollector.RecordTraffic *)
Definition RecordTraffic (proxyID applicationID : N) (bytesIn bytesOut : Z) (m : Stats) : Stats :=
  let key := trafficKey proxyID applicationID in
  let stats := match m !! key with Some stats => stats | None => mkStats proxyID applicationID 0 0 end in
  <[ key := mkStats (ts_ProxyID stats) (ts_ApplicationID stats) (i64 (ts_BytesIn stats + bytesIn)) (i64 (ts_BytesOut stats + bytesOut)) ]> m.
(** Gatekeeper.recordTraffic, Server.recordTraffic *)
Definition recordTraffic (proxyID applicationID : N) (bytesIn bytesOut : Z) (m : Stats) : Stats :=
  if Z.eqb bytesIn 0 && Z.eqb bytesOut 0 then m else RecordTraffic proxyID applicationID bytesIn bytesOut m.
Definition values (m : Stats) : list trafficStats := (map_to_list m).*2.

(** ** The parts *)
Inductive Recorder := RGatekeeper | RServer | RCollector.
#[export] Instance Recorder_eq_dec : EqDecision Recorder.
Proof. solve_decision. Defined.
Record meteredTargetConn := mkConn {
  mc_recorder : Recorder; mc_proxyID : N; mc_applicationID : N; mc_bytesIn : Z; mc_bytesOut : Z; mc_done : bool
}.
#[export] Instance conn_eta : Eta meteredTargetConn := {| eta := λ r, mkConn (mc_recorder r) (mc_proxyID r) (mc_applicationID r)
  (mc_bytesIn r) (mc_bytesOut r) (mc_done r) |}.
Record TrafficMetric := mkMetric { tm_ApplicationID : N; tm_ProxyID : N; tm_Timestamp : Time; tm_BytesIn : Z; tm_BytesOut : Z }.

(** What a goroutine has still to do. *)
Inductive op :=
| Flush (c : nat)                                                     (* meteredTargetConn.flush *)
| SwapOut (c : nat) (r : Recorder) (proxyID applicationID : N) (bytesIn : Z)   (* its second half *)
| Record_ (r : Recorder) (proxyID applicationID : N) (bytesIn bytesOut : Z)    (* recorder.RecordTraffic *)
| Report (r : Recorder)                                               (* flushAndReport of a data plane *)
| Collect                                                             (* TrafficCollector.flush *)
| Store (stats : trafficStats).                                       (* repo.CreateTrafficMetric *)

Record Traffic := mkTraffic {
  tr_conns : list meteredTargetConn;
  tr_gatekeeper : Stats; tr_server : Stats;   (* trafficStats of the two data planes *)
  tr_attached : bool;                         (* SetTrafficCollector was called *)
  tr_collector : Stats;
  tr_rows : list TrafficMetric;
  tr_threads : list (list op);
  tr_lost : list trafficStats;                (* what was discarded *)
  tr_moved : list trafficStats                (* what the connections carried *)
}.
#[export] Instance Traffic_eta : Eta Traffic := {| eta := λ r, mkTraffic (tr_conns r) (tr_gatekeeper r) (tr_server r) (tr_attached r)
  (tr_collector r) (tr_rows r) (tr_threads r) (tr_lost r) (tr_moved r) |}.

Definition to_recorder (r : Recorder) (proxyID applicationID : N) (bytesIn bytesOut : Z) (t : Traffic) : Traffic :=
  match r with
  | RGatekeeper => t <| tr_gatekeeper := recordTraffic proxyID applicationID bytesIn bytesOut (tr_gatekeeper t) |>
  | RServer => t <| tr_server := recordTraffic proxyID applicationID bytesIn bytesOut (tr_server t) |>
  | RCollector => t <| tr_collector := RecordTraffic proxyID applicationID bytesIn bytesOut (tr_collector t) |>
  end.

(** What the environment decides in a step: the order of a map's entries, the
    time and what the database answers. *)
Record Choice := mkChoice { ch_order : list trafficStats → list trafficStats; ch_now : Time; ch_store : Result unit }.
Definition fair (ch : Choice) : Prop := ∀ l, ch_order ch l ≡ₚ l.
Definition report (ch : Choice) (m : Stats) (t : Traffic) : list op * Traffic :=
  if tr_attached t
  then (map (λ s, Record_ RCollector (ts_ProxyID s) (ts_ApplicationID s) (ts_BytesIn s) (ts_BytesOut s)) (ch_order ch (values m)), t)
  else ([], t <| tr_lost := values m ++ tr_lost t |>).

(** meteredTargetConn.flush: the first swap, then the second with the record. *)
Definition flush (c : nat) (t : Traffic) : list op * Traffic :=
  match tr_conns t !! c with
  | None => ([], t)
  | Some mc => ([SwapOut c (mc_recorder mc) (mc_proxyID mc) (mc_applicationID mc) (mc_bytesIn mc)],
                t <| tr_conns := <[ c := mc <| mc_bytesIn := 0%Z |> ]> (tr_conns t) |>)
  end.
Definition flush_rest (c : nat) (r : Recorder) (p a : N) (bytesIn : Z) (t : Traffic) : list op * Traffic :=
  match tr_conns t !! c with
  | None => ([Record_ r p a bytesIn 0], t)
  | Some mc =>
      let bytesOut := mc_bytesOut mc in
      (if Z.eqb bytesIn 0 && Z.eqb bytesOut 0 then [] else [Record_ r p a bytesIn bytesOut],
       t <| tr_conns := <[ c := mc <| mc_bytesOut := 0%Z |> ]> (tr_conns t) |>)
  end.
(** flushAndReport of the gatekeeper and of the HTTP server. *)
Definition flushAndReport (ch : Choice) (r : Recorder) (t : Traffic) : list op * Traffic :=
  match r with
  | RGatekeeper => if bool_decide (tr_gatekeeper t = ∅) then ([], t) else report ch (tr_gatekeeper t) (t <| tr_gatekeeper := ∅ |>)
  | RServer => if bool_decide (tr_server t = ∅) then ([], t) else report ch (tr_server t) (t <| tr_server := ∅ |>)
  | RCollector => ([], t)
  end.
(** TrafficCollector.flush: the copy under the lock, and each row after it. *)
Definition collector_flush (ch : Choice) (t : Traffic) : list op * Traffic :=
  if bool_decide (tr_collector t = ∅) then ([], t) else
  (map Store (ch_order ch (values (tr_collector t))), t <| tr_collector := ∅ |>).
Definition store_row (ch : Choice) (s : trafficStats) (t : Traffic) : list op * Traffic :=
  match ch_store ch with
  | Ok _ => ([], t <| tr_rows := mkMetric (ts_ApplicationID s) (ts_ProxyID s) (ch_now ch) (ts_BytesIn s) (ts_BytesOut s) :: tr_rows t |>)
  | Err _ => ([], t <| tr_lost := s :: tr_lost t |>)
  end.
(** One step of a goroutine: what it does, and what it has to do next. *)
Definition exec (ch : Choice) (o : op) (t : Traffic) : list op * Traffic :=
  match o with
  | Flush c => flush c t
  | SwapOut c r p a bytesIn => flush_rest c r p a bytesIn t
  | Record_ r p a bytesIn bytesOut => ([], to_recorder r p a bytesIn bytesOut t)
  | Report r => flushAndReport ch r t
  | Collect => collector_flush ch t
  | Store s => store_row ch s t
  end.
Definition spawn (ops : list op) (t : Traffic) : Traffic := t <| tr_threads := tr_threads t ++ [ops] |>.

(** TargetConn: a connection without a proxy or an application is not metered. *)
Definition TargetConn (r : Recorder) (proxyID applicationID : N) (t : Traffic) : Traffic :=
  if bool_decide (proxyID = 0%N) || bool_decide (applicationID = 0%N) then t
  else t <| tr_conns := tr_conns t ++ [mkConn r proxyID applicationID 0 0 false] |>.
(** Read and Write of [n] bytes, with or without an error. *)
Definition Read (c : nat) (n : Z) (failed : bool) (t : Traffic) : Traffic :=
  match tr_conns t !! c with
  | None => t
  | Some mc =>
      let t := if Z.ltb 0 n
               then t <| tr_conns := <[ c := mc <| mc_bytesOut := i64 (mc_bytesOut mc + n) |> ]> (tr_conns t) |>
                      <| tr_moved := mkStats (mc_proxyID mc) (mc_applicationID mc) 0 n :: tr_moved t |>
               else t in
      if failed then spawn [Flush c] t else t
  end.
Definition Write_ (c : nat) (n : Z) (failed : bool) (t : Traffic) : Traffic :=
  match tr_conns t !! c with
  | None => t
  | Some mc =>
      let t := if Z.ltb 0 n
               then t <| tr_conns := <[ c := mc <| mc_bytesIn := i64 (mc_bytesIn mc + n) |> ]> (tr_conns t) |>
                      <| tr_moved := mkStats (mc_proxyID mc) (mc_applicationID mc) n 0 :: tr_moved t |>
               else t in
      if failed then spawn [Flush c] t else t
  end.
(** Close: once, a last flush, and the collector's own when it is the recorder. *)
Definition Close (c : nat) (t : Traffic) : Traffic :=
  match tr_conns t !! c with
  | None => t
  | Some mc =>
      if mc_done mc then t else
      spawn (Flush c :: if bool_decide (mc_recorder mc = RCollector) then [Collect] else [])
        (t <| tr_conns := <[ c := mc <| mc_done := true |> ]> (tr_conns t) |>)
  end.
(** The end of handleRequest: one HTTP exchange. *)
Definition exchange (proxyID applicationID : N) (requestBytes responseBytes : Z) (t : Traffic) : Traffic :=
  spawn [Record_ RServer proxyID applicationID requestBytes responseBytes]
    (t <| tr_moved := mkStats proxyID applicationID requestBytes responseBytes :: tr_moved t |>).

Definition NewTraffic (attached : bool) : Traffic := mkTraffic [] ∅ ∅ attached ∅ [] [] [] [].

(** Everything that can happen, one step at a time. *)
Inductive step : Traffic → Traffic → Prop :=
| step_open r p a t : step t (TargetConn r p a t)
| step_read c n failed t : step t (Read c n failed t)
| step_write c n failed t : step t (Write_ c n failed t)
| step_close c t : step t (Close c t)
| step_exchange p a i o t : (0 ≤ i)%Z → (0 ≤ o)%Z → step t (exchange p a i o t)
| step_tick c t : step t (spawn [Flush c] t)
| step_report r t : step t (spawn [Report r] t)
| step_collect t : step t (spawn [Collect] t)
| step_thread k ch o ops t : tr_threads t !! k = Some (o :: ops) → fair ch →
    step t (let '(more, t') := exec ch o t in t' <| tr_threads := <[ k := more ++ ops ]> (tr_threads t') |>).

(** ** Accounts

    [tally d p a l] is what the entries of [l] for the access [p] and the
    application [a] come to in one direction; two lists are equivalent when
    they come to the same for every access, application and direction. *)
Inductive dir := In_ | Out_.
Definition amount (d : dir) (s : trafficStats) : Z := match d with In_ => ts_BytesIn s | Out_ => ts_BytesOut s end.
Definition of_key (p a : N) (s : trafficStats) : bool := bool_decide (ts_ProxyID s = p) && bool_decide (ts_ApplicationID s = a).
Fixpoint tally (d : dir) (p a : N) (l : list trafficStats) : Z :=
  match l with [] => 0 | s :: l' => (if of_key p a s then amount d s else 0) + tally d p a l' end%Z.
Record same_account (l l' : list trafficStats) : Prop := same { same_tally d p a : tally d p a l = tally d p a l' }.
Infix "≈" := same_account (at level 70).
#[export] Instance same_account_equiv : Equivalence same_account.
Proof. split; [by intros l; split|by intros l l' [H]; split|by intros l l' l'' [H] [H']; split; intros; rewrite H]. Qed.
Lemma tally_app d p a l l' : tally d p a (l ++ l') = (tally d p a l + tally d p a l')%Z.
Proof. induction l as [|s l IH]; cbn [tally app]; [lia|]. rewrite IH. lia. Qed.
#[export] Instance tally_perm d p a : Proper ((≡ₚ) ==> eq) (tally d p a).
Proof. induction 1; cbn [tally]; lia. Qed.
#[export] Instance same_account_perm : subrelation (≡ₚ) same_account.
Proof. intros l l' H. split. intros d p a. by rewrite H. Qed.
#[export] Instance same_account_app : Proper (same_account ==> same_account ==> same_account) (@app trafficStats).
Proof. intros l l' [H] k k' [H']. split. intros d p a. by rewrite !tally_app, H, H'. Qed.
#[export] Instance same_account_cons s : Proper (same_account ==> same_account) (cons s).
Proof. intros l l' [H]. split. intros d p a. cbn [tally]. by rewrite H. Qed.
#[export] Instance tally_same d p a : Proper (same_account ==> eq) (tally d p a).
Proof. by intros l l' [H]. Qed.
Lemma merge_entries p a i o i' o' l : mkStats p a i o :: mkStats p a i' o' :: l ≈ mkStats p a (i' + i) (o' + o) :: l.
Proof. split. intros [] q b; cbn [tally]; unfold of_key; cbn; destruct (_ && _); lia. Qed.
Lemma empty_entry p a l : mkStats p a 0 0 :: l ≈ l.
Proof. split. intros [] q b; cbn [tally]; unfold of_key; cbn; by destruct (_ && _). Qed.

Definition counted (l : list trafficStats) : Prop := Forall (λ s, 0 ≤ ts_BytesIn s ∧ 0 ≤ ts_BytesOut s)%Z l.
#[export] Instance counted_perm : Proper ((≡ₚ) ==> iff) counted.
Proof. intros l l' H. unfold counted. by rewrite H. Qed.
Lemma tally_nonneg d p a l : counted l → (0 ≤ tally d p a l)%Z.
Proof. induction 1 as [|s l [] _ IH]; cbn [tally]; [lia|]. destruct (of_key p a s), d; cbn; lia. Qed.

(** ** What a state holds *)
Definition conn_stats (c : meteredTargetConn) : list trafficStats := [mkStats (mc_proxyID c) (mc_applicationID c) (mc_bytesIn c) (mc_bytesOut c)].
Definition op_stats (o : op) : list trafficStats :=
  match o with
  | SwapOut _ _ p a i => [mkStats p a i 0]
  | Record_ _ p a i o => [mkStats p a i o]
  | Store s => [s]
  | _ => []
  end.
Definition thread_stats (ops : list op) : list trafficStats := flat_map op_stats ops.
Definition row_stats (r : TrafficMetric) : trafficStats := mkStats (tm_ProxyID r) (tm_ApplicationID r) (tm_BytesIn r) (tm_BytesOut r).
Definition in_transit (t : Traffic) : list trafficStats :=
  flat_map conn_stats (tr_conns t) ++ flat_map thread_stats (tr_threads t) ++
  values (tr_gatekeeper t) ++ values (tr_server t) ++ values (tr_collector t).
Definition holdings (t : Traffic) : list trafficStats := in_transit t ++ map row_stats (tr_rows t) ++ tr_lost t.

(** *** Replacing one element *)
Lemma bag_insert {A} (f : A → list trafficStats) (l : list A) i x : l !! i = Some x →
  ∃ rest, flat_map f l ≡ₚ f x ++ rest ∧ ∀ y, flat_map f (<[ i := y ]> l) ≡ₚ f y ++ rest.
Proof.
  intros Hi. exists (flat_map f (take i l) ++ flat_map f (drop (S i) l)). split.
  - rewrite <- (take_drop_middle l i x Hi) at 1. rewrite flat_map_app. cbn [flat_map]. solve_Permutation.
  - intros y. rewrite insert_take_drop by (by eapply lookup_lt_Some). rewrite flat_map_app. cbn [flat_map]. solve_Permutation.
Qed.
Lemma values_insert (m : Stats) k s : values (<[ k := s ]> m) ≡ₚ s :: values (delete k m).
Proof. unfold values. rewrite <- insert_delete_eq. by rewrite map_to_list_insert by apply lookup_delete_eq. Qed.
Lemma values_lookup (m : Stats) k : values m ≡ₚ match m !! k with Some s => [s] | None => [] end ++ values (delete k m).
Proof.
  destruct (m !! k) as [s|] eqn:Hk; [|by rewrite delete_id]. rewrite <- (insert_id m k s Hk) at 1. apply values_insert.
Qed.

(** *** Keys: one per access and application *)
Lemma digits_no_colon s : PasswordFacts.all_digits s = true → contains_char ":" s = false.
Proof.
  induction s as [|c s IH]; [done|]. intros H. cbn in H. apply andb_true_iff in H as [Hc Hs]. cbn [contains_char].
  rewrite (IH Hs), orb_false_r. apply bool_decide_eq_false. by intros <-.
Qed.
Lemma pretty_no_colon n : contains_char ":" (pretty (n : N)) = false.
Proof. apply digits_no_colon, (PasswordFacts.pretty_N_spec n). Qed.
Lemma trafficKey_inj p a p' a' : trafficKey p a = trafficKey p' a' → p = p' ∧ a = a'.
Proof.
  unfold trafficKey. intros H. apply (f_equal (λ s, Split s ":")) in H.
  change (":" +:+ pretty a) with (String ":" (pretty a)) in H. change (":" +:+ pretty a') with (String ":" (pretty a')) in H.
  rewrite !Split_app, !Split_none in H by apply pretty_no_colon. injection H as H1 H2. split; by eapply (inj pretty).
Qed.
(** The entries are under their keys. *)
Definition keyed (m : Stats) : Prop := ∀ k s, m !! k = Some s → k = trafficKey (ts_ProxyID s) (ts_ApplicationID s).
Lemma keyed_no_entry : keyed ∅.
Proof. by intros k s. Qed.

(** ** Recording keeps the account *)
Definition small (z : Z) : Prop := (0 ≤ z < 2 ^ 63)%Z.
Lemma i64_small z : small z → i64 z = z.
Proof. intros []. unfold i64. rewrite Z.mod_small; lia. Qed.
Definition fits (l : list trafficStats) : Prop := ∀ d p a, (tally d p a l < 2 ^ 63)%Z.

#[export] Instance fits_same : Proper (same_account ==> iff) fits.
Proof. intros l l' [H]. unfold fits. by setoid_rewrite H. Qed.
Lemma entry_fits l p a i o rest : fits l → l ≈ mkStats p a i o :: rest → counted rest → (0 ≤ i)%Z → (0 ≤ o)%Z → small i ∧ small o.
Proof.
  intros Hf Hl Hr Hi Ho. assert (∀ d, tally d p a l = amount d (mkStats p a i o) + tally d p a rest)%Z as Ht.
  { intros d. rewrite Hl. cbn [tally]. unfold of_key. cbn [ts_ProxyID ts_ApplicationID]. by rewrite !bool_decide_eq_true_2. }
  split; split; [done| |done|].
  - pose proof (Hf In_ p a). rewrite (Ht In_) in *. pose proof (tally_nonneg In_ p a rest Hr). cbn in *. lia.
  - pose proof (Hf Out_ p a). rewrite (Ht Out_) in *. pose proof (tally_nonneg Out_ p a rest Hr). cbn in *. lia.
Qed.

Lemma RecordTraffic_spec p a i o m rest : keyed m → counted (mkStats p a i o :: values m ++ rest) → fits (mkStats p a i o :: values m ++ rest) →
  keyed (RecordTraffic p a i o m) ∧ counted (values (RecordTraffic p a i o m)) ∧ values (RecordTraffic p a i o m) ≈ mkStats p a i o :: values m.
Proof.
  intros Hk Hc Hf. unfold RecordTraffic. set (k := trafficKey p a).
  assert (∃ x y, match m !! k with Some s => s | None => mkStats p a 0 0 end = mkStats p a x y ∧
    mkStats p a x y :: values (delete k m) ≈ values m ∧ counted (mkStats p a x y :: values (delete k m))) as (x & y & -> & Hv & Hcv).
  { apply Forall_cons in Hc as [_ [Hm _]%Forall_app]. rewrite (values_lookup m k) in Hm. destruct (m !! k) as [[p' a' x y]|] eqn:E.
    - apply Hk in E as E'. apply trafficKey_inj in E' as [-> ->]. exists x, y. split_and!; [done| |done]. by rewrite (values_lookup m k), E.
    - exists 0%Z, 0%Z. split_and!; [done| |by constructor]. rewrite (delete_id m k) by done. apply empty_entry. }
  pose proof Hc as [[Hi Ho] [_ Hrest]%Forall_app]%Forall_cons. apply Forall_cons in Hcv as [[Hx Hy] Hcv]. cbn in Hi, Ho, Hx, Hy.
  assert (small (x + i) ∧ small (y + o)) as [Hxi Hyo].
  { apply (entry_fits _ p a _ _ (values (delete k m) ++ rest) Hf); [|by apply Forall_app|lia|lia].
    rewrite <- Hv. cbn [app]. by rewrite merge_entries. }
  cbn [ts_ProxyID ts_ApplicationID ts_BytesIn ts_BytesOut]. rewrite (i64_small _ Hxi), (i64_small _ Hyo). split_and!.
  - intros k' s. destruct (decide (k' = k)) as [->|]; [rewrite lookup_insert_eq; by intros [= <-]|rewrite lookup_insert_ne by done; apply Hk].
  - rewrite values_insert. constructor; [cbn; unfold small in *; lia|done].
  - rewrite values_insert, <- Hv. by rewrite merge_entries.
Qed.
Lemma recordTraffic_spec p a i o m rest : keyed m → counted (mkStats p a i o :: values m ++ rest) → fits (mkStats p a i o :: values m ++ rest) →
  keyed (recordTraffic p a i o m) ∧ counted (values (recordTraffic p a i o m)) ∧ values (recordTraffic p a i o m) ≈ mkStats p a i o :: values m.
Proof.
  intros Hk Hc Hf. unfold recordTraffic. destruct (Z.eqb i 0 && Z.eqb o 0) eqn:E; [|by apply (RecordTraffic_spec _ _ _ _ _ rest)].
  apply andb_true_iff in E as [->%Z.eqb_eq ->%Z.eqb_eq]. apply Forall_cons in Hc as [_ [Hm _]%Forall_app]. split_and!; [done|done|].
  by rewrite empty_entry.
Qed.

Ltac open_exec := cbn [exec]; unfold flush, flush_rest, flushAndReport, collector_flush, store_row.

(** ** A step of a goroutine keeps the account *)
Definition stores (t : Traffic) : list trafficStats :=
  flat_map conn_stats (tr_conns t) ++ values (tr_gatekeeper t) ++ values (tr_server t) ++ values (tr_collector t) ++
  map row_stats (tr_rows t) ++ tr_lost t.
Lemma holdings_split t : holdings t ≡ₚ flat_map thread_stats (tr_threads t) ++ stores t.
Proof. unfold holdings, in_transit, stores. solve_Permutation. Qed.
Definition keyed_maps (t : Traffic) : Prop := keyed (tr_gatekeeper t) ∧ keyed (tr_server t) ∧ keyed (tr_collector t).
(** What a step must leave: the entries it took, with those it has passed on,
    under their keys and not negative. *)
Definition accounts (taken passed : list trafficStats) (t t' : Traffic) : Prop :=
  keyed_maps t' ∧ counted (passed ++ stores t') ∧ passed ++ stores t' ≈ taken ++ stores t ∧
  tr_threads t' = tr_threads t ∧ tr_moved t' = tr_moved t.
Lemma counted_app l l' : counted (l ++ l') ↔ counted l ∧ counted l'.
Proof. apply Forall_app. Qed.
Lemma counted_cons s l : counted (s :: l) ↔ (0 ≤ ts_BytesIn s ∧ 0 ≤ ts_BytesOut s)%Z ∧ counted l.
Proof. unfold counted. by rewrite Forall_cons. Qed.
Lemma counted_nil : counted [] ↔ True.
Proof. apply Forall_nil. Qed.
Create HintDb counted.
Hint Rewrite counted_app counted_cons counted_nil : counted.
Ltac counting := autorewrite with counted in *; cbn [ts_BytesIn ts_BytesOut] in *; intuition (auto; lia).

Lemma record_accounts ch r p a i o t rest : keyed_maps t → counted (mkStats p a i o :: stores t ++ rest) → fits (mkStats p a i o :: stores t ++ rest) →
  let '(more, t') := exec ch (Record_ r p a i o) t in accounts [mkStats p a i o] (thread_stats more) t t'.
Proof.
  intros (K1 & K2 & K3) Hc Hf. cbn [exec thread_stats flat_map]. unfold accounts, keyed_maps, to_recorder.
  assert (∀ m others, stores t ≡ₚ values m ++ others → counted (mkStats p a i o :: values m ++ others ++ rest) ∧ fits (mkStats p a i o :: values m ++ others ++ rest)) as Hm.
  { intros m others Hp. rewrite Hp, <- app_assoc in Hc. rewrite Hp, <- app_assoc in Hf. done. }
  unfold stores in *. destruct r; cbn.
  - destruct (Hm (tr_gatekeeper t) (flat_map conn_stats (tr_conns t) ++ values (tr_server t) ++ values (tr_collector t) ++ map row_stats (tr_rows t) ++ tr_lost t))
      as [H1 H2]; [solve_Permutation|].
    destruct (recordTraffic_spec _ _ _ _ _ _ K1 H1 H2) as (R1 & R2 & R3). split_and!; [done|done|done|counting| |done|done].
    rewrite R3. apply same_account_perm. solve_Permutation.
  - destruct (Hm (tr_server t) (flat_map conn_stats (tr_conns t) ++ values (tr_gatekeeper t) ++ values (tr_collector t) ++ map row_stats (tr_rows t) ++ tr_lost t))
      as [H1 H2]; [solve_Permutation|].
    destruct (recordTraffic_spec _ _ _ _ _ _ K2 H1 H2) as (R1 & R2 & R3). split_and!; [done|done|done|counting| |done|done].
    rewrite R3. apply same_account_perm. solve_Permutation.
  - destruct (Hm (tr_collector t) (flat_map conn_stats (tr_conns t) ++ values (tr_gatekeeper t) ++ values (tr_server t) ++ map row_stats (tr_rows t) ++ tr_lost t))
      as [H1 H2]; [solve_Permutation|].
    destruct (RecordTraffic_spec _ _ _ _ _ _ K3 H1 H2) as (R1 & R2 & R3). split_and!; [done|done|done|counting| |done|done].
    rewrite R3. apply same_account_perm. solve_Permutation.
Qed.

Lemma replayed l : thread_stats (map (λ s, Record_ RCollector (ts_ProxyID s) (ts_ApplicationID s) (ts_BytesIn s) (ts_BytesOut s)) l) = l.
Proof. induction l as [|[] l IH]; [done|]. unfold thread_stats in *. cbn. by rewrite IH. Qed.
Lemma stored l : thread_stats (map Store l) = l.
Proof. induction l as [|s l IH]; [done|]. unfold thread_stats in *. cbn. by rewrite IH. Qed.
Lemma values_empty : values ∅ = [].
Proof. unfold values. by rewrite map_to_list_empty. Qed.
(** Closes an account whose entries have only changed places. *)
Ltac moved_about := first [counting | apply same_account_perm; solve_Permutation].

Lemma flush_accounts ch c t rest : keyed_maps t → counted (stores t ++ rest) →
  let '(more, t') := exec ch (Flush c) t in accounts [] (thread_stats more) t t'.
Proof.
  intros K Hc. open_exec. destruct (tr_conns t !! c) as [[r p a i o dn]|] eqn:E; cbn; [|split_and!; [apply K..|counting|done|done|done]].
  destruct (bag_insert conn_stats _ _ _ E) as (others & H1 & H2). unfold accounts, stores in *. cbn. rewrite H1 in Hc |- *. rewrite H2. cbn in *.
  split_and!; [apply K..|counting| |done|done]. rewrite merge_entries. by rewrite Z.add_0_l, Z.add_0_r.
Qed.
Lemma swap_accounts ch c r p a i t rest : keyed_maps t → (∀ mc, tr_conns t !! c = Some mc → mc_proxyID mc = p ∧ mc_applicationID mc = a) →
  counted (mkStats p a i 0 :: stores t ++ rest) →
  let '(more, t') := exec ch (SwapOut c r p a i) t in accounts [mkStats p a i 0] (thread_stats more) t t'.
Proof.
  intros K Hid Hc. open_exec. destruct (tr_conns t !! c) as [[r' p' a' i' o' dn]|] eqn:E; cbn; [|split_and!; [apply K..|counting|done|done|done]].
  destruct (Hid _ eq_refl) as [Hp Ha]. cbn in Hp, Ha. subst p' a'.
  destruct (bag_insert conn_stats _ _ _ E) as (others & H1 & H2). unfold accounts, stores in *. cbn. rewrite H1 in Hc |- *. rewrite H2. cbn in *.
  destruct (Z.eqb i 0 && Z.eqb o' 0) eqn:Ez; cbn.
  - apply andb_true_iff in Ez as [->%Z.eqb_eq ->%Z.eqb_eq]. split_and!; [apply K..|counting| |done|done]. by rewrite !empty_entry.
  - split_and!; [apply K..|counting| |done|done]. rewrite !merge_entries. by rewrite Z.add_0_l, Z.add_0_r.
Qed.
Lemma report_accounts ch r t rest : fair ch → keyed_maps t → counted (stores t ++ rest) →
  let '(more, t') := exec ch (Report r) t in accounts [] (thread_stats more) t t'.
Proof.
  intros Hch K Hc. assert (accounts [] [] t t) as Hnop by (split_and!; [apply K..|counting|done|done|done]).
  open_exec. destruct r; [| |done].
  - case_bool_decide; [done|]. unfold report. destruct (tr_attached _); unfold accounts, keyed_maps, stores in *; cbn; rewrite values_empty; cbn.
    + rewrite replayed, (Hch _). split_and!; [apply keyed_no_entry|apply K|apply K|moved_about|moved_about|done|done].
    + split_and!; [apply keyed_no_entry|apply K|apply K|moved_about|moved_about|done|done].
  - case_bool_decide; [done|]. unfold report. destruct (tr_attached _); unfold accounts, keyed_maps, stores in *; cbn; rewrite values_empty; cbn.
    + rewrite replayed, (Hch _). split_and!; [apply K|apply keyed_no_entry|apply K|moved_about|moved_about|done|done].
    + split_and!; [apply K|apply keyed_no_entry|apply K|moved_about|moved_about|done|done].
Qed.
Lemma collect_accounts ch t rest : fair ch → keyed_maps t → counted (stores t ++ rest) →
  let '(more, t') := exec ch Collect t in accounts [] (thread_stats more) t t'.
Proof.
  intros Hch K Hc. open_exec. case_bool_decide; [split_and!; [apply K..|counting|done|done|done]|].
  unfold accounts, keyed_maps, stores in *; cbn; rewrite values_empty, stored, (Hch _); cbn.
  split_and!; [apply K|apply K|apply keyed_no_entry|moved_about|moved_about|done|done].
Qed.
Lemma store_accounts ch s t rest : keyed_maps t → counted (s :: stores t ++ rest) →
  let '(more, t') := exec ch (Store s) t in accounts [s] (thread_stats more) t t'.
Proof.
  intros K Hc. open_exec. destruct (ch_store ch); unfold accounts, stores in *; destruct s; cbn in *.
  all: split_and!; [apply K..|moved_about|moved_about|done|done].
Qed.

(** ** The invariant *)
Definition idents (l : list meteredTargetConn) : list (N * N) := (λ c, (mc_proxyID c, mc_applicationID c)) <$> l.
(** A half-done flush is of a connection that is there. *)
Definition addressed (conns : list meteredTargetConn) (o : op) : Prop :=
  match o with SwapOut c _ p a _ => idents conns !! c = Some (p, a) | _ => True end.
Record inv (t : Traffic) : Prop := {
  inv_keyed : keyed_maps t;
  inv_addressed : Forall (Forall (addressed (tr_conns t))) (tr_threads t);
  inv_counted : counted (holdings t);
  inv_same : holdings t ≈ tr_moved t
}.
Lemma exec_accounts ch o t rest : fair ch → keyed_maps t → addressed (tr_conns t) o →
  counted (op_stats o ++ stores t ++ rest) → fits (op_stats o ++ stores t ++ rest) →
  let '(more, t') := exec ch o t in accounts (op_stats o) (thread_stats more) t t'.
Proof.
  intros Hch K Ha Hc Hf. destruct o as [c|c r p a i|r p a i o|r| |s]; cbn [op_stats app] in *.
  - exact (flush_accounts ch c t rest K Hc).
  - apply (swap_accounts ch c r p a i t rest K); [|done]. intros mc Hmc. cbn in Ha. unfold idents in Ha. rewrite list_lookup_fmap, Hmc in Ha. by injection Ha.
  - exact (record_accounts ch r p a i o t rest K Hc Hf).
  - exact (report_accounts ch r t rest Hch K Hc).
  - exact (collect_accounts ch t rest Hch K Hc).
  - exact (store_accounts ch s t rest K Hc).
Qed.
Lemma idents_insert l c mc mc' : l !! c = Some mc → mc_proxyID mc' = mc_proxyID mc → mc_applicationID mc' = mc_applicationID mc →
  idents (<[ c := mc' ]> l) = idents l.
Proof.
  intros H Hp Ha. unfold idents. rewrite list_fmap_insert. apply list_insert_id.
  rewrite list_lookup_fmap, H. cbn. by rewrite Hp, Ha.
Qed.
Lemma exec_addressed ch o t : addressed (tr_conns t) o → let '(more, t') := exec ch o t in
  idents (tr_conns t') = idents (tr_conns t) ∧ Forall (addressed (tr_conns t)) more.
Proof.
  intros Ha. destruct o as [c|c r p a i|r p a i o|r| |s]; open_exec.
  - destruct (tr_conns t !! c) as [mc|] eqn:E; [|done]. cbn. split; [by eapply idents_insert|]. constructor; [|done]. cbn. unfold idents.
    rewrite list_lookup_fmap, E. done.
  - destruct (tr_conns t !! c) as [mc|] eqn:E; [|by repeat constructor]. cbn. split; [by eapply idents_insert|]. destruct (_ && _); by repeat constructor.
  - by destruct r.
  - destruct r; [| |done]; (case_bool_decide; [done|]); unfold report; destruct (tr_attached _); cbn; (split; [done|]); try done; apply Forall_map; by apply Forall_true.
  - case_bool_decide; [done|]. cbn. split; [done|]. apply Forall_map. by apply Forall_true.
  - by destruct (ch_store ch).
Qed.
Lemma addressed_idents l l' o : (∀ c q, idents l !! c = Some q → idents l' !! c = Some q) → addressed l o → addressed l' o.
Proof. intros H. destruct o; cbn; auto. Qed.
Lemma all_addressed_idents l l' ths : (∀ c q, idents l !! c = Some q → idents l' !! c = Some q) →
  Forall (Forall (addressed l)) ths → Forall (Forall (addressed l')) ths.
Proof. intros H Hf. eapply Forall_impl; [exact Hf|]. intros th Hth. eapply Forall_impl; [exact Hth|]. intros o. by apply addressed_idents. Qed.

(** ** Every step keeps the invariant *)
Lemma spawn_inv ops t : Forall (λ o, op_stats o = [] ∧ addressed (tr_conns t) o) ops → inv t → inv (spawn ops t).
Proof.
  intros Hops [K A C S]. assert (thread_stats ops = []) as Hnil.
  { clear -Hops. induction Hops as [|o ops [Ho _] _ IH]; [done|]. unfold thread_stats in *. cbn. by rewrite Ho, IH. }
  assert (holdings (spawn ops t) = holdings t) as Hh.
  { unfold holdings, in_transit, spawn. cbn. rewrite flat_map_app. cbn. by rewrite Hnil, !app_nil_r. }
  split; [done| |by rewrite Hh|by rewrite Hh]. cbn. apply Forall_app. split; [done|]. constructor; [|done]. eapply Forall_impl; [exact Hops|]. by intros o [].
Qed.
Lemma thread_inv k ch o ops t : tr_threads t !! k = Some (o :: ops) → fair ch → fits (tr_moved t) → inv t →
  inv (let '(more, t') := exec ch o t in t' <| tr_threads := <[ k := more ++ ops ]> (tr_threads t') |>).
Proof.
  intros Hk Hch Hf [K A C S]. destruct (bag_insert thread_stats _ _ _ Hk) as (others & B1 & B2).
  assert (holdings t ≡ₚ op_stats o ++ stores t ++ thread_stats ops ++ others) as Hh.
  { rewrite holdings_split, B1. unfold thread_stats. cbn [flat_map]. solve_Permutation. }
  pose proof (proj1 (Forall_lookup _ _) A _ _ Hk) as [Ao Aops]%Forall_cons. rewrite <- S in Hf. rewrite Hh in Hf, C.
  pose proof (exec_accounts ch o t (thread_stats ops ++ others) Hch K Ao C Hf) as He. pose proof (exec_addressed ch o t Ao) as Hi.
  destruct (exec ch o t) as [more t']. destruct He as (K' & C' & S' & T' & M'). destruct Hi as [Hi Hmore].
  assert (holdings (t' <| tr_threads := <[ k := more ++ ops ]> (tr_threads t') |>) ≡ₚ (thread_stats more ++ stores t') ++ thread_stats ops ++ others) as Hh'.
  { rewrite holdings_split. cbn [tr_threads upd]. rewrite T', (B2 (more ++ ops)). unfold thread_stats. rewrite flat_map_app. unfold stores. cbn. solve_Permutation. }
  split; [done| | |].
  - cbn. rewrite T'. apply (all_addressed_idents (tr_conns t)); [by rewrite Hi|]. apply Forall_insert; [done|]. by apply Forall_app.
  - rewrite Hh'. counting.
  - rewrite Hh', S', <- app_assoc. cbn. rewrite M', <- S, Hh. done.
Qed.
(** A connection's counters after it carried [i] and [o] more bytes. *)
Lemma carried_inv c mc i o t : tr_conns t !! c = Some mc → (0 ≤ i)%Z → (0 ≤ o)%Z →
  let s := mkStats (mc_proxyID mc) (mc_applicationID mc) i o in fits (s :: tr_moved t) → inv t →
  inv (t <| tr_conns := <[ c := mc <| mc_bytesIn := i64 (mc_bytesIn mc + i) |> <| mc_bytesOut := i64 (mc_bytesOut mc + o) |> ]> (tr_conns t) |>
         <| tr_moved := s :: tr_moved t |>).
Proof.
  intros Hc Hi Ho s Hf [K A C S]. destruct (bag_insert conn_stats _ _ _ Hc) as (others & B1 & B2).
  set (rest := flat_map thread_stats (tr_threads t) ++ values (tr_gatekeeper t) ++ values (tr_server t) ++ values (tr_collector t) ++
    map row_stats (tr_rows t) ++ tr_lost t).
  assert (holdings t ≡ₚ conn_stats mc ++ others ++ rest) as Hh.
  { unfold holdings, in_transit, rest. rewrite B1. solve_Permutation. }
  assert (∃ x y, mc_bytesIn mc = x ∧ mc_bytesOut mc = y ∧ small (x + i) ∧ small (y + o)) as (x & y & Ex & Ey & Hx & Hy).
  { exists (mc_bytesIn mc), (mc_bytesOut mc). split; [done|]. split; [done|]. rewrite Hh in C. unfold conn_stats in C. cbn [app] in C.
    apply (entry_fits (s :: tr_moved t) (mc_proxyID mc) (mc_applicationID mc) _ _ (others ++ rest) Hf); [|counting|counting|counting].
    rewrite <- S, Hh. unfold s, conn_stats. cbn [app]. by rewrite merge_entries. }
  rewrite Ex, Ey, (i64_small _ Hx), (i64_small _ Hy).
  match goal with |- inv ?t' => assert (holdings t' ≡ₚ mkStats (mc_proxyID mc) (mc_applicationID mc) (x + i) (y + o) :: others ++ rest) as Hh' end.
  { unfold holdings, in_transit, rest. cbn. rewrite B2. cbn. solve_Permutation. }
  split; [done| |rewrite Hh'; rewrite Hh in C; unfold conn_stats, small in *; counting|].
  - cbn. apply (all_addressed_idents (tr_conns t)); [|done]. by rewrite (idents_insert _ _ _ _ Hc).
  - rewrite Hh'. cbn. rewrite <- S, Hh. unfold s, conn_stats. cbn [app]. rewrite Ex, Ey. by rewrite merge_entries.
Qed.
Lemma counter_small c mc t : tr_conns t !! c = Some mc → inv t → fits (tr_moved t) → small (mc_bytesIn mc) ∧ small (mc_bytesOut mc).
Proof.
  intros Hc [K A C S] Hf. destruct (bag_insert conn_stats _ _ _ Hc) as (others & B1 & _).
  assert (∃ rest, holdings t ≡ₚ conn_stats mc ++ rest) as [rest Hh].
  { eexists. unfold holdings, in_transit. rewrite B1, <- !app_assoc. reflexivity. }
  rewrite Hh in C. unfold conn_stats in *. cbn [app] in *.
  apply (entry_fits (tr_moved t) (mc_proxyID mc) (mc_applicationID mc) _ _ rest Hf); [|counting..]. by rewrite <- S, Hh.
Qed.
(** What was carried only grows. *)
Lemma fits_tail s l : (0 ≤ ts_BytesIn s)%Z → (0 ≤ ts_BytesOut s)%Z → fits (s :: l) → fits l.
Proof. intros Hi Ho Hf d p a. pose proof (Hf d p a) as H. cbn [tally] in H. destruct (of_key p a s), d; cbn in H; lia. Qed.
Lemma step_moved t t' : step t t' → fits (tr_moved t') → fits (tr_moved t).
Proof.
  destruct 1 as [r p a t|c n f t|c n f t|c t|p a i o t Hi Ho|c t|r t|t|k ch o ops t Hk Hch]; try done.
  - unfold TargetConn. by destruct (_ || _).
  - unfold Read. destruct (tr_conns t !! c); [|done]. destruct (Z.ltb_spec 0 n), f; cbn; try done; apply fits_tail; cbn; lia.
  - unfold Write_. destruct (tr_conns t !! c); [|done]. destruct (Z.ltb_spec 0 n), f; cbn; try done; apply fits_tail; cbn; lia.
  - unfold Close. destruct (tr_conns t !! c) as [mc|]; [|done]. by destruct (mc_done mc).
  - cbn. by apply fits_tail.
  - assert (tr_moved (snd (exec ch o t)) = tr_moved t) as Hm.
    { destruct o as [c|c r p a i|r p a i o|r| |s]; open_exec; [by destruct (_ !! c)|by destruct (_ !! c)|by destruct r| | |by destruct (ch_store ch)].
      - unfold report. destruct r; [case_bool_decide; [done|]; by destruct (tr_attached _)..|done].
      - by case_bool_decide. }
    destruct (exec ch o t) as [more t']. cbn in *. by rewrite Hm.
Qed.
(** The connection is closed, or there is a new one. *)
Lemma done_inv c mc t : tr_conns t !! c = Some mc → inv t → inv (t <| tr_conns := <[ c := mc <| mc_done := true |> ]> (tr_conns t) |>).
Proof.
  intros Hc [K A C S]. destruct (bag_insert conn_stats _ _ _ Hc) as (others & B1 & B2).
  match goal with |- inv ?t' => assert (holdings t' ≡ₚ holdings t) as Hh end.
  { unfold holdings, in_transit. cbn. by rewrite B1, B2. }
  split; [done| |by rewrite Hh|by rewrite Hh]. cbn. apply (all_addressed_idents (tr_conns t)); [|done]. by rewrite (idents_insert _ _ _ _ Hc).
Qed.
Lemma open_inv r p a t : inv t → inv (t <| tr_conns := tr_conns t ++ [mkConn r p a 0 0 false] |>).
Proof.
  intros [K A C S]. match goal with |- inv ?t' => assert (holdings t' ≡ₚ mkStats p a 0 0 :: holdings t) as Hh end.
  { unfold holdings, in_transit. cbn. rewrite flat_map_app. cbn. solve_Permutation. }
  split; [done| |rewrite Hh; counting|by rewrite Hh, empty_entry]. cbn. apply (all_addressed_idents (tr_conns t)); [|done].
  intros c q Hq. unfold idents in *. rewrite fmap_app. by apply lookup_app_l_Some.
Qed.
Lemma exchange_inv p a i o t : (0 ≤ i)%Z → (0 ≤ o)%Z → inv t → inv (exchange p a i o t).
Proof.
  intros Hi Ho [K A C S]. assert (holdings (exchange p a i o t) ≡ₚ mkStats p a i o :: holdings t) as Hh.
  { unfold holdings, in_transit, exchange, spawn. cbn. rewrite flat_map_app. cbn. solve_Permutation. }
  split; [done| |rewrite Hh; counting|by rewrite Hh, S]. cbn. apply Forall_app. split; [done|]. by repeat constructor.
Qed.
Lemma maybe_flush_inv c (f : bool) t : inv t → inv (if f then spawn [Flush c] t else t).
Proof. intros H. destruct f; [|done]. apply spawn_inv; [by repeat constructor|done]. Qed.
Lemma step_inv t t' : step t t' → fits (tr_moved t') → inv t → inv t'.
Proof.
  intros Hst Hf Hi. pose proof (step_moved _ _ Hst Hf) as Hf0.
  destruct Hst as [r p a t|c n f t|c n f t|c t|p a i o t H1 H2|c t|r t|t|k ch o ops t Hk Hch].
  - unfold TargetConn. destruct (_ || _); [done|by apply open_inv].
  - unfold Read in *. destruct (tr_conns t !! c) as [mc|] eqn:E; [|done]. apply maybe_flush_inv. destruct (Z.ltb_spec 0 n) as [Hn|_]; [|done].
    pose proof (carried_inv c mc 0 n t E ltac:(lia) ltac:(lia)) as H. destruct (counter_small _ _ _ E Hi Hf0) as [Hs _].
    rewrite Z.add_0_r, (i64_small _ Hs) in H. destruct f; by apply H.
  - unfold Write_ in *. destruct (tr_conns t !! c) as [mc|] eqn:E; [|done]. apply maybe_flush_inv. destruct (Z.ltb_spec 0 n) as [Hn|_]; [|done].
    pose proof (carried_inv c mc n 0 t E ltac:(lia) ltac:(lia)) as H. destruct (counter_small _ _ _ E Hi Hf0) as [_ Hs].
    rewrite Z.add_0_r, (i64_small _ Hs) in H. destruct f; by apply H.
  - unfold Close. destruct (tr_conns t !! c) as [mc|] eqn:E; [|done]. destruct (mc_done mc); [done|].
    apply spawn_inv; [|by apply done_inv]. constructor; [done|]. case_bool_decide; by repeat constructor.
  - by apply exchange_inv.
  - apply spawn_inv; [by repeat constructor|done].
  - apply spawn_inv; [by repeat constructor|done].
  - apply spawn_inv; [by repeat constructor|done].
  - by apply thread_inv.
Qed.

Lemma NewTraffic_inv attached : inv (NewTraffic attached).
Proof. split; [by split_and!|constructor|constructor|done]. Qed.
Lemma reachable_inv attached t : rtc step (NewTraffic attached) t → fits (tr_moved t) → inv t.
Proof.
  intros H. refine (rtc_ind_r (λ t, fits (tr_moved t) → inv t) _ _ _ t H); [intros _; apply NewTraffic_inv|].
  clear. intros t t' _ Hst IH Hf. apply (step_inv _ _ Hst Hf), IH. by apply (step_moved _ _ Hst).
Qed.

(** ** Goroutines finish

    The weight of a state: what its goroutines have still to do, and what the
    entries of the maps will make them do. *)
Definition weight_op (o : op) : nat :=
  match o with
  | Store _ => 1 | Record_ RCollector _ _ _ _ => 3 | Record_ _ _ _ _ _ => 5 | SwapOut _ _ _ _ _ => 6 | Flush _ => 7 | Report _ => 1 | Collect => 1
  end.
Definition weight_ops (ops : list op) : nat := sum_list_with weight_op ops.
Definition weight_maps (t : Traffic) : nat := 4 * size (tr_gatekeeper t) + 4 * size (tr_server t) + 2 * size (tr_collector t).
Definition weight (t : Traffic) : nat := weight_maps t + sum_list_with weight_ops (tr_threads t).
Inductive thread_step : Traffic → Traffic → Prop :=
| goes k ch o ops t : tr_threads t !! k = Some (o :: ops) → fair ch →
    thread_step t (let '(more, t') := exec ch o t in t' <| tr_threads := <[ k := more ++ ops ]> (tr_threads t') |>).
Lemma size_record p a i o m : size (RecordTraffic p a i o m) ≤ S (size m).
Proof. unfold RecordTraffic. rewrite map_size_insert. by destruct (m !! _); cbn; lia. Qed.
Lemma size_record' p a i o m : size (recordTraffic p a i o m) ≤ S (size m).
Proof. unfold recordTraffic. destruct (_ && _); [lia|apply size_record]. Qed.
Lemma weight_map (f : trafficStats → op) n l : (∀ s, weight_op (f s) = n) → weight_ops (map f l) = n * length l.
Proof. intros Hf. unfold weight_ops. induction l as [|s l IH]; cbn; [lia|]. rewrite Hf, IH. lia. Qed.
Lemma length_values (m : Stats) : length (values m) = size m.
Proof. unfold values. by rewrite length_fmap, length_map_to_list. Qed.
Lemma exec_weight ch o t : fair ch → let '(more, t') := exec ch o t in
  weight_ops more + weight_maps t' < weight_op o + weight_maps t ∧ tr_threads t' = tr_threads t.
Proof.
  intros Hch. assert (∀ m : Stats, length (ch_order ch (values m)) = size m) as Hl by (intros m; by rewrite (Hch _), length_values).
  destruct o as [c|c r p a i|r p a i o|r| |s]; open_exec.
  - destruct (tr_conns t !! c); cbn; (split; [unfold weight_maps; cbn; lia|done]).
  - destruct (tr_conns t !! c); [destruct (_ && _)|]; destruct r; cbn; (split; [unfold weight_maps; cbn; lia|done]).
  - pose proof (size_record p a i o (tr_collector t)). pose proof (size_record' p a i o (tr_gatekeeper t)). pose proof (size_record' p a i o (tr_server t)).
    destruct r; cbn; (split; [unfold weight_maps; cbn; lia|done]).
  - destruct r; cbn; [| |split; [unfold weight_maps; cbn; lia|done]]; (case_bool_decide; [split; [cbn; lia|done]|]); unfold report; destruct (tr_attached _); cbn;
      (split; [|done]); rewrite ?(weight_map _ 3), ?Hl by done; unfold weight_maps; cbn; rewrite map_size_empty; lia.
  - case_bool_decide; [split; [cbn; lia|done]|]. cbn. split; [|done]. rewrite (weight_map _ 1), Hl by done. unfold weight_maps; cbn; rewrite map_size_empty; lia.
  - destruct (ch_store ch); cbn; (split; [unfold weight_maps; cbn; lia|done]).
Qed.
Lemma sum_insert {A} (f : A → nat) l k x y : l !! k = Some x → sum_list_with f (<[ k := y ]> l) + f x = sum_list_with f l + f y.
Proof. revert k. induction l as [|z l IH]; intros [|k] H; [done|done|injection H as ->; cbn; lia|]. specialize (IH k H). change (<[ S k := y ]> (z :: l)) with (z :: <[ k := y ]> l). cbn [sum_list_with]. lia. Qed.
Lemma thread_step_weight t t' : thread_step t t' → weight t' < weight t.
Proof.
  intros [k ch o ops t0 Hk Hch]. pose proof (exec_weight ch o t0 Hch) as H. destruct (exec ch o t0) as [more t1]. destruct H as [H T].
  unfold weight. cbn. rewrite T. pose proof (sum_insert weight_ops _ _ _ (more ++ ops) Hk) as Hs.
  assert (weight_ops (more ++ ops) = weight_ops more + weight_ops ops) as Ha by (unfold weight_ops; apply sum_list_with_app).
  assert (weight_ops (o :: ops) = weight_op o + weight_ops ops) as Ho by done.
  unfold weight_maps in *. cbn in *. lia.
Qed.

(** C25. Every byte is accounted for.  Whatever the interleaving of reads,
    writes, closings, timers, reports and stores, and in whatever order maps
    are walked, the bytes the connections of an access and its application
    have carried in one direction are those still on their way (connection
    counters, goroutines, the maps of the two data planes and of the
    collector), those in the rows of traffic_metrics and those discarded
    (rows the database refused, reports without a collector), none counted
    twice and none negative, as long as no total reaches 2^63. *)
Theorem traffic_conserved attached t : rtc step (NewTraffic attached) t → fits (tr_moved t) → ∀ d p a,
  let rows := map row_stats (tr_rows t) in
  tally d p a (tr_moved t) = (tally d p a (in_transit t) + tally d p a rows + tally d p a (tr_lost t))%Z ∧
  (0 ≤ tally d p a (in_transit t) ∧ 0 ≤ tally d p a rows ∧ 0 ≤ tally d p a (tr_lost t))%Z.
Proof.
  intros Hr Hf d p a. destruct (reachable_inv attached t Hr Hf) as [_ _ C S]. cbn zeta. rewrite <- (same_tally _ _ S).
  unfold holdings in *. rewrite !tally_app, Z.add_assoc. split; [done|]. rewrite !counted_app in C. destruct C as (? & ? & ?).
  split_and!; by apply tally_nonneg.
Qed.

(** The goroutines finish.  Left to themselves, the goroutines that move
    the counters take a bounded number of steps, whatever order they run in
    and whatever the database answers: at most the weight of the state; and
    while one of them has something to do, a step is possible, so they stop
    only with nothing left to do. *)
Theorem accounting_terminates t n t' : nsteps thread_step n t t' →
  n + weight t' ≤ weight t ∧ ((∀ t'', ¬ thread_step t' t'') ↔ Forall (λ ops, ops = []) (tr_threads t')).
Proof.
  intros H. split.
  - induction H as [|n t t1 t' Hst _ IH]; [lia|]. apply thread_step_weight in Hst. lia.
  - clear. split.
    + intros Hstuck. apply Forall_forall. intros ops [k Hk]%list_elem_of_lookup. destruct ops as [|o ops]; [done|].
      destruct (Hstuck _ (goes k (mkChoice id 0%Z (Ok tt)) o ops t' Hk (λ l, reflexivity l))).
    + intros Hidle t'' Hst. revert Hidle. destruct Hst as [k ch o ops t0 Hk _]. intros Hidle. by apply (proj1 (Forall_lookup _ _) Hidle) in Hk.
Qed.

(** *** Witnesses: one connection that carried 5 bytes, flushed and reported *)
Definition wired : Traffic := Write_ 0 5 true (TargetConn RGatekeeper 1 2 (NewTraffic true)).
Definition ideal : Choice := mkChoice id 0%Z (Ok tt).
Definition run (k : nat) (t : Traffic) : Traffic :=
  match tr_threads t !! k with
  | Some (o :: ops) => let '(more, t') := exec ideal o t in t' <| tr_threads := <[ k := more ++ ops ]> (tr_threads t') |>
  | _ => t
  end.
Lemma run_step k t : match tr_threads t !! k with Some (_ :: _) => thread_step t (run k t) | _ => True end.
Proof. unfold run. destruct (tr_threads t !! k) as [[|o ops]|] eqn:E; [done| |done]. apply (goes k ideal o ops t E). by intros l. Qed.
Lemma thread_step_step t t' : thread_step t t' → step t t'.
Proof. intros [k ch o ops t0 Hk Hch]. by apply step_thread. Qed.
Definition half_flushed : Traffic := run 0 wired.
Lemma half_flushed_reachable : rtc step (NewTraffic true) half_flushed.
Proof.
  eapply rtc_l; [apply (step_open RGatekeeper 1 2)|]. eapply rtc_l; [apply (step_write 0 5 true)|].
  eapply rtc_l; [|apply rtc_refl]. apply thread_step_step. exact (run_step 0 wired).
Qed.
Lemma half_flushed_fits : fits (tr_moved half_flushed).
Proof.
  intros d p a. change (tr_moved half_flushed) with [mkStats 1 2 5 0]. cbn [tally]. destruct (of_key _ _ _), d; cbn; lia.
Qed.
Lemma traffic_conserved_witness : tally In_ 1 2 (in_transit half_flushed) = 5%Z ∧ tally In_ 1 2 (tr_moved half_flushed) = 5%Z.
Proof.
  destruct (traffic_conserved true half_flushed half_flushed_reachable half_flushed_fits In_ 1 2) as [H _].
  split; [|by vm_compute]. transitivity (tally In_ 1 2 (tr_moved half_flushed)); [|by vm_compute]. rewrite H. cbn [tr_rows tr_lost half_flushed]. 
  by vm_compute.
Defined.
Lemma accounting_terminates_witness : 3 + weight (run 0 (run 0 half_flushed)) ≤ weight wired ∧ ∀ t'', ¬ thread_step (run 0 (run 0 half_flushed)) t''.
Proof.
  assert (nsteps thread_step 3 wired (run 0 (run 0 half_flushed))) as Hn.
  { eapply nsteps_l; [exact (run_step 0 wired)|]. eapply nsteps_l; [exact (run_step 0 half_flushed)|].
    eapply nsteps_l; [exact (run_step 0 (run 0 half_flushed))|]. apply nsteps_O. }
  destruct (accounting_terminates wired 3 _ Hn) as [Hw Hs]. split; [exact Hw|]. apply Hs. by repeat constructor.
Defined.
