(* ===== verification/ControlDao.v ===== *)
(** * repo/model and repo/dao: the tables of the control plane

    [model_proxy.go], [model_application.go], [model_edge.go],
    [model_device.go], [model_edge_device.go], [model_access_key.go],
    [model_task.go], [model_proxy_firewall_rule.go] and the resource relations
    of [model_organization.go]: the rows, without the columns this code never
    reads.  [dao_proxy.go], [dao_application.go], [dao_edge.go],
    [dao_device.go], [dao_edge_device.go], [dao_access_key.go], [dao_task.go],
    [dao_proxy_firewall_rule.go]: the queries the control plane makes, over
    GORM as a parameter ([CpGorm]) with its laws ([CpGormLaws]).  The tables
    hold the rows that queries see; rows deleted softly are not among them.
    The saved credentials and host keys of an access are four tables of which
    only the access matters here. *)

From S2P Require Import Prelude ToolTypes IamDao.

Record Access := mkAccess {
  x_ID : N; x_ApplicationID : N; x_Name : string; x_Port : Z; x_Status : Z; x_Description : string; x_AccessProtocol : string }.
#[export] Instance Access_eta : Eta Access := {| eta := λ r, mkAccess (x_ID r) (x_ApplicationID r) (x_Name r) (x_Port r) (x_Status r) (x_Description r) (x_AccessProtocol r) |}.
Definition ProxyStatusRunning : Z := 1.
Definition ProxyStatusStopped : Z := 2.
Record Application := mkApplication {
  a_ID : N; a_EdgeIDs : list N; a_DeviceID : N; a_Name : string; a_Description : string; a_IP : string; a_Port : Z; a_ApplicationType : string }.
#[export] Instance Application_eta : Eta Application := {| eta := λ r, mkApplication (a_ID r) (a_EdgeIDs r) (a_DeviceID r) (a_Name r) (a_Description r) (a_IP r) (a_Port r) (a_ApplicationType r) |}.
Record Edge := mkEdge { e_ID : N; e_Name : string; e_Status : Z; e_Online : Z; e_Description : string }.
#[export] Instance Edge_eta : Eta Edge := {| eta := λ r, mkEdge (e_ID r) (e_Name r) (e_Status r) (e_Online r) (e_Description r) |}.
Definition EdgeStatusRunning : Z := 1.
Definition EdgeStatusStopped : Z := 2.
Definition EdgeOnlineStatusOnline : Z := 1.
Definition EdgeOnlineStatusOffline : Z := 2.
Record Device := mkDevice { d_ID : N; d_Name : string; d_Description : string; d_Fingerprint : string; d_HostName : string }.
#[export] Instance Device_eta : Eta Device := {| eta := λ r, mkDevice (d_ID r) (d_Name r) (d_Description r) (d_Fingerprint r) (d_HostName r) |}.
Record EdgeDevice := mkEdgeDevice { ed_ID : N; ed_EdgeID : N; ed_DeviceID : N; ed_Type : Z }.
Definition EdgeDeviceRelationHost : Z := 1.
Definition EdgeDeviceRelationDiscovered : Z := 2.
Record EthernetInterface := mkInterface { i_ID : N; i_DeviceID : N; i_Name : string; i_MAC : string; i_IP : string; i_Netmask : string }.
#[export] Instance Interface_eta : Eta EthernetInterface := {| eta := λ r, mkInterface (i_ID r) (i_DeviceID r) (i_Name r) (i_MAC r) (i_IP r) (i_Netmask r) |}.
Record AccessKey := mkAccessKey { ak_ID : N; ak_EdgeID : N; ak_AccessKey : string; ak_SecretKey : string }.
Record ScanParams := mkScanParams { sp_Nets : list string; sp_Port : Z; sp_Protocol : string }.
Record ScannedApplication := mkScanned { sc_IP : string; sc_Port : Z; sc_Protocol : string }.
Record Task := mkTask { tk_ID : N; tk_EdgeID : N; tk_Status : Z; tk_Params : ScanParams; tk_Result : list ScannedApplication; tk_Error : string }.
#[export] Instance Task_eta : Eta Task := {| eta := λ r, mkTask (tk_ID r) (tk_EdgeID r) (tk_Status r) (tk_Params r) (tk_Result r) (tk_Error r) |}.
Definition TaskStatusPending : Z := 1.
Definition TaskStatusRunning : Z := 2.
Definition TaskStatusCompleted : Z := 3.
Definition TaskStatusFailed : Z := 4.
Record ProxyFirewallRule := mkRule { f_ID : N; f_ProxyID : N; f_AllowedCIDRs : list string }.
#[export] Instance Rule_eta : Eta ProxyFirewallRule := {| eta := λ r, mkRule (f_ID r) (f_ProxyID r) (f_AllowedCIDRs r) |}.
Record Secret := mkSecret { s_ID : N; s_ProxyID : N }.
Inductive secrets := WebSSHHostKey | WebSSHCredential | WebDesktopCredential | WebDataCredential.
#[export] Instance secrets_eq_dec : EqDecision secrets.
Proof. solve_decision. Defined.
Record IAMResourceRelation := mkRelation {
  r_ID : N; r_ResourceType : string; r_ResourceID : N; r_Relation : string; r_SubjectType : string; r_SubjectID : N; r_CreatedBy : N }.

(** ** The tables *)
Inductive tag :=
| TAccess | TApplication | TEdge | TDevice | TEdgeDevice | TInterface | TAccessKey | TTask | TRule | TRelation | TSecret (k : secrets).
#[export] Instance tag_eq_dec : EqDecision tag.
Proof. solve_decision. Defined.
Definition row (t : tag) : Type :=
  match t with
  | TAccess => Access | TApplication => Application | TEdge => Edge | TDevice => Device | TEdgeDevice => EdgeDevice | TInterface => EthernetInterface
  | TAccessKey => AccessKey | TTask => Task | TRule => ProxyFirewallRule | TRelation => IAMResourceRelation | TSecret _ => Secret
  end.
Definition id_of (t : tag) : row t → N :=
  match t with
  | TAccess => x_ID | TApplication => a_ID | TEdge => e_ID | TDevice => d_ID | TEdgeDevice => ed_ID | TInterface => i_ID
  | TAccessKey => ak_ID | TTask => tk_ID | TRule => f_ID | TRelation => r_ID | TSecret _ => s_ID
  end.
Definition numbered (t : tag) (id : N) : row t → row t :=
  match t with
  | TAccess => λ r, r <| x_ID := id |>
  | TApplication => λ r, r <| a_ID := id |>
  | TEdge => λ r, r <| e_ID := id |>
  | TDevice => λ r, r <| d_ID := id |>
  | TEdgeDevice => λ r, mkEdgeDevice id (ed_EdgeID r) (ed_DeviceID r) (ed_Type r)
  | TInterface => λ r, r <| i_ID := id |>
  | TAccessKey => λ r, mkAccessKey id (ak_EdgeID r) (ak_AccessKey r) (ak_SecretKey r)
  | TTask => λ r, r <| tk_ID := id |>
  | TRule => λ r, r <| f_ID := id |>
  | TRelation => λ r, mkRelation id (r_ResourceType r) (r_ResourceID r) (r_Relation r) (r_SubjectType r) (r_SubjectID r) (r_CreatedBy r)
  | TSecret _ => λ r, mkSecret id (s_ProxyID r)
  end.
Definition CpTables := ∀ t : tag, gmap N (row t).

(** ** GORM

    [Create(&row)], which fills in the number; [Where(p).First(&row)];
    [Where(p).Find(&rows)], in some order; [Where(p).Delete];
    [Where(p).Updates]; the upsert of a resource relation; the device of an
    address, which joins the interfaces, deleted ones included; and
    transactions. *)
Class CpGorm (DB : Type) := {
  Create_ (t : tag) : row t → Op DB (row t);
  First_ (t : tag) : (row t → bool) → Op DB (row t);
  Find_ (t : tag) : (row t → bool) → Op DB (list (row t));
  Delete_ (t : tag) : (row t → bool) → Op DB unit;
  Updates_ (t : tag) : (row t → bool) → (row t → row t) → Op DB unit;
  OnConflictCreate_ : IAMResourceRelation → Op DB unit;
  JoinsFirst_ : string → Op DB Device;
  Begin_ : DB → DB;
  Commit_ : Op DB unit;
  Rollback_ : DB → DB
}.

(** What the code relies on: a call that fails has changed nothing, and one
    that succeeds has done what it says to its table and nothing else. *)
Definition only (t : tag) (m : gmap N (row t)) (T T' : CpTables) : Prop := T' t = m ∧ ∀ t', t' ≠ t → T' t' = T t'.
Definition same_tables (T T' : CpTables) : Prop := ∀ t, T' t = T t.
Definition without {t} (p : row t → bool) (m : gmap N (row t)) : gmap N (row t) := omap (λ r, if p r then None else Some r) m.
Definition updated {t} (p : row t → bool) (f : row t → row t) (m : gmap N (row t)) : gmap N (row t) := (λ r, if p r then f r else r) <$> m.
Class CpGormLaws (DB : Type) `{!CpGorm DB} := {
  tbl : DB → CpTables;
  saved_ : DB → list CpTables;
  tbl_keyed s t k r : tbl s t !! k = Some r → id_of t r = k ∧ k ≠ 0%N;
  Create_law_ t r s x s' : Create_ t r s = (x, s') → saved_ s' = saved_ s ∧
    match x with
    | Ok r' => ∃ id, id ≠ 0%N ∧ tbl s t !! id = None ∧ r' = numbered t id r ∧ only t (<[ id := r' ]> (tbl s t)) (tbl s) (tbl s')
    | Err _ => same_tables (tbl s) (tbl s')
    end;
  First_law_ t p s x s' : First_ t p s = (x, s') → saved_ s' = saved_ s ∧ same_tables (tbl s) (tbl s') ∧
    match x with
    | Ok r => tbl s t !! id_of t r = Some r ∧ p r = true
    | Err e => Is e ErrRecordNotFound = true → ∀ k r, tbl s t !! k = Some r → p r = false
    end;
  Find_law_ t p s x s' : Find_ t p s = (x, s') → saved_ s' = saved_ s ∧ same_tables (tbl s) (tbl s') ∧
    match x with
    | Ok l => NoDup l ∧ ∀ r, r ∈ l ↔ tbl s t !! id_of t r = Some r ∧ p r = true
    | Err _ => True
    end;
  Delete_law_ t p s x s' : Delete_ t p s = (x, s') → saved_ s' = saved_ s ∧
    match x with Ok _ => only t (without p (tbl s t)) (tbl s) (tbl s') | Err _ => same_tables (tbl s) (tbl s') end;
  Updates_law_ t p f s x s' : (∀ r, p r = true → id_of t (f r) = id_of t r) → Updates_ t p f s = (x, s') → saved_ s' = saved_ s ∧
    match x with Ok _ => only t (updated p f (tbl s t)) (tbl s) (tbl s') | Err _ => same_tables (tbl s) (tbl s') end;
  OnConflict_law_ r s x s' : OnConflictCreate_ r s = (x, s') → saved_ s' = saved_ s ∧ ∀ t, t ≠ TRelation → tbl s' t = tbl s t;
  Joins_law_ ip s x s' : JoinsFirst_ ip s = (x, s') → saved_ s' = saved_ s ∧ same_tables (tbl s) (tbl s') ∧
    match x with Ok d => tbl s TDevice !! d_ID d = Some d | Err _ => True end;
  Begin_law_ s : same_tables (tbl s) (tbl (Begin_ s)) ∧ saved_ (Begin_ s) = tbl s :: saved_ s;
  Commit_law_ T Ts s x s' : saved_ s = T :: Ts → Commit_ s = (x, s') → saved_ s' = Ts ∧
    match x with Ok _ => same_tables (tbl s) (tbl s') | Err _ => same_tables T (tbl s') end;
  Rollback_law_ T Ts s : saved_ s = T :: Ts → same_tables T (tbl (Rollback_ s)) ∧ saved_ (Rollback_ s) = Ts
}.

(** ** The queries *)
Module CpDao.
Section Queries.
Context {DB : Type} {i_cp : CpGorm DB}.

(** errors.Is(err, gorm.ErrRecordNotFound) answered with a nil row *)
Definition or_none {A} (m : Op DB A) : Op DB (option A) := λ s,
  match m s with
  | (Ok a, s') => (Ok (Some a), s')
  | (Err e, s') => if Is e ErrRecordNotFound then (Ok None, s') else (Err e, s')
  end.

Definition CreateProxy (proxy : Access) : Op DB Access := Create_ TAccess proxy.
Definition GetProxyByID (id : N) : Op DB Access := First_ TAccess (λ r, bool_decide (x_ID r = id)).
(** ListProxies with ApplicationIDs, which filter unless they are empty *)
Definition ListProxies (applicationIDs : list N) : Op DB (list Access) :=
  Find_ TAccess (λ r, match applicationIDs with [] => true | _ => bool_decide (x_ApplicationID r ∈ applicationIDs) end).
Definition proxy_updates (proxy r : Access) : Access :=
  let r := if bool_decide (x_Name proxy = "") then r else r <| x_Name := x_Name proxy |> in
  let r := if Z.eqb (x_Status proxy) 0 then r else r <| x_Status := x_Status proxy |> in
  let r := if bool_decide (x_Description proxy = "") then r else r <| x_Description := x_Description proxy |> in
  r <| x_Port := x_Port proxy |> <| x_AccessProtocol := x_AccessProtocol proxy |>.
Definition UpdateProxy (proxy : Access) : Op DB unit := Updates_ TAccess (λ r, bool_decide (x_ID r = x_ID proxy)) (proxy_updates proxy).
Definition DeleteSecrets (k : secrets) (proxyID : N) : Op DB unit := Delete_ (TSecret k) (λ r, bool_decide (s_ProxyID r = proxyID)).
Definition DeleteProxy (id : N) : Op DB unit :=
  DeleteSecrets WebSSHHostKey id ;; DeleteSecrets WebSSHCredential id ;; DeleteSecrets WebDesktopCredential id ;; DeleteSecrets WebDataCredential id ;;
  Delete_ TAccess (λ r, bool_decide (x_ID r = id)).

Definition CreateApplication (a : Application) : Op DB Application := Create_ TApplication a.
Definition GetApplicationByID (id : N) : Op DB Application := First_ TApplication (λ r, bool_decide (a_ID r = id)).
(** Save, of a row that was read before *)
Definition UpdateApplication (a : Application) : Op DB unit := Updates_ TApplication (λ r, bool_decide (a_ID r = a_ID a)) (λ _, a).
Definition DeleteApplication (id : N) : Op DB unit := Delete_ TApplication (λ r, bool_decide (a_ID r = id)).
(** ListApplications with DeviceIDs, which filter unless they are empty *)
Definition ListApplications (deviceIDs : list N) : Op DB (list Application) :=
  Find_ TApplication (λ r, match deviceIDs with [] => true | _ => bool_decide (a_DeviceID r ∈ deviceIDs) end).

Definition CreateEdge (e : Edge) : Op DB Edge := Create_ TEdge e.
Definition GetEdge (id : N) : Op DB Edge := First_ TEdge (λ r, bool_decide (e_ID r = id)).
Definition edge_updates (edge r : Edge) : Edge :=
  let r := if bool_decide (e_Name edge = "") then r else r <| e_Name := e_Name edge |> in
  let r := if bool_decide (e_Description edge = "") then r else r <| e_Description := e_Description edge |> in
  let r := if Z.eqb (e_Status edge) 0 then r else r <| e_Status := e_Status edge |> in
  if Z.eqb (e_Online edge) 0 then r else r <| e_Online := e_Online edge |>.
Definition UpdateEdge (edge : Edge) : Op DB unit :=
  if bool_decide (e_Name edge = "") && bool_decide (e_Description edge = "") && Z.eqb (e_Status edge) 0 && Z.eqb (e_Online edge) 0 then ret tt
  else Updates_ TEdge (λ r, bool_decide (e_ID r = e_ID edge)) (edge_updates edge).
Definition UpdateEdgeOnlineStatus (id : N) (online : Z) : Op DB unit := Updates_ TEdge (λ r, bool_decide (e_ID r = id)) (λ r, r <| e_Online := online |>).
Definition DeleteEdge (id : N) : Op DB unit := Delete_ TEdge (λ r, bool_decide (e_ID r = id)).

Definition of_type (relationType : option Z) (r : EdgeDevice) : bool := match relationType with Some t => Z.eqb (ed_Type r) t | None => true end.
Definition CreateEdgeDevice (r : EdgeDevice) : Op DB EdgeDevice := Create_ TEdgeDevice r.
Definition GetEdgeDevice (edgeID deviceID : N) (relationType : Z) : Op DB (option EdgeDevice) :=
  or_none (First_ TEdgeDevice (λ r, bool_decide (ed_EdgeID r = edgeID) && bool_decide (ed_DeviceID r = deviceID) && Z.eqb (ed_Type r) relationType)).
Definition GetEdgeDevicesByEdgeID (edgeID : N) (relationType : option Z) : Op DB (list EdgeDevice) :=
  Find_ TEdgeDevice (λ r, bool_decide (ed_EdgeID r = edgeID) && of_type relationType r).
Definition GetEdgeDevicesByDeviceID (deviceID : N) (relationType : option Z) : Op DB (list EdgeDevice) :=
  Find_ TEdgeDevice (λ r, bool_decide (ed_DeviceID r = deviceID) && of_type relationType r).
Definition DeleteEdgeDevicesByEdgeID (edgeID : N) (relationType : option Z) : Op DB unit :=
  Delete_ TEdgeDevice (λ r, bool_decide (ed_EdgeID r = edgeID) && of_type relationType r).
Definition GetEthernetInterfacesByDeviceID (id : N) : Op DB (list EthernetInterface) := Find_ TInterface (λ r, bool_decide (i_DeviceID r = id)).
(** The device with its interfaces *)
Definition GetDeviceByID (id : N) : Op DB (Device * list EthernetInterface) :=
  let! device := First_ TDevice (λ r, bool_decide (d_ID r = id)) in
  let! interfaces := GetEthernetInterfacesByDeviceID id in ret (device, interfaces).
Definition GetDeviceByIP (ip : string) : Op DB Device := JoinsFirst_ ip.
Definition GetDeviceByFingerprint (fingerprint : string) : Op DB Device := First_ TDevice (λ r, bool_decide (d_Fingerprint r = fingerprint)).
Definition CreateDevice (d : Device) : Op DB Device := Create_ TDevice d.
Definition device_updates (d r : Device) : Device :=
  let r := if bool_decide (d_Name d = "") then r else r <| d_Name := d_Name d |> in
  let r := if bool_decide (d_Description d = "") then r else r <| d_Description := d_Description d |> in
  if bool_decide (d_HostName d = "") then r else r <| d_HostName := d_HostName d |>.
Definition UpdateDevice (d : Device) : Op DB unit := Updates_ TDevice (λ r, bool_decide (d_ID r = d_ID d)) (device_updates d).
(** The heartbeat and the usage are columns nothing here reads. *)
Definition UpdateDeviceHeartbeat (id : N) : Op DB unit := Updates_ TDevice (λ r, bool_decide (d_ID r = id)) (λ r, r).
Definition UpdateDeviceUsage (id : N) : Op DB unit := Updates_ TDevice (λ r, bool_decide (d_ID r = id)) (λ r, r).
Definition CreateEthernetInterface (i : EthernetInterface) : Op DB EthernetInterface := Create_ TInterface i.
Definition GetEthernetInterface (deviceID : N) (ip netmask name mac : string) : Op DB EthernetInterface :=
  First_ TInterface (λ r, bool_decide (i_DeviceID r = deviceID) && bool_decide (i_IP r = ip) && bool_decide (i_Netmask r = netmask) &&
    bool_decide (i_Name r = name) && bool_decide (i_MAC r = mac)).
Definition UpdateEthernetInterface (i : EthernetInterface) : Op DB unit :=
  Updates_ TInterface (λ r, bool_decide (i_ID r = i_ID i))
    (λ r, r <| i_Name := i_Name i |> <| i_MAC := i_MAC i |> <| i_IP := i_IP i |> <| i_Netmask := i_Netmask i |>).
Definition DeleteEthernetInterface (id : N) : Op DB unit := Delete_ TInterface (λ r, bool_decide (i_ID r = id)).
(** The statements of a transaction: the first that fails rolls it back. *)
Definition in_tx (m : Op DB unit) (k : Op DB unit) : Op DB unit := λ s,
  match m s with
  | (Ok _, s') => k s'
  | (Err e, s') => (Err e, Rollback_ s')
  end.
Definition DeleteDevice (id : N) : Op DB unit := λ s,
  in_tx (Delete_ TInterface (λ r, bool_decide (i_DeviceID r = id)))
    (in_tx (Delete_ TEdgeDevice (λ r, bool_decide (ed_DeviceID r = id)))
       (in_tx (Delete_ TDevice (λ r, bool_decide (d_ID r = id))) Commit_)) (Begin_ s).

Definition CreateAccessKey (k : AccessKey) : Op DB AccessKey := Create_ TAccessKey k.
Definition GetEdgeByAccessKey (accessKey : string) : Op DB (AccessKey * Edge) :=
  let! ak := First_ TAccessKey (λ r, bool_decide (ak_AccessKey r = accessKey)) in
  let! edge := GetEdge (ak_EdgeID ak) in ret (ak, edge).
Definition DeleteAccessKeysByEdgeID (edgeID : N) : Op DB unit := Delete_ TAccessKey (λ r, bool_decide (ak_EdgeID r = edgeID)).
(** ListTasks by status and, unless it is 0, by edge *)
Definition ListTasks (edgeID : N) (status : list Z) : Op DB (list Task) :=
  Find_ TTask (λ r, (match status with [] => true | _ => bool_decide (tk_Status r ∈ status) end) && (N.eqb edgeID 0 || bool_decide (tk_EdgeID r = edgeID))).
Definition CreateTask (t : Task) : Op DB Task := Create_ TTask t.
Definition GetTask (id : N) : Op DB Task := First_ TTask (λ r, bool_decide (tk_ID r = id)).
Definition GetTaskByEdgeID (edgeID : N) : Op DB Task :=
  First_ TTask (λ r, bool_decide (tk_EdgeID r = edgeID) && (Z.eqb (tk_Status r) TaskStatusPending || Z.eqb (tk_Status r) TaskStatusRunning)).
Definition UpdateTaskResult (taskID : N) (status : Z) (result : list ScannedApplication) : Op DB unit :=
  Updates_ TTask (λ r, bool_decide (tk_ID r = taskID)) (λ r, r <| tk_Result := result |> <| tk_Status := status |>).
Definition UpdateTaskError (taskID : N) (err : string) : Op DB unit :=
  Updates_ TTask (λ r, bool_decide (tk_ID r = taskID)) (λ r, r <| tk_Error := err |> <| tk_Status := TaskStatusFailed |>).

Definition GetFirewallRuleByProxyID (proxyID : N) : Op DB (option ProxyFirewallRule) :=
  or_none (First_ TRule (λ r, bool_decide (f_ProxyID r = proxyID))).
(** Rules are only ever removed for good, so Unscoped sees what a query sees. *)
Definition UpsertFirewallRule (proxyID : N) (cidrs : list string) : Op DB unit :=
  let! existing := or_none (First_ TRule (λ r, bool_decide (f_ProxyID r = proxyID))) in
  match existing with
  | None => Create_ TRule (mkRule 0 proxyID cidrs) ;; ret tt
  | Some rule => Updates_ TRule (λ r, bool_decide (f_ID r = f_ID rule)) (λ r, r <| f_AllowedCIDRs := cidrs |>)
  end.
Definition DeleteFirewallRuleByProxyID (proxyID : N) : Op DB unit := Delete_ TRule (λ r, bool_decide (f_ProxyID r = proxyID)).
Definition ListAllFirewallRules : Op DB (list ProxyFirewallRule) := Find_ TRule (λ _, true).

Definition UpsertIAMResourceRelation (relation : IAMResourceRelation) : Op DB unit := OnConflictCreate_ relation.
Definition ListIAMResourceIDsForSubject (resourceType subjectType : string) (subjectID : N) : Op DB (list N) :=
  let! relations := Find_ TRelation (λ r, bool_decide (r_ResourceType r = resourceType) && bool_decide (r_SubjectType r = subjectType) &&
    bool_decide (r_SubjectID r = subjectID)) in
  ret (merge_sort N.le (remove_dups (map (r_ResourceID : IAMResourceRelation → N) relations))).
Definition ListIAMResourceRelations (resourceType : string) (resourceID : N) : Op DB (list IAMResourceRelation) :=
  Find_ TRelation (λ r, bool_decide (r_ResourceType r = resourceType) && bool_decide (r_ResourceID r = resourceID)).
Definition DeleteIAMResourceRelations (resourceType : string) (resourceID : N) : Op DB unit :=
  Delete_ TRelation (λ r, bool_decide (r_ResourceType r = resourceType) && bool_decide (r_ResourceID r = resourceID)).
End Queries.
End CpDao.
