(* ===== verification/ControlPlane.v ===== *)
(** * manager/controlplane: accesses, their listeners and their rules

    [lifecycle.go], [proxy.go], [access_protocol.go], [firewall.go],
    [resource_scope.go], the stopping, starting and deleting of [edge.go],
    [application.go] and [device.go].  The state is the database, the data
    planes with their firewall ([EntryPlanes]) and the machine.  The proxy
    manager, the firewall manager, the repository and the frontier are
    registered before the first call, so the tests for nil are left out.
    Handlers return what they show of the row with its effective status; the
    messages of errors are the code's, a status and a reason beside them.
    A panic of the data plane ends the call: it is an error no caller can
    handle ([panicked]). *)

From S2P Require Import Prelude ToolTypes IamDao ControlDao NetAddr Firewall EntryPlanes.

(** What the machine answers: the environment of a call on the data planes,
    the free port a probe finds, KickEdge, the random part of a name, the scan
    task sent to a connector, the clock and random bytes. *)
Class Machine (OS : Type) := {
  observe : gset Z → Z → OS → Env * OS;
  probe : gset Z → OS → Result Z * OS;
  kick : N → OS → Result unit * OS;
  random_hex : OS → Result string * OS;
  emit : N → N → ScanParams → OS → Result unit * OS;
  unix_nano : OS → N * OS;
  random_bytes : nat → OS → list N * OS
}.
Class MachineLaws (OS : Type) `{!Machine OS} := observe_bound open requested os : bound open requested (listen (fst (observe open requested os))).

(** ** errors.go *)
Definition http_error (status : nat) (reason message : string) (cause : option error) : error :=
  match cause with Some e => EWrap (message +:+ ": ") e "" | None => ENew message end.
Definition badRequest (reason message : string) : error := http_error 400 reason message None.
Definition notFound (reason message : string) (cause : option error) : error := http_error 404 reason message cause.
Definition conflict (reason message : string) : error := http_error 409 reason message None.
Definition mapRecordNotFound (reason message : string) (err : error) : error :=
  if Is err ErrRecordNotFound then notFound reason message (Some err) else err.

(** ** access_protocol.go and the tests of lifecycle.go *)
Definition one_of (s : string) (l : list string) : bool := bool_decide (s ∈ l).
Definition isWebOnlyCapableApplicationType (appType : string) : bool :=
  one_of appType ["ssh"; "rdp"; "vnc"; "mysql"; "mariadb"; "sqlserver"; "oracle"; "clickhouse"; "postgresql"; "redis";
    "mongodb"; "elasticsearch"; "opensearch"; "memcached"; "s3"; "database"].
Definition accessProtocolRequiresPublicPort (protocol : string) : bool := negb (one_of protocol ["webssh"; "websftp"; "web"; "aiapi"]).
Definition effectiveAccessProtocol (proxy : Access) (application : Application) : string :=
  if one_of (x_AccessProtocol proxy) ["tcp"; "http"; "ssh"; "rdp"; "vnc"; "mysql"; "postgresql"; "redis"; "mongodb"; "webssh"; "websftp"; "web"; "aiapi"]
  then x_AccessProtocol proxy
  else if bool_decide (a_ApplicationType application = "http") then "http"
  else if Z.eqb (x_Port proxy) 0 && isWebOnlyCapableApplicationType (a_ApplicationType application) then
    if bool_decide (a_ApplicationType application = "ssh") then "webssh" else "web"
  else "tcp".
Definition isWebOnlyProxy (proxy : Access) (application : Application) : bool :=
  negb (accessProtocolRequiresPublicPort (effectiveAccessProtocol proxy application)).
Definition mismatch (message : string) : option error := Some (badRequest "ACCESS_PROTOCOL_MISMATCH" message).
Definition validateAccessProtocol (protocol : string) (application : Application) : option error :=
  let ty := a_ApplicationType application in
  let needs t message := if bool_decide (ty = t) then None else mismatch message in
  if bool_decide (protocol = "aiapi") then needs "llm" "AI API requires an LLM application"
  else if bool_decide (protocol = "tcp") then None
  else if bool_decide (protocol = "http") then needs "http" "HTTP 访问只能关联 HTTP 应用"
  else if one_of protocol ["ssh"; "webssh"; "websftp"] then needs "ssh" "SSH 访问只能关联 SSH 应用"
  else if bool_decide (protocol = "rdp") then needs "rdp" "RDP 访问只能关联 RDP 应用"
  else if bool_decide (protocol = "vnc") then needs "vnc" "VNC 访问只能关联 VNC 应用"
  else if bool_decide (protocol = "mysql") then needs "mysql" "MySQL 访问只能关联 MySQL 应用"
  else if bool_decide (protocol = "postgresql") then needs "postgresql" "PostgreSQL 访问只能关联 PostgreSQL 应用"
  else if bool_decide (protocol = "redis") then needs "redis" "Redis 访问只能关联 Redis 应用"
  else if bool_decide (protocol = "mongodb") then needs "mongodb" "MongoDB 访问只能关联 MongoDB 应用"
  else if bool_decide (protocol = "web") then if isWebOnlyCapableApplicationType ty then None else mismatch "该应用不支持网页访问"
  else Some (badRequest "ACCESS_PROTOCOL_INVALID" "访问协议无效").
Definition normalizeAccessProtocol (ToLower : string → string) (raw : string) (application : Application) (requestedPort : Z) (exposePublicPort : bool) : Result string :=
  let protocol := ToLower (TrimSpace raw) in
  let ty := a_ApplicationType application in
  let protocol :=
    if bool_decide (protocol = "") then
      if bool_decide (ty = "http") then "http"
      else if isWebOnlyCapableApplicationType ty && Z.eqb requestedPort 0 && negb exposePublicPort then if bool_decide (ty = "ssh") then "webssh" else "web"
      else "tcp"
    else protocol in
  match validateAccessProtocol protocol application with
  | Some e => Err e
  | None =>
      if one_of protocol ["rdp"; "vnc"; "mysql"; "postgresql"; "redis"; "mongodb"]
      then Err (badRequest "ACCESS_PROTOCOL_UNSUPPORTED" "该原生协议尚未实现，请选择 TCP 转发或对应的 Web 访问")
      else Ok protocol
  end.

(** ** The state, and calls on its parts *)
Record World (DB OS : Type) := mkWorld { wd_db : DB; wd_planes : Planes; wd_os : OS }.
Arguments mkWorld {DB OS} _ _ _.
Arguments wd_db {DB OS} _.
Arguments wd_planes {DB OS} _.
Arguments wd_os {DB OS} _.
Definition panicked : error := ESentinel "panic" "panic".

Record Tracker := mkTracker { tr_proxies : gset N; tr_applications : gset N; tr_edges : gset N; tr_devices : gset N }.
#[export] Instance Tracker_eta : Eta Tracker := {| eta := λ r, mkTracker (tr_proxies r) (tr_applications r) (tr_edges r) (tr_devices r) |}.
Definition newLifecycleDeleteTracker : Tracker := mkTracker ∅ ∅ ∅ ∅.
Definition out_of_fuel : error := ESentinel "out of fuel" "out of fuel".

Record CreateProxyRequest := mkCreateProxy {
  cr_Name : string; cr_Description : string; cr_ApplicationId : N; cr_Port : Z; cr_AccessProtocol : string; cr_ExposePublicPort : bool }.
Record UpdateProxyRequest := mkUpdateProxy {
  ur_Id : N; ur_Name : string; ur_Description : string; ur_Port : Z; ur_Status : string; ur_AccessProtocol : string; ur_ExposePublicPort : option bool }.
Record UpdateEdgeRequest := mkUpdateEdge { ue_Id : N; ue_Name : string; ue_Description : string; ue_Status : Z }.

Module Control.
Section Control.
Context {DB : Type} {i_iam : IamGorm DB} {i_cp : CpGorm DB} {OS : Type} {i_os : Machine OS}.
Context (ToLower : string → string) (certs : list (string * string)).
#[local] Abbreviation W := (World DB OS).
#[local] Abbreviation C A := (Op W A).

Definition on_db {A} (m : Op DB A) : C A := λ w, let '(x, db) := m (wd_db w) in (x, mkWorld db (wd_planes w) (wd_os w)).
(** The error of a call as a value: of one that cannot panic, and of one that
    can. *)
Definition try {A} (m : C A) : C (Result A) := λ w, let '(r, w') := m w in (Ok r, w').
Definition attempt {A} (m : C A) : C (Result A) := λ w,
  match m w with
  | (Err e, w') => if Is e panicked then (Err e, w') else (Ok (Err e), w')
  | (Ok a, w') => (Ok (Ok a), w')
  end.
Definition ignore {A} (m : C A) : C unit := try m ;; ret tt.
Fixpoint each {A} (f : A → C unit) (l : list A) : C unit := match l with [] => ret tt | a :: l' => f a ;; each f l' end.

Definition manager_create (p : Proxy) : C Proxy := λ w,
  let '(env, os) := observe (w_open (wd_planes w)) (px_ProxyPort p) (wd_os w) in
  match Unified.CreateProxy certs env p (wd_planes w) with
  | (Returned (Ok _), p', pl) => (Ok p', mkWorld (wd_db w) pl os)
  | (Returned (Err e), _, pl) => (Err e, mkWorld (wd_db w) pl os)
  | (Panicked, _, pl) => (Err panicked, mkWorld (wd_db w) pl os)
  end.
Definition manager_delete (id : N) : C unit := λ w,
  let '(env, os) := observe (w_open (wd_planes w)) 0 (wd_os w) in
  let '(x, pl) := Unified.DeleteProxy env (Z.of_N id) (wd_planes w) in (x, mkWorld (wd_db w) pl os).
Definition firewall_allow (id : N) (cidrs : list string) : C unit := λ w,
  let '(x, pl) := Unified.Allow (Z.of_N id) cidrs (wd_planes w) in (x, mkWorld (wd_db w) pl (wd_os w)).
Definition firewall_revoke (id : N) : C unit := λ w, (Ok tt, mkWorld (wd_db w) (Unified.Revoke (Z.of_N id) (wd_planes w)) (wd_os w)).
Definition on_os {A} (m : OS → Result A * OS) : C A := λ w, let '(x, os) := m (wd_os w) in (x, mkWorld (wd_db w) (wd_planes w) os).
Definition probeFreeTCPPort : C Z := λ w, on_os (probe (w_open (wd_planes w))) w.

(** ** resource_scope.go *)
Definition isRootAdministrator (userID : N) : Op DB bool :=
  let! root := Repo.GetRootOrganization in
  match root with
  | None => ret false
  | Some root =>
      let! binding := Repo.GetIAMRoleBinding (o_ID root) userID in
      ret (match binding with
           | Some b => match b_Role b with Some role => bool_decide (ro_Code role = IAMRoleAdmin) && b_InheritChildren b | None => false end
           | None => false
           end)
  end.
(** [None]: not scoped *)
Definition visibleResourceIDs (actor : option N) (resourceType : string) : Op DB (option (list N)) :=
  match actor with
  | None => ret None
  | Some userID =>
      let! admin := isRootAdministrator userID in
      if admin then ret None else let! ids := CpDao.ListIAMResourceIDsForSubject resourceType "user" userID in ret (Some ids)
  end.
Definition requireVisibleResource (actor : option N) (resourceType : string) (resourceID : N) : Op DB unit :=
  let! ids := visibleResourceIDs actor resourceType in
  match ids with
  | None => ret tt
  | Some ids => if bool_decide (resourceID ∈ ids) then ret tt else throw (notFound "RESOURCE_NOT_FOUND" "资源不存在" None)
  end.
Definition claimResource (actor : option N) (resourceType : string) (resourceID : N) : Op DB unit :=
  match actor with
  | None => ret tt
  | Some userID =>
      let! memberships := Repo.ListUserOrganizations userID in
      match memberships with
      | [] => throw (notFound "ORGANIZATION_NOT_FOUND" "用户所属组织不存在" None)
      | m :: _ =>
          CpDao.UpsertIAMResourceRelation (mkRelation 0 resourceType resourceID "owner" "user" userID userID) ;;
          CpDao.UpsertIAMResourceRelation (mkRelation 0 resourceType resourceID "belongs_to" "organization" (m_OrganizationID m) userID)
      end
  end.

(** ** lifecycle.go: running an access *)
Definition stopProxyRuntime (proxy : Access) : C unit :=
  manager_delete (x_ID proxy) ;; if Z.ltb 0 (x_Port proxy) then firewall_revoke (x_ID proxy) else ret tt.
Definition reapplyFirewall (proxyID : N) (port : Z) : C unit :=
  if Z.leb port 0 then ret tt else
  let! rule := try (on_db (CpDao.GetFirewallRuleByProxyID proxyID)) in
  match rule with
  | Err _ => ret tt
  | Ok None => firewall_revoke proxyID
  | Ok (Some rule) => ignore (firewall_allow proxyID (f_AllowedCIDRs rule))
  end.
Definition proxyRuntimeEligible (proxy : Access) (application : Application) : C bool :=
  if negb (Z.eqb (x_Status proxy) ProxyStatusRunning) then ret false else
  match a_EdgeIDs application with
  | [] => throw (conflict "APPLICATION_EDGE_MISSING" "关联应用未绑定连接器")
  | e :: _ =>
      if isWebOnlyProxy proxy application then ret false else
      let! edge := map_err (mapRecordNotFound "EDGE_NOT_FOUND" "关联连接器不存在") (on_db (CpDao.GetEdge e)) in
      if Z.eqb (e_Status edge) EdgeStatusStopped then ret false
      else if negb (Z.eqb (e_Status edge) EdgeStatusRunning) then throw (conflict "EDGE_STATUS_INVALID" "连接器状态无效")
      else ret true
  end.
Definition validateProxyApplication (application : Application) : C Edge :=
  match a_EdgeIDs application with
  | [] => throw (conflict "APPLICATION_EDGE_MISSING" "关联应用未绑定连接器")
  | e :: _ =>
      let! edge := map_err (mapRecordNotFound "EDGE_NOT_FOUND" "关联连接器不存在") (on_db (CpDao.GetEdge e)) in
      if negb (Z.eqb (e_Status edge) EdgeStatusRunning) && negb (Z.eqb (e_Status edge) EdgeStatusStopped)
      then throw (conflict "EDGE_STATUS_INVALID" "连接器状态无效") else ret edge
  end.
Definition proxyEffectiveStatus (proxy : Access) (application : option Application) : C string :=
  if Z.eqb (x_Status proxy) ProxyStatusStopped then ret "stopped"
  else if negb (Z.eqb (x_Status proxy) ProxyStatusRunning) then ret "invalid"
  else match application with
       | None => ret "invalid"
       | Some application =>
           let! r := try (validateProxyApplication application) in
           ret (match r with
                | Err _ => "invalid"
                | Ok edge => if Z.eqb (e_Status edge) EdgeStatusStopped then "edge_stopped"
                             else if negb (Z.eqb (e_Online edge) EdgeOnlineStatusOnline) then "edge_offline" else "active"
                end)
       end.
Definition findProxyPortConflict (port : Z) (excludeProxyID : N) : C (option Access) :=
  if Z.leb port 0 then ret None else
  let! proxies := on_db (CpDao.ListProxies []) in
  ret (List.find (λ x, negb (bool_decide (x_ID x = excludeProxyID)) && Z.eqb (x_Port x) port) proxies).
Definition ensureProxyPortAvailable (port : Z) (excludeProxyID : N) : C unit :=
  if Z.leb port 0 then ret tt else
  let! other := findProxyPortConflict port excludeProxyID in
  match other with
  | Some x => throw (conflict "PROXY_PORT_CONFLICT" ("公网端口 " +:+ pretty port +:+ " 已被访问 " +:+ pretty (x_ID x) +:+ " 使用"))
  | None => ret tt
  end.
Fixpoint allocate (attempts : nat) (excludeProxyID : N) : C Z :=
  match attempts with
  | O => throw (ENew "failed to allocate an available public port after 32 attempts")
  | S attempts' =>
      let! port := probeFreeTCPPort in
      let! other := findProxyPortConflict port excludeProxyID in
      match other with None => ret port | Some _ => allocate attempts' excludeProxyID end
  end.
Definition allocateAvailableProxyPort (excludeProxyID : N) : C Z := allocate 32 excludeProxyID.

(** The access as it is in memory after the call: its port may have been
    filled in. *)
Definition startProxyRuntime (proxy : Access) (application : Application) : C Access :=
  let! eligible := proxyRuntimeEligible proxy application in
  if negb eligible then ret proxy else
  match a_EdgeIDs application with
  | [] => throw panicked
  | edgeID :: _ =>
      let protocol := effectiveAccessProtocol proxy application in
      let protoproxy := mkProxy (Z.of_N (x_ID proxy)) (x_Name proxy) (x_Port proxy) edgeID (a_ID application)
        (a_IP application +:+ ":" +:+ pretty (a_Port application)) (a_ApplicationType application) protocol (bool_decide (a_ApplicationType application = "http")) in
      let nativeDB := one_of protocol ["mysql"; "postgresql"] in
      (if nativeDB then
         let! rule := map_err (λ e, EWrap "load database source policy: " e "") (on_db (CpDao.GetFirewallRuleByProxyID (x_ID proxy))) in
         match rule with
         | None => firewall_revoke (x_ID proxy)
         | Some rule => map_err (λ e, EWrap "apply database source policy: " e "") (firewall_allow (x_ID proxy) (f_AllowedCIDRs rule))
         end
       else ret tt) ;;
      let! protoproxy := manager_create protoproxy in
      let! proxy :=
        (if Z.eqb (x_Port proxy) 0 && Z.ltb 0 (px_ProxyPort protoproxy) then
           let started := proxy <| x_Port := px_ProxyPort protoproxy |> in
           let! r := try (ensureProxyPortAvailable (x_Port started) (x_ID started)) in
           match r with
           | Ok _ => ret started
           | Err e => ignore (stopProxyRuntime started) ;; throw e
           end
         else ret proxy) in
      (if nativeDB then ret tt else reapplyFirewall (x_ID proxy) (x_Port proxy)) ;; ret proxy
  end.
Definition startAndPersistProxyRuntime (proxy : Access) (application : Application) : C Access :=
  let! started := startProxyRuntime proxy application in
  if Z.eqb (x_Port proxy) 0 && Z.ltb 0 (x_Port started) then
    let! r := try (on_db (CpDao.UpdateProxy started)) in
    match r with
    | Ok _ => ret started
    | Err e => ignore (stopProxyRuntime started) ;; throw e
    end
  else ret started.

(** ** At start-up *)
Definition restore_rule (rule : ProxyFirewallRule) : C unit :=
  let! proxy := try (on_db (CpDao.GetProxyByID (f_ProxyID rule))) in
  match proxy with
  | Err _ => ret tt
  | Ok proxy =>
      let! application := try (on_db (CpDao.GetApplicationByID (x_ApplicationID proxy))) in
      match application with
      | Err _ => ret tt
      | Ok application =>
          let! eligible := try (proxyRuntimeEligible proxy application) in
          match eligible with
          | Ok true => ignore (firewall_allow (f_ProxyID rule) (f_AllowedCIDRs rule))
          | _ => firewall_revoke (f_ProxyID rule)
          end
      end
  end.
Definition RestoreFirewallRules : C unit :=
  let! rules := try (on_db CpDao.ListAllFirewallRules) in
  match rules with Err _ => ret tt | Ok rules => each restore_rule rules end.
(** Stopping an access and deleting its rule and row, with errors logged. *)
Definition drop_access (proxy : Access) : C unit :=
  let! stopped := try (stopProxyRuntime proxy) in
  match stopped with
  | Err _ => ret tt
  | Ok _ => ignore (on_db (CpDao.DeleteFirewallRuleByProxyID (x_ID proxy))) ;; ignore (on_db (CpDao.DeleteProxy (x_ID proxy)))
  end.
Definition reconcile (proxy : Access) : C unit :=
  let! application := try (on_db (CpDao.GetApplicationByID (x_ApplicationID proxy))) in
  match application with
  | Err _ => drop_access proxy
  | Ok application =>
      if Z.eqb (x_Status proxy) ProxyStatusStopped then ignore (stopProxyRuntime proxy) else
      let! eligible := try (proxyRuntimeEligible proxy application) in
      match eligible with
      | Err _ => drop_access proxy
      | Ok false => ignore (stopProxyRuntime proxy)
      | Ok true => ret tt
      end
  end.
Definition ReconcileLifecycleState : C unit :=
  let! proxies := try (on_db (CpDao.ListProxies [])) in
  match proxies with Err _ => ret tt | Ok proxies => each reconcile proxies end.
(** Starting accesses one after the other; the first error stops those
    started before it. *)
Fixpoint start_all (l : list (Access * Application)) (started : list Access) : C unit :=
  match l with
  | [] => ret tt
  | (proxy, application) :: l' =>
      let! r := attempt (startAndPersistProxyRuntime proxy application) in
      match r with
      | Ok proxy => start_all l' (started ++ [proxy])
      | Err e => each (λ x, ignore (stopProxyRuntime x)) started ;; throw e
      end
  end.
Fixpoint restorable (proxies : list Access) (started : list Access) : C unit :=
  match proxies with
  | [] => ret tt
  | proxy :: l =>
      if negb (Z.eqb (x_Status proxy) ProxyStatusRunning) then restorable l started else
      let! application := try (on_db (CpDao.GetApplicationByID (x_ApplicationID proxy))) in
      match application with
      | Err _ => restorable l started
      | Ok application =>
          let! eligible := try (proxyRuntimeEligible proxy application) in
          match eligible with
          | Ok true =>
              let! r := attempt (startAndPersistProxyRuntime proxy application) in
              match r with
              | Ok proxy => restorable l (started ++ [proxy])
              | Err e => each (λ x, ignore (stopProxyRuntime x)) started ;; throw e
              end
          | _ => restorable l started
          end
      end
  end.
Definition RestoreProxyListeners : C unit := let! proxies := on_db (CpDao.ListProxies []) in restorable proxies [].

(** ** Of a connector *)
Definition listApplicationsByEdgeID (edgeID : N) : C (list Application) :=
  let! applications := on_db (CpDao.ListApplications []) in
  ret (List.filter (λ a, bool_decide (edgeID ∈ a_EdgeIDs a)) applications).
Definition listProxiesByEdgeID (edgeID : N) : C (list (Access * option Application)) :=
  let! applications := listApplicationsByEdgeID edgeID in
  match applications with
  | [] => ret []
  | _ =>
      let! proxies := on_db (CpDao.ListProxies (map (a_ID : Application → N) applications)) in
      ret (map (λ x, (x, List.find (λ a, bool_decide (a_ID a = x_ApplicationID x)) applications)) proxies)
  end.
Definition running (l : list (Access * option Application)) : list (Access * option Application) :=
  List.filter (λ x, Z.eqb (x_Status (fst x)) ProxyStatusRunning) l.
Definition stopEdgeProxies (edgeID : N) : C unit :=
  let! proxies := listProxiesByEdgeID edgeID in each (λ x, stopProxyRuntime (fst x)) (running proxies).
(** startProxyRuntime does nothing for an access without its application. *)
Definition startEdgeProxies (edgeID : N) : C unit :=
  let! proxies := listProxiesByEdgeID edgeID in
  start_all (omap (λ x : Access * option Application, match snd x with Some a => Some (fst x, a) | None => None end) (running proxies)) [].
Definition failActiveEdgeTasks (edgeID : N) (reason : string) : C unit :=
  let! tasks := on_db (CpDao.ListTasks edgeID [TaskStatusPending; TaskStatusRunning]) in
  each (λ t, on_db (CpDao.UpdateTaskError (tk_ID t) reason)) tasks.

(** ** Deleting, with everything that depends on it *)
Definition deleteProxyCascade (proxyID : N) (tracker : Tracker) : C Tracker :=
  if bool_decide (proxyID ∈ tr_proxies tracker) then ret tracker else
  let tracker := tracker <| tr_proxies := {[ proxyID ]} ∪ tr_proxies tracker |> in
  let! proxy := on_db (CpDao.GetProxyByID proxyID) in
  map_err (λ e, EWrap ("stop proxy " +:+ pretty proxyID +:+ " runtime: ") e "") (stopProxyRuntime proxy) ;;
  map_err (λ e, EWrap ("delete firewall rule for proxy " +:+ pretty proxyID +:+ ": ") e "") (on_db (CpDao.DeleteFirewallRuleByProxyID proxyID)) ;;
  on_db (CpDao.DeleteProxy proxyID) ;; ret tracker.
Fixpoint each_tracked {A} (f : A → Tracker → C Tracker) (l : list A) (tracker : Tracker) : C Tracker :=
  match l with [] => ret tracker | a :: l' => let! tracker := f a tracker in each_tracked f l' tracker end.
Definition deleteApplicationCascade (applicationID : N) (tracker : Tracker) : C Tracker :=
  if bool_decide (applicationID ∈ tr_applications tracker) then ret tracker else
  let tracker := tracker <| tr_applications := {[ applicationID ]} ∪ tr_applications tracker |> in
  let! proxies := on_db (CpDao.ListProxies [applicationID]) in
  let! tracker := each_tracked (λ x, deleteProxyCascade (x_ID x)) proxies tracker in
  on_db (CpDao.DeleteApplication applicationID) ;; ret tracker.
(** The devices only deleted connectors know, in some order. *)
Definition owned_device (delete_device : N → Tracker → C Tracker) (edgeID deviceID : N) (tracker : Tracker) : C Tracker :=
  if bool_decide (deviceID ∈ tr_devices tracker) then ret tracker else
  let! relations := on_db (CpDao.GetEdgeDevicesByDeviceID deviceID None) in
  if forallb (λ r, bool_decide (ed_EdgeID r = edgeID) || bool_decide (ed_EdgeID r ∈ tr_edges tracker)) relations
  then delete_device deviceID tracker else ret tracker.
Definition edge_cascade (delete_device : N → Tracker → C Tracker) (edgeID : N) (tracker : Tracker) : C Tracker :=
  if bool_decide (edgeID ∈ tr_edges tracker) then ret tracker else
  let tracker := tracker <| tr_edges := {[ edgeID ]} ∪ tr_edges tracker |> in
  let! applications := listApplicationsByEdgeID edgeID in
  let! tracker := each_tracked (λ a, deleteApplicationCascade (a_ID a)) applications tracker in
  failActiveEdgeTasks edgeID "edge deleted" ;;
  on_db (CpDao.DeleteAccessKeysByEdgeID edgeID) ;;
  ignore (on_os (kick edgeID)) ;;
  on_db (CpDao.DeleteEdge edgeID) ;;
  let! edgeDevices := on_db (CpDao.GetEdgeDevicesByEdgeID edgeID None) in
  let! tracker := each_tracked (owned_device delete_device edgeID) (remove_dups (map (ed_DeviceID : EdgeDevice → N) edgeDevices)) tracker in
  on_db (CpDao.DeleteEdgeDevicesByEdgeID edgeID None) ;; ret tracker.
Definition device_cascade (delete_edge : N → Tracker → C Tracker) (deviceID : N) (tracker : Tracker) : C Tracker :=
  if bool_decide (deviceID ∈ tr_devices tracker) then ret tracker else
  let tracker := tracker <| tr_devices := {[ deviceID ]} ∪ tr_devices tracker |> in
  let! edgeDevices := on_db (CpDao.GetEdgeDevicesByDeviceID deviceID (Some EdgeDeviceRelationHost)) in
  let! tracker := each_tracked (λ r, delete_edge (ed_EdgeID r)) edgeDevices tracker in
  let! applications := on_db (CpDao.ListApplications [deviceID]) in
  let! tracker := each_tracked (λ a, deleteApplicationCascade (a_ID a)) applications tracker in
  on_db (CpDao.DeleteDevice deviceID) ;; ret tracker.
Fixpoint deleteEdgeCascade (fuel : nat) (edgeID : N) (tracker : Tracker) : C Tracker :=
  match fuel with O => throw out_of_fuel | S fuel' => edge_cascade (deleteDeviceCascade fuel') edgeID tracker end
with deleteDeviceCascade (fuel : nat) (deviceID : N) (tracker : Tracker) : C Tracker :=
  match fuel with O => throw out_of_fuel | S fuel' => device_cascade (deleteEdgeCascade fuel') deviceID tracker end.

(** ** proxy.go *)
Definition normalizeResourceName (name prefix : string) : C string :=
  if bool_decide (TrimSpace name = "") then
    let! random := map_err (λ e, EWrap ("generate " +:+ ToLower prefix +:+ " name: ") e "") (on_os random_hex) in ret (prefix +:+ "-" +:+ random)
  else ret (TrimSpace name).
Definition port_invalid : error := badRequest "PROXY_PORT_INVALID" "公网端口必须在 1-65535 之间".
Definition bad_port (port : Z) : bool := Z.ltb port 0 || Z.ltb 65535 port.
Definition resolveCreateProxyPort (protocol : string) (requestedPort : Z) : C Z :=
  throw_if bad_port requestedPort with port_invalid ;;
  if negb (accessProtocolRequiresPublicPort protocol) then ret 0%Z
  else if Z.ltb 0 requestedPort then ret requestedPort
  else allocateAvailableProxyPort 0.
Definition resolveUpdateProxyPort (protocol : string) (proxy : Access) (requestedPort : Z) (exposePublicPort : bool) : C Z :=
  throw_if bad_port requestedPort with port_invalid ;;
  if negb exposePublicPort then
    if accessProtocolRequiresPublicPort protocol then throw (badRequest "PROXY_PUBLIC_PORT_REQUIRED" "该访问协议必须开放公网端口") else ret 0%Z
  else if Z.ltb 0 requestedPort then
    (if Z.eqb requestedPort (x_Port proxy) then ret tt else ensureProxyPortAvailable requestedPort (x_ID proxy)) ;; ret requestedPort
  else if Z.ltb 0 (x_Port proxy) then ret (x_Port proxy)
  else allocateAvailableProxyPort (x_ID proxy).
(** What a handler answers with: the row and its effective status. *)
Definition transformProxy (proxy : Access) (application : option Application) : C (Access * string) :=
  let! status := proxyEffectiveStatus proxy application in ret (proxy, status).

(** The row is deleted again when a later step fails with [e]. *)
Definition undo_create {A} (proxyID : N) (e : error) : C A := ignore (on_db (CpDao.DeleteProxy proxyID)) ;; throw e.
Definition CreateProxy (actor : option N) (req : CreateProxyRequest) : C (Access * string) :=
  let! name := normalizeResourceName (cr_Name req) "Access" in
  throw_if N.eqb (cr_ApplicationId req) 0 with badRequest "APPLICATION_ID_REQUIRED" "关联应用不能为空" ;;
  on_db (requireVisibleResource actor "application" (cr_ApplicationId req)) ;;
  throw_if bad_port (cr_Port req) with badRequest "PROXY_PORT_INVALID" "公网端口必须在 1-65535 之间；SSH/RDP/VNC 可留空仅通过网页访问" ;;
  let! application := map_err (mapRecordNotFound "APPLICATION_NOT_FOUND" "关联应用不存在") (on_db (CpDao.GetApplicationByID (cr_ApplicationId req))) in
  let! edge := validateProxyApplication application in
  let! accessProtocol := lift (normalizeAccessProtocol ToLower (cr_AccessProtocol req) application (cr_Port req) (cr_ExposePublicPort req)) in
  let! requestedPort := resolveCreateProxyPort accessProtocol (cr_Port req) in
  (if Z.ltb 0 requestedPort then ensureProxyPortAvailable requestedPort 0 else ret tt) ;;
  let! proxy := on_db (CpDao.CreateProxy (mkAccess 0 (cr_ApplicationId req) name requestedPort ProxyStatusRunning (cr_Description req) accessProtocol)) in
  let! claimed := try (on_db (claimResource actor "access" (x_ID proxy))) in
  match claimed with
  | Err e => undo_create (x_ID proxy) e
  | Ok _ =>
      let! proxy :=
        (if Z.eqb (e_Status edge) EdgeStatusRunning then
           let! started := attempt (startProxyRuntime proxy application) in
           match started with
           | Err e => undo_create (x_ID proxy) e
           | Ok started =>
               if Z.eqb requestedPort 0 && Z.ltb 0 (x_Port started) then
                 let! updated := try (on_db (CpDao.UpdateProxy started)) in
                 match updated with
                 | Ok _ => ret started
                 | Err e => ignore (stopProxyRuntime started) ;; undo_create (x_ID started) e
                 end
               else ret started
           end
         else ret proxy) in
      transformProxy proxy (Some application)
  end.

(** The access a request asks for, of one that is stored. *)
Definition requested_protocol (req : UpdateProxyRequest) (proxy : Access) (application : Application) : Result Access :=
  if negb (bool_decide (ur_AccessProtocol req = "")) then
    match normalizeAccessProtocol ToLower (ur_AccessProtocol req) application (ur_Port req) (default false (ur_ExposePublicPort req)) with
    | Ok protocol => Ok (proxy <| x_AccessProtocol := protocol |>)
    | Err e => Err e
    end
  else match ur_ExposePublicPort req with
       | Some expose =>
           if isWebOnlyCapableApplicationType (a_ApplicationType application) then
             Ok (proxy <| x_AccessProtocol := if expose then "tcp" else if bool_decide (a_ApplicationType application = "ssh") then "webssh" else "web" |>)
           else Ok proxy
       | None => Ok proxy
       end.
Definition requested_texts (req : UpdateProxyRequest) (proxy : Access) : Result Access :=
  if negb (bool_decide (ur_Name req = "")) && bool_decide (TrimSpace (ur_Name req) = "")
  then Err (badRequest "PROXY_NAME_REQUIRED" "访问名称不能为空") else
  let proxy := if bool_decide (ur_Name req = "") then proxy else proxy <| x_Name := TrimSpace (ur_Name req) |> in
  Ok (if bool_decide (ur_Description req = "") then proxy else proxy <| x_Description := ur_Description req |>).
Definition requested_port (req : UpdateProxyRequest) (proxy : Access) (application : Application) : C Access :=
  let protocol := effectiveAccessProtocol proxy application in
  let asked := negb (bool_decide (ur_AccessProtocol req = "")) in
  let another := Z.ltb 0 (ur_Port req) && negb (Z.eqb (ur_Port req) (x_Port proxy)) in
  match ur_ExposePublicPort req with
  | Some expose => let! port := resolveUpdateProxyPort protocol proxy (ur_Port req) expose in ret (proxy <| x_Port := port |>)
  | None =>
      if asked && negb (accessProtocolRequiresPublicPort protocol) then ret (proxy <| x_Port := 0%Z |>)
      else if asked && another then ensureProxyPortAvailable (ur_Port req) (x_ID proxy) ;; ret (proxy <| x_Port := ur_Port req |>)
      else if asked && Z.eqb (x_Port proxy) 0 then let! port := allocateAvailableProxyPort (x_ID proxy) in ret (proxy <| x_Port := port |>)
      else if another then ensureProxyPortAvailable (ur_Port req) (x_ID proxy) ;; ret (proxy <| x_Port := ur_Port req |>)
      else ret proxy
  end.
Definition requested_status (req : UpdateProxyRequest) (proxy : Access) : Result Access :=
  if bool_decide (ur_Status req = "") then Ok proxy
  else if bool_decide (ur_Status req = "running") then Ok (proxy <| x_Status := ProxyStatusRunning |>)
  else if bool_decide (ur_Status req = "stopped") then Ok (proxy <| x_Status := ProxyStatusStopped |>)
  else Err (badRequest "PROXY_STATUS_INVALID" "访问状态无效").
Definition runtime_changed (old proxy : Access) : bool :=
  negb (Z.eqb (x_Status old) (x_Status proxy)) || negb (Z.eqb (x_Port old) (x_Port proxy)) || negb (bool_decide (x_AccessProtocol old = x_AccessProtocol proxy)).
(** From the stored access to the new one: the old listener is stopped, the new
    one started, the row written; what fails is undone. *)
Definition switch_runtime (old proxy : Access) (application : Application) : C unit :=
  let changed := runtime_changed old proxy in
  let! oldEligible := (if Z.eqb (x_Status old) ProxyStatusRunning
                       then let! r := try (proxyRuntimeEligible old application) in ret (match r with Ok b => b | Err _ => false end)
                       else ret false) in
  let! newEligible := (if Z.eqb (x_Status proxy) ProxyStatusRunning then proxyRuntimeEligible proxy application else ret false) in
  (if changed && Z.eqb (x_Status old) ProxyStatusRunning then stopProxyRuntime old else ret tt) ;;
  let! started :=
    (if changed && newEligible then
       let! r := attempt (startProxyRuntime proxy application) in
       match r with
       | Ok p => ret p
       | Err e => (if oldEligible then attempt (startProxyRuntime old application) ;; ret tt else ret tt) ;; throw e
       end
     else ret proxy) in
  let! r := try (on_db (CpDao.UpdateProxy started)) in
  match r with
  | Ok _ => ret tt
  | Err e =>
      (if changed && newEligible then ignore (stopProxyRuntime started) else ret tt) ;;
      (if changed && oldEligible then attempt (startProxyRuntime old application) ;; ret tt else ret tt) ;;
      throw e
  end.
Definition UpdateProxy (actor : option N) (req : UpdateProxyRequest) : C (Access * string) :=
  throw_if N.eqb (ur_Id req) 0 with badRequest "PROXY_ID_REQUIRED" "访问 ID 不能为空" ;;
  on_db (requireVisibleResource actor "access" (ur_Id req)) ;;
  throw_if bad_port (ur_Port req) with port_invalid ;;
  let! old := map_err (mapRecordNotFound "PROXY_NOT_FOUND" "访问不存在") (on_db (CpDao.GetProxyByID (ur_Id req))) in
  let! application := map_err (mapRecordNotFound "APPLICATION_NOT_FOUND" "关联应用不存在") (on_db (CpDao.GetApplicationByID (x_ApplicationID old))) in
  let! proxy := lift (requested_protocol req old application) in
  let! proxy := lift (requested_texts req proxy) in
  let! proxy := requested_port req proxy application in
  let! proxy := lift (requested_status req proxy) in
  switch_runtime old proxy application ;;
  let! updatedProxy := on_db (CpDao.GetProxyByID (ur_Id req)) in
  transformProxy updatedProxy (Some application).
Definition DeleteProxy (actor : option N) (id : N) : C unit :=
  throw_if N.eqb id 0 with badRequest "PROXY_ID_REQUIRED" "访问 ID 不能为空" ;;
  on_db (requireVisibleResource actor "access" id) ;;
  map_err (mapRecordNotFound "PROXY_NOT_FOUND" "访问不存在") (on_db (CpDao.GetProxyByID id)) ;;
  deleteProxyCascade id newLifecycleDeleteTracker ;;
  on_db (CpDao.DeleteIAMResourceRelations "access" id).

(** ** firewall.go *)
Definition getProxyForFirewall (actor : option N) (proxyID : N) : C Access :=
  on_db (requireVisibleResource actor "access" proxyID) ;;
  map_err (mapRecordNotFound "PROXY_NOT_FOUND" "访问不存在") (on_db (CpDao.GetProxyByID proxyID)).
Fixpoint invalid_cidr (cidrs : list string) : option error :=
  match cidrs with
  | [] => None
  | c :: l => match Net.ParseCIDR c with Err e => Some (EWrap ("invalid CIDR " +:+ quote c +:+ ": ") e "") | Ok _ => invalid_cidr l end
  end.
Definition UpsertProxyFirewall (actor : option N) (proxyID : N) (cidrs : list string) : C unit :=
  let! proxy := getProxyForFirewall actor proxyID in
  check (invalid_cidr cidrs) ;;
  on_db (CpDao.UpsertFirewallRule proxyID cidrs) ;;
  if Z.ltb 0 (x_Port proxy) then ignore (firewall_allow proxyID cidrs) else ret tt.
Definition DeleteProxyFirewall (actor : option N) (proxyID : N) : C unit :=
  let! proxy := getProxyForFirewall actor proxyID in
  on_db (CpDao.DeleteFirewallRuleByProxyID proxyID) ;;
  if Z.ltb 0 (x_Port proxy) then firewall_revoke proxyID else ret tt.

(** ** edge.go, application.go, device.go *)
Definition UpdateEdge (actor : option N) (req : UpdateEdgeRequest) : C Edge :=
  throw_if N.eqb (ue_Id req) 0 with badRequest "EDGE_ID_REQUIRED" "连接器 ID 不能为空" ;;
  on_db (requireVisibleResource actor "connector" (ue_Id req)) ;;
  let! old := map_err (mapRecordNotFound "EDGE_NOT_FOUND" "连接器不存在") (on_db (CpDao.GetEdge (ue_Id req))) in
  throw_if negb (bool_decide (ue_Name req = "")) && bool_decide (TrimSpace (ue_Name req) = "") with badRequest "EDGE_NAME_REQUIRED" "连接器名称不能为空" ;;
  let edge := if bool_decide (ue_Name req = "") then old else old <| e_Name := TrimSpace (ue_Name req) |> in
  let edge := if bool_decide (ue_Description req = "") then edge else edge <| e_Description := ue_Description req |> in
  throw_if negb (Z.eqb (ue_Status req) 0) && negb (Z.eqb (ue_Status req) EdgeStatusRunning) && negb (Z.eqb (ue_Status req) EdgeStatusStopped)
    with badRequest "EDGE_STATUS_INVALID" "连接器运行状态无效" ;;
  let edge := if Z.eqb (ue_Status req) 0 then edge else edge <| e_Status := ue_Status req |> in
  let statusChanged := negb (Z.eqb (e_Status old) (e_Status edge)) in
  (if statusChanged && Z.eqb (e_Status edge) EdgeStatusStopped
   then stopEdgeProxies (e_ID edge) ;; failActiveEdgeTasks (e_ID edge) "edge stopped" else ret tt) ;;
  on_db (CpDao.UpdateEdge edge) ;;
  (if statusChanged && Z.eqb (e_Status edge) EdgeStatusRunning then
     let! r := attempt (startEdgeProxies (e_ID edge)) in
     match r with
     | Ok _ => ret tt
     | Err e => ignore (on_db (CpDao.UpdateEdge (edge <| e_Status := e_Status old |>))) ;; throw e
     end
   else ret tt) ;;
  on_db (CpDao.GetEdge (ue_Id req)).
Definition DeleteEdge (fuel : nat) (actor : option N) (id : N) : C unit :=
  throw_if N.eqb id 0 with badRequest "EDGE_ID_REQUIRED" "连接器 ID 不能为空" ;;
  on_db (requireVisibleResource actor "connector" id) ;;
  map_err (mapRecordNotFound "EDGE_NOT_FOUND" "连接器不存在") (on_db (CpDao.GetEdge id)) ;;
  deleteEdgeCascade fuel id newLifecycleDeleteTracker ;;
  on_db (CpDao.DeleteIAMResourceRelations "connector" id).
Definition DeleteApplication (actor : option N) (id : N) : C unit :=
  throw_if N.eqb id 0 with badRequest "APPLICATION_ID_REQUIRED" "应用 ID 不能为空" ;;
  on_db (requireVisibleResource actor "application" id) ;;
  map_err (mapRecordNotFound "APPLICATION_NOT_FOUND" "应用不存在") (on_db (CpDao.GetApplicationByID id)) ;;
  deleteApplicationCascade id newLifecycleDeleteTracker ;;
  on_db (CpDao.DeleteIAMResourceRelations "application" id).
Definition DeleteDevice (fuel : nat) (actor : option N) (id : N) : C unit :=
  throw_if N.eqb id 0 with badRequest "DEVICE_ID_REQUIRED" "设备 ID 不能为空" ;;
  on_db (requireVisibleResource actor "device" id) ;;
  map_err (mapRecordNotFound "DEVICE_NOT_FOUND" "设备不存在") (on_db (CpDao.GetDeviceByID id)) ;;
  deleteDeviceCascade fuel id newLifecycleDeleteTracker ;;
  on_db (CpDao.DeleteIAMResourceRelations "device" id).
End Control.
End Control.
