(* ===== verification/ControlResources.v ===== *)
(** * manager/controlplane: applications, connectors and devices

    [application.go], [edge.go], [edge_install.go] and [device.go] where they
    create and change rows; stopping and deleting are in [ControlPlane].  The
    listings and the JSON of answers are left out, url.Parse is a parameter. *)

From S2P Require Import Prelude Utf8 Sha256 ToolTypes IamDao ControlDao NetAddr Firewall EntryPlanes ControlPlane.

(** ** application.go: types, ports and hosts *)
Definition defaultPorts : list (string * Z) :=
  [("http", 80); ("ssh", 22); ("rdp", 3389); ("vnc", 5900); ("mysql", 3306); ("mariadb", 3306); ("sqlserver", 1433); ("oracle", 1521); ("clickhouse", 9000);
   ("elasticsearch", 9200); ("opensearch", 9200); ("memcached", 11211); ("postgresql", 5432); ("redis", 6379); ("mongodb", 27017); ("database", 3306)]%Z.
Definition getDefaultPortByApplicationType (appType : string) : Z :=
  match List.find (λ x, bool_decide (fst x = appType)) defaultPorts with Some (_, port) => port | None => 0%Z end.
Definition portToType : list (Z * string) :=
  [(22, "ssh"); (80, "http"); (443, "http"); (3389, "rdp"); (5900, "vnc"); (3306, "mysql"); (5432, "postgresql"); (1433, "sqlserver"); (1521, "oracle");
   (9000, "clickhouse"); (6379, "redis"); (27017, "mongodb")]%Z.
Definition detectApplicationTypeByPort (port : Z) : string :=
  match List.find (λ x, Z.eqb (fst x) port) portToType with Some (_, ty) => ty | None => "tcp" end.
Definition isAllowedApplicationType (appType : string) : bool :=
  one_of appType ["llm"; "http"; "tcp"; "ssh"; "rdp"; "vnc"; "mysql"; "mariadb"; "sqlserver"; "oracle"; "clickhouse"; "elasticsearch"; "opensearch";
    "postgresql"; "redis"; "memcached"; "mongodb"; "database"; "s3"].

(** strings.EqualFold with an ASCII right side: its letters also match the long
    s and the Kelvin sign. *)
Definition low (c : ascii) : ascii := if in_range c 65 90 then ascii_of_nat (nat_of_ascii c + 32) else c.
Definition byte_is (c : ascii) (n : nat) : bool := Nat.eqb (nat_of_ascii c) n.
Fixpoint EqualFold (s t : string) {struct t} : bool :=
  match t, s with
  | "", "" => true
  | String d t', String c s' =>
      if bool_decide (low c = low d) then EqualFold s' t'
      else match s' with
           | String c2 s2 =>
               if bool_decide (low d = "s"%char) && byte_is c 197 && byte_is c2 191 then EqualFold s2 t'
               else match s2 with
                    | String c3 s3 => bool_decide (low d = "k"%char) && byte_is c 226 && byte_is c2 132 && byte_is c3 170 && EqualFold s3 t'
                    | "" => false
                    end
           | "" => false
           end
  | _, _ => false
  end.
Definition ContainsAny (s : string) (l : list ascii) : bool := existsb (λ c, has_char c s) l.
Definition host_char (c : ascii) : bool := is_lower c || in_range c 65 90 || is_digit c || bool_decide (c = "-"%char).
Definition last_char (s : string) : option ascii := last (String.list_ascii_of_string s).
Definition first_char (s : string) : option ascii := match s with "" => None | String c _ => Some c end.
(** A rune outside ASCII has no byte that [host_char] accepts. *)
Definition valid_label (label : string) : bool :=
  negb (bool_decide (label = "")) && Nat.leb (String.length label) 63 && all_chars host_char label &&
  negb (bool_decide (first_char label = Some "-"%char)) && negb (bool_decide (last_char label = Some "-"%char)).
Definition looksLikeIPv4 (host : string) : bool :=
  let labels := Split host "."%char in
  Nat.eqb (length labels) 4 && forallb (λ label, negb (bool_decide (label = "")) && all_chars is_digit label) labels.
Definition isValidApplicationHost (host : string) : bool :=
  let host := TrimSpace host in
  if bool_decide (host = "") || ContainsAny host ["/"%char; " "%char] then false
  else if EqualFold host "localhost" then true
  else match Net.ParseIP host with
       | Some ip => match Net.To4 ip with Some _ => true | None => false end
       | None =>
           if looksLikeIPv4 host then false
           else if Nat.ltb 253 (String.length host) then false
           else forallb valid_label (Split host "."%char)
       end.

Record CreateApplicationRequest := mkCreateApplication {
  ca_Name : string; ca_Description : string; ca_Ip : string; ca_Port : Z; ca_ApplicationType : string; ca_EdgeId : N; ca_DeviceId : option N }.
Record UpdateApplicationRequest := mkUpdateApplication { ua_Id : N; ua_Name : string; ua_Description : string }.
Record UpdateDeviceRequest := mkUpdateDevice { ud_Id : N; ud_Name : string; ud_Description : string }.
Record ScanRequest := mkScan { sr_EdgeId : N; sr_Port : Z; sr_Protocol : string }.

(** ** edge.go: keys *)
Module Base64URL.
Definition alphabet : list ascii := String.list_ascii_of_string "ABCDEFGHIJKLMNOPQRSTUVWXYZabcdefghijklmnopqrstuvwxyz0123456789-_".
Definition digit (n : N) : ascii := nth (N.to_nat n) alphabet "A"%char.
Fixpoint encode (l : list N) : list ascii :=
  match l with
  | [] => []
  | [a] => [digit (a / 4)%N; digit ((a mod 4) * 16)%N]
  | [a; b] => [digit (a / 4)%N; digit ((a mod 4) * 16 + b / 16)%N; digit ((b mod 16) * 4)%N]
  | a :: b :: c :: l' =>
      digit (a / 4)%N :: digit ((a mod 4) * 16 + b / 16)%N :: digit ((b mod 16) * 4 + c / 64)%N :: digit (c mod 64)%N :: encode l'
  end.
Definition EncodeToString (l : list N) : string := String.string_of_list_ascii (encode l).
End Base64URL.
Definition generateAccessKey (timestamp : N) (randomBytes : list N) : string :=
  let data := pretty timestamp +:+ Sha256.EncodeToString randomBytes in
  let encoded := Base64URL.EncodeToString (Utf8.bytes_of data) in
  if Nat.ltb 20 (String.length encoded) then String.substring 0 20 encoded else encoded.
Definition generateSecretKey (randomBytes : list N) : string := Base64URL.EncodeToString randomBytes.

(** ** edge_install.go *)
Record URL := mkURL { url_Scheme : string; url_Hostname : string; url_User : bool; url_RawQuery : string; url_Fragment : string; url_Path : string;
  url_Host : string; url_String : string }.
Record ManagerConf := mkManagerConf { mc_ServerURL : string; mc_TLS : bool; mc_Addr : string; mc_FrontierEdgePort : Z }.
Definition quote_char : string := "'".
Fixpoint ReplaceAll (s : string) (c : ascii) (by_ : string) : string :=
  match s with
  | "" => ""
  | String d s' => (if bool_decide (d = c) then by_ else String d "") +:+ ReplaceAll s' c by_
  end.
Definition shQuote (value : string) : string := quote_char +:+ ReplaceAll value "'"%char (quote_char +:+ dquote +:+ quote_char +:+ dquote +:+ quote_char) +:+ quote_char.
Definition psQuote (value : string) : string := quote_char +:+ ReplaceAll value "'"%char (quote_char +:+ quote_char) +:+ quote_char.
Fixpoint trim_right (l : list ascii) (c : ascii) : list ascii := match l with [] => [] | d :: l' => if bool_decide (d = c) then trim_right l' c else l end.
Definition TrimRight (s : string) (c : ascii) : string :=
  String.string_of_list_ascii (rev (trim_right (rev (String.list_ascii_of_string s)) c)).
Definition JoinHostPort (host port : string) : string :=
  if has_char ":"%char host || has_char "%"%char host then "[" +:+ host +:+ "]:" +:+ port else host +:+ ":" +:+ port.
Fixpoint Contains (s t : string) : bool := String.prefix t s || match s with "" => false | String _ s' => Contains s' t end.
Definition connectorInstallCommands (Parse : string → Result URL) (manager : ManagerConf) (accessKey secretKey : string) : Result (string * string) :=
  let serverURL := TrimSpace (mc_ServerURL manager) in
  let serverURL :=
    if bool_decide (serverURL = "") then (if mc_TLS manager then "https" else "http") +:+ "://" +:+ mc_Addr manager
    else if Contains serverURL "://" then serverURL else "https://" +:+ serverURL in
  match Parse serverURL with
  | Err e => Err (EWrap "parse manager.server_url: " e "")
  | Ok u =>
      if (negb (bool_decide (url_Scheme u = "http")) && negb (bool_decide (url_Scheme u = "https"))) || bool_decide (url_Hostname u = "") || url_User u ||
         negb (bool_decide (url_RawQuery u = "")) || negb (bool_decide (url_Fragment u = ""))
      then Err (ENew "manager.server_url must be an HTTP(S) service URL without credentials, query or fragment") else
      let edgePort := if Z.eqb (mc_FrontierEdgePort manager) 0 then 30012%Z else mc_FrontierEdgePort manager in
      if Z.ltb edgePort 1 || Z.ltb 65535 edgePort then Err (ENew "manager.frontier_edge_port must be between 1 and 65535") else
      let edgeAddr := JoinHostPort (url_Hostname u) (pretty edgePort) in
      let baseURL := TrimRight (url_String u) "/"%char in
      let downloadAddr := if bool_decide (url_Scheme u = "https") && (bool_decide (url_Path u = "") || bool_decide (url_Path u = "/")) then url_Host u else baseURL in
      Ok ("curl -k -fsSL " +:+ shQuote (baseURL +:+ "/install.sh") +:+ " | bash -s -- --access-key=" +:+ shQuote accessKey +:+ " --secret-key=" +:+ shQuote secretKey +:+
            " --server-http-addr=" +:+ shQuote downloadAddr +:+ " --server-edge-addr=" +:+ shQuote edgeAddr,
          "curl.exe -fsSL " +:+ psQuote (baseURL +:+ "/install.ps1") +:+
            " -o install.ps1; if ($LASTEXITCODE -eq 0) { powershell -ExecutionPolicy Bypass -File ./install.ps1 -AccessKey " +:+ psQuote accessKey +:+
            " -SecretKey " +:+ psQuote secretKey +:+ " -ServerHttpAddr " +:+ psQuote downloadAddr +:+ " -ServerEdgeAddr " +:+ psQuote edgeAddr +:+ " }")
  end.

Module Resources.
Section Resources.
Import Control.
Context {DB : Type} {i_iam : IamGorm DB} {i_cp : CpGorm DB} {OS : Type} {i_os : Machine OS}.
Context (ToLower : string → string) (Parse : string → Result URL) (conf : ManagerConf).
#[local] Abbreviation W := (World DB OS).
#[local] Abbreviation C A := (Op W A).

(** ** CreateApplication *)
Definition resolve_device (actor : option N) (req : CreateApplicationRequest) (ip : string) : C N :=
  match ca_DeviceId req with
  | Some (Npos p) =>
      let deviceID := Npos p in
      on_db (requireVisibleResource actor "device" deviceID) ;;
      map_err (mapRecordNotFound "DEVICE_NOT_FOUND" "设备不存在") (on_db (CpDao.GetDeviceByID deviceID)) ;; ret deviceID
  | _ =>
      if bool_decide (ip = "") then ret 0%N
      else if one_of ip ["127.0.0.1"; "::1"] || EqualFold ip "localhost" then
        let! r := try (on_db (CpDao.GetEdgeDevicesByEdgeID (ca_EdgeId req) (Some EdgeDeviceRelationHost))) in
        ret (match r with Ok (r :: _) => ed_DeviceID r | _ => 0%N end)
      else
        let! r := try (on_db (CpDao.GetDeviceByIP ip)) in
        match r with
        | Ok device => ret (d_ID device)
        | Err e => if Is e ErrRecordNotFound then ret 0%N else throw e
        end
  end.
Definition port_range : error := badRequest "APPLICATION_PORT_INVALID" "应用端口必须在 1-65535 之间".
(** The type and the port, each made up from the other when it is missing. *)
Definition type_and_port (req : CreateApplicationRequest) : Result (string * Z) :=
  let appType := ToLower (TrimSpace (ca_ApplicationType req)) in
  let port := ca_Port req in
  if bad_port port then Err port_range else
  let appType := if bool_decide (appType = "") && Z.ltb 0 port then detectApplicationTypeByPort port else appType in
  let port := if Z.eqb port 0 && negb (bool_decide (appType = "")) then getDefaultPortByApplicationType appType else port in
  let appType := if bool_decide (appType = "") then "tcp" else appType in
  if negb (isAllowedApplicationType appType) then Err (badRequest "APPLICATION_TYPE_INVALID" "应用类型无效")
  else if Z.ltb port 1 || Z.ltb 65535 port then Err port_range
  else Ok (appType, port).
Definition CreateApplication (actor : option N) (req : CreateApplicationRequest) : C Application :=
  let! name := normalizeResourceName ToLower (ca_Name req) "App" in
  let ip := TrimSpace (ca_Ip req) in
  throw_if negb (isValidApplicationHost ip) with badRequest "APPLICATION_IP_INVALID" "请输入合法的应用 IPv4、localhost 或主机名" ;;
  throw_if N.eqb (ca_EdgeId req) 0 with badRequest "EDGE_ID_REQUIRED" "连接器不能为空" ;;
  on_db (requireVisibleResource actor "connector" (ca_EdgeId req)) ;;
  map_err (mapRecordNotFound "EDGE_NOT_FOUND" "连接器不存在") (on_db (CpDao.GetEdge (ca_EdgeId req))) ;;
  let! deviceID := resolve_device actor req ip in
  let! typed := lift (type_and_port req) in
  let! application := on_db (CpDao.CreateApplication (mkApplication 0 [ca_EdgeId req] deviceID name (ca_Description req) ip (snd typed) (fst typed))) in
  let! claimed := try (on_db (claimResource actor "application" (a_ID application))) in
  match claimed with
  | Err e => ignore (on_db (CpDao.DeleteApplication (a_ID application))) ;; throw e
  | Ok _ => on_db (CpDao.GetApplicationByID (a_ID application))
  end.
Definition UpdateApplication (actor : option N) (req : UpdateApplicationRequest) : C Application :=
  throw_if N.eqb (ua_Id req) 0 with badRequest "APPLICATION_ID_REQUIRED" "应用 ID 不能为空" ;;
  on_db (requireVisibleResource actor "application" (ua_Id req)) ;;
  let! application := map_err (mapRecordNotFound "APPLICATION_NOT_FOUND" "应用不存在") (on_db (CpDao.GetApplicationByID (ua_Id req))) in
  throw_if negb (bool_decide (ua_Name req = "")) && bool_decide (TrimSpace (ua_Name req) = "") with badRequest "APPLICATION_NAME_REQUIRED" "应用名称不能为空" ;;
  let application := if bool_decide (ua_Name req = "") then application else application <| a_Name := TrimSpace (ua_Name req) |> in
  let application := if bool_decide (ua_Description req = "") then application else application <| a_Description := ua_Description req |> in
  on_db (CpDao.UpdateApplication application) ;;
  on_db (CpDao.GetApplicationByID (ua_Id req)).

(** ** CreateEdge *)
(** tx := Begin(), the statements, then Commit(); an error rolls back. *)
Definition in_transaction {A} (m : Op DB A) : Op DB A := λ s,
  match m (Begin_ s) with
  | (Ok a, s') => match Commit_ s' with (Ok _, s'') => (Ok a, s'') | (Err e, s'') => (Err e, s'') end
  | (Err e, s') => (Err e, Rollback_ s')
  end.
Definition create_edge (actor : option N) (name description accessKey secretKey : string) : Op DB unit :=
  in_transaction (
    let! edge := CpDao.CreateEdge (mkEdge 0 name EdgeStatusRunning EdgeOnlineStatusOffline description) in
    claimResource actor "connector" (e_ID edge) ;;
    CpDao.CreateAccessKey (mkAccessKey 0 (e_ID edge) accessKey secretKey) ;; ret tt).
Definition generateAccessKeyPair : C (string * string) := λ w,
  let '(timestamp, os) := unix_nano (wd_os w) in
  let '(r8, os) := random_bytes 8 os in
  let '(r32, os) := random_bytes 32 os in
  (Ok (generateAccessKey timestamp r8, generateSecretKey r32), mkWorld (wd_db w) (wd_planes w) os).
Definition CreateEdge (actor : option N) (name description : string) : C (string * string * string * string) :=
  let! name := normalizeResourceName ToLower name "Connector" in
  let! keys := generateAccessKeyPair in
  let '(accessKey, secretKey) := keys in
  let! commands := lift (connectorInstallCommands Parse conf accessKey secretKey) in
  on_db (create_edge actor name description accessKey secretKey) ;;
  ret (accessKey, secretKey, fst commands, snd commands).

(** ** Scanning through a connector *)
Definition preconditionFailed (reason message : string) : error := http_error 412 reason message None.
(** The task's number; nil, and no error either, when it could not be sent and
    was marked as failed. *)
Definition CreateEdgeScanApplicationTask (actor : option N) (req : ScanRequest) : C (option N) :=
  throw_if N.eqb (sr_EdgeId req) 0 with badRequest "EDGE_ID_REQUIRED" "连接器 ID 不能为空" ;;
  on_db (requireVisibleResource actor "connector" (sr_EdgeId req)) ;;
  throw_if bad_port (sr_Port req) with badRequest "SCAN_PORT_INVALID" "扫描端口必须在 1-65535 之间，或留空扫描常用端口" ;;
  let protocol := ToLower (TrimSpace (sr_Protocol req)) in
  let protocol := if bool_decide (protocol = "") then "tcp" else protocol in
  throw_if negb (one_of protocol ["tcp"; "udp"]) with badRequest "SCAN_PROTOCOL_INVALID" "扫描协议仅支持 tcp 或 udp" ;;
  let! edge := map_err (mapRecordNotFound "EDGE_NOT_FOUND" "连接器不存在") (on_db (CpDao.GetEdge (sr_EdgeId req))) in
  throw_if Z.eqb (e_Status edge) EdgeStatusStopped with preconditionFailed "EDGE_STOPPED" "连接器已禁用，无法扫描应用" ;;
  throw_if negb (Z.eqb (e_Online edge) EdgeOnlineStatusOnline) with preconditionFailed "EDGE_OFFLINE" "连接器离线，无法扫描应用" ;;
  let! edgeDevices := try (on_db (CpDao.GetEdgeDevicesByEdgeID (sr_EdgeId req) (Some EdgeDeviceRelationHost))) in
  match edgeDevices with
  | Err _ | Ok [] => throw (conflict "EDGE_DEVICE_MISSING" "连接器未关联设备，无法扫描应用")
  | Ok (r :: _) =>
      let! device := map_err (mapRecordNotFound "DEVICE_NOT_FOUND" "连接器关联设备不存在") (on_db (CpDao.GetDeviceByID (ed_DeviceID r))) in
      let params := mkScanParams (map (i_IP : EthernetInterface → string) (snd device)) (sr_Port req) protocol in
      let! task := on_db (CpDao.CreateTask (mkTask 0 (sr_EdgeId req) TaskStatusPending params [] "")) in
      let! sent := try (on_os (emit (tk_ID task) (sr_EdgeId req) params)) in
      match sent with
      | Err e => on_db (CpDao.UpdateTaskError (tk_ID task) (Error e)) ;; ret None
      | Ok _ => ret (Some (tk_ID task))
      end
  end.
(** What the task's own goroutine does ten minutes later. *)
Definition expire_task (id : N) : C unit :=
  let! task := try (on_db (CpDao.GetTask id)) in
  match task with
  | Err _ => ret tt
  | Ok task =>
      if Z.eqb (tk_Status task) TaskStatusPending || Z.eqb (tk_Status task) TaskStatusRunning
      then ignore (on_db (CpDao.UpdateTaskError (tk_ID task) "task expired")) else ret tt
  end.

(** ** UpdateDevice *)
Definition UpdateDevice (actor : option N) (req : UpdateDeviceRequest) : C unit :=
  throw_if N.eqb (ud_Id req) 0 with badRequest "DEVICE_ID_REQUIRED" "设备 ID 不能为空" ;;
  on_db (requireVisibleResource actor "device" (ud_Id req)) ;;
  throw_if bool_decide (TrimSpace (ud_Name req) = "") with badRequest "DEVICE_NAME_REQUIRED" "设备名称不能为空" ;;
  let! device := map_err (mapRecordNotFound "DEVICE_NOT_FOUND" "设备不存在") (on_db (CpDao.GetDeviceByID (ud_Id req))) in
  on_db (CpDao.UpdateDevice ((fst device) <| d_Name := TrimSpace (ud_Name req) |> <| d_Description := ud_Description req |>)).
End Resources.
End Resources.
