(* ===== verification/ControlInvariant.v ===== *)
(** * manager/controlplane: every listener has a row behind it

    The invariant [backed_up]: an access that listens on a port is stored,
    running, with that port, and its application and connector are there, the
    connector running.  Calls are classified by what they touch: [quiet] ones
    touch neither the listeners nor the three tables the invariant reads;
    starting and stopping an access touch the listeners of that access alone. *)

From S2P Require Import Prelude ToolTypes IamDao ControlDao NetAddr Firewall EntryPlanes ControlPlane.
Import Control.

(** Queries on the tables of accounts leave those of the control plane alone. *)
Class AccountQueries (DB : Type) {i_iam : IamGorm DB} {i_cp : CpGorm DB} {l_cp : CpGormLaws DB} : Prop := {
  First_frame {Row} `{!IamTable Row} preload p s :
    same_tables (tbl s) (tbl (snd (First (Row := Row) preload p s))) ∧ saved_ (snd (First (Row := Row) preload p s)) = saved_ s;
  Find_frame {Row} `{!IamTable Row} preload p less s :
    same_tables (tbl s) (tbl (snd (Find (Row := Row) preload p less s))) ∧ saved_ (snd (Find (Row := Row) preload p less s)) = saved_ s
}.

Definition vital (t : tag) : bool := match t with TAccess | TApplication | TEdge => true | _ => false end.

Section Invariant.
Context {DB : Type} {i_iam : IamGorm DB} {i_cp : CpGorm DB} {l_cp : CpGormLaws DB} {l_frame : AccountQueries DB}.
Context {OS : Type} {i_os : Machine OS} {l_os : MachineLaws OS}.
Context (ToLower : string → string) (certs : list (string * string)).
#[local] Abbreviation W := (World DB OS).
#[local] Abbreviation C A := (Op W A).

(** The table [t], and the listeners. *)
Definition rows_of (w : W) (t : tag) : gmap N (row t) := tbl (wd_db w) t.
Definition accesses (w : W) : gmap N Access := rows_of w TAccess.
Definition applications (w : W) : gmap N Application := rows_of w TApplication.
Definition edges (w : W) : gmap N Edge := rows_of w TEdge.
Definition at_port (w : W) (pl : plane) (id : Z) : option Z := listeners pl (wd_planes w) !! id.
Definition same_vital (w w' : W) : Prop := ∀ t, vital t = true → rows_of w' t = rows_of w t.

(** ** Quiet calls *)
Record quieter (w w' : W) : Prop := {
  q_rows : same_vital w w';
  q_ports pl id : at_port w' pl id = at_port w pl id;
  q_sound : sound (wd_planes w) → sound (wd_planes w')
}.
Definition quiet {A} (m : C A) : Prop := ∀ w, quieter w (snd (m w)).
#[export] Instance quieter_preorder : PreOrder quieter.
Proof.
  split; [by intros w; split|]. intros w w1 w2 [R1 P1 S1] [R2 P2 S2]. split; [|by intros; rewrite P2|by auto].
  intros t Ht. by rewrite R2, R1.
Qed.
Lemma cp_quiet_ret {A} (a : A) : quiet (ret a : C A).
Proof. intros w. reflexivity. Qed.
Lemma cp_quiet_throw {A} e : quiet (throw e : C A).
Proof. intros w. reflexivity. Qed.
Lemma cp_quiet_lift {A} (r : Result A) : quiet (lift r : C A).
Proof. intros w. reflexivity. Qed.
Lemma quiet_check o : quiet (check o : C unit).
Proof. intros w. reflexivity. Qed.
Lemma cp_quiet_bind {A B} (m : C A) (k : A → C B) : quiet m → (∀ a, quiet (k a)) → quiet (bind m k).
Proof. intros Hm Hk w. unfold bind. specialize (Hm w). destruct (m w) as [[a|e] w1]; [|done]. etransitivity; [done|apply Hk]. Qed.
Lemma quiet_attempt {A} (m : C A) : quiet m → quiet (attempt m).
Proof. intros Hm w. unfold attempt. specialize (Hm w). destruct (m w) as [[a|e] w1]; [done|]. by destruct (Is e panicked). Qed.
Lemma quiet_try {A} (m : C A) : quiet m → quiet (try m).
Proof. intros Hm w. unfold try. specialize (Hm w). by destruct (m w). Qed.
Lemma quiet_ignore {A} (m : C A) : quiet m → quiet (ignore m).
Proof. intros Hm. apply cp_quiet_bind; [by apply quiet_try|intros; apply cp_quiet_ret]. Qed.
Lemma quiet_map_err {A} f (m : C A) : quiet m → quiet (map_err f m).
Proof. intros Hm w. unfold map_err. specialize (Hm w). by destruct (m w) as [[a|e] w1]. Qed.
Lemma quiet_each {A} (f : A → C unit) l : (∀ a, quiet (f a)) → quiet (each f l).
Proof. intros Hf. induction l as [|a l IH]; [apply cp_quiet_ret|]. apply cp_quiet_bind; [apply Hf|by intros _]. Qed.

(** Database calls that leave the three tables alone. *)
Definition reads {A} (m : Op DB A) : Prop := ∀ s t, vital t = true → tbl (snd (m s)) t = tbl s t.
Lemma quiet_db {A} (m : Op DB A) : reads m → quiet (on_db m).
Proof. intros Hm w. unfold on_db. specialize (Hm (wd_db w)). destruct (m (wd_db w)) as [x db]. by split. Qed.
Lemma cp_reads_ret {A} (a : A) : reads (ret a).
Proof. by intros s t. Qed.
Lemma cp_reads_throw {A} e : reads (throw e : Op DB A).
Proof. by intros s t. Qed.
Lemma cp_reads_bind {A B} (m : Op DB A) (k : A → Op DB B) : reads m → (∀ a, reads (k a)) → reads (bind m k).
Proof. intros Hm Hk s t Ht. unfold bind. specialize (Hm s t Ht). destruct (m s) as [[a|e] s1]; [|done]. cbn in Hm. by rewrite <- Hm, Hk. Qed.
Lemma cp_reads_First t p : reads (First_ t p).
Proof. intros s t' _. destruct (First_ t p s) as [x s'] eqn:E. apply First_law_ in E as (_ & H & _). apply H. Qed.
Lemma cp_reads_Find t p : reads (Find_ t p).
Proof. intros s t' _. destruct (Find_ t p s) as [x s'] eqn:E. apply Find_law_ in E as (_ & H & _). apply H. Qed.
Lemma reads_Delete t p : vital t = false → reads (Delete_ t p).
Proof.
  intros Hv s t' Ht. destruct (Delete_ t p s) as [x s'] eqn:E. apply Delete_law_ in E as (_ & H). destruct x; [|apply H].
  destruct H as [_ H]. apply H. by intros ->; rewrite Hv in Ht.
Qed.
Lemma reads_Create t r : vital t = false → reads (Create_ t r).
Proof.
  intros Hv s t' Ht. destruct (Create_ t r s) as [x s'] eqn:E. apply Create_law_ in E as (_ & H). destruct x; [|apply H].
  destruct H as (id & _ & _ & _ & _ & H). apply H. by intros ->; rewrite Hv in Ht.
Qed.
Lemma reads_Updates t p f : vital t = false → (∀ r, id_of t (f r) = id_of t r) → reads (Updates_ t p f).
Proof.
  intros Hv Hf s t' Ht. destruct (Updates_ t p f s) as [x s'] eqn:E. apply (Updates_law_ t p f s x s' (λ r _, Hf r)) in E as (_ & H). destruct x; [|apply H].
  destruct H as [_ H]. apply H. by intros ->; rewrite Hv in Ht.
Qed.
Lemma reads_or_none {A} (m : Op DB A) : reads m → reads (CpDao.or_none m).
Proof. intros Hm s t Ht. unfold CpDao.or_none. specialize (Hm s t Ht). destruct (m s) as [[a|e] s1]; [done|]. by destruct (Is e ErrRecordNotFound). Qed.
Lemma cp_reads_or_nil {A} (m : Op DB A) : reads m → reads (Repo.or_nil m).
Proof. intros Hm s t Ht. unfold Repo.or_nil. specialize (Hm s t Ht). destruct (m s) as [[a|e] s1]; [done|]. by destruct (Is e ErrRecordNotFound). Qed.
Lemma reads_Relation r : reads (OnConflictCreate_ r).
Proof. intros s t Ht. destruct (OnConflictCreate_ r s) as [x s'] eqn:E. apply OnConflict_law_ in E as [_ H]. apply H. by intros ->. Qed.
Lemma reads_Joins ip : reads (JoinsFirst_ ip).
Proof. intros s t _. destruct (JoinsFirst_ ip s) as [x s'] eqn:E. apply Joins_law_ in E as (_ & H & _). apply H. Qed.
End Invariant.

(** ** Automation: a call is quiet because its parts are *)
Create HintDb reading.
#[export] Hint Resolve cp_reads_ret cp_reads_throw cp_reads_First cp_reads_Find reads_or_none cp_reads_or_nil reads_Relation reads_Joins : reading.
Ltac reading := repeat first
  [ solve [eauto with reading] | match goal with
    | |- reads (Find_ ?t ?p) => exact (cp_reads_Find t p)
    | |- reads (First_ ?t ?p) => exact (cp_reads_First t p)
    | |- reads (Create_ ?t ?r) => exact (reads_Create t r eq_refl)
    end
  | apply cp_reads_bind; [|intros ?] | apply reads_or_none | apply cp_reads_or_nil | apply reads_Delete; reflexivity
  | apply reads_Updates; [reflexivity|by intros []]
  | match goal with |- reads (match ?x with _ => _ end) => destruct x end
  | match goal with |- reads (if ?b then _ else _) => destruct b end ].
Create HintDb quiet.
#[export] Hint Resolve cp_quiet_ret cp_quiet_throw cp_quiet_lift quiet_check : quiet.
Ltac quietly := repeat first
  [ solve [auto with quiet] | apply cp_quiet_bind; [|intros ?] | apply quiet_attempt | apply quiet_try | apply quiet_ignore | apply quiet_map_err
  | apply quiet_each; intros ? | apply quiet_db; solve [reading]
  | match goal with |- quiet (match ?x with _ => _ end) => destruct x end
  | match goal with |- quiet (if ?b then _ else _) => destruct b end ].

Section Quiet.
Context {DB : Type} {i_iam : IamGorm DB} {i_cp : CpGorm DB} {l_cp : CpGormLaws DB} {l_frame : AccountQueries DB}.
Context {OS : Type} {i_os : Machine OS} {l_os : MachineLaws OS}.
Context (ToLower : string → string) (certs : list (string * string)).
#[local] Abbreviation W := (World DB OS).
#[local] Abbreviation C A := (Op W A).

Lemma reads_iam_First {Row} {i : IamTable Row} preload p : reads (First (Row := Row) preload p : Op DB Row).
Proof. intros s t _. apply First_frame. Qed.
Lemma reads_iam_Find {Row} {i : IamTable Row} preload p less : reads (Find (Row := Row) preload p less : Op DB (list Row)).
Proof. intros s t _. apply Find_frame. Qed.
#[local] Hint Resolve reads_iam_First reads_iam_Find : reading.
Lemma reads_visible actor ty id : reads (requireVisibleResource (DB := DB) actor ty id).
Proof.
  unfold requireVisibleResource, visibleResourceIDs, isRootAdministrator, Repo.GetRootOrganization, Repo.GetIAMRoleBinding, CpDao.ListIAMResourceIDsForSubject.
  reading.
Qed.
Lemma reads_claim actor ty id : reads (claimResource (DB := DB) actor ty id).
Proof. unfold claimResource, Repo.ListUserOrganizations, CpDao.UpsertIAMResourceRelation. reading. Qed.
#[local] Hint Resolve reads_visible reads_claim : reading.

Lemma quiet_allow id cidrs : quiet (firewall_allow (DB := DB) (OS := OS) id cidrs).
Proof.
  intros w. unfold firewall_allow, Unified.Allow. destruct (Firewall.Allow _ _ _) as [x m]. cbn. split; [done|by intros []|]. by intros [].
Qed.
Lemma quiet_revoke id : quiet (firewall_revoke (DB := DB) (OS := OS) id).
Proof. intros w. split; [done|by intros []|]. by intros []. Qed.
Lemma quiet_os {A} (m : OS → Result A * OS) : quiet (on_os (DB := DB) m).
Proof. intros w. unfold on_os. by destruct (m (wd_os w)). Qed.
Lemma quiet_probe : quiet (probeFreeTCPPort (DB := DB) (OS := OS)).
Proof. intros w. unfold probeFreeTCPPort. apply quiet_os. Qed.
#[local] Hint Resolve quiet_allow quiet_revoke quiet_os quiet_probe : quiet.
Lemma quiet_reapply id port : quiet (reapplyFirewall (DB := DB) (OS := OS) id port).
Proof. unfold reapplyFirewall, CpDao.GetFirewallRuleByProxyID. quietly. Qed.
Lemma quiet_conflict port id : quiet (findProxyPortConflict (DB := DB) (OS := OS) port id).
Proof. unfold findProxyPortConflict, CpDao.ListProxies. quietly. Qed.
#[local] Hint Resolve quiet_conflict : quiet.
Lemma quiet_ensure port id : quiet (ensureProxyPortAvailable (DB := DB) (OS := OS) port id).
Proof. unfold ensureProxyPortAvailable. quietly. Qed.
Lemma quiet_allocate id : quiet (allocateAvailableProxyPort (DB := DB) (OS := OS) id).
Proof. unfold allocateAvailableProxyPort. generalize 32. intros n. induction n; cbn [allocate]; quietly. Qed.
#[local] Hint Resolve quiet_reapply quiet_ensure quiet_allocate : quiet.
Lemma quiet_eligible x a : quiet (proxyRuntimeEligible (DB := DB) (OS := OS) x a).
Proof. unfold proxyRuntimeEligible, CpDao.GetEdge. quietly. Qed.
Lemma quiet_validate a : quiet (validateProxyApplication (DB := DB) (OS := OS) a).
Proof. unfold validateProxyApplication, CpDao.GetEdge. quietly. Qed.
#[local] Hint Resolve quiet_eligible quiet_validate : quiet.
Lemma quiet_transform x a : quiet (transformProxy (DB := DB) (OS := OS) x a).
Proof. unfold transformProxy, proxyEffectiveStatus. quietly. Qed.
Lemma quiet_tasks e reason : quiet (failActiveEdgeTasks (DB := DB) (OS := OS) e reason).
Proof. unfold failActiveEdgeTasks, CpDao.ListTasks, CpDao.UpdateTaskError. quietly. Qed.
Lemma quiet_rules : quiet (RestoreFirewallRules (DB := DB) (OS := OS)).
Proof. unfold RestoreFirewallRules, restore_rule, CpDao.ListAllFirewallRules, CpDao.GetProxyByID, CpDao.GetApplicationByID. quietly. Qed.
Lemma quiet_applications e : quiet (listApplicationsByEdgeID (DB := DB) (OS := OS) e).
Proof. unfold listApplicationsByEdgeID, CpDao.ListApplications. quietly. Qed.
#[local] Hint Resolve quiet_applications quiet_transform quiet_tasks : quiet.
Lemma quiet_proxies e : quiet (listProxiesByEdgeID (DB := DB) (OS := OS) e).
Proof. unfold listProxiesByEdgeID, CpDao.ListProxies. quietly. Qed.
Lemma quiet_for_firewall actor id : quiet (getProxyForFirewall (DB := DB) (OS := OS) actor id).
Proof. unfold getProxyForFirewall, CpDao.GetProxyByID. quietly. Qed.
Lemma quiet_resolve protocol port : quiet (resolveCreateProxyPort (DB := DB) (OS := OS) protocol port).
Proof. unfold resolveCreateProxyPort. quietly. Qed.
Lemma quiet_resolve_update protocol x port b : quiet (resolveUpdateProxyPort (DB := DB) (OS := OS) protocol x port b).
Proof. unfold resolveUpdateProxyPort. quietly. Qed.
#[local] Hint Resolve quiet_for_firewall quiet_resolve_update : quiet.
Lemma quiet_requested_port req x a : quiet (requested_port (DB := DB) (OS := OS) req x a).
Proof. unfold requested_port. quietly. Qed.
Lemma quiet_name name prefix : quiet (normalizeResourceName (DB := DB) (OS := OS) ToLower name prefix).
Proof. unfold normalizeResourceName. quietly. Qed.
Lemma quiet_upsert_rule actor id cidrs : quiet (UpsertProxyFirewall (DB := DB) (OS := OS) actor id cidrs).
Proof. unfold UpsertProxyFirewall, CpDao.UpsertFirewallRule. quietly. Qed.
Lemma quiet_delete_rule actor id : quiet (DeleteProxyFirewall (DB := DB) (OS := OS) actor id).
Proof. unfold DeleteProxyFirewall, CpDao.DeleteFirewallRuleByProxyID. quietly. Qed.
End Quiet.
#[export] Hint Resolve reads_iam_First reads_iam_Find reads_visible reads_claim : reading.
#[export] Hint Resolve quiet_allow quiet_revoke quiet_os quiet_probe quiet_reapply quiet_conflict quiet_ensure quiet_allocate quiet_eligible quiet_validate
  quiet_transform quiet_tasks quiet_rules quiet_applications quiet_proxies quiet_for_firewall quiet_resolve quiet_resolve_update quiet_requested_port
  quiet_name quiet_upsert_rule quiet_delete_rule : quiet.

(** ** The invariant *)
Section Backed.
Context {DB : Type} {i_iam : IamGorm DB} {i_cp : CpGorm DB} {l_cp : CpGormLaws DB} {l_frame : AccountQueries DB}.
Context {OS : Type} {i_os : Machine OS} {l_os : MachineLaws OS}.
Context (ToLower : string → string) (certs : list (string * string)).
#[local] Abbreviation W := (World DB OS).
#[local] Abbreviation C A := (Op W A).

(** An access may run: it is on, its connector is there and on, and its
    protocol needs a public port. *)
Definition runnable (w : W) (x : Access) (a : Application) : Prop :=
  x_Status x = ProxyStatusRunning ∧ accessProtocolRequiresPublicPort (effectiveAccessProtocol x a) = true ∧
  ∃ e es edge, a_EdgeIDs a = e :: es ∧ edges w !! e = Some edge ∧ e_Status edge = EdgeStatusRunning.
(** The data plane that serves a protocol. *)
Definition plane_of (protocol : string) : option plane :=
  if one_of protocol ["mysql"; "postgresql"] then None
  else if bool_decide (protocol = "ssh") then Some PSsh
  else if bool_decide (protocol = "http") then Some PHttp
  else Some PTcp.
(** What stands behind the listener of the access [id] on [port]. *)
Definition backed (w : W) (pl : plane) (id port : Z) : Prop := ∃ x a,
  id = Z.of_N (x_ID x) ∧ accesses w !! x_ID x = Some x ∧ (x_Port x = port ∨ x_Port x = 0%Z) ∧
  applications w !! x_ApplicationID x = Some a ∧ runnable w x a ∧ plane_of (effectiveAccessProtocol x a) = Some pl.
Definition backed_but (P : Z → Prop) (w : W) : Prop :=
  sound (wd_planes w) ∧ ∀ pl id port, at_port w pl id = Some port → ¬ P id → backed w pl id port.
Definition backed_up (w : W) : Prop := backed_but (λ _, False) w.

Lemma same_accesses (w w' : W) : same_vital w w' → accesses w' = accesses w.
Proof. intros H. exact (H TAccess eq_refl). Qed.
Lemma same_applications (w w' : W) : same_vital w w' → applications w' = applications w.
Proof. intros H. exact (H TApplication eq_refl). Qed.
Lemma same_edges (w w' : W) : same_vital w w' → edges w' = edges w.
Proof. intros H. exact (H TEdge eq_refl). Qed.
Lemma runnable_same w w' x a : same_vital w w' → runnable w x a → runnable w' x a.
Proof. intros Hs (H1 & H2 & e & es & edge & H3 & H4 & H5). split; [done|]. split; [done|]. exists e, es, edge. by rewrite (same_edges _ _ Hs). Qed.
Lemma backed_same w w' pl id port : same_vital w w' → backed w pl id port → backed w' pl id port.
Proof.
  intros Hs (x & a & H1 & H2 & H3 & H4 & H5 & H6). exists x, a. rewrite (same_accesses _ _ Hs), (same_applications _ _ Hs).
  split_and!; try done. by eapply runnable_same.
Qed.
Lemma quieter_backed_but P w w' : quieter w w' → backed_but P w → backed_but P w'.
Proof. intros [R Q S] [Hs Hb]. split; [by apply S|]. intros pl id port. rewrite Q. intros H HP. by eapply backed_same, Hb. Qed.
Lemma keyed_row (w : W) t k r : rows_of w t !! k = Some r → id_of t r = k ∧ k ≠ 0%N.
Proof. apply tbl_keyed. Qed.

(** ** Stopping an access *)
Record stopped (id : Z) (w w' : W) : Prop := {
  stopped_rows : ∀ t, rows_of w' t = rows_of w t;
  stopped_sound : sound (wd_planes w');
  stopped_ports pl id' : at_port w' pl id' = if bool_decide (id' = id) then None else at_port w pl id'
}.
Lemma unified_delete_ports env id pl w : sound w → let w' := snd (Unified.DeleteProxy env id w) in
  sound w' ∧ ∀ id', listeners pl w' !! id' = if bool_decide (id' = id) then None else listeners pl w !! id'.
Proof.
  intros Hw. split; [exact (EntryPlanes.step_sound _ _ (EntryPlanes.step_delete env id w) Hw)|].
  destruct (unified_delete env id w Hw) as (w1 & w2 & R1 & R2 & R3 & _). intros id'. case_bool_decide as Hid; [subst id'|].
  - destruct pl; [rewrite (released_other _ _ _ _ _ _ R3) by auto|rewrite (released_other _ _ _ _ _ _ R3), (released_other _ _ _ _ _ _ R2) by auto|];
      eapply released_self; eassumption.
  - rewrite (released_other _ _ _ _ _ _ R3), (released_other _ _ _ _ _ _ R2), (released_other _ _ _ _ _ _ R1); auto.
Qed.
Lemma stop_spec x (w : W) : sound (wd_planes w) → stopped (Z.of_N (x_ID x)) w (snd (stopProxyRuntime x w)).
Proof.
  intros Hs. unfold stopProxyRuntime, bind, manager_delete. destruct (observe _ _ _) as [env os].
  pose proof (λ pl, unified_delete_ports env (Z.of_N (x_ID x)) pl (wd_planes w) Hs) as Hd.
  destruct (Unified.DeleteProxy _ _ _) as [r pl1]. cbn [snd] in Hd.
  assert (stopped (Z.of_N (x_ID x)) w (mkWorld (wd_db w) pl1 os)) as Hst.
  { split; [done|apply (Hd PTcp)|]. intros pl id'. apply Hd. }
  destruct r as [[]|e]; [|done]. destruct (Z.ltb 0 (x_Port x)); [|done].
  pose proof (quiet_revoke (x_ID x) (mkWorld (wd_db w) pl1 os)) as [_ Q2 Q3].
  destruct Hst as [S1 S2 S3]. split; [done|by apply Q3|]. intros pl id'. by rewrite Q2, S3.
Qed.
Lemma stopped_backed id P w w' : stopped id w w' → backed_but P w → backed_but (λ i, P i ∧ i ≠ id) w'.
Proof.
  intros [R S Q] [_ Hb]. split; [done|]. intros pl id' port. rewrite Q. case_bool_decide as Hid; [done|]. intros H HP.
  apply (backed_same w); [by intros t _|]. apply (Hb pl); [done|]. intros HP'. by apply HP.
Qed.
Lemma backed_but_weaken (P Q : Z → Prop) w : (∀ i, P i → Q i) → backed_but P w → backed_but Q w.
Proof. intros HPQ [Hs Hb]. split; [done|]. intros pl id port H HQ. apply (Hb pl); [done|]. auto. Qed.
(** Without its listener an access needs no row. *)
Lemma absent_backed P w : backed_but P w → (∀ pl id, P id → at_port w pl id = None) → backed_up w.
Proof.
  intros [Hs Hb] Hn. split; [done|]. intros pl id port H _. apply (Hb pl); [done|]. intros HP. apply Hn with (pl := pl) in HP. congruence.
Qed.

(** ** Starting an access *)
Lemma eligible_spec x a (w : W) w' : proxyRuntimeEligible x a w = (Ok true, w') → runnable w x a.
Proof.
  unfold proxyRuntimeEligible. destruct (Z.eqb_spec (x_Status x) ProxyStatusRunning) as [Hr|]; [|done]. cbn [negb].
  destruct (a_EdgeIDs a) as [|e es] eqn:He; [done|]. unfold isWebOnlyProxy. destruct (accessProtocolRequiresPublicPort _) eqn:Hp; [|done]. cbn [negb].
  unfold bind, map_err, on_db, CpDao.GetEdge. destruct (First_ TEdge _ (wd_db w)) as [[edge|err] db] eqn:E; [|done]. apply First_law_ in E as (_ & _ & E & Ei).
  destruct (Z.eqb_spec (e_Status edge) EdgeStatusStopped); [done|]. destruct (Z.eqb_spec (e_Status edge) EdgeStatusRunning) as [Hre|]; [|done]. intros _.
  split; [done|]. split; [done|]. exists e, es, edge. split_and!; [done| |done]. apply bool_decide_eq_true in Ei. cbn in E. unfold edges, rows_of. by rewrite <- Ei.
Qed.
Lemma runtime_plane p : runtimeForProxy p =
  match plane_of (px_AccessProtocol p) with Some PTcp => proxyRuntimeTCP | Some PHttp => proxyRuntimeHTTP | Some PSsh => proxyRuntimeSSH | None => proxyRuntimeDB end.
Proof.
  unfold runtimeForProxy, plane_of, one_of. destruct (decide (px_AccessProtocol p = "mysql")) as [->|]; [done|].
  destruct (decide (px_AccessProtocol p = "postgresql")) as [->|]; [done|].
  rewrite (bool_decide_eq_false_2 (px_AccessProtocol p = "mysql")), (bool_decide_eq_false_2 (px_AccessProtocol p = "postgresql")) by done.
  rewrite (bool_decide_eq_false_2 (px_AccessProtocol p ∈ _)) by set_solver. cbn. by repeat case_bool_decide.
Qed.
(** One call of the proxy manager: nothing, or one listener more, on the plane
    of the protocol. *)
Definition opened (pl : plane) (p p' : Proxy) (w w' : Planes) : Prop :=
  (0 < px_ProxyPort p')%Z ∧ (px_ProxyPort p ≠ 0%Z → px_ProxyPort p' = px_ProxyPort p) ∧
  ∀ pl', listeners pl' w' !! px_ID p = if bool_decide (pl' = pl) then Some (px_ProxyPort p') else listeners pl' w !! px_ID p.
Lemma created_ports pl env p w o p' w' : created pl env p w (o, p', w') → bound (w_open w) (px_ProxyPort p) (listen env) →
  (∀ pl' id, id ≠ px_ID p → listeners pl' w' !! id = listeners pl' w !! id) ∧
  match o with
  | Returned (Ok _) => (p' = p ∧ w' = w) ∨ opened pl p p' w w'
  | _ => ∀ pl' id, listeners pl' w' !! id = listeners pl' w !! id
  end.
Proof.
  intros Hc Hb. destruct o as [[u|e]|]; cbn in Hc.
  - destruct Hc as [(_ & _ & -> & ->)|(Hl & _ & Hreq & Hbind & _)]; [by auto|]. rewrite Hl in Hb. destruct Hb as (_ & Hpos & _). split.
    + intros pl' id Hne. rewrite Hbind, bool_decide_eq_false_2; [done|]. by intros [_ ->].
    + right. split_and!; [lia|done|]. intros pl'. rewrite Hbind. by do 2 case_bool_decide; try tauto.
  - destruct Hc as [->|(_ & _ & q & ->)]; [done|]. split; by intros [].
  - destruct Hc as (_ & _ & _ & ->). done.
Qed.
Lemma create_spec p (w : W) : sound (wd_planes w) → let '(r, w') := manager_create certs p w in
  (∀ t, rows_of w' t = rows_of w t) ∧ sound (wd_planes w') ∧
  (∀ pl id, id ≠ px_ID p → at_port w' pl id = at_port w pl id) ∧
  match r with
  | Ok p' => (p' = p ∧ wd_planes w' = wd_planes w) ∨ ∃ pl, plane_of (px_AccessProtocol p) = Some pl ∧ opened pl p p' (wd_planes w) (wd_planes w')
  | Err _ => ∀ pl, at_port w' pl (px_ID p) = at_port w pl (px_ID p)
  end.
Proof.
  intros Hs. unfold manager_create. pose proof (observe_bound (w_open (wd_planes w)) (px_ProxyPort p) (wd_os w)) as Hb.
  destruct (observe _ _ _) as [env os]. cbn [fst] in Hb. destruct (unified_create certs env p (wd_planes w) Hs Hb) as [Hs' Hc].
  destruct (Unified.CreateProxy certs env p (wd_planes w)) as [[o p'] w'] eqn:E. cbn [fst snd] in Hs', Hc. rewrite runtime_plane in Hc.
  destruct (plane_of (px_AccessProtocol p)) as [pl|].
  - assert (created pl env p (wd_planes w) (o, p', w')) as Hcr by (by destruct pl). clear Hc.
    destruct (created_ports _ _ _ _ _ _ _ Hcr Hb) as [H1 H2].
    destruct o as [[u|e]|]; (split_and!; [done|done|by intros; apply H1|]); [|by intros; apply H2..]. destruct H2; [by left|right; by exists pl].
  - destruct Hc as [[e He] ->]. by destruct o as [[u|e']|].
Qed.
(** What starting the access [x] leaves. *)
Record started (x : Access) (a : Application) (r : Result Access) (w w' : W) : Prop := {
  started_rows : same_vital w w';
  started_sound : sound (wd_planes w');
  started_others pl id : id ≠ Z.of_N (x_ID x) → at_port w' pl id = at_port w pl id;
  started_this : match r with
    | Ok x' => (∃ port, x' = x <| x_Port := port |> ∧ (x_Port x = port ∨ x_Port x = 0%Z)) ∧
        ∀ pl port, at_port w' pl (Z.of_N (x_ID x)) = Some port →
          (at_port w pl (Z.of_N (x_ID x)) = Some port ∧ (plane_of (effectiveAccessProtocol x a) = Some pl → x' = x)) ∨
          (runnable w x a ∧ x_Port x' = port ∧ (0 < port)%Z ∧ plane_of (effectiveAccessProtocol x a) = Some pl)
    | Err _ => ∀ pl port, at_port w' pl (Z.of_N (x_ID x)) = Some port → at_port w pl (Z.of_N (x_ID x)) = Some port
    end
}.
Lemma same_vital_sym (w w' : W) : same_vital w w' → same_vital w' w.
Proof. intros H t Ht. by rewrite H. Qed.
Lemma started_quieter x a r w w1 w2 : quieter w w1 → started x a r w1 w2 → started x a r w w2.
Proof.
  intros [R P S] [R' S' O T]. split; [intros t Ht; by rewrite R', R|done|intros pl id Hid; by rewrite O, P|].
  destruct r as [x'|e]; [|intros pl port H; rewrite <- P; by apply T]. destruct T as [T1 T2]. split; [done|]. intros pl port H.
  rewrite <- P. destruct (T2 _ _ H) as [?|[Hr ?]]; [by left|right]. split; [|done]. by eapply runnable_same, Hr; apply same_vital_sym.
Qed.
Lemma started_then x a r w w1 w2 : started x a r w w1 → quieter w1 w2 → started x a r w w2.
Proof.
  intros [R S O T] [R' P' S']. split; [intros t Ht; by rewrite R', R|by apply S'|intros pl id Hid; by rewrite P', O|].
  destruct r as [x'|e]; [destruct T as [T1 T2]; split; [done|]|]; intros pl port; rewrite P'; by auto.
Qed.
Lemma quieter_started_err x a e w w' : quieter w w' → sound (wd_planes w) → started x a (Err e) w w'.
Proof. intros [R P S] Hs. split; [done|by apply S|intros; apply P|]. intros pl port. by rewrite P. Qed.
Lemma quieter_started_ok x a w w' : quieter w w' → sound (wd_planes w) → started x a (Ok x) w w'.
Proof.
  intros [R P S] Hs. split; [done|by apply S|intros; apply P|]. split; [exists (x_Port x); split; [by destruct x|by left]|].
  intros pl port. rewrite P. by left.
Qed.
Lemma stopped_started x a e w w1 w2 : (∀ pl id, id ≠ Z.of_N (x_ID x) → at_port w1 pl id = at_port w pl id) → same_vital w w1 →
  stopped (Z.of_N (x_ID x)) w1 w2 → started x a (Err e) w w2.
Proof.
  intros Ho Hv [R S P]. split; [intros t Ht; by rewrite R, Hv|done| |].
  - intros pl id Hid. rewrite P, bool_decide_eq_false_2 by done. by apply Ho.
  - intros pl port. by rewrite P, bool_decide_eq_true_2.
Qed.
(** What a quiet call leaves, by its result. *)
Lemma quiet_run {A} (m : C A) w r w' : quiet m → m w = (r, w') → quieter w w'.
Proof. intros Hm E. specialize (Hm w). by rewrite E in Hm. Qed.
(** The port an access has after it was started. *)
Lemma start_port x a p p' (w w1 : W) : sound (wd_planes w1) → same_vital w w1 → px_ID p = Z.of_N (x_ID x) → px_ProxyPort p = x_Port x →
  (∀ pl id, id ≠ Z.of_N (x_ID x) → at_port w1 pl id = at_port w pl id) →
  (p' = p ∧ wd_planes w1 = wd_planes w) ∨ (∃ pl, plane_of (effectiveAccessProtocol x a) = Some pl ∧ opened pl p p' (wd_planes w) (wd_planes w1)) → runnable w x a →
  let '(r, w2) := (if Z.eqb (x_Port x) 0 && Z.ltb 0 (px_ProxyPort p') then
     let started := x <| x_Port := px_ProxyPort p' |> in
     let! r := try (ensureProxyPortAvailable (x_Port started) (x_ID started)) in
     match r with Ok _ => ret started | Err e => ignore (stopProxyRuntime started) ;; throw e end
   else ret x : C Access) w1 in started x a r w w2.
Proof.
  intros Hs Hv Hid Hport Ho Ht Hrun. destruct (Z.eqb (x_Port x) 0 && Z.ltb 0 (px_ProxyPort p')) eqn:Eb; cbn zeta.
  - apply andb_true_iff in Eb as [E0%Z.eqb_eq Epos%Z.ltb_lt]. destruct Ht as [[-> _]|(pl0 & Hpl & _ & _ & Ht)]; [lia|]. rewrite Hid in Ht.
    unfold bind at 1, try at 1. destruct (ensureProxyPortAvailable _ _ w1) as [[u|e] w2] eqn:E; apply quiet_run in E; auto with quiet.
    + apply (started_then _ _ _ _ w1); [|done]. split; [done|done|done|]. split; [exists (px_ProxyPort p'); auto|].
      intros pl port. unfold at_port. rewrite Ht. case_bool_decide as Hpp; [subst pl; intros [= <-]; right; split_and!; done|]. left. split; [done|]. congruence.
    + unfold bind, ignore, bind, try. pose proof (stop_spec (x <| x_Port := px_ProxyPort p' |>) w2 (q_sound _ _ E Hs)) as Hst.
      destruct (stopProxyRuntime _ w2) as [r3 w3]. cbn [snd] in Hst. cbn. eapply (stopped_started _ _ _ _ w2); [| |exact Hst].
      * intros pl id Hne. rewrite (q_ports _ _ E). by apply Ho.
      * intros t Hv'. by rewrite (q_rows _ _ E t Hv'), Hv.
  - apply (started_then _ _ _ _ w1); [|reflexivity]. split; [done|done|done|]. split; [exists (x_Port x); split; [by destruct x|by left]|].
    intros pl port H. destruct Ht as [[_ Hsame]|(pl0 & Hpl & Hpos & Hreq & Ht)]; [left; unfold at_port in *; by rewrite <- Hsame|].
    unfold at_port in H. rewrite <- Hid, Ht in H. case_bool_decide as Hpp; [|left; by rewrite Hid in H]. injection H as <-. subst pl. right.
    split_and!; [done| |done|done]. destruct (Z.eqb_spec (x_Port x) 0) as [E0|E0]; [|rewrite Hreq; congruence]. apply Z.ltb_lt in Hpos. by rewrite Hpos in Eb.
Qed.
Lemma reapply_ok id port (w : W) : fst (reapplyFirewall id port w) = Ok tt.
Proof.
  unfold reapplyFirewall. destruct (Z.leb port 0); [done|]. unfold bind at 1, try. destruct (on_db _ w) as [[[rule|]|e] w1]; [|done|done].
  unfold ignore, bind, try. by destruct (firewall_allow _ _ w1).
Qed.
Lemma start_spec x a (w : W) : sound (wd_planes w) → let '(r, w') := startProxyRuntime certs x a w in started x a r w w'.
Proof.
  intros Hs. unfold startProxyRuntime. unfold bind at 1. destruct (proxyRuntimeEligible x a w) as [[b|e] w1] eqn:E1.
  2: { apply quiet_run in E1; [|auto with quiet]. by apply quieter_started_err. }
  assert (b = true → runnable w x a) as Hrun by (intros ->; by eapply eligible_spec).
  apply quiet_run in E1; [|auto with quiet]. destruct b; cbn [negb]; [|by apply quieter_started_ok]. specialize (Hrun eq_refl).
  pose proof (q_sound _ _ E1 Hs) as Hs1. destruct (a_EdgeIDs a) as [|edge es] eqn:He; [by apply quieter_started_err|].
  match goal with |- context [bind ?m _ w1] => set (policy := m) end. unfold bind at 1.
  destruct (policy w1) as [[u|e] w2] eqn:E2; (apply quiet_run in E2; [|unfold policy, CpDao.GetFirewallRuleByProxyID; quietly]).
  2: { apply quieter_started_err; [by etransitivity|done]. }
  pose proof (q_sound _ _ E2 Hs1) as Hs2. assert (quieter w w2) as Q2 by (by etransitivity). clear E1 E2 policy.
  match goal with |- let '(_, _) := ?t in _ => enough (let '(r, w') := t in started x a r w2 w') by (destruct t; by eapply started_quieter) end.
  unfold bind at 1. set (p := mkProxy _ _ _ _ _ _ _ _ _).
  pose proof (create_spec p w2 Hs2) as Hc. destruct (manager_create certs p w2) as [[p'|e] w3]; destruct Hc as (R3 & S3 & O3 & T3).
  2: { split; [by intros t _|done|done|]. intros pl port. pose proof (T3 pl) as T. cbn [px_ID p] in T. by rewrite T. }
  pose proof (start_port x a p p' w2 w3 S3 (λ t _, R3 t) eq_refl eq_refl O3 T3 (runnable_same _ _ _ _ (q_rows _ _ Q2) Hrun)) as Hp.
  unfold bind at 1. match type of Hp with let '(r, w2) := ?t in _ => destruct t as [[x'|e] w4] end; [|done].
  unfold bind. destruct (one_of _ _); [done|]. destruct (reapplyFirewall _ _ w4) as [[v|e] w5] eqn:E5.
  - apply quiet_run in E5; [|auto with quiet]. by eapply started_then.
  - pose proof (reapply_ok (x_ID x') (x_Port x') w4) as Hok. by rewrite E5 in Hok.
Qed.
End Backed.
