(* ===== verification/ControlBacked.v ===== *)
(** * manager/controlplane: calls that keep every listener backed

    A small program logic over the calls of the control plane: [safe P m Q]
    holds when [m], started in [P], ends in [Q] or fails with every listener
    still backed.  Starting, stopping, storing and deleting an access, and the
    handlers that do so. *)

From S2P Require Import Prelude ToolTypes IamDao ControlDao NetAddr Firewall EntryPlanes ControlPlane ControlResources ControlInvariant.
Import Control.

Section Logic.
Context {DB : Type} {i_iam : IamGorm DB} {i_cp : CpGorm DB} {l_cp : CpGormLaws DB} {l_frame : AccountQueries DB}.
Context {OS : Type} {i_os : Machine OS} {l_os : MachineLaws OS}.
#[local] Abbreviation W := (World DB OS).
#[local] Abbreviation C A := (Op W A).

Definition safe {A} (P : W → Prop) (m : C A) (Q : A → W → Prop) : Prop :=
  ∀ w, P w → match m w with (Ok a, w') => Q a w' | (Err _, w') => backed_up w' end.
(** What quiet calls cannot change. *)
Class Stable (P : W → Prop) : Prop := stable w w' : quieter w w' → P w → P w'.
Definition has (w : W) (t : tag) (r : row t) : Prop := rows_of w t !! id_of t r = Some r.
Definition has_access (w : W) (x : Access) : Prop := accesses w !! x_ID x = Some x.
Definition has_application (w : W) (a : Application) : Prop := applications w !! a_ID a = Some a.
Definition has_edge (w : W) (e : Edge) : Prop := edges w !! e_ID e = Some e.
Definition idle (id : N) (w : W) : Prop := ∀ pl, at_port w pl (Z.of_N id) = None.

#[export] Instance stable_backed : Stable backed_up.
Proof. intros w w' Hq. by apply quieter_backed_but. Qed.
#[export] Instance stable_and P Q : Stable P → Stable Q → Stable (λ w, P w ∧ Q w).
Proof. intros HP HQ w w' Hq [H1 H2]. split; [by eapply HP|by eapply HQ]. Qed.
#[export] Instance stable_pure (P : Prop) : Stable (λ _, P).
Proof. by intros w w' _. Qed.
Lemma stable_has t r : vital t = true → Stable (λ w, has w t r).
Proof. intros Ht w w' [R _ _]. unfold has. by rewrite (R t Ht). Qed.
#[export] Instance stable_access x : Stable (λ w, has_access w x).
Proof. exact (stable_has TAccess x eq_refl). Qed.
#[export] Instance stable_application a : Stable (λ w, has_application w a).
Proof. exact (stable_has TApplication a eq_refl). Qed.
#[export] Instance stable_edge e : Stable (λ w, has_edge w e).
Proof. exact (stable_has TEdge e eq_refl). Qed.
#[export] Instance stable_idle id : Stable (idle id).
Proof. intros w w' [_ Q _] Hi pl. by rewrite Q. Qed.

Lemma access_keyed (w : W) k x : accesses w !! k = Some x → x_ID x = k.
Proof. intros H. by apply (keyed_row w TAccess) in H as []. Qed.
Lemma application_keyed (w : W) k a : applications w !! k = Some a → a_ID a = k.
Proof. intros H. by apply (keyed_row w TApplication) in H as []. Qed.
Lemma safe_ret {A} (a : A) (P : W → Prop) (Q : A → W → Prop) : (∀ w, P w → Q a w) → safe P (ret a) Q.
Proof. intros H w. apply H. Qed.
Lemma safe_throw {A} e (P : W → Prop) (Q : A → W → Prop) : (∀ w, P w → backed_up w) → safe P (throw e) Q.
Proof. intros H w. apply H. Qed.
Lemma safe_bind {A B} (P : W → Prop) (m : C A) (R : A → W → Prop) (k : A → C B) Q : safe P m R → (∀ a, safe (R a) (k a) Q) → safe P (bind m k) Q.
Proof. intros Hm Hk w HP. unfold bind. specialize (Hm w HP). destruct (m w) as [[a|e] w1]; [|done]. by apply Hk. Qed.
Lemma safe_pre {A} (P P' : W → Prop) (m : C A) Q : (∀ w, P w → P' w) → safe P' m Q → safe P m Q.
Proof. intros H Hm w HP. by apply Hm, H. Qed.
Lemma safe_post {A} (P : W → Prop) (m : C A) (Q Q' : A → W → Prop) : safe P m Q → (∀ a w, Q a w → Q' a w) → safe P m Q'.
Proof. intros Hm H w HP. specialize (Hm w HP). destruct (m w) as [[a|e] w1]; auto. Qed.
Lemma safe_pure {A} (H : Prop) (P : W → Prop) (m : C A) Q : (H → safe P m Q) → safe (λ w, P w ∧ H) m Q.
Proof. intros Hm w [HP HH]. by apply Hm. Qed.
Lemma safe_map_err {A} f (P : W → Prop) (m : C A) Q : safe P m Q → safe P (map_err f m) Q.
Proof. intros Hm w HP. unfold map_err. specialize (Hm w HP). by destruct (m w) as [[a|e] w1]. Qed.
Lemma safe_try {A} (P : W → Prop) (m : C A) (Q : Result A → W → Prop) :
  (∀ w, P w → let '(r, w') := m w in Q r w') → safe P (try m) Q.
Proof. intros Hm w HP. unfold try. specialize (Hm w HP). by destruct (m w). Qed.
Lemma safe_attempt_panics {A} (P : W → Prop) (m : C A) (Q : Result A → W → Prop) :
  (∀ w, P w → match m w with (Ok a, w') => Q (Ok a) w' | (Err e, w') => backed_up w' ∧ (Is e panicked = false → Q (Err e) w') end) → safe P (attempt m) Q.
Proof.
  intros Hm w HP. unfold attempt. specialize (Hm w HP). destruct (m w) as [[a|e] w1]; [done|]. destruct Hm as [H1 H2]. destruct (Is e panicked); auto.
Qed.
Lemma safe_attempt {A} (P : W → Prop) (m : C A) (Q : Result A → W → Prop) :
  (∀ w, P w → let '(r, w') := m w in Q r w' ∧ (is_ok r = false → backed_up w')) → safe P (attempt m) Q.
Proof. intros Hm. apply safe_attempt_panics. intros w HP. specialize (Hm w HP). destruct (m w) as [[a|e] w1]; destruct Hm as [H1 H2]; auto. Qed.
(** A quiet call, and what its result shows. *)
Definition gives {A} (m : C A) (R : A → Prop) : Prop := ∀ w a w', m w = (Ok a, w') → R a.
Lemma safe_quiet_gives {A} (P : W → Prop) {i_P : Stable P} (m : C A) (R : A → Prop) : (∀ w, P w → backed_up w) → quiet m → gives m R →
  safe P m (λ a w, P w ∧ R a).
Proof.
  intros HP Hm HR w H. specialize (Hm w). specialize (HR w). destruct (m w) as [[a|e] w1].
  - split; [by eapply i_P, H|by eapply HR].
  - eapply stable_backed; [exact Hm|auto].
Qed.
Lemma safe_quiet {A} (P : W → Prop) {i_P : Stable P} (m : C A) : (∀ w, P w → backed_up w) → quiet m → safe P m (λ _, P).
Proof. intros HP Hm. eapply safe_post; [by apply (safe_quiet_gives P m (λ _, True))|]. by intros a w [H _]. Qed.
Lemma safe_quiet_bind {A B} (P : W → Prop) {i_P : Stable P} (m : C A) (k : A → C B) Q :
  (∀ w, P w → backed_up w) → quiet m → (∀ a, safe P (k a) Q) → safe P (bind m k) Q.
Proof. intros HP Hm. apply safe_bind. by apply safe_quiet. Qed.
Lemma safe_each {A} (P : W → Prop) (f : A → C unit) l : (∀ a, safe P (f a) (λ _, P)) → safe P (each f l) (λ _, P).
Proof. intros Hf. induction l as [|a l IH]; [by apply safe_ret|]. eapply safe_bind; [apply Hf|by intros []]. Qed.
(** Rows read from the database. *)
Lemma safe_First (P : W → Prop) {i_P : Stable P} t p : (∀ w, P w → backed_up w) →
  safe P (on_db (First_ t p)) (λ r w, P w ∧ has w t r ∧ p r = true).
Proof.
  intros HP w H. assert (quiet (on_db (OS := OS) (First_ t p))) as Hq by (apply quiet_db; reading). specialize (Hq w). revert Hq. unfold on_db.
  destruct (First_ t p (wd_db w)) as [[r|e] db] eqn:E; cbn [snd]; intros Hq; [|eapply stable_backed; [exact Hq|auto]].
  apply First_law_ in E as (_ & Hs & Hr & Hp). split; [by eapply i_P, H|]. split; [|done]. unfold has, rows_of. cbn [wd_db]. by rewrite (Hs t).
Qed.
Lemma safe_Find (P : W → Prop) {i_P : Stable P} t p : (∀ w, P w → backed_up w) →
  safe P (on_db (Find_ t p)) (λ l w, P w ∧ NoDup l ∧ ∀ r, r ∈ l ↔ has w t r ∧ p r = true).
Proof.
  intros HP w H. assert (quiet (on_db (OS := OS) (Find_ t p))) as Hq by (apply quiet_db; exact (cp_reads_Find t p)). specialize (Hq w). revert Hq. unfold on_db.
  destruct (Find_ t p (wd_db w)) as [[l|e] db] eqn:E; cbn [snd]; intros Hq; [|eapply stable_backed; [exact Hq|auto]].
  apply Find_law_ in E as (_ & Hs & Hd & Hl). split; [by eapply i_P, H|]. split; [done|]. intros r. rewrite Hl. unfold has, rows_of. cbn [wd_db]. by rewrite (Hs t).
Qed.
End Logic.

(** ** One access *)
Section Access.
Context {DB : Type} {i_iam : IamGorm DB} {i_cp : CpGorm DB} {l_cp : CpGormLaws DB} {l_frame : AccountQueries DB}.
Context {OS : Type} {i_os : Machine OS} {l_os : MachineLaws OS}.
Context (ToLower : string → string) (certs : list (string * string)).
#[local] Abbreviation W := (World DB OS).
#[local] Abbreviation C A := (Op W A).

(** The stored access with its application. *)
Definition stored (x : Access) (a : Application) (w : W) : Prop :=
  backed_up w ∧ has_access w x ∧ has_application w a ∧ a_ID a = x_ApplicationID x.
#[export] Instance stable_stored x a : Stable (stored x a).
Proof. apply stable_and; [apply _|]. apply stable_and; [apply _|]. apply stable_and; apply _. Qed.
Lemma stored_backed x a w : stored x a w → backed_up w.
Proof. by intros []. Qed.
(** The listeners of a stored access are backed by it. *)
Lemma stored_listener x a w pl port : stored x a w → at_port w pl (Z.of_N (x_ID x)) = Some port →
  (x_Port x = port ∨ x_Port x = 0%Z) ∧ runnable w x a ∧ plane_of (effectiveAccessProtocol x a) = Some pl.
Proof.
  intros ((_ & Hb) & Hx & Ha & Hid) Hp. destruct (Hb _ _ _ Hp ltac:(tauto)) as (x' & a' & Hi & Hx' & Hport & Ha' & Hr & Hpl).
  assert (x_ID x' = x_ID x) as Hxx by lia. rewrite Hxx in Hx'. unfold has_access, has_application in *. rewrite Hx in Hx'. injection Hx' as <-.
  rewrite Hid, Ha' in Ha. injection Ha as <-. done.
Qed.
Lemma stop_stored x y a (w : W) : stored x a w → x_ID y = x_ID x → let w' := snd (stopProxyRuntime y w) in stored x a w' ∧ idle (x_ID x) w'.
Proof.
  intros (Hb & Hx & Ha & Hid) Hy. cbn zeta. pose proof (stop_spec y w (proj1 Hb)) as Hst. rewrite Hy in Hst. split.
  - split; [|destruct Hst as [R _ _]; unfold has_access, has_application, accesses, applications in *; by rewrite !R]. eapply backed_but_weaken; [|eapply stopped_backed; [exact Hst|exact Hb]]. by intros i [].
  - intros pl. by rewrite (stopped_ports _ _ _ Hst), bool_decide_eq_true_2.
Qed.
Lemma stop_keeps x (w : W) : backed_up w → backed_up (snd (stopProxyRuntime x w)).
Proof. intros Hb. eapply backed_but_weaken; [|eapply stopped_backed; [by apply stop_spec, Hb|exact Hb]]. by intros i []. Qed.
Lemma safe_stop x : safe backed_up (stopProxyRuntime x : C unit) (λ _, backed_up).
Proof. intros w Hb. pose proof (stop_keeps x w Hb) as H. by destruct (stopProxyRuntime x w) as [[]]. Qed.

(** The listeners of [x] would also be backed by the row [y]. *)
Definition suits (y : Access) (a : Application) (w : W) : Prop := ∀ pl port, at_port w pl (Z.of_N (x_ID y)) = Some port →
  (x_Port y = port ∨ x_Port y = 0%Z) ∧ runnable w y a ∧ plane_of (effectiveAccessProtocol y a) = Some pl.
Definition others_backed (id : N) (w : W) : Prop := backed_but (λ i, i = Z.of_N id) w.
Lemma backed_others id w : backed_up w → others_backed id w.
Proof. apply backed_but_weaken. tauto. Qed.
Lemma suits_backed x a w : others_backed (x_ID x) w → has_access w x → has_application w a → a_ID a = x_ApplicationID x → suits x a w → backed_up w.
Proof.
  intros [Hs Hb] Hx Ha Hid Hsu. split; [done|]. intros pl id port Hp _. destruct (decide (id = Z.of_N (x_ID x))) as [->|Hne]; [|by apply Hb].
  destruct (Hsu _ _ Hp) as (Hport & Hr & Hpl). exists x, a. unfold has_access, has_application in *. rewrite Hid in Ha. done.
Qed.
Lemma idle_suits y a w : idle (x_ID y) w → suits y a w.
Proof. intros Hi pl port. by rewrite Hi. Qed.
(** Starting, from a state in which the access is stored. *)
Lemma start_others x a r (w w' : W) : backed_up w → started x a r w w' → others_backed (x_ID x) w'.
Proof.
  intros [_ Hb] [R S O _]. split; [done|]. intros pl id port Hp Hne. rewrite O in Hp by done. eapply backed_same; [exact R|]. apply Hb; [done|tauto].
Qed.
Lemma start_stored x a (w : W) : stored x a w → let '(r, w') := startProxyRuntime certs x a w in stored x a w'.
Proof.
  intros Hst. pose proof Hst as (Hb & Hx & Ha & Hid). pose proof (start_spec certs x a w (proj1 Hb)) as Hs.
  destruct (startProxyRuntime certs x a w) as [r w']. pose proof (start_others _ _ _ _ _ Hb Hs) as Ho. destruct Hs as [R S O T].
  assert (has_access w' x ∧ has_application w' a) as [Hx' Ha'] by (unfold has_access, has_application in *; by rewrite (same_accesses _ _ R), (same_applications _ _ R)).
  split; [|done]. eapply suits_backed; [exact Ho|done|done|done|]. intros pl port Hp.
  assert (at_port w pl (Z.of_N (x_ID x)) = Some port ∨ (∃ x', r = Ok x' ∧ runnable w x a ∧ x_Port x' = port ∧ plane_of (effectiveAccessProtocol x a) = Some pl))
    as [Hold|(x' & -> & Hr & Hport & Hpl)].
  { destruct r as [x'|e]; [|left; by apply T]. destruct T as [_ T]. destruct (T _ _ Hp) as [[? _]|(? & ? & _ & ?)]; [by left|right; by exists x']. }
  - destruct (stored_listener _ _ _ _ _ Hst Hold) as (? & ? & ?). split_and!; [done|by eapply runnable_same|done].
  - destruct T as [(q & -> & Hq) _]. split_and!; [naive_solver|by eapply runnable_same|done].
Qed.
Lemma safe_start x a : safe (stored x a) (startProxyRuntime certs x a) (λ _, stored x a).
Proof. intros w Hw. pose proof (start_stored x a w Hw) as H. destruct (startProxyRuntime certs x a w) as [[y|e] w']; [done|apply H]. Qed.

(** Storing the row [y] in place of [x]. *)
Lemma proxy_updates_id p r : x_ID (CpDao.proxy_updates p r) = x_ID r.
Proof. unfold CpDao.proxy_updates. cbn. by repeat (case_bool_decide || destruct (Z.eqb _ _)). Qed.
Lemma proxy_updates_application p r : x_ApplicationID (CpDao.proxy_updates p r) = x_ApplicationID r.
Proof. unfold CpDao.proxy_updates. cbn. by repeat (case_bool_decide || destruct (Z.eqb _ _)). Qed.
Lemma proxy_updates_port p r : x_Port (CpDao.proxy_updates p r) = x_Port p.
Proof. done. Qed.
Lemma proxy_updates_protocol p r : x_AccessProtocol (CpDao.proxy_updates p r) = x_AccessProtocol p.
Proof. done. Qed.
Lemma proxy_updates_status p r : x_Status p = ProxyStatusRunning → x_Status (CpDao.proxy_updates p r) = ProxyStatusRunning.
Proof. intros H. unfold CpDao.proxy_updates. cbn. rewrite H. cbn. by repeat case_bool_decide. Qed.
Lemma updated_at (w : W) x (f : Access → Access) k : has_access w x →
  updated (t := TAccess) (λ r : Access, bool_decide (x_ID r = x_ID x)) f (accesses w) !! k =
  if bool_decide (k = x_ID x) then Some (f x) else accesses w !! k.
Proof.
  intros Hx. unfold updated. cbn [row]. rewrite lookup_fmap. fold (accesses w). case_bool_decide as Hk.
  - subst k. unfold has_access in Hx. rewrite Hx. cbn. by rewrite bool_decide_eq_true_2.
  - destruct (accesses w !! k) as [r|] eqn:E; [|done]. cbn. apply access_keyed in E. by rewrite bool_decide_eq_false_2 by congruence.
Qed.
(** A row of accesses changes; everything else a listener needs stays. *)
Lemma row_changed id (w w' : W) : others_backed id w → sound (wd_planes w') → (∀ pl i, at_port w' pl i = at_port w pl i) →
  (∀ k, k ≠ id → accesses w' !! k = accesses w !! k) → applications w' = applications w → edges w' = edges w →
  others_backed id w'.
Proof.
  intros [_ Hb] Hs Hp Hx Ha He. split; [done|]. intros pl i port. rewrite Hp. intros Hl Hne. destruct (Hb _ _ _ Hl Hne) as (x & a & -> & H2 & H3 & H4 & H5 & H6).
  exists x, a. rewrite Hx, Ha by (intros <-; done). split_and!; try done. destruct H5 as (? & ? & e & es & edge & ?). split_and!; try done. exists e, es, edge. by rewrite He.
Qed.
Lemma runnable_edges (w w' : W) x a : edges w' = edges w → runnable w x a → runnable w' x a.
Proof. intros He (? & ? & e & es & edge & ?). split_and!; try done. exists e, es, edge. by rewrite He. Qed.
Lemma save_row x p a (w : W) : others_backed (x_ID x) w → has_access w x → has_application w a → a_ID a = x_ApplicationID x → x_ID p = x_ID x →
  suits (CpDao.proxy_updates p x) a w → let '(r, w') := on_db (CpDao.UpdateProxy p) w in
  if is_ok r then backed_up w' else (others_backed (x_ID x) w' ∧ has_access w' x ∧ has_application w' a ∧ ∀ pl i, at_port w' pl i = at_port w pl i).
Proof.
  intros Hb Hx Ha Hid Hp Hsu. unfold on_db, CpDao.UpdateProxy. destruct (Updates_ TAccess _ _ (wd_db w)) as [r db] eqn:E.
  apply (Updates_law_ TAccess _ (CpDao.proxy_updates p)) in E as [_ H]; [|by intros r' _; apply proxy_updates_id]. destruct r as [[]|e]; cbn [is_ok].
  - destruct H as [H1 H2]. rewrite Hp in H1. set (w' := mkWorld db (wd_planes w) (wd_os w)).
    assert (∀ k, accesses w' !! k = if bool_decide (k = x_ID x) then Some (CpDao.proxy_updates p x) else accesses w !! k) as Hrows.
    { intros k. rewrite <- (updated_at w x _ k Hx). exact (f_equal (λ m : gmap N Access, m !! k) H1). }
    assert (edges w' = edges w) as He by exact (H2 TEdge ltac:(done)).
    assert (applications w' = applications w) as Hap by exact (H2 TApplication ltac:(done)).
    apply (suits_backed (CpDao.proxy_updates p x) a).
    + rewrite proxy_updates_id. apply (row_changed _ w); [done|apply Hb|done| |done|done]. intros k Hk. by rewrite Hrows, bool_decide_eq_false_2.
    + unfold has_access. by rewrite Hrows, proxy_updates_id, bool_decide_eq_true_2.
    + unfold has_application. by rewrite Hap.
    + by rewrite proxy_updates_application.
    + intros pl port Hl. destruct (Hsu pl port Hl) as (? & Hr & ?). split_and!; [done|by eapply runnable_edges|done].
  - assert (quieter w (mkWorld db (wd_planes w) (wd_os w))) as Hq by (split; [by intros t _; apply H|done|done]).
    split_and!; [by eapply quieter_backed_but|by eapply stable_access|by eapply stable_application|done].
Qed.
(** Deleting a row nothing listens for. *)
Lemma on_db_bind {A B} (m : Op DB A) (k : A → Op DB B) (w : W) : on_db (bind m k) w = bind (on_db m) (λ a, on_db (k a)) w.
Proof. unfold on_db, bind. by destruct (m (wd_db w)) as [[a|e] db]. Qed.
Lemma safe_on_db_bind {A B} P (m : Op DB A) (k : A → Op DB B) Q : safe P (bind (on_db m) (λ a, on_db (k a)) : C B) Q → safe P (on_db (bind m k)) Q.
Proof. intros H w HP. rewrite on_db_bind. by apply H. Qed.
Lemma without_at {t} (p : row t → bool) (m : gmap N (row t)) k : without p m !! k = match m !! k with Some r => if p r then None else Some r | None => None end.
Proof. unfold without. rewrite lookup_omap. by destruct (m !! k). Qed.
Lemma others_gone id (w : W) : others_backed id w → idle id w → backed_up w.
Proof. intros Hb Hi. eapply absent_backed; [exact Hb|]. intros pl i ->. apply Hi. Qed.
Lemma safe_delete_row id : safe (λ w, backed_up w ∧ idle id w) (on_db (Delete_ TAccess (λ r : Access, bool_decide (x_ID r = id))) : C unit)
  (λ _ w, backed_up w ∧ accesses w !! id = None).
Proof.
  intros w [Hb Hi]. unfold on_db. destruct (Delete_ TAccess _ (wd_db w)) as [r db] eqn:E. apply Delete_law_ in E as [_ H]. destruct r as [[]|e].
  - destruct H as [H1 H2]. set (w' := mkWorld db (wd_planes w) (wd_os w)).
    assert (∀ k, accesses w' !! k = if bool_decide (k = id) then None else accesses w !! k) as Hrows.
    { intros k. transitivity (without (t := TAccess) (λ r : Access, bool_decide (x_ID r = id)) (accesses w) !! k); [exact (f_equal (λ m : gmap N Access, m !! k) H1)|].
      etransitivity; [exact (without_at (t := TAccess) _ (accesses w) k)|]. change (row TAccess) with Access. destruct (accesses w !! k) as [x|] eqn:Ek; [|by case_bool_decide].
      apply access_keyed in Ek. by rewrite Ek. }
    split; [|by rewrite Hrows, bool_decide_eq_true_2]. apply (others_gone id); [|done].
    apply (row_changed _ w); [by apply backed_others|apply Hb|done| |exact (H2 TApplication ltac:(done))|exact (H2 TEdge ltac:(done))].
    intros k Hk. by rewrite Hrows, bool_decide_eq_false_2.
  - eapply stable_backed; [|exact Hb]. split; [by intros t _; apply H|done|done].
Qed.
Lemma safe_DeleteProxy id : safe (λ w, backed_up w ∧ idle id w) (on_db (CpDao.DeleteProxy id) : C unit) (λ _ w, backed_up w ∧ accesses w !! id = None).
Proof.
  unfold CpDao.DeleteProxy. do 4 (apply safe_on_db_bind; apply safe_quiet_bind; [apply _|by intros w []|apply quiet_db; unfold CpDao.DeleteSecrets; reading|intros _]).
  apply safe_delete_row.
Qed.
Lemma delete_row_keeps id (w : W) : backed_up w → idle id w → backed_up (snd (on_db (CpDao.DeleteProxy id) w)).
Proof. intros Hb Hi. pose proof (safe_DeleteProxy id w (conj Hb Hi)) as H. destruct (on_db _ w) as [[u|e] w']; [apply H|done]. Qed.
Lemma safe_undo {A} id e (Q : A → W → Prop) : safe (λ w, backed_up w ∧ idle id w) (undo_create id e : C A) Q.
Proof.
  intros w [Hb Hi]. unfold undo_create, ignore, bind, try. pose proof (delete_row_keeps id w Hb Hi) as H. by destruct (on_db _ w).
Qed.

(** An access that was started with a port of its own is stored with it. *)
Lemma started_suits x x' a (w w' : W) : started x a (Ok x') w w' → idle (x_ID x) w ∨ (stored x a w ∧ x' ≠ x) →
  ∀ y, x_ID y = x_ID x → x_Port y = x_Port x' → x_Status y = x_Status x → x_AccessProtocol y = x_AccessProtocol x → suits y a w'.
Proof.
  intros [R S O [(q & -> & Hq) T]] Hold y Hid Hy Hst Hpr pl port. rewrite Hid. intros Hp. destruct (T _ _ Hp) as [[Ho Hx]|(Hr & Hport & Hpos & Hpl)].
  - exfalso. destruct Hold as [Hi|[Hs Hne]]; [by rewrite Hi in Ho|]. destruct (stored_listener _ _ _ _ _ Hs Ho) as (_ & _ & ?). auto.
  - assert (effectiveAccessProtocol y a = effectiveAccessProtocol x a) as Heff.
    { revert Hr. unfold runnable. intros (_ & Hpub & _). unfold effectiveAccessProtocol in *. rewrite Hpr, Hy. cbn in Hport |- *.
      destruct (one_of (x_AccessProtocol x) _); [done|]. case_bool_decide; [done|]. rewrite Hport. destruct (Z.eqb_spec port 0); [lia|]. cbn [andb].
      destruct (Z.eqb (x_Port x) 0 && isWebOnlyCapableApplicationType (a_ApplicationType a)); [|done]. by case_bool_decide. }
    rewrite Hy. split_and!; [by left| |by rewrite Heff]. apply (runnable_same w); [done|]. destruct Hr as (? & ? & ?). unfold runnable. by rewrite Hst, Heff.
Qed.
Lemma proxy_updates_self x port : CpDao.proxy_updates (x <| x_Port := port |>) x = x <| x_Port := port |>.
Proof. destruct x as [id app name p st descr proto]. unfold CpDao.proxy_updates. cbn. case_bool_decide; destruct (Z.eqb_spec st 0); case_bool_decide; cbn; by subst. Qed.
(** What a call on the access [id] leaves alone. *)
Record about (id : N) (w w' : W) : Prop := {
  about_applications : applications w' = applications w;
  about_edges : edges w' = edges w;
  about_accesses k : k ≠ id → accesses w' !! k = accesses w !! k;
  about_application k x' : accesses w' !! k = Some x' → ∃ x, accesses w !! k = Some x ∧ x_ApplicationID x' = x_ApplicationID x;
  about_ports pl i : i ≠ Z.of_N id → at_port w' pl i = at_port w pl i
}.
#[export] Instance about_preorder id : PreOrder (about id).
Proof.
  split; [by intros w; split; eauto|]. intros w w1 w2 [A1 E1 X1 Y1 P1] [A2 E2 X2 Y2 P2].
  split; [congruence|congruence|intros k Hk; by rewrite X2, X1| |intros pl i Hi; by rewrite P2, P1].
  intros k x2 H. destruct (Y2 _ _ H) as (x1 & H1 & E). destruct (Y1 _ _ H1) as (x & H0 & E'). exists x. split; congruence.
Qed.
Lemma same_about id (w w' : W) : accesses w' = accesses w → applications w' = applications w → edges w' = edges w →
  (∀ pl i, i ≠ Z.of_N id → at_port w' pl i = at_port w pl i) → about id w w'.
Proof. intros HX HA HE HP. split; [done|done|by intros; rewrite HX|rewrite HX; eauto|done]. Qed.
Lemma quieter_about id (w w' : W) : quieter w w' → about id w w'.
Proof. intros [R P _]. apply same_about; [by apply same_accesses|by apply same_applications|by apply same_edges|intros; apply P]. Qed.
Lemma started_about x a r (w w' : W) : started x a r w w' → about (x_ID x) w w'.
Proof. intros [R _ O _]. apply same_about; [by apply same_accesses|by apply same_applications|by apply same_edges|apply O]. Qed.
Lemma stopped_about id (w w' : W) : stopped (Z.of_N id) w w' → about id w w'.
Proof. intros [R _ P]. apply same_about; [exact (R TAccess)|exact (R TApplication)|exact (R TEdge)|]. intros pl i Hi. by rewrite P, bool_decide_eq_false_2. Qed.
Lemma save_about p (w : W) : about (x_ID p) w (snd (on_db (CpDao.UpdateProxy p) w)).
Proof.
  unfold on_db, CpDao.UpdateProxy. destruct (Updates_ TAccess _ _ (wd_db w)) as [r db] eqn:E.
  apply (Updates_law_ TAccess _ (CpDao.proxy_updates p)) in E as [_ H]; [|by intros r' _; apply proxy_updates_id]. destruct r as [[]|e]; cbn [snd].
  - destruct H as [H1 H2]. set (w' := mkWorld db (wd_planes w) (wd_os w)).
    assert (∀ k, accesses w' !! k = (λ x, if bool_decide (x_ID x = x_ID p) then CpDao.proxy_updates p x else x) <$> accesses w !! k) as Hrows.
    { intros k. rewrite <- lookup_fmap. exact (f_equal (λ m : gmap N Access, m !! k) H1). }
    split; [exact (H2 TApplication ltac:(done))|exact (H2 TEdge ltac:(done))| | |done]; intros k; rewrite Hrows.
    + intros Hk. destruct (accesses w !! k) as [x|] eqn:Ex; [|done]. cbn. apply access_keyed in Ex. by rewrite bool_decide_eq_false_2 by congruence.
    + intros x'. destruct (accesses w !! k) as [x|] eqn:Ex; [|done]. intros [= <-]. exists x. split; [done|]. case_bool_decide; [apply proxy_updates_application|done].
  - apply quieter_about. split; [by intros t _; apply H|done|done].
Qed.
Lemma stop_others x y (w : W) : others_backed (x_ID x) w → x_ID y = x_ID x → let w' := snd (stopProxyRuntime y w) in
  backed_up w' ∧ idle (x_ID x) w' ∧ (∀ t, rows_of w' t = rows_of w t) ∧ about (x_ID x) w w'.
Proof.
  intros Hb Hy. cbn zeta. pose proof (stop_spec y w (proj1 Hb)) as Hst. rewrite Hy in Hst. split_and!.
  - eapply backed_but_weaken; [|eapply stopped_backed; [exact Hst|exact Hb]]. intros i [? ?]. congruence.
  - intros pl. by rewrite (stopped_ports _ _ _ Hst), bool_decide_eq_true_2.
  - apply Hst.
  - by apply stopped_about.
Qed.
Lemma persist_stored x a (w : W) : stored x a w → let '(r, w') := startAndPersistProxyRuntime certs x a w in
  backed_up w' ∧ about (x_ID x) w w' ∧
  match r with Ok x' => x_ID x' = x_ID x | Err _ => ∀ pl port, at_port w' pl (Z.of_N (x_ID x)) = Some port → at_port w pl (Z.of_N (x_ID x)) = Some port end.
Proof.
  intros Hw. unfold startAndPersistProxyRuntime. unfold bind at 1. pose proof (start_spec certs x a w (proj1 (stored_backed _ _ _ Hw))) as Hs.
  pose proof (start_stored x a w Hw) as Hst. destruct (startProxyRuntime certs x a w) as [[x'|e] w1].
  2: { split_and!; [apply Hst|by eapply started_about|]. by destruct Hs. }
  pose proof (started_about _ _ _ _ _ Hs) as Hab. destruct Hst as (Hb1 & Hx1 & Ha1 & Hid).
  assert (∃ q, x' = x <| x_Port := q |>) as [q Hx'] by (destruct Hs as [_ _ _ [(q & -> & _) _]]; by exists q).
  assert (x_ID x' = x_ID x) as Hid' by (by rewrite Hx').
  destruct (Z.eqb (x_Port x) 0 && Z.ltb 0 (x_Port x')) eqn:Eb; [|done]. apply andb_true_iff in Eb as [E0%Z.eqb_eq Epos%Z.ltb_lt].
  assert (suits (CpDao.proxy_updates x' x) a w1) as Hsu.
  { eapply (started_suits x x'); [exact Hs|right; split; [done|]; intros ->; lia|..]; subst x'; by rewrite proxy_updates_self. }
  unfold bind at 1, try. pose proof (save_row x x' a w1 (backed_others _ _ Hb1) Hx1 Ha1 Hid Hid' Hsu) as Hsave.
  pose proof (save_about x' w1) as Hab2. rewrite Hid' in Hab2. destruct (on_db (CpDao.UpdateProxy x') w1) as [[u|e] w2]; cbn [is_ok snd] in *.
  - split_and!; [done|by etransitivity|done].
  - destruct Hsave as (Ho & _). unfold ignore, bind, try. pose proof (stop_others x x' w2 Ho Hid') as (Hb3 & Hi3 & _ & Hab3).
    destruct (stopProxyRuntime x' w2) as [r3 w3]. cbn [snd] in *. cbn. split_and!; [done|by do 2 (etransitivity; [eassumption|])|]. intros pl port. by rewrite Hi3.
Qed.
End Access.
