(* ===== verification/ControlHandlers.v ===== *)
(** * manager/controlplane: the handlers of accesses and connectors

    Creating and updating an access, stopping and starting those of a
    connector, and the work at start-up: each keeps every listener backed,
    whichever of its steps fails. *)

From S2P Require Import Prelude ToolTypes IamDao ControlDao NetAddr Firewall EntryPlanes ControlPlane ControlResources ControlInvariant ControlBacked.
Import Control.

Section Handlers.
Context {DB : Type} {i_iam : IamGorm DB} {i_cp : CpGorm DB} {l_cp : CpGormLaws DB} {l_frame : AccountQueries DB}.
Context {OS : Type} {i_os : Machine OS} {l_os : MachineLaws OS}.
Context (ToLower : string → string) (certs : list (string * string)).
#[local] Abbreviation W := (World DB OS).
#[local] Abbreviation C A := (Op W A).

(** ** UpdateProxy *)
(** The access in memory differs from the stored one in what a request may
    change. *)
Definition same_access (x y : Access) : Prop := x_ID y = x_ID x ∧ x_ApplicationID y = x_ApplicationID x.
Definition resting (x : Access) (a : Application) (w : W) : Prop := stored x a w ∧ idle (x_ID x) w.
#[local] Instance stable_resting x a : Stable (resting x a).
Proof. apply stable_and; apply _. Qed.
Lemma resting_backed x a w : resting x a w → backed_up w.
Proof. by intros [[]]. Qed.
(** After the new access was started: its listeners suit the row to be stored. *)
Definition ready (x p : Access) (a : Application) (w : W) : Prop :=
  others_backed (x_ID x) w ∧ has_access w x ∧ has_application w a ∧ suits (CpDao.proxy_updates p x) a w.
Lemma stopping_old x a (b : bool) : (b = false → x_Status x ≠ ProxyStatusRunning) →
  safe (stored x a) (if b then stopProxyRuntime x else ret tt : C unit) (λ _, resting x a).
Proof.
  intros Hb w Hw. destruct b.
  - destruct (stop_stored x x a w Hw eq_refl) as [H1 H2]. destruct (stopProxyRuntime x w) as [[[]|e] w']; cbn [snd] in *; [done|apply H1].
  - split; [done|]. intros pl. destruct (at_port w pl (Z.of_N (x_ID x))) as [port|] eqn:Hp; [|done].
    destruct (stored_listener _ _ _ _ _ Hw Hp) as (_ & [Hr _] & _). by apply Hb in Hr.
Qed.
Lemma safe_restart x a (b : bool) : safe (stored x a) ((if b then attempt (startProxyRuntime certs x a) ;; ret tt else ret tt) : C unit) (λ _, backed_up).
Proof.
  destruct b; [|apply safe_ret; by intros w []]. eapply safe_bind; [|intros r; apply safe_ret; intros w H; exact H].
  apply safe_attempt. intros w Hw. pose proof (start_stored certs x a w Hw) as H. destruct (startProxyRuntime certs x a w). by destruct H.
Qed.
Lemma start_new x p a (w : W) : resting x a w → same_access x p → let '(r, w') := startProxyRuntime certs p a w in
  match r with Ok p' => ready x p' a w' ∧ same_access x p' | Err _ => resting x a w' end.
Proof.
  intros [Hw Hi] [Hid Happ]. pose proof Hw as (Hb & Hx & Ha & Haid). pose proof (start_spec certs p a w (proj1 Hb)) as Hs.
  destruct (startProxyRuntime certs p a w) as [r w']. pose proof (start_others _ _ _ _ _ Hb Hs) as Ho. rewrite Hid in Ho.
  assert (has_access w' x ∧ has_application w' a) as [Hx' Ha'].
  { destruct Hs as [R _ _ _]. unfold has_access, has_application in *. by rewrite (same_accesses _ _ R), (same_applications _ _ R). }
  destruct r as [p'|e].
  - assert (∃ q, p' = p <| x_Port := q |>) as [q Hp'] by (destruct Hs as [_ _ _ [(q & -> & _) _]]; by exists q).
    split; [|by rewrite Hp']. split_and!; [done..|]. pose proof (started_rows _ _ _ _ _ Hs) as HR. pose proof (started_this _ _ _ _ _ Hs) as [_ T].
    assert (idle (x_ID p) w) as Hip by (by rewrite Hid). intros pl port. rewrite proxy_updates_id. intros Hp. rewrite <- Hid in Hp.
    eapply (started_suits p p' a w w' Hs (or_introl Hip)); [by rewrite proxy_updates_id|done| |by rewrite Hp'|by rewrite proxy_updates_id, <- Hid].
    destruct (T _ _ Hp) as [[Hn _]|[[Hr _] _]]; [by rewrite Hip in Hn|]. rewrite Hr. apply proxy_updates_status. by rewrite Hp'.
  - assert (idle (x_ID x) w') as Hi'.
    { intros pl. destruct (at_port w' pl (Z.of_N (x_ID x))) as [port|] eqn:Hp; [|done]. rewrite <- Hid in Hp. apply (started_this _ _ _ _ _ Hs) in Hp. by rewrite Hid, Hi in Hp. }
    split; [|done]. split; [by eapply others_gone|done].
Qed.
(** Storing the row, with what is undone when that fails. *)
Lemma save_or_undo x p a (stop restart : bool) : same_access x p →
  safe (λ w, ready x p a w ∧ a_ID a = x_ApplicationID x ∧ (stop = false → backed_up w))
    (let! r := try (on_db (CpDao.UpdateProxy p)) in
     match r with
     | Ok _ => ret tt
     | Err e => (if stop then ignore (stopProxyRuntime p) else ret tt) ;; (if restart then attempt (startProxyRuntime certs x a) ;; ret tt else ret tt) ;; throw e
     end) (λ _, backed_up).
Proof.
  intros [Hid Happ]. eapply (safe_bind _ _ (λ r w, if is_ok r then backed_up w else others_backed (x_ID x) w ∧ has_access w x ∧ has_application w a ∧
      a_ID a = x_ApplicationID x ∧ (stop = false → backed_up w))).
  { apply safe_try. intros w ((Ho & Hx & Ha & Hsu) & Haid & Hst). pose proof (save_row x p a w Ho Hx Ha Haid Hid Hsu) as H.
    assert (quieter w (snd (on_db (CpDao.UpdateProxy p) w)) ∨ is_ok (fst (on_db (CpDao.UpdateProxy p) w)) = true) as Hq.
    { unfold on_db, CpDao.UpdateProxy. destruct (Updates_ TAccess _ _ (wd_db w)) as [[u|e] db] eqn:E; [by right|left].
      apply (Updates_law_ TAccess _ (CpDao.proxy_updates p)) in E as [_ E]; [|by intros r' _; apply proxy_updates_id]. split; [by intros t _; apply E|done|done]. }
    destruct (on_db (CpDao.UpdateProxy p) w) as [[u|e] w']; cbn [is_ok fst snd] in *; [done|]. destruct H as (? & ? & ? & _). split_and!; try done.
    intros Hf. destruct Hq as [Hq|?]; [|done]. eapply stable_backed; [exact Hq|auto]. }
  intros [u|e]; cbn [is_ok]; [by apply safe_ret|]. eapply (safe_bind _ _ (λ _, stored x a)).
  - destruct stop; [|apply safe_ret; intros w (_ & ? & ? & ? & ?); split_and!; auto]. intros w (Ho & Hx & Ha & Haid & _). unfold ignore, bind, try.
    destruct (stop_others x p w Ho Hid) as (Hb & _ & R & _). destruct (stopProxyRuntime p w) as [r w']. cbn in *. split_and!; [done| | |done].
    + unfold has_access, accesses in *. by rewrite (R TAccess).
    + unfold has_application, applications in *. by rewrite (R TApplication).
  - intros _. eapply safe_bind; [apply safe_restart|]. intros u. by apply safe_throw.
Qed.
Lemma unchanged_ready x p a w : stored x a w → same_access x p → runtime_changed x p = false → ready x p a w.
Proof.
  intros Hw [Hid Happ] Hc. unfold runtime_changed in Hc. rewrite !orb_false_iff, !negb_false_iff, !Z.eqb_eq, bool_decide_eq_true in Hc. destruct Hc as [[Hst Hpo] Hpr].
  pose proof Hw as (Hb & Hx & Ha & Haid). split_and!; [by apply backed_others|done|done|]. intros pl port. rewrite proxy_updates_id. intros Hp.
  destruct (stored_listener _ _ _ _ _ Hw Hp) as (Hport & (Hrun & Hpub & Hedge) & Hpl).
  assert (effectiveAccessProtocol (CpDao.proxy_updates p x) a = effectiveAccessProtocol x a) as Heff.
  { unfold effectiveAccessProtocol. by rewrite proxy_updates_port, proxy_updates_protocol, Hpo, Hpr. }
  rewrite proxy_updates_port, <- Hpo. split_and!; [done| |by rewrite Heff]. split_and!; [apply proxy_updates_status; congruence|by rewrite Heff|done].
Qed.
Lemma resting_ready x p a w : resting x a w → ready x p a w.
Proof.
  intros [(Hb & Hx & Ha & Haid) Hi]. split_and!; [by apply backed_others|done|done|]. apply idle_suits. by rewrite proxy_updates_id.
Qed.
Lemma safe_switch x p a : same_access x p → safe (stored x a) (switch_runtime certs x p a) (λ _, backed_up).
Proof.
  intros Hsame. unfold switch_runtime. cbn zeta. apply safe_quiet_bind; [apply _|by intros w []|quietly|intros oldEligible].
  apply safe_quiet_bind; [apply _|by intros w []|quietly|intros newEligible]. destruct (runtime_changed x p) eqn:Hc; cbn [andb].
  2: { eapply (safe_bind _ _ (λ _, stored x a)); [by apply safe_ret|intros _].
       eapply (safe_bind _ _ (λ p' w, stored x a w ∧ p' = p)); [by apply safe_ret|intros p']. apply safe_pure. intros ->.
       eapply safe_pre; [|exact (save_or_undo x p a false false Hsame)]. intros w Hw. split_and!; [by apply unchanged_ready|apply Hw|intros _; apply Hw]. }
  eapply (safe_bind _ _ (λ _, resting x a)); [apply stopping_old; by intros ?%Z.eqb_neq|intros _].
  eapply (safe_bind _ _ (λ p' w, (ready x p' a w ∧ a_ID a = x_ApplicationID x ∧ (newEligible = false → backed_up w)) ∧ same_access x p')).
  - destruct newEligible; [|apply safe_ret; intros w Hw; pose proof Hw as [(? & _ & _ & ?) _]; split_and!; [by apply resting_ready|..]; done].
    eapply (safe_bind _ _ (λ r w, match r with Ok p' => ready x p' a w ∧ same_access x p' ∧ a_ID a = x_ApplicationID x | Err _ => resting x a w end)).
    + apply safe_attempt. intros w Hw. pose proof (start_new x p a w Hw Hsame) as H. pose proof Hw as [(_ & _ & _ & Haid) _].
      destruct (startProxyRuntime certs p a w) as [[p'|e] w']; [split; [naive_solver|done]|]. split; [done|]. intros _. by eapply resting_backed.
    + intros [p'|e]; [apply safe_ret; naive_solver|]. eapply safe_bind; [eapply safe_pre; [|apply safe_restart]; by intros w []|]. intros u. by apply safe_throw.
  - intros p'. apply safe_pure. intros Hs'. by apply save_or_undo.
Qed.
(** The access a request asks for is the stored one, with some columns set. *)
Lemma gives_lift {A} (r : Result A) (R : A → Prop) : (∀ a, r = Ok a → R a) → gives (lift r : C A) R.
Proof. intros H w a w' E. unfold lift in E. injection E as E _. by apply H. Qed.
Lemma same_access_refl x : same_access x x.
Proof. done. Qed.
Lemma requested_protocol_same req x a y : requested_protocol ToLower req x a = Ok y → same_access x y.
Proof. unfold requested_protocol. destruct (negb _); [by destruct (normalizeAccessProtocol _ _ _ _ _); intros [= <-]|]. destruct (ur_ExposePublicPort req); [destruct (isWebOnlyCapableApplicationType _)|]; by intros [= <-]. Qed.
Lemma requested_texts_same req x y : requested_texts req x = Ok y → same_access x y.
Proof. unfold requested_texts. destruct (_ && _); [done|]. intros [= <-]. by repeat case_bool_decide. Qed.
Lemma requested_status_same req x y : requested_status req x = Ok y → same_access x y.
Proof. unfold requested_status. repeat case_bool_decide; by intros [= <-]. Qed.
Lemma gives_bind {A B} (m : C A) (k : A → C B) R : (∀ a, gives (k a) R) → gives (bind m k) R.
Proof. intros H w b w'. unfold bind. destruct (m w) as [[a|e] w1]; [by apply H|done]. Qed.
Lemma gives_ret {A} (a : A) (R : A → Prop) : R a → gives (ret a : C A) R.
Proof. by intros H w b w' [= <-]. Qed.
Lemma requested_port_same req x a : gives (requested_port req x a : C Access) (same_access x).
Proof.
  unfold requested_port. destruct (ur_ExposePublicPort req).
  - apply gives_bind. intros port. by apply gives_ret.
  - repeat match goal with |- gives (if ?b then _ else _) _ => destruct b end; try (apply gives_bind; intros ?); by apply gives_ret.
Qed.
Lemma safe_read_access P {i_P : Stable P} id : (∀ w, P w → backed_up w) →
  safe P (on_db (CpDao.GetProxyByID id) : C Access) (λ x w, (P w ∧ has_access w x) ∧ x_ID x = id).
Proof. intros HP. eapply safe_post; [by apply (safe_First P TAccess)|]. intros x w (? & ? & H%bool_decide_eq_true). done. Qed.
Lemma safe_read_application P {i_P : Stable P} id : (∀ w, P w → backed_up w) →
  safe P (on_db (CpDao.GetApplicationByID id) : C Application) (λ a w, (P w ∧ has_application w a) ∧ a_ID a = id).
Proof. intros HP. eapply safe_post; [by apply (safe_First P TApplication)|]. intros x w (? & ? & H%bool_decide_eq_true). done. Qed.
Lemma safe_UpdateProxy actor req : safe backed_up (UpdateProxy (DB := DB) (OS := OS) ToLower certs actor req) (λ _, backed_up).
Proof.
  unfold UpdateProxy. destruct (N.eqb _ 0); [by apply safe_throw|]. apply safe_quiet_bind; [apply _|done|quietly|intros _].
  destruct (bad_port _); [by apply safe_throw|].
  eapply safe_bind; [apply safe_map_err, (safe_read_access backed_up); by intros|]. intros x. apply safe_pure. intros Hid.
  eapply safe_bind; [apply safe_map_err; apply safe_read_application; [apply _|by intros w []]|]. intros a. apply safe_pure. intros Haid.
  apply (safe_pre _ (stored x a)); [intros w [[? ?] ?]; done|].
  eapply safe_bind; [apply (safe_quiet_gives (stored x a)); [by intros w []|quietly|apply gives_lift; apply requested_protocol_same]|]. intros y1. apply safe_pure. intros H1.
  eapply safe_bind; [apply (safe_quiet_gives (stored x a)); [by intros w []|quietly|apply gives_lift; apply requested_texts_same]|]. intros y2. apply safe_pure. intros H2.
  eapply safe_bind; [apply (safe_quiet_gives (stored x a)); [by intros w []|quietly|apply requested_port_same]|]. intros y3. apply safe_pure. intros H3.
  eapply safe_bind; [apply (safe_quiet_gives (stored x a)); [by intros w []|quietly|apply gives_lift; apply requested_status_same]|]. intros y4. apply safe_pure. intros H4.
  eapply safe_bind; [apply safe_switch; unfold same_access in *; intuition congruence|]. intros u.
  apply safe_quiet_bind; [apply _|done|unfold CpDao.GetProxyByID; quietly|intros y5]. apply safe_quiet; [apply _|done|quietly].
Qed.

(** ** CreateProxy *)
Lemma safe_create_row a x : x_ApplicationID x = a_ID a → safe (λ w, backed_up w ∧ has_application w a) (on_db (CpDao.CreateProxy x) : C Access)
  (λ y w, resting y a w ∧ ∃ id, y = x <| x_ID := id |>).
Proof.
  intros Hx w [Hb Ha]. unfold on_db, CpDao.CreateProxy. destruct (Create_ TAccess x (wd_db w)) as [r db] eqn:E. apply Create_law_ in E as [_ H].
  destruct r as [y|e]; [|eapply stable_backed; [|exact Hb]; split; [by intros t _; apply H|done|done]].
  destruct H as (id & Hid & Hnone & -> & H1 & H2). cbn [numbered] in *. set (y := x <| x_ID := id |>). set (w' := mkWorld db (wd_planes w) (wd_os w)).
  assert (∀ k, accesses w' !! k = if bool_decide (k = id) then Some y else accesses w !! k) as Hrows.
  { intros k. etransitivity; [exact (f_equal (λ m : gmap N Access, m !! k) H1)|]. case_bool_decide as Hk; [subst k; apply lookup_insert_eq|by apply lookup_insert_ne]. }
  assert (idle id w) as Hi.
  { intros pl. destruct (at_port w pl (Z.of_N id)) as [port|] eqn:Hp; [|done]. destruct (proj2 Hb _ _ _ Hp ltac:(tauto)) as (x' & _ & Hxi & Hx' & _).
    assert (x_ID x' = id) as Hxx by lia. rewrite Hxx in Hx'. change (accesses w !! id = None) in Hnone. congruence. }
  split; [|by exists id]. split; [|done]. split_and!; [|unfold has_access; by rewrite Hrows, bool_decide_eq_true_2| |done].
  - apply (others_gone id); [|done]. apply (row_changed _ w); [by apply backed_others|apply Hb|done| |exact (H2 TApplication ltac:(done))|exact (H2 TEdge ltac:(done))].
    intros k Hk. by rewrite Hrows, bool_decide_eq_false_2.
  - unfold has_application. by rewrite (H2 TApplication ltac:(done) : applications w' = applications w).
Qed.
Lemma safe_stop_others x y : x_ID y = x_ID x → safe (others_backed (x_ID x)) (ignore (stopProxyRuntime y) : C unit) (λ _ w, backed_up w ∧ idle (x_ID x) w).
Proof.
  intros Hid. eapply safe_bind; [|intros r; apply safe_ret; intros w H; exact H]. apply safe_try. intros w Ho.
  destruct (stop_others x y w Ho Hid) as (Hb & Hi & _). by destruct (stopProxyRuntime y w).
Qed.
Lemma safe_start_created x a requested : x_Port x = requested →
  safe (resting x a) (let! started := attempt (startProxyRuntime certs x a) in
      match started with
      | Err e => undo_create (x_ID x) e
      | Ok started =>
          if Z.eqb requested 0 && Z.ltb 0 (x_Port started) then
            let! updated := try (on_db (CpDao.UpdateProxy started)) in
            match updated with Ok _ => ret started | Err e => ignore (stopProxyRuntime started) ;; undo_create (x_ID started) e end
          else ret started
      end : C Access) (λ _, backed_up).
Proof.
  intros _. eapply (safe_bind _ _ (λ r w, match r with Ok y => (ready x y a w ∧ stored x a w) ∧ same_access x y | Err _ => resting x a w end)).
  { apply safe_attempt. intros w Hw. pose proof (start_new x x a w Hw (same_access_refl x)) as H. pose proof (start_stored certs x a w (proj1 Hw)) as Hst.
    destruct (startProxyRuntime certs x a w) as [[y|e] w']; (split; [naive_solver|]); [done|]. intros _. apply Hst. }
  intros [y|e]; [|eapply safe_pre; [|apply safe_undo]; by intros w [[]]]. apply safe_pure. intros [Hid _].
  destruct (_ && _); [|apply safe_ret; by intros w [_ []]].
  eapply (safe_bind _ _ (λ r w, if is_ok r then backed_up w else others_backed (x_ID x) w)).
  { apply safe_try. intros w [(Ho & Hx & Ha & Hsu) (_ & _ & _ & Haid)]. pose proof (save_row x y a w Ho Hx Ha Haid Hid Hsu) as H.
    destruct (on_db (CpDao.UpdateProxy y) w) as [[u|e] w1]; cbn [is_ok] in *; [done|apply H]. }
  intros [u|e]; cbn [is_ok]; [by apply safe_ret|]. rewrite Hid. eapply safe_bind; [by apply safe_stop_others|]. intros u. apply safe_undo.
Qed.
Lemma safe_CreateProxy actor req : safe backed_up (CreateProxy (DB := DB) (OS := OS) ToLower certs actor req) (λ _, backed_up).
Proof.
  unfold CreateProxy. apply safe_quiet_bind; [apply _|done|quietly|intros name]. destruct (N.eqb _ 0); [by apply safe_throw|].
  apply safe_quiet_bind; [apply _|done|quietly|intros _]. destruct (bad_port _); [by apply safe_throw|].
  eapply safe_bind; [apply safe_map_err, (safe_read_application backed_up); by intros|]. intros a. apply safe_pure. intros Haid.
  apply safe_quiet_bind; [apply _|by intros w []|quietly|intros edge]. apply safe_quiet_bind; [apply _|by intros w []|quietly|intros protocol].
  apply safe_quiet_bind; [apply _|by intros w []|quietly|intros port]. apply safe_quiet_bind; [apply _|by intros w []|quietly|intros _].
  eapply safe_bind; [apply (safe_create_row a); by cbn|]. intros x. apply safe_pure. intros [id Hx].
  eapply (safe_bind _ _ (λ _, resting x a)); [apply safe_try; intros w Hw; match goal with |- let '(_, _) := ?t in _ => pose proof (quiet_db (OS := OS) (claimResource actor "access" (x_ID x)) (reads_claim _ _ _) w) as Hq; destruct t end; by eapply stable_resting|].
  intros [c|e]; [|eapply safe_pre; [|apply safe_undo]; by intros w [[]]].
  eapply (safe_bind _ _ (λ _, backed_up)); [|intros y; apply safe_quiet; [apply _|done|quietly]].
  destruct (Z.eqb _ _); [|apply safe_ret; apply resting_backed]. apply safe_start_created. by rewrite Hx.
Qed.

(** ** Starting and stopping the accesses of a connector *)
Lemma persist_safe x a : safe (stored x a) (startAndPersistProxyRuntime certs x a) (λ _, backed_up).
Proof. intros w Hw. pose proof (persist_stored certs x a w Hw) as H. destruct (startAndPersistProxyRuntime certs x a w) as [[y|e] w']; apply H. Qed.
Lemma safe_stop_all l : safe backed_up (each (λ x, ignore (stopProxyRuntime x)) l : C unit) (λ _, backed_up).
Proof. apply safe_each. intros x. eapply safe_bind; [apply safe_try; intros w Hw; pose proof (stop_keeps x w Hw) as H; destruct (stopProxyRuntime x w); exact H|]. intros r. by apply safe_ret. Qed.
(** Rows that stay as they are while one access is started. *)
Definition pending (l : list (Access * Application)) (w : W) : Prop :=
  NoDup (map (λ p, x_ID (fst p)) l) ∧ ∀ x a, (x, a) ∈ l → has_access w x ∧ has_application w a ∧ a_ID a = x_ApplicationID x.
Lemma pending_next x a l w w' : pending ((x, a) :: l) w → about (x_ID x) w w' → pending l w'.
Proof.
  intros [Hd Hl] [HA HE HX _ _]. cbn in Hd. apply NoDup_cons in Hd as [Hni Hd]. split; [done|]. intros y b Hy.
  destruct (Hl y b ltac:(by right)) as (H1 & H2 & H3). unfold has_access, has_application in *. rewrite HA, HX; [done|]. intros Heq. apply Hni. rewrite <- Heq.
  apply list_elem_of_fmap. by exists (y, b).
Qed.
(** The listeners that are left are some of those there were. *)
Record fewer (w w' : W) : Prop := {
  fewer_applications : applications w' = applications w;
  fewer_edges : edges w' = edges w;
  fewer_application k x' : accesses w' !! k = Some x' → ∃ x, accesses w !! k = Some x ∧ x_ApplicationID x' = x_ApplicationID x;
  fewer_ports pl i port : at_port w' pl i = Some port → at_port w pl i = Some port
}.
#[local] Instance fewer_preorder : PreOrder fewer.
Proof.
  split; [by intros w; split; eauto|]. intros w w1 w2 [A1 E1 Y1 P1] [A2 E2 Y2 P2]. split; [congruence|congruence| |auto].
  intros k x2 H. destruct (Y2 _ _ H) as (x1 & H1 & E). destruct (Y1 _ _ H1) as (x & H0 & E'). exists x. split; congruence.
Qed.
Lemma stop_all_spec l (w : W) : backed_up w → let '(r, w') := each (λ x, ignore (stopProxyRuntime x)) l w in
  r = Ok tt ∧ backed_up w' ∧ fewer w w' ∧ ∀ x pl, x ∈ l → at_port w' pl (Z.of_N (x_ID x)) = None.
Proof.
  revert w. induction l as [|x l IH]; intros w Hb; cbn [each]; [by split_and!; try (intros ? ? ?%elem_of_nil)|].
  unfold bind at 1. unfold ignore at 1, bind at 1, try at 1. pose proof (stop_spec x w (proj1 Hb)) as Hst. pose proof (stop_keeps x w Hb) as Hb1.
  destruct (stopProxyRuntime x w) as [r1 w1]. cbn [snd] in *. cbn [ret]. specialize (IH w1 Hb1). destruct (each _ l w1) as [r w']. destruct IH as (-> & Hb' & Hf & Hn).
  assert (fewer w w1) as Hf1.
  { destruct (stopped_about _ _ _ Hst) as [A E _ Y _]. split; [done|done|done|]. intros pl i port. rewrite (stopped_ports _ _ _ Hst). by case_bool_decide. }
  split_and!; [done|done|by etransitivity|]. intros y pl [->|Hy]%elem_of_cons; [|by apply Hn]. destruct (at_port w' pl _) as [port|] eqn:Hp; [|done].
  apply Hf in Hp. by rewrite (stopped_ports _ _ _ Hst), bool_decide_eq_true_2 in Hp.
Qed.
Lemma start_all_spec l started (w : W) : backed_up w → pending l w → let '(r, w') := start_all certs l started w in backed_up w' ∧
  match r with
  | Err e => Is e panicked = false → fewer w w' ∧ ∀ x pl, x ∈ started → at_port w' pl (Z.of_N (x_ID x)) = None
  | Ok _ => True
  end.
Proof.
  revert started w. induction l as [|[x a] l IH]; intros started w Hb Hl; cbn [start_all]; [done|]. unfold bind at 1, attempt.
  assert (stored x a w) as Hst by (split; [done|]; apply Hl; by left). pose proof (persist_stored certs x a w Hst) as Hp.
  destruct (startAndPersistProxyRuntime certs x a w) as [[x'|e] w1]; destruct Hp as (Hb1 & Hab & Hx).
  - specialize (IH (started ++ [x']) w1 Hb1 (pending_next _ _ _ _ _ Hl Hab)). destruct (start_all certs l _ w1) as [[u|e] w2]; [done|]. destruct IH as [Hb2 IH].
    split; [done|]. intros He. destruct (IH He) as [[A E Y P] Hn]. split; [|intros y pl Hy; apply Hn; apply elem_of_app; by left].
    destruct Hab as [A1 E1 _ Y1 P1]. split; [congruence|congruence| |].
    + intros k x2 H. destruct (Y _ _ H) as (y1 & H1 & Ey). destruct (Y1 _ _ H1) as (y & H0 & Ey'). exists y. split; congruence.
    + intros pl i port Hi. destruct (decide (i = Z.of_N (x_ID x'))) as [->|Hne]; [by rewrite Hn in Hi by (apply elem_of_app; right; by left)|].
      rewrite <- (P1 pl i); [by apply P|]. by rewrite <- Hx.
  - destruct (Is e panicked) eqn:Ep; [split; [done|congruence]|]. unfold bind. pose proof (stop_all_spec started w1 Hb1) as Hs. destruct (each _ started w1) as [r w2].
    destruct Hs as (-> & Hb2 & Hf & Hn). cbn. split; [done|]. intros _. split; [|done]. etransitivity; [|exact Hf].
    destruct Hab as [A1 E1 _ Y1 P1]. split; [done|done|done|]. intros pl i port. destruct (decide (i = Z.of_N (x_ID x))) as [->|Hne]; [apply Hx|by rewrite P1].
Qed.

(** ** UpdateEdge *)
(** No listener needs the connector [e]. *)
Definition unused (e : N) (w : W) : Prop := ∀ pl id port x a es, at_port w pl id = Some port → id = Z.of_N (x_ID x) →
  accesses w !! x_ID x = Some x → applications w !! x_ApplicationID x = Some a → a_EdgeIDs a = e :: es → False.
Lemma fewer_unused e w w' : fewer w w' → unused e w → unused e w'.
Proof.
  intros [A _ Y P] Hu pl id port x a es Hp -> Hx Ha He. rewrite A in Ha. destruct (Y _ _ Hx) as (y & Hy & Hyx). pose proof (access_keyed _ _ _ Hy) as Hk.
  apply (Hu pl (Z.of_N (x_ID x)) port y a es); [by apply P|by rewrite Hk|by rewrite Hk|by rewrite <- Hyx|done].
Qed.
Lemma not_running_unused e (w : W) : backed_up w → (∀ edge, edges w !! e = Some edge → e_Status edge ≠ EdgeStatusRunning) → unused e w.
Proof.
  intros [_ Hb] Hn pl id port x a es Hp -> Hx Ha He. destruct (Hb _ _ _ Hp ltac:(tauto)) as (y & b & Hi & Hy & _ & Hb' & Hr & _).
  assert (x_ID y = x_ID x) as Hyx by lia. rewrite Hyx in Hy. assert (y = x) as -> by congruence. assert (b = a) as -> by congruence.
  destruct Hr as (_ & _ & e' & es' & edge & He' & Hedge & Hst). rewrite He in He'. injection He' as <- <-. by apply (Hn edge).
Qed.
Lemma edge_updates_id edge r : e_ID (CpDao.edge_updates edge r) = e_ID r.
Proof. unfold CpDao.edge_updates. by repeat (case_bool_decide || destruct (Z.eqb _ _)). Qed.
Lemma edge_updates_status edge r : e_Status (CpDao.edge_updates edge r) = if Z.eqb (e_Status edge) 0 then e_Status r else e_Status edge.
Proof. unfold CpDao.edge_updates. by repeat (case_bool_decide || destruct (Z.eqb _ _)). Qed.
(** A row of connectors changes: nothing a listener needs goes away. *)
Lemma edge_changed (w w' : W) : backed_up w → wd_planes w' = wd_planes w → accesses w' = accesses w → applications w' = applications w →
  (∀ e edge, edges w !! e = Some edge → e_Status edge = EdgeStatusRunning →
     unused e w ∨ ∃ edge', edges w' !! e = Some edge' ∧ e_Status edge' = EdgeStatusRunning) → backed_up w'.
Proof.
  intros [Hs Hb] Hp HX HA HE. split; [by rewrite Hp|]. intros pl id port. unfold at_port. rewrite Hp. intros Hl _.
  destruct (Hb _ _ _ Hl ltac:(tauto)) as (x & a & -> & Hx & Hport & Ha & (Hr & Hpub & e & es & edge & He & Hedge & Hst) & Hpl).
  exists x, a. rewrite HX, HA. split_and!; try done. split_and!; try done.
  destruct (HE _ _ Hedge Hst) as [Hu|(edge' & He' & Hst')]; [by destruct (Hu pl (Z.of_N (x_ID x)) port x a es)|]. by exists e, es, edge'.
Qed.
Lemma update_edge_row edge (w : W) : backed_up w →
  (∀ old, edges w !! e_ID edge = Some old → e_Status old = EdgeStatusRunning → e_Status (CpDao.edge_updates edge old) ≠ EdgeStatusRunning → unused (e_ID edge) w) →
  let '(r, w') := on_db (CpDao.UpdateEdge edge) w in backed_up w' ∧ (is_ok r = false → quieter w w') ∧
  accesses w' = accesses w ∧ applications w' = applications w ∧ wd_planes w' = wd_planes w.
Proof.
  intros Hb Hu. unfold on_db, CpDao.UpdateEdge.
  destruct (_ && _) eqn:Eall; [destruct w; by split_and!|]. clear Eall. destruct (Updates_ TEdge _ _ (wd_db w)) as [r db] eqn:E.
  apply (Updates_law_ TEdge _ (CpDao.edge_updates edge)) in E as [_ H]; [|by intros r' _; apply edge_updates_id]. destruct r as [[]|e].
  - destruct H as [H1 H2]. set (w' := mkWorld db (wd_planes w) (wd_os w)).
    assert (∀ k, edges w' !! k = (λ r, if bool_decide (e_ID r = e_ID edge) then CpDao.edge_updates edge r else r) <$> edges w !! k) as Hrows.
    { intros k. rewrite <- lookup_fmap. exact (f_equal (λ m : gmap N Edge, m !! k) H1). }
    assert (accesses w' = accesses w) as HX by exact (H2 TAccess ltac:(done)). assert (applications w' = applications w) as HA by exact (H2 TApplication ltac:(done)).
    split_and!; try done. apply (edge_changed w); try done. intros k r Hr Hst. rewrite Hrows, Hr. cbn. case_bool_decide as Hk; [|right; by eexists].
    assert (e_ID r = k) as Hrk by (by apply (keyed_row w TEdge) in Hr as []). rewrite Hrk in Hk. subst k.
    destruct (Z.eq_dec (e_Status (CpDao.edge_updates edge r)) EdgeStatusRunning) as [Hrun|Hrun]; [right; by eexists|left]. by apply (Hu r).
  - assert (quieter w (mkWorld db (wd_planes w) (wd_os w))) as Hq by (split; [by intros t _; apply H|done|done]).
    split_and!; try done; [by eapply stable_backed|by apply same_accesses, Hq|by apply same_applications, Hq].
Qed.
Definition listed (e : N) (l : list (Access * option Application)) (w : W) : Prop :=
  NoDup (map (λ p, x_ID (fst p)) l) ∧
  (∀ x o, (x, o) ∈ l → has_access w x ∧ ∀ a, o = Some a → has_application w a ∧ a_ID a = x_ApplicationID x) ∧
  (∀ x a, has_access w x → has_application w a → a_ID a = x_ApplicationID x → e ∈ a_EdgeIDs a → ∃ o, (x, o) ∈ l).
#[local] Instance stable_listed e l : Stable (listed e l).
Proof.
  intros w w' [R _ _] (Hd & H1 & H2). unfold listed, has_access, has_application in *. rewrite (same_accesses _ _ R), (same_applications _ _ R). done.
Qed.
Lemma NoDup_ids (w : W) (l : list Access) : NoDup l → (∀ x, x ∈ l → has_access w x) → NoDup (map x_ID l).
Proof.
  intros Hd Hl. apply NoDup_fmap_2_strong; [|done]. intros x y Hx%Hl Hy%Hl E. unfold has_access in *. rewrite E in Hx. congruence.
Qed.
Lemma safe_list_applications P {i_P : Stable P} e : (∀ w, P w → backed_up w) → safe P (listApplicationsByEdgeID e : C (list Application))
  (λ l w, P w ∧ ∀ a, a ∈ l ↔ has_application w a ∧ e ∈ a_EdgeIDs a).
Proof.
  intros HP. unfold listApplicationsByEdgeID. eapply safe_bind; [exact (safe_Find P TApplication _ HP)|]. intros l. apply safe_ret. intros w (H & _ & Hl). split; [done|].
  intros a. rewrite list_elem_of_In, filter_In, <- list_elem_of_In, bool_decide_eq_true, Hl. naive_solver.
Qed.
Lemma safe_list_proxies P {i_P : Stable P} e : (∀ w, P w → backed_up w) → safe P (listProxiesByEdgeID e : C _) (λ l w, P w ∧ listed e l w).
Proof.
  intros HP. unfold listProxiesByEdgeID. eapply safe_bind; [by apply (safe_list_applications P)|]. intros apps. cbn beta.
  destruct apps as [|a0 apps]; [apply safe_ret|set (l := a0 :: apps)].
  { intros w [H Hl]. split; [done|]. split_and!; [constructor|by intros x o ?%elem_of_nil|]. intros x a _ Ha _ He. by apply (conj Ha), Hl, elem_of_nil in He. }
  assert (Stable (λ w, P w ∧ ∀ a, a ∈ l ↔ has_application w a ∧ e ∈ a_EdgeIDs a)) as Hst.
  { apply stable_and; [done|]. intros w w' [R _ _] H a. rewrite H. unfold has_application. by rewrite (same_applications _ _ R). }
  eapply safe_bind; [exact (safe_Find (i_P := Hst) _ TAccess _ (λ w H, HP w (proj1 H)))|]. intros xs. apply safe_ret. intros w ((H & Hl) & Hd & Hx). split; [done|].
  split_and!.
  - rewrite map_map. cbn. apply (NoDup_ids w); [done|]. intros x Hin. by apply Hx.
  - intros x o (y & [= -> ->] & Hin)%list_elem_of_fmap. split; [by apply Hx|]. intros a Hf.
    apply (find_some (λ a, bool_decide (a_ID a = x_ApplicationID y)) l) in Hf as [Ha Hid%bool_decide_eq_true]. split; [|done]. by apply Hl, list_elem_of_In.
  - intros x a Hacc Happ Hid He. eexists. apply list_elem_of_fmap. exists x. split; [done|]. apply Hx. split; [done|]. cbn [map l]. apply bool_decide_eq_true.
    change (x_ApplicationID x ∈ map a_ID l). rewrite <- Hid. apply list_elem_of_fmap. exists a. split; [done|]. by apply Hl.
Qed.
(** Stopping them: rows stay, listeners go. *)
Lemma stop_each_spec (l : list (Access * option Application)) (w : W) : backed_up w → let '(r, w') := each (λ x, stopProxyRuntime (fst x)) l w in
  backed_up w' ∧ (∀ t, rows_of w' t = rows_of w t) ∧ (∀ pl i port, at_port w' pl i = Some port → at_port w pl i = Some port) ∧
  (is_ok r = true → ∀ x pl, x ∈ l → at_port w' pl (Z.of_N (x_ID (fst x))) = None).
Proof.
  revert w. induction l as [|x l IH]; intros w Hb; cbn [each]; [split_and!; try done; by intros ? ? ? ?%elem_of_nil|]. unfold bind.
  pose proof (stop_spec (fst x) w (proj1 Hb)) as [R S P]. pose proof (stop_keeps (fst x) w Hb) as Hb1. destruct (stopProxyRuntime (fst x) w) as [[u|e] w1]; cbn [snd] in *.
  - specialize (IH w1 Hb1). destruct (each _ l w1) as [r w']. destruct IH as (Hb' & R' & P' & Hn). split_and!; [done|intros t; by rewrite R'| |].
    + intros pl i port H%P'. rewrite P in H. by case_bool_decide.
    + intros Hok y pl [->|Hy]%elem_of_cons; [|by apply Hn]. destruct (at_port w' pl _) as [port|] eqn:Hp; [|done]. apply P' in Hp. by rewrite P, bool_decide_eq_true_2 in Hp.
  - split_and!; [done|done| |done]. intros pl i port. rewrite P. by case_bool_decide.
Qed.
Lemma safe_stop_edge e old : safe (λ w, backed_up w ∧ has_edge w old) (stopEdgeProxies e : C unit) (λ _ w, (backed_up w ∧ has_edge w old) ∧ unused e w).
Proof.
  unfold stopEdgeProxies. eapply safe_bind; [apply safe_list_proxies; [apply _|by intros w []]|]. intros l w [[Hb Hold] (_ & _ & Hl)]. pose proof (stop_each_spec (running l) w Hb) as H.
  destruct (each _ (running l) w) as [[u|er] w']; destruct H as (Hb' & R & P & Hn); [|done].
  split; [split; [done|]; unfold has_edge, edges in *; by rewrite (R TEdge)|]. intros pl id port x a es Hp -> Hx Ha He. destruct (proj2 Hb' _ _ _ Hp ltac:(tauto)) as (y & b & Hi & Hy & _ & _ & (Hr & _) & _). assert (x_ID y = x_ID x) as Hyx by lia. rewrite Hyx in Hy.
  assert (y = x) as -> by congruence. assert (accesses w' = accesses w) as RX by exact (R TAccess). assert (applications w' = applications w) as RA by exact (R TApplication).
  rewrite RX in Hx. rewrite RA in Ha. pose proof (application_keyed _ _ _ Ha) as Hid.
  destruct (Hl x a Hx ltac:(unfold has_application; by rewrite Hid) Hid ltac:(rewrite He; by left)) as [o Ho].
  specialize (Hn eq_refl (x, o) pl). cbn in Hn. rewrite Hn in Hp; [done|]. unfold running. rewrite list_elem_of_In, filter_In, <- list_elem_of_In. split; [done|]. by apply Z.eqb_eq.
Qed.
#[local] Instance stable_unused e : Stable (unused e).
Proof.
  intros w w' [R P _] Hu pl id port x a es. rewrite P, (same_accesses _ _ R), (same_applications _ _ R). apply Hu.
Qed.
Definition startable (l : list (Access * option Application)) : list (Access * Application) :=
  omap (λ x : Access * option Application, match snd x with Some a => Some (fst x, a) | None => None end) (running l).
Lemma startable_in l x a : (x, a) ∈ startable l → (x, Some a) ∈ l.
Proof.
  unfold startable, running. rewrite list_elem_of_omap. intros ([y o] & Hy & E). cbn in E. destruct o as [b|]; [|done]. injection E as -> ->.
  rewrite list_elem_of_In, filter_In, <- list_elem_of_In in Hy. by destruct Hy.
Qed.
Lemma startable_pending e l w : listed e l w → pending (startable l) w.
Proof.
  intros (Hd & Hl & _). split.
  - clear Hl. induction l as [|[x o] l IH]; [constructor|]. cbn in Hd. apply NoDup_cons in Hd as [Hni Hd]. specialize (IH Hd). unfold startable, running in *. cbn [List.filter].
    destruct (Z.eqb _ _); [|done]. cbn. destruct o as [a|]; [|done]. cbn. apply NoDup_cons. split; [|done]. intros ([y b] & E & Hy)%list_elem_of_fmap.
    apply (startable_in l) in Hy. apply Hni. apply list_elem_of_fmap. by exists (y, Some b).
  - intros x a H%startable_in. destruct (Hl _ _ H) as [Hx Ha]. by destruct (Ha a eq_refl).
Qed.
Lemma start_edge_spec e (w : W) : backed_up w → unused e w → let '(r, w') := startEdgeProxies certs e w in
  backed_up w' ∧ match r with Err er => Is er panicked = false → unused e w' | Ok _ => True end.
Proof.
  intros Hb Hu. unfold startEdgeProxies. unfold bind at 1. pose proof (safe_list_proxies (λ w, backed_up w ∧ unused e w) e (λ _ H, proj1 H) w (conj Hb Hu)) as Hl.
  pose proof (quiet_proxies (DB := DB) (OS := OS) e w) as Hq. destruct (listProxiesByEdgeID e w) as [[l|er] w1]; cbn [snd] in Hq.
  - destruct Hl as [[Hb1 Hu1] Hl]. pose proof (start_all_spec (startable l) [] w1 Hb1 (startable_pending _ _ _ Hl)) as H. fold (startable l).
    destruct (start_all certs (startable l) [] w1) as [[u|er] w2]; destruct H as [Hb2 H]; [done|]. split; [done|]. intros He. destruct (H He) as [Hf _]. by eapply fewer_unused.
  - split; [done|]. intros _. by eapply stable_unused.
Qed.
Lemma safe_UpdateEdge actor req : safe backed_up (UpdateEdge (DB := DB) (OS := OS) certs actor req) (λ _, backed_up).
Proof.
  unfold UpdateEdge. destruct (N.eqb _ 0); [by apply safe_throw|]. apply safe_quiet_bind; [apply _|done|quietly|intros _].
  eapply safe_bind; [apply safe_map_err, (safe_First backed_up TEdge); by intros|]. intros old. cbn beta.
  eapply (safe_pre _ (λ w, backed_up w ∧ has_edge w old)); [intros w (? & ? & _); done|].
  destruct (_ && _); [apply safe_throw; by intros w []|]. set (edge1 := if bool_decide (ue_Description req = "") then _ else _).
  destruct (_ && _) eqn:Est; [apply safe_throw; by intros w []|]. set (edge := if Z.eqb (ue_Status req) 0 then edge1 else _).
  assert (e_ID edge1 = e_ID old ∧ e_Status edge1 = e_Status old) as [Hid1 Hst1] by (unfold edge1; by repeat case_bool_decide).
  assert (e_ID edge = e_ID old) as Hid by (unfold edge; by destruct (Z.eqb (ue_Status req) 0)).
  assert (e_Status old ≠ e_Status edge → e_Status edge = EdgeStatusRunning ∨ e_Status edge = EdgeStatusStopped) as Hstatus.
  { unfold edge. destruct (Z.eqb_spec (ue_Status req) 0); [congruence|]. cbn. rewrite !andb_false_iff, !negb_false_iff, !Z.eqb_eq in Est. intuition done. }
  clearbody edge. clear edge1 Hid1 Hst1 Est.
  eapply (safe_bind _ _ (λ _ w, (backed_up w ∧ has_edge w old) ∧ (e_Status old ≠ e_Status edge → e_Status edge = EdgeStatusStopped → unused (e_ID edge) w))).
  { destruct (negb _ && _) eqn:E.
    - eapply safe_bind; [apply safe_stop_edge|]. intros u. eapply safe_post; [apply safe_quiet; [apply _|by intros w [[]]|quietly]|]. intros v w [? ?]. done.
    - apply safe_ret. intros w Hw. split; [done|]. intros H1 H2. exfalso. apply andb_false_iff in E as [E|E]; [apply negb_false_iff, Z.eqb_eq in E|apply Z.eqb_neq in E]; done. }
  intros _. eapply (safe_bind _ _ (λ _ w, backed_up w ∧ (e_Status old ≠ e_Status edge → e_Status edge = EdgeStatusRunning → unused (e_ID edge) w))).
  { intros w [[Hb Hold] Hu]. unfold has_edge in Hold. pose proof (update_edge_row edge w Hb) as H. destruct (on_db (CpDao.UpdateEdge edge) w) as [[u|e] w'].
    - destruct H as (Hb' & _ & HX & HA & HP).
      + intros r Hr Hrun Hnot. rewrite Hid, Hold in Hr. injection Hr as <-. rewrite edge_updates_status in Hnot. destruct (Z.eqb _ 0); [done|].
        apply Hu; [congruence|]. destruct Hstatus; [congruence|done|done].
      + split; [done|]. intros H1 H2. assert (unused (e_ID edge) w) as Huw.
        { apply not_running_unused; [done|]. intros r Hr. rewrite Hid, Hold in Hr. injection Hr as <-. congruence. }
        intros pl id port. unfold at_port. rewrite HX, HA, HP. apply (Huw pl id port).
    - apply H. intros r Hr Hrun Hnot. rewrite Hid, Hold in Hr. injection Hr as <-. rewrite edge_updates_status in Hnot. destruct (Z.eqb _ 0); [done|].
      apply Hu; [congruence|]. destruct Hstatus; [congruence|done|done]. }
  intros _. eapply (safe_bind _ _ (λ _, backed_up)); [|intros u; apply safe_quiet; [apply _|done|unfold CpDao.GetEdge; quietly]].
  destruct (negb _ && _) eqn:E; [|apply safe_ret; by intros w []]. apply andb_true_iff in E as [E1%negb_true_iff%Z.eqb_neq E2%Z.eqb_eq].
  eapply (safe_bind _ _ (λ r w, backed_up w ∧ (is_ok r = false → unused (e_ID edge) w))).
  - apply safe_attempt_panics. intros w [Hb Hu]. pose proof (start_edge_spec (e_ID edge) w Hb (Hu E1 E2)) as H.
    destruct (startEdgeProxies certs (e_ID edge) w) as [[u|e] w']; destruct H as [Hb' H]; [done|]. split; [done|]. auto.
  - intros [u|e]; [apply safe_ret; by intros w []|]. eapply (safe_bind _ _ (λ _, backed_up)); [|intros u; by apply safe_throw].
    eapply safe_bind; [apply safe_try with (Q := λ _, backed_up)|intros r; by apply safe_ret]. intros w [Hb Hu].
    pose proof (update_edge_row (edge <| e_Status := e_Status old |>) w Hb (λ _ _ _ _, Hu eq_refl)) as H. destruct (on_db _ w). apply H.
Qed.
End Handlers.
