(* ===== verification/ControlRows.v ===== *)
(** * manager/controlplane: start-up, applications, connectors and devices

    The work at start-up and the handlers that create and change applications,
    connectors, devices and tasks keep every listener backed. *)

From S2P Require Import Prelude ToolTypes IamDao ControlDao NetAddr Firewall EntryPlanes ControlPlane ControlResources ControlInvariant ControlBacked ControlHandlers.
Import Control.

Section Rows.
Context {DB : Type} {i_iam : IamGorm DB} {i_cp : CpGorm DB} {l_cp : CpGormLaws DB} {l_frame : AccountQueries DB}.
Context {OS : Type} {i_os : Machine OS} {l_os : MachineLaws OS}.
Context (ToLower : string → string) (certs : list (string * string)) (Parse : string → Result URL) (conf : ManagerConf).
#[local] Abbreviation W := (World DB OS).
#[local] Abbreviation C A := (Op W A).

(** ** At start-up *)
Definition queue (l : list Access) (w : W) : Prop := NoDup (map x_ID l) ∧ ∀ x, x ∈ l → has_access w x.
#[local] Instance stable_queue l : Stable (queue l).
Proof. intros w w' [R _ _] [Hd Hl]. split; [done|]. intros x Hx%Hl. unfold has_access in *. by rewrite (same_accesses _ _ R). Qed.
Lemma queue_next x l w w' : queue (x :: l) w → about (x_ID x) w w' → queue l w'.
Proof.
  intros [Hd Hl] Hab. cbn in Hd. apply NoDup_cons in Hd as [Hni Hd]. split; [done|]. intros y Hy. unfold has_access.
  rewrite (about_accesses _ _ _ Hab); [apply Hl; by right|]. intros Heq. apply Hni. rewrite <- Heq. apply list_elem_of_fmap. by exists y.
Qed.
Lemma queue_tail x l w : queue (x :: l) w → queue l w.
Proof. intros H. eapply queue_next; [exact H|reflexivity]. Qed.
Lemma safe_restorable l started : safe (λ w, backed_up w ∧ queue l w) (restorable certs l started : C unit) (λ _, backed_up).
Proof.
  revert started. induction l as [|x l IH]; intros started; cbn [restorable]; [apply safe_ret; by intros w []|].
  assert (∀ started, safe (λ w, backed_up w ∧ queue (x :: l) w) (restorable certs l started : C unit) (λ _, backed_up)) as Hskip.
  { intros s. eapply safe_pre; [|apply IH]. intros w [? ?%queue_tail]. done. }
  destruct (negb _); [apply Hskip|].
  eapply (safe_bind _ _ (λ r w, (backed_up w ∧ queue (x :: l) w) ∧ match r with Ok a => has_application w a ∧ a_ID a = x_ApplicationID x | Err _ => True end)).
  { apply safe_try. intros w Hw. pose proof (safe_read_application (λ w, backed_up w ∧ queue (x :: l) w) (x_ApplicationID x) (λ _ H, proj1 H) w Hw) as H.
    assert (quiet (on_db (OS := OS) (CpDao.GetApplicationByID (DB := DB) (x_ApplicationID x)))) as Hq by (apply quiet_db; unfold CpDao.GetApplicationByID; reading).
    specialize (Hq w). destruct (on_db _ w) as [[a|e] w']; [by destruct H as [[H ?] ?]|]. split; [|done]. by eapply (stable_and _ _ _ _ _ _ Hq). }
  intros [a|e]; [|eapply safe_pre; [|apply Hskip]; by intros w []].
  eapply (safe_bind _ _ (λ _ w, (backed_up w ∧ queue (x :: l) w) ∧ has_application w a ∧ a_ID a = x_ApplicationID x)); [apply safe_quiet; [apply _|by intros w [[]]|quietly]|].
  intros [[]|e]; [|eapply safe_pre; [|apply Hskip]; by intros w []..].
  eapply (safe_bind _ _ (λ r w, backed_up w ∧ queue l w)).
  - apply safe_attempt. intros w [[Hb Hq] [Ha Hid]]. assert (stored x a w) as Hst by (split_and!; try done; apply Hq; by left).
    pose proof (persist_stored certs x a w Hst) as H. destruct (startAndPersistProxyRuntime certs x a w) as [r w']. destruct H as (Hb' & Hab & _).
    split; [|done]. split; [done|]. by eapply queue_next.
  - intros [y|e]; [apply IH|]. eapply safe_bind; [eapply safe_pre; [|apply safe_stop_all]; by intros w []|]. intros u. by apply safe_throw.
Qed.
Lemma safe_RestoreProxyListeners : safe backed_up (RestoreProxyListeners certs : C unit) (λ _, backed_up).
Proof.
  unfold RestoreProxyListeners. eapply safe_bind; [exact (safe_Find backed_up TAccess _ (λ _ H, H))|]. intros l. eapply safe_pre; [|apply safe_restorable].
  intros w (Hb & Hd & Hl). split; [done|]. assert (∀ x, x ∈ l → has_access w x) as Hx by (intros x H%Hl; apply H). split; [by eapply NoDup_ids|done].
Qed.
Lemma safe_drop x : safe backed_up (drop_access x : C unit) (λ _, backed_up).
Proof.
  unfold drop_access. eapply (safe_bind _ _ (λ _ w, backed_up w ∧ idle (x_ID x) w)).
  - apply safe_try. intros w Hb. destruct (stop_others x x w (backed_others _ _ Hb) eq_refl) as (? & ? & _). by destruct (stopProxyRuntime x w).
  - intros [u|e]; [|apply safe_ret; by intros w []].
    apply safe_quiet_bind; [apply _|by intros w []|unfold CpDao.DeleteFirewallRuleByProxyID; quietly|intros _].
    eapply safe_bind; [apply safe_try with (Q := λ _, backed_up)|intros r; by apply safe_ret]. intros w [Hb Hi]. pose proof (delete_row_keeps (x_ID x) w Hb Hi) as H.
    by destruct (on_db _ w).
Qed.
Lemma safe_ignore_stop x : safe backed_up (ignore (stopProxyRuntime x) : C unit) (λ _, backed_up).
Proof. eapply safe_bind; [apply safe_try with (Q := λ _, backed_up)|intros r; by apply safe_ret]. intros w Hb. pose proof (stop_keeps x w Hb) as H. by destruct (stopProxyRuntime x w). Qed.
Lemma safe_ReconcileLifecycleState : safe backed_up (ReconcileLifecycleState : C unit) (λ _, backed_up).
Proof.
  unfold ReconcileLifecycleState. apply safe_quiet_bind; [apply _|done|unfold CpDao.ListProxies; quietly|]. intros [l|e]; [|by apply safe_ret].
  apply safe_each. intros x. unfold reconcile. apply safe_quiet_bind; [apply _|done|unfold CpDao.GetApplicationByID; quietly|]. intros [a|e]; [|apply safe_drop].
  destruct (Z.eqb _ _); [apply safe_ignore_stop|]. apply safe_quiet_bind; [apply _|done|quietly|]. intros [[]|e]; [by apply safe_ret|apply safe_ignore_stop|apply safe_drop].
Qed.

(** ** Applications *)
(** No listener belongs to the application [k]. *)
Definition unserved (k : N) (w : W) : Prop := ∀ pl id port x, at_port w pl id = Some port → id = Z.of_N (x_ID x) → accesses w !! x_ID x = Some x → x_ApplicationID x ≠ k.
#[local] Instance stable_unserved k : Stable (unserved k).
Proof. intros w w' [R P _] Hu pl id port x. rewrite P, (same_accesses _ _ R). apply Hu. Qed.
(** The table of applications changes, but not where listeners need it. *)
Lemma applications_changed (w w' : W) : backed_up w → wd_planes w' = wd_planes w → accesses w' = accesses w → edges w' = edges w →
  (∀ k a, applications w !! k = Some a → unserved k w ∨
     ∃ a', applications w' !! k = Some a' ∧ a_EdgeIDs a' = a_EdgeIDs a ∧ a_ApplicationType a' = a_ApplicationType a) → backed_up w'.
Proof.
  intros [Hs Hb] Hp HX HE HA. split; [by rewrite Hp|]. intros pl id port. unfold at_port. rewrite Hp. intros Hl _.
  destruct (Hb _ _ _ Hl ltac:(tauto)) as (x & a & -> & Hx & Hport & Ha & (Hr & Hpub & Hedge) & Hpl).
  destruct (HA _ _ Ha) as [Hu|(a' & Ha' & Hes & Hty)]; [by destruct (Hu pl (Z.of_N (x_ID x)) port x Hl eq_refl Hx)|].
  assert (effectiveAccessProtocol x a' = effectiveAccessProtocol x a) as Heff by (unfold effectiveAccessProtocol; by rewrite Hty).
  exists x, a'. rewrite HX. split_and!; try done; [|by rewrite Heff]. unfold runnable. by rewrite Heff, Hes, HE.
Qed.
Lemma create_application_row a (w : W) : backed_up w → let '(r, w') := on_db (CpDao.CreateApplication a) w in
  backed_up w' ∧ match r with Ok b => unserved (a_ID b) w' | Err _ => True end.
Proof.
  intros Hb. unfold on_db, CpDao.CreateApplication. destruct (Create_ TApplication a (wd_db w)) as [r db] eqn:E. apply Create_law_ in E as [_ H].
  destruct r as [b|e]; [|split; [|done]; eapply stable_backed; [|exact Hb]; split; [by intros t _; apply H|done|done]].
  destruct H as (id & Hid & Hnone & -> & H1 & H2). cbn [numbered] in *. change (applications w !! id = None) in Hnone.
  set (b := a <| a_ID := id |>) in *. set (w' := mkWorld db (wd_planes w) (wd_os w)).
  assert (∀ k, applications w' !! k = if bool_decide (k = id) then Some b else applications w !! k) as Hrows.
  { intros k. etransitivity; [exact (f_equal (λ m : gmap N Application, m !! k) H1)|]. case_bool_decide as Hk; [subst k; apply lookup_insert_eq|by apply lookup_insert_ne]. }
  assert (accesses w' = accesses w) as HX by exact (H2 TAccess ltac:(done)). assert (edges w' = edges w) as HE by exact (H2 TEdge ltac:(done)). split.
  - apply (applications_changed w); try done. intros k c Hc. right. exists c. rewrite Hrows, bool_decide_eq_false_2; [done|]. intros ->. congruence.
  - intros pl i port x Hp -> Hx. rewrite HX in Hx. destruct (proj2 Hb pl (Z.of_N (x_ID x)) port Hp ltac:(tauto)) as (y & c & Hi & Hy & _ & Hc & _).
    assert (x_ID y = x_ID x) as Hyx by lia. rewrite Hyx in Hy. cbn. congruence.
Qed.
Lemma delete_application_row k (w : W) : backed_up w → unserved k w → let '(r, w') := on_db (CpDao.DeleteApplication k) w in
  backed_up w' ∧ (is_ok r = true → applications w' !! k = None).
Proof.
  intros Hb Hu. unfold on_db, CpDao.DeleteApplication. destruct (Delete_ TApplication _ (wd_db w)) as [r db] eqn:E. apply Delete_law_ in E as [_ H]. destruct r as [[]|e].
  - destruct H as [H1 H2]. set (w' := mkWorld db (wd_planes w) (wd_os w)).
    assert (∀ i, applications w' !! i = if bool_decide (i = k) then None else applications w !! i) as Hrows.
    { intros i. etransitivity; [exact (f_equal (λ m : gmap N Application, m !! i) H1)|]. etransitivity; [exact (without_at (t := TApplication) _ (applications w) i)|].
      change (row TApplication) with Application. destruct (applications w !! i) as [a|] eqn:Ea; [|by case_bool_decide]. apply application_keyed in Ea. by rewrite Ea. }
    split; [|intros _; by rewrite Hrows, bool_decide_eq_true_2].
    apply (applications_changed w); [done|done|exact (H2 TAccess ltac:(done))|exact (H2 TEdge ltac:(done))|].
    intros i a Ha. destruct (decide (i = k)) as [->|Hne]; [by left|right]. exists a. by rewrite Hrows, bool_decide_eq_false_2.
  - split; [|done]. eapply stable_backed; [|exact Hb]. split; [by intros t _; apply H|done|done].
Qed.
Lemma update_application_row a b (w : W) : backed_up w → has_application w a → a_ID b = a_ID a → a_EdgeIDs b = a_EdgeIDs a → a_ApplicationType b = a_ApplicationType a →
  backed_up (snd (on_db (CpDao.UpdateApplication b) w)).
Proof.
  intros Hb Ha Hid Hes Hty. unfold on_db, CpDao.UpdateApplication. destruct (Updates_ TApplication _ _ (wd_db w)) as [r db] eqn:E. cbn [snd].
  apply Updates_law_ in E as [_ H]; [|intros r'; cbn; by intros ->%bool_decide_eq_true].
  destruct r as [[]|e]; [|eapply stable_backed; [|exact Hb]; split; [by intros t _; apply H|done|done]]. destruct H as [H1 H2].
  set (w' := mkWorld db (wd_planes w) (wd_os w)). apply (applications_changed w); [done|done|exact (H2 TAccess ltac:(done))|exact (H2 TEdge ltac:(done))|].
  assert (∀ k, applications w' !! k = (λ r, if bool_decide (a_ID r = a_ID b) then b else r) <$> applications w !! k) as Hrows.
  { intros k. rewrite <- lookup_fmap. exact (f_equal (λ m : gmap N Application, m !! k) H1). }
  intros k c Hc. right. rewrite Hrows, Hc. cbn. eexists. split; [done|]. case_bool_decide as Hk; [|done].
  pose proof (application_keyed _ _ _ Hc) as Hck. unfold has_application in Ha. rewrite <- Hid, <- Hk, Hck, Hc in Ha. injection Ha as ->. done.
Qed.
Lemma safe_UpdateApplication actor req : safe backed_up (Resources.UpdateApplication (DB := DB) (OS := OS) actor req) (λ _, backed_up).
Proof.
  unfold Resources.UpdateApplication. destruct (N.eqb _ 0); [by apply safe_throw|]. apply safe_quiet_bind; [apply _|done|quietly|intros _].
  eapply safe_bind; [apply safe_map_err, (safe_read_application backed_up); by intros|]. intros a. apply safe_pure. intros Hid.
  destruct (_ && _); [apply safe_throw; by intros w []|]. set (b := if bool_decide (ua_Description req = "") then _ else _).
  assert (a_ID b = a_ID a ∧ a_EdgeIDs b = a_EdgeIDs a ∧ a_ApplicationType b = a_ApplicationType a) as (H1 & H2 & H3) by (unfold b; by repeat case_bool_decide).
  eapply (safe_bind _ _ (λ _, backed_up)); [|intros u; apply safe_quiet; [apply _|done|unfold CpDao.GetApplicationByID; quietly]].
  intros w [Hb Ha]. pose proof (update_application_row a b w Hb Ha H1 H2 H3) as H. by destruct (on_db _ w) as [[u|e] w'].
Qed.
Lemma quiet_device actor req ip : quiet (Resources.resolve_device (DB := DB) (OS := OS) actor req ip).
Proof.
  unfold Resources.resolve_device, CpDao.GetDeviceByID, CpDao.GetEthernetInterfacesByDeviceID, CpDao.GetEdgeDevicesByEdgeID, CpDao.GetDeviceByIP. quietly.
Qed.
Lemma safe_CreateApplication actor req : safe backed_up (Resources.CreateApplication (DB := DB) (OS := OS) ToLower actor req) (λ _, backed_up).
Proof.
  unfold Resources.CreateApplication. apply safe_quiet_bind; [apply _|done|quietly|intros name]. destruct (negb _); [by apply safe_throw|].
  destruct (N.eqb _ 0); [by apply safe_throw|]. apply safe_quiet_bind; [apply _|done|quietly|intros _].
  apply safe_quiet_bind; [apply _|done|unfold CpDao.GetEdge; quietly|intros _]. apply safe_quiet_bind; [apply _|done|apply quiet_device|intros device].
  apply safe_quiet_bind; [apply _|done|quietly|intros typed].
  eapply (safe_bind _ _ (λ a w, backed_up w ∧ unserved (a_ID a) w)).
  { intros w Hb. pose proof (create_application_row (mkApplication 0 [ca_EdgeId req] device name (ca_Description req) (TrimSpace (ca_Ip req)) (snd typed) (fst typed)) w Hb) as H.
    destruct (on_db _ w) as [[a|e] w']; [done|apply H]. }
  intros a. apply safe_quiet_bind; [apply _|by intros w []|quietly|]. intros [u|e]; [|eapply (safe_bind _ _ (λ _, backed_up)); [|intros u; by apply safe_throw]].
  - eapply safe_post; [apply safe_quiet; [apply _|by intros w []|unfold CpDao.GetApplicationByID; quietly]|]. by intros b w [].
  - eapply safe_bind; [apply safe_try with (Q := λ _, backed_up)|intros r; by apply safe_ret]. intros w [Hb Hu]. pose proof (delete_application_row (a_ID a) w Hb Hu) as H.
    destruct (on_db _ w). apply H.
Qed.

(** ** Transactions *)
(** Statements of a transaction leave its start alone. *)
Definition framed {A} (m : Op DB A) : Prop := ∀ s, saved_ (snd (m s)) = saved_ s.
Lemma framed_ret {A} (a : A) : framed (ret a : Op DB A).
Proof. done. Qed.
Lemma framed_throw {A} e : framed (throw e : Op DB A).
Proof. done. Qed.
Lemma framed_bind {A B} (m : Op DB A) (k : A → Op DB B) : framed m → (∀ a, framed (k a)) → framed (bind m k).
Proof. intros Hm Hk s. unfold bind. specialize (Hm s). destruct (m s) as [[a|e] s1]; [|done]. cbn in Hm. by rewrite <- Hm, Hk. Qed.
Lemma framed_Create t r : framed (Create_ t r).
Proof. intros s. destruct (Create_ t r s) as [x s'] eqn:E. by apply Create_law_ in E as []. Qed.
Lemma framed_Delete t p : framed (Delete_ t p).
Proof. intros s. destruct (Delete_ t p s) as [x s'] eqn:E. by apply Delete_law_ in E as []. Qed.
Lemma framed_Relation r : framed (OnConflictCreate_ r).
Proof. intros s. destruct (OnConflictCreate_ r s) as [x s'] eqn:E. by apply OnConflict_law_ in E as []. Qed.
Lemma framed_claim actor ty id : framed (claimResource (DB := DB) actor ty id).
Proof.
  unfold claimResource, Repo.ListUserOrganizations, CpDao.UpsertIAMResourceRelation. destruct actor; [|apply framed_ret]. apply framed_bind; [intros s; apply Find_frame|].
  intros [|]; [apply framed_throw|]. apply framed_bind; intros; apply framed_Relation.
Qed.
(** A transaction is all or nothing. *)
Lemma transaction_spec {A} (m : Op DB A) s : framed m → let '(r, s') := Resources.in_transaction m s in
  match r with
  | Ok a => ∃ s1, m (Begin_ s) = (Ok a, s1) ∧ same_tables (tbl s1) (tbl s')
  | Err _ => same_tables (tbl s) (tbl s')
  end.
Proof.
  intros Hm. unfold Resources.in_transaction. destruct (Begin_law_ s) as [Hb Hs]. specialize (Hm (Begin_ s)). rewrite Hs in Hm.
  destruct (m (Begin_ s)) as [[a|e] s1] eqn:E; cbn [snd] in Hm.
  - destruct (Commit_ s1) as [r s2] eqn:Ec. apply (Commit_law_ _ _ _ _ _ Hm) in Ec as [_ Hc]. destruct r; [by exists s1|done].
  - by apply (Rollback_law_ _ _ _ Hm).
Qed.
Lemma create_edge_row actor name descr ak sk (w : W) : backed_up w → backed_up (snd (on_db (Resources.create_edge actor name descr ak sk) w)).
Proof.
  intros Hb. unfold on_db, Resources.create_edge. match goal with |- context [Resources.in_transaction ?m _] => pose proof (transaction_spec m (wd_db w)) as H; set (body := m) in * end.
  destruct (Resources.in_transaction body (wd_db w)) as [r db]. cbn [snd].
  assert (framed body) as Hf.
  { unfold body. apply framed_bind; [exact (framed_Create TEdge _)|]. intros e. apply framed_bind; [apply framed_claim|]. intros _.
    apply framed_bind; [exact (framed_Create TAccessKey _)|]. intros k. apply framed_ret. }
  specialize (H Hf). destruct r as [u|e]; [|eapply stable_backed; [|exact Hb]; split; [by intros t _; apply H|done|done]].
  destruct H as (s1 & Hbody & Hsame). destruct (Begin_law_ (wd_db w)) as [Hbeg _].
  unfold body, CpDao.CreateEdge in Hbody. unfold bind at 1 in Hbody. destruct (Create_ TEdge _ (Begin_ (wd_db w))) as [[e|er] s2] eqn:Ec; [|done].
  apply Create_law_ in Ec as [_ (id & _ & Hnone & He & H1 & H2)]. set (w' := mkWorld db (wd_planes w) (wd_os w)).
  assert (∀ t, vital t = true → tbl db t = tbl s2 t) as Hrest.
  { intros t Ht. rewrite (Hsame t). revert Hbody. match goal with |- ?m s2 = _ → _ => assert (reads m) as Hr end; [|intros E; specialize (Hr s2 t Ht); by rewrite E in Hr].
    unfold CpDao.CreateAccessKey. reading. }
  apply (edge_changed w); [done|done| | |].
  - etransitivity; [exact (Hrest TAccess eq_refl)|]. etransitivity; [exact (H2 TAccess ltac:(done))|]. exact (Hbeg TAccess).
  - etransitivity; [exact (Hrest TApplication eq_refl)|]. etransitivity; [exact (H2 TApplication ltac:(done))|]. exact (Hbeg TApplication).
  - intros k edge Hk Hrun. right. exists edge. split; [|done]. rewrite (Hbeg TEdge) in Hnone. change (edges w !! id = None) in Hnone.
    assert (edges w' = <[ id := e ]> (edges w)) as ->; [|rewrite lookup_insert_ne; [done|intros ->; congruence]].
    etransitivity; [exact (Hrest TEdge eq_refl)|]. etransitivity; [exact H1|]. by rewrite (Hbeg TEdge).
Qed.
Lemma safe_CreateEdge actor name descr : safe backed_up (Resources.CreateEdge (DB := DB) (OS := OS) ToLower Parse conf actor name descr) (λ _, backed_up).
Proof.
  unfold Resources.CreateEdge. apply safe_quiet_bind; [apply _|done|quietly|intros n]. apply safe_quiet_bind; [apply _|done| |intros [ak sk]].
  { intros w. unfold Resources.generateAccessKeyPair. destruct (unix_nano _) as [t os1]. destruct (random_bytes 8 os1) as [r8 os2]. by destruct (random_bytes 32 os2). }
  apply safe_quiet_bind; [apply _|done|quietly|intros commands]. eapply (safe_bind _ _ (λ _, backed_up)); [|intros u; by apply safe_ret].
  intros w Hb. pose proof (create_edge_row actor n descr ak sk w Hb) as H. by destruct (on_db _ w) as [[]].
Qed.
(** ** Devices and tasks *)
Lemma device_updates_id d r : d_ID (CpDao.device_updates d r) = d_ID r.
Proof. unfold CpDao.device_updates. by repeat case_bool_decide. Qed.
Lemma reads_UpdateDevice d : reads (CpDao.UpdateDevice (DB := DB) d).
Proof. apply (reads_Updates TDevice); [done|]. intros r. apply device_updates_id. Qed.
#[local] Hint Resolve reads_UpdateDevice : reading.
Lemma quiet_UpdateDevice actor req : quiet (Resources.UpdateDevice (DB := DB) (OS := OS) actor req).
Proof. unfold Resources.UpdateDevice, CpDao.GetDeviceByID, CpDao.GetEthernetInterfacesByDeviceID. quietly. Qed.
Lemma quiet_scan actor req : quiet (Resources.CreateEdgeScanApplicationTask (DB := DB) (OS := OS) ToLower actor req).
Proof.
  unfold Resources.CreateEdgeScanApplicationTask, CpDao.GetEdge, CpDao.GetEdgeDevicesByEdgeID, CpDao.GetDeviceByID, CpDao.GetEthernetInterfacesByDeviceID,
    CpDao.CreateTask, CpDao.UpdateTaskError. quietly.
Qed.
Lemma quiet_expire id : quiet (Resources.expire_task (DB := DB) (OS := OS) id).
Proof. unfold Resources.expire_task, CpDao.GetTask, CpDao.UpdateTaskError. quietly. Qed.
End Rows.
