(* ===== verification/ControlCascade.v ===== *)
(** * manager/controlplane: deleting with everything that depends on it

    [deleteProxyCascade], [deleteApplicationCascade], [deleteEdgeCascade] and
    [deleteDeviceCascade]: whatever fails on the way, rows are only ever
    removed, every listener stays backed and no access, rule or secret is left
    without what it belongs to ([swept]); when they succeed, what was to be
    deleted is gone.  [sweep] is the logic of such calls. *)

From S2P Require Import Prelude ToolTypes IamDao ControlDao NetAddr Firewall EntryPlanes ControlPlane ControlResources ControlInvariant ControlBacked ControlHandlers ControlRows.
Import Control.

Section Sweep.
Context {DB : Type} {i_iam : IamGorm DB} {i_cp : CpGorm DB} {l_cp : CpGormLaws DB} {l_frame : AccountQueries DB}.
Context {OS : Type} {i_os : Machine OS} {l_os : MachineLaws OS}.
#[local] Abbreviation W := (World DB OS).
#[local] Abbreviation C A := (Op W A).

(** Every access has its application, every rule and secret its access. *)
Record whole (w : W) : Prop := {
  whole_access k x : accesses w !! k = Some x → is_Some (applications w !! x_ApplicationID x);
  whole_rule k (r : ProxyFirewallRule) : rows_of w TRule !! k = Some r → is_Some (accesses w !! f_ProxyID r);
  whole_secret kind k (r : Secret) : rows_of w (TSecret kind) !! k = Some r → is_Some (accesses w !! s_ProxyID r)
}.
Record swept (w w' : W) : Prop := {
  swept_rows t k r : t ≠ TTask → rows_of w' t !! k = Some r → rows_of w t !! k = Some r;
  swept_ports pl i port : at_port w' pl i = Some port → at_port w pl i = Some port;
  swept_whole : whole w → whole w';
  swept_backed : backed_up w → backed_up w'
}.
#[export] Instance swept_preorder : PreOrder swept.
Proof. split; [by intros w; split|]. intros w w1 w2 [R1 P1 H1 B1] [R2 P2 H2 B2]. split; eauto. Qed.
Definition sweep {A} (P : W → Prop) (m : C A) (Q : A → W → Prop) : Prop :=
  ∀ w, P w → let '(r, w') := m w in swept w w' ∧ match r with Ok a => Q a w' | Err _ => True end.
(** What deletions cannot undo. *)
Class Lasting (F : W → Prop) : Prop := lasting w w' : swept w w' → F w → F w'.
#[export] Instance lasting_backed : Lasting backed_up.
Proof. intros w w' H. apply H. Qed.
#[export] Instance lasting_and F G : Lasting F → Lasting G → Lasting (λ w, F w ∧ G w).
Proof. intros HF HG w w' H [? ?]. split; [by eapply HF|by eapply HG]. Qed.
#[export] Instance lasting_pure (F : Prop) : Lasting (λ _, F).
Proof. by intros w w' _. Qed.
(** No row of [t] satisfies [p]. *)
Definition none (t : tag) (p : row t → Prop) (w : W) : Prop := ∀ k r, rows_of w t !! k = Some r → ¬ p r.
Lemma lasting_none t p : t ≠ TTask → Lasting (none t p).
Proof. intros Ht w w' H Hn k r Hr. apply (Hn k). by apply H. Qed.

Lemma sweep_ret {A} (a : A) (P : W → Prop) (Q : A → W → Prop) : (∀ w, P w → Q a w) → sweep P (ret a) Q.
Proof. intros H w HP. split; [done|by apply H]. Qed.
Lemma sweep_throw {A} e (P : W → Prop) (Q : A → W → Prop) : sweep P (throw e) Q.
Proof. by intros w HP. Qed.
Lemma sweep_bind {A B} (P : W → Prop) (m : C A) (R : A → W → Prop) (k : A → C B) Q : sweep P m R → (∀ a, sweep (R a) (k a) Q) → sweep P (bind m k) Q.
Proof.
  intros Hm Hk w HP. unfold bind. specialize (Hm w HP). destruct (m w) as [[a|e] w1]; destruct Hm as [H1 H2]; [|done]. specialize (Hk a w1 H2).
  destruct (k a w1) as [r w2]. destruct Hk. split; [by etransitivity|done].
Qed.
Lemma sweep_pre {A} (P P' : W → Prop) (m : C A) Q : (∀ w, P w → P' w) → sweep P' m Q → sweep P m Q.
Proof. intros H Hm w HP. by apply Hm, H. Qed.
Lemma sweep_post {A} (P : W → Prop) (m : C A) (Q Q' : A → W → Prop) : sweep P m Q → (∀ a w, Q a w → Q' a w) → sweep P m Q'.
Proof. intros Hm H w HP. specialize (Hm w HP). destruct (m w) as [[a|e] w1]; destruct Hm; auto. Qed.
Lemma sweep_frame {A} (F : W → Prop) {i_F : Lasting F} (P : W → Prop) (m : C A) Q : sweep P m Q → sweep (λ w, P w ∧ F w) m (λ a w, Q a w ∧ F w).
Proof. intros Hm w [HP HF]. specialize (Hm w HP). destruct (m w) as [[a|e] w1]; destruct Hm as [H1 H2]; (split; [done|]); [|done]. split; [done|by eapply i_F]. Qed.
Lemma sweep_map_err {A} f (P : W → Prop) (m : C A) Q : sweep P m Q → sweep P (map_err f m) Q.
Proof. intros Hm w HP. unfold map_err. specialize (Hm w HP). by destruct (m w) as [[a|e] w1]. Qed.
Lemma sweep_pure {A} (H : Prop) (P : W → Prop) (m : C A) Q : (H → sweep P m Q) → sweep (λ w, P w ∧ H) m Q.
Proof. intros Hm w [HP HH]. by apply Hm. Qed.
Lemma sweep_ignore {A} (P : W → Prop) {i_P : Lasting P} (m : C A) : sweep P m (λ _ _, True) → sweep P (ignore m) (λ _, P).
Proof. intros Hm w HP. unfold ignore, bind, try. specialize (Hm w HP). destruct (m w) as [r w1]. destruct Hm as [H _]. cbn. split; [done|by eapply i_P]. Qed.

(** Steps that touch neither the listeners nor the tables. *)
Definition still (w w' : W) : Prop := (∀ t, t ≠ TTask → rows_of w' t = rows_of w t) ∧ (∀ pl i, at_port w' pl i = at_port w pl i) ∧ (sound (wd_planes w) → sound (wd_planes w')).
Lemma still_quieter w w' : still w w' → quieter w w'.
Proof. intros (R & P & S). split; [|done|done]. intros t Ht. apply R. by intros ->. Qed.
Lemma same_whole (w w' : W) : (∀ t k r, t ≠ TTask → rows_of w' t !! k = Some r → rows_of w t !! k = Some r) → accesses w' = accesses w →
  applications w' = applications w → whole w → whole w'.
Proof.
  intros R HX HA [H1 H2 H3]. split; rewrite ?HX, ?HA; [done|intros k r H; apply (H2 k); exact (R TRule k r ltac:(done) H)|].
  intros kind k r H. apply (H3 kind k). exact (R (TSecret kind) k r ltac:(done) H).
Qed.
Lemma still_swept w w' : still w w' → swept w w'.
Proof.
  intros H. pose proof (still_quieter _ _ H) as [R _ _]. destruct H as (Hr & Hp & Hs). split.
  - intros t k r Ht. by rewrite Hr.
  - intros pl i port. by rewrite Hp.
  - apply same_whole; [intros t k r Ht; by rewrite Hr|by apply same_accesses|by apply same_applications].
  - apply stable_backed, still_quieter. by split_and!.
Qed.
(** Lookups change no table at all. *)
Definition looks {A} (m : Op DB A) : Prop := ∀ s t, t ≠ TTask → tbl (snd (m s)) t = tbl s t.
Lemma sweep_looks {A} (P : W → Prop) {i_P : Lasting P} (m : Op DB A) : looks m → sweep P (on_db m) (λ _, P).
Proof.
  intros Hm w HP. unfold on_db. specialize (Hm (wd_db w)). destruct (m (wd_db w)) as [r db]. cbn [snd] in Hm.
  assert (swept w (mkWorld db (wd_planes w) (wd_os w))) as Hs by (apply still_swept; by split_and!). split; [done|]. destruct r; [|done]. by eapply i_P.
Qed.
Lemma looks_First t p : looks (First_ t p).
Proof. intros s t' _. destruct (First_ t p s) as [x s'] eqn:E. apply First_law_ in E as (_ & H & _). apply H. Qed.
Lemma looks_Find t p : looks (Find_ t p).
Proof. intros s t' _. destruct (Find_ t p s) as [x s'] eqn:E. apply Find_law_ in E as (_ & H & _). apply H. Qed.
Lemma sweep_First (P : W → Prop) {i_P : Lasting P} t p : t ≠ TTask → sweep P (on_db (First_ t p)) (λ r w, P w ∧ rows_of w t !! id_of t r = Some r ∧ p r = true).
Proof.
  intros Ht w HP. unfold on_db. pose proof (looks_First t p (wd_db w)) as Hl. destruct (First_ t p (wd_db w)) as [r db] eqn:E. cbn [snd] in Hl.
  assert (swept w (mkWorld db (wd_planes w) (wd_os w))) as Hs by (apply still_swept; by split_and!). split; [done|].
  apply First_law_ in E as (_ & _ & E). destruct r as [r|e]; [|done]. split; [by eapply i_P|]. unfold rows_of. cbn [wd_db]. by rewrite Hl.
Qed.
Lemma sweep_Find (P : W → Prop) {i_P : Lasting P} t p : t ≠ TTask →
  sweep P (on_db (Find_ t p)) (λ l w, P w ∧ ∀ r, r ∈ l ↔ rows_of w t !! id_of t r = Some r ∧ p r = true).
Proof.
  intros Ht w HP. unfold on_db. pose proof (looks_Find t p (wd_db w)) as Hl. destruct (Find_ t p (wd_db w)) as [r db] eqn:E. cbn [snd] in Hl.
  assert (swept w (mkWorld db (wd_planes w) (wd_os w))) as Hs by (apply still_swept; by split_and!). split; [done|].
  apply Find_law_ in E as (_ & _ & E). destruct r as [l|e]; [|done]. split; [by eapply i_P|]. destruct E as [_ E]. intros r. rewrite E. unfold rows_of. cbn [wd_db]. by rewrite Hl.
Qed.
(** Deleting from a table. *)
Lemma delete_rows t p (w : W) : let '(r, w') := on_db (Delete_ t p) w in wd_planes w' = wd_planes w ∧
  match r with
  | Ok _ => (∀ k, rows_of w' t !! k = match rows_of w t !! k with Some x => if p x then None else Some x | None => None end) ∧ (∀ t', t' ≠ t → rows_of w' t' = rows_of w t')
  | Err _ => ∀ t', rows_of w' t' = rows_of w t'
  end.
Proof.
  unfold on_db. destruct (Delete_ t p (wd_db w)) as [r db] eqn:E. apply Delete_law_ in E as [_ H]. split; [done|]. destruct r as [u|e]; [|done]. destruct H as [H1 H2].
  split; [|done]. intros k. unfold rows_of. cbn [wd_db]. rewrite H1. apply without_at.
Qed.
Lemma deleted_subset t (p : row t → bool) (w w' : W) : (∀ k, rows_of w' t !! k = match rows_of w t !! k with Some x => if p x then None else Some x | None => None end) →
  (∀ t', t' ≠ t → rows_of w' t' = rows_of w t') → ∀ t' k r, rows_of w' t' !! k = Some r → rows_of w t' !! k = Some r.
Proof.
  intros H1 H2 t' k r. destruct (decide (t' = t)) as [->|Hne]; [|by rewrite H2]. rewrite H1. destruct (rows_of w t !! k) as [x|]; [|done]. by destruct (p x).
Qed.
(** From a table no access and no application is in. *)
Lemma sweep_delete (P : W → Prop) {i_P : Lasting P} t p : vital t = false →
  sweep P (on_db (Delete_ t p) : C unit) (λ _ w, P w ∧ none t (λ r, p r = true) w).
Proof.
  intros Ht w HP. pose proof (delete_rows t p w) as H. destruct (on_db (Delete_ t p) w) as [[u|e] w']; destruct H as [Hpl H].
  - destruct H as [H1 H2]. assert (quieter w w') as Hq.
    { split; [|by intros; unfold at_port; rewrite Hpl|by rewrite Hpl]. intros t' Hv. apply H2. intros ->. congruence. }
    assert (swept w w') as Hs.
    { split; [intros t' k r _; by eapply deleted_subset|intros pl i port; by rewrite (q_ports _ _ Hq)| |by apply stable_backed].
      apply same_whole; [intros t' k r _; by eapply deleted_subset|by apply same_accesses, Hq|by apply same_applications, Hq]. }
    split; [done|]. split; [by eapply i_P|]. intros k r. rewrite H1. destruct (rows_of w t !! k) as [x|]; [|done]. destruct (p x) eqn:Ep; [done|]. intros [= ->]. congruence.
  - split; [|done]. apply still_swept. split_and!; [done|by intros; unfold at_port; rewrite Hpl|by rewrite Hpl].
Qed.
Lemma sweep_stop (P : W → Prop) {i_P : Lasting P} x : (∀ w, P w → backed_up w) → sweep P (stopProxyRuntime x : C unit) (λ _ w, P w ∧ idle (x_ID x) w).
Proof.
  intros HPb w HP. destruct (stop_others x x w (backed_others _ _ (HPb w HP)) eq_refl) as (Hb & Hi & R & _).
  pose proof (stop_spec x w (proj1 (HPb w HP))) as [_ _ Hst].
  destruct (stopProxyRuntime x w) as [r w']. cbn [snd] in *. assert (swept w w') as Hs.
  { split; [intros t k r' _; by rewrite R|intros pl i port; rewrite Hst; by case_bool_decide| |done]. apply same_whole; [intros t k r' _; by rewrite R|exact (R TAccess)|exact (R TApplication)]. }
  split; [done|]. destruct r; [|done]. split; [by eapply i_P|done].
Qed.

(** ** Accesses *)
#[export] Instance lasting_idle id : Lasting (idle id).
Proof. intros w w' H Hi pl. destruct (at_port w' pl _) as [port|] eqn:E; [|done]. apply (swept_ports _ _ H) in E. by rewrite Hi in E. Qed.
#[export] Instance lasting_access id : Lasting (λ w, accesses w !! id = None).
Proof. intros w w' H Hn. destruct (accesses w' !! id) as [x|] eqn:E; [|done]. apply (swept_rows _ _ H TAccess) in E; [|done]. change (accesses w !! id = Some x) in E. congruence. Qed.
#[export] Instance lasting_application id : Lasting (λ w, applications w !! id = None).
Proof. intros w w' H Hn. destruct (applications w' !! id) as [x|] eqn:E; [|done]. apply (swept_rows _ _ H TApplication) in E; [|done]. change (applications w !! id = Some x) in E. congruence. Qed.
#[export] Instance lasting_forall {A} (F : A → W → Prop) : (∀ a, Lasting (F a)) → Lasting (λ w, ∀ a, F a w).
Proof. intros H w w' Hs Hf a. by eapply H. Qed.
#[export] Instance lasting_impl (H : Prop) (F : W → Prop) : Lasting F → Lasting (λ w, H → F w).
Proof. intros HF w w' Hs Hf HH. eapply HF; [done|auto]. Qed.
#[export] Instance lasting_no_rule p : Lasting (none TRule p).
Proof. by apply lasting_none. Qed.
#[export] Instance lasting_no_secret k p : Lasting (none (TSecret k) p).
Proof. by apply lasting_none. Qed.
#[export] Instance lasting_no_access p : Lasting (none TAccess p).
Proof. by apply lasting_none. Qed.
Lemma sweep_delete_access id : sweep (λ w, backed_up w ∧ idle id w ∧ none TRule (λ r, f_ProxyID r = id) w ∧ ∀ kind, none (TSecret kind) (λ r, s_ProxyID r = id) w)
  (on_db (Delete_ TAccess (λ r : Access, bool_decide (x_ID r = id))) : C unit) (λ _ w, accesses w !! id = None).
Proof.
  intros w (Hb & Hi & Hr & Hs). pose proof (safe_delete_row id w (conj Hb Hi)) as Hsafe. pose proof (delete_rows TAccess (λ r : Access, bool_decide (x_ID r = id)) w) as H.
  destruct (on_db _ w) as [[u|e] w']; destruct H as [Hpl H].
  - destruct H as [H1 H2]. destruct Hsafe as [Hb' Hgone]. split; [|done].
    assert (∀ k, k ≠ id → accesses w' !! k = accesses w !! k) as Hk.
    { intros k Hk. etransitivity; [exact (H1 k)|]. change (rows_of w TAccess) with (accesses w). change (row TAccess) with Access. destruct (accesses w !! k) as [x|] eqn:E; [|done].
      apply access_keyed in E. rewrite bool_decide_eq_false_2; [done|congruence]. }
    assert (applications w' = applications w) as HA by exact (H2 TApplication ltac:(done)).
    split; [intros t k r _; exact (deleted_subset TAccess _ w w' H1 H2 t k r)|by intros pl i port; unfold at_port; rewrite Hpl| |done]. intros [W1 W2 W3]. split.
    + intros k x Hx. rewrite HA. apply (W1 k). destruct (decide (k = id)) as [->|Hne]; [congruence|by rewrite <- Hk].
    + intros k r. rewrite (H2 TRule ltac:(done)). intros E. rewrite Hk; [by eapply W2|]. exact (Hr _ _ E).
    + intros kind k r. rewrite (H2 (TSecret kind) ltac:(done)). intros E. rewrite Hk; [by eapply W3|]. exact (Hs _ _ _ E).
  - split; [|done]. apply still_swept. split_and!; [done|by intros; unfold at_port; rewrite Hpl|by rewrite Hpl].
Qed.
Lemma sweep_on_db_bind {A B} P (m : Op DB A) (k : A → Op DB B) Q : sweep P (bind (on_db m) (λ a, on_db (k a)) : C B) Q → sweep P (on_db (bind m k)) Q.
Proof. intros H w HP. rewrite on_db_bind. by apply H. Qed.
Lemma none_weaken t (p q : row t → Prop) w : (∀ r, q r → p r) → none t p w → none t q w.
Proof. intros H Hn k r Hr Hq. by apply (Hn k r Hr), H. Qed.
Lemma sweep_DeleteProxy id : sweep (λ w, backed_up w ∧ idle id w ∧ none TRule (λ r, f_ProxyID r = id) w) (on_db (CpDao.DeleteProxy id) : C unit) (λ _ w, accesses w !! id = None).
Proof.
  unfold CpDao.DeleteProxy, CpDao.DeleteSecrets.
  do 4 (apply sweep_on_db_bind; eapply sweep_bind; [apply sweep_delete; [apply _|done]|intros ?; cbn beta]).
  eapply sweep_pre; [|apply sweep_delete_access]. intros w (((((Hb & Hi & Hr) & S1) & S2) & S3) & S4). split_and!; [done..|].
  assert (∀ kind, none (TSecret kind) (λ r : Secret, bool_decide (s_ProxyID r = id) = true) w → none (TSecret kind) (λ r : Secret, s_ProxyID r = id) w) as Hn.
  { intros kind. apply none_weaken. intros r Hr'. by apply bool_decide_eq_true. }
  intros []; auto.
Qed.

(** ** The tracker *)
(** What it lists of accesses, and of applications, is gone. *)
Definition accesses_gone (tr : Tracker) (w : W) : Prop := backed_up w ∧ ∀ id, id ∈ tr_proxies tr → accesses w !! id = None.
Definition applications_gone (tr : Tracker) (w : W) : Prop := ∀ id, id ∈ tr_applications tr → applications w !! id = None.
Definition at_work (tr : Tracker) (w : W) : Prop := accesses_gone tr w ∧ applications_gone tr w.
#[export] Instance lasting_accesses_gone tr : Lasting (accesses_gone tr).
Proof. apply lasting_and; apply _. Qed.
#[export] Instance lasting_applications_gone tr : Lasting (applications_gone tr).
Proof. apply _. Qed.
#[export] Instance lasting_at_work tr : Lasting (at_work tr).
Proof. apply lasting_and; apply _. Qed.
Lemma at_work_backed tr w : at_work tr w → backed_up w.
Proof. by intros [[]]. Qed.
Record grows (tr tr' : Tracker) : Prop := { grows_edges : tr_edges tr ⊆ tr_edges tr'; grows_devices : tr_devices tr ⊆ tr_devices tr' }.
#[export] Instance grows_preorder : PreOrder grows.
Proof. split; [by intros tr|]. intros a b c [] []. split; set_solver. Qed.
(** Below connectors and devices: their sets stay as they are. *)
Record below (tr tr' : Tracker) : Prop := { below_edges : tr_edges tr' = tr_edges tr; below_devices : tr_devices tr' = tr_devices tr }.
#[export] Instance below_preorder : PreOrder below.
Proof. split; [by intros tr|]. intros a b c [] []. split; congruence. Qed.
Lemma below_grows tr tr' : below tr tr' → grows tr tr'.
Proof. intros [H1 H2]. split; by rewrite ?H1, ?H2. Qed.
(** And below applications. *)
Definition under (tr tr' : Tracker) : Prop := below tr tr' ∧ tr_applications tr' = tr_applications tr.
#[export] Instance under_preorder : PreOrder under.
Proof. split; [by intros tr|]. intros a b c [H1 H2] [H3 H4]. split; [by etransitivity|congruence]. Qed.
(** A step of a cascade: what the tracker lists stays true, and the tracker
    only grows. *)
Definition step (I : Tracker → W → Prop) (G : relation Tracker) (f : Tracker → C Tracker) (Q : Tracker → W → Prop) : Prop :=
  ∀ tr, sweep (I tr) (f tr) (λ tr' w, I tr' w ∧ G tr tr' ∧ Q tr w).
Lemma sweep_each {A} (I : Tracker → W → Prop) (G : relation Tracker) {i_G : PreOrder G} (f : A → Tracker → C Tracker) (Q : A → W → Prop) l tr :
  (∀ a, Lasting (Q a)) → (∀ a, a ∈ l → step I G (f a) (λ _, Q a)) →
  sweep (I tr) (each_tracked f l tr) (λ tr' w, I tr' w ∧ G tr tr' ∧ ∀ a, a ∈ l → Q a w).
Proof.
  intros HQ. revert tr. induction l as [|a l IH]; intros tr Hf; cbn [each_tracked].
  - apply sweep_ret. intros w H. split_and!; [done|done|]. by intros b ?%elem_of_nil.
  - eapply sweep_bind; [apply Hf; by left|]. intros tr1. cbn beta.
    eapply (sweep_pre _ (λ w, (I tr1 w ∧ Q a w) ∧ G tr tr1)); [intros w (? & ? & ?); done|]. apply sweep_pure. intros Hg.
    eapply sweep_post; [apply (sweep_frame (Q a)); apply IH; intros b Hb; apply Hf; by right|]. cbn beta. intros tr2 w ((Hw & Hg2 & Hall) & Ha).
    split_and!; [done|by etransitivity|]. intros b [->|Hb]%elem_of_cons; auto.
Qed.

Lemma step_proxy id : step accesses_gone under (deleteProxyCascade id) (λ _ w, accesses w !! id = None).
Proof.
  intros tr. unfold deleteProxyCascade. case_bool_decide as Hin; [apply sweep_ret; intros w Hw; split_and!; [done|done|by apply Hw]|].
  eapply sweep_bind; [exact (sweep_First (accesses_gone tr) TAccess (λ r : Access, bool_decide (x_ID r = id)) ltac:(done))|]. intros x. cbn beta.
  eapply (sweep_pre _ (λ w, accesses_gone tr w ∧ x_ID x = id)); [intros w (? & _ & H%bool_decide_eq_true); done|]. apply sweep_pure. intros Hid.
  eapply sweep_bind; [apply sweep_map_err; apply (sweep_stop (accesses_gone tr)); by intros w []|]. intros u. cbn beta. rewrite Hid.
  eapply sweep_bind; [apply sweep_map_err; exact (sweep_delete (λ w, accesses_gone tr w ∧ idle id w) TRule (λ r : ProxyFirewallRule, bool_decide (f_ProxyID r = id)) eq_refl)|].
  intros v. cbn beta. eapply sweep_bind.
  - eapply sweep_pre; [|apply (sweep_frame (accesses_gone tr)), (sweep_DeleteProxy id)]. intros w [[Hw Hi] Hr]. split; [|done]. split_and!; [apply Hw|done|].
    eapply none_weaken; [|exact Hr]. intros r Hr'. by apply bool_decide_eq_true.
  - intros t. apply sweep_ret. intros w [Hn [Hb Hp]]. split_and!; [|done|done]. split; [done|]. cbn. intros i [->%elem_of_singleton|Hi]%elem_of_union; auto.
Qed.
(** ** Applications *)
Lemma sweep_delete_application id : sweep (λ w, backed_up w ∧ none TAccess (λ x, x_ApplicationID x = id) w) (on_db (CpDao.DeleteApplication id) : C unit)
  (λ _ w, applications w !! id = None).
Proof.
  intros w (Hb & Hn). pose proof (delete_application_row id w Hb) as Hd. pose proof (delete_rows TApplication (λ r : Application, bool_decide (a_ID r = id)) w) as H.
  unfold CpDao.DeleteApplication in *. destruct (on_db _ w) as [[u|e] w']; destruct H as [Hpl H].
  - destruct H as [H1 H2]. destruct Hd as [Hb' Hgone]; [intros pl i port x _ _ Hx; exact (Hn _ _ Hx)|]. specialize (Hgone eq_refl). split; [|done].
    assert (∀ k, k ≠ id → applications w' !! k = applications w !! k) as Hk.
    { intros k Hk. etransitivity; [exact (H1 k)|]. change (rows_of w TApplication) with (applications w). change (row TApplication) with Application.
      destruct (applications w !! k) as [x|] eqn:E; [|done]. apply application_keyed in E. rewrite bool_decide_eq_false_2; [done|congruence]. }
    assert (accesses w' = accesses w) as HX by exact (H2 TAccess ltac:(done)).
    split; [intros t k r _; exact (deleted_subset TApplication _ w w' H1 H2 t k r)|by intros pl i port; unfold at_port; rewrite Hpl| |done]. intros [W1 W2 W3]. split; rewrite ?HX.
    + intros k x Hx. rewrite Hk; [by eapply W1|]. exact (Hn _ _ Hx).
    + intros k r. rewrite (H2 TRule ltac:(done)). apply W2.
    + intros kind k r. rewrite (H2 (TSecret kind) ltac:(done)). apply W3.
  - split; [|done]. apply still_swept. split_and!; [done|by intros; unfold at_port; rewrite Hpl|by rewrite Hpl].
Qed.
(** Every row that satisfies [p] is among [l]. *)
Definition covers (t : tag) (p : row t → Prop) (l : list (row t)) (w : W) : Prop := ∀ k r, rows_of w t !! k = Some r → p r → r ∈ l.
Lemma lasting_covers t p l : t ≠ TTask → Lasting (covers t p l).
Proof. intros Ht w w' H Hc k r Hr. apply (Hc k). by apply H. Qed.
#[export] Instance lasting_covers_access p l : Lasting (covers TAccess p l).
Proof. by apply lasting_covers. Qed.
#[export] Instance lasting_covers_application p l : Lasting (covers TApplication p l).
Proof. by apply lasting_covers. Qed.
Lemma step_application id : step at_work below (deleteApplicationCascade id) (λ _ w, applications w !! id = None).
Proof.
  intros tr. unfold deleteApplicationCascade. case_bool_decide as Hin; [apply sweep_ret; intros w Hw; split_and!; [done|done|by apply Hw]|]. set (tr1 := tr <| tr_applications := _ |>).
  eapply sweep_bind; [exact (sweep_Find (at_work tr) TAccess (λ r : Access, bool_decide (x_ApplicationID r ∈ [id])) ltac:(done))|]. intros l. cbn beta.
  eapply (sweep_pre _ (λ w, accesses_gone tr1 w ∧ (applications_gone tr w ∧ covers TAccess (λ x, x_ApplicationID x = id) l w))).
  { intros w [[Ha Hb] Hl]. split_and!; [done..|]. intros k x Hx Hid. apply Hl. pose proof (access_keyed _ _ _ Hx) as Hk. split; [|apply bool_decide_eq_true; rewrite Hid; by left].
    cbn [id_of]. by rewrite Hk. }
  eapply sweep_bind; [apply sweep_frame; [apply _|]; apply (sweep_each accesses_gone under _ (λ x w, accesses w !! x_ID x = None)); [apply _|intros x _; apply step_proxy]|].
  intros tr2. cbn beta. eapply (sweep_pre _ (λ w, ((backed_up w ∧ none TAccess (λ x, x_ApplicationID x = id) w) ∧ (accesses_gone tr2 w ∧ applications_gone tr w)) ∧ under tr1 tr2)).
  { intros w ((Hw & Hg & Hl) & Hap & Hc). split_and!; try done; try apply Hw; try apply Hg. intros k x Hx Hid. specialize (Hl x (Hc _ _ Hx Hid)).
    pose proof (access_keyed _ _ _ Hx) as Hk. rewrite Hk in Hl. discriminate (eq_trans (eq_sym Hl) Hx). }
  apply sweep_pure. intros [[Hg1 Hg2] Hg3]. eapply sweep_bind; [apply sweep_frame; [apply _|]; apply sweep_delete_application|]. intros u. apply sweep_ret.
  intros w (Hn & Hw & Hap). split_and!; [|done|done]. split; [done|]. intros i. rewrite Hg3. cbn. intros [->%elem_of_singleton|Hi]%elem_of_union; auto.
Qed.
End Sweep.
