(* ===== verification/ControlDelete.v ===== *)
(** * manager/controlplane: deleting connectors and devices

    The two cascades that call each other, and that they end: with more fuel
    than the relations between connectors and devices allow calls to nest, more
    fuel changes nothing. *)

From S2P Require Import Prelude ToolTypes IamDao ControlDao NetAddr Firewall EntryPlanes ControlPlane ControlResources ControlInvariant ControlBacked ControlHandlers ControlRows ControlCascade.
Import Control.

Section Delete.
Context {DB : Type} {i_iam : IamGorm DB} {i_cp : CpGorm DB} {l_cp : CpGormLaws DB} {l_frame : AccountQueries DB}.
Context {OS : Type} {i_os : Machine OS} {l_os : MachineLaws OS}.
#[local] Abbreviation W := (World DB OS).
#[local] Abbreviation C A := (Op W A).

#[export] Instance lasting_no_application p : Lasting (none (DB := DB) (OS := OS) TApplication p).
Proof. by apply lasting_none. Qed.
#[export] Instance lasting_no_key p : Lasting (none (DB := DB) (OS := OS) TAccessKey p).
Proof. by apply lasting_none. Qed.
#[export] Instance lasting_no_edge_device p : Lasting (none (DB := DB) (OS := OS) TEdgeDevice p).
Proof. by apply lasting_none. Qed.
#[export] Instance lasting_no_edge p : Lasting (none (DB := DB) (OS := OS) TEdge p).
Proof. by apply lasting_none. Qed.

(** ** Connectors *)
Lemma sweep_each_looks {A} (P : W → Prop) {i_P : Lasting P} (f : A → Op DB unit) l : (∀ a, looks (f a)) → sweep P (each (λ a, on_db (f a)) l : C unit) (λ _, P).
Proof. intros Hf. induction l as [|a l IH]; cbn [each]; [by apply sweep_ret|]. eapply sweep_bind; [by apply sweep_looks|]. by intros []. Qed.
Lemma sweep_tasks (P : W → Prop) {i_P : Lasting P} e reason : sweep P (failActiveEdgeTasks e reason : C unit) (λ _, P).
Proof.
  unfold failActiveEdgeTasks. eapply sweep_bind; [apply (sweep_looks P); exact (looks_Find TTask _)|]. intros l. apply (sweep_each_looks P). intros t s t' Ht.
  unfold CpDao.UpdateTaskError. destruct (Updates_ TTask _ _ s) as [x s'] eqn:E. apply Updates_law_ in E as [_ H]; [|done]. destruct x; [|apply H]. destruct H as [_ H]. by apply H.
Qed.
Lemma sweep_kick (P : W → Prop) {i_P : Lasting P} e : sweep P (ignore (on_os (kick e)) : C unit) (λ _, P).
Proof.
  apply sweep_ignore; [done|]. intros w _. unfold on_os. destruct (kick e (wd_os w)) as [r os]. split; [|by destruct r]. apply still_swept. by split_and!.
Qed.
Lemma sweep_delete_edge (P : W → Prop) {i_P : Lasting P} e : (∀ w, P w → backed_up w ∧ none TApplication (λ a, e ∈ a_EdgeIDs a) w) →
  sweep P (on_db (CpDao.DeleteEdge e) : C unit) (λ _ w, P w ∧ none TEdge (λ r, e_ID r = e) w).
Proof.
  intros HP w Hw. destruct (HP w Hw) as [Hb Hn]. pose proof (delete_rows TEdge (λ r : Edge, bool_decide (e_ID r = e)) w) as H. unfold CpDao.DeleteEdge.
  destruct (on_db _ w) as [[u|er] w']; destruct H as [Hpl H].
  - destruct H as [H1 H2]. assert (accesses w' = accesses w) as HX by exact (H2 TAccess ltac:(done)). assert (applications w' = applications w) as HA by exact (H2 TApplication ltac:(done)).
    assert (swept w w') as Hs.
    { split; [intros t k r _; exact (deleted_subset TEdge _ w w' H1 H2 t k r)|by intros pl i port; unfold at_port; rewrite Hpl| |].
      - apply same_whole; [intros t k r _; exact (deleted_subset TEdge _ w w' H1 H2 t k r)|done|done].
      - intros _. apply (edge_changed w); [done|done|done|done|]. intros k edge Hk Hrun. destruct (decide (k = e)) as [->|Hne].
        + left. intros pl i port x a es _ _ _ Ha He. apply (Hn _ _ Ha). rewrite He. by left.
        + right. exists edge. split; [|done]. etransitivity; [exact (H1 k)|]. change (rows_of w TEdge) with (edges w). change (row TEdge) with Edge. rewrite Hk.
          assert (e_ID edge = k) as -> by (by apply (keyed_row w TEdge) in Hk as []). by rewrite bool_decide_eq_false_2. }
    split; [done|]. split; [by eapply i_P|]. intros k r. rewrite H1. destruct (rows_of w TEdge !! k) as [x|]; [|done].
    case_bool_decide; [done|]. by intros [= <-].
  - split; [|done]. apply still_swept. split_and!; [done|by intros; unfold at_port; rewrite Hpl|by rewrite Hpl].
Qed.
(** What deleting the connector [e] leaves nothing of. *)
Definition cleared (e : N) (w : W) : Prop :=
  none TEdge (λ r, e_ID r = e) w ∧ none TApplication (λ a, e ∈ a_EdgeIDs a) w ∧ none TAccessKey (λ r, ak_EdgeID r = e) w ∧ none TEdgeDevice (λ r, ed_EdgeID r = e) w.
Lemma delete_applications (p : Application → Prop) l tr : sweep (λ w, at_work tr w ∧ covers TApplication p l w)
  (each_tracked (λ a, deleteApplicationCascade (a_ID a)) l tr : C Tracker) (λ tr' w, (at_work tr' w ∧ none TApplication p w) ∧ below tr tr').
Proof.
  eapply sweep_post; [apply sweep_frame; [apply _|]; apply (sweep_each at_work below _ (λ a w, applications w !! a_ID a = None)); [apply _|intros a _; apply step_application]|].
  intros tr' w ((Hw & Hg & Hl) & Hc). split_and!; try done. intros k a Ha Hp. specialize (Hl a (Hc _ _ Ha Hp)). pose proof (application_keyed _ _ _ Ha) as Hk. rewrite Hk in Hl.
  discriminate (eq_trans (eq_sym Hl) Ha).
Qed.
Lemma sweep_edge_applications (P : W → Prop) {i_P : Lasting P} e : sweep P (listApplicationsByEdgeID e : C (list Application))
  (λ l w, P w ∧ covers TApplication (λ a, e ∈ a_EdgeIDs a) l w).
Proof.
  unfold listApplicationsByEdgeID. eapply sweep_bind; [exact (sweep_Find P TApplication _ ltac:(done))|]. intros l. apply sweep_ret. intros w [H Hl]. split; [done|].
  intros k a Ha He. rewrite list_elem_of_In, filter_In, <- list_elem_of_In, bool_decide_eq_true. split; [|done]. apply Hl. split; [|done].
  cbn [id_of]. by rewrite (application_keyed _ _ _ Ha).
Qed.
Definition calls (f : N → Tracker → C Tracker) : Prop := ∀ k, step at_work grows (f k) (λ _ _, True).
Lemma step_owned dd e d : calls dd → step at_work grows (owned_device dd e d) (λ _ _, True).
Proof.
  intros Hd tr. unfold owned_device. case_bool_decide; [by apply sweep_ret|]. eapply sweep_bind; [apply (sweep_looks (at_work tr)); exact (looks_Find TEdgeDevice _)|].
  intros l. destruct (forallb _ l); [apply Hd|by apply sweep_ret].
Qed.
(** As [sweep_delete], with what is gone as a property of rows. *)
Lemma sweep_remove (P : W → Prop) {i_P : Lasting P} t p (q : row t → Prop) : vital t = false → (∀ r, q r → p r = true) →
  sweep P (on_db (Delete_ t p) : C unit) (λ _ w, P w ∧ none t q w).
Proof. intros Ht Hq. eapply sweep_post; [by apply (sweep_delete P)|]. intros u w [HP Hn]. split; [done|]. eapply none_weaken; [exact Hq|exact Hn]. Qed.
Definition bare (e : N) (w : W) : Prop :=
  (none TApplication (λ a, e ∈ a_EdgeIDs a) w ∧ none TAccessKey (λ r, ak_EdgeID r = e) w) ∧ none TEdge (λ r, e_ID r = e) w.
#[local] Instance lasting_bare e : Lasting (bare e).
Proof. apply lasting_and; [apply lasting_and|]; apply _. Qed.
Lemma step_edge dd e : calls dd → step at_work grows (edge_cascade dd e) (λ tr w, e ∉ tr_edges tr → cleared e w).
Proof.
  intros Hd tr. unfold edge_cascade. case_bool_decide as Hin; [by apply sweep_ret|]. set (tr1 := tr <| tr_edges := _ |>).
  assert (grows tr tr1) as Hg1 by (split; [unfold tr1; set_solver|done]).
  eapply sweep_bind; [apply (sweep_edge_applications (at_work tr1))|]. intros l. cbn beta.
  eapply sweep_bind; [apply delete_applications|]. intros tr2. cbn beta. apply sweep_pure. intros Hg2%below_grows.
  set (P := λ w : W, at_work tr2 w ∧ none TApplication (λ a : Application, e ∈ a_EdgeIDs a) w).
  eapply sweep_bind; [apply (sweep_tasks P)|]. intros u1.
  eapply sweep_bind; [apply (sweep_remove P TAccessKey _ (λ r : AccessKey, ak_EdgeID r = e)); [done|intros r; apply bool_decide_eq_true]|]. intros u2. cbn beta.
  eapply sweep_bind; [apply (sweep_kick (λ w : W, P w ∧ none TAccessKey (λ r : AccessKey, ak_EdgeID r = e) w))|]. intros u3. cbn beta.
  eapply sweep_bind; [apply sweep_delete_edge; [apply _|]; intros w [[Hw Hn] _]; split; [by eapply at_work_backed|done]|]. intros u4. cbn beta.
  eapply (sweep_pre _ (λ w, at_work tr2 w ∧ bare e w)); [by intros w [[[? ?] ?] ?]|].
  eapply sweep_bind; [apply sweep_looks; [apply _|exact (looks_Find TEdgeDevice _)]|]. intros rs. cbn beta.
  eapply sweep_bind; [apply (sweep_frame (bare e)), (sweep_each at_work grows _ (λ _ _, True)); [apply _|intros d _; by apply step_owned]|]. intros tr3. cbn beta.
  eapply (sweep_pre _ (λ w, (at_work tr3 w ∧ bare e w) ∧ grows tr2 tr3)); [by intros w [[? [? ?]] ?]|]. apply sweep_pure. intros Hg3.
  eapply sweep_bind; [apply (sweep_remove _ TEdgeDevice _ (λ r : EdgeDevice, ed_EdgeID r = e)); [done|]; intros r Hr; apply andb_true_iff; split; [by apply bool_decide_eq_true|done]|].
  intros u5. apply sweep_ret. intros w [[Hw [[Ha Hk] He]] Hr]. split_and!; [done|by do 2 (etransitivity; [eassumption|])|]. intros _. by split_and!.
Qed.

(** ** Devices *)
(** The transaction that deletes the rows of a device: all of them or none. *)
Definition device_tables (id : N) (T T' : CpTables) : Prop :=
  T' TInterface = without (λ r : row TInterface, bool_decide (i_DeviceID r = id)) (T TInterface) ∧
  T' TEdgeDevice = without (λ r : row TEdgeDevice, bool_decide (ed_DeviceID r = id)) (T TEdgeDevice) ∧
  T' TDevice = without (λ r : row TDevice, bool_decide (d_ID r = id)) (T TDevice) ∧
  ∀ t, t ≠ TInterface → t ≠ TEdgeDevice → t ≠ TDevice → T' t = T t.
Lemma in_tx_delete t p (k : Op DB unit) T0 Ts (s : DB) : saved_ s = T0 :: Ts →
  ∃ s1, saved_ s1 = T0 :: Ts ∧ ((∃ e, CpDao.in_tx (Delete_ t p) k s = (Err e, Rollback_ s1)) ∨
    (CpDao.in_tx (Delete_ t p) k s = k s1 ∧ only t (without p (tbl s t)) (tbl s) (tbl s1))).
Proof.
  intros Hs. unfold CpDao.in_tx. destruct (Delete_ t p s) as [r s1] eqn:E. apply Delete_law_ in E as [E1 E2]. rewrite Hs in E1. exists s1. split; [done|].
  destruct r as [u|e]; [by right|left; by eexists].
Qed.
Lemma device_transaction id (s : DB) : let '(r, s') := CpDao.DeleteDevice id s in
  if is_ok r then device_tables id (tbl s) (tbl s') else same_tables (tbl s) (tbl s').
Proof.
  unfold CpDao.DeleteDevice. destruct (Begin_law_ s) as [Hb Hs].
  edestruct (in_tx_delete TInterface (λ r : row TInterface, bool_decide (i_DeviceID r = id))) as (s1 & S1 & [[e ->]|[-> O1]]); [exact Hs|cbn; by apply (Rollback_law_ _ _ _ S1)|].
  edestruct (in_tx_delete TEdgeDevice (λ r : row TEdgeDevice, bool_decide (ed_DeviceID r = id))) as (s2 & S2 & [[e ->]|[-> O2]]); [exact S1|cbn; by apply (Rollback_law_ _ _ _ S2)|].
  edestruct (in_tx_delete TDevice (λ r : row TDevice, bool_decide (d_ID r = id))) as (s3 & S3 & [[e ->]|[-> O3]]); [exact S2|cbn; by apply (Rollback_law_ _ _ _ S3)|].
  destruct (Commit_ s3) as [r s4] eqn:Ec. apply (Commit_law_ _ _ _ _ _ S3) in Ec as [_ Hc]. destruct r as [u|e]; cbn [is_ok]; [|done].
  destruct O1 as [A1 B1], O2 as [A2 B2], O3 as [A3 B3]. split_and!.
  - rewrite (Hc TInterface), B3, B2, A1 by done. by rewrite (Hb TInterface).
  - rewrite (Hc TEdgeDevice), B3, A2, B1 by done. by rewrite (Hb TEdgeDevice).
  - rewrite (Hc TDevice), A3, B2, B1 by done. by rewrite (Hb TDevice).
  - intros t N1 N2 N3. by rewrite (Hc t), B3, B2, B1, (Hb t).
Qed.
Definition removed (d : N) (w : W) : Prop :=
  none TDevice (λ r, d_ID r = d) w ∧ none TInterface (λ r, i_DeviceID r = d) w ∧ none TEdgeDevice (λ r, ed_DeviceID r = d) w ∧ none TApplication (λ a, a_DeviceID a = d) w.
Lemma without_none t (p : row t → bool) (q : row t → Prop) (w : W) m : rows_of w t = without p m → (∀ r, q r → p r = true) → none t q w.
Proof. intros Hw Hq k r. rewrite Hw, without_at. destruct (m !! k) as [x|]; [|done]. destruct (p x) eqn:E; [done|]. intros [= <-] H%Hq. congruence. Qed.
Lemma without_subset t (p : row t → bool) (m : gmap N (row t)) k r : without p m !! k = Some r → m !! k = Some r.
Proof. rewrite without_at. destruct (m !! k) as [x|]; [|done]. by destruct (p x). Qed.
Lemma sweep_delete_device (P : W → Prop) {i_P : Lasting P} d : sweep P (on_db (CpDao.DeleteDevice d) : C unit)
  (λ _ w, P w ∧ none TDevice (λ r, d_ID r = d) w ∧ none TInterface (λ r, i_DeviceID r = d) w ∧ none TEdgeDevice (λ r, ed_DeviceID r = d) w).
Proof.
  intros w HP. unfold on_db. pose proof (device_transaction d (wd_db w)) as H. destruct (CpDao.DeleteDevice d (wd_db w)) as [r db].
  set (w' := mkWorld db (wd_planes w) (wd_os w)). destruct r as [u|e]; cbn [is_ok] in H.
  - destruct H as (H1 & H2 & H3 & H4).
    assert (∀ t k r, rows_of w' t !! k = Some r → rows_of w t !! k = Some r) as Hsub.
    { intros t k r. destruct (decide (t = TInterface)) as [->|N1]; [unfold rows_of at 1; cbn [w' wd_db]; rewrite H1; apply without_subset|].
      destruct (decide (t = TEdgeDevice)) as [->|N2]; [unfold rows_of at 1; cbn [w' wd_db]; rewrite H2; apply without_subset|].
      destruct (decide (t = TDevice)) as [->|N3]; [unfold rows_of at 1; cbn [w' wd_db]; rewrite H3; apply without_subset|]. unfold rows_of at 1. cbn [w' wd_db]. by rewrite H4. }
    assert (quieter w w') as Hq by (split; [|done|done]; intros t Ht; apply H4; by intros ->).
    assert (swept w w') as Hs.
    { split; [intros t k r _; apply Hsub|done| |by apply stable_backed]. apply same_whole; [intros t k r _; apply Hsub|by apply same_accesses, Hq|by apply same_applications, Hq]. }
    split; [done|]. split_and!; [by eapply i_P|..]; (eapply without_none; [eassumption|]); intros x; apply bool_decide_eq_true.
  - split; [|done]. apply still_swept. split_and!; [by intros t _; apply H|done|done].
Qed.
Lemma step_device de d : calls de → step at_work grows (device_cascade de d) (λ tr w, d ∉ tr_devices tr → removed d w).
Proof.
  intros Hd tr. unfold device_cascade. case_bool_decide as Hin; [by apply sweep_ret|]. set (tr1 := tr <| tr_devices := _ |>).
  assert (grows tr tr1) as Hg1 by (split; [done|unfold tr1; set_solver]).
  eapply sweep_bind; [apply (sweep_looks (at_work tr1)); exact (looks_Find TEdgeDevice _)|]. intros rs. cbn beta.
  eapply sweep_bind; [apply (sweep_each at_work grows _ (λ _ _, True)); [apply _|intros r _; apply Hd]|]. intros tr2. cbn beta.
  eapply (sweep_pre _ (λ w, at_work tr2 w ∧ grows tr1 tr2)); [by intros w (? & ? & _)|]. apply sweep_pure. intros Hg2.
  eapply sweep_bind; [exact (sweep_Find (at_work tr2) TApplication (λ r : Application, bool_decide (a_DeviceID r ∈ [d])) ltac:(done))|]. intros l. cbn beta.
  eapply (sweep_pre _ (λ w, at_work tr2 w ∧ covers TApplication (λ a, a_DeviceID a = d) l w)).
  { intros w [Hw Hl]. split; [done|]. intros k a Ha Hd'. apply Hl. split; [cbn [id_of]; by rewrite (application_keyed _ _ _ Ha)|]. apply bool_decide_eq_true. rewrite Hd'. by left. }
  eapply sweep_bind; [apply delete_applications|]. intros tr3. cbn beta. apply sweep_pure. intros Hg3%below_grows.
  eapply sweep_bind; [apply sweep_delete_device; apply _|]. intros u. apply sweep_ret. intros w [[Hw Ha] (H1 & H2 & H3)].
  split_and!; [done|by do 2 (etransitivity; [eassumption|])|]. intros _. by split_and!.
Qed.
Lemma step_weaken f (Q : Tracker → W → Prop) : step at_work grows f Q → step at_work grows f (λ _ _, True).
Proof. intros H tr. eapply sweep_post; [apply H|]. by intros tr' w (? & ? & _). Qed.
Lemma cascades n : (∀ e, step at_work grows (deleteEdgeCascade (DB := DB) (OS := OS) n e) (λ tr w, e ∉ tr_edges tr → cleared e w)) ∧
  (∀ d, step at_work grows (deleteDeviceCascade (DB := DB) (OS := OS) n d) (λ tr w, d ∉ tr_devices tr → removed d w)).
Proof.
  induction n as [|n [IHe IHd]]; [split; intros k tr; apply sweep_throw|]. split; intros k; cbn [deleteEdgeCascade deleteDeviceCascade].
  - apply step_edge. intros d. by eapply step_weaken.
  - apply step_device. intros e. by eapply step_weaken.
Qed.

(** ** The cascades end *)
Definition agree {A} (P : W → Prop) (m1 m2 : C A) : Prop := ∀ w, P w → m1 w = m2 w.
Lemma agree_bind {A B} (P : W → Prop) (m1 m2 : C A) (R : A → W → Prop) (k1 k2 : A → C B) :
  agree P m1 m2 → sweep P m1 R → (∀ a, agree (R a) (k1 a) (k2 a)) → agree P (bind m1 k1) (bind m2 k2).
Proof.
  intros Hm Hs Hk w HP. unfold bind. rewrite <- (Hm w HP). specialize (Hs w HP). destruct (m1 w) as [[a|e] w1]; [|done]. by apply Hk, Hs.
Qed.
Lemma agree_same {A} (P : W → Prop) (m : C A) : agree P m m.
Proof. done. Qed.
Lemma agree_pre {A} (P P' : W → Prop) (m1 m2 : C A) : (∀ w, P w → P' w) → agree P' m1 m2 → agree P m1 m2.
Proof. intros H Ha w HP. by apply Ha, H. Qed.
Lemma agree_pure {A} (H : Prop) (P : W → Prop) (m1 m2 : C A) : (H → agree P m1 m2) → agree (λ w, P w ∧ H) m1 m2.
Proof. intros Hm w [HP HH]. by apply Hm. Qed.
Section Ends.
Context (E0 D0 : gset N).
(** The relations between connectors and devices mention no others. *)
Definition within (w : W) : Prop := none TEdgeDevice (λ r, ¬ (ed_EdgeID r ∈ E0 ∧ ed_DeviceID r ∈ D0)) w.
Definition busy (tr : Tracker) (w : W) : Prop := at_work tr w ∧ within w.
(** What is not tracked yet. *)
Definition left_over (tr : Tracker) : nat := size (E0 ∖ tr_edges tr) + size (D0 ∖ tr_devices tr).
Lemma grows_left tr tr' : grows tr tr' → left_over tr' ≤ left_over tr.
Proof. intros [H1 H2]. unfold left_over. apply Nat.add_le_mono; apply subseteq_size; set_solver. Qed.
Lemma mark_edge tr e : e ∈ E0 → e ∉ tr_edges tr → left_over (tr <| tr_edges := {[ e ]} ∪ tr_edges tr |>) < left_over tr.
Proof. intros H1 H2. unfold left_over. cbn. apply Nat.add_lt_le_mono; [|done]. apply subset_size. set_solver. Qed.
Lemma mark_device tr d : d ∈ D0 → d ∉ tr_devices tr → left_over (tr <| tr_devices := {[ d ]} ∪ tr_devices tr |>) < left_over tr.
Proof. intros H1 H2. unfold left_over. cbn. apply Nat.add_le_lt_mono; [done|]. apply subset_size. set_solver. Qed.
Lemma step_busy f Q : step at_work grows f Q → step busy grows f Q.
Proof. intros H tr. eapply sweep_post; [apply (sweep_frame within), H|]. intros tr' w ((Hw & Hg & HQ) & Hi). by split_and!. Qed.
Lemma agree_each {A} (f g : A → Tracker → C Tracker) l tr : (∀ a, a ∈ l → step busy grows (f a) (λ _ _, True)) →
  (∀ a tr', a ∈ l → grows tr tr' → agree (busy tr') (f a tr') (g a tr')) → agree (busy tr) (each_tracked f l tr) (each_tracked g l tr).
Proof.
  revert tr. induction l as [|a l IH]; intros tr Hf Ha; cbn [each_tracked]; [done|].
  eapply agree_bind; [apply Ha; [by left|done]|apply Hf; by left|]. intros tr1. cbn beta.
  eapply (agree_pre _ (λ w, busy tr1 w ∧ grows tr tr1)); [by intros w (? & ? & _)|]. apply agree_pure. intros Hg.
  apply IH; [intros b Hb; apply Hf; by right|]. intros b tr2 Hb Hg2. apply Ha; [by right|by etransitivity].
Qed.
Definition agrees (n : nat) (f g : N → Tracker → C Tracker) (U : gset N) : Prop :=
  ∀ k tr, k ∈ U → left_over tr < n → agree (busy tr) (f k tr) (g k tr).
Lemma agree_owned n dd dd' e d tr : agrees n dd dd' D0 → d ∈ D0 → left_over tr < n → agree (busy tr) (owned_device dd e d tr) (owned_device dd' e d tr).
Proof.
  intros Ha Hd Hn. unfold owned_device. case_bool_decide; [done|]. eapply agree_bind; [done|apply (sweep_looks (busy tr)); exact (looks_Find TEdgeDevice _)|].
  intros rs. destruct (forallb _ rs); [by apply Ha|done].
Qed.
#[local] Instance lasting_busy tr : Lasting (busy tr).
Proof. apply lasting_and; apply _. Qed.
Lemma delete_applications_busy p l tr : sweep (λ w, busy tr w ∧ covers TApplication p l w) (each_tracked (λ a, deleteApplicationCascade (a_ID a)) l tr : C Tracker)
  (λ tr' w, (busy tr' w ∧ none TApplication p w) ∧ grows tr tr').
Proof.
  eapply sweep_pre; [|eapply sweep_post; [apply (sweep_frame within), (delete_applications p)|]]; [by intros w [[? ?] ?]|]. by intros tr' w [[[? ?] ?%below_grows] ?].
Qed.
Lemma read_relations tr p : sweep (busy tr) (on_db (Find_ TEdgeDevice p) : C (list EdgeDevice)) (λ l w, busy tr w ∧ ∀ r, r ∈ l → ed_EdgeID r ∈ E0 ∧ ed_DeviceID r ∈ D0).
Proof.
  eapply sweep_post; [exact (sweep_Find (busy tr) TEdgeDevice p ltac:(done))|]. intros l w [Hw Hl]. split; [done|]. intros r [Hr _]%Hl. destruct Hw as [_ Hi]. apply dec_stable. exact (Hi _ _ Hr).
Qed.
Lemma agree_edge n dd dd' : calls dd → agrees n dd dd' D0 → agrees (S n) (edge_cascade dd) (edge_cascade dd') E0.
Proof.
  intros Hc Ha e tr He Hn. unfold edge_cascade. case_bool_decide as Hin; [done|]. set (tr1 := tr <| tr_edges := _ |>).
  assert (left_over tr1 < left_over tr) as Hlt by by apply mark_edge. set (N := none (DB := DB) (OS := OS) TApplication (λ a : Application, e ∈ a_EdgeIDs a)).
  eapply agree_bind; [done|apply (sweep_edge_applications (busy tr1))|]. intros l. cbn beta.
  eapply agree_bind; [done|apply delete_applications_busy|]. intros tr2. cbn beta. apply agree_pure. intros Hg2.
  eapply agree_bind; [done|apply (sweep_tasks (λ w, busy tr2 w ∧ N w))|]. intros u1. cbn beta.
  eapply (agree_bind _ _ _ (λ _ w, busy tr2 w ∧ N w)); [done|eapply sweep_post; [exact (sweep_delete _ TAccessKey (λ r : AccessKey, bool_decide (ak_EdgeID r = e)) eq_refl)|by intros u w []]|]. intros u2.
  eapply agree_bind; [done|apply (sweep_kick (λ w, busy tr2 w ∧ N w))|]. intros u3. cbn beta.
  eapply (agree_bind _ _ _ (λ _, busy tr2)); [done|eapply sweep_post; [apply (sweep_delete_edge (λ w, busy tr2 w ∧ N w)); intros w [[Hw _] Hn']; split; [by eapply at_work_backed|done]|by intros u w [[]]]|]. intros u4.
  eapply agree_bind; [done|apply read_relations|]. intros rs. cbn beta. apply agree_pure. intros Hrs.
  eapply agree_bind; [|apply (sweep_each busy grows _ (λ _ _, True)); [apply _|intros d _; by apply step_busy, step_owned]|done].
  apply agree_each; [intros d _; by apply step_busy, step_owned|]. intros d tr3 Hd Hg3. apply (agree_owned n); [done| |pose proof (grows_left _ _ Hg2); pose proof (grows_left _ _ Hg3); lia].
  rewrite elem_of_remove_dups in Hd. apply list_elem_of_fmap in Hd as (r & -> & Hr). by apply Hrs.
Qed.
Lemma agree_device n de de' : calls de → agrees n de de' E0 → agrees (S n) (device_cascade de) (device_cascade de') D0.
Proof.
  intros Hc Ha d tr Hd Hn. unfold device_cascade. case_bool_decide as Hin; [done|]. set (tr1 := tr <| tr_devices := _ |>).
  assert (left_over tr1 < left_over tr) as Hlt by by apply mark_device.
  eapply agree_bind; [done|apply (read_relations tr1)|]. intros rs. cbn beta. apply agree_pure. intros Hrs.
  eapply agree_bind; [|apply (sweep_each busy grows _ (λ _ _, True)); [apply _|intros r _; apply step_busy, Hc]|done].
  apply agree_each; [intros r _; apply step_busy, Hc|]. intros r tr2 Hr Hg2. apply Ha; [by apply Hrs|]. pose proof (grows_left _ _ Hg2). lia.
Qed.
Lemma more_fuel n : agrees n (deleteEdgeCascade (DB := DB) (OS := OS) n) (deleteEdgeCascade (S n)) E0 ∧ agrees n (deleteDeviceCascade (DB := DB) (OS := OS) n) (deleteDeviceCascade (S n)) D0.
Proof.
  induction n as [|n [IHe IHd]]; [split; intros k tr _ H; lia|]. split; cbn [deleteEdgeCascade deleteDeviceCascade].
  - apply agree_edge; [|done]. intros d. eapply step_weaken, cascades.
  - apply agree_device; [|done]. intros e. eapply step_weaken, cascades.
Qed.
End Ends.
End Delete.
