(* ===== verification/Frontier.v ===== *)
(** * manager/frontierbound: what connectors report

    [auth.go], [oob.go], [device.go], [device_ping.go], [edge.go] and [task.go]:
    which connector a connection is, the connectors that are online, the device
    a connector runs on with its interfaces, and the results of scans.  The
    state is the database and [edgeConnAddr].  A request is the payload as
    json.Unmarshal gives it; columns of usage and heartbeats, which nothing
    here reads, are left out, and so are the calls to the frontier service. *)

From S2P Require Import Prelude ToolTypes IamDao ControlDao NetAddr Firewall EntryPlanes ControlPlane ControlResources.

Record Meta := mkMeta { me_AccessKey : string; me_SecretKey : string }.
Record IPMask := mkIPMask { im_IP : string; im_Netmask : string }.
Record ReportedInterface := mkReportedInterface { ri_Name : string; ri_MAC : string; ri_IPMasks : list IPMask }.
Record ReportedDevice := mkReportedDevice { rd_Fingerprint : string; rd_HostName : string; rd_Interfaces : list ReportedInterface; rd_EdgeID : N }.
Record TaskReport := mkTaskReport { rt_TaskID : N; rt_Status : string; rt_Scanned : list ScannedApplication; rt_Error : string }.
Record interfaceKey := mkKey { ik_IP : string; ik_Netmask : string; ik_Name : string; ik_MAC : string }.
#[export] Instance interfaceKey_eq_dec : EqDecision interfaceKey.
Proof. solve_decision. Defined.
Definition reported_keys (l : list ReportedInterface) : list interfaceKey :=
  flat_map (λ i, map (λ m, mkKey (im_IP m) (im_Netmask m) (ri_Name i) (ri_MAC i)) (ri_IPMasks i)) l.
Definition key_of (i : EthernetInterface) : interfaceKey := mkKey (i_IP i) (i_Netmask i) (i_Name i) (i_MAC i).
Definition row_of (device : N) (k : interfaceKey) : EthernetInterface := mkInterface 0 device (ik_Name k) (ik_MAC k) (ik_IP k) (ik_Netmask k).

Module Frontier.
Section Frontier.
Context {DB : Type} {i_iam : IamGorm DB} {i_cp : CpGorm DB}.

Fixpoint each {A} (f : A → Op DB unit) (l : list A) : Op DB unit := match l with [] => ret tt | a :: l' => f a ;; each f l' end.
Definition try {A} (m : Op DB A) : Op DB (Result A) := λ s, let '(r, s') := m s in (Ok r, s').

(** ** auth.go *)
Definition requireRegisteredEdge (clientID : N) : Op DB N :=
  throw_if N.eqb clientID 0 with ENew "missing edge client id" ;;
  map_err (λ e, EWrap ("edge " +:+ pretty clientID +:+ " is not registered: ") e "") (CpDao.GetEdge clientID) ;; ret clientID.
Definition requireRequestEdge (clientID payloadEdgeID : N) : Op DB N :=
  let! edgeID := requireRegisteredEdge clientID in
  throw_if negb (N.eqb payloadEdgeID 0) && negb (bool_decide (payloadEdgeID = edgeID))
    with ENew ("edge id mismatch: connection edge " +:+ pretty edgeID +:+ ", payload edge " +:+ pretty payloadEdgeID) ;; ret edgeID.

(** ** oob.go *)
Definition getID (m : Meta) : Op DB N :=
  let! found := CpDao.GetEdgeByAccessKey (me_AccessKey m) in
  let '(ak, edge) := found in
  throw_if negb (bool_decide (ak_SecretKey ak = me_SecretKey m)) with ENew "invalid secret key" ;; ret (e_ID edge).
Definition updateEdgeHeartbeat (edgeID : N) : Op DB unit :=
  let! edge := try (CpDao.GetEdge edgeID) in
  match edge with
  | Err _ => ret tt
  | Ok edge =>
      if negb (Z.eqb (e_Online edge) EdgeOnlineStatusOnline)
      then try (CpDao.UpdateEdgeOnlineStatus edgeID EdgeOnlineStatusOnline) ;; ret tt else ret tt
  end.
Record State := mkState { fb_db : DB; fb_edgeConnAddr : gmap N string }.
Definition on_repo {A} (m : Op DB A) : Op State A := λ s, let '(r, db) := m (fb_db s) in (r, mkState db (fb_edgeConnAddr s)).
Definition modify (f : gmap N string → gmap N string) : Op State unit := λ s, (Ok tt, mkState (fb_db s) (f (fb_edgeConnAddr s))).
Definition rememberEdgeConn (edgeID : N) (addr : string) : Op State unit := modify <[ edgeID := addr ]>.
Definition shouldApplyEdgeOffline (edgeID : N) (addr : string) (conns : gmap N string) : bool :=
  match conns !! edgeID with None => true | Some currentAddr => bool_decide (currentAddr = addr) end.
Definition forgetEdgeConn (edgeID : N) (addr : string) : Op State unit :=
  modify (λ conns, if bool_decide (default "" (conns !! edgeID) = addr) then delete edgeID conns else conns).
Definition forgetEdge (edgeID : N) : Op State unit := modify (delete edgeID).
Definition online (edgeID : N) (addr : string) : Op State unit :=
  on_repo (CpDao.UpdateEdgeOnlineStatus edgeID EdgeOnlineStatusOnline) ;;
  rememberEdgeConn edgeID addr ;; on_repo (updateEdgeHeartbeat edgeID).
Definition offline (edgeID : N) (addr : string) : Op State unit := λ s,
  if negb (shouldApplyEdgeOffline edgeID addr (fb_edgeConnAddr s)) then (Ok tt, s) else
  (on_repo (CpDao.UpdateEdgeOnlineStatus edgeID EdgeOnlineStatusOffline) ;;
   forgetEdgeConn edgeID addr ;;
   let! tasks := on_repo (CpDao.ListTasks edgeID [TaskStatusPending; TaskStatusRunning]) in
   on_repo (each (λ t, CpDao.UpdateTaskError (tk_ID t) "edge offline") tasks)) s.

(** ** device.go *)
Definition reportDeviceUsage (clientID : N) (fingerprint : string) : Op DB unit :=
  let! edgeID := requireRegisteredEdge clientID in
  let! device := CpDao.GetDeviceByFingerprint fingerprint in
  CpDao.UpdateDeviceUsage (d_ID device) ;; updateEdgeHeartbeat edgeID.
(** The row of the device, created or updated. *)
Definition store_device (device : ReportedDevice) : Op DB N :=
  let! found := CpDao.or_none (CpDao.GetDeviceByFingerprint (rd_Fingerprint device)) in
  match found with
  | None =>
      let! d := CpDao.CreateDevice (mkDevice 0 (rd_HostName device) "" (rd_Fingerprint device) (rd_HostName device)) in
      CpDao.UpdateDeviceHeartbeat (d_ID d) ;; ret (d_ID d)
  | Some d =>
      CpDao.UpdateDevice (mkDevice (d_ID d) (if bool_decide (d_Name d = "") then rd_HostName device else "") "" (rd_Fingerprint device) (rd_HostName device)) ;;
      CpDao.UpdateDeviceHeartbeat (d_ID d) ;; ret (d_ID d)
  end.
Definition store_interface (deviceID : N) (k : interfaceKey) : Op DB unit :=
  let! existing := CpDao.or_none (CpDao.GetEthernetInterface deviceID (ik_IP k) (ik_Netmask k) (ik_Name k) (ik_MAC k)) in
  match existing with
  | None => CpDao.CreateEthernetInterface (row_of deviceID k) ;; ret tt
  | Some i => CpDao.UpdateEthernetInterface ((row_of deviceID k) <| i_ID := i_ID i |>)
  end.
Definition drop_interface (reported : list interfaceKey) (i : EthernetInterface) : Op DB unit :=
  if bool_decide (key_of i ∈ reported) then ret tt else CpDao.DeleteEthernetInterface (i_ID i).
Definition store_interfaces (deviceID : N) (reported : list interfaceKey) : Op DB unit :=
  each (store_interface deviceID) reported ;;
  let! existing := CpDao.GetEthernetInterfacesByDeviceID deviceID in
  each (drop_interface reported) existing.
Definition inherit (deviceID : N) (r : IAMResourceRelation) : Op DB unit :=
  CpDao.UpsertIAMResourceRelation (mkRelation 0 "device" deviceID (r_Relation r) (r_SubjectType r) (r_SubjectID r) (r_CreatedBy r)).
Definition store_relation (edgeID deviceID : N) : Op DB unit :=
  let! existing := CpDao.GetEdgeDevice edgeID deviceID EdgeDeviceRelationHost in
  (match existing with
   | Some _ => ret tt
   | None =>
       CpDao.DeleteEdgeDevicesByEdgeID edgeID (Some EdgeDeviceRelationHost) ;;
       CpDao.CreateEdgeDevice (mkEdgeDevice 0 edgeID deviceID EdgeDeviceRelationHost) ;; ret tt
   end) ;;
  let! edgeRelations := CpDao.ListIAMResourceRelations "connector" edgeID in
  each (inherit deviceID) edgeRelations.
(** The connector's number is never 0 here, see [requireRegisteredEdge]. *)
Definition reportDevice (clientID : N) (device : ReportedDevice) : Op DB unit :=
  let! edgeID := requireRequestEdge clientID (rd_EdgeID device) in
  Resources.in_transaction (
    let! deviceID := store_device device in
    store_interfaces deviceID (reported_keys (rd_Interfaces device)) ;;
    if N.ltb 0 edgeID then store_relation edgeID deviceID else ret tt) ;;
  updateEdgeHeartbeat edgeID.

(** ** device_ping.go *)
Definition first_ipv4 (l : list EthernetInterface) : option string :=
  (λ i, i_IP i) <$> List.find (λ i, negb (bool_decide (i_IP i = "")) && negb (has_char ":"%char (i_IP i))) l.
Fixpoint discovered (l : list EdgeDevice) : Op DB (list (N * string)) :=
  match l with
  | [] => ret []
  | r :: l' =>
      let! device := try (CpDao.GetDeviceByID (ed_DeviceID r)) in
      let! here := (match device with
                    | Err _ => ret []
                    | Ok (device, _) =>
                        let! interfaces := try (CpDao.GetEthernetInterfacesByDeviceID (d_ID device)) in
                        ret (match interfaces with
                             | Ok l => match first_ipv4 l with Some ip => [(d_ID device, ip)] | None => [] end
                             | Err _ => []
                             end)
                    end) in
      let! rest := discovered l' in ret (here ++ rest)
  end.
Definition getEdgeDiscoveredDevices (clientID payloadEdgeID : N) : Op DB (list (N * string)) :=
  let! edgeID := requireRequestEdge clientID payloadEdgeID in
  let! edgeDevices := CpDao.GetEdgeDevicesByEdgeID edgeID (Some EdgeDeviceRelationDiscovered) in
  discovered edgeDevices.
Definition updateDeviceHeartbeat (clientID deviceID : N) : Op DB unit :=
  let! edgeID := requireRegisteredEdge clientID in
  let! relation := CpDao.GetEdgeDevice edgeID deviceID EdgeDeviceRelationDiscovered in
  match relation with
  | None => throw (ENew ("device " +:+ pretty deviceID +:+ " is not discovered by edge " +:+ pretty edgeID))
  | Some _ => CpDao.UpdateDeviceHeartbeat deviceID
  end.

(** ** edge.go and task.go *)
Definition reportEdge (clientID : N) : Op DB unit := requireRegisteredEdge clientID ;; ret tt.
Definition not_ipv6 (a : ScannedApplication) : bool :=
  match Net.ParseIP (sc_IP a) with Some ip => match Net.To4 ip with Some _ => true | None => false end | None => true end.
Definition reportTaskScanApplication (clientID : N) (task : TaskReport) : Op DB unit :=
  let! edgeID := requireRegisteredEdge clientID in
  let! mtask := CpDao.GetTask (rt_TaskID task) in
  throw_if negb (bool_decide (tk_EdgeID mtask = edgeID)) with ENew ("task " +:+ pretty (rt_TaskID task) +:+ " does not belong to edge " +:+ pretty edgeID) ;;
  throw_if Z.eqb (tk_Status mtask) TaskStatusFailed with ENew "task alreadyexpired" ;;
  let applications := List.filter not_ipv6 (rt_Scanned task) in
  if bool_decide (rt_Status task = "running") then CpDao.UpdateTaskResult (rt_TaskID task) TaskStatusRunning applications
  else if bool_decide (rt_Status task = "completed") then CpDao.UpdateTaskResult (rt_TaskID task) TaskStatusCompleted applications
  else if bool_decide (rt_Status task = "failed") then CpDao.UpdateTaskError (rt_TaskID task) (rt_Error task)
  else ret tt.
Definition pullTaskScanApplication (clientID payloadEdgeID : N) : Op DB (N * ScanParams) :=
  let! edgeID := requireRequestEdge clientID payloadEdgeID in
  let! task := CpDao.GetTaskByEdgeID edgeID in ret (tk_ID task, tk_Params task).
End Frontier.
End Frontier.
