(* ===== verification/ControlDatabase.v ===== *)
(** * A database and a machine in memory

    The interfaces of the control plane are implemented: tables as maps, beside
    the tables of accounts of [IamDatabase], and a machine on which every free
    port can be bound.  The laws hold, so the theorems about any database and
    machine apply to something that runs. *)

From S2P Require Import Prelude ToolTypes IamDao IamDatabase ControlDao NetAddr Firewall EntryPlanes ControlPlane ControlInvariant.

Record CpDB := mkCpDB { cdb_iam : IamDB; cdb_tables : CpTables; cdb_saved : list CpTables }.

(** The rows that are stored under their own number. *)
Definition keyed (t : tag) (m : gmap N (row t)) : gmap N (row t) := filter (λ kr : N * row t, id_of t kr.2 = kr.1 ∧ kr.1 ≠ 0%N) m.
Definition cdb_tbl (s : CpDB) : CpTables := λ t, keyed t (cdb_tables s t).
Definition set_table (t : tag) (m : gmap N (row t)) (T : CpTables) : CpTables := λ t',
  match decide (t = t') with left E => eq_rect t (λ t, gmap N (row t)) m t' E | right _ => T t' end.
Definition with_table (t : tag) (m : gmap N (row t)) (s : CpDB) : CpDB := mkCpDB (cdb_iam s) (set_table t m (cdb_tbl s)) (cdb_saved s).
Lemma set_table_eq t m T : set_table t m T t = m.
Proof. unfold set_table. destruct (decide (t = t)) as [E|]; [|done]. by rewrite (proof_irrel E eq_refl). Qed.
Lemma set_table_ne t m T t' : t' ≠ t → set_table t m T t' = T t'.
Proof. unfold set_table. destruct (decide (t = t')) as [->|]; [by intros []|done]. Qed.
Lemma keyed_at t m k r : keyed t m !! k = Some r ↔ m !! k = Some r ∧ id_of t r = k ∧ k ≠ 0%N.
Proof. unfold keyed. by rewrite map_lookup_filter_Some. Qed.
Lemma keyed_id t m : (∀ k r, m !! k = Some r → id_of t r = k ∧ k ≠ 0%N) → keyed t m = m.
Proof.
  intros H. apply map_eq. intros k. destruct (m !! k) as [r|] eqn:E; [apply keyed_at; split; [done|by apply H]|].
  destruct (keyed t m !! k) as [r|] eqn:E'; [|done]. apply keyed_at in E' as [? _]. congruence.
Qed.
Lemma with_table_only t m s : (∀ k r, m !! k = Some r → id_of t r = k ∧ k ≠ 0%N) → only t m (cdb_tbl s) (cdb_tbl (with_table t m s)).
Proof.
  intros H. split; [unfold cdb_tbl at 1; cbn; rewrite set_table_eq; by apply keyed_id|]. intros t' Hne. unfold cdb_tbl at 1. cbn. rewrite set_table_ne by done.
  apply keyed_id. intros k r Hr. by apply keyed_at in Hr as [_ Hr].
Qed.
Lemma numbered_id t id r : id_of t (numbered t id r) = id.
Proof. by destruct t. Qed.

Definition next (t : tag) (s : CpDB) : N := (1 + foldr N.max 0 (map_to_list (cdb_tbl s t)).*1)%N.
Definition cdb_Create (t : tag) (r : row t) : Op CpDB (row t) := λ s,
  let r' := numbered t (next t s) r in (Ok r', with_table t (<[ next t s := r' ]> (cdb_tbl s t)) s).
Definition cdb_rows (t : tag) (p : row t → bool) (s : CpDB) : list (row t) := List.filter p (map_to_list (cdb_tbl s t)).*2.
Definition cdb_First (t : tag) (p : row t → bool) : Op CpDB (row t) := λ s,
  (match cdb_rows t p s with r :: _ => Ok r | [] => Err ErrRecordNotFound end, s).
Definition cdb_Find (t : tag) (p : row t → bool) : Op CpDB (list (row t)) := λ s, (Ok (cdb_rows t p s), s).
Definition cdb_Delete (t : tag) (p : row t → bool) : Op CpDB unit := λ s, (Ok tt, with_table t (without p (cdb_tbl s t)) s).
Definition cdb_Updates (t : tag) (p : row t → bool) (f : row t → row t) : Op CpDB unit := λ s, (Ok tt, with_table t (updated p f (cdb_tbl s t)) s).
Definition same_relation (a b : IAMResourceRelation) : bool :=
  bool_decide (r_ResourceType a = r_ResourceType b) && bool_decide (r_ResourceID a = r_ResourceID b) && bool_decide (r_Relation a = r_Relation b) &&
  bool_decide (r_SubjectType a = r_SubjectType b) && bool_decide (r_SubjectID a = r_SubjectID b).
Definition cdb_Upsert (r : IAMResourceRelation) : Op CpDB unit := λ s,
  match cdb_rows TRelation (same_relation r) s with _ :: _ => (Ok tt, s) | [] => (Ok tt, snd (cdb_Create TRelation r s)) end.
Definition cdb_Joins (ip : string) : Op CpDB Device := λ s,
  match cdb_rows TInterface (λ i : EthernetInterface, bool_decide (i_IP i = ip)) s with
  | i :: _ => cdb_First TDevice (λ d : Device, bool_decide (d_ID d = i_DeviceID i)) s
  | [] => (Err ErrRecordNotFound, s)
  end.
Definition cdb_Begin (s : CpDB) : CpDB := mkCpDB (cdb_iam s) (cdb_tables s) (cdb_tables s :: cdb_saved s).
Definition cdb_Commit : Op CpDB unit := λ s, (Ok tt, mkCpDB (cdb_iam s) (cdb_tables s) (tl (cdb_saved s))).
Definition cdb_Rollback (s : CpDB) : CpDB := match cdb_saved s with T :: Ts => mkCpDB (cdb_iam s) T Ts | [] => s end.
#[export] Instance cp_gorm : CpGorm CpDB := {|
  Create_ := cdb_Create; First_ := cdb_First; Find_ := cdb_Find; Delete_ := cdb_Delete; Updates_ := cdb_Updates; OnConflictCreate_ := cdb_Upsert;
  JoinsFirst_ := cdb_Joins; Begin_ := cdb_Begin; Commit_ := cdb_Commit; Rollback_ := cdb_Rollback |}.

(** ** The laws *)
Lemma cdb_tbl_keyed s t k r : cdb_tbl s t !! k = Some r → id_of t r = k ∧ k ≠ 0%N.
Proof. intros H. by apply keyed_at in H as [_ H]. Qed.
Lemma cdb_rows_spec t p s r : r ∈ cdb_rows t p s ↔ cdb_tbl s t !! id_of t r = Some r ∧ p r = true.
Proof.
  unfold cdb_rows. rewrite list_elem_of_In, filter_In, <- list_elem_of_In, list_elem_of_fmap. split.
  - intros [([k r'] & -> & Hk%elem_of_map_to_list) Hp]. split; [|done]. cbn in *. pose proof (cdb_tbl_keyed _ _ _ _ Hk) as [-> _]. done.
  - intros [Hr Hp]. split; [|done]. exists (id_of t r, r). split; [done|]. by apply elem_of_map_to_list.
Qed.
Lemma cdb_rows_nodup t p s : NoDup (cdb_rows t p s).
Proof.
  unfold cdb_rows. apply NoDup_ListNoDup, List.NoDup_filter, NoDup_ListNoDup. apply NoDup_fmap_2_strong; [|apply NoDup_map_to_list].
  intros [k1 r1] [k2 r2] H1%elem_of_map_to_list H2%elem_of_map_to_list E. cbn in *. subst r2. apply cdb_tbl_keyed in H1 as [<- _], H2 as [<- _]. done.
Qed.
Lemma next_fresh t s : next t s ≠ 0%N ∧ cdb_tbl s t !! next t s = None.
Proof.
  split; [unfold next; lia|]. apply eq_None_not_Some. intros [v Hv].
  assert (next t s ∈ (map_to_list (cdb_tbl s t)).*1) as Hin by (apply list_elem_of_fmap; exists (next t s, v); split; [done|by apply elem_of_map_to_list]).
  assert (∀ l k, k ∈ l → (k ≤ foldr N.max 0 l)%N) as Hmax.
  { intros l k. induction l as [|y l IH]; [by intros ?%elem_of_nil|]. intros [->|Hk]%elem_of_cons; simpl; [lia|]. specialize (IH Hk). lia. }
  apply Hmax in Hin. unfold next in Hin at 1. lia.
Qed.
Lemma cdb_Create_spec t r s : let id := next t s in only t (<[ id := numbered t id r ]> (cdb_tbl s t)) (cdb_tbl s) (cdb_tbl (snd (cdb_Create t r s))).
Proof.
  cbn zeta. apply with_table_only. intros k r'. destruct (next_fresh t s) as [Hn _]. destruct (decide (k = next t s)) as [->|Hne].
  - rewrite lookup_insert_eq. intros [= <-]. by rewrite numbered_id.
  - rewrite lookup_insert_ne by done. apply cdb_tbl_keyed.
Qed.
Lemma cdb_Delete_spec t p s : only t (without p (cdb_tbl s t)) (cdb_tbl s) (cdb_tbl (snd (cdb_Delete t p s))).
Proof.
  apply with_table_only. intros k r. unfold without. rewrite lookup_omap. destruct (cdb_tbl s t !! k) as [x|] eqn:E; [|done]. cbn. destruct (p x); [done|].
  intros [= <-]. by apply cdb_tbl_keyed in E.
Qed.
Lemma cdb_Updates_spec t p f s : (∀ r, p r = true → id_of t (f r) = id_of t r) → only t (updated p f (cdb_tbl s t)) (cdb_tbl s) (cdb_tbl (snd (cdb_Updates t p f s))).
Proof.
  intros Hf. apply with_table_only. intros k r. unfold updated. rewrite lookup_fmap. destruct (cdb_tbl s t !! k) as [x|] eqn:E; [|done]. cbn. intros [= <-].
  apply cdb_tbl_keyed in E. destruct (p x) eqn:Ep; [by rewrite Hf|done].
Qed.
Lemma cdb_First_spec t p s : match fst (cdb_First t p s) with
  | Ok r => cdb_tbl s t !! id_of t r = Some r ∧ p r = true
  | Err _ => ∀ k r, cdb_tbl s t !! k = Some r → p r = false
  end.
Proof.
  unfold cdb_First. cbn. destruct (cdb_rows t p s) as [|r l] eqn:E.
  - intros k r Hr. apply not_true_is_false. intros Hp. pose proof (cdb_tbl_keyed _ _ _ _ Hr) as [Hk _]. subst k.
    assert (r ∈ cdb_rows t p s) as Hin by (by apply cdb_rows_spec). rewrite E in Hin. by apply elem_of_nil in Hin.
  - apply cdb_rows_spec. rewrite E. by left.
Qed.
(** Saved tables count as what queries saw of them. *)
#[export] Instance cp_laws : CpGormLaws CpDB.
Proof.
  refine (Build_CpGormLaws CpDB _ cdb_tbl (λ s, map (λ (T : CpTables) t, keyed t (T t)) (cdb_saved s)) cdb_tbl_keyed _ _ _ _ _ _ _ _ _ _).
  - intros t r s x s' [= <- <-]. split; [done|]. destruct (next_fresh t s). exists (next t s). split_and!; [done..|apply (cdb_Create_spec t r s)].
  - intros t p s x s' [= <- <-]. split_and!; [done|done|]. pose proof (cdb_First_spec t p s) as H. cbn in H. destruct (cdb_rows t p s); [by intros _|done].
  - intros t p s x s' [= <- <-]. split; [done|]. split; [done|]. split; [apply cdb_rows_nodup|apply cdb_rows_spec].
  - intros t p s x s' [= <- <-]. split; [done|]. apply (cdb_Delete_spec t p s).
  - intros t p f s x s' Hf [= <- <-]. split; [done|]. by apply (cdb_Updates_spec t p f s).
  - intros r s x s'. cbn. unfold cdb_Upsert. destruct (cdb_rows TRelation _ s); intros [= <- <-]; [|done]. split; [done|]. apply (cdb_Create_spec TRelation r s).
  - intros ip s x s'. cbn. unfold cdb_Joins. destruct (cdb_rows TInterface _ s) as [|i l]; intros [= <- <-]; [done|]. split_and!; [done|done|].
    pose proof (cdb_First_spec TDevice (λ d : Device, bool_decide (d_ID d = i_DeviceID i)) s) as H. cbn in H. destruct (cdb_rows TDevice _ s); [done|apply H].
  - done.
  - intros T Ts s x s' Hs [= <- <-]. cbn in Hs |- *. destruct (cdb_saved s); [done|]. by injection Hs as _ <-.
  - intros T Ts s Hs. cbn in Hs. unfold Rollback_, cp_gorm, cdb_Rollback. destruct (cdb_saved s); [done|]. by injection Hs as <- <-.
Defined.

(** ** The tables of accounts *)
Definition on_iam {A} (m : Op IamDB A) : Op CpDB A := λ s, let '(r, i) := m (cdb_iam s) in (r, mkCpDB i (cdb_tables s) (cdb_saved s)).
#[export] Instance cp_iam_gorm : IamGorm CpDB := {|
  Create Row i r := on_iam (Create r); First Row i preload p := on_iam (First preload p); Find Row i preload p less := on_iam (Find preload p less);
  Page Row i offset limit := on_iam (Page offset limit); Count Row i p := on_iam (Count p); Save Row i r := on_iam (Save r);
  Delete Row i p := on_iam (Delete p); Purge Row i p := on_iam (Purge p); Update Row i p f := on_iam (Update p f);
  Upsert Row i conflict assign r := on_iam (Upsert conflict assign r);
  Begin s := mkCpDB (Begin (cdb_iam s)) (cdb_tables s) (cdb_saved s); Commit := on_iam Commit;
  Rollback s := mkCpDB (Rollback (cdb_iam s)) (cdb_tables s) (cdb_saved s) |}.
Lemma on_iam_frame {A} (m : Op IamDB A) s : same_tables (tbl s) (tbl (snd (on_iam m s))) ∧ saved_ (snd (on_iam m s)) = saved_ s.
Proof. unfold on_iam. by destruct (m (cdb_iam s)). Qed.
#[export] Instance cp_frame : AccountQueries CpDB.
Proof. split; intros; apply on_iam_frame. Qed.

(** ** A machine *)
Definition free_port (open : gset Z) : option Z := List.find (λ p, bool_decide (p ∉ open)) (map (λ n, (20000 + Z.of_nat n)%Z) (seq 0 100)).
Definition try_listen (open : gset Z) (requested : Z) : Result Z :=
  if Z.eqb requested 0 then match free_port open with Some p => Ok p | None => Err (ENew "no free port") end
  else if bool_decide (requested ∉ open) && Z.ltb 0 requested && Z.ltb requested 65536 then Ok requested else Err (ENew "address already in use").
#[export] Instance demo_machine : Machine unit := {|
  observe open requested os := (mkEnv (try_listen open requested) (Ok tt) (Ok tt) (Ok tt) (Ok tt), os);
  probe open os := (match free_port open with Some p => Ok p | None => Err (ENew "no free port") end, os);
  kick edge os := (Ok tt, os); random_hex os := (Ok "0f3a", os); emit task edge params os := (Ok tt, os);
  unix_nano os := (1760000000123456789%N, os); random_bytes n os := (replicate n 7%N, os) |}.
#[export] Instance demo_machine_laws : MachineLaws unit.
Proof.
  intros open requested os. cbn. unfold try_listen. destruct (Z.eqb_spec requested 0) as [->|].
  - unfold free_port. destruct (List.find _ _) as [p|] eqn:E; [|done]. apply find_some in E as [Hin Hp%bool_decide_eq_true]. apply in_map_iff in Hin as (n & <- & Hn%in_seq).
    split_and!; [done|lia|lia|lia].
  - destruct (_ && _) eqn:E; [|done]. rewrite !andb_true_iff, bool_decide_eq_true, !Z.ltb_lt in E. split_and!; [tauto|lia|lia|done].
Qed.

(** An installation with nothing stored yet. *)
Lemma no_accounts_wf : wf_tables (mkIamTables ∅ ∅ ∅ ∅ ∅ ∅ ∅ ∅) ∧ Forall wf_tables [].
Proof. split; [|done]. by split. Qed.
Definition empty_cp : CpDB := mkCpDB (mkIamDB (mkIamTables ∅ ∅ ∅ ∅ ∅ ∅ ∅ ∅) [] no_accounts_wf) (λ _, ∅) [].
