(* ===== verification/FrontierTheorems.v ===== *)
(** * Properties of what connectors report

    A report of a device is stored as a whole or not at all and leaves exactly
    the interfaces it names; a connector has one host; connectors with a
    connection are online; reports touch only the connector's own tasks. *)

From S2P Require Import Prelude ToolTypes IamDao IamDatabase ControlDao NetAddr Firewall EntryPlanes ControlPlane ControlResources ControlInvariant ControlBacked ControlRows Frontier ControlDatabase.

Section Frontier.
Context {DB : Type} {i_iam : IamGorm DB} {i_cp : CpGorm DB} {l_cp : CpGormLaws DB} {l_frame : AccountQueries DB}.

(** [hoare P m Q]: [m], started in [P], ends in [Q] unless it fails. *)
Definition hoare {A} (P : DB → Prop) (m : Op DB A) (Q : A → DB → Prop) : Prop :=
  ∀ s, P s → match m s with (Ok a, s') => Q a s' | (Err _, _) => True end.
Lemma hoare_ret {A} (a : A) (P : DB → Prop) (Q : A → DB → Prop) : (∀ s, P s → Q a s) → hoare P (ret a) Q.
Proof. intros H s. apply H. Qed.
Lemma hoare_throw {A} e (P : DB → Prop) (Q : A → DB → Prop) : hoare P (throw e) Q.
Proof. done. Qed.
Lemma hoare_bind {A B} (P : DB → Prop) (m : Op DB A) R (k : A → Op DB B) Q : hoare P m R → (∀ a, hoare (R a) (k a) Q) → hoare P (bind m k) Q.
Proof. intros Hm Hk s HP. unfold bind. specialize (Hm s HP). destruct (m s) as [[a|e] s1]; [|done]. by apply Hk. Qed.
Lemma hoare_pre {A} (P P' : DB → Prop) (m : Op DB A) Q : (∀ s, P s → P' s) → hoare P' m Q → hoare P m Q.
Proof. intros H Hm s HP. by apply Hm, H. Qed.
Lemma hoare_post {A} (P : DB → Prop) (m : Op DB A) (Q Q' : A → DB → Prop) : hoare P m Q → (∀ a s, Q a s → Q' a s) → hoare P m Q'.
Proof. intros Hm H s HP. specialize (Hm s HP). destruct (m s) as [[a|e] s1]; auto. Qed.
(** [P] speaks about tables; a query leaves them alone. *)
Class Tabular (P : DB → Prop) : Prop := tabular s s' : same_tables (tbl s) (tbl s') → P s → P s'.
Lemma hoare_First (P : DB → Prop) {i_P : Tabular P} t p : hoare P (First_ t p) (λ r s, P s ∧ tbl s t !! id_of t r = Some r ∧ p r = true).
Proof.
  intros s HP. destruct (First_ t p s) as [[r|e] s'] eqn:E; [|done]. apply First_law_ in E as (_ & Hs & Hr & Hp). split_and!; [by eapply i_P| |done]. by rewrite (Hs t).
Qed.
Lemma hoare_First_none (P : DB → Prop) {i_P : Tabular P} t p : hoare P (CpDao.or_none (First_ t p))
  (λ o s, P s ∧ match o with Some r => tbl s t !! id_of t r = Some r ∧ p r = true | None => ∀ k r, tbl s t !! k = Some r → p r = false end).
Proof.
  intros s HP. unfold CpDao.or_none. destruct (First_ t p s) as [[r|e] s'] eqn:E; apply First_law_ in E as (_ & Hs & Hr).
  - split; [by eapply i_P|]. by rewrite (Hs t).
  - destruct (Is e ErrRecordNotFound); [|done]. split; [by eapply i_P|]. rewrite (Hs t). by apply Hr.
Qed.
Lemma hoare_Find (P : DB → Prop) {i_P : Tabular P} t p : hoare P (Find_ t p) (λ l s, P s ∧ ∀ r, r ∈ l ↔ tbl s t !! id_of t r = Some r ∧ p r = true).
Proof.
  intros s HP. destruct (Find_ t p s) as [[l|e] s'] eqn:E; [|done]. apply Find_law_ in E as (_ & Hs & _ & Hl). split; [by eapply i_P|]. intros r. by rewrite Hl, (Hs t).
Qed.

(** ** Interfaces *)
Definition interfaces (s : DB) : gmap N EthernetInterface := tbl s TInterface.
Lemma interface_keyed (s : DB) k i : interfaces s !! k = Some i → i_ID i = k.
Proof. intros H. by apply (tbl_keyed s TInterface) in H as []. Qed.
(** Other tables are as they were. *)
Definition besides (t : tag) (T : CpTables) (s : DB) : Prop := ∀ t', t' ≠ t → tbl s t' = T t'.
Section Interfaces.
Context (d : N) (reported : list interfaceKey) (s0 : DB).
(** While the reported interfaces are stored: [done] of them are. *)
Record storing (done : list interfaceKey) (s : DB) : Prop := {
  st_besides : besides TInterface (tbl s0) s;
  st_kept k i : interfaces s0 !! k = Some i → interfaces s !! k = Some i;
  st_new k i : interfaces s !! k = Some i → interfaces s0 !! k = Some i ∨ (i_DeviceID i = d ∧ key_of i ∈ done);
  st_done key : key ∈ done → ∃ k i, interfaces s !! k = Some i ∧ i_DeviceID i = d ∧ key_of i = key
}.
#[local] Instance tabular_storing done : Tabular (storing done).
Proof.
  intros s s' H [H1 H2 H3 H4]. assert (interfaces s' = interfaces s) as E by exact (H TInterface). split; rewrite ?E; try done. intros t Ht. by rewrite (H t), H1.
Qed.
Lemma storing_more done key s : storing done s → (∃ k i, interfaces s !! k = Some i ∧ i_DeviceID i = d ∧ key_of i = key) → storing (done ++ [key]) s.
Proof.
  intros [H1 H2 H3 H4] Hk. split; [done|done| |].
  - intros k i [?|[? ?]]%H3; [by left|right]. split; [done|]. apply elem_of_app. by left.
  - intros key' [?|Hkey%list_elem_of_singleton]%elem_of_app; [auto|by subst].
Qed.
Lemma store_one done key : hoare (storing done) (Frontier.store_interface d key) (λ _, storing (done ++ [key])).
Proof.
  unfold Frontier.store_interface, CpDao.GetEthernetInterface. eapply hoare_bind; [exact (hoare_First_none (storing done) TInterface _)|]. intros [i|]; cbn beta.
  - intros s (Hs & Hi & Hp). rewrite !andb_true_iff, !bool_decide_eq_true in Hp. destruct Hp as ((((Hd & Hip) & Hmask) & Hname) & Hmac).
    unfold CpDao.UpdateEthernetInterface. cbn [i_ID row_of]. destruct (Updates_ TInterface _ _ s) as [[u|e] s'] eqn:E; [|done]. apply Updates_law_ in E as [_ [H1 H2]]; [|by intros []].
    assert (same_tables (tbl s) (tbl s')) as Hsame.
    { intros t. destruct (decide (t = TInterface)) as [->|Hne]; [|by apply H2]. rewrite H1. apply map_eq. intros k. unfold updated. cbn [row]. rewrite lookup_fmap.
      change (tbl s TInterface) with (interfaces s). destruct (interfaces s !! k) as [j|] eqn:Ej; [|done]. cbn. f_equal. case_bool_decide as Hj; [|done].
      pose proof (interface_keyed _ _ _ Ej) as Hk. change (interfaces s !! i_ID i = Some i) in Hi. assert (j = i) as -> by (rewrite <- Hk, Hj in Ej; congruence).
      destruct i; cbn in *; by subst. }
    eapply tabular_storing; [exact Hsame|]. apply storing_more; [done|]. exists (i_ID i), i. split_and!; [done|done|]. destruct key. unfold key_of. cbn in *. by subst.
  - unfold CpDao.CreateEthernetInterface. intros s (Hs & Hnone). unfold bind. destruct (Create_ TInterface (row_of d key) s) as [[i|e] s'] eqn:E; [|done].
    apply Create_law_ in E as [_ (id & Hid & Hn & -> & H1 & H2)]. cbn [numbered] in *. set (i := (row_of d key) <| i_ID := id |>) in *. change (interfaces s !! id = None) in Hn.
    assert (interfaces s' = <[ id := i ]> (interfaces s)) as E by exact H1. destruct Hs as [S1 S2 S3 S4].
    assert (key_of i = key) as Hkey by (by destruct key). cbn. split; rewrite ?E.
    + intros t Ht. by rewrite (H2 t Ht), S1.
    + intros k j Hj%S2. rewrite lookup_insert_ne; [done|]. intros ->. congruence.
    + intros k j. destruct (decide (k = id)) as [->|Hne]; [rewrite lookup_insert_eq; intros [= <-]; right; split; [done|]; rewrite Hkey; apply elem_of_app; right; by left|].
      rewrite lookup_insert_ne by done. intros [?|[? ?]]%S3; [by left|right]. split; [done|]. apply elem_of_app. by left.
    + intros key' [Hin|Hkey'%list_elem_of_singleton]%elem_of_app; [|subst key'; exists id, i; by rewrite lookup_insert_eq].
      destruct (S4 _ Hin) as (k & j & Hj & ?). exists k, j. split; [|done]. rewrite lookup_insert_ne; [done|]. intros ->. congruence.
Qed.
Lemma store_all l done : hoare (storing done) (Frontier.each (Frontier.store_interface d) l) (λ _, storing (done ++ l)).
Proof.
  revert done. induction l as [|key l IH]; intros done; cbn [Frontier.each]; [apply hoare_ret; by rewrite app_nil_r|].
  eapply hoare_bind; [apply store_one|]. intros u. eapply hoare_post; [apply IH|]. intros v s. by rewrite <- app_assoc.
Qed.
(** While those that were not reported are deleted: [l] are still to do. *)
Record dropping (s1 : DB) (l : list EthernetInterface) (s : DB) : Prop := {
  dr_besides : besides TInterface (tbl s1) s;
  dr_subset k i : interfaces s !! k = Some i → interfaces s1 !! k = Some i;
  dr_kept k i : interfaces s1 !! k = Some i → i_DeviceID i ≠ d ∨ key_of i ∈ reported → interfaces s !! k = Some i;
  dr_left k i : interfaces s !! k = Some i → i_DeviceID i = d → key_of i ∈ reported ∨ i ∈ l
}.
Lemma drop_all s1 l : (∀ i, i ∈ l → interfaces s1 !! i_ID i = Some i ∧ i_DeviceID i = d) →
  hoare (dropping s1 l) (Frontier.each (Frontier.drop_interface reported) l) (λ _, dropping s1 []).
Proof.
  induction l as [|i l IH]; intros Hl; cbn [Frontier.each]; [by apply hoare_ret|]. eapply hoare_bind; [|intros u; apply IH; intros j Hj; apply Hl; by right].
  unfold Frontier.drop_interface. case_bool_decide as Hin.
  - apply hoare_ret. intros s [H1 H2 H3 H4]. split; [done..|]. intros k j Hj Hd. destruct (H4 _ _ Hj Hd) as [?|[->|?]%elem_of_cons]; auto.
  - intros s [H1 H2 H3 H4]. unfold CpDao.DeleteEthernetInterface. destruct (Delete_ TInterface _ s) as [[u|e] s'] eqn:E; [|done]. apply Delete_law_ in E as [_ [D1 D2]].
    assert (∀ k, interfaces s' !! k = match interfaces s !! k with Some j => if bool_decide (i_ID j = i_ID i) then None else Some j | None => None end) as Hrows.
    { intros k. etransitivity; [exact (f_equal (λ m : gmap N EthernetInterface, m !! k) D1)|]. exact (without_at (t := TInterface) _ (interfaces s) k). }
    destruct (Hl i ltac:(by left)) as [Hi Hd]. split.
    + intros t Ht. by rewrite D2, H1.
    + intros k j. rewrite Hrows. destruct (interfaces s !! k) as [j'|] eqn:Ej; [|done]. case_bool_decide; [done|]. intros [= <-]. by apply H2.
    + intros k j Hj Hkeep. rewrite Hrows, (H3 _ _ Hj Hkeep). rewrite bool_decide_eq_false_2; [done|]. intros Heq. pose proof (interface_keyed _ _ _ Hj) as Hk.
      rewrite <- Hk, Heq, Hi in Hj. injection Hj as <-. naive_solver.
    + intros k j. rewrite Hrows. destruct (interfaces s !! k) as [j'|] eqn:Ej; [|done]. case_bool_decide as Hne; [done|]. intros [= <-] Hdj.
      destruct (H4 _ _ Ej Hdj) as [?|[->|?]%elem_of_cons]; auto. done.
Qed.
Lemma store_interfaces_spec : hoare (λ s, s = s0) (Frontier.store_interfaces d reported)
  (λ _ s, besides TInterface (tbl s0) s ∧ (∀ k i, i_DeviceID i ≠ d → interfaces s !! k = Some i ↔ interfaces s0 !! k = Some i) ∧
     (∀ key, key ∈ reported ↔ ∃ k i, interfaces s !! k = Some i ∧ i_DeviceID i = d ∧ key_of i = key)).
Proof.
  unfold Frontier.store_interfaces, CpDao.GetEthernetInterfacesByDeviceID. eapply hoare_bind.
  { eapply hoare_pre; [|apply (store_all reported [])]. intros s ->. split; [done|done|by left|]. by intros key ?%elem_of_nil. }
  intros u. eapply hoare_bind; [exact (hoare_Find (storing reported) TInterface _)|]. intros l s2 [Hst Hl]. cbn beta in Hl.
  assert (∀ i, i ∈ l ↔ interfaces s2 !! i_ID i = Some i ∧ i_DeviceID i = d) as Hl'.
  { intros i. rewrite (Hl i). by rewrite bool_decide_eq_true. }
  pose proof (drop_all s2 l (λ i Hi, proj1 (Hl' i) Hi) s2) as Hd. destruct (Frontier.each _ l s2) as [[v|e] s3]; [|done].
  destruct Hst as [S1 S2 S3 S4]. destruct Hd as [D1 D2 D3 D4].
  { split; [done|done|done|]. intros k i Hi Hd'. right. apply Hl'. by rewrite (interface_keyed _ _ _ Hi). }
  split_and!.
  - intros t Ht. by rewrite D1, S1.
  - intros k i Hne. split; [intros Hi%D2; by destruct (S3 _ _ Hi) as [?|[? _]]|]. intros Hi%S2. apply D3; [done|by left].
  - intros key. split.
    + intros Hk. destruct (S4 _ Hk) as (k & i & Hi & Hd' & Hkey). exists k, i. split; [|done]. apply D3; [done|]. right. by rewrite Hkey.
    + intros (k & i & Hi & Hd' & <-). destruct (D4 _ _ Hi Hd') as [?|?%elem_of_nil]; done.
Qed.
End Interfaces.

(** ** The device and its connector *)
Lemma same_update t p (s : DB) : hoare (λ s1, s1 = s) (Updates_ t p (λ r, r)) (λ _ s', same_tables (tbl s) (tbl s')).
Proof.
  intros s1 ->. destruct (Updates_ t p _ s) as [[u|e] s'] eqn:E; [|done]. apply Updates_law_ in E as [_ [H1 H2]]; [|done]. intros t'.
  destruct (decide (t' = t)) as [->|Hne]; [|by apply H2]. rewrite H1. unfold updated. apply map_eq. intros k. rewrite lookup_fmap. destruct (tbl s t !! k) as [r|]; [|done]. cbn. by destruct (p r).
Qed.
Definition devices (s : DB) : gmap N Device := tbl s TDevice.
Definition known (fingerprint : string) (id : N) (s : DB) : Prop := ∃ d, devices s !! id = Some d ∧ d_Fingerprint d = fingerprint.
Lemma store_device_spec dev (s0 : DB) : hoare (λ s, s = s0) (Frontier.store_device dev) (λ id s, besides TDevice (tbl s0) s ∧ known (rd_Fingerprint dev) id s).
Proof.
  unfold Frontier.store_device, CpDao.GetDeviceByFingerprint. eapply (hoare_pre _ (λ s, same_tables (tbl s0) (tbl s))); [by intros s ->|].
  assert (Tabular (λ s, same_tables (tbl s0) (tbl s))) as HT by (intros s s' H1 H2 t; by rewrite (H1 t)).
  assert (∀ id s, besides TDevice (tbl s0) s → known (rd_Fingerprint dev) id s →
    match (CpDao.UpdateDeviceHeartbeat id ;; ret id) s with (Ok i, s') => besides TDevice (tbl s0) s' ∧ known (rd_Fingerprint dev) i s' | (Err _, _) => True end) as Hbeat.
  { intros id s Hb Hk. unfold bind, CpDao.UpdateDeviceHeartbeat. pose proof (same_update TDevice (λ r : Device, bool_decide (d_ID r = id)) s s eq_refl) as H.
    destruct (Updates_ TDevice _ _ s) as [[u|e] s']; [|done]. split; [intros t Ht; by rewrite (H t), Hb|]. unfold known, devices in *. by rewrite (H TDevice). }
  eapply hoare_bind; [exact (hoare_First_none _ TDevice _)|]. intros [d|] s [Hs Hd]; cbn beta iota in Hd.
  - destruct Hd as [Hd Hf%bool_decide_eq_true]. change (devices s !! d_ID d = Some d) in Hd. unfold bind at 1, CpDao.UpdateDevice. cbn [d_ID].
    destruct (Updates_ TDevice _ _ s) as [[u|e] s'] eqn:E; [|done]. apply Updates_law_ in E as [_ [H1 H2]]; [|intros r _; apply device_updates_id].
    apply Hbeat; [intros t Ht; by rewrite H2, (Hs t)|]. eexists. split.
    + etransitivity; [exact (f_equal (λ m : gmap N Device, m !! d_ID d) H1)|]. unfold updated. cbn [row]. rewrite lookup_fmap. change (tbl s TDevice) with (devices s). rewrite Hd. reflexivity.
    + cbn. rewrite bool_decide_eq_true_2 by done. rewrite <- Hf. unfold CpDao.device_updates. by repeat case_bool_decide.
  - unfold bind at 1, CpDao.CreateDevice. destruct (Create_ TDevice _ s) as [[d|e] s'] eqn:E; [|done]. apply Create_law_ in E as [_ (id & Hid & Hn & -> & H1 & H2)].
    apply Hbeat; [intros t Ht; by rewrite H2, (Hs t)|]. eexists. split; [etransitivity; [exact (f_equal (λ m : gmap N Device, m !! id) H1)|]; apply lookup_insert_eq|done].
Qed.
Definition edge_devices (s : DB) : gmap N EdgeDevice := tbl s TEdgeDevice.
Definition is_host (e : N) (r : EdgeDevice) : Prop := ed_EdgeID r = e ∧ ed_Type r = EdgeDeviceRelationHost.
Definition one_host (s : DB) : Prop := ∀ e k1 r1 k2 r2, edge_devices s !! k1 = Some r1 → edge_devices s !! k2 = Some r2 → is_host e r1 → is_host e r2 → k1 = k2.
Definition runs_on (e d : N) (s : DB) : Prop := ∃ k r, edge_devices s !! k = Some r ∧ is_host e r ∧ ed_DeviceID r = d.
Lemma inherit_all l d (s0 : DB) : hoare (λ s, s = s0) (Frontier.each (Frontier.inherit d) l) (λ _ s, besides TRelation (tbl s0) s).
Proof.
  eapply (hoare_pre _ (besides TRelation (tbl s0))); [by intros s ->|]. induction l as [|r l IH]; cbn [Frontier.each]; [by apply hoare_ret|]. eapply hoare_bind; [|intros u; apply IH].
  intros s Hs. unfold Frontier.inherit, CpDao.UpsertIAMResourceRelation. destruct (OnConflictCreate_ _ s) as [[u|e] s'] eqn:E; [|done]. apply OnConflict_law_ in E as [_ H].
  intros t Ht. by rewrite H, Hs.
Qed.
Lemma replace_host e d (s0 : DB) : hoare (λ s, same_tables (tbl s0) (tbl s))
  (CpDao.DeleteEdgeDevicesByEdgeID e (Some EdgeDeviceRelationHost) ;; CpDao.CreateEdgeDevice (mkEdgeDevice 0 e d EdgeDeviceRelationHost) ;; ret tt)
  (λ _ s, besides TEdgeDevice (tbl s0) s ∧ runs_on e d s ∧ (one_host s0 → one_host s)).
Proof.
  intros s Hs. unfold CpDao.DeleteEdgeDevicesByEdgeID, CpDao.CreateEdgeDevice. unfold bind at 1. destruct (Delete_ TEdgeDevice _ s) as [[u|er] s1] eqn:E1; [|done].
  apply Delete_law_ in E1 as [_ [D1 D2]]. unfold bind. destruct (Create_ TEdgeDevice _ s1) as [[r|er] s2] eqn:E2; [|done]. apply Create_law_ in E2 as [_ (id & Hid & Hn & -> & C1 & C2)].
  set (r := mkEdgeDevice id e d EdgeDeviceRelationHost). assert (edge_devices s2 = <[ id := r ]> (edge_devices s1)) as HE by exact C1.
  assert (∀ k r', edge_devices s1 !! k = Some r' → edge_devices s0 !! k = Some r' ∧ ¬ is_host e r') as Hold.
  { intros k r' Hr. assert (edge_devices s1 !! k = match edge_devices s !! k with Some r => if bool_decide (ed_EdgeID r = e) && CpDao.of_type (Some EdgeDeviceRelationHost) r then None else Some r | None => None end) as Hrow.
    { etransitivity; [exact (f_equal (λ m : gmap N EdgeDevice, m !! k) D1)|]. exact (without_at (t := TEdgeDevice) _ (edge_devices s) k). }
    rewrite Hrow in Hr. unfold edge_devices in *. rewrite (Hs TEdgeDevice) in Hr. change (tbl s0 TEdgeDevice) with (edge_devices s0) in *. destruct (edge_devices s0 !! k) as [x|]; [|done].
    destruct (_ && _) eqn:Eb; [done|]. injection Hr as <-. split; [done|]. intros [H1 H2]. apply andb_false_iff in Eb as [Eb%bool_decide_eq_false|Eb]; [done|]. cbn in Eb. by rewrite H2 in Eb. }
  split_and!.
  - intros t Ht. by rewrite C2, D2, (Hs t).
  - exists id, r. rewrite HE, lookup_insert_eq. by split_and!.
  - intros H0 e' k1 r1 k2 r2. rewrite HE. intros H1 H2 I1 I2. destruct (decide (k1 = id)) as [->|N1], (decide (k2 = id)) as [->|N2]; [done|..].
    + rewrite lookup_insert_eq in H1. injection H1 as <-. rewrite lookup_insert_ne in H2 by done. destruct (Hold _ _ H2) as [_ Hno]. destruct I1 as [Ie _]. cbn in Ie. subst e'. done.
    + rewrite lookup_insert_eq in H2. injection H2 as <-. rewrite lookup_insert_ne in H1 by done. destruct (Hold _ _ H1) as [_ Hno]. destruct I2 as [Ie _]. cbn in Ie. subst e'. done.
    + rewrite lookup_insert_ne in H1, H2 by done. eapply H0; [by apply Hold|by apply Hold|done|done].
Qed.
Lemma store_relation_spec e d (s0 : DB) : hoare (λ s, s = s0) (Frontier.store_relation e d)
  (λ _ s, (∀ t, t ≠ TEdgeDevice → t ≠ TRelation → tbl s t = tbl s0 t) ∧ runs_on e d s ∧ (one_host s0 → one_host s)).
Proof.
  unfold Frontier.store_relation, CpDao.GetEdgeDevice. eapply (hoare_pre _ (λ s, same_tables (tbl s0) (tbl s))); [by intros s ->|].
  assert (Tabular (λ s, same_tables (tbl s0) (tbl s))) as HT by (intros s s' H1 H2 t; by rewrite (H1 t)).
  eapply hoare_bind; [exact (hoare_First_none _ TEdgeDevice _)|]. intros o. cbn beta.
  set (M := λ s : DB, besides TEdgeDevice (tbl s0) s ∧ runs_on e d s ∧ (one_host s0 → one_host s)).
  assert (Tabular M) as HM.
  { intros s s' H (M1 & M2 & M3). split; [intros t Ht; by rewrite (H t), M1|]. unfold runs_on, one_host, edge_devices in *. rewrite (H TEdgeDevice). done. }
  eapply (hoare_bind _ _ (λ _, M)).
  - destruct o as [r|]; [|eapply hoare_pre; [|apply replace_host]; by intros s [? _]]. apply hoare_ret. intros s (Hs & Hr & Hp). rewrite !andb_true_iff, !bool_decide_eq_true, Z.eqb_eq in Hp.
    destruct Hp as [[He Hd] Ht]. split; [by intros t _; apply Hs|]. split; [by exists (ed_ID r), r|]. unfold one_host, edge_devices. by rewrite (Hs TEdgeDevice).
  - intros u. unfold CpDao.ListIAMResourceRelations. eapply hoare_bind; [exact (hoare_Find M TRelation _)|]. intros l s [(M1 & M2 & M3) _].
    pose proof (inherit_all l d s s eq_refl) as H. destruct (Frontier.each _ l s) as [[v|er] s']; [|done].
    split; [intros t H1 H2; by rewrite H, M1|]. unfold runs_on, one_host, edge_devices in *. by rewrite (H TEdgeDevice).
Qed.

(** ** A report as a transaction *)
Lemma framed_First t p : framed (DB := DB) (First_ t p).
Proof. intros s. destruct (First_ t p s) as [x s'] eqn:E. by apply First_law_ in E as []. Qed.
Lemma framed_Find t p : framed (DB := DB) (Find_ t p).
Proof. intros s. destruct (Find_ t p s) as [x s'] eqn:E. by apply Find_law_ in E as []. Qed.
Lemma framed_Updates t p f : (∀ r, p r = true → id_of t (f r) = id_of t r) → framed (DB := DB) (Updates_ t p f).
Proof. intros Hf s. destruct (Updates_ t p f s) as [x s'] eqn:E. by apply Updates_law_ in E as []. Qed.
Lemma framed_or_none {A} (m : Op DB A) : framed m → framed (CpDao.or_none m).
Proof. intros Hm s. unfold CpDao.or_none. specialize (Hm s). destruct (m s) as [[a|e] s']; [done|]. by destruct (Is e ErrRecordNotFound). Qed.
Lemma framed_each {A} (f : A → Op DB unit) l : (∀ a, framed (f a)) → framed (Frontier.each f l).
Proof. intros Hf. induction l as [|a l IH]; cbn [Frontier.each]; [apply framed_ret|]. apply framed_bind; [apply Hf|by intros _]. Qed.
Ltac framing := repeat first
  [ apply framed_ret | apply framed_throw | apply framed_bind; [|intros ?] | apply framed_or_none | apply framed_each; intros ?
  | apply framed_Relation
  | match goal with
    | |- framed (First_ ?t ?p) => exact (framed_First t p)
    | |- framed (Find_ ?t ?p) => exact (framed_Find t p)
    | |- framed (Create_ ?t ?r) => exact (framed_Create t r)
    | |- framed (Delete_ ?t ?p) => exact (framed_Delete t p)
    | |- framed (match ?x with _ => _ end) => destruct x
    | |- framed (if ?b then _ else _) => destruct b
    end ].
Lemma framed_store_device dev : framed (DB := DB) (Frontier.store_device dev).
Proof.
  unfold Frontier.store_device, CpDao.GetDeviceByFingerprint, CpDao.CreateDevice, CpDao.UpdateDevice, CpDao.UpdateDeviceHeartbeat.
  framing; apply (framed_Updates TDevice); intros r _; first [apply device_updates_id|done].
Qed.
Lemma framed_store_interfaces d l : framed (DB := DB) (Frontier.store_interfaces d l).
Proof.
  unfold Frontier.store_interfaces, Frontier.store_interface, Frontier.drop_interface, CpDao.GetEthernetInterface, CpDao.CreateEthernetInterface, CpDao.UpdateEthernetInterface,
    CpDao.GetEthernetInterfacesByDeviceID, CpDao.DeleteEthernetInterface. framing. apply (framed_Updates TInterface). by intros [].
Qed.
Lemma framed_store_relation e d : framed (DB := DB) (Frontier.store_relation e d).
Proof.
  unfold Frontier.store_relation, Frontier.inherit, CpDao.GetEdgeDevice, CpDao.DeleteEdgeDevicesByEdgeID, CpDao.CreateEdgeDevice, CpDao.ListIAMResourceRelations,
    CpDao.UpsertIAMResourceRelation. framing.
Qed.
(** Checks change no table, whatever they answer. *)
Lemma registered_spec c (s : DB) : let '(r, s') := Frontier.requireRegisteredEdge c s in same_tables (tbl s) (tbl s') ∧
  match r with Ok e => e = c ∧ c ≠ 0%N ∧ ∃ edge, (tbl s TEdge : gmap N Edge) !! c = Some edge | Err _ => True end.
Proof.
  unfold Frontier.requireRegisteredEdge, CpDao.GetEdge. destruct (N.eqb_spec c 0); [done|]. unfold bind, map_err. destruct (First_ TEdge _ s) as [[r|e] s'] eqn:E;
    apply First_law_ in E as (_ & Hs & E); [|done]. split; [done|]. split_and!; [done|done|]. destruct E as [E Hp%bool_decide_eq_true]. exists r. cbn [id_of] in E. by rewrite <- Hp.
Qed.
Lemma request_spec c p (s : DB) : let '(r, s') := Frontier.requireRequestEdge c p s in same_tables (tbl s) (tbl s') ∧
  match r with Ok e => e = c ∧ c ≠ 0%N ∧ (p = 0%N ∨ p = c) | Err _ => True end.
Proof.
  unfold Frontier.requireRequestEdge. unfold bind at 1. pose proof (registered_spec c s) as H. destruct (Frontier.requireRegisteredEdge c s) as [[e|er] s']; [|done].
  destruct H as (Hs & -> & Hc & _). destruct (N.eqb_spec p 0); [by split_and!; auto|]. cbn [negb andb]. case_bool_decide; by split_and!; auto.
Qed.
Lemma heartbeat_spec e (s : DB) : let '(r, s') := Frontier.updateEdgeHeartbeat e s in r = Ok tt ∧ besides TEdge (tbl s) s' ∧
  ∀ k edge', (tbl s' TEdge : gmap N Edge) !! k = Some edge' → ∃ edge, (tbl s TEdge : gmap N Edge) !! k = Some edge ∧
    (edge' = edge ∨ edge' = edge <| e_Online := EdgeOnlineStatusOnline |>).
Proof.
  unfold Frontier.updateEdgeHeartbeat, CpDao.GetEdge, CpDao.UpdateEdgeOnlineStatus. unfold bind at 1, Frontier.try at 1. destruct (First_ TEdge _ s) as [[r|er] s1] eqn:E;
    apply First_law_ in E as (_ & Hs & _).
  2: { cbn. split_and!; [done|by intros t _; apply Hs|]. intros k edge'. rewrite (Hs TEdge). eauto. }
  destruct (negb _); [|cbn; split_and!; [done|by intros t _; apply Hs|]; intros k edge'; rewrite (Hs TEdge); eauto].
  unfold bind, Frontier.try. destruct (Updates_ TEdge _ _ s1) as [u s2] eqn:E. apply Updates_law_ in E as [_ H]; [|by intros []]. cbn. split; [done|]. destruct u as [u|er].
  - destruct H as [H1 H2]. split; [intros t Ht; by rewrite H2, (Hs t)|]. intros k edge' Hk. rewrite H1, (Hs TEdge) in Hk. unfold updated in Hk. cbn [row] in Hk. rewrite lookup_fmap in Hk.
    destruct ((tbl s TEdge : gmap N Edge) !! k) as [x|] eqn:Ex; [|done]. injection Hk as <-. exists x. split; [done|]. case_bool_decide; auto.
  - split; [intros t _; by rewrite (H t), (Hs t)|]. intros k edge'. rewrite (H TEdge), (Hs TEdge). eauto.
Qed.
Definition body (e : N) (dev : ReportedDevice) : Op DB unit :=
  let! deviceID := Frontier.store_device dev in
  Frontier.store_interfaces deviceID (reported_keys (rd_Interfaces dev)) ;; if N.ltb 0 e then Frontier.store_relation e deviceID else ret tt.
Definition reported_as (e : N) (dev : ReportedDevice) (s s' : DB) : Prop := ∃ id, known (rd_Fingerprint dev) id s' ∧
  (∀ key, key ∈ reported_keys (rd_Interfaces dev) ↔ ∃ k i, interfaces s' !! k = Some i ∧ i_DeviceID i = id ∧ key_of i = key) ∧
  (∀ k i, i_DeviceID i ≠ id → interfaces s' !! k = Some i ↔ interfaces s !! k = Some i) ∧ runs_on e id s' ∧ (one_host s → one_host s').
Lemma body_spec e dev (s0 : DB) : e ≠ 0%N → hoare (λ s, s = s0) (body e dev) (λ _ s, reported_as e dev s0 s).
Proof.
  intros He. unfold body. eapply hoare_bind; [apply store_device_spec|]. intros id s1 [B1 K1]. unfold bind.
  pose proof (store_interfaces_spec id (reported_keys (rd_Interfaces dev)) s1 s1 eq_refl) as H2. destruct (Frontier.store_interfaces id _ s1) as [[u|er] s2]; [|done]. destruct H2 as (B2 & O2 & I2).
  destruct (N.ltb_spec 0 e); [|lia]. pose proof (store_relation_spec e id s2 s2 eq_refl) as H3. destruct (Frontier.store_relation e id s2) as [[v|er] s3]; [|done]. destruct H3 as (B3 & R3 & O3).
  assert (interfaces s3 = interfaces s2) as E3 by exact (B3 TInterface ltac:(done) ltac:(done)). assert (interfaces s1 = interfaces s0) as E1 by exact (B1 TInterface ltac:(done)).
  exists id. split_and!.
  - unfold known, devices in *. by rewrite (B3 TDevice ltac:(done) ltac:(done)), (B2 TDevice ltac:(done)).
  - intros key. by rewrite E3.
  - intros k i Hi. by rewrite E3, O2, E1.
  - done.
  - intros H0. apply O3. unfold one_host, edge_devices in *. by rewrite (B2 TEdgeDevice ltac:(done)), (B1 TEdgeDevice ltac:(done)).
Qed.
(** C31. A connector's report of its device is stored as a whole or not at all: a
    report that is refused has changed no table; one that is accepted came on a
    connection of a registered connector, and afterwards the device with the
    reported fingerprint has exactly the reported interfaces, those of other
    devices are untouched, the connector runs on that device, and a connector
    that ran on one device at most still does. *)
Theorem report_exact c dev (s s' : DB) r : Frontier.reportDevice c dev s = (r, s') →
  match r with
  | Err _ => same_tables (tbl s) (tbl s')
  | Ok _ => c ≠ 0%N ∧ (rd_EdgeID dev = 0%N ∨ rd_EdgeID dev = c) ∧ ∃ id, known (rd_Fingerprint dev) id s' ∧
      (∀ key, key ∈ reported_keys (rd_Interfaces dev) ↔ ∃ k i, interfaces s' !! k = Some i ∧ i_DeviceID i = id ∧ key_of i = key) ∧
      (∀ k i, i_DeviceID i ≠ id → interfaces s' !! k = Some i ↔ interfaces s !! k = Some i) ∧ runs_on c id s' ∧ (one_host s → one_host s')
  end.
Proof.
  unfold Frontier.reportDevice. unfold bind at 1. pose proof (request_spec c (rd_EdgeID dev) s) as H1. destruct (Frontier.requireRequestEdge c _ s) as [[e|er] s1]; [|intros [= <- <-]; apply H1].
  destruct H1 as (Hs1 & -> & Hc & Hp). fold (body c dev). unfold bind at 1.
  assert (framed (body c dev)) as Hf.
  { unfold body. apply framed_bind; [apply framed_store_device|]. intros id. apply framed_bind; [apply framed_store_interfaces|]. intros _. destruct (N.ltb 0 c); [apply framed_store_relation|apply framed_ret]. }
  pose proof (transaction_spec (body c dev) s1 Hf) as Ht. destruct (Resources.in_transaction (body c dev) s1) as [[u|er] s2]; [|intros [= <- <-]; intros t; by rewrite (Ht t), (Hs1 t)].
  destruct Ht as (s3 & Hb & Hs3). pose proof (body_spec c dev (Begin_ s1) Hc (Begin_ s1) eq_refl) as Hspec. rewrite Hb in Hspec.
  pose proof (heartbeat_spec c s2) as Hbeat. destruct (Frontier.updateEdgeHeartbeat c s2) as [r2 s4]. destruct Hbeat as (-> & Hb4 & _). intros [= <- <-].
  split_and!; [done|done|]. destruct Hspec as (id & K & I & O & R & H). exists id.
  destruct (Begin_law_ s1) as [Hbeg _].
  assert (∀ t, t ≠ TEdge → tbl s4 t = tbl s3 t) as E43 by (intros t Ht; by rewrite (Hb4 t Ht), (Hs3 t)).
  assert (∀ t, tbl (Begin_ s1) t = tbl s t) as E0 by (intros t; by rewrite (Hbeg t), (Hs1 t)).
  unfold known, devices, interfaces, runs_on, one_host, edge_devices in *.
  rewrite (E43 TDevice), (E43 TInterface), (E43 TEdgeDevice) by done. rewrite (E0 TInterface), (E0 TEdgeDevice) in *. done.
Qed.

(** ** Tasks *)
Definition tasks (s : DB) : gmap N Task := tbl s TTask.
Lemma task_keyed (s : DB) k t : tasks s !! k = Some t → tk_ID t = k.
Proof. intros H. by apply (tbl_keyed s TTask) in H as []. Qed.
Lemma update_task id (f : Task → Task) (s : DB) : (∀ t, tk_ID (f t) = tk_ID t) → let '(r, s') := Updates_ TTask (λ t : Task, bool_decide (tk_ID t = id)) f s in
  besides TTask (tbl s) s' ∧ ∀ k, tasks s' !! k = (if is_ok r && bool_decide (k = id) then f <$> tasks s !! k else tasks s !! k).
Proof.
  intros Hf. destruct (Updates_ TTask _ f s) as [r s'] eqn:E. apply Updates_law_ in E as [_ H]; [|by intros t _; apply Hf]. destruct r as [u|e]; cbn [is_ok andb].
  - destruct H as [H1 H2]. split; [done|]. intros k. etransitivity; [exact (f_equal (λ m : gmap N Task, m !! k) H1)|]. unfold updated. cbn [row]. rewrite lookup_fmap.
    change (tbl s TTask) with (tasks s). destruct (tasks s !! k) as [t|] eqn:Et; [|by case_bool_decide]. cbn. apply task_keyed in Et. rewrite Et. by case_bool_decide.
  - split; [by intros t _; apply H|]. intros k. by rewrite (H TTask : tasks s' = tasks s).
Qed.
(** What a connector reports about a scan touches only that task, and only
    while it is the connector's own and has not failed: every other row of
    every table stays as it is. *)
Theorem reports_own_tasks c rep (s s' : DB) r : Frontier.reportTaskScanApplication c rep s = (r, s') →
  besides TTask (tbl s) s' ∧
  ∀ k t, tasks s !! k = Some t → tk_EdgeID t ≠ c ∨ tk_Status t = TaskStatusFailed ∨ k ≠ rt_TaskID rep → tasks s' !! k = Some t.
Proof.
  unfold Frontier.reportTaskScanApplication. unfold bind at 1. pose proof (registered_spec c s) as H1.
  destruct (Frontier.requireRegisteredEdge c s) as [[e|er] s1]; destruct H1 as [Hs1 H1]; [|intros [= <- <-]; split; [by intros t _; apply Hs1|intros k t; by rewrite (Hs1 TTask : tasks s1 = tasks s)]].
  destruct H1 as (-> & _ & _). unfold bind, CpDao.GetTask. destruct (First_ TTask _ s1) as [[t0|er] s2] eqn:E; apply First_law_ in E as (_ & Hs2 & E).
  all: assert (tasks s2 = tasks s) as Ht2 by (etransitivity; [exact (Hs2 TTask)|exact (Hs1 TTask)]).
  all: assert (∀ t, tbl s2 t = tbl s t) as Hs by (intros t; by rewrite (Hs2 t), (Hs1 t)).
  all: assert (∀ (x : Result unit) s3, besides TTask (tbl s2) s3 → besides TTask (tbl s) s3) as Hbes by (intros x s3 Hb t Ht; by rewrite (Hb t Ht), Hs).
  2: { intros [= <- <-]. split; [by intros t _; apply Hs|]. intros k t. by rewrite Ht2. }
  destruct E as [E Hid%bool_decide_eq_true]. change Task in t0. assert (tasks s !! rt_TaskID rep = Some t0) as Ht0 by (rewrite <- Hid, <- (Hs1 TTask : tasks s1 = tasks s); exact E).
  case_bool_decide as Hown; cbn [negb]; [|intros [= <- <-]; split; [by intros t _; apply Hs|]; intros k t; by rewrite Ht2].
  destruct (Z.eqb_spec (tk_Status t0) TaskStatusFailed) as [|Hst]; [intros [= <- <-]; split; [by intros t _; apply Hs|]; intros k t; by rewrite Ht2|].
  assert (∀ f (x : Result unit) s3, (∀ t, tk_ID (f t) = tk_ID t) → Updates_ TTask (λ t : Task, bool_decide (tk_ID t = rt_TaskID rep)) f s2 = (x, s3) → besides TTask (tbl s) s3 ∧
    ∀ k t, tasks s !! k = Some t → tk_EdgeID t ≠ c ∨ tk_Status t = TaskStatusFailed ∨ k ≠ rt_TaskID rep → tasks s3 !! k = Some t) as Hup.
  { intros f x s3 Hf Eu. pose proof (update_task (rt_TaskID rep) f s2 Hf) as Hu. rewrite Eu in Hu. destruct Hu as [Hb Hk]. split; [by apply (Hbes x)|]. intros k t Ht Hno.
    rewrite Hk, Ht2, Ht. case_bool_decide as Hkid; [|by rewrite andb_false_r]. subst k. rewrite Ht0 in Ht. injection Ht as <-. naive_solver. }
  unfold CpDao.UpdateTaskResult, CpDao.UpdateTaskError. repeat case_bool_decide; try (apply Hup; by intros []). intros [= <- <-]. split; [by intros t _; apply Hs|]. intros k t. by rewrite Ht2.
Qed.

(** ** Presence *)
Definition stored_edges (s : DB) : gmap N Edge := tbl s TEdge.
Definition connected (s : Frontier.State (DB := DB)) : Prop := ∀ e addr edge, Frontier.fb_edgeConnAddr s !! e = Some addr → stored_edges (Frontier.fb_db s) !! e = Some edge →
  e_Online edge = EdgeOnlineStatusOnline.
Lemma set_online e online (s : DB) : let '(r, s') := CpDao.UpdateEdgeOnlineStatus e online s in
  besides TEdge (tbl s) s' ∧ ∀ k, stored_edges s' !! k = (if is_ok r && bool_decide (k = e) then (λ x, x <| e_Online := online |>) <$> stored_edges s !! k else stored_edges s !! k).
Proof.
  unfold CpDao.UpdateEdgeOnlineStatus. destruct (Updates_ TEdge _ _ s) as [r s'] eqn:E. apply Updates_law_ in E as [_ H]; [|by intros []]. destruct r as [u|er]; cbn [is_ok andb].
  - destruct H as [H1 H2]. split; [done|]. intros k. etransitivity; [exact (f_equal (λ m : gmap N Edge, m !! k) H1)|]. unfold updated. cbn [row]. rewrite lookup_fmap.
    change (tbl s TEdge) with (stored_edges s). destruct (stored_edges s !! k) as [x|] eqn:Ex; [|by case_bool_decide]. cbn.
    assert (e_ID x = k) as -> by (by apply (tbl_keyed s TEdge) in Ex as []). by case_bool_decide.
  - split; [by intros t _; apply H|]. intros k. by rewrite (H TEdge : stored_edges s' = stored_edges s).
Qed.
(** Connections come and go; connectors that are deleted are forgotten; any
    report ends in a heartbeat. *)
Inductive presence_step : relation (Frontier.State (DB := DB)) :=
| step_online e addr s : presence_step s (snd (Frontier.online e addr s))
| step_offline e addr s : presence_step s (snd (Frontier.offline e addr s))
| step_forget e s : presence_step s (snd (Frontier.forgetEdge e s))
| step_heartbeat e s : presence_step s (snd (Frontier.on_repo (Frontier.updateEdgeHeartbeat e) s)).
Lemma heartbeat_connected e s : connected s → connected (snd (Frontier.on_repo (Frontier.updateEdgeHeartbeat e) s)).
Proof.
  intros Hc. unfold Frontier.on_repo. pose proof (heartbeat_spec e (Frontier.fb_db s)) as H. destruct (Frontier.updateEdgeHeartbeat e (Frontier.fb_db s)) as [r db]. cbn.
  intros k addr edge' Hk He. destruct H as (_ & _ & H). destruct (H _ _ He) as (edge & Hedge & [->| ->]); [by eapply Hc|done].
Qed.
Lemma online_connected e addr s : connected s → connected (snd (Frontier.online e addr s)).
Proof.
  intros Hc. unfold Frontier.online. unfold bind at 1, Frontier.on_repo at 1. pose proof (set_online e EdgeOnlineStatusOnline (Frontier.fb_db s)) as H.
  destruct (CpDao.UpdateEdgeOnlineStatus e _ (Frontier.fb_db s)) as [r db]. destruct H as [_ H].
  assert (∀ conns, (∀ k a, conns !! k = Some a → k = e ∧ is_ok r = true ∨ Frontier.fb_edgeConnAddr s !! k = Some a) → connected (Frontier.mkState db conns)) as Hany.
  { intros conns Hsub k a edge Hk He. cbn in Hk, He. rewrite H in He. destruct (is_ok r) eqn:Er; cbn [andb] in He.
    - case_bool_decide as Hke; [destruct (stored_edges (Frontier.fb_db s) !! k); [|done]; by injection He as <-|]. destruct (Hsub _ _ Hk) as [[? _]|?]; [done|by eapply Hc].
    - destruct (Hsub _ _ Hk) as [[_ ?]|?]; [done|by eapply Hc]. }
  destruct r as [u|er]; [|apply Hany; by right]. apply heartbeat_connected, Hany. intros k a. cbn. rewrite lookup_insert_Some. naive_solver.
Qed.
Lemma forget_connected s f : (∀ k a, f (Frontier.fb_edgeConnAddr s) !! k = Some a → Frontier.fb_edgeConnAddr s !! k = Some a) → connected s → connected (snd (Frontier.modify f s)).
Proof. intros Hf Hc k a edge Hk%Hf He. by eapply Hc. Qed.
(** The tasks of a connector that went away fail, one after the other. *)
Definition active (t : Task) : bool := Z.eqb (tk_Status t) TaskStatusPending || Z.eqb (tk_Status t) TaskStatusRunning.
Lemma fail_tasks l (s : DB) : let '(r, s') := Frontier.each (λ t, CpDao.UpdateTaskError (tk_ID t) "edge offline") l s in
  besides TTask (tbl s) s' ∧ ∀ k t', tasks s' !! k = Some t' → ∃ t, tasks s !! k = Some t ∧ tk_EdgeID t' = tk_EdgeID t ∧
    (active t' = true → active t = true ∧ (is_ok r = true → ∀ x, x ∈ l → tk_ID x ≠ k)).
Proof.
  revert s. induction l as [|x l IH]; intros s; cbn [Frontier.each].
  { cbn. split; [done|]. intros k t' Ht. exists t'. split_and!; [done|done|]. intros Ha. split; [done|]. by intros _ x ?%elem_of_nil. }
  unfold bind, CpDao.UpdateTaskError. pose proof (update_task (tk_ID x) (λ t, t <| tk_Error := "edge offline" |> <| tk_Status := TaskStatusFailed |>) s ltac:(by intros [])) as Hu.
  destruct (Updates_ TTask _ _ s) as [[u|e] s1]; destruct Hu as [Hb Hk]; cbn [is_ok andb] in Hk.
  - specialize (IH s1). destruct (Frontier.each _ l s1) as [r s2]. destruct IH as [Hb2 H2]. split; [intros t Ht; by rewrite Hb2, Hb|].
    intros k t' Ht'. destruct (H2 _ _ Ht') as (t1 & Ht1 & He & Ha). rewrite Hk in Ht1. case_bool_decide as Hkx.
    + destruct (tasks s !! k) as [t|] eqn:Et; [|done]. injection Ht1 as <-. exists t. split_and!; [done|by rewrite He|]. intros Hact. by destruct (Ha Hact) as [? _].
    + exists t1. split_and!; [done|done|]. intros Hact. destruct (Ha Hact) as [? Hno]. split; [done|]. intros Hok y [->|Hy]%elem_of_cons; [congruence|by apply Hno].
  - split; [done|]. intros k t' Ht'. rewrite Hk in Ht'. exists t'. by split_and!.
Qed.
Lemma offline_unfold e addr s : Frontier.shouldApplyEdgeOffline e addr (Frontier.fb_edgeConnAddr s) = true → connected s →
  let '(r, s') := Frontier.offline e addr s in connected s' ∧
  (is_ok r = true → Frontier.fb_edgeConnAddr s' !! e = None ∧ (∀ edge, stored_edges (Frontier.fb_db s') !! e = Some edge → e_Online edge = EdgeOnlineStatusOffline) ∧
     ∀ k t, tasks (Frontier.fb_db s') !! k = Some t → tk_EdgeID t = e → active t = false).
Proof.
  intros Hsh Hc. unfold Frontier.offline. rewrite Hsh. cbn [negb]. unfold bind at 1, Frontier.on_repo at 1. pose proof (set_online e EdgeOnlineStatusOffline (Frontier.fb_db s)) as H.
  destruct (CpDao.UpdateEdgeOnlineStatus e _ (Frontier.fb_db s)) as [[u|er] db]; destruct H as [Hb H]; cbn [is_ok andb] in H.
  2: { split; [|done]. intros k a edge Hk Hedge. cbn in *. rewrite H in Hedge. by eapply Hc. }
  set (conns := Frontier.fb_edgeConnAddr s) in *. unfold bind at 1, Frontier.forgetEdgeConn at 1, Frontier.modify at 1. cbn [Frontier.fb_db Frontier.fb_edgeConnAddr].
  set (conns' := if bool_decide (default "" (conns !! e) = addr) then delete e conns else conns).
  assert (conns' !! e = None) as Hnone.
  { unfold conns', Frontier.shouldApplyEdgeOffline in *. destruct (conns !! e) as [cur|] eqn:Ec; [|case_bool_decide; [apply lookup_delete_eq|done]].
    apply bool_decide_eq_true in Hsh as ->. cbn. rewrite bool_decide_eq_true_2 by done. apply lookup_delete_eq. }
  assert (∀ db', stored_edges db' = stored_edges db → connected (Frontier.mkState db' conns')) as Hconn.
  { intros db' E k a edge Hk Hedge. cbn in Hk, Hedge. rewrite E, H in Hedge. case_bool_decide as Hke; [congruence|]. eapply Hc; [|exact Hedge].
    unfold conns' in Hk. case_bool_decide; [by rewrite lookup_delete_ne in Hk|done]. }
  unfold bind, Frontier.on_repo, CpDao.ListTasks. cbn [Frontier.fb_db Frontier.fb_edgeConnAddr]. destruct (Find_ TTask _ db) as [[l|er] db1] eqn:El; apply Find_law_ in El as (_ & Hs1 & El).
  2: { split; [|done]. apply Hconn. exact (Hs1 TEdge). }
  change (list Task) in l. cbn [Frontier.fb_db Frontier.fb_edgeConnAddr]. pose proof (fail_tasks l db1) as Hf.
  destruct (Frontier.each (λ t, CpDao.UpdateTaskError (tk_ID t) "edge offline") l db1) as [r db2]. destruct Hf as [Hb2 Hf].
  assert (stored_edges db2 = stored_edges db) as E2 by (etransitivity; [exact (Hb2 TEdge ltac:(done))|exact (Hs1 TEdge)]). split; [by apply Hconn|]. intros Hok. cbn. split_and!; [done| |].
  - intros edge. rewrite E2, H, bool_decide_eq_true_2 by done. destruct (stored_edges (Frontier.fb_db s) !! e); [|done]. by intros [= <-].
  - intros k t Ht Hte. destruct (active t) eqn:Ha; [|done]. exfalso. destruct (Hf _ _ Ht) as (t1 & Ht1 & Hte1 & Hact). destruct (Hact Ha) as [Ha1 Hno].
    rewrite (Hs1 TTask : tasks db1 = tasks db) in Ht1. pose proof (task_keyed _ _ _ Ht1) as Hk. apply (Hno Hok t1); [|done]. apply El. split; [cbn [id_of]; by rewrite Hk|].
    apply andb_true_iff. split; [|apply orb_true_iff; right; apply bool_decide_eq_true; congruence]. apply bool_decide_eq_true. unfold active in Ha1.
    apply orb_true_iff in Ha1 as [Ha1%Z.eqb_eq|Ha1%Z.eqb_eq]; rewrite Ha1; [by left|right; by left].
Qed.
Lemma offline_connected e addr s : connected s → connected (snd (Frontier.offline e addr s)).
Proof.
  intros Hc. destruct (Frontier.shouldApplyEdgeOffline e addr (Frontier.fb_edgeConnAddr s)) eqn:Hsh; [|unfold Frontier.offline; by rewrite Hsh].
  pose proof (offline_unfold e addr s Hsh Hc) as H. destruct (Frontier.offline e addr s) as [r s']. apply H.
Qed.
(** C32. A connector the manager holds a connection of is online, through any
    sequence of connections, disconnections and heartbeats in which any query
    may fail; the end of a connection that has been replaced changes nothing,
    and after the end of the current one the connector is offline, without a
    connection and without a task that waits for it. *)
Theorem connected_online s0 s : rtc presence_step s0 s → Frontier.fb_edgeConnAddr s0 = ∅ →
  (∀ e addr edge, Frontier.fb_edgeConnAddr s !! e = Some addr → stored_edges (Frontier.fb_db s) !! e = Some edge → e_Online edge = EdgeOnlineStatusOnline) ∧
  (∀ e addr current, Frontier.fb_edgeConnAddr s !! e = Some current → current ≠ addr → Frontier.offline e addr s = (Ok tt, s)) ∧
  (∀ e addr s', Frontier.shouldApplyEdgeOffline e addr (Frontier.fb_edgeConnAddr s) = true → Frontier.offline e addr s = (Ok tt, s') →
     Frontier.fb_edgeConnAddr s' !! e = None ∧ (∀ edge, stored_edges (Frontier.fb_db s') !! e = Some edge → e_Online edge = EdgeOnlineStatusOffline) ∧
     ∀ k t, tasks (Frontier.fb_db s') !! k = Some t → tk_EdgeID t = e → active t = false).
Proof.
  intros Hsteps H0. assert (connected s) as Hc.
  { assert (connected s0) as Hc0 by (intros e addr edge; by rewrite H0, lookup_empty). clear H0. induction Hsteps as [s|s s1 s2 Hstep _ IH]; [done|]. apply IH. clear IH.
    destruct Hstep; [by apply online_connected|by apply offline_connected|apply forget_connected; [|done]|by apply heartbeat_connected].
    intros k a. rewrite lookup_delete_Some. tauto. }
  split_and!; [done| |].
  - intros e addr cur Hcur Hne. unfold Frontier.offline, Frontier.shouldApplyEdgeOffline. by rewrite Hcur, bool_decide_eq_false_2.
  - intros e addr s' Hsh E. pose proof (offline_unfold e addr s Hsh Hc) as H. rewrite E in H. by apply H.
Qed.
End Frontier.

(** ** A connector and its machine *)
Definition one_edge : CpDB := snd (CpDao.CreateEdge (mkEdge 0 "office" EdgeStatusRunning EdgeOnlineStatusOffline "") empty_cp).
Definition laptop : ReportedDevice := mkReportedDevice "fp-1" "laptop" [mkReportedInterface "eth0" "aa:bb" [mkIPMask "10.0.0.5" "255.255.255.0"]] 1.
Definition wired : interfaceKey := mkKey "10.0.0.5" "255.255.255.0" "eth0" "aa:bb".
Definition moved : ReportedDevice := mkReportedDevice "fp-1" "laptop" [mkReportedInterface "wlan0" "cc:dd" [mkIPMask "10.0.1.9" "255.255.255.0"]] 1.
Definition after_laptop : CpDB := snd (Frontier.reportDevice 1 laptop one_edge).
Lemma report_exact_witness : Frontier.reportDevice 1 moved after_laptop = (Ok tt, snd (Frontier.reportDevice 1 moved after_laptop)) ∧
  ∃ id, known "fp-1" id (snd (Frontier.reportDevice 1 moved after_laptop)) ∧
    ¬ ∃ k i, interfaces (snd (Frontier.reportDevice 1 moved after_laptop)) !! k = Some i ∧ i_DeviceID i = id ∧ key_of i = wired.
Proof.
  assert (Frontier.reportDevice 1 moved after_laptop = (Ok tt, snd (Frontier.reportDevice 1 moved after_laptop))) as E by (by vm_compute). split; [done|].
  destruct (report_exact 1 moved after_laptop _ _ E) as (_ & _ & id & Hk & Hi & _). exists id. split; [done|]. intros H%Hi. revert H. apply (bool_decide_eq_false (wired ∈ _)). by vm_compute.
Defined.
Definition scanned : CpDB := snd (CpDao.CreateTask (mkTask 0 1 TaskStatusPending (mkScanParams ["10.0.0.5"] 0 "tcp") [] "") one_edge).
Definition scan_report : TaskReport := mkTaskReport 1 "running" [mkScanned "10.0.0.5" 22 "tcp"] "".
Lemma reports_own_tasks_witness : fst (Frontier.reportTaskScanApplication 1 scan_report scanned) = Ok tt ∧
  (∀ k t, tasks scanned !! k = Some t → tk_EdgeID t ≠ 2%N ∨ tk_Status t = TaskStatusFailed ∨ k ≠ 1%N →
     tasks (snd (Frontier.reportTaskScanApplication 2 scan_report scanned)) !! k = Some t).
Proof.
  split; [by vm_compute|]. assert (Frontier.reportTaskScanApplication 2 scan_report scanned =
    (fst (Frontier.reportTaskScanApplication 2 scan_report scanned), snd (Frontier.reportTaskScanApplication 2 scan_report scanned))) as E by (by vm_compute).
  exact (proj2 (reports_own_tasks 2 scan_report scanned _ _ E)).
Defined.
Definition first_up : Frontier.State := snd (Frontier.online 1 "203.0.113.7:4001" (Frontier.mkState scanned ∅)).
Definition reconnected : Frontier.State := snd (Frontier.online 1 "203.0.113.7:4002" first_up).
Lemma connected_online_witness : Frontier.offline 1 "203.0.113.7:4001" reconnected = (Ok tt, reconnected) ∧
  ∀ edge, stored_edges (Frontier.fb_db reconnected) !! 1%N = Some edge → e_Online edge = EdgeOnlineStatusOnline.
Proof.
  destruct (connected_online (Frontier.mkState scanned ∅) reconnected) as (H1 & H2 & _).
  { eapply rtc_l; [apply (step_online 1 "203.0.113.7:4001")|]. apply rtc_once. apply (step_online 1 "203.0.113.7:4002"). }
  { done. }
  split; [apply (H2 1%N "203.0.113.7:4001" "203.0.113.7:4002"); [by vm_compute|done]|]. intros edge. apply (H1 1%N "203.0.113.7:4002"). by vm_compute.
Defined.
