(* ===== verification/ControlTheorems.v ===== *)
(** * Properties of the control plane

    Over any database and machine that keep the laws of their interfaces, and
    any sequence of calls of the manager: every listener is backed by what is
    stored; deletions remove what depends on what they delete and leave nothing
    behind; the two cascades end. *)

From S2P Require Import Prelude Sha256 Utf8 ToolTypes IamDao IamDatabase ControlDao NetAddr Firewall EntryPlanes ControlPlane ControlResources ControlInvariant ControlBacked ControlHandlers ControlRows ControlCascade ControlDelete Frontier ControlDatabase FrontierTheorems.
Import Control.

(** The calls that change something. *)
Inductive call :=
| CallCreateProxy (actor : option N) (req : CreateProxyRequest) | CallUpdateProxy (actor : option N) (req : UpdateProxyRequest)
| CallDeleteProxy (actor : option N) (id : N)
| CallUpsertFirewall (actor : option N) (id : N) (cidrs : list string) | CallDeleteFirewall (actor : option N) (id : N)
| CallCreateApplication (actor : option N) (req : CreateApplicationRequest) | CallUpdateApplication (actor : option N) (req : UpdateApplicationRequest)
| CallDeleteApplication (actor : option N) (id : N)
| CallCreateEdge (actor : option N) (name description : string) | CallUpdateEdge (actor : option N) (req : UpdateEdgeRequest)
| CallDeleteEdge (fuel : nat) (actor : option N) (id : N)
| CallUpdateDevice (actor : option N) (req : UpdateDeviceRequest) | CallDeleteDevice (fuel : nat) (actor : option N) (id : N)
| CallScan (actor : option N) (req : ScanRequest) | CallExpire (task : N)
| CallRestoreRules | CallReconcile | CallRestoreListeners
| CallReportDevice (edge : N) (device : ReportedDevice) | CallReportTask (edge : N) (report : TaskReport) | CallPresence (edge : N) (online : Z).

Section Theorems.
Context {DB : Type} {i_iam : IamGorm DB} {i_cp : CpGorm DB} {l_cp : CpGormLaws DB} {l_frame : AccountQueries DB}.
Context {OS : Type} {i_os : Machine OS} {l_os : MachineLaws OS}.
Context (ToLower : string → string) (certs : list (string * string)) (Parse : string → Result URL) (conf : ManagerConf).
#[local] Abbreviation W := (World DB OS).
#[local] Abbreviation C A := (Op W A).

Definition run (c : call) (w : W) : W :=
  match c with
  | CallCreateProxy actor req => snd (CreateProxy ToLower certs actor req w)
  | CallUpdateProxy actor req => snd (UpdateProxy ToLower certs actor req w)
  | CallDeleteProxy actor id => snd (DeleteProxy actor id w)
  | CallUpsertFirewall actor id cidrs => snd (UpsertProxyFirewall actor id cidrs w)
  | CallDeleteFirewall actor id => snd (DeleteProxyFirewall actor id w)
  | CallCreateApplication actor req => snd (Resources.CreateApplication ToLower actor req w)
  | CallUpdateApplication actor req => snd (Resources.UpdateApplication actor req w)
  | CallDeleteApplication actor id => snd (DeleteApplication actor id w)
  | CallCreateEdge actor name description => snd (Resources.CreateEdge ToLower Parse conf actor name description w)
  | CallUpdateEdge actor req => snd (UpdateEdge certs actor req w)
  | CallDeleteEdge fuel actor id => snd (DeleteEdge fuel actor id w)
  | CallUpdateDevice actor req => snd (Resources.UpdateDevice actor req w)
  | CallDeleteDevice fuel actor id => snd (DeleteDevice fuel actor id w)
  | CallScan actor req => snd (Resources.CreateEdgeScanApplicationTask ToLower actor req w)
  | CallExpire task => snd (Resources.expire_task task w)
  | CallRestoreRules => snd (RestoreFirewallRules w)
  | CallReconcile => snd (ReconcileLifecycleState w)
  | CallRestoreListeners => snd (RestoreProxyListeners certs w)
  | CallReportDevice edge device => snd (on_db (Frontier.reportDevice edge device) w)
  | CallReportTask edge report => snd (on_db (Frontier.reportTaskScanApplication edge report) w)
  | CallPresence edge online => snd (on_db (CpDao.UpdateEdgeOnlineStatus edge online) w)
  end.
(** From a process that has just started, over whatever is stored. *)
Definition reachable_from (w0 w : W) : Prop := wd_planes w0 = Unified.NewEntry ∧ ∃ calls, w = fold_left (λ w c, run c w) calls w0.

(** ** Deletions *)
Lemma looks_ret {A} (a : A) : looks (ret a : Op DB A).
Proof. done. Qed.
Lemma looks_throw {A} e : looks (throw e : Op DB A).
Proof. done. Qed.
Lemma looks_bind {A B} (m : Op DB A) (k : A → Op DB B) : looks m → (∀ a, looks (k a)) → looks (bind m k).
Proof. intros Hm Hk s t Ht. unfold bind. specialize (Hm s t Ht). destruct (m s) as [[a|e] s1]; [|done]. cbn in Hm. by rewrite <- Hm, Hk. Qed.
Lemma looks_or_none {A} (m : Op DB A) : looks m → looks (Repo.or_nil m).
Proof. intros Hm s t Ht. unfold Repo.or_nil. specialize (Hm s t Ht). destruct (m s) as [[a|e] s1]; [done|]. by destruct (Is e ErrRecordNotFound). Qed.
Lemma looks_visible actor ty id : looks (requireVisibleResource (DB := DB) actor ty id).
Proof.
  unfold requireVisibleResource, visibleResourceIDs, isRootAdministrator, Repo.GetRootOrganization, Repo.GetIAMRoleBinding, CpDao.ListIAMResourceIDsForSubject.
  apply looks_bind; [|intros [l|]; [case_bool_decide|]; [apply looks_ret|apply looks_throw|apply looks_ret]]. destruct actor; [|apply looks_ret]. apply looks_bind.
  - apply looks_bind; [apply looks_or_none; intros s t _; apply First_frame|]. intros [root|]; [|apply looks_ret].
    apply looks_bind; [apply looks_or_none; intros s t _; apply First_frame|]. intros b. apply looks_ret.
  - intros []; [apply looks_ret|]. apply looks_bind; [|intros; apply looks_ret]. apply looks_bind; [exact (looks_Find TRelation _)|]. intros l. apply looks_ret.
Qed.
Lemma sweep_check (P : W → Prop) {i_P : Lasting P} actor ty id : sweep P (on_db (requireVisibleResource actor ty id) : C unit) (λ _, P).
Proof. apply sweep_looks; [done|apply looks_visible]. Qed.
Lemma sweep_relations (P : W → Prop) {i_P : Lasting P} ty id : sweep P (on_db (CpDao.DeleteIAMResourceRelations ty id) : C unit)
  (λ _ w, P w ∧ none TRelation (λ r, r_ResourceType r = ty ∧ r_ResourceID r = id) w).
Proof.
  apply (sweep_remove P TRelation _ (λ r, r_ResourceType r = ty ∧ r_ResourceID r = id)); [done|]. intros r [H1 H2]. apply andb_true_iff. split; by apply bool_decide_eq_true.
Qed.
(** What every deletion does around its cascade. *)
Lemma sweep_handler {A} (found : Op DB A) (cascade : Tracker → C Tracker) (bad : bool) er f actor ty id (Q : W → Prop) : Lasting Q → looks found →
  sweep (at_work newLifecycleDeleteTracker) (cascade newLifecycleDeleteTracker) (λ _, Q) →
  sweep backed_up (if bad then throw er else
    on_db (requireVisibleResource actor ty id) ;; map_err f (on_db found) ;; cascade newLifecycleDeleteTracker ;; on_db (CpDao.DeleteIAMResourceRelations ty id))
    (λ _ w, Q w ∧ none TRelation (λ r, r_ResourceType r = ty ∧ r_ResourceID r = id) w).
Proof.
  intros HQ Hf Hc. destruct bad; [apply sweep_throw|]. eapply sweep_bind; [apply (sweep_check backed_up)|]. intros u. eapply sweep_bind; [apply sweep_map_err; by apply (sweep_looks backed_up)|]. intros x.
  eapply sweep_bind; [eapply sweep_pre; [|exact Hc]|]; [|intros tr; by apply sweep_relations]. intros w Hb. by split.
Qed.
Lemma looks_device id : looks (CpDao.GetDeviceByID (DB := DB) id).
Proof.
  unfold CpDao.GetDeviceByID, CpDao.GetEthernetInterfacesByDeviceID. apply looks_bind; [exact (looks_First TDevice _)|]. intros d. apply looks_bind; [exact (looks_Find TInterface _)|].
  intros l. apply looks_ret.
Qed.
#[local] Instance lasting_cleared e : Lasting (cleared (DB := DB) (OS := OS) e).
Proof. repeat apply lasting_and; apply _. Qed.
#[local] Instance lasting_no_device p : Lasting (none (DB := DB) (OS := OS) TDevice p).
Proof. by apply lasting_none. Qed.
#[local] Instance lasting_no_interface p : Lasting (none (DB := DB) (OS := OS) TInterface p).
Proof. by apply lasting_none. Qed.
#[local] Instance lasting_removed d : Lasting (removed (DB := DB) (OS := OS) d).
Proof. repeat apply lasting_and; apply _. Qed.
Lemma sweep_DeleteEdge fuel actor id : sweep backed_up (DeleteEdge fuel actor id : C unit)
  (λ _ w, cleared id w ∧ none TRelation (λ r, r_ResourceType r = "connector" ∧ r_ResourceID r = id) w).
Proof.
  unfold DeleteEdge. apply (sweep_handler (CpDao.GetEdge id) (deleteEdgeCascade fuel id)); [apply _|exact (looks_First TEdge _)|].
  eapply sweep_post; [apply cascades|]. intros tr w (_ & _ & H). apply H. cbn. apply not_elem_of_empty.
Qed.
Lemma sweep_DeleteDevice fuel actor id : sweep backed_up (DeleteDevice fuel actor id : C unit)
  (λ _ w, removed id w ∧ none TRelation (λ r, r_ResourceType r = "device" ∧ r_ResourceID r = id) w).
Proof.
  unfold DeleteDevice. apply (sweep_handler (CpDao.GetDeviceByID id) (deleteDeviceCascade fuel id)); [apply _|apply looks_device|].
  eapply sweep_post; [apply cascades|]. intros tr w (_ & _ & H). apply H. cbn. apply not_elem_of_empty.
Qed.
Lemma sweep_DeleteApplication actor id : sweep backed_up (DeleteApplication actor id : C unit)
  (λ _ w, applications w !! id = None ∧ none TRelation (λ r, r_ResourceType r = "application" ∧ r_ResourceID r = id) w).
Proof.
  unfold DeleteApplication. apply (sweep_handler (CpDao.GetApplicationByID id) (deleteApplicationCascade id)); [apply _|exact (looks_First TApplication _)|].
  eapply sweep_post; [apply step_application|]. by intros tr w (_ & _ & H).
Qed.
Lemma sweep_DeleteProxyHandler actor id : sweep backed_up (DeleteProxy actor id : C unit)
  (λ _ w, accesses w !! id = None ∧ none TRelation (λ r, r_ResourceType r = "access" ∧ r_ResourceID r = id) w).
Proof.
  unfold DeleteProxy. apply (sweep_handler (CpDao.GetProxyByID id) (deleteProxyCascade id)); [apply _|exact (looks_First TAccess _)|].
  eapply sweep_pre; [|eapply sweep_post; [apply step_proxy|]]; [by intros w []|by intros tr w (_ & _ & H)].
Qed.
Lemma sweep_keeps {A} (m : C A) Q (w : W) : sweep backed_up m Q → backed_up w → swept w (snd (m w)).
Proof. intros Hm Hb. specialize (Hm w Hb). by destruct (m w) as [r w'], Hm. Qed.

(** ** Reports *)
(** Calls of connectors change nothing of accesses, applications and the
    status of connectors. *)
Definition harmless {A} (m : Op DB A) : Prop := ∀ s, tbl (snd (m s)) TAccess = tbl s TAccess ∧ tbl (snd (m s)) TApplication = tbl s TApplication ∧
  ∀ k (e : Edge), (tbl s TEdge : gmap N Edge) !! k = Some e → ∃ e' : Edge, (tbl (snd (m s)) TEdge : gmap N Edge) !! k = Some e' ∧ e_Status e' = e_Status e.
Lemma harmless_reads {A} (m : Op DB A) : reads m → harmless m.
Proof. intros Hm s. split_and!; [by apply Hm..|]. intros k e He. exists e. by rewrite (Hm s TEdge eq_refl). Qed.
Lemma harmless_bind {A B} (m : Op DB A) (k : A → Op DB B) : harmless m → (∀ a, harmless (k a)) → harmless (bind m k).
Proof.
  intros Hm Hk s. unfold bind. destruct (Hm s) as (X1 & A1 & E1). destruct (m s) as [[a|e] s1]; [|done]. destruct (Hk a s1) as (X2 & A2 & E2). cbn [snd] in *.
  split_and!; [congruence|congruence|]. intros i x Hx. destruct (E1 _ _ Hx) as (y & Hy & Sy). destruct (E2 _ _ Hy) as (z & Hz & Sz). exists z. split; [done|congruence].
Qed.
Lemma harmless_online e v : harmless (CpDao.UpdateEdgeOnlineStatus (DB := DB) e v).
Proof.
  intros s. unfold CpDao.UpdateEdgeOnlineStatus. destruct (Updates_ TEdge _ _ s) as [r s'] eqn:E. apply Updates_law_ in E as [_ H]; [|by intros []]. cbn [snd]. destruct r as [u|er].
  - destruct H as [H1 H2]. split_and!; [by apply H2..|]. intros k x Hx. eexists. split.
    + etransitivity; [exact (f_equal (λ m : gmap N Edge, m !! k) H1)|]. unfold updated. cbn [row]. rewrite lookup_fmap, Hx. reflexivity.
    + cbn. by case_bool_decide.
  - split_and!; [apply H..|]. intros k x Hx. exists x. by rewrite (H TEdge).
Qed.
Lemma harmless_try {A} (m : Op DB A) : harmless m → harmless (Frontier.try m).
Proof. intros Hm s. unfold Frontier.try. specialize (Hm s). by destruct (m s). Qed.
Lemma reads_frontier_each {A} (f : A → Op DB unit) l : (∀ a, reads (f a)) → reads (Frontier.each f l).
Proof. intros Hf. induction l as [|a l IH]; cbn [Frontier.each]; [apply cp_reads_ret|]. apply cp_reads_bind; [apply Hf|by intros _]. Qed.
Lemma cp_reads_map_err {A} f (m : Op DB A) : reads m → reads (map_err f m).
Proof. intros Hm s t Ht. unfold map_err. specialize (Hm s t Ht). by destruct (m s) as [[a|e] s']. Qed.
Lemma reads_transaction {A} (m : Op DB A) : framed m → reads m → reads (Resources.in_transaction m).
Proof.
  intros Hf Hm s t Ht. pose proof (transaction_spec m s Hf) as H. destruct (Resources.in_transaction m s) as [[a|e] s']; cbn [snd]; [|apply H].
  destruct H as (s1 & E & Hs). rewrite (Hs t). specialize (Hm (Begin_ s) t Ht). rewrite E in Hm. cbn in Hm. rewrite Hm. by apply Begin_law_.
Qed.
Lemma reads_registered c : reads (Frontier.requireRegisteredEdge (DB := DB) c).
Proof. unfold Frontier.requireRegisteredEdge, CpDao.GetEdge. destruct (N.eqb c 0); [reading|]. apply cp_reads_bind; [apply cp_reads_map_err; reading|]. intros e. reading. Qed.
Lemma harmless_heartbeat e : harmless (Frontier.updateEdgeHeartbeat (DB := DB) e).
Proof.
  unfold Frontier.updateEdgeHeartbeat. apply harmless_bind; [apply harmless_try, harmless_reads; unfold CpDao.GetEdge; reading|]. intros [edge|er]; [|apply harmless_reads; reading].
  destruct (negb _); [|apply harmless_reads; reading]. apply harmless_bind; [apply harmless_try, harmless_online|]. intros r. apply harmless_reads. reading.
Qed.
Lemma reads_body e dev : reads (body (DB := DB) e dev).
Proof.
  unfold body, Frontier.store_device, CpDao.GetDeviceByFingerprint, CpDao.CreateDevice, CpDao.UpdateDeviceHeartbeat. apply cp_reads_bind.
  - apply cp_reads_bind; [reading|]. intros [d|]; (apply cp_reads_bind; [|intros ?; apply cp_reads_bind; [apply (reads_Updates TDevice); [done|by intros []]|intros _; reading]]); [apply reads_UpdateDevice|reading].
  - intros id. apply cp_reads_bind.
    + unfold Frontier.store_interfaces, Frontier.store_interface, Frontier.drop_interface, CpDao.GetEthernetInterface, CpDao.CreateEthernetInterface, CpDao.UpdateEthernetInterface,
        CpDao.GetEthernetInterfacesByDeviceID, CpDao.DeleteEthernetInterface. apply cp_reads_bind; [|intros _; apply cp_reads_bind; [reading|]; intros l]; apply reads_frontier_each; intros k; reading.
    + intros _. destruct (N.ltb 0 e); [|reading]. unfold Frontier.store_relation, Frontier.inherit, CpDao.GetEdgeDevice, CpDao.DeleteEdgeDevicesByEdgeID, CpDao.CreateEdgeDevice,
        CpDao.ListIAMResourceRelations, CpDao.UpsertIAMResourceRelation. apply cp_reads_bind; [reading|]. intros o. apply cp_reads_bind; [reading|]. intros _.
      apply cp_reads_bind; [reading|]. intros l. apply reads_frontier_each. intros r. reading.
Qed.
Lemma framed_body e dev : framed (body (DB := DB) e dev).
Proof.
  unfold body. apply framed_bind; [apply framed_store_device|]. intros id. apply framed_bind; [apply framed_store_interfaces|]. intros _.
  destruct (N.ltb 0 e); [apply framed_store_relation|apply framed_ret].
Qed.
Lemma harmless_reportDevice c dev : harmless (Frontier.reportDevice (DB := DB) c dev).
Proof.
  unfold Frontier.reportDevice. apply harmless_bind.
  - apply harmless_reads. unfold Frontier.requireRequestEdge. apply cp_reads_bind; [apply reads_registered|]. intros e. reading.
  - intros e. fold (body e dev). apply harmless_bind; [apply harmless_reads, reads_transaction; [apply framed_body|apply reads_body]|]. intros _. apply harmless_heartbeat.
Qed.
Lemma harmless_reportTask c rep : harmless (Frontier.reportTaskScanApplication (DB := DB) c rep).
Proof.
  apply harmless_reads. unfold Frontier.reportTaskScanApplication, CpDao.GetTask, CpDao.UpdateTaskResult, CpDao.UpdateTaskError. apply cp_reads_bind; [apply reads_registered|]. intros e. reading.
Qed.
Lemma harmless_keeps {A} (m : Op DB A) (w : W) : harmless m → backed_up w → backed_up (snd (on_db m w)).
Proof.
  intros Hm Hb. unfold on_db. destruct (Hm (wd_db w)) as (HX & HA & HE). destruct (m (wd_db w)) as [r db]. cbn [snd] in *. apply (edge_changed w); [done|done|exact HX|exact HA|].
  intros e edge He Hst. right. destruct (HE e edge He) as (edge' & He' & Hs). exists edge'. split; [exact He'|congruence].
Qed.

(** ** Listeners *)
Lemma safe_keeps {A} (m : C A) (w : W) : safe backed_up m (λ _, backed_up) → backed_up w → backed_up (snd (m w)).
Proof. intros Hm Hb. specialize (Hm w Hb). by destruct (m w) as [[]]. Qed.
Lemma quiet_keeps {A} (m : C A) (w : W) : quiet m → backed_up w → backed_up (snd (m w)).
Proof. intros Hm. by apply stable_backed. Qed.
Lemma run_keeps c w : backed_up w → backed_up (run c w).
Proof.
  intros Hb. destruct c; cbn [run].
  - by apply safe_keeps; [apply safe_CreateProxy|].
  - by apply safe_keeps; [apply safe_UpdateProxy|].
  - eapply swept_backed; [|exact Hb]. by eapply sweep_keeps; [apply sweep_DeleteProxyHandler|].
  - by apply quiet_keeps; [apply quiet_upsert_rule|].
  - by apply quiet_keeps; [apply quiet_delete_rule|].
  - by apply safe_keeps; [apply safe_CreateApplication|].
  - by apply safe_keeps; [apply safe_UpdateApplication|].
  - eapply swept_backed; [|exact Hb]. by eapply sweep_keeps; [apply sweep_DeleteApplication|].
  - by apply safe_keeps; [apply safe_CreateEdge|].
  - by apply safe_keeps; [apply safe_UpdateEdge|].
  - eapply swept_backed; [|exact Hb]. by eapply sweep_keeps; [apply sweep_DeleteEdge|].
  - by apply quiet_keeps; [apply quiet_UpdateDevice|].
  - eapply swept_backed; [|exact Hb]. by eapply sweep_keeps; [apply sweep_DeleteDevice|].
  - by apply quiet_keeps; [apply quiet_scan|].
  - by apply quiet_keeps; [apply quiet_expire|].
  - by apply quiet_keeps; [apply quiet_rules|].
  - by apply safe_keeps; [apply safe_ReconcileLifecycleState|].
  - by apply safe_keeps; [apply safe_RestoreProxyListeners|].
  - by apply harmless_keeps; [apply harmless_reportDevice|].
  - by apply harmless_keeps; [apply harmless_reportTask|].
  - by apply harmless_keeps; [apply harmless_online|].
Qed.
Lemma fresh_sound : sound Unified.NewEntry.
Proof. apply EntryPlanes.reachable_sound. apply rtc_refl. Qed.
Lemma reachable_backed w0 w : reachable_from w0 w → backed_up w.
Proof.
  intros [Hp [calls ->]]. assert (backed_up w0) as Hb.
  { split; [rewrite Hp; apply fresh_sound|]. intros pl id port. unfold at_port. rewrite Hp. by destruct pl. }
  clear Hp. revert w0 Hb. induction calls as [|c calls IH]; intros w0 Hb; [done|]. cbn. apply IH. by apply run_keeps.
Qed.
(** C27. Through any sequence of calls, start-up included, whichever queries
    fail and whatever ports the machine hands out: a listener of the data
    planes belongs to an access that is stored and switched on, has that
    access's port (or the access is stored without one), serves a protocol that
    needs a public port, on the plane of that protocol and on no other, and the
    access's application and its connector are stored, the connector enabled. *)
Theorem listeners_backed w0 w : reachable_from w0 w → ∀ pl id port, listeners pl (wd_planes w) !! id = Some port →
  (∃ x a e es edge, id = Z.of_N (x_ID x) ∧ accesses w !! x_ID x = Some x ∧ x_Status x = ProxyStatusRunning ∧ (x_Port x = port ∨ x_Port x = 0%Z) ∧
     accessProtocolRequiresPublicPort (effectiveAccessProtocol x a) = true ∧ plane_of (effectiveAccessProtocol x a) = Some pl ∧
     applications w !! x_ApplicationID x = Some a ∧ a_EdgeIDs a = e :: es ∧ edges w !! e = Some edge ∧ e_Status edge = EdgeStatusRunning) ∧
  ∀ pl' port', listeners pl' (wd_planes w) !! id = Some port' → pl' = pl ∧ port' = port.
Proof.
  intros [_ Hb]%reachable_backed pl id port Hl.
  destruct (Hb _ _ _ Hl ltac:(tauto)) as (x & a & -> & Hx & Hport & Ha & (Hr & Hpub & e & es & edge & He & Hedge & Hst) & Hpl). split; [by exists x, a, e, es, edge|].
  intros pl' port' Hl'. destruct (Hb _ _ _ Hl' ltac:(tauto)) as (x' & a' & Hid & Hx' & _ & Ha' & _ & Hpl'). assert (x_ID x' = x_ID x) as E by lia. rewrite E in Hx'.
  assert (x' = x) as -> by congruence. assert (a' = a) as -> by congruence. assert (pl' = pl) as -> by congruence. split; congruence.
Qed.

(** ** What deletions leave *)
Definition deletion (c : call) : bool :=
  match c with CallDeleteProxy _ _ | CallDeleteApplication _ _ | CallDeleteEdge _ _ _ | CallDeleteDevice _ _ _ => true | _ => false end.
Lemma deletion_swept c w : deletion c = true → backed_up w → swept w (run c w).
Proof.
  intros Hc Hb. destruct c; try done; cbn [run]; by eapply sweep_keeps; [first [apply sweep_DeleteProxyHandler|apply sweep_DeleteApplication|apply sweep_DeleteEdge|apply sweep_DeleteDevice]|].
Qed.
(** C29. Deleting an access, an application, a connector or a device only ever
    removes rows, of whatever table, tasks apart, and closes listeners; and
    whichever step fails, it leaves no orphan: if every access had its
    application and every rule and stored credential its access before, they
    have them afterwards. *)
Theorem deletions_leave_no_orphans w0 w c : reachable_from w0 w → deletion c = true → let w' := run c w in
  (∀ t k r, t ≠ TTask → rows_of w' t !! k = Some r → rows_of w t !! k = Some r) ∧
  (∀ pl id port, listeners pl (wd_planes w') !! id = Some port → listeners pl (wd_planes w) !! id = Some port) ∧
  (whole w → whole w').
Proof. intros Hb%reachable_backed Hc. destruct (deletion_swept c w Hc Hb) as [H1 H2 H3 _]. split_and!; [exact H1|exact H2|exact H3]. Qed.

(** ** Deletions end *)
Definition pairs (w : W) : list EdgeDevice := (map_to_list (rows_of w TEdgeDevice)).*2.
(** The connectors, or devices, a cascade can reach besides those of [extra]. *)
Definition mentioned (f : EdgeDevice → N) (extra : list N) (w : W) : gset N := list_to_set (extra ++ map f (pairs w)).
Lemma pairs_in k r (w : W) : rows_of w TEdgeDevice !! k = Some r → r ∈ pairs w.
Proof. intros H. apply list_elem_of_fmap. exists (k, r). split; [done|]. by apply elem_of_map_to_list. Qed.
Lemma within_all xe xd (w : W) : within (mentioned ed_EdgeID xe w) (mentioned ed_DeviceID xd w) w.
Proof.
  intros k r Hr. apply pairs_in in Hr. intros Hno. apply Hno. unfold mentioned. rewrite !elem_of_list_to_set, !elem_of_app.
  split; right; apply list_elem_of_fmap; by exists r.
Qed.
Lemma size_of_list (l : list N) : size (list_to_set l : gset N) ≤ length l.
Proof.
  induction l as [|x l IH]; [by rewrite list_to_set_nil, size_empty|]. rewrite list_to_set_cons, size_union_alt, size_singleton. cbn [length].
  pose proof (subseteq_size ((list_to_set l : gset N) ∖ {[ x ]}) (list_to_set l) ltac:(set_solver)). lia.
Qed.
Lemma size_mentioned f extra (w : W) : size (mentioned f extra w) ≤ length extra + size (rows_of w TEdgeDevice).
Proof.
  unfold mentioned. etransitivity; [apply size_of_list|]. rewrite length_app, length_map. unfold pairs. rewrite length_fmap. by rewrite length_map_to_list.
Qed.
Lemma empty_left xe xd (w : W) : left_over (mentioned ed_EdgeID xe w) (mentioned ed_DeviceID xd w) newLifecycleDeleteTracker ≤
  length xe + length xd + 2 * size (rows_of w TEdgeDevice).
Proof. unfold left_over, newLifecycleDeleteTracker. cbn [tr_edges tr_devices]. rewrite !difference_empty_L. pose proof (size_mentioned ed_EdgeID xe w). pose proof (size_mentioned ed_DeviceID xd w). lia. Qed.
Lemma agree_handler {A} (E0 D0 : gset N) (found : Op DB A) (c1 c2 : Tracker → C Tracker) (bad : bool) er f actor ty id : looks found →
  agree (busy E0 D0 newLifecycleDeleteTracker) (c1 newLifecycleDeleteTracker) (c2 newLifecycleDeleteTracker) →
  agree (λ w, backed_up w ∧ within E0 D0 w)
    (if bad then throw er else
       on_db (requireVisibleResource actor ty id) ;; map_err f (on_db found) ;; c1 newLifecycleDeleteTracker ;; on_db (CpDao.DeleteIAMResourceRelations ty id) : C unit)
    (if bad then throw er else
       on_db (requireVisibleResource actor ty id) ;; map_err f (on_db found) ;; c2 newLifecycleDeleteTracker ;; on_db (CpDao.DeleteIAMResourceRelations ty id)).
Proof.
  intros Hf Hc. destruct bad; [done|]. set (P := λ w : W, backed_up w ∧ within E0 D0 w). assert (Lasting P) as HP by (apply lasting_and; [apply _|by apply lasting_none]).
  eapply agree_bind; [done|apply (sweep_check P)|]. intros u. eapply agree_bind; [done|apply sweep_map_err; by apply (sweep_looks P)|]. intros x w [Hb Hw]. unfold bind. rewrite Hc; [done|].
  by split; [split|].
Qed.
(** C30. The cascades of connectors and devices, which call each other, end: from
    a depth of two more than twice the number of relations between connectors
    and devices, a deletion answers and does the same however deep calls may
    nest. *)
Theorem deletions_terminate w0 w fuel more actor id : reachable_from w0 w → 2 + 2 * size (rows_of w TEdgeDevice) ≤ fuel →
  DeleteEdge (fuel + more) actor id w = DeleteEdge fuel actor id w ∧ DeleteDevice (fuel + more) actor id w = DeleteDevice fuel actor id w.
Proof.
  intros Hb%reachable_backed Hfuel. induction more as [|more [IH1 IH2]]; [by rewrite Nat.add_0_r|]. rewrite Nat.add_succ_r. split; [rewrite <- IH1|rewrite <- IH2]; symmetry.
  - apply (agree_handler (mentioned ed_EdgeID [id] w) (mentioned ed_DeviceID [] w) (CpDao.GetEdge id)); [exact (looks_First TEdge _)| |split; [done|apply within_all]].
    intros w1 H1. apply (more_fuel (mentioned ed_EdgeID [id] w) (mentioned ed_DeviceID [] w) (fuel + more)); [apply elem_of_list_to_set; by left| |done].
    pose proof (empty_left [id] [] w). cbn [length] in *. lia.
  - apply (agree_handler (mentioned ed_EdgeID [] w) (mentioned ed_DeviceID [id] w) (CpDao.GetDeviceByID id)); [apply looks_device| |split; [done|apply within_all]].
    intros w1 H1. apply (more_fuel (mentioned ed_EdgeID [] w) (mentioned ed_DeviceID [id] w) (fuel + more)); [apply elem_of_list_to_set; by left| |done].
    pose proof (empty_left [] [id] w). cbn [length] in *. lia.
Qed.
End Theorems.

(** ** An installation *)
Definition demo_parse (s : string) : Result URL := Ok (mkURL "https" "liaison.example" false "" "" "" "liaison.example" s).
Definition demo_conf : ManagerConf := mkManagerConf "liaison.example" true "0.0.0.0:443" 0.
Definition started_up : World CpDB unit := mkWorld empty_cp Unified.NewEntry tt.
Abbreviation demo_run := (run (DB := CpDB) (OS := unit) (λ s, s) [] demo_parse demo_conf).
Definition set_up : list call :=
  [CallCreateEdge None "office" ""; CallCreateApplication None (mkCreateApplication "shell" "" "10.0.0.5" 22 "ssh" 1 None);
   CallCreateProxy None (mkCreateProxy "door" "" 1 0 "ssh" true); CallReportDevice 1 (mkReportedDevice "fp-1" "laptop" [] 1)].
Definition demo_world : World CpDB unit := fold_left (λ w c, demo_run c w) set_up started_up.
Lemma installed_reachable : reachable_from (λ s, s) [] demo_parse demo_conf started_up demo_world.
Proof. split; [reflexivity|]. exists set_up. unfold demo_world. reflexivity. Qed.
Lemma listeners_backed_witness : listeners PSsh (wd_planes demo_world) !! 1%Z = Some 20000%Z ∧ ∃ x, accesses demo_world !! 1%N = Some x ∧ x_Status x = ProxyStatusRunning.
Proof.
  assert (listeners PSsh (wd_planes demo_world) !! 1%Z = Some 20000%Z) as Hl by (by vm_compute). split; [exact Hl|].
  destruct (listeners_backed (λ s, s) [] demo_parse demo_conf started_up demo_world installed_reachable PSsh 1 20000 Hl) as [(x & a & e & es & edge & Hid & Hx & Hr & _) _].
  exists x. assert (x_ID x = 1%N) as E by lia. rewrite E in Hx. exact (conj Hx Hr).
Defined.
(** A check of [whole]: every row of a table satisfies [p]. *)
Definition every (t : tag) (p : row t → bool) (w : World CpDB unit) : bool := forallb p (map_to_list (rows_of w t)).*2.
Lemma every_row t p w k r : every t p w = true → rows_of w t !! k = Some r → p r = true.
Proof.
  unfold every. rewrite forallb_forall. intros H Hr. apply H, list_elem_of_In, list_elem_of_fmap. exists (k, r). split; [done|]. by apply elem_of_map_to_list.
Qed.
Definition stored_access (w : World CpDB unit) (id : N) : bool := bool_decide (is_Some (accesses w !! id)).
Definition whole_check (w : World CpDB unit) : bool :=
  every TAccess (λ x : Access, bool_decide (is_Some (applications w !! x_ApplicationID x))) w && every TRule (λ r : ProxyFirewallRule, stored_access w (f_ProxyID r)) w &&
  forallb (λ kind, every (TSecret kind) (λ r : Secret, stored_access w (s_ProxyID r)) w) [WebSSHHostKey; WebSSHCredential; WebDesktopCredential; WebDataCredential].
Lemma whole_checked w : whole_check w = true → whole w.
Proof.
  unfold whole_check. rewrite !andb_true_iff. intros [[H1 H2] H3]. rewrite forallb_forall in H3. split; [|intros k r Hr|intros kind k r Hr].
  - intros k x Hx. exact (bool_decide_eq_true_1 _ (every_row TAccess _ _ _ _ H1 Hx)).
  - exact (bool_decide_eq_true_1 _ (every_row TRule _ _ _ _ H2 Hr)).
  - refine (bool_decide_eq_true_1 _ (every_row (TSecret kind) _ _ _ _ (H3 kind _) Hr)). destruct kind; cbn; tauto.
Qed.
Lemma demo_whole : whole demo_world.
Proof. apply whole_checked. vm_compute. reflexivity. Qed.
Definition after_delete : World CpDB unit := snd (DeleteEdge 4 None 1 demo_world).
Lemma deletions_leave_no_orphans_witness : is_Some (accesses demo_world !! 1%N) ∧ whole (run (DB := CpDB) (OS := unit) (λ s, s) [] demo_parse demo_conf (CallDeleteApplication None 1) demo_world).
Proof.
  split; [vm_compute; eexists; reflexivity|].
  exact (proj2 (proj2 (deletions_leave_no_orphans (λ s, s) [] demo_parse demo_conf started_up demo_world (CallDeleteApplication None 1) installed_reachable eq_refl)) demo_whole).
Defined.
Lemma demo_delete : DeleteEdge 4 None 1 demo_world = (Ok tt, after_delete).
Proof. unfold after_delete. assert (fst (DeleteEdge 4 None 1 demo_world) = Ok tt) as H by (vm_compute; reflexivity). rewrite <- H. apply surjective_pairing. Qed.
Lemma deletions_terminate_witness : 2 + 2 * size (rows_of demo_world TEdgeDevice) ≤ 4 ∧ DeleteEdge (4 + 96) None 1 demo_world = DeleteEdge 4 None 1 demo_world.
Proof.
  assert (2 + 2 * size (rows_of demo_world TEdgeDevice) ≤ 4) as H by (vm_compute; repeat constructor). split; [exact H|].
  exact (proj1 (deletions_terminate (λ s, s) [] demo_parse demo_conf started_up demo_world 4 96 None 1 installed_reachable H)).
Defined.
