(* ===== verification/DataConsoleText.v ===== *)
(** * web: the texts the data console reads

    [webdata_http.go]: Redis command lines, the first word of an SQL statement,
    quoted identifiers, connection parameters, the client's address, paths of
    requests, what an audit keeps of a statement.  [strings.ToLower] and
    [strings.ToUpper] are parameters; every other function of the standard
    library that is used is written out.  A command line printed argument by
    argument is read back as those arguments, the empty ones left out. *)

From S2P Require Import Prelude Sha256 Utf8 ToolTypes ToolDisclosure NetAddr.
From Stdlib Require Import Lia ZifyN ZifyBool.

(** ** Runes *)
Definition rune := option N.
Definition is_rune (r : rune) (c : N) : bool := bool_decide (r = Some c).
(** [unicode.IsSpace] *)
Definition IsSpace (r : rune) : bool :=
  match r with
  | None => false
  | Some r => Utf8.within 9 13 r || Utf8.within 8192 8202 r || bool_decide (r ∈ [32; 133; 160; 5760; 8232; 8233; 8239; 8287; 12288]%N)
  end.
Definition scalar (r : N) : Prop := (r ≤ 1114111)%N ∧ ¬ (55296 ≤ r ≤ 57343)%N.

(** What is decoded from the encoding of a code point is that code point. *)
Lemma checked (n : nat) (p : N → bool) : forallb p (map N.of_nat (seq 0 n)) = true → ∀ x, (x < N.of_nat n)%N → p x = true.
Proof.
  rewrite forallb_forall. intros H x Hx. apply H, in_map_iff. exists (N.to_nat x). split; [lia|]. apply in_seq. lia.
Qed.
Ltac by_check n := let x := fresh in let H := fresh in intros x H; apply N.eqb_eq; revert x H; apply (checked n); vm_compute; reflexivity.
Lemma or_192 : ∀ x, (x < 32)%N → N.lor 192 x = (192 + x)%N. Proof. by_check 32. Qed.
Lemma or_224 : ∀ x, (x < 16)%N → N.lor 224 x = (224 + x)%N. Proof. by_check 16. Qed.
Lemma or_240 : ∀ x, (x < 8)%N → N.lor 240 x = (240 + x)%N. Proof. by_check 8. Qed.
Lemma or_128 : ∀ x, (x < 64)%N → N.lor 128 x = (128 + x)%N. Proof. by_check 64. Qed.
Lemma and_31 : ∀ x, (x < 32)%N → N.land (192 + x) 31 = x. Proof. by_check 32. Qed.
Lemma and_15 : ∀ x, (x < 16)%N → N.land (224 + x) 15 = x. Proof. by_check 16. Qed.
Lemma and_7 : ∀ x, (x < 8)%N → N.land (240 + x) 7 = x. Proof. by_check 8. Qed.
Lemma and_63 : ∀ x, (x < 64)%N → N.land (128 + x) 63 = x. Proof. by_check 64. Qed.
Lemma low6_mod r : Utf8.low6 r = (r `mod` 64)%N. Proof. exact (N.land_ones r 6). Qed.
Lemma shiftr_div r n : N.shiftr r n = (r / 2 ^ n)%N. Proof. apply N.shiftr_div_pow2. Qed.
Lemma digits r : (r = 64 * (r / 64) + r `mod` 64 ∧ r `mod` 64 < 64)%N.
Proof. split; [apply N.div_mod'|by apply N.mod_lt]. Qed.
Lemma decode_2 x y rest : (2 ≤ x < 32 → y < 64 → Utf8.runes_of (192 + x :: 128 + y :: rest) = Some (64 * x + y) :: Utf8.runes_of rest)%N.
Proof.
  intros Hx Hy. cbn [Utf8.runes_of]. unfold Utf8.low6, Utf8.cont, Utf8.within. rewrite (proj2 (N.ltb_ge (192 + x) 128)) by lia.
  rewrite !(proj2 (N.leb_le _ _)) by lia. cbn [andb]. by rewrite and_31, and_63 by lia.
Qed.
Lemma decode_3 x y z rest : (x < 16 → y < 64 → z < 64 → (x = 0 → 32 ≤ y) → (x = 13 → y < 32) →
  Utf8.runes_of (224 + x :: 128 + y :: 128 + z :: rest) = Some (4096 * x + 64 * y + z) :: Utf8.runes_of rest)%N.
Proof.
  intros Hx Hy Hz H0 H13. cbn [Utf8.runes_of]. rewrite (proj2 (N.ltb_ge (224 + x) 128)) by lia. unfold Utf8.low6, Utf8.second, Utf8.cont, Utf8.within.
  rewrite (proj2 (N.leb_gt (224 + x) 223)), andb_false_r by lia. cbn [andb]. rewrite and_15, !and_63 by lia.
  rewrite (proj2 (N.leb_le 224 (224 + x))), (proj2 (N.leb_le (224 + x) 239)), (proj2 (N.leb_le 128 (128 + z))), (proj2 (N.leb_le (128 + z) 191)) by lia.
  destruct (N.eqb_spec (224 + x) 224), (N.eqb_spec (224 + x) 237), (N.eqb_spec (224 + x) 240), (N.eqb_spec (224 + x) 244); try lia;
    rewrite !(proj2 (N.leb_le _ _)) by lia; done.
Qed.
Lemma decode_4 x y z u rest : (x < 5 → y < 64 → z < 64 → u < 64 → (x = 0 → 16 ≤ y) → (x = 4 → y < 16) →
  Utf8.runes_of (240 + x :: 128 + y :: 128 + z :: 128 + u :: rest) = Some (262144 * x + 4096 * y + 64 * z + u) :: Utf8.runes_of rest)%N.
Proof.
  intros Hx Hy Hz Hu H0 H4. cbn [Utf8.runes_of]. rewrite (proj2 (N.ltb_ge (240 + x) 128)) by lia. unfold Utf8.low6, Utf8.second, Utf8.cont, Utf8.within.
  rewrite (proj2 (N.leb_gt (240 + x) 223)), (proj2 (N.leb_gt (240 + x) 239)), !andb_false_r by lia. cbn [andb]. rewrite and_7, !and_63 by lia.
  rewrite (proj2 (N.leb_le 240 (240 + x))), (proj2 (N.leb_le (240 + x) 244)), (proj2 (N.leb_le 128 (128 + z))), (proj2 (N.leb_le (128 + z) 191)),
    (proj2 (N.leb_le 128 (128 + u))), (proj2 (N.leb_le (128 + u) 191)) by lia.
  destruct (N.eqb_spec (240 + x) 224), (N.eqb_spec (240 + x) 237), (N.eqb_spec (240 + x) 240), (N.eqb_spec (240 + x) 244); try lia;
    rewrite !(proj2 (N.leb_le _ _)) by lia; done.
Qed.
Lemma decode_rune r rest : scalar r → Utf8.runes_of (Utf8.encode_rune (Some r) ++ rest) = Some r :: Utf8.runes_of rest.
Proof.
  intros [Hr Hs]. unfold Utf8.encode_rune. assert (Utf8.within 55296 57343 r || N.ltb 1114111 r = false) as ->.
  { unfold Utf8.within. apply orb_false_iff. rewrite andb_false_iff, N.leb_gt, N.leb_gt, N.ltb_ge. lia. }
  destruct (N.ltb_spec r 128) as [H1|H1]; [cbn [app Utf8.runes_of]; by rewrite (proj2 (N.ltb_lt r 128))|].
  rewrite !low6_mod, !shiftr_div. change (2 ^ 6)%N with 64%N. change (2 ^ 12)%N with (64 * 64)%N. change (2 ^ 18)%N with (64 * 64 * 64)%N. rewrite <- !N.Div0.div_div.
  destruct (digits r) as [E1 L1], (digits (r / 64)) as [E2 L2], (digits (r / 64 / 64)) as [E3 L3].
  set (r1 := (r / 64)%N) in *. set (r2 := (r1 / 64)%N) in *. set (r3 := (r2 / 64)%N) in *. set (d0 := (r `mod` 64)%N) in *. set (d1 := (r1 `mod` 64)%N) in *. set (d2 := (r2 `mod` 64)%N) in *.
  clearbody r1 r2 r3 d0 d1 d2. destruct (N.ltb_spec r 2048); [|destruct (N.ltb_spec r 65536)]; cbn [app].
  - rewrite or_192, or_128 by lia. rewrite decode_2 by lia. do 2 f_equal. lia.
  - rewrite or_224, !or_128 by lia. rewrite decode_3 by lia. do 2 f_equal. lia.
  - rewrite or_240, !or_128 by lia. rewrite decode_4 by lia. do 2 f_equal. lia.
Qed.
Lemma encoded_bytes r : Forall (λ b, (b < 256)%N) (Utf8.encode_rune r).
Proof.
  unfold Utf8.encode_rune. set (c := match r with Some r => _ | None => _ end). assert (c ≤ 1114111)%N as Hc.
  { subst c. destruct r as [r|]; [|lia]. destruct (_ || _) eqn:E; [lia|]. apply orb_false_iff in E as [_ E%N.ltb_ge]. lia. }
  rewrite !low6_mod, !shiftr_div. change (2 ^ 6)%N with 64%N. change (2 ^ 12)%N with 4096%N. change (2 ^ 18)%N with 262144%N.
  pose proof (N.mod_lt c 64 ltac:(done)). pose proof (N.mod_lt (c / 64) 64 ltac:(done)). pose proof (N.mod_lt (c / 4096) 64 ltac:(done)).
  destruct (N.ltb_spec c 128); [repeat constructor; lia|]. destruct (N.ltb_spec c 2048); [|destruct (N.ltb_spec c 65536)].
  - pose proof (N.Div0.div_lt_upper_bound c 64 32 ltac:(lia)). rewrite or_192, or_128 by lia. repeat constructor; lia.
  - pose proof (N.Div0.div_lt_upper_bound c 4096 16 ltac:(lia)). rewrite or_224, !or_128 by lia. repeat constructor; lia.
  - pose proof (N.Div0.div_lt_upper_bound c 262144 8 ltac:(lia)). rewrite or_240, !or_128 by lia. repeat constructor; lia.
Qed.
Lemma runes_string (l : list N) : Forall scalar l → Utf8.runes (Utf8.string_of_runes (map Some l)) = map Some l.
Proof.
  intros Hl. unfold Utf8.runes, Utf8.string_of_runes, Utf8.bytes_of. rewrite String.list_ascii_of_string_of_list_ascii, map_map, map_ext_in with (g := λ b, b), map_id.
  - induction Hl as [|r l Hr Hl IH]; [done|]. cbn [map]. change (mjoin (Utf8.encode_rune (Some r) :: map Utf8.encode_rune (map Some l))) with (Utf8.encode_rune (Some r) ++ mjoin (map Utf8.encode_rune (map Some l))).
    by rewrite decode_rune, IH.
  - intros b Hb. apply N_ascii_embedding. apply list_elem_of_In in Hb. apply list_elem_of_join in Hb as (bs & Hb & Hbs). apply list_elem_of_In, in_map_iff in Hbs as (r & <- & _).
    pose proof (encoded_bytes r) as He. rewrite Forall_forall in He. by apply He.
Qed.

(** ** Redis command lines *)
(** The loop of [parseRedisCommand]: what is left, the arguments so far, the
    one being read, the open quote, whether the last rune was a backslash. *)
Fixpoint redis_scan (l : list rune) (parts : list (list rune)) (current : list rune) (quote : option N) (escaped : bool) :
    list (list rune) * list rune * option N * bool :=
  match l with
  | [] => (parts, current, quote, escaped)
  | r :: l' =>
      if escaped then redis_scan l' parts (current ++ [r]) quote false
      else match quote with
           | Some q =>
               if is_rune r 92 then redis_scan l' parts current quote true
               else if is_rune r q then redis_scan l' parts current None false
               else redis_scan l' parts (current ++ [r]) quote false
           | None =>
               if is_rune r 39 || is_rune r 34 then redis_scan l' parts current r false
               else if IsSpace r then
                 match current with [] => redis_scan l' parts [] None false | _ => redis_scan l' (parts ++ [current]) [] None false end
               else redis_scan l' parts (current ++ [r]) None false
           end
  end.
Definition parse_runes (l : list rune) : Result (list (list rune)) :=
  match redis_scan l [] [] None false with
  | (parts, current, None, false) =>
      match parts ++ match current with [] => [] | _ => [current] end with
      | [] => Err (ENew "请输入 Redis 命令")
      | parts => Ok parts
      end
  | _ => Err (ENew "命令引号或转义不完整")
  end.
Definition parseRedisCommand (input : string) : Result (list string) :=
  match parse_runes (Utf8.runes input) with Ok parts => Ok (map Utf8.string_of_runes parts) | Err e => Err e end.

(** A reference printer: every argument between double quotes. *)
Definition escape (r : N) : list N := if N.eqb r 34 || N.eqb r 92 then [92; r]%N else [r].
Definition print_argument (a : list N) : list N := 34%N :: concat (map escape a) ++ [34]%N.
Definition print_command (args : list (list N)) : string := Utf8.string_of_runes (map Some (concat (map (λ a, print_argument a ++ [32]%N) args))).

Lemma scan_quoted a rest parts current : redis_scan (map Some (concat (map escape a) ++ [34]%N) ++ rest) parts current (Some 34%N) false =
  redis_scan rest parts (current ++ map Some a) None false.
Proof.
  revert current. induction a as [|r a IH]; intros current; [by rewrite app_nil_r|]. cbn [map concat]. unfold escape at 1.
  assert (is_rune (Some 92%N) 92 = true) as H92 by (by apply bool_decide_eq_true). destruct (N.eqb_spec r 34) as [->|Hq]; [|destruct (N.eqb_spec r 92) as [->|Hb]];
    cbn [orb app map redis_scan]; rewrite ?H92; [rewrite IH, <- app_assoc; done..|].
  unfold is_rune. rewrite !bool_decide_eq_false_2 by congruence. rewrite IH, <- app_assoc. done.
Qed.
Lemma scan_argument a rest parts : redis_scan (map Some (print_argument a ++ [32]%N) ++ rest) parts [] None false =
  redis_scan rest (parts ++ match a with [] => [] | _ => [map Some a] end) [] None false.
Proof.
  unfold print_argument. cbn [app map redis_scan]. assert (is_rune (Some 34%N) 39 || is_rune (Some 34%N) 34 = true) as -> by done.
  rewrite map_app, <- app_assoc, scan_quoted. cbn [map app redis_scan]. assert (is_rune (Some 32%N) 39 || is_rune (Some 32%N) 34 = false) as -> by done.
  assert (IsSpace (Some 32%N) = true) as -> by done. destruct a as [|r a]; [by rewrite app_nil_r|done].
Qed.
Definition filled (args : list (list N)) : list (list N) := List.filter (λ a, negb (bool_decide (a = []))) args.
Lemma scan_command args parts : redis_scan (map Some (concat (map (λ a, print_argument a ++ [32]%N) args))) parts [] None false =
  (parts ++ map (map Some) (filled args), [], None, false).
Proof.
  revert parts. induction args as [|a args IH]; intros parts; [by rewrite app_nil_r|]. cbn [map concat]. rewrite map_app, scan_argument, IH, <- app_assoc.
  cbn [filled List.filter]. by destruct a.
Qed.
Ltac scalars := repeat first [apply Forall_nil_2|apply Forall_cons_2]; try done; unfold scalar; lia.
Lemma escape_scalar r : scalar r → Forall scalar (escape r).
Proof. intros Hr. unfold escape. destruct (_ || _); scalars. Qed.
Lemma printed_scalars args : Forall (Forall scalar) args → Forall scalar (concat (map (λ a, print_argument a ++ [32]%N) args)).
Proof.
  induction 1 as [|a args Ha Hargs IH]; [constructor|]. cbn [map concat]. apply Forall_app. split; [|done]. unfold print_argument. cbn [app]. constructor; [unfold scalar; lia|].
  rewrite <- app_assoc. apply Forall_app. split; [|scalars]. clear Hargs IH. induction Ha as [|r a Hr Ha IH]; [constructor|]. cbn [map concat].
  apply Forall_app. split; [by apply escape_scalar|done].
Qed.
(** C36. What the console sends to Redis is what was written: a command printed
    with every argument quoted and quotes and backslashes escaped is read back
    as those arguments, of whatever Unicode text, in order; only the empty
    ones are left out, and a command with nothing else is refused. *)
Theorem redis_command_roundtrip args : Forall (Forall scalar) args →
  parseRedisCommand (print_command args) =
    match filled args with [] => Err (ENew "请输入 Redis 命令") | parts => Ok (map (λ a, Utf8.string_of_runes (map Some a)) parts) end.
Proof.
  intros Ha. unfold parseRedisCommand, print_command. rewrite runes_string by (by apply printed_scalars). unfold parse_runes. rewrite scan_command, app_nil_r, app_nil_l.
  destruct (filled args) as [|a l]; [done|]. cbn [map]. by rewrite map_map.
Qed.
Lemma redis_command_roundtrip_witness : Forall (Forall scalar) [[83; 69; 84]; [107; 34; 8364]; []]%N ∧
  parseRedisCommand (print_command [[83; 69; 84]; [107; 34; 8364]; []]%N) = Ok (map (λ a, Utf8.string_of_runes (map Some a)) [[83; 69; 84]; [107; 34; 8364]]%N).
Proof.
  assert (Forall (Forall scalar) [[83; 69; 84]; [107; 34; 8364]; []]%N) as H by scalars.
  split; [exact H|exact (redis_command_roundtrip _ H)].
Defined.

(** ** SQL statements *)
(** What follows the first occurrence of [sep]. *)
Fixpoint after (sep s : string) : option string :=
  if String.prefix sep s then Some (drop_string (String.length sep) s) else match s with EmptyString => None | String _ s' => after sep s' end.
Definition bom : string := str_of [239; 187; 191].
Definition newline : string := str_of [10].
(** Comments in front of a statement; each turn takes at least two bytes off. *)
Fixpoint skip_comments (fuel : nat) (statement : string) : option string :=
  match fuel with
  | O => None
  | S fuel' =>
      if HasPrefix statement "--" then match after newline statement with None => Some "" | Some rest => skip_comments fuel' (TrimSpace rest) end
      else if HasPrefix statement "/*" then match after "*/" statement with None => Some "" | Some rest => skip_comments fuel' (TrimSpace rest) end
      else Some statement
  end.
Fixpoint first_word (s : string) : string :=
  if existsb (λ p, String.prefix p s) ("(" :: ";" :: space_encodings) then "" else match s with EmptyString => "" | String c s' => String c (first_word s') end.
Definition TrimPrefix (s p : string) : string := if HasPrefix s p then drop_string (String.length p) s else s.
Definition firstSQLWord (statement : string) : string :=
  let statement := TrimPrefix (TrimSpace statement) bom in
  first_word (default "" (skip_comments (S (String.length statement)) statement)).
Definition sqlStatementReturnsRows (ToLower : string → string) (statement : string) : bool :=
  Contains (ToLower statement) " returning " ||
  bool_decide (ToLower (firstSQLWord statement) ∈ ["select"; "show"; "describe"; "desc"; "explain"; "with"; "values"; "table"]).
Lemma drop_le n s : String.length (drop_string n s) ≤ String.length s.
Proof. revert s. induction n as [|n IH]; intros [|c s]; cbn; [done..|]. specialize (IH s). lia. Qed.
Lemma rev_string_length s : String.length (rev_string s) = String.length s.
Proof.
  assert (∀ l, String.length (String.string_of_list_ascii l) = length l) as Hl by (intros l; induction l as [|c l IH]; [done|cbn; by rewrite IH]).
  unfold rev_string. rewrite Hl, length_rev. induction s as [|c s IH]; [done|]. cbn. by rewrite IH.
Qed.
Lemma trim_le fuel ps s : String.length (trim_prefixes fuel ps s) ≤ String.length s.
Proof.
  revert s. induction fuel as [|fuel IH]; intros s; cbn; [done|]. destruct (List.find _ ps) as [p|]; [|done]. etransitivity; [apply IH|apply drop_le].
Qed.
Lemma TrimSpace_length s : String.length (TrimSpace s) ≤ String.length s.
Proof. unfold TrimSpace. rewrite rev_string_length. etransitivity; [apply trim_le|]. rewrite rev_string_length. apply trim_le. Qed.
(** Trimming a trimmed string changes nothing. *)
Lemma found_none {A} (p : A → bool) l : List.find p l = None ↔ ∀ x, x ∈ l → p x = false.
Proof.
  split; [intros H x Hx%list_elem_of_In; by apply (List.find_none p l)|]. intros H. destruct (List.find p l) eqn:E; [|done]. apply find_some in E as [Hx%list_elem_of_In E]. by rewrite H in E.
Qed.
Lemma drop_lt p s : p ≠ "" → String.prefix p s = true → String.length (drop_string (String.length p) s) < String.length s.
Proof. destruct p as [|c p], s as [|d s]; try done. intros _ _. cbn. pose proof (drop_le (String.length p) s). lia. Qed.
Lemma trim_stops fuel ps s : (∀ p, p ∈ ps → p ≠ "") → String.length s ≤ fuel → List.find (λ p, String.prefix p (trim_prefixes fuel ps s)) ps = None.
Proof.
  intros Hps. revert s. induction fuel as [|fuel IH]; intros s Hs; cbn.
  - destruct s; [|cbn in Hs; lia]. apply found_none. intros p Hp. specialize (Hps p Hp). by destruct p.
  - destruct (List.find (λ p0, String.prefix p0 s) ps) as [p|] eqn:E; [|done]. apply IH. apply find_some in E as [Hp%list_elem_of_In E]. pose proof (drop_lt p s (Hps p Hp) E). lia.
Qed.
Lemma trim_done fuel ps s : List.find (λ p, String.prefix p s) ps = None → trim_prefixes fuel ps s = s.
Proof. destruct fuel; [done|]. cbn. by intros ->. Qed.
Lemma drop_suffix n s : ∃ u, s = u +:+ drop_string n s.
Proof. revert s. induction n as [|n IH]; intros [|c s]; [by exists ""..|]. destruct (IH s) as [u Hu]. exists (String c u). change (String c s = String c (u +:+ drop_string n s)). by f_equal. Qed.
Lemma trim_suffix fuel ps s : ∃ u, s = u +:+ trim_prefixes fuel ps s.
Proof.
  revert s. induction fuel as [|fuel IH]; intros s; cbn; [by exists ""|]. destruct (List.find _ ps) as [p|]; [|by exists ""]. destruct (drop_suffix (String.length p) s) as [u Hu].
  destruct (IH (drop_string (String.length p) s)) as [v Hv]. exists (u +:+ v). by rewrite str_app_assoc, <- Hv.
Qed.
Lemma bytes_app s t : String.list_ascii_of_string (s +:+ t) = String.list_ascii_of_string s ++ String.list_ascii_of_string t.
Proof. induction s as [|c s IH]; [done|]. exact (f_equal (cons c) IH). Qed.
Lemma of_bytes_app l k : String.string_of_list_ascii (l ++ k) = String.string_of_list_ascii l +:+ String.string_of_list_ascii k.
Proof. induction l as [|c l IH]; [done|]. exact (f_equal (String c) IH). Qed.
Lemma rev_string_app s t : rev_string (s +:+ t) = rev_string t +:+ rev_string s.
Proof. unfold rev_string. by rewrite bytes_app, rev_app_distr, of_bytes_app. Qed.
Lemma rev_string_rev s : rev_string (rev_string s) = s.
Proof. unfold rev_string. by rewrite String.list_ascii_of_string_of_list_ascii, rev_involutive, String.string_of_list_ascii_of_string. Qed.
Lemma prefix_more p s t : String.prefix p s = true → String.prefix p (s +:+ t) = true.
Proof.
  revert s. induction p as [|c p IH]; intros s; [by destruct s, t|]. destruct s as [|d s]; [done|]. change (String d s +:+ t) with (String d (s +:+ t)). cbn.
  case_match; [apply IH|done].
Qed.
Lemma TrimSpace_idemp s : TrimSpace (TrimSpace s) = TrimSpace s.
Proof.
  assert (∀ p, p ∈ space_encodings → p ≠ "") as H1 by (apply Forall_forall; vm_compute; by repeat constructor).
  assert (∀ p, p ∈ map rev_string space_encodings → p ≠ "") as H2 by (apply Forall_forall; vm_compute; by repeat constructor).
  unfold TrimSpace at 2 3. set (l := trim_prefixes _ space_encodings s). set (t := trim_prefixes _ _ (rev_string l)).
  assert (List.find (λ p, String.prefix p t) (map rev_string space_encodings) = None) as Ht by (apply trim_stops; [done|by rewrite rev_string_length]).
  assert (List.find (λ p, String.prefix p (rev_string t)) space_encodings = None) as Hl.
  { pose proof (trim_stops (String.length s) space_encodings s H1 (le_n _)) as Hl. fold l in Hl. rewrite found_none in Hl |- *. intros p Hp. destruct (String.prefix p (rev_string t)) eqn:E; [|done].
    destruct (trim_suffix (String.length l) (map rev_string space_encodings) (rev_string l)) as [u Hu]. fold t in Hu. specialize (Hl p Hp).
    apply (prefix_more _ _ (rev_string u)) in E. by rewrite <- rev_string_app, <- Hu, rev_string_rev, Hl in E. }
  unfold TrimSpace. by rewrite (trim_done _ _ _ Hl), rev_string_rev, (trim_done _ _ _ Ht).
Qed.
Lemma after_le sep s rest : after sep s = Some rest → String.length rest ≤ String.length s.
Proof.
  induction s as [|c s IH]; cbn [after].
  - destruct (String.prefix sep ""); [|done]. intros [= <-]. apply drop_le.
  - destruct (String.prefix sep (String c s)); [intros [= <-]; apply drop_le|]. intros H%IH. cbn. lia.
Qed.
Lemma after_prefix sep c s rest : after sep (String c s) = Some rest → sep ≠ "" → String.length rest < String.length (String c s).
Proof.
  cbn [after]. destruct (String.prefix sep (String c s)); [|intros H%after_le _; cbn; lia]. intros [= <-]. destruct sep as [|d sep]; [done|]. intros _. cbn.
  pose proof (drop_le (String.length sep) s). lia.
Qed.
(** The loop over the comments in front of a statement ends. *)
Lemma skip_comments_ends fuel s : String.length s < fuel → is_Some (skip_comments fuel s).
Proof.
  revert s. induction fuel as [|fuel IH]; intros s Hs; [lia|]. cbn [skip_comments].
  assert (∀ sep rest, sep ≠ "" → s ≠ "" → after sep s = Some rest → is_Some (skip_comments fuel (TrimSpace rest))) as Hrec.
  { intros sep rest Hsep Hne E. apply IH. destruct s as [|c s']; [done|]. apply after_prefix in E; [|done]. pose proof (TrimSpace_length rest). lia. }
  destruct (HasPrefix s "--") eqn:E1; [|destruct (HasPrefix s "/*") eqn:E2; [|by eexists]].
  - destruct (after newline s) as [rest|] eqn:E; [|by eexists]. apply (Hrec newline); [done| |done]. by intros ->.
  - destruct (after "*/" s) as [rest|] eqn:E; [|by eexists]. apply (Hrec "*/"); [done| |done]. by intros ->.
Qed.

(** ** Identifiers *)
Fixpoint doubled (q : ascii) (s : string) : string :=
  match s with EmptyString => EmptyString | String c s' => if bool_decide (c = q) then String q (String q (doubled q s')) else String c (doubled q s') end.
Definition enclosed (q : ascii) (s : string) : string := String q (doubled q s +:+ String q EmptyString).
Definition backtick : ascii := ascii_of_nat 96.
Definition double_quote : ascii := ascii_of_nat 34.
Definition mysqlQuoteIdent (value : string) : string := enclosed backtick value.
Definition postgresQuoteIdent (value : string) : string := enclosed double_quote value.
(** How a server reads a quoted identifier: up to the first quote that is not
    doubled.  What it denotes, and what follows. *)
Fixpoint read_body (q : ascii) (s : string) : option (string * string) :=
  match s with
  | EmptyString => None
  | String c s' =>
      if bool_decide (c = q) then
        match s' with
        | String d s'' => if bool_decide (d = q) then match read_body q s'' with Some (v, rest) => Some (String q v, rest) | None => None end else Some (EmptyString, s')
        | EmptyString => Some (EmptyString, EmptyString)
        end
      else match read_body q s' with Some (v, rest) => Some (String c v, rest) | None => None end
  end.
Definition read_ident (q : ascii) (s : string) : option (string * string) :=
  match s with String c s' => if bool_decide (c = q) then read_body q s' else None | EmptyString => None end.
Lemma app_cons c (s t : string) : String c s +:+ t = String c (s +:+ t).
Proof. done. Qed.
Lemma read_enclosed q v rest : String.prefix (String q EmptyString) rest = false → read_body q (doubled q v +:+ String q rest) = Some (v, rest).
Proof.
  intros Hr. induction v as [|c v IH]; cbn [doubled].
  - change ("" +:+ String q rest) with (String q rest). cbn [read_body]. rewrite bool_decide_eq_true_2 by done. destruct rest as [|d rest]; [done|].
    rewrite bool_decide_eq_false_2; [done|]. intros ->. unfold String.prefix in Hr. destruct (ascii_dec q q) as [_|n]; [by destruct rest|by apply n].
  - case_bool_decide as Hc; rewrite !app_cons; cbn [read_body].
    + rewrite !bool_decide_eq_true_2 by done. by rewrite IH, Hc.
    + rewrite bool_decide_eq_false_2 by done. by rewrite IH.
Qed.
Lemma app_assoc_str (a b c : string) : (a +:+ b) +:+ c = a +:+ (b +:+ c).
Proof. induction a as [|x a IH]; [done|]. rewrite !app_cons. by rewrite IH. Qed.
(** An identifier cannot leave its quotes: what the console puts between
    quotes for MySQL or PostgreSQL, of whatever bytes, is read by the server as
    one identifier, that one, with the rest of the statement behind it. *)
Theorem identifiers_quoted v rest : String.prefix "`" rest = false → String.prefix dquote rest = false →
  read_ident backtick (mysqlQuoteIdent v +:+ rest) = Some (v, rest) ∧ read_ident double_quote (postgresQuoteIdent v +:+ rest) = Some (v, rest).
Proof.
  intros H1 H2. unfold mysqlQuoteIdent, postgresQuoteIdent, enclosed, read_ident. split; rewrite app_cons, app_assoc_str; rewrite bool_decide_eq_true_2 by done; by apply read_enclosed.
Qed.
Lemma identifiers_quoted_witness : String.prefix "`" "; drop" = false ∧ read_ident backtick (mysqlQuoteIdent "a`; drop table b; `" +:+ "; drop") = Some ("a`; drop table b; `", "; drop").
Proof.
  assert (String.prefix "`" "; drop" = false) as H by reflexivity. split; [exact H|].
  exact (proj1 (identifiers_quoted "a`; drop table b; `" "; drop" H eq_refl)).
Defined.

(** ** Protocols, connection parameters, previews *)
Section Lowered.
Context (ToLower : string → string).
Definition normalizeWebDataProtocol (protocol : string) : string :=
  let p := ToLower (TrimSpace protocol) in
  if bool_decide (p = "database") then "mysql"
  else if bool_decide (p ∈ ["postgres"; "postgresql"]) then "postgresql"
  else if bool_decide (p ∈ ["mongo"; "mongodb"]) then "mongodb" else p.
Definition isWebDataProtocol (protocol : string) : bool := bool_decide (normalizeWebDataProtocol protocol ∈
  ["mysql"; "mariadb"; "sqlserver"; "oracle"; "clickhouse"; "elasticsearch"; "opensearch"; "postgresql"; "redis"; "memcached"; "mongodb"; "s3"]).
Definition isAccessAuditProtocol (protocol : string) : bool :=
  bool_decide (normalizeWebDataProtocol protocol ∈ ["ssh"; "webssh"; "websftp"; "rdp"; "vnc"]) || isWebDataProtocol protocol.
Definition normalizeWebDataTLSMode (tlsMode : string) : string :=
  let t := ToLower (TrimSpace tlsMode) in if bool_decide (t ∈ ["require"; "skip-verify"; "preferred"; "true"]) then t else "disable".
Definition normalizeWebDataAuditAction (action : string) : string :=
  let a := ToLower (TrimSpace action) in
  if bool_decide (a ∈ [""; "execute"]) then "execute"
  else if bool_decide (a ∈ ["test_connection"; "open_session"; "close_session"; "save_credential"; "delete_credential"]) then a else "".
End Lowered.
Definition normalizeWebDataAuthMechanism (ToUpper : string → string) (authMechanism : string) : string :=
  let value := ToUpper (TrimSpace authMechanism) in
  if bool_decide (value ∈ ["SCRAM-SHA-1"; "SCRAM-SHA-256"; "MONGODB-CR"; "PLAIN"]) then value else "".
Definition webDataCapabilities (protocol : string) : list string :=
  if bool_decide (protocol = "s3") then ["execute"; "list_buckets"; "list_objects"]
  else if bool_decide (protocol = "memcached") then ["execute"; "json_command"]
  else if bool_decide (protocol ∈ ["elasticsearch"; "opensearch"]) then ["execute"; "metadata"; "object_detail"; "json_command"; "index_preview"]
  else if bool_decide (protocol = "redis") then ["execute"; "metadata"; "object_detail"; "key_scan"; "key_preview"]
  else if bool_decide (protocol = "mongodb") then ["execute"; "metadata"; "object_detail"; "json_command"; "collection_preview"]
  else ["execute"; "metadata"; "object_detail"; "sql"; "table_preview"; "ddl"].
(** The separators of lines, each as one newline. *)
Fixpoint one_newline (s : string) : string :=
  match s with
  | EmptyString => EmptyString
  | String c s' =>
      if bool_decide (c = ascii_of_nat 13) then
        String (ascii_of_nat 10) (match s' with String d s'' => if bool_decide (d = ascii_of_nat 10) then one_newline s'' else one_newline s' | EmptyString => EmptyString end)
      else String (if bool_decide (c ∈ [";"; ","; "&"]%char) then ascii_of_nat 10 else c) (one_newline s')
  end.
Fixpoint read_params (lines : list string) (params : gmap string string) : Result (gmap string string) :=
  match lines with
  | [] => Ok params
  | line :: l =>
      let line := TrimSpace line in
      if bool_decide (line = "") || HasPrefix line "#" then read_params l params else
      match cut_at "="%char line with
      | None => Err (ENew ("连接参数 " +:+ quote line +:+ " 需要使用 key=value 格式"))
      | Some (key, value) =>
          if bool_decide (TrimSpace key = "") then Err (ENew "连接参数 key 不能为空") else read_params l (<[ TrimSpace key := TrimSpace value ]> params)
      end
  end.
Definition parseWebDataConnectionParams (raw : string) : Result (gmap string string) :=
  let raw := TrimSpace raw in
  if bool_decide (raw = "") then Ok ∅
  else if Nat.ltb 4096 (String.length raw) then Err (ENew "高级连接参数过长")
  else read_params (Split (one_newline raw) (ascii_of_nat 10)) ∅.
Definition webDataStatementPreview (statement : string) : string :=
  let s := join_with " " (Fields statement) in if Nat.ltb 512 (String.length s) then String.substring 0 512 s else s.
Definition webDataStatementHash (statement : string) : string := Sha256.hexdigest statement.
Definition normalizeAffectedRows (rows : Z) : Z := if Z.ltb rows 0 then 0%Z else rows.

(** ** Paths *)
Definition trim_slashes (s : string) : string :=
  let l := trim_prefixes (String.length s) ["/"] s in rev_string (trim_prefixes (String.length l) ["/"] (rev_string l)).
Definition is_digit (c : ascii) : bool := let n := nat_of_ascii c in Nat.leb 48 n && Nat.leb n 57.
(** [strconv.ParseUint] in base 10, as [parseWebDataProxyID] uses it. *)
Definition ParseUint (bound : N) (s : string) : option N :=
  let l := String.list_ascii_of_string s in
  let n := fold_left (λ n c, (10 * n + N.of_nat (nat_of_ascii c - 48))%N) l 0%N in
  if bool_decide (s = "") || negb (forallb is_digit l) || N.leb bound n then None else Some n.
Definition ParseUint32 : string → option N := ParseUint u32_max.
(** The value it returns beside its error: the largest one out of range. *)
Definition ParseUint64_value (s : string) : N :=
  let l := String.list_ascii_of_string s in
  let n := fold_left (λ n c, (10 * n + N.of_nat (nat_of_ascii c - 48))%N) l 0%N in
  if bool_decide (s = "") || negb (forallb is_digit l) then 0%N else if N.leb u64_max n then (u64_max - 1)%N else n.
Definition proxies_path : string := "/api/v1/webdata/proxies/".
Definition parseWebDataProxyID (path suffix : string) : option N :=
  let path := TrimPrefix path proxies_path in
  let rest := if bool_decide (suffix ≠ "") then (if HasSuffix path suffix then Some (TrimSuffix path suffix) else None)
              else if Contains path "/" then None else Some path in
  path ← rest; id ← ParseUint32 (trim_slashes path); if N.eqb id 0 then None else Some id.
Definition sessions_path : string := "/api/v1/webdata/sessions/".
Definition parseWebDataSessionToken (path suffix : string) : option string :=
  let path := TrimPrefix path sessions_path in
  let rest := if bool_decide (suffix ≠ "") then (if HasSuffix path suffix then Some (TrimSuffix path suffix) else None) else Some path in
  path ← rest; let token := trim_slashes path in if bool_decide (token = "") || Contains token "/" then None else Some token.
Example proxy_id_1 : parseWebDataProxyID "/api/v1/webdata/proxies/42/session" "/session" = Some 42%N. Proof. reflexivity. Qed.
Example proxy_id_2 : parseWebDataProxyID "/api/v1/webdata/proxies/4294967296/session" "/session" = None. Proof. reflexivity. Qed.
Example token_1 : parseWebDataSessionToken "/api/v1/webdata/sessions/abc/execute" "/execute" = Some "abc". Proof. reflexivity. Qed.
Example first_1 : firstSQLWord " -- note
 /* x */ Select(1)" = "Select". Proof. reflexivity. Qed.
Example params_1 : parseWebDataConnectionParams "a=1; b = 2" = Ok {[ "a" := "1"; "b" := "2" ]}. Proof. reflexivity. Qed.
