(* ===== verification/DataConsole.v ===== *)
(** * The data console: credentials and audits

    [controlplane/webdata.go] over the tables of credentials and of audits.
    The two tables are an interface of queries with its laws, beside those of
    [ControlDao]: a call that fails has changed nothing, and the other tables'
    queries leave these alone. *)

From S2P Require Import Prelude Sha256 ToolTypes ToolDisclosure IamDao Iam ControlDao NetAddr Firewall EntryPlanes ControlPlane AccessSession DataConsoleText.

(** ** The rows *)
Record WebDataCredential := mkCredential {
  wc_ID : N; wc_ProxyID : N; wc_UserID : N; wc_Name : string; wc_Protocol : string; wc_Username : string; wc_Database : string; wc_AuthDatabase : string;
  wc_RedisDB : Z; wc_TLSMode : string; wc_Schema : string; wc_AuthMechanism : string; wc_DirectConnection : bool; wc_ConnectionParams : string;
  wc_EncryptedPassword : string; wc_Nonce : string; wc_LastUsedAt : option Time }.
#[export] Instance Credential_eta : Eta WebDataCredential := {| eta := λ r, mkCredential (wc_ID r) (wc_ProxyID r) (wc_UserID r) (wc_Name r) (wc_Protocol r) (wc_Username r)
  (wc_Database r) (wc_AuthDatabase r) (wc_RedisDB r) (wc_TLSMode r) (wc_Schema r) (wc_AuthMechanism r) (wc_DirectConnection r) (wc_ConnectionParams r)
  (wc_EncryptedPassword r) (wc_Nonce r) (wc_LastUsedAt r) |}.
Record AuditRow := mkAuditRow {
  wa_UserID : N; wa_UserEmail : string; wa_ProxyID : N; wa_ProxyName : string; wa_ApplicationID : N; wa_ApplicationName : string; wa_Protocol : string; wa_Action : string;
  wa_StatementPreview : string; wa_StatementSHA256 : string; wa_Success : bool; wa_Error : string; wa_ElapsedMS : Z; wa_Details : string }.

(** ** The queries on them *)
Class ConsoleGorm (DB : Type) := {
  cred_Create : WebDataCredential → Op DB unit;
  cred_First : (WebDataCredential → bool) → Op DB WebDataCredential;
  cred_Find : (WebDataCredential → bool) → Op DB (list WebDataCredential);
  cred_Updates : (WebDataCredential → bool) → (WebDataCredential → WebDataCredential) → Op DB unit;
  cred_Delete : (WebDataCredential → bool) → Op DB unit;
  audit_Create : AuditRow → Op DB unit
}.
Class ConsoleLaws (DB : Type) {i_iam : IamGorm DB} {i_cp : CpGorm DB} {i_co : ConsoleGorm DB} := {
  credentials : DB → gmap N WebDataCredential;
  audits : DB → list AuditRow;
  credentials_keyed s k c : credentials s !! k = Some c → wc_ID c = k;
  cred_Create_law c s x s' : cred_Create c s = (x, s') → audits s' = audits s ∧
    match x with Ok _ => ∃ id, credentials s !! id = None ∧ credentials s' = <[ id := c <| wc_ID := id |> ]> (credentials s) | Err _ => credentials s' = credentials s end;
  cred_First_law p s x s' : cred_First p s = (x, s') → audits s' = audits s ∧ credentials s' = credentials s ∧
    match x with Ok c => credentials s !! wc_ID c = Some c ∧ p c = true | Err _ => True end;
  cred_Find_law p s x s' : cred_Find p s = (x, s') → audits s' = audits s ∧ credentials s' = credentials s ∧
    match x with Ok l => ∀ c, c ∈ l → credentials s !! wc_ID c = Some c ∧ p c = true | Err _ => True end;
  cred_Updates_law p f s x s' : (∀ c, wc_ID (f c) = wc_ID c) → cred_Updates p f s = (x, s') → audits s' = audits s ∧
    match x with Ok _ => credentials s' = (λ c, if p c then f c else c) <$> credentials s | Err _ => credentials s' = credentials s end;
  cred_Delete_law p s x s' : cred_Delete p s = (x, s') → audits s' = audits s ∧
    match x with Ok _ => credentials s' = omap (λ c, if p c then None else Some c) (credentials s) | Err _ => credentials s' = credentials s end;
  audit_Create_law a s x s' : audit_Create a s = (x, s') → credentials s' = credentials s ∧
    match x with Ok _ => audits s' = audits s ++ [a] | Err _ => audits s' = audits s end;
  rows_First_frame t p s : credentials (snd (First_ t p s)) = credentials s ∧ audits (snd (First_ t p s)) = audits s;
  rows_Find_frame t p s : credentials (snd (Find_ t p s)) = credentials s ∧ audits (snd (Find_ t p s)) = audits s;
  accounts_First_frame {Row} `{!IamTable Row} preload p s :
    credentials (snd (First (Row := Row) preload p s)) = credentials s ∧ audits (snd (First (Row := Row) preload p s)) = audits s
}.

(** ** dao_webdata_credential.go *)
Module ConsoleDao.
Section Queries.
Context {DB : Type} {i_co : ConsoleGorm DB}.
Definition of_user (proxyID userID : N) (c : WebDataCredential) : bool := bool_decide (wc_ProxyID c = proxyID) && bool_decide (wc_UserID c = userID).
Definition named (proxyID userID : N) (protocol username database authDatabase : string) (c : WebDataCredential) : bool :=
  of_user proxyID userID c && bool_decide (wc_Protocol c = protocol) && bool_decide (wc_Username c = username) && bool_decide (wc_Database c = database) &&
  bool_decide (wc_AuthDatabase c = authDatabase).
Definition numbered_of (id proxyID userID : N) (c : WebDataCredential) : bool := bool_decide (wc_ID c = id) && of_user proxyID userID c.
(** In the order of the query, which no caller depends on. *)
Definition ListWebDataCredentialsByProxyAndUser (proxyID userID : N) (protocol : string) : Op DB (list WebDataCredential) :=
  cred_Find (λ c, of_user proxyID userID c && bool_decide (wc_Protocol c = protocol)).
Definition GetWebDataCredential (proxyID userID : N) (protocol username database authDatabase : string) : Op DB WebDataCredential :=
  cred_First (named proxyID userID protocol username database authDatabase).
Definition GetWebDataCredentialByID (id proxyID userID : N) : Op DB WebDataCredential := cred_First (numbered_of id proxyID userID).
Definition upsert_updates (now : Time) (credential c : WebDataCredential) : WebDataCredential :=
  c <| wc_Name := wc_Name credential |> <| wc_RedisDB := wc_RedisDB credential |> <| wc_TLSMode := wc_TLSMode credential |> <| wc_Schema := wc_Schema credential |>
    <| wc_AuthMechanism := wc_AuthMechanism credential |> <| wc_DirectConnection := wc_DirectConnection credential |> <| wc_ConnectionParams := wc_ConnectionParams credential |>
    <| wc_EncryptedPassword := wc_EncryptedPassword credential |> <| wc_Nonce := wc_Nonce credential |> <| wc_LastUsedAt := Some now |>.
Definition UpsertWebDataCredential (now : Time) (credential : WebDataCredential) : Op DB unit := λ s,
  match GetWebDataCredential (wc_ProxyID credential) (wc_UserID credential) (wc_Protocol credential) (wc_Username credential) (wc_Database credential) (wc_AuthDatabase credential) s with
  | (Ok existing, s) => cred_Updates (λ c, bool_decide (wc_ID c = wc_ID existing)) (upsert_updates now credential) s
  | (Err _, s) => cred_Create credential s
  end.
Definition credential_updates (updatePassword : bool) (credential c : WebDataCredential) : WebDataCredential :=
  let c := c <| wc_Name := wc_Name credential |> <| wc_Protocol := wc_Protocol credential |> <| wc_Username := wc_Username credential |> <| wc_Database := wc_Database credential |>
    <| wc_AuthDatabase := wc_AuthDatabase credential |> <| wc_RedisDB := wc_RedisDB credential |> <| wc_TLSMode := wc_TLSMode credential |> <| wc_Schema := wc_Schema credential |>
    <| wc_AuthMechanism := wc_AuthMechanism credential |> <| wc_DirectConnection := wc_DirectConnection credential |> <| wc_ConnectionParams := wc_ConnectionParams credential |> in
  if updatePassword then c <| wc_EncryptedPassword := wc_EncryptedPassword credential |> <| wc_Nonce := wc_Nonce credential |> else c.
Definition UpdateWebDataCredential (credential : WebDataCredential) (updatePassword : bool) : Op DB unit :=
  throw_if N.eqb (wc_ID credential) 0 with ENew "webdata credential is nil" ;;
  cred_Updates (numbered_of (wc_ID credential) (wc_ProxyID credential) (wc_UserID credential)) (credential_updates updatePassword credential).
Definition touched (now : Time) (c : WebDataCredential) : WebDataCredential := c <| wc_LastUsedAt := Some now |>.
Definition TouchWebDataCredential (now : Time) (proxyID userID : N) (protocol username database authDatabase : string) : Op DB unit :=
  cred_Updates (named proxyID userID protocol username database authDatabase) (touched now).
Definition TouchWebDataCredentialByID (now : Time) (id proxyID userID : N) : Op DB unit := cred_Updates (numbered_of id proxyID userID) (touched now).
Definition DeleteWebDataCredential (proxyID userID : N) (protocol username database authDatabase : string) : Op DB unit :=
  cred_Delete (named proxyID userID protocol username database authDatabase).
Definition DeleteWebDataCredentialByID (id proxyID userID : N) : Op DB unit := cred_Delete (numbered_of id proxyID userID).
Definition CreateWebDataAudit (audit : AuditRow) : Op DB unit := audit_Create audit.
End Queries.
End ConsoleDao.

(** ** webdata.go: the types *)
Record WebDataTarget := mkTarget {
  wt_ProxyID : N; wt_ProxyName : string; wt_ApplicationID : N; wt_ApplicationName : string; wt_Protocol : string; wt_ApplicationType : string; wt_TargetHost : string;
  wt_TargetPort : Z; wt_EffectiveStatus : string; wt_EffectiveStatusMessage : string; wt_edgeID : N }.
(** A credential as it leaves the manager: whether a password is saved, not
    the password. *)
Record CredentialView := mkView {
  cv_ID : N; cv_Saved : bool; cv_Name : string; cv_Protocol : string; cv_Username : string; cv_Database : string; cv_AuthDatabase : string; cv_RedisDB : Z; cv_TLSMode : string;
  cv_Schema : string; cv_AuthMechanism : string; cv_DirectConnection : bool; cv_ConnectionParams : string; cv_LastUsedAt : option Time }.
Record WebDataCredentialProfile := mkProfile {
  pf_ID : N; pf_Name : string; pf_Protocol : string; pf_Username : string; pf_Database : string; pf_AuthDatabase : string; pf_RedisDB : Z; pf_TLSMode : string; pf_Schema : string;
  pf_AuthMechanism : string; pf_DirectConnection : bool; pf_ConnectionParams : string; pf_EncryptedPassword : string; pf_Nonce : string; pf_PasswordChanged : bool }.
Inductive detail := DText (s : string) | DNumber (n : Z).
Record WebDataAudit := mkAudit {
  au_UserID : N; au_UserEmail : string; au_ProxyID : N; au_ProxyName : string; au_ApplicationID : N; au_ApplicationName : string; au_Protocol : string; au_Action : string;
  au_Database : string; au_StatementPreview : string; au_StatementSHA256 : string; au_Success : bool; au_AffectedRows : Z; au_Error : string; au_ElapsedMS : Z; au_ClientIP : string;
  au_Details : list (string * detail) }.

Module Console.
Section ControlPlane.
Context {DB : Type} {i_iam : IamGorm DB} {i_cp : CpGorm DB} {i_co : ConsoleGorm DB}.
(** [strings.ToLower], [strings.ToUpper], and [json.Marshal] of the details of
    an audit. *)
Context (ToLower ToUpper : string → string) (encode_details : gmap string detail → string).

Definition join_name (l : list string) : string := join_with " / " l.
Definition defaultWebDataCredentialName (c : WebDataCredential) : string :=
  let parts := (if bool_decide (wc_Username c ≠ "") then [wc_Username c] else []) ++
    (if bool_decide (wc_Protocol c = "redis") then ["db" +:+ pretty (wc_RedisDB c)] else if bool_decide (wc_Database c ≠ "") then [wc_Database c] else []) in
  match parts with [] => ToUpper (wc_Protocol c) | _ => join_name parts end.
Definition or_disable (tlsMode : string) : string := if bool_decide (tlsMode = "") then "disable" else tlsMode.
Definition webDataCredentialFromModel (c : WebDataCredential) : CredentialView :=
  mkView (wc_ID c) (bool_decide (wc_EncryptedPassword c ≠ "") && bool_decide (wc_Nonce c ≠ ""))
    (if bool_decide (wc_Name c = "") then defaultWebDataCredentialName c else wc_Name c) (wc_Protocol c) (wc_Username c) (wc_Database c) (wc_AuthDatabase c) (wc_RedisDB c)
    (or_disable (wc_TLSMode c)) (wc_Schema c) (wc_AuthMechanism c) (wc_DirectConnection c) (wc_ConnectionParams c) (wc_LastUsedAt c).
(** The secret is the row with its default mode. *)
Definition webDataCredentialSecretFromModel (c : WebDataCredential) : WebDataCredential := c <| wc_TLSMode := or_disable (wc_TLSMode c) |>.

(** A call of the life cycle that touches the database only. *)
Definition plain {A} (m : Op (World DB unit) A) : Op DB A := λ s, let '(r, w) := m (mkWorld s Unified.NewEntry tt) in (r, wd_db w).
Definition effective_message (proxy : Access) (status : string) : string :=
  if bool_decide (status = "stopped") then "访问未启用"
  else if bool_decide (status = "edge_stopped") then "连接器已禁用"
  else if bool_decide (status = "edge_offline") then "连接器离线"
  else if bool_decide (status = "active") then "访问可用"
  else if Z.eqb (x_Status proxy) ProxyStatusRunning then "关联应用或连接器无效" else "访问状态无效".
Definition loadWebDataTarget (actor : option N) (proxyID : N) : Op DB WebDataTarget :=
  throw_if N.eqb proxyID 0 with ENew "访问 ID 不能为空" ;;
  Control.requireVisibleResource actor "access" proxyID ;;
  let! proxy := CpDao.GetProxyByID proxyID in
  let! application := CpDao.GetApplicationByID (x_ApplicationID proxy) in
  let appType := ToLower (a_ApplicationType application) in
  let protocol := normalizeWebDataProtocol ToLower appType in
  throw_if negb (isWebDataProtocol ToLower protocol) with ENew "仅 MySQL/PostgreSQL/Redis/MongoDB 应用支持 WebData" ;;
  let! status := plain (Control.proxyEffectiveStatus proxy (Some application)) in
  ret (mkTarget (x_ID proxy) (x_Name proxy) (a_ID application) (a_Name application) protocol appType (a_IP application) (a_Port application) status
    (effective_message proxy status) (default 0%N (head (a_EdgeIDs application)))).
Definition validateWebDataProxy (actor : option N) (proxyID : N) : Op DB unit := loadWebDataTarget actor proxyID ;; ret tt.
(** The actor of a context has a number other than 0. *)
Definition requireWebSSHUserID (actor : option N) : Op DB N := of_option actor (ENew "用户未认证").
Definition loadWebDataCredentials (proxyID userID : N) (protocol : string) : Op DB (list CredentialView) :=
  let! saved := ConsoleDao.ListWebDataCredentialsByProxyAndUser proxyID userID protocol in ret (map webDataCredentialFromModel saved).
Definition GetWebDataTarget (actor : option N) (proxyID : N) : Op DB (WebDataTarget * list CredentialView) :=
  let! target := loadWebDataTarget actor proxyID in
  match actor with
  | None => ret (target, [])
  | Some userID => let! credentials := loadWebDataCredentials proxyID userID (wt_Protocol target) in ret (target, credentials)
  end.
Definition normalizeWebDataCredentialIdentity (protocol username database authDatabase : string) : string * string * string * string :=
  (normalizeWebDataProtocol ToLower protocol, TrimSpace username, TrimSpace database, TrimSpace authDatabase).
Definition GetWebDataCredentialSecret (actor : option N) (proxyID : N) (protocol username database authDatabase : string) : Op DB WebDataCredential :=
  validateWebDataProxy actor proxyID ;;
  let! userID := requireWebSSHUserID actor in
  let '(protocol, username, database, authDatabase) := normalizeWebDataCredentialIdentity protocol username database authDatabase in
  let! credential := ConsoleDao.GetWebDataCredential proxyID userID protocol username database authDatabase in
  ret (webDataCredentialSecretFromModel credential).
Definition GetWebDataCredentialSecretByID (actor : option N) (proxyID credentialID : N) : Op DB WebDataCredential :=
  throw_if N.eqb credentialID 0 with ENew "连接 ID 不能为空" ;;
  let! target := loadWebDataTarget actor proxyID in
  let! userID := requireWebSSHUserID actor in
  let! credential := ConsoleDao.GetWebDataCredentialByID credentialID proxyID userID in
  throw_if negb (bool_decide (normalizeWebDataProtocol ToLower (wc_Protocol credential) = wt_Protocol target)) with ENew "保存连接的协议类型与应用类型不匹配" ;;
  ret (webDataCredentialSecretFromModel credential).
Definition credential_of (proxyID userID : N) (profile : WebDataCredentialProfile) : WebDataCredential :=
  let '(protocol, username, database, authDatabase) := normalizeWebDataCredentialIdentity (pf_Protocol profile) (pf_Username profile) (pf_Database profile) (pf_AuthDatabase profile) in
  let c := mkCredential (pf_ID profile) proxyID userID (TrimSpace (pf_Name profile)) protocol username database authDatabase (pf_RedisDB profile)
    (normalizeWebDataTLSMode ToLower (pf_TLSMode profile)) (TrimSpace (pf_Schema profile)) (normalizeWebDataAuthMechanism ToUpper (pf_AuthMechanism profile)) (pf_DirectConnection profile)
    (TrimSpace (pf_ConnectionParams profile)) (pf_EncryptedPassword profile) (pf_Nonce profile) None in
  if bool_decide (wc_Name c = "") then c <| wc_Name := defaultWebDataCredentialName c |> else c.
Definition SaveWebDataCredentialProfile (now : Time) (actor : option N) (proxyID : N) (profile : WebDataCredentialProfile) : Op DB CredentialView :=
  let! target := loadWebDataTarget actor proxyID in
  let! userID := requireWebSSHUserID actor in
  let credential := credential_of proxyID userID profile in
  throw_if negb (isWebDataProtocol ToLower (wc_Protocol credential)) with ENew "WebData 协议类型不支持" ;;
  throw_if negb (bool_decide (wc_Protocol credential = wt_Protocol target)) with ENew "保存连接的协议类型与应用类型不匹配" ;;
  let updatePassword := pf_PasswordChanged profile || N.eqb (pf_ID profile) 0 in
  throw_if updatePassword && negb (Bool.eqb (bool_decide (pf_EncryptedPassword profile = "")) (bool_decide (pf_Nonce profile = ""))) with ENew "WebData 凭据密码不能为空" ;;
  if N.ltb 0 (wc_ID credential) then
    ConsoleDao.UpdateWebDataCredential credential updatePassword ;;
    let! saved := ConsoleDao.GetWebDataCredentialByID (wc_ID credential) proxyID userID in ret (webDataCredentialFromModel saved)
  else
    ConsoleDao.UpsertWebDataCredential now credential ;;
    let! saved := ConsoleDao.GetWebDataCredential proxyID userID (wc_Protocol credential) (wc_Username credential) (wc_Database credential) (wc_AuthDatabase credential) in
    ret (webDataCredentialFromModel saved).
Definition TouchWebDataCredential (now : Time) (actor : option N) (proxyID : N) (protocol username database authDatabase : string) : Op DB unit :=
  throw_if N.eqb proxyID 0 with ENew "访问 ID 不能为空" ;;
  validateWebDataProxy actor proxyID ;;
  let! userID := requireWebSSHUserID actor in
  let '(protocol, username, database, authDatabase) := normalizeWebDataCredentialIdentity protocol username database authDatabase in
  ConsoleDao.TouchWebDataCredential now proxyID userID protocol username database authDatabase.
Definition TouchWebDataCredentialByID (now : Time) (actor : option N) (proxyID credentialID : N) : Op DB unit :=
  throw_if N.eqb proxyID 0 || N.eqb credentialID 0 with ENew "访问 ID 和连接 ID 不能为空" ;;
  validateWebDataProxy actor proxyID ;;
  let! userID := requireWebSSHUserID actor in
  ConsoleDao.TouchWebDataCredentialByID now credentialID proxyID userID.
Definition DeleteWebDataCredential (actor : option N) (proxyID : N) (protocol username database authDatabase : string) : Op DB unit :=
  validateWebDataProxy actor proxyID ;;
  let! userID := requireWebSSHUserID actor in
  let '(protocol, username, database, authDatabase) := normalizeWebDataCredentialIdentity protocol username database authDatabase in
  ConsoleDao.DeleteWebDataCredential proxyID userID protocol username database authDatabase.
Definition DeleteWebDataCredentialByID (actor : option N) (proxyID credentialID : N) : Op DB unit :=
  validateWebDataProxy actor proxyID ;;
  let! userID := requireWebSSHUserID actor in
  throw_if N.eqb credentialID 0 with ENew "连接 ID 不能为空" ;;
  ConsoleDao.DeleteWebDataCredentialByID credentialID proxyID userID.

(** ** Audits *)
Definition isEmptyAccessAuditDetailValue (v : detail) : bool := match v with DText s => bool_decide (TrimSpace s = "") | DNumber _ => false end.
Definition keep_detail (details : gmap string detail) (kv : string * detail) : gmap string detail :=
  if bool_decide (TrimSpace (fst kv) = "") || isEmptyAccessAuditDetailValue (snd kv) then details else <[ TrimSpace (fst kv) := snd kv ]> details.
Definition normalizeAccessAuditDetails (protocol : string) (audit : WebDataAudit) : gmap string detail :=
  let details := fold_left keep_detail (au_Details audit) ∅ in
  let value := TrimSpace (au_Database audit) in
  let details := if bool_decide (value = "") then details
                 else <[ (if bool_decide (protocol ∈ ["ssh"; "webssh"; "websftp"]) then "ssh_user" else "database") := DText value ]> details in
  let details := if negb (Z.eqb (au_AffectedRows audit) 0) || (bool_decide (normalizeWebDataAuditAction ToLower (au_Action audit) = "execute") && isWebDataProtocol ToLower protocol)
                 then <[ "affected_rows" := DNumber (au_AffectedRows audit) ]> details else details in
  if bool_decide (TrimSpace (au_ClientIP audit) = "") then details else <[ "client_ip" := DText (TrimSpace (au_ClientIP audit)) ]> details.
(** A name that is missing is looked up; a failing look-up leaves it empty. *)
Definition look_up {A} (given : string) (id : N) (m : Op DB A) (name : A → string) : Op DB string := λ s,
  let given := TrimSpace given in
  if bool_decide (given ≠ "") || N.eqb id 0 then (Ok given, s) else match m s with (Ok a, s') => (Ok (name a), s') | (Err _, s') => (Ok given, s') end.
Definition RecordWebDataAudit (audit : WebDataAudit) : Op DB unit :=
  let action := if bool_decide (TrimSpace (au_Action audit) = "") then "execute" else TrimSpace (au_Action audit) in
  let protocol := normalizeWebDataProtocol ToLower (au_Protocol audit) in
  if bool_decide (protocol = "tcp") then ret tt else
  let! userEmail := look_up (au_UserEmail audit) (au_UserID audit) (Repo.GetUserByID (au_UserID audit)) (λ u, match u with Some u => u_Email u | None => "" end) in
  let! proxyName := look_up (au_ProxyName audit) (au_ProxyID audit) (CpDao.GetProxyByID (au_ProxyID audit)) (x_Name : Access → string) in
  let! applicationName := look_up (au_ApplicationName audit) (au_ApplicationID audit) (CpDao.GetApplicationByID (au_ApplicationID audit)) (a_Name : Application → string) in
  ConsoleDao.CreateWebDataAudit (mkAuditRow (au_UserID audit) userEmail (au_ProxyID audit) proxyName (au_ApplicationID audit) applicationName protocol action
    (au_StatementPreview audit) (au_StatementSHA256 audit) (au_Success audit) (au_Error audit) (au_ElapsedMS audit) (encode_details (normalizeAccessAuditDetails protocol audit))).
End ControlPlane.
End Console.
