(* ===== verification/DataConsoleHttp.v ===== *)
(** * web: the sessions of the data console and its handlers

    [webdata_http.go].  The state is the database, the store of sessions, the
    registry of live connections and the drivers; a handler either goes on with
    a value or ends with a reply.  Of the request: its method and path, the
    user it authenticates as, the user of its context, the client's address,
    the time.  Not modelled: building the configuration of each driver,
    metadata trees, the conversion of driver values. *)

From S2P Require Import Prelude Sha256 ToolTypes ToolDisclosure IamDao Iam ControlDao NetAddr ControlPlane AccessSession DataConsoleText DataConsole.

Definition webDataSessionTTL : Time := 1800000000000%Z.
Definition webDataResultRowLimit : nat := 500.
Definition webDataStatementMaxSize : Z := 1048576.

Record webDataSession := mkSession_ {
  ws_token : string; ws_userID : N; ws_proxyID : N; ws_protocol : string; ws_username : string; ws_database : string; ws_authDatabase : string; ws_redisDB : Z; ws_tlsMode : string;
  ws_schema : string; ws_authMechanism : string; ws_directConnection : bool; ws_connectionParams : string; ws_expiresAt : Time; ws_startedAt : Time; ws_target : WebDataTarget;
  ws_client : option N; ws_agent : option Unregister }.
#[export] Instance Session_eta : Eta webDataSession := {| eta := λ s, mkSession_ (ws_token s) (ws_userID s) (ws_proxyID s) (ws_protocol s) (ws_username s) (ws_database s)
  (ws_authDatabase s) (ws_redisDB s) (ws_tlsMode s) (ws_schema s) (ws_authMechanism s) (ws_directConnection s) (ws_connectionParams s) (ws_expiresAt s) (ws_startedAt s)
  (ws_target s) (ws_client s) (ws_agent s) |}.
Record createWebDataSessionRequest := mkCreateSession {
  cs_CredentialID : N; cs_Protocol : string; cs_Username : string; cs_Password : string; cs_Database : string; cs_AuthDatabase : string; cs_RedisDB : Z; cs_RedisDBSet : bool;
  cs_TLSMode : string; cs_Schema : string; cs_AuthMechanism : string; cs_DirectConnection : bool; cs_DirectConnectionSet : bool; cs_ConnectionParams : string; cs_SaveCredential : bool }.
#[export] Instance CreateSession_eta : Eta createWebDataSessionRequest := {| eta := λ r, mkCreateSession (cs_CredentialID r) (cs_Protocol r) (cs_Username r) (cs_Password r)
  (cs_Database r) (cs_AuthDatabase r) (cs_RedisDB r) (cs_RedisDBSet r) (cs_TLSMode r) (cs_Schema r) (cs_AuthMechanism r) (cs_DirectConnection r) (cs_DirectConnectionSet r)
  (cs_ConnectionParams r) (cs_SaveCredential r) |}.
Record webDataCredentialRequest := mkCredentialRequest {
  cq_RememberPassword : option bool; cq_ID : N; cq_Name : string; cq_Protocol : string; cq_Username : string; cq_Password : string; cq_Database : string; cq_AuthDatabase : string;
  cq_RedisDB : Z; cq_TLSMode : string; cq_Schema : string; cq_AuthMechanism : string; cq_DirectConnection : bool; cq_ConnectionParams : string }.
Definition table_row := list (string * string).
Record webDataExecuteResponse := mkExecuted {
  er_Type : string; er_Columns : list string; er_Rows : list table_row; er_AffectedRows : Z; er_Message : string; er_ElapsedMS : Z; er_Truncated : bool; er_Error : string }.
#[export] Instance Executed_eta : Eta webDataExecuteResponse := {| eta := λ r, mkExecuted (er_Type r) (er_Columns r) (er_Rows r) (er_AffectedRows r) (er_Message r) (er_ElapsedMS r)
  (er_Truncated r) (er_Error r) |}.
Definition of_type (t : string) : webDataExecuteResponse := mkExecuted t [] [] 0 "" 0 false "".

(** ** The drivers *)
(** What database/sql answers to a query: the columns, each row as it is
    scanned, and the error the iteration ends with. *)
Record RowSet := mkRowSet { rs_Columns : Result (list string); rs_Rows : list (Result table_row); rs_Err : option error }.
Class Drivers (Net : Type) := {
  random_token : Net → Result string * Net;
  since : Net → Z * Net;
  connect : webDataSession → string → Net → Result (option N) * Net;
  disconnect : N → Net → Net;
  sql_query : N → string → Net → Result RowSet * Net;
  sql_exec : N → string → Net → Result Z * Net;
  redis_do : N → list string → Net → Result webDataExecuteResponse * Net;
  run_other : webDataSession → string → Net → (option webDataExecuteResponse * option error) * Net;
  describe : webDataSession → list string → Net → Result string * Net;
  seal : string → Net → Result (string * string) * Net;
  unseal : string → string → Result string
}.
(** A driver keeps a client open from the connection to its closing and opens
    no other; tokens are not repeated. *)
Class DriversLaws (Net : Type) `{!Drivers Net} := {
  clients : Net → gset N;
  issued : Net → gset string;
  token_law n x n' : random_token n = (x, n') → clients n' = clients n ∧
    match x with Ok t => (t ∉ issued n) ∧ t ≠ "" ∧ issued n' = ({[ t ]} ∪ issued n) | Err _ => issued n' = issued n end;
  connect_law s p n x n' : connect s p n = (x, n') → issued n' = issued n ∧
    match x with Ok (Some c) => (c ∉ clients n) ∧ clients n' = ({[ c ]} ∪ clients n) | _ => clients n' = clients n end;
  disconnect_law c n : issued (disconnect c n) = issued n ∧ clients (disconnect c n) = clients n ∖ {[ c ]};
  since_law n : clients (snd (since n)) = clients n ∧ issued (snd (since n)) = issued n;
  query_law c q n : clients (snd (sql_query c q n)) = clients n ∧ issued (snd (sql_query c q n)) = issued n;
  exec_law c q n : clients (snd (sql_exec c q n)) = clients n ∧ issued (snd (sql_exec c q n)) = issued n;
  redis_law c q n : clients (snd (redis_do c q n)) = clients n ∧ issued (snd (redis_do c q n)) = issued n;
  other_law s q n : clients (snd (run_other s q n)) = clients n ∧ issued (snd (run_other s q n)) = issued n;
  describe_law s q n : clients (snd (describe s q n)) = clients n ∧ issued (snd (describe s q n)) = issued n;
  seal_law p n : clients (snd (seal p n)) = clients n ∧ issued (snd (seal p n)) = issued n
}.

Inductive payload :=
| PNone | PTarget (t : WebDataTarget) (credentials : list CredentialView) | PSession (token : string) (expiresAt : Time) (capabilities : list string)
| PResult (r : webDataExecuteResponse) | PCredential (c : CredentialView) | PText (r : Result string).
Record Reply := mkReply { re_Code : nat; re_Message : string; re_Data : payload }.
Definition refuse (code : nat) (message : string) : Reply := mkReply code message PNone.
Record Request := mkRequest { rq_Method : string; rq_Path : string; rq_User : option N; rq_Actor : option N; rq_ClientIP : string; rq_ClientIPSource : string; rq_Query : string → string; rq_Now : Time }.

Definition webDataHTTPStatus (e : error) : nat :=
  if Is e ErrForbidden then 403 else if Is e ErrRecordNotFound then 404
  else if existsb (Contains (Error e)) ["仅 MySQL"; "不能为空"; "无效"; "不支持"] then 400
  else if existsb (Contains (Error e)) ["不可用"; "离线"; "禁用"] then 409 else 500.
Definition refused (e : error) : Reply := refuse (webDataHTTPStatus e) (Error e).

Record State (DB Net : Type) := mkState { st_db : DB; st_sessions : gmap string webDataSession; st_access : Sessions; st_net : Net }.
Arguments mkState {DB Net} _ _ _ _.
Arguments st_db {DB Net} _.
Arguments st_sessions {DB Net} _.
Arguments st_access {DB Net} _.
Arguments st_net {DB Net} _.

Module Web.
Section Web.
Context {DB : Type} {i_iam : IamGorm DB} {i_cp : CpGorm DB} {i_co : ConsoleGorm DB} {Net : Type} {i_net : Drivers Net}.
(** Besides those of [Console]: whether the manager has a key for stored
    passwords, and the operation an s3 or memcached command names, which the
    decoder of JSON finds. *)
Context (ToLower ToUpper : string → string) (encode_details : gmap string detail → string) (has_key : bool) (operation_of : string → string → option string).
#[local] Abbreviation St := (State DB Net).

(** Going on with a value, or ending with a reply. *)
Definition H (A : Type) : Type := St → (Reply + A) * St.
Definition hret {A} (a : A) : H A := λ s, (inr a, s).
Definition answer {A} (r : Reply) : H A := λ s, (inl r, s).
Definition hbind {A B} (m : H A) (k : A → H B) : H B := λ s, match m s with (inr a, s') => k a s' | (inl r, s') => (inl r, s') end.
#[local] Notation "'do' x <- m ; k" := (hbind m (λ x, k)) (at level 100, x name, m at level 100, k at level 200, right associativity).
#[local] Notation "'stop_if' b 'with' r ; k" := (if (b : bool) then answer r else k) (at level 100, b at level 100, r at level 100, k at level 200, right associativity).
Definition on_db {A} (m : Op DB A) : H (Result A) := λ s, let '(r, db) := m (st_db s) in (inr r, mkState db (st_sessions s) (st_access s) (st_net s)).
Definition on_net {A} (m : Net → A * Net) : H A := λ s, let '(a, n) := m (st_net s) in (inr a, mkState (st_db s) (st_sessions s) (st_access s) n).
(** The value of a call, or the reply [f] makes of its error. *)
Definition or_answer {A} (m : H (Result A)) (f : error → Reply) : H A := do r <- m; match r with Ok a => hret a | Err e => answer (f e) end.
Definition given {A} (o : option A) (r : Reply) : H A := match o with Some a => hret a | None => answer r end.

(** ** The store *)
Definition close (session : webDataSession) (s : St) : St :=
  mkState (st_db s) (st_sessions s) (match ws_agent session with Some u => Access.unregister u (st_access s) | None => st_access s end)
    (match ws_client session with Some c => disconnect c (st_net s) | None => st_net s end).
Definition close_all (l : list webDataSession) (s : St) : St := fold_left (λ s x, close x s) l s.
Definition with_sessions (m : gmap string webDataSession) (s : St) : St := mkState (st_db s) m (st_access s) (st_net s).
(** Taking the sessions of [p] out of the store and closing them, in some
    order. *)
Definition evict (p : webDataSession → bool) (s : St) : St :=
  close_all (List.filter p (map_to_list (st_sessions s)).*2) (with_sessions (filter (λ kx : string * webDataSession, p kx.2 = false) (st_sessions s)) s).
Definition expired (now : Time) (session : webDataSession) : bool := After now (ws_expiresAt session).
Definition cleanupLocked (now : Time) : St → St := evict (expired now).
Definition create (now : Time) (session : webDataSession) : H (Result webDataSession) :=
  do token <- on_net random_token;
  match token with
  | Err e => hret (Err e)
  | Ok token =>
      let session := session <| ws_token := token |> <| ws_startedAt := now |> <| ws_expiresAt := (now + webDataSessionTTL)%Z |> in
      λ s, let s := cleanupLocked now s in (inr (Ok session), with_sessions (<[ token := session ]> (st_sessions s)) s)
  end.
Definition get (now : Time) (token : string) : H (option webDataSession) := λ s,
  match st_sessions s !! token with
  | None => (inr None, s)
  | Some session =>
      if expired now session then (inr None, close session (with_sessions (delete token (st_sessions s)) s)) else
      let session := session <| ws_expiresAt := (now + webDataSessionTTL)%Z |> in (inr (Some session), with_sessions (<[ token := session ]> (st_sessions s)) s)
  end.
Definition delete_ (token : string) (s : St) : St :=
  match st_sessions s !! token with Some session => close session (with_sessions (delete token (st_sessions s)) s) | None => s end.
Definition closeByProxy (proxyID : N) : St → St := evict (λ x, bool_decide (ws_proxyID x = proxyID)).

(** ** Audits *)
Definition webDataAuditPreview (protocol statement : string) : string :=
  if bool_decide (protocol = "s3") then match operation_of protocol statement with None => "s3 operation" | Some op => "s3 " +:+ op end
  else if negb (bool_decide (protocol = "memcached")) then webDataStatementPreview statement
  else match operation_of protocol statement with None => "memcached operation" | Some op => "memcached " +:+ op end.
Definition webDataAuditStatement (action : string) : string :=
  let a := TrimSpace action in
  if bool_decide (a = "test_connection") then "TEST CONNECTION" else if bool_decide (a = "open_session") then "OPEN SESSION"
  else if bool_decide (a = "save_credential") then "SAVE CONNECTION" else if bool_decide (a = "delete_credential") then "DELETE CONNECTION" else ToUpper action.
Definition ignore_db {A} (m : Op DB A) : H unit := do _ <- on_db m; hret tt.
Definition recordWebDataAudit (r : Request) (target : WebDataTarget) (userID : N) (action protocol database statement : string) (success : bool) (affectedRows elapsedMS : Z)
    (errText : string) : H unit :=
  if N.eqb userID 0 then hret tt else
  let action := if bool_decide (TrimSpace action = "") then "execute" else TrimSpace action in
  let protocol := normalizeWebDataProtocol ToLower protocol in
  let protocol := if bool_decide (protocol = "") then wt_Protocol target else protocol in
  let statement := TrimSpace statement in
  let statement := if bool_decide (statement = "") then webDataAuditStatement action else statement in
  ignore_db (Console.RecordWebDataAudit ToLower encode_details (mkAudit userID "" (wt_ProxyID target) "" (wt_ApplicationID target) "" protocol action (TrimSpace database)
    (webDataAuditPreview protocol statement) (webDataStatementHash statement) success affectedRows errText elapsedMS (rq_ClientIP r) [("client_ip_source", DText (rq_ClientIPSource r))])).
Definition audit_database (protocol : string) (redisDB : Z) (database : string) : string :=
  if bool_decide (normalizeWebDataProtocol ToLower protocol = "redis") then "db" +:+ pretty redisDB else TrimSpace database.
Definition webDataAuditDatabase (req : createWebDataSessionRequest) : string := audit_database (cs_Protocol req) (cs_RedisDB req) (cs_Database req).
Definition webDataAuditSessionDatabase (s : webDataSession) : string := audit_database (ws_protocol s) (ws_redisDB s) (ws_database s).
Definition webDataShouldAuditExecute (protocol statement : string) : bool := negb (bool_decide (TrimSpace protocol = "")) && negb (bool_decide (TrimSpace statement = "")).

(** ** Running a statement *)
Fixpoint read_rows (l : list (Result table_row)) (rows : list table_row) : list table_row * bool * option error :=
  match l with
  | [] => (rows, false, None)
  | x :: l' =>
      if Nat.leb webDataResultRowLimit (length rows) then (rows, true, None) else
      match x with Err e => (rows, false, Some e) | Ok row => read_rows l' (rows ++ [row]) end
  end.
Definition readSQLRows (rows : RowSet) : option webDataExecuteResponse * option error :=
  match rs_Columns rows with
  | Err e => (None, Some e)
  | Ok columns =>
      let '(l, truncated, err) := read_rows (rs_Rows rows) [] in
      let result := (of_type "rows") <| er_Columns := columns |> <| er_Rows := l |> <| er_Truncated := truncated |> in
      match err with
      | Some e => (Some result, Some e)
      | None => match rs_Err rows with
                | Some e => (Some result, Some e)
                | None => (Some (result <| er_Message := pretty (length l) +:+ " row(s)" |>), None)
                end
      end
  end.
Definition executeSQL (s : webDataSession) (statement : string) (n : Net) : (option webDataExecuteResponse * option error) * Net :=
  match ws_client s with
  | None => ((None, Some (ENew "SQL 会话未连接")), n)
  | Some c =>
      if sqlStatementReturnsRows ToLower statement then
        match sql_query c statement n with (Err e, n) => ((Some (of_type "rows"), Some e), n) | (Ok rows, n) => (readSQLRows rows, n) end
      else match sql_exec c statement n with
           | (Err e, n) => ((Some (of_type "message"), Some e), n)
           | (Ok affected, n) =>
               if bool_decide (ws_protocol s = "clickhouse")
               then ((Some ((of_type "message") <| er_Message := "Statement accepted. Mutations may continue asynchronously; inspect system.mutations for completion." |>), None), n)
               else ((Some ((of_type "message") <| er_AffectedRows := affected |> <| er_Message := "OK, " +:+ pretty (normalizeAffectedRows affected) +:+ " row(s) affected" |>), None), n)
           end
  end.
Definition executeRedis (s : webDataSession) (statement : string) (n : Net) : (option webDataExecuteResponse * option error) * Net :=
  match ws_client s with
  | None => ((None, Some (ENew "Redis 会话未连接")), n)
  | Some c =>
      match parseRedisCommand statement with
      | Err e => ((Some (of_type "redis"), Some e), n)
      | Ok args => match redis_do c args n with (Err e, n) => ((Some (of_type "redis"), Some e), n) | (Ok r, n) => ((Some r, None), n) end
      end
  end.
Definition execute (s : webDataSession) (statement : string) (n : Net) : (option webDataExecuteResponse * option error) * Net :=
  if bool_decide (ws_protocol s ∈ ["s3"; "memcached"; "elasticsearch"; "opensearch"; "oracle"; "mongodb"]) then run_other s statement n
  else if bool_decide (ws_protocol s ∈ ["sqlserver"; "clickhouse"; "mysql"; "mariadb"; "postgresql"]) then executeSQL s statement n
  else if bool_decide (ws_protocol s = "redis") then executeRedis s statement n
  else ((None, Some (ENew ("unsupported protocol " +:+ quote (ws_protocol s)))), n).
Definition openWebDataClient (s : webDataSession) (password : string) (n : Net) : Result (option N) * Net :=
  if bool_decide (ws_protocol s ∈ ["s3"; "memcached"; "elasticsearch"; "opensearch"; "oracle"; "clickhouse"; "sqlserver"; "mysql"; "mariadb"; "postgresql"; "redis"; "mongodb"])
  then connect s password n else (Err (ENew ("unsupported protocol " +:+ quote (ws_protocol s))), n).

(** ** Passwords and requests *)
Definition encryptWebSSHPassword (password : string) (n : Net) : Result (string * string) * Net :=
  if negb has_key then (Err (ENew "WebSSH 凭据加密密钥未配置"), n) else seal password n.
Definition decryptWebSSHPassword (encryptedPassword nonce : string) : Result string :=
  if negb has_key then Err (ENew "WebSSH 凭据加密密钥未配置") else unseal encryptedPassword nonce.
Definition normalizeWebDataSessionRequest (req : createWebDataSessionRequest) : createWebDataSessionRequest :=
  req <| cs_Protocol := normalizeWebDataProtocol ToLower (cs_Protocol req) |> <| cs_Username := TrimSpace (cs_Username req) |> <| cs_Database := TrimSpace (cs_Database req) |>
      <| cs_AuthDatabase := TrimSpace (cs_AuthDatabase req) |> <| cs_TLSMode := ToLower (TrimSpace (cs_TLSMode req)) |> <| cs_Schema := TrimSpace (cs_Schema req) |>
      <| cs_AuthMechanism := ToUpper (TrimSpace (cs_AuthMechanism req)) |> <| cs_ConnectionParams := TrimSpace (cs_ConnectionParams req) |>.
Definition or_saved (mine saved : string) : string := if bool_decide (mine = "") then saved else mine.
Definition applyWebDataCredentialDefaults (req : createWebDataSessionRequest) (c : WebDataCredential) : createWebDataSessionRequest :=
  req <| cs_Protocol := or_saved (cs_Protocol req) (wc_Protocol c) |> <| cs_Username := or_saved (cs_Username req) (wc_Username c) |>
      <| cs_Database := or_saved (cs_Database req) (wc_Database c) |> <| cs_AuthDatabase := or_saved (cs_AuthDatabase req) (wc_AuthDatabase c) |>
      <| cs_RedisDB := if cs_RedisDBSet req then cs_RedisDB req else wc_RedisDB c |> <| cs_TLSMode := or_saved (cs_TLSMode req) (wc_TLSMode c) |>
      <| cs_Schema := or_saved (cs_Schema req) (wc_Schema c) |> <| cs_AuthMechanism := or_saved (cs_AuthMechanism req) (wc_AuthMechanism c) |>
      <| cs_DirectConnection := if cs_DirectConnectionSet req then cs_DirectConnection req else wc_DirectConnection c |>
      <| cs_ConnectionParams := or_saved (cs_ConnectionParams req) (wc_ConnectionParams c) |>.
Definition use_credential (req : createWebDataSessionRequest) (c : WebDataCredential) : H (string * createWebDataSessionRequest * bool) :=
  match decryptWebSSHPassword (wc_EncryptedPassword c) (wc_Nonce c) with
  | Err _ => answer (refuse 500 "已保存密码无法解密，请清除后重新保存")
  | Ok password => hret (password, applyWebDataCredentialDefaults req c, true)
  end.
(** The password to connect with, the request completed by a credential, and
    whether one was used.  [by_id]: the credential is chosen by its number. *)
Definition find_password (user proxyID : N) (by_id : bool) (req : createWebDataSessionRequest) : H (string * createWebDataSessionRequest * bool) :=
  if by_id then
    do credential <- or_answer (on_db (Console.GetWebDataCredentialSecretByID ToLower (Some user) proxyID (cs_CredentialID req))) refused;
    use_credential req credential
  else if bool_decide (cs_Password req = "") then
    do credential <- on_db (Console.GetWebDataCredentialSecret ToLower (Some user) proxyID (cs_Protocol req) (cs_Username req) (cs_Database req) (cs_AuthDatabase req));
    match credential with
    | Ok c => if bool_decide (wc_EncryptedPassword c ≠ "") then use_credential req c else hret (cs_Password req, req, false)
    | Err e => if Is e ErrRecordNotFound then hret (cs_Password req, req, false) else answer (refused e)
    end
  else hret (cs_Password req, req, false).
Definition new_session (user proxyID : N) (req : createWebDataSessionRequest) (target : WebDataTarget) : webDataSession :=
  mkSession_ "" user proxyID (cs_Protocol req) (cs_Username req) (cs_Database req) (cs_AuthDatabase req) (cs_RedisDB req) (cs_TLSMode req) (cs_Schema req) (cs_AuthMechanism req)
    (cs_DirectConnection req) (cs_ConnectionParams req) 0%Z 0%Z target None None.
Definition or_target (req : createWebDataSessionRequest) (target : WebDataTarget) : createWebDataSessionRequest :=
  req <| cs_Protocol := or_saved (cs_Protocol req) (wt_Protocol target) |>.

(** ** Before a session is opened or a connection tested *)
Definition invalid_proxy : Reply := refuse 400 "invalid proxy id".
Definition method_not_allowed : Reply := refuse 405 "method not allowed".
Definition unauthorized : Reply := refuse 401 "unauthorized".
Definition active_target (user proxyID : N) : H WebDataTarget :=
  do found <- or_answer (on_db (Console.GetWebDataTarget ToLower ToUpper (Some user) proxyID)) refused;
  let target := fst found in
  stop_if negb (bool_decide (wt_EffectiveStatus target = "active")) with refuse 409 (wt_EffectiveStatusMessage target);
  hret target.
Definition start_request (r : Request) (suffix : string) (body : option createWebDataSessionRequest) : H (N * N * createWebDataSessionRequest * WebDataTarget) :=
  stop_if negb (bool_decide (rq_Method r = "POST")) with method_not_allowed;
  do user <- given (rq_User r) unauthorized;
  do proxyID <- given (parseWebDataProxyID (rq_Path r) suffix) invalid_proxy;
  do req <- given body (refuse 400 "invalid request body");
  do target <- active_target user proxyID;
  hret (user, proxyID, normalizeWebDataSessionRequest req, target).

(** registerWebDataAgentSession: an error is logged.  The object it announces
    is named by its client. *)
Definition registerWebDataAgentSession (session : webDataSession) (s : St) : St :=
  let capabilities := if bool_decide (ws_protocol session = "s3") then ["data.schema"] else ["data.schema"; "data.query"] in
  let handle := mkHandle (mkDescr (ws_token session) (ws_userID session) (ws_proxyID session) (wt_ApplicationID (ws_target session)) (ws_protocol session) capabilities 0)
    None (Some (default 0%N (ws_client session))) None in
  match Access.Register handle (st_access s) with
  | (Ok (_, u), access) => mkState (st_db s) (<[ ws_token session := session <| ws_agent := Some u |> ]> (st_sessions s)) access (st_net s)
  | (Err _, access) => mkState (st_db s) (st_sessions s) access (st_net s)
  end.
Definition profile_of (req : createWebDataSessionRequest) (encryptedPassword nonce : string) : WebDataCredentialProfile :=
  mkProfile 0 "" (cs_Protocol req) (cs_Username req) (cs_Database req) (cs_AuthDatabase req) (cs_RedisDB req) (cs_TLSMode req) (cs_Schema req) (cs_AuthMechanism req)
    (cs_DirectConnection req) (cs_ConnectionParams req) encryptedPassword nonce true.
(** Saving the password of a connection that was opened; the connection is
    closed again when that fails. *)
Definition keep_password (r : Request) (user proxyID : N) (req : createWebDataSessionRequest) (target : WebDataTarget) (password : string) (session : webDataSession) : H unit :=
  let audit success text := recordWebDataAudit r target user "save_credential" (cs_Protocol req) (webDataAuditDatabase req) "" success 0 0 text in
  let failed e code : H unit := do _ <- audit false (Error e); do _ <- (λ s, (inr tt, close session s)); answer (refuse code (Error e)) in
  do sealed <- on_net (encryptWebSSHPassword password);
  match sealed with
  | Err e => failed e 500
  | Ok (encryptedPassword, nonce) =>
      do saved <- on_db (Console.SaveWebDataCredentialProfile ToLower ToUpper (rq_Now r) (Some user) proxyID (profile_of req encryptedPassword nonce));
      match saved with Err e => failed e (webDataHTTPStatus e) | Ok _ => audit true "" end
  end.
Definition touch (r : Request) (user proxyID : N) (req : createWebDataSessionRequest) : H unit :=
  if N.ltb 0 (cs_CredentialID req) then ignore_db (Console.TouchWebDataCredentialByID ToLower (rq_Now r) (Some user) proxyID (cs_CredentialID req))
  else ignore_db (Console.TouchWebDataCredential ToLower (rq_Now r) (Some user) proxyID (cs_Protocol req) (cs_Username req) (cs_Database req) (cs_AuthDatabase req)).
Definition handleCreateWebDataSessionHTTP (r : Request) (body : option createWebDataSessionRequest) : H Reply :=
  do start <- start_request r "/session" body;
  let '(user, proxyID, req, target) := start in
  do found <- find_password user proxyID (N.ltb 0 (cs_CredentialID req)) req;
  let '(password, req, savedCredential) := found in
  let req := or_target req target in
  stop_if negb (bool_decide (cs_Protocol req = wt_Protocol target)) with refuse 400 "协议类型与应用类型不匹配";
  let keep := cs_SaveCredential req && negb savedCredential && negb (bool_decide (password = "")) in
  stop_if keep && negb has_key with refuse 500 "WebData 凭据加密密钥未配置";
  let session := new_session user proxyID req target in
  let audit success elapsed text := recordWebDataAudit r target user "open_session" (cs_Protocol req) (webDataAuditDatabase req) "" success 0 elapsed text in
  do client <- on_net (openWebDataClient session password);
  do elapsed <- on_net since;
  match client with
  | Err _ => do _ <- audit false elapsed "connection failed"; answer (refuse 400 "连接失败")
  | Ok client =>
      let session := session <| ws_client := client |> in
      do _ <- (if keep then keep_password r user proxyID req target password session else if savedCredential then touch r user proxyID req else hret tt);
      do created <- create (rq_Now r) session;
      match created with
      | Err _ => do _ <- (λ s, (inr tt, close session s)); do _ <- audit false elapsed "failed to create session"; answer (refuse 500 "failed to create session")
      | Ok created =>
          do _ <- (λ s, (inr tt, registerWebDataAgentSession created s));
          do _ <- audit true elapsed "";
          hret (mkReply 200 "success" (PSession (ws_token created) (ws_expiresAt created) (webDataCapabilities (ws_protocol created))))
      end
  end.
Definition handleTestWebDataConnectionHTTP (r : Request) (body : option createWebDataSessionRequest) : H Reply :=
  do start <- start_request r "/test" body;
  let '(user, proxyID, req, target) := start in
  do found <- find_password user proxyID (N.ltb 0 (cs_CredentialID req) && bool_decide (cs_Password req = "")) req;
  let '(password, req, _) := found in
  let req := or_target req target in
  stop_if negb (bool_decide (cs_Protocol req = wt_Protocol target)) with refuse 400 "协议类型与应用类型不匹配";
  let session := new_session user proxyID req target in
  let audit success elapsed text := recordWebDataAudit r target user "test_connection" (cs_Protocol req) (webDataAuditDatabase req) "" success 0 elapsed text in
  do client <- on_net (openWebDataClient session password);
  do elapsed <- on_net since;
  match client with
  | Err _ => do _ <- audit false elapsed "connection test failed"; answer (refuse 400 "测试连接失败")
  | Ok client =>
      do _ <- (λ s, (inr tt, close (session <| ws_client := client |>) s));
      do _ <- audit true elapsed "";
      hret (refuse 200 "连接测试成功")
  end.

(** ** Credentials *)
Definition delete_credential (r : Request) (user proxyID : N) (target : WebDataTarget) : H Reply :=
  let database := TrimSpace (rq_Query r "database") in
  let audit protocol success text := recordWebDataAudit r target user "delete_credential" protocol database "" success 0 0 text in
  let id := ParseUint64_value (TrimSpace (rq_Query r "id")) in
  let failed protocol e : H Reply := do _ <- audit protocol false (Error e); answer (refused e) in
  do deleted <- (if N.ltb 0 id then on_db (Console.DeleteWebDataCredentialByID ToLower (Some user) proxyID id)
                 else on_db (Console.DeleteWebDataCredential ToLower (Some user) proxyID (rq_Query r "protocol") (rq_Query r "username") (rq_Query r "database") (rq_Query r "auth_database")));
  match deleted with
  | Err e => failed (if N.ltb 0 id then wt_Protocol target else rq_Query r "protocol") e
  | Ok _ => do _ <- audit (wt_Protocol target) true ""; hret (refuse 200 "success")
  end.
Definition save_credential (r : Request) (user proxyID : N) (target : WebDataTarget) (req : webDataCredentialRequest) : H Reply :=
  let remember := default true (cq_RememberPassword req) in
  let passwordChanged := negb remember || N.eqb (cq_ID req) 0 || negb (bool_decide (cq_Password req = "")) in
  stop_if remember && passwordChanged && negb has_key with refuse 500 "WebData 凭据加密密钥未配置";
  do sealed <- (if remember && passwordChanged then or_answer (on_net (encryptWebSSHPassword (cq_Password req))) (λ e, refuse 500 (Error e)) else hret ("", ""));
  let protocol := normalizeWebDataProtocol ToLower (cq_Protocol req) in
  let profile := mkProfile (cq_ID req) (cq_Name req) protocol (TrimSpace (cq_Username req)) (TrimSpace (cq_Database req)) (TrimSpace (cq_AuthDatabase req)) (cq_RedisDB req)
    (ToLower (TrimSpace (cq_TLSMode req))) (cq_Schema req) (cq_AuthMechanism req) (cq_DirectConnection req) (cq_ConnectionParams req) (fst sealed) (snd sealed) passwordChanged in
  let audit success text := recordWebDataAudit r target user "save_credential" protocol (audit_database protocol (cq_RedisDB req) (cq_Database req)) "" success 0 0 text in
  do saved <- on_db (Console.SaveWebDataCredentialProfile ToLower ToUpper (rq_Now r) (Some user) proxyID profile);
  match saved with
  | Err e => do _ <- audit false (Error e); answer (refused e)
  | Ok credential => do _ <- audit true ""; hret (mkReply 200 "success" (PCredential credential))
  end.
Definition handleWebDataCredentialHTTP (r : Request) (body : option webDataCredentialRequest) : H Reply :=
  stop_if negb (bool_decide (rq_Method r ∈ ["DELETE"; "POST"; "PUT"])) with method_not_allowed;
  do user <- given (rq_User r) unauthorized;
  do proxyID <- given (parseWebDataProxyID (rq_Path r) "/credential") invalid_proxy;
  do found <- or_answer (on_db (Console.GetWebDataTarget ToLower ToUpper (Some user) proxyID)) refused;
  if bool_decide (rq_Method r = "DELETE") then delete_credential r user proxyID (fst found)
  else do req <- given body (refuse 400 "invalid request body"); save_credential r user proxyID (fst found) req.
Definition handleWebDataTargetHTTP (r : Request) : H Reply :=
  stop_if negb (bool_decide (rq_Method r = "GET")) with method_not_allowed;
  do user <- given (rq_User r) unauthorized;
  do proxyID <- given (parseWebDataProxyID (rq_Path r) "") invalid_proxy;
  do found <- or_answer (on_db (Console.GetWebDataTarget ToLower ToUpper (Some user) proxyID)) refused;
  hret (mkReply 200 "success" (PTarget (fst found) (snd found))).

(** ** Sessions *)
(** The session of the token, if it is the user's. *)
Definition own_session (r : Request) (suffix : string) : H (N * webDataSession) :=
  do user <- given (rq_User r) unauthorized;
  do token <- given (parseWebDataSessionToken (rq_Path r) suffix) (refuse 400 "invalid webdata session");
  do session <- get (rq_Now r) token;
  match session with
  | Some session => if bool_decide (ws_userID session = user) then hret (user, session) else answer (refuse 401 "invalid or expired webdata session")
  | None => answer (refuse 401 "invalid or expired webdata session")
  end.
Definition ensureWebDataSessionActive (actor : option N) (session : webDataSession) : H unit :=
  do found <- or_answer (on_db (Console.GetWebDataTarget ToLower ToUpper actor (ws_proxyID session))) (λ e, refuse 409 (Error e));
  stop_if negb (bool_decide (wt_EffectiveStatus (fst found) = "active")) with refuse 409 (wt_EffectiveStatusMessage (fst found));
  hret tt.
Definition audit_execute (r : Request) (user : N) (session : webDataSession) (statement : string) (success : bool) (result : webDataExecuteResponse) : H unit :=
  if webDataShouldAuditExecute (ws_protocol session) statement then
    ignore_db (Console.RecordWebDataAudit ToLower encode_details (mkAudit user "" (ws_proxyID session) "" (wt_ApplicationID (ws_target session)) "" (ws_protocol session) "execute"
      (webDataAuditSessionDatabase session) (webDataAuditPreview (ws_protocol session) statement) (webDataStatementHash statement) success (er_AffectedRows result) (er_Error result)
      (er_ElapsedMS result) (rq_ClientIP r) [("client_ip_source", DText (rq_ClientIPSource r))]))
  else hret tt.
Definition handleWebDataExecuteHTTP (r : Request) (body : option string) : H Reply :=
  do own <- own_session r "/execute";
  let '(user, session) := own in
  do _ <- ensureWebDataSessionActive (rq_Actor r) session;
  do statement <- given body (refuse 400 "invalid request body");
  let statement := TrimSpace statement in
  stop_if bool_decide (statement = "") with refuse 400 "请输入要执行的命令";
  stop_if Z.ltb webDataStatementMaxSize (Z.of_nat (String.length statement)) with refuse 400 "命令过大";
  do executed <- on_net (execute session statement);
  do elapsed <- on_net since;
  let result := (default (of_type "message") (fst executed)) <| er_ElapsedMS := elapsed |> in
  let result := match snd executed with Some e => result <| er_Error := Error e |> | None => result end in
  let result := result <| er_AffectedRows := normalizeAffectedRows (er_AffectedRows result) |> in
  do _ <- audit_execute r user session statement (negb (bool_decide (is_Some (snd executed)))) result;
  hret (mkReply 200 "success" (PResult result)).
Definition handleDeleteWebDataSessionHTTP (r : Request) : H Reply :=
  do own <- own_session r "";
  let '(user, session) := own in
  do elapsed <- on_net since;
  do _ <- recordWebDataAudit r (ws_target session) user "close_session" (ws_protocol session) (webDataAuditSessionDatabase session) "" true 0 elapsed "";
  do _ <- (λ s, (inr tt, delete_ (default "" (parseWebDataSessionToken (rq_Path r) "")) s));
  hret (refuse 200 "success").
Definition handleWebDataSessionHTTP (r : Request) (body : option string) : H Reply :=
  if bool_decide (rq_Method r = "POST") then handleWebDataExecuteHTTP r body
  else if bool_decide (rq_Method r = "DELETE") then handleDeleteWebDataSessionHTTP r else answer method_not_allowed.
(** Metadata and objects: what the driver says of the names in the query. *)
Definition handleWebDataMetadataHTTP (r : Request) : H Reply :=
  stop_if negb (bool_decide (rq_Method r = "GET")) with method_not_allowed;
  do own <- own_session r "/metadata";
  let '(user, session) := own in
  do _ <- ensureWebDataSessionActive (rq_Actor r) session;
  do nodes <- on_net (describe session (map (λ k, TrimSpace (rq_Query r k)) ["type"; "database"; "schema"; "name"]));
  hret (mkReply 200 "success" (PText nodes)).
Definition handleWebDataObjectHTTP (r : Request) : H Reply :=
  stop_if negb (bool_decide (rq_Method r = "GET")) with method_not_allowed;
  do own <- own_session r "/object";
  let '(user, session) := own in
  do _ <- ensureWebDataSessionActive (rq_Actor r) session;
  stop_if bool_decide (TrimSpace (rq_Query r "type") = "") with refuse 400 "object type is required";
  do detail <- on_net (describe session (map (λ k, TrimSpace (rq_Query r k)) ["type"; "database"; "schema"; "name"; "key"]));
  hret (mkReply 200 "success" (PText detail)).
End Web.
End Web.
