(* ===== verification/DataConsoleTheorems.v ===== *)
(** * Properties of the data console

    Credentials belong to the user and the access they were saved for.  A
    statement runs only in a session of its user, on an access that is active,
    and is audited.  Connections, sessions and the registry of live connections
    stay in step through any sequence of requests. *)

From S2P Require Import Prelude Sha256 ToolTypes ToolDisclosure IamDao Iam ControlDao NetAddr ControlPlane AccessSession DataConsoleText DataConsole DataConsoleHttp.

Section Credentials.
Context {DB : Type} {i_iam : IamGorm DB} {i_cp : CpGorm DB} {i_co : ConsoleGorm DB} {l_co : ConsoleLaws DB}.
Context (ToLower ToUpper : string → string) (encode_details : gmap string detail → string).

(** ** Queries that change neither table *)
Definition asks {A} (m : Op DB A) : Prop := ∀ s, credentials (snd (m s)) = credentials s ∧ audits (snd (m s)) = audits s.
Lemma asks_ret {A} (a : A) : asks (ret a : Op DB A). Proof. done. Qed.
Lemma asks_throw {A} e : asks (throw e : Op DB A). Proof. done. Qed.
Lemma asks_bind {A B} (m : Op DB A) (k : A → Op DB B) : asks m → (∀ a, asks (k a)) → asks (bind m k).
Proof.
  intros Hm Hk s. unfold bind. specialize (Hm s). destruct (m s) as [[a|e] s1]; [|done]. destruct (Hk a s1) as [H1 H2], Hm as [H3 H4]. cbn [snd] in *. by rewrite H1, H2, H3, H4.
Qed.
Lemma asks_map_err {A} f (m : Op DB A) : asks m → asks (map_err f m).
Proof. intros Hm s. specialize (Hm s). unfold map_err. by destruct (m s) as [[]]. Qed.
Lemma asks_or_nil {A} (m : Op DB A) : asks m → asks (Repo.or_nil m).
Proof. intros Hm s. specialize (Hm s). unfold Repo.or_nil. destruct (m s) as [[a|e] s']; [done|]. by destruct (Is e ErrRecordNotFound). Qed.
Lemma asks_row t p : asks (First_ t p : Op DB _). Proof. intros s. apply rows_First_frame. Qed.
Lemma asks_rows t p : asks (Find_ t p : Op DB _). Proof. intros s. apply rows_Find_frame. Qed.
Lemma asks_account {Row} `{!IamTable Row} preload p : asks (First (Row := Row) preload p : Op DB _). Proof. intros s. apply accounts_First_frame. Qed.
Lemma asks_First p : asks (cred_First p : Op DB _).
Proof. intros s. destruct (cred_First p s) as [x s'] eqn:E. apply cred_First_law in E as (H1 & H2 & _). by split. Qed.
Lemma asks_Find p : asks (cred_Find p : Op DB _).
Proof. intros s. destruct (cred_Find p s) as [x s'] eqn:E. apply cred_Find_law in E as (H1 & H2 & _). by split. Qed.
Lemma asks_option {A} (o : option A) e : asks (of_option o e : Op DB A). Proof. intros s. by destruct o. Qed.
Lemma asks_if {A} (b : bool) (m n : Op DB A) : asks m → asks n → asks (if b then m else n). Proof. by destruct b. Qed.
Create HintDb asking.
#[local] Hint Resolve asks_ret asks_throw asks_bind asks_map_err asks_or_nil asks_row asks_rows asks_account asks_First asks_Find asks_option asks_if : asking.
Lemma asks_visible actor ty id : asks (Control.requireVisibleResource (DB := DB) actor ty id).
Proof.
  unfold Control.requireVisibleResource, Control.visibleResourceIDs, Control.isRootAdministrator, Repo.GetRootOrganization, Repo.GetIAMRoleBinding, CpDao.ListIAMResourceIDsForSubject.
  apply asks_bind; [destruct actor as [u|]; [|auto with asking]|intros [ids|]; auto with asking].
  apply asks_bind; [|intros []; auto with asking]. apply asks_bind; [auto with asking|]. intros [root|]; [|auto with asking]. apply asks_bind; auto with asking.
Qed.
Lemma asks_plain {A} (m : Op (World DB unit) A) : (∀ db pl, let w := snd (m (mkWorld db pl tt)) in credentials (wd_db w) = credentials db ∧ audits (wd_db w) = audits db) → asks (Console.plain m).
Proof. intros Hm s. unfold Console.plain. specialize (Hm s EntryPlanes.Unified.NewEntry). by destruct (m _) as [r w]. Qed.
Lemma status_asks x a : asks (Console.plain (Control.proxyEffectiveStatus (DB := DB) (OS := unit) x a)).
Proof.
  apply asks_plain. intros db pl. cbn zeta. unfold Control.proxyEffectiveStatus. destruct (Z.eqb _ _); [done|]. destruct (negb _); [done|]. destruct a as [a|]; [|done].
  unfold bind, Control.try, Control.validateProxyApplication. destruct (a_EdgeIDs a) as [|e es]; [done|]. unfold bind, map_err, Control.on_db, CpDao.GetEdge. cbn [wd_db].
  pose proof (rows_First_frame (DB := DB) TEdge (λ r : Edge, bool_decide (e_ID r = e)) db) as H. destruct (First_ TEdge _ db) as [[edge|er] db']; cbn [wd_db snd] in *; [|done].
  by destruct (_ && _).
Qed.
#[local] Hint Resolve asks_visible status_asks : asking.
Lemma asks_target actor id : asks (Console.loadWebDataTarget (DB := DB) ToLower actor id).
Proof.
  unfold Console.loadWebDataTarget, CpDao.GetProxyByID, CpDao.GetApplicationByID. apply asks_if; [auto with asking|]. apply asks_bind; [auto with asking|]. intros _.
  apply asks_bind; [exact (asks_row TAccess _)|]. intros x. apply asks_bind; [exact (asks_row TApplication _)|]. intros a. auto with asking.
Qed.
#[local] Hint Resolve asks_target : asking.
Lemma asks_validate actor id : asks (Console.validateWebDataProxy (DB := DB) ToLower actor id).
Proof. unfold Console.validateWebDataProxy. auto with asking. Qed.
Lemma asks_user actor : asks (Console.requireWebSSHUserID (DB := DB) actor). Proof. apply asks_option. Qed.
Lemma asks_get actor id : asks (Console.GetWebDataTarget (DB := DB) ToLower ToUpper actor id).
Proof.
  unfold Console.GetWebDataTarget, Console.loadWebDataCredentials, ConsoleDao.ListWebDataCredentialsByProxyAndUser. apply asks_bind; [auto with asking|]. intros t. destruct actor; auto 10 with asking.
Qed.
#[local] Hint Resolve asks_validate asks_user asks_get : asking.

(** ** Credentials of others *)
Definition others (user proxyID : N) (s : DB) : gmap N WebDataCredential := filter (λ kc : N * WebDataCredential, ConsoleDao.of_user proxyID user kc.2 = false) (credentials s).
Definition modest (user proxyID : N) {A} (m : Op DB A) : Prop := ∀ s, others user proxyID (snd (m s)) = others user proxyID s ∧ audits (snd (m s)) = audits s.
Lemma others_same u p (s s' : DB) : (∀ k, credentials s' !! k = credentials s !! k ∨
    (∀ c, credentials s !! k = Some c → ConsoleDao.of_user p u c = true) ∧ (∀ c, credentials s' !! k = Some c → ConsoleDao.of_user p u c = true)) → others u p s' = others u p s.
Proof.
  intros H. apply map_eq. intros k. apply option_eq. intros c. unfold others. rewrite !map_lookup_filter_Some. cbn [snd]. destruct (H k) as [->|[H1 H2]]; [done|].
  split; intros [E F]; exfalso; [specialize (H2 _ E)|specialize (H1 _ E)]; congruence.
Qed.
Lemma modest_asks u p {A} (m : Op DB A) : asks m → modest u p m.
Proof. intros Hm s. destruct (Hm s) as [H1 H2]. split; [|done]. unfold others. by rewrite H1. Qed.
Lemma modest_bind u p {A B} (m : Op DB A) (k : A → Op DB B) : modest u p m → (∀ a, modest u p (k a)) → modest u p (bind m k).
Proof.
  intros Hm Hk s. unfold bind. specialize (Hm s). destruct (m s) as [[a|e] s1]; [|done]. destruct (Hk a s1) as [H1 H2], Hm as [H3 H4]. cbn [snd] in *. by rewrite H1, H2, H3, H4.
Qed.
Lemma modest_if u p {A} (b : bool) (m n : Op DB A) : modest u p m → modest u p n → modest u p (if b then m else n). Proof. by destruct b. Qed.
Lemma modest_update_at u p q f s : (∀ c, wc_ID (f c) = wc_ID c ∧ wc_UserID (f c) = wc_UserID c ∧ wc_ProxyID (f c) = wc_ProxyID c) →
  (∀ k c, credentials s !! k = Some c → q c = true → ConsoleDao.of_user p u c = true) →
  others u p (snd (cred_Updates q f s)) = others u p s ∧ audits (snd (cred_Updates q f s)) = audits s.
Proof.
  intros Hf Hq. destruct (cred_Updates q f s) as [x s'] eqn:E. apply cred_Updates_law in E as [Ha Hc]; [|intros c; apply Hf]. cbn [snd]. split; [|done].
  apply others_same. intros k. destruct x as [u'|e]; [|left; by rewrite Hc]. rewrite Hc, lookup_fmap. destruct (credentials s !! k) as [c|] eqn:Ek; [|by left]. cbn.
  destruct (q c) eqn:Eq; [|by left]. right. split; intros c' [= <-]; [by eapply Hq|]. destruct (Hf c) as (_ & H1 & H2). unfold ConsoleDao.of_user. rewrite H1, H2. by eapply Hq.
Qed.
Lemma modest_updates u p q f : (∀ c, wc_ID (f c) = wc_ID c ∧ wc_UserID (f c) = wc_UserID c ∧ wc_ProxyID (f c) = wc_ProxyID c) → (∀ c, q c = true → ConsoleDao.of_user p u c = true) →
  modest u p (cred_Updates q f).
Proof. intros Hf Hq s. apply modest_update_at; [done|]. intros k c _. apply Hq. Qed.
Lemma modest_delete u p q : (∀ c, q c = true → ConsoleDao.of_user p u c = true) → modest u p (cred_Delete q).
Proof.
  intros Hq s. destruct (cred_Delete q s) as [x s'] eqn:E. apply cred_Delete_law in E as [Ha Hc]. cbn [snd]. split; [|done].
  apply others_same. intros k. destruct x as [u'|e]; [|left; by rewrite Hc]. rewrite Hc, lookup_omap. destruct (credentials s !! k) as [c|] eqn:Ek; [|by left]. cbn.
  destruct (q c) eqn:Eq; [|by left]. right. split; [intros c' [= <-]; by apply Hq|done].
Qed.
Lemma modest_create u p c : ConsoleDao.of_user p u c = true → modest u p (cred_Create c).
Proof.
  intros Hc s. destruct (cred_Create c s) as [x s'] eqn:E. apply cred_Create_law in E as [Ha H]. cbn [snd]. split; [|done]. apply others_same. intros k.
  destruct x as [u'|e]; [|left; by rewrite H]. destruct H as (id & Hn & ->). destruct (decide (k = id)) as [->|Hne]; [|left; by rewrite lookup_insert_ne].
  right. rewrite Hn, lookup_insert_eq. split; [done|]. by intros c' [= <-].
Qed.
Lemma named_own p u a b c d x : ConsoleDao.named p u a b c d x = true → ConsoleDao.of_user p u x = true.
Proof. unfold ConsoleDao.named. rewrite !andb_true_iff. tauto. Qed.
Lemma numbered_own id p u x : ConsoleDao.numbered_of id p u x = true → ConsoleDao.of_user p u x = true.
Proof. unfold ConsoleDao.numbered_of. rewrite andb_true_iff. tauto. Qed.
#[local] Hint Resolve modest_asks modest_bind modest_if modest_updates modest_delete modest_create named_own numbered_own : asking.
Lemma modest_upsert now u p c : ConsoleDao.of_user p u c = true → modest u p (ConsoleDao.UpsertWebDataCredential now c).
Proof.
  intros Hc s. unfold ConsoleDao.UpsertWebDataCredential, ConsoleDao.GetWebDataCredential. destruct (cred_First _ s) as [x s1] eqn:E. apply cred_First_law in E as (Ha & Hs & Hx).
  unfold others. rewrite <- Hs, <- Ha. fold (others u p s1). destruct x as [old|e]; [|by apply modest_create]. destruct Hx as [Hold Hn]. apply named_own in Hn.
  apply modest_update_at; [by intros []|]. intros k c' Hk Hid. apply bool_decide_eq_true in Hid. pose proof (credentials_keyed _ _ _ Hk) as Hkey. rewrite Hs, <- Hkey, Hid, Hold in Hk.
  injection Hk as <-. unfold ConsoleDao.of_user in *. apply andb_true_iff in Hc as [H1%bool_decide_eq_true H2%bool_decide_eq_true]. by rewrite H1, H2 in Hn.
Qed.
Lemma credential_of_own p u profile : ConsoleDao.of_user p u (Console.credential_of ToLower ToUpper p u profile) = true.
Proof.
  unfold ConsoleDao.of_user, Console.credential_of, Console.normalizeWebDataCredentialIdentity. cbn. by destruct (bool_decide (_ = "")); cbn; rewrite !bool_decide_eq_true_2.
Qed.
Lemma modest_user u p {A} (k : N → Op DB A) : modest u p (k u) → modest u p (bind (Console.requireWebSSHUserID (Some u)) k).
Proof. done. Qed.
Lemma modest_save now u p profile : modest u p (Console.SaveWebDataCredentialProfile (DB := DB) ToLower ToUpper now (Some u) p profile).
Proof.
  unfold Console.SaveWebDataCredentialProfile. apply modest_bind; [auto with asking|]. intros t. apply modest_user. cbn zeta. do 3 (apply modest_if; [auto with asking|]).
  pose proof (credential_of_own p u profile) as Hown. set (c := Console.credential_of ToLower ToUpper p u profile) in *. unfold ConsoleDao.GetWebDataCredentialByID, ConsoleDao.GetWebDataCredential.
  apply modest_if; (apply modest_bind; [|intros _; apply modest_asks, asks_bind; auto with asking]).
  - unfold ConsoleDao.UpdateWebDataCredential. apply modest_if; [auto with asking|]. apply modest_updates; [by intros []; destruct (_ || _)|].
    intros c' H%numbered_own. unfold ConsoleDao.of_user in *. apply andb_true_iff in Hown as [H1%bool_decide_eq_true H2%bool_decide_eq_true]. by rewrite H1, H2 in H.
  - by apply modest_upsert.
Qed.

(** The calls of the control plane on credentials. *)
Inductive cred_call :=
| CTarget | CSecret (protocol username database authDatabase : string) | CSecretByID (id : N) | CSave (now : Time) (profile : WebDataCredentialProfile)
| CTouch (now : Time) (protocol username database authDatabase : string) | CTouchByID (now : Time) (id : N)
| CDelete (protocol username database authDatabase : string) | CDeleteByID (id : N).
Definition run_cred (actor : option N) (proxyID : N) (c : cred_call) : Op DB unit :=
  match c with
  | CTarget => Console.GetWebDataTarget ToLower ToUpper actor proxyID ;; ret tt
  | CSecret a b c d => Console.GetWebDataCredentialSecret ToLower actor proxyID a b c d ;; ret tt
  | CSecretByID id => Console.GetWebDataCredentialSecretByID ToLower actor proxyID id ;; ret tt
  | CSave now profile => Console.SaveWebDataCredentialProfile ToLower ToUpper now actor proxyID profile ;; ret tt
  | CTouch now a b c d => Console.TouchWebDataCredential ToLower now actor proxyID a b c d
  | CTouchByID now id => Console.TouchWebDataCredentialByID ToLower now actor proxyID id
  | CDelete a b c d => Console.DeleteWebDataCredential ToLower actor proxyID a b c d
  | CDeleteByID id => Console.DeleteWebDataCredentialByID ToLower actor proxyID id
  end.
Lemma modest_cred u p c : modest u p (run_cred (Some u) p c).
Proof.
  destruct c; cbn [run_cred].
  - apply modest_bind; auto with asking.
  - apply modest_bind; [|auto with asking]. unfold Console.GetWebDataCredentialSecret. apply modest_bind; [auto with asking|]. intros _. apply modest_user. unfold ConsoleDao.GetWebDataCredential.
    apply modest_asks, asks_bind; auto with asking.
  - apply modest_bind; [|auto with asking]. unfold Console.GetWebDataCredentialSecretByID, ConsoleDao.GetWebDataCredentialByID. apply modest_if; [auto with asking|].
    apply modest_asks, asks_bind; [auto with asking|]. intros t. apply asks_bind; [auto with asking|]. intros u'. apply asks_bind; auto with asking.
  - apply modest_bind; [apply modest_save|auto with asking].
  - unfold Console.TouchWebDataCredential. apply modest_if; [auto with asking|]. apply modest_bind; [auto with asking|]. intros _. apply modest_user. apply modest_updates; [by intros []|]. intros c. apply named_own.
  - unfold Console.TouchWebDataCredentialByID. apply modest_if; [auto with asking|]. apply modest_bind; [auto with asking|]. intros _. apply modest_user. apply modest_updates; [by intros []|]. intros c. apply numbered_own.
  - unfold Console.DeleteWebDataCredential. apply modest_bind; [auto with asking|]. intros _. apply modest_user. apply modest_delete. intros c. apply named_own.
  - unfold Console.DeleteWebDataCredentialByID. apply modest_bind; [auto with asking|]. intros _. apply modest_user. apply modest_if; [auto with asking|]. apply modest_delete. intros c. apply numbered_own.
Qed.
Lemma asks_nobody {A} (k : N → Op DB A) : asks (bind (Console.requireWebSSHUserID None) k). Proof. done. Qed.
Lemma asks_anonymous p c : asks (run_cred None p c).
Proof.
  destruct c; cbn [run_cred]; unfold Console.GetWebDataCredentialSecret, Console.GetWebDataCredentialSecretByID, Console.SaveWebDataCredentialProfile, Console.TouchWebDataCredential,
    Console.TouchWebDataCredentialByID, Console.DeleteWebDataCredential, Console.DeleteWebDataCredentialByID;
  repeat first [solve [auto with asking]|apply asks_nobody|apply asks_if; [apply asks_throw|]|apply asks_bind; [|intros ?]].
Qed.
Definition owned (user proxyID : N) (s : DB) (c : WebDataCredential) : Prop := credentials s !! wc_ID c = Some c ∧ wc_UserID c = user ∧ wc_ProxyID c = proxyID.
Lemma of_user_owned u p s c : credentials s !! wc_ID c = Some c → ConsoleDao.of_user p u c = true → owned u p s c.
Proof. intros Hc. unfold ConsoleDao.of_user. rewrite andb_true_iff, !bool_decide_eq_true. by intros [? ?]. Qed.
Lemma first_owned u p q s c s' : (∀ c, q c = true → ConsoleDao.of_user p u c = true) → cred_First q s = (Ok c, s') → owned u p s c.
Proof. intros Hq E. apply cred_First_law in E as (_ & _ & Hc & Hp). apply of_user_owned; [done|by apply Hq]. Qed.
Lemma owned_eq u p s s' c : credentials s' = credentials s → owned u p s' c → owned u p s c.
Proof. unfold owned. by intros ->. Qed.
Lemma secret_owned u p a b c d s x s' : Console.GetWebDataCredentialSecret (DB := DB) ToLower (Some u) p a b c d s = (Ok x, s') →
  ∃ row, owned u p s row ∧ x = Console.webDataCredentialSecretFromModel row.
Proof.
  unfold Console.GetWebDataCredentialSecret. unfold bind at 1. destruct (asks_validate (Some u) p s) as [Hs _]. destruct (Console.validateWebDataProxy ToLower (Some u) p s) as [[v|e] s1]; [|done].
  cbn [snd] in Hs. unfold bind, Console.requireWebSSHUserID, of_option. cbn. unfold ConsoleDao.GetWebDataCredential. destruct (cred_First _ s1) as [[row|e] s2] eqn:E; [|done]. intros [= <- _].
  exists row. split; [|done]. apply (owned_eq _ _ _ s1); [done|]. eapply first_owned; [|exact E]. intros r. apply named_own.
Qed.
Lemma secret_by_id_owned u p id s x s' : Console.GetWebDataCredentialSecretByID (DB := DB) ToLower (Some u) p id s = (Ok x, s') →
  ∃ row, owned u p s row ∧ x = Console.webDataCredentialSecretFromModel row.
Proof.
  unfold Console.GetWebDataCredentialSecretByID. destruct (N.eqb id 0); [done|]. unfold bind at 1. destruct (asks_target (Some u) p s) as [Hs _].
  destruct (Console.loadWebDataTarget ToLower (Some u) p s) as [[t|e] s1]; [|done]. cbn [snd] in Hs. unfold bind, Console.requireWebSSHUserID, of_option, ConsoleDao.GetWebDataCredentialByID.
  destruct (cred_First _ s1) as [[row|e] s2] eqn:E; [|done]. destruct (negb _); [done|]. intros [= <- _].
  exists row. split; [|done]. apply (owned_eq _ _ _ s1); [done|]. eapply first_owned; [|exact E]. intros r. apply numbered_own.
Qed.
Lemma views_owned u p s t views s' : Console.GetWebDataTarget (DB := DB) ToLower ToUpper (Some u) p s = (Ok (t, views), s') →
  ∀ v, v ∈ views → ∃ row, owned u p s row ∧ v = Console.webDataCredentialFromModel ToUpper row.
Proof.
  unfold Console.GetWebDataTarget. unfold bind at 1. destruct (asks_target (Some u) p s) as [Hs _]. destruct (Console.loadWebDataTarget ToLower (Some u) p s) as [[t'|e] s1]; [|done]. cbn [snd] in Hs.
  unfold Console.loadWebDataCredentials, bind, ConsoleDao.ListWebDataCredentialsByProxyAndUser. destruct (cred_Find _ s1) as [[l|e] s2] eqn:E; [|done]. intros [= <- <- _] v Hv.
  apply list_elem_of_fmap in Hv as (row & -> & Hrow). exists row. split; [|done]. apply cred_Find_law in E as (_ & _ & Hl). destruct (Hl _ Hrow) as [H1 [H2 _]%andb_true_iff].
  apply (owned_eq _ _ _ s1); [done|]. by apply of_user_owned.
Qed.
(** C35. Saved credentials are private to a user and an access: whatever a user
    asks of them on an access leaves the credentials of every other user and
    access, and the audits, as they are; a password or a list handed out comes
    from rows of that user on that access; without a user nothing changes. *)
Theorem credentials_private user proxyID call (s : DB) :
  (others user proxyID (snd (run_cred (Some user) proxyID call s)) = others user proxyID s ∧ audits (snd (run_cred (Some user) proxyID call s)) = audits s) ∧
  credentials (snd (run_cred None proxyID call s)) = credentials s ∧
  (∀ a b c d x s', Console.GetWebDataCredentialSecret ToLower (Some user) proxyID a b c d s = (Ok x, s') →
     ∃ row, owned user proxyID s row ∧ x = Console.webDataCredentialSecretFromModel row) ∧
  (∀ id x s', Console.GetWebDataCredentialSecretByID ToLower (Some user) proxyID id s = (Ok x, s') →
     ∃ row, owned user proxyID s row ∧ x = Console.webDataCredentialSecretFromModel row) ∧
  (∀ t views s', Console.GetWebDataTarget ToLower ToUpper (Some user) proxyID s = (Ok (t, views), s') →
     ∀ v, v ∈ views → ∃ row, owned user proxyID s row ∧ v = Console.webDataCredentialFromModel ToUpper row).
Proof.
  split_and!; [apply modest_cred|apply modest_cred|apply asks_anonymous| | |].
  - intros a b c d x s'. apply secret_owned.
  - intros id x s'. apply secret_by_id_owned.
  - intros t views s'. apply views_owned.
Qed.
End Credentials.

Section Sessions.
Context {DB : Type} {i_iam : IamGorm DB} {i_cp : CpGorm DB} {i_co : ConsoleGorm DB} {l_co : ConsoleLaws DB} {Net : Type} {i_net : Drivers Net} {l_net : DriversLaws Net}.
Context (ToLower ToUpper : string → string) (encode_details : gmap string detail → string) (has_key : bool) (operation_of : string → string → option string).
#[local] Abbreviation St := (State DB Net).
#[local] Abbreviation H := (Web.H (DB := DB) (Net := Net)).

(** ** Sessions, connections and announcements *)
(** [loose]: sessions that are not, or no longer, in the store. *)
Definition pooled (loose : list webDataSession) (s : St) (x : webDataSession) : Prop := x ∈ loose ∨ ∃ t, st_sessions s !! t = Some x.
Definition announced (h : Handle) (x : webDataSession) : Prop :=
  let d := h_Descriptor h in ds_ID d = ws_token x ∧ ws_agent x = Some (mkUnregister (ws_token x) (ds_Generation d)) ∧ ds_UserID d = ws_userID x ∧ ds_AccessID d = ws_proxyID x ∧
  ds_Protocol d = ws_protocol x ∧ h_Data h = Some (default 0%N (ws_client x)).
Record tidy (loose : list webDataSession) (s : St) : Prop := {
  tidy_key t x : st_sessions s !! t = Some x → ws_token x = t ∧ t ∈ issued (st_net s) ∧ t ≠ "";
  tidy_clients c : c ∈ clients (st_net s) ↔ ∃ x, pooled loose s x ∧ ws_client x = Some c;
  tidy_distinct x y c : pooled loose s x → pooled loose s y → ws_client x = Some c → ws_client y = Some c → x = y;
  tidy_registry t h : handles (st_access s) !! t = Some h → is_Some (h_Data h) → ∃ x, pooled loose s x ∧ ws_token x = t ∧ announced h x;
  tidy_protocol x : pooled loose s x → ws_protocol x = wt_Protocol (ws_target x)
}.
(** Two states that agree on all of this. *)
Definition alike (s s' : St) : Prop := st_sessions s' = st_sessions s ∧ st_access s' = st_access s ∧ clients (st_net s') = clients (st_net s) ∧ issued (st_net s') = issued (st_net s).
Lemma alike_refl s : alike s s. Proof. done. Qed.
Lemma alike_trans s1 s2 s3 : alike s1 s2 → alike s2 s3 → alike s1 s3.
Proof. intros (A1 & A2 & A3 & A4) (B1 & B2 & B3 & B4). unfold alike. by rewrite B1, B2, B3, B4. Qed.
Lemma tidy_alike loose s s' : alike s s' → tidy loose s → tidy loose s'.
Proof.
  intros (A1 & A2 & A3 & A4) [H1 H2 H3 H4 H5]. assert (∀ x, pooled loose s' x ↔ pooled loose s x) as Hp by (intros x; unfold pooled; by rewrite A1). split.
  - intros t x. rewrite A1, A4. apply H1.
  - intros c. rewrite A3, H2. by setoid_rewrite Hp.
  - intros x y c Hx Hy. apply H3; by apply Hp.
  - intros t h. rewrite A2. setoid_rewrite Hp. apply H4.
  - intros x Hx. by apply H5, Hp.
Qed.
(** A session that is nowhere else. *)
Definition lone (x : webDataSession) (loose : list webDataSession) (s : St) : Prop := (x ∉ loose) ∧ ∀ t, st_sessions s !! t ≠ Some x.
Lemma unregister_other u r t h : handles (Access.unregister u r) !! t = Some h →
  handles r !! t = Some h ∧ ¬ (t = un_ID u ∧ ds_Generation (h_Descriptor h) = un_Generation u).
Proof.
  unfold Access.unregister. destruct (handles r !! un_ID u) as [h'|] eqn:E.
  - case_bool_decide as Hg; cbn.
    + rewrite lookup_delete_Some. intros [Hne Hh]. split; [done|]. intros [-> _]. done.
    + intros Hh. split; [done|]. intros [-> Hg']. rewrite E in Hh. injection Hh as ->. done.
  - intros Hh. split; [done|]. intros [-> _]. by rewrite E in Hh.
Qed.
Lemma close_tidy x loose s : lone x loose s → tidy (x :: loose) s → tidy loose (Web.close x s).
Proof.
  intros [Hl Hs] [H1 H2 H3 H4 H5]. assert (∀ y, pooled (x :: loose) s y ↔ y = x ∨ pooled loose s y) as Hp by (intros y; unfold pooled; rewrite elem_of_cons; tauto).
  assert (∀ y, pooled loose s y → y ≠ x) as Hx by (intros y [Hy|[t Hy]] ->; [done|by apply (Hs t)]).
  assert (∀ y, pooled loose (Web.close x s) y ↔ pooled loose s y) as Hq by done.
  assert (issued (st_net (Web.close x s)) = issued (st_net s)) as Hi by (unfold Web.close; cbn; destruct (ws_client x) as [c|]; [apply disconnect_law|done]).
  split.
  - intros t y. rewrite Hi. apply H1.
  - intros c. setoid_rewrite Hq. unfold Web.close. cbn [st_net]. assert (c ∈ clients (match ws_client x with Some c => disconnect c (st_net s) | None => st_net s end) ↔
      c ∈ clients (st_net s) ∧ ws_client x ≠ Some c) as ->.
    { destruct (ws_client x) as [c'|]; [|split; [done|tauto]]. rewrite (proj2 (disconnect_law c' (st_net s))), elem_of_difference, elem_of_singleton. split; intros [A B]; split; congruence. }
    rewrite H2. split.
    + intros [(y & [->|Hy]%Hp & Hc) Hne]; [done|]. by exists y.
    + intros (y & Hy & Hc). split; [exists y; split; [apply Hp; by right|done]|]. intros Hxc. apply (Hx y Hy). apply (H3 y x c); [apply Hp; by right|apply Hp; by left|done|done].
  - intros y z c Hy Hz. apply H3; apply Hp; by right.
  - intros t h Hh Hd. unfold Web.close in Hh. cbn [st_access] in Hh. destruct (ws_agent x) as [u|] eqn:Eu.
    + apply unregister_other in Hh as [Hh Hne]. destruct (H4 _ _ Hh Hd) as (y & [->|Hy]%Hp & Ht & Ha); [|by exists y]. exfalso. destruct Ha as (_ & Ha & _). rewrite Eu in Ha. injection Ha as ->.
      apply Hne. cbn. by rewrite Ht.
    + destruct (H4 _ _ Hh Hd) as (y & [->|Hy]%Hp & Ht & Ha); [|by exists y]. destruct Ha as (_ & Ha & _). congruence.
  - intros y Hy. apply H5, Hp. by right.
Qed.
Lemma lone_close x y loose s : lone x loose s → lone x loose (Web.close y s). Proof. done. Qed.
Lemma close_all_tidy l loose (s : St) : NoDup (l ++ loose) → (∀ x, x ∈ l → ∀ t, st_sessions s !! t ≠ Some x) → tidy (l ++ loose) s → tidy loose (Web.close_all l s).
Proof.
  revert s. induction l as [|x l IH]; intros s Hn Hl Ht; [done|]. cbn [app] in Hn, Ht. apply NoDup_cons in Hn as [Hx Hn]. cbn [Web.close_all fold_left].
  apply IH; [done|intros y Hy; apply Hl; by right|]. apply close_tidy; [|done]. split; [done|]. apply Hl. by left.
Qed.
(** Sessions taken out of the store. *)
Lemma pooled_moved (s : St) m l loose : (∀ x, (x ∈ l ∨ ∃ t, m !! t = Some x) ↔ ∃ t, st_sessions s !! t = Some x) → (∀ t x, m !! t = Some x → st_sessions s !! t = Some x) →
  tidy loose s → tidy (l ++ loose) (Web.with_sessions m s).
Proof.
  intros Hx Hm [H1 H2 H3 H4 H5]. assert (∀ x, pooled (l ++ loose) (Web.with_sessions m s) x ↔ pooled loose s x) as Hp.
  { intros x. unfold pooled. cbn [Web.with_sessions st_sessions]. rewrite <- Hx, elem_of_app. tauto. }
  split; cbn [Web.with_sessions st_sessions st_net st_access].
  - intros t x Ht. by apply H1, Hm.
  - intros c. rewrite H2. by setoid_rewrite Hp.
  - intros x y c Hy Hz. apply H3; by apply Hp.
  - intros t h Hh. setoid_rewrite Hp. by apply H4.
  - intros x Hy. by apply H5, Hp.
Qed.
Lemma stored_nodup loose (s : St) : tidy loose s → NoDup (map_to_list (st_sessions s)).*2.
Proof.
  intros [H1 _ _ _ _]. apply NoDup_fmap_2_strong; [|apply NoDup_map_to_list]. intros [t1 x1] [t2 x2] E1%elem_of_map_to_list E2%elem_of_map_to_list Hx. cbn in *. subst x2.
  apply H1 in E1 as [<- _], E2 as [<- _]. done.
Qed.
Lemma stored_in (s : St) x : x ∈ (map_to_list (st_sessions s)).*2 ↔ ∃ t, st_sessions s !! t = Some x.
Proof.
  rewrite list_elem_of_fmap. split; [intros ([t y] & -> & Ht%elem_of_map_to_list); by exists t|]. intros [t Ht]. exists (t, x). split; [done|]. by apply elem_of_map_to_list.
Qed.
Lemma evict_tidy p loose (s : St) : NoDup loose → (∀ x, x ∈ loose → ∀ t, st_sessions s !! t ≠ Some x) → tidy loose s → tidy loose (Web.evict p s).
Proof.
  intros Hn Hlo Ht. unfold Web.evict. set (l := List.filter p _). assert (∀ x, x ∈ l ↔ (∃ t, st_sessions s !! t = Some x) ∧ p x = true) as Hl.
  { intros x. unfold l. by rewrite list_elem_of_In, filter_In, <- list_elem_of_In, stored_in. }
  apply close_all_tidy.
  - apply NoDup_app. split_and!; [|intros x [[t Hx] _]%Hl Hx'; by apply (Hlo x Hx' t)|done]. apply NoDup_ListNoDup, List.NoDup_filter, NoDup_ListNoDup. by apply (stored_nodup loose).
  - intros x [_ Hx]%Hl t. cbn [Web.with_sessions st_sessions]. rewrite map_lookup_filter_Some. cbn. intros [_ E]. congruence.
  - apply pooled_moved; [|intros t x; rewrite map_lookup_filter_Some; tauto|done]. intros x. rewrite Hl. split.
    + intros [[Hx _]|[t Hx]]; [done|]. rewrite map_lookup_filter_Some in Hx. exists t. apply Hx.
    + intros [t Hx]. destruct (p x) eqn:E; [left; eauto|]. right. exists t. by rewrite map_lookup_filter_Some.
Qed.
Lemma close_all_sessions l (s : St) : st_sessions (Web.close_all l s) = st_sessions s.
Proof. revert s. induction l as [|x l IH]; intros s; [done|]. cbn [Web.close_all fold_left]. etrans; [apply IH|done]. Qed.
Lemma evict_sessions p (s : St) t x : st_sessions (Web.evict p s) !! t = Some x → st_sessions s !! t = Some x.
Proof. unfold Web.evict. rewrite close_all_sessions. cbn. rewrite map_lookup_filter_Some. tauto. Qed.
Lemma close_all_issued l (s : St) : issued (st_net (Web.close_all l s)) = issued (st_net s).
Proof.
  revert s. induction l as [|x l IH]; intros s; [done|]. cbn [Web.close_all fold_left]. etrans; [apply IH|]. unfold Web.close. cbn [st_net]. destruct (ws_client x); [apply disconnect_law|done].
Qed.
Lemma delete_tidy t x (s : St) : st_sessions s !! t = Some x → tidy [] s → tidy [] (Web.close x (Web.with_sessions (delete t (st_sessions s)) s)).
Proof.
  intros Hx Ht. assert (∀ t', st_sessions s !! t' = Some x → t' = t) as Hu by (intros t' Hx'; destruct Ht as [H1 _ _ _ _]; apply H1 in Hx as [<- _], Hx' as [<- _]; done).
  apply close_tidy.
  - split; [by intros ?%elem_of_nil|]. intros t'. cbn. rewrite lookup_delete_Some. intros [Hne Hx']. apply Hne. symmetry. by apply Hu.
  - apply (pooled_moved s _ [x] []); [|intros t' y; rewrite lookup_delete_Some; tauto|done]. intros y. rewrite list_elem_of_singleton. split.
    + intros [->|[t' Hy]]; [by exists t|]. apply lookup_delete_Some in Hy as [_ Hy]. by exists t'.
    + intros [t' Hy]. destruct (decide (t' = t)) as [->|Hne]; [left; congruence|right; exists t'; by rewrite lookup_delete_ne].
Qed.
Lemma store_tidy m access t x (s : St) : tidy [] s → ws_token x = t → t ∈ issued (st_net s) → t ≠ "" → ws_protocol x = wt_Protocol (ws_target x) →
  (∀ t' y, t' ≠ t → m !! t' = Some y ↔ st_sessions s !! t' = Some y) → m !! t = Some x →
  (∀ y, st_sessions s !! t = Some y → ws_client y = ws_client x) → (∀ c, ws_client x = Some c → ∃ y, st_sessions s !! t = Some y) →
  (∀ t' h, handles access !! t' = Some h → is_Some (h_Data h) → t' ≠ t ∧ handles (st_access s) !! t' = Some h ∨ t' = t ∧ announced h x) →
  tidy [] (mkState (st_db s) m access (st_net s)).
Proof.
  intros [H1 H2 H3 H4 H5] Hx Hi Hne Hpr Hm Hmx Hy Hc Ha. assert (∀ y, pooled [] (mkState (st_db s) m access (st_net s)) y ↔ y = x ∨ ∃ t', t' ≠ t ∧ st_sessions s !! t' = Some y) as Hp.
  { intros y. unfold pooled. cbn [st_sessions]. rewrite elem_of_nil. split.
    - intros [[]|[t' E]]. destruct (decide (t' = t)) as [->|n]; [left; congruence|right; exists t'; split; [done|by apply Hm]].
    - intros [->|(t' & n & E)]; right; [by exists t|exists t'; by apply Hm]. }
  assert (∀ t' y, st_sessions s !! t' = Some y → pooled [] s y) as Hin by (intros t' y E; right; by exists t').
  assert (∀ y t' c, t' ≠ t → st_sessions s !! t' = Some y → ws_client y = Some c → ws_client x = Some c → False) as Hfresh.
  { intros y t' c n E Ey Ex. destruct (Hc c Ex) as [z Ez]. assert (y = z) as -> by (apply (H3 y z c); [by eapply Hin|by eapply Hin|done|by rewrite (Hy _ Ez)]).
    apply H1 in E as [E _], Ez as [Ez _]. congruence. }
  split; cbn [st_sessions st_net st_access].
  - intros t' y E. destruct (decide (t' = t)) as [->|n]; [assert (y = x) as -> by congruence; done|]. by apply H1, Hm.
  - intros c. rewrite H2. setoid_rewrite Hp. split.
    + intros (y & [[]%elem_of_nil|[t' E]] & Ec). destruct (decide (t' = t)) as [->|n]; [exists x; split; [by left|by rewrite <- (Hy _ E)]|exists y; split; [right; by exists t'|done]].
    + intros (y & [->|(t' & n & E)] & Ec); [|exists y; split; [by eapply Hin|done]]. destruct (Hc c Ec) as [z Ez]. exists z. split; [by eapply Hin|by rewrite (Hy _ Ez)].
  - intros y z c [->|(t1 & n1 & E1)]%Hp [->|(t2 & n2 & E2)]%Hp Ey Ez; [done| | |].
    + exfalso. by eapply (Hfresh z).
    + exfalso. by eapply (Hfresh y).
    + eapply (H3 y z c); eauto.
  - intros t' h E Hd. setoid_rewrite Hp. destruct (Ha t' h E Hd) as [[n Eh]|[-> Eh]]; [|exists x; split_and!; [by left|done|done]].
    destruct (H4 _ _ Eh Hd) as (y & [[]%elem_of_nil|[t2 Ey]] & Ht & Hann). exists y. split_and!; [|done|done]. right. exists t2. split; [|done]. intros ->. apply H1 in Ey as [Ey _]. congruence.
  - intros y [->|(t' & _ & E)]%Hp; [done|]. eapply H5, Hin, E.
Qed.

(** ** The operations of the store *)
Lemma announced_same h x y : ws_token y = ws_token x → ws_agent y = ws_agent x → ws_userID y = ws_userID x → ws_proxyID y = ws_proxyID x → ws_protocol y = ws_protocol x →
  ws_client y = ws_client x → announced h x → announced h y.
Proof. unfold announced. by intros -> -> -> -> -> ->. Qed.
Lemma get_tidy now token (s : St) : tidy [] s → tidy [] (snd (Web.get now token s)).
Proof.
  intros Ht. unfold Web.get. destruct (st_sessions s !! token) as [x|] eqn:E; [|done]. destruct (Web.expired now x); [by apply delete_tidy|]. cbn [snd].
  set (y := x <| ws_expiresAt := _ |>). destruct (tidy_key _ _ Ht _ _ E) as (Hk & Hi & Hne). apply (store_tidy _ (st_access s) token y s); try done.
  - apply (tidy_protocol _ _ Ht x). right. by exists token.
  - intros t' z Hn. by rewrite lookup_insert_ne.
  - apply lookup_insert_eq.
  - intros z Hz. by rewrite E in Hz; injection Hz as <-.
  - intros c _. by exists x.
  - intros t' h Hh Hd. destruct (decide (t' = token)) as [->|Hn]; [right; split; [done|]|by left]. destruct (tidy_registry _ _ Ht _ _ Hh Hd) as (z & [[]%elem_of_nil|[t2 Hz]] & Hzt & Ha).
    destruct (tidy_key _ _ Ht _ _ Hz) as [Hz2 _]. assert (z = x) as -> by congruence. by apply (announced_same h x).
Qed.
(** A session that was opened, before it has a token. *)
Definition newborn (x : webDataSession) : Prop := ws_token x = "" ∧ ws_agent x = None.
Lemma newborn_lone x loose (s : St) : newborn x → tidy loose s → ∀ t, st_sessions s !! t ≠ Some x.
Proof. intros [Hx _] Ht t E. destruct (tidy_key _ _ Ht _ _ E) as (H1 & _ & H2). congruence. Qed.
Lemma insert_tidy x y t (s : St) : newborn x → tidy [x] s → st_sessions s !! t = None → t ∈ issued (st_net s) → t ≠ "" → ws_token y = t → ws_client y = ws_client x →
  ws_protocol y = ws_protocol x → ws_target y = ws_target x → tidy [] (Web.with_sessions (<[ t := y ]> (st_sessions s)) s).
Proof.
  intros Hb Ht Hf Hi Hne Hy Hc Hpr Htg. pose proof (newborn_lone _ _ _ Hb Ht) as Hl. destruct Ht as [H1 H2 H3 H4 H5].
  set (s' := Web.with_sessions _ s). assert (∀ z, pooled [] s' z ↔ z = y ∨ ∃ t', st_sessions s !! t' = Some z) as Hp.
  { intros z. unfold pooled, s'. cbn [Web.with_sessions st_sessions]. rewrite elem_of_nil. split.
    - intros [[]|[t' [[_ <-]|[_ E]]%lookup_insert_Some]]; [by left|right; by exists t'].
    - intros [->|[t' E]]; right; [exists t; apply lookup_insert_eq|]. exists t'. rewrite lookup_insert_ne; [done|]. intros <-. congruence. }
  assert (∀ z, pooled [x] s z ↔ z = x ∨ ∃ t', st_sessions s !! t' = Some z) as Hq by (intros z; unfold pooled; by rewrite list_elem_of_singleton).
  split.
  - intros t' z E. cbn [s' Web.with_sessions st_sessions] in E. apply lookup_insert_Some in E as [[<- <-]|[_ E]]; [done|by apply H1].
  - intros c. change (st_net s') with (st_net s). rewrite H2. setoid_rewrite Hp. setoid_rewrite Hq. split.
    + intros (z & [->|E] & Ez); [exists y; split; [by left|congruence]|exists z; split; [by right|done]].
    + intros (z & [->|E] & Ez); [exists x; split; [by left|congruence]|exists z; split; [by right|done]].
  - assert (∀ z c, (∃ t', st_sessions s !! t' = Some z) → ws_client z = Some c → ws_client y = Some c → False) as Hd.
    { intros z c Hz Ez Ey. assert (z = x) as -> by (apply (H3 z x c); [apply Hq; by right|apply Hq; by left|done|congruence]). destruct Hz as [t' E]. by apply (Hl t'). }
    intros z1 z2 c [->|E1]%Hp [->|E2]%Hp Ez1 Ez2; [done|exfalso; by eapply Hd|exfalso; by eapply Hd|]. apply (H3 z1 z2 c); [apply Hq; by right|apply Hq; by right|done|done].
  - intros t' h E Hd. destruct (H4 _ _ E Hd) as (z & [->|Ez]%Hq & Hzt & Ha); [destruct Ha as (_ & Ha & _), Hb as [_ Hb]; congruence|]. exists z. split_and!; [apply Hp; by right|done|done].
  - intros z [->|E]%Hp; [rewrite Hpr, Htg; apply H5, Hq; by left|apply H5, Hq; by right].
Qed.
Lemma register_tidy x t (s : St) : st_sessions s !! t = Some x → tidy [] s → tidy [] (Web.registerWebDataAgentSession x s).
Proof.
  intros E Ht. destruct (tidy_key _ _ Ht _ _ E) as (Hk & Hi & Hne). subst t. unfold Web.registerWebDataAgentSession, Access.Register, bind, gets, modify, ret, throw.
  destruct (Access.incomplete _); [by destruct s|]. destruct (Access.handlerless _); [by destruct s|]. cbn -[insert lookup handles].
  match goal with |- tidy [] (mkState _ (<[ _ := ?y ]> _) ?a _) => apply (store_tidy _ a (ws_token x) y s); try done end.
  - exact (tidy_protocol _ _ Ht x (or_intror (ex_intro _ _ E))).
  - intros t' z Hn. by rewrite lookup_insert_ne.
  - apply lookup_insert_eq.
  - intros z Hz. rewrite E in Hz. by injection Hz as <-.
  - intros c _. by exists x.
  - intros t' h Hh _. cbn in Hh. apply lookup_insert_Some in Hh as [[<- <-]|[Hn Hh]]; [right; by repeat split|left; by split].
Qed.
Lemma create_tidy now x (s : St) : newborn x → tidy [x] s →
  match Web.create now x s with
  | (inr (Ok y), s') => tidy [] s' ∧ st_sessions s' !! ws_token y = Some y
  | (inr (Err _), s') => tidy [x] s'
  | (inl _, _) => False
  end.
Proof.
  intros Hb Ht. unfold Web.create, Web.hbind, Web.on_net. destruct (random_token (st_net s)) as [r n] eqn:E. apply token_law in E as [Hc Hr]. destruct r as [t|e].
  2: { cbn. apply (tidy_alike _ s); [|done]. by repeat split. }
  destruct Hr as (Hnew & Hne & Hi). set (y := x <| ws_token := t |> <| ws_startedAt := now |> <| ws_expiresAt := _ |>). set (s1 := mkState _ _ _ n).
  assert (tidy [x] s1) as Ht1.
  { destruct Ht as [H1 H2 H3 H4 H5]. split; try done; cbn [s1 st_sessions st_net st_access].
    - intros t' z Hz. destruct (H1 _ _ Hz) as (? & ? & ?). split_and!; [done|rewrite Hi; by apply elem_of_union_r|done].
    - intros c. rewrite Hc. apply H2. }
  assert (st_sessions s1 !! t = None) as Hf.
  { destruct (st_sessions s1 !! t) as [z|] eqn:Ez; [|done]. destruct (tidy_key _ _ Ht _ _ Ez) as (_ & Hz & _). done. }
  assert (tidy [x] (Web.cleanupLocked now s1)) as Ht2.
  { apply evict_tidy; [apply NoDup_singleton| |done]. intros z ->%list_elem_of_singleton. by apply (newborn_lone _ [x]). }
  split; [|apply lookup_insert_eq]. apply (insert_tidy x y t); try done.
  - destruct (st_sessions (Web.cleanupLocked now s1) !! t) as [z|] eqn:Ez; [|done]. apply evict_sessions in Ez. congruence.
  - unfold Web.cleanupLocked, Web.evict. rewrite close_all_issued. cbn. rewrite Hi. by apply elem_of_union_l, elem_of_singleton.
Qed.

(** ** Steps of a handler *)
(** A step that changes neither sessions, registry nor clients, and one that
    also goes on. *)
Definition calm {A} (m : H A) : Prop := ∀ s, alike s (snd (m s)).
Definition goes {A} (m : H A) : Prop := ∀ s, alike s (snd (m s)) ∧ ∃ a, fst (m s) = inr a.
Lemma goes_calm {A} (m : H A) : goes m → calm m. Proof. intros Hm s. apply Hm. Qed.
Lemma goes_ret {A} (a : A) : goes (Web.hret a). Proof. intros s. split; [apply alike_refl|by exists a]. Qed.
Lemma goes_bind {A B} (m : H A) (k : A → H B) : goes m → (∀ a, goes (k a)) → goes (Web.hbind m k).
Proof.
  intros Hm Hk s. unfold Web.hbind. destruct (Hm s) as [Ha [a Ea]]. destruct (m s) as [r s1]. cbn in *. subst r. destruct (Hk a s1) as [Hb Hr]. split; [|done]. by apply (alike_trans _ s1).
Qed.
Lemma goes_db {A} (m : Op DB A) : goes (Web.on_db m). Proof. intros s. unfold Web.on_db. destruct (m _) as [r db]. split; [by repeat split|by exists r]. Qed.
Lemma goes_net {A} (m : Net → A * Net) : (∀ n, clients (snd (m n)) = clients n ∧ issued (snd (m n)) = issued n) → goes (Web.on_net m).
Proof. intros Hm s. unfold Web.on_net. specialize (Hm (st_net s)). destruct (m _) as [r n]. destruct Hm. split; [by repeat split|by exists r]. Qed.
Lemma goes_if {A} (b : bool) (m n : H A) : goes m → goes n → goes (if b then m else n). Proof. by destruct b. Qed.
Lemma calm_ret {A} (a : A) : calm (Web.hret a). Proof. apply goes_calm, goes_ret. Qed.
Lemma calm_answer {A} r : calm (Web.answer r : H A). Proof. intros s. apply alike_refl. Qed.
Lemma calm_bind {A B} (m : H A) (k : A → H B) : calm m → (∀ a, calm (k a)) → calm (Web.hbind m k).
Proof. intros Hm Hk s. unfold Web.hbind. specialize (Hm s). destruct (m s) as [[r|a] s1]; [done|]. apply (alike_trans _ s1); [done|apply Hk]. Qed.
Lemma calm_db {A} (m : Op DB A) : calm (Web.on_db m). Proof. apply goes_calm, goes_db. Qed.
Lemma calm_or {A} (m : H (Result A)) f : calm m → calm (Web.or_answer m f).
Proof. intros Hm. apply calm_bind; [done|]. intros [a|e]; [apply calm_ret|apply calm_answer]. Qed.
Lemma calm_given {A} (o : option A) r : calm (Web.given o r). Proof. destruct o; [apply calm_ret|apply calm_answer]. Qed.
Lemma calm_if {A} (b : bool) (m n : H A) : calm m → calm n → calm (if b then m else n). Proof. by destruct b. Qed.
Create HintDb calm.
#[local] Hint Resolve goes_ret goes_bind goes_db goes_if calm_ret calm_answer calm_bind calm_db calm_or calm_given calm_if : calm.

(** From a state of [P]: a reply leaves the store tidy, a value a state of [Q]. *)
Definition keeps {A} (P : St → Prop) (m : H A) (Q : A → St → Prop) : Prop := ∀ s, P s → match m s with (inl _, s') => tidy [] s' | (inr a, s') => Q a s' end.
Lemma web_keeps_bind {A B} P (m : H A) Q (k : A → H B) R : keeps P m Q → (∀ a, keeps (Q a) (k a) R) → keeps P (Web.hbind m k) R.
Proof. intros Hm Hk s Hs. specialize (Hm s Hs). unfold Web.hbind. destruct (m s) as [[r|a] s']; [done|]. by apply Hk. Qed.
Lemma web_keeps_ret {A} (P : St → Prop) (a : A) : keeps P (Web.hret a) (λ _, P). Proof. by intros s Hs. Qed.
Lemma keeps_calm {A} (m : H A) : calm m → keeps (tidy []) m (λ _, tidy []).
Proof. intros Hm s Hs. specialize (Hm s). destruct (m s) as [[r|a] s']; by apply (tidy_alike _ s). Qed.
Lemma keeps_goes {A} loose (m : H A) : goes m → keeps (tidy loose) m (λ _, tidy loose).
Proof. intros Hm s Hs. destruct (Hm s) as [Ha [a E]]. destruct (m s) as [r s']. cbn in *. subst r. by apply (tidy_alike _ s). Qed.
Lemma keeps_if {A} (b : bool) P (m n : H A) Q : keeps P m Q → keeps P n Q → keeps P (if b then m else n) Q. Proof. by destruct b. Qed.
Lemma sure_calm {A} (b : bool) r (m : H A) Q : (b = false → keeps (tidy []) m Q) → keeps (tidy []) (if b then Web.answer r else m) Q.
Proof. destruct b; [|by auto]. intros _ s Hs. done. Qed.
Lemma keeps_do (P : St → Prop) (f : St → St) (Q : St → Prop) : (∀ s, P s → Q (f s)) → keeps P (λ s, (inr tt, f s) : (Reply + unit) * St) (λ _, Q).
Proof. intros Hf s Hs. by apply Hf. Qed.
Lemma goes_ignore {A} (m : Op DB A) : goes (Web.ignore_db m). Proof. unfold Web.ignore_db. auto with calm. Qed.
#[local] Hint Resolve goes_ignore : calm.
Lemma goes_audit r t u a p d st ok n e text : goes (Web.recordWebDataAudit ToLower ToUpper encode_details operation_of r t u a p d st ok n e text).
Proof. unfold Web.recordWebDataAudit. auto with calm. Qed.
Lemma goes_audit_execute r u x st ok res : goes (Web.audit_execute ToLower encode_details operation_of r u x st ok res).
Proof. unfold Web.audit_execute. auto with calm. Qed.
Lemma goes_touch r u p req : goes (Web.touch ToLower r u p req). Proof. unfold Web.touch. auto with calm. Qed.
Lemma goes_since : goes (Web.on_net since). Proof. apply goes_net. intros n. apply since_law. Qed.
Lemma goes_encrypt p : goes (Web.on_net (Web.encryptWebSSHPassword has_key p)).
Proof. apply goes_net. intros n. unfold Web.encryptWebSSHPassword. destruct (negb has_key); [done|apply seal_law]. Qed.
Lemma goes_describe x q : goes (Web.on_net (describe x q)). Proof. apply goes_net. intros n. apply describe_law. Qed.
Lemma execute_clients x st n : clients (snd (Web.execute ToLower x st n)) = clients n ∧ issued (snd (Web.execute ToLower x st n)) = issued n.
Proof.
  unfold Web.execute. destruct (bool_decide _); [apply other_law|]. destruct (bool_decide _); [|destruct (bool_decide _); [|done]].
  - unfold Web.executeSQL. destruct (ws_client x) as [c|]; [|done]. destruct (sqlStatementReturnsRows ToLower st).
    + pose proof (query_law c st n). destruct (sql_query c st n) as [[] ?]; done.
    + pose proof (exec_law c st n). destruct (sql_exec c st n) as [[] ?]; [|done]. by destruct (bool_decide _).
  - unfold Web.executeRedis. destruct (ws_client x) as [c|]; [|done]. destruct (parseRedisCommand st) as [args|]; [|done].
    pose proof (redis_law c args n). destruct (redis_do c args n) as [[] ?]; done.
Qed.
Lemma goes_execute x st : goes (Web.on_net (Web.execute ToLower x st)). Proof. apply goes_net. intros n. apply execute_clients. Qed.
#[local] Hint Resolve goes_audit goes_audit_execute goes_touch goes_since goes_encrypt goes_describe goes_execute goes_calm : calm.
Lemma calm_active u p : calm (Web.active_target (Net := Net) ToLower ToUpper u p).
Proof. unfold Web.active_target. apply calm_bind; [auto with calm|]. intros found. cbn zeta. auto with calm. Qed.
Lemma calm_start r suffix body : calm (Web.start_request (Net := Net) ToLower ToUpper r suffix body).
Proof.
  unfold Web.start_request. apply calm_if; [auto with calm|]. apply calm_bind; [auto with calm|]. intros u. apply calm_bind; [auto with calm|]. intros p.
  apply calm_bind; [auto with calm|]. intros req. apply calm_bind; [apply calm_active|auto with calm].
Qed.
Lemma calm_use req c : calm (Web.use_credential (DB := DB) has_key req c).
Proof. unfold Web.use_credential. destruct (Web.decryptWebSSHPassword _ _ _); auto with calm. Qed.
Lemma calm_password u p b req : calm (Web.find_password (DB := DB) ToLower has_key u p b req).
Proof.
  unfold Web.find_password. apply calm_if; [apply calm_bind; [auto with calm|apply calm_use]|]. apply calm_if; [|auto with calm].
  apply calm_bind; [auto with calm|]. intros [c|e]; apply calm_if; auto using calm_use with calm.
Qed.
Lemma open_tidy x password : newborn x → ws_client x = None → ws_protocol x = wt_Protocol (ws_target x) →
  keeps (tidy []) (Web.on_net (Web.openWebDataClient x password)) (λ r, match r with Ok c => tidy [x <| ws_client := c |>] | Err _ => tidy [] end).
Proof.
  intros Hb Hc Hp s Hs. unfold Web.on_net. assert (∀ y (s' : St), st_sessions s' = st_sessions s → pooled [y] s' y ∧ ∀ z, pooled [y] s' z ↔ z = y ∨ pooled [] s z) as Hq.
  { intros y s' E. unfold pooled. rewrite E. split; [left; apply list_elem_of_here|]. intros z. rewrite list_elem_of_singleton, elem_of_nil. tauto. }
  destruct (Web.openWebDataClient x password (st_net s)) as [r n] eqn:E. unfold Web.openWebDataClient in E. destruct (bool_decide _).
  2: { injection E as <- <-. apply (tidy_alike _ s); [by destruct s|done]. }
  apply connect_law in E as [Hi E]. destruct r as [c|e].
  2: { apply (tidy_alike _ s); [by repeat split|done]. }
  set (y := x <| ws_client := c |>). set (s' := mkState _ _ _ n). destruct (Hq y s' eq_refl) as [_ Hy]. destruct Hs as [H1 H2 H3 H4 H5]. assert (newborn y) as Hb' by done.
  assert (∀ z d, pooled [] s z → ws_client z = Some d → d ∈ clients (st_net s)) as Hin by (intros z d Hz Hd; apply H2; by exists z).
  assert (∀ d, ws_client y = Some d → d ∉ clients (st_net s)) as Hout by (intros d; cbn; intros ->; apply E).
  split; cbn [s' st_sessions st_net st_access].
  - intros t z Hz. rewrite Hi. by apply H1.
  - intros d. assert (d ∈ clients n ↔ d ∈ clients (st_net s) ∨ ws_client y = Some d) as ->.
    { cbn. destruct c as [c|]; [|rewrite E; split; [by left|by intros [?|?]]]. destruct E as [_ ->]. rewrite elem_of_union, elem_of_singleton. split; [intros [->|?]; auto|intros [?|[= ->]]; auto]. }
    rewrite H2. setoid_rewrite Hy. split.
    + intros [(z & Hz & Hd)|Hd]; [exists z; auto|exists y; auto].
    + intros (z & [->|Hz] & Hd); [by right|left; by exists z].
  - intros z1 z2 d [->|Hz1]%Hy [->|Hz2]%Hy Hd1 Hd2; [done| | |by eapply H3].
    + exfalso. by eapply (Hout d), Hin.
    + exfalso. by eapply (Hout d), Hin.
  - intros t h Hh Hd. destruct (H4 _ _ Hh Hd) as (z & Hz & ?). exists z. split; [apply Hy; by right|done].
  - intros z [->|Hz]%Hy; [done|by apply H5].
Qed.
Lemma close_one x s : newborn x → tidy [x] s → tidy [] (Web.close x s).
Proof. intros Hb Hs. apply close_tidy; [|done]. split; [apply not_elem_of_nil|]. by apply (newborn_lone _ [x]). Qed.
Lemma keep_tidy r u p req t password x : newborn x →
  keeps (tidy [x]) (Web.keep_password ToLower ToUpper encode_details has_key operation_of r u p req t password x) (λ _, tidy [x]).
Proof.
  intros Hb. unfold Web.keep_password. eapply web_keeps_bind; [apply keeps_goes; auto with calm|]. intros [[enc nonce]|e]; cbn beta.
  - eapply web_keeps_bind; [apply keeps_goes; auto with calm|]. intros [c|e]; cbn beta; [apply keeps_goes; auto with calm|].
    eapply web_keeps_bind; [apply keeps_goes; auto with calm|]. intros ?; cbn beta. eapply web_keeps_bind; [apply (keeps_do _ _ (tidy [])); intros s; by apply close_one|]. by intros ? s Hs.
  - eapply web_keeps_bind; [apply keeps_goes; auto with calm|]. intros ?; cbn beta. eapply web_keeps_bind; [apply (keeps_do _ _ (tidy [])); intros s; by apply close_one|]. by intros ? s Hs.
Qed.
Lemma create_keeps now x : newborn x → keeps (tidy [x]) (Web.create now x)
  (λ r s, match r with Ok y => tidy [] s ∧ st_sessions s !! ws_token y = Some y | Err _ => tidy [x] s end).
Proof. intros Hb s Hs. pose proof (create_tidy now x s Hb Hs) as H. by destruct (Web.create now x s) as [[]]. Qed.
Lemma handleCreate_tidy r body : keeps (tidy []) (Web.handleCreateWebDataSessionHTTP ToLower ToUpper encode_details has_key operation_of r body) (λ _, tidy []).
Proof.
  unfold Web.handleCreateWebDataSessionHTTP. eapply web_keeps_bind; [apply keeps_calm, calm_start|]. intros [[[u p] req0] t]. eapply web_keeps_bind; [apply keeps_calm, calm_password|].
  intros [[password req1] saved]. cbn zeta. apply sure_calm. intros Hp. apply negb_false_iff, bool_decide_eq_true in Hp. set (req := Web.or_target req1 t) in *.
  apply sure_calm. intros ?; cbn beta. set (x := Web.new_session u p req t). eapply web_keeps_bind; [by apply open_tidy|]. intros client.
  destruct client as [c|e]; (eapply web_keeps_bind; [apply keeps_goes, goes_since|]); intros elapsed; cbn beta.
  2: { apply keeps_calm. auto with calm. }
  set (y := x <| ws_client := c |>). assert (newborn y) as Hb by done.
  eapply web_keeps_bind; [apply keeps_if; [by apply keep_tidy|apply keeps_if; apply keeps_goes; auto with calm]|]. intros ?; cbn beta.
  eapply web_keeps_bind; [by apply create_keeps|]. intros [z|e]; cbn beta.
  - eapply web_keeps_bind; [apply (keeps_do _ _ (tidy [])); intros s [Hs Hz]; by eapply register_tidy|]. intros ?; cbn beta. apply keeps_calm. auto with calm.
  - eapply web_keeps_bind; [apply (keeps_do _ _ (tidy [])); intros s; by apply close_one|]. intros ?; cbn beta. apply keeps_calm. auto with calm.
Qed.
Lemma handleTest_tidy r body : keeps (tidy []) (Web.handleTestWebDataConnectionHTTP ToLower ToUpper encode_details has_key operation_of r body) (λ _, tidy []).
Proof.
  unfold Web.handleTestWebDataConnectionHTTP. eapply web_keeps_bind; [apply keeps_calm, calm_start|]. intros [[[u p] req0] t]. eapply web_keeps_bind; [apply keeps_calm, calm_password|].
  intros [[password req1] saved]. cbn zeta. apply sure_calm. intros Hp. apply negb_false_iff, bool_decide_eq_true in Hp. set (req := Web.or_target req1 t) in *.
  set (x := Web.new_session u p req t). eapply web_keeps_bind; [by apply open_tidy|]. intros client.
  destruct client as [c|e]; (eapply web_keeps_bind; [apply keeps_goes, goes_since|]); intros elapsed; cbn beta.
  2: { apply keeps_calm. auto with calm. }
  eapply web_keeps_bind; [apply (keeps_do _ _ (tidy [])); intros s; by apply close_one|]. intros ?; cbn beta. apply keeps_calm. auto with calm.
Qed.
Lemma own_tidy r suffix : keeps (tidy []) (Web.own_session (DB := DB) r suffix) (λ _, tidy []).
Proof.
  unfold Web.own_session. eapply web_keeps_bind; [apply keeps_calm; auto with calm|]. intros u. eapply web_keeps_bind; [apply keeps_calm; auto with calm|]. intros t.
  eapply (web_keeps_bind _ _ (λ _, tidy [])); [|intros [x|]; apply keeps_calm; auto with calm].
  intros s Hs. pose proof (get_tidy (rq_Now r) t s Hs) as H. unfold Web.get in *. destruct (st_sessions s !! t) as [x|]; [|done]. by destruct (Web.expired (rq_Now r) x).
Qed.
Lemma calm_ensure actor x : calm (Web.ensureWebDataSessionActive (Net := Net) ToLower ToUpper actor x).
Proof. unfold Web.ensureWebDataSessionActive. auto with calm. Qed.
Lemma handleExecute_tidy r body : keeps (tidy []) (Web.handleWebDataExecuteHTTP ToLower ToUpper encode_details operation_of r body) (λ _, tidy []).
Proof.
  unfold Web.handleWebDataExecuteHTTP. eapply web_keeps_bind; [apply own_tidy|]. intros [u x]. apply keeps_calm. apply calm_bind; [apply calm_ensure|]. intros ?; cbn beta.
  apply calm_bind; [auto with calm|]. intros st. cbn zeta. apply calm_if; [auto with calm|]. apply calm_if; [auto with calm|].
  apply calm_bind; [auto with calm|]. intros ex. apply calm_bind; [auto with calm|]. intros el. auto with calm.
Qed.
Lemma tidy_delete t (s : St) : tidy [] s → tidy [] (Web.delete_ t s).
Proof. intros Hs. unfold Web.delete_. destruct (st_sessions s !! t) eqn:E; [|done]. by apply delete_tidy. Qed.
Lemma handleDelete_tidy r : keeps (tidy []) (Web.handleDeleteWebDataSessionHTTP ToLower ToUpper encode_details operation_of r) (λ _, tidy []).
Proof.
  unfold Web.handleDeleteWebDataSessionHTTP. eapply web_keeps_bind; [apply own_tidy|]. intros [u x]. eapply web_keeps_bind; [apply keeps_goes; auto with calm|]. intros el. cbn beta.
  eapply web_keeps_bind; [apply keeps_goes; auto with calm|]. intros ?; cbn beta. eapply web_keeps_bind; [apply (keeps_do _ _ (tidy [])), tidy_delete|]. intros ?; cbn beta. apply web_keeps_ret.
Qed.
Lemma calm_credential r body : calm (Web.handleWebDataCredentialHTTP ToLower ToUpper encode_details has_key operation_of r body).
Proof.
  unfold Web.handleWebDataCredentialHTTP. apply calm_if; [auto with calm|]. apply calm_bind; [auto with calm|]. intros u. apply calm_bind; [auto with calm|]. intros p.
  apply calm_bind; [auto with calm|]. intros found. apply calm_if.
  - unfold Web.delete_credential. cbn zeta. apply calm_bind; [auto with calm|]. intros [e|e]; (apply calm_bind; [auto with calm|]); auto with calm.
  - apply calm_bind; [auto with calm|]. intros req. unfold Web.save_credential. cbn zeta. apply calm_if; [auto with calm|]. apply calm_bind; [apply calm_if; auto with calm|]. intros sealed.
    apply calm_bind; [auto with calm|]. intros [c|e]; (apply calm_bind; [auto with calm|]); auto with calm.
Qed.

(** ** Any sequence of requests *)
(** Beside the requests: an access is deleted or stopped, the database
    changes, another protocol registers or withdraws a connection. *)
Inductive web_call :=
| WCreate (r : Request) (body : option createWebDataSessionRequest) | WTest (r : Request) (body : option createWebDataSessionRequest)
| WCredential (r : Request) (body : option webDataCredentialRequest) | WTarget (r : Request) | WSession (r : Request) (body : option string)
| WMetadata (r : Request) | WObject (r : Request) | WCloseByProxy (proxyID : N)
| WElsewhere (f : DB → DB) | WRegister (d : Descriptor) (terminal desktop : option N) | WUnregister (u : Unregister).
Definition with_access (f : Sessions → Sessions) (s : St) : St := mkState (st_db s) (st_sessions s) (f (st_access s)) (st_net s).
Definition serve (s : St) (c : web_call) : St :=
  match c with
  | WCreate r b => snd (Web.handleCreateWebDataSessionHTTP ToLower ToUpper encode_details has_key operation_of r b s)
  | WTest r b => snd (Web.handleTestWebDataConnectionHTTP ToLower ToUpper encode_details has_key operation_of r b s)
  | WCredential r b => snd (Web.handleWebDataCredentialHTTP ToLower ToUpper encode_details has_key operation_of r b s)
  | WTarget r => snd (Web.handleWebDataTargetHTTP ToLower ToUpper r s)
  | WSession r b => snd (Web.handleWebDataSessionHTTP ToLower ToUpper encode_details operation_of r b s)
  | WMetadata r => snd (Web.handleWebDataMetadataHTTP ToLower ToUpper r s)
  | WObject r => snd (Web.handleWebDataObjectHTTP ToLower ToUpper r s)
  | WCloseByProxy p => Web.closeByProxy p s
  | WElsewhere f => mkState (f (st_db s)) (st_sessions s) (st_access s) (st_net s)
  | WRegister d terminal desktop => with_access (λ a, snd (Access.Register (mkHandle d terminal None desktop) a)) s
  | WUnregister u => with_access (Access.unregister u) s
  end.
Definition serve_all (calls : list web_call) (s : St) : St := fold_left serve calls s.
Lemma keeps_snd {A} (m : H A) s : keeps (tidy []) m (λ _, tidy []) → tidy [] s → tidy [] (snd (m s)).
Proof. intros Hm Hs. specialize (Hm s Hs). by destruct (m s) as [[]]. Qed.
Lemma calm_target r : calm (Web.handleWebDataTargetHTTP (Net := Net) ToLower ToUpper r).
Proof. unfold Web.handleWebDataTargetHTTP. apply calm_if; [auto with calm|]. apply calm_bind; [auto with calm|]. intros u. apply calm_bind; [auto with calm|]. intros p. auto with calm. Qed.
Lemma described_tidy r suffix (b : bool) reply names :
  keeps (tidy []) (Web.hbind (Web.own_session (DB := DB) r suffix) (λ own, let '(user, session) := own in
    Web.hbind (Web.ensureWebDataSessionActive ToLower ToUpper (rq_Actor r) session) (λ _, if b then Web.answer reply else
    Web.hbind (Web.on_net (describe session names)) (λ x, Web.hret (mkReply 200 "success" (PText x)))))) (λ _, tidy []).
Proof.
  eapply web_keeps_bind; [apply own_tidy|]. intros [u x]. apply keeps_calm, calm_bind; [apply calm_ensure|]. intros ?. apply calm_if; auto with calm.
Qed.
Lemma handles_less (f : Sessions → Sessions) (s : St) : (∀ t h, handles (f (st_access s)) !! t = Some h → is_Some (h_Data h) → handles (st_access s) !! t = Some h) →
  tidy [] s → tidy [] (with_access f s).
Proof. intros Hf [H1 H2 H3 H4 H5]. split; try done. intros t h Hh Hd. apply (H4 t h); [by apply Hf|done]. Qed.
Lemma serve_tidy c s : tidy [] s → tidy [] (serve s c).
Proof.
  intros Hs. destruct c; cbn [serve].
  - apply keeps_snd; [apply handleCreate_tidy|done].
  - apply keeps_snd; [apply handleTest_tidy|done].
  - apply keeps_snd; [apply keeps_calm, calm_credential|done].
  - apply keeps_snd; [apply keeps_calm, calm_target|done].
  - apply keeps_snd; [|done]. unfold Web.handleWebDataSessionHTTP. apply keeps_if; [apply handleExecute_tidy|]. apply keeps_if; [apply handleDelete_tidy|]. apply keeps_calm. auto with calm.
  - apply keeps_snd; [|done]. apply sure_calm. intros _. apply (described_tidy r "/metadata" false (refuse 0 "")).
  - apply keeps_snd; [|done]. apply sure_calm. intros _. apply described_tidy.
  - apply evict_tidy; [constructor|by intros x []%elem_of_nil|done].
  - by apply (tidy_alike _ s).
  - apply handles_less; [|done]. intros t h. unfold Access.Register, bind, gets, modify, ret, throw. destruct (Access.incomplete _); [done|]. destruct (Access.handlerless _); [done|].
    cbn. intros [[<- <-]|[_ Hh]]%lookup_insert_Some; [by intros [? ?]|done].
  - apply handles_less; [|done]. intros t h Hh _. by apply unregister_other in Hh as [Hh _].
Qed.
Lemma serve_all_tidy calls s : tidy [] s → tidy [] (serve_all calls s).
Proof. revert s. induction calls as [|c calls IH]; intros s Hs; [done|]. apply IH. by apply serve_tidy. Qed.
Definition boot (db : DB) (n : Net) : St := mkState db ∅ NewRegistry n.
Lemma boot_tidy db n : clients n = ∅ → tidy [] (boot db n).
Proof.
  intros Hn. assert (∀ x, ¬ pooled [] (boot db n) x) as Hp by (intros x [[]%elem_of_nil|[t E]]; by destruct (lookup_empty_Some t x E)).
  split; cbn [boot st_sessions st_net st_access].
  - intros t x E. by apply lookup_empty_Some in E.
  - intros c. rewrite Hn. split; [by intros ?%not_elem_of_empty|]. intros (x & Hx & _). by destruct (Hp x).
  - intros x y c Hx. by destruct (Hp x).
  - intros t h E. by destruct (lookup_empty_Some t h E).
  - intros x Hx. by destruct (Hp x).
Qed.
Lemma tidy_handles t h s : tidy [] s → handles (st_access s) !! t = Some h → is_Some (h_Data h) → ∃ x, st_sessions s !! t = Some x ∧ announced h x.
Proof.
  intros Hs Hh Hd. destruct (tidy_registry _ _ Hs t h Hh Hd) as (x & [[]%elem_of_nil|[t' E]] & Ht & Ha). exists x. split; [|done].
  destruct (tidy_key _ _ Hs _ _ E) as [Ht' _]. congruence.
Qed.
(** C34. Sessions, driver connections and the registry of live connections stay
    in step: after the manager starts, through any sequence of requests of the
    data console, deletions of accesses, changes of the database and
    registrations by other protocols, a connection of a driver is open exactly
    when one stored session holds it, no two sessions share one, a data
    connection the registry offers the assistant is a stored session of the same
    user, access and protocol, and a session speaks its target's protocol; when
    an access is closed neither a session nor a data connection of it is left. *)
Theorem sessions_in_step (db : DB) (n : Net) (calls : list web_call) : clients n = ∅ →
  let s := serve_all calls (boot db n) in
  (∀ c, c ∈ clients (st_net s) ↔ ∃ t x, st_sessions s !! t = Some x ∧ ws_client x = Some c) ∧
  (∀ t1 x1 t2 x2 c, st_sessions s !! t1 = Some x1 → st_sessions s !! t2 = Some x2 → ws_client x1 = Some c → ws_client x2 = Some c → t1 = t2) ∧
  (∀ t h, handles (st_access s) !! t = Some h → is_Some (h_Data h) → ∃ x, st_sessions s !! t = Some x ∧ announced h x) ∧
  (∀ t x, st_sessions s !! t = Some x → ws_token x = t ∧ ws_protocol x = wt_Protocol (ws_target x)) ∧
  (∀ proxyID, let s' := Web.closeByProxy proxyID s in
     (∀ t x, st_sessions s' !! t = Some x → st_sessions s !! t = Some x ∧ ws_proxyID x ≠ proxyID) ∧
     (∀ t h, handles (st_access s') !! t = Some h → is_Some (h_Data h) → ds_AccessID (h_Descriptor h) ≠ proxyID)).
Proof.
  intros Hn s. assert (tidy [] s) as Hs by (apply serve_all_tidy; by apply boot_tidy). assert (∀ t x, st_sessions s !! t = Some x → pooled [] s x) as Hp by (intros t x E; right; by exists t).
  split_and!.
  - intros c. rewrite (tidy_clients _ _ Hs c). split; [intros (x & [[]%elem_of_nil|[t E]] & Hc); by exists t, x|]. intros (t & x & E & Hc). exists x. split; [by eapply Hp|done].
  - intros t1 x1 t2 x2 c E1 E2 Hc1 Hc2. assert (x1 = x2) as -> by (apply (tidy_distinct _ _ Hs x1 x2 c); eauto). apply (tidy_key _ _ Hs) in E1 as [<- _], E2 as [<- _]. done.
  - intros t h. by apply tidy_handles.
  - intros t x E. split; [apply (tidy_key _ _ Hs _ _ E)|]. eapply (tidy_protocol _ _ Hs), Hp, E.
  - intros p. assert (∀ t x, st_sessions (Web.closeByProxy p s) !! t = Some x → st_sessions s !! t = Some x ∧ ws_proxyID x ≠ p) as Hc.
    { intros t x. unfold Web.closeByProxy, Web.evict. rewrite close_all_sessions. cbn. rewrite map_lookup_filter_Some. cbn. intros [E Hx]. by apply bool_decide_eq_false in Hx. }
    split; [done|]. intros t h Hh Hd. destruct (tidy_handles t h (Web.closeByProxy p s)) as (x & [_ Hx]%Hc & Ha); [|done|done|].
    + apply evict_tidy; [constructor|by intros x []%elem_of_nil|done].
    + destruct Ha as (_ & _ & _ & Ha & _). congruence.
Qed.

(** ** Whose statements run *)
Lemma asks_GetTarget actor id : asks (Console.GetWebDataTarget (DB := DB) ToLower ToUpper actor id).
Proof.
  unfold Console.GetWebDataTarget. apply asks_bind; [apply asks_target|]. intros t. destruct actor as [u|]; [|apply asks_ret]. apply asks_bind; [|intros; apply asks_ret].
  apply asks_bind; [apply asks_Find|intros; apply asks_ret].
Qed.
Lemma asks_look_up {A} g id (m : Op DB A) name : asks m → asks (Console.look_up g id m name) ∧ ∀ s, ∃ v, fst (Console.look_up g id m name s) = Ok v.
Proof.
  intros Hm. split; intros s; unfold Console.look_up; specialize (Hm s); (destruct (_ || _); [eauto|]); destruct (m s) as [[a|e] s']; eauto.
Qed.
(** An audit is one insertion, of a row that names who did what. *)
Definition row_of (a : WebDataAudit) (row : AuditRow) : Prop := wa_UserID row = au_UserID a ∧ wa_ProxyID row = au_ProxyID a ∧ wa_Protocol row = normalizeWebDataProtocol ToLower (au_Protocol a) ∧
  wa_StatementPreview row = au_StatementPreview a ∧ wa_StatementSHA256 row = au_StatementSHA256 a ∧ wa_Success row = au_Success a ∧ wa_Error row = au_Error a.
Lemma bind_ok {A B} (m : Op DB A) (k : A → Op DB B) s a : fst (m s) = Ok a → bind m k s = k a (snd (m s)).
Proof. unfold bind. destruct (m s) as [x s']. cbn. by intros ->. Qed.
Lemma audit_inserts (a : WebDataAudit) db : normalizeWebDataProtocol ToLower (au_Protocol a) ≠ "tcp" →
  ∃ row db', row_of a row ∧ credentials db' = credentials db ∧ audits db' = audits db ∧ Console.RecordWebDataAudit ToLower encode_details a db = audit_Create row db'.
Proof.
  intros Hp. unfold Console.RecordWebDataAudit. rewrite bool_decide_eq_false_2 by done.
  destruct (asks_look_up (au_UserEmail a) (au_UserID a) (Repo.GetUserByID (au_UserID a)) (λ u, match u with Some u => u_Email u | None => "" end)) as [A1 B1].
  { apply asks_or_nil, asks_account. }
  destruct (asks_look_up (au_ProxyName a) (au_ProxyID a) (CpDao.GetProxyByID (au_ProxyID a)) (x_Name : Access → string)) as [A2 B2]; [exact (asks_row TAccess _)|].
  destruct (asks_look_up (au_ApplicationName a) (au_ApplicationID a) (CpDao.GetApplicationByID (au_ApplicationID a)) (a_Name : Application → string)) as [A3 B3]; [exact (asks_row TApplication _)|].
  destruct (B1 db) as [v1 E1]. rewrite (bind_ok _ _ _ _ E1). destruct (A1 db) as [C1 D1]. set (db1 := snd (Console.look_up _ _ _ _ db)) in *.
  destruct (B2 db1) as [v2 E2]. rewrite (bind_ok _ _ _ _ E2). destruct (A2 db1) as [C2 D2]. set (db2 := snd (Console.look_up _ _ _ _ db1)) in *.
  destruct (B3 db2) as [v3 E3]. rewrite (bind_ok _ _ _ _ E3). destruct (A3 db2) as [C3 D3]. set (db3 := snd (Console.look_up _ _ _ _ db2)) in *.
  eexists _, db3. split_and!; [| | |reflexivity]; [by repeat split|by rewrite C3, C2, C1|by rewrite D3, D2, D1].
Qed.
Definition renewed (now : Time) (x : webDataSession) : webDataSession := x <| ws_expiresAt := (now + webDataSessionTTL)%Z |>.
(** Nothing ran: at most the connection of an expired session was closed. *)
Definition idle (now : Time) (s s' : St) : Prop := st_net s' = st_net s ∨ ∃ t x c, st_sessions s !! t = Some x ∧ Web.expired now x = true ∧ ws_client x = Some c ∧ st_net s' = disconnect c (st_net s).
Lemma own_spec r suffix (s : St) :
  match Web.own_session r suffix s with
  | (inl _, s') => st_db s' = st_db s ∧ idle (rq_Now r) s s'
  | (inr (u, y), s') => ∃ token x, rq_User r = Some u ∧ parseWebDataSessionToken (rq_Path r) suffix = Some token ∧ st_sessions s !! token = Some x ∧ Web.expired (rq_Now r) x = false ∧
      ws_userID x = u ∧ y = renewed (rq_Now r) x ∧ s' = Web.with_sessions (<[ token := y ]> (st_sessions s)) s
  end.
Proof.
  unfold Web.own_session, Web.hbind, Web.given, Web.get, Web.hret, Web.answer. destruct (rq_User r) as [u|]; [|split; [done|by left]].
  destruct (parseWebDataSessionToken (rq_Path r) suffix) as [t|]; [|split; [done|by left]]. destruct (st_sessions s !! t) as [x|] eqn:E; [|split; [done|by left]].
  destruct (Web.expired (rq_Now r) x) eqn:Ex.
  - split; [done|]. unfold idle, Web.close. cbn [st_net Web.with_sessions]. destruct (ws_client x) as [c|] eqn:Ec; [right; by exists t, x, c|by left].
  - cbn [ws_userID]. case_bool_decide as Hu; [|split; [done|by left]]. by exists t, x.
Qed.
(** What [handleWebDataExecuteHTTP] owes to a statement that ran. *)
Definition executed_for (r : Request) (body : option string) (s s' : St) (token b : string) (x : webDataSession) : Prop :=
  rq_User r = Some (ws_userID x) ∧ parseWebDataSessionToken (rq_Path r) "/execute" = Some token ∧ st_sessions s !! token = Some x ∧ Web.expired (rq_Now r) x = false ∧
  (∃ target views db1, Console.GetWebDataTarget ToLower ToUpper (rq_Actor r) (ws_proxyID x) (st_db s) = (Ok (target, views), db1) ∧ wt_EffectiveStatus target = "active") ∧
  body = Some b ∧ TrimSpace b ≠ "" ∧ (Z.of_nat (String.length (TrimSpace b)) ≤ webDataStatementMaxSize)%Z ∧ st_sessions s' = <[ token := renewed (rq_Now r) x ]> (st_sessions s) ∧ st_access s' = st_access s.
Definition audited_as (x : webDataSession) (statement : string) (failure : option error) (row : AuditRow) : Prop :=
  wa_UserID row = ws_userID x ∧ wa_ProxyID row = ws_proxyID x ∧ wa_Protocol row = normalizeWebDataProtocol ToLower (ws_protocol x) ∧
  wa_StatementPreview row = Web.webDataAuditPreview operation_of (ws_protocol x) statement ∧ wa_StatementSHA256 row = webDataStatementHash statement ∧
  (wa_Success row = true ↔ failure = None) ∧ ∀ e, failure = Some e → wa_Error row = Error e.
Lemma audit_execute_row r x y statement failure result (s : St) : ws_userID y = ws_userID x → ws_proxyID y = ws_proxyID x → ws_protocol y = ws_protocol x →
  (∀ e, failure = Some e → er_Error result = Error e) →
  let s' := snd (Web.audit_execute ToLower encode_details operation_of r (ws_userID x) y statement (negb (bool_decide (is_Some failure))) result s) in
  st_sessions s' = st_sessions s ∧ st_access s' = st_access s ∧ st_net s' = st_net s ∧ credentials (st_db s') = credentials (st_db s) ∧
  (TrimSpace (ws_protocol x) ≠ "" → TrimSpace statement ≠ "" → normalizeWebDataProtocol ToLower (ws_protocol x) ≠ "tcp" → ∃ row, audited_as x statement failure row ∧
     (audits (st_db s') = audits (st_db s) ++ [row] ∨ audits (st_db s') = audits (st_db s) ∧ ∃ db e, fst (audit_Create row db) = Err e)).
Proof.
  intros Hu Hp Hpr He s'. unfold s', Web.audit_execute. rewrite Hp, Hpr. destruct (Web.webDataShouldAuditExecute _ _) eqn:Ea.
  2: { split_and!; try done. unfold Web.webDataShouldAuditExecute in Ea. intros H1 H2. by rewrite !bool_decide_eq_false_2 in Ea. }
  unfold Web.ignore_db, Web.hbind, Web.on_db, Web.hret. set (a := mkAudit _ _ _ _ _ _ _ _ _ _ _ _ _ _ _ _ _). destruct (Console.RecordWebDataAudit _ _ a (st_db s)) as [res db] eqn:E.
  cbn [snd st_sessions st_access st_net st_db]. destruct (decide (normalizeWebDataProtocol ToLower (ws_protocol x) = "tcp")) as [Ht|Ht].
  - unfold Console.RecordWebDataAudit in E. cbn [a au_Protocol] in E. rewrite bool_decide_eq_true_2 in E by done. injection E as <- <-. by split_and!.
  - destruct (audit_inserts a (st_db s) Ht) as (row & db' & (R1 & R2 & R3 & R4 & R5 & R6 & R7) & Hc & Hau & Er). rewrite E in Er. symmetry in Er.
    pose proof (audit_Create_law _ _ _ _ Er) as [Hc' Hau']. split_and!; try done; [congruence|]. intros _ _ _. exists row. split.
    + split_and!; try done.
      * rewrite R6. cbn [a au_Success]. rewrite negb_true_iff, bool_decide_eq_false, <- eq_None_not_Some. done.
      * intros e Hf. rewrite R7. by apply He.
    + destruct res as [u|e]; [left; congruence|]. right. split; [congruence|]. exists db', e. by rewrite Er.
Qed.
End Sessions.
