(* ===== verification/DataConsoleDatabase.v ===== *)
(** * Data console: a database and drivers in memory

    The tables of credentials and audits beside those of [ControlDatabase], and
    drivers that number connections and tokens.  The laws hold; an installation
    with one database application shows the theorems at work. *)

From S2P Require Import Prelude Sha256 ToolTypes ToolDisclosure IamDao IamDatabase Iam ControlDao NetAddr ControlPlane ControlDatabase AccessSession DataConsoleText DataConsole DataConsoleHttp DataConsoleTheorems.

Record ConsoleDB := mkConsoleDB { cn_cp : CpDB; cn_credentials : gmap N WebDataCredential; cn_audits : list AuditRow }.
Definition on_cp {A} (m : Op CpDB A) : Op ConsoleDB A := λ s, let '(r, c) := m (cn_cp s) in (r, mkConsoleDB c (cn_credentials s) (cn_audits s)).
#[export] Instance console_iam : IamGorm ConsoleDB := {|
  Create Row i r := on_cp (Create r); First Row i preload p := on_cp (First preload p); Find Row i preload p less := on_cp (Find preload p less);
  Page Row i offset limit := on_cp (Page offset limit); Count Row i p := on_cp (Count p); Save Row i r := on_cp (Save r);
  Delete Row i p := on_cp (Delete p); Purge Row i p := on_cp (Purge p); Update Row i p f := on_cp (Update p f);
  Upsert Row i conflict assign r := on_cp (Upsert conflict assign r);
  Begin s := mkConsoleDB (Begin (cn_cp s)) (cn_credentials s) (cn_audits s); Commit := on_cp Commit;
  Rollback s := mkConsoleDB (Rollback (cn_cp s)) (cn_credentials s) (cn_audits s) |}.
#[export] Instance console_cp : CpGorm ConsoleDB := {|
  Create_ t r := on_cp (Create_ t r); First_ t p := on_cp (First_ t p); Find_ t p := on_cp (Find_ t p); Delete_ t p := on_cp (Delete_ t p);
  Updates_ t p f := on_cp (Updates_ t p f); OnConflictCreate_ r := on_cp (OnConflictCreate_ r); JoinsFirst_ ip := on_cp (JoinsFirst_ ip);
  Begin_ s := mkConsoleDB (Begin_ (cn_cp s)) (cn_credentials s) (cn_audits s); Commit_ := on_cp Commit_;
  Rollback_ s := mkConsoleDB (Rollback_ (cn_cp s)) (cn_credentials s) (cn_audits s) |}.

(** Credentials stored under their own number. *)
Definition saved_credentials (s : ConsoleDB) : gmap N WebDataCredential := filter (λ kc : N * WebDataCredential, wc_ID kc.2 = kc.1) (cn_credentials s).
Definition keeping (m : gmap N WebDataCredential) (s : ConsoleDB) : ConsoleDB := mkConsoleDB (cn_cp s) m (cn_audits s).
Definition next_credential (s : ConsoleDB) : N := fresh (dom (saved_credentials s) : gset N).
Definition matching (p : WebDataCredential → bool) (s : ConsoleDB) : list WebDataCredential := List.filter p (map_to_list (saved_credentials s)).*2.
#[export] Instance console_gorm : ConsoleGorm ConsoleDB := {|
  cred_Create c s := (Ok tt, keeping (<[ next_credential s := c <| wc_ID := next_credential s |> ]> (saved_credentials s)) s);
  cred_First p s := (match matching p s with c :: _ => Ok c | [] => Err ErrRecordNotFound end, s);
  cred_Find p s := (Ok (matching p s), s);
  cred_Updates p f s := (Ok tt, keeping ((λ c, if p c then f c else c) <$> saved_credentials s) s);
  cred_Delete p s := (Ok tt, keeping (omap (λ c, if p c then None else Some c) (saved_credentials s)) s);
  audit_Create a s := (Ok tt, mkConsoleDB (cn_cp s) (cn_credentials s) (cn_audits s ++ [a])) |}.
Lemma saved_numbered s k c : saved_credentials s !! k = Some c → wc_ID c = k.
Proof. unfold saved_credentials. rewrite map_lookup_filter_Some. tauto. Qed.
Lemma keeping_saved m s : (∀ k c, m !! k = Some c → wc_ID c = k) → saved_credentials (keeping m s) = m.
Proof. intros Hm. apply map_filter_id. intros k c. cbn. apply Hm. Qed.
Lemma matching_spec p s c : c ∈ matching p s → saved_credentials s !! wc_ID c = Some c ∧ p c = true.
Proof.
  unfold matching. rewrite list_elem_of_In, filter_In, <- list_elem_of_In, list_elem_of_fmap. intros [([k c'] & -> & Hk%elem_of_map_to_list) Hp]. cbn in *. by rewrite (saved_numbered _ _ _ Hk).
Qed.
Lemma on_cp_frame {A} (m : Op CpDB A) s : saved_credentials (snd (on_cp m s)) = saved_credentials s ∧ cn_audits (snd (on_cp m s)) = cn_audits s.
Proof. unfold on_cp. by destruct (m (cn_cp s)). Qed.
#[export] Instance console_laws : ConsoleLaws ConsoleDB.
Proof.
  refine {| credentials := saved_credentials; audits := cn_audits; credentials_keyed := saved_numbered |}.
  - intros c s x s' [= <- <-]. split; [done|]. exists (next_credential s). split; [apply not_elem_of_dom; exact (is_fresh (dom (saved_credentials s) : gset N))|]. apply keeping_saved.
    intros k c' [[<- <-]|[_ Hk]]%lookup_insert_Some; [done|by apply saved_numbered in Hk].
  - intros p s x s' [= <- <-]. split_and!; [done|done|]. destruct (matching p s) as [|c l] eqn:E; [done|]. apply matching_spec. rewrite E. by left.
  - intros p s x s' [= <- <-]. split_and!; [done|done|]. intros c. apply matching_spec.
  - intros p f s x s' Hf [= <- <-]. split; [done|]. apply keeping_saved. intros k c. rewrite lookup_fmap_Some. intros (c0 & <- & Hc). apply saved_numbered in Hc. destruct (p c0); [by rewrite Hf|done].
  - intros p s x s' [= <- <-]. split; [done|]. apply keeping_saved. intros k c. rewrite lookup_omap_Some. intros (c0 & Hp & Hc). apply saved_numbered in Hc. destruct (p c0); [done|]. by injection Hp as <-.
  - intros a s x s' [= <- <-]. done.
  - intros t p s. apply on_cp_frame.
  - intros t p s. apply on_cp_frame.
  - intros Row i preload p s. apply on_cp_frame.
Defined.

(** ** Drivers *)
Record DemoNet := mkDemoNet { dn_next : N; dn_clients : gset N; dn_issued : gset string; dn_log : list (N * string) }.
Definition nothing {A} (a : A) (n : DemoNet) : A * DemoNet := (a, n).
#[export] Instance demo_drivers : Drivers DemoNet := {|
  random_token n := let t := "session" +:+ pretty (dn_next n) in
    if bool_decide (t ∈ dn_issued n) then (Err (ENew "no entropy"), n) else (Ok t, mkDemoNet (N.succ (dn_next n)) (dn_clients n) ({[ t ]} ∪ dn_issued n) (dn_log n));
  since := nothing 3%Z;
  connect x password n := let c := dn_next n in
    if bool_decide (password = "wrong") || bool_decide (c ∈ dn_clients n) then (Err (ENew "access denied"), n)
    else (Ok (Some c), mkDemoNet (N.succ c) ({[ c ]} ∪ dn_clients n) (dn_issued n) (dn_log n));
  disconnect c n := mkDemoNet (dn_next n) (dn_clients n ∖ {[ c ]}) (dn_issued n) (dn_log n);
  sql_query c q n := (Ok (mkRowSet (Ok ["id"]) [Ok [("id", "1")]] None), mkDemoNet (dn_next n) (dn_clients n) (dn_issued n) (dn_log n ++ [(c, q)]));
  sql_exec c q n := (Ok 2%Z, mkDemoNet (dn_next n) (dn_clients n) (dn_issued n) (dn_log n ++ [(c, q)]));
  redis_do c args := nothing (Ok (of_type "redis"));
  run_other x q := nothing (Some (of_type "message"), None);
  describe x names := nothing (Ok "{}");
  seal p := nothing (Ok (p, "nonce"));
  unseal p nonce := Ok p |}.
#[export] Instance demo_drivers_laws : DriversLaws DemoNet.
Proof.
  refine {| clients := dn_clients; issued := dn_issued |}; try done.
  - intros n x n'. cbn. case_bool_decide as Ht; intros [= <- <-]; [done|]. done.
  - intros s p n x n'. cbn. destruct (bool_decide (p = "wrong")); [by intros [= <- <-]|]. cbn. case_bool_decide as Hc; intros [= <- <-]; done.
Defined.

(** ** An installation with one database *)
Definition demo_rows : ConsoleDB :=
  let s := mkConsoleDB empty_cp ∅ [] in
  let s := snd (Create_ TEdge (mkEdge 0 "office" EdgeStatusRunning EdgeOnlineStatusOnline "") s) in
  let s := snd (Create_ TApplication (mkApplication 0 [1%N] 0 "orders" "" "10.0.0.9" 3306 "mysql") s) in
  let s := snd (Create_ TAccess (mkAccess 0 1 "orders-db" 13306 ProxyStatusRunning "" "") s) in
  snd (Create_ TRelation (mkRelation 0 "access" 1 "manager" "user" 7 7) s).
Definition demo_state : State ConsoleDB DemoNet := boot demo_rows (mkDemoNet 1 ∅ ∅ []).
Definition demo_request (method path : string) (user : N) : Request := mkRequest method path (Some user) (Some user) "203.0.113.5" "remote_addr" (λ _, "") 1000%Z.
Definition demo_open : createWebDataSessionRequest := mkCreateSession 0 "mysql" "root" "secret" "shop" "" 0 false "" "" "" false false "" true.
Abbreviation demo_serve := (serve_all (DB := ConsoleDB) (Net := DemoNet) (λ s, s) (λ s, s) (λ _, "{}") true (λ _ _, None)).
Definition opening : list (web_call (DB := ConsoleDB)) := [WCreate (demo_request "POST" "/api/v1/webdata/proxies/1/session" 7) (Some demo_open)].
Definition demo_opened : State ConsoleDB DemoNet := demo_serve opening demo_state.
Lemma sessions_in_step_witness : clients (st_net demo_state) = ∅ ∧ (1%N ∈ clients (st_net demo_opened)) ∧ ∃ t x, st_sessions demo_opened !! t = Some x ∧ ws_client x = Some 1%N.
Proof.
  assert (1%N ∈ clients (st_net demo_opened)) as Hc by (apply (bool_decide_unpack _); vm_compute; exact I). split_and!; [reflexivity|exact Hc|].
  exact (proj1 (proj1 (sessions_in_step (λ s, s) (λ s, s) (λ _, "{}") true (λ _ _, None) demo_rows (mkDemoNet 1 ∅ ∅ []) opening eq_refl) 1%N) Hc).
Defined.
Definition demo_execute (user : N) : (Reply + Reply) * State ConsoleDB DemoNet :=
  Web.handleWebDataExecuteHTTP (λ s, s) (λ s, s) (λ _, "{}") (λ _ _, None) (demo_request "POST" "/api/v1/webdata/sessions/session2/execute" user) (Some " SELECT 1 ") demo_opened.
Lemma credentials_private_witness : is_Some (saved_credentials (st_db demo_opened) !! 0%N) ∧
  others 8 1 (snd (run_cred (λ s, s) (λ s, s) (Some 8%N) 1 (CDeleteByID 0) (st_db demo_opened))) = others 8 1 (st_db demo_opened).
Proof.
  split; [vm_compute; eexists; reflexivity|]. exact (proj1 (proj1 (credentials_private (λ s, s) (λ s, s) 8 1 (CDeleteByID 0) (st_db demo_opened)))).
Defined.
