(* ===== verification/AiGateway.v ===== *)
(** * AI gateway: keys, scopes, quotas and usage

    [aigateway/keys.go], the validation of [aigateway/upstream.go],
    [controlplane/ai_gateway.go] and [repo/dao/dao_ai_gateway.go],
    [dao_ai_key_quota.go].  The tables are an interface of queries with its
    laws, beside those of [ControlDao]; the state of the service is that of
    [Iam].  Parameters: the JSON of scopes and model mappings, AES-GCM, random
    bytes.  Not modelled: dialing, listings of requests, the summary page. *)

From S2P Require Import Prelude Sha256 Utf8 ToolTypes ToolDisclosure Password IamDao Iam IamAuth ControlDao NetAddr ControlPlane ControlResources DataConsoleText DataConsole.

(** ** keys.go *)
(** base64.RawURLEncoding *)
Definition url_digit (c : ascii) : ascii := if bool_decide (c = "+"%char) then "-"%char else if bool_decide (c = "/"%char) then "_"%char else c.
Definition RawURLEncode (entropy : list N) : string := String.string_of_list_ascii (map url_digit (Base64.encode entropy)).
Definition KeyDigest (secret : string) : string := Sha256.hexdigest secret.
Definition key_prefix : string := "lia_ai_".
Definition NewKey (entropy : Result (list N)) : Result (string * string) :=
  match entropy with Err e => Err e | Ok b => let secret := key_prefix +:+ RawURLEncode b in Ok (secret, KeyDigest secret) end.
Definition validModel (model : string) : bool :=
  negb (bool_decide (model = "")) && Nat.leb (String.length model) 256 && forallb (λ r, negb (Utf8.IsControl r || IsSpace r)) (Utf8.runes model).
Definition allow (mappings result : gmap string string) (alias : string) : gmap string string :=
  match mappings !! alias with Some upstream => if validModel alias && validModel upstream then <[ alias := upstream ]> result else result | None => result end.
Definition AllowedModels (scope : list string) (mappings : gmap string string) : gmap string string := fold_left (allow mappings) scope ∅.
Definition ModelAliases (allowed : gmap string string) : list string := merge_sort String.le (map_to_list allowed).*1.

(** ** upstream.go: which targets are accepted *)
(** [path.Clean] of a rooted path. *)
Definition clean_step (stack : list string) (c : string) : list string :=
  if bool_decide (c ∈ [""; "."]) then stack else if bool_decide (c = "..") then tl stack else c :: stack.
Definition Clean (p : string) : string := "/" +:+ join_with "/" (rev (fold_left clean_step (Split p "/"%char) [])).
Definition blanks : list ascii := map ascii_of_nat [13; 10; 9; 32].
Definition valid_target (host : string) (port : Z) (base : string) : bool :=
  let basePath := TrimSuffix base "/" in
  negb (bool_decide (host = "") || negb (bool_decide (TrimSpace host = host)) || ContainsAny host (["/"; "\"; "@"; "?"; "#"; "%"]%char ++ blanks) || Z.ltb port 1 || Z.ltb 65535 port) &&
  negb (Contains host ":" && bool_decide (Net.ParseIP host = None)) &&
  (bool_decide (basePath = "") || negb (negb (HasPrefix basePath "/") || negb (bool_decide (Clean basePath = basePath)) || ContainsAny basePath (["\"; "?"; "#"; "%"]%char ++ blanks))).

(** ** The rows *)
Record AIApplication := mkAIApplication { ap_ApplicationID : N; ap_Protocol : string; ap_BasePath : string; ap_TLS : bool; ap_EncryptedKey : string; ap_TargetFingerprint : string }.
Record AIAccess := mkAIAccess { aa_ProxyID : N; aa_Enabled : bool; aa_Models : string }.
Record AIKey := mkAIKey {
  k_ID : N; k_ProxyID : N; k_UserID : N; k_Name : string; k_Digest : string; k_Models : string; k_ExpiresAt : Time; k_RevokedAt : option Time; k_TokenLimit : option Z }.
#[export] Instance AIKey_eta : Eta AIKey := {| eta := λ k, mkAIKey (k_ID k) (k_ProxyID k) (k_UserID k) (k_Name k) (k_Digest k) (k_Models k) (k_ExpiresAt k) (k_RevokedAt k) (k_TokenLimit k) |}.
Record AIRequest := mkAIRequest {
  q_RequestID : string; q_KeyID : N; q_ProxyID : N; q_UserID : N; q_Model : string; q_Status : Z; q_DurationMS : Z; q_InputTokens : option Z; q_OutputTokens : option Z; q_Complete : bool }.
#[export] Instance AIRequest_eta : Eta AIRequest := {| eta := λ q, mkAIRequest (q_RequestID q) (q_KeyID q) (q_ProxyID q) (q_UserID q) (q_Model q) (q_Status q) (q_DurationMS q)
  (q_InputTokens q) (q_OutputTokens q) (q_Complete q) |}.
Record LLMTokenUsage := mkUsage { u_RequestID : string; u_ProxyID : N; u_UserID : N; u_KeyID : N; u_Model : string; u_Input : option Z; u_Output : option Z; u_Complete : bool }.
Record AIKeyUsage := mkKeyUsage { ku_TokenLimit : option Z; ku_UsedTokens : Z; ku_UnknownRequests : Z }.
Record AiTables := mkAiTables { t_applications : gmap N AIApplication; t_accesses : gmap N AIAccess; t_keys : gmap N AIKey; t_ledger : list LLMTokenUsage; t_requests : list AIRequest }.
#[export] Instance AiTables_eta : Eta AiTables := {| eta := λ t, mkAiTables (t_applications t) (t_accesses t) (t_keys t) (t_ledger t) (t_requests t) |}.

(** What the join of [GetAIKeyUsage] computes. *)
Definition charged (k : AIKey) (u : LLMTokenUsage) : bool := bool_decide (u_KeyID u = k_ID k) && bool_decide (u_ProxyID u = k_ProxyID k) && bool_decide (u_UserID u = k_UserID k).
Definition tokens (u : LLMTokenUsage) : Z := (default 0 (u_Input u) + default 0 (u_Output u))%Z.
Definition unconfirmed (u : LLMTokenUsage) : bool := bool_decide (u_Input u = None) || bool_decide (u_Output u = None) || negb (u_Complete u).
Definition sum_tokens (l : list LLMTokenUsage) : Z := foldr (λ u n, (tokens u + n)%Z) 0%Z l.
Definition usage_of (ledger : list LLMTokenUsage) (k : AIKey) : AIKeyUsage :=
  let rows := List.filter (charged k) ledger in mkKeyUsage (k_TokenLimit k) (sum_tokens rows) (Z.of_nat (length (List.filter unconfirmed rows))).
(** The deletion of [RecordAIRequest]: all but the last 500 of an owner. *)
Definition of_owner (proxy user : N) (q : AIRequest) : bool := bool_decide (q_ProxyID q = proxy) && bool_decide (q_UserID q = user).
Definition retained : nat := 500.
Fixpoint prune (proxy user : N) (l : list AIRequest) : list AIRequest :=
  match l with
  | [] => []
  | q :: l' => if of_owner proxy user q && Nat.leb retained (length (List.filter (of_owner proxy user) l')) then prune proxy user l' else q :: prune proxy user l'
  end.

(** ** The queries *)
Class AiGorm (DB : Type) := {
  app_First : N → Op DB AIApplication;
  app_Upsert : AIApplication → Op DB unit;
  acc_First : N → Op DB AIAccess;
  acc_Upsert : AIAccess → Op DB unit;
  key_Count : (AIKey → bool) → Op DB nat;
  key_Create : AIKey → Op DB AIKey;
  key_First : (AIKey → bool) → Op DB AIKey;
  key_Find : (AIKey → bool) → Op DB (list AIKey);
  key_Update : (AIKey → bool) → (AIKey → AIKey) → Op DB nat;
  key_Usage : (AIKey → bool) → Op DB (option AIKeyUsage);
  usage_Insert : LLMTokenUsage → Op DB nat;
  request_Create : AIRequest → Op DB unit;
  request_Prune : N → N → Op DB unit
}.
(** A query that fails has changed nothing; one that succeeds has done what it
    says to its table and nothing else.  A key is inserted only if its digest
    is new, a usage row only if its request is.  The queries of the other
    tables leave these alone. *)
Class AiLaws (DB : Type) {i_iam : IamGorm DB} {i_cp : CpGorm DB} {i_ai : AiGorm DB} := {
  ai : DB → AiTables;
  ai_saved : DB → list AiTables;
  keys_numbered s i k : t_keys (ai s) !! i = Some k → k_ID k = i ∧ i ≠ 0%N;
  app_First_law i s x s' : app_First i s = (x, s') → ai_saved s' = ai_saved s ∧ ai s' = ai s ∧ match x with Ok a => t_applications (ai s) !! i = Some a | Err _ => True end;
  app_Upsert_law a s x s' : app_Upsert a s = (x, s') → ai_saved s' = ai_saved s ∧
    match x with Ok _ => ai s' = (ai s) <| t_applications := <[ ap_ApplicationID a := a ]> (t_applications (ai s)) |> | Err _ => ai s' = ai s end;
  acc_First_law i s x s' : acc_First i s = (x, s') → ai_saved s' = ai_saved s ∧ ai s' = ai s ∧ match x with Ok a => t_accesses (ai s) !! i = Some a | Err _ => True end;
  acc_Upsert_law a s x s' : acc_Upsert a s = (x, s') → ai_saved s' = ai_saved s ∧
    match x with Ok _ => ai s' = (ai s) <| t_accesses := <[ aa_ProxyID a := a ]> (t_accesses (ai s)) |> | Err _ => ai s' = ai s end;
  key_Count_law p s x s' : key_Count p s = (x, s') → ai_saved s' = ai_saved s ∧ ai s' = ai s ∧ match x with Ok n => n = length (List.filter p (map_to_list (t_keys (ai s))).*2) | Err _ => True end;
  key_Create_law k s x s' : key_Create k s = (x, s') → ai_saved s' = ai_saved s ∧
    match x with
    | Ok k' => ∃ i, i ≠ 0%N ∧ t_keys (ai s) !! i = None ∧ (∀ j kj, t_keys (ai s) !! j = Some kj → k_Digest kj ≠ k_Digest k) ∧
        k' = k <| k_ID := i |> ∧ ai s' = (ai s) <| t_keys := <[ i := k' ]> (t_keys (ai s)) |>
    | Err _ => ai s' = ai s
    end;
  key_First_law p s x s' : key_First p s = (x, s') → ai_saved s' = ai_saved s ∧ ai s' = ai s ∧
    match x with Ok k => t_keys (ai s) !! k_ID k = Some k ∧ p k = true | Err e => Is e ErrRecordNotFound = true → ∀ i k, t_keys (ai s) !! i = Some k → p k = false end;
  key_Find_law p s x s' : key_Find p s = (x, s') → ai_saved s' = ai_saved s ∧ ai s' = ai s ∧ match x with Ok l => ∀ k, k ∈ l → t_keys (ai s) !! k_ID k = Some k ∧ p k = true | Err _ => True end;
  key_Update_law p f s x s' : (∀ k, k_ID (f k) = k_ID k) → key_Update p f s = (x, s') → ai_saved s' = ai_saved s ∧
    match x with
    | Ok n => (n = 0 ↔ ∀ i k, t_keys (ai s) !! i = Some k → p k = false) ∧ ai s' = (ai s) <| t_keys := (λ k, if p k then f k else k) <$> t_keys (ai s) |>
    | Err _ => ai s' = ai s
    end;
  key_Usage_law p s x s' : key_Usage p s = (x, s') → ai_saved s' = ai_saved s ∧ ai s' = ai s ∧
    match x with
    | Ok (Some u) => ∃ i k, t_keys (ai s) !! i = Some k ∧ p k = true ∧ u = usage_of (t_ledger (ai s)) k
    | Ok None => ∀ i k, t_keys (ai s) !! i = Some k → p k = false
    | Err _ => True
    end;
  usage_Insert_law u s x s' : usage_Insert u s = (x, s') → ai_saved s' = ai_saved s ∧
    match x with
    | Ok n => if Nat.eqb n 0 then (∃ v, v ∈ t_ledger (ai s) ∧ u_RequestID v = u_RequestID u) ∧ ai s' = ai s
              else (∀ v, v ∈ t_ledger (ai s) → u_RequestID v ≠ u_RequestID u) ∧ ai s' = (ai s) <| t_ledger := t_ledger (ai s) ++ [u] |>
    | Err _ => ai s' = ai s
    end;
  request_Create_law q s x s' : request_Create q s = (x, s') → ai_saved s' = ai_saved s ∧
    match x with Ok _ => ai s' = (ai s) <| t_requests := t_requests (ai s) ++ [q] |> | Err _ => ai s' = ai s end;
  request_Prune_law proxy user s x s' : request_Prune proxy user s = (x, s') → ai_saved s' = ai_saved s ∧
    match x with Ok _ => ai s' = (ai s) <| t_requests := prune proxy user (t_requests (ai s)) |> | Err _ => ai s' = ai s end;
  ai_Begin_law s : ai (Begin_ s) = ai s ∧ ai_saved (Begin_ s) = ai s :: ai_saved s;
  ai_Commit_law T Ts s x s' : ai_saved s = T :: Ts → Commit_ s = (x, s') → ai_saved s' = Ts ∧ match x with Ok _ => ai s' = ai s | Err _ => ai s' = T end;
  ai_Rollback_law T Ts s : ai_saved s = T :: Ts → ai (Rollback_ s) = T ∧ ai_saved (Rollback_ s) = Ts;
  ai_rows_First t p s : ai (snd (First_ t p s)) = ai s ∧ ai_saved (snd (First_ t p s)) = ai_saved s;
  ai_rows_Find t p s : ai (snd (Find_ t p s)) = ai s ∧ ai_saved (snd (Find_ t p s)) = ai_saved s;
  ai_accounts_First {Row} `{!IamTable Row} preload p s :
    ai (snd (First (Row := Row) preload p s)) = ai s ∧ ai_saved (snd (First (Row := Row) preload p s)) = ai_saved s;
  ai_accounts_Find {Row} `{!IamTable Row} preload p less s :
    ai (snd (Find (Row := Row) preload p less s)) = ai s ∧ ai_saved (snd (Find (Row := Row) preload p less s)) = ai_saved s
}.

(** ** dao_ai_gateway.go and dao_ai_key_quota.go *)
Module AiDao.
Section Queries.
Context {DB : Type} {i_cp : CpGorm DB} {i_ai : AiGorm DB}.
(** gorm's [Transaction]: committed when the body returns no error. *)
Definition Transaction {A} (body : Op DB A) : Op DB A := λ s,
  match body (Begin_ s) with (Ok a, s') => (Commit_ ;; ret a) s' | (Err e, s') => (Err e, Rollback_ s') end.
Definition GetAIApplication (id : N) : Op DB AIApplication := app_First id.
Definition SaveAIApplication (v : AIApplication) : Op DB unit := app_Upsert v.
Definition GetAIAccess (id : N) : Op DB AIAccess := acc_First id.
Definition SaveAIAccess (v : AIAccess) : Op DB unit := acc_Upsert v.
Definition live (now : Time) (k : AIKey) : bool := bool_decide (k_RevokedAt k = None) && Z.ltb now (k_ExpiresAt k).
Definition key_of (proxy user : N) (k : AIKey) : bool := bool_decide (k_ProxyID k = proxy) && bool_decide (k_UserID k = user).
Definition key_limit : nat := 100.
Definition CreateAIKey (now : Time) (v : AIKey) : Op DB AIKey :=
  Transaction (
    let! count := key_Count (λ k, key_of (k_ProxyID v) (k_UserID v) k && live now k) in
    throw_if Nat.leb key_limit count with ENew "AI API key limit reached" ;;
    key_Create v).
Definition GetAIKey (now : Time) (digest : string) : Op DB AIKey := key_First (λ k, bool_decide (k_Digest k = digest) && live now k).
Definition ListAIKeys (proxy user : N) : Op DB (list AIKey) := key_Find (λ k, key_of proxy user k && bool_decide (k_RevokedAt k = None)).
Definition numbered_key (proxy user id : N) (k : AIKey) : bool := key_of proxy user k && bool_decide (k_ID k = id).
Definition RevokeAIKey (now : Time) (proxy user id : N) : Op DB unit := key_Update (numbered_key proxy user id) (λ k, k <| k_RevokedAt := Some now |>) ;; ret tt.
Definition GetAIKeyUsage (proxy user key : N) : Op DB AIKeyUsage :=
  let! usage := key_Usage (λ k, numbered_key proxy user key k && bool_decide (k_RevokedAt k = None)) in of_option usage ErrRecordNotFound.
Definition UpdateAIKeyQuota (now : Time) (proxy user key : N) (limit : option Z) : Op DB unit :=
  let! affected := key_Update (λ k, numbered_key proxy user key k && live now k) (λ k, k <| k_TokenLimit := limit |>) in
  throw_if Nat.eqb affected 0 with ErrRecordNotFound ;; ret tt.
Definition usage_row (v : AIRequest) : LLMTokenUsage := mkUsage (q_RequestID v) (q_ProxyID v) (q_UserID v) (q_KeyID v) (q_Model v) (q_InputTokens v) (q_OutputTokens v) (q_Complete v).
Definition negative (n : option Z) : bool := match n with Some n => Z.ltb n 0 | None => false end.
Definition RecordAIRequest (v : AIRequest) : Op DB unit :=
  throw_if bool_decide (q_RequestID v = "") || N.eqb (q_UserID v) 0 || N.eqb (q_ProxyID v) 0 with ENew "invalid LLM usage attribution" ;;
  throw_if negative (q_InputTokens v) || negative (q_OutputTokens v) with ENew "invalid LLM token count" ;;
  Transaction (
    let! inserted := usage_Insert (usage_row v) in
    if Nat.eqb inserted 0 then ret tt else
    request_Create v ;;
    request_Prune (q_ProxyID v) (q_UserID v)).
End Queries.
End AiDao.

(** ** ai_gateway.go *)
Definition ErrAIInvalid : error := ENew "invalid AI API configuration or request".
Definition ErrAIUnavailable : error := ENew "AI API access is unavailable".
Definition ErrAITokenQuota : error := ENew "AI key token quota exhausted".
Definition ErrAITokenUsage : error := ENew "AI key token usage unconfirmed".
Record AIApplicationConfig := mkAppConfig { fc_Protocol : string; fc_BasePath : string; fc_TLS : bool; fc_APIKey : string; fc_ClearKey : bool; fc_HasAPIKey : bool }.
Record AIAccessConfig := mkAccessConfig { gc_Enabled : bool; gc_Models : gmap string string; gc_ExternalProtocol : string }.
Record AIKeyRequest := mkKeyRequest { kr_Name : string; kr_Models : list string; kr_ExpiresInDays : Z; kr_TokenLimit : option Z }.
Record AIKeyView := mkKeyView {
  kv_ID : N; kv_Name : string; kv_Models : list string; kv_ExpiresAt : Time; kv_Secret : string; kv_TokenLimit : option Z; kv_UsedTokens : Z; kv_RemainingTokens : option Z; kv_UnknownRequests : Z }.
(** A grant; [Revalidate] closes over the key, the application and the models
    it was made for. *)
Record AIGrant := mkGrant {
  g_Metered : bool; g_KeyID : N; g_UserID : N; g_ProxyID : N; g_Models : gmap string string; g_Protocol : string; g_Application : Application; g_UpstreamKey : string;
  g_Digest : option string; g_AccessModels : string }.
#[export] Instance AIGrant_eta : Eta AIGrant := {| eta := λ g, mkGrant (g_Metered g) (g_KeyID g) (g_UserID g) (g_ProxyID g) (g_Models g) (g_Protocol g) (g_Application g) (g_UpstreamKey g)
  (g_Digest g) (g_AccessModels g) |}.
(** The JSON of scopes and of model mappings, and AES-GCM: a text under a nonce,
    bound to a label. *)
Class AiCodec := {
  encode_scope : list string → string; decode_scope : string → option (list string);
  encode_models : gmap string string → string; decode_models : string → option (gmap string string);
  seal_key : string → string → string → string; open_key : string → string → option string }.

Module AI.
Section Service.
Context {DB E : Type} {i_iam : IamGorm DB} {i_cp : CpGorm DB} {i_ai : AiGorm DB} {i_enf : Enforcer E} {i_codec : AiCodec}.
#[local] Abbreviation St := (IAMService DB E).
#[local] Abbreviation on_repo := (IAM.on_repo (DB := DB) (E := E)).

Definition actor (user : option N) (resource action : string) : Op St N := λ s,
  match user with
  | None => (Err ErrForbidden, s)
  | Some id =>
      if N.eqb id 0 then (Err ErrForbidden, s) else
      match Auth.GetUserByID id s with
      | (Err _, s) => (Err ErrForbidden, s)
      | (Ok u, s) =>
          if negb (bool_decide (u_Status u = UserStatusActive)) then (Err ErrForbidden, s)
          else (IAM.RequireResourcePermission (Some u) resource action ;; ret id) s
      end
  end.
Definition forbidden_unless (m : Op St unit) : Op St unit := map_err (λ _, ErrForbidden) m.
Definition application (user : option N) (id : N) (action : string) : Op St Application :=
  actor user "applications" action ;;
  forbidden_unless (on_repo (Control.requireVisibleResource user "application" id)) ;;
  let! app := on_repo (CpDao.GetApplicationByID id) in
  throw_if negb (bool_decide (a_ApplicationType app = "llm")) || negb (Nat.eqb (length (a_EdgeIDs app)) 1) with ErrAIInvalid ;;
  forbidden_unless (on_repo (Control.requireVisibleResource user "connector" (default 0%N (head (a_EdgeIDs app))))) ;;
  ret app.
Definition access (user : option N) (id : N) (action : string) : Op St (Access * Application) :=
  actor user "accesses" action ;;
  forbidden_unless (on_repo (Control.requireVisibleResource user "access" id)) ;;
  let! p := on_repo (CpDao.GetProxyByID id) in
  throw_if negb (bool_decide (x_AccessProtocol p = "aiapi")) with ErrAIInvalid ;;
  let! app := application user (x_ApplicationID p) "read" in
  ret (p, app).
Definition aiFingerprint (app : Application) (protocol basePath : string) (tls : bool) : string :=
  KeyDigest (pretty (a_ID app) +:+ "|[" +:+ join_with " " (map pretty (a_EdgeIDs app)) +:+ "]|" +:+ a_IP app +:+ "|" +:+ pretty (a_Port app) +:+ "|" +:+ protocol +:+ "|" +:+ basePath
    +:+ "|" +:+ (if tls then "true" else "false")).
Definition aiAppView (v : AIApplication) : AIApplicationConfig := mkAppConfig (ap_Protocol v) (ap_BasePath v) (ap_TLS v) "" false (negb (bool_decide (ap_EncryptedKey v = ""))).
Definition GetApplication (user : option N) (id : N) : Op St AIApplicationConfig :=
  application user id "update" ;;
  let! v := on_repo (CpDao.or_none (AiDao.GetAIApplication id)) in
  ret (match v with Some v => aiAppView v | None => mkAppConfig "openai-compatible" "/v1" false "" false false end).
Definition SaveApplication (nonce : Result string) (user : option N) (id : N) (c : AIApplicationConfig) : Op St AIApplicationConfig :=
  let! app := application user id "update" in
  throw_if negb (bool_decide (fc_Protocol c ∈ ["openai-compatible"; "anthropic"; "ollama"])) || Z.ltb 8192 (Z.of_nat (String.length (fc_APIKey c))) ||
    ContainsAny (fc_APIKey c) (map ascii_of_nat [13; 10]) with ErrAIInvalid ;;
  throw_if negb (valid_target (a_IP app) (a_Port app) (fc_BasePath c)) with ErrAIInvalid ;;
  let fingerprint := aiFingerprint app (fc_Protocol c) (fc_BasePath c) (fc_TLS c) in
  let! old := on_repo (CpDao.or_none (AiDao.GetAIApplication id)) in
  let kept := match old with Some old => negb (bool_decide (ap_EncryptedKey old = "")) && negb (fc_ClearKey c) && bool_decide (fc_APIKey c = "") | None => false end in
  throw_if kept && negb (bool_decide ((ap_TargetFingerprint <$> old) = Some fingerprint)) with ErrAIInvalid ;;
  let! encrypted := (if negb (bool_decide (fc_APIKey c = "")) && negb (fc_ClearKey c) then let! nonce := lift nonce in ret (seal_key nonce (fc_APIKey c) fingerprint)
                     else ret (if kept then default "" (ap_EncryptedKey <$> old) else "")) in
  let v := mkAIApplication id (fc_Protocol c) (fc_BasePath c) (fc_TLS c) encrypted fingerprint in
  on_repo (AiDao.SaveAIApplication v) ;;
  ret (aiAppView v).
Definition GetAccess (user : option N) (id : N) : Op St AIAccessConfig :=
  access user id "update" ;;
  let! v := on_repo (CpDao.or_none (AiDao.GetAIAccess id)) in
  match v with
  | None => ret (mkAccessConfig false ∅ "openai-compatible")
  | Some v => let! models := of_option (decode_models (aa_Models v)) (ENew "invalid JSON") in ret (mkAccessConfig (aa_Enabled v) models "openai-compatible")
  end.
Definition SaveAccess (user : option N) (id : N) (c : AIAccessConfig) : Op St AIAccessConfig :=
  access user id "update" ;;
  throw_if negb (bool_decide (gc_ExternalProtocol c ∈ [""; "openai-compatible"])) || Nat.ltb 100 (size (gc_Models c)) || (gc_Enabled c && Nat.eqb (size (gc_Models c)) 0) with ErrAIInvalid ;;
  throw_if negb (Nat.eqb (size (AllowedModels (ModelAliases (gc_Models c)) (gc_Models c))) (size (gc_Models c))) with ErrAIInvalid ;;
  on_repo (AiDao.SaveAIAccess (mkAIAccess id (gc_Enabled c) (encode_models (gc_Models c)))) ;;
  ret (mkAccessConfig (gc_Enabled c) (gc_Models c) "openai-compatible").
Definition actor_of (user : option N) : N := default 0%N user.
Definition view_key (id user : N) (k : AIKey) : Op St AIKeyView :=
  let! scope := of_option (decode_scope (k_Models k)) (ENew "invalid JSON") in
  let! usage := on_repo (AiDao.GetAIKeyUsage id user (k_ID k)) in
  ret (mkKeyView (k_ID k) (k_Name k) scope (k_ExpiresAt k) "" (ku_TokenLimit usage) (ku_UsedTokens usage)
    (match ku_TokenLimit usage with Some limit => if Z.eqb (ku_UnknownRequests usage) 0 then Some (Z.max 0 (limit - ku_UsedTokens usage)) else None | None => None end)
    (ku_UnknownRequests usage)).
Fixpoint view_keys (id user : N) (l : list AIKey) : Op St (list AIKeyView) :=
  match l with [] => ret [] | k :: l' => let! v := view_key id user k in let! vs := view_keys id user l' in ret (v :: vs) end.
Definition Keys (user : option N) (id : N) : Op St (list AIKeyView) :=
  access user id "use" ;;
  let! keys := on_repo (AiDao.ListAIKeys id (actor_of user)) in
  view_keys id (actor_of user) keys.
Definition validAITokenLimit (limit : option Z) : bool := match limit with None => true | Some n => Z.leb 0 n && Z.leb n 1000000000000 end.
Definition day : Time := 86400000000000%Z.
Definition CreateKey (now : Time) (entropy : Result (list N)) (user : option N) (id : N) (c : AIKeyRequest) : Op St AIKeyView :=
  access user id "use" ;;
  throw_if negb (validAITokenLimit (kr_TokenLimit c)) || bool_decide (TrimSpace (kr_Name c) = "") || Nat.ltb 100 (String.length (kr_Name c)) || Z.ltb (kr_ExpiresInDays c) 1 ||
    Z.ltb 365 (kr_ExpiresInDays c) || Nat.eqb (length (kr_Models c)) 0 || Nat.ltb 100 (length (kr_Models c)) with ErrAIInvalid ;;
  let! granted := GetAccess user id in
  throw_if negb (Nat.eqb (size (AllowedModels (kr_Models c) (gc_Models granted))) (length (kr_Models c))) with ErrAIInvalid ;;
  let! made := lift (NewKey entropy) in
  let '(secret, digest) := made in
  let! key := on_repo (AiDao.CreateAIKey now (mkAIKey 0 id (actor_of user) (TrimSpace (kr_Name c)) digest (encode_scope (kr_Models c)) (now + kr_ExpiresInDays c * day)%Z None (kr_TokenLimit c))) in
  ret (mkKeyView (k_ID key) (k_Name key) (kr_Models c) (k_ExpiresAt key) secret (k_TokenLimit key) 0 (k_TokenLimit key) 0).
Definition UpdateKeyQuota (now : Time) (user : option N) (id keyID : N) (limit : option Z) : Op St unit :=
  throw_if negb (validAITokenLimit limit) with ErrAIInvalid ;;
  access user id "update" ;;
  map_err (λ e, if Is e ErrRecordNotFound then ErrForbidden else e) (on_repo (AiDao.UpdateAIKeyQuota now id (actor_of user) keyID limit)).
(** The grant comes back with [Metered] set. *)
Definition CheckKeyQuota (grant : AIGrant) : Op St AIGrant :=
  if N.eqb (g_KeyID grant) 0 then ret grant else
  let! usage := map_err (λ e, if Is e ErrRecordNotFound then ErrForbidden else e) (on_repo (AiDao.GetAIKeyUsage (g_ProxyID grant) (g_UserID grant) (g_KeyID grant))) in
  match ku_TokenLimit usage with
  | None => ret grant
  | Some limit =>
      throw_if Z.leb limit (ku_UsedTokens usage) with ErrAITokenQuota ;;
      throw_if Z.ltb 0 (ku_UnknownRequests usage) with ErrAITokenUsage ;;
      ret (grant <| g_Metered := true |>)
  end.
Definition RevokeKey (now : Time) (user : option N) (id keyID : N) : Op St unit :=
  access user id "use" ;;
  on_repo (AiDao.RevokeAIKey now id (actor_of user) keyID).
Definition active (user : option N) (id : N) : Op St (Access * Application * AIAccess) :=
  let! pa := access user id "use" in
  let '(p, app) := pa in
  let! state := on_repo (Console.plain (Control.proxyEffectiveStatus p (Some app))) in
  throw_if negb (bool_decide (state = "active")) with ErrAIUnavailable ;;
  let! a := on_repo (AiDao.GetAIAccess id) in
  throw_if negb (aa_Enabled a) with ErrAIUnavailable ;;
  ret (p, app, a).
(** The credential of the upstream and its protocol; the upstream itself is
    its target, which [NewUpstream] must accept. *)
Definition upstream (app : Application) : Op St (string * string) :=
  let! cfg := on_repo (AiDao.GetAIApplication (a_ID app)) in
  let fingerprint := aiFingerprint app (ap_Protocol cfg) (ap_BasePath cfg) (ap_TLS cfg) in
  throw_if negb (bool_decide (fingerprint = ap_TargetFingerprint cfg)) with ErrAIUnavailable ;;
  let! key := (if bool_decide (ap_EncryptedKey cfg = "") then ret "" else of_option (open_key (ap_EncryptedKey cfg) fingerprint) ErrAIUnavailable) in
  throw_if negb (valid_target (a_IP app) (a_Port app) (ap_BasePath cfg)) with ENew "invalid AI API target" ;;
  ret (key, ap_Protocol cfg).
Definition Grant (now : Time) (id : N) (secret : string) : Op St AIGrant :=
  throw_if negb (Nat.eqb (String.length secret) 50) || negb (HasPrefix secret key_prefix) with ErrForbidden ;;
  let digest := KeyDigest secret in
  let! key := map_err (λ _, ErrForbidden) (on_repo (AiDao.GetAIKey now digest)) in
  throw_if negb (bool_decide (k_ProxyID key = id)) with ErrForbidden ;;
  let! found := active (Some (k_UserID key)) id in
  let '(_, app, a) := found in
  let! scope := of_option (decode_scope (k_Models key)) ErrAIUnavailable in
  let! mappings := of_option (decode_models (aa_Models a)) ErrAIUnavailable in
  let! up := upstream app in
  ret (mkGrant false (k_ID key) (k_UserID key) id (AllowedModels scope mappings) (snd up) app (fst up) (Some digest) (aa_Models a)).
Definition DebugGrant (user : option N) (id : N) : Op St AIGrant :=
  let! found := active user id in
  let '(_, app, a) := found in
  let! models := of_option (decode_models (aa_Models a)) ErrAIUnavailable in
  let! up := upstream app in
  ret (mkGrant false 0 (actor_of user) id models (snd up) app (fst up) None (aa_Models a)).
(** The [check] of a grant: before the dial, and every two seconds while a
    request runs. *)
Definition same_target (a b : Application) : bool :=
  bool_decide (a_ID a = a_ID b) && bool_decide (a_IP a = a_IP b) && bool_decide (a_Port a = a_Port b) && bool_decide (a_EdgeIDs a = a_EdgeIDs b).
Definition Revalidate (now : Time) (grant : AIGrant) : Op St unit :=
  (match g_Digest grant with Some digest => map_err (λ _, ErrForbidden) (on_repo (AiDao.GetAIKey now digest)) ;; ret tt | None => ret tt end) ;;
  let! found := active (Some (g_UserID grant)) (g_ProxyID grant) in
  let '(_, current, currentAccess) := found in
  throw_if negb (same_target current (g_Application grant)) with ErrAIUnavailable ;;
  throw_if negb (bool_decide (aa_Models currentAccess = g_AccessModels grant)) with ErrAIUnavailable ;;
  ret tt.
Definition Record_ (record : AIRequest) : Op St unit := on_repo (AiDao.RecordAIRequest record).
End Service.
End AI.
