(* ===== verification/AiRelay.v ===== *)
(** * AI gateway: requests and streams

    [aigateway/codec.go] and [PrepareMessages] of [anthropic_native.go]: the
    model a request names is replaced by the one it maps to, and a stream of
    server-sent events is relayed with the alias put back.  Parameters: reading
    and writing JSON one level deep ([json.RawMessage]), the conversion of
    requests to the formats of Anthropic and Ollama.  A stream is the list of
    its lines and whether reading them ended in an error; whether the client
    takes a frame may depend on the frames before it.  Not modelled: the relay
    of Ollama and of native Anthropic streams. *)

From S2P Require Import Prelude ToolTypes NetAddr DataConsoleText AiGateway.

Definition ErrUnsupported : error := ENew "unsupported request or protocol capability".
Definition ErrModelDenied : error := ENew "model is not allowed".
Definition ErrResponse : error := ENew "invalid or incomplete upstream response".
Abbreviation raw := string.
Abbreviation object := (gmap string raw).
(** [json.Unmarshal] into a map, a string, a bool, a list, a *int64, a struct of
    type and text, and one of a stop reason: [None] is an error, an inner [None]
    the nil that null leaves; [json.Marshal]. *)
Class JsonRaw := {
  get_object : raw → option (option object);
  get_string : raw → option string;
  get_bool : raw → option bool;
  get_list : raw → option (option (list raw));
  get_int : raw → option (option Z);
  get_typed : raw → option (string * string);
  get_stop_reason : raw → option string;
  put_string : string → raw;
  put_object : object → Result raw
}.
(** [json.Marshal] writes an object between braces. *)
Class JsonRawLaws `{!JsonRaw} := { put_braced o r : put_object o = Ok r → HasPrefix r "{" = true }.
Record Prepared := mkPrepared { pr_Body : raw; pr_Alias : string; pr_Stream : bool; pr_Operation : string }.
#[export] Instance Prepared_eta : Eta Prepared := {| eta := λ p, mkPrepared (pr_Body p) (pr_Alias p) (pr_Stream p) (pr_Operation p) |}.
Record Usage := mkTokens { us_Input : option Z; us_Output : option Z; us_Complete : bool }.
#[export] Instance Usage_eta : Eta Usage := {| eta := λ u, mkTokens (us_Input u) (us_Output u) (us_Complete u) |}.
Definition no_usage : Usage := mkTokens None None false.

Module Relay.
Section Relay.
Context {i_json : JsonRaw}.
(** Requests for Anthropic and Ollama upstreams: operation and body. *)
Context (convert : string → string → object → bool → list raw → Result (string * raw)).
(** The messages of a native request are well formed. *)
Context (native_messages : raw → bool).
Definition field (o : object) (k : string) : raw := default "" (o !! k).
Definition max_request : Z := 1048576.
Definition read_object (body : raw) : Result object :=
  if Z.ltb max_request (Z.of_nat (String.length body)) then Err ErrUnsupported else match get_object body with Some (Some o) => Ok o | _ => Err ErrUnsupported end.
(** The alias of the request and the model it stands for. *)
Definition resolve (o : object) (allowed : gmap string string) : Result (string * string) :=
  match get_string (field o "model") with
  | None => Err ErrUnsupported
  | Some alias => match allowed !! alias with Some model => Ok (alias, model) | None => Err ErrModelDenied end
  end.
Definition streams (o : object) : Result bool :=
  match o !! "stream" with None => Ok false | Some b => if bool_decide (b = "null") then Err ErrUnsupported else match get_bool b with Some b => Ok b | None => Err ErrUnsupported end end.
Definition Prepare (body : raw) (allowed : gmap string string) (protocol : string) : Result Prepared :=
  match read_object body with
  | Err e => Err e
  | Ok o =>
  match resolve o allowed with
  | Err e => Err e
  | Ok (alias, model) =>
  match streams o with
  | Err e => Err e
  | Ok stream =>
  match get_list (field o "messages") with
  | Some (Some messages) =>
      if Nat.eqb (length messages) 0 || Nat.ltb 1000 (length messages) then Err ErrUnsupported else
      let o := <[ "model" := put_string model ]> o in
      if bool_decide (protocol ∈ ["ollama"; "anthropic"]) then
        match convert protocol model o stream messages with Ok (operation, body) => Ok (mkPrepared body alias stream operation) | Err e => Err e end
      else if negb (bool_decide (protocol = "openai-compatible")) then Err ErrUnsupported
      else match put_object o with Ok body => Ok (mkPrepared body alias stream "chat/completions") | Err e => Err e end
  | _ => Err ErrUnsupported
  end end end end.
Definition native_fields : list string :=
  ["model"; "messages"; "max_tokens"; "stream"; "system"; "temperature"; "top_p"; "top_k"; "stop_sequences"; "tools"; "tool_choice"; "thinking"; "metadata"].
Definition PrepareMessages (body : raw) (allowed : gmap string string) : Result Prepared :=
  match read_object body with
  | Err e => Err e
  | Ok o =>
  if negb (forallb (λ k, bool_decide (k ∈ native_fields)) (map_to_list o).*1) then Err ErrUnsupported else
  match resolve o allowed with
  | Err e => Err e
  | Ok (alias, model) =>
  if negb (match get_int (field o "max_tokens") with Some n => Z.ltb 0 (default 0%Z n) | None => false end) then Err ErrUnsupported else
  match streams o with
  | Err e => Err e
  | Ok stream =>
      if negb (native_messages (field o "messages")) then Err ErrUnsupported else
      match put_object (<[ "model" := put_string model ]> o) with Ok body => Ok (mkPrepared body alias stream "messages") | Err e => Err e end
  end end end.
Definition IncludeStreamUsage (p : Prepared) : Result Prepared :=
  match get_object (pr_Body p) with
  | Some (Some o) =>
      let options := match o !! "stream_options" with
                     | None => Some ∅
                     | Some r => if bool_decide (r ∈ [""; "null"]) then Some ∅ else (λ x, default ∅ x) <$> get_object r
                     end in
      match options with
      | None => Err ErrUnsupported
      | Some options =>
          match put_object (<[ "include_usage" := "true" ]> options) with
          | Err e => Err e
          | Ok encoded => match put_object (<[ "stream_options" := encoded ]> o) with Ok body => Ok (p <| pr_Body := body |>) | Err e => Err e end
          end
      end
  | _ => Err ErrUnsupported
  end.

(** ** Responses *)
Definition responseObject (body : raw) : Result object :=
  match get_object body with Some (Some o) => if bool_decide (o !! "error" = None) then Ok o else Err ErrResponse | _ => Err ErrResponse end.
Definition counted (o : object) (k : string) (old : option Z) : option Z :=
  match get_int (field o k) with Some (Some n) => if Z.leb 0 n then Some n else old | _ => old end.
Definition observeUsage (o : object) (anthropic : bool) (u : Usage) : Usage :=
  match get_object (field o "usage") with
  | Some (Some usage) => u <| us_Input := counted usage (if anthropic then "input_tokens" else "prompt_tokens") (us_Input u) |>
                           <| us_Output := counted usage (if anthropic then "output_tokens" else "completion_tokens") (us_Output u) |>
  | _ => u
  end.
Definition finishReason (reason : string) : Result string :=
  if bool_decide (reason ∈ ["end_turn"; "stop_sequence"]) then Ok "stop" else if bool_decide (reason = "max_tokens") then Ok "length"
  else if bool_decide (reason = "refusal") then Ok "content_filter" else Err ErrResponse.

(** ** RelaySSE *)
Section Stream.
Context (protocol alias : string).
(** The chunk [send] makes of an identifier, a delta and a finish reason, and
    whether the client takes a frame after those it took. *)
Context (chunk : string → list (string * string) → option string → object) (takes : list raw → raw → bool).
Record Stream := mkStream { sr_frame : raw; sr_id : string; sr_started : bool; sr_finished : bool; sr_usage : Usage; sr_sent : list raw }.
#[export] Instance Stream_eta : Eta Stream := {| eta := λ s, mkStream (sr_frame s) (sr_id s) (sr_started s) (sr_finished s) (sr_usage s) (sr_sent s) |}.
Definition done : raw := "[DONE]".
Definition emit (data : raw) : Op Stream unit := λ s, if takes (sr_sent s) data then (Ok tt, s <| sr_sent := sr_sent s ++ [data] |>) else (Err (ENew "client gone"), s).
Definition with_alias (o : object) : object := <[ "model" := put_string alias ]> o.
Definition emit_object (o : object) : Op Stream unit := λ s, match put_object o with Ok r => emit r s | Err e => (Err e, s) end.
Definition send (delta : list (string * string)) (reason : option string) : Op Stream unit := λ s, emit_object (with_alias (chunk (sr_id s) delta reason)) s.
Definition finish : Op Stream unit := emit done ;; modify (λ s, s <| sr_usage := (sr_usage s) <| us_Complete := true |> |>).
Definition observe (o : object) (anthropic : bool) : Op Stream unit := modify (λ s, s <| sr_usage := observeUsage o anthropic (sr_usage s) |>).
Definition require (b : Stream → bool) : Op Stream unit := λ s, if b s then (Ok tt, s) else (Err ErrResponse, s).
Definition openai_event (data : raw) : Op Stream unit :=
  if bool_decide (data = done) then require sr_started ;; finish else
  let! o := lift (responseObject data) in
  observe o false ;;
  (match get_list (field o "choices") with Some _ => ret tt | None => throw ErrResponse end) ;;
  modify (λ s, s <| sr_started := true |>) ;;
  emit_object (with_alias o).
Definition text_of (o : object) (k kind : string) : Op Stream string :=
  require sr_started ;; match get_typed (field o k) with Some (ty, text) => if bool_decide (ty = kind) then ret text else throw ErrResponse | None => throw ErrResponse end.
Definition anthropic_event (data : raw) : Op Stream unit :=
  let! o := lift (responseObject data) in
  let! event := of_option (get_string (field o "type")) ErrResponse in
  if bool_decide (event = "ping") then ret tt
  else if bool_decide (event = "message_start") then
    require (λ s, negb (sr_started s)) ;;
    modify (λ s, s <| sr_started := true |>) ;;
    let! message := lift (responseObject (field o "message")) in
    let! id := of_option (get_string (field message "id")) ErrResponse in
    modify (λ s, s <| sr_id := id |>) ;;
    observe message true ;;
    send [("role", "assistant"); ("content", "")] None
  else if bool_decide (event = "content_block_start") then
    let! text := text_of o "content_block" "text" in
    if bool_decide (text = "") then ret tt else send [("content", text)] None
  else if bool_decide (event = "content_block_delta") then
    let! text := text_of o "delta" "text_delta" in send [("content", text)] None
  else if bool_decide (event = "content_block_stop") then ret tt
  else if bool_decide (event = "message_delta") then
    require sr_started ;;
    observe o true ;;
    let! stop := of_option (get_stop_reason (field o "delta")) ErrResponse in
    let! reason := lift (finishReason stop) in
    modify (λ s, s <| sr_finished := true |>) ;;
    send [] (Some reason)
  else if bool_decide (event = "message_stop") then require sr_finished ;; finish
  else throw ErrResponse.
Definition dispatch : Op Stream unit := λ s,
  let data := TrimSpace (sr_frame s) in
  if bool_decide (data = "") then (Ok tt, s) else (if bool_decide (protocol = "openai-compatible") then openai_event data else anthropic_event data) s.
Definition max_frame : Z := 1048576.
Definition data_line (line : string) : string := TrimPrefix (TrimPrefix line "data:") " ".
Definition newline_ : string := String (ascii_of_nat 10) "".
Fixpoint relay (lines : list string) (failure : option error) : Op Stream unit :=
  match lines with
  | [] => throw (default ErrResponse failure)
  | line :: lines' =>
      if bool_decide (line = "") then
        dispatch ;;
        modify (λ s, s <| sr_frame := "" |>) ;;
        λ s, if us_Complete (sr_usage s) then (Ok tt, s) else relay lines' failure s
      else if HasPrefix line "data:" then
        modify (λ s, s <| sr_frame := sr_frame s +:+ (if bool_decide (sr_frame s = "") then "" else newline_) +:+ data_line line |>) ;;
        λ s, if Z.ltb max_frame (Z.of_nat (String.length (sr_frame s))) then (Err ErrResponse, s) else relay lines' failure s
      else relay lines' failure
  end.
Definition RelaySSE (lines : list string) (failure : option error) (u : Usage) : Result unit * Stream := relay lines failure (mkStream "" "" false false u []).
End Stream.
End Relay.
End Relay.
