(* ===== verification/AiInference.v ===== *)
(** * AI gateway: an inference

    [handleAIInference] of [web/ai_gateway_http.go] with the checks of
    [RequestProtocol] and of the dial: who may call, with which model, within
    which quota, and the usage that is recorded.  The upstream is a partner that
    answers once; the handler runs as one step, at one time.  Parameters: the
    encoders of [AiRelay], the relays it leaves out, whether the client takes
    what is written and whether the request is cancelled. *)

From S2P Require Import Prelude ToolTypes IamDao Iam ControlDao NetAddr ControlPlane ControlResources DataConsoleText AiGateway AiRelay.

(** What an upstream answers: nothing, or a status with a stream of lines or a
    body. *)
Inductive outcome := Unreachable (deadline : bool) | Answered (status : Z) (contentType : string) (lines : list string) (failure : option error) (body : option raw).
Class Upstreams (Net : Type) := { ask : AIGrant → string → raw → Net → outcome * Net }.

Record InferenceRequest := mkInference {
  ir_Method : string; ir_Operation : string; ir_Debug : bool; ir_User : option N; ir_ApiKeys : list string; ir_Authorization : list string; ir_Beta : string; ir_Version : string;
  ir_SlotFree : bool; ir_Body : option raw; ir_RequestID : Result string; ir_Now : Time; ir_Duration : Z; ir_Cancelled : bool; ir_ClientReads : bool }.
Inductive answer_body := ANone | AModels (aliases : list string) | AText (body : raw) | AStream (frames : list raw) (interrupted : bool).
Record Answer := mkAnswer { an_Status : Z; an_Reason : string; an_Body : answer_body }.
Definition default_reason (status : Z) : string :=
  default "INTERNAL_ERROR" ((list_to_map [(400, "INVALID_REQUEST"); (401, "AUTHENTICATION_REQUIRED"); (403, "PERMISSION_DENIED"); (405, "UNSUPPORTED_OPERATION"); (413, "REQUEST_TOO_LARGE");
    (429, "RATE_LIMITED"); (502, "UPSTREAM_ERROR"); (503, "SERVICE_UNAVAILABLE"); (504, "UPSTREAM_TIMEOUT")]%Z : gmap Z string) !! status).
(** [""]: no reason given *)
Definition aiError (status : Z) (reason : string) : Answer := mkAnswer status (if bool_decide (reason = "") then default_reason status else reason) ANone.
Definition aiStatus (e : error) : Z :=
  if Is e ErrForbidden then 403 else if Is e ErrAIInvalid || Is e ErrUnsupported then 400 else if Is e ErrModelDenied then 403 else if Is e ErrAIUnavailable then 503 else 500.
(** [strings.SplitN(v, " ", 2)] into two parts. *)
Fixpoint cut_space (s : string) : option (string * string) :=
  match s with EmptyString => None | String c s' => if bool_decide (c = " "%char) then Some ("", s') else match cut_space s' with Some (a, b) => Some (String c a, b) | None => None end end.
Definition bearerToken (authorization : list string) : option string :=
  match cut_space (default "" (head authorization)) with Some (scheme, token) => if bool_decide (scheme = "Bearer") && negb (bool_decide (token = "")) then Some token else None | None => None end.
Definition aiInferenceKey (r : InferenceRequest) (nativeMessages : bool) : option string :=
  match ir_ApiKeys r with
  | v :: more => if nativeMessages then
      if negb (Nat.eqb (length more) 0) || negb (Nat.eqb (length (ir_Authorization r)) 0) || bool_decide (TrimSpace v = "") || negb (bool_decide (TrimSpace v = v)) then None else Some v
      else bearerToken (ir_Authorization r)
  | [] => bearerToken (ir_Authorization r)
  end.

Module Inference.
Section Handler.
Context {DB E : Type} {i_iam : IamGorm DB} {i_cp : CpGorm DB} {i_ai : AiGorm DB} {i_enf : Enforcer E} {i_codec : AiCodec} {i_json : JsonRaw} {Net : Type} {i_net : Upstreams Net}.
Context (convert : string → string → object → bool → list raw → Result (string * raw)) (native_messages : raw → bool)
  (chunk : string → list (string * string) → option string → object) (takes : list raw → raw → bool)
  (relay_other : bool → string → string → list string → option error → Result unit * list raw * Usage)
  (rewrite_body : bool → string → string → raw → Result raw * Usage).
#[local] Abbreviation W := (IAMService DB E * Net)%type.
Definition J (A : Type) : Type := W → (Answer + A) * W.
Definition jret {A} (a : A) : J A := λ w, (inr a, w).
Definition reject {A} (r : Answer) : J A := λ w, (inl r, w).
Definition jbind {A B} (m : J A) (k : A → J B) : J B := λ w, match m w with (inr a, w') => k a w' | (inl r, w') => (inl r, w') end.
#[local] Notation "'do' x <- m ; k" := (jbind m (λ x, k)) (at level 100, x name, m at level 100, k at level 200, right associativity).
#[local] Notation "'stop_if' b 'with' r ; k" := (if (b : bool) then reject r else k) (at level 100, b at level 100, r at level 100, k at level 200, right associativity).
Definition on_service {A} (m : Op (IAMService DB E) A) : J (Result A) := λ w, let '(x, s) := m (fst w) in (inr x, (s, snd w)).
Definition or_reject {A} (m : J (Result A)) (f : error → Answer) : J A := do x <- m; match x with Ok a => jret a | Err e => reject (f e) end.
Definition pure_or {A} (x : Result A) (f : error → Answer) : J A := match x with Ok a => jret a | Err e => reject (f e) end.

(** RequestProtocol up to the wire: the dialer asks [Revalidate] first. *)
Definition supported (protocol operation : string) : bool :=
  (bool_decide (protocol = "ollama") && bool_decide (operation = "chat")) || (bool_decide (protocol = "openai-compatible") && bool_decide (operation = "chat/completions")) ||
  (bool_decide (protocol = "anthropic") && bool_decide (operation = "messages")).
Definition RequestProtocol (now : Time) (grant : AIGrant) (operation : string) (body : raw) : W → outcome * W := λ w,
  if negb (supported (g_Protocol grant) operation) || ContainsAny (g_UpstreamKey grant) (map ascii_of_nat [13; 10]) then (Unreachable false, w) else
  match AI.Revalidate now grant (fst w) with
  | (Err _, s) => (Unreachable false, (s, snd w))
  | (Ok _, s) => let '(o, n) := ask grant operation body (snd w) in (o, (s, n))
  end.
Definition max_body : Z := 8388608.
Definition relayed (native : bool) (grant : AIGrant) (prepared : Prepared) (lines : list string) (failure : option error) : Result unit * list raw * Usage :=
  if negb native && bool_decide (g_Protocol grant ∈ ["openai-compatible"; "anthropic"]) then
    let '(r, s) := Relay.RelaySSE (g_Protocol grant) (pr_Alias prepared) chunk takes lines failure no_usage in (r, Relay.sr_sent s, Relay.sr_usage s)
  else relay_other native (g_Protocol grant) (pr_Alias prepared) lines failure.
(** The answer to the client, the status of the record and the usage. *)
Definition settle (r : InferenceRequest) (native : bool) (grant : AIGrant) (prepared : Prepared) (o : outcome) : Answer * Z * Usage :=
  match o with
  | Unreachable true => (aiError 504 "UPSTREAM_TIMEOUT", 504%Z, no_usage)
  | Unreachable false => (aiError 502 "UPSTREAM_ERROR", 502%Z, no_usage)
  | Answered status contentType lines failure body =>
      if negb (Z.eqb status 200) then
        let code := if Z.eqb status 429 then 429%Z else 502%Z in
        let reason := if Z.eqb status 429 then "UPSTREAM_RATE_LIMITED" else if Z.eqb status 404 then "UPSTREAM_MODEL_OR_ENDPOINT_NOT_FOUND"
                      else if Z.eqb status 401 || Z.eqb status 403 then "UPSTREAM_AUTHENTICATION_FAILED" else "UPSTREAM_ERROR" in
        (aiError code reason, code, no_usage)
      else if pr_Stream prepared then
        if negb (HasPrefix contentType (if bool_decide (g_Protocol grant = "ollama") then "application/x-ndjson" else "text/event-stream"))
        then (aiError 502 "UPSTREAM_ERROR", 502%Z, no_usage) else
        match relayed native grant prepared lines failure with
        | (Ok _, frames, u) => (mkAnswer 200 "" (AStream frames false), 200%Z, u)
        | (Err _, frames, u) => (mkAnswer 200 "" (AStream frames true), 502%Z, u)
        end
      else match body with
           | None => (aiError 502 "UPSTREAM_ERROR", 502%Z, no_usage)
           | Some body =>
               if Z.ltb max_body (Z.of_nat (String.length body)) then (aiError 502 "UPSTREAM_ERROR", 502%Z, no_usage) else
               match rewrite_body native (g_Protocol grant) (pr_Alias prepared) body with
               | (Err _, u) => (aiError 502 "UPSTREAM_ERROR", 502%Z, u)
               | (Ok text, u) => if ir_ClientReads r then (mkAnswer 200 "" (AText text), 200%Z, u) else (mkAnswer 200 "" (AText ""), 502%Z, u <| us_Complete := false |>)
               end
           end
  end.
Definition grant_for (r : InferenceRequest) (id : N) (native : bool) : J AIGrant :=
  if ir_Debug r then or_reject (on_service (AI.DebugGrant (ir_User r) id)) (λ e, aiError (aiStatus e) "")
  else match aiInferenceKey r native with
       | None => reject (aiError 401 "AUTHENTICATION_REQUIRED")
       | Some secret => or_reject (on_service (AI.Grant (ir_Now r) id secret)) (λ e, aiError (if Z.eqb (aiStatus e) 403 then 401 else aiStatus e) "")
       end.
Definition quota_error (e : error) : Answer :=
  if Is e ErrAITokenQuota then aiError 429 "TOKEN_QUOTA_EXHAUSTED" else if Is e ErrAITokenUsage then aiError 429 "TOKEN_USAGE_UNCONFIRMED" else aiError (aiStatus e) "".
(** The request to the upstream and, whatever comes of it, the record. *)
Definition perform (r : InferenceRequest) (native : bool) (grant : AIGrant) (prepared : Prepared) (requestID : string) : J Answer := λ w,
  let '(o, w) := RequestProtocol (ir_Now r) grant (pr_Operation prepared) (pr_Body prepared) w in
  let '(answer, status, usage) := settle r native grant prepared o in
  let record := mkAIRequest requestID (g_KeyID grant) (g_ProxyID grant) (g_UserID grant) (pr_Alias prepared) (if ir_Cancelled r then 499%Z else status) (ir_Duration r)
    (us_Input usage) (us_Output usage) (us_Complete usage) in
  let '(_, s) := AI.Record_ record (fst w) in (inr answer, (s, snd w)).
Definition handleAIInference (r : InferenceRequest) (id : N) : J Answer :=
  let native := bool_decide (ir_Operation r = "v1/messages") in
  stop_if negb ((bool_decide (ir_Operation r = "v1/models") && bool_decide (ir_Method r = "GET")) ||
                ((bool_decide (ir_Operation r = "v1/chat/completions") || native) && bool_decide (ir_Method r = "POST"))) with aiError 405 "UNSUPPORTED_OPERATION";
  do grant <- grant_for r id native;
  stop_if native && (negb (bool_decide (g_Protocol grant = "anthropic")) || negb (bool_decide (ir_Beta r = "")) || negb (bool_decide (ir_Version r ∈ [""; "2023-06-01"])))
    with aiError 400 "UNSUPPORTED_PROTOCOL_CAPABILITY";
  if bool_decide (ir_Operation r = "v1/models") then jret (mkAnswer 200 "" (AModels (ModelAliases (g_Models grant)))) else
  stop_if negb (ir_SlotFree r) with aiError 429 "RATE_LIMITED";
  do body <- pure_or (match ir_Body r with Some b => Ok b | None => Err (ENew "request body too large") end) (λ _, aiError 413 "REQUEST_TOO_LARGE");
  do prepared <- pure_or (if native then Relay.PrepareMessages native_messages body (g_Models grant) else Relay.Prepare convert body (g_Models grant) (g_Protocol grant))
    (λ e, aiError (aiStatus e) "");
  do requestID <- pure_or (ir_RequestID r) (λ _, aiError 500 "INTERNAL_ERROR");
  do grant <- or_reject (on_service (AI.CheckKeyQuota grant)) quota_error;
  do prepared <- (if g_Metered grant && pr_Stream prepared && bool_decide (g_Protocol grant = "openai-compatible")
                  then pure_or (Relay.IncludeStreamUsage prepared) (λ _, aiError 400 "INVALID_REQUEST") else jret prepared);
  perform r native grant prepared requestID.
End Handler.
End Inference.
