(* ===== verification/AiTheorems.v ===== *)
(** * Properties of the AI gateway

    A relayed stream ends with the mark of completion exactly when the upstream
    sent it, and shows the alias only.  The ledger of usage is append-only and
    counts a request once.  An inference reaches an upstream only with a live
    key of the access, a model of its scope and within its quota. *)

From S2P Require Import Prelude ToolTypes IamDao Iam IamAuth ControlDao NetAddr ControlPlane ControlResources DataConsoleText DataConsole AiGateway AiRelay AiInference.

(** ** Streams *)
Section Streams.
Context {i_json : JsonRaw} {l_json : JsonRawLaws} (protocol alias : string) (chunk : string → list (string * string) → option string → object) (takes : list raw → raw → bool).
Import Relay.
(** A frame that shows the alias as its model. *)
Definition aliased (f : raw) : Prop := ∃ o, put_object o = Ok f ∧ o !! "model" = Some (put_string alias).
Lemma aliased_not_done f : aliased f → f ≠ done.
Proof. intros (o & Ho & _) ->. by apply put_braced in Ho. Qed.
Definition clean (s : Stream) : Prop := us_Complete (sr_usage s) = false ∧ Forall aliased (sr_sent s).
Definition final (s : Stream) : Prop := us_Complete (sr_usage s) = true ∧ ∃ pre, sr_sent s = pre ++ [done] ∧ Forall aliased pre.
Definition cleanly {A} (m : Op Stream A) : Prop := ∀ s, clean s → clean (snd (m s)).
Definition ends (m : Op Stream unit) : Prop := ∀ s, clean s → match m s with (Ok _, s') => clean s' ∨ final s' | (Err _, s') => clean s' end.
Lemma cleanly_ret {A} (a : A) : cleanly (ret a). Proof. by intros s. Qed.
Lemma cleanly_throw {A} e : cleanly (throw e : Op Stream A). Proof. by intros s. Qed.
Lemma cleanly_lift {A} (x : Result A) : cleanly (lift x). Proof. intros s. by destruct x. Qed.
Lemma cleanly_option {A} (x : option A) e : cleanly (of_option x e). Proof. intros s. by destruct x. Qed.
Lemma cleanly_require b : cleanly (require b). Proof. intros s. unfold require. by destruct (b s). Qed.
Lemma cleanly_bind {A B} (m : Op Stream A) (k : A → Op Stream B) : cleanly m → (∀ a, cleanly (k a)) → cleanly (bind m k).
Proof. intros Hm Hk s Hs. unfold bind. specialize (Hm s Hs). destruct (m s) as [[a|e] s1]; [by apply Hk|done]. Qed.
Lemma cleanly_if {A} (b : bool) (m n : Op Stream A) : cleanly m → cleanly n → cleanly (if b then m else n). Proof. by destruct b. Qed.
Lemma cleanly_modify f : (∀ s, us_Complete (sr_usage (f s)) = us_Complete (sr_usage s) ∧ sr_sent (f s) = sr_sent s) → cleanly (modify f).
Proof. intros Hf s [H1 H2]. destruct (Hf s) as [E1 E2]. unfold modify, clean. cbn [snd]. by rewrite E1, E2. Qed.
Lemma cleanly_observe o b : cleanly (observe o b).
Proof. apply cleanly_modify. intros s. unfold observeUsage. by destruct (get_object _) as [[]|]. Qed.
Lemma cleanly_object o : cleanly (emit_object takes (with_alias alias o)).
Proof.
  intros s [H1 H2]. unfold emit_object, emit. destruct (put_object _) as [r|e] eqn:E; [|done]. destruct (takes _ _); [|done]. split; [done|]. apply Forall_app. split; [done|].
  constructor; [|done]. exists (with_alias alias o). split; [done|]. apply lookup_insert_eq.
Qed.
Lemma cleanly_send d r : cleanly (send alias chunk takes d r). Proof. intros s. apply cleanly_object. Qed.
Create HintDb stream.
#[local] Hint Resolve cleanly_ret cleanly_throw cleanly_lift cleanly_option cleanly_require cleanly_bind cleanly_if cleanly_observe cleanly_object cleanly_send : stream.
Lemma ends_clean m : cleanly m → ends m. Proof. intros Hm s Hs. specialize (Hm s Hs). destruct (m s) as [[] ?]; [by left|done]. Qed.
Lemma ends_finish (b : Stream → bool) : ends (require b ;; finish takes).
Proof.
  intros s [H1 H2]. unfold bind at 1, require. destruct (b s); [|done]. unfold finish, bind, emit, modify. destruct (takes _ _); [|done]. right. split; [done|]. by exists (sr_sent s).
Qed.
Lemma ends_if (b : bool) m n : ends m → ends n → ends (if b then m else n). Proof. by destruct b. Qed.
Lemma ends_bind {A} (m : Op Stream A) (k : A → Op Stream unit) : cleanly m → (∀ a, ends (k a)) → ends (bind m k).
Proof. intros Hm Hk s Hs. unfold bind. specialize (Hm s Hs). destruct (m s) as [[a|e] s1]; [by apply Hk|done]. Qed.
Lemma cleanly_flag f : (∀ s, sr_usage (f s) = sr_usage s ∧ sr_sent (f s) = sr_sent s) → cleanly (modify f).
Proof. intros Hf. apply cleanly_modify. intros s. by destruct (Hf s) as [-> ->]. Qed.
Lemma cleanly_text o k kind : cleanly (text_of o k kind).
Proof. unfold text_of. apply cleanly_bind; [auto with stream|]. intros _. destruct (get_typed _) as [[ty text]|]; auto with stream. Qed.
#[local] Hint Resolve cleanly_text : stream.
Lemma ends_openai data : ends (openai_event alias takes data).
Proof.
  unfold openai_event. apply ends_if; [apply ends_finish|]. apply ends_clean. apply cleanly_bind; [auto with stream|]. intros o. apply cleanly_bind; [auto with stream|]. intros _.
  apply cleanly_bind; [destruct (get_list _); auto with stream|]. intros _. apply cleanly_bind; [by apply cleanly_flag|auto with stream].
Qed.
Lemma ends_anthropic data : ends (anthropic_event alias chunk takes data).
Proof.
  unfold anthropic_event. apply ends_bind; [auto with stream|]. intros o. apply ends_bind; [auto with stream|]. intros event.
  apply ends_if; [apply ends_clean; auto with stream|]. apply ends_if.
  { apply ends_clean. repeat first [apply cleanly_bind; [first [by apply cleanly_flag|auto with stream]|intros ?]|solve [auto with stream]]. }
  apply ends_if; [apply ends_clean, cleanly_bind; auto with stream|]. apply ends_if; [apply ends_clean, cleanly_bind; auto with stream|].
  apply ends_if; [apply ends_clean; auto with stream|]. apply ends_if.
  { apply ends_clean. repeat first [apply cleanly_bind; [first [by apply cleanly_flag|auto with stream]|intros ?]|solve [auto with stream]]. }
  apply ends_if; [apply ends_finish|apply ends_clean; auto with stream].
Qed.
Lemma ends_dispatch : ends (dispatch protocol alias chunk takes).
Proof. intros s Hs. unfold dispatch. destruct (bool_decide _); [by left|]. destruct (bool_decide _); [by apply ends_openai|by apply ends_anthropic]. Qed.
Lemma relay_ends lines failure s : clean s → match relay protocol alias chunk takes lines failure s with (Ok _, s') => final s' | (Err _, s') => clean s' end.
Proof.
  revert s. induction lines as [|line lines IH]; intros s Hs; [done|]. cbn [relay]. destruct (bool_decide (line = "")).
  - unfold bind at 1. pose proof (ends_dispatch s Hs) as Hd. destruct (dispatch _ _ _ _ s) as [[u|e] s1]; [|done]. unfold bind, modify. cbn [sr_usage].
    destruct Hd as [Hc|Hf]; [|destruct Hf as [Hf1 Hf2]; cbn; rewrite Hf1; done].
    assert (clean (s1 <| sr_frame := "" |>)) as Hc' by exact Hc. destruct Hc as [Hc _]. cbn. rewrite Hc. apply IH. exact Hc'.
  - destruct (HasPrefix line "data:"); [|by apply IH]. unfold bind, modify. destruct (Z.ltb _ _); [exact Hs|]. apply IH. exact Hs.
Qed.
End Streams.

(** ** The tables *)
Section Tables.
Context {DB E : Type} {i_iam : IamGorm DB} {i_cp : CpGorm DB} {i_ai : AiGorm DB} {l_ai : AiLaws DB} {i_enf : Enforcer E} {i_codec : AiCodec}.
#[local] Abbreviation St := (IAMService DB E).
(** A query of the database, or a call of the service, that leaves the tables
    of the gateway alone. *)
Definition spares {A} (m : Op DB A) : Prop := ∀ s, ai (snd (m s)) = ai s ∧ ai_saved (snd (m s)) = ai_saved s.
Definition still {A} (m : Op St A) : Prop := ∀ s, ai (repo (snd (m s))) = ai (repo s) ∧ ai_saved (repo (snd (m s))) = ai_saved (repo s).
Lemma spares_ret {A} (a : A) : spares (ret a : Op DB A). Proof. done. Qed.
Lemma spares_throw {A} e : spares (throw e : Op DB A). Proof. done. Qed.
Lemma spares_bind {A B} (m : Op DB A) (k : A → Op DB B) : spares m → (∀ a, spares (k a)) → spares (bind m k).
Proof. intros Hm Hk s. unfold bind. specialize (Hm s). destruct (m s) as [[a|e] s1]; [|done]. destruct (Hk a s1) as [-> ->]. done. Qed.
Lemma spares_map_err {A} f (m : Op DB A) : spares m → spares (map_err f m).
Proof. intros Hm s. specialize (Hm s). unfold map_err. by destruct (m s) as [[]]. Qed.
Lemma spares_or_nil {A} (m : Op DB A) : spares m → spares (Repo.or_nil m).
Proof. intros Hm s. specialize (Hm s). unfold Repo.or_nil. destruct (m s) as [[a|e] s']; [done|]. by destruct (Is e ErrRecordNotFound). Qed.
Lemma spares_or_none {A} (m : Op DB A) : spares m → spares (CpDao.or_none m).
Proof. intros Hm s. specialize (Hm s). unfold CpDao.or_none. destruct (m s) as [[a|e] s']; [done|]. by destruct (Is e ErrRecordNotFound). Qed.
Lemma spares_option {A} (o : option A) e : spares (of_option o e : Op DB A). Proof. intros s. by destruct o. Qed.
Lemma spares_if {A} (b : bool) (m n : Op DB A) : spares m → spares n → spares (if b then m else n). Proof. by destruct b. Qed.
Lemma spares_row t p : spares (First_ t p : Op DB _). Proof. intros s. apply ai_rows_First. Qed.
Lemma spares_rows t p : spares (Find_ t p : Op DB _). Proof. intros s. apply ai_rows_Find. Qed.
Lemma spares_account {Row} `{!IamTable Row} preload p : spares (First (Row := Row) preload p : Op DB _). Proof. intros s. apply ai_accounts_First. Qed.
Lemma spares_accounts {Row} `{!IamTable Row} preload p less : spares (Find (Row := Row) preload p less : Op DB _). Proof. intros s. apply ai_accounts_Find. Qed.
Lemma spares_app i : spares (app_First i : Op DB _).
Proof. intros s. destruct (app_First i s) as [x s'] eqn:E1. by apply app_First_law in E1 as (H1 & H2 & _). Qed.
Lemma spares_acc i : spares (acc_First i : Op DB _).
Proof. intros s. destruct (acc_First i s) as [x s'] eqn:E1. by apply acc_First_law in E1 as (H1 & H2 & _). Qed.
Lemma spares_key p : spares (key_First p : Op DB _).
Proof. intros s. destruct (key_First p s) as [x s'] eqn:E1. by apply key_First_law in E1 as (H1 & H2 & _). Qed.
Lemma spares_keys p : spares (key_Find p : Op DB _).
Proof. intros s. destruct (key_Find p s) as [x s'] eqn:E1. by apply key_Find_law in E1 as (H1 & H2 & _). Qed.
Lemma spares_usage p : spares (key_Usage p : Op DB _).
Proof. intros s. destruct (key_Usage p s) as [x s'] eqn:E1. by apply key_Usage_law in E1 as (H1 & H2 & _). Qed.
Create HintDb spare.
#[local] Hint Resolve spares_ret spares_throw spares_bind spares_map_err spares_or_nil spares_or_none spares_option spares_if spares_row spares_rows spares_account spares_accounts
  spares_app spares_acc spares_key spares_keys spares_usage : spare.
Lemma spares_visible actor ty id : spares (Control.requireVisibleResource (DB := DB) actor ty id).
Proof.
  unfold Control.requireVisibleResource, Control.visibleResourceIDs, Control.isRootAdministrator, Repo.GetRootOrganization, Repo.GetIAMRoleBinding, CpDao.ListIAMResourceIDsForSubject.
  apply spares_bind; [destruct actor as [u|]; [|auto with spare]|intros [ids|]; auto with spare].
  apply spares_bind; [|intros []; auto with spare]. apply spares_bind; [auto with spare|]. intros [root|]; [|auto with spare]. apply spares_bind; auto with spare.
Qed.
Lemma spares_status x a : spares (Console.plain (Control.proxyEffectiveStatus (DB := DB) (OS := unit) x (Some a))).
Proof.
  intros s. unfold Console.plain, Control.proxyEffectiveStatus. destruct (Z.eqb _ _); [done|]. destruct (negb _); [done|].
  unfold bind, Control.try, Control.validateProxyApplication. destruct (a_EdgeIDs a) as [|e es]; [done|]. unfold bind, map_err, Control.on_db, CpDao.GetEdge. cbn [wd_db].
  pose proof (ai_rows_First (DB := DB) TEdge (λ r : Edge, bool_decide (e_ID r = e)) s) as H. destruct (First_ TEdge _ s) as [[edge|er] db']; cbn [wd_db snd] in *; [|done]. by destruct (_ && _).
Qed.
#[local] Hint Resolve spares_visible spares_status : spare.

(** Calls of the service. *)
Lemma still_ret {A} (a : A) : still (ret a : Op St A). Proof. done. Qed.
Lemma still_throw {A} e : still (throw e : Op St A). Proof. done. Qed.
Lemma still_lift {A} (x : Result A) : still (lift x : Op St A). Proof. intros s. by destruct x. Qed.
Lemma still_option {A} (o : option A) e : still (of_option o e : Op St A). Proof. intros s. by destruct o. Qed.
Lemma still_bind {A B} (m : Op St A) (k : A → Op St B) : still m → (∀ a, still (k a)) → still (bind m k).
Proof. intros Hm Hk s. unfold bind. specialize (Hm s). destruct (m s) as [[a|e] s1]; [|done]. destruct (Hk a s1) as [-> ->]. done. Qed.
Lemma still_if {A} (b : bool) (m n : Op St A) : still m → still n → still (if b then m else n). Proof. by destruct b. Qed.
Lemma still_map_err {A} f (m : Op St A) : still m → still (map_err f m).
Proof. intros Hm s. specialize (Hm s). unfold map_err. by destruct (m s) as [[]]. Qed.
Lemma still_repo {A} (m : Op DB A) : spares m → still (IAM.on_repo (E := E) m).
Proof. intros Hm s. specialize (Hm (repo s)). unfold IAM.on_repo. by destruct (m (repo s)). Qed.
#[local] Hint Resolve still_ret still_throw still_lift still_option still_bind still_if still_map_err still_repo : spare.
Lemma still_bindings u o a l : still (IAM.any_binding (DB := DB) (E := E) u o a l).
Proof. induction l as [|b l IH]; cbn [IAM.any_binding]; [auto with spare|]. apply still_bind; [by intros s|]. intros []; auto with spare. Qed.
Definition plain_resource (resource : string) : Prop := resource ∈ ["accesses"; "applications"].
Lemma still_permission u resource action : plain_resource resource → still (IAM.RequireResourcePermission (DB := DB) (E := E) (Some u) resource action).
Proof.
  intros Hr. unfold IAM.RequireResourcePermission. apply still_bind.
  - unfold IAM.requireResourceFeature. unfold plain_resource in Hr. rewrite !elem_of_cons, elem_of_nil in Hr. destruct Hr as [->|[->|[]]]; rewrite !bool_decide_eq_false_2 by done; apply still_ret.
  - intros _. cbn zeta. apply still_if; [auto with spare|]. apply still_bind; [apply still_repo; unfold Repo.ListIAMRoleBindingsByUser; auto with spare|]. intros l. apply still_bindings.
Qed.
Lemma still_actor user resource action : plain_resource resource → still (AI.actor (DB := DB) (E := E) user resource action).
Proof.
  intros Hr s. unfold AI.actor. destruct user as [id|]; [|done]. destruct (N.eqb id 0); [done|].
  assert (still (Auth.GetUserByID (DB := DB) (E := E) id)) as Hu by (unfold Auth.GetUserByID, Repo.GetUserByID; auto with spare).
  specialize (Hu s). destruct (Auth.GetUserByID id s) as [[u|e] s1]; [|done]. destruct (negb _); [done|].
  assert (still (IAM.RequireResourcePermission (DB := DB) (E := E) (Some u) resource action ;; ret id)) as Hp by (apply still_bind; [by apply still_permission|auto with spare]).
  destruct (Hp s1) as [-> ->]. done.
Qed.
Lemma still_application user id action : still (AI.application (DB := DB) (E := E) user id action).
Proof.
  unfold AI.application, AI.forbidden_unless, CpDao.GetApplicationByID. apply still_bind; [apply still_actor; unfold plain_resource; set_solver|]. intros _. apply still_bind; [auto with spare|]. intros _.
  apply still_bind; [exact (still_repo _ (spares_row TApplication _))|]. intros app. auto with spare.
Qed.
Lemma still_access user id action : still (AI.access (DB := DB) (E := E) user id action).
Proof.
  unfold AI.access, AI.forbidden_unless, CpDao.GetProxyByID. apply still_bind; [apply still_actor; unfold plain_resource; set_solver|]. intros _. apply still_bind; [auto with spare|]. intros _.
  apply still_bind; [exact (still_repo _ (spares_row TAccess _))|]. intros p. apply still_if; [auto with spare|]. apply still_bind; [apply still_application|auto with spare].
Qed.
#[local] Hint Resolve still_application still_access : spare.
Lemma still_active user id : still (AI.active (DB := DB) (E := E) user id).
Proof.
  unfold AI.active, AiDao.GetAIAccess. apply still_bind; [auto with spare|]. intros [p app]. apply still_bind; [auto with spare|]. intros st. apply still_if; [auto with spare|].
  apply still_bind; auto with spare.
Qed.
Lemma still_upstream app : still (AI.upstream (DB := DB) (E := E) app).
Proof.
  unfold AI.upstream, AiDao.GetAIApplication. apply still_bind; [auto with spare|]. intros cfg. cbn zeta. apply still_if; [auto with spare|]. apply still_bind; [apply still_if; auto with spare|].
  auto with spare.
Qed.
#[local] Hint Resolve still_active still_upstream : spare.
Lemma still_Revalidate now g : still (AI.Revalidate (DB := DB) (E := E) now g).
Proof.
  unfold AI.Revalidate, AiDao.GetAIKey. apply still_bind; [destruct (g_Digest g); auto with spare|]. intros _. apply still_bind; [auto with spare|]. intros [[p app] a]. auto with spare.
Qed.
Lemma still_Grant now id secret : still (AI.Grant (DB := DB) (E := E) now id secret).
Proof.
  unfold AI.Grant, AiDao.GetAIKey. apply still_if; [auto with spare|]. cbn zeta. apply still_bind; [auto with spare|]. intros key. apply still_if; [auto with spare|].
  apply still_bind; [auto with spare|]. intros [[p app] a]. auto with spare.
Qed.
Lemma still_DebugGrant user id : still (AI.DebugGrant (DB := DB) (E := E) user id).
Proof. unfold AI.DebugGrant. apply still_bind; [auto with spare|]. intros [[p app] a]. auto with spare. Qed.
Lemma still_quota g : still (AI.CheckKeyQuota (DB := DB) (E := E) g).
Proof.
  unfold AI.CheckKeyQuota, AiDao.GetAIKeyUsage. apply still_if; [auto with spare|]. apply still_bind; [auto with spare|]. intros u. destruct (ku_TokenLimit u); auto with spare.
Qed.

(** ** What the operations do to the tables *)
Lemma transaction_effect {A} (body : Op DB A) s x s' : (∀ s0 y s1, body s0 = (y, s1) → ai_saved s1 = ai_saved s0) → AiDao.Transaction body s = (x, s') →
  ai_saved s' = ai_saved s ∧ match x with Ok a => ∃ s1, body (Begin_ s) = (Ok a, s1) ∧ ai s' = ai s1 | Err _ => ai s' = ai s end.
Proof.
  intros Hb. unfold AiDao.Transaction. destruct (ai_Begin_law s) as [B1 B2]. destruct (body (Begin_ s)) as [[a|e] s1] eqn:Eb; pose proof (Hb _ _ _ Eb) as Hs; rewrite B2 in Hs.
  - unfold bind. destruct (Commit_ s1) as [[u|e] s2] eqn:Ec; destruct (ai_Commit_law _ _ _ _ _ Hs Ec) as [C1 C2]; intros [= <- <-]; [split; [done|by exists s1]|by split].
  - intros [= <- <-]. destruct (ai_Rollback_law _ _ _ Hs) as [R1 R2]. by split.
Qed.
Definition live_keys (now : Time) (proxy user : N) (T : AiTables) : nat := length (List.filter (λ k, AiDao.key_of proxy user k && AiDao.live now k) (map_to_list (t_keys T)).*2).
Lemma create_effect now v s x s' : AiDao.CreateAIKey now v s = (x, s') → ai_saved s' = ai_saved s ∧
  match x with
  | Ok k => ∃ i, i ≠ 0%N ∧ t_keys (ai s) !! i = None ∧ (∀ j kj, t_keys (ai s) !! j = Some kj → k_Digest kj ≠ k_Digest v) ∧ live_keys now (k_ProxyID v) (k_UserID v) (ai s) < AiDao.key_limit ∧
      k = v <| k_ID := i |> ∧ ai s' = (ai s) <| t_keys := <[ i := k ]> (t_keys (ai s)) |>
  | Err _ => ai s' = ai s
  end.
Proof.
  intros H. apply transaction_effect in H as [H1 H2].
  - split; [done|]. destruct x as [k|e]; [|done]. destruct H2 as (s1 & H2 & H3). unfold bind at 1 in H2. destruct (key_Count _ _) as [[n|e] s2] eqn:Ec; [|done].
    apply key_Count_law in Ec as (_ & Ec & ->). rewrite (proj1 (ai_Begin_law s)) in Ec, H2. destruct (Nat.leb _ _) eqn:El; [done|]. apply Nat.leb_gt in El.
    apply key_Create_law in H2 as (_ & i & Hi & Hn & Hd & -> & Hk). rewrite Ec in *. exists i. split_and!; try done. by rewrite H3.
  - intros s0 y s1 H0. unfold bind at 1 in H0. destruct (key_Count _ s0) as [[n|e] s2] eqn:Ec; apply key_Count_law in Ec as (E1 & _); [|by injection H0 as <- <-].
    destruct (Nat.leb _ _); [by injection H0 as <- <-|]. apply key_Create_law in H0 as [H0 _]. congruence.
Qed.
Definition countable (v : AIRequest) : Prop := AiDao.negative (q_InputTokens v) = false ∧ AiDao.negative (q_OutputTokens v) = false.
Definition fresh_request (v : AIRequest) (T : AiTables) : Prop := ∀ u, u ∈ t_ledger T → u_RequestID u ≠ q_RequestID v.
Definition with_record (v : AIRequest) (T : AiTables) : AiTables :=
  T <| t_ledger := t_ledger T ++ [AiDao.usage_row v] |> <| t_requests := prune (q_ProxyID v) (q_UserID v) (t_requests T ++ [v]) |>.
Lemma record_effect v s x s' : AiDao.RecordAIRequest v s = (x, s') → ai_saved s' = ai_saved s ∧
  match x with
  | Ok _ => countable v ∧ ((∃ u, u ∈ t_ledger (ai s) ∧ u_RequestID u = q_RequestID v) ∧ ai s' = ai s ∨ fresh_request v (ai s) ∧ ai s' = with_record v (ai s))
  | Err _ => ai s' = ai s
  end.
Proof.
  unfold AiDao.RecordAIRequest. destruct (_ || _ || _); [by intros [= <- <-]|]. destruct (_ || _) eqn:En; [by intros [= <- <-]|]. apply orb_false_iff in En. intros H.
  apply transaction_effect in H as [H1 H2].
  - split; [done|]. destruct x as [[]|e]; [|done]. split; [done|]. destruct H2 as (s1 & H2 & H3). unfold bind at 1 in H2. destruct (usage_Insert _ _) as [[n|e] s2] eqn:Ei; [|done].
    apply usage_Insert_law in Ei as [_ Ei]. rewrite (proj1 (ai_Begin_law s)) in Ei. destruct (Nat.eqb n 0); [injection H2 as <-; left; destruct Ei as [Ei E2]; split; [exact Ei|congruence]|].
    destruct Ei as [Hf Ei]. right. split; [done|]. unfold bind in H2. destruct (request_Create v s2) as [[u|e] s3] eqn:Ec; [|done]. apply request_Create_law in Ec as [_ Ec].
    apply request_Prune_law in H2 as [_ H2]. rewrite H3, H2, Ec, Ei. done.
  - intros s0 y s1 H0. unfold bind at 1 in H0. destruct (usage_Insert _ s0) as [[n|e] s2] eqn:Ei; apply usage_Insert_law in Ei as [Ei _]; [|by injection H0 as <- <-].
    destruct (Nat.eqb n 0); [by injection H0 as <- <-|]. unfold bind in H0. destruct (request_Create v s2) as [[u|e] s3] eqn:Ec; apply request_Create_law in Ec as [Ec _]; [|injection H0 as <- <-; congruence].
    apply request_Prune_law in H0 as [H0 _]. congruence.
Qed.
Lemma update_effect p f s x s' : (∀ k, k_ID (f k) = k_ID k) → key_Update p f s = (x, s') →
  ai s' = ai s ∨ ai s' = (ai s) <| t_keys := (λ k, if p k then f k else k) <$> t_keys (ai s) |>.
Proof. intros Hf H. apply key_Update_law in H as [_ H]; [|done]. destruct x as [n|e]; [right; apply H|by left]. Qed.

(** ** The life of the tables *)
Definition owned_requests (proxy user : N) (T : AiTables) : nat := length (List.filter (of_owner proxy user) (t_requests T)).
Record sound (T : AiTables) : Prop := {
  sound_once : NoDup (map u_RequestID (t_ledger T));
  sound_tokens : Forall (λ u, (0 ≤ tokens u)%Z) (t_ledger T);
  sound_retained proxy user : owned_requests proxy user T ≤ retained;
  sound_digests i j ki kj : t_keys T !! i = Some ki → t_keys T !! j = Some kj → k_Digest ki = k_Digest kj → i = j
}.
(** Usage is only added, by the recordings of [calls]; a key keeps its owner,
    digest and scope, and one that is revoked stays so. *)
Record evolves (records : list AIRequest) (T T' : AiTables) : Prop := {
  ev_ledger : ∃ more, t_ledger T' = t_ledger T ++ more ∧ ∀ u, u ∈ more → ∃ v, v ∈ records ∧ u = AiDao.usage_row v;
  ev_keys i k : t_keys T !! i = Some k → ∃ k', t_keys T' !! i = Some k' ∧ k_ProxyID k' = k_ProxyID k ∧ k_UserID k' = k_UserID k ∧ k_Digest k' = k_Digest k ∧ k_Models k' = k_Models k ∧
    k_ExpiresAt k' = k_ExpiresAt k ∧ (is_Some (k_RevokedAt k) → is_Some (k_RevokedAt k'))
}.
Lemma evolves_refl l T : evolves l T T.
Proof. split; [exists []; split; [by rewrite app_nil_r|by intros u []%elem_of_nil]|]. intros i k Hk. by exists k. Qed.
Lemma evolves_trans l l' T1 T2 T3 : evolves l T1 T2 → evolves l' T2 T3 → evolves (l ++ l') T1 T3.
Proof.
  intros [(m1 & L1 & S1) K1] [(m2 & L2 & S2) K2]. split.
  - exists (m1 ++ m2). split; [by rewrite L2, L1, app_assoc|]. intros u [Hu|Hu]%elem_of_app; [destruct (S1 u Hu) as (v & ? & ?)|destruct (S2 u Hu) as (v & ? & ?)]; exists v; set_solver.
  - intros i k Hk. destruct (K1 i k Hk) as (k1 & E1 & ? & ? & ? & ? & ? & R1). destruct (K2 i k1 E1) as (k2 & E2 & ? & ? & ? & ? & ? & R2). exists k2. split_and!; try congruence. auto.
Qed.
Lemma prune_other proxy user p u l : (p, u) ≠ (proxy, user) → List.filter (of_owner p u) (prune proxy user l) = List.filter (of_owner p u) l.
Proof.
  intros Hne. induction l as [|q l IH]; [done|]. cbn [prune List.filter]. destruct (of_owner proxy user q) eqn:Eq; cbn [andb List.filter]; [|by rewrite IH].
  assert (of_owner p u q = false) as Ho.
  { unfold of_owner in *. apply andb_true_iff in Eq as [E1%bool_decide_eq_true E2%bool_decide_eq_true]. apply andb_false_iff. rewrite !bool_decide_eq_false.
    destruct (decide (q_ProxyID q = p)); [right|by left]. congruence. }
  destruct (Nat.leb _ _); cbn [List.filter]; by rewrite ?Ho.
Qed.
Lemma prune_owner proxy user l : length (List.filter (of_owner proxy user) (prune proxy user l)) = Nat.min retained (length (List.filter (of_owner proxy user) l)).
Proof.
  induction l as [|q l IH]; [done|]. cbn [prune List.filter]. destruct (of_owner proxy user q) eqn:Eq; cbn [andb]; [|cbn [List.filter]; by rewrite Eq].
  destruct (Nat.leb_spec retained (length (List.filter (of_owner proxy user) l))) as [Hl|Hl]; [rewrite IH; cbn [length]; lia|]. cbn [List.filter]. rewrite Eq. cbn [length]. lia.
Qed.
Lemma record_sound v T : sound T → countable v → fresh_request v T → sound (with_record v T).
Proof.
  intros [H1 H2 H3 H4] [C1 C2] Hf. split; [| | |done].
  - cbn. rewrite map_app. apply NoDup_app. split_and!; [done| |apply NoDup_singleton]. intros x (u & Hx & Hu)%list_elem_of_fmap Hx'%list_elem_of_singleton. apply (Hf u Hu). cbn in Hx'. congruence.
  - cbn. apply Forall_app. split; [done|]. constructor; [|done]. unfold tokens. cbn. unfold AiDao.negative in *.
    destruct (q_InputTokens v), (q_OutputTokens v); cbn; rewrite ?Z.ltb_ge in *; lia.
  - intros p u. unfold owned_requests. cbn. destruct (decide ((p, u) = (q_ProxyID v, q_UserID v))) as [[= -> ->]|Hne].
    + rewrite prune_owner. apply Nat.le_min_l.
    + rewrite prune_other by done. rewrite List.filter_app, length_app. specialize (H3 p u). unfold owned_requests in H3.
      assert (List.filter (of_owner p u) [v] = []) as ->; [|cbn; lia]. cbn. destruct (of_owner p u v) eqn:Eo; [|done]. exfalso. apply Hne.
      unfold of_owner in Eo. apply andb_true_iff in Eo as [E1%bool_decide_eq_true E2%bool_decide_eq_true]. congruence.
Qed.
Lemma keys_sound (f : AIKey → AIKey) T : (∀ k, k_Digest (f k) = k_Digest k) → sound T → sound (T <| t_keys := f <$> t_keys T |>).
Proof.
  intros Hf [H1 H2 H3 H4]. split; [done|done|done|]. cbn. intros i j ki kj (k1 & <- & E1)%lookup_fmap_Some (k2 & <- & E2)%lookup_fmap_Some. rewrite !Hf. by apply (H4 i j).
Qed.
Lemma keys_evolve (f : AIKey → AIKey) T l : (∀ k, k_ProxyID (f k) = k_ProxyID k ∧ k_UserID (f k) = k_UserID k ∧ k_Digest (f k) = k_Digest k ∧ k_Models (f k) = k_Models k ∧
  k_ExpiresAt (f k) = k_ExpiresAt k ∧ (is_Some (k_RevokedAt k) → is_Some (k_RevokedAt (f k)))) → evolves l T (T <| t_keys := f <$> t_keys T |>).
Proof.
  intros Hf. split; [exists []; split; [by rewrite app_nil_r|by intros u []%elem_of_nil]|]. intros i k Hk. exists (f k). split; [cbn; by rewrite lookup_fmap, Hk|apply Hf].
Qed.

(** ** Any sequence of calls *)
Inductive ai_call :=
| ASaveApplication (nonce : Result string) (user : option N) (id : N) (c : AIApplicationConfig) | ASaveAccess (user : option N) (id : N) (c : AIAccessConfig)
| ACreateKey (now : Time) (entropy : Result (list N)) (user : option N) (id : N) (c : AIKeyRequest) | AUpdateKeyQuota (now : Time) (user : option N) (id key : N) (limit : option Z)
| ARevokeKey (now : Time) (user : option N) (id key : N) | ARecord (v : AIRequest).
Definition run_ai (s : St) (c : ai_call) : St :=
  match c with
  | ASaveApplication nonce user id c => snd (AI.SaveApplication nonce user id c s)
  | ASaveAccess user id c => snd (AI.SaveAccess user id c s)
  | ACreateKey now entropy user id c => snd (AI.CreateKey now entropy user id c s)
  | AUpdateKeyQuota now user id key limit => snd (AI.UpdateKeyQuota now user id key limit s)
  | ARevokeKey now user id key => snd (AI.RevokeKey now user id key s)
  | ARecord v => snd (AI.Record_ v s)
  end.
Definition records_of (c : ai_call) : list AIRequest := match c with ARecord v => [v] | _ => [] end.
Definition fine (l : list AIRequest) (T T' : AiTables) : Prop := sound T → evolves l T T' ∧ sound T'.
Definition finely {A} (m : Op St A) : Prop := ∀ s, fine [] (ai (repo s)) (ai (repo (snd (m s)))).
Lemma fine_same l T T' : T' = T → fine l T T'. Proof. intros -> Hs. split; [apply evolves_refl|done]. Qed.
Lemma finely_still {A} (m : Op St A) : still m → finely m. Proof. intros Hm s. apply fine_same. apply Hm. Qed.
Lemma finely_bind {A B} (m : Op St A) (k : A → Op St B) : finely m → (∀ a, finely (k a)) → finely (bind m k).
Proof.
  intros Hm Hk s Hs. unfold bind. destruct (Hm s Hs) as [H1 H2]. destruct (m s) as [[a|e] s1]; [|done]. destruct (Hk a s1 H2) as [H3 H4]. split; [|done]. exact (evolves_trans [] [] _ _ _ H1 H3).
Qed.
Lemma finely_if {A} (b : bool) (m n : Op St A) : finely m → finely n → finely (if b then m else n). Proof. by destruct b. Qed.
Lemma finely_repo {A} (m : Op DB A) : (∀ s x s', m s = (x, s') → fine [] (ai s) (ai s')) → finely (IAM.on_repo (E := E) m).
Proof. intros Hm s. unfold IAM.on_repo. destruct (m (repo s)) as [x d] eqn:E1. by apply (Hm _ _ _ E1). Qed.
Lemma finely_map_err {A} f (m : Op St A) : finely m → finely (map_err f m).
Proof. intros Hm s. specialize (Hm s). unfold map_err. by destruct (m s) as [[]]. Qed.
Lemma fine_other T T' : t_ledger T' = t_ledger T → t_requests T' = t_requests T → t_keys T' = t_keys T → fine [] T T'.
Proof.
  intros E1 E2 E3 [H1 H2 H3 H4]. split.
  - split; [exists []; rewrite app_nil_r; split; [done|by intros u []%elem_of_nil]|]. intros i k Hk. exists k. by rewrite E3.
  - split; [by rewrite E1|by rewrite E1|unfold owned_requests; by rewrite E2|by rewrite E3].
Qed.
Lemma finely_save_app v : finely (IAM.on_repo (E := E) (AiDao.SaveAIApplication v)).
Proof. apply finely_repo. intros s x s' H. apply app_Upsert_law in H as [_ H]. destruct x; [|by apply fine_same]. by apply fine_other; rewrite H. Qed.
Lemma finely_save_acc v : finely (IAM.on_repo (E := E) (AiDao.SaveAIAccess v)).
Proof. apply finely_repo. intros s x s' H. apply acc_Upsert_law in H as [_ H]. destruct x; [|by apply fine_same]. by apply fine_other; rewrite H. Qed.
Lemma finely_create now v : finely (IAM.on_repo (E := E) (AiDao.CreateAIKey now v)).
Proof.
  apply finely_repo. intros s x s' H. apply create_effect in H as [_ H]. destruct x as [k|e]; [|by apply fine_same]. destruct H as (i & Hi & Hn & Hd & _ & -> & ->). intros [H1 H2 H3 H4].
  split; [|split; [done|done|done|]].
  - split; [exists []; rewrite app_nil_r; split; [done|by intros u []%elem_of_nil]|]. intros j k Hk. exists k. split; [cbn; by rewrite lookup_insert_ne by congruence|done].
  - cbn. intros a b ka kb [[<- <-]|[Hna Ea]]%lookup_insert_Some [[<- <-]|[Hnb Eb]]%lookup_insert_Some; [done|intros Hk; by destruct (Hd _ _ Eb)|intros Hk; by destruct (Hd _ _ Ea)|by apply H4].
Qed.
Lemma fine_update p f s x s' : (∀ k, k_ID (f k) = k_ID k) → (∀ k, k_ProxyID (f k) = k_ProxyID k ∧ k_UserID (f k) = k_UserID k ∧ k_Digest (f k) = k_Digest k ∧ k_Models (f k) = k_Models k ∧
  k_ExpiresAt (f k) = k_ExpiresAt k ∧ (is_Some (k_RevokedAt k) → is_Some (k_RevokedAt (f k)))) → key_Update p f s = (x, s') → fine [] (ai s) (ai s').
Proof.
  intros Hi Hf H. apply update_effect in H as [H|H]; [by apply fine_same| |done]. rewrite H. intros Hs.
  split; [apply keys_evolve; intros k; destruct (p k); [apply Hf|done]|apply keys_sound; [|done]; intros k; destruct (p k); [apply Hf|done]].
Qed.
Lemma finely_quota now proxy user key limit : finely (IAM.on_repo (E := E) (AiDao.UpdateAIKeyQuota now proxy user key limit)).
Proof.
  apply finely_repo. intros s x s'. unfold AiDao.UpdateAIKeyQuota, bind. destruct (key_Update _ _ s) as [[n|e] s1] eqn:E1; apply fine_update in E1; try done.
  - destruct (Nat.eqb n 0); by intros [= <- <-].
  - by intros [= <- <-].
Qed.
Lemma finely_revoke now proxy user key : finely (IAM.on_repo (E := E) (AiDao.RevokeAIKey now proxy user key)).
Proof.
  apply finely_repo. intros s x s'. unfold AiDao.RevokeAIKey, bind. destruct (key_Update _ _ s) as [[n|e] s1] eqn:E1; apply fine_update in E1; try done; by intros [= <- <-].
Qed.
Lemma fine_record v s : fine [v] (ai (repo s)) (ai (repo (snd (AI.Record_ (DB := DB) (E := E) v s)))).
Proof.
  unfold AI.Record_, IAM.on_repo. destruct (AiDao.RecordAIRequest v (repo s)) as [x d] eqn:E1. cbn [snd repo]. apply record_effect in E1 as [_ H].
  destruct x as [[]|e]; [|by apply fine_same]. destruct H as [Hc [[_ H]|[Hf H]]]; [by apply fine_same|]. rewrite H. intros Hs. split; [|by apply record_sound].
  split; [|intros i k Hk; by exists k]. exists [AiDao.usage_row v]. split; [done|]. intros u ->%list_elem_of_singleton. exists v. split; [by left|done].
Qed.
#[local] Hint Resolve finely_save_app finely_save_acc finely_create finely_quota finely_revoke finely_map_err : spare.
Lemma still_GetAccess user id : still (AI.GetAccess (DB := DB) (E := E) user id).
Proof. unfold AI.GetAccess, AiDao.GetAIAccess. apply still_bind; [apply still_access|]. intros _. apply still_bind; [auto with spare|]. intros [a|]; auto with spare. Qed.
Lemma call_fine c s : fine (records_of c) (ai (repo s)) (ai (repo (run_ai s c))).
Proof.
  destruct c; cbn [run_ai records_of]; [| | | | |apply fine_record]; apply (λ H, H s).
  - unfold AI.SaveApplication. apply finely_bind; [apply finely_still, still_application|]. intros app. apply finely_if; [apply finely_still, still_throw|]. apply finely_if; [apply finely_still, still_throw|]. cbn zeta.
    apply finely_bind; [apply finely_still, still_repo; unfold AiDao.GetAIApplication; auto with spare|]. intros old. apply finely_if; [apply finely_still, still_throw|].
    apply finely_bind; [apply finely_still, still_if; auto with spare|]. intros enc. apply finely_bind; [auto with spare|]. intros _. apply finely_still; auto with spare.
  - unfold AI.SaveAccess. apply finely_bind; [apply finely_still, still_access|]. intros _. apply finely_if; [apply finely_still, still_throw|]. apply finely_if; [apply finely_still, still_throw|].
    apply finely_bind; [auto with spare|]. intros _. apply finely_still; auto with spare.
  - unfold AI.CreateKey. apply finely_bind; [apply finely_still, still_access|]. intros _. apply finely_if; [apply finely_still, still_throw|].
    apply finely_bind; [apply finely_still, still_GetAccess|].
    intros granted. apply finely_if; [apply finely_still, still_throw|]. apply finely_bind; [apply finely_still; auto with spare|]. intros [secret digest]. apply finely_bind; [auto with spare|].
    intros key. apply finely_still; auto with spare.
  - unfold AI.UpdateKeyQuota. apply finely_if; [apply finely_still, still_throw|]. apply finely_bind; [apply finely_still, still_access|]. intros _. auto with spare.
  - unfold AI.RevokeKey. apply finely_bind; [apply finely_still, still_access|]. intros _. auto with spare.
Qed.
Lemma calls_fine calls s : fine (concat (map records_of calls)) (ai (repo s)) (ai (repo (fold_left run_ai calls s))).
Proof.
  revert s. induction calls as [|c calls IH]; intros s Hs; [split; [apply evolves_refl|done]|]. cbn [map concat fold_left]. destruct (call_fine c s Hs) as [H1 H2].
  destruct (IH (run_ai s c) H2) as [H3 H4]. split; [by eapply evolves_trans|done].
Qed.
Lemma used_grows ledger more k k' : k_ID k' = k_ID k → k_ProxyID k' = k_ProxyID k → k_UserID k' = k_UserID k → Forall (λ u, (0 ≤ tokens u)%Z) more →
  (ku_UsedTokens (usage_of ledger k) ≤ ku_UsedTokens (usage_of (ledger ++ more) k'))%Z.
Proof.
  intros E1 E2 E3 Hm. unfold usage_of. cbn [ku_UsedTokens]. assert (∀ l, List.filter (charged k') l = List.filter (charged k) l) as Hc by (intros l; apply List.filter_ext; intros u; unfold charged; by rewrite E1, E2, E3).
  rewrite Hc, List.filter_app. assert (∀ a b, sum_tokens (a ++ b) = (sum_tokens a + sum_tokens b)%Z) as Ha by (intros a b; induction a as [|u a IH]; [done|]; change ((u :: a) ++ b) with (u :: (a ++ b)); cbn [sum_tokens foldr]; fold (sum_tokens (a ++ b)) (sum_tokens a); lia).
  rewrite Ha. assert (0 ≤ sum_tokens (List.filter (charged k) more))%Z; [|lia]. induction Hm as [|u more Hu Hm IH]; [done|]. cbn [List.filter]. destruct (charged k u); [|done]. cbn [sum_tokens foldr]. fold (sum_tokens (List.filter (charged k) more)). lia.
Qed.
(** ** A key and its secret *)
Lemma url_length b : length b = 32 → String.length (RawURLEncode b) = 43.
Proof. intros Hb. do 32 (destruct b as [|? b]; [discriminate Hb|]). destruct b; [|discriminate Hb]. reflexivity. Qed.
Lemma secret_shape b : length b = 32 → String.length (key_prefix +:+ RawURLEncode b) = 50 ∧ HasPrefix (key_prefix +:+ RawURLEncode b) key_prefix = true.
Proof. intros Hb. apply url_length in Hb. split; [change (S (S (S (S (S (S (S (String.length (RawURLEncode b)))))))) = 50); by rewrite Hb|]. by destruct (RawURLEncode b). Qed.
Lemma create_key_effect now entropy user id c (s s' : St) v : AI.CreateKey now entropy user id c s = (Ok v, s') → ∃ b k, entropy = Ok b ∧ kv_Secret v = key_prefix +:+ RawURLEncode b ∧
  k = mkAIKey (kv_ID v) id (AI.actor_of user) (TrimSpace (kr_Name c)) (KeyDigest (kv_Secret v)) (encode_scope (kr_Models c)) (now + kr_ExpiresInDays c * AI.day)%Z None (kr_TokenLimit c) ∧
  (∀ j kj, t_keys (ai (repo s)) !! j = Some kj → k_Digest kj ≠ KeyDigest (kv_Secret v)) ∧ live_keys now id (AI.actor_of user) (ai (repo s)) < AiDao.key_limit ∧
  t_keys (ai (repo s)) !! kv_ID v = None ∧ ai (repo s') = (ai (repo s)) <| t_keys := <[ kv_ID v := k ]> (t_keys (ai (repo s))) |>.
Proof.
  unfold AI.CreateKey. unfold bind at 1. destruct (still_access user id "use" s) as [H1 _]. destruct (AI.access user id "use" s) as [[pa|e] s1]; [|done]. cbn [snd] in H1.
  destruct (_ || _); [done|]. unfold bind at 1. destruct (still_GetAccess user id s1) as [H2 _]. destruct (AI.GetAccess user id s1) as [[granted|e] s2]; [|done]. cbn [snd] in H2.
  destruct (negb _); [done|]. unfold bind at 1, NewKey. destruct entropy as [b|e]; [|done]. cbn [lift ret]. unfold bind at 1, IAM.on_repo.
  destruct (AiDao.CreateAIKey _ _ (repo s2)) as [[k|e] d] eqn:Ec; [|done]. apply create_effect in Ec as (_ & i & Hi & Hn & Hd & Hl & -> & Ht). rewrite H2, H1 in *.
  intros [= <- <-]. eexists b, _. by split_and!.
Qed.
(** C40. A key that is created works: its secret has the form [Grant] accepts,
    only its digest is stored, under the number the caller is told, with the
    owner, access, scope, limit and expiry asked for, and the owner had fewer
    than 100 live keys there.  From then on, while the tables stay as they are,
    looking the secret up finds exactly this key until it expires and nothing
    after; the other keys are as before. *)
Theorem created_key_works now b user id c (s s' : St) v : length b = 32 → AI.CreateKey now (Ok b) user id c s = (Ok v, s') →
  let expiry := (now + kr_ExpiresInDays c * AI.day)%Z in
  String.length (kv_Secret v) = 50 ∧ HasPrefix (kv_Secret v) key_prefix = true ∧
  t_keys (ai (repo s')) !! kv_ID v =
    Some (mkAIKey (kv_ID v) id (AI.actor_of user) (TrimSpace (kr_Name c)) (KeyDigest (kv_Secret v)) (encode_scope (kr_Models c)) expiry None (kr_TokenLimit c)) ∧
  (∀ j, j ≠ kv_ID v → t_keys (ai (repo s')) !! j = t_keys (ai (repo s)) !! j) ∧ live_keys now id (AI.actor_of user) (ai (repo s)) < AiDao.key_limit ∧
  ∀ t (d d' : DB) r, ai d = ai (repo s') → AiDao.GetAIKey t (KeyDigest (kv_Secret v)) d = (r, d') →
    match r with Ok k => k_ID k = kv_ID v ∧ (t < expiry)%Z | Err e => Is e ErrRecordNotFound = true → (expiry ≤ t)%Z end.
Proof.
  intros Hb Hc. apply create_key_effect in Hc as (b' & k & [= <-] & Hs & Hk & Hd & Hl & Hn & Ht). cbn zeta. rewrite Hs at 1 2. destruct (secret_shape b Hb) as [S1 S2].
  assert (t_keys (ai (repo s')) !! kv_ID v = Some k) as Hin by (rewrite Ht; apply lookup_insert_eq). split_and!; [done|done|by rewrite <- Hk| |done|].
  - intros j Hj. rewrite Ht. by apply lookup_insert_ne.
  - intros t d d' r Had Hg. apply key_First_law in Hg as (_ & _ & Hg). rewrite Had in Hg. destruct r as [k'|e].
    + destruct Hg as [Hk' Hp]. apply andb_true_iff in Hp as [Hp%bool_decide_eq_true Hlive]. destruct (decide (k_ID k' = kv_ID v)) as [Hi|Hi].
      * split; [done|]. rewrite Hi, Hin in Hk'. injection Hk' as <-. subst k. apply andb_true_iff in Hlive as [_ Hlive]. by apply Z.ltb_lt in Hlive.
      * rewrite Ht in Hk'. cbn in Hk'. rewrite lookup_insert_ne in Hk' by done. by apply Hd in Hk'.
    + intros Hnf. specialize (Hg Hnf _ _ Hin). subst k. apply andb_false_iff in Hg as [Hg|Hg]; [by apply bool_decide_eq_false in Hg|]. apply andb_false_iff in Hg as [Hg|Hg]; [done|by apply Z.ltb_ge in Hg].
Qed.
End Tables.

(** ** Who reaches an upstream *)
Lemma allowed_spec scope mappings alias model : AllowedModels scope mappings !! alias = Some model →
  alias ∈ scope ∧ mappings !! alias = Some model ∧ validModel alias = true ∧ validModel model = true.
Proof.
  unfold AllowedModels. assert (∀ acc, fold_left (allow mappings) scope acc !! alias = Some model →
    acc !! alias = Some model ∨ alias ∈ scope ∧ mappings !! alias = Some model ∧ validModel alias = true ∧ validModel model = true) as H.
  { induction scope as [|x scope IH]; intros acc; cbn [fold_left]; [by left|]. intros [Hx|(? & ? & ? & ?)]%IH; [|right; split_and!; try done; by right].
    unfold allow in Hx. destruct (mappings !! x) as [y|] eqn:Ex; [|by left]. destruct (validModel x && validModel y) eqn:Ev; [|by left].
    apply lookup_insert_Some in Hx as [[<- <-]|[_ Hx]]; [|by left]. apply andb_true_iff in Ev as [? ?]. right. split_and!; try done. by left. }
  intros [Hx|Hx]%H; [by apply lookup_empty_Some in Hx|done].
Qed.
Section Inferences.
Context {DB E : Type} {i_iam : IamGorm DB} {i_cp : CpGorm DB} {i_ai : AiGorm DB} {l_ai : AiLaws DB} {i_enf : Enforcer E} {i_codec : AiCodec} {i_json : JsonRaw} {Net : Type} {i_net : Upstreams Net}.
Context (convert : string → string → object → bool → list raw → Result (string * raw)) (native_messages : raw → bool)
  (chunk : string → list (string * string) → option string → object) (takes : list raw → raw → bool)
  (relay_other : bool → string → string → list string → option error → Result unit * list raw * Usage)
  (rewrite_body : bool → string → string → raw → Result raw * Usage).
#[local] Abbreviation St := (IAMService DB E).
#[local] Abbreviation W := (St * Net)%type.

Lemma resolve_spec o allowed alias model : Relay.resolve o allowed = Ok (alias, model) → allowed !! alias = Some model.
Proof. unfold Relay.resolve. destruct (get_string _) as [a|]; [|done]. destruct (allowed !! a) eqn:E1; [|done]. by intros [= <- <-]. Qed.
Lemma prepare_spec body allowed protocol p : Relay.Prepare convert body allowed protocol = Ok p → is_Some (allowed !! pr_Alias p).
Proof.
  unfold Relay.Prepare. destruct (Relay.read_object body) as [o|]; [|done]. destruct (Relay.resolve o allowed) as [[alias model]|] eqn:Er; [|done]. apply resolve_spec in Er.
  destruct (Relay.streams o) as [b|]; [|done]. destruct (get_list _) as [[l|]|]; [|done|done]. destruct (_ || _); [done|]. cbn zeta. destruct (bool_decide _).
  - destruct (convert _ _ _ _ _) as [[op bd]|]; [|done]. intros [= <-]. by exists model.
  - destruct (negb _); [done|]. destruct (put_object _); [|done]. intros [= <-]. by exists model.
Qed.
Lemma prepare_native_spec body allowed p : Relay.PrepareMessages native_messages body allowed = Ok p → is_Some (allowed !! pr_Alias p).
Proof.
  unfold Relay.PrepareMessages. destruct (Relay.read_object body) as [o|]; [|done]. destruct (negb _); [done|]. destruct (Relay.resolve o allowed) as [[alias model]|] eqn:Er; [|done].
  apply resolve_spec in Er. destruct (negb _); [done|]. destruct (Relay.streams o) as [b|]; [|done]. destruct (negb _); [done|]. destruct (put_object _); [|done]. intros [= <-]. by exists model.
Qed.
Lemma include_spec p p' : Relay.IncludeStreamUsage p = Ok p' → pr_Alias p' = pr_Alias p.
Proof.
  unfold Relay.IncludeStreamUsage. destruct (get_object _) as [[o|]|]; [|done|done]. destruct (match o !! _ with Some _ => _ | None => _ end) as [opts|]; [|done].
  destruct (put_object _) as [e|]; [|done]. destruct (put_object _); [|done]. by intros [= <-].
Qed.

(** The access is active for the user, the upstream's credential was stored for
    the very target, and the models are those of the access. *)
Definition backed (user id : N) (s1 : St) (T : AiTables) (grant : AIGrant) : Prop := ∃ p app a s2 mappings cfg,
  AI.active (Some user) id s1 = (Ok (p, app, a), s2) ∧ g_UserID grant = user ∧ g_ProxyID grant = id ∧ g_Application grant = app ∧
  t_accesses T !! id = Some a ∧ aa_Enabled a = true ∧ decode_models (aa_Models a) = Some mappings ∧
  t_applications T !! a_ID app = Some cfg ∧ AI.aiFingerprint app (ap_Protocol cfg) (ap_BasePath cfg) (ap_TLS cfg) = ap_TargetFingerprint cfg ∧ g_Protocol grant = ap_Protocol cfg ∧
  (ap_EncryptedKey cfg = "" ∧ g_UpstreamKey grant = "" ∨ open_key (ap_EncryptedKey cfg) (ap_TargetFingerprint cfg) = Some (g_UpstreamKey grant)) ∧
  ∀ alias model, g_Models grant !! alias = Some model → mappings !! alias = Some model.
(** With a key: it is stored, live, of the access, and the models are of its
    scope.  Without one: the signed-in user. *)
Definition admitted (r : InferenceRequest) (id : N) (native : bool) (s : St) (grant : AIGrant) : Prop :=
  let T := ai (repo s) in
  if ir_Debug r then ∃ user, ir_User r = Some user ∧ g_KeyID grant = 0%N ∧ backed user id s T grant
  else ∃ secret k scope, aiInferenceKey r native = Some secret ∧ t_keys T !! k_ID k = Some k ∧ k_Digest k = KeyDigest secret ∧ AiDao.live (ir_Now r) k = true ∧ k_ProxyID k = id ∧
    g_KeyID grant = k_ID k ∧ decode_scope (k_Models k) = Some scope ∧ (∀ alias model, g_Models grant !! alias = Some model → alias ∈ scope) ∧
    backed (k_UserID k) id (snd (IAM.on_repo (AiDao.GetAIKey (ir_Now r) (KeyDigest secret)) s)) T grant.
Definition within (T : AiTables) (grant : AIGrant) : Prop := ∀ k limit, t_keys T !! g_KeyID grant = Some k → k_ProxyID k = g_ProxyID grant → k_UserID k = g_UserID grant → k_TokenLimit k = Some limit →
  (ku_UsedTokens (usage_of (t_ledger T) k) < limit)%Z ∧ ∀ u, u ∈ t_ledger T → charged k u = true → unconfirmed u = false.
Lemma active_spec user id (s s' : St) p app a : AI.active user id s = (Ok (p, app, a), s') → t_accesses (ai (repo s)) !! id = Some a ∧ aa_Enabled a = true.
Proof.
  unfold AI.active. unfold bind at 1. destruct (still_access user id "use" s) as [H1 _]. destruct (AI.access user id "use" s) as [[[p0 app0]|e] s1]; [|done]. cbn [snd] in H1.
  unfold bind at 1. destruct (still_repo (E := E) _ (spares_status p0 app0) s1) as [H2 _]. destruct (IAM.on_repo _ s1) as [[st|e] s2]; [|done]. cbn [snd] in H2. destruct (negb _); [done|].
  unfold bind, IAM.on_repo, AiDao.GetAIAccess. destruct (acc_First id (repo s2)) as [[a0|e] d] eqn:Ea; [|done]. apply acc_First_law in Ea as (_ & _ & Ea).
  destruct (aa_Enabled a0) eqn:En; [|done]. intros [= <- <- <- _]. rewrite <- H1, <- H2. by split.
Qed.
Lemma upstream_spec app (s s' : St) key protocol : AI.upstream app s = (Ok (key, protocol), s') → ∃ cfg, t_applications (ai (repo s)) !! a_ID app = Some cfg ∧
  AI.aiFingerprint app (ap_Protocol cfg) (ap_BasePath cfg) (ap_TLS cfg) = ap_TargetFingerprint cfg ∧ protocol = ap_Protocol cfg ∧
  (ap_EncryptedKey cfg = "" ∧ key = "" ∨ open_key (ap_EncryptedKey cfg) (ap_TargetFingerprint cfg) = Some key).
Proof.
  unfold AI.upstream. unfold bind at 1, IAM.on_repo, AiDao.GetAIApplication. destruct (app_First (a_ID app) (repo s)) as [[cfg|e] d] eqn:Ea; [|done]. apply app_First_law in Ea as (_ & _ & Ea).
  cbn zeta. case_bool_decide as Hf; [|done]. cbn [negb]. unfold bind at 1. case_bool_decide as Hk.
  - cbn. destruct (negb _); [done|]. intros [= <- <- _]. exists cfg. split_and!; try done. by left.
  - destruct (open_key _ _) as [k|] eqn:Eo; [|done]. cbn. destruct (negb _); [done|]. intros [= <- <- _]. exists cfg. split_and!; try done. right. by rewrite <- Hf.
Qed.
Lemma backed_make user id (s1 s2 s3 s4 : St) T p app a mappings up metered keyID digest models :
  ai (repo s1) = T → AI.active (Some user) id s1 = (Ok (p, app, a), s2) → decode_models (aa_Models a) = Some mappings → AI.upstream app s3 = (Ok up, s4) → ai (repo s3) = ai (repo s2) →
  (∀ alias model, models !! alias = Some model → mappings !! alias = Some model) →
  backed user id s1 T (mkGrant metered keyID user id models (snd up) app (fst up) digest (aa_Models a)).
Proof.
  intros HT Ha Hm Hu Hs Hmodels. destruct (active_spec _ _ _ _ _ _ _ Ha) as [A1 A2]. destruct (still_active (Some user) id s1) as [A3 _]. rewrite Ha in A3. cbn [snd] in A3.
  destruct up as [key protocol]. apply upstream_spec in Hu as (cfg & U1 & U2 & U3 & U4). rewrite Hs, A3 in U1. rewrite HT in *. exists p, app, a, s2, mappings, cfg. by split_and!.
Qed.
Lemma grant_spec r id native secret (s s' : St) g : ir_Debug r = false → aiInferenceKey r native = Some secret → AI.Grant (ir_Now r) id secret s = (Ok g, s') →
  admitted r id native s g ∧ ai (repo s') = ai (repo s).
Proof.
  intros Hd Hk. unfold AI.Grant, admitted. rewrite Hd. destruct (_ || _); [done|]. unfold bind at 1, map_err. destruct (IAM.on_repo (AiDao.GetAIKey _ _) s) as [[k|e] s1] eqn:E1; [|done].
  assert (ai (repo s1) = ai (repo s) ∧ t_keys (ai (repo s)) !! k_ID k = Some k ∧ k_Digest k = KeyDigest secret ∧ AiDao.live (ir_Now r) k = true) as (H1 & H2 & H3 & H4).
  { unfold IAM.on_repo, AiDao.GetAIKey in E1. destruct (key_First _ (repo s)) as [x d] eqn:Ek. injection E1 as -> <-. apply key_First_law in Ek as (_ & Hd' & Hs & Hp).
    apply andb_true_iff in Hp as [Hp%bool_decide_eq_true Hl]. done. }
  case_bool_decide as Hid; [|done]. cbn [negb]. unfold bind at 1. destruct (AI.active (Some (k_UserID k)) id s1) as [[[[p app] a]|e] s2] eqn:E2; [|done].
  unfold bind at 1. destruct (decode_scope (k_Models k)) as [scope|] eqn:Es; [|done]. cbn [of_option ret]. unfold bind at 1. destruct (decode_models (aa_Models a)) as [mappings|] eqn:Em; [|done].
  cbn [of_option ret]. unfold bind at 1. destruct (still_upstream app s2) as [H5 _]. destruct (AI.upstream app s2) as [[up|e] s3] eqn:E3; [|done]. cbn [snd] in H5. intros [= <- <-].
  pose proof (still_active (Some (k_UserID k)) id s1) as [H6 _]. rewrite E2 in H6. cbn [snd] in H6. split; [|congruence]. exists secret, k, scope. split_and!; try done.
  - intros alias model Hal. by apply allowed_spec in Hal as [Hal _].
  - subst id. rewrite E1. cbn [snd]. apply (backed_make _ _ s1 s2 s2 s3 _ p app a mappings up); try done. intros alias model Hal. by apply allowed_spec in Hal as (_ & Hal & _).
Qed.
Lemma debug_spec r id native (s s' : St) g : ir_Debug r = true → AI.DebugGrant (ir_User r) id s = (Ok g, s') → admitted r id native s g ∧ ai (repo s') = ai (repo s).
Proof.
  intros Hd. unfold AI.DebugGrant, admitted. rewrite Hd. destruct (ir_User r) as [user|]; [|done]. unfold bind at 1.
  destruct (AI.active (Some user) id s) as [[[[p app] a]|e] s2] eqn:E2; [|done]. unfold bind at 1. destruct (decode_models (aa_Models a)) as [mappings|] eqn:Em; [|done].
  cbn [of_option ret]. unfold bind at 1. destruct (still_upstream app s2) as [H5 _]. destruct (AI.upstream app s2) as [[up|e] s3] eqn:E3; [|done]. cbn [snd] in H5. intros [= <- <-].
  pose proof (still_active (Some user) id s) as [H6 _]. rewrite E2 in H6. cbn [snd] in H6. split; [|congruence]. exists user. split_and!; try done. by apply (backed_make _ _ s s2 s2 s3 _ p app a mappings up).
Qed.

Lemma filter_none {A} (p : A → bool) l : Z.of_nat (length (List.filter p l)) = 0%Z → ∀ x, x ∈ l → p x = false.
Proof.
  intros Hl x Hx. destruct (p x) eqn:Ep; [|done]. exfalso. assert (x ∈ List.filter p l) as Hin by (apply list_elem_of_In, filter_In; split; [by apply list_elem_of_In|done]).
  destruct (List.filter p l); [by apply not_elem_of_nil in Hin|cbn in Hl; lia].
Qed.
Lemma quota_spec g (s s' : St) g' : AI.CheckKeyQuota g s = (Ok g', s') → within (ai (repo s)) g ∧ ai (repo s') = ai (repo s) ∧ g' = g <| g_Metered := g_Metered g' |>.
Proof.
  unfold AI.CheckKeyQuota. destruct (N.eqb_spec (g_KeyID g) 0) as [Hz|Hz].
  { intros [= <- <-]. split_and!; [|done|by destruct g]. intros k limit Hk. rewrite Hz in Hk. by apply keys_numbered in Hk as [_ []]. }
  unfold bind at 1, map_err, IAM.on_repo, AiDao.GetAIKeyUsage, bind at 1. destruct (key_Usage _ (repo s)) as [[ou|e] d] eqn:Eu; [|done]. apply key_Usage_law in Eu as (_ & Hd & Hu).
  destruct ou as [usage|]; [|done]. destruct Hu as (i & k & Hk & Hp & ->). cbn [of_option ret].
  assert (∀ k', t_keys (ai (repo s)) !! g_KeyID g = Some k' → k' = k) as Huniq.
  { intros k' Hk'. unfold AiDao.numbered_key in Hp. rewrite !andb_true_iff, !bool_decide_eq_true in Hp. destruct Hp as [[_ Hp] _]. apply keys_numbered in Hk as Hi. destruct Hi as [Hi _].
    rewrite <- Hp, Hi, Hk in Hk'. by injection Hk'. }
  destruct (ku_TokenLimit _) as [limit|] eqn:El; cbn [usage_of ku_TokenLimit] in El.
  - destruct (Z.leb_spec limit (ku_UsedTokens (usage_of (t_ledger (ai (repo s))) k))) as [|Hlt]; [done|]. cbn. destruct (Z.ltb_spec 0 (Z.of_nat (length (List.filter unconfirmed (List.filter (charged k) (t_ledger (ai (repo s)))))))) as [|Hun]; [done|].
    intros [= <- <-]. split_and!; [|done|by destruct g]. intros k' limit' Hk' _ _ Hl'. rewrite (Huniq _ Hk') in *. rewrite El in Hl'. injection Hl' as <-. split; [done|].
    intros u Hin Hc. apply (filter_none unconfirmed (List.filter (charged k) (t_ledger (ai (repo s))))); [lia|]. apply list_elem_of_In, filter_In. split; [by apply list_elem_of_In|done].
  - intros [= <- <-]. split_and!; [|done|by destruct g]. intros k' limit' Hk' _ _ Hl'. rewrite (Huniq _ Hk') in *. congruence.
Qed.
(** The record that is left of an inference. *)
Definition left_record (T : AiTables) (s' : St) (v : AIRequest) : Prop :=
  fresh_request v T ∧ ai (repo s') = with_record v T ∨
  ai (repo s') = T ∧ ((∃ u, u ∈ t_ledger T ∧ u_RequestID u = q_RequestID v) ∨ ∃ (s : St) e, ai (repo s) = T ∧ AI.Record_ v s = (Err e, s')).
Lemma grant_for_spec r id native (w : W) x w' : Inference.grant_for r id native w = (x, w') →
  snd w' = snd w ∧ match x with inl _ => True | inr g => admitted r id native (fst w) g end ∧ ai (repo (fst w')) = ai (repo (fst w)).
Proof.
  unfold Inference.grant_for. destruct (ir_Debug r) eqn:Ed.
  - unfold Inference.or_reject, Inference.jbind, Inference.on_service. destruct (AI.DebugGrant (ir_User r) id (fst w)) as [[g|e] s1] eqn:Eg.
    + intros [= <- <-]. apply (debug_spec r id native) in Eg as [Ha Ht]; [|done]. by split_and!.
    + intros [= <- <-]. split_and!; try done. cbn. pose proof (still_DebugGrant (ir_User r) id (fst w)) as [Hs _]. by rewrite Eg in Hs.
  - destruct (aiInferenceKey r native) as [secret|] eqn:Ek; [|by intros [= <- <-]]. unfold Inference.or_reject, Inference.jbind, Inference.on_service.
    destruct (AI.Grant (ir_Now r) id secret (fst w)) as [[g|e] s1] eqn:Eg.
    + intros [= <- <-]. apply (grant_spec r id native) in Eg as [Ha Ht]; [|done|done]. by split_and!.
    + intros [= <- <-]. split_and!; try done. cbn. pose proof (still_Grant (ir_Now r) id secret (fst w)) as [Hs _]. by rewrite Eg in Hs.
Qed.
Lemma perform_spec r native g p requestID (w : W) :
  ∃ answer w' v, Inference.perform chunk takes relay_other rewrite_body r native g p requestID w = (inr answer, w') ∧
    (snd w' = snd w ∨ snd w' = snd (ask g (pr_Operation p) (pr_Body p) (snd w))) ∧
    q_RequestID v = requestID ∧ q_KeyID v = g_KeyID g ∧ q_ProxyID v = g_ProxyID g ∧ q_UserID v = g_UserID g ∧ q_Model v = pr_Alias p ∧ left_record (ai (repo (fst w))) (fst w') v.
Proof.
  unfold Inference.perform. destruct (Inference.RequestProtocol _ _ _ _ w) as [o w1] eqn:Eo.
  assert (ai (repo (fst w1)) = ai (repo (fst w)) ∧ (snd w1 = snd w ∨ snd w1 = snd (ask g (pr_Operation p) (pr_Body p) (snd w)))) as [H1 H2].
  { unfold Inference.RequestProtocol in Eo. destruct (_ || _); [injection Eo as <- <-; by split; [|left]|]. destruct (still_Revalidate (ir_Now r) g (fst w)) as [Hr _].
    destruct (AI.Revalidate (ir_Now r) g (fst w)) as [[u|e] s1]; [|injection Eo as <- <-; by split; [|left]].
    destruct (ask g (pr_Operation p) (pr_Body p) (snd w)) as [o' n']. injection Eo as <- <-. by split; [|right]. }
  destruct (Inference.settle _ _ _ _ r native g p o) as [[answer status] usage].
  match goal with |- context [AI.Record_ ?v (fst w1)] => set (v0 := v) end.
  unfold AI.Record_, IAM.on_repo. destruct (AiDao.RecordAIRequest v0 (repo (fst w1))) as [x d] eqn:Er. pose proof Er as Er'. apply record_effect in Er as [_ Er].
  eexists answer, _, v0. split; [reflexivity|]. cbn [fst snd repo]. split_and!; try done. rewrite H1 in Er. unfold left_record. cbn [repo]. destruct x as [[]|e].
  - destruct Er as [_ [[Hd ->]|[Hf ->]]]; [right; split; [done|by left]|left; by split].
  - right. cbn [repo]. split; [done|]. right. exists (fst w1), e. split; [done|]. unfold AI.Record_, IAM.on_repo. by rewrite Er'.
Qed.
(** C37. An inference reaches an upstream only if it is admitted: with a key that
    is stored, neither revoked nor expired, and of this access, whose owner may
    use the access now, or for a signed-in user who may; the access is enabled
    and its application is the very target the upstream's credential was stored
    for; the model is one the access maps and, with a key, of the key's scope;
    and the settled usage of a limited key is below its limit with nothing
    unconfirmed.  It is then recorded once, under its key, user, access and
    alias, unless the database refuses.  Any other request asks no upstream and
    changes nothing. *)
Theorem inference_admitted (r : InferenceRequest) (id : N) (w : W) :
  let '(reply, w') := Inference.handleAIInference convert native_messages chunk takes relay_other rewrite_body r id w in
  let T := ai (repo (fst w)) in let T' := ai (repo (fst w')) in let native := bool_decide (ir_Operation r = "v1/messages") in
  (snd w' = snd w ∧ T' = T) ∨
  ∃ grant prepared requestID v, admitted r id native (fst w) grant ∧ within T grant ∧ is_Some (g_Models grant !! pr_Alias prepared) ∧
    (snd w' = snd w ∨ snd w' = snd (ask grant (pr_Operation prepared) (pr_Body prepared) (snd w))) ∧
    ir_RequestID r = Ok requestID ∧ q_RequestID v = requestID ∧ q_KeyID v = g_KeyID grant ∧ q_ProxyID v = g_ProxyID grant ∧ q_UserID v = g_UserID grant ∧ q_Model v = pr_Alias prepared ∧
    left_record T (fst w') v.
Proof.
  unfold Inference.handleAIInference. set (native := bool_decide (ir_Operation r = "v1/messages")). cbn zeta. destruct (negb _); [by left|].
  unfold Inference.jbind at 1. assert (∀ x w1, Inference.grant_for r id native w = (x, w1) → snd w1 = snd w ∧ match x with
    | inl _ => True | inr g => admitted r id native (fst w) g end ∧ ai (repo (fst w1)) = ai (repo (fst w))) as Hg by (intros x w1; apply grant_for_spec).
  destruct (Inference.grant_for r id native w) as [[reply|g] w1]; destruct (Hg _ _ eq_refl) as (N1 & Ad & T1); [left; by split|]. clear Hg.
  destruct (native && _); [left; by split|]. destruct (bool_decide (ir_Operation r = "v1/models")); [left; by split|]. destruct (negb (ir_SlotFree r)); [left; by split|].
  unfold Inference.jbind at 1, Inference.pure_or at 1. destruct (ir_Body r) as [body|]; [|left; by split]. cbn beta iota delta [Inference.jret].
  unfold Inference.jbind at 1, Inference.pure_or at 1.
  destruct (if native then Relay.PrepareMessages native_messages body (g_Models g) else Relay.Prepare convert body (g_Models g) (g_Protocol g)) as [p|e] eqn:Ep; [|left; by split].
  assert (is_Some (g_Models g !! pr_Alias p)) as Hal by (destruct native; [by eapply prepare_native_spec|by eapply prepare_spec]). cbn beta iota delta [Inference.jret].
  unfold Inference.jbind at 1, Inference.pure_or at 1. destruct (ir_RequestID r) as [rid|e] eqn:Eid; [|left; by split]. cbn beta iota delta [Inference.jret].
  unfold Inference.jbind at 1, Inference.or_reject, Inference.jbind at 1, Inference.on_service. destruct (AI.CheckKeyQuota g (fst w1)) as [[g'|e] s2] eqn:Eq.
  2: { left. split; [done|]. cbn. pose proof (still_quota g (fst w1)) as [Hs _]. rewrite Eq in Hs. cbn in Hs. congruence. }
  apply quota_spec in Eq as (Q1 & Q2 & Q3). cbn beta iota delta [Inference.jret].
  assert (admitted r id native (fst w) g' ∧ within (ai (repo (fst w))) g' ∧ g_Models g' = g_Models g) as (A1 & A2 & A3) by (rewrite Q3; rewrite <- T1; by split_and!).
  assert (∀ p', pr_Alias p' = pr_Alias p → let '(reply, w') := Inference.perform chunk takes relay_other rewrite_body r native g' p' rid (s2, snd w1) in
    ∃ grant prepared requestID v, admitted r id native (fst w) grant ∧ within (ai (repo (fst w))) grant ∧ is_Some (g_Models grant !! pr_Alias prepared) ∧
    (snd w' = snd w ∨ snd w' = snd (ask grant (pr_Operation prepared) (pr_Body prepared) (snd w))) ∧
    (Ok rid : Result string) = Ok requestID ∧ q_RequestID v = requestID ∧ q_KeyID v = g_KeyID grant ∧ q_ProxyID v = g_ProxyID grant ∧ q_UserID v = g_UserID grant ∧ q_Model v = pr_Alias prepared ∧
    left_record (ai (repo (fst w))) (fst w') v) as Hp.
  { intros p' Hp'. destruct (perform_spec r native g' p' rid (s2, snd w1)) as (answer & w' & v & -> & P1 & P2 & P3 & P4 & P5 & P6 & P7). cbn [fst snd] in *. rewrite Q2, T1 in P7. rewrite N1 in P1.
    exists g', p', rid, v. rewrite A3, Hp'. split_and!; try done. congruence. }
  unfold Inference.jbind at 1. destruct (g_Metered g' && _ && _); [|specialize (Hp p eq_refl); cbn beta iota delta [Inference.jret]; destruct (Inference.perform _ _ _ _ _ _ _ _ _ _) as [reply w']; right; exact Hp].
  unfold Inference.pure_or. destruct (Relay.IncludeStreamUsage p) as [p'|e] eqn:Ei; [|left; split; [done|]; cbn; congruence].
  specialize (Hp p' (include_spec _ _ Ei)). cbn beta iota delta [Inference.jret]. destruct (Inference.perform _ _ _ _ _ _ _ _ _ _) as [reply w']. right. exact Hp.
Qed.
End Inferences.
