(* ===== verification/AiDatabase.v ===== *)
(** * AI gateway: a database and an upstream in memory

    The tables of the AI gateway beside those of [ControlDatabase], a toy JSON
    and an upstream that logs what it is asked.  The laws hold; an installation
    with one model behind one connector shows the theorems at work. *)

From S2P Require Import Prelude Sha256 ToolTypes ToolDisclosure IamDao IamDatabase Iam IamAuth ControlDao NetAddr ControlPlane ControlDatabase DataConsoleText AiGateway AiRelay AiInference AiTheorems.

Record AiDB := mkAiDB { ad_cp : CpDB; ad_tables : AiTables; ad_saved : list AiTables }.
Definition on_rows {A} (m : Op CpDB A) : Op AiDB A := λ s, let '(r, c) := m (ad_cp s) in (r, mkAiDB c (ad_tables s) (ad_saved s)).
#[export] Instance ai_iam : IamGorm AiDB := {|
  Create Row i r := on_rows (Create r); First Row i preload p := on_rows (First preload p); Find Row i preload p less := on_rows (Find preload p less);
  Page Row i offset limit := on_rows (Page offset limit); Count Row i p := on_rows (Count p); Save Row i r := on_rows (Save r);
  Delete Row i p := on_rows (Delete p); Purge Row i p := on_rows (Purge p); Update Row i p f := on_rows (Update p f);
  Upsert Row i conflict assign r := on_rows (Upsert conflict assign r);
  Begin s := mkAiDB (Begin (ad_cp s)) (ad_tables s) (ad_saved s); Commit := on_rows Commit;
  Rollback s := mkAiDB (Rollback (ad_cp s)) (ad_tables s) (ad_saved s) |}.
#[export] Instance ai_cp : CpGorm AiDB := {|
  Create_ t r := on_rows (Create_ t r); First_ t p := on_rows (First_ t p); Find_ t p := on_rows (Find_ t p); Delete_ t p := on_rows (Delete_ t p);
  Updates_ t p f := on_rows (Updates_ t p f); OnConflictCreate_ r := on_rows (OnConflictCreate_ r); JoinsFirst_ ip := on_rows (JoinsFirst_ ip);
  Begin_ s := mkAiDB (Begin_ (ad_cp s)) (ad_tables s) (ad_tables s :: ad_saved s);
  Commit_ s := let '(r, c) := Commit_ (ad_cp s) in (Ok tt, mkAiDB c (ad_tables s) (tl (ad_saved s)));
  Rollback_ s := match ad_saved s with T :: Ts => mkAiDB (Rollback_ (ad_cp s)) T Ts | [] => s end |}.

(** The keys stored under their own number. *)
Definition own_number (kk : N * AIKey) : Prop := k_ID kk.2 = kk.1 ∧ kk.1 ≠ 0%N.
#[export] Instance own_number_dec kk : Decision (own_number kk). Proof. unfold own_number. apply _. Defined.
Definition view (T : AiTables) : AiTables := T <| t_keys := filter own_number (t_keys T) |>.
Definition seen (s : AiDB) : AiTables := view (ad_tables s).
Definition store (T : AiTables) (s : AiDB) : AiDB := mkAiDB (ad_cp s) T (ad_saved s).
Definition next_key (T : AiTables) : N := N.succ (foldr N.max 0%N (map_to_list (t_keys T)).*1).
Definition keys_with (p : AIKey → bool) (T : AiTables) : list AIKey := List.filter p (map_to_list (t_keys T)).*2.
#[export] Instance ai_gorm : AiGorm AiDB := {|
  app_First i s := (match t_applications (seen s) !! i with Some a => Ok a | None => Err ErrRecordNotFound end, s);
  app_Upsert a s := (Ok tt, store ((seen s) <| t_applications := <[ ap_ApplicationID a := a ]> (t_applications (seen s)) |>) s);
  acc_First i s := (match t_accesses (seen s) !! i with Some a => Ok a | None => Err ErrRecordNotFound end, s);
  acc_Upsert a s := (Ok tt, store ((seen s) <| t_accesses := <[ aa_ProxyID a := a ]> (t_accesses (seen s)) |>) s);
  key_Count p s := (Ok (length (keys_with p (seen s))), s);
  key_Create k s := match keys_with (λ k', bool_decide (k_Digest k' = k_Digest k)) (seen s) with
    | _ :: _ => (Err (ENew "UNIQUE constraint failed"), s)
    | [] => let k' := k <| k_ID := next_key (seen s) |> in (Ok k', store ((seen s) <| t_keys := <[ next_key (seen s) := k' ]> (t_keys (seen s)) |>) s)
    end;
  key_First p s := (match keys_with p (seen s) with k :: _ => Ok k | [] => Err ErrRecordNotFound end, s);
  key_Find p s := (Ok (keys_with p (seen s)), s);
  key_Update p f s := (Ok (length (keys_with p (seen s))), store ((seen s) <| t_keys := (λ k, if p k then f k else k) <$> t_keys (seen s) |>) s);
  key_Usage p s := (Ok (usage_of (t_ledger (seen s)) <$> head (keys_with p (seen s))), s);
  usage_Insert u s := if bool_decide (u_RequestID u ∈ map u_RequestID (t_ledger (seen s))) then (Ok 0, s)
    else (Ok 1, store ((seen s) <| t_ledger := t_ledger (seen s) ++ [u] |>) s);
  request_Create q s := (Ok tt, store ((seen s) <| t_requests := t_requests (seen s) ++ [q] |>) s);
  request_Prune proxy user s := (Ok tt, store ((seen s) <| t_requests := prune proxy user (t_requests (seen s)) |>) s) |}.

Lemma keys_seen T i k : t_keys (view T) !! i = Some k → k_ID k = i ∧ i ≠ 0%N.
Proof. cbn. rewrite map_lookup_filter_Some. by intros [_ H]. Qed.
Lemma view_keys_id T : (∀ i k, t_keys T !! i = Some k → k_ID k = i ∧ i ≠ 0%N) → view T = T.
Proof. intros HT. destruct T as [a b keys l q]. unfold view. cbn in *. f_equal. apply map_filter_id. intros i k Hk. by apply HT in Hk. Qed.
Lemma view_view T : view (view T) = view T.
Proof. apply view_keys_id, keys_seen. Qed.
Lemma store_seen T s : (∀ i k, t_keys T !! i = Some k → k_ID k = i ∧ i ≠ 0%N) → seen (store T s) = T.
Proof. apply view_keys_id. Qed.
Lemma keys_with_spec p T k : k ∈ keys_with p (view T) ↔ t_keys (view T) !! k_ID k = Some k ∧ p k = true.
Proof.
  unfold keys_with. rewrite list_elem_of_In, filter_In, <- list_elem_of_In, list_elem_of_fmap. split.
  - intros [([i k'] & -> & Hk%elem_of_map_to_list) Hp]. cbn [snd] in *. apply keys_seen in Hk as Hi. by destruct Hi as [-> _].
  - intros [Hk Hp]. split; [|done]. exists (k_ID k, k). split; [done|]. by apply elem_of_map_to_list.
Qed.
Lemma keys_with_nil p T : keys_with p (view T) = [] ↔ ∀ i k, t_keys (view T) !! i = Some k → p k = false.
Proof.
  split.
  - intros Hn i k Hk. apply keys_seen in Hk as Hi. destruct Hi as [Hi _]. apply not_true_is_false. intros Hp. subst i.
    apply (not_elem_of_nil k). rewrite <- Hn. by apply keys_with_spec.
  - intros Hf. destruct (keys_with p (view T)) as [|k l] eqn:E; [done|]. assert (k ∈ keys_with p (view T)) as [Hk Hp]%keys_with_spec by (rewrite E; by left).
    apply Hf in Hk. congruence.
Qed.
Lemma next_key_fresh T : next_key T ≠ 0%N ∧ t_keys T !! next_key T = None.
Proof.
  split; [unfold next_key; lia|]. apply eq_None_not_Some. intros [v Hv].
  assert (∀ l i, i ∈ l → (i ≤ foldr N.max 0 l)%N) as Hmax by (intros l i; induction l as [|y l IH]; [by intros ?%elem_of_nil|]; intros [->|Hi]%elem_of_cons; simpl; [lia|]; specialize (IH Hi); lia).
  assert (next_key T ∈ (map_to_list (t_keys T)).*1) as Hin by (apply list_elem_of_fmap; exists (next_key T, v); split; [done|by apply elem_of_map_to_list]).
  apply Hmax in Hin. unfold next_key in Hin at 1. lia.
Qed.
Lemma on_rows_frame {A} (m : Op CpDB A) s : seen (snd (on_rows m s)) = seen s ∧ map view (ad_saved (snd (on_rows m s))) = map view (ad_saved s).
Proof. unfold on_rows. by destruct (m (ad_cp s)). Qed.
#[export] Instance ai_laws : AiLaws AiDB.
Proof.
  refine {| ai := seen; ai_saved s := map view (ad_saved s); keys_numbered s := keys_seen (ad_tables s) |}.
  - intros i s x s' [= <- <-]. split_and!; [done|done|]. cbn. by destruct (t_applications (ad_tables s) !! i).
  - intros a s x s' [= <- <-]. split; [done|]. apply store_seen, keys_seen.
  - intros i s x s' [= <- <-]. split_and!; [done|done|]. cbn. by destruct (t_accesses (ad_tables s) !! i).
  - intros a s x s' [= <- <-]. split; [done|]. apply store_seen, keys_seen.
  - by intros p s x s' [= <- <-].
  - intros k s x s'. cbn [key_Create ai_gorm]. destruct (keys_with (λ k', bool_decide (k_Digest k' = k_Digest k)) (seen s)) as [|k0 l] eqn:E; intros [= <- <-]; [|done]. split; [done|]. destruct (next_key_fresh (seen s)) as [Hz Hn].
    exists (next_key (seen s)). split_and!; [done|done| |done|].
    + intros j kj Hj. eapply keys_with_nil in E as E'; [|exact Hj]. by apply bool_decide_eq_false in E'.
    + apply store_seen. intros i k'. cbn. intros [[<- <-]|[_ Hk]]%lookup_insert_Some; [done|by apply keys_seen in Hk].
  - intros p s x s'. cbn [key_First ai_gorm]. destruct (keys_with p (seen s)) as [|k l] eqn:E; intros [= <- <-]; (split; [done|]; split; [done|]); [intros _; by apply keys_with_nil|].
    apply (keys_with_spec p). unfold seen in E. rewrite E. by left.
  - intros p s x s' [= <- <-]. split_and!; [done|done|]. intros k. apply keys_with_spec.
  - intros p f s x s' Hf [= <- <-]. split_and!; [done| |].
    + rewrite length_zero_iff_nil. apply keys_with_nil.
    + apply store_seen. intros i k. cbn. rewrite lookup_fmap_Some. intros (k0 & <- & Hk). apply keys_seen in Hk. destruct (p k0); by rewrite ?Hf.
  - intros p s x s'. cbn [key_Usage ai_gorm]. destruct (keys_with p (seen s)) as [|k l] eqn:E; intros [= <- <-]; (split; [done|]; split; [done|]); [by apply keys_with_nil|].
    assert (k ∈ keys_with p (seen s)) as [Hk Hp]%keys_with_spec by (rewrite E; by left). by exists (k_ID k), k.
  - intros u s x s'. cbn. case_bool_decide as Hu; intros [= <- <-]; (split; [done|]); cbn [Nat.eqb].
    + split; [|done]. apply list_elem_of_fmap in Hu as (v & -> & Hv). by exists v.
    + split; [|apply store_seen, keys_seen]. intros v Hv Hq. apply Hu. rewrite <- Hq. apply list_elem_of_fmap. by exists v.
  - intros q s x s' [= <- <-]. split; [done|]. apply store_seen, keys_seen.
  - intros proxy user s x s' [= <- <-]. split; [done|]. apply store_seen, keys_seen.
  - done.
  - intros T Ts s x s' Hs. cbn in *. destruct (cdb_Commit (ad_cp s)) as [r c]. intros [= <- <-]. cbn. destruct (ad_saved s); [done|]. by injection Hs as _ <-.
  - intros T Ts s Hs. cbn in Hs |- *. destruct (ad_saved s) as [|T0 Ts0]; [done|]. by injection Hs as <- <-.
  - intros t p s. apply on_rows_frame.
  - intros t p s. apply on_rows_frame.
  - intros Row i preload p s. apply on_rows_frame.
  - intros Row i preload p less s. apply on_rows_frame.
Defined.

(** ** A toy JSON: objects are written [{a=1;b=2}] *)
Definition written (o : gmap string string) : string := "{" +:+ join_with ";" (map (λ kv : string * string, kv.1 +:+ "=" +:+ kv.2) (map_to_list o)) +:+ "}".
Definition read_pair (p : string) : option (string * string) := cut_at "="%char p.
Definition read_pairs (s : string) : option (gmap string string) :=
  match s with
  | String "{"%char rest => match cut_at "}"%char rest with Some (inside, "") => Some (list_to_map (omap read_pair (Split inside ";"%char))) | _ => None end
  | _ => None
  end.
#[export] Instance toy_json : JsonRaw := {|
  get_object r := Some <$> read_pairs r; get_string := Some; get_bool r := Some (bool_decide (r = "true")); get_list r := Some (Some [r]); get_int r := Some (Some 7%Z);
  get_typed r := Some (r, r); get_stop_reason := Some; put_string s := s; put_object o := Ok (written o) |}.
#[export] Instance toy_json_laws : JsonRawLaws.
Proof.
  split. intros o r H. injection H as <-. unfold HasPrefix, written. generalize (join_with ";" (map (λ kv : string * string, kv.1 +:+ "=" +:+ kv.2) (map_to_list o)) +:+ "}").
  by intros [].
Qed.
#[export] Instance toy_codec : AiCodec := {|
  encode_scope := join_with ";"; decode_scope s := Some (Split s ";"%char); encode_models := written; decode_models := read_pairs;
  seal_key nonce key label := key; open_key sealed label := Some sealed |}.
Definition demo_lines : list string := ["event: chunk"; "data: {choices=hi;model=llama}"; ""; "data: [DONE]"; ""; "data: late"; ""].
Abbreviation demo_relay := (Relay.RelaySSE "openai-compatible" "chat" (λ _ _ _, ∅)).

(** ** An installation with one model

    User 1 sets up application 1 behind connector 1 and access 1, and makes a
    key for the alias "chat" with a limit of ten tokens. *)
Definition demo_rows : AiDB :=
  let s := mkAiDB empty_cp (mkAiTables ∅ ∅ ∅ [] []) [] in
  let s := snd (Create (mkUserRow 0 "ann" "ann@example.org" "" UserStatusActive None "") s) in
  let s := snd (Create (mkIAMRoleBinding 0 1 1 1 false None None) s) in
  let s := snd (Create_ TEdge (mkEdge 0 "office" EdgeStatusRunning EdgeOnlineStatusOnline "") s) in
  let s := snd (Create_ TApplication (mkApplication 0 [1%N] 0 "models" "" "10.0.0.9" 8000 "llm") s) in
  let s := snd (Create_ TAccess (mkAccess 0 1 "models" 0 ProxyStatusRunning "" "aiapi") s) in
  foldr (λ t s, snd (Create_ TRelation (mkRelation 0 t 1 "owner" "user" 1 1) s)) s ["access"; "application"; "connector"].
Definition demo_rules : RuleSet := mkRules [(userSubject 1, globalDomain, "/resources/*", "(read|update|use)")] [] [].
Abbreviation DemoService := (IAMService AiDB RuleSet).
Definition demo_setup : list ai_call :=
  [ASaveApplication (Ok "nonce") (Some 1%N) 1 (mkAppConfig "openai-compatible" "/v1" false "upstream-secret" false false);
   ASaveAccess (Some 1%N) 1 (mkAccessConfig true {[ "chat" := "llama" ]} "");
   ACreateKey 1000%Z (Ok (map N.of_nat (seq 0 32))) (Some 1%N) 1 (mkKeyRequest "laptop" ["chat"] 30 (Some 10%Z))].
Definition demo_start : DemoService := mkIAM demo_rows demo_rules.
Definition demo_service : DemoService := fold_left run_ai demo_setup demo_start.
Definition demo_secret : string := "lia_ai_AAECAwQFBgcICQoLDA0ODxAREhMUFRYXGBkaGxwdHh8".
Definition demo_created : Result AIKeyView * DemoService :=
  AI.CreateKey 1000%Z (Ok (map N.of_nat (seq 0 32))) (Some 1%N) 1 (mkKeyRequest "laptop" ["chat"] 30 (Some 10%Z)) (fold_left run_ai (take 2 demo_setup) demo_start).
Definition demo_view : AIKeyView := mkKeyView 1 "laptop" ["chat"] (1000 + 30 * AI.day)%Z demo_secret (Some 10%Z) 0 (Some 10%Z) 0.
Lemma created_key_works_witness : fst demo_created = Ok demo_view ∧ String.length (kv_Secret demo_view) = 50 ∧
  match fst (AiDao.GetAIKey 2000%Z (KeyDigest (kv_Secret demo_view)) (repo (snd demo_created))) with Ok k => k_ID k = 1%N | Err _ => False end.
Proof.
  assert (fst demo_created = Ok demo_view) as E by (vm_compute; reflexivity). split; [exact E|].
  assert (is_ok (fst (AiDao.GetAIKey 2000%Z (KeyDigest (kv_Secret demo_view)) (repo (snd demo_created)))) = true) as Hok by (vm_compute; reflexivity).
  assert (demo_created = (Ok demo_view, snd demo_created)) as Hc by (rewrite <- E; apply surjective_pairing).
  pose proof (created_key_works 1000%Z (map N.of_nat (seq 0 32)) (Some 1%N) 1 (mkKeyRequest "laptop" ["chat"] 30 (Some 10%Z)) (fold_left run_ai (take 2 demo_setup) demo_start) (snd demo_created) demo_view eq_refl Hc) as H.
  destruct H as (H1 & _ & _ & _ & _ & H2). split; [exact H1|].
  specialize (H2 2000%Z (repo (snd demo_created)) (snd (AiDao.GetAIKey 2000%Z (KeyDigest (kv_Secret demo_view)) (repo (snd demo_created)))) _ eq_refl (surjective_pairing _)).
  destruct (fst (AiDao.GetAIKey 2000%Z (KeyDigest (kv_Secret demo_view)) (repo (snd demo_created)))) as [k|e]; [exact (proj1 H2)|discriminate Hok].
Defined.
Definition demo_record : AIRequest := mkAIRequest "req-1" 1 1 1 "chat" 200 12 (Some 4%Z) (Some 6%Z) true.
Lemma empty_sound : sound (mkAiTables ∅ ∅ ∅ [] []).
Proof. split; [constructor|constructor|intros proxy user; apply Nat.le_0_l|]. intros i j ki kj Hi. cbn in Hi. by apply lookup_empty_Some in Hi. Qed.
Lemma demo_start_tables : ai (repo demo_start) = mkAiTables ∅ ∅ ∅ [] [].
Proof. vm_compute. reflexivity. Qed.
Definition demo_retried : list ai_call := demo_setup ++ [ARecord demo_record; ARecord demo_record].
Definition demo_grant : AIGrant := mkGrant false 1 1 1 ∅ "" (mkApplication 0 [] 0 "" "" "" 0 "") "" None "".

(** An upstream that logs the bodies it is asked with. *)
#[export] Instance logging : Upstreams (list raw) := {| ask grant operation body n := (Answered 200 "text/event-stream" demo_lines None None, n ++ [body]) |}.
Definition demo_ask (secret : string) (now : Time) : InferenceRequest :=
  mkInference "POST" "v1/chat/completions" false None [] ["Bearer " +:+ secret] "" "" true (Some "{messages=hi;model=chat;stream=true}") (Ok "req-2") now 12 false true.
Abbreviation demo_infer := (Inference.handleAIInference (λ _ _ _ _ _, Err ErrUnsupported) (λ _, true) (λ _ _ _, ∅) (λ _ _, true) (λ _ _ _ _ _, (Err ErrResponse, [], no_usage)) (λ _ _ _ _, (Err ErrResponse, no_usage))).
Definition demo_call : InferenceRequest := demo_ask demo_secret 2000%Z.
Definition demo_done : (Answer + Answer) * (DemoService * list raw) := demo_infer demo_call 1 (demo_service, []).
Lemma demo_asked : snd (snd demo_done) = ["{stream_options={include_usage=true};stream=true;model=llama;messages=hi}"].
Proof. vm_compute. reflexivity. Qed.
Lemma only_key {A} (m : gmap N A) i j v : (map_to_list m).*1 = [i] → m !! j = Some v → j = i.
Proof.
  intros Hl Hj%elem_of_map_to_list. assert (j ∈ (map_to_list m).*1) as Hin by (apply list_elem_of_fmap; by exists (j, v)). rewrite Hl in Hin. by apply list_elem_of_singleton in Hin.
Qed.
Lemma demo_keys : (map_to_list (t_keys (ai (repo demo_service)))).*1 = [1%N].
Proof. vm_compute. reflexivity. Qed.
Lemma inference_admitted_witness :
  fst demo_done = inr (mkAnswer 200 "" (AStream ["{choices=hi;model=chat}"; "[DONE]"] false)) ∧ length (snd (snd demo_done)) = 1 ∧
  (∃ k, t_keys (ai (repo demo_service)) !! 1%N = Some k ∧ k_Digest k = KeyDigest demo_secret) ∧
  snd (snd (demo_infer (demo_ask demo_secret (1000 + 31 * AI.day)%Z) 1 (demo_service, []))) = [].
Proof.
  split_and!; [vm_compute; reflexivity|rewrite demo_asked; reflexivity| |vm_compute; reflexivity].
  pose proof (inference_admitted (λ _ _ _ _ _, Err ErrUnsupported) (λ _, true) (λ _ _ _, ∅) (λ _ _, true) (λ _ _ _ _ _, (Err ErrResponse, [], no_usage)) (λ _ _ _ _, (Err ErrResponse, no_usage))
    demo_call 1 (demo_service, [])) as H.
  fold demo_done in H. pose proof demo_asked as Hb. destruct demo_done as [reply w']. cbn [snd] in Hb.
  destruct H as [[Hn _]|(grant & prepared & rid & v & Ha & _)]; [cbn [snd] in Hn; congruence|]. destruct Ha as (secret & k & scope & Hs & Hk & Hd & _).
  assert (aiInferenceKey demo_call false = Some demo_secret) as Hkey by (vm_compute; reflexivity).
  change (aiInferenceKey demo_call false = Some secret) in Hs. rewrite Hkey in Hs. injection Hs as <-. cbn [fst] in Hk. pose proof (only_key _ _ _ _ demo_keys Hk) as Hi. rewrite Hi in Hk. exists k. split; [exact Hk|exact Hd].
Defined.
